(* ===== verification/_CoqProject ===== *)
-Q . S2P
Prelude.v
Contracts.v
RunnerContracts.v
BatchContracts.v
PluginContracts.v
DemoJson.v
Ids.v
Logs.v
StateStore.v
ResourceManager.v
ResourceOccupancy.v
ResourceTheorems.v
TaskRecords.v
TaskIndexes.v
IndexFacts.v
TaskPool.v
TaskClaiming.v
ClaimMerge.v
PoolInvariant.v
PoolHistory.v
PoolSteps.v
PoolKernelSteps.v
PoolForced.v
ClaimFacts.v
PoolOps.v
PoolTheorems.v
PoolWitnesses.v
TaskOccupancy.v
Registry.v
RegistryTheorems.v
RuntimeState.v
RuntimeTasks.v
BatchBuild.v
RuntimeRouting.v
RuntimeDispatch.v
RuntimeReload.v
RuntimeResources.v
RuntimeInvariant.v
RuntimeRuns.v
RuntimePasses.v
RuntimeOps.v
RuntimeTheorems.v
RuntimeClaims.v
ReloadTheorems.v
RuntimeWitnesses.v
ComponentWitnesses.v
WireBytes.v
WireProtocol.v
MsgPack.v
WireFrame.v
WireOperations.v
WireBinary.v
WireJsonl.v
WireWitnesses.v
ExecutionPolicy.v
CapabilityRequest.v
Portability.v
HostErrors.v
HostScheduler.v
ResolverPlugins.v
ResolverCapabilities.v
HostResolver.v
ResolverTheorems.v
ResolverGraph.v
HostWitnesses.v
HostCommands.v
HostActor.v
HostLoop.v
HostLoopTheorems.v
HostPassTheorems.v
HostFuel.v
HostReturns.v
HostPool.v
HostExecutor.v
HostActorWitnesses.v
HostCompletions.v
HostBoot.v
HostMux.v
SdkRunner.v
SdkPlugin.v
