(* ===== verification/Prelude.v ===== *)
(** * Mutsuki runtime: a shallow embedding in Rocq

    Mutsuki is a plugin runtime. A host submits tasks to a [CoreRuntime]
    (crates/mutsuki-runtime-core); the runtime leases ready tasks to runners,
    which are plugin objects, in batches, and routes what they return: output,
    follow-up tasks, state deltas, events, waits. Everything in the core is
    driven by a logical step. The host (crates/mutsuki-runtime-host) resolves a
    profile into a load plan, owns the core in an actor that takes commands,
    runs batches on worker pools and an async executor, supervises deadlines and
    tells subscribers what has ended. Plugins in other processes are reached
    over the wire protocol (crates/mutsuki-runtime-wire), plugins in dynamic
    libraries through an ABI of the same frames; authors write them with the SDK
    (crates/mutsuki-runtime-sdk). This development models the core, the contracts
    (crates/mutsuki-runtime-contracts), the wire protocol, the host's logic and
    the parts of the SDK that run with a plugin, operation by operation, and
    proves what makes them correct.

    ** The program and the files that model it

    - Data shared by all parts: [Contracts] (error.rs, task.rs, common.rs,
      resource/core.rs, batch/entry.rs), [RunnerContracts] (runner.rs and the
      budgets of runtime/scheduler.rs), [BatchContracts] (batch/, results and
      contexts of runner.rs), [PluginContracts] (plugin.rs, extension.rs,
      observability.rs, event.rs, trace.rs).
    - The logs: [Ids] (id.rs), [Logs] (logs.rs and trace.rs).
    - The state store: [StateStore] (state_store.rs).
    - The resource manager: [ResourceManager] and [ResourceOccupancy]
      (resource_manager.rs and resource_manager/), with [ResourceTheorems].
    - The task pool, the heart of the core: [TaskRecords], [TaskIndexes],
      [TaskPool], [TaskClaiming], [TaskOccupancy] (task_pool.rs and
      task_pool/). [IndexFacts], [ClaimMerge], [PoolInvariant], [PoolHistory],
      [PoolSteps], [PoolKernelSteps], [PoolForced], [ClaimFacts], [PoolOps]
      carry its invariant through every operation and [PoolTheorems] states
      what follows.
    - The registry: [Registry] (registry.rs, runner.rs), with
      [RegistryTheorems].
    - The runtime: [RuntimeState] (runtime.rs), [RuntimeTasks]
      (runtime/task_api.rs), [BatchBuild] (runner_loop/batch.rs,
      trace_metadata.rs), [RuntimeRouting] (failure_reporting.rs, kernel.rs,
      result_router.rs, completion_router.rs), [RuntimeDispatch]
      (runner_loop.rs, dispatch_build.rs, dispatch_selection.rs, executor.rs),
      [RuntimeReload] (runtime/reload.rs and reload/), [RuntimeResources]
      (runtime/resource_api.rs). [RuntimeInvariant], [RuntimeRuns],
      [RuntimePasses] and [RuntimeOps] show that every operation keeps the
      invariant of the runtime; [RuntimeTheorems], [RuntimeClaims] and
      [ReloadTheorems] state what follows.
    - The wire protocol: [WireBytes] (bytes and integers of a stream),
      [WireProtocol] (protocol.rs), [MsgPack] (binary/payload.rs and
      payload/structure.rs), [WireFrame] (binary/frame.rs), [WireOperations]
      (operations.rs), [WireBinary] (binary.rs), [WireJsonl] (jsonl.rs).
    - Contracts of deployments: [ExecutionPolicy] (execution_policy.rs),
      [CapabilityRequest] (capability_request.rs), [Portability]
      (portability.rs).
    - Resolving and scheduling: [HostErrors] (error.rs, and the strings and
      versions the resolver parses), [HostScheduler] (scheduler.rs),
      [ResolverPlugins], [ResolverCapabilities] and [HostResolver] (resolver/,
      resolver.rs, capabilities.rs), with [ResolverTheorems] and
      [ResolverGraph].
    - The host's actor: [HostCommands] (commands.rs, the configuration of
      host.rs, the messages), [HostActor] (the tables, the driver, cancellation
      and supervision of actor.rs, actor/cancellation.rs, and
      resource_router.rs), [HostLoop] (completions, scheduling passes, commands
      and the loop of actor.rs). [HostLoopTheorems] tracks every handler,
      [HostPassTheorems] what a hosted core never does, [HostFuel] that the
      loops end and [HostReturns] that the actor never panics.
    - The host's threads: [HostPool] (worker.rs), [HostExecutor]
      (async_executor.rs); [HostCompletions] (the completion hub and the waiting
      side of host.rs); [HostMux] (multiplexer.rs and multiplexer/, with the
      requests of binary.rs and jsonl.rs).
    - Assembling a host: [HostBoot] (bootstrapper.rs, the runner objects of the
      host, the service registry of the SDK, [HostRuntime::start] with the worker
      pools, the management threads and the thread of the actor; which threads
      start and which channels can be allocated is a parameter,
      [HostPlatform]).
    - Plugins: [SdkRunner] (the SDK's lib.rs: calls of async functions and the
      adapter that runs them) and [SdkPlugin] (the SDK's abi/ and plugin.rs, the
      host's abi_transport.rs and clients/).
    - [DemoJson] and the files named [..Witnesses] run the definitions on
      concrete inputs and apply the theorems there.

    ** How the code is represented

    - A method with [&mut self] is a computation [M S A := S → option (A * S)]:
      [None] is a panic (an overflow in checked arithmetic, an [expect] that
      fails, an index out of range); a [RuntimeResult] is a value of a sum type
      and leaves the state as far as the code had got when it returned the
      error. [let?] is the operator [?].
    - [u64] and [usize] are [N] with their bounds written where the code adds,
      saturates or casts; [i64] is [Z]; [f64] is the binary64 of the standard
      library's [SpecFloat]. Sums over a table that only count its records are
      kept in [N].
    - A [HashMap] or [BTreeMap] is a [gmap]; where the code iterates over a
      [BTreeMap] the model iterates in the order of its keys, and no modelled
      result depends on the order of a [HashMap]. A [VecDeque] is a list.
      Allocating a capacity of more than [isize::MAX] bytes is a panic
      ([with_capacity], [log_new]), so what claims and logs ask for is a
      precondition of the theorems that say they return ([allocatable],
      [logs_fit]); the capacity a vector already has is not part of the state.
      [Arc] is the value it shares, since nothing shared is mutated.
    - Code outside the repository is a parameter: [SerdeJson] (a JSON value and
      the length of its compact form), [SerdeTypes] (the derived conversions of
      deltas, events, effects and tasks) and [RunnerApi] (the [Runner] and
      [AsyncBatchHandler] objects of plugins, which may return anything). What a
      theorem relies on is a hypothesis: that the payload of a submitted task
      has a wire form ([serializes]) and that runners return such tasks
      ([runners_serialize]), at most a given number of them
      ([runners_bounded]). The serde encodings of the wire crate are parameters
      too ([JsonShape], [MessagePack], [WireSerde], [JsonText]). What they write
      need not read back as the value written (a local payload comes back as a
      row, an optional null as nothing): the round trips of the binary protocol
      speak of the image of a value, what the encoding reads back of what it
      writes ([mp_image], [received_request]), and assume nothing of it; those of
      the lines assume of the value at hand that it reads back.
    - The actor sees its surroundings through [RunnerControl] and [HostWorld]:
      the clock, the pools, the executor, management threads and resource
      providers, each call a function of the state of the world, so that any
      answer is possible at any time. Of the pools and of the executor the
      development has its own models, in which every access to shared memory is
      a step of one thread and the threads interleave in any order; atomic
      counters wrap around there. [send_never_refused] shows the law the actor
      relies on, that a refused dispatch comes back.
    - The messages of an actor's run are a list with the time-outs of its waits
      in it; answers and publications are logged in order.
    - The multiplexer is a step relation as well: every critical section and every
      operation on a channel is a step, what the stream does and when a wait ends
      are inputs.
    - The function of an async runner is a tree of calls ([AsyncProgram]); a poll
      runs it to its next call that is not ready. Gateways (trait objects) are
      records of functions over the state they share.

    ** Fuel and room

    Loops without a structural argument run on fuel that is shown to suffice:
    compacting the history, [n * n + n + 1] for [n] history entries (each round
    evicts one or rotates a protected one, and at most [n] protected ones are
    met in a row); the heap merge, one more than the queued keys; shrinking a
    log, the number of its records; decimal digits, 26; cancelling along
    awaits, one more than the tasks of the table, since every call makes one
    of them terminal; chunking, the length of the list; the actor's loop, a
    command with what is handled inside it and the drain before a reload, one
    more than the messages left ([actor_loops_end], [actor_returns]).
    [pool_ops_total] and [runtime_refines_components] prove that operations
    return, not only that they are right if they do. Counters of 64 bits can be
    exhausted; [room n s] says that [n] more task numbers, table entries and
    state versions fit and that the ids of [n] tasks fit in one allocation, and
    every operation has its cost ([rt_room]).

    ** What the theorems show

    - Pool: its indexes are those rebuilt from the task table; counters,
      history and waits agree with it; an operation under a lease succeeds
      exactly when the lease is the active, unexpired one, and a superseded
      lease never validates again while its record is kept; claims take the
      eligible tasks in dispatch order, all the budget leaves room for; records
      only move along the lifecycle, terminal
      ones not at all; every operation returns.
    - Components: exclusion and accounting of resource leases, receipts and
      values; compare-and-swap of the state store; bounds and accounting of the
      logs; closure of traces; consistency and freezing of the registry; exact
      validation of load plans and comparison of surfaces.
    - Runtime: every public operation of a reachable runtime returns and acts on
      the components only through their operations ([runtime_refines_components]),
      so all of the above holds of its parts at any time; a finished task wakes
      those who wait; claims are handed out or given back; late results change
      nothing; cancellation follows awaits; abort is final; the exact effect of
      commits and of a reload; conflict-free batches with consistent indices.
    - Wire: frames and streams of frames are read back as written, a stream cut
      off inside a frame is not taken for its end, a frame is accepted exactly
      when its header, its flags and its length are right, the structure
      check accepts exactly the payloads within its limits, negotiated limits
      are those of both sides, requests and responses survive both codecs as far
      as serde reads back what it writes.
    - Deployments: the variant chosen locally is the best one the policy allows;
      the profile's figures are those of the samples kept; the receipt store
      implements a bounded map from request ids to receipts.
    - Host: a resolved plan binds every protocol to a plugin that declares it,
      every active capability is backed by its providers, and requirements and
      permissions are met by capabilities they name; dispatch never
      exceeds what pools and limits leave; every command and question the actor
      handles is answered once; an abstract host that runs only operations of the
      core a message asks for, or cancels what is overdue, follows the actor
      ([host_refines_core], with [asked_for], [due] and [host_run]); a host is
      started exactly from what fits together, without a panic
      ([preparation_exact]), and its actor runs to its end ([booted_host_runs]);
      the counters of pools and executor are exact under every interleaving,
      budgets and isolation bounds hold, no dispatch is lost or run twice, reservations are
      given back once, and no subscriber misses a completion; every caller of the
      multiplexer is accounted for, gets the response to its own request, and
      neither class of requests holds up the other.
    - Plugins: an async runner does what its function would do with calls that
      block ([async_runner_as_blocking]); calls through the ABI are the calls
      themselves in both directions, up to the limits of the wire and to what
      serde reads back
      ([abi_host_call_exact], [plugin_session_refines]); a built plugin declares
      what it brings ([built_plugin_declared]).
    - Several theorems state behaviour that is likely not intended: an expired
      write lease blocks its resource for good ([expired_write_lease_stuck]);
      a commit task does not wake its waiters and a refused commit ends the pass
      ([kernel_commit_exact]); the late result of an evicted task stops its
      batch ([late_result_of_evicted_task_stops_batch]); a failing disposal
      leaves a reloading runtime without runners
      ([reload_dispose_error_empties_registry]); a hosted runtime never runs a
      kernel task, so nothing is ever committed
      ([hosted_state_store_unchanged]); cancelling one task of an async batch
      strands the others ([async_cancel_strands_batch_mates],
      [tick_deadline_strands_batch_mates]); a runner lost to a time-out stops
      the actor ([lost_runner_stops_actor]); workers isolated after they have
      finished can close a pool for good ([late_isolation_starves_pool]); the
      typed decoder of JSON lines skips a limit
      ([jsonl_typed_decoder_skips_limits]); which extensions are active depends
      on the order of the plugins ([pruning_depends_on_plugin_order]); a reload
      hides the isolation of a runner ([reload_drops_isolation]); an error
      response of one request fails the transport of all
      ([error_response_fails_transport]); cancelling the invocation of a batch
      drops one of its async functions ([cancel_keeps_first_entry]).

    ** Not modelled

    - Serialization itself (serde derives, JSON text, typed decoding of local
      payloads) is library code behind the parameters above.
    - Of the host: child processes (process.rs), what the management threads do
      once they run (management.rs), the handshake of the stream transports and the joining of
      their threads, the context objects plugins get (runtime_context.rs),
      backend.rs and manifest.rs.
    - Of the SDK: the builders of descriptors, plans and batches, which are records
      of their fields, async functions that await several calls at once, freeing
      the buffers of the ABI, the test doubles and the macros; the benchmarks,
      scripts and fuzz targets.
    - Tests, [Debug] output other than what ends up in events, and the accessors
      that return a field. *)

From stdpp Require Export base gmap strings list pretty sorting numbers fin_maps fin_map_dom.
From Stdlib Require Export NArith ZArith Lia.

#[export] Set Default Goal Selector "!".

(** The development's hints. *)
Create HintDb mutsuki.

(** ** Functional record update

    [r <| proj := v |>] is the Rust assignment [r.proj = v] on a value that is
    threaded explicitly. *)

Class Setter {R T : Type} (proj : R → T) : Type := set_field : (T → T) → R → R.
Arguments set_field {R T} proj {_} f r : simpl nomatch.

(** [derive_setter eta proj] builds the setter of [proj] from the eta
    expansion [eta] of the record it projects from. *)
Ltac derive_setter eta proj :=
  lazymatch type of proj with
  | ?R → ?T =>
      exact (λ (f : T → T) (r : R),
        ltac:(let e := eval cbv beta delta [eta] in (eta r) in
              let e' := eval pattern (proj r) in e in
              lazymatch e' with
              | ?g _ => let y := eval cbv beta in (g (f (proj r))) in exact y
              end))
  end.

Declare Scope mutsuki_scope.
Delimit Scope mutsuki_scope with mutsuki.
Open Scope mutsuki_scope.

Notation "r <| p := v |>" := (set_field p (λ _, v) r)
  (at level 1, left associativity, p at level 10) : mutsuki_scope.
Notation "r <| p ::= f |>" := (set_field p f r)
  (at level 1, left associativity, p at level 10) : mutsuki_scope.

(** ** Machine integers

    [u64] and [usize] (64-bit targets) are [N] with the bound written out where
    the code can reach it; [i64] is [Z]. *)

Definition u64_max : N := 18446744073709551615.
Definition usize_max : N := 18446744073709551615.

Definition saturating_add (a b : N) : N := N.min (a + b) u64_max.
Definition saturating_sub (a b : N) : N := (a - b)%N.
Definition saturating_mul (a b : N) : N := N.min (a * b) u64_max.

(** [Vec::len], [VecDeque::len], ... *)
Definition len {A} (l : list A) : N := N.of_nat (length l).

Lemma saturating_add_bound a b : (saturating_add a b ≤ u64_max)%N.
Proof. unfold saturating_add. lia. Qed.

Lemma saturating_add_exact a b :
  (a + b ≤ u64_max)%N → saturating_add a b = (a + b)%N.
Proof. unfold saturating_add. lia. Qed.

Lemma saturating_add_assoc a b c :
  saturating_add (saturating_add a b) c = saturating_add a (saturating_add b c).
Proof. unfold saturating_add. lia. Qed.

Lemma saturating_add_comm a b : saturating_add a b = saturating_add b a.
Proof. unfold saturating_add. lia. Qed.

Lemma len_app {A} (l k : list A) : len (l ++ k) = (len l + len k)%N.
Proof. unfold len. rewrite length_app. lia. Qed.

Lemma len_cons {A} (x : A) l : len (x :: l) = (1 + len l)%N.
Proof. unfold len. simpl. lia. Qed.

(** ** The state and panic monad

    A method that takes [&mut self] on a state [S] and returns [A] is a
    function [M S A]; [None] is a Rust panic ([expect], [unreachable!],
    arithmetic overflow with overflow checks on).  A fallible method returns
    [M S (RuntimeResult E A)]: an [Err] keeps the state the code had reached,
    there is no rollback. *)

Definition M (S A : Type) : Type := S → option (A * S).

Definition ret {S A} (a : A) : M S A := λ s, Some (a, s).
Definition bind {S A B} (c : M S A) (k : A → M S B) : M S B :=
  λ s, match c s with Some (a, s') => k a s' | None => None end.
Definition panic {S A} : M S A := λ _, None.
Definition get {S} : M S S := λ s, Some (s, s).
Definition put {S} (s : S) : M S unit := λ _, Some (tt, s).
Definition modify {S} (f : S → S) : M S unit := λ s, Some (tt, f s).

(** [expect]: a [None] panics. *)
Definition expect {S A} (o : option A) : M S A :=
  match o with Some a => ret a | None => panic end.

(** Addition with overflow checks. *)
Definition u64_add {S} (a b : N) : M S N :=
  if decide (a + b ≤ u64_max)%N then ret (a + b)%N else panic.

(** [Vec::with_capacity] and [VecDeque::with_capacity]: more bytes than
    [isize::MAX] panic with a capacity overflow.  [size_of] is the size of the
    element type on a 64-bit target; a request within [isize::MAX] is granted,
    since running out of memory aborts the process and is not a panic. *)
Definition isize_max : N := 9223372036854775807.

Class SizeOf (A : Type) : Type := size_of : N.
Arguments size_of A {_}.
#[export] Instance string_size : SizeOf string := 24%N.

Definition allocatable (A : Type) `{!SizeOf A} (n : N) : Prop := (n * size_of A ≤ isize_max)%N.
#[export] Instance allocatable_dec A `{!SizeOf A} n : Decision (allocatable A n).
Proof. unfold allocatable. apply _. Defined.

Definition with_capacity {S} (A : Type) `{!SizeOf A} (n : N) : M S unit :=
  if decide (allocatable A n) then ret tt else panic.

Notation "'let!' x := c 'in' k" := (bind c (λ x, k))
  (at level 10, x binder, c at level 100, k at level 200) : mutsuki_scope.
Notation "'let!' ' p := c 'in' k" := (bind c (λ x, match x with p => k end))
  (at level 10, p pattern, c at level 100, k at level 200) : mutsuki_scope.
Notation "c1 ;;! c2" := (bind c1 (λ _, c2))
  (at level 100, right associativity) : mutsuki_scope.

(** [for x in l { body }] *)
Fixpoint for_each {S A} (l : list A) (body : A → M S unit) : M S unit :=
  match l with
  | [] => ret tt
  | x :: l => body x ;;! for_each l body
  end.

(** [Result<A, E>] and the [?] operator. *)
Inductive Result (E A : Type) : Type :=
  | Ok (a : A)
  | Err (e : E).
Arguments Ok {E A} a.
Arguments Err {E A} e.

Definition is_ok {E A} (r : Result E A) : bool :=
  match r with Ok _ => true | Err _ => false end.

Definition rbind {E A B} (r : Result E A) (k : A → Result E B) : Result E B :=
  match r with Ok a => k a | Err e => Err e end.

Definition try_bind {S E A B} (c : M S (Result E A)) (k : A → M S (Result E B)) :
    M S (Result E B) :=
  bind c (λ r, match r with Ok a => k a | Err e => ret (Err e) end).

(** [let? x := c in k] is [let x = c?; k] in a [&mut self] method and
    [letr? x := c in k] the same in a function that only reads. *)
Notation "'let?' x := c 'in' k" := (try_bind c (λ x, k))
  (at level 10, x binder, c at level 100, k at level 200) : mutsuki_scope.
Notation "'letr?' x := c 'in' k" := (rbind c (λ x, k))
  (at level 10, x binder, c at level 100, k at level 200) : mutsuki_scope.
Notation "'letr?' ' p := c 'in' k" := (rbind c (λ x, match x with p => k end))
  (at level 10, p pattern, c at level 100, k at level 200) : mutsuki_scope.

(** [for x in l { body?; }] *)
Fixpoint try_for_each {S E A} (l : list A) (body : A → M S (Result E unit)) :
    M S (Result E unit) :=
  match l with
  | [] => ret (Ok tt)
  | x :: l => let? _ := body x in try_for_each l body
  end.

(** ** Deciding conditions of the code *)

Definition is_some_and {A} (o : option A) (p : A → bool) : bool :=
  match o with Some a => p a | None => false end.

Definition unwrap_or {A} (o : option A) (d : A) : A :=
  match o with Some a => a | None => d end.

(** ** Sorting as [sort], [sort_by_key] and the ordered iteration of
    [BTreeSet] and [BTreeMap] do it *)

(** [sort_by] is stable: insertion from the right keeps equal elements in their
    order. *)
Fixpoint sorted_insert {A} (R : relation A) `{!RelDecision R} (x : A) (l : list A) : list A :=
  match l with
  | [] => [x]
  | y :: l' => if decide (R x y) then x :: l else y :: sorted_insert R x l'
  end.

Definition stable_sort {A} (R : relation A) `{!RelDecision R} (l : list A) : list A :=
  foldr (sorted_insert R) [] l.

Section StableSort.
Context {A : Type} (R : relation A) `{!RelDecision R}.

Lemma sorted_insert_perm x l : sorted_insert R x l ≡ₚ x :: l.
Proof.
  induction l as [|y l IH]; [done|]. cbn. case_decide; [done|]. rewrite IH. constructor.
Qed.

Lemma stable_sort_Permutation l : stable_sort R l ≡ₚ l.
Proof. induction l as [|x l IH]; [done|]. cbn. rewrite sorted_insert_perm. by constructor. Qed.

Lemma sorted_insert_sorted `{!Transitive R, !Total R} x l : StronglySorted R l → StronglySorted R (sorted_insert R x l).
Proof.
  induction 1 as [|y l Hs IH Hall]; cbn; [by repeat constructor|]. case_decide as Hxy.
  - constructor; [by constructor|]. constructor; [done|]. eapply Forall_impl; [exact Hall|]. intros z. by transitivity y.
  - constructor; [done|]. rewrite sorted_insert_perm. constructor; [|done]. by destruct (total R x y).
Qed.

Lemma StronglySorted_stable_sort `{!Transitive R, !Total R} l : StronglySorted R (stable_sort R l).
Proof. induction l as [|x l IH]; [constructor|]. by apply sorted_insert_sorted. Qed.

(** Elements that satisfy [P], each not above the next ones, keep their order. *)
Lemma sorted_insert_filter (P : A → Prop) `{∀ x, Decision (P x)} x l :
  (∀ y, P x → P y → R x y) → filter P (sorted_insert R x l) = filter P (x :: l).
Proof.
  intros Heq. induction l as [|y l IH]; [done|]. cbn [sorted_insert]. case_decide as Hxy; [done|].
  rewrite filter_cons, IH, !filter_cons. repeat case_decide; [|done..]. by destruct Hxy; apply Heq.
Qed.

Lemma stable_sort_filter (P : A → Prop) `{∀ x, Decision (P x)} l :
  (∀ x y, P x → P y → R x y) → filter P (stable_sort R l) = filter P l.
Proof.
  intros Heq. induction l as [|x l IH]; [done|]. cbn [stable_sort foldr]. fold (stable_sort R l).
  rewrite sorted_insert_filter by (intros; by apply Heq). rewrite !filter_cons. by rewrite IH.
Qed.
End StableSort.

Definition sort_strings (l : list string) : list string := merge_sort String.le l.

(** The order [sort_by_key] sorts by. *)
Definition le_by {A} (key : A → N) (x y : A) : Prop := (key x ≤ key y)%N.

#[export] Instance le_by_dec {A} (key : A → N) : RelDecision (le_by key).
Proof. unfold le_by. intros x y. apply _. Defined.
#[export] Instance le_by_preorder {A} (key : A → N) : PreOrder (le_by key).
Proof. unfold le_by. split; [intros x|intros x y z]; lia. Qed.
#[export] Instance le_by_total {A} (key : A → N) : Total (le_by key).
Proof. unfold le_by. intros x y. lia. Qed.

Definition sort_by_key {A} (key : A → N) (l : list A) : list A :=
  stable_sort (le_by key) l.

(** The order of [sort_by(|a, b| a.key.cmp(&b.key))] for a string key. *)
Definition le_by_str {A} (key : A → string) (x y : A) : Prop := String.le (key x) (key y).

#[export] Instance le_by_str_dec {A} (key : A → string) : RelDecision (le_by_str key).
Proof. unfold le_by_str. intros x y. apply _. Defined.
#[export] Instance le_by_str_preorder {A} (key : A → string) : PreOrder (le_by_str key).
Proof. unfold le_by_str. split; [intros x; reflexivity|intros x y z; apply transitivity]. Qed.
#[export] Instance le_by_str_total {A} (key : A → string) : Total (le_by_str key).
Proof. unfold le_by_str. intros x y. apply total, _. Qed.

Definition sort_by_str {A} (key : A → string) (l : list A) : list A := stable_sort (le_by_str key) l.

(** [Vec::dedup]: consecutive equal elements collapse. *)
Fixpoint dedup `{EqDecision A} (l : list A) : list A :=
  match l with
  | [] => []
  | x :: l' =>
      match dedup l' with
      | [] => [x]
      | y :: k => if decide (x = y) then y :: k else x :: y :: k
      end
  end.

(** Iteration order of a [BTreeSet<String>]. *)
Definition btree_elements (s : gset string) : list string := sort_strings (elements s).

(** Iteration order of a [BTreeMap<u64, V>]. *)
Definition btree_to_list {V} (m : gmap N V) : list (N * V) :=
  sort_by_key fst (map_to_list m).

Lemma sort_strings_perm l : sort_strings l ≡ₚ l.
Proof. apply merge_sort_Permutation. Qed.

Lemma sort_strings_sorted l : StronglySorted String.le (sort_strings l).
Proof. apply StronglySorted_merge_sort; apply _. Qed.

Lemma elem_of_sort_strings x l : x ∈ sort_strings l ↔ x ∈ l.
Proof. by rewrite sort_strings_perm. Qed.

Lemma elem_of_btree_elements x s : x ∈ btree_elements s ↔ x ∈ s.
Proof. unfold btree_elements. by rewrite elem_of_sort_strings, elem_of_elements. Qed.

Lemma NoDup_btree_elements s : NoDup (btree_elements s).
Proof. unfold btree_elements. rewrite sort_strings_perm. apply NoDup_elements. Qed.

(** Two sorted lists of strings with the same elements are equal: what a
    [sort] returns does not depend on the order it was given. *)
Lemma sort_strings_unique l k : l ≡ₚ k → sort_strings l = sort_strings k.
Proof.
  intros Hp. apply (StronglySorted_unique String.le).
  - apply sort_strings_sorted.
  - apply sort_strings_sorted.
  - by rewrite !sort_strings_perm.
Qed.

Lemma elem_of_sort_by_str {A} (key : A → string) x (l : list A) : x ∈ sort_by_str key l ↔ x ∈ l.
Proof. unfold sort_by_str. by rewrite stable_sort_Permutation. Qed.

Lemma sort_by_str_sorted {A} (key : A → string) (l : list A) :
  StronglySorted String.le (key <$> sort_by_str key l).
Proof.
  assert (StronglySorted (le_by_str key) (sort_by_str key l)) as Hs
    by (apply StronglySorted_stable_sort; apply _).
  induction Hs as [|x k Hs IH Hall]; cbn; constructor; [done|]. by apply Forall_fmap.
Qed.

Lemma StronglySorted_sublist {A} (R : relation A) (l k : list A) :
  l `sublist_of` k → StronglySorted R k → StronglySorted R l.
Proof.
  induction 1 as [|x l k Hsub IH|x l k Hsub IH]; intros Hs; [done|..];
    apply StronglySorted_inv in Hs as [Hs Hall]; [|by apply IH].
  constructor; [by apply IH|]. rewrite Forall_forall in *. intros y Hy. apply Hall.
  by eapply sublist_subseteq.
Qed.

Lemma Forall_sublist {A} (P : A → Prop) (l k : list A) : l `sublist_of` k → Forall P k → Forall P l.
Proof. rewrite !Forall_forall. intros Hsub HP x Hx. apply HP. by eapply sublist_subseteq. Qed.

Lemma filter_none {A} (P : A → Prop) `{∀ x, Decision (P x)} (l : list A) :
  (∀ x, x ∈ l → ¬ P x) → filter P l = [].
Proof.
  induction l as [|x l IH]; intros Hl; [done|]. rewrite filter_cons_False by (apply Hl; set_solver).
  apply IH. set_solver.
Qed.

Lemma filter_all {A} (P : A → Prop) `{∀ x, Decision (P x)} (l : list A) :
  (∀ x, x ∈ l → P x) → filter P l = l.
Proof.
  induction l as [|x l IH]; intros Hl; [done|]. rewrite filter_cons_True by (apply Hl; set_solver).
  f_equal. apply IH. set_solver.
Qed.

(** ** Total correctness

    [runs c s Q]: from [s] the method returns (it does not panic) and its
    result and final state satisfy [Q]. *)

Definition runs {S A} (c : M S A) (s : S) (Q : A → S → Prop) : Prop :=
  ∃ a s', c s = Some (a, s') ∧ Q a s'.

Lemma runs_ret {S A} (a : A) (s : S) (Q : A → S → Prop) : Q a s → runs (ret a) s Q.
Proof. intros HQ. by exists a, s. Qed.

Lemma runs_bind {S A B} (c : M S A) (k : A → M S B) s (Q : B → S → Prop) :
  runs c s (λ a s', runs (k a) s' Q) → runs (bind c k) s Q.
Proof. intros (a & s' & Hc & b & s'' & Hk & HQ). exists b, s''. unfold bind. by rewrite Hc. Qed.

Lemma runs_get {S} (s : S) (Q : S → S → Prop) : Q s s → runs get s Q.
Proof. intros HQ. by exists s, s. Qed.

Lemma runs_put {S} (s s' : S) (Q : unit → S → Prop) : Q tt s' → runs (put s') s Q.
Proof. intros HQ. by exists tt, s'. Qed.

Lemma runs_modify {S} (f : S → S) s (Q : unit → S → Prop) : Q tt (f s) → runs (modify f) s Q.
Proof. intros HQ. by exists tt, (f s). Qed.

Lemma runs_with_capacity {S} A `{!SizeOf A} n (s : S) (Q : unit → S → Prop) :
  allocatable A n → Q tt s → runs (with_capacity A n) s Q.
Proof. intros Hn HQ. unfold with_capacity. rewrite decide_True by done. by exists tt, s. Qed.

Lemma allocatable_le A `{!SizeOf A} n m : (n ≤ m)%N → allocatable A m → allocatable A n.
Proof. unfold allocatable. nia. Qed.

Lemma runs_mono {S A} (c : M S A) s (Q Q' : A → S → Prop) :
  runs c s Q → (∀ a s', Q a s' → Q' a s') → runs c s Q'.
Proof. intros (a & s' & Hc & HQ) H. exists a, s'. auto. Qed.

Lemma runs_eq {S A} (c : M S A) s a s' (Q : A → S → Prop) :
  c s = Some (a, s') → Q a s' → runs c s Q.
Proof. intros. by exists a, s'. Qed.

Lemma runs_det {S A} (c : M S A) s a s' (Q : A → S → Prop) :
  runs c s Q → c s = Some (a, s') → Q a s'.
Proof. intros (b & s'' & Hc & HQ) Hc'. by simplify_eq. Qed.

(** Inversion of the runs of a sequence *)
Lemma bind_inv {S A B} (c : M S A) (k : A → M S B) s b s' :
  bind c k s = Some (b, s') → ∃ a s1, c s = Some (a, s1) ∧ k a s1 = Some (b, s').
Proof. unfold bind. destruct (c s) as [[a s1]|]; [|done]. eauto. Qed.

Lemma bind_run {S A B} (c : M S A) (k : A → M S B) s a s' : c s = Some (a, s') → bind c k s = k a s'.
Proof. intros Hc. unfold bind. by rewrite Hc. Qed.

(** A loop whose body takes the invariant for the elements still to do to the
    one for the rest. *)
Lemma runs_for_each {S A} (I : list A → S → Prop) (l : list A) (body : A → M S unit) s :
  (∀ x l s, I (x :: l) s → runs (body x) s (λ _, I l)) →
  I l s → runs (for_each l body) s (λ _, I []).
Proof.
  intros Hbody. revert s. induction l as [|x l IH]; intros s HI; simpl.
  - by apply runs_ret.
  - apply runs_bind. eapply runs_mono; [by apply Hbody|]. intros [] s' HI'. by apply IH.
Qed.

(** ** Frame reasoning

    [leaves f c s]: if the method returns from [s], the part [f] of the state
    is what it was. *)

Definition leaves {S A B} (f : S → B) (c : M S A) (s : S) : Prop :=
  ∀ a s', c s = Some (a, s') → f s' = f s.

Section Leaves.
Context {S B : Type} (f : S → B).

Lemma leaves_ret {A} (a : A) s : leaves f (ret a) s.
Proof. by intros b s' [= _ <-]. Qed.

Lemma leaves_panic {A} s : leaves f (panic : M S A) s.
Proof. done. Qed.

Lemma leaves_get {A} (k : S → M S A) s : leaves f (k s) s → leaves f (bind get k) s.
Proof. done. Qed.

Lemma leaves_put t s : f t = f s → leaves f (put t) s.
Proof. by intros Ht a s' [= _ <-]. Qed.

Lemma leaves_modify g s : f (g s) = f s → leaves f (modify g) s.
Proof. by intros Ht a s' [= _ <-]. Qed.

Lemma leaves_expect {A} (o : option A) s : leaves f (expect o) s.
Proof. destruct o; [apply leaves_ret|apply leaves_panic]. Qed.

Lemma leaves_u64_add a b s : leaves f (u64_add a b) s.
Proof. unfold u64_add. case_decide; [apply leaves_ret|apply leaves_panic]. Qed.

Lemma leaves_bind {A C} (c : M S A) (k : A → M S C) s :
  leaves f c s → (∀ a s', f s' = f s → leaves f (k a) s') → leaves f (bind c k) s.
Proof.
  intros Hc Hk a s'. unfold bind. destruct (c s) as [[b t]|] eqn:E; [|done]. intros Ht.
  rewrite (Hk b t (Hc _ _ E) _ _ Ht). by apply (Hc b).
Qed.

Lemma leaves_try {E A C} (c : M S (Result E A)) (k : A → M S (Result E C)) s :
  leaves f c s → (∀ a s', f s' = f s → leaves f (k a) s') → leaves f (try_bind c k) s.
Proof. intros Hc Hk. apply leaves_bind; [done|]. intros [a|e] t Ht; [by apply Hk|apply leaves_ret]. Qed.

Lemma leaves_for_each {A} (l : list A) (body : A → M S unit) s :
  (∀ x s, leaves f (body x) s) → leaves f (for_each l body) s.
Proof.
  intros Hb. revert s. induction l as [|x l IH]; intros s; [apply leaves_ret|].
  cbn [for_each]. by apply leaves_bind.
Qed.
End Leaves.

(** Goes through the body of a method that leaves [f] alone; the methods it
    calls are found in the database [frame]. *)
Create HintDb frame.
Ltac leaves_go :=
  intros; cbv zeta;
  lazymatch goal with
  | |- leaves _ (ret _) _ => apply leaves_ret
  | |- leaves _ panic _ => apply leaves_panic
  | |- leaves _ (expect _) _ => apply leaves_expect
  | |- leaves _ (u64_add _ _) _ => apply leaves_u64_add
  | |- leaves _ (with_capacity _ _) _ => unfold with_capacity; leaves_go
  | |- leaves _ (put _) _ => apply leaves_put; reflexivity
  | |- leaves _ (bind get _) _ => apply leaves_get; leaves_go
  | |- leaves _ (try_bind _ _) _ => apply leaves_try; leaves_go
  | |- leaves _ (bind _ _) _ => apply leaves_bind; leaves_go
  | |- leaves _ (for_each _ _) _ => apply leaves_for_each; leaves_go
  | |- leaves _ (modify _) _ => apply leaves_modify; solve [reflexivity | auto with frame]
  | |- leaves _ (match ?x with _ => _ end) _ => destruct x; leaves_go
  | |- leaves _ _ _ => solve [auto with frame]
  end.
