(* ===== verification/Contracts.v ===== *)
(** * Runtime contracts

    The serializable data the components exchange
    (crates/mutsuki-runtime-contracts/src): errors, tasks, leases, awaits,
    resources, runner descriptors, events and spans.  Field names carry a short
    prefix per record because Rocq projections share one name space. *)

From Stdlib Require Import SpecFloat.
From S2P Require Import Prelude.

(** ** The JSON value type

    [serde_json] is a third-party crate: its [Value] is a parameter, with its
    [PartialEq] as [json_eqb], [json!({})] as [json_empty_object] and
    [Value::Null] as [json_null].
    [json_chunks v] is what [serde_json::to_writer] does with a writer that
    accepts everything it is given: the sizes of the buffers it writes, or the
    text of the error it stops with. *)
Class SerdeJson : Type := {
  Value : Type;
  json_eqb : Value → Value → bool;
  json_empty_object : Value;
  json_null : Value;
  json_chunks : Value → Result string (list N)
}.

(** ** Identifiers (common.rs): all of them are [String] *)

Abbreviation RefId := string (only parsing).
Abbreviation TaskId := string (only parsing).
Abbreviation RunnerId := string (only parsing).
Abbreviation PluginId := string (only parsing).
Abbreviation ExecutorId := string (only parsing).
Abbreviation BindingId := string (only parsing).
Abbreviation ProtocolId := string (only parsing).
Abbreviation TaskLeaseId := string (only parsing).
Abbreviation SurfaceId := string (only parsing).
Abbreviation TraceId := string (only parsing).

(** [f64] is the IEEE 754 binary64 of the specification floats. *)
Inductive ScalarValue : Type :=
  | ScalarString (s : string)
  | ScalarInt (i : Z)
  | ScalarFloat (f : spec_float)
  | ScalarBool (b : bool).

(** [n as f64] for a [u64] *)
Definition u64_as_f64 (n : N) : spec_float :=
  binary_normalize 53 1024 (Z.of_N n) 0 false.

(** [n as i64] for a [u64] or a [usize]: the bits are reinterpreted. *)
Definition u64_as_i64 (n : N) : Z :=
  if decide (n < 2 ^ 63)%N then Z.of_N n else (Z.of_N n - 2 ^ 64)%Z.

(** ** Errors (error.rs) *)
Inductive RuntimeError : Type := MkRuntimeError {
  e_code : string;
  e_source : string;
  e_route : string;
  e_lost_capability : option string;
  e_recovery : option string;
  e_cause : option RuntimeError;
  e_evidence : gmap string ScalarValue
}.

Definition runtime_error (code source route : string) : RuntimeError :=
  {| e_code := code; e_source := source; e_route := route;
     e_lost_capability := None; e_recovery := None; e_cause := None;
     e_evidence := ∅ |}.

Definition with_evidence (key : string) (v : ScalarValue) (e : RuntimeError) : RuntimeError :=
  {| e_code := e_code e; e_source := e_source e; e_route := e_route e;
     e_lost_capability := e_lost_capability e; e_recovery := e_recovery e;
     e_cause := e_cause e; e_evidence := <[key := v]> (e_evidence e) |}.

(** [RuntimeFailure] boxes a [RuntimeError]; [RuntimeResult<T>] is
    [Result<T, RuntimeFailure>]. *)
Abbreviation RuntimeResult := (Result RuntimeError).

Definition runtime_failure {A} (code source route : string) : RuntimeResult A :=
  Err (runtime_error code source route).

Definition ERR_RUNTIME_HOST_FAILED : string := "runtime.host_failed".
Definition ERR_RUNTIME_NOT_ACCEPTING : string := "runtime.not_accepting".
Definition ERR_RUNTIME_ABORTED : string := "runtime.aborted".
Definition ERR_CAPABILITY_EXHAUSTED : string := "capability.exhausted".
Definition ERR_TASK_NOT_FOUND : string := "task.not_found".
Definition ERR_TASK_DUPLICATE : string := "task.duplicate".
Definition ERR_TASK_CLAIM_CONFLICT : string := "task.claim_conflict".
Definition ERR_TASK_EXPIRED : string := "task.expired".
Definition ERR_TASK_DEAD_LETTER : string := "task.dead_letter".
Definition ERR_TASK_UNSUPPORTED : string := "task.unsupported".
Definition ERR_RUNNER_NOT_FOUND : string := "runner.not_found".
Definition ERR_RUNNER_PURITY_VIOLATION : string := "runner.purity_violation".
Definition ERR_REGISTRY_FROZEN : string := "registry.frozen".
Definition ERR_REGISTRY_UNAUTHORIZED : string := "registry.unauthorized".
Definition ERR_STATE_CONFLICT : string := "state.conflict".
Definition ERR_RESOURCE_NOT_FOUND : string := "resource.not_found".
Definition ERR_RESOURCE_LEASE_EXPIRED : string := "resource.lease_expired".
Definition ERR_RESOURCE_GENERATION_MISMATCH : string := "resource.generation_mismatch".
Definition ERR_RELOAD_BLOCKED : string := "plugin.reload_blocked".

(** ** Resources (resource/core.rs) *)

Record ResourceId : Type := MkResourceId {
  ri_kind_id : string;
  ri_slot_id : string;
  ri_generation : N;
  ri_version : N
}.

Inductive ResourceSemantic : Type :=
  | FrozenValue | VersionedSnapshot | ReadOnlyFact | CowVersionedState
  | CapabilityResource | StreamResource | TransactionResource.

#[export] Instance ResourceSemantic_eq_dec : EqDecision ResourceSemantic.
Proof. solve_decision. Defined.

Inductive ResourceSealState : Type := Writable | Sealed.

Inductive ResourceLifetime : Type :=
  | BorrowedUntilTaskEnd | LeaseUntil (step : N) | Persistent | ExternalManaged.

Inductive ResourceAccess : Type :=
  | AccessInline
  | MmapFile (path : string) (offset mlen : N) (readonly : bool)
  | SharedMemory (name : string) (offset mlen : N) (readonly : bool)
  | AccessBlob (store_id key : string)
  | AccessStream (endpoint : string)
  | AccessProviderRpc (provider_id method : string).

Record LeaseToken : Type := MkLeaseToken {
  tok_token_id : string;
  tok_ref_id : RefId;
  tok_owner : string;
  tok_mode : string;
  tok_expires_at_step : option N;
  tok_generation : N
}.

#[export] Instance LeaseToken_eq_dec : EqDecision LeaseToken.
Proof. solve_decision. Defined.

Record ExclusiveWriteLease : Type := MkExclusiveWriteLease {
  xl_token : LeaseToken
}.

Record ResourceRef : Type := MkResourceRef {
  rr_ref_id : RefId;
  rr_resource_id : ResourceId;
  rr_semantic : ResourceSemantic;
  rr_provider_id : string;
  rr_resource_kind : string;
  rr_schema : string;
  rr_version : N;
  rr_generation : N;
  rr_access : ResourceAccess;
  rr_size_hint : option N;
  rr_content_hash : option string;
  rr_lifetime : ResourceLifetime;
  rr_lease : option LeaseToken;
  rr_seal_state : ResourceSealState
}.

Record ResourceCellRef : Type := MkResourceCellRef {
  cr_cell_id : string;
  cr_resource_kind : string;
  cr_owner_plugin_id : string;
  cr_schema : string;
  cr_generation : N;
  cr_health : string;
  cr_reload_policy : string
}.

Record ResourceLease : Type := MkResourceLease {
  rl_lease_id : string;
  rl_cell_id : string;
  rl_borrower_task_id : TaskId;
  rl_borrower_executor_id : ExecutorId;
  rl_mode : string;
  rl_expires_at_step : option N;
  rl_generation : N
}.

#[export] Instance ResourceLease_eq_dec : EqDecision ResourceLease.
Proof. solve_decision. Defined.

Inductive ValueStorage : Type :=
  | InlineSmall | LocalValueStore | StorageBlob | StorageStream | StorageProviderRpc.

Record ValueRef : Type := MkValueRef {
  vr_ref_id : RefId;
  vr_provider_id : string;
  vr_schema : string;
  vr_version : N;
  vr_generation : N;
  vr_size_hint : option N;
  vr_content_hash : option string;
  vr_lifetime : ResourceLifetime;
  vr_storage : ValueStorage
}.

Record SnapshotDescriptor : Type := MkSnapshotDescriptor {
  sd_snapshot_ref : ResourceRef;
  sd_source_ref : ResourceRef;
  sd_source_version : N;
  sd_snapshot_version : N;
  sd_is_stale : bool;
  sd_is_latest : bool
}.

(** ** Batch vocabulary (batch/entry.rs) *)

Inductive DispatchLane : Type := LaneControl | LaneInteractive | LaneNormal | LaneBackground | LaneBulk.

#[export] Instance DispatchLane_eq_dec : EqDecision DispatchLane.
Proof. solve_decision. Defined.

(** The position in the declaration, which is what [derive(Ord)] compares. *)
Definition lane_index (l : DispatchLane) : nat :=
  match l with
  | LaneControl => 0 | LaneInteractive => 1 | LaneNormal => 2
  | LaneBackground => 3 | LaneBulk => 4
  end.

#[export] Instance DispatchLane_countable : Countable DispatchLane.
Proof.
  refine (inj_countable' lane_index
    (λ n, match n with 0 => LaneControl | 1 => LaneInteractive | 2 => LaneNormal
                  | 3 => LaneBackground | _ => LaneBulk end) _).
  by intros [].
Defined.

Inductive OrderingRequirement : Type :=
  | OrderingNone | PreserveSubmitOrder
  | SameResourceOrder (ref_id : RefId)
  | StrictSequence (sequence_id : string).

Inductive ResourceAccessMode : Type := ModeRead | ModeWrite | ModeExclusiveWrite.

Record ResourceRequirement : Type := MkResourceRequirement {
  rq_ref_id : RefId;
  rq_mode : ResourceAccessMode;
  rq_expected_version : option N
}.

(** ** Tasks (task.rs) *)

Inductive TaskStatus : Type :=
  | Created | Ready | Running | Waiting | Blocked
  | Completed | Failed | Cancelled | Expired | DeadLetter.

#[export] Instance TaskStatus_eq_dec : EqDecision TaskStatus.
Proof. solve_decision. Defined.

Record VersionExpectation : Type := MkVersionExpectation {
  ve_ref_id : RefId;
  ve_expected_version : N
}.

Record TaskLease : Type := MkTaskLease {
  l_lease_id : TaskLeaseId;
  l_task_id : TaskId;
  l_attempt_generation : N;
  l_runner_id : RunnerId;
  l_executor_id : ExecutorId;
  l_registry_generation : N;
  l_acquired_at_step : N;
  l_expires_at_step : option N
}.

#[export] Instance TaskLease_eq_dec : EqDecision TaskLease.
Proof. solve_decision. Defined.

Inductive CancelPolicy : Type := Cascade | Detach | Shield.

#[export] Instance CancelPolicy_eq_dec : EqDecision CancelPolicy.
Proof. solve_decision. Defined.

Record TaskHandle : Type := MkTaskHandle {
  h_task_id : TaskId;
  h_protocol_id : ProtocolId;
  h_target_binding_id : option BindingId;
  h_cancel_policy : CancelPolicy;
  h_trace_id : option TraceId;
  h_correlation_id : option string
}.

Inductive WakeCondition : Type :=
  | Timer (ready_at_step : N)
  | RetryAfter (ready_at_step : N)
  | ResourceEvent (ref_id : RefId)
  | ExternalSignal (signal_id : string)
  | ManualWake.

Record TaskStepContinuation : Type := MkTaskStepContinuation {
  cont_continuation : ResourceRef;
  cont_wake : option WakeCondition;
  cont_reason : option string
}.

Record TaskAwait : Type := MkTaskAwait {
  aw_parent_task_id : TaskId;
  aw_child : TaskHandle;
  aw_continuation : TaskStepContinuation;
  aw_cancel_policy : CancelPolicy
}.

Inductive ConflictPolicy : Type := PolicyRetry | PolicyMerge | PolicyDiscard | PolicyFail | EmitConflictTask.

Section Payloads.
Context `{SJ : SerdeJson}.

(** A local payload is a typed Rust value behind [dyn Any]; what the kernel
    can observe of it is its type name and the result of its [to_json]
    serializer, [None] when serialization fails. *)
Record LocalPayload : Type := MkLocalPayload {
  lp_type_name : string;
  lp_to_json : option Value
}.

Inductive TaskPayload : Type :=
  | PayloadJson (v : Value)
  | PayloadLocal (l : LocalPayload).

(** [as_value]: [None] is the panic of [materialize_json] on a local payload
    that does not serialize. *)
Definition as_value (p : TaskPayload) : option Value :=
  match p with
  | PayloadJson v => Some v
  | PayloadLocal l => lp_to_json l
  end.

Definition is_local (p : TaskPayload) : bool :=
  match p with PayloadJson _ => false | PayloadLocal _ => true end.

Record Task : Type := MkTask {
  t_task_id : TaskId;
  t_protocol_id : ProtocolId;
  t_priority : Z;
  t_ready_at_step : option N;
  t_payload : TaskPayload;
  t_input_refs : list RefId;
  t_output_ref : option RefId;
  t_continuation_ref : option RefId;
  t_target_binding_id : option BindingId;
  t_lease_id : option TaskLeaseId;
  t_trace_id : option TraceId;
  t_expected_versions : list VersionExpectation;
  t_correlation_id : option string;
  t_idempotency_key : option string;
  t_runner_hint : option string;
  t_registry_generation : N;
  t_required_surfaces : list SurfaceId;
  t_dispatch_lane : DispatchLane;
  t_ordering : OrderingRequirement;
  t_resource_requirements : list ResourceRequirement;
  t_created_sequence : N
}.

Definition Task_eta (r : Task) : Task :=
  {| t_task_id := t_task_id r;
     t_protocol_id := t_protocol_id r;
     t_priority := t_priority r;
     t_ready_at_step := t_ready_at_step r;
     t_payload := t_payload r;
     t_input_refs := t_input_refs r;
     t_output_ref := t_output_ref r;
     t_continuation_ref := t_continuation_ref r;
     t_target_binding_id := t_target_binding_id r;
     t_lease_id := t_lease_id r;
     t_trace_id := t_trace_id r;
     t_expected_versions := t_expected_versions r;
     t_correlation_id := t_correlation_id r;
     t_idempotency_key := t_idempotency_key r;
     t_runner_hint := t_runner_hint r;
     t_registry_generation := t_registry_generation r;
     t_required_surfaces := t_required_surfaces r;
     t_dispatch_lane := t_dispatch_lane r;
     t_ordering := t_ordering r;
     t_resource_requirements := t_resource_requirements r;
     t_created_sequence := t_created_sequence r |}.
#[export] Instance set_t_priority : Setter t_priority := ltac:(derive_setter Task_eta t_priority).
#[export] Instance set_t_ready_at_step : Setter t_ready_at_step := ltac:(derive_setter Task_eta t_ready_at_step).
#[export] Instance set_t_input_refs : Setter t_input_refs := ltac:(derive_setter Task_eta t_input_refs).
#[export] Instance set_t_continuation_ref : Setter t_continuation_ref := ltac:(derive_setter Task_eta t_continuation_ref).
#[export] Instance set_t_lease_id : Setter t_lease_id := ltac:(derive_setter Task_eta t_lease_id).
#[export] Instance set_t_trace_id : Setter t_trace_id := ltac:(derive_setter Task_eta t_trace_id).
#[export] Instance set_t_expected_versions : Setter t_expected_versions := ltac:(derive_setter Task_eta t_expected_versions).
#[export] Instance set_t_correlation_id : Setter t_correlation_id := ltac:(derive_setter Task_eta t_correlation_id).
#[export] Instance set_t_idempotency_key : Setter t_idempotency_key := ltac:(derive_setter Task_eta t_idempotency_key).
#[export] Instance set_t_registry_generation : Setter t_registry_generation := ltac:(derive_setter Task_eta t_registry_generation).
#[export] Instance set_t_required_surfaces : Setter t_required_surfaces := ltac:(derive_setter Task_eta t_required_surfaces).
#[export] Instance set_t_dispatch_lane : Setter t_dispatch_lane := ltac:(derive_setter Task_eta t_dispatch_lane).
#[export] Instance set_t_ordering : Setter t_ordering := ltac:(derive_setter Task_eta t_ordering).
#[export] Instance set_t_target_binding_id : Setter t_target_binding_id := ltac:(derive_setter Task_eta t_target_binding_id).
#[export] Instance set_t_runner_hint : Setter t_runner_hint := ltac:(derive_setter Task_eta t_runner_hint).
#[export] Instance set_t_resource_requirements : Setter t_resource_requirements := ltac:(derive_setter Task_eta t_resource_requirements).
#[export] Instance set_t_created_sequence : Setter t_created_sequence := ltac:(derive_setter Task_eta t_created_sequence).

Definition Task_new (task_id protocol_id : string) (payload : TaskPayload) : Task :=
  {| t_task_id := task_id; t_protocol_id := protocol_id; t_priority := 0;
     t_ready_at_step := None; t_payload := payload; t_input_refs := [];
     t_output_ref := None; t_continuation_ref := None; t_target_binding_id := None;
     t_lease_id := None; t_trace_id := None; t_expected_versions := [];
     t_correlation_id := None; t_idempotency_key := None; t_runner_hint := None;
     t_registry_generation := 0; t_required_surfaces := [];
     t_dispatch_lane := LaneNormal; t_ordering := OrderingNone;
     t_resource_requirements := []; t_created_sequence := 0 |}.

(** [Task::derive_with_protocol] *)
Definition derive_with_protocol (self : Task) (task_id protocol_id : string) : Task :=
  (Task_new task_id protocol_id (t_payload self))
    <| t_priority := t_priority self |>
    <| t_trace_id := t_trace_id self |>
    <| t_correlation_id :=
         match t_correlation_id self with
         | Some c => Some c
         | None => Some (t_task_id self)
         end |>
    <| t_idempotency_key := t_idempotency_key self |>
    <| t_input_refs := t_input_refs self |>
    <| t_expected_versions := t_expected_versions self |>
    <| t_required_surfaces := t_required_surfaces self |>
    <| t_dispatch_lane := t_dispatch_lane self |>
    <| t_ordering := t_ordering self |>
    <| t_resource_requirements := t_resource_requirements self |>
    <| t_registry_generation := t_registry_generation self |>.

(** ** State (task.rs) and plans (resource/core.rs) *)

Record StateDelta : Type := MkStateDelta {
  sdl_target_ref : RefId;
  sdl_expected_version : N;
  sdl_patch : Value;
  sdl_conflict_policy : ConflictPolicy
}.

Record PatchDescriptor : Type := MkPatchDescriptor {
  pd_patch_id : string;
  pd_target_ref : ResourceRef;
  pd_base_version : N;
  pd_conflict_policy : string;
  pd_operations : Value
}.

Record ReadPlan : Type := MkReadPlan {
  rp_plan_id : string;
  rp_resource : ResourceRef;
  rp_operation : string;
  rp_args : Value
}.

Record WritePlan : Type := MkWritePlan {
  wp_plan_id : string;
  wp_resource : ResourceRef;
  wp_base_version : N;
  wp_conflict_policy : string;
  wp_patch : PatchDescriptor;
  wp_returning : option ReadPlan
}.

Record StreamPlan : Type := MkStreamPlan {
  sp_plan_id : string;
  sp_resource : ResourceRef;
  sp_operation : string;
  sp_args : Value
}.

Record ExportPlan : Type := MkExportPlan {
  xp_plan_id : string;
  xp_resource : ResourceRef;
  xp_target : string;
  xp_args : Value
}.

Record CommandPlan : Type := MkCommandPlan {
  cp_plan_id : string;
  cp_capability : ResourceRef;
  cp_operation : string;
  cp_args : Value;
  cp_idempotency_key : option string
}.

Record PlanReceipt : Type := MkPlanReceipt {
  pr_plan_id : string;
  pr_status : string;
  pr_resource_ref : option ResourceRef;
  pr_snapshot : option SnapshotDescriptor;
  pr_descriptor_updates : list ResourceRef;
  pr_new_version : option N;
  pr_output : Value
}.

Inductive ResourceValue : Type :=
  | ResourceInline (schema : string) (value : Value) (version : N)
  | ResourceValueRef (v : ValueRef)
  | ResourceResourceRef (r : ResourceRef).
End Payloads.
