(* ===== verification/RunnerContracts.v ===== *)
(** * Runner, plugin and scheduling contracts

    What a runner declares about itself (contracts/src/runner.rs), what a
    plugin manifest and a load plan contain (plugin.rs, extension.rs,
    observability.rs) and the budgets a scheduler hands out
    (runtime-core/src/runtime/scheduler.rs). *)

From Stdlib Require Import SpecFloat.
From S2P Require Import Prelude Contracts.

(** ** Runner capabilities *)

Inductive ExecutionClass : Type := ClassControl | Orchestration | Io | Cpu | Blocking | Script.

#[export] Instance ExecutionClass_eq_dec : EqDecision ExecutionClass.
Proof. solve_decision. Defined.

Inductive InvocationMode : Type := SyncExclusive | AsyncReentrant | AsyncExclusive | ExternalProcess.

#[export] Instance InvocationMode_eq_dec : EqDecision InvocationMode.
Proof. solve_decision. Defined.

Inductive RunnerConcurrency : Type :=
  | Exclusive
  | Reentrant (max_inflight_batches max_inflight_entries : N)
  | Sharded (instances : N).

#[export] Instance RunnerConcurrency_eq_dec : EqDecision RunnerConcurrency.
Proof. solve_decision. Defined.

Definition max_inflight_batches (c : RunnerConcurrency) : N :=
  match c with
  | Exclusive => 1
  | Reentrant max_inflight_batches _ => max_inflight_batches
  | Sharded instances => instances
  end.

Definition max_inflight_entries (c : RunnerConcurrency) (fallback : N) : N :=
  match c with
  | Exclusive => fallback
  | Reentrant _ max_inflight_entries => max_inflight_entries
  | Sharded instances => saturating_mul fallback instances
  end.

Inductive RunnerPurity : Type := Pure | Committer | Effectful.

#[export] Instance RunnerPurity_eq_dec : EqDecision RunnerPurity.
Proof. solve_decision. Defined.

Inductive RunnerMode : Type := ScalarAdapter | NativeBatch | Batch.

#[export] Instance RunnerMode_eq_dec : EqDecision RunnerMode.
Proof. solve_decision. Defined.

Inductive RunnerSideEffect : Type := SideEffectNone | SideEffectResource | SideEffectExternal | SideEffectUnknown.

#[export] Instance RunnerSideEffect_eq_dec : EqDecision RunnerSideEffect.
Proof. solve_decision. Defined.

Record RunnerBatchCapability : Type := MkRunnerBatchCapability {
  bc_mode : RunnerMode;
  bc_preferred_batch_size : N;
  bc_max_batch_entries : N;
  bc_max_entry_concurrency : N;
  bc_max_inflight_batches : N;
  bc_scalar_thread_safe : bool;
  bc_scalar_reentrant : bool;
  bc_partial_failure : bool;
  bc_preserve_order : bool;
  bc_side_effect : RunnerSideEffect
}.

#[export] Instance RunnerBatchCapability_eq_dec : EqDecision RunnerBatchCapability.
Proof. solve_decision. Defined.

Definition RunnerBatchCapability_default : RunnerBatchCapability :=
  {| bc_mode := ScalarAdapter; bc_preferred_batch_size := 1; bc_max_batch_entries := 1;
     bc_max_entry_concurrency := 1; bc_max_inflight_batches := 1; bc_scalar_thread_safe := false;
     bc_scalar_reentrant := false; bc_partial_failure := true; bc_preserve_order := true;
     bc_side_effect := SideEffectUnknown |}.

Inductive PayloadLayout : Type := LayoutRow | LayoutColumnar | LayoutBinaryPacked | LayoutResourceBacked.

#[export] Instance PayloadLayout_eq_dec : EqDecision PayloadLayout.
Proof. solve_decision. Defined.

Record RunnerPayloadCapability : Type := MkRunnerPayloadCapability {
  pc_layouts : list PayloadLayout;
  pc_preferred_layout : PayloadLayout;
  pc_zero_copy : bool
}.

#[export] Instance RunnerPayloadCapability_eq_dec : EqDecision RunnerPayloadCapability.
Proof. solve_decision. Defined.

Definition RunnerPayloadCapability_default : RunnerPayloadCapability :=
  {| pc_layouts := [LayoutRow]; pc_preferred_layout := LayoutRow; pc_zero_copy := false |}.

Record RunnerResourceCapability : Type := MkRunnerResourceCapability {
  rc_batch_read : bool;
  rc_batch_write : bool;
  rc_requires_resource_plan : bool;
  rc_supports_shared_memory : bool
}.

#[export] Instance RunnerResourceCapability_eq_dec : EqDecision RunnerResourceCapability.
Proof. solve_decision. Defined.

Definition RunnerResourceCapability_default : RunnerResourceCapability :=
  {| rc_batch_read := false; rc_batch_write := false; rc_requires_resource_plan := true;
     rc_supports_shared_memory := false |}.

#[export] Instance OrderingRequirement_eq_dec : EqDecision OrderingRequirement.
Proof. solve_decision. Defined.

Record RunnerOrderingCapability : Type := MkRunnerOrderingCapability {
  oc_default : OrderingRequirement;
  oc_supports_sequence : bool;
  oc_supports_same_resource_order : bool
}.

#[export] Instance RunnerOrderingCapability_eq_dec : EqDecision RunnerOrderingCapability.
Proof. solve_decision. Defined.

Definition RunnerOrderingCapability_default : RunnerOrderingCapability :=
  {| oc_default := OrderingNone; oc_supports_sequence := true;
     oc_supports_same_resource_order := true |}.

Inductive TimeoutGranularity : Type := TimeoutBatch | TimeoutEntry.

#[export] Instance TimeoutGranularity_eq_dec : EqDecision TimeoutGranularity.
Proof. solve_decision. Defined.

Record RunnerControlCapability : Type := MkRunnerControlCapability {
  ctl_entry_cancel : bool;
  ctl_batch_cancel : bool;
  ctl_timeout_granularity : TimeoutGranularity
}.

#[export] Instance RunnerControlCapability_eq_dec : EqDecision RunnerControlCapability.
Proof. solve_decision. Defined.

Definition RunnerControlCapability_default : RunnerControlCapability :=
  {| ctl_entry_cancel := false; ctl_batch_cancel := true; ctl_timeout_granularity := TimeoutBatch |}.

(** [PartialEq] of scalars: floats compare as IEEE 754 numbers. *)
Definition scalar_eqb (a b : ScalarValue) : bool :=
  match a, b with
  | ScalarString s, ScalarString s' => bool_decide (s = s')
  | ScalarInt i, ScalarInt i' => (i =? i')%Z
  | ScalarFloat f, ScalarFloat f' => SFeqb f f'
  | ScalarBool x, ScalarBool y => Bool.eqb x y
  | _, _ => false
  end.

(** [PartialEq] of a [BTreeMap<String, ScalarValue>]: the same keys with equal
    values. *)
Definition metadata_eqb (a b : gmap string ScalarValue) : bool :=
  bool_decide (dom a = dom b) &&
  forallb (λ e, is_some_and (b !! e.1) (scalar_eqb e.2)) (map_to_list a).

Section Descriptors.
Context `{SJ : SerdeJson}.

Record RunnerDescriptor : Type := MkRunnerDescriptor {
  d_runner_id : string;
  d_plugin_id : string;
  d_plugin_generation : N;
  d_accepted_protocol_ids : list ProtocolId;
  d_purity : RunnerPurity;
  d_execution_class : ExecutionClass;
  d_invocation_mode : InvocationMode;
  d_concurrency : RunnerConcurrency;
  d_input_schema : Value;
  d_output_schema : Value;
  d_batch : RunnerBatchCapability;
  d_payload : RunnerPayloadCapability;
  d_resources : RunnerResourceCapability;
  d_ordering : RunnerOrderingCapability;
  d_control : RunnerControlCapability;
  d_metadata : gmap string ScalarValue;
  d_contract_surfaces : list SurfaceId
}.

Definition RunnerDescriptor_eta (r : RunnerDescriptor) : RunnerDescriptor :=
  {| d_runner_id := d_runner_id r;
     d_plugin_id := d_plugin_id r;
     d_plugin_generation := d_plugin_generation r;
     d_accepted_protocol_ids := d_accepted_protocol_ids r;
     d_purity := d_purity r;
     d_execution_class := d_execution_class r;
     d_invocation_mode := d_invocation_mode r;
     d_concurrency := d_concurrency r;
     d_input_schema := d_input_schema r;
     d_output_schema := d_output_schema r;
     d_batch := d_batch r;
     d_payload := d_payload r;
     d_resources := d_resources r;
     d_ordering := d_ordering r;
     d_control := d_control r;
     d_metadata := d_metadata r;
     d_contract_surfaces := d_contract_surfaces r |}.
#[export] Instance set_d_plugin_generation : Setter d_plugin_generation := ltac:(derive_setter RunnerDescriptor_eta d_plugin_generation).
#[export] Instance set_d_accepted_protocol_ids : Setter d_accepted_protocol_ids := ltac:(derive_setter RunnerDescriptor_eta d_accepted_protocol_ids).

(** The derived [PartialEq]. *)
Definition RunnerDescriptor_eqb (a b : RunnerDescriptor) : bool :=
  bool_decide (d_runner_id a = d_runner_id b)
  && bool_decide (d_plugin_id a = d_plugin_id b)
  && (d_plugin_generation a =? d_plugin_generation b)%N
  && bool_decide (d_accepted_protocol_ids a = d_accepted_protocol_ids b)
  && bool_decide (d_purity a = d_purity b)
  && bool_decide (d_execution_class a = d_execution_class b)
  && bool_decide (d_invocation_mode a = d_invocation_mode b)
  && bool_decide (d_concurrency a = d_concurrency b)
  && json_eqb (d_input_schema a) (d_input_schema b)
  && json_eqb (d_output_schema a) (d_output_schema b)
  && bool_decide (d_batch a = d_batch b)
  && bool_decide (d_payload a = d_payload b)
  && bool_decide (d_resources a = d_resources b)
  && bool_decide (d_ordering a = d_ordering b)
  && bool_decide (d_control a = d_control b)
  && metadata_eqb (d_metadata a) (d_metadata b)
  && bool_decide (d_contract_surfaces a = d_contract_surfaces b).

(** [CoreKernelRunner::new] builds this descriptor (runtime-core/src/runner.rs). *)
Definition core_kernel_descriptor (plugin_generation : N) : RunnerDescriptor :=
  {| d_runner_id := "core.kernel"; d_plugin_id := "core";
     d_plugin_generation := plugin_generation;
     d_accepted_protocol_ids := ["core.commit"; "core.event.append"];
     d_purity := Committer; d_execution_class := ClassControl;
     d_invocation_mode := SyncExclusive; d_concurrency := Exclusive;
     d_input_schema := json_empty_object; d_output_schema := json_empty_object;
     d_batch := RunnerBatchCapability_default; d_payload := RunnerPayloadCapability_default;
     d_resources := RunnerResourceCapability_default;
     d_ordering := RunnerOrderingCapability_default;
     d_control := RunnerControlCapability_default; d_metadata := ∅;
     d_contract_surfaces := ["runner:core.kernel"] |}.
End Descriptors.

(** ** Scheduling budgets (runtime/scheduler.rs) *)

Record LaneBudget : Type := MkLaneBudget {
  lb_max_entries : N
}.

Record DispatchBudget : Type := MkDispatchBudget {
  db_max_entries : N;
  db_max_batches : N;
  db_max_bytes : N;
  db_lane_budget : gmap DispatchLane LaneBudget
}.

Definition DispatchBudget_eta (r : DispatchBudget) : DispatchBudget :=
  {| db_max_entries := db_max_entries r;
     db_max_batches := db_max_batches r;
     db_max_bytes := db_max_bytes r;
     db_lane_budget := db_lane_budget r |}.
#[export] Instance set_db_max_entries : Setter db_max_entries := ltac:(derive_setter DispatchBudget_eta db_max_entries).
#[export] Instance set_db_max_batches : Setter db_max_batches := ltac:(derive_setter DispatchBudget_eta db_max_batches).
#[export] Instance set_db_max_bytes : Setter db_max_bytes := ltac:(derive_setter DispatchBudget_eta db_max_bytes).
#[export] Instance set_db_lane_budget : Setter db_lane_budget := ltac:(derive_setter DispatchBudget_eta db_lane_budget).

Definition single_batch (max_entries : N) : DispatchBudget :=
  {| db_max_entries := max_entries; db_max_batches := if (0 <? max_entries)%N then 1 else 0;
     db_max_bytes := usize_max; db_lane_budget := ∅ |}.

Definition budget_clamp_to (self : DispatchBudget) (hard_capacity : N) : DispatchBudget :=
  let self := self <| db_max_entries ::= λ n, N.min n hard_capacity |> in
  if (db_max_entries self =? 0)%N then self <| db_max_batches := 0%N |>
  else self <| db_max_batches := N.min (db_max_batches self) (db_max_entries self) |>.

Definition budget_clamp_batches (self : DispatchBudget) (hard_batch_capacity : N) : DispatchBudget :=
  let self := self <| db_max_batches ::= λ n, N.min n hard_batch_capacity |> in
  if (db_max_batches self =? 0)%N then self <| db_max_entries := 0%N |> else self.

Record ScheduleDecision : Type := MkScheduleDecision {
  dec_scheduler_id : string;
  dec_reason : string;
  dec_requested_dispatch_limit : N;
  dec_dispatch_limit : N;
  dec_budget : DispatchBudget
}.

Definition ScheduleDecision_eta (r : ScheduleDecision) : ScheduleDecision :=
  {| dec_scheduler_id := dec_scheduler_id r;
     dec_reason := dec_reason r;
     dec_requested_dispatch_limit := dec_requested_dispatch_limit r;
     dec_dispatch_limit := dec_dispatch_limit r;
     dec_budget := dec_budget r |}.
#[export] Instance set_dec_dispatch_limit : Setter dec_dispatch_limit := ltac:(derive_setter ScheduleDecision_eta dec_dispatch_limit).
#[export] Instance set_dec_budget : Setter dec_budget := ltac:(derive_setter ScheduleDecision_eta dec_budget).

Definition ScheduleDecision_new (scheduler_id : string) (dispatch_limit : N) (reason : string) :
    ScheduleDecision :=
  {| dec_scheduler_id := scheduler_id; dec_reason := reason;
     dec_requested_dispatch_limit := dispatch_limit; dec_dispatch_limit := dispatch_limit;
     dec_budget := single_batch dispatch_limit |}.

Definition decision_clamp_to (self : ScheduleDecision) (hard_capacity : N) : ScheduleDecision :=
  self <| dec_dispatch_limit ::= λ n, N.min n hard_capacity |>
       <| dec_budget ::= λ b, budget_clamp_to b hard_capacity |>.

Definition decision_clamp_batches (self : ScheduleDecision) (hard_batch_capacity : N) : ScheduleDecision :=
  let self := self <| dec_budget ::= λ b, budget_clamp_batches b hard_batch_capacity |> in
  if (db_max_batches (dec_budget self) =? 0)%N then self <| dec_dispatch_limit := 0%N |> else self.

Definition with_budget (self : ScheduleDecision) (budget : DispatchBudget) : ScheduleDecision :=
  let self := self <| dec_budget := budget |> in
  self <| dec_dispatch_limit ::= λ n, N.min n (db_max_entries (dec_budget self)) |>.
