(* ===== verification/BatchContracts.v ===== *)
(** * Batches and runner results

    crates/mutsuki-runtime-contracts/src/batch/ and the invocation types of
    runner.rs and task.rs: what the kernel hands to a runner and what a runner
    hands back.  [Arc<Task>] is the task, an immutable value here; bytes are
    [N]. *)

From S2P Require Import Prelude Contracts RunnerContracts.

(** ** Outcomes of a runner *)

Inductive RunnerStatus : Type :=
  | StatusCompleted | StatusWaiting | StatusBlocked | StatusContinue | StatusFailed
  | StatusCancelled.

#[export] Instance RunnerStatus_eq_dec : EqDecision RunnerStatus.
Proof. solve_decision. Defined.

Section Batches.
Context `{SJ : SerdeJson}.

Record DomainEvent : Type := MkDomainEvent {
  dev_event_id : string;
  dev_kind : string;
  dev_payload : Value
}.

Record EffectPrecondition : Type := MkEffectPrecondition {
  epc_ref_id : string;
  epc_expected_version : N
}.

Record EffectRequest : Type := MkEffectRequest {
  eff_effect_id : string;
  eff_kind : string;
  eff_payload : Value;
  eff_preconditions : list EffectPrecondition;
  eff_idempotency_key : option string
}.

Record RunnerResult : Type := MkRunnerResult {
  rres_task_id : string;
  rres_output : option Value;
  rres_deltas : list StateDelta;
  rres_events : list DomainEvent;
  rres_tasks : list Task;
  rres_effects : list EffectRequest;
  rres_values : list ValueRef;
  rres_resources : list ResourceRef;
  rres_task_await : option TaskAwait;
  rres_status : RunnerStatus
}.

Definition RunnerResult_completed (task_id : string) : RunnerResult :=
  {| rres_task_id := task_id; rres_output := None; rres_deltas := []; rres_events := []; rres_tasks := [];
     rres_effects := []; rres_values := []; rres_resources := []; rres_task_await := None;
     rres_status := StatusCompleted |}.

Inductive TaskOutcome : Type :=
  | OutcomeCompleted (task_id : TaskId) (output : option Value) (output_ref : option RefId)
  | OutcomeFailed (task_id : TaskId) (error : RuntimeError)
  | OutcomeCancelled (task_id : TaskId) (reason : option string)
  | OutcomeExpired (task_id : TaskId) (reason : option string)
  | OutcomeDeadLetter (task_id : TaskId) (reason : option string).

(** ** Derived serialisation

    The conversions [serde] derives between these types and JSON values: no
    code of the repository, so parameters.  [from_value] fails with the text of
    its error. *)
Class SerdeTypes : Type := {
  delta_to_value : StateDelta → Value;
  delta_from_value : Value → Result string StateDelta;
  event_to_value : DomainEvent → Value;
  event_from_value : Value → Result string DomainEvent;
  effect_to_value : EffectRequest → Value;
  task_from_value : Value → Result string Task
}.

(** ** Invocation context (runner.rs) *)

Record RunnerContext : Type := MkRunnerContext {
  rc_registry_generation : N;
  rc_current_step : N;
  rc_tick_id : string;
  rc_batch_id : string;
  rc_executor_id : string;
  rc_task_lease_ids : list string;
  rc_entry_count : N;
  rc_invocation_id : string;
  rc_cancel_token : string;
  rc_deadline_tick : option N;
  rc_deadline_after_ms : option N;
  rc_cancel_requested : bool
}.

Definition RunnerContext_new (registry_generation current_step : N) (executor_id : string)
    (task_lease_ids : list string) (invocation_id : string) : RunnerContext :=
  {| rc_registry_generation := registry_generation; rc_current_step := current_step;
     rc_tick_id := "tick-" +:+ pretty current_step; rc_batch_id := invocation_id;
     rc_executor_id := executor_id; rc_task_lease_ids := task_lease_ids;
     rc_entry_count := len task_lease_ids; rc_invocation_id := invocation_id;
     rc_cancel_token := invocation_id; rc_deadline_tick := None; rc_deadline_after_ms := None;
     rc_cancel_requested := false |}.

Definition with_batch (self : RunnerContext) (batch_id : string) (entry_count : N) : RunnerContext :=
  {| rc_registry_generation := rc_registry_generation self; rc_current_step := rc_current_step self;
     rc_tick_id := rc_tick_id self; rc_batch_id := batch_id;
     rc_executor_id := rc_executor_id self; rc_task_lease_ids := rc_task_lease_ids self;
     rc_entry_count := entry_count; rc_invocation_id := rc_invocation_id self;
     rc_cancel_token := rc_cancel_token self; rc_deadline_tick := rc_deadline_tick self;
     rc_deadline_after_ms := rc_deadline_after_ms self; rc_cancel_requested := rc_cancel_requested self |}.

(** ** Entries and resource plans *)

Record BatchEntry : Type := MkBatchEntry {
  be_entry_id : string;
  be_task_id : string;
  be_trace_id : option string;
  be_parent_id : option string;
  be_payload_index : N;
  be_resource_requirement_indices : list N;
  be_cancel_index : option N;
  be_deadline_tick : option N;
  be_priority : Z;
  be_lane : DispatchLane;
  be_ordering : OrderingRequirement
}.

Record AsyncInvocation : Type := MkAsyncInvocation {
  ai_invocation_id : string;
  ai_batch_id : string;
  ai_runner_id : string;
  ai_task_ids : list string;
  ai_task_lease_ids : list string;
  ai_attempt_generations : list N;
  ai_task_leases : list TaskLease;
  ai_expected_entries : list BatchEntry;
  ai_registry_generation : N;
  ai_plugin_generation : N;
  ai_cancel_token : string;
  ai_deadline_after_ms : option N;
  ai_entry_count : N;
  ai_payload_bytes : N
}.

Record AsyncInvocationHandle : Type := MkAsyncInvocationHandle {
  aih_invocation_id : string;
  aih_cancel_token : string
}.

Record ResourceReadView : Type := MkResourceReadView {
  rv_ref_id : string;
  rv_requirement_indices : list N
}.

Record ResourceWriteLock : Type := MkResourceWriteLock {
  wl_ref_id : string;
  wl_requirement_indices : list N
}.

Record DeferredResourceOp : Type := MkDeferredResourceOp {
  dro_entry_id : string;
  dro_ref_id : string;
  dro_operation : string;
  dro_payload : Value
}.

Record WorkResourcePlan : Type := MkWorkResourcePlan {
  wp_read_views : list ResourceReadView;
  wp_write_locks : list ResourceWriteLock;
  wp_parallel_groups : list (list string);
  wp_serial_groups : list (list string);
  wp_parallelism_limit : N;
  wp_version_checks : list VersionExpectation;
  wp_deferred_writes : list DeferredResourceOp;
  wp_conflict_entries : list string
}.

Definition WorkResourcePlan_eta (r : WorkResourcePlan) : WorkResourcePlan :=
  {| wp_read_views := wp_read_views r;
     wp_write_locks := wp_write_locks r;
     wp_parallel_groups := wp_parallel_groups r;
     wp_serial_groups := wp_serial_groups r;
     wp_parallelism_limit := wp_parallelism_limit r;
     wp_version_checks := wp_version_checks r;
     wp_deferred_writes := wp_deferred_writes r;
     wp_conflict_entries := wp_conflict_entries r |}.
#[export] Instance set_wp_read_views : Setter wp_read_views := ltac:(derive_setter WorkResourcePlan_eta wp_read_views).
#[export] Instance set_wp_write_locks : Setter wp_write_locks := ltac:(derive_setter WorkResourcePlan_eta wp_write_locks).
#[export] Instance set_wp_parallel_groups : Setter wp_parallel_groups := ltac:(derive_setter WorkResourcePlan_eta wp_parallel_groups).
#[export] Instance set_wp_serial_groups : Setter wp_serial_groups := ltac:(derive_setter WorkResourcePlan_eta wp_serial_groups).
#[export] Instance set_wp_parallelism_limit : Setter wp_parallelism_limit := ltac:(derive_setter WorkResourcePlan_eta wp_parallelism_limit).
#[export] Instance set_wp_version_checks : Setter wp_version_checks := ltac:(derive_setter WorkResourcePlan_eta wp_version_checks).
#[export] Instance set_wp_deferred_writes : Setter wp_deferred_writes := ltac:(derive_setter WorkResourcePlan_eta wp_deferred_writes).
#[export] Instance set_wp_conflict_entries : Setter wp_conflict_entries := ltac:(derive_setter WorkResourcePlan_eta wp_conflict_entries).

Definition WorkResourcePlan_empty : WorkResourcePlan :=
  {| wp_read_views := []; wp_write_locks := []; wp_parallel_groups := []; wp_serial_groups := [];
     wp_parallelism_limit := 1; wp_version_checks := []; wp_deferred_writes := []; wp_conflict_entries := [] |}.

(** ** Payloads *)

Record RowPayload : Type := MkRowPayload {
  row_rows : list Value
}.

Record LocalTaskPayload : Type := MkLocalTaskPayload {
  ltp_tasks : list Task
}.

Record ColumnPayload : Type := MkColumnPayload {
  col_name : string;
  col_values : list Value
}.

Record ColumnarPayload : Type := MkColumnarPayload {
  colp_columns : list ColumnPayload;
  colp_row_count : N
}.

Record BinaryPackedPayload : Type := MkBinaryPackedPayload {
  bpp_encoding : string;
  bpp_bytes : list N;
  bpp_row_count : N
}.

Record ResourceSlice : Type := MkResourceSlice {
  rsl_resource : ResourceRef;
  rsl_offset : N;
  rsl_length : option N
}.

Record ResourceBackedPayload : Type := MkResourceBackedPayload {
  rbp_slices : list ResourceSlice
}.

Inductive BatchPayload : Type :=
  | PayloadLocalTasks (payload : LocalTaskPayload)
  | PayloadRow (payload : RowPayload)
  | PayloadColumnar (payload : ColumnarPayload)
  | PayloadBinaryPacked (payload : BinaryPackedPayload)
  | PayloadResourceBacked (payload : ResourceBackedPayload).

Definition from_local_tasks (tasks : list Task) : BatchPayload := PayloadLocalTasks (MkLocalTaskPayload tasks).

Definition layout (self : BatchPayload) : PayloadLayout :=
  match self with
  | PayloadLocalTasks _ => LayoutRow
  | PayloadRow _ => LayoutRow
  | PayloadColumnar _ => LayoutColumnar
  | PayloadBinaryPacked _ => LayoutBinaryPacked
  | PayloadResourceBacked _ => LayoutResourceBacked
  end.

Definition layout_as_str (self : PayloadLayout) : string :=
  match self with
  | LayoutRow => "row"
  | LayoutColumnar => "columnar"
  | LayoutBinaryPacked => "binary_packed"
  | LayoutResourceBacked => "resource_backed"
  end.

Definition row_count (self : BatchPayload) : N :=
  match self with
  | PayloadLocalTasks payload => len (ltp_tasks payload)
  | PayloadRow payload => len (row_rows payload)
  | PayloadColumnar payload => colp_row_count payload
  | PayloadBinaryPacked payload => bpp_row_count payload
  | PayloadResourceBacked payload => len (rbp_slices payload)
  end.

Definition payload_error {A} (route : string) : RuntimeResult A :=
  Err (runtime_error ERR_TASK_CLAIM_CONFLICT "runtime.batch_payload" route).

Section Rows.
Context `{ST : !SerdeTypes}.

Definition row_task (index : N) (value : Value) : RuntimeResult Task :=
  match task_from_value value with
  | Ok task => Ok task
  | Err _ => payload_error ("payload.row." +:+ pretty index)
  end.

(** [rows.iter().enumerate().map(..).collect::<Result<Vec<_>, _>>()] *)
Fixpoint row_tasks (index : N) (rows : list Value) : RuntimeResult (list Task) :=
  match rows with
  | [] => Ok []
  | value :: rows =>
      letr? task := row_task index value in
      letr? tasks := row_tasks (index + 1) rows in
      Ok (task :: tasks)
  end.

Definition try_row_tasks (self : BatchPayload) : RuntimeResult (list Task) :=
  match self with
  | PayloadLocalTasks payload => Ok (ltp_tasks payload)
  | PayloadRow payload => row_tasks 0 (row_rows payload)
  | _ => payload_error ("payload.layout." +:+ layout_as_str (layout self))
  end.

Definition task_at (self : BatchPayload) (index : N) : RuntimeResult Task :=
  match self with
  | PayloadLocalTasks payload =>
      match ltp_tasks payload !! N.to_nat index with
      | Some task => Ok task
      | None => payload_error ("payload.row." +:+ pretty index +:+ ".missing")
      end
  | PayloadRow payload =>
      match row_rows payload !! N.to_nat index with
      | Some value => row_task index value
      | None => payload_error ("payload.row." +:+ pretty index +:+ ".missing")
      end
  | _ => payload_error ("payload.layout." +:+ layout_as_str (layout self))
  end.
End Rows.

(** ** Batches (mod.rs, completion.rs) *)

Record TaskBatch : Type := MkTaskBatch {
  tb_batch_id : string;
  tb_tick_id : option string;
  tb_tasks : list Task;
  tb_resource_plan : option WorkResourcePlan
}.

Definition TaskBatch_one (batch_id : string) (task : Task) : TaskBatch :=
  {| tb_batch_id := batch_id; tb_tick_id := None; tb_tasks := [task]; tb_resource_plan := None |}.

Record WorkSet : Type := MkWorkSet {
  ws_tick_id : string;
  ws_batch_key : string;
  ws_entries : list BatchEntry;
  ws_resource_requirements : list ResourceRequirement
}.

Record WorkBatch : Type := MkWorkBatch {
  wb_batch_id : string;
  wb_tick_id : string;
  wb_batch_key : string;
  wb_entries : list BatchEntry;
  wb_payload : BatchPayload;
  wb_resource_plan : WorkResourcePlan;
  wb_task_leases : list TaskLease
}.

Record EntryCompletion : Type := MkEntryCompletion {
  ec_entry_id : string;
  ec_task_id : string;
  ec_result : option RunnerResult;
  ec_error : option RuntimeError
}.

Record CompletionBatch : Type := MkCompletionBatch {
  cb_batch_id : string;
  cb_tick_id : string;
  cb_results : list EntryCompletion;
  cb_metadata : list (string * ScalarValue)
}.

Definition from_results (batch : WorkBatch) (results : list EntryCompletion) : CompletionBatch :=
  {| cb_batch_id := wb_batch_id batch; cb_tick_id := wb_tick_id batch; cb_results := results; cb_metadata := [] |}.

Definition from_error (batch : WorkBatch) (error : RuntimeError) : CompletionBatch :=
  from_results batch
    ((λ entry, {| ec_entry_id := be_entry_id entry; ec_task_id := be_task_id entry; ec_result := None;
                  ec_error := Some error |}) <$> wb_entries batch).
End Batches.
