(* ===== verification/PluginContracts.v ===== *)
(** * Plugin, surface and observability contracts

    What a plugin manifest and a load plan contain
    (contracts/src/plugin.rs, extension.rs), the observability outlets
    (observability.rs) and the records written to them (event.rs, trace.rs). *)

From Stdlib Require Import SpecFloat.
From S2P Require Import Prelude Contracts RunnerContracts.

(** ** Observability *)

Definition DEFAULT_EVENT_CAPACITY : N := 4096.
Definition DEFAULT_TRACE_CAPACITY : N := 4096.

Inductive ObservabilityOverflowPolicy : Type :=
  | DropOldest | DropNew.

#[export] Instance ObservabilityOverflowPolicy_eq_dec : EqDecision ObservabilityOverflowPolicy.
Proof. solve_decision. Defined.

Record ObservabilityOutletProfile : Type := MkObservabilityOutletProfile {
  op_capacity : N;
  op_overflow_policy : ObservabilityOverflowPolicy
}.

Record ObservabilityProfile : Type := MkObservabilityProfile {
  obs_events : ObservabilityOutletProfile;
  obs_traces : ObservabilityOutletProfile;
  obs_detailed_scheduler_decisions : bool;
  obs_dispatch_spans : bool
}.

Definition ObservabilityProfile_default : ObservabilityProfile :=
  {| obs_events := MkObservabilityOutletProfile DEFAULT_EVENT_CAPACITY DropNew;
     obs_traces := MkObservabilityOutletProfile DEFAULT_TRACE_CAPACITY DropOldest;
     obs_detailed_scheduler_decisions := false;
     obs_dispatch_spans := false |}.

Record ObservabilityPage (T : Type) : Type := MkObservabilityPage {
  pg_items : list T;
  pg_next_sequence : N;
  pg_earliest_available_sequence : option N;
  pg_latest_sequence : N;
  pg_lost : N;
  pg_truncated : bool;
  pg_dropped : N
}.
Arguments MkObservabilityPage {T}.
Arguments pg_items {T}.
Arguments pg_next_sequence {T}.
Arguments pg_earliest_available_sequence {T}.
Arguments pg_latest_sequence {T}.
Arguments pg_lost {T}.
Arguments pg_truncated {T}.
Arguments pg_dropped {T}.

Definition cursor_lost {T} (page : ObservabilityPage T) : bool := bool_decide (0 < pg_lost page)%N.

(** ** Events and spans *)

Inductive RuntimeEventKind : Type :=
  | EventLifecycle | EventPlugin | EventResource | EventTrace | EventHost | EventTask
  | EventRunner | EventState | EventEffect | EventReload.

#[export] Instance RuntimeEventKind_eq_dec : EqDecision RuntimeEventKind.
Proof. solve_decision. Defined.

Record RuntimeEvent : Type := MkRuntimeEvent {
  ev_sequence : N;
  ev_kind : RuntimeEventKind;
  ev_name : string;
  ev_subject_id : option string;
  ev_attributes : gmap string ScalarValue;
  ev_error : option RuntimeError
}.

Inductive SpanStatus : Type :=
  | SpanOk | SpanError.

#[export] Instance SpanStatus_eq_dec : EqDecision SpanStatus.
Proof. solve_decision. Defined.

Record TraceSpan : Type := MkTraceSpan {
  span_sequence : N;
  span_trace_id : string;
  span_span_id : string;
  span_parent_span_id : option string;
  span_name : string;
  span_start : spec_float;
  span_end : option spec_float;
  span_attributes : gmap string ScalarValue;
  span_status : SpanStatus
}.

(** ** Deployment *)

Inductive ArtifactType : Type :=
  | ArtifactAbi | ArtifactProcess | ArtifactWasm | ArtifactPython | ArtifactNative.

#[export] Instance ArtifactType_eq_dec : EqDecision ArtifactType.
Proof. solve_decision. Defined.

Inductive PluginDeploymentKind : Type :=
  | DeployBuiltin | DeployAbi | DeployWasm | DeployProcess | DeployPython.

#[export] Instance PluginDeploymentKind_eq_dec : EqDecision PluginDeploymentKind.
Proof. solve_decision. Defined.

Definition default_for_artifact (artifact_type : ArtifactType) : PluginDeploymentKind :=
  match artifact_type with
  | ArtifactNative => DeployBuiltin
  | ArtifactAbi => DeployAbi
  | ArtifactWasm => DeployWasm
  | ArtifactProcess => DeployProcess
  | ArtifactPython => DeployPython
  end.

Definition is_compatible_with_artifact (self : PluginDeploymentKind) (artifact_type : ArtifactType) : bool :=
  match self, artifact_type with
  | DeployBuiltin, ArtifactNative => true
  | DeployAbi, ArtifactAbi => true
  | DeployWasm, ArtifactWasm => true
  | DeployProcess, ArtifactProcess => true
  | DeployPython, ArtifactPython => true
  | _, _ => false
  end.

Inductive RuntimeProfileMode : Type :=
  | FullDev | ExtensibleRuntime | BuiltinOnly | LockedBuiltin.

#[export] Instance RuntimeProfileMode_eq_dec : EqDecision RuntimeProfileMode.
Proof. solve_decision. Defined.

Record PluginArtifact : Type := MkPluginArtifact {
  pa_artifact_type : ArtifactType;
  pa_path : string;
  pa_sha256 : string
}.

Record PermissionGrant : Type := MkPermissionGrant {
  pgr_effects : list string;
  pgr_resources : list string
}.

Record LifecyclePolicy : Type := MkLifecyclePolicy {
  lc_reload_policy : string;
  lc_unload_timeout_ms : N;
  lc_supports_cancel : bool;
  lc_supports_dispose : bool;
  lc_supports_snapshot : bool
}.

(** ** Host extension descriptors (extension.rs) *)

Inductive HostExtensionKind : Type :=
  | ExtPluginBackend | ExtBridge | ExtCodec | ExtTraceSink | ExtSchedulerPolicy
  | ExtPermissionPolicy | ExtResourcePlanGateway.

#[export] Instance HostExtensionKind_eq_dec : EqDecision HostExtensionKind.
Proof. solve_decision. Defined.

Record HostExtensionDescriptor : Type := MkHostExtensionDescriptor {
  hx_extension_id : string;
  hx_kind : HostExtensionKind;
  hx_supported_deployments : list PluginDeploymentKind;
  hx_reload_policy : string;
  hx_drain_required : bool
}.

Record PluginBackendDescriptor : Type := MkPluginBackendDescriptor {
  pb_backend_id : string;
  pb_deployment_kind : PluginDeploymentKind;
  pb_task_client_protocol : string;
  pb_resource_client_protocol : string;
  pb_codec_id : option string;
  pb_bridge_id : option string
}.

Record CodecDescriptor : Type := MkCodecDescriptor {
  cd_codec_id : string;
  cd_media_type : string;
  cd_version : string;
  cd_connection_scoped : bool
}.

Record BridgeDescriptor : Type := MkBridgeDescriptor {
  bd_bridge_id : string;
  bd_deployment_kind : PluginDeploymentKind;
  bd_codec_ids : list string;
  bd_drain_policy : string
}.

Record SchedulerPolicyDescriptor : Type := MkSchedulerPolicyDescriptor {
  spd_policy_id : string;
  spd_version : string;
  spd_decision_scope : string
}.

Record WorkflowDescriptor : Type := MkWorkflowDescriptor {
  wd_workflow_id : string;
  wd_state_resource_kind : string;
  wd_runner_protocol_id : string;
  wd_reload_policy : string
}.

(** ** Manifests *)

Inductive ResourceProviderReloadPolicy : Type :=
  | NoLiveResources | CompatibleWithoutLeases | DrainActiveLeases | RestartRequired.

Record ResourceProviderCompatibility : Type := MkResourceProviderCompatibility {
  rpc_schema_version : string;
  rpc_required_operations : list string;
  rpc_preserves_resource_type_id : bool;
  rpc_accepts_older_generations : bool;
  rpc_lease_drain_required : bool
}.

Record ResourceTypeDescriptor : Type := MkResourceTypeDescriptor {
  rt_kind_id : string;
  rt_semantic : ResourceSemantic;
  rt_schema : string;
  rt_provider_id : string;
  rt_operations : list string;
  rt_reload_policy : ResourceProviderReloadPolicy;
  rt_compatibility : ResourceProviderCompatibility
}.

Inductive ProtocolClass : Type :=
  | ProtocolDomain | ProtocolEffect | ProtocolCore | ProtocolControl.

#[export] Instance ProtocolClass_eq_dec : EqDecision ProtocolClass.
Proof. solve_decision. Defined.

Record HandlerBinding : Type := MkHandlerBinding {
  hb_binding_id : string;
  hb_plugin_id : string;
  hb_protocol_id : string;
  hb_target_protocol_id : string;
  hb_target_runner_hint : option string;
  hb_pool_id : string;
  hb_priority : Z;
  hb_policy : string;
  hb_metadata : gmap string ScalarValue
}.

Section Manifests.
Context `{SJ : SerdeJson}.

Record ProtocolDescriptor : Type := MkProtocolDescriptor {
  proto_protocol_id : string;
  proto_version : string;
  proto_input_schema : Value;
  proto_output_schema : Value;
  proto_error_schema : Value;
  proto_codec : string;
  proto_compatibility : string
}.

Record PluginProvides : Type := MkPluginProvides {
  pv_runners : list RunnerDescriptor;
  pv_protocols : list ProtocolDescriptor;
  pv_protocol_classes : gmap string ProtocolClass;
  pv_handler_bindings : list HandlerBinding;
  pv_resource_schemas : list string;
  pv_resource_providers : list string;
  pv_resource_types : list ResourceTypeDescriptor;
  pv_effects : list string;
  pv_streams : list string;
  pv_subscriptions : list string;
  pv_timers : list string;
  pv_state_schemas : list string;
  pv_host_extensions : list HostExtensionDescriptor;
  pv_plugin_backends : list PluginBackendDescriptor;
  pv_codecs : list CodecDescriptor;
  pv_bridges : list BridgeDescriptor;
  pv_scheduler_policies : list SchedulerPolicyDescriptor;
  pv_workflows : list WorkflowDescriptor
}.

Definition PluginProvides_eta (r : PluginProvides) : PluginProvides :=
  {| pv_runners := pv_runners r;
     pv_protocols := pv_protocols r;
     pv_protocol_classes := pv_protocol_classes r;
     pv_handler_bindings := pv_handler_bindings r;
     pv_resource_schemas := pv_resource_schemas r;
     pv_resource_providers := pv_resource_providers r;
     pv_resource_types := pv_resource_types r;
     pv_effects := pv_effects r;
     pv_streams := pv_streams r;
     pv_subscriptions := pv_subscriptions r;
     pv_timers := pv_timers r;
     pv_state_schemas := pv_state_schemas r;
     pv_host_extensions := pv_host_extensions r;
     pv_plugin_backends := pv_plugin_backends r;
     pv_codecs := pv_codecs r;
     pv_bridges := pv_bridges r;
     pv_scheduler_policies := pv_scheduler_policies r;
     pv_workflows := pv_workflows r |}.
#[export] Instance set_pv_runners : Setter pv_runners := ltac:(derive_setter PluginProvides_eta pv_runners).
#[export] Instance set_pv_protocols : Setter pv_protocols := ltac:(derive_setter PluginProvides_eta pv_protocols).
#[export] Instance set_pv_handler_bindings : Setter pv_handler_bindings := ltac:(derive_setter PluginProvides_eta pv_handler_bindings).
#[export] Instance set_pv_resource_types : Setter pv_resource_types := ltac:(derive_setter PluginProvides_eta pv_resource_types).
#[export] Instance set_pv_resource_providers : Setter pv_resource_providers := ltac:(derive_setter PluginProvides_eta pv_resource_providers).
#[export] Instance set_pv_host_extensions : Setter pv_host_extensions := ltac:(derive_setter PluginProvides_eta pv_host_extensions).
#[export] Instance set_pv_plugin_backends : Setter pv_plugin_backends := ltac:(derive_setter PluginProvides_eta pv_plugin_backends).
#[export] Instance set_pv_codecs : Setter pv_codecs := ltac:(derive_setter PluginProvides_eta pv_codecs).
#[export] Instance set_pv_bridges : Setter pv_bridges := ltac:(derive_setter PluginProvides_eta pv_bridges).

Record PluginManifest : Type := MkPluginManifest {
  pm_plugin_id : string;
  pm_version : string;
  pm_api_version : string;
  pm_artifact : PluginArtifact;
  pm_provides : PluginProvides;
  pm_requires : list string;
  pm_permissions : PermissionGrant;
  pm_lifecycle : LifecyclePolicy;
  pm_metadata : gmap string ScalarValue
}.

Record PluginBusinessSurface : Type := MkPluginBusinessSurface {
  pbs_plugin_id : string;
  pbs_api_version : string;
  pbs_provides : PluginProvides;
  pbs_requires : list string;
  pbs_permissions : PermissionGrant
}.

Definition business_surface (self : PluginManifest) : PluginBusinessSurface :=
  let provides := (pm_provides self)
    <| pv_host_extensions := [] |>
    <| pv_plugin_backends := [] |>
    <| pv_codecs := [] |>
    <| pv_bridges := [] |> in
  {| pbs_plugin_id := pm_plugin_id self;
     pbs_api_version := pm_api_version self;
     pbs_provides := provides;
     pbs_requires := pm_requires self;
     pbs_permissions := pm_permissions self |}.
End Manifests.

(** ** Contract surfaces *)

Inductive ContractSurfaceKind : Type :=
  | SurfaceRunner | SurfaceTaskProtocol | SurfaceSchema | SurfaceResourceSchema
  | SurfaceResourceProvider | SurfaceHostExtension | SurfacePluginBackend | SurfaceCodec
  | SurfaceBridge | SurfaceSchedulerPolicy | SurfaceWorkflow | SurfaceEffect | SurfaceStream
  | SurfaceSubscription | SurfaceTimer | SurfaceProtocol | SurfaceHandlerBinding
  | SurfaceStateSchema | SurfaceLifecycle | SurfacePermission.

#[export] Instance ContractSurfaceKind_eq_dec : EqDecision ContractSurfaceKind.
Proof. solve_decision. Defined.

Record ContractSurface : Type := MkContractSurface {
  cs_surface_id : string;
  cs_kind : ContractSurfaceKind;
  cs_owner_plugin_id : string;
  cs_fingerprint : string;
  cs_deprecated : bool
}.

Record SurfaceOccupancy : Type := MkSurfaceOccupancy {
  so_surface_id : string;
  so_ready_tasks : N;
  so_running_invocations : N;
  so_resource_refs : N;
  so_state_refs : N;
  so_active_leases : N;
  so_open_streams : N;
  so_subscriptions : N;
  so_timers : N;
  so_effect_inflight : N
}.

Definition SurfaceOccupancy_eta (r : SurfaceOccupancy) : SurfaceOccupancy :=
  {| so_surface_id := so_surface_id r;
     so_ready_tasks := so_ready_tasks r;
     so_running_invocations := so_running_invocations r;
     so_resource_refs := so_resource_refs r;
     so_state_refs := so_state_refs r;
     so_active_leases := so_active_leases r;
     so_open_streams := so_open_streams r;
     so_subscriptions := so_subscriptions r;
     so_timers := so_timers r;
     so_effect_inflight := so_effect_inflight r |}.
#[export] Instance set_so_surface_id : Setter so_surface_id := ltac:(derive_setter SurfaceOccupancy_eta so_surface_id).
#[export] Instance set_so_ready_tasks : Setter so_ready_tasks := ltac:(derive_setter SurfaceOccupancy_eta so_ready_tasks).
#[export] Instance set_so_running_invocations : Setter so_running_invocations := ltac:(derive_setter SurfaceOccupancy_eta so_running_invocations).
#[export] Instance set_so_resource_refs : Setter so_resource_refs := ltac:(derive_setter SurfaceOccupancy_eta so_resource_refs).
#[export] Instance set_so_state_refs : Setter so_state_refs := ltac:(derive_setter SurfaceOccupancy_eta so_state_refs).
#[export] Instance set_so_active_leases : Setter so_active_leases := ltac:(derive_setter SurfaceOccupancy_eta so_active_leases).
#[export] Instance set_so_open_streams : Setter so_open_streams := ltac:(derive_setter SurfaceOccupancy_eta so_open_streams).
#[export] Instance set_so_subscriptions : Setter so_subscriptions := ltac:(derive_setter SurfaceOccupancy_eta so_subscriptions).
#[export] Instance set_so_timers : Setter so_timers := ltac:(derive_setter SurfaceOccupancy_eta so_timers).
#[export] Instance set_so_effect_inflight : Setter so_effect_inflight := ltac:(derive_setter SurfaceOccupancy_eta so_effect_inflight).

Definition so_is_zero (self : SurfaceOccupancy) : bool :=
  bool_decide (so_ready_tasks self = 0%N) && bool_decide (so_running_invocations self = 0%N) &&
  bool_decide (so_resource_refs self = 0%N) && bool_decide (so_state_refs self = 0%N) &&
  bool_decide (so_active_leases self = 0%N) && bool_decide (so_open_streams self = 0%N) &&
  bool_decide (so_subscriptions self = 0%N) && bool_decide (so_timers self = 0%N) &&
  bool_decide (so_effect_inflight self = 0%N).

(** [zero_occupancy], which task_pool/occupancy.rs and
    resource_manager/occupancy.rs both define. *)
Definition zero_occupancy (surface_id : SurfaceId) : SurfaceOccupancy :=
  {| so_surface_id := surface_id; so_ready_tasks := 0; so_running_invocations := 0;
     so_resource_refs := 0; so_state_refs := 0; so_active_leases := 0; so_open_streams := 0;
     so_subscriptions := 0; so_timers := 0; so_effect_inflight := 0 |}.

Inductive SurfaceOccupancyHandleKind : Type :=
  | HandleStream | HandleSubscription | HandleTimer.

#[export] Instance SurfaceOccupancyHandleKind_eq_dec : EqDecision SurfaceOccupancyHandleKind.
Proof. solve_decision. Defined.

Record SurfaceOccupancyHandle : Type := MkSurfaceOccupancyHandle {
  oh_handle_id : string;
  oh_surface_id : string;
  oh_owner_plugin_id : string;
  oh_plugin_generation : N;
  oh_registry_generation : N;
  oh_kind : SurfaceOccupancyHandleKind
}.

Inductive SurfaceCompatibility : Type :=
  | Identical | Additive | SurfaceDeprecated | Removed | Breaking.

#[export] Instance SurfaceCompatibility_eq_dec : EqDecision SurfaceCompatibility.
Proof. solve_decision. Defined.

(** ** Profiles and load plans *)

Record CapabilityProviderSelection : Type := MkCapabilityProviderSelection {
  cps_capability : string;
  cps_provider_plugin_id : string;
  cps_provider_version : option string;
  cps_surface_id : string;
  cps_reason : string
}.

Record PermissionAuditEntry : Type := MkPermissionAuditEntry {
  pae_plugin_id : string;
  pae_permission_kind : string;
  pae_permission : string;
  pae_granted : bool;
  pae_provider_capability : option string;
  pae_reason : string
}.

Record RuntimeCapabilityGraph : Type := MkRuntimeCapabilityGraph {
  cg_profile_mode : RuntimeProfileMode;
  cg_provided_capabilities : list string;
  cg_required_capabilities : list string;
  cg_active_capabilities : list string;
  cg_active_capability_providers : list CapabilityProviderSelection;
  cg_active_resource_providers : list string;
  cg_active_host_extensions : list string;
  cg_active_plugin_backends : list string;
  cg_active_codecs : list string;
  cg_active_bridges : list string;
  cg_active_scheduler_policies : list string;
  cg_active_workflows : list string;
  cg_permission_audit : list PermissionAuditEntry
}.

Record RuntimeProfile : Type := MkRuntimeProfile {
  prof_profile_id : string;
  prof_mode : RuntimeProfileMode;
  prof_enabled_plugins : list string;
  prof_bindings : gmap string string;
  prof_plugin_deployments : gmap string PluginDeploymentKind;
  prof_observability : ObservabilityProfile;
  prof_allow_dynamic_registration : bool;
  prof_allow_hot_reload : bool
}.

Section LoadPlan.
Context `{SJ : SerdeJson}.

Record RuntimeLoadPlan : Type := MkRuntimeLoadPlan {
  plan_lock_version : N;
  plan_core_api_version : string;
  plan_profile_id : string;
  plan_profile_hash : string;
  plan_registry_generation : N;
  plan_plugins : list PluginManifest;
  plan_load_order : list string;
  plan_runner_bindings : gmap string string;
  plan_plugin_deployments : gmap string PluginDeploymentKind;
  plan_observability : ObservabilityProfile;
  plan_capability_graph : RuntimeCapabilityGraph;
  plan_contract_surfaces : list ContractSurface
}.

End LoadPlan.
