(* ===== verification/DemoJson.v ===== *)
(** * A concrete JSON type for the examples

    Strings as JSON values: a value is written as one chunk of its length and
    two quotes. *)

From S2P Require Import Prelude Contracts.

#[export] Instance TextJson : SerdeJson := {|
  Value := string;
  json_eqb := λ a b, bool_decide (a = b);
  json_empty_object := "{}";
  json_null := "null";
  json_chunks := λ v, Ok [(N.of_nat (String.length v) + 2)%N]
|}.
