(* ===== verification/Ids.v ===== *)
(** * Sequential identifiers

    The id source of the kernel (crates/mutsuki-runtime-core/src/id.rs):
    [SequentialIdSource::next_id] increments a [u64] and prints it in decimal,
    padded with zeros to 26 digits. *)

From Stdlib Require Import Ascii.
From S2P Require Import Prelude.

Record SequentialIdSource : Type := MkSequentialIdSource {
  id_next : N
}.

(** The [k] last decimal digits of [n], in front of [s]. *)
Fixpoint dec_digits (k : nat) (n : N) (s : string) : string :=
  match k with
  | O => s
  | S k => dec_digits k (n / 10) (String (pretty_N_char (n mod 10)) s)
  end.

(** [format!("{:026}", n)] for a [u64], which has at most twenty digits. *)
Definition pad26 (n : N) : string := dec_digits 26 n "".

Definition next_id (prefix : string) : M SequentialIdSource string :=
  let! self := get in
  let! next := u64_add (id_next self) 1 in
  put (MkSequentialIdSource next) ;;!
  ret (prefix +:+ "-" +:+ pad26 next).

(** ** Printing is injective and has a fixed width *)

Lemma string_app_assoc (a b c : string) : a +:+ (b +:+ c) = (a +:+ b) +:+ c.
Proof. induction a as [|x a IH]; [done|]. exact (f_equal (String x) IH). Qed.

Lemma dec_digits_app k n s : dec_digits k n s = dec_digits k n "" +:+ s.
Proof.
  revert n s. induction k as [|k IH]; intros n s; [done|]. cbn [dec_digits].
  rewrite IH, (IH _ (String _ "")), <-string_app_assoc. done.
Qed.

Lemma dec_digits_length k n s : String.length (dec_digits k n s) = k + String.length s.
Proof.
  revert n s. induction k as [|k IH]; intros n s; [done|]. cbn [dec_digits]. rewrite IH. simpl. lia.
Qed.

Lemma string_app_inj (a b c d : string) :
  String.length a = String.length c → a +:+ b = c +:+ d → a = c ∧ b = d.
Proof.
  revert c. induction a as [|x a IH]; intros [|y c]; simpl; try done.
  intros Hl [= -> H]. destruct (IH c) as [-> ->]; [lia|done|done].
Qed.

Lemma string_app_inj_r (a b c d : string) :
  String.length b = String.length d → a +:+ b = c +:+ d → a = c ∧ b = d.
Proof.
  intros Hl H. apply string_app_inj; [|done]. apply (f_equal String.length) in H.
  assert (∀ s t, String.length (s +:+ t) = String.length s + String.length t) as Happ.
  { induction s as [|x s IH]; intros t; [done|]. simpl. by rewrite IH. }
  rewrite !Happ in H. lia.
Qed.

Definition digits : list N := [0; 1; 2; 3; 4; 5; 6; 7; 8; 9]%N.

Lemma digit_inj n m : (n < 10)%N → (m < 10)%N → pretty_N_char n = pretty_N_char m → n = m.
Proof.
  assert (∀ k, (k < 10)%N → k ∈ digits) as Hd by (intros k Hk; unfold digits; rewrite !elem_of_cons; lia).
  intros Hn%Hd Hm%Hd. revert m Hm. revert n Hn.
  assert (Forall (λ n, Forall (λ m, pretty_N_char n = pretty_N_char m → n = m) digits) digits) as Hall
    by (unfold digits; vm_compute; repeat constructor; congruence).
  rewrite Forall_forall in Hall. intros n Hn m Hm. specialize (Hall n Hn).
  rewrite Forall_forall in Hall. by apply Hall.
Qed.

Lemma dec_digits_inj k n m :
  (n < 10 ^ N.of_nat k)%N → (m < 10 ^ N.of_nat k)%N → dec_digits k n "" = dec_digits k m "" → n = m.
Proof.
  revert n m. induction k as [|k IH]; intros n m Hn Hm; [simpl in *; lia|]. cbn [dec_digits].
  rewrite (dec_digits_app k (n / 10)), (dec_digits_app k (m / 10)). intros H.
  rewrite Nat2N.inj_succ, N.pow_succ_r' in *.
  apply string_app_inj in H as [Hq [= Hd]]; [|by rewrite !dec_digits_length].
  apply IH in Hq; [|apply N.Div0.div_lt_upper_bound; lia|apply N.Div0.div_lt_upper_bound; lia].
  apply digit_inj in Hd; [|apply N.mod_lt; lia|apply N.mod_lt; lia].
  rewrite (N.div_mod n 10), (N.div_mod m 10) by lia. congruence.
Qed.

Lemma pad26_inj n m : (n ≤ u64_max)%N → (m ≤ u64_max)%N → pad26 n = pad26 m → n = m.
Proof.
  unfold u64_max. intros Hn Hm. apply dec_digits_inj.
  - change (10 ^ N.of_nat 26)%N with 100000000000000000000000000%N. lia.
  - change (10 ^ N.of_nat 26)%N with 100000000000000000000000000%N. lia.
Qed.

(** [format!("{n:026}")] agrees with the unpadded printer: it is the decimal
    representation behind leading zeros. *)
Definition zeros (k : nat) : string := Nat.iter k (String "0"%char) "".

Lemma zeros_S k s : zeros k +:+ String "0"%char s = zeros (S k) +:+ s.
Proof.
  unfold zeros. induction k as [|k IH]; [done|]. exact (f_equal (String "0"%char) IH).
Qed.

Lemma dec_digits_zero k s : dec_digits k 0 s = zeros k +:+ s.
Proof.
  revert s. induction k as [|k IH]; intros s; [done|]. cbn [dec_digits].
  change (0 / 10)%N with 0%N. change (pretty_N_char (0 mod 10)) with "0"%char. rewrite IH. apply zeros_S.
Qed.

Lemma dec_digits_pretty k n s :
  (n < 10 ^ N.of_nat k)%N → ∃ j, dec_digits k n s = zeros j +:+ pretty_N_go n s.
Proof.
  revert n s. induction k as [|k IH]; intros n s Hn.
  - simpl in Hn. assert (n = 0%N) as -> by lia. exists 0. by rewrite pretty_N_go_0.
  - destruct (decide (n = 0%N)) as [->|Hne].
    + exists (S k). rewrite dec_digits_zero. by rewrite pretty_N_go_0.
    + cbn [dec_digits]. rewrite pretty_N_go_step by lia. apply IH.
      rewrite Nat2N.inj_succ, N.pow_succ_r' in Hn. apply N.Div0.div_lt_upper_bound. lia.
Qed.

(** ** Fresh ids never repeat *)

Lemma next_id_spec prefix s :
  (id_next s < u64_max)%N →
  next_id prefix s = Some (prefix +:+ "-" +:+ pad26 (id_next s + 1), MkSequentialIdSource (id_next s + 1)).
Proof. intros H. unfold next_id, bind, get, u64_add. rewrite decide_True by lia. done. Qed.

(** An id the source has handed out: some prefix with a number up to the
    counter. *)
Definition issued (s : SequentialIdSource) (id : string) : Prop :=
  ∃ prefix n, id = prefix +:+ "-" +:+ pad26 n ∧ (1 ≤ n ≤ id_next s)%N.

Lemma printed_inj prefix prefix' n m :
  (n ≤ u64_max)%N → (m ≤ u64_max)%N →
  prefix +:+ "-" +:+ pad26 n = prefix' +:+ "-" +:+ pad26 m → prefix = prefix' ∧ n = m.
Proof.
  intros Hn Hm H. apply string_app_inj_r in H as [-> H].
  - split; [done|]. apply (string_app_inj "-") in H as [_ H]; [|done]. by apply pad26_inj.
  - change (S (String.length (pad26 n)) = S (String.length (pad26 m))). unfold pad26. by rewrite !dec_digits_length.
Qed.

#[global] Opaque pad26.

Lemma next_id_fresh prefix s id s' :
  (id_next s ≤ u64_max)%N →
  next_id prefix s = Some (id, s') → ¬ issued s id ∧ issued s' id ∧ (id_next s' = id_next s + 1)%N ∧
  (id_next s' ≤ u64_max)%N.
Proof.
  unfold next_id, bind, get, u64_add. intros Hb. case_decide as Hs; [|done].
  cbn. intros [= <- <-]. split_and!; [|exists prefix, (id_next s + 1)%N; simpl; split; [done|lia]|done|done].
  intros (prefix' & n & Heq & Hn). apply (printed_inj prefix prefix') in Heq as [_ ?]; lia.
Qed.

Lemma issued_mono s s' id : issued s id → (id_next s ≤ id_next s')%N → issued s' id.
Proof. intros (prefix & n & -> & Hn) Hle. exists prefix, n. split; [done|lia]. Qed.
