(* ===== verification/Logs.v ===== *)
(** * Bounded event and trace logs

    [BoundedLog], [EventLog] and [TraceLog]
    (crates/mutsuki-runtime-core/src/logs.rs).  A [VecDeque] is a list; a new
    log allocates its capacity at once, which panics when it does not fit one
    allocation, and [shrink_to] only gives memory back.

    Below, what the logs guarantee and the closure of traces (trace.rs). *)

From Stdlib Require Import SpecFloat.
From S2P Require Import Prelude Contracts RunnerContracts PluginContracts.

Record BoundedLog (T : Type) : Type := MkBoundedLog {
  bl_records : list T;
  bl_next_sequence : N;
  bl_profile : ObservabilityOutletProfile;
  bl_dropped : N
}.
Arguments MkBoundedLog {T}.
Arguments bl_records {T}.
Arguments bl_next_sequence {T}.
Arguments bl_profile {T}.
Arguments bl_dropped {T}.

#[export] Instance set_bl_records {T} : Setter (@bl_records T) := λ f r,
  MkBoundedLog (f (bl_records r)) (bl_next_sequence r) (bl_profile r) (bl_dropped r).
#[export] Instance set_bl_next_sequence {T} : Setter (@bl_next_sequence T) := λ f r,
  MkBoundedLog (bl_records r) (f (bl_next_sequence r)) (bl_profile r) (bl_dropped r).
#[export] Instance set_bl_profile {T} : Setter (@bl_profile T) := λ f r,
  MkBoundedLog (bl_records r) (bl_next_sequence r) (f (bl_profile r)) (bl_dropped r).
#[export] Instance set_bl_dropped {T} : Setter (@bl_dropped T) := λ f r,
  MkBoundedLog (bl_records r) (bl_next_sequence r) (bl_profile r) (f (bl_dropped r)).

(** [VecDeque::pop_front] and [pop_back], without the element. *)
Definition pop_front {T} (l : list T) : list T := tail l.
Definition pop_back {T} (l : list T) : list T := take (length l - 1) l.

Section Log.
Context {T : Type}.
Implicit Types self : BoundedLog T.

Definition log_empty (profile : ObservabilityOutletProfile) : BoundedLog T :=
  {| bl_records := []; bl_next_sequence := 0; bl_profile := profile; bl_dropped := 0 |}.

(** [None] is the capacity overflow of [VecDeque::with_capacity]. *)
Definition log_new `{!SizeOf T} (profile : ObservabilityOutletProfile) : option (BoundedLog T) :=
  if decide (op_capacity profile = 0%N) then Some (log_empty profile)
  else if decide (allocatable T (op_capacity profile)) then Some (log_empty profile)
  else None.

Lemma log_new_Some `{!SizeOf T} profile self : log_new profile = Some self → self = log_empty profile.
Proof. unfold log_new. repeat case_decide; by intros [= <-]. Qed.

Lemma log_new_allocatable `{!SizeOf T} profile :
  allocatable T (op_capacity profile) → log_new profile = Some (log_empty profile).
Proof. intros H. unfold log_new. rewrite (decide_True (P := allocatable _ _)) by done. by case_decide. Qed.

Definition log_capacity self : N := op_capacity (bl_profile self).
Definition log_policy self : ObservabilityOverflowPolicy := op_overflow_policy (bl_profile self).

(** The [while] loop of [configure]; each round drops one record, so the
    number of records is enough fuel. *)
Fixpoint configure_loop (fuel : nat) self : BoundedLog T :=
  match fuel with
  | O => self
  | S fuel =>
      if decide (log_capacity self < len (bl_records self))%N then
        let records :=
          match log_policy self with
          | DropOldest => pop_front (bl_records self)
          | DropNew => pop_back (bl_records self)
          end in
        configure_loop fuel
          (self <| bl_records := records |> <| bl_dropped := saturating_add (bl_dropped self) 1 |>)
      else self
  end.

Definition log_configure (profile : ObservabilityOutletProfile) self : BoundedLog T :=
  configure_loop (length (bl_records self)) (self <| bl_profile := profile |>).

Definition log_set_capacity (capacity : N) self : BoundedLog T :=
  log_configure (MkObservabilityOutletProfile capacity (log_policy self)) self.

Definition log_next_sequence self : N * BoundedLog T :=
  let next := saturating_add (bl_next_sequence self) 1 in
  (next, self <| bl_next_sequence := next |>).

Definition is_enabled self : bool := bool_decide (0 < log_capacity self)%N.

Definition will_retain_next self : bool :=
  is_enabled self &&
  (bool_decide (len (bl_records self) < log_capacity self)%N || bool_decide (log_policy self = DropOldest)).

Definition make_room self : bool * BoundedLog T :=
  if negb (will_retain_next self) then
    (false, self <| bl_dropped := saturating_add (bl_dropped self) 1 |>)
  else if decide (len (bl_records self) = log_capacity self) then
    (true, self <| bl_records := pop_front (bl_records self) |>
                <| bl_dropped := saturating_add (bl_dropped self) 1 |>)
  else (true, self).

Definition retain (record : T) self : BoundedLog T :=
  let '(room, self) := make_room self in
  if room then self <| bl_records := bl_records self ++ [record] |> else self.

Definition record_with (build : N → T) self : option T * BoundedLog T :=
  let '(sequence, self) := log_next_sequence self in
  if negb (will_retain_next self) then
    (None, self <| bl_dropped := saturating_add (bl_dropped self) 1 |>)
  else
    let record := build sequence in
    (Some record, retain record self).

Definition page_after (item_sequence : T → N) self (sequence limit : N) : ObservabilityPage T :=
  let items := take (N.to_nat limit) (filter (λ item, (sequence < item_sequence item)%N) (bl_records self)) in
  let next_sequence :=
    if decide (limit = 0%N) then sequence
    else match last items with
         | Some item => item_sequence item
         | None => N.max sequence (bl_next_sequence self)
         end in
  let lost :=
    if decide (limit = 0%N) then 0%N
    else saturating_sub (saturating_sub next_sequence sequence) (len items) in
  {| pg_items := items;
     pg_next_sequence := next_sequence;
     pg_earliest_available_sequence := item_sequence <$> head (bl_records self);
     pg_latest_sequence := bl_next_sequence self;
     pg_lost := lost;
     pg_truncated := bool_decide (next_sequence < bl_next_sequence self)%N;
     pg_dropped := bl_dropped self |}.

(** [EventLog::drain]: the records are handed out, the counters stay. *)
Definition log_drain self : list T * BoundedLog T :=
  (bl_records self, self <| bl_records := [] |>).
End Log.

(** ** The two logs *)

Record EventLog : Type := MkEventLog { el_inner : BoundedLog RuntimeEvent }.
Record TraceLog : Type := MkTraceLog { tl_inner : BoundedLog TraceSpan }.

(** [size_of] of the two records: the sum of their fields, strings and maps of
    three words and an optional one in the niche of its first string, rounded up
    to a word. *)
#[export] Instance RuntimeEvent_size : SizeOf RuntimeEvent := 240%N.
#[export] Instance TraceSpan_size : SizeOf TraceSpan := 160%N.

Definition EventLog_with_profile (profile : ObservabilityOutletProfile) : option EventLog :=
  MkEventLog <$> log_new profile.
Definition EventLog_default : option EventLog :=
  EventLog_with_profile (MkObservabilityOutletProfile DEFAULT_EVENT_CAPACITY DropNew).

Definition event_record (kind : RuntimeEventKind) (name : string) (subject_id : option string)
    (attributes : gmap string ScalarValue) (error : option RuntimeError) (self : EventLog) :
    option RuntimeEvent * EventLog :=
  let '(r, inner) := record_with (λ sequence,
    {| ev_sequence := sequence; ev_kind := kind; ev_name := name; ev_subject_id := subject_id;
       ev_attributes := attributes; ev_error := error |}) (el_inner self) in
  (r, MkEventLog inner).

Definition event_configure (profile : ObservabilityOutletProfile) (self : EventLog) : EventLog :=
  MkEventLog (log_configure profile (el_inner self)).

Definition event_drain (self : EventLog) : list RuntimeEvent * EventLog :=
  let '(records, inner) := log_drain (el_inner self) in (records, MkEventLog inner).

Definition event_page_after (self : EventLog) (sequence limit : N) : ObservabilityPage RuntimeEvent :=
  page_after ev_sequence (el_inner self) sequence limit.

Definition TraceLog_with_profile (profile : ObservabilityOutletProfile) : option TraceLog :=
  MkTraceLog <$> log_new profile.
Definition TraceLog_with_capacity (capacity : N) : option TraceLog :=
  TraceLog_with_profile (MkObservabilityOutletProfile capacity DropOldest).
Definition TraceLog_default : option TraceLog :=
  TraceLog_with_profile (MkObservabilityOutletProfile DEFAULT_TRACE_CAPACITY DropOldest).

(** The span [TraceLog::record] builds. *)
Definition new_span (trace_id name : string) (parent_span_id : option string) (status : SpanStatus)
    (attributes : gmap string ScalarValue) (sequence : N) : TraceSpan :=
  {| span_sequence := sequence; span_trace_id := trace_id; span_span_id := "span-" +:+ pretty sequence;
     span_parent_span_id := parent_span_id; span_name := name; span_start := u64_as_f64 sequence;
     span_end := Some (u64_as_f64 sequence); span_attributes := attributes; span_status := status |}.

Definition trace_record (trace_id name : string) (parent_span_id : option string) (status : SpanStatus)
    (attributes : gmap string ScalarValue) (self : TraceLog) : option TraceSpan * TraceLog :=
  let '(r, inner) :=
    record_with (new_span trace_id name parent_span_id status attributes) (tl_inner self) in
  (r, MkTraceLog inner).

Definition trace_configure (profile : ObservabilityOutletProfile) (self : TraceLog) : TraceLog :=
  MkTraceLog (log_configure profile (tl_inner self)).

Definition trace_page_after (self : TraceLog) (sequence limit : N) : ObservabilityPage TraceSpan :=
  page_after span_sequence (tl_inner self) sequence limit.

(** ** What the bounded logs guarantee

    Every run of operations on a log keeps it bounded, ordered and accounted
    for, and a page tells its reader exactly what it has and has not seen. *)

Section LogRuns.
Context {T : Type} `{!SizeOf T} (item_sequence : T → N).
Implicit Types self : BoundedLog T.

(** ** Runs of a log *)

Inductive LogOp : Type :=
  | OpRecord (build : N → T)
  | OpConfigure (profile : ObservabilityOutletProfile)
  | OpSetCapacity (capacity : N)
  | OpDrain.

Definition run_log_op (op : LogOp) self : BoundedLog T :=
  match op with
  | OpRecord build => (record_with build self).2
  | OpConfigure profile => log_configure profile self
  | OpSetCapacity capacity => log_set_capacity capacity self
  | OpDrain => (log_drain self).2
  end.

(** How many records the operation hands out and forgets. *)
Definition drained_by (op : LogOp) self : N :=
  match op with OpDrain => len (log_drain self).1 | _ => 0 end.

(** The builder puts the sequence number it is given into the record. *)
Definition op_faithful (op : LogOp) : Prop :=
  match op with OpRecord build => ∀ n, item_sequence (build n) = n | _ => True end.

(** [log_history self drained]: [self] is the result of operations on a new
    log that drained [drained] records, with the sequence counter short of
    saturation ([u64::MAX] records). *)
Inductive log_history : BoundedLog T → N → Prop :=
  | log_history_new profile self : log_new profile = Some self → log_history self 0
  | log_history_step self drained op :
      log_history self drained → op_faithful op → (bl_next_sequence self < u64_max)%N →
      log_history (run_log_op op self) (drained + drained_by op self).

(** ** The invariant *)

Record log_ordered self (drained : N) : Prop := {
  lo_sorted : StronglySorted N.lt (item_sequence <$> bl_records self);
  lo_range : Forall (λ x, (1 ≤ item_sequence x ≤ bl_next_sequence self)%N) (bl_records self);
  lo_count : bl_next_sequence self = (len (bl_records self) + bl_dropped self + drained)%N
}.

Definition log_bounded self : Prop := (len (bl_records self) ≤ log_capacity self)%N.

Lemma log_ordered_sublist self drained records dropped' :
  log_ordered self drained → sublist records (bl_records self) →
  (len records + dropped' = len (bl_records self) + bl_dropped self)%N →
  log_ordered (self <| bl_records := records |> <| bl_dropped := dropped' |>) drained.
Proof.
  intros [Hs Hr Hc] Hsub Hlen. constructor; cbn.
  - eapply StronglySorted_sublist; [by apply fmap_sublist|done].
  - by eapply Forall_sublist.
  - lia.
Qed.

Lemma pop_front_length (l : list T) : length (pop_front l) = length l - 1.
Proof. destruct l; simpl; lia. Qed.
Lemma pop_back_length (l : list T) : length (pop_back l) = length l - 1.
Proof. unfold pop_back. rewrite length_take. lia. Qed.
Lemma pop_front_sublist (l : list T) : sublist (pop_front l) l.
Proof. destruct l; [done|]. by apply sublist_cons. Qed.
Lemma pop_back_sublist (l : list T) : sublist (pop_back l) l.
Proof. apply sublist_take. Qed.

Lemma configure_loop_ok fuel self drained :
  log_ordered self drained → (bl_next_sequence self < u64_max)%N → length (bl_records self) ≤ fuel →
  let self' := configure_loop fuel self in
  log_ordered self' drained ∧ log_bounded self' ∧
  bl_next_sequence self' = bl_next_sequence self ∧ bl_profile self' = bl_profile self.
Proof.
  revert self. induction fuel as [|fuel IH]; intros self Ho Hmax Hfuel; cbn [configure_loop].
  - split_and!; try done. unfold log_bounded, len. lia.
  - case_decide as Hcap; [|split_and!; try done; unfold log_bounded; lia].
    set (records := match log_policy self with DropOldest => _ | DropNew => _ end).
    assert (length records = length (bl_records self) - 1 ∧ sublist records (bl_records self)) as [Hlen Hsub].
    { subst records. destruct (log_policy self); split; auto using pop_front_length, pop_back_length,
        pop_front_sublist, pop_back_sublist. }
    pose proof (lo_count _ _ Ho) as Hc. unfold len in *.
    destruct (IH (self <| bl_records := records |> <| bl_dropped := saturating_add (bl_dropped self) 1 |>))
      as (? & ? & ? & ?); [|done|cbn; lia|done].
    apply log_ordered_sublist; [done|done|]. unfold len. rewrite saturating_add_exact by lia. lia.
Qed.

Lemma record_with_ok build self drained :
  log_ordered self drained → log_bounded self → (∀ n, item_sequence (build n) = n) →
  (bl_next_sequence self < u64_max)%N →
  let '(r, self') := record_with build self in
  log_ordered self' drained ∧ log_bounded self' ∧ bl_next_sequence self' = (bl_next_sequence self + 1)%N ∧
  bl_profile self' = bl_profile self ∧
  match r with
  | Some x => x = build (bl_next_sequence self + 1)%N ∧ last (bl_records self') = Some x
  | None => bl_records self' = bl_records self
  end.
Proof.
  intros [Hs Hr Hc] Hb Hbuild Hmax. unfold record_with, log_next_sequence.
  rewrite saturating_add_exact by lia. set (s1 := self <| bl_next_sequence := _ |>).
  destruct (will_retain_next s1) eqn:Hw; cbn [negb].
  - assert (∃ records, sublist records (bl_records self) ∧ (len records < log_capacity self)%N ∧
      retain (build (bl_next_sequence self + 1)%N) s1 =
      s1 <| bl_records := records ++ [build (bl_next_sequence self + 1)%N] |>
         <| bl_dropped := (bl_dropped self + (len (bl_records self) - len records))%N |>) as (records & Hsub & Hcap & ->).
    { unfold retain, make_room. rewrite Hw. cbn [negb].
      destruct (decide (len (bl_records s1) = log_capacity s1)) as [Hfull|Hfull];
        unfold will_retain_next, is_enabled, log_bounded, log_capacity in *; cbn in Hw, Hfull.
      - exists (pop_front (bl_records self)). split; [apply pop_front_sublist|].
        apply andb_prop in Hw as [Hpos%bool_decide_eq_true _].
        unfold len in *. rewrite pop_front_length. split; [lia|]. cbn. rewrite saturating_add_exact by lia.
        unfold s1, set_field, set_bl_records, set_bl_dropped, set_bl_next_sequence. cbn. f_equal. lia.
      - exists (bl_records self). split; [done|]. split; [lia|]. cbn.
        unfold s1, set_field, set_bl_records, set_bl_dropped, set_bl_next_sequence. cbn. f_equal. lia. }
    pose proof (sublist_length _ _ Hsub) as Hle. unfold len in *.
    split_and!; cbn; try done.
    + constructor; cbn.
      * rewrite fmap_app. apply StronglySorted_app. split_and!.
        -- intros x y (z & -> & Hz)%list_elem_of_fmap Hy. cbn in Hy. apply list_elem_of_singleton in Hy as ->.
           rewrite Hbuild. rewrite Forall_forall in Hr. specialize (Hr z (sublist_subseteq _ _ Hsub _ Hz)). lia.
        -- eapply StronglySorted_sublist; [by apply fmap_sublist|done].
        -- repeat constructor.
      * apply Forall_app. split; [|constructor; [rewrite Hbuild; lia|constructor]].
        apply (Forall_sublist _ _ _ Hsub). eapply Forall_impl; [exact Hr|]. cbn. intros; lia.
      * unfold len. rewrite length_app. cbn. lia.
    + unfold log_bounded, len, log_capacity in *. cbn. rewrite length_app. cbn. lia.
    + by rewrite last_snoc.
  - split_and!; cbn; try done. constructor; cbn; [done| |].
    + eapply Forall_impl; [exact Hr|]. cbn. intros; lia.
    + rewrite saturating_add_exact; unfold len in *; lia.
Qed.

Lemma log_history_ok self drained :
  log_history self drained → log_ordered self drained ∧ log_bounded self.
Proof.
  induction 1 as [profile self ->%log_new_Some|self drained op _ [Ho Hb] Hf Hmax].
  - split; [constructor; cbn; [constructor|constructor|done]|]. apply N.le_0_l.
  - assert (∀ profile, log_ordered (self <| bl_profile := profile |>) drained) as Hprof
      by (by intros; destruct Ho).
    destruct op as [build|profile|capacity|]; cbn [run_log_op drained_by op_faithful] in *;
      rewrite ?N.add_0_r.
    + pose proof (record_with_ok build self drained Ho Hb Hf Hmax) as H.
      destruct (record_with build self) as [r self']. by destruct H as (? & ? & _).
    + by destruct (configure_loop_ok (length (bl_records self)) (self <| bl_profile := profile |>) drained)
        as (? & ? & _).
    + unfold log_set_capacity, log_configure.
      by destruct (configure_loop_ok (length (bl_records self))
        (self <| bl_profile := MkObservabilityOutletProfile capacity (log_policy self) |>) drained) as (? & ? & _).
    + destruct Ho as [_ _ Hc]. split; [constructor; cbn; [constructor|constructor|]|]; [unfold len in *; cbn; lia|].
      apply N.le_0_l.
Qed.

(** The loop of [configure] in closed form. *)
Lemma configure_loop_records fuel self :
  length (bl_records self) ≤ fuel →
  bl_records (configure_loop fuel self) =
    match log_policy self with
    | DropOldest => drop (length (bl_records self) - N.to_nat (log_capacity self)) (bl_records self)
    | DropNew => take (N.to_nat (log_capacity self)) (bl_records self)
    end.
Proof.
  revert self. induction fuel as [|fuel IH]; intros self Hfuel; cbn [configure_loop].
  - assert (bl_records self = []) as -> by (apply length_zero_iff_nil; lia).
    by destruct (log_policy self); rewrite ?take_nil, ?drop_nil.
  - case_decide as Hcap; unfold len in Hcap.
    + rewrite IH; destruct (log_policy self) eqn:Hp; cbn; rewrite ?pop_front_length, ?pop_back_length by done;
        try lia; unfold log_policy, log_capacity in *; cbn; rewrite Hp.
      * destruct (bl_records self) as [|x l]; [done|]. cbn in *.
        by replace (S (length l) - N.to_nat (op_capacity (bl_profile self)))
          with (S (length l - 0 - N.to_nat (op_capacity (bl_profile self)))) by lia.
      * unfold pop_back. rewrite take_take. f_equal. lia.
    + destruct (log_policy self).
      * by replace (length (bl_records self) - N.to_nat (log_capacity self)) with 0 by lia.
      * rewrite take_ge by lia. done.
Qed.

Lemma log_configure_sublist profile self : sublist (bl_records (log_configure profile self)) (bl_records self).
Proof.
  unfold log_configure. rewrite configure_loop_records by done.
  destruct (log_policy _); [apply sublist_drop|apply sublist_take].
Qed.

Lemma record_with_elem build self x :
  x ∈ bl_records (record_with build self).2 →
  x ∈ bl_records self ∨ x = build (saturating_add (bl_next_sequence self) 1).
Proof.
  unfold record_with, log_next_sequence, retain, make_room. set (s1 := self <| bl_next_sequence := _ |>).
  destruct (will_retain_next s1); cbn [negb snd]; [|by left].
  case_decide; cbn; rewrite elem_of_app, list_elem_of_singleton; intros [Hx|Hx]; auto.
  left. by eapply sublist_subseteq; [apply pop_front_sublist|].
Qed.

(** ** Pages *)

(** A strictly increasing list between two bounds is no longer than the gap. *)
Lemma sorted_gap (l : list N) a b :
  StronglySorted N.lt l → Forall (λ n, (a < n ≤ b)%N) l → (len l ≤ b - a)%N.
Proof.
  intros Hs. revert a. induction Hs as [|n l Hs IH Hall]; intros a Hf; [unfold len; simpl; lia|].
  apply Forall_cons in Hf as [Hn Hf]. rewrite len_cons.
  assert (len l ≤ b - n)%N; [|lia]. apply IH. rewrite Forall_forall in *. intros m Hm.
  specialize (Hall m Hm). specialize (Hf m Hm). lia.
Qed.

(** The first items of an increasing list are the ones up to the last of them. *)
Lemma take_sorted_filter (l : list T) k x :
  StronglySorted N.lt (item_sequence <$> l) → last (take k l) = Some x →
  take k l = filter (λ y, (item_sequence y ≤ item_sequence x)%N) l.
Proof.
  intros Hs Hx. assert (x ∈ take k l) as Hin by (by apply last_Some_elem_of).
  rewrite <-(take_drop k l) in Hs at 1. rewrite fmap_app in Hs.
  apply StronglySorted_app in Hs as (Hlt & Hs1 & Hs2). rewrite <-(take_drop k l) at 2. rewrite filter_app.
  assert (filter (λ y, (item_sequence y ≤ item_sequence x)%N) (drop k l) = []) as ->.
  { apply filter_none. intros y Hy Hle.
    specialize (Hlt (item_sequence x) (item_sequence y)).
    rewrite !list_elem_of_fmap in Hlt. specialize (Hlt (ex_intro _ _ (conj eq_refl Hin)) (ex_intro _ _ (conj eq_refl Hy))).
    lia. }
  rewrite app_nil_r. symmetry. apply filter_all. intros y Hy.
  destruct (last_Some (take k l) x) as [(l' & Hl') _]; [done|]. rewrite Hl' in *.
  apply elem_of_app in Hy as [Hy|Hy]; [|apply list_elem_of_singleton in Hy as ->; done].
  rewrite fmap_app in Hs1. apply StronglySorted_app in Hs1 as (Hlt' & _ & _).
  assert (item_sequence y < item_sequence x)%N; [|lia]. apply Hlt'; rewrite list_elem_of_fmap; [by exists y|].
  exists x. split; [done|]. set_solver.
Qed.

(** What a page holds: [items] are the retained records between the cursor and
    the new cursor. *)
Lemma page_after_items self sequence limit :
  StronglySorted N.lt (item_sequence <$> bl_records self) →
  Forall (λ x, (item_sequence x ≤ bl_next_sequence self)%N) (bl_records self) →
  limit ≠ 0%N → (sequence ≤ bl_next_sequence self)%N →
  let page := page_after item_sequence self sequence limit in
  pg_items page =
    filter (λ x, (sequence < item_sequence x ≤ pg_next_sequence page)%N) (bl_records self) ∧
  (sequence ≤ pg_next_sequence page ≤ bl_next_sequence self)%N ∧
  (pg_next_sequence page = sequence → sequence = bl_next_sequence self) ∧
  pg_lost page = (pg_next_sequence page - sequence - len (pg_items page))%N.
Proof.
  intros Hs Hr Hlim Hle. unfold page_after. rewrite !decide_False by done. cbn.
  set (rest := filter _ (bl_records self)).
  assert (∀ x, x ∈ rest ↔ (sequence < item_sequence x)%N ∧ x ∈ bl_records self) as Hrest
    by (intros; unfold rest; by rewrite list_elem_of_filter).
  assert (StronglySorted N.lt (item_sequence <$> rest)) as Hs'.
  { eapply StronglySorted_sublist; [apply fmap_sublist, sublist_filter|done]. }
  rewrite Forall_forall in Hr. destruct (last (take (N.to_nat limit) rest)) as [x|] eqn:Hx.
  - assert (x ∈ rest) as [Hlt Hin]%Hrest.
    { apply last_Some_elem_of in Hx. by apply elem_of_take in Hx as (i & ?%list_elem_of_lookup_2 & _). }
    specialize (Hr x Hin). split_and!; [|lia|lia|lia|done].
    rewrite (take_sorted_filter _ _ x Hs' Hx). unfold rest. rewrite list_filter_filter.
    apply list_filter_iff. intros y. lia.
  - apply last_None in Hx. assert (rest = []) as Hnil.
    { destruct rest as [|y rest'], (N.to_nat limit) eqn:El; try done. lia. }
    rewrite Hnil, take_nil. split_and!; [|lia|lia|lia|done].
    symmetry. apply filter_none. intros y Hy [Hlt _]. apply (not_elem_of_nil y).
    rewrite <-Hnil. by apply Hrest.
Qed.
End LogRuns.

(** ** Properties *)

Section LogTheorems.
Context {T : Type} `{!SizeOf T} (item_sequence : T → N).
Implicit Types self : BoundedLog T.

(** the logs are bounded, ordered and lose nothing silently.  After any
    operations on a log it retains at most [capacity] records, their sequence
    numbers strictly increase up to the counter, and every sequence number ever
    given out is accounted for: retained, drained by the reader or counted as
    dropped. *)
Theorem log_accounted self drained :
  log_history item_sequence self drained →
  (len (bl_records self) ≤ op_capacity (bl_profile self))%N ∧
  StronglySorted N.lt (item_sequence <$> bl_records self) ∧
  (∀ x, x ∈ bl_records self → (1 ≤ item_sequence x ≤ bl_next_sequence self)%N) ∧
  bl_next_sequence self = (len (bl_records self) + bl_dropped self + drained)%N.
Proof.
  intros [[Hs Hr Hc] Hb]%log_history_ok. split_and!; try done. by rewrite <-Forall_forall.
Qed.

(** reconfiguring a log keeps the right end of it.  [configure] keeps the
    newest [capacity] records when the policy drops the oldest ones and the
    oldest [capacity] when it drops new ones; its loop terminates. *)
Theorem log_configure_keeps profile self :
  let self' := log_configure profile self in
  let excess := length (bl_records self) - N.to_nat (op_capacity profile) in
  bl_records self' =
    match op_overflow_policy profile with
    | DropOldest => drop excess (bl_records self)
    | DropNew => take (N.to_nat (op_capacity profile)) (bl_records self)
    end.
Proof. cbv zeta. unfold log_configure. by rewrite configure_loop_records. Qed.

(** a page is exact.  For a cursor up to the log's counter and a positive
    limit, the page holds exactly the retained records after the cursor up to
    the new cursor, at most [limit] of them; the new cursor advances unless the
    reader is at the end; [lost] is the number of sequence numbers between the
    two cursors whose record is no longer there; and what follows the new
    cursor is what was not in the page, so paging reads every retained record
    once. *)
Theorem page_after_exact self drained sequence limit :
  log_history item_sequence self drained → limit ≠ 0%N → (sequence ≤ bl_next_sequence self)%N →
  let page := page_after item_sequence self sequence limit in
  (len (pg_items page) ≤ limit)%N ∧
  pg_items page = filter (λ x, (sequence < item_sequence x ≤ pg_next_sequence page)%N) (bl_records self) ∧
  filter (λ x, (sequence < item_sequence x)%N) (bl_records self) =
    pg_items page ++ filter (λ x, (pg_next_sequence page < item_sequence x)%N) (bl_records self) ∧
  (sequence ≤ pg_next_sequence page ≤ bl_next_sequence self)%N ∧
  (pg_next_sequence page = sequence → sequence = bl_next_sequence self) ∧
  (pg_lost page + len (pg_items page) = pg_next_sequence page - sequence)%N ∧
  (pg_truncated page = false ↔ pg_next_sequence page = bl_next_sequence self).
Proof.
  intros [[Hs Hr Hc] Hb]%log_history_ok Hlim Hle page.
  destruct (page_after_items item_sequence self sequence limit) as (Hitems & Hnext & Hend & Hlost); try done.
  { eapply Forall_impl; [exact Hr|]. cbn. lia. }
  fold page in Hitems, Hnext, Hend, Hlost.
  assert (len (pg_items page) ≤ pg_next_sequence page - sequence)%N as Hgap.
  { replace (len (pg_items page)) with (len (item_sequence <$> pg_items page)) by (unfold len; by rewrite length_fmap).
    apply sorted_gap.
    - rewrite Hitems. eapply StronglySorted_sublist; [apply fmap_sublist, sublist_filter|done].
    - rewrite Hitems. apply Forall_fmap, Forall_forall. intros x [Hx _]%list_elem_of_filter. done. }
  split_and!; try done; [| |lia|lia|lia|].
  - change (len (take (N.to_nat limit) (filter (λ x, (sequence < item_sequence x)%N) (bl_records self))) ≤ limit)%N.
    unfold len. rewrite length_take. lia.
  - rewrite Hitems. clear -Hs Hnext. induction (bl_records self) as [|x l IH]; [done|].
    cbn in Hs. apply StronglySorted_inv in Hs as [Hs Hall]. specialize (IH Hs). rewrite !filter_cons.
    destruct (decide (pg_next_sequence page < item_sequence x)%N) as [Hx|Hx].
    + rewrite (decide_False (P := (sequence < item_sequence x ≤ _)%N)) by lia.
      rewrite (decide_True (P := (sequence < item_sequence x)%N)) by lia. rewrite IH.
      rewrite (filter_none (λ x, (sequence < item_sequence x ≤ pg_next_sequence page)%N)); [done|].
      intros y Hy [_ Hle]. rewrite Forall_forall in Hall.
      specialize (Hall (item_sequence y)). rewrite list_elem_of_fmap in Hall.
      specialize (Hall (ex_intro _ y (conj eq_refl Hy))). lia.
    + destruct (decide (sequence < item_sequence x)%N) as [Hq|Hq].
      * rewrite (decide_True (P := (sequence < item_sequence x ≤ _)%N)) by lia. cbn. by rewrite IH.
      * rewrite (decide_False (P := (sequence < item_sequence x ≤ _)%N)) by lia. done.
  - unfold page, page_after. cbn. rewrite bool_decide_eq_false. fold page. change (if decide _ then _ else _) with (pg_next_sequence page). lia.
Qed.
End LogTheorems.

(** ** Trace closure

    [validate_trace_closure] (crates/mutsuki-runtime-core/src/trace.rs) checks
    that a set of spans is well formed; the trace log of [Logs] only writes
    spans that pass its local checks. *)

Inductive TraceClosureIssue : Type :=
  | DuplicateSpanId (span_id : string)
  | MissingParent (span_id parent_span_id : string)
  | ParentTraceMismatch (span_id parent_span_id : string)
  | InvalidInterval (span_id : string).

(** [HashSet<&str>] and [HashMap<&str, &TraceSpan>] of the first loop, with the
    issues found so far. *)
Record ClosureScan : Type := MkClosureScan {
  cl_issues : list TraceClosureIssue;
  cl_seen : gset string;
  cl_by_span_id : gmap string TraceSpan
}.

Definition interval_invalid (span : TraceSpan) : bool :=
  is_some_and (span_end span) (λ e, SFltb e (span_start span)).

Definition scan_span (s : ClosureScan) (span : TraceSpan) : ClosureScan :=
  let id := span_span_id span in
  {| cl_issues :=
       cl_issues s
       ++ (if decide (id ∈ cl_seen s) then [DuplicateSpanId id] else [])
       ++ (if interval_invalid span then [InvalidInterval id] else []);
     cl_seen := {[ id ]} ∪ cl_seen s;
     cl_by_span_id :=
       match cl_by_span_id s !! id with
       | Some _ => cl_by_span_id s
       | None => <[ id := span ]> (cl_by_span_id s)
       end |}.

Definition parent_issues (by_span_id : gmap string TraceSpan) (span : TraceSpan) : list TraceClosureIssue :=
  match span_parent_span_id span with
  | None => []
  | Some parent_span_id =>
      match by_span_id !! parent_span_id with
      | None => [MissingParent (span_span_id span) parent_span_id]
      | Some parent =>
          if decide (span_trace_id parent ≠ span_trace_id span)
          then [ParentTraceMismatch (span_span_id span) parent_span_id] else []
      end
  end.

Definition validate_trace_closure (spans : list TraceSpan) : list TraceClosureIssue :=
  let s := foldl scan_span (MkClosureScan [] ∅ ∅) spans in
  cl_issues s ++ flat_map (parent_issues (cl_by_span_id s)) spans.

(** ** The first loop *)

(** The first span with an id. *)
Definition span_of (spans : list TraceSpan) (id : string) : option TraceSpan :=
  head (filter (λ s, span_span_id s = id) spans).

Lemma scan_state spans :
  let s := foldl scan_span (MkClosureScan [] ∅ ∅) spans in
  (∀ id, id ∈ cl_seen s ↔ id ∈ span_span_id <$> spans) ∧
  (∀ id, cl_by_span_id s !! id = span_of spans id).
Proof.
  induction spans as [|span spans IH] using rev_ind.
  { split; intros id; [cbn; set_solver|]. cbn. by rewrite lookup_empty. }
  cbv zeta in *. rewrite foldl_snoc. destruct IH as [Hseen Hby]. split; intros id; cbn.
  - rewrite fmap_app, elem_of_app, elem_of_union, Hseen, elem_of_singleton. cbn.
    rewrite list_elem_of_singleton. tauto.
  - unfold span_of. rewrite filter_app, filter_cons, filter_nil. fold (span_of spans id).
    assert (∀ o, head (filter (λ s, span_span_id s = id) spans ++ o) =
      match span_of spans id with Some x => Some x | None => head o end) as ->.
    { intros o. unfold span_of. by destruct (filter _ spans). }
    rewrite Hby. destruct (decide (span_span_id span = id)) as [<-|Hne].
    + destruct (span_of spans (span_span_id span)) eqn:Hs; [by rewrite Hby|]. by rewrite lookup_insert_eq.
    + destruct (span_of spans (span_span_id span)); rewrite ?lookup_insert_ne, Hby by done;
        by destruct (span_of spans id).
Qed.

Lemma scan_issues_nil spans :
  cl_issues (foldl scan_span (MkClosureScan [] ∅ ∅) spans) = [] ↔
  NoDup (span_span_id <$> spans) ∧ Forall (λ s, interval_invalid s = false) spans.
Proof.
  induction spans as [|span spans IH] using rev_ind; [cbn; split; [by repeat constructor|done]|].
  rewrite foldl_snoc. cbn. destruct (scan_state spans) as [Hseen _]. cbv zeta in Hseen.
  rewrite fmap_app, NoDup_app, Forall_app, !app_nil, IH. cbn. rewrite Forall_singleton. split.
  - intros ((Hnd & Hf) & Hdup & Hint). case_decide as Hin; [done|].
    destruct (interval_invalid span) eqn:E; [done|]. split_and!; try done.
    + intros x Hx ->%list_elem_of_singleton. apply Hin. by apply Hseen.
    + apply NoDup_singleton.
  - intros ((Hnd & Hdisj & _) & Hf & ->). split_and!; try done.
    rewrite decide_False; [done|]. rewrite Hseen. intros Hin. apply (Hdisj _ Hin). set_solver.
Qed.

(** trace closure is decided exactly.  [validate_trace_closure] reports no
    issue exactly when span ids are distinct, no span ends before it starts,
    and every parent a span names is in the set and belongs to the same trace. *)
Theorem trace_closure_exact spans :
  validate_trace_closure spans = [] ↔
  NoDup (span_span_id <$> spans) ∧
  (∀ s, s ∈ spans → interval_invalid s = false) ∧
  (∀ s parent_id, s ∈ spans → span_parent_span_id s = Some parent_id →
     ∃ parent, parent ∈ spans ∧ span_span_id parent = parent_id ∧ span_trace_id parent = span_trace_id s).
Proof.
  unfold validate_trace_closure. cbv zeta. destruct (scan_state spans) as [_ Hby]. cbv zeta in Hby.
  rewrite app_nil, scan_issues_nil, Forall_forall.
  assert (∀ (f : TraceSpan → list TraceClosureIssue) l, flat_map f l = [] ↔ ∀ x, x ∈ l → f x = []) as Hflat.
  { intros f l. induction l as [|x l IH]; cbn; [set_solver|]. rewrite app_nil, IH. set_solver. }
  rewrite Hflat. split.
  - intros ([Hnd Hint] & Hpar). split_and!; try done. intros s pid Hs Hp. specialize (Hpar s Hs).
    unfold parent_issues in Hpar. rewrite Hp, Hby in Hpar. destruct (span_of spans pid) as [parent|] eqn:Ho; [|done].
    case_decide as Ht; [done|]. exists parent. apply head_Some_elem_of in Ho.
    apply list_elem_of_filter in Ho as [<- Ho]. done.
  - intros (Hnd & Hint & Hpar). split; [done|]. intros s Hs. unfold parent_issues.
    destruct (span_parent_span_id s) as [pid|] eqn:Hp; [|done].
    destruct (Hpar s pid Hs Hp) as (parent & Hin & <- & Ht). rewrite Hby.
    assert (span_of spans (span_span_id parent) = Some parent) as ->; [|by rewrite decide_False by auto].
    clear -Hnd Hin. unfold span_of. induction spans as [|x l IH]; [by apply not_elem_of_nil in Hin|].
    cbn in Hnd. apply NoDup_cons in Hnd as [Hx Hnd]. rewrite filter_cons. case_decide as Heq.
    + cbn. f_equal. apply elem_of_cons in Hin as [->|Hin]; [done|]. destruct Hx. rewrite Heq.
      apply list_elem_of_fmap. eauto.
    + apply IH; [done|]. apply elem_of_cons in Hin as [->|Hin]; done.
Qed.

(** ** The spans of a trace log *)

(** A trace log written through [record] and reconfigured at will. *)
Inductive trace_history : TraceLog → Prop :=
  | trace_history_new profile self : TraceLog_with_profile profile = Some self → trace_history self
  | trace_history_record self trace_id name parent status attributes :
      trace_history self → (bl_next_sequence (tl_inner self) < u64_max)%N →
      trace_history (trace_record trace_id name parent status attributes self).2
  | trace_history_configure self profile :
      trace_history self → (bl_next_sequence (tl_inner self) < u64_max)%N →
      trace_history (trace_configure profile self).

Definition span_well_formed (s : TraceSpan) : Prop :=
  span_span_id s = "span-" +:+ pretty (span_sequence s) ∧ interval_invalid s = false.

Lemma SFltb_irrefl f : SFltb f f = false.
Proof.
  unfold SFltb, SFcompare. destruct f as [[]|[]| |[] m e]; try done;
    rewrite Z.compare_refl; unfold Pcompare; by rewrite Pos.compare_cont_refl.
Qed.

Lemma trace_history_log self :
  trace_history self → log_history span_sequence (tl_inner self) 0 ∧
  Forall span_well_formed (bl_records (tl_inner self)).
Proof.
  induction 1 as [profile self Hnew|self trace_id name parent status attributes _ [Hl Hf] Hmax|self profile _ [Hl Hf] Hmax].
  - apply fmap_Some in Hnew as (log & Hlog & ->). cbn. split; [by eapply log_history_new|].
    by apply log_new_Some in Hlog as ->.
  - set (build := new_span trace_id name parent status attributes).
    assert (tl_inner (trace_record trace_id name parent status attributes self).2 =
            run_log_op (OpRecord build) (tl_inner self)) as ->.
    { unfold trace_record. fold build. cbn [run_log_op]. by destruct (record_with build (tl_inner self)). }
    split; [exact (log_history_step _ _ 0 (OpRecord build) Hl (λ n, eq_refl) Hmax)|].
    apply Forall_forall. intros x [Hx| ->]%record_with_elem; [rewrite Forall_forall in Hf; by apply Hf|].
    split; [done|]. apply SFltb_irrefl.
  - split; [exact (log_history_step _ _ 0 (OpConfigure profile) Hl I Hmax)|].
    eapply Forall_sublist; [apply log_configure_sublist|done].
Qed.

(** the trace log writes closed spans.  In a log written through [record]
    the spans have distinct ids and valid intervals, so the only issues
    [validate_trace_closure] can report concern the parents the callers named
    (or evicted from the bounded log). *)
Theorem trace_log_closed self :
  trace_history self →
  NoDup (span_span_id <$> bl_records (tl_inner self)) ∧
  ∀ issue, issue ∈ validate_trace_closure (bl_records (tl_inner self)) →
    ∃ span parent_id, span ∈ bl_records (tl_inner self) ∧ span_parent_span_id span = Some parent_id ∧
      (issue = MissingParent (span_span_id span) parent_id ∨
       issue = ParentTraceMismatch (span_span_id span) parent_id).
Proof.
  intros [Hl Hf]%trace_history_log. set (spans := bl_records (tl_inner self)) in *.
  assert (NoDup (span_span_id <$> spans)) as Hnd.
  { apply log_history_ok in Hl as [[Hs _ _] _]. fold spans in Hs.
    assert (span_span_id <$> spans = (λ n, "span-" +:+ pretty n) <$> (span_sequence <$> spans)) as ->.
    { rewrite <-list_fmap_compose. apply list_fmap_ext. intros i x Hx.
      rewrite Forall_forall in Hf. destruct (Hf x) as [-> _]; [by eapply list_elem_of_lookup_2|done]. }
    apply NoDup_fmap_2.
    - intros n m Hnm. cbn in Hnm. repeat injection Hnm as Hnm. by apply (inj pretty).
    - clear -Hs. induction Hs as [|n l Hs IH Hall]; constructor; [|done]. intros Hin.
      rewrite Forall_forall in Hall. specialize (Hall n Hin). lia. }
  split; [done|]. intros issue. unfold validate_trace_closure. cbv zeta.
  assert (cl_issues (foldl scan_span (MkClosureScan [] ∅ ∅) spans) = []) as ->.
  { apply scan_issues_nil. split; [done|]. eapply Forall_impl; [exact Hf|]. by intros x [_ ?]. }
  cbn. rewrite list_elem_of_In, in_flat_map. intros (span & Hin & Hi). exists span.
  unfold parent_issues in Hi. destruct (span_parent_span_id span) as [pid|]; [|done]. exists pid.
  rewrite <-list_elem_of_In in Hin. split_and!; [done|done|].
  destruct (_ !! pid); [|by destruct Hi as [<-|[]]; left].
  case_decide; [|done]. by destruct Hi as [<-|[]]; right.
Qed.
