(* ===== verification/StateStore.v ===== *)
(** * Versioned state

    [StateStore] (crates/mutsuki-runtime-core/src/state_store.rs): a value with
    a version per reference, updated by deltas that name the version they were
    computed from. *)

From S2P Require Import Prelude Contracts.

Section Store.
Context `{SJ : SerdeJson}.

Record StateStore : Type := MkStateStore {
  ss_values : gmap string (N * Value)
}.

Definition current_version (self : StateStore) (ref_id : string) : N :=
  match ss_values self !! ref_id with Some (version, _) => version | None => 0 end.

(** [current_version + 1] panics on overflow. *)
Definition apply (delta : StateDelta) : M StateStore (RuntimeResult unit) :=
  let! self := get in
  let current := current_version self (sdl_target_ref delta) in
  if decide (current ≠ sdl_expected_version delta) then
    ret (runtime_failure ERR_STATE_CONFLICT "runtime.state_store"
           ("state.commit." +:+ sdl_target_ref delta))
  else
    let! next := u64_add current 1 in
    put (MkStateStore (<[ sdl_target_ref delta := (next, sdl_patch delta) ]> (ss_values self))) ;;!
    ret (Ok tt).

Definition store_get (self : StateStore) (ref_id : string) : option (N * Value) := ss_values self !! ref_id.

Definition conflict_error (route : string) (expectation : VersionExpectation) (current : N) : RuntimeError :=
  with_evidence "actual_version" (ScalarInt (u64_as_i64 current))
    (with_evidence "expected_version" (ScalarInt (u64_as_i64 (ve_expected_version expectation)))
      (with_evidence "ref_id" (ScalarString (ve_ref_id expectation))
        (runtime_error ERR_STATE_CONFLICT "runtime.state_store" route))).

Fixpoint validate_expectations (self : StateStore) (expectations : list VersionExpectation) (route : string) :
    RuntimeResult unit :=
  match expectations with
  | [] => Ok tt
  | expectation :: expectations =>
      let current := current_version self (ve_ref_id expectation) in
      if decide (current ≠ ve_expected_version expectation)
      then Err (conflict_error route expectation current)
      else validate_expectations self expectations route
  end.

(** ** Histories of a reference *)

(** The deltas of a run that were accepted, in order. *)
Inductive store_run : StateStore → list StateDelta → StateStore → Prop :=
  | store_run_nil s : store_run s [] s
  | store_run_ok s s' s'' delta deltas :
      apply delta s = Some (Ok tt, s') → store_run s' deltas s'' → store_run s (delta :: deltas) s''
  | store_run_err s s' s'' delta deltas e :
      apply delta s = Some (Err e, s') → store_run s' deltas s'' → store_run s deltas s''.

Definition for_ref (ref_id : string) (deltas : list StateDelta) : list StateDelta :=
  filter (λ d, sdl_target_ref d = ref_id) deltas.

Lemma apply_ok delta s s' :
  apply delta s = Some (Ok tt, s') →
  current_version s (sdl_target_ref delta) = sdl_expected_version delta ∧
  (current_version s (sdl_target_ref delta) < u64_max)%N ∧
  ss_values s' = <[ sdl_target_ref delta := ((sdl_expected_version delta + 1)%N, sdl_patch delta) ]> (ss_values s).
Proof.
  unfold apply, bind, get, u64_add. case_decide as Hv; [done|]. case_decide as Hmax; [|done].
  cbn. intros [= <-].  rewrite <-Hv. split_and!; [done|lia|done].
Qed.

Lemma apply_err delta s s' e : apply delta s = Some (Err e, s') → s' = s.
Proof.
  unfold apply, bind, get, u64_add. case_decide; [by intros [= _ <-]|]. case_decide; [|done]. by intros [=].
Qed.

(** state commits are compare-and-swap.  A delta is applied exactly when it
    names the reference's current version; it then stores its patch under the
    next version and changes no other reference.  Otherwise the store is
    unchanged and the error is state.conflict. *)
Theorem state_apply_cas delta s :
  (current_version s (sdl_target_ref delta) < u64_max)%N →
  ∃ result s', apply delta s = Some (result, s') ∧
    (result = Ok tt ↔ current_version s (sdl_target_ref delta) = sdl_expected_version delta) ∧
    match result with
    | Ok _ =>
        store_get s' (sdl_target_ref delta) = Some ((sdl_expected_version delta + 1)%N, sdl_patch delta) ∧
        ∀ ref_id, ref_id ≠ sdl_target_ref delta → store_get s' ref_id = store_get s ref_id
    | Err e => s' = s ∧ e_code e = ERR_STATE_CONFLICT
    end.
Proof.
  intros Hmax. unfold apply, bind, get, u64_add. destruct (decide (_ ≠ _)) as [Hne|Heq].
  - eexists _, _. split; [done|]. split; [by split|done].
  - apply dec_stable in Heq. rewrite decide_True by lia. eexists _, _. split; [done|]. split; [done|].
    unfold store_get. cbn. rewrite lookup_insert_eq, Heq. split; [done|]. intros. by apply lookup_insert_ne.
Qed.

(** versions are dense and writes are serialised.  Over any run of commits
    the version of a reference grows by exactly the number of deltas accepted
    for it, each of which was computed from the version before it: no update
    is lost, and the value is that of the last accepted delta. *)
Theorem state_history_serial s deltas s' ref_id :
  store_run s deltas s' →
  current_version s' ref_id = (current_version s ref_id + len (for_ref ref_id deltas))%N ∧
  (∀ i d, for_ref ref_id deltas !! i = Some d →
     sdl_expected_version d = (current_version s ref_id + N.of_nat i)%N) ∧
  match last (for_ref ref_id deltas) with
  | Some d => store_get s' ref_id = Some (current_version s' ref_id, sdl_patch d)
  | None => store_get s' ref_id = store_get s ref_id
  end.
Proof.
  induction 1 as [s|s s1 s2 delta deltas Ha _ (Hver & Hexp & Hlast)|s s1 s2 delta deltas e Ha _ IH].
  - split_and!; [unfold len; simpl; lia|done|done].
  - apply apply_ok in Ha as (Hcur & _ & Hs1). unfold for_ref in *. rewrite filter_cons.
    unfold current_version, store_get in *. rewrite Hs1 in *. case_decide as Hd.
    + subst ref_id. rewrite lookup_insert_eq in *. rewrite len_cons. rewrite Hcur. split_and!; [lia| |].
      * intros [|i] d Hi; [injection Hi as <-; lia|]. rewrite (Hexp i d Hi). lia.
      * rewrite last_cons. destruct (last (filter _ deltas)) eqn:Hl; [done|]. rewrite Hlast. done.
    + rewrite lookup_insert_ne in * by done. done.
  - apply apply_err in Ha as ->. done.
Qed.

(** expectations are checked exactly.  Validation succeeds exactly when
    every expected version is the current one; otherwise it reports the first
    expectation that is not, with both versions as evidence. *)
Theorem expectations_exact s expectations route :
  match validate_expectations s expectations route with
  | Ok _ => ∀ x, x ∈ expectations → current_version s (ve_ref_id x) = ve_expected_version x
  | Err e => ∃ before x after, expectations = before ++ x :: after ∧
      (∀ y, y ∈ before → current_version s (ve_ref_id y) = ve_expected_version y) ∧
      current_version s (ve_ref_id x) ≠ ve_expected_version x ∧
      e = conflict_error route x (current_version s (ve_ref_id x)) ∧ e_code e = ERR_STATE_CONFLICT
  end.
Proof.
  induction expectations as [|x l IH]; cbn [validate_expectations]; [set_solver|].
  case_decide as Hne.
  - exists [], x, l. split_and!; [done|set_solver|done|done|done].
  - destruct (validate_expectations s l route) as [[]|e].
    + intros y [->|Hy]%elem_of_cons; auto.
    + destruct IH as (before & y & after & -> & Hb & Hy & He). exists (x :: before), y, after.
      split_and!; try done; [|apply He|apply He]. intros z [->|Hz]%elem_of_cons; auto.
Qed.
End Store.
