(* ===== verification/ResourceManager.v ===== *)
(** * The resource manager

    [ResourceManager] (crates/mutsuki-runtime-core/src/resource_manager.rs and
    resource_manager/): resource descriptors with their exclusive writer
    (hub.rs, resources.rs), resource cells with shared and exclusive leases
    (leases.rs), stored values (values.rs), plans (plans.rs).  Surface occupancy
    is in [Occupancy]. *)

From S2P Require Import Prelude Contracts RunnerContracts PluginContracts Ids.

Section Manager.
Context `{SJ : SerdeJson}.

Inductive PackedValue : Type :=
  | PackedInline (v : ResourceValue)
  | PackedValueRef (v : ValueRef)
  | PackedResource (r : ResourceRef).

Record ResourceCellEntry : Type := MkResourceCellEntry {
  ce_descriptor : ResourceCellRef;
  ce_active_leases : gmap string ResourceLease
}.

Record ResourceEntry : Type := MkResourceEntry {
  re_descriptor : ResourceRef;
  re_writer : option LeaseToken
}.

Definition ResourceEntry_new (descriptor : ResourceRef) : ResourceEntry := MkResourceEntry descriptor None.
Definition ResourceCellEntry_new (descriptor : ResourceCellRef) : ResourceCellEntry :=
  MkResourceCellEntry descriptor ∅.

(** [ResourceHub]: its only field is the table of entries. *)
Abbreviation ResourceHub := (gmap string ResourceEntry) (only parsing).

Record ResourceManager : Type := MkResourceManager {
  rm_values : gmap string (ValueRef * Value);
  rm_hub : ResourceHub;
  rm_resource_cells : gmap string ResourceCellEntry;
  rm_occupancy_handles : gmap string SurfaceOccupancyHandle;
  rm_id_source : SequentialIdSource;
  rm_inline_value_max_bytes : N
}.

Definition ResourceManager_eta (r : ResourceManager) : ResourceManager :=
  {| rm_values := rm_values r; rm_hub := rm_hub r; rm_resource_cells := rm_resource_cells r;
     rm_occupancy_handles := rm_occupancy_handles r; rm_id_source := rm_id_source r;
     rm_inline_value_max_bytes := rm_inline_value_max_bytes r |}.
#[export] Instance set_rm_values : Setter rm_values := ltac:(derive_setter ResourceManager_eta rm_values).
#[export] Instance set_rm_hub : Setter rm_hub := ltac:(derive_setter ResourceManager_eta rm_hub).
#[export] Instance set_rm_resource_cells : Setter rm_resource_cells := ltac:(derive_setter ResourceManager_eta rm_resource_cells).
#[export] Instance set_rm_occupancy_handles : Setter rm_occupancy_handles := ltac:(derive_setter ResourceManager_eta rm_occupancy_handles).
#[export] Instance set_rm_id_source : Setter rm_id_source := ltac:(derive_setter ResourceManager_eta rm_id_source).

Definition ResourceManager_new : ResourceManager :=
  {| rm_values := ∅; rm_hub := ∅; rm_resource_cells := ∅; rm_occupancy_handles := ∅;
     rm_id_source := MkSequentialIdSource 0; rm_inline_value_max_bytes := 4096 |}.

Definition resource_not_found {A} (route : string) : RuntimeResult A :=
  runtime_failure ERR_RESOURCE_NOT_FOUND "runtime.resource_manager" route.
Definition resource_generation_mismatch {A} (route : string) : RuntimeResult A :=
  runtime_failure ERR_RESOURCE_GENERATION_MISMATCH "runtime.resource_manager" route.
Definition capability_exhausted {A} (route : string) : RuntimeResult A :=
  runtime_failure ERR_CAPABILITY_EXHAUSTED "runtime.resource_manager" route.

(** [self.id_source.next_id(prefix)] *)
Definition rm_next_id (prefix : string) : M ResourceManager string :=
  let! self := get in
  match next_id prefix (rm_id_source self) with
  | Some (id, source) => put (self <| rm_id_source := source |>) ;;! ret id
  | None => panic
  end.

(** ** The hub (hub.rs) *)

Definition hub_insert (entry : ResourceEntry) (hub : ResourceHub) : ResourceHub :=
  <[ rr_ref_id (re_descriptor entry) := entry ]> hub.

Definition semantic_store_name (semantic : ResourceSemantic) : string :=
  match semantic with
  | FrozenValue => "frozen"
  | VersionedSnapshot => "snapshots"
  | ReadOnlyFact => "facts"
  | CowVersionedState => "cow"
  | CapabilityResource => "capabilities"
  | StreamResource => "streams"
  | TransactionResource => "transactions"
  end.

Definition resource_store_name (self : ResourceManager) (ref_id : string) : option string :=
  (λ entry, semantic_store_name (rr_semantic (re_descriptor entry))) <$> rm_hub self !! ref_id.

(** ** Descriptors (resources.rs) *)

Definition open_resource (self : ResourceManager) (ref_id : string) : RuntimeResult ResourceRef :=
  match rm_hub self !! ref_id with
  | Some entry => Ok (re_descriptor entry)
  | None => resource_not_found ("resource.open." +:+ ref_id)
  end.

Definition list_descriptors (self : ResourceManager) : list ResourceRef :=
  sort_by_str rr_ref_id ((λ e, re_descriptor e.2) <$> map_to_list (rm_hub self)).

Definition identity_mismatch (descriptor : ResourceRef) : bool :=
  bool_decide (ri_generation (rr_resource_id descriptor) ≠ rr_generation descriptor) ||
  bool_decide (ri_version (rr_resource_id descriptor) ≠ rr_version descriptor).

Definition register_resource_descriptor (descriptor : ResourceRef) : M ResourceManager (RuntimeResult ResourceRef) :=
  let! self := get in
  if identity_mismatch descriptor then
    ret (resource_generation_mismatch ("resource.register." +:+ rr_ref_id descriptor))
  else
    match rm_hub self !! rr_ref_id descriptor with
    | Some _ => ret (capability_exhausted ("resource.register." +:+ rr_ref_id descriptor))
    | None =>
        put (self <| rm_hub := hub_insert (ResourceEntry_new descriptor) (rm_hub self) |>) ;;!
        ret (Ok descriptor)
    end.

Definition sync_resource_descriptor (descriptor : ResourceRef) : M ResourceManager (RuntimeResult ResourceRef) :=
  let! self := get in
  let mismatch := ret (resource_generation_mismatch ("resource.sync." +:+ rr_ref_id descriptor)) in
  if identity_mismatch descriptor then mismatch
  else
    match rm_hub self !! rr_ref_id descriptor with
    | Some existing =>
        if bool_decide (rr_generation descriptor < rr_generation (re_descriptor existing))%N ||
           (bool_decide (rr_generation descriptor = rr_generation (re_descriptor existing)) &&
            bool_decide (rr_version descriptor < rr_version (re_descriptor existing))%N)
        then mismatch
        else if is_some_and (re_writer existing)
                  (λ writer, bool_decide (tok_generation writer ≠ rr_generation descriptor))
        then mismatch
        else
          let writer := re_writer existing in
          let hub := delete (rr_ref_id descriptor) (rm_hub self) in
          put (self <| rm_hub := hub_insert (MkResourceEntry descriptor writer) hub |>) ;;!
          ret (Ok descriptor)
    | None =>
        put (self <| rm_hub := hub_insert (ResourceEntry_new descriptor) (rm_hub self) |>) ;;!
        ret (Ok descriptor)
    end.

(** A [BTreeMap<String, ResourceRef>] with the entry API of [merge_descriptor]. *)
Definition merge_descriptor (descriptors : gmap string ResourceRef) (descriptor : ResourceRef) :
    gmap string ResourceRef :=
  match descriptors !! rr_ref_id descriptor with
  | Some current =>
      if bool_decide (rr_generation current < rr_generation descriptor)%N ||
         (bool_decide (rr_generation descriptor = rr_generation current) &&
          bool_decide (rr_version current ≤ rr_version descriptor)%N)
      then <[ rr_ref_id descriptor := descriptor ]> descriptors
      else descriptors
  | None => <[ rr_ref_id descriptor := descriptor ]> descriptors
  end.

(** The descriptors of a receipt in the order they are merged. *)
Definition receipt_updates (receipt : PlanReceipt) : list ResourceRef :=
  match pr_resource_ref receipt with Some resource => [resource] | None => [] end
  ++ match pr_snapshot receipt with Some snapshot => [sd_snapshot_ref snapshot] | None => [] end
  ++ pr_descriptor_updates receipt.

(** [into_values] of a [BTreeMap]: the values in the order of their keys. *)
Definition receipt_descriptors (receipt : PlanReceipt) : list ResourceRef :=
  snd <$> sort_by_str fst (map_to_list (foldl merge_descriptor ∅ (receipt_updates receipt))).

(** [into_iter().map(sync).collect::<Result<Vec<_>, _>>()]: the first error
    stops the iteration; what was synchronised before it stays. *)
Fixpoint sync_descriptors (descriptors : list ResourceRef) : M ResourceManager (RuntimeResult (list ResourceRef)) :=
  match descriptors with
  | [] => ret (Ok [])
  | descriptor :: descriptors =>
      let? synced := sync_resource_descriptor descriptor in
      let? rest := sync_descriptors descriptors in
      ret (Ok (synced :: rest))
  end.

Definition sync_plan_receipt (receipt : PlanReceipt) : M ResourceManager (RuntimeResult (list ResourceRef)) :=
  sync_descriptors (receipt_descriptors receipt).

Definition stream_descriptor (ref_id stream_id schema provider_id endpoint : string) : ResourceRef :=
  {| rr_ref_id := ref_id;
     rr_resource_id := {| ri_kind_id := stream_id; ri_slot_id := ref_id; ri_generation := 1; ri_version := 1 |};
     rr_semantic := StreamResource; rr_provider_id := provider_id; rr_resource_kind := stream_id;
     rr_schema := schema; rr_version := 1; rr_generation := 1; rr_access := AccessStream endpoint;
     rr_size_hint := None; rr_content_hash := None; rr_lifetime := ExternalManaged; rr_lease := None;
     rr_seal_state := Sealed |}.

Definition create_stream_resource (stream_id schema provider_id endpoint : string) : M ResourceManager ResourceRef :=
  let! ref_id := rm_next_id "resource" in
  let descriptor := stream_descriptor ref_id stream_id schema provider_id endpoint in
  modify (λ self, self <| rm_hub := hub_insert (ResourceEntry_new descriptor) (rm_hub self) |>) ;;!
  ret descriptor.

Definition is_stream (access : ResourceAccess) : bool :=
  match access with AccessStream _ => true | _ => false end.

Definition close_stream_resource (ref_id : string) : M ResourceManager (RuntimeResult ResourceRef) :=
  let! self := get in
  let missing := ret (resource_not_found ("resource.stream.close." +:+ ref_id)) in
  match rm_hub self !! ref_id with
  | Some entry =>
      if is_stream (rr_access (re_descriptor entry)) then
        let! removed := expect (rm_hub self !! ref_id) in
        put (self <| rm_hub := delete ref_id (rm_hub self) |>) ;;!
        ret (Ok (re_descriptor removed))
      else missing
  | None => missing
  end.

(** ** Cells and leases (leases.rs) *)

Definition create_resource_cell (cell_id resource_kind owner_plugin_id schema reload_policy : string) :
    M ResourceManager ResourceCellRef :=
  let descriptor :=
    {| cr_cell_id := cell_id; cr_resource_kind := resource_kind; cr_owner_plugin_id := owner_plugin_id;
       cr_schema := schema; cr_generation := 1; cr_health := "healthy"; cr_reload_policy := reload_policy |} in
  modify (λ self, self <| rm_resource_cells ::= <[ cell_id := ResourceCellEntry_new descriptor ]> |>) ;;!
  ret descriptor.

Definition any_exclusive (leases : gmap string ResourceLease) : bool :=
  existsb (λ e, bool_decide (rl_mode e.2 = "exclusive")) (map_to_list leases).

Definition acquire_resource_lease (cell_id borrower_task_id borrower_executor_id mode : string)
    (expires_at_step : option N) : M ResourceManager (RuntimeResult ResourceLease) :=
  let! self := get in
  let route := "resource_cell.lease." +:+ cell_id in
  match rm_resource_cells self !! cell_id with
  | None => ret (resource_not_found route)
  | Some cell =>
      if bool_decide (mode = "exclusive") && negb (bool_decide (ce_active_leases cell = ∅)) then
        ret (capability_exhausted route)
      else if bool_decide (mode ≠ "shared") && bool_decide (mode ≠ "exclusive") then
        ret (runtime_failure "resource.lease_mode_invalid" "runtime.resource_manager"
               (route +:+ "." +:+ mode))
      else if bool_decide (mode = "shared") && any_exclusive (ce_active_leases cell) then
        ret (capability_exhausted route)
      else
        let! lease_id := rm_next_id "resource-lease" in
        let lease :=
          {| rl_lease_id := lease_id; rl_cell_id := cell_id; rl_borrower_task_id := borrower_task_id;
             rl_borrower_executor_id := borrower_executor_id; rl_mode := mode;
             rl_expires_at_step := expires_at_step; rl_generation := cr_generation (ce_descriptor cell) |} in
        modify (λ self, self <| rm_resource_cells ::=
          <[ cell_id := MkResourceCellEntry (ce_descriptor cell) (<[ lease_id := lease ]> (ce_active_leases cell)) ]> |>) ;;!
        ret (Ok lease)
  end.

Definition resource_lease_expired (lease : ResourceLease) (current_step : N) : bool :=
  is_some_and (rl_expires_at_step lease) (λ expires_at, bool_decide (expires_at ≤ current_step)%N).

Definition validate_resource_lease (cell : ResourceCellEntry) (lease : ResourceLease) (current_step : option N)
    (action : string) : RuntimeResult unit :=
  let route := "resource_cell." +:+ action +:+ "." +:+ rl_lease_id lease in
  match ce_active_leases cell !! rl_lease_id lease with
  | None => resource_not_found route
  | Some active =>
      if bool_decide (active ≠ lease) || bool_decide (rl_generation lease ≠ cr_generation (ce_descriptor cell)) then
        resource_generation_mismatch route
      else if is_some_and current_step (resource_lease_expired lease) then
        runtime_failure ERR_RESOURCE_LEASE_EXPIRED "runtime.resource_manager" route
      else Ok tt
  end.

Definition release_resource_lease_checked (lease : ResourceLease) (current_step : option N) :
    M ResourceManager (RuntimeResult unit) :=
  let! self := get in
  match rm_resource_cells self !! rl_cell_id lease with
  | None => ret (resource_not_found ("resource_cell.release." +:+ rl_cell_id lease))
  | Some cell =>
      let? _ := ret (validate_resource_lease cell lease current_step "release") in
      match ce_active_leases cell !! rl_lease_id lease with
      | None => ret (resource_not_found ("resource_cell.release." +:+ rl_lease_id lease))
      | Some _ =>
          put (self <| rm_resource_cells := <[ rl_cell_id lease :=
            MkResourceCellEntry (ce_descriptor cell) (delete (rl_lease_id lease) (ce_active_leases cell)) ]>
            (rm_resource_cells self) |>) ;;!
          ret (Ok tt)
      end
  end.

Definition release_resource_lease (lease : ResourceLease) : M ResourceManager (RuntimeResult unit) :=
  release_resource_lease_checked lease None.
Definition release_resource_lease_at (lease : ResourceLease) (current_step : N) : M ResourceManager (RuntimeResult unit) :=
  release_resource_lease_checked lease (Some current_step).

(** [retain] visits the leases of every cell in some order, collecting the
    expired ones; they are sorted by lease id afterwards. *)
Definition expired_leases (current_step : N) (cells : gmap string ResourceCellEntry) : list ResourceLease :=
  flat_map (λ c, filter (λ l, resource_lease_expired l current_step = true)
                   (snd <$> map_to_list (ce_active_leases c.2))) (map_to_list cells).

Definition retain_live (current_step : N) (cell : ResourceCellEntry) : ResourceCellEntry :=
  MkResourceCellEntry (ce_descriptor cell)
    (filter (λ e, resource_lease_expired e.2 current_step = false) (ce_active_leases cell)).

Definition reclaim_expired_resource_leases (current_step : N) : M ResourceManager (list ResourceLease) :=
  let! self := get in
  let reclaimed := expired_leases current_step (rm_resource_cells self) in
  put (self <| rm_resource_cells := retain_live current_step <$> rm_resource_cells self |>) ;;!
  ret (sort_by_str rl_lease_id reclaimed).

Definition cell_routes (task_id : string) (cell : ResourceCellEntry) : list string :=
  (λ l, "resource_cell.lease." +:+ rl_lease_id l) <$>
    filter (λ l, rl_borrower_task_id l = task_id ∧ rl_mode l = "exclusive") (snd <$> map_to_list (ce_active_leases cell)).

Definition writer_routes (task_id : string) (entry : ResourceEntry) : list string :=
  match re_writer entry with
  | Some writer =>
      if decide (tok_owner writer = task_id) then ["resource.write_lease." +:+ tok_token_id writer] else []
  | None => []
  end.

Definition active_mutable_lease_routes_for_task (self : ResourceManager) (task_id : string) : list string :=
  sort_strings
    (flat_map (λ c, cell_routes task_id c.2) (map_to_list (rm_resource_cells self))
     ++ flat_map (λ e, writer_routes task_id e.2) (map_to_list (rm_hub self))).

Definition acquire_write_lease (ref_id owner : string) (expires_at_step : option N) :
    M ResourceManager (RuntimeResult ExclusiveWriteLease) :=
  let! self := get in
  let route := "resource.lease." +:+ ref_id in
  match rm_hub self !! ref_id with
  | None => ret (resource_not_found route)
  | Some entry =>
      match re_writer entry with
      | Some _ => ret (capability_exhausted route)
      | None =>
          let! token_id := rm_next_id "lease" in
          let token :=
            {| tok_token_id := token_id; tok_ref_id := ref_id; tok_owner := owner; tok_mode := "exclusive_write";
               tok_expires_at_step := expires_at_step; tok_generation := rr_generation (re_descriptor entry) |} in
          modify (λ self, self <| rm_hub ::= <[ ref_id := MkResourceEntry (re_descriptor entry) (Some token) ]> |>) ;;!
          ret (Ok (MkExclusiveWriteLease token))
      end
  end.

Definition release_write_lease_checked (lease : ExclusiveWriteLease) (current_step : option N) :
    M ResourceManager (RuntimeResult unit) :=
  let! self := get in
  let token := xl_token lease in
  let route := "resource.write_lease.release." +:+ tok_ref_id token in
  match rm_hub self !! tok_ref_id token with
  | None => ret (resource_not_found route)
  | Some entry =>
      if is_some_and (tok_expires_at_step token)
           (λ expires, is_some_and current_step (λ step, bool_decide (expires ≤ step)%N)) then
        ret (runtime_failure ERR_RESOURCE_LEASE_EXPIRED "runtime.resource_manager" route)
      else if bool_decide (re_writer entry ≠ Some token) then
        ret (resource_generation_mismatch route)
      else
        put (self <| rm_hub := <[ tok_ref_id token := MkResourceEntry (re_descriptor entry) None ]> (rm_hub self) |>) ;;!
        ret (Ok tt)
  end.

Definition release_write_lease (lease : ExclusiveWriteLease) : M ResourceManager (RuntimeResult unit) :=
  release_write_lease_checked lease None.
Definition release_write_lease_at (lease : ExclusiveWriteLease) (current_step : N) : M ResourceManager (RuntimeResult unit) :=
  release_write_lease_checked lease (Some current_step).

(** ** Values (values.rs) *)

(** The length of [serde_json::to_vec(&value)], or the text of its error. *)
Definition to_vec_len (value : Value) : Result string N :=
  match json_chunks value with
  | Ok chunks => Ok (foldr N.add 0%N chunks)
  | Err text => Err text
  end.

Definition stored_value_ref (ref_id schema : string) (size : N) : ValueRef :=
  {| vr_ref_id := ref_id; vr_provider_id := "runtime.resource_manager"; vr_schema := schema; vr_version := 1;
     vr_generation := 1; vr_size_hint := Some size; vr_content_hash := None; vr_lifetime := Persistent;
     vr_storage := LocalValueStore |}.

Definition pack_value (schema : string) (value : Value) : M ResourceManager (RuntimeResult PackedValue) :=
  let! self := get in
  match to_vec_len value with
  | Err text => ret (runtime_failure "resource.encode_failed" "runtime.resource_manager" text)
  | Ok size =>
      if decide (size ≤ rm_inline_value_max_bytes self)%N then
        ret (Ok (PackedInline (ResourceInline schema value 1)))
      else
        let! ref_id := rm_next_id "value" in
        let value_ref := stored_value_ref ref_id schema size in
        modify (λ self, self <| rm_values ::= <[ ref_id := (value_ref, value) ]> |>) ;;!
        ret (Ok (PackedValueRef value_ref))
  end.

Definition get_value (self : ResourceManager) (value_ref : ValueRef) : RuntimeResult Value :=
  match rm_values self !! vr_ref_id value_ref with
  | None => resource_not_found ("value." +:+ vr_ref_id value_ref)
  | Some (stored, value) =>
      if decide (vr_generation stored ≠ vr_generation value_ref)
      then resource_generation_mismatch ("value." +:+ vr_ref_id value_ref)
      else Ok value
  end.

(** ** Plans (plans.rs) *)

Definition build_read_plan (self : ResourceManager) (ref_id operation : string) : RuntimeResult ReadPlan :=
  letr? resource := open_resource self ref_id in
  Ok {| rp_plan_id := "read-plan:" +:+ ref_id +:+ ":" +:+ operation; rp_resource := resource;
        rp_operation := operation; rp_args := json_null |}.

Definition open_stream_plan (plan : ReadPlan) : RuntimeResult StreamPlan :=
  if decide (rr_semantic (rp_resource plan) ≠ StreamResource) then
    runtime_failure "resource.semantic_mismatch" "runtime.resource_manager"
      ("resource.stream_plan." +:+ rr_ref_id (rp_resource plan))
  else
    Ok {| sp_plan_id := "stream-plan:" +:+ rr_ref_id (rp_resource plan); sp_resource := rp_resource plan;
          sp_operation := "open_stream"; sp_args := json_null |}.

Definition build_export_plan (self : ResourceManager) (ref_id target : string) : RuntimeResult ExportPlan :=
  letr? resource := open_resource self ref_id in
  Ok {| xp_plan_id := "export-plan:" +:+ ref_id +:+ ":" +:+ target; xp_resource := resource;
        xp_target := target; xp_args := json_null |}.

Definition build_command_plan (self : ResourceManager) (ref_id operation : string) (args : Value)
    (idempotency_key : option string) : RuntimeResult CommandPlan :=
  letr? capability := open_resource self ref_id in
  Ok {| cp_plan_id := "command-plan:" +:+ ref_id +:+ ":" +:+ operation; cp_capability := capability;
        cp_operation := operation; cp_args := args; cp_idempotency_key := idempotency_key |}.

Definition build_write_plan (self : ResourceManager) (ref_id conflict_policy : string) (operations : Value) :
    RuntimeResult WritePlan :=
  letr? resource := open_resource self ref_id in
  let patch :=
    {| pd_patch_id := "patch:" +:+ ref_id +:+ ":" +:+ pretty (rr_version resource); pd_target_ref := resource;
       pd_base_version := rr_version resource; pd_conflict_policy := conflict_policy; pd_operations := operations |} in
  Ok {| wp_plan_id := "write-plan:" +:+ ref_id +:+ ":" +:+ pretty (pd_base_version patch); wp_resource := resource;
        wp_base_version := pd_base_version patch; wp_conflict_policy := pd_conflict_policy patch;
        wp_patch := patch; wp_returning := None |}.
End Manager.
