(* ===== verification/ResourceOccupancy.v ===== *)
(** * Occupancy of contract surfaces by resources

    What the resource manager reports about the use of the surfaces of a plugin
    (crates/mutsuki-runtime-core/src/resource_manager/occupancy.rs): resource
    references, active leases, open streams, subscriptions and timers.  The
    counters are bounded by the sizes of the tables they count, so they are
    plain numbers. *)

From S2P Require Import Prelude Contracts RunnerContracts PluginContracts Ids ResourceManager.

Section ResourceOccupancy.
Context `{SJ : SerdeJson}.

Record HandleCounts : Type := MkHandleCounts {
  hc_streams : N;
  hc_subscriptions : N;
  hc_timers : N
}.
Definition HandleCounts_default : HandleCounts := MkHandleCounts 0 0 0.

Definition register_surface_occupancy (handle : SurfaceOccupancyHandle) : M ResourceManager (RuntimeResult unit) :=
  let! self := get in
  match rm_occupancy_handles self !! oh_handle_id handle with
  | Some _ => ret (capability_exhausted ("surface.occupancy." +:+ oh_handle_id handle))
  | None =>
      put (self <| rm_occupancy_handles := <[ oh_handle_id handle := handle ]> (rm_occupancy_handles self) |>) ;;!
      ret (Ok tt)
  end.

Definition release_surface_occupancy (handle_id : string) : M ResourceManager (RuntimeResult SurfaceOccupancyHandle) :=
  let! self := get in
  match rm_occupancy_handles self !! handle_id with
  | Some handle =>
      put (self <| rm_occupancy_handles := delete handle_id (rm_occupancy_handles self) |>) ;;! ret (Ok handle)
  | None => ret (resource_not_found ("surface.occupancy." +:+ handle_id))
  end.

Abbreviation ResourceCounts := (gmap string (N * N)) (only parsing).

Definition increment_resource_count (counts : ResourceCounts) (surface_id : string) (entry : ResourceEntry) : ResourceCounts :=
  let '(refs, leases) := unwrap_or (counts !! surface_id) (0%N, 0%N) in
  <[ surface_id := ((refs + 1)%N, match re_writer entry with Some _ => (leases + 1)%N | None => leases end) ]> counts.

Definition increment_active_lease_count (counts : ResourceCounts) (surface_id : string) (active_leases : N) : ResourceCounts :=
  let '(refs, leases) := unwrap_or (counts !! surface_id) (0%N, 0%N) in
  <[ surface_id := (refs, (leases + active_leases)%N) ]> counts.

Definition increment_count (counts : gmap string N) (key : string) : gmap string N :=
  <[ key := (unwrap_or (counts !! key) 0 + 1)%N ]> counts.

Definition count_resource_surface (counts : ResourceCounts) (value : string) (kind : ContractSurfaceKind)
    (entry : ResourceEntry) : ResourceCounts :=
  let with_prefix prefix :=
    increment_resource_count (increment_resource_count counts value entry) (prefix +:+ ":" +:+ value) entry in
  match kind with
  | SurfaceResourceSchema => with_prefix "resource_schema"
  | SurfaceResourceProvider => with_prefix "resource_provider"
  | _ => counts
  end.

Definition count_entry (counts : ResourceCounts) (entry : ResourceEntry) : ResourceCounts :=
  count_resource_surface
    (count_resource_surface counts (rr_schema (re_descriptor entry)) SurfaceResourceSchema entry)
    (rr_provider_id (re_descriptor entry)) SurfaceResourceProvider entry.

Definition count_cell (counts : ResourceCounts) (cell : ResourceCellEntry) : ResourceCounts :=
  let active_leases := N.of_nat (size (ce_active_leases cell)) in
  if decide (0 < active_leases)%N then
    increment_active_lease_count
      (increment_active_lease_count counts (cr_schema (ce_descriptor cell)) active_leases)
      ("resource_schema:" +:+ cr_schema (ce_descriptor cell)) active_leases
  else counts.

Definition hub_entries (self : ResourceManager) : list ResourceEntry := snd <$> map_to_list (rm_hub self).
Definition cell_entries (self : ResourceManager) : list ResourceCellEntry := snd <$> map_to_list (rm_resource_cells self).

Definition resource_surface_counts (self : ResourceManager) : ResourceCounts :=
  foldl count_cell (foldl count_entry ∅ (hub_entries self)) (cell_entries self).

Definition count_stream (counts : gmap string N) (entry : ResourceEntry) : gmap string N :=
  increment_count (increment_count counts (rr_resource_kind (re_descriptor entry)))
    ("stream:" +:+ rr_resource_kind (re_descriptor entry)).

Definition stream_surface_counts (self : ResourceManager) : gmap string N :=
  foldl count_stream ∅ (filter (λ e, is_stream (rr_access (re_descriptor e)) = true) (hub_entries self)).

Definition count_handle (counts : gmap string HandleCounts) (handle : SurfaceOccupancyHandle) : gmap string HandleCounts :=
  let item := unwrap_or (counts !! oh_surface_id handle) HandleCounts_default in
  let item' :=
    match oh_kind handle with
    | HandleStream => MkHandleCounts (hc_streams item + 1) (hc_subscriptions item) (hc_timers item)
    | HandleSubscription => MkHandleCounts (hc_streams item) (hc_subscriptions item + 1) (hc_timers item)
    | HandleTimer => MkHandleCounts (hc_streams item) (hc_subscriptions item) (hc_timers item + 1)
    end in
  <[ oh_surface_id handle := item' ]> counts.

Definition handle_surface_counts (self : ResourceManager) : gmap string HandleCounts :=
  foldl count_handle ∅ (snd <$> map_to_list (rm_occupancy_handles self)).

(** The item [surface_occupancy] computes for one surface. *)
Definition occupancy_item (self : ResourceManager) (surface : ContractSurface) : SurfaceOccupancy :=
  let id := cs_surface_id surface in
  let item := zero_occupancy id in
  match cs_kind surface with
  | SurfaceResourceSchema | SurfaceResourceProvider =>
      match resource_surface_counts self !! id with
      | Some (resource_refs, active_leases) =>
          item <| so_resource_refs := resource_refs |> <| so_active_leases := active_leases |>
      | None => item
      end
  | SurfaceSchema =>
      item <| so_resource_refs := len (filter
        (λ v : string * (ValueRef * Value), id = "schema:" +:+ vr_schema v.2.1 ∨ id = vr_schema v.2.1)
        (map_to_list (rm_values self))) |>
  | SurfaceStream =>
      let handles := handle_surface_counts self !! id in
      item <| so_open_streams := (unwrap_or (stream_surface_counts self !! id) 0 +
        match handles with Some counts => hc_streams counts | None => 0 end)%N |>
  | SurfaceSubscription =>
      item <| so_subscriptions :=
        match handle_surface_counts self !! id with Some counts => hc_subscriptions counts | None => 0%N end |>
  | SurfaceTimer =>
      item <| so_timers :=
        match handle_surface_counts self !! id with Some counts => hc_timers counts | None => 0%N end |>
  | _ => item
  end.

Definition surface_occupancy (self : ResourceManager) (surfaces : list ContractSurface) : list SurfaceOccupancy :=
  filter (λ item, so_is_zero item = false) (occupancy_item self <$> surfaces).

(** ** The counters count *)

(** How often [key] is among the names [names x] of the elements of a list. *)
Definition occurrences {A} (names : A → list string) (weight : A → N) (key : string) (l : list A) : N :=
  foldr (λ x acc, (weight x * len (filter (λ n, n = key) (names x)) + acc)%N) 0%N l.

Lemma occurrences_cons {A} names weight key (x : A) l :
  occurrences names weight key (x :: l) =
    (weight x * len (filter (λ n, n = key) (names x)) + occurrences names weight key l)%N.
Proof. done. Qed.

Definition refs_at (counts : ResourceCounts) (key : string) : N := (unwrap_or (counts !! key) (0, 0)%N).1.
Definition leases_at (counts : ResourceCounts) (key : string) : N := (unwrap_or (counts !! key) (0, 0)%N).2.

(** The surface ids an entry, a cell and a stream are counted under. *)
Definition entry_names (e : ResourceEntry) : list string :=
  let schema := rr_schema (re_descriptor e) in
  let provider := rr_provider_id (re_descriptor e) in
  [schema; "resource_schema" +:+ ":" +:+ schema; provider; "resource_provider" +:+ ":" +:+ provider].

Definition cell_names (c : ResourceCellEntry) : list string :=
  [cr_schema (ce_descriptor c); "resource_schema:" +:+ cr_schema (ce_descriptor c)].

Definition stream_names (e : ResourceEntry) : list string :=
  [rr_resource_kind (re_descriptor e); "stream:" +:+ rr_resource_kind (re_descriptor e)].

Definition writer_weight (e : ResourceEntry) : N := match re_writer e with Some _ => 1 | None => 0 end.
Definition cell_weight (c : ResourceCellEntry) : N := N.of_nat (size (ce_active_leases c)).

Lemma increment_resource_count_at counts id e key :
  refs_at (increment_resource_count counts id e) key =
    (refs_at counts key + if decide (id = key) then 1 else 0)%N ∧
  leases_at (increment_resource_count counts id e) key =
    (leases_at counts key + if decide (id = key) then writer_weight e else 0)%N.
Proof.
  unfold increment_resource_count, refs_at, leases_at, writer_weight.
  destruct (unwrap_or (counts !! id) (0, 0)%N) as [refs leases] eqn:Hu.
  destruct (decide (id = key)) as [<-|Hne].
  - rewrite lookup_insert_eq, Hu. cbn. destruct (re_writer e); split; lia.
  - rewrite lookup_insert_ne by done. split; lia.
Qed.

Lemma increment_active_lease_count_at counts id n key :
  refs_at (increment_active_lease_count counts id n) key = refs_at counts key ∧
  leases_at (increment_active_lease_count counts id n) key =
    (leases_at counts key + if decide (id = key) then n else 0)%N.
Proof.
  unfold increment_active_lease_count, refs_at, leases_at.
  destruct (unwrap_or (counts !! id) (0, 0)%N) as [refs leases] eqn:Hu.
  destruct (decide (id = key)) as [<-|Hne].
  - rewrite lookup_insert_eq, Hu. done.
  - rewrite lookup_insert_ne by done. split; lia.
Qed.

Lemma increment_count_at counts id key :
  unwrap_or (increment_count counts id !! key) 0%N =
    (unwrap_or (counts !! key) 0 + if decide (id = key) then 1 else 0)%N.
Proof.
  unfold increment_count. destruct (decide (id = key)) as [<-|Hne].
  - by rewrite lookup_insert_eq.
  - rewrite lookup_insert_ne by done. lia.
Qed.

Lemma count_entry_at counts e key :
  refs_at (count_entry counts e) key = (refs_at counts key + len (filter (λ n, n = key) (entry_names e)))%N ∧
  leases_at (count_entry counts e) key =
    (leases_at counts key + writer_weight e * len (filter (λ n, n = key) (entry_names e)))%N.
Proof.
  unfold count_entry, count_resource_surface, entry_names. rewrite !filter_cons, filter_nil.
  split; rewrite ?(proj1 (increment_resource_count_at _ _ _ _)), ?(proj2 (increment_resource_count_at _ _ _ _));
    repeat case_decide; unfold len; cbn [length]; lia.
Qed.

Lemma count_cell_at counts c key :
  refs_at (count_cell counts c) key = refs_at counts key ∧
  leases_at (count_cell counts c) key =
    (leases_at counts key + cell_weight c * len (filter (λ n, n = key) (cell_names c)))%N.
Proof.
  unfold count_cell, cell_names, cell_weight. rewrite !filter_cons, filter_nil.
  destruct (decide (0 < _)%N).
  - split; rewrite ?(proj1 (increment_active_lease_count_at _ _ _ _)), ?(proj2 (increment_active_lease_count_at _ _ _ _));
      [done|]. repeat case_decide; unfold len; cbn [length]; lia.
  - split; [done|]. lia.
Qed.

Lemma resource_surface_counts_at self key :
  refs_at (resource_surface_counts self) key = occurrences entry_names (λ _, 1%N) key (hub_entries self) ∧
  leases_at (resource_surface_counts self) key =
    (occurrences entry_names writer_weight key (hub_entries self) +
     occurrences cell_names cell_weight key (cell_entries self))%N.
Proof.
  unfold resource_surface_counts.
  assert (∀ l counts, refs_at (foldl count_entry counts l) key =
      (refs_at counts key + occurrences entry_names (λ _, 1%N) key l)%N ∧
    leases_at (foldl count_entry counts l) key =
      (leases_at counts key + occurrences entry_names writer_weight key l)%N) as He.
  { induction l as [|e l IH]; intros counts; cbn [foldl]; [unfold occurrences; cbn; lia|]; rewrite ?occurrences_cons.
    destruct (IH (count_entry counts e)) as [-> ->]. destruct (count_entry_at counts e key) as [-> ->].
    lia. }
  assert (∀ l counts, refs_at (foldl count_cell counts l) key = refs_at counts key ∧
    leases_at (foldl count_cell counts l) key =
      (leases_at counts key + occurrences cell_names cell_weight key l)%N) as Hc.
  { induction l as [|c l IH]; intros counts; cbn [foldl]; [unfold occurrences; cbn; lia|]; rewrite ?occurrences_cons.
    destruct (IH (count_cell counts c)) as [-> ->]. destruct (count_cell_at counts c key) as [-> ->].
    lia. }
  destruct (Hc (cell_entries self) (foldl count_entry ∅ (hub_entries self))) as [-> ->].
  destruct (He (hub_entries self) ∅) as [-> ->]. unfold refs_at, leases_at. rewrite lookup_empty. cbn. lia.
Qed.

Lemma count_stream_at counts e key :
  unwrap_or (count_stream counts e !! key) 0%N =
    (unwrap_or (counts !! key) 0 + len (filter (λ n, n = key) (stream_names e)))%N.
Proof.
  unfold count_stream, stream_names. rewrite !increment_count_at, !filter_cons, filter_nil.
  repeat case_decide; unfold len; cbn [length]; lia.
Qed.

Lemma stream_surface_counts_at self key :
  unwrap_or (stream_surface_counts self !! key) 0%N =
  occurrences stream_names (λ _, 1%N) key
    (filter (λ e, is_stream (rr_access (re_descriptor e)) = true) (hub_entries self)).
Proof.
  unfold stream_surface_counts.
  assert (∀ l counts, unwrap_or (foldl count_stream counts l !! key) 0%N =
    (unwrap_or (counts !! key) 0 + occurrences stream_names (λ _, 1%N) key l)%N) as H.
  { induction l as [|e l IH]; intros counts; cbn [foldl]; [unfold occurrences; cbn; lia|]; rewrite ?occurrences_cons. rewrite IH.
    rewrite count_stream_at. lia. }
  rewrite H, lookup_empty. done.
Qed.

Lemma handle_surface_counts_at self key :
  let kind_count kind := len (filter (λ h, oh_surface_id h = key ∧ oh_kind h = kind)
    (snd <$> map_to_list (rm_occupancy_handles self))) in
  let item := unwrap_or (handle_surface_counts self !! key) HandleCounts_default in
  hc_streams item = kind_count HandleStream ∧ hc_subscriptions item = kind_count HandleSubscription ∧
  hc_timers item = kind_count HandleTimer.
Proof.
  cbv zeta. unfold handle_surface_counts. set (l := snd <$> map_to_list (rm_occupancy_handles self)). clearbody l.
  induction l as [|h l IH] using rev_ind; [done|].
  rewrite foldl_snoc, !filter_app, !len_app. revert IH.
  generalize dependent (foldl count_handle ∅ l). intros counts (H1 & H2 & H3).
  unfold count_handle. set (item := unwrap_or (counts !! oh_surface_id h) HandleCounts_default).
  rewrite !filter_cons, !filter_nil. destruct (decide (oh_surface_id h = key)) as [<-|Hne].
  - rewrite lookup_insert_eq. cbn [unwrap_or]. fold item in H1, H2, H3. rewrite <-H1, <-H2, <-H3.
    destruct (oh_kind h) eqn:Hk; cbn [hc_streams hc_subscriptions hc_timers]; repeat case_decide;
      try (exfalso; naive_solver); unfold len; cbn [length]; split_and!; lia.
  - rewrite lookup_insert_ne by done. rewrite H1, H2, H3.
    repeat case_decide; try (exfalso; naive_solver); unfold len; cbn [length]; split_and!; lia.
Qed.
End ResourceOccupancy.
