(* ===== verification/ResourceTheorems.v ===== *)
(** * What the resource manager guarantees

    An invariant of every reachable manager (who holds which lease, of which
    generation) and the behaviour of each operation on every branch. *)

From S2P Require Import Prelude Contracts RunnerContracts PluginContracts Ids ResourceManager ResourceOccupancy.

Section ResourceInvariant.
Context `{SJ : SerdeJson}.
Implicit Types s : ResourceManager.

(** ** The invariant *)

Record entry_ok (source : SequentialIdSource) (key : string) (e : ResourceEntry) : Prop := {
  eo_key : rr_ref_id (re_descriptor e) = key;
  eo_identity : identity_mismatch (re_descriptor e) = false;
  eo_writer : ∀ t, re_writer e = Some t →
    tok_ref_id t = key ∧ tok_generation t = rr_generation (re_descriptor e) ∧ issued source (tok_token_id t)
}.

(** A lease table: shared leases, or one exclusive lease alone. *)
Definition exclusive_alone (leases : gmap string ResourceLease) : Prop :=
  ∀ id l id' l', leases !! id = Some l → rl_mode l = "exclusive" → leases !! id' = Some l' → id' = id.

Record cell_ok (source : SequentialIdSource) (key : string) (c : ResourceCellEntry) : Prop := {
  co_key : cr_cell_id (ce_descriptor c) = key;
  co_leases : ∀ id l, ce_active_leases c !! id = Some l →
    rl_lease_id l = id ∧ rl_cell_id l = key ∧ (rl_mode l = "shared" ∨ rl_mode l = "exclusive") ∧
    rl_generation l = cr_generation (ce_descriptor c) ∧ issued source id;
  co_alone : exclusive_alone (ce_active_leases c)
}.

Record rm_inv s : Prop := {
  mi_ids : (id_next (rm_id_source s) ≤ u64_max)%N;
  mi_hub : ∀ k e, rm_hub s !! k = Some e → entry_ok (rm_id_source s) k e;
  mi_cells : ∀ k c, rm_resource_cells s !! k = Some c → cell_ok (rm_id_source s) k c;
  mi_values : ∀ k v, rm_values s !! k = Some v → vr_ref_id v.1 = k ∧ vr_generation v.1 = 1%N ∧ issued (rm_id_source s) k;
  mi_handles : ∀ k h, rm_occupancy_handles s !! k = Some h → oh_handle_id h = k
}.

Lemma entry_ok_mono source source' k e :
  entry_ok source k e → (id_next source ≤ id_next source')%N → entry_ok source' k e.
Proof.
  intros [H1 H2 H3] Hle. constructor; try done. intros t Ht. destruct (H3 t Ht) as (? & ? & Hi).
  split_and!; try done. by eapply issued_mono.
Qed.

Lemma cell_ok_mono source source' k c :
  cell_ok source k c → (id_next source ≤ id_next source')%N → cell_ok source' k c.
Proof.
  intros [H1 H2 H3] Hle. constructor; try done. intros id l Hl. destruct (H2 id l Hl) as (? & ? & ? & ? & Hi).
  split_and!; try done. by eapply issued_mono.
Qed.

(** Drawing an id keeps the invariant and gives an id nothing else has. *)
Lemma rm_next_id_runs prefix s :
  rm_inv s → (id_next (rm_id_source s) < u64_max)%N →
  runs (rm_next_id prefix) s (λ id s', ∃ source, s' = s <| rm_id_source := source |> ∧ rm_inv s' ∧
    ¬ issued (rm_id_source s) id ∧ issued source id).
Proof.
  intros Hi Hmax. unfold rm_next_id, runs, bind, get. rewrite next_id_spec by done.
  set (id := prefix +:+ _). set (source := MkSequentialIdSource _).
  assert (next_id prefix (rm_id_source s) = Some (id, source)) as Hn by (by rewrite next_id_spec).
  destruct (next_id_fresh prefix (rm_id_source s) id source) as (Hfresh & Hiss & Hnext & Hle); [apply Hi|done|].
  exists id, (s <| rm_id_source := source |>). split; [done|]. exists source. split_and!; try done.
  destruct Hi as [Hids Hhub Hcells Hvals Hh].
  constructor; cbn; [done| | | |done].
  - intros k e Hk. eapply entry_ok_mono; [by apply Hhub|]. cbn. lia.
  - intros k c Hk. eapply cell_ok_mono; [by apply Hcells|]. cbn. lia.
  - intros k v Hk. destruct (Hvals k v Hk) as (? & ? & Hi). split_and!; try done. eapply issued_mono; [done|]. cbn. lia.
Qed.

Lemma rm_inv_hub s k e :
  rm_inv s → entry_ok (rm_id_source s) k e → rm_inv (s <| rm_hub := <[ k := e ]> (rm_hub s) |>).
Proof.
  intros [Hids Hhub Hcells Hvals Hh] He. constructor; cbn; try done.
  intros k' e' [[<- <-]|[_ Hk]]%lookup_insert_Some; [done|by apply Hhub].
Qed.

Lemma rm_inv_hub_delete s k : rm_inv s → rm_inv (s <| rm_hub := delete k (rm_hub s) |>).
Proof.
  intros [Hids Hhub Hcells Hvals Hh]. constructor; cbn; try done.
  intros k' e' [_ Hk]%lookup_delete_Some. by apply Hhub.
Qed.

Lemma rm_inv_cell s k c :
  rm_inv s → cell_ok (rm_id_source s) k c → rm_inv (s <| rm_resource_cells := <[ k := c ]> (rm_resource_cells s) |>).
Proof.
  intros [Hids Hhub Hcells Hvals Hh] He. constructor; cbn; try done.
  intros k' e' [[<- <-]|[_ Hk]]%lookup_insert_Some; [done|by apply Hcells].
Qed.

Lemma entry_ok_new source descriptor :
  identity_mismatch descriptor = false → entry_ok source (rr_ref_id descriptor) (ResourceEntry_new descriptor).
Proof. by constructor. Qed.

Lemma sub_leases_ok source k c leases :
  cell_ok source k c → leases ⊆ ce_active_leases c → cell_ok source k (MkResourceCellEntry (ce_descriptor c) leases).
Proof.
  intros [H1 H2 H3] Hsub. constructor; cbn; [done| |].
  - intros id l Hl. apply H2. by eapply lookup_weaken.
  - intros id l id' l' Hl Hm Hl'. eapply H3; [by eapply lookup_weaken|done|by eapply lookup_weaken].
Qed.

Lemma any_exclusive_spec leases :
  any_exclusive leases = true ↔ ∃ id l, leases !! id = Some l ∧ rl_mode l = "exclusive".
Proof.
  unfold any_exclusive. rewrite existsb_exists. split.
  - intros ([id l] & Hin & Hm%bool_decide_eq_true). apply list_elem_of_In, elem_of_map_to_list in Hin. eauto.
  - intros (id & l & Hl & Hm). exists (id, l). rewrite <-list_elem_of_In, elem_of_map_to_list, bool_decide_eq_true. done.
Qed.

(** ** Specifications of the operations that change leases *)

(** Close the goal of a branch that returns an error and keeps the state. *)
Ltac return_err :=
  apply runs_ret; split; [done|];
  cbn [resource_not_found resource_generation_mismatch capability_exhausted runtime_failure e_code runtime_error];
  split; [done|].

(** What a lease request meets: an absent cell, a bad mode, a conflict, or a
    grant. *)
Definition lease_conflict (mode : string) (leases : gmap string ResourceLease) : Prop :=
  (mode = "exclusive" ∧ leases ≠ ∅) ∨
  (mode = "shared" ∧ ∃ id l, leases !! id = Some l ∧ rl_mode l = "exclusive").

Lemma acquire_resource_lease_spec s cell_id task executor mode expires :
  rm_inv s → (id_next (rm_id_source s) < u64_max)%N →
  runs (acquire_resource_lease cell_id task executor mode expires) s (λ result s',
    rm_inv s' ∧
    match result with
    | Ok lease => ∃ cell source, rm_resource_cells s !! cell_id = Some cell ∧
        (mode = "shared" ∨ mode = "exclusive") ∧ ¬ lease_conflict mode (ce_active_leases cell) ∧
        rl_cell_id lease = cell_id ∧ rl_borrower_task_id lease = task ∧ rl_borrower_executor_id lease = executor ∧
        rl_mode lease = mode ∧ rl_expires_at_step lease = expires ∧
        rl_generation lease = cr_generation (ce_descriptor cell) ∧
        ¬ issued (rm_id_source s) (rl_lease_id lease) ∧
        s' = s <| rm_id_source := source |> <| rm_resource_cells := <[ cell_id :=
          MkResourceCellEntry (ce_descriptor cell) (<[ rl_lease_id lease := lease ]> (ce_active_leases cell)) ]>
          (rm_resource_cells s) |>
    | Err e => s' = s ∧
        match rm_resource_cells s !! cell_id with
        | None => e_code e = ERR_RESOURCE_NOT_FOUND
        | Some cell => (lease_conflict mode (ce_active_leases cell) ∧ e_code e = ERR_CAPABILITY_EXHAUSTED) ∨
            (mode ≠ "shared" ∧ mode ≠ "exclusive" ∧ e_code e = "resource.lease_mode_invalid")
        end
    end).
Proof.
  intros Hi Hmax. unfold acquire_resource_lease, lease_conflict. apply runs_bind, runs_get.
  destruct (rm_resource_cells s !! cell_id) as [cell|] eqn:Hc; [|by apply runs_ret].
  destruct (bool_decide (mode = "exclusive") && negb (bool_decide (ce_active_leases cell = ∅))) eqn:E1.
  { apply andb_prop in E1 as [->%bool_decide_eq_true Hne%negb_true_iff%bool_decide_eq_false].
    return_err. left. split; [by left|done]. }
  destruct (bool_decide (mode ≠ "shared") && bool_decide (mode ≠ "exclusive")) eqn:E2.
  { apply andb_prop in E2 as [?%bool_decide_eq_true ?%bool_decide_eq_true].
    return_err. by right. }
  destruct (bool_decide (mode = "shared") && any_exclusive (ce_active_leases cell)) eqn:E3.
  { apply andb_prop in E3 as [->%bool_decide_eq_true Hx%any_exclusive_spec].
    return_err. left. split; [by right|done]. }
  assert (¬ lease_conflict mode (ce_active_leases cell)) as Hno.
  { unfold lease_conflict. intros [[-> Hne]|[-> Hx%any_exclusive_spec]].
    - rewrite bool_decide_eq_true_2 in E1 by done. cbn in E1. by apply negb_false_iff, bool_decide_eq_true in E1.
    - rewrite bool_decide_eq_true_2, Hx in E3 by done. done. }
  assert (mode = "shared" ∨ mode = "exclusive") as Hmode.
  { destruct (decide (mode = "shared")); [by left|]. destruct (decide (mode = "exclusive")); [by right|].
    by rewrite !bool_decide_eq_true_2 in E2. }
  apply runs_bind. eapply runs_mono; [by apply rm_next_id_runs|]. intros id s1 (source & -> & Hi1 & Hfresh & Hiss).
  apply runs_bind, runs_modify, runs_ret. destruct (mi_cells _ Hi _ _ Hc) as [Hk Hl Hx]. split.
  - cbn. apply (rm_inv_cell (s <| rm_id_source := source |>)); [done|].
    assert (ce_active_leases cell !! id = None) as Hnew.
    { apply eq_None_not_Some. intros [l Hl']. by destruct (Hl id l Hl') as (_ & _ & _ & _ & ?). }
    constructor; cbn; [done| |].
    + intros id' l' [[<- <-]|[Hne Hl']]%lookup_insert_Some; [by split_and!|].
      destruct (mi_cells _ Hi1 cell_id cell Hc) as [_ Hl1 _]. by apply Hl1.
    + intros id1 l1 id2 l2 [[<- <-]|[Hne1 H1]]%lookup_insert_Some Hm H2.
      * apply lookup_insert_Some in H2 as [[<- <-]|[Hne2 H2]]; [done|]. destruct Hno. cbn in Hm. left.
        split; [done|]. intros He. by rewrite He, lookup_empty in H2.
      * apply lookup_insert_Some in H2 as [[<- <-]|[Hne2 H2]]; [|by eapply Hx]. destruct Hno.
        destruct Hmode as [->| ->]; [right; eauto|left]. split; [done|]. intros He. by rewrite He, lookup_empty in H1.
  - exists cell, source. by split_and!.
Qed.

(** The condition under which a cell lease may be released. *)
Definition lease_active s (lease : ResourceLease) (current_step : option N) : Prop :=
  ∃ cell, rm_resource_cells s !! rl_cell_id lease = Some cell ∧
    ce_active_leases cell !! rl_lease_id lease = Some lease ∧
    rl_generation lease = cr_generation (ce_descriptor cell) ∧
    ∀ step, current_step = Some step → resource_lease_expired lease step = false.

Lemma release_resource_lease_spec s lease step :
  rm_inv s →
  runs (release_resource_lease_checked lease step) s (λ result s',
    rm_inv s' ∧
    match result with
    | Ok _ => lease_active s lease step ∧ ∃ cell, rm_resource_cells s !! rl_cell_id lease = Some cell ∧
        s' = s <| rm_resource_cells := <[ rl_cell_id lease := MkResourceCellEntry (ce_descriptor cell)
               (delete (rl_lease_id lease) (ce_active_leases cell)) ]> (rm_resource_cells s) |>
    | Err e => s' = s ∧ ¬ lease_active s lease step
    end).
Proof.
  intros Hi. unfold release_resource_lease_checked, lease_active. apply runs_bind, runs_get.
  destruct (rm_resource_cells s !! rl_cell_id lease) as [cell|] eqn:Hc;
    [|return_err; intros (? & ? & _); congruence].
  unfold validate_resource_lease. destruct (ce_active_leases cell !! rl_lease_id lease) as [active|] eqn:Ha;
    [|return_err; intros (? & ? & ? & _); congruence].
  destruct (bool_decide (active ≠ lease) || _) eqn:E1.
  { return_err. intros (cell' & [= <-] & Ha' & Hg & _). simplify_eq.
    by apply orb_true_iff in E1 as [E1%bool_decide_eq_true|E1%bool_decide_eq_true]. }
  apply orb_false_iff in E1 as [E1%bool_decide_eq_false%dec_stable E2%bool_decide_eq_false%dec_stable]. subst active.
  destruct (is_some_and step (resource_lease_expired lease)) eqn:E3.
  { return_err. intros (cell' & [= <-] & _ & _ & Hexp). destruct step as [n|]; [|done].
    cbn in E3. by rewrite Hexp in E3. }
  unfold try_bind. apply runs_bind, runs_ret, runs_bind, runs_put, runs_ret. split; [|split].
  - apply rm_inv_cell; [done|]. eapply sub_leases_ok; [by apply Hi|apply delete_subseteq].
  - exists cell. split_and!; try done. intros n ->. done.
  - by exists cell.
Qed.

Lemma elem_of_expired_leases step cells l :
  l ∈ expired_leases step cells ↔ ∃ k c id, cells !! k = Some c ∧ ce_active_leases c !! id = Some l ∧
    resource_lease_expired l step = true.
Proof.
  unfold expired_leases. rewrite list_elem_of_In, in_flat_map. split.
  - intros ([k c] & Hc & Hl). rewrite <-list_elem_of_In in Hc. rewrite <-list_elem_of_In in Hl. apply elem_of_map_to_list in Hc.
    apply list_elem_of_filter in Hl as [He ([id l'] & -> & Hl)%list_elem_of_fmap].
    apply elem_of_map_to_list in Hl. cbn in *. naive_solver.
  - intros (k & c & id & Hc & Hl & He). exists (k, c). rewrite <-!list_elem_of_In, elem_of_map_to_list.
    split; [done|]. apply list_elem_of_filter. split; [done|]. apply list_elem_of_fmap. exists (id, l).
    by rewrite elem_of_map_to_list.
Qed.

Lemma reclaim_expired_inv s step :
  rm_inv s → rm_inv (s <| rm_resource_cells := retain_live step <$> rm_resource_cells s |>).
Proof.
  intros [Hids Hhub Hcells Hvals Hh]. constructor; cbn; try done. intros k c Hc.
  apply lookup_fmap_Some in Hc as (c' & <- & Hc'). eapply sub_leases_ok; [by apply Hcells|].
  apply map_filter_subseteq.
Qed.

(** ** Specifications of the operations on descriptors *)

(** [a] is no newer than [b]: generations first, then versions. *)
Definition no_newer (a b : ResourceRef) : Prop :=
  (rr_generation a < rr_generation b)%N ∨
  (rr_generation a = rr_generation b ∧ (rr_version a ≤ rr_version b)%N).

#[export] Instance no_newer_dec : RelDecision no_newer.
Proof. intros a b. unfold no_newer. apply _. Defined.

(** When a descriptor may replace the one under its id. *)
Definition sync_allowed s (d : ResourceRef) : Prop :=
  identity_mismatch d = false ∧
  ∀ e, rm_hub s !! rr_ref_id d = Some e → no_newer (re_descriptor e) d ∧
    ∀ t, re_writer e = Some t → tok_generation t = rr_generation d.

Lemma sync_resource_descriptor_spec s d :
  rm_inv s →
  runs (sync_resource_descriptor d) s (λ result s',
    rm_inv s' ∧
    match result with
    | Ok d' => d' = d ∧ sync_allowed s d ∧
        s' = s <| rm_hub := <[ rr_ref_id d := MkResourceEntry d (rm_hub s !! rr_ref_id d ≫= re_writer) ]> (rm_hub s) |>
    | Err e => s' = s ∧ ¬ sync_allowed s d ∧ e_code e = ERR_RESOURCE_GENERATION_MISMATCH
    end).
Proof.
  intros Hi. unfold sync_resource_descriptor, sync_allowed, no_newer. apply runs_bind, runs_get.
  destruct (identity_mismatch d) eqn:Hid; [return_err; naive_solver|].
  destruct (rm_hub s !! rr_ref_id d) as [e|] eqn:He; cbn [mbind option_bind].
  2:{ apply runs_bind, runs_put, runs_ret. split_and!; try done.
      apply (rm_inv_hub s); [done|]. by apply entry_ok_new. }
  destruct (bool_decide (rr_generation d < _)%N || _) eqn:E1.
  { return_err. split; [|done]. intros [_ Hold]. destruct (Hold e eq_refl) as [Hn _].
    apply orb_true_iff in E1 as [E1%bool_decide_eq_true|[E1%bool_decide_eq_true E2%bool_decide_eq_true]%andb_prop]; lia. }
  destruct (is_some_and (re_writer e) _) eqn:E2.
  { return_err. split; [|done]. intros [_ Hold]. destruct (Hold e eq_refl) as [_ Hw].
    destruct (re_writer e) as [t|]; [|done]. cbn in E2. apply bool_decide_eq_true in E2. naive_solver. }
  apply orb_false_iff in E1 as [E1%bool_decide_eq_false E3].
  assert (∀ t, re_writer e = Some t → tok_generation t = rr_generation d) as Hw.
  { intros t Ht. rewrite Ht in E2. cbn in E2. by apply bool_decide_eq_false, dec_stable in E2. }
  apply runs_bind, runs_put, runs_ret. unfold hub_insert. cbn [re_descriptor]. rewrite insert_delete_eq.
  split_and!; try done.
  - apply rm_inv_hub; [done|]. constructor; [done|done|]. cbn. intros t Ht.
    destruct (eo_writer _ _ _ (mi_hub _ Hi _ _ He) t Ht) as (? & _ & ?). split_and!; auto.
  - intros e' [= <-]. split; [|done]. apply andb_false_iff in E3 as [E3|E3]; apply bool_decide_eq_false in E3; lia.
Qed.

Lemma register_resource_descriptor_spec s d :
  rm_inv s →
  runs (register_resource_descriptor d) s (λ result s',
    rm_inv s' ∧
    match result with
    | Ok d' => d' = d ∧ identity_mismatch d = false ∧ rm_hub s !! rr_ref_id d = None ∧
        s' = s <| rm_hub := <[ rr_ref_id d := ResourceEntry_new d ]> (rm_hub s) |>
    | Err e => s' = s ∧ (identity_mismatch d = true ∨ is_Some (rm_hub s !! rr_ref_id d))
    end).
Proof.
  intros Hi. unfold register_resource_descriptor. apply runs_bind, runs_get.
  destruct (identity_mismatch d) eqn:Hid; [return_err; by left|].
  destruct (rm_hub s !! rr_ref_id d) as [e|] eqn:He; [return_err; right; by eexists|].
  apply runs_bind, runs_put, runs_ret. split_and!; try done. apply (rm_inv_hub s); [done|]. by apply entry_ok_new.
Qed.

Lemma create_stream_resource_spec s stream_id schema provider endpoint :
  rm_inv s → (id_next (rm_id_source s) < u64_max)%N →
  runs (create_stream_resource stream_id schema provider endpoint) s (λ d s',
    rm_inv s' ∧ rm_values s ⊆ rm_values s' ∧ rm_hub s' !! rr_ref_id d = Some (ResourceEntry_new d) ∧
    (∀ k, k ≠ rr_ref_id d → rm_hub s' !! k = rm_hub s !! k)).
Proof.
  intros Hi Hmax. apply runs_bind. eapply runs_mono; [by apply rm_next_id_runs|].
  intros id s1 (source & -> & Hi1 & _ & _). apply runs_bind, runs_modify, runs_ret. split_and!.
  - apply (rm_inv_hub (s <| rm_id_source := source |>)); [done|]. by constructor.
  - done.
  - apply lookup_insert_eq.
  - intros k Hk. by apply lookup_insert_ne.
Qed.

Lemma close_stream_resource_spec s ref_id :
  rm_inv s →
  runs (close_stream_resource ref_id) s (λ result s',
    rm_inv s' ∧
    match result with
    | Ok d => ∃ e, rm_hub s !! ref_id = Some e ∧ d = re_descriptor e ∧ is_stream (rr_access d) = true ∧
        s' = s <| rm_hub := delete ref_id (rm_hub s) |>
    | Err e => s' = s ∧ ∀ x, rm_hub s !! ref_id = Some x → is_stream (rr_access (re_descriptor x)) = false
    end).
Proof.
  intros Hi. unfold close_stream_resource. apply runs_bind, runs_get.
  destruct (rm_hub s !! ref_id) as [e|] eqn:He; [|return_err; done].
  destruct (is_stream _) eqn:Hs; [|return_err; by intros x [= <-]].
  apply runs_bind, runs_ret, runs_bind, runs_put, runs_ret. split; [by apply rm_inv_hub_delete|]. by exists e.
Qed.

Lemma acquire_write_lease_spec s ref_id owner expires :
  rm_inv s → (id_next (rm_id_source s) < u64_max)%N →
  runs (acquire_write_lease ref_id owner expires) s (λ result s',
    rm_inv s' ∧
    match result with
    | Ok lease => ∃ e source, rm_hub s !! ref_id = Some e ∧ re_writer e = None ∧
        tok_ref_id (xl_token lease) = ref_id ∧ tok_owner (xl_token lease) = owner ∧
        tok_expires_at_step (xl_token lease) = expires ∧
        tok_generation (xl_token lease) = rr_generation (re_descriptor e) ∧
        ¬ issued (rm_id_source s) (tok_token_id (xl_token lease)) ∧
        s' = s <| rm_id_source := source |>
               <| rm_hub := <[ ref_id := MkResourceEntry (re_descriptor e) (Some (xl_token lease)) ]> (rm_hub s) |>
    | Err e => s' = s ∧
        match rm_hub s !! ref_id with
        | None => e_code e = ERR_RESOURCE_NOT_FOUND
        | Some x => is_Some (re_writer x) ∧ e_code e = ERR_CAPABILITY_EXHAUSTED
        end
    end).
Proof.
  intros Hi Hmax. unfold acquire_write_lease. apply runs_bind, runs_get.
  destruct (rm_hub s !! ref_id) as [e|] eqn:He; [|by return_err].
  destruct (re_writer e) as [t|] eqn:Hw; [return_err; split; [by eexists|done]|].
  apply runs_bind. eapply runs_mono; [by apply rm_next_id_runs|]. intros id s1 (source & -> & Hi1 & Hf & Hiss).
  apply runs_bind, runs_modify, runs_ret. split.
  - apply (rm_inv_hub (s <| rm_id_source := source |>)); [done|].
    destruct (mi_hub _ Hi _ _ He) as [Hk Hid _]. constructor; [done|done|]. cbn. intros t [= <-]. by split_and!.
  - exists e, source. by split_and!.
Qed.

(** The condition under which a write lease may be released. *)
Definition writer_active s (lease : ExclusiveWriteLease) (current_step : option N) : Prop :=
  (∃ e, rm_hub s !! tok_ref_id (xl_token lease) = Some e ∧ re_writer e = Some (xl_token lease)) ∧
  ∀ expires step, tok_expires_at_step (xl_token lease) = Some expires → current_step = Some step → (step < expires)%N.

Lemma release_write_lease_spec s lease step :
  rm_inv s →
  runs (release_write_lease_checked lease step) s (λ result s',
    rm_inv s' ∧
    match result with
    | Ok _ => writer_active s lease step ∧ ∃ e, rm_hub s !! tok_ref_id (xl_token lease) = Some e ∧
        s' = s <| rm_hub := <[ tok_ref_id (xl_token lease) := MkResourceEntry (re_descriptor e) None ]> (rm_hub s) |>
    | Err e => s' = s ∧ ¬ writer_active s lease step
    end).
Proof.
  intros Hi. unfold release_write_lease_checked, writer_active. apply runs_bind, runs_get. cbv zeta.
  set (t := xl_token lease). destruct (rm_hub s !! tok_ref_id t) as [e|] eqn:He; [|return_err; naive_solver].
  destruct (is_some_and (tok_expires_at_step t) _) eqn:Hexp.
  { return_err. intros [_ Hlt]. destruct (tok_expires_at_step t) as [x|], step as [n|]; try done. cbn in Hexp.
    apply bool_decide_eq_true in Hexp. specialize (Hlt x n eq_refl eq_refl). lia. }
  destruct (bool_decide (re_writer e ≠ Some t)) eqn:Hw.
  { apply bool_decide_eq_true in Hw. return_err. naive_solver. }
  apply bool_decide_eq_false, dec_stable in Hw. apply runs_bind, runs_put, runs_ret. split; [|split; [split|]].
  - apply rm_inv_hub; [done|]. destruct (mi_hub _ Hi _ _ He) as [Hk Hid _]. by constructor.
  - by exists e.
  - intros x n Hx ->. rewrite Hx in Hexp. cbn in Hexp. apply bool_decide_eq_false in Hexp. lia.
  - by exists e.
Qed.

Lemma pack_value_spec s schema value :
  rm_inv s → (id_next (rm_id_source s) < u64_max)%N →
  runs (pack_value schema value) s (λ result s',
    rm_inv s' ∧
    match result, to_vec_len value with
    | Ok (PackedInline v), Ok size =>
        (size ≤ rm_inline_value_max_bytes s)%N ∧ v = ResourceInline schema value 1 ∧ s' = s
    | Ok (PackedValueRef v), Ok size =>
        (rm_inline_value_max_bytes s < size)%N ∧ v = stored_value_ref (vr_ref_id v) schema size ∧
        rm_values s !! vr_ref_id v = None ∧ rm_values s' = <[ vr_ref_id v := (v, value) ]> (rm_values s)
    | Err e, Err text => s' = s ∧ e = runtime_error "resource.encode_failed" "runtime.resource_manager" text
    | _, _ => False
    end).
Proof.
  intros Hi Hmax. unfold pack_value. apply runs_bind, runs_get. destruct (to_vec_len value) as [size|text].
  2:{ by apply runs_ret. }
  case_decide; [by apply runs_ret|]. apply runs_bind. eapply runs_mono; [by apply rm_next_id_runs|].
  intros id s1 (source & -> & Hi1 & Hf & Hiss). apply runs_bind, runs_modify, runs_ret. split.
  - destruct Hi1 as [Hids Hhub Hcells Hvals Hh]. constructor; cbn; try done.
    intros k v [[<- <-]|[_ Hk]]%lookup_insert_Some; [by split_and!|by apply Hvals].
  - cbn. split_and!; try done; [lia|]. apply eq_None_not_Some. intros [v Hv].
    by destruct (mi_values _ Hi _ _ Hv) as (_ & _ & ?).
Qed.

(** ** Plan receipts *)

#[export] Instance no_newer_preorder : PreOrder no_newer.
Proof. unfold no_newer. split; [intros a|intros a b c]; lia. Qed.

Lemma merge_descriptors_latest (l : list ResourceRef) :
  let m := foldl merge_descriptor ∅ l in
  (∀ k d, m !! k = Some d → d ∈ l ∧ rr_ref_id d = k ∧ ∀ d', d' ∈ l → rr_ref_id d' = k → no_newer d' d) ∧
  (∀ d, d ∈ l → is_Some (m !! rr_ref_id d)).
Proof.
  cbv zeta. induction l as [|x l [IH1 IH2]] using rev_ind; [split; [done|set_solver]|].
  rewrite foldl_snoc. unfold merge_descriptor at 1 3. set (m := foldl merge_descriptor ∅ l) in *.
  assert (∀ d, d ∈ l ++ [x] ↔ d ∈ l ∨ d = x) as Hin by set_solver.
  assert (∀ k, k ≠ rr_ref_id x → ∀ d', d' ∈ l ++ [x] → rr_ref_id d' = k → d' ∈ l) as Hother by set_solver.
  assert (∀ d, (∀ d', d' ∈ l → rr_ref_id d' = rr_ref_id x → no_newer d' d) → no_newer x d →
    ∀ d', d' ∈ l ++ [x] → rr_ref_id d' = rr_ref_id x → no_newer d' d) as Hall.
  { intros d Hl Hx d' [Hd'| ->]%Hin; auto. }
  destruct (m !! rr_ref_id x) as [cur|] eqn:Hm.
  - destruct (IH1 _ _ Hm) as (Hcur & Hid & Hmax). destruct (bool_decide _ || _) eqn:E.
    + assert (no_newer cur x) as Hnn.
      { unfold no_newer. apply orb_true_iff in E as [E%bool_decide_eq_true|[?%bool_decide_eq_true ?%bool_decide_eq_true]%andb_prop]; lia. }
      split.
      * intros k d [[<- <-]|[Hne Hk]]%lookup_insert_Some.
        -- split_and!; [set_solver|done|]. apply Hall; [|done]. intros d' Hd' Hr. etrans; [by apply Hmax|done].
        -- destruct (IH1 _ _ Hk) as (? & ? & Hd). split_and!; [set_solver|done|]. intros d' Hd' Hr.
           apply Hd; [|done]. by eapply Hother.
      * intros d [Hd| ->]%Hin; [|rewrite lookup_insert_eq; by eexists].
        destruct (decide (rr_ref_id x = rr_ref_id d)) as [->|Hne]; [rewrite lookup_insert_eq; by eexists|].
        rewrite lookup_insert_ne by done. by apply IH2.
    + assert (no_newer x cur) as Hnn.
      { unfold no_newer. apply orb_false_iff in E as [?%bool_decide_eq_false [?%bool_decide_eq_false|?%bool_decide_eq_false]%andb_false_iff]; lia. }
      split.
      * intros k d Hk. destruct (decide (k = rr_ref_id x)) as [->|Hne].
        -- simplify_eq. split_and!; [set_solver|done|]. apply Hall; [done|done].
        -- destruct (IH1 _ _ Hk) as (? & ? & Hd). split_and!; [set_solver|done|]. intros d' Hd' Hr.
           apply Hd; [|done]. by eapply Hother.
      * intros d [Hd| ->]%Hin; [by apply IH2|by eexists].
  - assert (∀ d', d' ∈ l → rr_ref_id d' ≠ rr_ref_id x) as Hnone.
    { intros d' Hd' Hr. destruct (IH2 d' Hd') as [y Hy]. rewrite Hr in Hy. congruence. }
    split.
    + intros k d [[<- <-]|[Hne Hk]]%lookup_insert_Some.
      * split_and!; [set_solver|done|]. apply Hall; [|done]. intros d' Hd' Hr. by destruct (Hnone d').
      * destruct (IH1 _ _ Hk) as (? & ? & Hd). split_and!; [set_solver|done|]. intros d' Hd' Hr.
        apply Hd; [|done]. by eapply Hother.
    + intros d [Hd| ->]%Hin; [|rewrite lookup_insert_eq; by eexists].
      rewrite lookup_insert_ne by (symmetry; by apply Hnone). by apply IH2.
Qed.
(** The hub after descriptors have been synchronised one after the other. *)
Definition synced (hub : gmap string ResourceEntry) (d : ResourceRef) : gmap string ResourceEntry :=
  <[ rr_ref_id d := MkResourceEntry d (hub !! rr_ref_id d ≫= re_writer) ]> hub.

(** Entries only get newer, and keep their writer. *)
Definition hub_advances (hub hub' : gmap string ResourceEntry) : Prop :=
  ∀ k e, hub !! k = Some e → ∃ e', hub' !! k = Some e' ∧ no_newer (re_descriptor e) (re_descriptor e') ∧
    re_writer e' = re_writer e.

#[export] Instance hub_advances_preorder : PreOrder hub_advances.
Proof.
  split.
  - intros hub k e He. by exists e.
  - intros h1 h2 h3 H12 H23 k e He. destruct (H12 k e He) as (e2 & He2 & ? & Hw2).
    destruct (H23 k e2 He2) as (e3 & He3 & ? & Hw3). exists e3. split_and!; [done|by etrans|congruence].
Qed.

Lemma synced_advances s d : sync_allowed s d → hub_advances (rm_hub s) (synced (rm_hub s) d).
Proof.
  intros [_ Hold] k e He. unfold synced. destruct (decide (rr_ref_id d = k)) as [<-|Hne].
  - rewrite lookup_insert_eq, He. eexists. split_and!; [done|by apply Hold|done].
  - rewrite lookup_insert_ne by done. by exists e.
Qed.

Lemma sync_descriptors_spec l s :
  rm_inv s →
  runs (sync_descriptors l) s (λ result s', ∃ applied rest,
    rm_inv s' ∧ l = applied ++ rest ∧ s' = s <| rm_hub := foldl synced (rm_hub s) applied |> ∧
    hub_advances (rm_hub s) (rm_hub s') ∧
    match result with
    | Ok ds => ds = l ∧ rest = []
    | Err e => (∃ d rest', rest = d :: rest' ∧ ¬ sync_allowed s' d) ∧ e_code e = ERR_RESOURCE_GENERATION_MISMATCH
    end).
Proof.
  revert s. induction l as [|d l IH]; intros s Hi; cbn [sync_descriptors].
  - apply runs_ret. exists [], []. split_and!; try done. by destruct s.
  - unfold try_bind. apply runs_bind. eapply runs_mono; [by apply sync_resource_descriptor_spec|].
    intros [d'|e] s1 [Hi1 H]; cbn.
    + destruct H as (-> & Hal & ->). apply runs_bind. eapply runs_mono; [by apply IH|].
      intros result s2 (applied & rest & Hi2 & -> & -> & Hadv & Hres).
      assert (hub_advances (rm_hub s) (foldl synced (rm_hub s) (d :: applied))) as Hadv'
        by (etrans; [by apply synced_advances|exact Hadv]).
      destruct result as [ds|e]; [destruct Hres as [-> ->]|]; apply runs_ret; by eexists (d :: applied), _.
    + destruct H as (-> & Hn & He). apply runs_ret. exists [], (d :: l). split_and!; try done; [by destruct s|].
      by exists d, l.
Qed.

(** ** Runs of the manager *)

Inductive RmOp : Type :=
  | OpRegister (d : ResourceRef)
  | OpSync (d : ResourceRef)
  | OpSyncReceipt (receipt : PlanReceipt)
  | OpCreateStream (stream_id schema provider_id endpoint : string)
  | OpCloseStream (ref_id : string)
  | OpCreateCell (cell_id resource_kind owner_plugin_id schema reload_policy : string)
  | OpAcquire (cell_id task executor mode : string) (expires_at_step : option N)
  | OpRelease (lease : ResourceLease) (current_step : option N)
  | OpReclaim (current_step : N)
  | OpAcquireWrite (ref_id owner : string) (expires_at_step : option N)
  | OpReleaseWrite (lease : ExclusiveWriteLease) (current_step : option N)
  | OpPackValue (schema : string) (value : Value)
  | OpRegisterOccupancy (handle : SurfaceOccupancyHandle)
  | OpReleaseOccupancy (handle_id : string).

Definition discard {A} (c : M ResourceManager A) : M ResourceManager unit := c ;;! ret tt.

Definition run_rm_op (op : RmOp) : M ResourceManager unit :=
  match op with
  | OpRegister d => discard (register_resource_descriptor d)
  | OpSync d => discard (sync_resource_descriptor d)
  | OpSyncReceipt receipt => discard (sync_plan_receipt receipt)
  | OpCreateStream stream_id schema provider endpoint =>
      discard (create_stream_resource stream_id schema provider endpoint)
  | OpCloseStream ref_id => discard (close_stream_resource ref_id)
  | OpCreateCell cell_id kind owner schema policy => discard (create_resource_cell cell_id kind owner schema policy)
  | OpAcquire cell_id task executor mode expires => discard (acquire_resource_lease cell_id task executor mode expires)
  | OpRelease lease step => discard (release_resource_lease_checked lease step)
  | OpReclaim step => discard (reclaim_expired_resource_leases step)
  | OpAcquireWrite ref_id owner expires => discard (acquire_write_lease ref_id owner expires)
  | OpReleaseWrite lease step => discard (release_write_lease_checked lease step)
  | OpPackValue schema value => discard (pack_value schema value)
  | OpRegisterOccupancy handle => discard (register_surface_occupancy handle)
  | OpReleaseOccupancy handle_id => discard (release_surface_occupancy handle_id)
  end.

Lemma runs_discard_rm {A} (c : M ResourceManager A) s (Q : ResourceManager → Prop) :
  runs c s (λ _ s', Q s') → runs (discard c) s (λ _ s', Q s').
Proof. intros H. apply runs_bind. eapply runs_mono; [exact H|]. intros a s' HQ. by apply runs_ret. Qed.

Lemma handles_inv s handles :
  rm_inv s → (∀ k h, handles !! k = Some h → oh_handle_id h = k) → rm_inv (s <| rm_occupancy_handles := handles |>).
Proof. intros [] ?. by constructor. Qed.

(** Stored values are never dropped or changed. *)
Lemma run_rm_op_inv op s :
  rm_inv s → (id_next (rm_id_source s) < u64_max)%N →
  runs (run_rm_op op) s (λ _ s', rm_inv s' ∧ rm_values s ⊆ rm_values s').
Proof.
  intros Hi Hmax. destruct op; apply runs_discard_rm; cbn.
  - eapply runs_mono; [by apply register_resource_descriptor_spec|].
    intros [d'|e] s' [? H]; split; try done; [by destruct H as (_ & _ & _ & ->)|by destruct H as [-> _]].
  - eapply runs_mono; [by apply sync_resource_descriptor_spec|].
    intros [d'|e] s' [? H]; split; try done; [by destruct H as (_ & _ & ->)|by destruct H as [-> _]].
  - eapply runs_mono; [by apply sync_descriptors_spec|]. by intros ? ? (? & ? & ? & _ & -> & _).
  - eapply runs_mono; [by apply create_stream_resource_spec|]. by intros ? ? (? & ? & _).
  - eapply runs_mono; [by apply close_stream_resource_spec|].
    intros [d'|e] s' [? H]; split; try done; [by destruct H as (? & _ & _ & _ & ->)|by destruct H as [-> _]].
  - apply runs_bind, runs_modify, runs_ret. split; [|done]. apply (rm_inv_cell s); [done|]. by constructor.
  - eapply runs_mono; [by apply acquire_resource_lease_spec|].
    intros [l|e] s' [? H]; split; try done; [|by destruct H as [-> _]].
    by destruct H as (c & source & _ & _ & _ & _ & _ & _ & _ & _ & _ & _ & ->).
  - eapply runs_mono; [by apply release_resource_lease_spec|].
    intros [u|e] s' [? H]; split; try done; [by destruct H as (_ & ? & _ & ->)|by destruct H as [-> _]].
  - apply runs_bind, runs_get, runs_bind, runs_put, runs_ret. split; [by apply reclaim_expired_inv|done].
  - eapply runs_mono; [by apply acquire_write_lease_spec|].
    intros [l|e] s' [? H]; split; try done; [|by destruct H as [-> _]].
    by destruct H as (e & source & _ & _ & _ & _ & _ & _ & _ & ->).
  - eapply runs_mono; [by apply release_write_lease_spec|].
    intros [u|e] s' [? H]; split; try done; [by destruct H as (_ & ? & _ & ->)|by destruct H as [-> _]].
  - eapply runs_mono; [by apply pack_value_spec|]. intros result s' [? H]. split; [done|].
    destruct result as [[v|v|v]|e], (to_vec_len value); try done; [by destruct H as (_ & _ & ->)| |by destruct H as [-> _]].
    destruct H as (_ & _ & Hnone & ->). by apply insert_subseteq.
  - apply runs_bind, runs_get. destruct (_ !! _) eqn:Hh; [by apply runs_ret|].
    apply runs_bind, runs_put, runs_ret. split; [|done]. apply handles_inv; [done|].
    intros k h [[<- <-]|[_ Hk]]%lookup_insert_Some; [done|by apply (mi_handles _ Hi)].
  - apply runs_bind, runs_get. destruct (_ !! _) eqn:Hh; [|by apply runs_ret].
    apply runs_bind, runs_put, runs_ret. split; [|done]. apply handles_inv; [done|].
    intros k h [_ Hk]%lookup_delete_Some. by apply (mi_handles _ Hi).
Qed.

(** Every manager a run of operations can reach while the id counter is short
    of [u64::MAX]. *)
Inductive rm_reachable : ResourceManager → Prop :=
  | rm_reachable_new : rm_reachable ResourceManager_new
  | rm_reachable_step s op s' :
      rm_reachable s → (id_next (rm_id_source s) < u64_max)%N →
      run_rm_op op s = Some (tt, s') → rm_reachable s'.

Lemma rm_reachable_inv s : rm_reachable s → rm_inv s.
Proof.
  induction 1 as [|s op s' _ IH Hmax Hrun]; [constructor; cbn; try done; unfold u64_max; lia|].
  by apply (runs_det _ _ _ _ _ (run_rm_op_inv op s IH Hmax) Hrun).
Qed.

(** The managers a run of operations reaches from [s]. *)
Inductive rm_steps s : ResourceManager → Prop :=
  | rm_steps_refl : rm_steps s s
  | rm_steps_step s1 op s2 :
      rm_steps s s1 → (id_next (rm_id_source s1) < u64_max)%N →
      run_rm_op op s1 = Some (tt, s2) → rm_steps s s2.

Lemma rm_steps_values s s' : rm_inv s → rm_steps s s' → rm_inv s' ∧ rm_values s ⊆ rm_values s'.
Proof.
  intros Hi. induction 1 as [|s1 op s2 _ [IH1 IH2] Hmax Hrun]; [done|].
  destruct (runs_det _ _ _ _ _ (run_rm_op_inv op s1 IH1 Hmax) Hrun). split; [done|]. by etrans.
Qed.
End ResourceInvariant.

(** ** Properties *)

Section ResourceTheorems.
Context `{SJ : SerdeJson}.
Implicit Types s : ResourceManager.

(** no operation of the resource manager panics.  In every reachable
    manager every operation returns and leaves a reachable manager, as long as
    fewer than [u64::MAX] ids have been drawn. *)
Theorem resource_ops_total s op :
  rm_reachable s → (id_next (rm_id_source s) < u64_max)%N →
  ∃ s', run_rm_op op s = Some (tt, s') ∧ rm_reachable s'.
Proof.
  intros Hs Hmax. destruct (run_rm_op_inv op s (rm_reachable_inv _ Hs) Hmax) as ([] & s' & Hrun & _).
  exists s'. split; [done|]. by eapply rm_reachable_step.
Qed.

(** C36: leases exclude each other.  In every reachable manager an exclusive
    lease of a cell is the only lease of that cell; every lease names its cell,
    is shared or exclusive and carries the cell's generation; and the writer of
    a resource, of which there is at most one, names the resource and carries
    the generation of its descriptor. *)
Theorem lease_exclusion s :
  rm_reachable s →
  (∀ cell_id cell id lease, rm_resource_cells s !! cell_id = Some cell → ce_active_leases cell !! id = Some lease →
     rl_lease_id lease = id ∧ rl_cell_id lease = cell_id ∧ rl_generation lease = cr_generation (ce_descriptor cell) ∧
     (rl_mode lease = "shared" ∨
      rl_mode lease = "exclusive" ∧ ∀ id', is_Some (ce_active_leases cell !! id') → id' = id)) ∧
  (∀ ref_id entry token, rm_hub s !! ref_id = Some entry → re_writer entry = Some token →
     tok_ref_id token = ref_id ∧ tok_generation token = rr_generation (re_descriptor entry)).
Proof.
  intros Hi%rm_reachable_inv. split.
  - intros k c id l Hc Hl. destruct (mi_cells _ Hi _ _ Hc) as [_ Hls Hx].
    destruct (Hls id l Hl) as (? & ? & [Hm|Hm] & ? & _); split_and!; try done; [by left|].
    right. split; [done|]. intros id' [l' Hl']. by eapply Hx.
  - intros k e t He Ht. by destruct (eo_writer _ _ _ (mi_hub _ Hi _ _ He) t Ht) as (? & ? & _).
Qed.

(** acquiring a cell lease.  It succeeds exactly when the cell exists, the
    mode is shared or exclusive, and no lease conflicts (an exclusive request
    needs a cell without leases, a shared one a cell without an exclusive
    lease).  It then adds one lease under an id no lease of any cell has;
    otherwise the manager is unchanged. *)
Theorem acquire_resource_lease_correct s cell_id task executor mode expires :
  rm_reachable s → (id_next (rm_id_source s) < u64_max)%N →
  ∃ result s', acquire_resource_lease cell_id task executor mode expires s = Some (result, s') ∧
    (is_ok result = true ↔ ∃ cell, rm_resource_cells s !! cell_id = Some cell ∧
       (mode = "shared" ∨ mode = "exclusive") ∧ ¬ lease_conflict mode (ce_active_leases cell)) ∧
    match result with
    | Ok lease =>
        rl_cell_id lease = cell_id ∧ rl_borrower_task_id lease = task ∧ rl_mode lease = mode ∧
        rl_expires_at_step lease = expires ∧
        (∀ k c, rm_resource_cells s !! k = Some c → ce_active_leases c !! rl_lease_id lease = None) ∧
        (∀ k, rm_resource_cells s' !! k =
           if decide (k = cell_id)
           then (λ c, MkResourceCellEntry (ce_descriptor c) (<[ rl_lease_id lease := lease ]> (ce_active_leases c)))
                  <$> rm_resource_cells s !! k
           else rm_resource_cells s !! k) ∧
        rm_hub s' = rm_hub s
    | Err _ => s' = s
    end.
Proof.
  intros Hi%rm_reachable_inv Hmax.
  destruct (acquire_resource_lease_spec s cell_id task executor mode expires Hi Hmax) as (result & s' & Hrun & Hi' & H).
  exists result, s'. split; [done|]. destruct result as [lease|e].
  - destruct H as (cell & source & Hc & Hmode & Hno & ? & ? & ? & ? & ? & ? & Hf & ->). split; [split; [eauto|done]|].
    split_and!; try done.
    + intros k c Hk. apply eq_None_not_Some. intros [l Hl].
      by destruct (co_leases _ _ _ (mi_cells _ Hi _ _ Hk) _ _ Hl) as (_ & _ & _ & _ & ?).
    + intros k. cbn. case_decide as Hk; [subst k; by rewrite lookup_insert_eq, Hc|by rewrite lookup_insert_ne].
  - destruct H as [-> H]. split; [|done]. split; [done|]. intros (cell & Hc & Hmode & Hno). rewrite Hc in H.
    destruct H as [[? _]|(? & ? & _)]; naive_solver.
Qed.

(** releasing a cell lease.  It succeeds exactly when that very lease is
    active in its cell, of the cell's generation and, if a step is given, not
    expired; it then removes that lease and nothing else.  Otherwise the
    manager is unchanged. *)
Theorem release_resource_lease_correct s lease current_step :
  rm_reachable s →
  ∃ result s', release_resource_lease_checked lease current_step s = Some (result, s') ∧
    (result = Ok tt ↔ lease_active s lease current_step) ∧
    (result = Ok tt → ∀ k c', rm_resource_cells s' !! k = Some c' →
       ∃ c, rm_resource_cells s !! k = Some c ∧ ce_descriptor c' = ce_descriptor c ∧
         ∀ id, ce_active_leases c' !! id =
           if decide (k = rl_cell_id lease ∧ id = rl_lease_id lease) then None else ce_active_leases c !! id) ∧
    (result ≠ Ok tt → s' = s).
Proof.
  intros Hi%rm_reachable_inv.
  destruct (release_resource_lease_spec s lease current_step Hi) as (result & s' & Hrun & Hi' & H).
  exists result, s'. split; [done|]. destruct result as [[]|e].
  - destruct H as [Hact (cell & Hc & ->)]. split_and!; [by split|intros _|done]. intros k c'. cbn.
    intros [[<- <-]|[Hne Hk]]%lookup_insert_Some.
    + exists cell. split_and!; try done. intros id. cbn. case_decide as Hd.
      * destruct Hd as [_ ->]. apply lookup_delete_eq.
      * apply lookup_delete_ne. naive_solver.
    + exists c'. split_and!; try done. intros id. rewrite decide_False by naive_solver. done.
  - destruct H as [-> Hn]. split_and!; try done.
Qed.

(** expired cell leases are reclaimed exactly.  Reclaiming returns the
    active leases that have expired, ordered by lease id; every cell keeps
    exactly its leases that have not. *)
Theorem reclaim_resource_leases_exact s step :
  rm_reachable s →
  ∃ reclaimed s', reclaim_expired_resource_leases step s = Some (reclaimed, s') ∧
    StronglySorted String.le (rl_lease_id <$> reclaimed) ∧
    (∀ l, l ∈ reclaimed ↔ ∃ cell, rm_resource_cells s !! rl_cell_id l = Some cell ∧
       ce_active_leases cell !! rl_lease_id l = Some l ∧ resource_lease_expired l step = true) ∧
    (∀ k c', rm_resource_cells s' !! k = Some c' ↔ ∃ c, rm_resource_cells s !! k = Some c ∧
       c' = MkResourceCellEntry (ce_descriptor c)
              (filter (λ e, resource_lease_expired e.2 step = false) (ce_active_leases c))).
Proof.
  intros Hi%rm_reachable_inv. eexists _, _. split; [unfold reclaim_expired_resource_leases; reflexivity|].
  split_and!.
  - apply sort_by_str_sorted.
  - intros l. rewrite elem_of_sort_by_str, elem_of_expired_leases. split.
    + intros (k & c & id & Hc & Hl & He). destruct (co_leases _ _ _ (mi_cells _ Hi _ _ Hc) _ _ Hl) as (<- & <- & _).
      eauto.
    + intros (c & ? & ? & ?). by exists (rl_cell_id l), c, (rl_lease_id l).
  - intros k c'. cbn. rewrite lookup_fmap_Some. naive_solver.
Qed.

(** one writer at a time.  A write lease is granted exactly when the
    resource exists and has no writer; it is released exactly by the holder of
    the very token that was granted, before it expires when a step is given.
    Both leave the manager unchanged when they fail. *)
Theorem write_lease_correct s ref_id owner expires lease step :
  rm_reachable s → (id_next (rm_id_source s) < u64_max)%N →
  (∃ result s', acquire_write_lease ref_id owner expires s = Some (result, s') ∧
     (is_ok result = true ↔ ∃ e, rm_hub s !! ref_id = Some e ∧ re_writer e = None) ∧
     match result with
     | Ok granted => writer_active s' granted None ∧ tok_owner (xl_token granted) = owner ∧
         (∀ k, k ≠ ref_id → rm_hub s' !! k = rm_hub s !! k)
     | Err _ => s' = s
     end) ∧
  (∃ result s', release_write_lease_checked lease step s = Some (result, s') ∧
     (result = Ok tt ↔ writer_active s lease step) ∧
     (result = Ok tt → ∀ k, rm_hub s' !! k =
        if decide (k = tok_ref_id (xl_token lease))
        then (λ e, MkResourceEntry (re_descriptor e) None) <$> rm_hub s !! k else rm_hub s !! k) ∧
     (result ≠ Ok tt → s' = s)).
Proof.
  intros Hi%rm_reachable_inv Hmax. split.
  - destruct (acquire_write_lease_spec s ref_id owner expires Hi Hmax) as (result & s' & Hrun & Hi' & H).
    exists result, s'. split; [done|]. destruct result as [granted|e].
    + destruct H as (e & source & He & Hw & Href & ? & ? & ? & ? & ->). split; [split; [eauto|done]|].
      split_and!; [|done|intros k Hk; by apply lookup_insert_ne].
      split; [|done]. cbn. rewrite Href, lookup_insert_eq. eauto.
    + destruct H as [-> H]. split; [|done]. split; [done|]. intros (e' & He & Hw). rewrite He, Hw in H.
      by destruct H as [[? ?] _].
  - destruct (release_write_lease_spec s lease step Hi) as (result & s' & Hrun & Hi' & H).
    exists result, s'. split; [done|]. destruct result as [[]|e].
    + destruct H as [Hact (e & He & ->)]. split_and!; [by split| |done]. intros _ k. cbn.
      case_decide as Hk; [subst k; by rewrite lookup_insert_eq, He|by rewrite lookup_insert_ne].
    + destruct H as [-> Hn]. split_and!; try done.
Qed.

(** C37: an expired write lease locks its resource.  Once the writer's lease has
    expired, releasing it at the current step fails, every request for the
    write lease fails, and reclaiming expired leases does not touch the writer:
    no step-aware operation frees the resource. *)
Theorem expired_write_lease_stuck s ref_id entry token expires step owner expires' :
  rm_reachable s → rm_hub s !! ref_id = Some entry → re_writer entry = Some token →
  tok_expires_at_step token = Some expires → (expires ≤ step)%N →
  (∃ e, release_write_lease_at (MkExclusiveWriteLease token) step s = Some (Err e, s) ∧
     e_code e = ERR_RESOURCE_LEASE_EXPIRED) ∧
  (∃ e, acquire_write_lease ref_id owner expires' s = Some (Err e, s) ∧ e_code e = ERR_CAPABILITY_EXHAUSTED) ∧
  (∃ reclaimed s', reclaim_expired_resource_leases step s = Some (reclaimed, s') ∧ rm_hub s' = rm_hub s).
Proof.
  intros Hi%rm_reachable_inv He Hw Hexp Hle.
  destruct (eo_writer _ _ _ (mi_hub _ Hi _ _ He) _ Hw) as (Href & _ & _). split_and!.
  - unfold release_write_lease_at, release_write_lease_checked, bind, get. cbv zeta. cbn [xl_token].
    rewrite Href, He, Hexp. cbn. rewrite bool_decide_eq_true_2 by done. eexists. by split.
  - unfold acquire_write_lease, bind, get. rewrite He, Hw. eexists. by split.
  - eexists _, _. split; [unfold reclaim_expired_resource_leases; reflexivity|done].
Qed.

(** a plan receipt is synchronised in order and never backwards.  The
    descriptors applied are, for each reference the receipt mentions, the
    newest one (generation first, then version), ordered by reference; they are
    applied one by one until the first that may not be (an older descriptor, or
    one of another generation than a writer's lease); entries only get newer
    and keep their writer.  There is no rollback: what was applied before an
    error stays. *)
Theorem sync_plan_receipt_correct s receipt :
  rm_reachable s →
  StronglySorted String.le (rr_ref_id <$> receipt_descriptors receipt) ∧
  (∀ d, d ∈ receipt_descriptors receipt → d ∈ receipt_updates receipt ∧
     ∀ d', d' ∈ receipt_updates receipt → rr_ref_id d' = rr_ref_id d → no_newer d' d) ∧
  (∀ d, d ∈ receipt_updates receipt → ∃ d', d' ∈ receipt_descriptors receipt ∧ rr_ref_id d' = rr_ref_id d) ∧
  ∃ result s' applied rest, sync_plan_receipt receipt s = Some (result, s') ∧
    receipt_descriptors receipt = applied ++ rest ∧ rm_hub s' = foldl synced (rm_hub s) applied ∧
    hub_advances (rm_hub s) (rm_hub s') ∧
    match result with
    | Ok ds => ds = receipt_descriptors receipt ∧ rest = []
    | Err e => ∃ d rest', rest = d :: rest' ∧ ¬ sync_allowed s' d
    end.
Proof.
  intros Hi%rm_reachable_inv. destruct (merge_descriptors_latest (receipt_updates receipt)) as [Hm Hall].
  cbv zeta in Hm, Hall. unfold receipt_descriptors. set (m := foldl merge_descriptor ∅ (receipt_updates receipt)) in *.
  assert (∀ d, d ∈ snd <$> sort_by_str fst (map_to_list m) ↔ ∃ k, m !! k = Some d) as Hin.
  { intros d. rewrite list_elem_of_fmap. setoid_rewrite elem_of_sort_by_str. split.
    - intros ([k d'] & -> & Hk%elem_of_map_to_list). eauto.
    - intros [k Hk]. exists (k, d). by rewrite elem_of_map_to_list. }
  split_and!.
  - replace (rr_ref_id <$> (snd <$> sort_by_str fst (map_to_list m))) with (fst <$> sort_by_str fst (map_to_list m)).
    + apply sort_by_str_sorted.
    + rewrite <-list_fmap_compose. apply list_fmap_ext. intros i [k d] Hk%list_elem_of_lookup_2.
      apply elem_of_sort_by_str, elem_of_map_to_list in Hk. cbn. by destruct (Hm k d Hk) as (_ & ? & _).
  - intros d (k & Hk)%Hin. destruct (Hm k d Hk) as (? & <- & ?). done.
  - intros d [d' Hd']%Hall. exists d'. split; [apply Hin; eauto|]. by destruct (Hm _ _ Hd') as (_ & ? & _).
  - destruct (sync_descriptors_spec (snd <$> sort_by_str fst (map_to_list m)) s Hi)
      as (result & s' & Hrun & applied & rest & _ & Hl & -> & Hadv & Hres).
    exists result, (s <| rm_hub := foldl synced (rm_hub s) applied |>), applied, rest. split_and!; try done.
    destruct result; [done|]. by destruct Hres as [? _].
Qed.

(** values round-trip.  A value that serialises is packed inline when it
    fits the inline limit; otherwise the reference returned reads back that
    value, in the manager it was packed in and after any further operations. *)
Theorem packed_value_roundtrip s schema value size :
  rm_reachable s → (id_next (rm_id_source s) < u64_max)%N → to_vec_len value = Ok size →
  ∃ packed s', pack_value schema value s = Some (Ok packed, s') ∧
    match packed with
    | PackedInline v => v = ResourceInline schema value 1 ∧ (size ≤ rm_inline_value_max_bytes s)%N ∧ s' = s
    | PackedValueRef v => (rm_inline_value_max_bytes s < size)%N ∧ vr_schema v = schema ∧ vr_size_hint v = Some size ∧
        ∀ s'', rm_steps s' s'' → get_value s'' v = Ok value
    | PackedResource _ => False
    end.
Proof.
  intros Hi%rm_reachable_inv Hmax Hsize.
  destruct (pack_value_spec s schema value Hi Hmax) as (result & s' & Hrun & Hi' & H). rewrite Hsize in H.
  destruct result as [packed|e]; [|done]. exists packed, s'. split; [done|]. destruct packed as [v|v|v]; [naive_solver| |done].
  destruct H as (Hlt & Hv & Hnone & Hvals). split_and!; [done|by rewrite Hv|by rewrite Hv|].
  intros s'' [_ Hsub]%rm_steps_values; [|done]. unfold get_value.
  assert (rm_values s'' !! vr_ref_id v = Some (v, value)) as ->.
  { eapply lookup_weaken; [|exact Hsub]. rewrite Hvals. apply lookup_insert_eq. }
  by rewrite decide_False by auto.
Qed.

(** Whether a surface is in use, by looking at the tables directly. *)
Definition surface_in_use s (surface : ContractSurface) : Prop :=
  let id := cs_surface_id surface in
  match cs_kind surface with
  | SurfaceResourceSchema | SurfaceResourceProvider =>
      (∃ k e, rm_hub s !! k = Some e ∧ id ∈ entry_names e) ∨
      (∃ k c, rm_resource_cells s !! k = Some c ∧ ce_active_leases c ≠ ∅ ∧ id ∈ cell_names c)
  | SurfaceSchema => ∃ k v, rm_values s !! k = Some v ∧ (id = "schema:" +:+ vr_schema v.1 ∨ id = vr_schema v.1)
  | SurfaceStream =>
      (∃ k e, rm_hub s !! k = Some e ∧ is_stream (rr_access (re_descriptor e)) = true ∧ id ∈ stream_names e) ∨
      (∃ k h, rm_occupancy_handles s !! k = Some h ∧ oh_surface_id h = id ∧ oh_kind h = HandleStream)
  | SurfaceSubscription => ∃ k h, rm_occupancy_handles s !! k = Some h ∧ oh_surface_id h = id ∧ oh_kind h = HandleSubscription
  | SurfaceTimer => ∃ k h, rm_occupancy_handles s !! k = Some h ∧ oh_surface_id h = id ∧ oh_kind h = HandleTimer
  | _ => False
  end.

Lemma occurrences_pos {A} names weight key (l : list A) :
  (0 < occurrences names weight key l)%N ↔ ∃ x, x ∈ l ∧ (0 < weight x)%N ∧ key ∈ names x.
Proof.
  assert (∀ ns : list string, (0 < len (filter (λ n, n = key) ns))%N ↔ key ∈ ns) as Hlen.
  { intros ns. induction ns as [|n ns IH]; [unfold len; cbn; split; [lia|set_solver]|].
    rewrite filter_cons. case_decide as Hn.
    - rewrite len_cons. split; [set_solver|lia].
    - rewrite IH. set_solver. }
  induction l as [|x l IH]; [unfold occurrences; cbn; split; [lia|set_solver]|].
  rewrite occurrences_cons. split.
  - intros H. destruct (decide (0 < weight x * len (filter (λ n, n = key) (names x)))%N) as [Hx|Hx].
    + exists x. split_and!; [set_solver|lia|]. apply Hlen. lia.
    + destruct (proj1 IH) as (y & ? & ? & ?); [lia|]. exists y. split_and!; [set_solver|done|done].
  - intros (y & [->|Hy]%elem_of_cons & Hw & Hk%Hlen); [lia|].
    assert (0 < occurrences names weight key l)%N; [|lia]. apply IH. exists y. by rewrite <-Hlen.
Qed.
Lemma so_is_zero_spec item :
  so_is_zero item = true ↔
  so_ready_tasks item = 0%N ∧ so_running_invocations item = 0%N ∧ so_resource_refs item = 0%N ∧
  so_state_refs item = 0%N ∧ so_active_leases item = 0%N ∧ so_open_streams item = 0%N ∧
  so_subscriptions item = 0%N ∧ so_timers item = 0%N ∧ so_effect_inflight item = 0%N.
Proof. unfold so_is_zero. rewrite !andb_true_iff, !bool_decide_eq_true. tauto. Qed.

Lemma elem_of_hub_entries s e : e ∈ hub_entries s ↔ ∃ k, rm_hub s !! k = Some e.
Proof.
  unfold hub_entries. rewrite list_elem_of_fmap. split.
  - intros ([k e'] & -> & Hk%elem_of_map_to_list). eauto.
  - intros [k Hk]. exists (k, e). by rewrite elem_of_map_to_list.
Qed.

Lemma elem_of_cell_entries s c : c ∈ cell_entries s ↔ ∃ k, rm_resource_cells s !! k = Some c.
Proof.
  unfold cell_entries. rewrite list_elem_of_fmap. split.
  - intros ([k e'] & -> & Hk%elem_of_map_to_list). eauto.
  - intros [k Hk]. exists (k, c). by rewrite elem_of_map_to_list.
Qed.

Lemma resource_counts_pos s key :
  (0 < refs_at (resource_surface_counts s) key ∨ 0 < leases_at (resource_surface_counts s) key)%N ↔
  (∃ k e, rm_hub s !! k = Some e ∧ key ∈ entry_names e) ∨
  (∃ k c, rm_resource_cells s !! k = Some c ∧ ce_active_leases c ≠ ∅ ∧ key ∈ cell_names c).
Proof.
  destruct (resource_surface_counts_at s key) as [-> ->].
  assert (∀ c, (0 < cell_weight c)%N ↔ ce_active_leases c ≠ ∅) as Hw.
  { intros c. unfold cell_weight. rewrite <-map_size_non_empty_iff. lia. }
  assert ((0 < occurrences entry_names (λ _, 1) key (hub_entries s))%N ↔
    ∃ k e, rm_hub s !! k = Some e ∧ key ∈ entry_names e) as He.
  { rewrite occurrences_pos. setoid_rewrite elem_of_hub_entries. naive_solver lia. }
  assert ((0 < occurrences cell_names cell_weight key (cell_entries s))%N ↔
    ∃ k c, rm_resource_cells s !! k = Some c ∧ ce_active_leases c ≠ ∅ ∧ key ∈ cell_names c) as Hc.
  { rewrite occurrences_pos. setoid_rewrite elem_of_cell_entries. setoid_rewrite Hw. naive_solver. }
  rewrite <-He, <-Hc.
  assert ((0 < occurrences entry_names writer_weight key (hub_entries s))%N →
    (0 < occurrences entry_names (λ _, 1) key (hub_entries s))%N) as Hsub; [|lia].
  rewrite !occurrences_pos. intros (x & ? & _ & ?). exists x. split_and!; [done|lia|done].
Qed.

Lemma handle_count_pos s key kind :
  (0 < len (filter (λ h, oh_surface_id h = key ∧ oh_kind h = kind) (snd <$> map_to_list (rm_occupancy_handles s))))%N ↔
  ∃ k h, rm_occupancy_handles s !! k = Some h ∧ oh_surface_id h = key ∧ oh_kind h = kind.
Proof.
  set (l := filter _ _). assert (∀ h, h ∈ l ↔ ∃ k, rm_occupancy_handles s !! k = Some h ∧ oh_surface_id h = key ∧ oh_kind h = kind) as Hl.
  { intros h. unfold l. rewrite list_elem_of_filter, list_elem_of_fmap. split.
    - intros ([? ?] & [k h'] & -> & Hk%elem_of_map_to_list). eauto.
    - intros (k & Hk & ? & ?). split; [done|]. exists (k, h). by rewrite elem_of_map_to_list. }
  unfold len. split.
  - destruct l as [|h l']; [cbn; lia|]. intros _. destruct (proj1 (Hl h)) as (k & ?); [set_solver|]. eauto.
  - intros (k & h & H). assert (h ∈ l) as Hin by (apply Hl; eauto). destruct l; [by apply not_elem_of_nil in Hin|cbn; lia].
Qed.

(** occupancy misses no use.  A surface among those asked about is reported
    exactly when some table of the manager uses it: a descriptor or a leased
    cell for resource schemas and providers, a stored value for schemas, an
    open stream or a registered handle for streams, subscriptions and timers. *)
Theorem resource_occupancy_exact s surfaces surface :
  surface ∈ surfaces →
  (occupancy_item s surface ∈ surface_occupancy s surfaces ↔ surface_in_use s surface) ∧
  so_surface_id (occupancy_item s surface) = cs_surface_id surface.
Proof.
  intros Hin. set (id := cs_surface_id surface).
  assert (occupancy_item s surface ∈ surface_occupancy s surfaces ↔ ¬ so_is_zero (occupancy_item s surface) = true) as ->.
  { unfold surface_occupancy. rewrite list_elem_of_filter, not_true_iff_false. split; [by intros [? _]|].
    intros ?. split; [done|]. apply list_elem_of_fmap. eauto. }
  rewrite so_is_zero_spec. unfold occupancy_item, surface_in_use. fold id.
  destruct (handle_surface_counts_at s id) as (H1 & H2 & H3). cbv zeta in H1, H2, H3.
  destruct (cs_kind surface); (split; [|by repeat case_match]); try (cbn; naive_solver lia).
  - cbn. set (f := λ v : string * (ValueRef * Value), id = "schema:" +:+ vr_schema v.2.1 ∨ id = vr_schema v.2.1).
    transitivity (0 < len (filter f (map_to_list (rm_values s))))%N; [unfold f; lia|]. unfold len. split.
    + destruct (filter f (map_to_list (rm_values s))) as [|[k v] l] eqn:El; [cbn; lia|]. intros _.
      assert ((k, v) ∈ filter f (map_to_list (rm_values s))) as Hv by (rewrite El; set_solver).
      apply list_elem_of_filter in Hv as [Hf Hv%elem_of_map_to_list]. eauto.
    + intros (k & v & Hv & Hf). assert ((k, v) ∈ filter f (map_to_list (rm_values s))) as Hx.
      { apply list_elem_of_filter. by rewrite elem_of_map_to_list. }
      destruct (filter f _); [by apply not_elem_of_nil in Hx|cbn; lia].
  - rewrite <-resource_counts_pos. unfold refs_at, leases_at.
    destruct (resource_surface_counts s !! id) as [[refs leases]|]; cbn; lia.
  - rewrite <-resource_counts_pos. unfold refs_at, leases_at.
    destruct (resource_surface_counts s !! id) as [[refs leases]|]; cbn; lia.
  - cbn -[N.add]. rewrite <-handle_count_pos, <-H1, stream_surface_counts_at.
    transitivity (0 < occurrences stream_names (λ _, 1%N) id
      (filter (λ e, is_stream (rr_access (re_descriptor e)) = true) (hub_entries s)) ∨
      0 < hc_streams (unwrap_or (handle_surface_counts s !! id) HandleCounts_default))%N.
    + destruct (handle_surface_counts s !! id); cbn; lia.
    + rewrite occurrences_pos. setoid_rewrite list_elem_of_filter. setoid_rewrite elem_of_hub_entries. naive_solver lia.
  - cbn. rewrite <-handle_count_pos, <-H2. destruct (handle_surface_counts s !! id); cbn; lia.
  - cbn. rewrite <-handle_count_pos, <-H3. destruct (handle_surface_counts s !! id); cbn; lia.
Qed.
End ResourceTheorems.
