(* ===== verification/TaskRecords.v ===== *)
(** * Task records

    The per-task record of the pool, its counters and the functions that only
    touch one record (task_pool.rs and the record helpers of
    task_pool/transitions.rs). *)

From S2P Require Import Prelude Contracts.

Section Records.
Context `{SJ : SerdeJson}.

(** [Arc<Task>] with [Arc::make_mut] is copy on write, so a record owns its task. *)
Record TaskRecord : Type := MkTaskRecord {
  r_task : Task;
  r_output : option Value;
  r_status : TaskStatus;
  r_claimed_by : option string;
  r_owner_runner : option RunnerId;
  r_lease : option TaskLease;
  r_failure : option RuntimeError;
  r_attempt_generation : N;
  r_ready_since_step : N
}.

Definition TaskRecord_eta (r : TaskRecord) : TaskRecord :=
  {| r_task := r_task r;
     r_output := r_output r;
     r_status := r_status r;
     r_claimed_by := r_claimed_by r;
     r_owner_runner := r_owner_runner r;
     r_lease := r_lease r;
     r_failure := r_failure r;
     r_attempt_generation := r_attempt_generation r;
     r_ready_since_step := r_ready_since_step r |}.
#[export] Instance set_r_task : Setter r_task := ltac:(derive_setter TaskRecord_eta r_task).
#[export] Instance set_r_output : Setter r_output := ltac:(derive_setter TaskRecord_eta r_output).
#[export] Instance set_r_status : Setter r_status := ltac:(derive_setter TaskRecord_eta r_status).
#[export] Instance set_r_claimed_by : Setter r_claimed_by := ltac:(derive_setter TaskRecord_eta r_claimed_by).
#[export] Instance set_r_owner_runner : Setter r_owner_runner := ltac:(derive_setter TaskRecord_eta r_owner_runner).
#[export] Instance set_r_lease : Setter r_lease := ltac:(derive_setter TaskRecord_eta r_lease).
#[export] Instance set_r_failure : Setter r_failure := ltac:(derive_setter TaskRecord_eta r_failure).
#[export] Instance set_r_attempt_generation : Setter r_attempt_generation := ltac:(derive_setter TaskRecord_eta r_attempt_generation).
#[export] Instance set_r_ready_since_step : Setter r_ready_since_step := ltac:(derive_setter TaskRecord_eta r_ready_since_step).

End Records.

Record TaskPoolStatistics : Type := MkTaskPoolStatistics {
  st_ready : N;
  st_running : N;
  st_waiting : N;
  st_blocked : N;
  st_completed : N;
  st_failed : N;
  st_cancelled : N;
  st_expired : N;
  st_dead_letter : N;
  st_submitted_total : N;
  st_attempts_started : N;
  st_cumulative_queue_steps : N;
  st_cumulative_execution_steps : N;
  st_stale_results_rejected : N;
  st_terminal_records_evicted : N
}.

Definition TaskPoolStatistics_eta (r : TaskPoolStatistics) : TaskPoolStatistics :=
  {| st_ready := st_ready r;
     st_running := st_running r;
     st_waiting := st_waiting r;
     st_blocked := st_blocked r;
     st_completed := st_completed r;
     st_failed := st_failed r;
     st_cancelled := st_cancelled r;
     st_expired := st_expired r;
     st_dead_letter := st_dead_letter r;
     st_submitted_total := st_submitted_total r;
     st_attempts_started := st_attempts_started r;
     st_cumulative_queue_steps := st_cumulative_queue_steps r;
     st_cumulative_execution_steps := st_cumulative_execution_steps r;
     st_stale_results_rejected := st_stale_results_rejected r;
     st_terminal_records_evicted := st_terminal_records_evicted r |}.
#[export] Instance set_st_ready : Setter st_ready := ltac:(derive_setter TaskPoolStatistics_eta st_ready).
#[export] Instance set_st_running : Setter st_running := ltac:(derive_setter TaskPoolStatistics_eta st_running).
#[export] Instance set_st_waiting : Setter st_waiting := ltac:(derive_setter TaskPoolStatistics_eta st_waiting).
#[export] Instance set_st_blocked : Setter st_blocked := ltac:(derive_setter TaskPoolStatistics_eta st_blocked).
#[export] Instance set_st_completed : Setter st_completed := ltac:(derive_setter TaskPoolStatistics_eta st_completed).
#[export] Instance set_st_failed : Setter st_failed := ltac:(derive_setter TaskPoolStatistics_eta st_failed).
#[export] Instance set_st_cancelled : Setter st_cancelled := ltac:(derive_setter TaskPoolStatistics_eta st_cancelled).
#[export] Instance set_st_expired : Setter st_expired := ltac:(derive_setter TaskPoolStatistics_eta st_expired).
#[export] Instance set_st_dead_letter : Setter st_dead_letter := ltac:(derive_setter TaskPoolStatistics_eta st_dead_letter).
#[export] Instance set_st_submitted_total : Setter st_submitted_total := ltac:(derive_setter TaskPoolStatistics_eta st_submitted_total).
#[export] Instance set_st_attempts_started : Setter st_attempts_started := ltac:(derive_setter TaskPoolStatistics_eta st_attempts_started).
#[export] Instance set_st_cumulative_queue_steps : Setter st_cumulative_queue_steps := ltac:(derive_setter TaskPoolStatistics_eta st_cumulative_queue_steps).
#[export] Instance set_st_cumulative_execution_steps : Setter st_cumulative_execution_steps := ltac:(derive_setter TaskPoolStatistics_eta st_cumulative_execution_steps).
#[export] Instance set_st_stale_results_rejected : Setter st_stale_results_rejected := ltac:(derive_setter TaskPoolStatistics_eta st_stale_results_rejected).
#[export] Instance set_st_terminal_records_evicted : Setter st_terminal_records_evicted := ltac:(derive_setter TaskPoolStatistics_eta st_terminal_records_evicted).

Definition TaskPoolStatistics_default : TaskPoolStatistics :=
  {| st_ready := 0;
     st_running := 0;
     st_waiting := 0;
     st_blocked := 0;
     st_completed := 0;
     st_failed := 0;
     st_cancelled := 0;
     st_expired := 0;
     st_dead_letter := 0;
     st_submitted_total := 0;
     st_attempts_started := 0;
     st_cumulative_queue_steps := 0;
     st_cumulative_execution_steps := 0;
     st_stale_results_rejected := 0;
     st_terminal_records_evicted := 0 |}.

(** [status_counter_mut] as a getter; [Created] is [unreachable!] there and
    both callers below filter it out. *)
Definition status_counter (status : TaskStatus) (s : TaskPoolStatistics) : N :=
  match status with
  | Created => 0
  | Ready => st_ready s
  | Running => st_running s
  | Waiting => st_waiting s
  | Blocked => st_blocked s
  | Completed => st_completed s
  | Failed => st_failed s
  | Cancelled => st_cancelled s
  | Expired => st_expired s
  | DeadLetter => st_dead_letter s
  end.

(** Assignment through [status_counter_mut]. *)
Definition update_status_counter (f : N → N) (status : TaskStatus) (s : TaskPoolStatistics) :
    TaskPoolStatistics :=
  match status with
  | Created => s
  | Ready => s <| st_ready ::= f |>
  | Running => s <| st_running ::= f |>
  | Waiting => s <| st_waiting ::= f |>
  | Blocked => s <| st_blocked ::= f |>
  | Completed => s <| st_completed ::= f |>
  | Failed => s <| st_failed ::= f |>
  | Cancelled => s <| st_cancelled ::= f |>
  | Expired => s <| st_expired ::= f |>
  | DeadLetter => s <| st_dead_letter ::= f |>
  end.

Definition not_created (status : TaskStatus) : bool := bool_decide (status ≠ Created).

(** [Option::filter] *)
Definition option_filter {A} (p : A → bool) (o : option A) : option A :=
  match o with Some a => if p a then Some a else None | None => None end.

Definition record_status_transition (from to : option TaskStatus) (s : TaskPoolStatistics) :
    TaskPoolStatistics :=
  let s := match option_filter not_created from with
           | Some from => update_status_counter (λ c, saturating_sub c 1) from s
           | None => s
           end in
  match option_filter not_created to with
  | Some to => update_status_counter (λ c, saturating_add c 1) to s
  | None => s
  end.

(** ** Record transitions (task_pool/transitions.rs) *)

Definition is_terminal_status (status : TaskStatus) : bool :=
  match status with
  | Completed | Failed | Cancelled | Expired | DeadLetter => true
  | _ => false
  end.

Definition task_lease_expired (lease : TaskLease) (current_step : N) : bool :=
  is_some_and (l_expires_at_step lease) (λ expires_at, (expires_at <=? current_step)%N).

Definition record_attempt_finished_value (lease : TaskLease) (current_step : N)
    (s : TaskPoolStatistics) : TaskPoolStatistics :=
  let elapsed := saturating_add (saturating_sub current_step (l_acquired_at_step lease)) 1 in
  s <| st_cumulative_execution_steps ::= λ c, saturating_add c elapsed |>.

Section RecordTransitions.
Context `{SJ : SerdeJson}.

Definition release_record_lease (record : TaskRecord) : TaskRecord :=
  record <| r_lease := None |>
         <| r_task ::= λ t, t <| t_lease_id := None |> |>
         <| r_claimed_by := None |>.

Definition clear_record_owner (record : TaskRecord) : TaskRecord :=
  record <| r_owner_runner := None |>.

Definition mark_terminal_record (status : TaskStatus) (failure : option RuntimeError)
    (record : TaskRecord) : TaskRecord :=
  (clear_record_owner (release_record_lease (record <| r_status := status |>)))
    <| r_failure := failure |>.

(** [Ok] when the record runs under exactly this lease and the lease has not
    expired; the error carries both leases as evidence. *)
Definition validate_record_lease (record : TaskRecord) (lease : TaskLease)
    (current_step : N) (action : string) : RuntimeResult unit :=
  let active := r_lease record in
  let expired := task_lease_expired lease current_step in
  let matches_active :=
    bool_decide (r_status record = Running)
    && bool_decide (r_claimed_by record = Some (l_runner_id lease))
    && is_some_and active (λ active, bool_decide (active = lease)) in
  if matches_active && negb expired then Ok tt
  else
    let error := runtime_error ERR_TASK_CLAIM_CONFLICT "runtime.task_pool"
                   ("task." +:+ action +:+ "." +:+ l_task_id lease) in
    let error := with_evidence "lease_id" (ScalarString (l_lease_id lease)) error in
    let error := with_evidence "executor_id" (ScalarString (l_executor_id lease)) error in
    let error := with_evidence "current_step" (ScalarInt (u64_as_i64 current_step)) error in
    let error :=
      match active with
      | Some active =>
          with_evidence "active_executor_id" (ScalarString (l_executor_id active))
            (with_evidence "active_lease_id" (ScalarString (l_lease_id active)) error)
      | None => error
      end in
    let error :=
      if expired then with_evidence "reason" (ScalarString "lease_expired") error
      else error in
    Err error.

(** ** Facts about single records *)

Lemma validate_record_lease_Ok record lease step action :
  validate_record_lease record lease step action = Ok tt ↔
  r_status record = Running ∧ r_claimed_by record = Some (l_runner_id lease) ∧
  r_lease record = Some lease ∧ task_lease_expired lease step = false.
Proof.
  unfold validate_record_lease.
  destruct (r_lease record) as [a|] eqn:Ha; simpl.
  - repeat case_bool_decide; destruct (task_lease_expired lease step) eqn:He;
      simpl; naive_solver.
  - rewrite andb_false_r. simpl. naive_solver.
Qed.

Lemma validate_record_lease_unit record lease step action u :
  validate_record_lease record lease step action = Ok u →
  validate_record_lease record lease step action = Ok tt.
Proof. by destruct u. Qed.

Lemma validate_record_lease_code record lease step action e :
  validate_record_lease record lease step action = Err e →
  e_code e = ERR_TASK_CLAIM_CONFLICT.
Proof.
  unfold validate_record_lease. intros H.
  destruct (_ && negb _) in H; [done|].
  destruct (r_lease record), (task_lease_expired lease step) in H; by inversion H.
Qed.

Lemma release_record_lease_task_id record :
  t_task_id (r_task (release_record_lease record)) = t_task_id (r_task record).
Proof. done. Qed.

Lemma mark_terminal_record_task_id status failure record :
  t_task_id (r_task (mark_terminal_record status failure record)) = t_task_id (r_task record).
Proof. done. Qed.
End RecordTransitions.

(** A counter after a transition. *)
Lemma status_counter_update f status status' s :
  status ≠ Created →
  status_counter status (update_status_counter f status' s) =
    if decide (status = status') then f (status_counter status s) else status_counter status s.
Proof. intros ?. destruct status, status'; simpl; done. Qed.

Lemma status_counter_attempt status lease step s :
  status_counter status (record_attempt_finished_value lease step s) = status_counter status s.
Proof. by destruct status. Qed.
