(* ===== verification/TaskIndexes.v ===== *)
(** * Incremental task indexes (task_pool/indexes.rs)

    Every index the pool keeps beside its task table, the update of all of
    them for one record, and the queries on them.  The second half states what
    the indexes of a task table are ([indexes_for]) and proves that updating
    them record by record computes it. *)

From S2P Require Import Prelude Contracts TaskRecords.

(** ** Data *)

Record ReadySelector : Type := MkReadySelector {
  rs_runner_hint : option string;
  rs_owner_runner : option string
}.

#[export] Instance ReadySelector_eq_dec : EqDecision ReadySelector.
Proof. solve_decision. Defined.
#[export] Instance ReadySelector_countable : Countable ReadySelector.
Proof.
  refine (inj_countable' (λ s, (rs_runner_hint s, rs_owner_runner s))
            (λ '(h, o), MkReadySelector h o) _).
  by intros [].
Defined.

Definition ReadySelector_default : ReadySelector :=
  {| rs_runner_hint := None; rs_owner_runner := None |}.

(** [rk_priority] is under [Reverse] in the source: the derived order compares
    it the other way round. *)
Record ReadyKey : Type := MkReadyKey {
  rk_ready_at_step : N;
  rk_priority : Z;
  rk_created_sequence : N;
  rk_task_id : TaskId
}.

#[export] Instance ReadyKey_eq_dec : EqDecision ReadyKey.
Proof. solve_decision. Defined.
#[export] Instance ReadyKey_countable : Countable ReadyKey.
Proof.
  refine (inj_countable'
            (λ k, (rk_ready_at_step k, rk_priority k, rk_created_sequence k, rk_task_id k))
            (λ '(s, p, c, t), MkReadyKey s p c t) _).
  by intros [].
Defined.

(** The derived lexicographic order. *)
Definition rk_le (a b : ReadyKey) : Prop :=
  (rk_ready_at_step a < rk_ready_at_step b)%N ∨
  rk_ready_at_step a = rk_ready_at_step b ∧
  ((rk_priority b < rk_priority a)%Z ∨
   rk_priority a = rk_priority b ∧
   ((rk_created_sequence a < rk_created_sequence b)%N ∨
    rk_created_sequence a = rk_created_sequence b ∧
    String.le (rk_task_id a) (rk_task_id b))).

#[export] Instance rk_le_dec : RelDecision rk_le.
Proof. unfold rk_le. intros a b. apply _. Defined.

Definition is_due (k : ReadyKey) (current_step : N) : bool :=
  (rk_ready_at_step k <=? current_step)%N.

Abbreviation ReadyQueues := (gmap string (gmap ReadySelector (gset ReadyKey))).
Abbreviation ReadyCounts := (gmap string (gmap ReadySelector (gmap (N * N) N))).
Abbreviation StepBuckets := (gmap N (gset TaskId)).

Record TaskIndexes : Type := MkTaskIndexes {
  ix_ready_by_protocol : ReadyQueues;
  ix_ready_counts_by_protocol : ReadyCounts;
  ix_ready_by_step : StepBuckets;
  ix_ready_with_expectations : gset TaskId;
  ix_wake_by_step : StepBuckets;
  ix_running_by_runner : gmap string (gset TaskId);
  ix_waiting_by_runner : gmap string (gset TaskId);
  ix_leases_by_expiry : StepBuckets
}.

Definition TaskIndexes_eta (r : TaskIndexes) : TaskIndexes :=
  {| ix_ready_by_protocol := ix_ready_by_protocol r;
     ix_ready_counts_by_protocol := ix_ready_counts_by_protocol r;
     ix_ready_by_step := ix_ready_by_step r;
     ix_ready_with_expectations := ix_ready_with_expectations r;
     ix_wake_by_step := ix_wake_by_step r;
     ix_running_by_runner := ix_running_by_runner r;
     ix_waiting_by_runner := ix_waiting_by_runner r;
     ix_leases_by_expiry := ix_leases_by_expiry r |}.
#[export] Instance set_ix_ready_by_protocol : Setter ix_ready_by_protocol := ltac:(derive_setter TaskIndexes_eta ix_ready_by_protocol).
#[export] Instance set_ix_ready_counts_by_protocol : Setter ix_ready_counts_by_protocol := ltac:(derive_setter TaskIndexes_eta ix_ready_counts_by_protocol).
#[export] Instance set_ix_ready_by_step : Setter ix_ready_by_step := ltac:(derive_setter TaskIndexes_eta ix_ready_by_step).
#[export] Instance set_ix_ready_with_expectations : Setter ix_ready_with_expectations := ltac:(derive_setter TaskIndexes_eta ix_ready_with_expectations).
#[export] Instance set_ix_wake_by_step : Setter ix_wake_by_step := ltac:(derive_setter TaskIndexes_eta ix_wake_by_step).
#[export] Instance set_ix_running_by_runner : Setter ix_running_by_runner := ltac:(derive_setter TaskIndexes_eta ix_running_by_runner).
#[export] Instance set_ix_waiting_by_runner : Setter ix_waiting_by_runner := ltac:(derive_setter TaskIndexes_eta ix_waiting_by_runner).
#[export] Instance set_ix_leases_by_expiry : Setter ix_leases_by_expiry := ltac:(derive_setter TaskIndexes_eta ix_leases_by_expiry).

Definition TaskIndexes_default : TaskIndexes :=
  {| ix_ready_by_protocol := ∅; ix_ready_counts_by_protocol := ∅; ix_ready_by_step := ∅;
     ix_ready_with_expectations := ∅; ix_wake_by_step := ∅; ix_running_by_runner := ∅;
     ix_waiting_by_runner := ∅; ix_leases_by_expiry := ∅ |}.

(** ** Updates of one index

    [map.entry(k).or_default()] followed by a mutation is
    [<[k := f (default (map !! k))]> map]; [get_mut(k).is_some_and(..)]
    mutates in place and then decides whether the emptied entry is removed. *)

Definition or_default {A} (d : A) (o : option A) : A := match o with Some a => a | None => d end.

Definition set_map_value `{Countable K, Countable V}
    (map : gmap K (gset V)) (key : K) (value : V) (present : bool) : gmap K (gset V) :=
  if present then <[key := {[value]} ∪ or_default ∅ (map !! key)]> map
  else
    match map !! key with
    | Some values =>
        let values := values ∖ {[value]} in
        let map := <[key := values]> map in
        if decide (values = ∅) then delete key map else map
    | None => map
    end.

Definition set_bucket (buckets : StepBuckets) (step : N) (task_id : TaskId) (present : bool) :
    StepBuckets :=
  if present then <[step := {[task_id]} ∪ or_default ∅ (buckets !! step)]> buckets
  else
    match buckets !! step with
    | Some tasks =>
        let tasks := tasks ∖ {[task_id]} in
        let buckets := <[step := tasks]> buckets in
        if decide (tasks = ∅) then delete step buckets else buckets
    | None => buckets
    end.

Definition set_value `{Countable V} (set : gset V) (value : V) (present : bool) : gset V :=
  if present then {[value]} ∪ set else set ∖ {[value]}.

Definition set_ready (index : ReadyQueues) (protocol_id : string) (selector : ReadySelector)
    (key : ReadyKey) (present : bool) : ReadyQueues :=
  if present then
    let by_selector := or_default ∅ (index !! protocol_id) in
    let queue := or_default ∅ (by_selector !! selector) in
    <[protocol_id := <[selector := {[key]} ∪ queue]> by_selector]> index
  else
    match index !! protocol_id with
    | None => index
    | Some by_selector =>
        let by_selector :=
          match by_selector !! selector with
          | None => by_selector
          | Some queue =>
              let queue := queue ∖ {[key]} in
              let by_selector := <[selector := queue]> by_selector in
              if decide (queue = ∅) then delete selector by_selector else by_selector
          end in
        let index := <[protocol_id := by_selector]> index in
        if decide (by_selector = ∅) then delete protocol_id index else index
    end.

Definition set_ready_count (index : ReadyCounts) (protocol_id : string)
    (selector : ReadySelector) (ready_at_step registry_generation : N) (present : bool) :
    ReadyCounts :=
  let bucket := (ready_at_step, registry_generation) in
  if present then
    let by_selector := or_default ∅ (index !! protocol_id) in
    let by_bucket := or_default ∅ (by_selector !! selector) in
    let count := or_default 0%N (by_bucket !! bucket) in
    <[protocol_id := <[selector := <[bucket := (count + 1)%N]> by_bucket]> by_selector]> index
  else
    match index !! protocol_id with
    | None => index
    | Some by_selector =>
        let by_selector :=
          match by_selector !! selector with
          | None => by_selector
          | Some by_bucket =>
              let by_bucket :=
                match by_bucket !! bucket with
                | None => by_bucket
                | Some count =>
                    let count := saturating_sub count 1 in
                    let by_bucket := <[bucket := count]> by_bucket in
                    if decide (count = 0%N) then delete bucket by_bucket else by_bucket
                end in
              let by_selector := <[selector := by_bucket]> by_selector in
              if decide (by_bucket = ∅) then delete selector by_selector else by_selector
          end in
        let index := <[protocol_id := by_selector]> index in
        if decide (by_selector = ∅) then delete protocol_id index else index
    end.

#[global] Arguments set_map_value : simpl never.
#[global] Arguments set_bucket : simpl never.
#[global] Arguments set_value : simpl never.
#[global] Arguments set_ready : simpl never.
#[global] Arguments set_ready_count : simpl never.

(** ** Updating every index for one record *)

Section Update.
Context `{SJ : SerdeJson}.

Definition selector_of (record : TaskRecord) : ReadySelector :=
  {| rs_runner_hint := t_runner_hint (r_task record);
     rs_owner_runner := r_owner_runner record |}.

Definition ready_at_step_of (record : TaskRecord) : N :=
  unwrap_or (t_ready_at_step (r_task record)) 0%N.

Definition ready_key_of (record : TaskRecord) : ReadyKey :=
  {| rk_ready_at_step := ready_at_step_of record;
     rk_priority := t_priority (r_task record);
     rk_created_sequence := t_created_sequence (r_task record);
     rk_task_id := t_task_id (r_task record) |}.

Definition update_wake (ix : TaskIndexes) (record : TaskRecord) (present : bool) : TaskIndexes :=
  match t_ready_at_step (r_task record) with
  | Some step =>
      ix <| ix_wake_by_step ::= λ b, set_bucket b step (t_task_id (r_task record)) present |>
  | None => ix
  end.

Definition update_record (ix : TaskIndexes) (record : TaskRecord) (present : bool) : TaskIndexes :=
  let task := r_task record in
  match r_status record with
  | Ready =>
      let selector := selector_of record in
      let ready_at_step := ready_at_step_of record in
      let ix := ix <| ix_ready_by_protocol ::= λ q,
                  set_ready q (t_protocol_id task) selector (ready_key_of record) present |> in
      let ix := ix <| ix_ready_counts_by_protocol ::= λ c,
                  set_ready_count c (t_protocol_id task) selector ready_at_step
                    (t_registry_generation task) present |> in
      let ix := match t_expected_versions task with
                | [] => ix
                | _ :: _ => ix <| ix_ready_with_expectations ::= λ s,
                              set_value s (t_task_id task) present |>
                end in
      match t_ready_at_step task with
      | Some step => ix <| ix_ready_by_step ::= λ b, set_bucket b step (t_task_id task) present |>
      | None => ix
      end
  | Running =>
      let ix := match r_claimed_by record with
                | Some runner_id => ix <| ix_running_by_runner ::= λ m,
                    set_map_value m runner_id (t_task_id task) present |>
                | None => ix
                end in
      match r_lease record ≫= l_expires_at_step with
      | Some step => ix <| ix_leases_by_expiry ::= λ b, set_bucket b step (t_task_id task) present |>
      | None => ix
      end
  | Waiting =>
      let ix := match r_owner_runner record with
                | Some runner_id => ix <| ix_waiting_by_runner ::= λ m,
                    set_map_value m runner_id (t_task_id task) present |>
                | None => ix
                end in
      update_wake ix record present
  | Blocked => update_wake ix record present
  | _ => ix
  end.

(** [rebuild_indexes]: every record of the table, in the order the table
    yields them. *)
Definition rebuild (tasks : gmap string TaskRecord) : TaskIndexes :=
  foldl (λ ix p, update_record ix p.2 true) TaskIndexes_default (map_to_list tasks).
End Update.

(** ** Queries *)

Definition build_ready_selectors (runner_id : string) : list ReadySelector :=
  [ ReadySelector_default;
    {| rs_runner_hint := Some runner_id; rs_owner_runner := None |};
    {| rs_runner_hint := None; rs_owner_runner := Some runner_id |};
    {| rs_runner_hint := Some runner_id; rs_owner_runner := Some runner_id |} ].

Definition map_set_len {V} `{Countable V} (map : gmap string (gset V)) (key : string) : N :=
  match map !! key with Some s => N.of_nat (size s) | None => 0%N end.

(** The smallest bucket strictly after [current_step]. *)
Definition next_bucket_after (buckets : StepBuckets) (current_step : N) : option N :=
  head (filter (λ step, (current_step < step)%N) (btree_to_list buckets).*1).

(** [split_off(current_step + 1)] (everything at [u64::MAX]): the buckets that
    stay and the due entries in bucket order, each bucket in id order. *)
Definition take_due_buckets (buckets : StepBuckets) (current_step : N) :
    list (TaskId * N) * StepBuckets :=
  let due := if decide (current_step = u64_max) then buckets
             else filter (λ p, (p.1 < current_step + 1)%N) buckets in
  let rest := if decide (current_step = u64_max) then ∅
              else filter (λ p, ¬ (p.1 < current_step + 1)%N) buckets in
  (flat_map (λ '(step, ids), (λ id, (id, step)) <$> btree_elements ids) (btree_to_list due), rest).

#[global] Arguments take_due_buckets : simpl never.

(** [next_required_step_after] *)
Definition min_step (a b : option N) : option N :=
  match a, b with
  | Some x, Some y => Some (N.min x y)
  | Some x, None => Some x
  | None, b => b
  end.

Definition ix_next_required_step_after (ix : TaskIndexes) (current_step : N) : option N :=
  min_step (next_bucket_after (ix_ready_by_step ix) current_step)
    (min_step (next_bucket_after (ix_wake_by_step ix) current_step)
       (next_bucket_after (ix_leases_by_expiry ix) current_step)).
