(* ===== verification/IndexFacts.v ===== *)
(** * What the indexes of a task table are

    [indexes_for tasks pw pl ix]: [ix] holds exactly the entries the records of
    [tasks] contribute and no empty bucket.  [pw] and [pl] are the tasks whose
    wake and lease entries have been taken out of their buckets and are still
    to be processed (both empty between operations).  Inserting and removing a
    record preserves it, [rebuild] establishes it, and it determines [ix]. *)

From S2P Require Import Prelude Contracts TaskRecords TaskIndexes.

(** ** Bucket maps as sets of pairs *)

Lemma ex_Some_eq {A} (a : A) (P : A → Prop) : (∃ b, Some a = Some b ∧ P b) ↔ P a.
Proof. naive_solver. Qed.

Lemma ex_None_eq {A} (P : A → Prop) : (∃ b, @None A = Some b ∧ P b) ↔ False.
Proof. naive_solver. Qed.

Section Buckets.
Context `{Countable K, Countable V}.
Implicit Types m : gmap K (gset V).

Definition bucket_mem m (x : K * V) : Prop := ∃ s, m !! x.1 = Some s ∧ x.2 ∈ s.
Definition no_empty m : Prop := ∀ k, m !! k ≠ Some ∅.

Lemma bucket_mem_empty x : ¬ bucket_mem (∅ : gmap K (gset V)) x.
Proof. intros (s & Hs & _). by rewrite lookup_empty in Hs. Qed.

Lemma no_empty_empty : no_empty (∅ : gmap K (gset V)).
Proof. intros k. by rewrite lookup_empty. Qed.

(** A map without empty buckets is determined by its pairs. *)
Lemma buckets_ext m1 m2 :
  no_empty m1 → no_empty m2 → (∀ x, bucket_mem m1 x ↔ bucket_mem m2 x) → m1 = m2.
Proof.
  intros H1 H2 Hx. apply map_eq. intros k.
  assert (∀ m m', no_empty m → (∀ x, bucket_mem m x → bucket_mem m' x) →
            is_Some (m !! k) → is_Some (m' !! k)) as Hdom.
  { intros m m' Hm Hsub [s Hs].
    destruct (set_choose_L s) as [v Hv]; [intros ->; by apply (Hm k)|].
    destruct (Hsub (k, v)) as (s' & Hs' & _); [by exists s|]. by exists s'. }
  destruct (m1 !! k) as [s1|] eqn:E1, (m2 !! k) as [s2|] eqn:E2.
  - f_equal. apply set_eq. intros v. specialize (Hx (k, v)).
    unfold bucket_mem in Hx. simpl in Hx. rewrite E1, E2 in Hx. naive_solver.
  - destruct (Hdom m1 m2) as [? ?]; naive_solver.
  - destruct (Hdom m2 m1) as [? ?]; naive_solver.
  - done.
Qed.

Lemma set_map_value_true m k v x :
  bucket_mem (set_map_value m k v true) x ↔ bucket_mem m x ∨ x = (k, v).
Proof.
  destruct x as [k' v']. unfold bucket_mem, set_map_value. simpl.
  destruct (decide (k = k')) as [->|Hk].
  - rewrite lookup_insert_eq, ex_Some_eq, pair_eq.
    destruct (m !! k') as [s|]; simpl; rewrite ?ex_Some_eq, ?ex_None_eq; set_solver.
  - rewrite lookup_insert_ne by done. naive_solver.
Qed.

Lemma set_map_value_false m k v x :
  bucket_mem (set_map_value m k v false) x ↔ bucket_mem m x ∧ x ≠ (k, v).
Proof.
  destruct x as [k' v']. unfold bucket_mem, set_map_value. simpl.
  destruct (decide (k = k')) as [->|Hk].
  - destruct (m !! k') as [s|] eqn:E; simpl; [case_decide as Hs|].
    + rewrite delete_insert_eq, lookup_delete_eq. split; [naive_solver|].
      intros [(s' & [= ->] & Hv) Hne]. assert (v' ∈ s' ∖ {[v]}) by set_solver. set_solver.
    + rewrite lookup_insert_eq, !ex_Some_eq, pair_eq. set_solver.
    + rewrite E. naive_solver.
  - destruct (m !! k) as [s|] eqn:E; simpl; [case_decide as Hs|].
    + rewrite delete_insert_eq, lookup_delete_ne by done. naive_solver.
    + rewrite lookup_insert_ne by done. naive_solver.
    + naive_solver.
Qed.

Lemma set_map_value_no_empty m k v present :
  no_empty m → no_empty (set_map_value m k v present).
Proof.
  intros Hm k'. unfold set_map_value. destruct present.
  - destruct (decide (k = k')) as [->|]; [rewrite lookup_insert_eq|by rewrite lookup_insert_ne].
    intros [=]. set_solver.
  - destruct (m !! k) as [s|] eqn:E; [|done]. simpl. case_decide as Hs.
    + rewrite delete_insert_eq. destruct (decide (k = k')) as [->|];
        [by rewrite lookup_delete_eq|by rewrite lookup_delete_ne].
    + destruct (decide (k = k')) as [->|];
        [rewrite lookup_insert_eq; congruence|by rewrite lookup_insert_ne].
Qed.

Lemma set_map_value_mem m k v present x :
  bucket_mem (set_map_value m k v present) x ↔
  if present then bucket_mem m x ∨ x = (k, v) else bucket_mem m x ∧ x ≠ (k, v).
Proof. destruct present; [apply set_map_value_true|apply set_map_value_false]. Qed.

Lemma set_map_value_false_empty m k v :
  no_empty m → set_map_value m k v false = ∅ ↔ ∀ x, bucket_mem m x → x = (k, v).
Proof.
  intros Hm. split.
  - intros He x Hx. destruct (decide (x = (k, v))) as [|Hne]; [done|].
    destruct (bucket_mem_empty x). rewrite <-He. by apply set_map_value_false.
  - intros Hall. apply buckets_ext.
    + by apply set_map_value_no_empty.
    + apply no_empty_empty.
    + intros x. rewrite set_map_value_false. split; [naive_solver|].
      intros Hx. by apply bucket_mem_empty in Hx.
Qed.
End Buckets.

Lemma set_bucket_map_value b step id present :
  set_bucket b step id present = set_map_value b step id present.
Proof. done. Qed.

Lemma set_value_mem `{Countable V} (s : gset V) v present x :
  x ∈ set_value s v present ↔ if present then x ∈ s ∨ x = v else x ∈ s ∧ x ≠ v.
Proof. unfold set_value. destruct present; set_solver. Qed.

(** ** The ready queues: two levels of buckets *)

Definition ready_mem (q : ReadyQueues) (x : string * (ReadySelector * ReadyKey)) : Prop :=
  ∃ bs, q !! x.1 = Some bs ∧ bucket_mem bs x.2.

Definition ready_no_empty (q : ReadyQueues) : Prop :=
  ∀ p bs, q !! p = Some bs → bs ≠ ∅ ∧ no_empty bs.

Lemma no_empty_inhabited `{Countable K, Countable V} (m : gmap K (gset V)) :
  no_empty m → m ≠ ∅ → ∃ x, bucket_mem m x.
Proof.
  intros Hm Hne. destruct (map_choose m) as (k & s & Hs); [done|].
  destruct (set_choose_L s) as [v Hv]; [intros ->; by apply (Hm k)|].
  exists (k, v). by exists s.
Qed.

Lemma ready_ext q1 q2 :
  ready_no_empty q1 → ready_no_empty q2 → (∀ x, ready_mem q1 x ↔ ready_mem q2 x) → q1 = q2.
Proof.
  intros H1 H2 Hx. apply map_eq. intros p.
  assert (∀ q q', ready_no_empty q → (∀ x, ready_mem q x → ready_mem q' x) →
            is_Some (q !! p) → is_Some (q' !! p)) as Hdom.
  { intros q q' Hq Hsub [bs Hbs]. destruct (Hq _ _ Hbs) as [Hne Hn].
    destruct (no_empty_inhabited bs Hn Hne) as [y Hy].
    destruct (Hsub (p, y)) as (bs' & Hbs' & _); [by exists bs|]. by exists bs'. }
  destruct (q1 !! p) as [b1|] eqn:E1, (q2 !! p) as [b2|] eqn:E2.
  - f_equal. apply buckets_ext; [by eapply H1|by eapply H2|]. intros y.
    specialize (Hx (p, y)). unfold ready_mem in Hx. simpl in Hx. rewrite E1, E2 in Hx.
    naive_solver.
  - destruct (Hdom q1 q2) as [? ?]; naive_solver.
  - destruct (Hdom q2 q1) as [? ?]; naive_solver.
  - done.
Qed.

Lemma set_ready_true_unfold q p sel key :
  set_ready q p sel key true =
  <[p := set_map_value (or_default ∅ (q !! p)) sel key true]> q.
Proof. done. Qed.

Lemma set_ready_false_unfold q p sel key :
  set_ready q p sel key false =
  match q !! p with
  | None => q
  | Some bs => let bs := set_map_value bs sel key false in
               let q := <[p := bs]> q in
               if decide (bs = ∅) then delete p q else q
  end.
Proof. done. Qed.

Lemma set_ready_mem q p sel key present x :
  ready_no_empty q →
  ready_mem (set_ready q p sel key present) x ↔
  if present then ready_mem q x ∨ x = (p, (sel, key)) else ready_mem q x ∧ x ≠ (p, (sel, key)).
Proof.
  intros Hq. destruct x as [p' y]. destruct present.
  - rewrite set_ready_true_unfold. unfold ready_mem. simpl.
    destruct (decide (p = p')) as [->|Hp].
    + rewrite lookup_insert_eq. split.
      * intros (? & [= <-] & Hy). apply set_map_value_true in Hy as [Hy|Hy]; [|naive_solver].
        destruct (q !! p'); [naive_solver|]. by apply bucket_mem_empty in Hy.
      * intros Hy. eexists; split; [done|]. apply set_map_value_true.
        destruct Hy as [(bs & -> & Hy)|Hy]; naive_solver.
    + rewrite lookup_insert_ne by done. naive_solver.
  - rewrite set_ready_false_unfold. unfold ready_mem. simpl.
    destruct (q !! p) as [bs|] eqn:E.
    2:{ destruct (decide (p = p')) as [->|]; naive_solver. }
    destruct (Hq _ _ E) as [_ Hn]. simpl. case_decide as Hbs.
    + rewrite delete_insert_eq. destruct (decide (p = p')) as [->|Hp].
      * rewrite lookup_delete_eq. split; [naive_solver|].
        intros [(bs' & ? & Hy) Hne]. simplify_eq.
        destruct (bucket_mem_empty y). rewrite <-Hbs. apply set_map_value_false. naive_solver.
      * rewrite lookup_delete_ne by done. naive_solver.
    + destruct (decide (p = p')) as [->|Hp].
      * rewrite lookup_insert_eq, E. split.
        -- intros (? & [= <-] & Hy). apply set_map_value_false in Hy as [Hy Hne]. naive_solver.
        -- intros [(? & [= <-] & Hy) Hne]. eexists; split; [done|].
           apply set_map_value_false. naive_solver.
      * rewrite lookup_insert_ne by done. naive_solver.
Qed.

Lemma set_ready_no_empty q p sel key present :
  ready_no_empty q → ready_no_empty (set_ready q p sel key present).
Proof.
  intros Hq p' bs'. destruct present.
  - rewrite set_ready_true_unfold. destruct (decide (p = p')) as [->|];
      [rewrite lookup_insert_eq|rewrite lookup_insert_ne by done; apply Hq].
    intros Hbs'. apply (inj Some) in Hbs' as <-. split.
    + intros He. apply (bucket_mem_empty (sel, key)). rewrite <-He.
      apply set_map_value_true. by right.
    + apply set_map_value_no_empty. destruct (q !! p') eqn:E; [by eapply Hq|apply no_empty_empty].
  - rewrite set_ready_false_unfold. destruct (q !! p) as [bs|] eqn:E; [|apply Hq].
    simpl. case_decide as Hbs.
    + rewrite delete_insert_eq. destruct (decide (p = p')) as [->|];
        [by rewrite lookup_delete_eq|rewrite lookup_delete_ne by done; apply Hq].
    + destruct (decide (p = p')) as [->|];
        [rewrite lookup_insert_eq|rewrite lookup_insert_ne by done; apply Hq].
      intros Hbs'. apply (inj Some) in Hbs' as <-. split; [done|]. apply set_map_value_no_empty. by eapply Hq.
Qed.

(** ** Nested counters

    A map of containers without empty entries is again such a container; the
    ready counts are three levels of it over a plain count. *)

Section Nested.
Context `{Countable K} {C Y : Type} `{Empty C} `{EqDecision C}.
Context (abs : C → Y → N) (wf : C → Prop).
Context (abs_empty : ∀ y, abs ∅ y = 0%N).
Context (wf_ext : ∀ c1 c2, wf c1 → wf c2 → (∀ y, abs c1 y = abs c2 y) → c1 = c2).
Context (wf_empty : wf ∅).

Definition nested_abs (m : gmap K C) (x : K * Y) : N := abs (or_default ∅ (m !! x.1)) x.2.
Definition nested_wf (m : gmap K C) : Prop := ∀ k c, m !! k = Some c → c ≠ ∅ ∧ wf c.

(** Writing an entry back, or removing it when it became empty. *)
Definition store (m : gmap K C) (k : K) (c : C) : gmap K C :=
  let m := <[k := c]> m in if decide (c = ∅) then delete k m else m.

Lemma nested_abs_empty x : nested_abs ∅ x = 0%N.
Proof. unfold nested_abs. by rewrite lookup_empty. Qed.

Lemma nested_wf_empty : nested_wf ∅.
Proof. intros k c. by rewrite lookup_empty. Qed.

Lemma nested_wf_entry m k : nested_wf m → wf (or_default ∅ (m !! k)).
Proof. intros Hm. destruct (m !! k) eqn:E; [by eapply Hm|done]. Qed.

Lemma nested_ext m1 m2 :
  nested_wf m1 → nested_wf m2 → (∀ x, nested_abs m1 x = nested_abs m2 x) → m1 = m2.
Proof.
  intros H1 H2 Hx. apply map_eq. intros k.
  assert (or_default ∅ (m1 !! k) = or_default ∅ (m2 !! k)) as He.
  { apply wf_ext; [by apply nested_wf_entry..|]. intros y. apply (Hx (k, y)). }
  destruct (m1 !! k) eqn:E1, (m2 !! k) eqn:E2; simpl in He; subst; try done.
  - by destruct (H1 _ _ E1).
  - by destruct (H2 _ _ E2).
Qed.

Lemma store_wf m k c : nested_wf m → wf c → nested_wf (store m k c).
Proof.
  intros Hm Hc k' c'. unfold store. case_decide as Hce.
  - rewrite delete_insert_eq. destruct (decide (k = k')) as [->|];
      [by rewrite lookup_delete_eq|rewrite lookup_delete_ne by done; apply Hm].
  - destruct (decide (k = k')) as [->|];
      [rewrite lookup_insert_eq; naive_solver|rewrite lookup_insert_ne by done; apply Hm].
Qed.

Lemma store_abs m k c x :
  nested_abs (store m k c) x = if decide (x.1 = k) then abs c x.2 else nested_abs m x.
Proof.
  unfold nested_abs, store. case_decide as Hce.
  - rewrite delete_insert_eq. case_decide as Hk.
    + subst k c. rewrite lookup_delete_eq. done.
    + by rewrite lookup_delete_ne.
  - case_decide as Hk; [subst k; by rewrite lookup_insert_eq|by rewrite lookup_insert_ne].
Qed.

Lemma store_empty m k : store m k ∅ = delete k m.
Proof. unfold store. rewrite decide_True by done. apply delete_insert_eq. Qed.

Lemma store_nonempty m k c : c ≠ ∅ → store m k c = <[k := c]> m.
Proof. intros ?. unfold store. by rewrite decide_False. Qed.

Lemma nested_nonempty (m : gmap K C) k y : abs (or_default ∅ (m !! k)) y ≠ 0%N → m ≠ ∅.
Proof. intros Hy ->. rewrite lookup_empty in Hy. simpl in Hy. by rewrite abs_empty in Hy. Qed.
End Nested.

(** The three levels of [ReadyCounts]. *)
#[local] Instance N_empty : Empty N := 0%N.
Definition unit_abs (n : N) (_ : unit) : N := n.
Definition bucket_count : gmap (N * N) N → (N * N) * unit → N := nested_abs unit_abs.
Definition selector_count : gmap ReadySelector (gmap (N * N) N) → _ → N := nested_abs bucket_count.
Definition protocol_count : ReadyCounts → _ → N := nested_abs selector_count.
Definition bucket_wf : gmap (N * N) N → Prop := nested_wf (λ _ : N, True).
Definition selector_wf : gmap ReadySelector (gmap (N * N) N) → Prop := nested_wf bucket_wf.
Definition protocol_wf : ReadyCounts → Prop := nested_wf selector_wf.

Lemma bucket_ext c1 c2 :
  bucket_wf c1 → bucket_wf c2 → (∀ y, bucket_count c1 y = bucket_count c2 y) → c1 = c2.
Proof. apply nested_ext; [|done]. intros ???? Hy. apply (Hy tt). Qed.

Lemma selector_ext c1 c2 :
  selector_wf c1 → selector_wf c2 → (∀ y, selector_count c1 y = selector_count c2 y) → c1 = c2.
Proof. apply nested_ext; [apply bucket_ext|apply nested_wf_empty]. Qed.

Lemma protocol_ext c1 c2 :
  protocol_wf c1 → protocol_wf c2 → (∀ y, protocol_count c1 y = protocol_count c2 y) → c1 = c2.
Proof. apply nested_ext; [apply selector_ext|apply nested_wf_empty]. Qed.

(** The count of one bucket, as the code reads it. *)
Definition ready_count (c : ReadyCounts) (x : string * (ReadySelector * (N * N))) : N :=
  protocol_count c (x.1, (x.2.1, (x.2.2, tt))).

Lemma protocol_ext' c1 c2 :
  protocol_wf c1 → protocol_wf c2 → (∀ x, ready_count c1 x = ready_count c2 x) → c1 = c2.
Proof.
  intros H1 H2 Hx. apply protocol_ext; [done..|].
  intros (p & sel & b & []). apply (Hx (p, (sel, b))).
Qed.

Definition bump (present : bool) (n : N) : N := if present then (n + 1)%N else (n - 1)%N.

Definition bump_bucket (bb : gmap (N * N) N) (b : N * N) (present : bool) : gmap (N * N) N :=
  store bb b (bump present (or_default 0%N (bb !! b))).
Definition bump_selector (bs : gmap ReadySelector (gmap (N * N) N))
    (sel : ReadySelector) (b : N * N) (present : bool) : gmap ReadySelector (gmap (N * N) N) :=
  store bs sel (bump_bucket (or_default ∅ (bs !! sel)) b present).
Definition bump_protocol (c : ReadyCounts) (p : string) (sel : ReadySelector) (b : N * N)
    (present : bool) : ReadyCounts :=
  store c p (bump_selector (or_default ∅ (c !! p)) sel b present).

Lemma bump_bucket_abs bb b present y :
  bucket_count (bump_bucket bb b present) y =
    if decide (y.1 = b) then bump present (bucket_count bb y) else bucket_count bb y.
Proof.
  unfold bucket_count, bump_bucket. rewrite store_abs by done.
  case_decide as E; [|done]. by subst b.
Qed.

Lemma bump_bucket_wf bb b present : bucket_wf bb → bucket_wf (bump_bucket bb b present).
Proof. intros. by apply store_wf. Qed.

Lemma bump_selector_abs bs sel b present y :
  selector_count (bump_selector bs sel b present) y =
    if decide (y.1 = sel ∧ y.2.1 = b) then bump present (selector_count bs y)
    else selector_count bs y.
Proof.
  unfold selector_count, bump_selector. rewrite store_abs by apply nested_abs_empty.
  rewrite bump_bucket_abs. destruct y as [sel' [b' u]]. simpl.
  repeat case_decide; simplify_eq; naive_solver.
Qed.

Lemma bump_selector_wf bs sel b present :
  selector_wf bs → selector_wf (bump_selector bs sel b present).
Proof.
  intros. apply store_wf; [done|]. apply bump_bucket_wf, nested_wf_entry; [|done].
  apply nested_wf_empty.
Qed.

Lemma bump_protocol_abs c p sel b present x :
  ready_count (bump_protocol c p sel b present) x =
    if decide (x = (p, (sel, b))) then bump present (ready_count c x) else ready_count c x.
Proof.
  unfold ready_count, protocol_count, bump_protocol. destruct x as [p' [sel' b']]. simpl.
  rewrite store_abs by apply nested_abs_empty. simpl.
  rewrite bump_selector_abs. simpl. repeat case_decide; simplify_eq; naive_solver.
Qed.

Lemma bump_protocol_wf c p sel b present :
  protocol_wf c → protocol_wf (bump_protocol c p sel b present).
Proof.
  intros. apply store_wf; [done|]. apply bump_selector_wf, nested_wf_entry; [|done].
  apply nested_wf_empty.
Qed.

Lemma bump_bucket_true bb b :
  bump_bucket bb b true = <[b := (or_default 0 (bb !! b) + 1)%N]> bb.
Proof. unfold bump_bucket. rewrite store_nonempty; [done|]. unfold bump, empty, N_empty. lia. Qed.

Lemma bump_bucket_nonempty bb b : bump_bucket bb b true ≠ ∅.
Proof. rewrite bump_bucket_true. apply insert_non_empty. Qed.

Lemma bump_selector_nonempty bs sel b : bump_selector bs sel b true ≠ ∅.
Proof.
  unfold bump_selector. rewrite store_nonempty by apply bump_bucket_nonempty.
  apply insert_non_empty.
Qed.

Lemma bump_bucket_false_absent bb b : bb !! b = None → bump_bucket bb b false = bb.
Proof.
  intros E. unfold bump_bucket. rewrite E.
  change (bump false (or_default 0%N None)) with (∅ : N).
  rewrite store_empty. by apply delete_id.
Qed.

Lemma bump_selector_false_absent bs sel b :
  bs !! sel = None → bump_selector bs sel b false = bs.
Proof.
  intros E. unfold bump_selector. rewrite E. simpl.
  rewrite bump_bucket_false_absent by apply lookup_empty. rewrite store_empty. by apply delete_id.
Qed.

(** [set_ready_count] counts one bucket up or down. *)
Lemma set_ready_count_bump c p sel step gen present :
  set_ready_count c p sel step gen present = bump_protocol c p sel (step, gen) present.
Proof.
  unfold set_ready_count. destruct present.
  - unfold bump_protocol. rewrite store_nonempty by apply bump_selector_nonempty.
    f_equal. unfold bump_selector. rewrite store_nonempty by apply bump_bucket_nonempty.
    f_equal. by rewrite bump_bucket_true.
  - unfold bump_protocol. destruct (c !! p) as [bs|] eqn:Ep; simpl.
    2:{ rewrite bump_selector_false_absent by apply lookup_empty.
        rewrite store_empty. symmetry. by apply delete_id. }
    assert (∀ bs', bs' = bump_selector bs sel (step, gen) false →
      (if decide (bs' = ∅) then delete p (<[p := bs']> c) else <[p := bs']> c) =
      store c p (bump_selector bs sel (step, gen) false)) as Hstore by (by intros ? ->).
    apply Hstore. clear Hstore.
    destruct (bs !! sel) as [bb|] eqn:Es; simpl.
    2:{ by rewrite bump_selector_false_absent. }
    unfold bump_selector. rewrite Es. simpl.
    assert (∀ bb', bb' = bump_bucket bb (step, gen) false →
      (if decide (bb' = ∅) then delete sel (<[sel := bb']> bs) else <[sel := bb']> bs) =
      store bs sel (bump_bucket bb (step, gen) false)) as Hstore by (by intros ? ->).
    apply Hstore. clear Hstore.
    destruct (bb !! (step, gen)) as [n|] eqn:Eb; [|by rewrite bump_bucket_false_absent].
    unfold bump_bucket. rewrite Eb. done.
Qed.

(** ** The entries one record contributes *)

Section Tracks.
Context `{SJ : SerdeJson}.
Implicit Types tasks : gmap string TaskRecord.
Implicit Types r : TaskRecord.

Definition rec_id r : TaskId := t_task_id (r_task r).

Definition ready_entry r : option (string * (ReadySelector * ReadyKey)) :=
  match r_status r with
  | Ready => Some (t_protocol_id (r_task r), (selector_of r, ready_key_of r))
  | _ => None
  end.
Definition count_entry r : option (string * (ReadySelector * (N * N))) :=
  match r_status r with
  | Ready => Some (t_protocol_id (r_task r),
                   (selector_of r, (ready_at_step_of r, t_registry_generation (r_task r))))
  | _ => None
  end.
Definition ready_step_entry r : option (N * TaskId) :=
  match r_status r with
  | Ready => (λ s, (s, rec_id r)) <$> t_ready_at_step (r_task r)
  | _ => None
  end.
Definition expect_entry r : option TaskId :=
  match r_status r, t_expected_versions (r_task r) with
  | Ready, _ :: _ => Some (rec_id r)
  | _, _ => None
  end.
Definition wake_entry r : option (N * TaskId) :=
  match r_status r with
  | Waiting | Blocked => (λ s, (s, rec_id r)) <$> t_ready_at_step (r_task r)
  | _ => None
  end.
Definition running_entry r : option (string * TaskId) :=
  match r_status r with
  | Running => (λ c, (c, rec_id r)) <$> r_claimed_by r
  | _ => None
  end.
Definition waiting_entry r : option (string * TaskId) :=
  match r_status r with
  | Waiting => (λ c, (c, rec_id r)) <$> r_owner_runner r
  | _ => None
  end.
Definition lease_entry r : option (N * TaskId) :=
  match r_status r with
  | Running => (λ s, (s, rec_id r)) <$> (r_lease r ≫= l_expires_at_step)
  | _ => None
  end.

(** An entry that was taken out of its bucket and is still to be processed. *)
Definition unless_pending {X} (pending : gset TaskId) (entry : TaskRecord → option X) r : option X :=
  if decide (rec_id r ∈ pending) then None else entry r.

(** [mem] holds exactly what the records of [tasks] contribute. *)
Definition tracks {X} (mem : X → Prop) (entry : TaskRecord → option X) tasks : Prop :=
  ∀ x, mem x ↔ ∃ id r, tasks !! id = Some r ∧ entry r = Some x.

Definition count_entries {X} `{EqDecision X} (entry : TaskRecord → option X) tasks (x : X) : N :=
  N.of_nat (size (filter (λ p : string * TaskRecord, entry p.2 = Some x) tasks)).

Definition tracks_count {X} `{EqDecision X} (cnt : X → N) (entry : TaskRecord → option X) tasks :
    Prop := ∀ x, cnt x = count_entries entry tasks x.

(** Adding or removing the entry [e]. *)
Definition upd {X} (present : bool) (P : Prop) (e : option X) (x : X) : Prop :=
  if present then P ∨ e = Some x else P ∧ e ≠ Some x.

#[export] Instance upd_proper {X} present : Proper (iff ==> eq ==> eq ==> iff) (@upd X present).
Proof. intros P Q HPQ e ? <- x ? <-. unfold upd. destruct present; by rewrite HPQ. Qed.

Lemma tracks_insert {X} (mem mem' : X → Prop) entry tasks id r :
  tasks !! id = None →
  (∀ x, mem' x ↔ upd true (mem x) (entry r) x) →
  tracks mem entry tasks → tracks mem' entry (<[id := r]> tasks).
Proof.
  intros Hid Hmem Ht x. rewrite Hmem, (Ht x). unfold upd. split.
  - intros [(id' & r' & Hl & He)|He].
    + exists id', r'. rewrite lookup_insert_ne by naive_solver. done.
    + exists id, r. by rewrite lookup_insert_eq.
  - intros (id' & r' & Hl & He). apply lookup_insert_Some in Hl as [[-> ->]|[Hne Hl]]; eauto.
Qed.

(** Removal through an entry function [e] that agrees with [entry] on the
    removed record and never names an entry of another record. *)
Lemma tracks_delete {X} (mem mem' : X → Prop) entry e tasks id r :
  tasks !! id = Some r →
  (∀ x, mem' x ↔ upd false (mem x) e x) →
  (∀ x, entry r = Some x → e = Some x) →
  (∀ id' r' x, id' ≠ id → tasks !! id' = Some r' → entry r' = Some x → e ≠ Some x) →
  tracks mem entry tasks → tracks mem' entry (delete id tasks).
Proof.
  intros Hid Hmem Hsame Hother Ht x. rewrite Hmem, (Ht x). unfold upd. split.
  - intros [(id' & r' & Hl & He) Hne]. exists id', r'.
    destruct (decide (id' = id)) as [->|]; [naive_solver|]. by rewrite lookup_delete_ne.
  - intros (id' & r' & Hl & He). apply lookup_delete_Some in Hl as [Hne Hl].
    split; [eauto|]. eapply Hother; eauto.
Qed.

Lemma tracks_empty {X} (mem : X → Prop) entry : (∀ x, ¬ mem x) → tracks mem entry ∅.
Proof. intros Hm x. split; [naive_solver|]. intros (? & ? & Hl & _). by rewrite lookup_empty in Hl. Qed.

Lemma tracks_ext {X} (mem : X → Prop) entry entry' tasks :
  (∀ id r, tasks !! id = Some r → entry r = entry' r) →
  tracks mem entry tasks → tracks mem entry' tasks.
Proof.
  intros He Ht x. rewrite (Ht x). split; intros (id & r & Hl & Hr); exists id, r;
    (split; [done|]); [rewrite <-(He id)|rewrite (He id)]; done.
Qed.

Lemma count_entries_insert {X} `{EqDecision X} (entry : TaskRecord → option X) tasks id r x :
  tasks !! id = None →
  count_entries entry (<[id := r]> tasks) x =
    (count_entries entry tasks x + if decide (entry r = Some x) then 1 else 0)%N.
Proof.
  intros Hid. unfold count_entries. case_decide as He.
  - rewrite map_filter_insert_True by done. rewrite map_size_insert_None; [lia|].
    by rewrite map_lookup_filter, Hid.
  - rewrite map_filter_insert_not' by naive_solver. lia.
Qed.

Lemma count_entries_delete {X} `{EqDecision X} (entry : TaskRecord → option X) tasks id r x :
  tasks !! id = Some r →
  count_entries entry (delete id tasks) x =
    (count_entries entry tasks x - if decide (entry r = Some x) then 1 else 0)%N.
Proof.
  intros Hid. rewrite <-(insert_delete_id tasks id r) at 2 by done.
  rewrite count_entries_insert by apply lookup_delete_eq. case_decide; lia.
Qed.

Lemma count_entries_bound {X} `{EqDecision X} (entry : TaskRecord → option X) tasks x :
  (count_entries entry tasks x ≤ N.of_nat (size tasks))%N.
Proof.
  unfold count_entries.
  enough (size (filter (λ p : string * TaskRecord, entry p.2 = Some x) tasks) ≤ size tasks) by lia.
  induction tasks as [|id r tasks Hid IH] using map_ind; [by rewrite map_filter_empty|].
  rewrite (map_size_insert_None id r tasks) by done.
  destruct (decide (entry r = Some x)).
  - rewrite map_filter_insert_True by done. rewrite map_size_insert_None; [lia|].
    by rewrite map_lookup_filter, Hid.
  - rewrite map_filter_insert_not' by naive_solver. lia.
Qed.

(** ** One record's update, index by index *)

Ltac index_cases :=
  intros; unfold update_record, update_wake, upd;
  match goal with r : TaskRecord |- _ => destruct (r_status r) end;
  cbn -[set_bucket set_map_value set_value set_ready set_ready_count];
  repeat case_match; cbn -[set_bucket set_map_value set_value set_ready set_ready_count] in *;
  simplify_eq/=.

Lemma update_wake_mem ix r present x :
  bucket_mem (ix_wake_by_step (update_record ix r present)) x ↔
  upd present (bucket_mem (ix_wake_by_step ix) x) (wake_entry r) x.
Proof.
  unfold wake_entry. index_cases;
    rewrite ?set_bucket_map_value, ?set_map_value_mem; naive_solver.
Qed.

Lemma update_lease_mem ix r present x :
  bucket_mem (ix_leases_by_expiry (update_record ix r present)) x ↔
  upd present (bucket_mem (ix_leases_by_expiry ix) x) (lease_entry r) x.
Proof.
  unfold lease_entry. index_cases;
    rewrite ?set_bucket_map_value, ?set_map_value_mem; naive_solver.
Qed.

Lemma update_ready_step_mem ix r present x :
  bucket_mem (ix_ready_by_step (update_record ix r present)) x ↔
  upd present (bucket_mem (ix_ready_by_step ix) x) (ready_step_entry r) x.
Proof.
  unfold ready_step_entry. index_cases;
    rewrite ?set_bucket_map_value, ?set_map_value_mem; naive_solver.
Qed.

Lemma update_running_mem ix r present x :
  bucket_mem (ix_running_by_runner (update_record ix r present)) x ↔
  upd present (bucket_mem (ix_running_by_runner ix) x) (running_entry r) x.
Proof.
  unfold running_entry. index_cases; rewrite ?set_map_value_mem; naive_solver.
Qed.

Lemma update_waiting_mem ix r present x :
  bucket_mem (ix_waiting_by_runner (update_record ix r present)) x ↔
  upd present (bucket_mem (ix_waiting_by_runner ix) x) (waiting_entry r) x.
Proof.
  unfold waiting_entry. index_cases; rewrite ?set_map_value_mem; naive_solver.
Qed.

Lemma update_expect_mem ix r present x :
  x ∈ ix_ready_with_expectations (update_record ix r present) ↔
  upd present (x ∈ ix_ready_with_expectations ix) (expect_entry r) x.
Proof.
  unfold expect_entry. index_cases; rewrite ?set_value_mem; naive_solver.
Qed.

Lemma update_ready_mem ix r present x :
  ready_no_empty (ix_ready_by_protocol ix) →
  ready_mem (ix_ready_by_protocol (update_record ix r present)) x ↔
  upd present (ready_mem (ix_ready_by_protocol ix) x) (ready_entry r) x.
Proof.
  unfold ready_entry. index_cases; rewrite ?set_ready_mem by done; naive_solver.
Qed.

Lemma update_ready_count ix r present x :
  ready_count (ix_ready_counts_by_protocol (update_record ix r present)) x =
  if decide (count_entry r = Some x)
  then bump present (ready_count (ix_ready_counts_by_protocol ix) x)
  else ready_count (ix_ready_counts_by_protocol ix) x.
Proof.
  unfold count_entry. index_cases;
    rewrite ?set_ready_count_bump, ?bump_protocol_abs; repeat case_decide; congruence.
Qed.

(** ** The indexes of a task table *)

Record no_empty_buckets (ix : TaskIndexes) : Prop := {
  ne_ready : ready_no_empty (ix_ready_by_protocol ix);
  ne_counts : protocol_wf (ix_ready_counts_by_protocol ix);
  ne_ready_step : no_empty (ix_ready_by_step ix);
  ne_wake : no_empty (ix_wake_by_step ix);
  ne_running : no_empty (ix_running_by_runner ix);
  ne_waiting : no_empty (ix_waiting_by_runner ix);
  ne_lease : no_empty (ix_leases_by_expiry ix)
}.

Record indexes_for tasks (pw pl : gset TaskId) (ix : TaskIndexes) : Prop := {
  if_wf : no_empty_buckets ix;
  if_ready : tracks (ready_mem (ix_ready_by_protocol ix)) ready_entry tasks;
  if_counts : tracks_count (ready_count (ix_ready_counts_by_protocol ix)) count_entry tasks;
  if_ready_step : tracks (bucket_mem (ix_ready_by_step ix)) ready_step_entry tasks;
  if_expect : tracks (.∈ ix_ready_with_expectations ix) expect_entry tasks;
  if_wake : tracks (bucket_mem (ix_wake_by_step ix)) (unless_pending pw wake_entry) tasks;
  if_running : tracks (bucket_mem (ix_running_by_runner ix)) running_entry tasks;
  if_waiting : tracks (bucket_mem (ix_waiting_by_runner ix)) waiting_entry tasks;
  if_lease : tracks (bucket_mem (ix_leases_by_expiry ix)) (unless_pending pl lease_entry) tasks
}.

(** Records are stored under their own task id. *)
Definition keyed tasks : Prop := ∀ id r, tasks !! id = Some r → rec_id r = id.

Lemma update_no_empty ix r present : no_empty_buckets ix → no_empty_buckets (update_record ix r present).
Proof.
  intros []. split; index_cases;
    rewrite ?set_bucket_map_value, ?set_ready_count_bump;
    auto using set_ready_no_empty, bump_protocol_wf, set_map_value_no_empty.
Qed.

Lemma indexes_for_empty pw pl : indexes_for ∅ pw pl TaskIndexes_default.
Proof.
  split; [split; first [by apply no_empty_empty | by apply nested_wf_empty | by intros ?? []]|..];
    try (apply tracks_empty; try apply bucket_mem_empty; set_solver).
  - apply tracks_empty. intros x (bs & Hbs & _). simpl in Hbs.
    by rewrite lookup_empty in Hbs.
  - intros x. unfold count_entries. rewrite map_filter_empty, map_size_empty.
    done.
Qed.

Lemma indexes_for_insert tasks pw pl ix id r :
  tasks !! id = None → rec_id r ∉ pw → rec_id r ∉ pl →
  indexes_for tasks pw pl ix →
  indexes_for (<[id := r]> tasks) pw pl (update_record ix r true).
Proof.
  intros Hid Hpw Hpl []. destruct if_wf0. split.
  - by apply update_no_empty.
  - eapply tracks_insert; [done| |done]. intros x. by apply update_ready_mem.
  - intros x. rewrite update_ready_count, if_counts0, count_entries_insert by done.
    unfold bump. case_decide; lia.
  - eapply tracks_insert; [done| |done]. intros x. apply update_ready_step_mem.
  - eapply tracks_insert; [done| |done]. intros x. apply update_expect_mem.
  - eapply tracks_insert; [done| |done]. intros x. unfold unless_pending.
    rewrite decide_False by done. apply update_wake_mem.
  - eapply tracks_insert; [done| |done]. intros x. apply update_running_mem.
  - eapply tracks_insert; [done| |done]. intros x. apply update_waiting_mem.
  - eapply tracks_insert; [done| |done]. intros x. unfold unless_pending.
    rewrite decide_False by done. apply update_lease_mem.
Qed.

(** An entry names the task that contributed it. *)
Definition names_task {X} (entry : TaskRecord → option X) : Prop :=
  ∀ r r' x, entry r = Some x → entry r' = Some x → rec_id r = rec_id r'.

Ltac solve_names :=
  intros r r' x; unfold ready_entry, ready_step_entry, expect_entry, wake_entry, running_entry,
    waiting_entry, lease_entry, ready_key_of, rec_id;
  intros H1 H2; repeat case_match; simplify_option_eq; congruence.

Lemma ready_entry_names : names_task ready_entry.
Proof. solve_names. Qed.
Lemma ready_step_entry_names : names_task ready_step_entry.
Proof. solve_names. Qed.
Lemma expect_entry_names : names_task expect_entry.
Proof. solve_names. Qed.
Lemma wake_entry_names : names_task wake_entry.
Proof. solve_names. Qed.
Lemma running_entry_names : names_task running_entry.
Proof. solve_names. Qed.
Lemma waiting_entry_names : names_task waiting_entry.
Proof. solve_names. Qed.
Lemma lease_entry_names : names_task lease_entry.
Proof. solve_names. Qed.

Lemma unless_pending_Some {X} pending (entry : TaskRecord → option X) r x :
  unless_pending pending entry r = Some x ↔ rec_id r ∉ pending ∧ entry r = Some x.
Proof. unfold unless_pending. case_decide; naive_solver. Qed.

Lemma tracks_delete_named {X} (mem mem' : X → Prop) entry pending tasks id r :
  keyed tasks → names_task entry → tasks !! id = Some r →
  (∀ x, mem' x ↔ upd false (mem x) (entry r) x) →
  tracks mem (unless_pending pending entry) tasks →
  tracks mem' (unless_pending pending entry) (delete id tasks).
Proof.
  intros Hk Hn Hid Hmem Ht. eapply (tracks_delete _ _ _ (entry r)); [done|done|..|done].
  - intros x Hx. by apply unless_pending_Some in Hx as [_ ?].
  - intros id' r' x Hne Hl Hx Hr. apply unless_pending_Some in Hx as [_ Hx].
    apply Hne. rewrite <-(Hk _ _ Hl), <-(Hk _ _ Hid). by eapply Hn.
Qed.

Lemma tracks_delete_plain {X} (mem mem' : X → Prop) entry tasks id r :
  keyed tasks → names_task entry → tasks !! id = Some r →
  (∀ x, mem' x ↔ upd false (mem x) (entry r) x) →
  tracks mem entry tasks → tracks mem' entry (delete id tasks).
Proof.
  intros Hk Hn Hid Hmem Ht.
  eapply (tracks_ext _ (unless_pending ∅ entry)).
  { intros. unfold unless_pending. by rewrite decide_False by set_solver. }
  eapply tracks_delete_named; [done..|].
  eapply tracks_ext; [|done]. intros. unfold unless_pending. by rewrite decide_False by set_solver.
Qed.

Lemma indexes_for_delete tasks pw pl ix id r :
  keyed tasks → tasks !! id = Some r →
  indexes_for tasks pw pl ix →
  indexes_for (delete id tasks) pw pl (update_record ix r false).
Proof.
  intros Hk Hid []. destruct if_wf0. split.
  - by apply update_no_empty.
  - eapply tracks_delete_plain; eauto using ready_entry_names. intros x. by apply update_ready_mem.
  - intros x. rewrite update_ready_count, if_counts0, (count_entries_delete _ _ _ r) by done.
    unfold bump. case_decide; lia.
  - eapply tracks_delete_plain; eauto using ready_step_entry_names, update_ready_step_mem.
  - eapply tracks_delete_plain; eauto using expect_entry_names. intros x. apply update_expect_mem.
  - eapply tracks_delete_named; eauto using wake_entry_names, update_wake_mem.
  - eapply tracks_delete_plain; eauto using running_entry_names, update_running_mem.
  - eapply tracks_delete_plain; eauto using waiting_entry_names, update_waiting_mem.
  - eapply tracks_delete_named; eauto using lease_entry_names, update_lease_mem.
Qed.

(** Which tasks are pending matters only for tasks of the table. *)
Lemma indexes_for_pending tasks pw pl pw' pl' ix :
  keyed tasks →
  (∀ id, is_Some (tasks !! id) → (id ∈ pw ↔ id ∈ pw') ∧ (id ∈ pl ↔ id ∈ pl')) →
  indexes_for tasks pw pl ix → indexes_for tasks pw' pl' ix.
Proof.
  intros Hk Hp []. split; try done.
  - eapply tracks_ext; [|done]. intros id r Hl. unfold unless_pending.
    rewrite (Hk _ _ Hl). destruct (Hp id) as [? _]; [by eexists|]. repeat case_decide; tauto.
  - eapply tracks_ext; [|done]. intros id r Hl. unfold unless_pending.
    rewrite (Hk _ _ Hl). destruct (Hp id) as [_ ?]; [by eexists|]. repeat case_decide; tauto.
Qed.

(** The table determines its indexes. *)
Lemma indexes_for_unique tasks pw pl ix ix' :
  indexes_for tasks pw pl ix → indexes_for tasks pw pl ix' → ix = ix'.
Proof.
  intros [[] H1 H2 H3 H4 H5 H6 H7 H8] [[] H1' H2' H3' H4' H5' H6' H7' H8'].
  destruct ix, ix'; simpl in *. f_equal.
  - apply ready_ext; [done..|]. intros x. by rewrite (H1 x), (H1' x).
  - apply protocol_ext'; [done..|]. intros x. by rewrite (H2 x), (H2' x).
  - apply buckets_ext; [done..|]. intros x. by rewrite (H3 x), (H3' x).
  - apply set_eq. intros x. by rewrite (H4 x), (H4' x).
  - apply buckets_ext; [done..|]. intros x. by rewrite (H5 x), (H5' x).
  - apply buckets_ext; [done..|]. intros x. by rewrite (H6 x), (H6' x).
  - apply buckets_ext; [done..|]. intros x. by rewrite (H7 x), (H7' x).
  - apply buckets_ext; [done..|]. intros x. by rewrite (H8 x), (H8' x).
Qed.

(** Rebuilding from scratch computes the indexes. *)
Lemma rebuild_list_for (l : list (string * TaskRecord)) tasks ix :
  NoDup l.*1 → (∀ id, id ∈ l.*1 → tasks !! id = None) →
  indexes_for tasks ∅ ∅ ix →
  indexes_for (list_to_map l ∪ tasks) ∅ ∅ (foldl (λ ix p, update_record ix p.2 true) ix l).
Proof.
  revert tasks ix. induction l as [|[id r] l IH]; intros tasks ix Hnd Hfresh Hix; simpl in *.
  - by rewrite map_empty_union.
  - apply NoDup_cons in Hnd as [Hnotin Hnd].
    rewrite <-insert_union_l, insert_union_r by (by apply not_elem_of_list_to_map_1).
    apply IH; [done|..].
    + intros id' Hid'. rewrite lookup_insert_ne by (intros ->; done). apply Hfresh. set_solver.
    + apply indexes_for_insert; [|set_solver..|done]. apply Hfresh. set_solver.
Qed.

Lemma rebuild_for tasks : indexes_for tasks ∅ ∅ (rebuild tasks).
Proof.
  unfold rebuild. pose proof (rebuild_list_for (map_to_list tasks) ∅ TaskIndexes_default) as H.
  rewrite list_to_map_to_list, map_union_empty in H. apply H.
  - apply NoDup_fst_map_to_list.
  - intros. apply lookup_empty.
  - apply indexes_for_empty.
Qed.
End Tracks.

#[export] Hint Resolve ready_entry_names ready_step_entry_names expect_entry_names
  wake_entry_names running_entry_names waiting_entry_names lease_entry_names : mutsuki.
