(* ===== verification/TaskPool.v ===== *)
(** * The task pool (task_pool.rs, task_pool/awaits.rs, task_pool/transitions.rs)

    The state of the pool and every operation on it except claiming: enqueue,
    indexed record mutation, terminal history with eviction, awaits between
    tasks, the lease-guarded transitions of a running task and the transitions
    the kernel forces. *)

From S2P Require Import Prelude Contracts TaskRecords TaskIndexes.

Definition TASK_LEASE_TTL_STEPS : N := 1.
Definition READY_SELECTOR_CACHE_CAPACITY : nat := 1024.

Record TaskHistoryRetention : Type := MkTaskHistoryRetention {
  hr_max_terminal_records : N;
  hr_max_evicted_task_ids : N
}.

Section Pool.
Context `{SJ : SerdeJson}.

Record TaskPool : Type := MkTaskPool {
  p_tasks : gmap TaskId TaskRecord;
  p_waits_by_child : gmap TaskId (list TaskAwait);
  p_waits_by_parent : gmap TaskId (list TaskAwait);
  p_indexes : TaskIndexes;
  p_ready_selector_cache : gmap string (list ReadySelector);
  p_payload_wire_bytes : gmap TaskId N;
  p_terminal_order : list TaskId;
  p_evicted_task_ids : gset TaskId;
  p_evicted_task_order : list TaskId;
  p_history_retention : option TaskHistoryRetention;
  p_next_sequence : N;
  p_statistics : TaskPoolStatistics
}.

Definition TaskPool_eta (r : TaskPool) : TaskPool :=
  {| p_tasks := p_tasks r;
     p_waits_by_child := p_waits_by_child r;
     p_waits_by_parent := p_waits_by_parent r;
     p_indexes := p_indexes r;
     p_ready_selector_cache := p_ready_selector_cache r;
     p_payload_wire_bytes := p_payload_wire_bytes r;
     p_terminal_order := p_terminal_order r;
     p_evicted_task_ids := p_evicted_task_ids r;
     p_evicted_task_order := p_evicted_task_order r;
     p_history_retention := p_history_retention r;
     p_next_sequence := p_next_sequence r;
     p_statistics := p_statistics r |}.
#[export] Instance set_p_tasks : Setter p_tasks := ltac:(derive_setter TaskPool_eta p_tasks).
#[export] Instance set_p_waits_by_child : Setter p_waits_by_child := ltac:(derive_setter TaskPool_eta p_waits_by_child).
#[export] Instance set_p_waits_by_parent : Setter p_waits_by_parent := ltac:(derive_setter TaskPool_eta p_waits_by_parent).
#[export] Instance set_p_indexes : Setter p_indexes := ltac:(derive_setter TaskPool_eta p_indexes).
#[export] Instance set_p_ready_selector_cache : Setter p_ready_selector_cache := ltac:(derive_setter TaskPool_eta p_ready_selector_cache).
#[export] Instance set_p_payload_wire_bytes : Setter p_payload_wire_bytes := ltac:(derive_setter TaskPool_eta p_payload_wire_bytes).
#[export] Instance set_p_terminal_order : Setter p_terminal_order := ltac:(derive_setter TaskPool_eta p_terminal_order).
#[export] Instance set_p_evicted_task_ids : Setter p_evicted_task_ids := ltac:(derive_setter TaskPool_eta p_evicted_task_ids).
#[export] Instance set_p_evicted_task_order : Setter p_evicted_task_order := ltac:(derive_setter TaskPool_eta p_evicted_task_order).
#[export] Instance set_p_history_retention : Setter p_history_retention := ltac:(derive_setter TaskPool_eta p_history_retention).
#[export] Instance set_p_next_sequence : Setter p_next_sequence := ltac:(derive_setter TaskPool_eta p_next_sequence).
#[export] Instance set_p_statistics : Setter p_statistics := ltac:(derive_setter TaskPool_eta p_statistics).

Definition TaskPool_default : TaskPool :=
  {| p_tasks := ∅; p_waits_by_child := ∅; p_waits_by_parent := ∅;
     p_indexes := TaskIndexes_default; p_ready_selector_cache := ∅;
     p_payload_wire_bytes := ∅; p_terminal_order := []; p_evicted_task_ids := ∅;
     p_evicted_task_order := []; p_history_retention := None; p_next_sequence := 0;
     p_statistics := TaskPoolStatistics_default |}.

(** ** Indexed records *)

Definition update_record_indexes (task_id : TaskId) (present : bool) (p : TaskPool) : TaskPool :=
  match p_tasks p !! task_id with
  | Some record => p <| p_indexes ::= λ ix, update_record ix record present |>
  | None => p
  end.

Definition insert_record_indexes (task_id : TaskId) : TaskPool → TaskPool :=
  update_record_indexes task_id true.
Definition remove_record_indexes (task_id : TaskId) : TaskPool → TaskPool :=
  update_record_indexes task_id false.

Definition rebuild_indexes (p : TaskPool) : TaskPool :=
  p <| p_indexes := rebuild (p_tasks p) |>.

(** The closure passed to [mutate_record_indexed] returns its result and the
    record it leaves behind. *)
Definition mutate_record_indexed {R} (task_id : TaskId)
    (mutate : TaskRecord → RuntimeResult R * TaskRecord) : M TaskPool (RuntimeResult R) :=
  let! p := get in
  match p_tasks p !! task_id with
  | None => ret (runtime_failure ERR_TASK_NOT_FOUND "runtime.task_pool" ("task." +:+ task_id))
  | Some _ =>
      modify (remove_record_indexes task_id) ;;!
      let! p := get in
      let! record := expect (p_tasks p !! task_id) in
      let result := mutate record in
      modify (λ p, p <| p_tasks ::= insert task_id result.2 |>) ;;!
      modify (insert_record_indexes task_id) ;;!
      ret result.1
  end.

(** A closure that validates first ([validate(..)?]) and then assigns. *)
Definition guarded {R} (check : TaskRecord → RuntimeResult R)
    (assign : TaskRecord → TaskRecord) (record : TaskRecord) : RuntimeResult R * TaskRecord :=
  match check record with
  | Ok a => (Ok a, assign record)
  | Err e => (Err e, record)
  end.

Definition modify_statistics (f : TaskPoolStatistics → TaskPoolStatistics) : M TaskPool unit :=
  modify (λ p, p <| p_statistics ::= f |>).

(** ** Enqueue *)

Definition contains_task_id (p : TaskPool) (task_id : TaskId) : bool :=
  bool_decide (is_Some (p_tasks p !! task_id)) || bool_decide (task_id ∈ p_evicted_task_ids p).

(** [CountingWriter] adds up, saturating, the sizes [serde_json::to_writer]
    writes. *)
Definition compact_json_len (v : Value) : Result string N :=
  match json_chunks v with
  | Ok chunks => Ok (foldl saturating_add 0%N chunks)
  | Err e => Err e
  end.

Definition new_record (task : Task) (current_step : N) : TaskRecord :=
  {| r_task := task; r_output := None; r_status := Ready; r_claimed_by := None;
     r_owner_runner := None; r_lease := None; r_failure := None;
     r_attempt_generation := 0; r_ready_since_step := current_step |}.

Definition enqueue_at (task : Task) (current_step : N) : M TaskPool (RuntimeResult TaskId) :=
  let task_id := t_task_id task in
  let! p := get in
  if contains_task_id p task_id then
    ret (runtime_failure ERR_TASK_DUPLICATE "runtime.task_pool" ("task.enqueue." +:+ task_id))
  else
    let! value := expect (as_value (t_payload task)) in
    match compact_json_len value with
    | Err error =>
        ret (runtime_failure ERR_RUNTIME_HOST_FAILED "runtime.task_pool"
               ("task.payload.encode." +:+ task_id +:+ ":" +:+ error))
    | Ok payload_wire_bytes =>
        let! next_sequence := u64_add (p_next_sequence p) 1 in
        modify (λ p, p <| p_next_sequence := next_sequence |>) ;;!
        let task := if decide (t_created_sequence task = 0%N)
                    then task <| t_created_sequence := next_sequence |> else task in
        modify (λ p, p <| p_tasks ::= insert task_id (new_record task current_step) |>) ;;!
        modify (λ p, p <| p_payload_wire_bytes ::= insert task_id payload_wire_bytes |>) ;;!
        modify (insert_record_indexes task_id) ;;!
        modify_statistics (λ s, s <| st_submitted_total ::= λ c, saturating_add c 1 |>) ;;!
        modify_statistics (record_status_transition None (Some Ready)) ;;!
        ret (Ok task_id)
    end.

Definition enqueue (task : Task) : M TaskPool (RuntimeResult TaskId) := enqueue_at task 0.

(** ** Queries *)

Definition pool_get (p : TaskPool) (task_id : TaskId) : option TaskRecord := p_tasks p !! task_id.

Definition created_sequence_of (record : TaskRecord) : N := t_created_sequence (r_task record).

Definition records (p : TaskPool) : list TaskRecord :=
  sort_by_key created_sequence_of (map_to_list (p_tasks p)).*2.

Definition running_records (p : TaskPool) : list TaskRecord :=
  sort_by_key created_sequence_of
    (filter (λ r, r_status r = Running) (map_to_list (p_tasks p)).*2).

Definition running_task_ids (p : TaskPool) (runner_id : string) : option (gset TaskId) :=
  ix_running_by_runner (p_indexes p) !! runner_id.
Definition waiting_task_ids (p : TaskPool) (runner_id : string) : option (gset TaskId) :=
  ix_waiting_by_runner (p_indexes p) !! runner_id.

(** [.into_iter().flatten()] over an optional [BTreeSet] *)
Definition flatten_ids (o : option (gset TaskId)) : list TaskId :=
  match o with Some s => btree_elements s | None => [] end.

Definition running_records_for_runner (p : TaskPool) (runner_id : string) : list TaskRecord :=
  sort_by_key created_sequence_of
    (omap (λ id, p_tasks p !! id) (flatten_ids (running_task_ids p runner_id))).
Definition waiting_records_for_runner (p : TaskPool) (runner_id : string) : list TaskRecord :=
  sort_by_key created_sequence_of
    (omap (λ id, p_tasks p !! id) (flatten_ids (waiting_task_ids p runner_id))).

Definition running_count_for_runner (p : TaskPool) (runner_id : string) : N :=
  map_set_len (ix_running_by_runner (p_indexes p)) runner_id.
Definition waiting_count_for_runner (p : TaskPool) (runner_id : string) : N :=
  map_set_len (ix_waiting_by_runner (p_indexes p)) runner_id.

Definition stale_expectation_task_ids (p : TaskPool) : list TaskId :=
  btree_elements (ix_ready_with_expectations (p_indexes p)).

Definition next_required_step_after (p : TaskPool) (current_step : N) : option N :=
  ix_next_required_step_after (p_indexes p) current_step.

Definition ready_count_stat (p : TaskPool) : N := st_ready (p_statistics p).
Definition running_count_stat (p : TaskPool) : N := st_running (p_statistics p).
Definition waiting_count_stat (p : TaskPool) : N := st_waiting (p_statistics p).

Definition retained_terminal_records (p : TaskPool) : N :=
  let s := p_statistics p in
  (st_completed s + st_failed s + st_cancelled s + st_expired s + st_dead_letter s)%N.

Definition evicted_task_id_count (p : TaskPool) : N := N.of_nat (size (p_evicted_task_ids p)).

Definition record_stale_result_rejection : M TaskPool unit :=
  modify_statistics (λ s, s <| st_stale_results_rejected ::= λ c, saturating_add c 1 |>).

Definition pool_record (p : TaskPool) (task_id : TaskId) : RuntimeResult TaskRecord :=
  match p_tasks p !! task_id with
  | Some record => Ok record
  | None => runtime_failure ERR_TASK_NOT_FOUND "runtime.task_pool" ("task." +:+ task_id)
  end.

(** ** Terminal history and eviction *)

(** [while order.len() > capacity { pop_front; remove from the set }] *)
Fixpoint trim_evicted (order : list TaskId) (ids : gset TaskId) (capacity : N) :
    list TaskId * gset TaskId :=
  match order with
  | [] => ([], ids)
  | expired :: rest =>
      if (capacity <? len order)%N then trim_evicted rest (ids ∖ {[expired]}) capacity
      else (order, ids)
  end.

Definition trim_evicted_task_ids (capacity : N) (p : TaskPool) : TaskPool :=
  let '(order, ids) := trim_evicted (p_evicted_task_order p) (p_evicted_task_ids p) capacity in
  p <| p_evicted_task_ids := ids |> <| p_evicted_task_order := order |>.

Definition remember_evicted_task_id (task_id : TaskId) (capacity : N) (p : TaskPool) : TaskPool :=
  if (capacity =? 0)%N then p
  else
    trim_evicted_task_ids capacity
      (p <| p_evicted_task_ids ::= λ s, {[task_id]} ∪ s |>
         <| p_evicted_task_order ::= λ l, l ++ [task_id] |>).

(** The tasks a wait still mentions are not evicted. *)
Definition history_protected (p : TaskPool) (task_id : TaskId) : bool :=
  bool_decide (is_Some (p_waits_by_child p !! task_id))
  || bool_decide (is_Some (p_waits_by_parent p !! task_id)).

(** Evicting one unprotected terminal task. *)
Definition evict_terminal_task (task_id : TaskId) (capacity : N) : M TaskPool unit :=
  let! p := get in
  let! record := expect (p_tasks p !! task_id) in
  modify (remove_record_indexes task_id) ;;!
  modify (λ p, p <| p_tasks ::= delete task_id |>) ;;!
  modify (λ p, p <| p_payload_wire_bytes ::= delete task_id |>) ;;!
  modify_statistics (record_status_transition (Some (r_status record)) None) ;;!
  modify_statistics (λ s, s <| st_terminal_records_evicted ::= λ c, saturating_add c 1 |>) ;;!
  modify (remember_evicted_task_id task_id capacity).

(** The [while] of [compact_terminal_history]; running out of fuel is [None],
    like a panic, and is proved not to happen. *)
Fixpoint compact_loop (fuel : nat) (retention : TaskHistoryRetention) (protected_examined : N) :
    M TaskPool unit :=
  match fuel with
  | O => panic
  | S fuel =>
      let! p := get in
      if (hr_max_terminal_records retention <? len (p_terminal_order p))%N
         && (protected_examined <? len (p_terminal_order p))%N
      then
        match p_terminal_order p with
        | [] => panic
        | task_id :: rest =>
            if history_protected p task_id then
              modify (λ p, p <| p_terminal_order := rest ++ [task_id] |>) ;;!
              compact_loop fuel retention (protected_examined + 1)
            else
              modify (λ p, p <| p_terminal_order := rest |>) ;;!
              evict_terminal_task task_id (hr_max_evicted_task_ids retention) ;;!
              compact_loop fuel retention 0
        end
      else ret tt
  end.

(** Each eviction shortens the queue and at most [n] rotations separate two of
    them. *)
Definition compact_fuel (p : TaskPool) : nat :=
  let n := length (p_terminal_order p) in S (n * n + n).

Definition compact_terminal_history : M TaskPool unit :=
  let! p := get in
  match p_history_retention p with
  | None => ret tt
  | Some retention => compact_loop (compact_fuel p) retention 0
  end.

Definition record_terminal_task (task_id : TaskId) : M TaskPool unit :=
  let! p := get in
  match p_history_retention p with
  | Some _ =>
      modify (λ p, p <| p_terminal_order ::= λ l, l ++ [task_id] |>) ;;!
      compact_terminal_history
  | None => ret tt
  end.

Definition terminal_entries (p : TaskPool) : list (N * TaskId) :=
  (λ record, (created_sequence_of record, t_task_id (r_task record))) <$>
    filter (λ record, is_terminal_status (r_status record) = true) (map_to_list (p_tasks p)).*2.

Definition configure_history_retention (retention : option TaskHistoryRetention) :
    M TaskPool unit :=
  modify (λ p, p <| p_history_retention := retention |>) ;;!
  modify (λ p, p <| p_terminal_order := [] |>) ;;!
  match retention with
  | Some retention =>
      modify (λ p, p <| p_terminal_order := (sort_by_key fst (terminal_entries p)).*2 |>) ;;!
      modify (trim_evicted_task_ids (hr_max_evicted_task_ids retention)) ;;!
      compact_terminal_history
  | None =>
      modify (λ p, p <| p_evicted_task_ids := ∅ |> <| p_evicted_task_order := [] |>)
  end.

(** ** Awaits between tasks (awaits.rs) *)

Definition push_wait (key : TaskId) (task_await : TaskAwait) (m : gmap TaskId (list TaskAwait)) :
    gmap TaskId (list TaskAwait) :=
  <[key := or_default [] (m !! key) ++ [task_await]]> m.

(** [retain] on one entry; an entry that becomes empty is removed. *)
Definition retain_waits (key : TaskId) (keep : TaskAwait → bool)
    (m : gmap TaskId (list TaskAwait)) : gmap TaskId (list TaskAwait) :=
  match m !! key with
  | Some waits =>
      let waits := filter (λ w, keep w = true) waits in
      let m := <[key := waits]> m in
      match waits with [] => delete key m | _ :: _ => m end
  | None => m
  end.

Definition ready_step_for_wait (task_await : TaskAwait) : option N :=
  match cont_wake (aw_continuation task_await) with
  | Some (Timer ready_at_step) | Some (RetryAfter ready_at_step) => Some ready_at_step
  | _ => None
  end.

Definition validate_task_await_child (parent_record child_record : TaskRecord)
    (task_await : TaskAwait) : RuntimeResult unit :=
  if is_terminal_status (r_status child_record) then
    runtime_failure ERR_TASK_CLAIM_CONFLICT "runtime.task_pool"
      ("task.await.child_terminal." +:+ h_task_id (aw_child task_await))
  else
    let child := aw_child task_await in
    let child_task := r_task child_record in
    let parent_task := r_task parent_record in
    let child_matches_handle :=
      bool_decide (h_protocol_id child = t_protocol_id child_task)
      && bool_decide (h_target_binding_id child = t_target_binding_id child_task)
      && bool_decide (h_trace_id child = t_trace_id child_task)
      && bool_decide (h_correlation_id child = t_correlation_id child_task) in
    let child_inherits_parent_context :=
      bool_decide (t_trace_id child_task = t_trace_id parent_task)
      && bool_decide (t_correlation_id child_task = t_correlation_id parent_task) in
    if child_matches_handle && child_inherits_parent_context then Ok tt
    else
      runtime_failure ERR_TASK_CLAIM_CONFLICT "runtime.task_pool"
        ("task.await.child_descriptor." +:+ aw_parent_task_id task_await).

Definition record_attempt_finished (lease : TaskLease) (current_step : N) : M TaskPool unit :=
  modify_statistics (record_attempt_finished_value lease current_step).

(** The checks [wait_on_task] makes before it mutates anything. *)
Definition validate_wait_on_task (p : TaskPool) (lease : TaskLease) (current_step : N)
    (task_await : TaskAwait) : RuntimeResult unit :=
  letr? parent_record := pool_record p (l_task_id lease) in
  letr? _ := validate_record_lease parent_record lease current_step "wait" in
  letr? child_record := pool_record p (h_task_id (aw_child task_await)) in
  validate_task_await_child parent_record child_record task_await.

Definition wait_on_task (lease : TaskLease) (current_step : N) (task_await : TaskAwait) :
    M TaskPool (RuntimeResult unit) :=
  if negb (bool_decide (aw_parent_task_id task_await = l_task_id lease)) then
    ret (runtime_failure ERR_TASK_CLAIM_CONFLICT "runtime.task_pool"
           ("task.await.parent." +:+ l_task_id lease))
  else
    let! p := get in
    let? _ := ret (validate_wait_on_task p lease current_step task_await) in
    let ready_at_step := ready_step_for_wait task_await in
    let? _ := mutate_record_indexed (l_task_id lease)
      (guarded (λ record, validate_record_lease record lease current_step "wait")
         (λ record,
            release_record_lease
              (record <| r_status := Waiting |>
                      <| r_task ::= λ t,
                           t <| t_ready_at_step := ready_at_step |>
                             <| t_continuation_ref :=
                                  Some (rr_ref_id (cont_continuation (aw_continuation task_await))) |> |>))) in
    modify_statistics (record_status_transition (Some Running) (Some Waiting)) ;;!
    record_attempt_finished lease current_step ;;!
    modify (λ p, p <| p_waits_by_child ::= push_wait (h_task_id (aw_child task_await)) task_await |>) ;;!
    modify (λ p, p <| p_waits_by_parent ::= push_wait (l_task_id lease) task_await |>) ;;!
    ret (Ok tt).

Definition awaits_for_parent (p : TaskPool) (task_id : TaskId) : list TaskAwait :=
  or_default [] (p_waits_by_parent p !! task_id).

(** [awaits::take_waits_for_child]: the waits on the child, taken out of both
    tables. *)
Definition take_waits_for_child_raw (child_task_id : TaskId) (p : TaskPool) :
    list TaskAwait * TaskPool :=
  let waits := or_default [] (p_waits_by_child p !! child_task_id) in
  let p := p <| p_waits_by_child ::= delete child_task_id |> in
  (waits,
   p <| p_waits_by_parent ::= λ m,
          foldl (λ m task_await,
                   retain_waits (aw_parent_task_id task_await)
                     (λ item, negb (bool_decide (h_task_id (aw_child item) = child_task_id))) m)
            m waits |>).

Definition take_waits_for_child (child_task_id : TaskId) : M TaskPool (list TaskAwait) :=
  let! p := get in
  let '(waits, p) := take_waits_for_child_raw child_task_id p in
  put p ;;!
  compact_terminal_history ;;!
  ret waits.

Definition remove_waits_for_parent (parent_task_id : TaskId) (p : TaskPool) : TaskPool :=
  let waits := or_default [] (p_waits_by_parent p !! parent_task_id) in
  let p := p <| p_waits_by_parent ::= delete parent_task_id |> in
  p <| p_waits_by_child ::= λ m,
         foldl (λ m task_await,
                  retain_waits (h_task_id (aw_child task_await))
                    (λ item, negb (bool_decide (aw_parent_task_id item = parent_task_id))) m)
           m waits |>.

(** ** Transitions of a leased task (transitions.rs) *)

Definition complete_with_output (lease : TaskLease) (current_step : N) (output : option Value) :
    M TaskPool (RuntimeResult unit) :=
  let? _ := mutate_record_indexed (l_task_id lease)
    (guarded (λ record, validate_record_lease record lease current_step "complete")
       (λ record, mark_terminal_record Completed None (record <| r_output := output |>))) in
  modify_statistics (record_status_transition (Some Running) (Some Completed)) ;;!
  record_attempt_finished lease current_step ;;!
  record_terminal_task (l_task_id lease) ;;!
  ret (Ok tt).

Definition complete (lease : TaskLease) (current_step : N) : M TaskPool (RuntimeResult unit) :=
  complete_with_output lease current_step None.

Definition fail_task (lease : TaskLease) (current_step : N) (failure : RuntimeError) :
    M TaskPool (RuntimeResult unit) :=
  let? _ := mutate_record_indexed (l_task_id lease)
    (guarded (λ record, validate_record_lease record lease current_step "fail")
       (mark_terminal_record Failed (Some failure))) in
  modify_statistics (record_status_transition (Some Running) (Some Failed)) ;;!
  record_attempt_finished lease current_step ;;!
  record_terminal_task (l_task_id lease) ;;!
  ret (Ok tt).

Definition wait (lease : TaskLease) (current_step : N) (ready_at_step : option N) :
    M TaskPool (RuntimeResult unit) :=
  let? _ := mutate_record_indexed (l_task_id lease)
    (guarded (λ record, validate_record_lease record lease current_step "wait")
       (λ record,
          release_record_lease
            (record <| r_status := Waiting |>
                    <| r_task ::= λ t, t <| t_ready_at_step := ready_at_step |> |>))) in
  modify_statistics (record_status_transition (Some Running) (Some Waiting)) ;;!
  record_attempt_finished lease current_step ;;!
  ret (Ok tt).

Definition defer_leased (lease : TaskLease) (current_step : N) : M TaskPool (RuntimeResult unit) :=
  let? _ := mutate_record_indexed (l_task_id lease)
    (guarded (λ record, validate_record_lease record lease current_step "defer")
       (λ record,
          clear_record_owner
            (release_record_lease
               (record <| r_status := Ready |> <| r_ready_since_step := current_step |>)))) in
  modify_statistics (record_status_transition (Some Running) (Some Ready)) ;;!
  record_attempt_finished lease current_step ;;!
  ret (Ok tt).

Definition block (lease : TaskLease) (current_step : N) : M TaskPool (RuntimeResult unit) :=
  let? _ := mutate_record_indexed (l_task_id lease)
    (guarded (λ record, validate_record_lease record lease current_step "block")
       (λ record, release_record_lease (record <| r_status := Blocked |>))) in
  modify_statistics (record_status_transition (Some Running) (Some Blocked)) ;;!
  record_attempt_finished lease current_step ;;!
  ret (Ok tt).

Definition cancel_task (lease : TaskLease) (current_step : N) : M TaskPool (RuntimeResult unit) :=
  let? _ := mutate_record_indexed (l_task_id lease)
    (guarded (λ record, validate_record_lease record lease current_step "cancel")
       (mark_terminal_record Cancelled None)) in
  modify_statistics (record_status_transition (Some Running) (Some Cancelled)) ;;!
  record_attempt_finished lease current_step ;;!
  modify (remove_waits_for_parent (l_task_id lease)) ;;!
  record_terminal_task (l_task_id lease) ;;!
  ret (Ok tt).

(** ** Transitions the kernel makes *)

Definition claim_conflict {A} (action task_id : string) : RuntimeResult A :=
  runtime_failure ERR_TASK_CLAIM_CONFLICT "runtime.task_pool"
    ("task." +:+ action +:+ "." +:+ task_id).

(** What waking does to the record. *)
Definition wake_record (current_step : N) (record : TaskRecord) : TaskRecord :=
  release_record_lease
    (record <| r_status := Ready |> <| r_ready_since_step := current_step |>).

Definition wake (task_id : TaskId) (current_step : N) : M TaskPool (RuntimeResult unit) :=
  let? previous_status := mutate_record_indexed task_id
    (guarded (λ record,
                match r_status record with
                | Waiting | Blocked => Ok (r_status record)
                | _ => claim_conflict "wake" task_id
                end)
       (wake_record current_step)) in
  modify_statistics (record_status_transition (Some previous_status) (Some Ready)) ;;!
  modify (remove_waits_for_parent task_id) ;;!
  ret (Ok tt).

(** The wake-up of one task whose step has come; the index it was found in
    guarantees its record. *)
Definition wake_due_task (current_step : N) (task_id : TaskId) : M TaskPool unit :=
  let! result := mutate_record_indexed task_id
    (λ record, (Ok (r_status record), wake_record current_step record)) in
  match result with
  | Err _ => panic
  | Ok previous_status =>
      modify_statistics (record_status_transition (Some previous_status) (Some Ready)) ;;!
      modify (remove_waits_for_parent task_id)
  end.

Definition take_due_wake_tasks (current_step : N) : M TaskPool (list (TaskId * N)) :=
  let! p := get in
  let '(due, rest) := take_due_buckets (ix_wake_by_step (p_indexes p)) current_step in
  put (p <| p_indexes ::= λ ix, ix <| ix_wake_by_step := rest |> |>) ;;!
  ret due.

Definition wake_due_tasks (current_step : N) : M TaskPool (list (TaskId * N)) :=
  let! due_tasks := take_due_wake_tasks current_step in
  for_each due_tasks (λ due, wake_due_task current_step due.1) ;;!
  ret due_tasks.

Definition reject_ready (task_id : TaskId) (failure : RuntimeError) :
    M TaskPool (RuntimeResult unit) :=
  let? _ := mutate_record_indexed task_id
    (guarded (λ record,
                if decide (r_status record = Ready) then Ok tt else claim_conflict "reject" task_id)
       (λ record, record <| r_status := Failed |> <| r_failure := Some failure |>)) in
  modify_statistics (record_status_transition (Some Ready) (Some Failed)) ;;!
  record_terminal_task task_id ;;!
  ret (Ok tt).

(** The first task of the runner, in id order, whose active lease is the
    invocation. *)
Definition find_running_invocation (p : TaskPool) (runner_id invocation_id : string) :
    option TaskId :=
  head (omap (λ id,
                record ← p_tasks p !! id;
                if is_some_and (r_lease record) (λ lease, bool_decide (l_lease_id lease = invocation_id))
                then Some (t_task_id (r_task record)) else None)
         (flatten_ids (running_task_ids p runner_id))).

Definition cancel_running_invocation (runner_id invocation_id : string) (current_step : N) :
    M TaskPool N :=
  let! p := get in
  match find_running_invocation p runner_id invocation_id with
  | None => ret 0%N
  | Some task_id =>
      let lease := p_tasks p !! task_id ≫= r_lease in
      let! result := mutate_record_indexed task_id
        (λ record, (Ok tt, wake_record current_step record)) in
      match result with
      | Err _ => panic
      | Ok _ =>
          match lease with
          | Some lease => record_attempt_finished lease current_step
          | None => ret tt
          end ;;!
          modify_statistics (record_status_transition (Some Running) (Some Ready)) ;;!
          ret 1%N
      end
  end.

Definition terminal_by_core (task_id : TaskId) (status : TaskStatus)
    (failure : option RuntimeError) (action : string) (current_step : N) :
    M TaskPool (RuntimeResult unit) :=
  let? result := mutate_record_indexed task_id
    (guarded (λ record,
                if is_terminal_status (r_status record) then claim_conflict action task_id
                else Ok (r_lease record, r_status record))
       (mark_terminal_record status failure)) in
  let '(active_lease, previous_status) := result in
  modify_statistics (record_status_transition (Some previous_status) (Some status)) ;;!
  match active_lease with
  | Some lease => record_attempt_finished lease current_step
  | None => ret tt
  end ;;!
  modify (remove_waits_for_parent task_id) ;;!
  record_terminal_task task_id ;;!
  ret (Ok tt).

Definition cancel_by_core (task_id : TaskId) (current_step : N) : M TaskPool (RuntimeResult unit) :=
  terminal_by_core task_id Cancelled None "cancel" current_step.
Definition expire_by_core (task_id : TaskId) (failure : RuntimeError) (current_step : N) :
    M TaskPool (RuntimeResult unit) :=
  terminal_by_core task_id Expired (Some failure) "expire" current_step.
Definition dead_letter_by_core (task_id : TaskId) (failure : RuntimeError) (current_step : N) :
    M TaskPool (RuntimeResult unit) :=
  terminal_by_core task_id DeadLetter (Some failure) "dead_letter" current_step.

Definition ensure_active_lease (p : TaskPool) (task_id : TaskId) (lease : TaskLease)
    (current_step : N) (action : string) : RuntimeResult unit :=
  letr? record := pool_record p task_id in
  validate_record_lease record lease current_step action.

Definition take_expired_lease_tasks (current_step : N) : M TaskPool (list TaskId) :=
  let! p := get in
  let '(due, rest) := take_due_buckets (ix_leases_by_expiry (p_indexes p)) current_step in
  put (p <| p_indexes ::= λ ix, ix <| ix_leases_by_expiry := rest |> |>) ;;!
  ret due.*1.

(** One iteration of the reclaim loop: the lease it reclaimed, if any. *)
Definition reclaim_one (current_step : N) (task_id : TaskId) : M TaskPool (option TaskLease) :=
  let! p := get in
  let lease := p_tasks p !! task_id ≫= r_lease in
  if is_some_and lease (λ lease, task_lease_expired lease current_step) then
    let! result := mutate_record_indexed task_id
      (λ record, (Ok tt, wake_record current_step record)) in
    match result with
    | Err _ => panic
    | Ok _ =>
        modify_statistics (record_status_transition (Some Running) (Some Ready)) ;;!
        let! lease := expect lease in
        ret (Some lease)
    end
  else ret None.

Fixpoint reclaim_loop (current_step : N) (task_ids : list TaskId) : M TaskPool (list TaskLease) :=
  match task_ids with
  | [] => ret []
  | task_id :: task_ids =>
      let! lease := reclaim_one current_step task_id in
      let! reclaimed := reclaim_loop current_step task_ids in
      ret (match lease with Some lease => lease :: reclaimed | None => reclaimed end)
  end.

Definition reclaim_expired_task_leases (current_step : N) : M TaskPool (list TaskLease) :=
  let! task_ids := take_expired_lease_tasks current_step in
  let! reclaimed := reclaim_loop current_step task_ids in
  for_each reclaimed (λ lease, record_attempt_finished lease current_step) ;;!
  ret reclaimed.

(** The records [abort_all] touches, in the order the table yields them. *)
Definition live_entries (p : TaskPool) : list (TaskId * TaskRecord) :=
  filter (λ e, is_terminal_status (r_status e.2) = false) (map_to_list (p_tasks p)).

Definition abort_record (failure : RuntimeError) (e : TaskId * TaskRecord) (p : TaskPool) :
    TaskPool :=
  p <| p_tasks ::= insert e.1 (mark_terminal_record Cancelled (Some failure) e.2) |>
    <| p_statistics ::= record_status_transition (Some (r_status e.2)) (Some Cancelled) |>.

Definition abort_all (current_step : N) (failure : RuntimeError) : M TaskPool (list TaskId) :=
  let! p := get in
  let live := live_entries p in
  let finished_leases := omap (λ e, r_lease e.2) live in
  let aborted := sort_strings ((λ e, t_task_id (r_task e.2)) <$> live) in
  for_each live (λ e, modify (abort_record failure e)) ;;!
  modify rebuild_indexes ;;!
  for_each finished_leases (λ lease, record_attempt_finished lease current_step) ;;!
  for_each aborted (λ task_id,
    modify (remove_waits_for_parent task_id) ;;! record_terminal_task task_id) ;;!
  ret aborted.

Definition rebinds (old_generation : N) (record : TaskRecord) : bool :=
  bool_decide (r_status record = Ready)
  && (t_registry_generation (r_task record) =? old_generation)%N.

Definition rebind_ready_generation (old_generation new_generation : N) : M TaskPool N :=
  let! p := get in
  let rebound := size (filter (λ e, rebinds old_generation e.2 = true) (p_tasks p)) in
  modify (λ p, p <| p_tasks ::= fmap (λ record,
    if rebinds old_generation record
    then record <| r_task ::= λ t, t <| t_registry_generation := new_generation |> |>
    else record) |>) ;;!
  modify rebuild_indexes ;;!
  ret (N.of_nat rebound).
End Pool.
