(* ===== verification/TaskClaiming.v ===== *)
(** * Claiming ready tasks (task_pool/claiming.rs, task_pool/occupancy.rs and
    the dispatch queues of task_pool/indexes.rs)

    A runner's ready queues are merged in key order; the merge stops where the
    dispatch budget does; every selected task is leased to the runner. *)

From S2P Require Import Prelude Contracts RunnerContracts TaskRecords TaskIndexes TaskPool.

Section Claiming.
Context `{SJ : SerdeJson}.

(** ** The queues of a runner *)

(** [with_ready_selectors]: the selectors, from the cache when it has them or
    has room for them. *)
Definition with_ready_selectors (runner_id : string) : M TaskPool (list ReadySelector) :=
  let! p := get in
  let cache := p_ready_selector_cache p in
  match cache !! runner_id with
  | Some selectors => ret selectors
  | None =>
      if (N.of_nat (size cache) <? N.of_nat READY_SELECTOR_CACHE_CAPACITY)%N then
        modify (λ p, p <| p_ready_selector_cache ::= insert runner_id (build_ready_selectors runner_id) |>) ;;!
        ret (build_ready_selectors runner_id)
      else ret (build_ready_selectors runner_id)
  end.

(** The nested loops over the accepted protocols and the selectors. *)
Definition dispatch_queues (ix : TaskIndexes) (protocol_ids : list ProtocolId)
    (selectors : list ReadySelector) : list (gset ReadyKey) :=
  flat_map (λ protocol_id,
    match ix_ready_by_protocol ix !! protocol_id with
    | Some by_selector => omap (λ selector, by_selector !! selector) selectors
    | None => []
    end) protocol_ids.

Definition ready_dispatch_queues (runner : RunnerDescriptor) : M TaskPool (list (gset ReadyKey)) :=
  let! selectors := with_ready_selectors (d_runner_id runner) in
  let! p := get in
  ret (dispatch_queues (p_indexes p) (d_accepted_protocol_ids runner) selectors).

Definition generation_matches (registry_generation task_generation : N) : bool :=
  (registry_generation =? 0)%N || (task_generation =? 0)%N
  || (task_generation =? registry_generation)%N.

Definition dispatch_counts (ix : TaskIndexes) (protocol_ids : list ProtocolId)
    (selectors : list ReadySelector) : list (gmap (N * N) N) :=
  flat_map (λ protocol_id,
    match ix_ready_counts_by_protocol ix !! protocol_id with
    | Some by_selector => omap (λ selector, by_selector !! selector) selectors
    | None => []
    end) protocol_ids.

Definition sum_N (l : list N) : N := foldr N.add 0%N l.

(** The count of one selector's buckets that are due and of the generation. *)
Definition bucket_count (current_step registry_generation : N) (by_step : gmap (N * N) N) : N :=
  sum_N (snd <$> filter (λ e : (N * N) * N,
    ((e.1.1 <=? current_step)%N && generation_matches registry_generation e.1.2) = true) (map_to_list by_step)).

Definition ready_dispatch_count (runner : RunnerDescriptor) (current_step registry_generation : N) :
    M TaskPool N :=
  let! selectors := with_ready_selectors (d_runner_id runner) in
  let! p := get in
  ret (sum_N (bucket_count current_step registry_generation <$>
    dispatch_counts (p_indexes p) (d_accepted_protocol_ids runner) selectors)).

(** ** The merge of the queues *)

(** The order of [Reverse((key, index))] in a max-heap. *)
Definition heap_le (a b : ReadyKey * nat) : Prop :=
  rk_le a.1 b.1 ∧ (a.1 = b.1 → a.2 ≤ b.2).

#[export] Instance heap_le_dec : RelDecision heap_le.
Proof. unfold heap_le. intros a b. apply _. Defined.

(** [BinaryHeap::pop]: the least entry and the others. *)
Fixpoint heap_pop (heap : list (ReadyKey * nat)) :
    option ((ReadyKey * nat) * list (ReadyKey * nat)) :=
  match heap with
  | [] => None
  | x :: heap =>
      match heap_pop heap with
      | None => Some (x, [])
      | Some (y, rest) => if decide (heap_le x y) then Some (x, heap) else Some (y, x :: rest)
      end
  end.

(** Iteration order of a [BTreeSet<ReadyKey>]. *)
Definition queue_elements (queue : gset ReadyKey) : list ReadyKey := merge_sort rk_le (elements queue).

Definition runner_accepts_indexed_task (task : Task) (registry_generation : N) : bool :=
  if negb (registry_generation =? 0)%N
     && negb (t_registry_generation task =? 0)%N
     && negb (t_registry_generation task =? registry_generation)%N
  then false else true.

(** A visitor keeps its own state; [false] stops the visit, [None] is a panic. *)
Definition Visitor (S : Type) : Type := S → TaskRecord → option (bool * S).

(** The first key of every queue, when it is due, with the queue's index. *)
Fixpoint heap_init (step : N) (index : nat) (iterators : list (list ReadyKey)) :
    list (ReadyKey * nat) * list (list ReadyKey) :=
  match iterators with
  | [] => ([], [])
  | iterator :: iterators =>
      let '(heap, rest) := heap_init step (S index) iterators in
      match iterator with
      | [] => (heap, [] :: rest)
      | key :: tail =>
          (if is_due key step then (key, index) :: heap else heap, tail :: rest)
      end
  end.

(** One visit of the record a key names. *)
Definition visit_key {S} (tasks : gmap TaskId TaskRecord) (registry_generation : N)
    (visit : Visitor S) (key : ReadyKey) (visited : N) (s : S) : option (bool * N * S) :=
  match tasks !! rk_task_id key with
  | Some record =>
      if runner_accepts_indexed_task (r_task record) registry_generation then
        '(continue, s) ← visit s record; Some (continue, (visited + 1)%N, s)
      else Some (true, visited, s)
  | None => Some (true, visited, s)
  end.

(** The [while let Some(..) = heap.pop()] loop; [None] is a panic, running out
    of fuel included. *)
Fixpoint visit_loop {S} (fuel : nat) (tasks : gmap TaskId TaskRecord)
    (step registry_generation : N) (visit : Visitor S)
    (heap : list (ReadyKey * nat)) (iterators : list (list ReadyKey)) (visited : N) (s : S) :
    option (N * S) :=
  match fuel with
  | O => None
  | Datatypes.S fuel =>
      match heap_pop heap with
      | None => Some (visited, s)
      | Some ((key, index), heap) =>
          '(continue, visited, s) ← visit_key tasks registry_generation visit key visited s;
          if negb continue then Some (visited, s)
          else
            iterator ← iterators !! index;
            match iterator with
            | next :: tail =>
                let heap := if is_due next step then (next, index) :: heap else heap in
                visit_loop fuel tasks step registry_generation visit heap
                  (<[index := tail]> iterators) visited s
            | [] =>
                visit_loop fuel tasks step registry_generation visit heap iterators visited s
            end
      end
  end.

Definition visit_queues {S} (tasks : gmap TaskId TaskRecord) (step registry_generation : N)
    (visit : Visitor S) (queues : list (gset ReadyKey)) (s : S) : option (N * S) :=
  let iterators := queue_elements <$> queues in
  let '(heap, rest) := heap_init step 0 iterators in
  visit_loop (Datatypes.S (length (concat iterators))) tasks step registry_generation visit heap rest 0 s.

Definition visit_candidate_records {S} (runner : RunnerDescriptor) (step registry_generation : N)
    (visit : TaskPool → Visitor S) (s : S) : M TaskPool (N * S) :=
  let! queues := ready_dispatch_queues runner in
  let! p := get in
  expect (visit_queues (p_tasks p) step registry_generation (visit p) queues s).

(** ** Selection under a budget *)

Record Selection : Type := MkSelection {
  sel_lane_counts : gmap DispatchLane N;
  sel_bytes : N;
  sel_ids : list TaskId
}.

(** The closure of [select_candidate_ids]. *)
Definition select_visit (budget : option DispatchBudget) (max_entries : N) (p : TaskPool)
    (s : Selection) (record : TaskRecord) : option (bool * Selection) :=
  let task := r_task record in
  if (max_entries <=? len (sel_ids s))%N then Some (false, s)
  else
    payload_wire_bytes ←
      match budget with
      | Some _ => p_payload_wire_bytes p !! t_task_id task
      | None => Some 0%N
      end;
    let used := or_default 0%N (sel_lane_counts s !! t_dispatch_lane task) in
    let over_bytes := is_some_and budget (λ budget,
      (db_max_bytes budget <? saturating_add (sel_bytes s) payload_wire_bytes)%N) in
    let over_lane := is_some_and budget (λ budget,
      is_some_and (db_lane_budget budget !! t_dispatch_lane task) (λ lane_budget,
        (lb_max_entries lane_budget <=? used)%N)) in
    if over_bytes || over_lane then Some (true, s)
    else
      let s := {| sel_lane_counts := <[t_dispatch_lane task := (used + 1)%N]> (sel_lane_counts s);
                  sel_bytes := saturating_add (sel_bytes s) payload_wire_bytes;
                  sel_ids := sel_ids s ++ [t_task_id task] |} in
      Some ((len (sel_ids s) <? max_entries)%N, s).

Definition Selection_empty : Selection :=
  {| sel_lane_counts := ∅; sel_bytes := 0; sel_ids := [] |}.

Definition selection_limit (limit : N) (budget : option DispatchBudget) : N :=
  match budget with Some budget => N.min limit (db_max_entries budget) | None => limit end.

Definition select_candidate_ids (runner : RunnerDescriptor) (step registry_generation limit : N)
    (budget : option DispatchBudget) : M TaskPool (list TaskId) :=
  if (limit =? 0)%N || is_some_and budget (λ budget,
       (db_max_batches budget =? 0)%N || (db_max_entries budget =? 0)%N || (db_max_bytes budget =? 0)%N)
  then ret []
  else
    let max_entries := selection_limit limit budget in
    with_capacity TaskId max_entries ;;!
    let! result := visit_candidate_records runner step registry_generation
      (select_visit budget max_entries) Selection_empty in
    ret (sel_ids result.2).

(** ** The claim *)

Definition lease_of (runner : RunnerDescriptor) (executor_id : ExecutorId)
    (step registry_generation : N) (expires_at_step : option N) (record : TaskRecord) : TaskLease :=
  {| l_lease_id := "task-lease-" +:+ pretty step +:+ "-" +:+ t_task_id (r_task record)
                     +:+ "-" +:+ pretty (r_attempt_generation record);
     l_task_id := t_task_id (r_task record);
     l_attempt_generation := r_attempt_generation record;
     l_runner_id := d_runner_id runner;
     l_executor_id := executor_id;
     l_registry_generation := registry_generation;
     l_acquired_at_step := step;
     l_expires_at_step := expires_at_step |}.

(** The record after the claim: its attempt counter goes up before the lease is
    cut. *)
Definition claim_record (runner : RunnerDescriptor) (executor_id : ExecutorId)
    (step registry_generation : N) (expires_at_step : option N) (record : TaskRecord) :
    TaskLease * TaskRecord :=
  let record := record <| r_attempt_generation ::= λ g, saturating_add g 1 |> in
  let lease := lease_of runner executor_id step registry_generation expires_at_step record in
  (lease,
   record <| r_status := Running |>
          <| r_claimed_by := Some (d_runner_id runner) |>
          <| r_owner_runner := Some (d_runner_id runner) |>
          <| r_lease := Some lease |>
          <| r_task ::= λ t, t <| t_lease_id := Some (l_lease_id lease) |> |>).

Record ClaimTotals : Type := MkClaimTotals {
  ct_leased : list (TaskLease * Task);
  ct_queue_steps : N;
  ct_attempts_started : N
}.

(** The body of the claim loop; the [debug_assert_eq!] on the status is kept
    as a check. *)
Definition claim_one (runner : RunnerDescriptor) (executor_id : ExecutorId)
    (step registry_generation : N) (expires_at_step : option N) (totals : ClaimTotals)
    (task_id : TaskId) : M TaskPool ClaimTotals :=
  modify (remove_record_indexes task_id) ;;!
  let! p := get in
  let! record := expect (p_tasks p !! task_id) in
  if negb (bool_decide (r_status record = Ready)) then panic
  else
    let '(lease, claimed) :=
      claim_record runner executor_id step registry_generation expires_at_step record in
    modify (λ p, p <| p_tasks ::= insert task_id claimed |>) ;;!
    modify (insert_record_indexes task_id) ;;!
    modify_statistics (record_status_transition (Some Ready) (Some Running)) ;;!
    ret {| ct_leased := ct_leased totals ++ [(lease, r_task claimed)];
           ct_queue_steps := saturating_add (ct_queue_steps totals)
                               (saturating_sub step (r_ready_since_step record));
           ct_attempts_started := saturating_add (ct_attempts_started totals) 1 |}.

Fixpoint claim_loop (runner : RunnerDescriptor) (executor_id : ExecutorId)
    (step registry_generation : N) (expires_at_step : option N) (totals : ClaimTotals)
    (candidates : list TaskId) : M TaskPool ClaimTotals :=
  match candidates with
  | [] => ret totals
  | task_id :: candidates =>
      let! totals := claim_one runner executor_id step registry_generation expires_at_step totals task_id in
      claim_loop runner executor_id step registry_generation expires_at_step totals candidates
  end.

Definition claim_ready_for_executor_with_budget (runner : RunnerDescriptor) (executor_id : ExecutorId)
    (step registry_generation limit : N) (budget : option DispatchBudget)
    (expires_at_step : option N) : M TaskPool (list (TaskLease * Task)) :=
  let! candidates := select_candidate_ids runner step registry_generation limit budget in
  let! totals := claim_loop runner executor_id step registry_generation expires_at_step
    {| ct_leased := []; ct_queue_steps := 0; ct_attempts_started := 0 |} candidates in
  modify_statistics (λ s, s <| st_attempts_started ::= λ c, saturating_add c (ct_attempts_started totals) |>) ;;!
  modify_statistics (λ s, s <| st_cumulative_queue_steps ::= λ c, saturating_add c (ct_queue_steps totals) |>) ;;!
  ret (ct_leased totals).

Definition claim_ready_for_executor_with_expiry (runner : RunnerDescriptor) (executor_id : ExecutorId)
    (step registry_generation limit : N) (expires_at_step : option N) :
    M TaskPool (list (TaskLease * Task)) :=
  claim_ready_for_executor_with_budget runner executor_id step registry_generation limit None expires_at_step.

(** [step + TASK_LEASE_TTL_STEPS] is an unchecked addition. *)
Definition claim_ready_for_executor (runner : RunnerDescriptor) (executor_id : ExecutorId)
    (step registry_generation limit : N) : M TaskPool (list (TaskLease * Task)) :=
  let! expires_at := u64_add step TASK_LEASE_TTL_STEPS in
  claim_ready_for_executor_with_expiry runner executor_id step registry_generation limit (Some expires_at).

Definition claim_ready (runner : RunnerDescriptor) (step registry_generation limit : N) :
    M TaskPool (list Task) :=
  let! leased := claim_ready_for_executor runner "executor:inline" step registry_generation limit in
  ret leased.*2.

(** ** Load of a runner (occupancy.rs) *)

Record RunnerLoad : Type := MkRunnerLoad {
  ld_running_count : N;
  ld_waiting_count : N;
  ld_queued_count : N;
  ld_pending_weight : N
}.

Definition runner_load (runner : RunnerDescriptor) (step registry_generation : N) : M TaskPool RunnerLoad :=
  let! p := get in
  let running_count := running_count_for_runner p (d_runner_id runner) in
  let waiting_count := waiting_count_for_runner p (d_runner_id runner) in
  let! queued_count := ready_dispatch_count runner step registry_generation in
  ret {| ld_running_count := running_count; ld_waiting_count := waiting_count;
         ld_queued_count := queued_count;
         ld_pending_weight := (running_count + waiting_count + queued_count)%N |}.
End Claiming.
