(* ===== verification/ClaimMerge.v ===== *)
(** * The merge of the ready queues is a sort

    [visit_queues] pops a heap of queue heads; it visits exactly the due keys
    of all queues in ascending key order, so a claim serves tasks by ready
    step, then priority, then submission order, whatever queue they are in. *)

From S2P Require Import Prelude Contracts RunnerContracts TaskRecords TaskIndexes TaskPool TaskClaiming.

(** ** The order of ready keys *)

#[export] Instance rk_le_total : Total rk_le.
Proof.
  intros a b. unfold rk_le.
  destruct (N.lt_trichotomy (rk_ready_at_step a) (rk_ready_at_step b)) as [?|[Es|?]];
    [by left; left| |by right; left].
  rewrite Es. destruct (Z.lt_trichotomy (rk_priority a) (rk_priority b)) as [?|[Ep|?]];
    [by right; right; split; [|left]| |by left; right; split; [|left]].
  rewrite Ep. destruct (N.lt_trichotomy (rk_created_sequence a) (rk_created_sequence b)) as [?|[Ec|?]];
    [by left; do 2 (right; split; [done|]); left| |by right; do 2 (right; split; [done|]); left].
  rewrite Ec. destruct (total String.le (rk_task_id a) (rk_task_id b));
    [left|right]; do 3 (right; split; [done|]); done.
Qed.

#[export] Instance rk_le_trans : Transitive rk_le.
Proof.
  intros a b c. unfold rk_le. intros H1 H2.
  destruct H1 as [?|[? [?|[? [?|[? H1]]]]]], H2 as [?|[? [?|[? [?|[? H2]]]]]]; try lia.
  right. split; [lia|]. right. split; [lia|]. right. split; [lia|]. by etrans.
Qed.

#[export] Instance rk_le_antisymm : AntiSymm (=) rk_le.
Proof.
  intros [s p c t] [s' p' c' t']. unfold rk_le. simpl. intros H1 H2.
  destruct H1 as [?|[-> [?|[-> [?|[-> H1]]]]]], H2 as [?|[? [?|[? [?|[? H2]]]]]]; try lia.
  by rewrite (anti_symm String.le t t').
Qed.

#[export] Instance rk_le_preorder : PreOrder rk_le.
Proof. split; [|apply _]. intros a. by destruct (total rk_le a a). Qed.

(** Due keys come first. *)
Lemma rk_le_due a b step : rk_le a b → is_due b step = true → is_due a step = true.
Proof. unfold rk_le, is_due. rewrite !N.leb_le. lia. Qed.

Lemma sort_keys_unique l k : l ≡ₚ k → merge_sort rk_le l = merge_sort rk_le k.
Proof.
  intros Hp. apply (StronglySorted_unique rk_le); try apply StronglySorted_merge_sort; try apply _.
  by rewrite !merge_sort_Permutation.
Qed.

(** The head of a sorted list is its least element. *)
Lemma sort_keys_cons k l :
  (∀ k', k' ∈ l → rk_le k k') → merge_sort rk_le (k :: l) = k :: merge_sort rk_le l.
Proof.
  intros Hmin. apply (StronglySorted_unique rk_le).
  - apply StronglySorted_merge_sort; apply _.
  - constructor; [apply StronglySorted_merge_sort; apply _|].
    apply Forall_forall. intros k'. rewrite merge_sort_Permutation. apply Hmin.
  - by rewrite !merge_sort_Permutation.
Qed.

(** ** The heap *)

Lemma heap_le_total a b : heap_le a b ∨ heap_le b a.
Proof.
  unfold heap_le. destruct (decide (a.1 = b.1)) as [->|Hne].
  - destruct (decide (a.2 ≤ b.2)); [left|right]; split; try done; lia.
  - destruct (total rk_le a.1 b.1); [left|right]; split; try done; congruence.
Qed.

Lemma heap_le_trans a b c : heap_le a b → heap_le b c → heap_le a c.
Proof.
  intros [H1 H2] [H3 H4]. split; [by etrans|]. intros E.
  assert (a.1 = b.1). { apply (anti_symm rk_le); [done|]. by rewrite E. }
  assert (b.1 = c.1) by congruence. specialize (H2 ltac:(done)). specialize (H4 ltac:(done)). lia.
Qed.

Lemma heap_pop_None heap : heap_pop heap = None ↔ heap = [].
Proof.
  split; [|by intros ->]. destruct heap as [|x heap]; [done|]. simpl.
  destruct (heap_pop heap) as [[y rest]|]; [case_decide; done|done].
Qed.

Lemma heap_pop_Some heap x rest :
  heap_pop heap = Some (x, rest) → heap ≡ₚ x :: rest ∧ ∀ y, y ∈ rest → rk_le x.1 y.1.
Proof.
  revert x rest. induction heap as [|z heap IH]; intros x rest; simpl; [done|].
  destruct (heap_pop heap) as [[y rest']|] eqn:E.
  - destruct (IH _ _ eq_refl) as [Hp Hm]. case_decide as Hle; intros; simplify_eq.
    + split; [done|]. intros w. rewrite Hp, elem_of_cons. intros [-> |Hin]; [apply Hle|].
      etrans; [apply Hle|]. by apply Hm.
    + split; [by rewrite Hp, Permutation_swap|]. intros w. rewrite elem_of_cons.
      intros [-> |Hin]; [|by apply Hm]. by destruct (heap_le_total z x) as [?|[? _]].
  - apply heap_pop_None in E as ->. intros. simplify_eq. split; [done|].
    by intros ? ?%not_elem_of_nil.
Qed.

(** ** The merge *)

(** The due keys an iterator still has to yield. *)
Definition due_part (step : N) (iterator : list ReadyKey) : list ReadyKey :=
  filter (λ k, is_due k step = true) iterator.

(** What is still to be visited. *)
Definition remaining (step : N) (heap : list (ReadyKey * nat)) (iterators : list (list ReadyKey)) :
    list ReadyKey := heap.*1 ++ concat (due_part step <$> iterators).

Record merge_inv (step : N) (heap : list (ReadyKey * nat)) (iterators : list (list ReadyKey)) : Prop := {
  mi_sorted : ∀ i it, iterators !! i = Some it → StronglySorted rk_le it;
  mi_heads : ∀ k i, (k, i) ∈ heap →
    is_due k step = true ∧ ∃ it, iterators !! i = Some it ∧ Forall (rk_le k) it;
  mi_index : NoDup heap.*2;
  mi_idle : ∀ i it, iterators !! i = Some it → i ∉ heap.*2 → due_part step it = []
}.

Lemma due_part_cons step k it :
  due_part step (k :: it) = if is_due k step then k :: due_part step it else due_part step it.
Proof. unfold due_part. rewrite filter_cons. by destruct (is_due k step). Qed.

Lemma due_part_head step k it :
  StronglySorted rk_le (k :: it) → is_due k step = false → due_part step (k :: it) = [].
Proof.
  intros Hs Hk. apply StronglySorted_inv in Hs as [_ Hall]. unfold due_part.
  apply elem_of_nil_inv. intros x [Hd Hx]%list_elem_of_filter.
  rewrite elem_of_cons in Hx. destruct Hx as [-> |Hx].
  - congruence.
  - rewrite Forall_forall in Hall. rewrite (rk_le_due k x step) in Hk; [done|by apply Hall|done].
Qed.

Lemma concat_insert {A} (ls : list (list A)) i l :
  i < length ls → concat (<[i := l]> ls) ≡ₚ l ++ concat (<[i := []]> ls).
Proof.
  revert i. induction ls as [|x ls IH]; intros [|i] Hi; simpl in *; try lia; [done|].
  rewrite IH by lia. by rewrite !app_assoc, (Permutation_app_comm x l).
Qed.

Lemma concat_at {A} (ls : list (list A)) i l :
  ls !! i = Some l → concat ls ≡ₚ l ++ concat (<[i := []]> ls).
Proof.
  intros Hi. rewrite <-(list_insert_id ls i l) at 1 by done.
  apply concat_insert. by eapply lookup_lt_Some.
Qed.

(** Least of everything that remains. *)
Lemma merge_inv_least step heap iterators k i rest :
  merge_inv step heap iterators → heap_pop heap = Some ((k, i), rest) →
  ∀ k', k' ∈ remaining step heap iterators → rk_le k k'.
Proof.
  intros [Hs Hh Hi Hidle] [Hp Hm]%heap_pop_Some k'. unfold remaining. rewrite elem_of_app.
  assert (∀ y, y ∈ heap → rk_le k y.1) as Hmin.
  { intros y. rewrite Hp, elem_of_cons. intros [-> |?]; [done|by apply Hm]. }
  intros [(y & -> & Hy)%list_elem_of_fmap|Hin]; [by apply Hmin|].
  apply list_elem_of_In, in_concat in Hin as (l & Hl%list_elem_of_In & Hk'%list_elem_of_In).
  apply list_elem_of_fmap in Hl as (it & -> & [j Hj]%list_elem_of_lookup).
  destruct (decide (j ∈ heap.*2)) as [Hin|Hnot].
  - apply list_elem_of_fmap in Hin as ([y j'] & -> & Hy). simpl in Hj.
    destruct (Hh _ _ Hy) as [_ (it' & Hit' & Hall)]. simplify_eq.
    etrans; [by apply (Hmin _ Hy)|]. simpl. rewrite Forall_forall in Hall. apply Hall.
    by apply list_elem_of_filter in Hk' as [_ ?].
  - rewrite (Hidle _ _ Hj Hnot) in Hk'. by apply not_elem_of_nil in Hk'.
Qed.

(** Popping a key and advancing its iterator. *)
Definition advance (step : N) (i : nat) (it : list ReadyKey) (rest : list (ReadyKey * nat))
    (iterators : list (list ReadyKey)) : list (ReadyKey * nat) * list (list ReadyKey) :=
  match it with
  | next :: tail =>
      (if is_due next step then (next, i) :: rest else rest, <[i := tail]> iterators)
  | [] => (rest, iterators)
  end.

Lemma merge_inv_advance step heap iterators k i rest :
  merge_inv step heap iterators → heap_pop heap = Some ((k, i), rest) →
  ∃ it, iterators !! i = Some it ∧
    merge_inv step (advance step i it rest iterators).1 (advance step i it rest iterators).2 ∧
    remaining step heap iterators ≡ₚ
      k :: remaining step (advance step i it rest iterators).1 (advance step i it rest iterators).2.
Proof.
  intros [Hs Hh Hi Hidle] [Hp _]%heap_pop_Some.
  destruct (Hh k i) as [Hk (it & Hit & Hall)]; [rewrite Hp; set_solver|].
  exists it. split; [done|]. pose proof (Hs _ _ Hit) as Hsort.
  rewrite Hp in Hi. apply NoDup_cons in Hi as [Hnot Hi]. cbn [fmap list_fmap snd] in Hnot, Hi.
  assert (∀ y, y ∈ rest → y ∈ heap) as Hrest by (intros y; rewrite Hp; set_solver).
  destruct it as [|next tail]; simpl.
  - split.
    + split; try done; [by eauto|]. intros j it' Hj Hnj.
      destruct (decide (j = i)) as [->|]; [by simplify_eq|].
      eapply Hidle; [done|]. rewrite Hp. set_solver.
    + unfold remaining. by rewrite Hp.
  - apply StronglySorted_inv in Hsort as Hsort'. destruct Hsort' as [Hsort' Hnext].
    assert (i < length iterators) as Hlt by (by eapply lookup_lt_Some).
    split.
    + split.
      * intros j it'. rewrite list_lookup_insert_Some. intros [(-> & <- & _)|[? ?]]; [done|by eauto].
      * assert (∀ k' j, (k', j) ∈ rest → is_due k' step = true ∧
          ∃ it0, <[i := tail]> iterators !! j = Some it0 ∧ Forall (rk_le k') it0) as Hh'.
        { intros k' j Hin. destruct (Hh k' j) as (Hd & it' & Hj & Hal); [by apply Hrest|]. split; [done|].
          assert (j ≠ i). { intros ->. apply Hnot. apply list_elem_of_fmap. by exists (k', i). }
          rewrite list_lookup_insert_ne by done. eauto. }
        destruct (is_due next step) eqn:Hd; [|done]. intros k' j. rewrite elem_of_cons.
        intros [[= -> ->]|Hin]; [|by apply Hh']. split; [done|]. exists tail.
        by rewrite list_lookup_insert_eq by done.
      * destruct (is_due next step); [|done]. by apply NoDup_cons.
      * intros j it'. rewrite list_lookup_insert_Some. intros [(-> & <- & _)|[Hne Hj]] Hnj.
        -- destruct (is_due next step) eqn:Hd; [set_solver|].
           pose proof (due_part_head step next tail Hsort Hd) as H.
           by rewrite due_part_cons, Hd in H.
        -- eapply Hidle; [done|]. rewrite Hp. destruct (is_due next step); set_solver.
    + unfold remaining. rewrite Hp, list_fmap_insert. simpl. constructor.
      rewrite (concat_at (due_part step <$> iterators) i (due_part step (next :: tail)))
        by (by rewrite list_lookup_fmap, Hit).
      rewrite (concat_insert (due_part step <$> iterators) i (due_part step tail))
        by (by rewrite length_fmap).
      rewrite due_part_cons. destruct (is_due next step) eqn:Hd; simpl.
      * by rewrite <-Permutation_middle.
      * done.
Qed.

(** ** Visiting *)

Section Visit.
Context `{SJ : SerdeJson}.

(** The reference: the keys of a list, in order, until the visitor stops. *)
Fixpoint visit_list {S} (tasks : gmap TaskId TaskRecord) (registry_generation : N)
    (visit : Visitor S) (keys : list ReadyKey) (visited : N) (s : S) : option (N * S) :=
  match keys with
  | [] => Some (visited, s)
  | key :: keys =>
      '(continue, visited, s) ← visit_key tasks registry_generation visit key visited s;
      if negb continue then Some (visited, s)
      else visit_list tasks registry_generation visit keys visited s
  end.

Lemma visit_loop_sorted {S} fuel tasks step gen (visit : Visitor S) heap iterators visited s :
  merge_inv step heap iterators → length (remaining step heap iterators) < fuel →
  visit_loop fuel tasks step gen visit heap iterators visited s =
    visit_list tasks gen visit (merge_sort rk_le (remaining step heap iterators)) visited s.
Proof.
  revert heap iterators visited s.
  induction fuel as [|fuel IH]; intros heap iterators visited s Hinv Hfuel; [lia|].
  simpl. destruct (heap_pop heap) as [[[k i] rest]|] eqn:Hpop.
  - destruct (merge_inv_advance _ _ _ _ _ _ Hinv Hpop) as (it & Hit & Hinv' & Hperm).
    rewrite (sort_keys_unique _ _ Hperm), sort_keys_cons.
    2:{ intros k' Hk'. apply (merge_inv_least step heap iterators k i rest Hinv Hpop). rewrite Hperm. set_solver. }
    simpl. destruct (visit_key _ _ _ _ _ _) as [[[continue visited'] s']|]; [|done]. simpl.
    destruct continue; [|done]. simpl. rewrite Hit. simpl.
    rewrite (Permutation_length Hperm) in Hfuel. simpl in Hfuel.
    destruct it as [|next tail]; apply IH; try done; simpl in Hfuel |- *; lia.
  - apply heap_pop_None in Hpop as ->. unfold remaining. simpl.
    assert (concat (due_part step <$> iterators) = []) as ->; [|done].
    destruct Hinv as [_ _ _ Hidle]. apply elem_of_nil_inv. intros k Hk.
    apply list_elem_of_In, in_concat in Hk as (l & Hl%list_elem_of_In & Hk%list_elem_of_In).
    apply list_elem_of_fmap in Hl as (it & -> & [j Hj]%list_elem_of_lookup).
    rewrite (Hidle _ _ Hj) in Hk by (simpl; apply not_elem_of_nil). by apply not_elem_of_nil in Hk.
Qed.

(** The initial heap. *)
Lemma heap_init_rest step index iterators :
  (heap_init step index iterators).2 = tail <$> iterators.
Proof.
  revert index. induction iterators as [|it iterators IH]; intros index; simpl; [done|].
  specialize (IH (Datatypes.S index)). destruct (heap_init _ _ _) as [heap rest].
  simpl in IH. subst rest. by destruct it.
Qed.

Lemma heap_init_elem step index iterators k j :
  (k, j) ∈ (heap_init step index iterators).1 ↔
  index ≤ j ∧ is_due k step = true ∧ ∃ it, iterators !! (j - index) = Some (k :: it).
Proof.
  revert index. induction iterators as [|it iterators IH]; intros index; simpl.
  - split; [by intros ?%not_elem_of_nil|]. naive_solver.
  - specialize (IH (Datatypes.S index)). destruct (heap_init _ _ _) as [heap rest]. simpl in IH.
    assert ((k, j) ∈ heap ↔ index < j ∧ is_due k step = true ∧
      ∃ it0, (it :: iterators) !! (j - index) = Some (k :: it0)) as IH'.
    { rewrite IH. split; intros (? & ? & it' & ?); (split; [lia|]); (split; [done|]); exists it'.
      - by replace (j - index) with (Datatypes.S (j - Datatypes.S index)) by lia.
      - by replace (j - index) with (Datatypes.S (j - Datatypes.S index)) in * by lia. }
    clear IH. destruct it as [|k0 it]; simpl.
    + rewrite IH'. split; intros (? & ? & it' & Hl).
      * split; [lia|]. eauto.
      * split; [|by eauto]. destruct (decide (j = index)) as [->|]; [|lia].
        by rewrite Nat.sub_diag in Hl.
    + destruct (is_due k0 step) eqn:Hd; simpl; rewrite ?elem_of_cons, IH'; split.
      * intros [[= -> ->]|(? & ? & ?)]; [|split; [lia|by eauto]].
        split; [lia|]. split; [done|]. exists it. by rewrite Nat.sub_diag.
      * intros (? & ? & it' & Hl). destruct (decide (j = index)) as [->|]; [left|right].
        -- rewrite Nat.sub_diag in Hl. by simplify_eq/=.
        -- split; [lia|by eauto].
      * intros (? & ? & ?). split; [lia|by eauto].
      * intros (? & Hk & it' & Hl). destruct (decide (j = index)) as [->|].
        -- rewrite Nat.sub_diag in Hl. simplify_eq/=. congruence.
        -- split; [lia|by eauto].
Qed.

Lemma heap_init_NoDup step index iterators : NoDup (heap_init step index iterators).1.*2.
Proof.
  revert index. induction iterators as [|it iterators IH]; intros index; simpl; [constructor|].
  specialize (IH (Datatypes.S index)).
  pose proof (heap_init_elem step (Datatypes.S index) iterators) as Hel.
  destruct (heap_init _ _ _) as [heap rest]. simpl in *. destruct it as [|k it]; simpl; [done|].
  destruct (is_due k step); [|done]. apply NoDup_cons. split; [|done].
  intros ([k' j] & Hj & (? & _)%Hel)%list_elem_of_fmap. simpl in *. lia.
Qed.

Lemma heap_init_remaining step index iterators :
  (∀ it, it ∈ iterators → StronglySorted rk_le it) →
  remaining step (heap_init step index iterators).1 (heap_init step index iterators).2 ≡ₚ
    concat (due_part step <$> iterators).
Proof.
  revert index. induction iterators as [|it iterators IH]; intros index Hs; simpl; [done|].
  specialize (IH (Datatypes.S index) ltac:(set_solver)).
  destruct (heap_init _ _ _) as [heap rest]. unfold remaining in *. simpl in *.
  destruct it as [|k it]; simpl; [done|].
  assert (StronglySorted rk_le (k :: it)) as Hsort by (apply Hs; set_solver).
  destruct (is_due k step) eqn:Hd; simpl.
  - rewrite due_part_cons, Hd. simpl. constructor.
    rewrite <-IH. by rewrite !app_assoc, (Permutation_app_comm (due_part step it)).
  - rewrite (due_part_head step k it) by done. simpl.
    assert (due_part step it = []) as ->; [|by rewrite IH].
    pose proof (due_part_head step k it Hsort Hd) as H. by rewrite due_part_cons, Hd in H.
Qed.

Lemma heap_init_inv step iterators :
  (∀ it, it ∈ iterators → StronglySorted rk_le it) →
  merge_inv step (heap_init step 0 iterators).1 (heap_init step 0 iterators).2.
Proof.
  intros Hs. rewrite heap_init_rest. split.
  - intros i it' (it & -> & Hit%list_elem_of_lookup_2)%list_lookup_fmap_Some.
    specialize (Hs _ Hit). destruct it; [done|]. by apply StronglySorted_inv in Hs as [? _].
  - intros k i (_ & Hd & it & Hit)%heap_init_elem. rewrite Nat.sub_0_r in Hit. split; [done|].
    exists it. rewrite list_lookup_fmap, Hit. split; [done|].
    apply list_elem_of_lookup_2, Hs, StronglySorted_inv in Hit as [_ ?]. done.
  - apply heap_init_NoDup.
  - intros i it' (it & -> & Hit)%list_lookup_fmap_Some Hnot.
    destruct it as [|k it]; [done|]. simpl. destruct (is_due k step) eqn:Hd.
    + exfalso. apply Hnot. apply list_elem_of_fmap. exists (k, i). split; [done|].
      apply heap_init_elem. rewrite Nat.sub_0_r. split; [lia|]. eauto.
    + pose proof (due_part_head step k it) as H. rewrite due_part_cons, Hd in H. apply H; [|done].
      by eapply Hs, list_elem_of_lookup_2.
Qed.

Lemma queue_elements_sorted q : StronglySorted rk_le (queue_elements q).
Proof. apply StronglySorted_merge_sort; apply _. Qed.

(** The due keys of all queues. *)
Definition due_keys (step : N) (queues : list (gset ReadyKey)) : list ReadyKey :=
  concat ((λ q, due_part step (elements q)) <$> queues).

Lemma due_keys_queues step queues :
  concat (due_part step <$> (queue_elements <$> queues)) ≡ₚ due_keys step queues.
Proof.
  unfold due_keys. induction queues as [|q queues IH]; simpl; [done|]. rewrite IH.
  apply Permutation_app_tail. unfold due_part, queue_elements. by rewrite merge_sort_Permutation.
Qed.

(** The merge visits the due keys of all queues in ascending order. *)
Lemma visit_queues_sorted {S} tasks step gen (visit : Visitor S) queues s :
  visit_queues tasks step gen visit queues s =
    visit_list tasks gen visit (merge_sort rk_le (due_keys step queues)) 0 s.
Proof.
  unfold visit_queues. set (its := queue_elements <$> queues).
  assert (∀ it, it ∈ its → StronglySorted rk_le it) as Hs.
  { intros it (q & -> & _)%list_elem_of_fmap. apply queue_elements_sorted. }
  pose proof (heap_init_inv step its Hs) as Hinv.
  pose proof (heap_init_remaining step 0 its Hs) as Hrem.
  destruct (heap_init step 0 its) as [heap rest]. cbn [fst snd] in *.
  rewrite visit_loop_sorted; [|done|].
  - f_equal. apply sort_keys_unique. rewrite Hrem. apply due_keys_queues.
  - rewrite (Permutation_length Hrem). clearbody its. clear.
    assert (length (concat (due_part step <$> its)) ≤ length (concat its)); [|lia].
    induction its as [|it its IH]; [done|]. rewrite fmap_cons. cbn [concat]. rewrite !length_app.
    assert (length (due_part step it) ≤ length it) by apply length_filter. lia.
Qed.
End Visit.
