(* ===== verification/PoolInvariant.v ===== *)
(** * The invariant of the task pool

    What holds of every pool the operations can reach: the indexes are those
    of the task table, the counters count, the history queue and the eviction
    memory are exact, the two wait tables mirror each other, and a record holds
    a lease exactly while it runs.  [Pending] names what an operation in
    progress has not finished yet; it is empty between operations. *)

From S2P Require Import Prelude Contracts TaskRecords TaskIndexes IndexFacts TaskPool.

(** Work an operation still has to do: tasks taken out of the wake and lease
    buckets, terminal tasks not yet in the history queue, and tasks that left
    [Waiting] while the wait tables still name them as parents. *)
Record Pending : Type := MkPending {
  pd_wake : gset TaskId;
  pd_lease : gset TaskId;
  pd_terminal : gset TaskId;
  pd_parent : gset TaskId
}.

Definition settled : Pending := MkPending ∅ ∅ ∅ ∅.

Section Invariant.
Context `{SJ : SerdeJson}.
Implicit Types tasks : gmap TaskId TaskRecord.
Implicit Types r : TaskRecord.
Implicit Types p : TaskPool.

(** ** One record *)

(** A running record holds a lease on itself by the runner that claimed it;
    any other record holds none. *)
Definition record_ok (id : TaskId) r : Prop :=
  rec_id r = id ∧ r_status r ≠ Created ∧
  match r_status r, r_lease r with
  | Running, Some lease =>
      l_task_id lease = id ∧ r_claimed_by r = Some (l_runner_id lease) ∧
      r_owner_runner r = Some (l_runner_id lease) ∧
      t_lease_id (r_task r) = Some (l_lease_id lease) ∧
      l_attempt_generation lease = r_attempt_generation r ∧
      (∀ step, l_expires_at_step lease = Some step → (step ≤ u64_max)%N)
  | Running, None => False
  | _, lease => lease = None ∧ r_claimed_by r = None
  end.

Definition records_ok tasks : Prop := ∀ id r, tasks !! id = Some r → record_ok id r.

Lemma records_ok_keyed tasks : records_ok tasks → keyed tasks.
Proof. intros H id r Hl. by destruct (H _ _ Hl). Qed.

Lemma records_ok_insert tasks id r :
  records_ok tasks → record_ok id r → records_ok (<[id := r]> tasks).
Proof. intros H Hr id' r' [[-> ->]|[? ?]]%lookup_insert_Some; auto. Qed.

Lemma records_ok_delete tasks id : records_ok tasks → records_ok (delete id tasks).
Proof. intros H id' r' [? ?]%lookup_delete_Some; auto. Qed.

(** ** Counters *)

Definition status_entry r : option TaskStatus := Some (r_status r).

Definition stats_ok tasks (s : TaskPoolStatistics) : Prop :=
  ∀ status, status ≠ Created → status_counter status s = count_entries status_entry tasks status.

Lemma status_transition_counter from to s status :
  status ≠ Created → from ≠ Some Created → to ≠ Some Created →
  status_counter status (record_status_transition from to s) =
    let c := if decide (from = Some status) then saturating_sub (status_counter status s) 1
             else status_counter status s in
    if decide (to = Some status) then saturating_add c 1 else c.
Proof.
  intros Hs Hf Ht. unfold record_status_transition, option_filter, not_created.
  destruct from as [f|], to as [t|]; simpl;
    repeat rewrite bool_decide_eq_true_2 by congruence;
    rewrite ?status_counter_update by done;
    repeat case_decide; simplify_eq; congruence.
Qed.

(** Adding a record, with [size tasks] below [usize::MAX] so that the
    saturating counter does not saturate. *)
Lemma stats_ok_insert tasks s id r :
  tasks !! id = None → r_status r ≠ Created → (N.of_nat (size tasks) < usize_max)%N →
  stats_ok tasks s →
  stats_ok (<[id := r]> tasks) (record_status_transition None (Some (r_status r)) s).
Proof.
  intros Hid Hc Hsize Hs status Hst.
  rewrite status_transition_counter, count_entries_insert by congruence.
  simpl. rewrite (Hs _ Hst). unfold status_entry.
  pose proof (count_entries_bound (λ r, Some (r_status r)) tasks status) as Hb.
  case_decide; simplify_eq; [|lia].
  rewrite saturating_add_exact; [done|]. unfold usize_max, u64_max in *. lia.
Qed.

Lemma stats_ok_delete tasks s id r :
  tasks !! id = Some r → r_status r ≠ Created → stats_ok tasks s →
  stats_ok (delete id tasks) (record_status_transition (Some (r_status r)) None s).
Proof.
  intros Hid Hc Hs status Hst.
  rewrite status_transition_counter, (count_entries_delete _ _ _ r) by congruence.
  simpl. rewrite (Hs _ Hst). unfold status_entry, saturating_sub.
  case_decide; simplify_eq; lia.
Qed.

Lemma stats_ok_replace tasks s id r r' :
  tasks !! id = Some r → r_status r ≠ Created → r_status r' ≠ Created →
  (N.of_nat (size tasks) ≤ usize_max)%N → stats_ok tasks s →
  stats_ok (<[id := r']> tasks)
    (record_status_transition (Some (r_status r)) (Some (r_status r')) s).
Proof.
  intros Hid Hc Hc' Hsize Hs status Hst.
  rewrite <-insert_delete_eq, count_entries_insert by apply lookup_delete_eq.
  rewrite status_transition_counter, (count_entries_delete _ _ _ r) by congruence.
  simpl. rewrite (Hs _ Hst).
  assert (count_entries status_entry tasks status =
    count_entries status_entry (delete id tasks) status +
    if decide (status_entry r = Some status) then 1 else 0)%N as Heq.
  { rewrite <-(insert_delete_id tasks id r) at 1 by done.
    by rewrite count_entries_insert by apply lookup_delete_eq. }
  pose proof (count_entries_bound status_entry (delete id tasks) status) as Hb.
  rewrite map_size_delete_Some in Hb by eauto.
  assert (size tasks ≠ 0) by (intros ?%map_size_empty_inv; subst; by rewrite lookup_empty in Hid).
  unfold status_entry in *. rewrite Heq. unfold saturating_sub.
  assert (∀ n, (n < usize_max)%N → saturating_add n 1 = (n + 1)%N) as Hsat.
  { intros n Hn. apply saturating_add_exact. unfold usize_max, u64_max in *. lia. }
  repeat case_decide; simplify_eq; rewrite ?Hsat by lia; lia.
Qed.

(** Counters other than the status counters. *)
Lemma stats_ok_counters tasks s s' :
  (∀ status, status_counter status s' = status_counter status s) →
  stats_ok tasks s → stats_ok tasks s'.
Proof. intros Hs H status Hst. by rewrite Hs, H. Qed.

(** ** Terminal history *)

Definition is_terminal tasks (id : TaskId) : Prop :=
  ∃ r, tasks !! id = Some r ∧ is_terminal_status (r_status r) = true.

(** With retention on, the history queue lists the terminal tasks, once each. *)
Definition history_ok (pending : gset TaskId) (retention : option TaskHistoryRetention)
    (order : list TaskId) tasks : Prop :=
  match retention with
  | None => order = []
  | Some _ => NoDup order ∧ ∀ id, id ∈ order ↔ id ∉ pending ∧ is_terminal tasks id
  end.

Lemma is_terminal_insert tasks id r id' :
  is_terminal (<[id := r]> tasks) id' ↔
  if decide (id' = id) then is_terminal_status (r_status r) = true else is_terminal tasks id'.
Proof.
  unfold is_terminal. case_decide as Hid.
  - subst id'. rewrite lookup_insert_eq. naive_solver.
  - by rewrite lookup_insert_ne.
Qed.

Lemma is_terminal_delete tasks id id' :
  is_terminal (delete id tasks) id' ↔ id' ≠ id ∧ is_terminal tasks id'.
Proof.
  unfold is_terminal. split.
  - intros (r & [? ?]%lookup_delete_Some & ?). eauto.
  - intros [Hne (r & ? & ?)]. exists r. by rewrite lookup_delete_ne.
Qed.

(** A record that is terminal neither before nor after does not matter. *)
Lemma history_ok_live pending retention order tasks id r :
  is_terminal_status (r_status r) = false → ¬ is_terminal tasks id →
  history_ok pending retention order tasks →
  history_ok pending retention order (<[id := r]> tasks).
Proof.
  intros Hr Hid. unfold history_ok. destruct retention; [|done]. intros [Hnd H].
  split; [done|]. intros id'. rewrite H, is_terminal_insert.
  case_decide as E; [subst id'|done]. rewrite Hr. intuition congruence.
Qed.

(** A record that becomes terminal is pending until it is recorded. *)
Lemma history_ok_finish pending retention order tasks id r :
  ¬ is_terminal tasks id → history_ok pending retention order tasks →
  history_ok ({[id]} ∪ pending) retention order (<[id := r]> tasks).
Proof.
  intros Hid. unfold history_ok. destruct retention; [|done]. intros [Hnd H].
  split; [done|]. intros id'. rewrite H, is_terminal_insert. case_decide; set_solver.
Qed.

Lemma history_ok_fresh pending retention order tasks id :
  history_ok pending retention order tasks → ¬ is_terminal tasks id → id ∉ order.
Proof.
  unfold history_ok. destruct retention.
  - intros [_ H] Ht Hin. apply Ht. by apply H.
  - intros -> _. apply not_elem_of_nil.
Qed.

Lemma history_ok_pending pending pending' retention order tasks :
  (∀ id, is_terminal tasks id → id ∈ pending ↔ id ∈ pending') →
  history_ok pending retention order tasks → history_ok pending' retention order tasks.
Proof.
  intros Hp. unfold history_ok. destruct retention; [|done]. intros [Hnd H].
  split; [done|]. intros id. rewrite H. split; intros [? Ht]; specialize (Hp _ Ht); tauto.
Qed.

(** ** Eviction memory *)

Definition evicted_ok (retention : option TaskHistoryRetention) (order : list TaskId)
    (ids : gset TaskId) tasks : Prop :=
  NoDup order ∧ ids = list_to_set order ∧ (∀ id, id ∈ order → tasks !! id = None) ∧
  match retention with
  | None => order = []
  | Some retention => (len order ≤ hr_max_evicted_task_ids retention)%N
  end.

Lemma evicted_ok_insert retention order ids tasks id r :
  id ∉ ids → evicted_ok retention order ids tasks →
  evicted_ok retention order ids (<[id := r]> tasks).
Proof.
  intros Hid (Hnd & -> & Hno & Hret). split_and!; try done.
  intros id' Hin. rewrite lookup_insert_ne; [by apply Hno|]. set_solver.
Qed.

Lemma evicted_ok_replace retention order ids tasks id r :
  is_Some (tasks !! id) → evicted_ok retention order ids tasks →
  evicted_ok retention order ids (<[id := r]> tasks).
Proof.
  intros [r' Hr'] H. apply evicted_ok_insert; [|done]. destruct H as (_ & -> & Hno & _).
  rewrite elem_of_list_to_set. intros Hin. apply Hno in Hin. congruence.
Qed.

(** Trimming drops the oldest ids and keeps at most [capacity]. *)
Lemma trim_evicted_spec order capacity :
  NoDup order →
  ∃ k, trim_evicted order (list_to_set order) capacity = (drop k order, list_to_set (drop k order)) ∧
       (len (drop k order) ≤ capacity)%N.
Proof.
  induction order as [|x order IH]; intros Hnd.
  - exists 0. simpl. split; [done|]. unfold len. simpl. lia.
  - simpl. destruct (N.ltb_spec capacity (len (x :: order))) as [Hlt|Hge].
    + apply NoDup_cons in Hnd as [Hx Hnd]. destruct (IH Hnd) as (k & Hk & Hlen).
      exists (S k). simpl. rewrite <-Hk. split; [|done]. f_equal. set_solver.
    + exists 0. simpl. split; [done|]. done.
Qed.

(** ** Wait tables *)

Definition wait_mem (m : gmap TaskId (list TaskAwait)) (key : TaskId) (w : TaskAwait) : Prop :=
  ∃ l, m !! key = Some l ∧ w ∈ l.

Definition child_of (w : TaskAwait) : TaskId := h_task_id (aw_child w).

(** The tables mirror each other; a parent waits for one child at a time and
    is [Waiting]; an awaited child is in the task table. *)
Record waits_ok (pending : gset TaskId) (by_child by_parent : gmap TaskId (list TaskAwait)) tasks :
    Prop := {
  wo_child : ∀ c w, wait_mem by_child c w → child_of w = c ∧ wait_mem by_parent (aw_parent_task_id w) w;
  wo_parent : ∀ q w, wait_mem by_parent q w → aw_parent_task_id w = q ∧ wait_mem by_child (child_of w) w;
  wo_nonempty : ∀ c, by_child !! c ≠ Some [];
  wo_single : ∀ q l, by_parent !! q = Some l → ∃ w, l = [w];
  wo_waiting : ∀ q, is_Some (by_parent !! q) →
    q ∈ pending ∨ ∃ r, tasks !! q = Some r ∧ r_status r = Waiting;
  wo_present : ∀ c, is_Some (by_child !! c) → is_Some (tasks !! c)
}.

Lemma retain_waits_lookup key keep m k :
  retain_waits key keep m !! k =
    if decide (k = key)
    then match filter (λ w, keep w = true) <$> m !! key with Some (w :: l) => Some (w :: l) | _ => None end
    else m !! k.
Proof.
  unfold retain_waits. case_decide as E.
  - subst k. destruct (m !! key) as [l|] eqn:El; simpl; [|done].
    destruct (filter _ l); [by rewrite lookup_delete_eq|by rewrite lookup_insert_eq].
  - destruct (m !! key) as [l|]; [|done]. simpl.
    destruct (filter _ l); [rewrite lookup_delete_ne by done|]; by rewrite lookup_insert_ne.
Qed.

Lemma retain_waits_mem key keep m k w :
  wait_mem (retain_waits key keep m) k w ↔ wait_mem m k w ∧ (k = key → keep w = true).
Proof.
  unfold wait_mem. rewrite retain_waits_lookup. case_decide as E; [subst k|naive_solver].
  destruct (m !! key) as [l|]; simpl; [|naive_solver].
  transitivity (w ∈ filter (λ w, keep w = true) l).
  - destruct (filter _ l) as [|w' l']; [|naive_solver].
    split; [naive_solver|]. by intros ?%not_elem_of_nil.
  - rewrite list_elem_of_filter. naive_solver.
Qed.

Lemma foldl_retain_mem (key : TaskAwait → TaskId) keep (l : list TaskAwait) m k w :
  wait_mem (foldl (λ m a, retain_waits (key a) keep m) m l) k w ↔
  wait_mem m k w ∧ ∀ a, a ∈ l → k = key a → keep w = true.
Proof.
  revert m. induction l as [|a l IH]; intros m; simpl.
  - split; [|naive_solver]. intros H. split; [done|]. by intros a ?%not_elem_of_nil.
  - rewrite IH, retain_waits_mem. setoid_rewrite elem_of_cons. naive_solver.
Qed.

Lemma foldl_retain_ind (P : gmap TaskId (list TaskAwait) → Prop) (key : TaskAwait → TaskId) keep l m :
  P m → (∀ m k, P m → P (retain_waits k keep m)) →
  P (foldl (λ m a, retain_waits (key a) keep m) m l).
Proof. revert m. induction l as [|a l IH]; intros m Hm HP; simpl; eauto. Qed.

Lemma retain_nonempty key keep m :
  (∀ c, m !! c ≠ Some []) → ∀ c, retain_waits key keep m !! c ≠ Some [].
Proof. intros H c. rewrite retain_waits_lookup. case_decide; [|done]. by repeat case_match. Qed.

Lemma retain_single key keep m :
  (∀ q l, m !! q = Some l → ∃ w, l = [w]) →
  ∀ q l, retain_waits key keep m !! q = Some l → ∃ w, l = [w].
Proof.
  intros H q l. rewrite retain_waits_lookup. case_decide; [|apply H].
  destruct (m !! key) as [l'|] eqn:E; [|done]. destruct (H _ _ E) as [w ->].
  simpl. rewrite filter_cons, filter_nil. case_decide; naive_solver.
Qed.

Lemma wait_mem_delete (m : gmap TaskId (list TaskAwait)) k k' w :
  wait_mem (delete k m) k' w ↔ wait_mem m k' w ∧ k' ≠ k.
Proof. unfold wait_mem. setoid_rewrite lookup_delete_Some. naive_solver. Qed.

(** After [remove_waits_for_parent] no wait names the parent. *)
Lemma waits_ok_remove_parent pending q p :
  waits_ok ({[q]} ∪ pending) (p_waits_by_child p) (p_waits_by_parent p) (p_tasks p) →
  let p' := remove_waits_for_parent q p in
  waits_ok pending (p_waits_by_child p') (p_waits_by_parent p') (p_tasks p') ∧
  p_waits_by_parent p' !! q = None.
Proof.
  intros [Hc Hp Hne Hs Hw Hpr]. simpl. split; [|apply lookup_delete_eq].
  assert (∀ c w, wait_mem (foldl (λ m a, retain_waits (h_task_id (aw_child a))
      (λ item, negb (bool_decide (aw_parent_task_id item = q))) m)
      (p_waits_by_child p) (or_default [] (p_waits_by_parent p !! q))) c w ↔
    wait_mem (p_waits_by_child p) c w ∧ aw_parent_task_id w ≠ q) as Hmem.
  { intros c w. rewrite foldl_retain_mem. split; intros [Hin H]; (split; [done|]).
    - intros Hq. destruct (Hc _ _ Hin) as [Hcw (l & Hl & Hwl)]. rewrite Hq in Hl.
      specialize (H w). rewrite Hl in H. simpl in H. specialize (H Hwl (eq_sym Hcw)).
      by rewrite bool_decide_eq_true_2 in H.
    - intros a _ _. by rewrite bool_decide_eq_false_2. }
  split.
  - intros c w [H Hq]%Hmem. destruct (Hc _ _ H) as [? ?]. split; [done|].
    by apply wait_mem_delete.
  - intros q' w [H Hq]%wait_mem_delete. destruct (Hp _ _ H) as [<- ?]. split; [done|].
    by apply Hmem.
  - apply (foldl_retain_ind (λ m, ∀ c, m !! c ≠ Some [])); [done|]. intros. by apply retain_nonempty.
  - intros q' l [_ Hl]%lookup_delete_Some. by eapply Hs.
  - intros q' [l [Hne' Hl]%lookup_delete_Some].
    destruct (Hw q') as [?|?]; [by eexists|set_solver|by right].
  - intros c [l Hl]. apply Hpr.
    assert (∃ w, wait_mem (p_waits_by_child p) c w) as [w (l' & ? & _)]; [|by eexists].
    destruct l as [|w l].
    + exfalso. revert Hl.
      apply (foldl_retain_ind (λ m, m !! c ≠ Some [])); [done|].
      intros m k Hm. rewrite retain_waits_lookup. case_decide; [by repeat case_match|done].
    + exists w. apply (proj1 (Hmem c w)). exists (w :: l). split; [done|]. set_solver.
Qed.

(** [take_waits_for_child] removes exactly the waits on the child. *)
Lemma waits_ok_take_child pending c p :
  waits_ok pending (p_waits_by_child p) (p_waits_by_parent p) (p_tasks p) →
  let p' := (take_waits_for_child_raw c p).2 in
  waits_ok pending (p_waits_by_child p') (p_waits_by_parent p') (p_tasks p') ∧
  p_waits_by_child p' !! c = None.
Proof.
  intros [Hc Hp Hne Hs Hw Hpr]. simpl. split; [|apply lookup_delete_eq].
  assert (∀ q w, wait_mem (foldl (λ m a, retain_waits (aw_parent_task_id a)
      (λ item, negb (bool_decide (h_task_id (aw_child item) = c))) m)
      (p_waits_by_parent p) (or_default [] (p_waits_by_child p !! c))) q w ↔
    wait_mem (p_waits_by_parent p) q w ∧ child_of w ≠ c) as Hmem.
  { intros q w. rewrite foldl_retain_mem. split; intros [Hin H]; (split; [done|]).
    - intros Hq. destruct (Hp _ _ Hin) as [Hqw (l & Hl & Hwl)]. rewrite Hq in Hl.
      specialize (H w). rewrite Hl in H. simpl in H. specialize (H Hwl (eq_sym Hqw)).
      by rewrite bool_decide_eq_true_2 in H.
    - intros a _ _. by rewrite bool_decide_eq_false_2. }
  assert (∀ q l, foldl (λ m a, retain_waits (aw_parent_task_id a)
      (λ item, negb (bool_decide (h_task_id (aw_child item) = c))) m)
      (p_waits_by_parent p) (or_default [] (p_waits_by_child p !! c)) !! q = Some l →
      ∃ w, l = [w]) as Hs'.
  { apply (foldl_retain_ind (λ m, ∀ q l, m !! q = Some l → ∃ w, l = [w])); [done|].
    intros m k Hm. by apply retain_single. }
  split.
  - intros c' w [H Hc']%wait_mem_delete. destruct (Hc _ _ H) as [<- ?]. split; [done|].
    by apply Hmem.
  - intros q w [H Hcw]%Hmem. destruct (Hp _ _ H) as [? ?]. split; [done|].
    by apply wait_mem_delete.
  - intros c' [_ H]%lookup_delete_Some. by eapply Hne.
  - done.
  - intros q [l Hl]. destruct (Hs' _ _ Hl) as [w ->].
    apply Hw. assert (wait_mem (p_waits_by_parent p) q w) as (l & ? & _); [|by eexists].
    apply (proj1 (Hmem q w)). exists [w]. split; [done|]. set_solver.
  - intros c' [l [? Hl]%lookup_delete_Some]. apply Hpr. by eexists.
Qed.

(** A new wait of a task that was running. *)
Lemma waits_ok_push pending by_child by_parent tasks w r :
  waits_ok pending by_child by_parent tasks →
  by_parent !! aw_parent_task_id w = None →
  tasks !! aw_parent_task_id w = Some r → r_status r = Waiting →
  is_Some (tasks !! child_of w) →
  waits_ok pending (push_wait (child_of w) w by_child)
    (push_wait (aw_parent_task_id w) w by_parent) tasks.
Proof.
  intros [Hc Hp Hne Hs Hw Hpr] Hnone Hr Hst Hchild.
  assert (∀ (m : gmap TaskId (list TaskAwait)) k k' w',
    wait_mem (push_wait k w m) k' w' ↔ wait_mem m k' w' ∨ k' = k ∧ w' = w) as Hpush.
  { intros m k k' w'. unfold wait_mem, push_wait.
    destruct (decide (k' = k)) as [->|Hk].
    - rewrite lookup_insert_eq. destruct (m !! k) as [l|]; simpl.
      + setoid_rewrite (ex_Some_eq _ (λ l, w' ∈ l)). rewrite elem_of_app, list_elem_of_singleton. naive_solver.
      + setoid_rewrite (ex_Some_eq _ (λ l, w' ∈ l)). rewrite list_elem_of_singleton. naive_solver.
    - rewrite lookup_insert_ne by done. naive_solver. }
  split.
  - intros c w' [H|[-> ->]]%Hpush.
    + destruct (Hc _ _ H) as [? ?]. split; [done|]. apply Hpush. by left.
    + split; [done|]. apply Hpush. by right.
  - intros q w' [H|[-> ->]]%Hpush.
    + destruct (Hp _ _ H) as [? ?]. split; [done|]. apply Hpush. by left.
    + split; [done|]. apply Hpush. by right.
  - intros c. unfold push_wait. destruct (decide (c = child_of w)) as [->|].
    + rewrite lookup_insert_eq. by destruct (or_default _ _).
    + by rewrite lookup_insert_ne.
  - intros q l. unfold push_wait. rewrite Hnone. simpl.
    intros [[<- <-]|[? Hl]]%lookup_insert_Some; [by eexists|by eapply Hs].
  - unfold push_wait. intros q [l [[<- <-]|[? Hl]]%lookup_insert_Some]; [by right; eauto|].
    apply Hw. by eexists.
  - unfold push_wait. intros c [l [[<- <-]|[? Hl]]%lookup_insert_Some]; [done|]. apply Hpr. by eexists.
Qed.

(** The wait tables under changes of the task table. *)
Lemma waits_ok_tasks pending pending' by_child by_parent tasks tasks' :
  (∀ id, is_Some (by_child !! id) → is_Some (tasks !! id) → is_Some (tasks' !! id)) →
  (∀ id, is_Some (by_parent !! id) →
     id ∈ pending ∨ (∃ r, tasks !! id = Some r ∧ r_status r = Waiting) →
     id ∈ pending' ∨ (∃ r, tasks' !! id = Some r ∧ r_status r = Waiting)) →
  waits_ok pending by_child by_parent tasks → waits_ok pending' by_child by_parent tasks'.
Proof. intros Hd Hq []. split; eauto. Qed.

Lemma waits_ok_insert pending by_child by_parent tasks id r :
  tasks !! id = None → waits_ok pending by_child by_parent tasks →
  waits_ok pending by_child by_parent (<[id := r]> tasks).
Proof.
  intros Hid. apply waits_ok_tasks.
  - intros id' _ Hs. rewrite lookup_insert. case_decide; [by eexists|done].
  - intros id' _ [?|(r' & Hr' & ?)]; [by left|]. right. exists r'.
    rewrite lookup_insert_ne by congruence. done.
Qed.

(** A record that leaves [Waiting] is pending as a parent. *)
Lemma waits_ok_replace pending by_child by_parent tasks id r :
  waits_ok pending by_child by_parent tasks →
  waits_ok ({[id]} ∪ pending) by_child by_parent (<[id := r]> tasks).
Proof.
  apply waits_ok_tasks.
  - intros id' _ Hs. rewrite lookup_insert. case_decide; [by eexists|done].
  - intros id' _ Hq. destruct (decide (id' = id)) as [->|Hne]; [set_solver|].
    rewrite lookup_insert_ne by done. set_solver.
Qed.

Lemma waits_ok_not_parent pending by_child by_parent tasks id r :
  waits_ok pending by_child by_parent tasks → id ∉ pending →
  tasks !! id = Some r → r_status r ≠ Waiting → by_parent !! id = None.
Proof.
  intros [] Hid Hr Hst. apply eq_None_not_Some. intros Hs.
  destruct (wo_waiting0 _ Hs) as [?|(r' & ? & ?)]; [done|]. congruence.
Qed.

(** Dropping pending parents the table does not mention. *)
Lemma waits_ok_drop pending pending' by_child by_parent tasks :
  (∀ id, id ∈ pending → id ∈ pending' ∨ by_parent !! id = None) →
  waits_ok pending by_child by_parent tasks → waits_ok pending' by_child by_parent tasks.
Proof.
  intros Hd. apply waits_ok_tasks; [done|]. intros id [l Hl] [Hin|?]; [|by right].
  destruct (Hd _ Hin) as [?|?]; [by left|congruence].
Qed.

Lemma waits_ok_delete pending by_child by_parent tasks id :
  by_child !! id = None → by_parent !! id = None →
  waits_ok pending by_child by_parent tasks → waits_ok pending by_child by_parent (delete id tasks).
Proof.
  intros Hc Hp. apply waits_ok_tasks.
  - intros id' [l Hl] Hs. rewrite lookup_delete_ne by congruence. done.
  - intros id' [l Hl] [?|(r & ? & ?)]; [by left|]. right. exists r.
    rewrite lookup_delete_ne by congruence. done.
Qed.

(** ** Cached payload sizes *)

(** What [enqueue] computed for the record's payload. *)
Definition payload_bytes r : option N :=
  match as_value (t_payload (r_task r)) with
  | Some value => match compact_json_len value with Ok n => Some n | Err _ => None end
  | None => None
  end.

Definition payload_ok (bytes : gmap TaskId N) tasks : Prop :=
  dom bytes = dom tasks ∧ ∀ id r, tasks !! id = Some r → bytes !! id = payload_bytes r.

Lemma payload_ok_insert bytes tasks id r n :
  payload_bytes r = Some n → payload_ok bytes tasks → payload_ok (<[id := n]> bytes) (<[id := r]> tasks).
Proof.
  intros Hn [Hd H]. split; [by rewrite !dom_insert_L, Hd|].
  intros id' r' [[<- <-]|[? ?]]%lookup_insert_Some; [by rewrite lookup_insert_eq|].
  rewrite lookup_insert_ne by done. eauto.
Qed.

Lemma payload_ok_replace bytes tasks id r r' :
  tasks !! id = Some r → payload_bytes r' = payload_bytes r → payload_ok bytes tasks →
  payload_ok bytes (<[id := r']> tasks).
Proof.
  intros Hid Hp [Hd H]. split; [by rewrite dom_insert_lookup_L by eauto|].
  intros id' r'' [[<- <-]|[? ?]]%lookup_insert_Some; [rewrite Hp|]; eauto.
Qed.

Lemma payload_ok_delete bytes tasks id :
  payload_ok bytes tasks → payload_ok (delete id bytes) (delete id tasks).
Proof.
  intros [Hd H]. split; [by rewrite !dom_delete_L, Hd|].
  intros id' r [? ?]%lookup_delete_Some. rewrite lookup_delete_ne by done. eauto.
Qed.

Lemma payload_ok_fmap bytes tasks f :
  (∀ r, payload_bytes (f r) = payload_bytes r) → payload_ok bytes tasks → payload_ok bytes (f <$> tasks).
Proof.
  intros Hf [Hd H]. split; [by rewrite dom_fmap_L|].
  intros id r (r' & <- & Hr)%lookup_fmap_Some. rewrite Hf. eauto.
Qed.

(** ** The invariant *)

Definition cache_ok (cache : gmap string (list ReadySelector)) : Prop :=
  (∀ runner_id l, cache !! runner_id = Some l → l = build_ready_selectors runner_id) ∧
  size cache ≤ READY_SELECTOR_CACHE_CAPACITY.

Record pool_inv_at (d : Pending) p : Prop := {
  pi_records : records_ok (p_tasks p);
  pi_indexes : indexes_for (p_tasks p) (pd_wake d) (pd_lease d) (p_indexes p);
  pi_stats : stats_ok (p_tasks p) (p_statistics p);
  pi_size : (N.of_nat (size (p_tasks p)) ≤ usize_max)%N;
  pi_history : history_ok (pd_terminal d) (p_history_retention p) (p_terminal_order p) (p_tasks p);
  pi_pending : ∀ id, id ∈ pd_terminal d → is_terminal (p_tasks p) id;
  pi_evicted : evicted_ok (p_history_retention p) (p_evicted_task_order p) (p_evicted_task_ids p) (p_tasks p);
  pi_waits : waits_ok (pd_parent d) (p_waits_by_child p) (p_waits_by_parent p) (p_tasks p);
  pi_payload : payload_ok (p_payload_wire_bytes p) (p_tasks p);
  pi_cache : cache_ok (p_ready_selector_cache p)
}.

Definition pool_inv : TaskPool → Prop := pool_inv_at settled.

Lemma pool_inv_default : pool_inv TaskPool_default.
Proof.
  split; simpl; try done.
  - apply indexes_for_empty.
  - intros [] ?; reflexivity || congruence.
  - split_and!; [constructor|done| |done]. set_solver.
  - split; intros.
    all: repeat match goal with H : wait_mem _ _ _ |- _ => destruct H as (? & ? & _)
                         | H : is_Some _ |- _ => destruct H as [? ?] end.
    all: try match goal with H : ∅ !! _ = _ |- _ => by rewrite lookup_empty in H end.
    by rewrite lookup_empty.
  - split; [|by rewrite map_size_empty; lia].
    intros id l Hl. by rewrite lookup_empty in Hl.
Qed.

(** ** Mutation of one record *)

Definition mutated (id : TaskId) r r' p : TaskPool :=
  p <| p_tasks ::= insert id r' |>
    <| p_indexes ::= λ ix, update_record (update_record ix r false) r' true |>.

Lemma mutate_record_indexed_Some {R} id (f : TaskRecord → RuntimeResult R * TaskRecord) p r :
  p_tasks p !! id = Some r →
  mutate_record_indexed id f p = Some ((f r).1, mutated id r (f r).2 p).
Proof.
  intros Hid. unfold mutate_record_indexed, bind, get, modify, ret, expect,
    remove_record_indexes, insert_record_indexes, update_record_indexes.
  repeat (rewrite Hid; cbn -[update_record]).
  by rewrite lookup_insert_eq.
Qed.

Lemma mutate_record_indexed_None {R} id (f : TaskRecord → RuntimeResult R * TaskRecord) p :
  p_tasks p !! id = None →
  mutate_record_indexed id f p =
    Some (runtime_failure ERR_TASK_NOT_FOUND "runtime.task_pool" ("task." +:+ id), p).
Proof. intros Hid. unfold mutate_record_indexed, bind, get. by rewrite Hid. Qed.

Lemma mutated_indexes id r r' p pw pl :
  records_ok (p_tasks p) → p_tasks p !! id = Some r → rec_id r' = id →
  indexes_for (p_tasks p) pw pl (p_indexes p) →
  indexes_for (<[id := r']> (p_tasks p)) (pw ∖ {[id]}) (pl ∖ {[id]}) (p_indexes (mutated id r r' p)).
Proof.
  intros Hk%records_ok_keyed Hid Hr' Hix. simpl. rewrite <-insert_delete_eq.
  apply indexes_for_insert; [apply lookup_delete_eq|set_solver..|].
  apply (indexes_for_pending _ pw pl).
  - intros id' r''. intros [_ ?]%lookup_delete_Some. by apply Hk.
  - intros id' [r'' [? _]%lookup_delete_Some]. set_solver.
  - by apply indexes_for_delete.
Qed.

(** Writing a record back unchanged leaves the pool unchanged. *)
Lemma mutated_same id r p :
  pool_inv p → p_tasks p !! id = Some r → mutated id r r p = p.
Proof.
  intros [] Hid. unfold mutated.
  assert (update_record (update_record (p_indexes p) r false) r true = p_indexes p) as Hix.
  { apply (indexes_for_unique (p_tasks p) ∅ ∅); [|done].
    assert (rec_id r = id) by (by eapply records_ok_keyed).
    pose proof (mutated_indexes id r r p ∅ ∅) as Hm. rewrite insert_id in Hm by done.
    eapply indexes_for_pending; [by apply records_ok_keyed| |by apply Hm].
    set_solver. }
  unfold set_field, set_p_tasks, set_p_indexes. cbn -[update_record].
  rewrite Hix, insert_id by done. by destruct p.
Qed.

(** The effect of a status transition on the invariant. *)
Definition after_transition (id : TaskId) (terminal : bool) (d : Pending) : Pending :=
  MkPending (pd_wake d ∖ {[id]}) (pd_lease d ∖ {[id]})
    (if terminal then {[id]} ∪ pd_terminal d else pd_terminal d) ({[id]} ∪ pd_parent d).

Lemma not_terminal_lookup tasks id r :
  tasks !! id = Some r → is_terminal_status (r_status r) = false → ¬ is_terminal tasks id.
Proof. intros Hid Hr (r' & ? & ?). congruence. Qed.

Lemma transition_inv d p id r r' :
  pool_inv_at d p → p_tasks p !! id = Some r → record_ok id r' →
  is_terminal_status (r_status r) = false → payload_bytes r' = payload_bytes r →
  pool_inv_at (after_transition id (is_terminal_status (r_status r')) d)
    ((mutated id r r' p) <| p_statistics ::=
        record_status_transition (Some (r_status r)) (Some (r_status r')) |>).
Proof.
  intros [] Hid Hr' Hlive Hpl. destruct (pi_records0 _ _ Hid) as (Hk & Hc & _).
  destruct Hr' as (Hk' & Hc' & ?). split; cbn -[update_record].
  - by apply records_ok_insert.
  - by apply mutated_indexes.
  - by apply stats_ok_replace.
  - by rewrite map_size_insert_Some by eauto.
  - destruct (is_terminal_status (r_status r')) eqn:Ht.
    + apply history_ok_finish; [|done]. by eapply not_terminal_lookup.
    + apply history_ok_live; [done| |done]. by eapply not_terminal_lookup.
  - assert (¬ is_terminal (p_tasks p) id) as Hnt by (by eapply not_terminal_lookup).
    intros id'. rewrite is_terminal_insert. case_decide as E; [subst id'|].
    + destruct (is_terminal_status (r_status r')); [done|]. intros Hin. naive_solver.
    + destruct (is_terminal_status (r_status r')); [|by auto]. set_solver.
  - by apply evicted_ok_replace.
  - by apply waits_ok_replace.
  - by eapply payload_ok_replace.
  - done.
Qed.
End Invariant.
