(* ===== verification/PoolHistory.v ===== *)
(** * Terminal history: compaction terminates and preserves the invariant

    [compact_terminal_history] evicts terminal records, oldest first, until
    the retention bound holds or only records a wait still mentions are left;
    it never runs out of fuel and never misses a record. *)

From S2P Require Import Prelude Contracts TaskRecords TaskIndexes IndexFacts TaskPool PoolInvariant.

Section History.
Context `{SJ : SerdeJson}.
Implicit Types r : TaskRecord.
Implicit Types p : TaskPool.

(** What eviction may change: terminal records leave the table, nothing else
    moves. *)
Record evicts p p' : Prop := {
  ev_tasks : p_tasks p' ⊆ p_tasks p;
  ev_live : ∀ id r, p_tasks p !! id = Some r → is_terminal_status (r_status r) = false →
              p_tasks p' !! id = Some r;
  ev_protected : ∀ id r, p_tasks p !! id = Some r → history_protected p id = true →
              p_tasks p' !! id = Some r;
  ev_by_child : p_waits_by_child p' = p_waits_by_child p;
  ev_by_parent : p_waits_by_parent p' = p_waits_by_parent p;
  ev_retention : p_history_retention p' = p_history_retention p;
  ev_sequence : p_next_sequence p' = p_next_sequence p
}.

#[export] Instance evicts_preorder : PreOrder evicts.
Proof.
  split.
  - intros p. by split.
  - intros p q s [] []. split.
    + by etrans.
    + eauto.
    + intros id r Hid Hp. apply ev_protected1; [by apply ev_protected0|].
      unfold history_protected in *. by rewrite ev_by_child0, ev_by_parent0.
    + by etrans.
    + by etrans.
    + by etrans.
    + by etrans.
Qed.

Lemma evicts_lookup p p' id r :
  evicts p p' → p_tasks p' !! id = Some r → p_tasks p !! id = Some r.
Proof. intros [] Hid. by eapply lookup_weaken. Qed.

(** ** Evicting one task *)

Definition evicted (id : TaskId) r (rest : list TaskId) (capacity : N) p : TaskPool :=
  remember_evicted_task_id id capacity
    (p <| p_terminal_order := rest |>
       <| p_indexes ::= λ ix, update_record ix r false |>
       <| p_tasks ::= delete id |>
       <| p_payload_wire_bytes ::= delete id |>
       <| p_statistics ::= record_status_transition (Some (r_status r)) None |>
       <| p_statistics ::= λ s, s <| st_terminal_records_evicted ::= λ c, saturating_add c 1 |> |>).

Lemma evict_terminal_task_Some id r rest capacity p :
  p_tasks p !! id = Some r →
  evict_terminal_task id capacity (p <| p_terminal_order := rest |>) =
    Some (tt, evicted id r rest capacity p).
Proof.
  intros Hid. unfold evict_terminal_task, evicted, bind, get, expect, modify, modify_statistics,
    ret, remove_record_indexes, update_record_indexes.
  cbn -[update_record remember_evicted_task_id]. rewrite Hid.
  cbn -[update_record remember_evicted_task_id]. by rewrite Hid.
Qed.

Lemma remember_evicted_frame id capacity p :
  let p' := remember_evicted_task_id id capacity p in
  p_tasks p' = p_tasks p ∧ p_waits_by_child p' = p_waits_by_child p ∧
  p_waits_by_parent p' = p_waits_by_parent p ∧ p_indexes p' = p_indexes p ∧
  p_history_retention p' = p_history_retention p ∧ p_terminal_order p' = p_terminal_order p ∧
  p_statistics p' = p_statistics p ∧ p_payload_wire_bytes p' = p_payload_wire_bytes p ∧
  p_ready_selector_cache p' = p_ready_selector_cache p ∧ p_next_sequence p' = p_next_sequence p.
Proof.
  unfold remember_evicted_task_id, trim_evicted_task_ids.
  destruct (capacity =? 0)%N; [by split_and!|].
  destruct (trim_evicted _ _ _). by split_and!.
Qed.

Lemma remember_evicted_ok id retention p tasks :
  p_history_retention p = Some retention →
  evicted_ok (Some retention) (p_evicted_task_order p) (p_evicted_task_ids p) tasks →
  is_Some (tasks !! id) →
  let p' := remember_evicted_task_id id (hr_max_evicted_task_ids retention) p in
  evicted_ok (Some retention) (p_evicted_task_order p') (p_evicted_task_ids p') (delete id tasks).
Proof.
  intros Hret (Hnd & Hids & Hno & Hlen) [r Hr]. simpl.
  assert (id ∉ p_evicted_task_order p) as Hfresh.
  { intros Hin. apply Hno in Hin. congruence. }
  assert (∀ l, l ⊆ p_evicted_task_order p ++ [id] → ∀ id', id' ∈ l → delete id tasks !! id' = None)
    as Hgone.
  { intros l Hl id' Hin. apply lookup_delete_None. apply Hl in Hin.
    apply elem_of_app in Hin as [?|?%list_elem_of_singleton]; [right; by apply Hno|by left]. }
  unfold remember_evicted_task_id. destruct (N.eqb_spec (hr_max_evicted_task_ids retention) 0).
  - split_and!; try done. apply Hgone. set_solver.
  - unfold trim_evicted_task_ids. simpl.
    destruct (trim_evicted_spec (p_evicted_task_order p ++ [id])
                (hr_max_evicted_task_ids retention)) as (k & Hk & Hlen').
    { apply NoDup_app. split_and!; [done|set_solver|apply NoDup_singleton]. }
    rewrite Hids. assert ({[id]} ∪ list_to_set (p_evicted_task_order p) =
      (list_to_set (p_evicted_task_order p ++ [id]) : gset string)) as -> by set_solver.
    rewrite Hk. cbn -[drop]. split_and!; [|done| |done].
    + eapply sublist_NoDup; [|apply sublist_drop].
      apply NoDup_app. split_and!; [done|set_solver|apply NoDup_singleton].
    + apply Hgone. apply subseteq_drop.
Qed.

Lemma evicted_inv d p id r rest retention :
  pool_inv_at d p → p_history_retention p = Some retention →
  p_terminal_order p = id :: rest → p_tasks p !! id = Some r → history_protected p id = false →
  let p' := evicted id r rest (hr_max_evicted_task_ids retention) p in
  pool_inv_at d p' ∧ evicts p p' ∧ p_terminal_order p' = rest.
Proof.
  intros [Hrec Hix Hst Hsz Hhi Hpe Hevd Hwa Hpay Hca] Hret Horder Hid [Hnc Hnp]%orb_false_elim. simpl.
  apply bool_decide_eq_false_1, eq_None_not_Some in Hnc, Hnp.
  unfold evicted. set (q := p <| p_terminal_order := rest |> <| p_indexes ::= _ |>
    <| p_tasks ::= _ |> <| p_payload_wire_bytes ::= _ |> <| p_statistics ::= _ |>
    <| p_statistics ::= _ |>).
  destruct (remember_evicted_frame id (hr_max_evicted_task_ids retention) q)
    as (Et & Ec & Ep & Ei & Er & Eo & Es & Eb & Eca & En).
  pose proof (remember_evicted_ok id retention q (p_tasks p)) as Hev.
  set (p' := remember_evicted_task_id _ _ q) in *. subst q. cbn -[update_record] in *.
  rewrite Hret, Horder in Hhi. destruct Hhi as [Hnd Hin].
  apply NoDup_cons in Hnd as [Hnot Hnd].
  assert (∃ r', p_tasks p !! id = Some r' ∧ is_terminal_status (r_status r') = true)
    as (r' & ? & Hterm) by (apply (Hin id); set_solver). simplify_eq.
  split_and!; [split|split|done]; rewrite ?Et, ?Ec, ?Ep, ?Ei, ?Er, ?Eo, ?Es, ?Eb, ?Eca; try done.
  - by apply records_ok_delete.
  - apply indexes_for_delete; [by apply records_ok_keyed|done..].
  - eapply stats_ok_counters; [intros []; done|]. apply stats_ok_delete; try done.
    by destruct (Hrec _ _ Hid) as (_ & ? & _).
  - rewrite map_size_delete_Some by eauto. lia.
  - rewrite Hret. split; [done|]. intros id'. rewrite is_terminal_delete.
    specialize (Hin id'). rewrite elem_of_cons in Hin. set_solver.
  - intros id' Hpend. rewrite is_terminal_delete. split; [|by apply Hpe].
    intros ->. destruct (Hin id) as [Hin' _]. destruct Hin' as [? _]; [set_solver|done].
  - rewrite Hret in Hevd |- *. apply Hev; eauto.
  - by apply waits_ok_delete.
  - by apply payload_ok_delete.
  - apply delete_subseteq.
  - intros id' r0 Hl Hlive. rewrite lookup_delete_ne; [done|]. congruence.
  - intros id' r0 Hl Hprot. rewrite lookup_delete_ne; [done|]. intros <-.
    unfold history_protected in Hprot. rewrite Hnc, Hnp in Hprot.
    by rewrite !bool_decide_eq_false_2 in Hprot by (intros [? ?]; done).
Qed.

(** ** The loop *)

Definition all_protected p : Prop :=
  ∀ id, id ∈ p_terminal_order p → history_protected p id = true.

(** What the loop leaves: the bound, or a queue of protected tasks only. *)
Definition compacted (retention : TaskHistoryRetention) p : Prop :=
  (len (p_terminal_order p) ≤ hr_max_terminal_records retention)%N ∨ all_protected p.

Definition history_bounded p : Prop :=
  ∀ retention, p_history_retention p = Some retention → compacted retention p.

Lemma rotated_inv d p id rest :
  pool_inv_at d p → p_terminal_order p = id :: rest →
  pool_inv_at d (p <| p_terminal_order := rest ++ [id] |>).
Proof.
  intros [Hrec Hix Hst Hsz Hhi Hpe Hevd Hwa Hpay Hca] Horder. split; try done. cbn. rewrite Horder in Hhi.
  unfold history_ok in *. destruct (p_history_retention p); [|done].
  destruct Hhi as [Hnd Hin]. assert (rest ++ [id] ≡ₚ id :: rest) as Hperm.
  { by rewrite Permutation_app_comm. }
  split; [by rewrite Hperm|]. intros id'. by rewrite Hperm.
Qed.

Lemma compact_loop_spec fuel d retention p (examined : nat) seen :
  pool_inv_at d p → p_history_retention p = Some retention →
  p_terminal_order p = seen.1 ++ seen.2 → length seen.2 = examined →
  (∀ id, id ∈ seen.2 → history_protected p id = true) →
  length (p_terminal_order p) * length (p_terminal_order p)
    + (length (p_terminal_order p) - examined) < fuel →
  ∃ p', compact_loop fuel retention (N.of_nat examined) p = Some (tt, p') ∧
        pool_inv_at d p' ∧ evicts p p' ∧ compacted retention p'.
Proof.
  revert d p examined seen. induction fuel as [|fuel IH];
    intros d p examined [front back] Hinv Hret Horder Hex Hprot Hfuel; [lia|].
  simpl in *. unfold bind at 1, get at 1.
  destruct (N.ltb_spec (hr_max_terminal_records retention) (len (p_terminal_order p))) as [Hmax|Hmax];
    [|exists p; split_and!; [done..|by left]].
  destruct (N.ltb_spec (N.of_nat examined) (len (p_terminal_order p))) as [Hlt|Hge]; simpl.
  2:{ exists p. split_and!; [done..|right]. intros id Hin. rewrite Horder in Hin, Hge.
      apply Hprot. unfold len in Hge. rewrite length_app in Hge.
      assert (length front = 0) by lia. by destruct front. }
  destruct (p_terminal_order p) as [|id rest] eqn:Eorder; [unfold len in Hlt; cbn [length] in Hlt; lia|].
  destruct front as [|id' front];
    [simpl in Horder; subst back; unfold len in Hlt; cbn [length] in *; lia|].
  simpl in Horder. injection Horder as <- ->.
  destruct (history_protected p id) eqn:Hp.
  - unfold bind at 1, modify at 1.
    replace (N.of_nat examined + 1)%N with (N.of_nat (S examined)) by lia.
    destruct (IH d (p <| p_terminal_order := (front ++ back) ++ [id] |>) (S examined)
                (front, back ++ [id])) as (p' & Hrun & Hinv' & Hev & Hc).
    + by apply rotated_inv.
    + done.
    + simpl. by rewrite app_assoc.
    + simpl. rewrite length_app. simpl. lia.
    + intros id'. simpl. rewrite elem_of_app, list_elem_of_singleton. intros [?| ->]; [|done].
      by apply Hprot.
    + cbn -[Nat.mul]. unfold len in Hlt. cbn [length] in *.
      rewrite !length_app in *. cbn [length] in *. nia.
    + exists p'. split_and!; try done. etrans; [|done]. by split.
  - assert (∃ r, p_tasks p !! id = Some r) as [r Hr].
    { pose proof (pi_history _ _ Hinv) as Hh. rewrite Hret, Eorder in Hh. destruct Hh as [_ Hh].
      destruct (Hh id) as [Hin _]. destruct Hin as [_ (r & ? & _)]; [set_solver|by eexists]. }
    destruct (evicted_inv d p id r (front ++ back) retention) as (Hinv1 & Hev1 & Horder1); try done.
    unfold bind at 1, modify at 1. unfold bind at 1.
    rewrite (evict_terminal_task_Some id r) by done. change 0%N with (N.of_nat 0).
    set (p1 := evicted _ _ _ _ _) in *.
    destruct (IH d p1 0 (front ++ back, [])) as (p' & Hrun & Hinv' & Hev & Hc); try done.
    + rewrite <-Hret. apply Hev1.
    + simpl. by rewrite app_nil_r.
    + intros id' ?%not_elem_of_nil. done.
    + rewrite Horder1. cbn [length] in *. nia.
    + exists p'. split_and!; try done. by etrans.
Qed.

Lemma compact_terminal_history_spec d p :
  pool_inv_at d p →
  ∃ p', compact_terminal_history p = Some (tt, p') ∧ pool_inv_at d p' ∧ evicts p p' ∧
        match p_history_retention p with
        | Some retention => compacted retention p'
        | None => p' = p
        end.
Proof.
  intros Hinv. unfold compact_terminal_history, bind, get.
  destruct (p_history_retention p) as [retention|] eqn:Hret; [|by exists p].
  change 0%N with (N.of_nat 0).
  apply (compact_loop_spec _ d retention p 0 (p_terminal_order p, [])); try done.
  - simpl. by rewrite app_nil_r.
  - intros id ?%not_elem_of_nil. done.
  - unfold compact_fuel. lia.
Qed.

(** ** Recording a finished task *)

Definition recorded (id : TaskId) (d : Pending) : Pending :=
  MkPending (pd_wake d) (pd_lease d) (pd_terminal d ∖ {[id]}) (pd_parent d).

Lemma record_terminal_task_spec d p id :
  pool_inv_at d p → id ∈ pd_terminal d →
  ∃ p', record_terminal_task id p = Some (tt, p') ∧ pool_inv_at (recorded id d) p' ∧ evicts p p' ∧
        match p_history_retention p with
        | Some retention => compacted retention p'
        | None => p' = p
        end.
Proof.
  intros [Hrec Hix Hst Hsz Hhi Hpe Hevd Hwa Hpay Hca] Hid.
  pose proof (Hpe _ Hid) as Hterm. unfold record_terminal_task, bind, get, modify.
  destruct (p_history_retention p) as [retention|] eqn:Hret.
  - destruct (compact_terminal_history_spec (recorded id d)
                (p <| p_terminal_order ::= λ l, l ++ [id] |>)) as (p' & Hrun & Hinv & Hev & Hc).
    + split; simpl; try done; [| |by rewrite Hret]; [|set_solver]. rewrite Hret.
      destruct Hhi as [Hnd Hin]. split.
      * apply NoDup_app. split_and!; [done| |apply NoDup_singleton].
        intros x Hx ->%list_elem_of_singleton. by apply Hin in Hx as [? _].
      * intros x. rewrite elem_of_app, list_elem_of_singleton, Hin.
        destruct (decide (x = id)) as [->|]; set_solver.
    + exists p'. simpl in Hc. rewrite Hret in Hc. split_and!; try done.
      etrans; [|done]. by split.
  - exists p. split_and!; try done. split; simpl; rewrite ?Hret; try done. set_solver.
Qed.

(** ** Changing the retention policy *)

Lemma terminal_entries_spec p id :
  records_ok (p_tasks p) → id ∈ (terminal_entries p).*2 ↔ is_terminal (p_tasks p) id.
Proof.
  intros Hrec. unfold terminal_entries, is_terminal. rewrite <-list_fmap_compose.
  rewrite list_elem_of_fmap. simpl. setoid_rewrite list_elem_of_filter.
  setoid_rewrite list_elem_of_fmap. split.
  - intros (r & -> & Ht & ([id' r'] & -> & Hin)). apply elem_of_map_to_list in Hin.
    destruct (Hrec _ _ Hin) as [<- _]. eauto.
  - intros (r & Hr & Ht). exists r. destruct (Hrec _ _ Hr) as [<- _]. split; [done|].
    split; [done|]. exists (rec_id r, r). split; [done|]. by apply elem_of_map_to_list.
Qed.

Lemma NoDup_terminal_entries p : records_ok (p_tasks p) → NoDup (terminal_entries p).*2.
Proof.
  intros Hrec. unfold terminal_entries. rewrite <-list_fmap_compose.
  eapply sublist_NoDup; [|apply fmap_sublist, sublist_filter].
  rewrite <-list_fmap_compose.
  rewrite (list_fmap_ext _ fst (map_to_list (p_tasks p))); [apply NoDup_fst_map_to_list|].
  intros i [id r] Hi. apply list_elem_of_lookup_2, elem_of_map_to_list in Hi.
  by destruct (Hrec _ _ Hi).
Qed.

Lemma configure_history_retention_spec p retention :
  pool_inv p →
  ∃ p', configure_history_retention retention p = Some (tt, p') ∧ pool_inv p' ∧
        p_history_retention p' = retention ∧
        match retention with
        | Some retention => compacted retention p' ∧
            evicts (p <| p_history_retention := Some retention |>) p'
        | None => p_tasks p' = p_tasks p ∧ p_evicted_task_ids p' = ∅
        end.
Proof.
  intros [Hrec Hix Hst Hsz Hhi Hpe Hevd Hwa Hpay Hca].
  unfold configure_history_retention, bind, modify. destruct retention as [retention|].
  - set (q := trim_evicted_task_ids _ _).
    assert (evicted_ok (Some retention) (p_evicted_task_order q) (p_evicted_task_ids q) (p_tasks q) ∧
      p_tasks q = p_tasks p ∧ p_waits_by_child q = p_waits_by_child p ∧
      p_waits_by_parent q = p_waits_by_parent p ∧ p_indexes q = p_indexes p ∧
      p_history_retention q = Some retention ∧ p_next_sequence q = p_next_sequence p ∧
      p_terminal_order q = (sort_by_key fst (terminal_entries p)).*2 ∧
      p_statistics q = p_statistics p ∧ p_payload_wire_bytes q = p_payload_wire_bytes p ∧
      p_ready_selector_cache q = p_ready_selector_cache p)
      as (Hev & Et & Ec & Ep & Ei & Er & En & Eo & Es & Eb & Eca).
    { destruct Hevd as (Hnd & Hids & Hno & _).
      destruct (trim_evicted_spec _ (hr_max_evicted_task_ids retention) Hnd) as (k & Hk & Hlen).
      subst q. unfold trim_evicted_task_ids. simpl. rewrite Hids, Hk. simpl.
      split_and!; try done. split_and!; try done.
      - eapply sublist_NoDup; [done|apply sublist_drop].
      - intros id Hin. apply Hno. by apply (subseteq_drop k). }
    clearbody q.
    destruct (compact_terminal_history_spec settled q) as (p' & Hrun & Hinv & Hevq & Hc).
    { split; rewrite ?Et, ?Ec, ?Ep, ?Ei, ?Er, ?Es, ?Eb, ?Eca; try done; [|by rewrite <-Et].
      rewrite Eo. assert ((sort_by_key fst (terminal_entries p)).*2 ≡ₚ (terminal_entries p).*2) as Hp.
      { apply fmap_Permutation, stable_sort_Permutation. }
      split; [rewrite Hp; by apply NoDup_terminal_entries|]. intros id.
      rewrite Hp, terminal_entries_spec by done. set_solver. }
    rewrite Er in Hc. exists p'. split_and!; try done.
    + by rewrite (ev_retention _ _ Hevq).
    + etrans; [|done]. split; simpl; rewrite ?Et; naive_solver.
  - eexists. split; [done|]. split_and!; try done. split; try done; simpl.
    split_and!; [apply NoDup_nil_2|done| |done]. by intros id ?%not_elem_of_nil.
Qed.
End History.
