(* ===== verification/PoolSteps.v ===== *)
(** * Every operation of the pool preserves its invariant

    From a pool that satisfies [pool_inv] no operation panics, and the pool it
    leaves satisfies [pool_inv] again.  Each record moves only along the
    lifecycle of a task ([record_step]); a rejected operation leaves the pool
    as it was. *)

From S2P Require Import Prelude Contracts TaskRecords TaskIndexes IndexFacts TaskPool PoolInvariant PoolHistory.

(** ** The lifecycle of a task *)

Definition lifecycle_allows (from to : TaskStatus) : bool :=
  match from, to with
  | Ready, (Ready | Running | Failed | Cancelled | Expired | DeadLetter) => true
  | Running, (Ready | Waiting | Blocked) => true
  | Running, (Completed | Failed | Cancelled | Expired | DeadLetter) => true
  | (Waiting | Blocked), (Ready | Cancelled | Expired | DeadLetter) => true
  | _, _ => false
  end.

Section Steps.
Context `{SJ : SerdeJson}.
Implicit Types r : TaskRecord.
Implicit Types p : TaskPool.

(** One move of one record.  Only a claim gives a lease, and it starts a new
    attempt; every other move leaves the record without a lease. *)
Record record_step r r' : Prop := {
  rs_identity : rec_id r' = rec_id r;
  rs_lifecycle : lifecycle_allows (r_status r) (r_status r') = true;
  rs_attempt : r_attempt_generation r' =
    if decide (r_status r' = Running) then saturating_add (r_attempt_generation r) 1
    else r_attempt_generation r;
  rs_lease : if decide (r_status r' = Running)
    then ∃ lease, r_lease r' = Some lease ∧ l_attempt_generation lease = r_attempt_generation r'
    else r_lease r' = None;
  rs_output : r_status r' ≠ Completed → r_output r' = r_output r
}.

(** What an operation that adds no task does to the table. *)
Record progress p p' : Prop := {
  pr_from : ∀ id r', p_tasks p' !! id = Some r' →
    ∃ r, p_tasks p !! id = Some r ∧ rtc record_step r r';
  pr_gone : ∀ id r, p_tasks p !! id = Some r → p_tasks p' !! id = None →
    ∃ r', rtc record_step r r' ∧ is_terminal_status (r_status r') = true
}.

#[export] Instance progress_preorder : PreOrder progress.
Proof.
  split.
  - intros p. split; [eauto using rtc_refl|]. intros. congruence.
  - intros p q s [Hf Hg] [Hf' Hg']. split.
    + intros id r' Hr'. destruct (Hf' _ _ Hr') as (r & Hr & ?).
      destruct (Hf _ _ Hr) as (r0 & ? & ?). exists r0. split; [done|]. by etrans.
    + intros id r Hr Hnone. destruct (p_tasks q !! id) as [r'|] eqn:Hq.
      * destruct (Hf _ _ Hq) as (r0 & ? & Hstep). simplify_eq.
        destruct (Hg' _ _ Hq Hnone) as (r'' & ? & ?). exists r''. split; [by etrans|done].
      * by eapply Hg.
Qed.

Lemma evicts_progress d p p' : pool_inv_at d p → evicts p p' → progress p p'.
Proof.
  intros Hinv Hev. split.
  - intros id r' Hr'. exists r'. split; [by eapply evicts_lookup|done].
  - intros id r Hr Hnone. exists r. split; [done|].
    destruct (is_terminal_status (r_status r)) eqn:Ht; [done|].
    by rewrite (ev_live _ _ Hev _ _ Hr Ht) in Hnone.
Qed.

Lemma tasks_progress p p' : p_tasks p' = p_tasks p → progress p p'.
Proof. intros E. split; intros id r; rewrite E; [eauto using rtc_refl|congruence]. Qed.

Lemma insert_progress p p' id r r' :
  p_tasks p !! id = Some r → record_step r r' → p_tasks p' = <[id := r']> (p_tasks p) →
  progress p p'.
Proof.
  intros Hid Hstep E. split; intros id' r''; rewrite E.
  - intros [[<- <-]|[? ?]]%lookup_insert_Some; eauto using rtc_once, rtc_refl.
  - intros ? [? ?]%lookup_insert_None. congruence.
Qed.

(** ** Steps of the invariant *)

(** Work that is no longer pending. *)
Lemma pool_inv_settle d d' p :
  (∀ id, is_Some (p_tasks p !! id) → (id ∈ pd_wake d ↔ id ∈ pd_wake d') ∧ (id ∈ pd_lease d ↔ id ∈ pd_lease d')) →
  (∀ id, id ∈ pd_terminal d ↔ id ∈ pd_terminal d') →
  (∀ id, id ∈ pd_parent d → id ∈ pd_parent d' ∨ p_waits_by_parent p !! id = None) →
  pool_inv_at d p → pool_inv_at d' p.
Proof.
  intros Hix Ht Hp [Hrec Hixs Hst Hsz Hhi Hpe Hevd Hwa Hpay Hca]. split; try done.
  - eapply indexes_for_pending; [by apply records_ok_keyed|done|done].
  - eapply history_ok_pending; [|done]. auto.
  - intros id Hin. apply Hpe. by apply Ht.
  - by eapply waits_ok_drop.
Qed.

Lemma attempt_finished_inv d p lease step :
  pool_inv_at d p → pool_inv_at d (p <| p_statistics ::= record_attempt_finished_value lease step |>).
Proof.
  by intros []; split.
Qed.

Definition without_parent (id : TaskId) (d : Pending) : Pending :=
  MkPending (pd_wake d) (pd_lease d) (pd_terminal d) (pd_parent d ∖ {[id]}).

Lemma remove_waits_inv d p id :
  pool_inv_at d p → pool_inv_at (without_parent id d) (remove_waits_for_parent id p).
Proof.
  intros []. split; try done. simpl.
  eapply (waits_ok_remove_parent (pd_parent d ∖ {[id]})).
  eapply waits_ok_drop; [|done]. intros id' Hin. left.
  destruct (decide (id' = id)); set_solver.
Qed.

(** The state right after one record has moved. *)
Definition moved (id : TaskId) r r' p : TaskPool :=
  (mutated id r r' p) <| p_statistics ::=
     record_status_transition (Some (r_status r)) (Some (r_status r')) |>.

Lemma running_record id r :
  record_ok id r → r_status r = Running → rec_id r = id ∧ ∃ lease, r_lease r = Some lease.
Proof.
  intros (? & _ & H) Hr. rewrite Hr in H. destruct (r_lease r); [by eauto|done].
Qed.

(** A record without a lease satisfies the record invariant. *)
Lemma record_ok_idle id r :
  rec_id r = id → r_status r ≠ Created → r_status r ≠ Running →
  r_lease r = None → r_claimed_by r = None → record_ok id r.
Proof. intros. split_and!; try done. by destruct (r_status r). Qed.

(** A move between live states of a task no wait names as its parent. *)
Lemma moved_live_inv p id r r' :
  pool_inv p → p_tasks p !! id = Some r → record_ok id r' →
  is_terminal_status (r_status r) = false → is_terminal_status (r_status r') = false →
  r_status r ≠ Waiting → payload_bytes r' = payload_bytes r → pool_inv (moved id r r' p).
Proof.
  intros Hinv Hid Hr' Hlive Hlive' Hw Hpl.
  pose proof (transition_inv _ _ _ _ _ Hinv Hid Hr' Hlive Hpl) as H. rewrite Hlive' in H.
  eapply pool_inv_settle; [..|exact H]; simpl; try set_solver.
  intros id' Hin. right. assert (id' = id) as -> by set_solver.
  eapply waits_ok_not_parent; [by apply pi_waits|set_solver|done|done].
Qed.

(** The pending work of a task that has finished and is not recorded yet. *)
Definition finishing (id : TaskId) : Pending := MkPending ∅ ∅ {[id]} ∅.

Lemma moved_terminal_inv p id r r' :
  pool_inv p → p_tasks p !! id = Some r → record_ok id r' →
  is_terminal_status (r_status r) = false → is_terminal_status (r_status r') = true →
  payload_bytes r' = payload_bytes r →
  pool_inv_at (MkPending ∅ ∅ {[id]} {[id]}) (moved id r r' p).
Proof.
  intros Hinv Hid Hr' Hlive Hterm Hpl.
  pose proof (transition_inv _ _ _ _ _ Hinv Hid Hr' Hlive Hpl) as H. rewrite Hterm in H.
  eapply pool_inv_settle; [..|exact H]; simpl; set_solver.
Qed.

Lemma moved_finishing_inv p id r r' :
  pool_inv p → p_tasks p !! id = Some r → record_ok id r' →
  is_terminal_status (r_status r) = false → is_terminal_status (r_status r') = true →
  r_status r ≠ Waiting → payload_bytes r' = payload_bytes r →
  pool_inv_at (finishing id) (moved id r r' p).
Proof.
  intros Hinv Hid Hr' Hlive Hterm Hw Hpl.
  eapply pool_inv_settle; [..|by apply moved_terminal_inv]; simpl; try set_solver.
  intros id' ->%elem_of_singleton. right.
  eapply waits_ok_not_parent; [by apply pi_waits|set_solver|done|done].
Qed.

Lemma finishing_spec p id :
  pool_inv_at (finishing id) p →
  runs (record_terminal_task id) p (λ _ p', pool_inv p' ∧ evicts p p' ∧ history_bounded p').
Proof.
  intros Hinv.
  destruct (record_terminal_task_spec _ p id Hinv) as (p' & Hrun & Hinv' & Hev & Hc).
  - set_solver.
  - exists tt, p'. split_and!; try done.
    + unfold pool_inv. eapply pool_inv_settle; [..|exact Hinv']; simpl; set_solver.
    + intros retention. rewrite (ev_retention _ _ Hev). intros Hret. by rewrite Hret in Hc.
Qed.

(** ** Transitions of a leased task *)

(** The table of [p] with one record replaced. *)
Definition with_record (id : TaskId) r p : TaskPool := p <| p_tasks ::= insert id r |>.

(** One record is replaced; when that ends the task, finished records may leave
    the table and the history is back within its bound. *)
Definition replaced (id : TaskId) r p p' : Prop :=
  evicts (with_record id r p) p' ∧ (is_terminal_status (r_status r) = true → history_bounded p').

(** What a transition of a leased task promises: it succeeds exactly when
    [ensure_active_lease] does, and an error changes nothing. *)
Definition leased_spec (op : M TaskPool (RuntimeResult unit)) p lease step action
    (post : TaskRecord → TaskPool → Prop) : Prop :=
  match ensure_active_lease p (l_task_id lease) lease step action with
  | Ok _ => ∃ r p', p_tasks p !! l_task_id lease = Some r ∧ r_lease r = Some lease ∧
      op p = Some (Ok tt, p') ∧ pool_inv p' ∧ progress p p' ∧ post r p'
  | Err e => op p = Some (Err e, p)
  end.

Lemma ensure_active_lease_Ok p id lease step action u :
  ensure_active_lease p id lease step action = Ok u →
  ∃ r, p_tasks p !! id = Some r ∧ validate_record_lease r lease step action = Ok tt.
Proof.
  unfold ensure_active_lease, pool_record. destruct (p_tasks p !! id) as [r|]; [|done].
  simpl. destruct u. eauto.
Qed.

Lemma guarded_err_same {R} p id (check : TaskRecord → RuntimeResult R) assign e :
  pool_inv p →
  (letr? record := pool_record p id in check record) = Err e →
  mutate_record_indexed id (guarded check assign) p = Some (Err e, p).
Proof.
  intros Hinv. unfold pool_record. destruct (p_tasks p !! id) as [r|] eqn:Hid; simpl.
  - intros He. rewrite (mutate_record_indexed_Some id _ p r) by done. unfold guarded.
    rewrite He. simpl. by rewrite mutated_same.
  - intros [= <-]. by rewrite mutate_record_indexed_None.
Qed.

Lemma guarded_ok {R} p id (check : TaskRecord → RuntimeResult R) assign r a :
  p_tasks p !! id = Some r → check r = Ok a →
  mutate_record_indexed id (guarded check assign) p = Some (Ok a, mutated id r (assign r) p).
Proof.
  intros Hid Ha. rewrite (mutate_record_indexed_Some id _ p r) by done. unfold guarded.
  by rewrite Ha.
Qed.

Lemma runs_try_bind {A B} (c : M TaskPool (RuntimeResult A)) (k : A → M TaskPool (RuntimeResult B)) p a p' Q :
  c p = Some (Ok a, p') → runs (k a) p' Q → runs (try_bind c k) p Q.
Proof. intros Hc (b & q & Hk & HQ). exists b, q. unfold try_bind, bind. by rewrite Hc. Qed.

Lemma try_bind_err {A B} (c : M TaskPool (RuntimeResult A)) (k : A → M TaskPool (RuntimeResult B)) p e p' :
  c p = Some (Err e, p') → try_bind c k p = Some (Err e, p').
Proof. intros Hc. unfold try_bind, bind. by rewrite Hc. Qed.

(** A leased operation is a guarded assignment followed by a continuation that
    only has to be analysed from a running record under that lease. *)
Lemma leased_spec_intro (k : unit → M TaskPool (RuntimeResult unit)) assign p lease step action post :
  pool_inv p →
  (∀ r, p_tasks p !! l_task_id lease = Some r → r_status r = Running →
     r_lease r = Some lease → rec_id r = l_task_id lease →
     runs (k tt) (mutated (l_task_id lease) r (assign r) p)
       (λ a p', a = Ok tt ∧ pool_inv p' ∧ progress p p' ∧ post r p')) →
  leased_spec
    (try_bind (mutate_record_indexed (l_task_id lease)
       (guarded (λ record, validate_record_lease record lease step action) assign)) k)
    p lease step action post.
Proof.
  intros Hinv Hk. unfold leased_spec.
  destruct (ensure_active_lease _ _ _ _ _) as [u|e] eqn:He.
  - apply ensure_active_lease_Ok in He as (r & Hid & Hv).
    pose proof Hv as (Hrun & _ & Hl & _)%validate_record_lease_Ok.
    destruct (Hk r) as (a & p' & Hrun' & -> & ? & ? & ?); try done.
    { apply (pi_records _ _ Hinv _ _ Hid). }
    exists r, p'. split_and!; try done. unfold try_bind, bind.
    by rewrite (guarded_ok _ _ _ _ r tt).
  - apply try_bind_err. by apply guarded_err_same.
Qed.

Lemma evicts_same p p' :
  p_tasks p' = p_tasks p → p_waits_by_child p' = p_waits_by_child p →
  p_waits_by_parent p' = p_waits_by_parent p →
  p_history_retention p' = p_history_retention p → p_next_sequence p' = p_next_sequence p →
  evicts p p'.
Proof. intros Et. split; rewrite ?Et; done. Qed.

Lemma remove_waits_none p id :
  p_waits_by_parent p !! id = None → remove_waits_for_parent id p = p.
Proof.
  intros Hnone. unfold remove_waits_for_parent. rewrite Hnone. simpl.
  destruct p; simpl in *. unfold set_field, set_p_waits_by_parent, set_p_waits_by_child; simpl.
  f_equal. by apply delete_id.
Qed.

Lemma moved_progress p id r r' : p_tasks p !! id = Some r → record_step r r' → progress p (moved id r r' p).
Proof. intros Hid Hstep. by eapply insert_progress. Qed.

(** The tail of [complete], [fail_task] and the other ways a running task
    finishes. *)
Lemma finish_running_spec p id r r' lease step :
  pool_inv p → p_tasks p !! id = Some r → r_status r = Running →
  record_ok id r' → record_step r r' → is_terminal_status (r_status r') = true →
  payload_bytes r' = payload_bytes r →
  runs (modify_statistics (record_status_transition (Some Running) (Some (r_status r'))) ;;!
        record_attempt_finished lease step ;;! record_terminal_task id ;;! ret (Ok tt))
    (mutated id r r' p)
    (λ a p', a = (Ok tt : RuntimeResult unit) ∧ pool_inv p' ∧ progress p p' ∧ replaced id r' p p').
Proof.
  intros Hinv Hid Hrun Hok Hstep Hterm Hpl. rewrite <-Hrun.
  do 2 apply runs_bind, runs_modify. fold (moved id r r' p).
  set (q := (moved id r r' p) <| p_statistics ::= _ |>).
  assert (pool_inv_at (finishing id) q) as Hq.
  { apply attempt_finished_inv, moved_finishing_inv; try done; by rewrite Hrun. }
  apply runs_bind. eapply runs_mono; [by apply (finishing_spec q id)|].
  intros [] p' (Hinv' & Hev & Hb). apply runs_ret. split_and!; try done.
  - etrans; [by apply moved_progress|]. etrans; [by apply (tasks_progress _ q)|].
    by eapply evicts_progress.
  - split; [|done]. etrans; [|done]. by apply evicts_same.
Qed.

(** The tail of the operations that put a running task back. *)
Lemma yield_running_spec p id r r' lease step :
  pool_inv p → p_tasks p !! id = Some r → r_status r = Running →
  record_ok id r' → record_step r r' → is_terminal_status (r_status r') = false →
  payload_bytes r' = payload_bytes r →
  runs (modify_statistics (record_status_transition (Some Running) (Some (r_status r'))) ;;!
        record_attempt_finished lease step ;;! ret (Ok tt))
    (mutated id r r' p)
    (λ a p', a = (Ok tt : RuntimeResult unit) ∧ pool_inv p' ∧ progress p p' ∧ replaced id r' p p').
Proof.
  intros Hinv Hid Hrun Hok Hstep Hterm Hpl. rewrite <-Hrun.
  do 2 apply runs_bind, runs_modify. fold (moved id r r' p). apply runs_ret.
  split_and!; try done.
  - apply attempt_finished_inv, moved_live_inv; try done; by rewrite Hrun.
  - etrans; [by apply moved_progress|]. by apply tasks_progress.
  - split; [by apply evicts_same|congruence].
Qed.

(** Closes [record_step] and [record_ok] of a record that has given up its
    lease. *)
Ltac solve_released :=
  match goal with
  | |- record_ok _ _ => by apply record_ok_idle
  | |- record_step _ _ => split; simpl; try done;
      match goal with H : r_status _ = _ |- _ => by rewrite H end
  end.

Lemma complete_with_output_spec p lease step output :
  pool_inv p →
  leased_spec (complete_with_output lease step output) p lease step "complete"
    (λ r p', replaced (l_task_id lease)
       (mark_terminal_record Completed None (r <| r_output := output |>)) p p').
Proof.
  intros Hinv. apply leased_spec_intro; [done|]. intros r Hid Hrun Hl Hk.
  apply finish_running_spec; try done; solve_released.
Qed.

Lemma fail_task_spec p lease step failure :
  pool_inv p →
  leased_spec (fail_task lease step failure) p lease step "fail"
    (λ r p', replaced (l_task_id lease)
       (mark_terminal_record Failed (Some failure) r) p p').
Proof.
  intros Hinv. apply leased_spec_intro; [done|]. intros r Hid Hrun Hl Hk.
  apply finish_running_spec; try done; solve_released.
Qed.

Lemma wait_spec p lease step ready_at_step :
  pool_inv p →
  leased_spec (wait lease step ready_at_step) p lease step "wait"
    (λ r p', replaced (l_task_id lease)
       (release_record_lease (r <| r_status := Waiting |>
          <| r_task ::= λ t, t <| t_ready_at_step := ready_at_step |> |>)) p p').
Proof.
  intros Hinv. apply leased_spec_intro; [done|]. intros r Hid Hrun Hl Hk.
  apply yield_running_spec; try done; solve_released.
Qed.

Lemma defer_leased_spec p lease step :
  pool_inv p →
  leased_spec (defer_leased lease step) p lease step "defer"
    (λ r p', replaced (l_task_id lease)
       (clear_record_owner (release_record_lease
          (r <| r_status := Ready |> <| r_ready_since_step := step |>))) p p').
Proof.
  intros Hinv. apply leased_spec_intro; [done|]. intros r Hid Hrun Hl Hk.
  apply yield_running_spec; try done; solve_released.
Qed.

Lemma block_spec p lease step :
  pool_inv p →
  leased_spec (block lease step) p lease step "block"
    (λ r p', replaced (l_task_id lease)
       (release_record_lease (r <| r_status := Blocked |>)) p p').
Proof.
  intros Hinv. apply leased_spec_intro; [done|]. intros r Hid Hrun Hl Hk.
  apply yield_running_spec; try done; solve_released.
Qed.

Lemma cancel_task_spec p lease step :
  pool_inv p →
  leased_spec (cancel_task lease step) p lease step "cancel"
    (λ r p', replaced (l_task_id lease)
       (mark_terminal_record Cancelled None r) p p').
Proof.
  intros Hinv. apply leased_spec_intro; [done|]. intros r Hid Hrun Hl Hk.
  assert (p_waits_by_parent p !! l_task_id lease = None) as Hnp.
  { eapply waits_ok_not_parent; [by apply pi_waits|set_solver|done|by rewrite Hrun]. }
  pose proof (finish_running_spec p (l_task_id lease) r (mark_terminal_record Cancelled None r) lease step)
    as (a & p' & Hrun' & H); try done; try solve_released.
  exists a, p'. split; [|done]. rewrite <-Hrun'.
  unfold bind, record_attempt_finished, modify_statistics, modify.
  cbv beta iota. by rewrite remove_waits_none.
Qed.

(** [wait_on_task] also records the wait in both tables. *)
Definition awaiting_record (task_await : TaskAwait) r : TaskRecord :=
  release_record_lease
    (r <| r_status := Waiting |>
       <| r_task ::= λ t,
            t <| t_ready_at_step := ready_step_for_wait task_await |>
              <| t_continuation_ref :=
                   Some (rr_ref_id (cont_continuation (aw_continuation task_await))) |> |>).

Lemma validate_wait_on_task_Ok p lease step task_await u :
  validate_wait_on_task p lease step task_await = Ok u →
  ∃ r child, p_tasks p !! l_task_id lease = Some r ∧
    validate_record_lease r lease step "wait" = Ok tt ∧
    p_tasks p !! h_task_id (aw_child task_await) = Some child ∧
    is_terminal_status (r_status child) = false.
Proof.
  unfold validate_wait_on_task, pool_record.
  destruct (p_tasks p !! l_task_id lease) as [r|]; simpl; [|done].
  destruct (validate_record_lease r lease step "wait") as [[]|] eqn:Hv; simpl; [|done].
  destruct (p_tasks p !! h_task_id (aw_child task_await)) as [child|]; simpl; [|done].
  unfold validate_task_await_child. destruct (is_terminal_status (r_status child)) eqn:Ht; [done|].
  intros _. exists r, child. done.
Qed.

Lemma wait_on_task_spec p lease step task_await :
  pool_inv p → aw_parent_task_id task_await = l_task_id lease →
  match validate_wait_on_task p lease step task_await with
  | Ok _ => ∃ r p', p_tasks p !! l_task_id lease = Some r ∧ r_lease r = Some lease ∧
      wait_on_task lease step task_await p = Some (Ok tt, p') ∧ pool_inv p' ∧ progress p p' ∧
      p_tasks p' = <[l_task_id lease := awaiting_record task_await r]> (p_tasks p) ∧
      p_waits_by_child p' = push_wait (child_of task_await) task_await (p_waits_by_child p) ∧
      p_waits_by_parent p' = push_wait (l_task_id lease) task_await (p_waits_by_parent p)
  | Err e => wait_on_task lease step task_await p = Some (Err e, p)
  end.
Proof.
  intros Hinv Hpar. unfold wait_on_task, child_of. rewrite bool_decide_eq_true_2 by done.
  cbn [negb].
  destruct (validate_wait_on_task p _ _ _) as [u|e] eqn:Hval;
    [|unfold bind at 1, get at 1; by rewrite Hval].
  destruct (validate_wait_on_task_Ok _ _ _ _ _ Hval) as (r & child & Hid & Hv & Hch & Hlive).
  pose proof Hv as (Hrun & _ & Hl & _)%validate_record_lease_Ok.
  assert (rec_id r = l_task_id lease) as Hk by apply (pi_records _ _ Hinv _ _ Hid).
  destruct (yield_running_spec p (l_task_id lease) r (awaiting_record task_await r) lease step)
    as (a & q & Hq & -> & Hinvq & Hprog & Hevq & _); try done; try solve_released.
  unfold bind, ret, record_attempt_finished, modify_statistics, modify in Hq. cbv beta iota in Hq.
  apply (inj Some), (f_equal snd) in Hq. simpl in Hq. subst q.
  exists r. eexists. split; [done|]. split; [done|]. split.
  { unfold bind at 1, get at 1. rewrite Hval. unfold try_bind, bind, ret at 1.
    rewrite (guarded_ok _ _ _ _ r tt) by done. reflexivity. }
  assert (p_waits_by_parent p !! l_task_id lease = None) as Hnp.
  { eapply waits_ok_not_parent; [by apply pi_waits|set_solver|done|by rewrite Hrun]. }
  split_and!.
  - destruct Hinvq as [Hrec Hix Hst Hsz Hhi Hpe Hevd Hwa Hpay Hca]. split; try done. simpl.
    pose proof (waits_ok_push ∅ _ _ _ task_await (awaiting_record task_await r) Hwa) as Hpush.
    rewrite Hpar in Hpush. apply Hpush; [done|apply lookup_insert_eq|done|].
    simpl. unfold child_of. rewrite lookup_insert. case_decide; eauto.
  - etrans; [exact Hprog|]. by apply tasks_progress.
  - done.
  - done.
  - done.
Qed.

Lemma wait_on_task_parent p lease step task_await :
  aw_parent_task_id task_await ≠ l_task_id lease →
  wait_on_task lease step task_await p =
    Some (runtime_failure ERR_TASK_CLAIM_CONFLICT "runtime.task_pool"
            ("task.await.parent." +:+ l_task_id lease), p).
Proof. intros H. unfold wait_on_task. by rewrite bool_decide_eq_false_2. Qed.

End Steps.
