(* ===== verification/PoolKernelSteps.v ===== *)
(** * The transitions the kernel makes preserve the invariant

    Enqueueing, waking, rejection, cancellation, expiry, dead-lettering,
    lease reclaim, abort, generation rebinding and the delivery of waits. *)

From S2P Require Import Prelude Contracts TaskRecords TaskIndexes IndexFacts TaskPool PoolInvariant PoolHistory PoolSteps.

Section KernelSteps.
Context `{SJ : SerdeJson}.
Implicit Types r : TaskRecord.
Implicit Types p : TaskPool.

(** ** Waking *)

Definition wakeable (id : TaskId) r : RuntimeResult TaskStatus :=
  match r_status r with
  | Waiting | Blocked => Ok (r_status r)
  | _ => claim_conflict "wake" id
  end.

Lemma wakeable_Ok id r status :
  wakeable id r = Ok status → status = r_status r ∧ (r_status r = Waiting ∨ r_status r = Blocked).
Proof. unfold wakeable, claim_conflict, runtime_failure. destruct (r_status r); naive_solver. Qed.

Lemma wake_record_ok step id r : record_ok id r → record_ok id (wake_record step r).
Proof. intros [? _]. by apply record_ok_idle. Qed.

Lemma wake_record_step step r :
  r_status r = Waiting ∨ r_status r = Blocked ∨ r_status r = Running →
  record_step r (wake_record step r).
Proof. intros H. split; simpl; try done. by destruct H as [-> | [-> | ->]]. Qed.

(** The pool after a waiting task has been woken and its waits removed. *)
Definition woken (step : N) (id : TaskId) r p : TaskPool :=
  remove_waits_for_parent id (moved id r (wake_record step r) p).

Definition after_wake (id : TaskId) (d : Pending) : Pending :=
  MkPending (pd_wake d ∖ {[id]}) (pd_lease d ∖ {[id]}) (pd_terminal d) (pd_parent d).

Lemma woken_inv d step id r p :
  pool_inv_at d p → id ∉ pd_parent d → p_tasks p !! id = Some r →
  r_status r = Waiting ∨ r_status r = Blocked →
  pool_inv_at (after_wake id d) (woken step id r p) ∧ progress p (woken step id r p).
Proof.
  intros Hinv Hnot Hid Hst. pose proof (pi_records _ _ Hinv _ _ Hid) as Hok.
  assert (is_terminal_status (r_status r) = false) as Hlive by (by destruct Hst as [-> | ->]).
  split.
  - pose proof (transition_inv _ _ _ _ (wake_record step r) Hinv Hid) as H.
    specialize (H ltac:(by apply wake_record_ok) Hlive eq_refl). apply (remove_waits_inv _ _ id) in H.
    eapply pool_inv_settle; [..|exact H]; simpl; try done.
    intros id' Hin. left. set_solver.
  - etrans; [eapply (moved_progress p id r (wake_record step r)); [done|]|by apply tasks_progress].
    apply wake_record_step. tauto.
Qed.

Lemma wake_spec p id step :
  pool_inv p →
  match (letr? record := pool_record p id in wakeable id record) with
  | Ok _ => ∃ r, p_tasks p !! id = Some r ∧ wake id step p = Some (Ok tt, woken step id r p) ∧
              pool_inv (woken step id r p) ∧ progress p (woken step id r p)
  | Err e => wake id step p = Some (Err e, p)
  end.
Proof.
  intros Hinv. destruct (letr? record := _ in _) as [status|e] eqn:Hc.
  - unfold pool_record in Hc. destruct (p_tasks p !! id) as [r|] eqn:Hid; [|done]. simpl in Hc.
    destruct (wakeable_Ok _ _ _ Hc) as [-> Hst].
    destruct (woken_inv settled step id r p) as [Hi Hp]; try done.
    exists r. split_and!; try done.
    + unfold wake, try_bind, bind. by rewrite (guarded_ok _ _ (wakeable id) _ r (r_status r)).
    + unfold pool_inv. eapply pool_inv_settle; [..|exact Hi]; simpl; set_solver.
  - unfold wake. apply try_bind_err. by apply (guarded_err_same _ _ (wakeable id)).
Qed.

(** ** The due buckets *)

(** At [u64::MAX] every bucket is due, as every step fits in 64 bits. *)
Definition due_step (current_step step : N) : Prop := current_step = u64_max ∨ (step ≤ current_step)%N.

#[export] Instance due_step_dec current_step step : Decision (due_step current_step step).
Proof. unfold due_step. apply _. Defined.

Lemma take_due_buckets_rest buckets step :
  (take_due_buckets buckets step).2 = filter (λ e, ¬ due_step step e.1) buckets.
Proof.
  unfold take_due_buckets, due_step. simpl. case_decide as E.
  - symmetry. apply map_empty. intros i. apply map_lookup_filter_None. right. naive_solver.
  - apply map_filter_ext. intros i x _. simpl. split; [intros H [?|?]; [done|lia]|intros H ?; apply H; right; lia].
Qed.

Lemma elem_of_btree_to_list {V} (m : gmap N V) k v : (k, v) ∈ btree_to_list m ↔ m !! k = Some v.
Proof. unfold btree_to_list, sort_by_key. by rewrite stable_sort_Permutation, elem_of_map_to_list. Qed.

Lemma take_due_buckets_due buckets step id s :
  (id, s) ∈ (take_due_buckets buckets step).1 ↔ bucket_mem buckets (s, id) ∧ due_step step s.
Proof.
  unfold take_due_buckets, bucket_mem. cbn [fst snd]. unfold due_step. rewrite list_elem_of_In, in_flat_map.
  setoid_rewrite <-list_elem_of_In. split.
  - intros ([s' ids] & Hb%elem_of_btree_to_list & (id' & Heq & Hin%elem_of_btree_elements)%list_elem_of_fmap).
    simplify_eq. case_decide as E; [by eauto|].
    apply map_lookup_filter_Some in Hb as [? ?]. simpl in *. split; [by eauto|]. right. lia.
  - intros [(ids & Hb & Hin) Hdue]. exists (s, ids). split.
    + apply elem_of_btree_to_list. case_decide as E; [done|].
      apply map_lookup_filter_Some. split; [done|]. simpl. destruct Hdue; [done|lia].
    + apply list_elem_of_fmap. exists id. by rewrite elem_of_btree_elements.
Qed.

Lemma NoDup_flat_map_btree (l : list (N * gset TaskId)) :
  NoDup l.*1 → NoDup (flat_map (λ '(step, ids), (λ id, (id, step)) <$> btree_elements ids) l).
Proof.
  induction l as [|[s ids] l IH]; simpl; [constructor|].
  intros [Hs Hnd]%NoDup_cons. apply NoDup_app. split_and!; [|..|by apply IH].
  - apply NoDup_fmap_2; [|apply NoDup_btree_elements]. intros ???. by simplify_eq.
  - intros x (id & -> & _)%list_elem_of_fmap Hin. apply Hs.
    apply list_elem_of_In, in_flat_map in Hin as ([s' ids'] & Hl%list_elem_of_In & Hx%list_elem_of_In).
    apply list_elem_of_fmap in Hx as (id' & Heq & _). simplify_eq.
    apply list_elem_of_fmap. by eexists (_, ids').
Qed.

Lemma NoDup_take_due_buckets buckets step : NoDup (take_due_buckets buckets step).1.
Proof.
  unfold take_due_buckets. simpl. apply NoDup_flat_map_btree.
  unfold btree_to_list, sort_by_key. rewrite stable_sort_Permutation. apply NoDup_fst_map_to_list.
Qed.

Lemma bucket_mem_filter (buckets : StepBuckets) step x :
  bucket_mem (filter (λ e, ¬ due_step step e.1) buckets) x ↔ bucket_mem buckets x ∧ ¬ due_step step x.1.
Proof. unfold bucket_mem. setoid_rewrite map_lookup_filter_Some. naive_solver. Qed.

Lemma no_empty_filter (buckets : StepBuckets) step :
  no_empty buckets → no_empty (filter (λ e, ¬ due_step step e.1) buckets).
Proof. intros H k [Hk _]%map_lookup_filter_Some. by eapply H. Qed.

(** Taking the due entries out of a step index leaves their tasks pending. *)
Lemma tracks_take_due tasks (entry : TaskRecord → option (N * TaskId)) (buckets : StepBuckets) step :
  keyed tasks → (∀ r x, entry r = Some x → x.2 = rec_id r) →
  tracks (bucket_mem buckets) entry tasks →
  let taken := take_due_buckets buckets step in
  tracks (bucket_mem taken.2) (unless_pending (list_to_set taken.1.*1) entry) tasks ∧
  NoDup taken.1.*1 ∧
  ∀ id s, (id, s) ∈ taken.1 ↔ ∃ r, tasks !! id = Some r ∧ entry r = Some (s, id) ∧ due_step step s.
Proof.
  intros Hk Hname Ht taken.
  assert (∀ id s, (id, s) ∈ taken.1 ↔ ∃ r, tasks !! id = Some r ∧ entry r = Some (s, id) ∧ due_step step s)
    as Hdue.
  { intros id s. subst taken. rewrite take_due_buckets_due, (Ht (s, id)). split.
    - intros [(id' & r & Hr & Hx) Hd]. exists r. pose proof (Hname _ _ Hx) as E. simpl in E.
      rewrite (Hk _ _ Hr) in E. by subst.
    - intros (r & Hr & Hx & Hd). eauto. }
  split_and!; [|apply NoDup_fmap_fst; [|apply NoDup_take_due_buckets]|done].
  - intros x. subst taken. rewrite take_due_buckets_rest, bucket_mem_filter, (Ht x).
    setoid_rewrite unless_pending_Some. split.
    + intros [(id & r & Hr & Hx) Hnd]. exists id, r. split_and!; try done.
      rewrite elem_of_list_to_set, list_elem_of_fmap. intros ([id' s'] & Hid' & Hin). simpl in Hid'.
      apply Hdue in Hin as (r' & Hr' & Hx' & Hd). subst id'. rewrite (Hk _ _ Hr) in Hr'.
      simplify_eq. by apply Hnd.
    + intros (id & r & Hr & Hnot & Hx). split; [by eauto|]. intros Hd. apply Hnot.
      apply elem_of_list_to_set, list_elem_of_fmap. exists (id, x.1). split.
      * simpl. by rewrite (Hk _ _ Hr).
      * apply Hdue. exists r. split_and!; try done. rewrite Hx.
        pose proof (Hname _ _ Hx) as E. rewrite (Hk _ _ Hr) in E. by destruct x; simpl in *; subst.
  - intros id s s' (r & Hr & Hx & _)%Hdue (r' & Hr' & Hx' & _)%Hdue. by simplify_eq.
Qed.

Lemma wake_entry_name r x : wake_entry r = Some x → x.2 = rec_id r.
Proof. unfold wake_entry. intros. repeat case_match; simplify_option_eq; done. Qed.

Lemma lease_entry_name r x : lease_entry r = Some x → x.2 = rec_id r.
Proof. unfold lease_entry. intros. repeat case_match; simplify_option_eq; done. Qed.

(** ** Waking every task whose step has come *)

Definition wake_due (step : N) r : bool :=
  is_some_and (wake_entry r) (λ x, bool_decide (due_step step x.1)).

Lemma wake_due_spec step r :
  wake_due step r = true ↔ ∃ s, wake_entry r = Some (s, rec_id r) ∧ due_step step s.
Proof.
  unfold wake_due. destruct (wake_entry r) as [[s id]|] eqn:E; simpl.
  - pose proof (wake_entry_name _ _ E) as E'. simpl in E'. subst id.
    rewrite bool_decide_eq_true. naive_solver.
  - naive_solver.
Qed.

Lemma wake_entry_status r x : wake_entry r = Some x → r_status r = Waiting ∨ r_status r = Blocked.
Proof. unfold wake_entry. destruct (r_status r); simpl; auto; done. Qed.

Definition waking (l : list (TaskId * N)) : Pending := MkPending (list_to_set l.*1) ∅ ∅ ∅.

Lemma take_due_wake_inv p step :
  pool_inv p →
  let taken := take_due_buckets (ix_wake_by_step (p_indexes p)) step in
  pool_inv_at (waking taken.1) (p <| p_indexes ::= λ ix, ix <| ix_wake_by_step := taken.2 |> |>) ∧
  NoDup taken.1.*1 ∧
  ∀ id s, (id, s) ∈ taken.1 ↔ ∃ r, p_tasks p !! id = Some r ∧ wake_entry r = Some (s, id) ∧ due_step step s.
Proof.
  intros [Hrec [Hwf ????? Hrun Hwait Hlease] Hst Hsz Hhi Hpe Hevd Hwa Hpay Hca] taken.
  destruct (tracks_take_due (p_tasks p) wake_entry (ix_wake_by_step (p_indexes p)) step)
    as (Ht & Hnd & Hdue); [by apply records_ok_keyed|apply wake_entry_name| |].
  { eapply tracks_ext; [|done]. intros. unfold unless_pending. simpl. by rewrite decide_False by set_solver. }
  split; [|done]. split; try done. split; try done. destruct Hwf. split; try done.
  change (no_empty taken.2). subst taken. rewrite take_due_buckets_rest. by apply no_empty_filter.
Qed.

Lemma take_due_wake_tasks_eq step p :
  let taken := take_due_buckets (ix_wake_by_step (p_indexes p)) step in
  take_due_wake_tasks step p =
    Some (taken.1, p <| p_indexes ::= λ ix, ix <| ix_wake_by_step := taken.2 |> |>).
Proof. unfold take_due_wake_tasks, bind, get. by destruct (take_due_buckets _ _). Qed.

(** The table after [f] has been applied to the [due] records outside [todo]. *)
Definition updated_tasks (due : TaskRecord → bool) (f : TaskRecord → TaskRecord)
    (todo : list TaskId) (tasks tasks' : gmap TaskId TaskRecord) : Prop :=
  ∀ id, tasks' !! id =
    (λ r, if due r && bool_decide (id ∉ todo) then f r else r) <$> tasks !! id.

Lemma updated_tasks_todo due f id todo tasks tasks' r :
  updated_tasks due f (id :: todo) tasks tasks' → tasks !! id = Some r → tasks' !! id = Some r.
Proof.
  intros Hw Hr. rewrite Hw, Hr. simpl. rewrite bool_decide_eq_false_2 by set_solver.
  by rewrite andb_false_r.
Qed.

Lemma updated_tasks_step due f id todo tasks tasks' r :
  updated_tasks due f (id :: todo) tasks tasks' → id ∉ todo →
  tasks !! id = Some r → due r = true →
  updated_tasks due f todo tasks (<[id := f r]> tasks').
Proof.
  intros Hw Hnot Hr Hd id'. rewrite lookup_insert. case_decide as E; [subst id'|].
  - rewrite Hr. simpl. rewrite Hd, bool_decide_eq_true_2 by done. done.
  - rewrite Hw. destruct (tasks !! id') as [r'|]; [simpl|done].
    f_equal. destruct (due r'); simpl; [|done]. repeat case_bool_decide; set_solver.
Qed.

Lemma updated_tasks_start due f todo tasks :
  (∀ id r, tasks !! id = Some r → due r = true → id ∈ todo) →
  updated_tasks due f todo tasks tasks.
Proof.
  intros Htodo id. destruct (tasks !! id) as [r|] eqn:Hr; simpl; [|done]. f_equal.
  destruct (due r) eqn:Hd; simpl; [|done]. rewrite bool_decide_eq_false_2; [done|]. eauto.
Qed.

Lemma updated_tasks_done due f tasks tasks' :
  updated_tasks due f [] tasks tasks' →
  tasks' = (λ r, if due r then f r else r) <$> tasks.
Proof.
  intros Hw. apply map_eq. intros id. rewrite Hw, lookup_fmap.
  destruct (tasks !! id) as [r|]; [|done]. simpl. by rewrite andb_true_r.
Qed.

Lemma wake_due_task_spec p step id s l q :
  records_ok (p_tasks p) →
  pool_inv_at (waking ((id, s) :: l)) q → NoDup ((id, s) :: l).*1 →
  (∃ r, p_tasks p !! id = Some r ∧ wake_entry r = Some (s, id) ∧ due_step step s) →
  updated_tasks (wake_due step) (wake_record step) ((id, s) :: l).*1 (p_tasks p) (p_tasks q) →
  runs (wake_due_task step id) q (λ _ q',
    pool_inv_at (waking l) q' ∧ progress q q' ∧ updated_tasks (wake_due step) (wake_record step) l.*1 (p_tasks p) (p_tasks q')).
Proof.
  intros Hrec Hinv [Hnot Hnd]%NoDup_cons (r & Hr & He & Hd) Hw.
  assert (p_tasks q !! id = Some r) as Hq.
  { by eapply updated_tasks_todo. }
  destruct (woken_inv _ step id r q Hinv) as [Hi Hp]; [set_solver|done|by eapply wake_entry_status|].
  eexists tt, (woken step id r q). split_and!; try done.
  - unfold wake_due_task, bind. by rewrite (mutate_record_indexed_Some id _ q r).
  - eapply pool_inv_settle; [..|exact Hi]; simpl; try set_solver.
  - eapply updated_tasks_step; try done. apply wake_due_spec. destruct (Hrec _ _ Hr) as [-> _]. eauto.
Qed.

Lemma wake_due_tasks_runs p step :
  pool_inv p →
  runs (wake_due_tasks step) p (λ due p',
    pool_inv p' ∧ progress p p' ∧
    (∀ id s, (id, s) ∈ due ↔ ∃ r, p_tasks p !! id = Some r ∧ wake_entry r = Some (s, id) ∧ due_step step s) ∧
    p_tasks p' = (λ r, if wake_due step r then wake_record step r else r) <$> p_tasks p).
Proof.
  intros Hinv. pose proof (take_due_wake_inv p step Hinv) as Ht. cbv zeta in Ht.
  unfold wake_due_tasks. apply runs_bind. eapply runs_eq; [apply take_due_wake_tasks_eq|].
  destruct (take_due_buckets _ _) as [due rest]. cbn [fst snd] in *.
  destruct Ht as (Hi & Hnd & Hdue). apply runs_bind.
  pose proof (pi_records _ _ Hinv) as Hrec.
  eapply runs_mono; [eapply (runs_for_each (λ l q,
    pool_inv_at (waking l) q ∧ progress p q ∧ NoDup l.*1 ∧ l ⊆ due ∧
    updated_tasks (wake_due step) (wake_record step) l.*1 (p_tasks p) (p_tasks q)))|].
  - intros [id s] l q (Hq & Hp & Hl & Hsub & Hw).
    eapply runs_mono; [apply (wake_due_task_spec p step id s l q); try done|].
    + apply Hdue, Hsub. set_solver.
    + intros [] q' (? & ? & ?). apply NoDup_cons in Hl as [_ ?].
      split_and!; try done; [by etrans|set_solver].
  - split_and!; try done; [by apply tasks_progress|]. apply updated_tasks_start.
    intros id r Hr (s & He & Hd)%wake_due_spec.
    destruct (Hrec _ _ Hr) as [E _]. rewrite E in He. apply list_elem_of_fmap. exists (id, s).
    split; [done|]. apply Hdue. eauto.
  - intros [] q (Hq & Hp & _ & _ & Hw). apply runs_ret. split_and!; try done.
    by apply updated_tasks_done.
Qed.

(** ** Reclaiming expired leases *)

Definition lease_expired (step : N) r : bool := is_some_and (r_lease r) (λ lease, task_lease_expired lease step).

Definition reclaiming (l : list TaskId) : Pending := MkPending ∅ (list_to_set l) ∅ ∅.

Lemma lease_entry_expired id r s step :
  record_ok id r → lease_entry r = Some (s, id) → due_step step s → lease_expired step r = true.
Proof.
  unfold record_ok, lease_entry, lease_expired, task_lease_expired. intros (_ & _ & Hok) He Hd.
  destruct (r_status r); try done. destruct (r_lease r) as [lease|]; [|done]. simpl in *.
  destruct (l_expires_at_step lease) as [s'|] eqn:Hs; simplify_eq/=.
  apply N.leb_le. destruct Hok as (_ & _ & _ & _ & _ & Hmax). specialize (Hmax _ eq_refl).
  destruct Hd; lia.
Qed.

Lemma lease_expired_entry id r step :
  record_ok id r → lease_expired step r = true →
  r_status r = Running ∧ ∃ s, lease_entry r = Some (s, id) ∧ due_step step s.
Proof.
  unfold record_ok, lease_entry, lease_expired, task_lease_expired. intros (Hk & _ & Hok) He.
  destruct (r_lease r) as [lease|]; [|done]. simpl in *.
  destruct (r_status r); try naive_solver. split; [done|].
  destruct (l_expires_at_step lease) as [s|] eqn:Hs; [|done]. simpl in *.
  exists s. rewrite Hk. split; [done|]. right. by apply N.leb_le.
Qed.

Lemma take_expired_inv p step :
  pool_inv p →
  let taken := take_due_buckets (ix_leases_by_expiry (p_indexes p)) step in
  pool_inv_at (reclaiming taken.1.*1)
    (p <| p_indexes ::= λ ix, ix <| ix_leases_by_expiry := taken.2 |> |>) ∧
  NoDup taken.1.*1 ∧
  ∀ id, id ∈ taken.1.*1 ↔ ∃ r, p_tasks p !! id = Some r ∧ lease_expired step r = true.
Proof.
  intros [Hrec [Hwf ????? Hrun Hwait Hlease] Hst Hsz Hhi Hpe Hevd Hwa Hpay Hca] taken.
  destruct (tracks_take_due (p_tasks p) lease_entry (ix_leases_by_expiry (p_indexes p)) step)
    as (Ht & Hnd & Hdue); [by apply records_ok_keyed|apply lease_entry_name| |].
  { eapply tracks_ext; [|done]. intros. unfold unless_pending. simpl. by rewrite decide_False by set_solver. }
  split; [|split; [done|]].
  - split; try done. split; try done. destruct Hwf. split; try done.
    change (no_empty taken.2). subst taken. rewrite take_due_buckets_rest. by apply no_empty_filter.
  - intros id. rewrite list_elem_of_fmap. split.
    + intros ([id' s] & -> & (r & Hr & He & Hd)%Hdue). exists r. split; [done|].
      eapply lease_entry_expired; [by apply Hrec|done|done].
    + intros (r & Hr & (_ & s & He & Hd)%(lease_expired_entry id)); [|by apply Hrec].
      exists (id, s). split; [done|]. apply Hdue. eauto.
Qed.

Lemma take_expired_lease_tasks_eq step p :
  let taken := take_due_buckets (ix_leases_by_expiry (p_indexes p)) step in
  take_expired_lease_tasks step p =
    Some (taken.1.*1, p <| p_indexes ::= λ ix, ix <| ix_leases_by_expiry := taken.2 |> |>).
Proof. unfold take_expired_lease_tasks, bind, get. by destruct (take_due_buckets _ _). Qed.

(** A running record put back into the ready queue. *)
Lemma requeued_inv d step id r p :
  pool_inv_at d p → id ∉ pd_parent d → p_tasks p !! id = Some r → r_status r = Running →
  pool_inv_at (after_wake id d) (moved id r (wake_record step r) p) ∧
  progress p (moved id r (wake_record step r) p).
Proof.
  intros Hinv Hnot Hid Hrun. pose proof (pi_records _ _ Hinv _ _ Hid) as Hok. split.
  - pose proof (transition_inv _ _ _ _ (wake_record step r) Hinv Hid) as H.
    specialize (H ltac:(by apply wake_record_ok) ltac:(by rewrite Hrun) eq_refl).
    eapply pool_inv_settle; [..|exact H]; simpl; try done.
    intros id' [->%elem_of_singleton|?]%elem_of_union; [|by left]. right.
    eapply waits_ok_not_parent; [by apply pi_waits|done|done|by rewrite Hrun].
  - apply moved_progress; [done|]. apply wake_record_step. tauto.
Qed.

Lemma reclaim_loop_spec p step ids q :
  records_ok (p_tasks p) →
  pool_inv_at (reclaiming ids) q → NoDup ids →
  (∀ id, id ∈ ids → ∃ r, p_tasks p !! id = Some r ∧ lease_expired step r = true) →
  updated_tasks (lease_expired step) (wake_record step) ids (p_tasks p) (p_tasks q) →
  runs (reclaim_loop step ids) q (λ leases q',
    pool_inv q' ∧ progress q q' ∧ updated_tasks (lease_expired step) (wake_record step) [] (p_tasks p) (p_tasks q') ∧
    leases = omap (λ id, p_tasks p !! id ≫= r_lease) ids).
Proof.
  intros Hrec. revert q. induction ids as [|id ids IH]; intros q Hinv Hnd Hexp Hw.
  { by apply runs_ret. }
  apply NoDup_cons in Hnd as [Hnot Hnd]. destruct (Hexp id) as (r & Hr & He); [set_solver|].
  destruct (lease_expired_entry id r step) as [Hrun _]; [by apply Hrec|done|].
  assert (p_tasks q !! id = Some r) as Hq by (by eapply updated_tasks_todo).
  destruct (r_lease r) as [lease|] eqn:Hl; [|unfold lease_expired in He; by rewrite Hl in He].
  destruct (requeued_inv _ step id r q Hinv) as [Hi Hp]; [set_solver|done|done|].
  cbn [reclaim_loop]. apply runs_bind.
  eapply (runs_eq _ _ (Some lease) (moved id r (wake_record step r) q)).
  { unfold reclaim_one, bind, get. rewrite Hq. simpl. unfold lease_expired in He.
    rewrite He. rewrite (mutate_record_indexed_Some id _ q r) by done. simpl. rewrite Hl.
    unfold moved. by rewrite Hrun. }
  apply runs_bind. eapply runs_mono; [apply IH|].
  - eapply pool_inv_settle; [..|exact Hi]; simpl; set_solver.
  - done.
  - intros id' Hin. apply Hexp. set_solver.
  - by eapply updated_tasks_step.
  - intros leases q' (? & ? & ? & ->). apply runs_ret. split_and!; try done; [by etrans|].
    simpl. rewrite Hr. simpl. by rewrite Hl.
Qed.

(** Charging execution steps changes the counters only. *)
Lemma attempts_finished_runs d leases step p :
  pool_inv_at d p →
  runs (for_each leases (λ lease, record_attempt_finished lease step)) p (λ _ p',
    pool_inv_at d p' ∧ ∃ s, p' = p <| p_statistics := s |>).
Proof.
  intros Hinv.
  eapply (runs_for_each (λ _ q, pool_inv_at d q ∧ ∃ s, q = p <| p_statistics := s |>)).
  - intros lease l q [Hq [s ->]]. apply runs_modify. split; [by apply attempt_finished_inv|].
    by eexists.
  - split; [done|]. exists (p_statistics p). by destruct p.
Qed.

Lemma reclaim_expired_runs p step :
  pool_inv p →
  runs (reclaim_expired_task_leases step) p (λ leases p',
    pool_inv p' ∧ progress p p' ∧
    (∀ lease, lease ∈ leases ↔
       ∃ id r, p_tasks p !! id = Some r ∧ r_lease r = Some lease ∧ task_lease_expired lease step = true) ∧
    p_tasks p' = (λ r, if lease_expired step r then wake_record step r else r) <$> p_tasks p).
Proof.
  intros Hinv. pose proof (pi_records _ _ Hinv) as Hrec.
  pose proof (take_expired_inv p step Hinv) as Ht. cbv zeta in Ht.
  unfold reclaim_expired_task_leases. apply runs_bind.
  eapply runs_eq; [apply take_expired_lease_tasks_eq|].
  destruct (take_due_buckets _ _) as [due rest]. cbn [fst snd] in *.
  destruct Ht as (Hi & Hnd & Hdue). set (q := p <| p_indexes ::= _ |>) in *.
  apply runs_bind. eapply runs_mono; [apply (reclaim_loop_spec p step due.*1 q)|]; try done.
  - intros id. apply Hdue.
  - apply updated_tasks_start. intros id r Hr He. apply Hdue. eauto.
  - intros leases q' (Hq' & Hp' & Hw & ->). apply runs_bind.
    eapply runs_mono; [by apply attempts_finished_runs|]. intros [] p' [Hp [s ->]]. apply runs_ret.
    split_and!; [done| | |].
    + etrans; [by apply (tasks_progress p q)|]. etrans; [done|]. by apply tasks_progress.
    + intros lease. rewrite list_elem_of_omap. split.
      * intros (id & (r & Hr & He)%Hdue & Hl). rewrite Hr in Hl. simpl in Hl. exists id, r.
        unfold lease_expired in He. rewrite Hl in He. done.
      * intros (id & r & Hr & Hl & He). exists id. split; [|by rewrite Hr].
        apply Hdue. exists r. split; [done|]. unfold lease_expired. by rewrite Hl.
    + by apply updated_tasks_done in Hw.
Qed.

End KernelSteps.
