(* ===== verification/PoolForced.v ===== *)
(** * Forced transitions preserve the invariant

    Enqueueing, rejection, cancellation, expiry and dead-lettering by the
    kernel, cancellation of an invocation, delivery of waits, generation
    rebinding and abort of every live task. *)

From S2P Require Import Prelude Contracts TaskRecords TaskIndexes IndexFacts TaskPool PoolInvariant PoolHistory PoolSteps PoolKernelSteps.

Section Forced.
Context `{SJ : SerdeJson}.
Implicit Types r : TaskRecord.
Implicit Types p : TaskPool.

(** ** Rejecting a ready task *)

Definition rejectable (id : TaskId) r : RuntimeResult unit :=
  if decide (r_status r = Ready) then Ok tt else claim_conflict "reject" id.

Definition rejected (failure : RuntimeError) r : TaskRecord :=
  r <| r_status := Failed |> <| r_failure := Some failure |>.

Lemma reject_ready_spec p id failure :
  pool_inv p →
  match (letr? record := pool_record p id in rejectable id record) with
  | Ok _ => ∃ r p', p_tasks p !! id = Some r ∧ r_status r = Ready ∧
      reject_ready id failure p = Some (Ok tt, p') ∧ pool_inv p' ∧ progress p p' ∧
      replaced id (rejected failure r) p p'
  | Err e => reject_ready id failure p = Some (Err e, p)
  end.
Proof.
  intros Hinv. destruct (letr? record := _ in _) as [u|e] eqn:Hc.
  - unfold pool_record in Hc. destruct (p_tasks p !! id) as [r|] eqn:Hid; [|done]. simpl in Hc.
    pose proof Hc as Hready. unfold rejectable in Hready. case_decide as Hst; [|done].
    destruct (pi_records _ _ Hinv _ _ Hid) as (Hk & _ & Hl). rewrite Hst in Hl.
    destruct Hl as [Hl Hcl].
    assert (record_step r (rejected failure r)) as Hstep.
    { split; simpl; try done. by rewrite Hst. }
    assert (pool_inv_at (finishing id) (moved id r (rejected failure r) p)) as Hfin.
    { apply moved_finishing_inv; by rewrite ?Hst. }
    destruct (finishing_spec _ _ Hfin) as ([] & p' & Hrun & Hi & Hev & Hb).
    exists r, p'. split_and!; try done.
    + unfold reject_ready, try_bind, bind.
      rewrite (guarded_ok _ _ (rejectable id) _ r u) by done.
      unfold modify_statistics, modify. fold (rejected failure r).
      change (Some Failed) with (Some (r_status (rejected failure r))). rewrite <-Hst at 1.
      fold (moved id r (rejected failure r) p). by rewrite Hrun.
    + etrans; [by apply moved_progress|]. by eapply evicts_progress.
    + split; [|done]. etrans; [|done]. by apply evicts_same.
  - unfold reject_ready. apply try_bind_err. by apply (guarded_err_same _ _ (rejectable id)).
Qed.

(** ** Ending a live task from the kernel *)

(** The statuses [terminal_by_core] is called with. *)
Definition core_status (status : TaskStatus) : bool :=
  match status with Cancelled | Expired | DeadLetter => true | _ => false end.

Definition ending (id : TaskId) (action : string) r : RuntimeResult (option TaskLease * TaskStatus) :=
  if is_terminal_status (r_status r) then claim_conflict action id else Ok (r_lease r, r_status r).

Lemma terminal_record_step status failure id r :
  record_ok id r → core_status status = true → is_terminal_status (r_status r) = false →
  record_step r (mark_terminal_record status failure r).
Proof.
  intros (_ & Hc & _) Hs Hr. split; simpl; try done.
  - destruct (r_status r), status; done.
  - by destruct status.
  - by destruct status.
Qed.

Lemma mark_terminal_ok status failure id r :
  record_ok id r → core_status status = true → record_ok id (mark_terminal_record status failure r).
Proof. intros (Hk & _) Hs. apply record_ok_idle; try done; simpl; by destruct status. Qed.

Lemma core_status_terminal status : core_status status = true → is_terminal_status status = true.
Proof. by destruct status. Qed.

(** The pool between the record's move and its entry in the history. *)
Definition ended (status : TaskStatus) failure (step : N) (id : TaskId) r p : TaskPool :=
  let q := moved id r (mark_terminal_record status failure r) p in
  remove_waits_for_parent id
    (match r_lease r with
     | Some lease => q <| p_statistics ::= record_attempt_finished_value lease step |>
     | None => q
     end).

Lemma ended_inv status failure step id r p :
  pool_inv p → p_tasks p !! id = Some r → core_status status = true →
  is_terminal_status (r_status r) = false →
  pool_inv_at (finishing id) (ended status failure step id r p).
Proof.
  intros Hinv Hid Hs Hlive. pose proof (pi_records _ _ Hinv _ _ Hid) as Hok.
  assert (pool_inv_at (MkPending ∅ ∅ {[id]} {[id]}) (moved id r (mark_terminal_record status failure r) p))
    as Hq.
  { apply moved_terminal_inv; try done; [by apply mark_terminal_ok|by apply core_status_terminal]. }
  unfold ended. eapply (pool_inv_settle (without_parent id (MkPending ∅ ∅ {[id]} {[id]}))).
  - set_solver.
  - set_solver.
  - set_solver.
  - apply remove_waits_inv. destruct (r_lease r); [by apply attempt_finished_inv|done].
Qed.

Lemma terminal_by_core_spec p id status failure action step :
  pool_inv p → core_status status = true →
  match (letr? record := pool_record p id in ending id action record) with
  | Ok _ => ∃ r p', p_tasks p !! id = Some r ∧ is_terminal_status (r_status r) = false ∧
      terminal_by_core id status failure action step p = Some (Ok tt, p') ∧
      pool_inv p' ∧ progress p p' ∧ p_waits_by_parent p' !! id = None ∧
      evicts (remove_waits_for_parent id (with_record id (mark_terminal_record status failure r) p)) p' ∧
      history_bounded p'
  | Err e => terminal_by_core id status failure action step p = Some (Err e, p)
  end.
Proof.
  intros Hinv Hs. destruct (letr? record := _ in _) as [u|e] eqn:Hc.
  - unfold pool_record in Hc. destruct (p_tasks p !! id) as [r|] eqn:Hid; [|done]. simpl in Hc.
    pose proof Hc as Hu. unfold ending in Hu. destruct (is_terminal_status (r_status r)) eqn:Hlive; [done|].
    injection Hu as <-. pose proof (pi_records _ _ Hinv _ _ Hid) as Hok.
    pose proof (ended_inv status failure step id r p Hinv Hid Hs Hlive) as Hi.
    assert (evicts (remove_waits_for_parent id (with_record id (mark_terminal_record status failure r) p))
      (ended status failure step id r p)) as Hsame.
    { unfold ended. by destruct (r_lease r); apply evicts_same. }
    destruct (finishing_spec _ _ Hi) as ([] & p' & Hrun & Hinv' & Hev & Hb).
    exists r, p'. split_and!; try done.
    + unfold terminal_by_core, try_bind, bind.
      rewrite (guarded_ok _ _ (ending id action) _ r (r_lease r, r_status r)) by done.
      transitivity (bind (record_terminal_task id) (λ _, ret (Ok tt : RuntimeResult unit))
                      (ended status failure step id r p)); [|by unfold bind; rewrite Hrun].
      unfold ended. destruct (r_lease r);
        unfold record_attempt_finished, modify_statistics, modify, bind, ret; reflexivity.
    + etrans; [eapply (insert_progress p (ended status failure step id r p)); [done| |]|].
      * by apply (terminal_record_step status failure id).
      * unfold ended. by destruct (r_lease r).
      * by eapply evicts_progress.
    + rewrite (ev_by_parent _ _ Hev), (ev_by_parent _ _ Hsame). apply lookup_delete_eq.
    + by etrans.
  - unfold terminal_by_core. apply try_bind_err. by apply (guarded_err_same _ _ (ending id action)).
Qed.

(** ** Cancelling a running invocation *)

(** The record the invocation runs in. *)
Definition runs_invocation (runner_id invocation_id : string) r : Prop :=
  r_status r = Running ∧ r_claimed_by r = Some runner_id ∧
  ∃ lease, r_lease r = Some lease ∧ l_lease_id lease = invocation_id.

Lemma running_index p runner_id id :
  pool_inv p →
  id ∈ flatten_ids (running_task_ids p runner_id) ↔
  ∃ r, p_tasks p !! id = Some r ∧ r_status r = Running ∧ r_claimed_by r = Some runner_id.
Proof.
  intros Hinv. pose proof (if_running _ _ _ _ (pi_indexes _ _ Hinv)) as Ht.
  pose proof (pi_records _ _ Hinv) as Hrec.
  transitivity (bucket_mem (ix_running_by_runner (p_indexes p)) (runner_id, id)).
  - unfold running_task_ids, flatten_ids, bucket_mem. simpl.
    destruct (ix_running_by_runner (p_indexes p) !! runner_id) as [s|].
    + rewrite elem_of_btree_elements. naive_solver.
    + split; [by intros ?%not_elem_of_nil|naive_solver].
  - rewrite (Ht (runner_id, id)). unfold running_entry. split.
    + intros (id' & r & Hr & He). destruct (Hrec _ _ Hr) as [Hk _].
      destruct (r_status r) eqn:Hs; try done. destruct (r_claimed_by r) eqn:Hcl; simplify_eq/=.
      exists r. eauto.
    + intros (r & Hr & Hs & Hcl). exists id, r. rewrite Hs, Hcl. destruct (Hrec _ _ Hr) as [-> _]. done.
Qed.

Lemma find_running_invocation_Some p runner_id invocation_id id :
  pool_inv p → find_running_invocation p runner_id invocation_id = Some id →
  ∃ r, p_tasks p !! id = Some r ∧ runs_invocation runner_id invocation_id r.
Proof.
  intros Hinv Hf. unfold find_running_invocation in Hf.
  apply head_Some_elem_of, list_elem_of_omap in Hf as (id' & Hin & Hf).
  apply running_index in Hin as (r & Hr & Hs & Hcl); [|done]. rewrite Hr in Hf. simpl in Hf.
  destruct (r_lease r) as [lease|] eqn:Hl; [simpl in Hf|done].
  case_bool_decide as Hi; [|done]. injection Hf as <-.
  destruct (pi_records _ _ Hinv _ _ Hr) as [<- _]. exists r. split; [done|].
  split_and!; eauto.
Qed.

Lemma find_running_invocation_None p runner_id invocation_id id r :
  pool_inv p → find_running_invocation p runner_id invocation_id = None →
  p_tasks p !! id = Some r → ¬ runs_invocation runner_id invocation_id r.
Proof.
  intros Hinv Hf Hr (Hs & Hcl & lease & Hl & Hi). unfold find_running_invocation in Hf.
  apply head_None in Hf. assert (id ∈ flatten_ids (running_task_ids p runner_id)) as Hin.
  { apply running_index; eauto. }
  assert (t_task_id (r_task r) ∈ ([] : list TaskId)) as []%not_elem_of_nil.
  rewrite <-Hf. apply list_elem_of_omap. exists id. split; [done|]. rewrite Hr. simpl. rewrite Hl. simpl.
  by rewrite bool_decide_eq_true_2.
Qed.

Lemma cancel_running_invocation_spec p runner_id invocation_id step :
  pool_inv p →
  match find_running_invocation p runner_id invocation_id with
  | Some id => ∃ r p', p_tasks p !! id = Some r ∧ runs_invocation runner_id invocation_id r ∧
      cancel_running_invocation runner_id invocation_id step p = Some (1%N, p') ∧
      pool_inv p' ∧ progress p p' ∧ p_tasks p' = <[id := wake_record step r]> (p_tasks p)
  | None => cancel_running_invocation runner_id invocation_id step p = Some (0%N, p)
  end.
Proof.
  intros Hinv. unfold cancel_running_invocation, bind, get.
  destruct (find_running_invocation _ _ _) as [id|] eqn:Hf; [|done].
  destruct (find_running_invocation_Some _ _ _ _ Hinv Hf) as (r & Hr & Hruns).
  pose proof Hruns as (Hs & Hcl & lease & Hl & Hi).
  rewrite Hr. simpl. rewrite Hl, (mutate_record_indexed_Some id _ p r) by done.
  destruct (requeued_inv settled step id r p Hinv) as [Hq Hp]; [set_solver|done|done|].
  exists r, ((moved id r (wake_record step r) p)
               <| p_statistics ::= record_attempt_finished_value lease step |>).
  split_and!; try done.
  - unfold record_attempt_finished, modify_statistics, modify, moved. rewrite Hs. reflexivity.
  - apply attempt_finished_inv. eapply pool_inv_settle; [..|exact Hq]; simpl; set_solver.
  - etrans; [exact Hp|]. by apply tasks_progress.
Qed.

(** ** Enqueueing *)

(** The record of an enqueued task: a missing sequence number is assigned. *)
Definition enqueued_record (p : TaskPool) (task : Task) (step : N) : TaskRecord :=
  new_record (if decide (t_created_sequence task = 0%N)
              then task <| t_created_sequence := (p_next_sequence p + 1)%N |> else task) step.

Lemma enqueue_at_spec p task step value :
  pool_inv p → as_value (t_payload task) = Some value →
  (p_next_sequence p < u64_max)%N → (N.of_nat (size (p_tasks p)) < usize_max)%N →
  if contains_task_id p (t_task_id task)
  then enqueue_at task step p =
         Some (runtime_failure ERR_TASK_DUPLICATE "runtime.task_pool" ("task.enqueue." +:+ t_task_id task), p)
  else match compact_json_len value with
  | Err error => enqueue_at task step p =
      Some (runtime_failure ERR_RUNTIME_HOST_FAILED "runtime.task_pool"
              ("task.payload.encode." +:+ t_task_id task +:+ ":" +:+ error), p)
  | Ok bytes => ∃ p', enqueue_at task step p = Some (Ok (t_task_id task), p') ∧ pool_inv p' ∧
      p_tasks p !! t_task_id task = None ∧
      p_tasks p' = <[t_task_id task := enqueued_record p task step]> (p_tasks p) ∧
      p_next_sequence p' = (p_next_sequence p + 1)%N ∧
      p_payload_wire_bytes p' !! t_task_id task = Some bytes
  end.
Proof.
  intros Hinv Hv Hseq Hsize. unfold enqueue_at. rewrite (bind_run get _ p p p) by done.
  destruct (contains_task_id p (t_task_id task)) eqn:Hc; [done|].
  rewrite Hv, (bind_run (expect (Some value)) _ p value p) by done.
  destruct (compact_json_len value) as [bytes|error] eqn:Hj; [|done].
  apply orb_false_elim in Hc as [Hc1 Hc2]. apply bool_decide_eq_false_1 in Hc1, Hc2.
  apply eq_None_not_Some in Hc1.
  unfold u64_add. rewrite decide_True by lia.
  rewrite (bind_run (ret _) _ p (p_next_sequence p + 1)%N p) by done.
  fold (enqueued_record p task step).
  set (r := enqueued_record p task step).
  unfold bind, ret, modify_statistics, modify, insert_record_indexes, update_record_indexes.
  cbn -[update_record insert record_status_transition].
  rewrite lookup_insert_eq.
  eexists. split; [reflexivity|]. cbn -[update_record insert record_status_transition].
  destruct Hinv as [Hrec Hix Hst Hsz Hhi Hpe Hevd Hwa Hpay Hca].
  assert (rec_id r = t_task_id task) as Hk.
  { subst r. unfold rec_id, enqueued_record, new_record. by case_decide. }
  split_and!; try done; [|by rewrite lookup_insert_eq].
  split; cbn -[update_record insert record_status_transition]; try done.
  - apply records_ok_insert; [done|]. by apply record_ok_idle.
  - apply indexes_for_insert; [done|set_solver..|done].
  - apply (stats_ok_insert _ _ _ r); try done.
  - rewrite map_size_insert_None by done. lia.
  - apply history_ok_live; [done| |done]. intros (r' & ? & _). congruence.
  - by apply evicted_ok_insert.
  - by apply waits_ok_insert.
  - apply payload_ok_insert; [|done]. unfold r, enqueued_record, payload_bytes.
    by case_decide; simpl; rewrite Hv, Hj.
Qed.

(** ** Delivering the waits on a finished child *)

Lemma take_waits_for_child_spec p child :
  pool_inv p →
  ∃ p', take_waits_for_child child p = Some (or_default [] (p_waits_by_child p !! child), p') ∧
    pool_inv p' ∧ progress p p' ∧ p_waits_by_child p' !! child = None ∧
    evicts (take_waits_for_child_raw child p).2 p'.
Proof.
  intros Hinv. pose proof Hinv as [Hrec Hix Hst Hsz Hhi Hpe Hevd Hwa Hpay Hca].
  destruct (waits_ok_take_child _ child p Hwa) as [Hwa' Hnone].
  assert (pool_inv (take_waits_for_child_raw child p).2) as Hq by (split; done).
  destruct (compact_terminal_history_spec _ _ Hq) as (p' & Hrun & Hinv' & Hev & _).
  exists p'. split_and!; try done.
  - unfold take_waits_for_child. rewrite (bind_run get _ p p p) by done.
    rewrite (surjective_pairing (take_waits_for_child_raw child p)).
    rewrite (bind_run (put _) _ p tt (take_waits_for_child_raw child p).2) by done.
    by rewrite (bind_run compact_terminal_history _ _ tt p').
  - etrans; [|eapply evicts_progress; [exact Hq|exact Hev]]. by apply tasks_progress.
  - by rewrite (ev_by_child _ _ Hev).
Qed.

(** ** Rebinding the ready tasks of a registry generation *)

Definition rebound (old_generation new_generation : N) r : TaskRecord :=
  if rebinds old_generation r
  then r <| r_task ::= λ t, t <| t_registry_generation := new_generation |> |> else r.

Lemma rebound_status old new r : r_status (rebound old new r) = r_status r.
Proof. unfold rebound. by destruct (rebinds old r). Qed.

Lemma rebound_ok old new id r : record_ok id r → record_ok id (rebound old new r).
Proof. unfold rebound. by destruct (rebinds old r). Qed.

Lemma rebinds_ready old r : rebinds old r = true → r_status r = Ready.
Proof. unfold rebinds. intros [H _]%andb_prop. by apply bool_decide_eq_true in H. Qed.

Lemma rebound_step old new id r : record_ok id r → rtc record_step r (rebound old new r).
Proof.
  intros (_ & _ & Hl). unfold rebound. destruct (rebinds old r) eqn:Hb; [|done].
  apply rebinds_ready in Hb. rewrite Hb in Hl. apply rtc_once. split; simpl; try done.
  - by rewrite Hb.
  - by rewrite Hb.
  - rewrite Hb. by destruct Hl.
Qed.

Lemma count_entries_fmap {X} `{EqDecision X} (entry : TaskRecord → option X) f tasks x :
  (∀ r, entry (f r) = entry r) → count_entries entry (f <$> tasks) x = count_entries entry tasks x.
Proof.
  intros Hf. unfold count_entries. f_equal.
  rewrite map_filter_fmap, map_size_fmap. f_equal. apply map_filter_ext. intros i r _. simpl. by rewrite Hf.
Qed.

Lemma rebind_ready_generation_spec p old new :
  pool_inv p →
  ∃ p', rebind_ready_generation old new p =
          Some (N.of_nat (size (filter (λ e, rebinds old e.2 = true) (p_tasks p))), p') ∧
    pool_inv p' ∧ progress p p' ∧ p_tasks p' = rebound old new <$> p_tasks p.
Proof.
  intros Hinv. unfold rebind_ready_generation. rewrite (bind_run get _ p p p) by done.
  eexists. split; [reflexivity|]. fold (rebound old new).
  pose proof Hinv as [Hrec Hix Hst Hsz Hhi Hpe Hevd Hwa Hpay Hca].
  assert (∀ id, is_terminal (rebound old new <$> p_tasks p) id ↔ is_terminal (p_tasks p) id) as Hterm.
  { intros id. unfold is_terminal. setoid_rewrite lookup_fmap_Some. split.
    - intros (r & (r' & <- & Hr) & Ht). rewrite rebound_status in Ht. eauto.
    - intros (r & Hr & Ht). exists (rebound old new r). rewrite rebound_status. eauto. }
  split_and!; [|split|done].
  - split; simpl.
    + intros id r (r' & <- & Hr)%lookup_fmap_Some. by apply rebound_ok, Hrec.
    + apply rebuild_for.
    + intros status Hs. rewrite Hst by done. symmetry. apply count_entries_fmap.
      intros r. unfold status_entry. by rewrite rebound_status.
    + by rewrite map_size_fmap.
    + unfold history_ok in *. destruct (p_history_retention p); [|done].
      destruct Hhi as [Hnd Hin]. split; [done|]. intros id. rewrite Hin. by rewrite Hterm.
    + intros id Hin. by apply not_elem_of_empty in Hin.
    + destruct Hevd as (? & ? & Hno & ?). split_and!; try done.
      intros id Hin. rewrite lookup_fmap. by rewrite Hno.
    + eapply waits_ok_tasks; [..|exact Hwa].
      * intros id _ [r Hr]. rewrite lookup_fmap, Hr. by eexists.
      * intros id _ [?|(r & Hr & Hs)]; [by left|right]. exists (rebound old new r).
        by rewrite lookup_fmap, Hr, rebound_status.
    + apply payload_ok_fmap; [|done]. intros r. unfold rebound. by destruct (rebinds old r).
    + done.
  - intros id r' (r & <- & Hr)%lookup_fmap_Some. exists r. split; [done|].
    by eapply rebound_step, Hrec.
  - intros id r Hr. simpl. rewrite lookup_fmap, Hr. done.
Qed.

(** ** Aborting every live task *)

Definition is_live r : bool := negb (is_terminal_status (r_status r)).

Definition abort_mark (failure : RuntimeError) : TaskRecord → TaskRecord :=
  mark_terminal_record Cancelled (Some failure).

Definition aborted_tasks (failure : RuntimeError) (tasks : gmap TaskId TaskRecord) :
    gmap TaskId TaskRecord :=
  (λ r, if is_live r then abort_mark failure r else r) <$> tasks.

Lemma live_entries_spec p id r :
  (id, r) ∈ live_entries p ↔ p_tasks p !! id = Some r ∧ is_live r = true.
Proof.
  unfold live_entries, is_live. rewrite list_elem_of_filter, elem_of_map_to_list. simpl.
  destruct (is_terminal_status (r_status r)); naive_solver.
Qed.

Lemma NoDup_live_entries p : NoDup (live_entries p).*1.
Proof.
  eapply sublist_NoDup; [|apply fmap_sublist, sublist_filter]. apply NoDup_fst_map_to_list.
Qed.

Lemma abort_loop_runs p failure :
  pool_inv p →
  runs (for_each (live_entries p) (λ e, modify (abort_record failure e))) p (λ _ q,
    ∃ s, q = p <| p_tasks := aborted_tasks failure (p_tasks p) |> <| p_statistics := s |> ∧
         stats_ok (p_tasks q) s).
Proof.
  intros Hinv. pose proof Hinv as [Hrec Hix Hst Hsz Hhi Hpe Hevd Hwa Hpay Hca].
  eapply runs_mono; [eapply (runs_for_each (λ l q, l ⊆ live_entries p ∧ NoDup l.*1 ∧
    updated_tasks is_live (abort_mark failure) l.*1 (p_tasks p) (p_tasks q) ∧
    ∃ t s, q = p <| p_tasks := t |> <| p_statistics := s |> ∧ size t = size (p_tasks p) ∧ stats_ok t s))|].
  - intros [id r] l q (Hsub & [Hnot Hnd]%NoDup_cons & Hup & t & s & -> & Hsize & Hs).
    apply runs_modify. destruct (live_entries_spec p id r) as [[Hr Hlive] _]; [apply Hsub; set_solver|].
    pose proof (updated_tasks_todo _ _ _ _ _ _ _ Hup Hr) as Ht. simpl in Ht.
    destruct (Hrec _ _ Hr) as (_ & Hc & _).
    split_and!; [set_solver|done|by eapply updated_tasks_step|].
    eexists (<[id := abort_mark failure r]> t), _.
    split_and!; [reflexivity|by rewrite map_size_insert_Some by eauto|].
    simpl. change Cancelled with (r_status (abort_mark failure r)).
    apply stats_ok_replace; try done. by rewrite Hsize.
  - split_and!; [done|apply NoDup_live_entries| |].
    + apply updated_tasks_start. intros id r Hr Hl. apply list_elem_of_fmap. exists (id, r).
      split; [done|]. by apply live_entries_spec.
    + exists (p_tasks p), (p_statistics p). split_and!; try done. by destruct p.
  - intros [] q (_ & _ & Hup & t & s & -> & _ & Hs). apply updated_tasks_done in Hup.
    simpl in Hup. subst t. exists s. split; [done|]. done.
Qed.

Lemma aborted_terminal failure tasks id :
  is_terminal (aborted_tasks failure tasks) id ↔ is_Some (tasks !! id).
Proof.
  unfold is_terminal, aborted_tasks. setoid_rewrite lookup_fmap_Some. split.
  - intros (r & (r' & _ & ?) & _). eauto.
  - intros [r Hr]. eexists. split; [by eauto|]. unfold is_live.
    destruct (is_terminal_status (r_status r)) eqn:Ht; simpl; [done|]. done.
Qed.

Definition aborting (ids : list TaskId) : Pending := MkPending ∅ ∅ (list_to_set ids) (list_to_set ids).

Lemma aborted_inv p failure s ids :
  pool_inv p → stats_ok (aborted_tasks failure (p_tasks p)) s →
  (∀ id, id ∈ ids ↔ ∃ r, p_tasks p !! id = Some r ∧ is_live r = true) →
  pool_inv_at (aborting ids)
    (rebuild_indexes (p <| p_tasks := aborted_tasks failure (p_tasks p) |> <| p_statistics := s |>)).
Proof.
  intros [Hrec Hix Hst Hsz Hhi Hpe Hevd Hwa Hpay Hca] Hs Hids. split; simpl.
  - intros id r' (r & <- & Hr)%lookup_fmap_Some. specialize (Hrec _ _ Hr).
    destruct (is_live r); [by apply mark_terminal_ok|done].
  - apply rebuild_for.
  - done.
  - unfold aborted_tasks. by rewrite map_size_fmap.
  - unfold history_ok in *. destruct (p_history_retention p); [|done]. destruct Hhi as [Hnd Hin].
    split; [done|]. intros id. rewrite Hin, aborted_terminal, elem_of_list_to_set, Hids.
    unfold is_terminal, is_live. split.
    + intros [_ (r & Hr & Ht)]. split; [|by eauto]. intros (r' & ? & Hl). simplify_eq.
      by rewrite Ht in Hl.
    + intros [Hnot [r Hr]]. split; [set_solver|]. exists r. split; [done|].
      destruct (is_terminal_status (r_status r)) eqn:Ht; [done|]. exfalso. apply Hnot. exists r. by rewrite Ht.
  - intros id Hin. apply aborted_terminal. apply elem_of_list_to_set, Hids in Hin as (r & ? & _). eauto.
  - destruct Hevd as (? & ? & Hno & ?). split_and!; try done.
    intros id Hin. unfold aborted_tasks. rewrite lookup_fmap. by rewrite Hno.
  - eapply waits_ok_tasks; [..|exact Hwa].
    + intros id _ [r Hr]. unfold aborted_tasks. rewrite lookup_fmap, Hr. by eexists.
    + intros id _ [?|(r & Hr & Hw)]; [set_solver|left]. apply elem_of_list_to_set, Hids.
      exists r. unfold is_live. by rewrite Hw.
  - apply payload_ok_fmap; [|done]. intros r. by destruct (is_live r).
  - done.
Qed.

Lemma aborting_loop_runs ids q :
  pool_inv_at (aborting ids) q → NoDup ids →
  runs (for_each ids (λ id, modify (remove_waits_for_parent id) ;;! record_terminal_task id)) q
    (λ _ q', pool_inv q' ∧ progress q q' ∧ p_tasks q' ⊆ p_tasks q).
Proof.
  intros Hinv Hnd.
  eapply runs_mono; [eapply (runs_for_each (λ l q', pool_inv_at (aborting l) q' ∧ NoDup l ∧
    progress q q' ∧ p_tasks q' ⊆ p_tasks q)); [|done]|].
  - intros id l q' (Hi & [Hnot Hl]%NoDup_cons & Hp & Hsub).
    apply runs_bind, runs_modify. apply (remove_waits_inv _ _ id) in Hi.
    destruct (record_terminal_task_spec _ _ id Hi) as (p' & Hrun & Hi' & Hev & _); [set_solver|].
    eapply runs_eq; [exact Hrun|]. split_and!; try done.
    + eapply pool_inv_settle; [..|exact Hi']; simpl; set_solver.
    + etrans; [exact Hp|]. etrans; [|eapply evicts_progress; [exact Hi|exact Hev]].
      by apply tasks_progress.
    + etrans; [exact (ev_tasks _ _ Hev)|done].
  - intros [] q' (Hi & _ & ? & ?). by split_and!.
Qed.

Lemma abort_all_runs p step failure :
  pool_inv p →
  runs (abort_all step failure) p (λ aborted p',
    pool_inv p' ∧ progress p p' ∧ StronglySorted String.le aborted ∧
    (∀ id, id ∈ aborted ↔ ∃ r, p_tasks p !! id = Some r ∧ is_live r = true) ∧
    p_tasks p' ⊆ aborted_tasks failure (p_tasks p)).
Proof.
  intros Hinv. pose proof (pi_records _ _ Hinv) as Hrec.
  set (ids := sort_strings ((λ e, t_task_id (r_task e.2)) <$> live_entries p)).
  assert ((λ e, t_task_id (r_task e.2)) <$> live_entries p = (live_entries p).*1) as Eids.
  { apply list_fmap_ext. intros i [id r] Hi%list_elem_of_lookup_2.
    apply live_entries_spec in Hi as [Hr _]. by destruct (Hrec _ _ Hr). }
  assert (∀ id, id ∈ ids ↔ ∃ r, p_tasks p !! id = Some r ∧ is_live r = true) as Hids.
  { intros id. subst ids. rewrite elem_of_sort_strings, Eids, list_elem_of_fmap. split.
    - intros ([id' r] & -> & ?%live_entries_spec). eauto.
    - intros (r & ?). exists (id, r). split; [done|]. by apply live_entries_spec. }
  assert (NoDup ids) as Hnd.
  { subst ids. rewrite sort_strings_perm, Eids. apply NoDup_live_entries. }
  unfold abort_all. apply runs_bind, runs_get, runs_bind.
  eapply runs_mono; [by apply abort_loop_runs|]. intros [] q (s & -> & Hs).
  apply runs_bind, runs_modify. apply runs_bind. fold ids.
  pose proof (aborted_inv p failure s ids Hinv Hs Hids) as Hq. set (q := rebuild_indexes _) in *.
  eapply runs_mono; [by apply attempts_finished_runs|]. intros [] q1 [Hq1 [s1 ->]].
  apply runs_bind. eapply runs_mono; [by apply aborting_loop_runs|].
  intros [] p' (Hi & Hp & Hsub). apply runs_ret.
  split_and!; try done; [|apply sort_strings_sorted]. etrans; [|exact Hp]. split.
  - simpl. intros id r' (r & <- & Hr)%lookup_fmap_Some. exists r. split; [done|].
    destruct (is_live r) eqn:Hl; [|done]. apply rtc_once, (terminal_record_step _ _ id); [by apply Hrec|done|].
    unfold is_live in Hl. by destruct (is_terminal_status (r_status r)).
  - simpl. intros id r Hr. unfold aborted_tasks. by rewrite lookup_fmap, Hr.
Qed.

End Forced.
