(* ===== verification/ClaimFacts.v ===== *)
(** * Claiming is safe

    From a pool that satisfies the invariant a claim never panics, serves the
    runner's eligible tasks in key order, respects every limit of the budget
    and leaves each claimed task running under a fresh lease. *)

From S2P Require Import Prelude Contracts RunnerContracts TaskRecords TaskIndexes IndexFacts TaskPool TaskClaiming ClaimMerge PoolInvariant PoolHistory PoolSteps PoolKernelSteps.

Section ClaimFacts.
Context `{SJ : SerdeJson}.
Implicit Types r : TaskRecord.
Implicit Types p : TaskPool.

(** ** The selector cache is transparent *)

Lemma with_ready_selectors_runs p runner_id :
  pool_inv p →
  runs (with_ready_selectors runner_id) p (λ selectors p',
    selectors = build_ready_selectors runner_id ∧ pool_inv p' ∧
    ∃ cache, p' = p <| p_ready_selector_cache := cache |>).
Proof.
  intros Hinv. unfold with_ready_selectors. apply runs_bind, runs_get.
  pose proof (pi_cache _ _ Hinv) as [Hc Hsize].
  destruct (p_ready_selector_cache p !! runner_id) as [selectors|] eqn:Hl.
  - apply runs_ret. split_and!; [by apply Hc|done|]. exists (p_ready_selector_cache p). by destruct p.
  - destruct (N.ltb_spec (N.of_nat (size (p_ready_selector_cache p))) (N.of_nat READY_SELECTOR_CACHE_CAPACITY))
      as [Hlt|Hge].
    + apply runs_bind, runs_modify, runs_ret. split; [done|]. split; [|by eexists].
      destruct Hinv. split; try done. simpl. split.
      * intros id l [[<- <-]|[_ ?]]%lookup_insert_Some; [done|by apply Hc].
      * rewrite map_size_insert_None by done. lia.
    + apply runs_ret. split_and!; [done|done|]. exists (p_ready_selector_cache p). by destruct p.
Qed.

(** ** The tasks a runner may claim *)

Definition hint_admits (runner_id : string) (o : option string) : bool :=
  match o with None => true | Some id => bool_decide (id = runner_id) end.

(** Ready, due, of an accepted protocol, not reserved for another runner. *)
Definition eligible (runner : RunnerDescriptor) (step : N) r : Prop :=
  r_status r = Ready ∧ t_protocol_id (r_task r) ∈ d_accepted_protocol_ids runner ∧
  hint_admits (d_runner_id runner) (t_runner_hint (r_task r)) = true ∧
  hint_admits (d_runner_id runner) (r_owner_runner r) = true ∧
  (ready_at_step_of r ≤ step)%N.

Lemma selector_of_admits runner_id r :
  selector_of r ∈ build_ready_selectors runner_id ↔
  hint_admits runner_id (t_runner_hint (r_task r)) = true ∧ hint_admits runner_id (r_owner_runner r) = true.
Proof.
  unfold selector_of, build_ready_selectors, ReadySelector_default, hint_admits.
  rewrite !elem_of_cons, elem_of_nil.
  destruct (t_runner_hint (r_task r)), (r_owner_runner r); rewrite ?bool_decide_eq_true; naive_solver.
Qed.

Lemma elem_of_dispatch_queues ix protocols selectors (q : gset ReadyKey) :
  q ∈ dispatch_queues ix protocols selectors ↔
  ∃ protocol by_selector selector, protocol ∈ protocols ∧ selector ∈ selectors ∧
    ix_ready_by_protocol ix !! protocol = Some by_selector ∧ by_selector !! selector = Some q.
Proof.
  unfold dispatch_queues. rewrite list_elem_of_In, in_flat_map. setoid_rewrite <-list_elem_of_In. split.
  - intros (protocol & Hp & Hq). destruct (ix_ready_by_protocol ix !! protocol) as [bs|] eqn:E;
      [|by apply not_elem_of_nil in Hq].
    apply list_elem_of_omap in Hq as (sel & ? & ?). naive_solver.
  - intros (protocol & bs & sel & Hp & Hs & E & Hq). exists protocol. split; [done|]. rewrite E.
    apply list_elem_of_omap. eauto.
Qed.

Lemma elem_of_due_keys step queues k :
  k ∈ due_keys step queues ↔ is_due k step = true ∧ ∃ q, q ∈ queues ∧ k ∈ q.
Proof.
  unfold due_keys. rewrite list_elem_of_In, in_concat. setoid_rewrite <-list_elem_of_In.
  setoid_rewrite list_elem_of_fmap. unfold due_part. split.
  - intros (l & (q & -> & Hq) & [Hd Hk]%list_elem_of_filter). rewrite elem_of_elements in Hk. eauto.
  - intros (Hd & q & Hq & Hk). eexists. split; [by eauto|]. apply list_elem_of_filter.
    by rewrite elem_of_elements.
Qed.

(** The keys a runner's queues hold at a step. *)
Definition runner_keys (p : TaskPool) (runner : RunnerDescriptor) (step : N) : list ReadyKey :=
  due_keys step (dispatch_queues (p_indexes p) (d_accepted_protocol_ids runner)
    (build_ready_selectors (d_runner_id runner))).

Lemma elem_of_runner_keys p runner step k :
  pool_inv p →
  k ∈ runner_keys p runner step ↔
  ∃ r, p_tasks p !! rk_task_id k = Some r ∧ ready_key_of r = k ∧ eligible runner step r.
Proof.
  intros Hinv. pose proof (if_ready _ _ _ _ (pi_indexes _ _ Hinv)) as Ht.
  pose proof (pi_records _ _ Hinv) as Hrec. unfold runner_keys. rewrite elem_of_due_keys.
  setoid_rewrite elem_of_dispatch_queues. split.
  - intros (Hd & q & (protocol & bs & sel & Hp & Hs & Hbs & Hq) & Hk).
    destruct (proj1 (Ht (protocol, (sel, k)))) as (id & r & Hr & He).
    { exists bs. split; [done|]. by exists q. }
    unfold ready_entry in He. destruct (r_status r) eqn:Hst; simplify_eq.
    exists r. destruct (Hrec _ _ Hr) as [Hk' _]. change (p_tasks p !! rec_id r = Some r ∧ ready_key_of r = ready_key_of r ∧ eligible runner step r).
    rewrite Hk'. split_and!; try done.
    apply selector_of_admits in Hs as [? ?]. split_and!; try done. by apply N.leb_le.
  - intros (r & Hr & Hk & Hst & Hp & Hh & Ho & Hd). subst k. split; [by apply N.leb_le|].
    destruct (proj2 (Ht (t_protocol_id (r_task r), (selector_of r, ready_key_of r)))) as (bs & Hbs & q & Hq & Hk).
    { eexists _, r. split; [exact Hr|]. unfold ready_entry. by rewrite Hst. }
    simpl in *. exists q. split; [|done]. exists (t_protocol_id (r_task r)), bs, (selector_of r).
    split_and!; try done. by apply selector_of_admits.
Qed.

(** The queue of one protocol and selector. *)
Definition queue_at (ix : TaskIndexes) (protocol : string) (selector : ReadySelector) : gset ReadyKey :=
  or_default ∅ (by_selector ← ix_ready_by_protocol ix !! protocol; by_selector !! selector).

Lemma due_keys_app step l k : due_keys step (l ++ k) = due_keys step l ++ due_keys step k.
Proof. unfold due_keys. by rewrite fmap_app, concat_app. Qed.

Lemma due_keys_dispatch step ix protocols selectors :
  due_keys step (dispatch_queues ix protocols selectors) =
  flat_map (λ protocol, flat_map (λ sel, due_part step (elements (queue_at ix protocol sel))) selectors) protocols.
Proof.
  induction protocols as [|protocol protocols IH]; [done|]. cbn [dispatch_queues flat_map].
  rewrite due_keys_app. f_equal; [|done]. unfold queue_at.
  destruct (ix_ready_by_protocol ix !! protocol) as [bs|]; simpl; clear IH.
  - induction selectors as [|sel selectors IH]; [done|]. simpl.
    destruct (bs !! sel); simpl; rewrite <-IH; [done|by rewrite elements_empty].
  - induction selectors as [|sel selectors IH]; [done|]. simpl. by rewrite <-IH, elements_empty.
Qed.

Lemma NoDup_flat_map {A B} (f : A → list B) (l : list A) :
  NoDup l → (∀ x, x ∈ l → NoDup (f x)) →
  (∀ x y z, x ∈ l → y ∈ l → z ∈ f x → z ∈ f y → x = y) → NoDup (flat_map f l).
Proof.
  induction l as [|x l IH]; intros Hnd Hf Hdis; simpl; [constructor|].
  apply NoDup_cons in Hnd as [Hx Hnd]. apply NoDup_app. split_and!.
  - apply Hf. set_solver.
  - intros z Hz Hin. apply list_elem_of_In, in_flat_map in Hin as (y & Hy%list_elem_of_In & Hz'%list_elem_of_In).
    apply Hx. rewrite (Hdis x y z); set_solver.
  - apply IH; [done|set_solver|]. intros. eapply Hdis; set_solver.
Qed.

Lemma elem_of_queue_at p protocol sel k :
  pool_inv p → k ∈ queue_at (p_indexes p) protocol sel →
  ∃ r, p_tasks p !! rk_task_id k = Some r ∧ t_protocol_id (r_task r) = protocol ∧ selector_of r = sel.
Proof.
  intros Hinv Hk. pose proof (if_ready _ _ _ _ (pi_indexes _ _ Hinv)) as Ht. unfold queue_at in Hk.
  destruct (ix_ready_by_protocol (p_indexes p) !! protocol) as [bs|] eqn:E; simpl in Hk; [|set_solver].
  destruct (bs !! sel) as [q|] eqn:E'; simpl in Hk; [|set_solver].
  destruct (proj1 (Ht (protocol, (sel, k)))) as (id & r & Hr & He).
  { exists bs. split; [done|]. by exists q. }
  unfold ready_entry in He. destruct (r_status r); simplify_eq.
  exists r. split_and!; try done. destruct (pi_records _ _ Hinv _ _ Hr) as [Hid _].
  change (p_tasks p !! rec_id r = Some r). by rewrite Hid.
Qed.

Lemma NoDup_runner_keys p runner step :
  pool_inv p → NoDup (d_accepted_protocol_ids runner) → NoDup (runner_keys p runner step).
Proof.
  intros Hinv Hnd. unfold runner_keys. rewrite due_keys_dispatch.
  assert (∀ protocol sel k, k ∈ due_part step (elements (queue_at (p_indexes p) protocol sel)) →
    ∃ r, p_tasks p !! rk_task_id k = Some r ∧ t_protocol_id (r_task r) = protocol ∧ selector_of r = sel) as Hin.
  { intros protocol sel k [_ Hk%elem_of_elements]%list_elem_of_filter. by eapply elem_of_queue_at. }
  apply NoDup_flat_map; [done|intros protocol _; apply NoDup_flat_map|].
  - unfold build_ready_selectors, ReadySelector_default. repeat (apply NoDup_cons; split; [set_solver|]).
    constructor.
  - intros sel _. apply NoDup_filter, NoDup_elements.
  - intros sel sel' k _ _ (r & ? & ? & <-)%Hin (r' & ? & ? & <-)%Hin. by simplify_eq.
  - intros protocol protocol' k _ _ Hk Hk'.
    apply list_elem_of_In, in_flat_map in Hk as (sel & _ & (r & ? & <- & _)%list_elem_of_In%Hin).
    apply list_elem_of_In, in_flat_map in Hk' as (sel' & _ & (r' & ? & <- & _)%list_elem_of_In%Hin).
    by simplify_eq.
Qed.

(** ** Candidates *)

(** The records the merge hands to its visitor, in order. *)
Definition visited_record (tasks : gmap TaskId TaskRecord) (registry_generation : N) (k : ReadyKey) :
    option TaskRecord :=
  r ← tasks !! rk_task_id k; if runner_accepts_indexed_task (r_task r) registry_generation then Some r else None.

Definition candidates (p : TaskPool) (runner : RunnerDescriptor) (step registry_generation : N) :
    list TaskRecord :=
  omap (visited_record (p_tasks p) registry_generation) (merge_sort rk_le (runner_keys p runner step)).

Fixpoint visit_records {S} (visit : Visitor S) (l : list TaskRecord) (visited : N) (s : S) : option (N * S) :=
  match l with
  | [] => Some (visited, s)
  | r :: l =>
      '(continue, s) ← visit s r;
      if negb continue then Some ((visited + 1)%N, s) else visit_records visit l (visited + 1) s
  end.

Lemma visit_list_records {S} tasks gen (visit : Visitor S) keys visited s :
  visit_list tasks gen visit keys visited s = visit_records visit (omap (visited_record tasks gen) keys) visited s.
Proof.
  revert visited s. induction keys as [|k keys IH]; intros visited s; [done|].
  cbn [visit_list]. unfold visit_key. simpl. unfold visited_record at 1.
  destruct (tasks !! rk_task_id k) as [r|]; simpl; [|apply IH].
  destruct (runner_accepts_indexed_task (r_task r) gen); simpl; [|apply IH].
  destruct (visit s r) as [[[] s']|]; simpl; [apply IH|done..].
Qed.

Lemma accepts_generation task gen :
  runner_accepts_indexed_task task gen = generation_matches gen (t_registry_generation task).
Proof.
  unfold runner_accepts_indexed_task, generation_matches.
  by destruct (gen =? 0)%N, (t_registry_generation task =? 0)%N, (t_registry_generation task =? gen)%N.
Qed.

Lemma elem_of_candidates p runner step gen r :
  pool_inv p →
  r ∈ candidates p runner step gen ↔
  p_tasks p !! rec_id r = Some r ∧ eligible runner step r ∧
  generation_matches gen (t_registry_generation (r_task r)) = true.
Proof.
  intros Hinv. unfold candidates. rewrite list_elem_of_omap.
  setoid_rewrite merge_sort_Permutation. setoid_rewrite elem_of_runner_keys; [|done]. unfold visited_record. split.
  - intros (k & (r' & Hr' & Hk & He) & Hv). rewrite Hr' in Hv. simpl in Hv.
    destruct (runner_accepts_indexed_task (r_task r') gen) eqn:Ha; simplify_eq.
    rewrite accepts_generation in Ha. done.
  - intros (Hr & He & Hg). exists (ready_key_of r).
    change (rk_task_id (ready_key_of r)) with (rec_id r). split; [by eauto|]. rewrite Hr. simpl.
    by rewrite accepts_generation, Hg.
Qed.

(** Candidates come in key order, each once. *)
Lemma candidates_keys p runner step gen :
  pool_inv p → ready_key_of <$> candidates p runner step gen `sublist_of` merge_sort rk_le (runner_keys p runner step).
Proof.
  intros Hinv. unfold candidates.
  assert (∀ k, k ∈ merge_sort rk_le (runner_keys p runner step) → k ∈ runner_keys p runner step) as Hin.
  { intros k. by rewrite merge_sort_Permutation. }
  induction (merge_sort rk_le (runner_keys p runner step)) as [|k l IH]; [done|]. simpl.
  assert (∀ k0, k0 ∈ l → k0 ∈ runner_keys p runner step) as Hin' by (intros; apply Hin; set_solver).
  specialize (IH Hin'). unfold visited_record at 1.
  destruct (proj1 (elem_of_runner_keys p runner step k Hinv)) as (r & Hr & Hk & _); [apply Hin; set_solver|].
  rewrite Hr. simpl. destruct (runner_accepts_indexed_task (r_task r) gen); simpl.
  - rewrite Hk. by apply sublist_skip.
  - by apply sublist_cons.
Qed.

Lemma candidates_sorted p runner step gen :
  pool_inv p → StronglySorted rk_le (ready_key_of <$> candidates p runner step gen).
Proof.
  intros Hinv. eapply StronglySorted_sublist; [by apply candidates_keys|].
  apply StronglySorted_merge_sort; apply _.
Qed.

Lemma NoDup_candidates p runner step gen :
  pool_inv p → NoDup (d_accepted_protocol_ids runner) →
  NoDup (rec_id <$> candidates p runner step gen).
Proof.
  intros Hinv Hnd.
  assert (NoDup (ready_key_of <$> candidates p runner step gen)) as Hk.
  { eapply sublist_NoDup; [|by apply candidates_keys]. rewrite merge_sort_Permutation.
    by apply NoDup_runner_keys. }
  assert (rec_id <$> candidates p runner step gen =
    rk_task_id <$> (ready_key_of <$> candidates p runner step gen)) as ->.
  { by rewrite <-list_fmap_compose. }
  apply NoDup_fmap_2_strong; [|done].
  intros k k' (r & -> & Hr)%list_elem_of_fmap (r' & -> & Hr')%list_elem_of_fmap.
  apply elem_of_candidates in Hr as [Hr _], Hr' as [Hr' _]; try done.
  change (rec_id r = rec_id r' → ready_key_of r = ready_key_of r'). intros E.
  rewrite E in Hr. by simplify_eq.
Qed.

(** ** Selection *)

Definition wire_bytes p r : N := or_default 0%N (p_payload_wire_bytes p !! rec_id r).

(** The payload bytes the budget charges for the selected records. *)
Definition selected_bytes (budget : option DispatchBudget) p (l : list TaskRecord) : N :=
  foldl (λ n r, saturating_add n (if budget then wire_bytes p r else 0%N)) 0%N l.

Definition lane_count (lane : DispatchLane) (l : list TaskRecord) : N :=
  len (filter (λ r, t_dispatch_lane (r_task r) = lane) l).

(** What the visitor's state says about the records selected so far. *)
Record selection_of (budget : option DispatchBudget) p (l : list TaskRecord) (s : Selection) : Prop := {
  so_ids : sel_ids s = rec_id <$> l;
  so_bytes : sel_bytes s = selected_bytes budget p l;
  so_lanes : ∀ lane, or_default 0%N (sel_lane_counts s !! lane) = lane_count lane l
}.

(** The limits of a budget. *)
Definition within_budget (budget : DispatchBudget) p (l : list TaskRecord) : Prop :=
  (selected_bytes (Some budget) p l ≤ db_max_bytes budget)%N ∧
  ∀ lane lb, db_lane_budget budget !! lane = Some lb → (lane_count lane l ≤ lb_max_entries lb)%N.

Lemma lane_count_snoc lane l r :
  lane_count lane (l ++ [r]) =
  (lane_count lane l + if decide (t_dispatch_lane (r_task r) = lane) then 1 else 0)%N.
Proof.
  unfold lane_count. rewrite filter_app, len_app. f_equal. rewrite filter_cons, filter_nil.
  by case_decide.
Qed.

Lemma within_budget_nil B p : within_budget B p [].
Proof. split; [unfold selected_bytes; simpl; lia|]. intros lane lb _. unfold lane_count, len. simpl. lia. Qed.

(** A budget one of whose totals is zero. *)
Definition closed (budget : DispatchBudget) : Prop :=
  db_max_batches budget = 0%N ∨ db_max_entries budget = 0%N ∨ db_max_bytes budget = 0%N.

(** The greedy choice: the elements are offered in order; one is taken when what
    is taken so far is fewer than [max] and still [ok] with it, and skipped when
    it is not [ok] with it; nothing is offered after [max] elements are taken. *)
Inductive greedy {A} (ok : list A → Prop) (max : N) : list A → list A → list A → Prop :=
  | greedy_end l : greedy ok max l [] l
  | greedy_full l C : (max ≤ len l)%N → greedy ok max l C l
  | greedy_take l x C l' :
      (len l < max)%N → ok (l ++ [x]) → greedy ok max (l ++ [x]) C l' → greedy ok max l (x :: C) l'
  | greedy_skip l x C l' :
      (len l < max)%N → ¬ ok (l ++ [x]) → greedy ok max l C l' → greedy ok max l (x :: C) l'.

(** One visit: it stops, skips the record or selects it. *)
Lemma select_visit_cases budget max_entries p l s r :
  selection_of budget p l s → is_Some (p_payload_wire_bytes p !! rec_id r) →
  (len l < max_entries)%N →
  ∃ continue s', select_visit budget max_entries p s r = Some (continue, s') ∧
    ((∃ B, budget = Some B ∧ s' = s ∧ continue = true ∧ ¬ within_budget B p (l ++ [r])) ∨
     (selection_of budget p (l ++ [r]) s' ∧ continue = (len (l ++ [r]) <? max_entries)%N ∧
      (∀ B, budget = Some B → within_budget B p l → within_budget B p (l ++ [r])))).
Proof.
  intros [Hids Hbytes Hlanes] [n Hn] Hlt. unfold select_visit.
  assert (len (sel_ids s) = len l) as Hlen by (rewrite Hids; unfold len; by rewrite length_fmap).
  destruct (N.leb_spec max_entries (len (sel_ids s))) as [?|_]; [lia|].
  rewrite Hlanes. set (lane := t_dispatch_lane (r_task r)). change (t_task_id (r_task r)) with (rec_id r).
  assert (∀ B, budget = Some B → selected_bytes (Some B) p (l ++ [r]) = saturating_add (sel_bytes s) n) as Hb.
  { intros B ->. rewrite Hbytes. unfold selected_bytes. rewrite foldl_app. simpl. unfold wire_bytes.
    by rewrite Hn. }
  assert (∀ n', (if budget then n else 0%N) = n' →
    selection_of budget p (l ++ [r]) {| sel_lane_counts := <[lane := (lane_count lane l + 1)%N]> (sel_lane_counts s);
      sel_bytes := saturating_add (sel_bytes s) n'; sel_ids := sel_ids s ++ [rec_id r] |}) as Hsel.
  { intros n' <-. split; simpl.
    - by rewrite Hids, fmap_app.
    - rewrite Hbytes. unfold selected_bytes. rewrite foldl_app. simpl. unfold wire_bytes.
      rewrite Hn. by destruct budget.
    - intros lane'. rewrite lane_count_snoc. fold lane.
      destruct (decide (lane = lane')) as [<-|Hne].
      + by rewrite lookup_insert_eq.
      + rewrite lookup_insert_ne, Hlanes by done. lia. }
  assert (∀ s', sel_ids s' = sel_ids s ++ [rec_id r] →
    (len (sel_ids s') <? max_entries)%N = (len (l ++ [r]) <? max_entries)%N) as Hcont.
  { intros s' ->. rewrite !len_app, Hlen. reflexivity. }
  destruct budget as [B|]; cbn [is_some_and].
  - rewrite Hn. cbn [mbind option_bind].
    destruct (N.ltb_spec (db_max_bytes B) (saturating_add (sel_bytes s) n)) as [Hover|Hfit]; cbn [orb].
    { eexists _, _. split; [reflexivity|]. left. exists B. split_and!; try done.
      intros [Hw _]. rewrite (Hb B) in Hw by done. lia. }
    destruct (is_some_and (db_lane_budget B !! lane) _) eqn:Hl.
    { eexists _, _. split; [reflexivity|]. left. exists B. split_and!; try done.
      intros [_ Hw]. destruct (db_lane_budget B !! lane) as [lb|] eqn:Hlb; [|done]. simpl in Hl.
      apply N.leb_le in Hl. specialize (Hw _ _ Hlb). rewrite lane_count_snoc, decide_True in Hw by done. lia. }
    eexists _, _. split; [reflexivity|]. right. split_and!; [by apply Hsel|by apply Hcont|].
    intros B' [= <-] [Hw1 Hw2]. split; [by rewrite (Hb B)|]. intros lane' lb Hlb.
    rewrite lane_count_snoc. fold lane. specialize (Hw2 _ _ Hlb). case_decide as E; [|lia].
    subst lane'. rewrite Hlb in Hl. simpl in Hl. apply N.leb_gt in Hl. lia.
  - cbn [mbind option_bind orb]. eexists _, _. split; [reflexivity|]. right.
    split_and!; [by apply Hsel|by apply Hcont|done].
Qed.

Lemma visit_records_select budget max_entries p C : ∀ l s n,
  selection_of budget p l s → (∀ r, r ∈ C → is_Some (p_payload_wire_bytes p !! rec_id r)) →
  (len l < max_entries)%N →
  ∃ n' s' l', visit_records (select_visit budget max_entries p) C n s = Some (n', s') ∧
    selection_of budget p (l ++ l') s' ∧
    (∀ B, budget = Some B → within_budget B p l → greedy (within_budget B p) max_entries l C (l ++ l')) ∧
    (budget = None → l' = take (N.to_nat (max_entries - len l)) C).
Proof.
  induction C as [|r C IH]; intros l s n Hs Hb Hlt.
  { exists n, s, []. rewrite app_nil_r. split_and!; try done; [intros; constructor|]. intros _. by rewrite take_nil. }
  destruct (select_visit_cases budget max_entries p l s r) as (continue & s' & Hv & Hcase); try done.
  { apply Hb. set_solver. }
  cbn [visit_records]. rewrite Hv. cbn [mbind option_bind].
  destruct Hcase as [(B & -> & -> & -> & Hno)|(Hs' & -> & Hw)].
  - destruct (IH l s (n + 1)%N) as (n' & s' & l' & Hrun & ? & Hg & ?); try done; [set_solver|].
    exists n', s', l'. split_and!; try done. intros B' [= <-] HB. apply greedy_skip; auto.
  - assert (len (l ++ [r]) = (len l + 1)%N) as Hlen by (rewrite len_app; done).
    destruct (N.ltb_spec (len (l ++ [r])) max_entries) as [Hlt'|Hge]; cbn [negb].
    + destruct (IH (l ++ [r]) s' (n + 1)%N) as (n' & s'' & l' & Hrun & H1 & H4 & H5);
        try done; [set_solver|]. exists n', s'', (r :: l').
      rewrite <-app_assoc in H1, H4. split_and!; [done|done|intros B HB Hwl; apply greedy_take; auto|].
      intros HN. rewrite H5 by done. rewrite Hlen.
      replace (N.to_nat (max_entries - len l)) with (S (N.to_nat (max_entries - (len l + 1)))) by lia.
      done.
    + eexists _, _, [r]. split_and!; [done|done|intros B HB Hwl; apply greedy_take; auto; apply greedy_full; lia|].
      intros _. replace (N.to_nat (max_entries - len l)) with 1 by lia. simpl. by rewrite take_0.
Qed.

(** The records a claim selects: none under a closed budget, otherwise the
    greedy choice among the candidates. *)
Definition selects (p : TaskPool) (runner : RunnerDescriptor) (step gen limit : N)
    (budget : option DispatchBudget) (l : list TaskRecord) : Prop :=
  match budget with
  | Some B =>
      if decide (closed B) then l = []
      else greedy (within_budget B p) (N.min limit (db_max_entries B)) [] (candidates p runner step gen) l
  | None => l = take (N.to_nat limit) (candidates p runner step gen)
  end.

Lemma greedy_extends {A} (ok : list A → Prop) max l C l' :
  greedy ok max l C l' → ∃ k, l' = l ++ k ∧ k `sublist_of` C ∧ (len l' ≤ N.max (len l) max)%N ∧ (ok l → ok l').
Proof.
  induction 1 as [l|l C Hfull|l x C l' Hlt Hok _ (k & -> & Hk & Hlen & Hw)|l x C l' Hlt Hno _ (k & -> & Hk & Hlen & Hw)].
  - exists []. rewrite app_nil_r. split_and!; try done. lia.
  - exists []. rewrite app_nil_r. split_and!; try done; [apply sublist_nil_l|lia].
  - exists (x :: k). rewrite <-app_assoc in *. split_and!; [done|by apply sublist_skip| |by auto].
    rewrite !len_app in *. change (len [x]) with 1%N in *. lia.
  - exists k. split_and!; try done. by apply sublist_cons.
Qed.

(** What the selection respects whatever the budget is. *)
Lemma selects_bounds p runner step gen limit budget l :
  selects p runner step gen limit budget l →
  l `sublist_of` candidates p runner step gen ∧ (len l ≤ limit)%N ∧
  ∀ B, budget = Some B → (len l ≤ db_max_entries B)%N ∧ within_budget B p l.
Proof.
  unfold selects. destruct budget as [B|].
  - case_decide.
    + intros ->. split_and!; [apply sublist_nil_l|unfold len; simpl; lia|]. intros B' _.
      split; [unfold len; simpl; lia|apply within_budget_nil].
    + intros (k & -> & Hk & Hlen & Hw)%greedy_extends. cbn [app] in *. change (len []) with 0%N in Hlen.
      split_and!; [done|lia|]. intros B' [= <-]. split; [lia|]. apply Hw, within_budget_nil.
  - intros ->. split_and!; [apply sublist_take| |done]. unfold len. rewrite length_take. lia.
Qed.

Lemma candidates_cache p cache runner step gen :
  candidates (p <| p_ready_selector_cache := cache |>) runner step gen = candidates p runner step gen.
Proof. done. Qed.

Lemma select_candidate_ids_runs p runner step gen limit budget :
  pool_inv p → allocatable TaskId (selection_limit limit budget) →
  runs (select_candidate_ids runner step gen limit budget) p (λ ids p',
    pool_inv p' ∧ (∃ cache, p' = p <| p_ready_selector_cache := cache |>) ∧
    ∃ l, ids = rec_id <$> l ∧ selects p runner step gen limit budget l).
Proof.
  intros Hinv Halloc. unfold select_candidate_ids. destruct (_ || _) eqn:Hzero.
  { apply runs_ret. split; [done|]. split; [exists (p_ready_selector_cache p); by destruct p|].
    exists []. split; [done|]. unfold selects. apply orb_true_iff in Hzero as [->%N.eqb_eq|Hzero].
    - destruct budget as [B|]; [|done]. case_decide; [done|]. apply greedy_full. unfold len. simpl. lia.
    - destruct budget as [B|]; [|done]. cbn in Hzero. rewrite decide_True; [done|].
      rewrite !orb_true_iff, !N.eqb_eq in Hzero. unfold closed. tauto. }
  apply orb_false_elim in Hzero as [Hlimit Hbudget]. apply N.eqb_neq in Hlimit.
  cbv zeta. apply runs_bind, runs_with_capacity; [done|].
  apply runs_bind. unfold visit_candidate_records, ready_dispatch_queues.
  do 2 apply runs_bind. eapply runs_mono; [by apply with_ready_selectors_runs|].
  intros selectors p' (-> & Hinv' & cache & ->). apply runs_bind, runs_get, runs_ret.
  apply runs_bind, runs_get. rewrite visit_queues_sorted.
  change (due_keys step _) with (runner_keys p runner step). rewrite visit_list_records.
  change (omap _ _) with (candidates p runner step gen).
  destruct (visit_records_select budget (selection_limit limit budget)
    (p <| p_ready_selector_cache := cache |>) (candidates p runner step gen) [] Selection_empty 0)
    as (n' & s' & l & Hrun & Hs & Hw & Htake).
  - done.
  - intros r Hr. apply elem_of_candidates in Hr as [Hr _]; [|done].
    destruct (pi_payload _ _ Hinv) as [Hd _]. simpl. apply elem_of_dom. rewrite Hd. by apply elem_of_dom_2 in Hr.
  - unfold selection_limit, len. simpl. destruct budget as [B|]; [|lia]. simpl in Hbudget.
    apply orb_false_elim in Hbudget as [Hbudget _]. apply orb_false_elim in Hbudget as [_ Hent].
    apply N.eqb_neq in Hent. lia.
  - rewrite Hrun. apply runs_ret, runs_ret. split; [done|]. split; [by eexists|]. exists l.
    split; [apply Hs|]. unfold selects, selection_limit in *. destruct budget as [B|].
    + rewrite decide_False.
      * apply (Hw B eq_refl), within_budget_nil.
      * cbn in Hbudget. rewrite !orb_false_iff, !N.eqb_neq in Hbudget. unfold closed. tauto.
    + rewrite Htake by done. unfold len. simpl. f_equal. lia.
Qed.

(** ** The claim *)

Section Claim.
Variables (runner : RunnerDescriptor) (executor_id : ExecutorId) (step gen : N) (expires : option N).
Hypothesis expires_u64 : ∀ s, expires = Some s → (s ≤ u64_max)%N.

Definition claimed r : TaskRecord := (claim_record runner executor_id step gen expires r).2.
Definition claim_lease r : TaskLease := (claim_record runner executor_id step gen expires r).1.

Lemma claimed_ok id r : rec_id r = id → record_ok id (claimed r).
Proof. intros Hid. split_and!; done. Qed.

Lemma claimed_step r : r_status r = Ready → record_step r (claimed r).
Proof. intros Hr. split; simpl; try done; [by rewrite Hr|]. by eexists. Qed.

Lemma claim_one_runs q id r totals :
  pool_inv q → p_tasks q !! id = Some r → r_status r = Ready →
  runs (claim_one runner executor_id step gen expires totals id) q (λ totals' q',
    q' = moved id r (claimed r) q ∧ pool_inv q' ∧ progress q q' ∧
    ct_leased totals' = ct_leased totals ++ [(claim_lease r, r_task (claimed r))]).
Proof.
  intros Hinv Hid Hr. pose proof (pi_records _ _ Hinv _ _ Hid) as [Hk _].
  eapply (runs_eq _ _ _ (moved id r (claimed r) q)).
  - unfold claim_one, bind, get, modify, expect, ret, modify_statistics, remove_record_indexes,
      insert_record_indexes, update_record_indexes.
    rewrite Hid. cbn -[update_record claim_record record_status_transition]. rewrite Hid. rewrite Hr.
    cbn -[update_record claim_record record_status_transition].
    rewrite (surjective_pairing (claim_record _ _ _ _ _ _)). cbn -[update_record claim_record record_status_transition].
    rewrite bool_decide_eq_true_2 by done. cbn [negb]. rewrite lookup_insert_eq.
    unfold moved. rewrite Hr. reflexivity.
  - split_and!; try done.
    + by apply moved_live_inv; rewrite ?Hr.
    + by apply moved_progress, claimed_step.
Qed.

Lemma claim_loop_runs l : ∀ q totals,
  pool_inv q → NoDup (rec_id <$> l) →
  (∀ r, r ∈ l → p_tasks q !! rec_id r = Some r ∧ r_status r = Ready) →
  runs (claim_loop runner executor_id step gen expires totals (rec_id <$> l)) q (λ totals' q',
    pool_inv q' ∧ progress q q' ∧
    ct_leased totals' = ct_leased totals ++ ((λ r, (claim_lease r, r_task (claimed r))) <$> l) ∧
    ∀ id, p_tasks q' !! id = (λ r, if decide (id ∈ rec_id <$> l) then claimed r else r) <$> p_tasks q !! id).
Proof.
  induction l as [|r l IH]; intros q totals Hinv Hnd Hl; cbn [claim_loop fmap list_fmap].
  { apply runs_ret. rewrite app_nil_r. split_and!; try done. intros id. by destruct (p_tasks q !! id). }
  apply NoDup_cons in Hnd as [Hnot Hnd]. destruct (Hl r) as [Hr Hst]; [set_solver|].
  apply runs_bind. eapply runs_mono; [by apply (claim_one_runs q (rec_id r) r)|].
  intros totals' q' (-> & Hinv' & Hp & Ht). eapply runs_mono; [apply (IH (moved (rec_id r) r (claimed r) q))|].
  - done.
  - done.
  - intros r' Hr'. destruct (Hl r') as [? ?]; [set_solver|]. split; [|done]. simpl.
    rewrite lookup_insert_ne; [done|]. intros E. apply Hnot. rewrite E.
    apply list_elem_of_fmap. by exists r'.
  - intros totals'' q'' (Hinv'' & Hp' & Ht' & Hq). split_and!; try done; [by etrans| |].
    + by rewrite Ht', Ht, <-app_assoc.
    + intros id. rewrite Hq. cbn [p_tasks]. change (p_tasks (moved _ _ _ _)) with (<[rec_id r := claimed r]> (p_tasks q)).
      destruct (decide (id = rec_id r)) as [->|Hne].
      * rewrite lookup_insert_eq, Hr. cbn [fmap option_fmap option_map].
        rewrite decide_False by done. by rewrite decide_True by set_solver.
      * rewrite lookup_insert_ne by done. destruct (p_tasks q !! id) as [r'|]; [|done].
        cbn [fmap option_fmap option_map]. f_equal. repeat case_decide; set_solver.
Qed.

Lemma claim_runs p limit budget :
  pool_inv p → NoDup (d_accepted_protocol_ids runner) → allocatable TaskId (selection_limit limit budget) →
  runs (claim_ready_for_executor_with_budget runner executor_id step gen limit budget expires) p (λ leased p',
    pool_inv p' ∧ progress p p' ∧ ∃ l, selects p runner step gen limit budget l ∧
      leased = (λ r, (claim_lease r, r_task (claimed r))) <$> l ∧
      ∀ id, p_tasks p' !! id = (λ r, if decide (id ∈ rec_id <$> l) then claimed r else r) <$> p_tasks p !! id).
Proof.
  intros Hinv Hnd Halloc. unfold claim_ready_for_executor_with_budget. apply runs_bind.
  eapply runs_mono; [by apply select_candidate_ids_runs|].
  intros ids p1 (Hinv1 & [cache ->] & l & -> & Hsel). pose proof (selects_bounds _ _ _ _ _ _ _ Hsel) as [Hsub _].
  apply runs_bind.
  eapply runs_mono; [apply (claim_loop_runs l); try done|].
  - eapply sublist_NoDup; [|by apply fmap_sublist]. by apply NoDup_candidates.
  - intros r Hr. assert (r ∈ candidates p runner step gen) as Hc.
    { by eapply sublist_subseteq. }
    apply elem_of_candidates in Hc as (? & (? & _) & _); done.
  - intros totals p2 (Hinv2 & Hp2 & Ht & Hq). do 2 apply runs_bind, runs_modify. apply runs_ret.
    split; [by destruct Hinv2; split|]. split.
    { etrans; [|by apply (tasks_progress p2)]. etrans; [|exact Hp2]. by apply tasks_progress. }
    exists l. split_and!; done.
Qed.
End Claim.

End ClaimFacts.
