(* ===== verification/PoolOps.v ===== *)
(** * Runs of the task pool

    Every operation as one step, the states a run can reach from the empty
    pool, and the facts that hold along a run.

    Below, the submission counter. *)

From S2P Require Import Prelude Contracts RunnerContracts TaskRecords TaskIndexes IndexFacts TaskPool TaskClaiming PoolInvariant PoolHistory PoolSteps PoolKernelSteps PoolForced ClaimFacts.

Section Ops.
Context `{SJ : SerdeJson}.
Implicit Types r : TaskRecord.
Implicit Types p : TaskPool.

(** The transitions a runner asks for under its lease. *)
Inductive LeasedOp : Type :=
  | LComplete (output : option Value)
  | LFail (failure : RuntimeError)
  | LWait (ready_at_step : option N)
  | LDefer
  | LBlock
  | LCancel.

Definition run_leased (op : LeasedOp) (lease : TaskLease) (step : N) : M TaskPool (RuntimeResult unit) :=
  match op with
  | LComplete output => complete_with_output lease step output
  | LFail failure => fail_task lease step failure
  | LWait ready_at_step => wait lease step ready_at_step
  | LDefer => defer_leased lease step
  | LBlock => block lease step
  | LCancel => cancel_task lease step
  end.

Definition leased_action (op : LeasedOp) : string :=
  match op with
  | LComplete _ => "complete" | LFail _ => "fail" | LWait _ => "wait"
  | LDefer => "defer" | LBlock => "block" | LCancel => "cancel"
  end.

(** The record a transition leaves. *)
Definition leased_record (op : LeasedOp) (step : N) r : TaskRecord :=
  match op with
  | LComplete output => mark_terminal_record Completed None (r <| r_output := output |>)
  | LFail failure => mark_terminal_record Failed (Some failure) r
  | LWait ready_at_step =>
      release_record_lease (r <| r_status := Waiting |>
        <| r_task ::= λ t, t <| t_ready_at_step := ready_at_step |> |>)
  | LDefer =>
      clear_record_owner (release_record_lease
        (r <| r_status := Ready |> <| r_ready_since_step := step |>))
  | LBlock => release_record_lease (r <| r_status := Blocked |>)
  | LCancel => mark_terminal_record Cancelled None r
  end.

Lemma run_leased_spec op p lease step :
  pool_inv p →
  leased_spec (run_leased op lease step) p lease step (leased_action op)
    (λ r p', replaced (l_task_id lease) (leased_record op step r) p p').
Proof.
  intros Hinv. destruct op; simpl;
    auto using complete_with_output_spec, fail_task_spec, wait_spec, defer_leased_spec, block_spec,
      cancel_task_spec.
Qed.

(** Every operation that changes the pool. *)
Inductive PoolOp : Type :=
  | OpEnqueue (task : Task) (step : N)
  | OpClaim (runner : RunnerDescriptor) (executor_id : ExecutorId) (step gen limit : N)
      (budget : option DispatchBudget) (expires : option N)
  | OpLeased (op : LeasedOp) (lease : TaskLease) (step : N)
  | OpWaitOn (lease : TaskLease) (step : N) (task_await : TaskAwait)
  | OpWake (task_id : TaskId) (step : N)
  | OpWakeDue (step : N)
  | OpReject (task_id : TaskId) (failure : RuntimeError)
  | OpCancelInvocation (runner_id invocation_id : string) (step : N)
  | OpCancel (task_id : TaskId) (step : N)
  | OpExpire (task_id : TaskId) (failure : RuntimeError) (step : N)
  | OpDeadLetter (task_id : TaskId) (failure : RuntimeError) (step : N)
  | OpReclaim (step : N)
  | OpAbortAll (step : N) (failure : RuntimeError)
  | OpRebind (old_generation new_generation : N)
  | OpTakeWaits (child_task_id : TaskId)
  | OpConfigureHistory (retention : option TaskHistoryRetention)
  | OpStaleResult
  | OpRunnerLoad (runner : RunnerDescriptor) (step gen : N).

Definition discard {A} (c : M TaskPool A) : M TaskPool unit := c ;;! ret tt.

Definition run_op (op : PoolOp) : M TaskPool unit :=
  match op with
  | OpEnqueue task step => discard (enqueue_at task step)
  | OpClaim runner executor_id step gen limit budget expires =>
      discard (claim_ready_for_executor_with_budget runner executor_id step gen limit budget expires)
  | OpLeased op lease step => discard (run_leased op lease step)
  | OpWaitOn lease step task_await => discard (wait_on_task lease step task_await)
  | OpWake task_id step => discard (wake task_id step)
  | OpWakeDue step => discard (wake_due_tasks step)
  | OpReject task_id failure => discard (reject_ready task_id failure)
  | OpCancelInvocation runner_id invocation_id step =>
      discard (cancel_running_invocation runner_id invocation_id step)
  | OpCancel task_id step => discard (cancel_by_core task_id step)
  | OpExpire task_id failure step => discard (expire_by_core task_id failure step)
  | OpDeadLetter task_id failure step => discard (dead_letter_by_core task_id failure step)
  | OpReclaim step => discard (reclaim_expired_task_leases step)
  | OpAbortAll step failure => discard (abort_all step failure)
  | OpRebind old_generation new_generation => discard (rebind_ready_generation old_generation new_generation)
  | OpTakeWaits child_task_id => discard (take_waits_for_child child_task_id)
  | OpConfigureHistory retention => configure_history_retention retention
  | OpStaleResult => record_stale_result_rejection
  | OpRunnerLoad runner step gen => discard (runner_load runner step gen)
  end.

(** What a caller must respect.  An enqueued payload serializes (a local
    payload that does not panics in [materialize_json]), the submission counter
    has not reached [u64::MAX] and the table has not filled the address space;
    a claiming runner's protocols are distinct, as the registry leaves them, the
    entries it may take fit one allocation ([Vec::with_capacity] panics
    otherwise) and the expiry is a [u64]. *)
Definition op_pre p (op : PoolOp) : Prop :=
  match op with
  | OpEnqueue task _ => is_Some (as_value (t_payload task)) ∧
      (p_next_sequence p < u64_max)%N ∧ (N.of_nat (size (p_tasks p)) < usize_max)%N
  | OpClaim runner _ _ _ limit budget expires => NoDup (d_accepted_protocol_ids runner) ∧
      allocatable TaskId (selection_limit limit budget) ∧ ∀ s, expires = Some s → (s ≤ u64_max)%N
  | _ => True
  end.

(** A task enters the table ready, under an id that was not in use. *)
Definition submits p p' : Prop :=
  ∃ id r, p_tasks p !! id = None ∧ id ∉ p_evicted_task_ids p ∧
    r_status r = Ready ∧ r_attempt_generation r = 0%N ∧ r_lease r = None ∧
    p_tasks p' = <[id := r]> (p_tasks p).

Lemma runs_discard {A} (c : M TaskPool A) p (Q : TaskPool → Prop) :
  runs c p (λ _ p', Q p') → runs (discard c) p (λ _ p', Q p').
Proof. intros (a & p' & Hc & HQ). exists tt, p'. unfold discard, bind. by rewrite Hc. Qed.

Lemma unchanged p : pool_inv p → pool_inv p ∧ (progress p p ∨ submits p p).
Proof. intros Hinv. split; [done|]. by left. Qed.

Lemma run_op_enqueue p task step :
  pool_inv p → op_pre p (OpEnqueue task step) →
  runs (run_op (OpEnqueue task step)) p (λ _ p', pool_inv p' ∧ (progress p p' ∨ submits p p')).
Proof.
  intros Hinv ([value Hv] & Hseq & Hsize). apply runs_discard.
  pose proof (enqueue_at_spec p task step value Hinv Hv Hseq Hsize) as H.
  destruct (contains_task_id p (t_task_id task)) eqn:Hc; [eapply runs_eq; [exact H|]; by apply unchanged|].
  destruct (compact_json_len value); [|eapply runs_eq; [exact H|]; by apply unchanged].
  destruct H as (p' & Hrun & Hinv' & Hfresh & Htasks & _). eapply runs_eq; [exact Hrun|].
  split; [done|]. right. exists (t_task_id task), (enqueued_record p task step).
  split_and!; try done.
  apply orb_false_elim in Hc as [_ Hc]. by apply bool_decide_eq_false_1 in Hc.
Qed.

(** An operation that either fails and changes nothing or succeeds. *)
Ltac guarded_op H :=
  match type of H with
  | match ?x with _ => _ end => destruct x eqn:?
  end;
  [|eapply runs_eq; [exact H|]; by split].

(** Only [enqueue_at] adds records. *)
Definition is_submission (op : PoolOp) : bool := match op with OpEnqueue _ _ => true | _ => false end.

Lemma run_op_quiet p op :
  pool_inv p → op_pre p op → is_submission op = false →
  runs (run_op op) p (λ _ p', pool_inv p' ∧ progress p p').
Proof.
  intros Hinv Hpre Hsub. destruct op; [done|..]; cbn [run_op]; try apply runs_discard.
  - destruct Hpre as (Hnd & Halloc & Hexp). eapply runs_mono; [by apply claim_runs|]. naive_solver.
  - pose proof (run_leased_spec op p lease step Hinv) as H. unfold leased_spec in H. guarded_op H.
    destruct H as (r & p' & _ & _ & Hrun & ? & ? & _). eapply runs_eq; [exact Hrun|]. auto.
  - destruct (decide (aw_parent_task_id task_await = l_task_id lease)) as [Hpar|Hpar];
      [|eapply runs_eq; [by apply wait_on_task_parent|]; by split].
    pose proof (wait_on_task_spec p lease step task_await Hinv Hpar) as H. guarded_op H.
    destruct H as (r & p' & _ & _ & Hrun & ? & ? & _). eapply runs_eq; [exact Hrun|]. auto.
  - pose proof (wake_spec p task_id step Hinv) as H. guarded_op H.
    destruct H as (r & _ & Hrun & ? & ?). eapply runs_eq; [exact Hrun|]. auto.
  - eapply runs_mono; [by apply wake_due_tasks_runs|]. naive_solver.
  - pose proof (reject_ready_spec p task_id failure Hinv) as H. guarded_op H.
    destruct H as (r & p' & _ & _ & Hrun & ? & ? & _). eapply runs_eq; [exact Hrun|]. auto.
  - pose proof (cancel_running_invocation_spec p runner_id invocation_id step Hinv) as H. guarded_op H.
    destruct H as (r & p' & _ & _ & Hrun & ? & ? & _). eapply runs_eq; [exact Hrun|]. auto.
  - pose proof (terminal_by_core_spec p task_id Cancelled None "cancel" step Hinv eq_refl) as H.
    guarded_op H. destruct H as (r & p' & _ & _ & Hrun & ? & ? & _). eapply runs_eq; [exact Hrun|]. auto.
  - pose proof (terminal_by_core_spec p task_id Expired (Some failure) "expire" step Hinv eq_refl) as H.
    guarded_op H. destruct H as (r & p' & _ & _ & Hrun & ? & ? & _). eapply runs_eq; [exact Hrun|]. auto.
  - pose proof (terminal_by_core_spec p task_id DeadLetter (Some failure) "dead_letter" step Hinv eq_refl) as H.
    guarded_op H. destruct H as (r & p' & _ & _ & Hrun & ? & ? & _). eapply runs_eq; [exact Hrun|]. auto.
  - eapply runs_mono; [by apply reclaim_expired_runs|]. naive_solver.
  - eapply runs_mono; [by apply abort_all_runs|]. naive_solver.
  - destruct (rebind_ready_generation_spec p old_generation new_generation Hinv) as (p' & Hrun & ? & ? & _).
    eapply runs_eq; [exact Hrun|]. auto.
  - destruct (take_waits_for_child_spec p child_task_id Hinv) as (p' & Hrun & ? & ? & _).
    eapply runs_eq; [exact Hrun|]. auto.
  - destruct (configure_history_retention_spec p retention Hinv) as (p' & Hrun & Hinv' & _ & H).
    eapply runs_eq; [exact Hrun|]. split; [done|]. destruct retention as [ret|].
    + destruct H as [_ Hev]. etrans; [by apply (tasks_progress p (p <| p_history_retention := Some ret |>))|].
      split; [intros id r' Hr'; exists r'; split; [by eapply evicts_lookup|done]|].
      intros id r Hr Hnone. exists r. split; [done|].
      destruct (is_terminal_status (r_status r)) eqn:Ht; [done|].
      by rewrite (ev_live _ _ Hev _ _ Hr Ht) in Hnone.
    + destruct H as [Ht _]. by apply tasks_progress.
  - apply runs_modify. split; [by destruct Hinv; split|]. by apply tasks_progress.
  - unfold runner_load, ready_dispatch_count. apply runs_bind, runs_get. cbv zeta. do 2 apply runs_bind.
    eapply runs_mono; [by apply with_ready_selectors_runs|]. intros selectors p1 (_ & Hinv1 & [cache ->]).
    apply runs_bind, runs_get, runs_ret, runs_ret. split; [done|]. by apply tasks_progress.
Qed.

Lemma run_op_safe p op :
  pool_inv p → op_pre p op →
  runs (run_op op) p (λ _ p', pool_inv p' ∧ (progress p p' ∨ submits p p')).
Proof.
  intros Hinv Hpre. destruct (is_submission op) eqn:Hsub.
  - destruct op; try done. by apply run_op_enqueue.
  - eapply runs_mono; [by apply run_op_quiet|]. naive_solver.
Qed.

(** ** Reachable pools *)

Inductive reachable : TaskPool → Prop :=
  | reachable_init : reachable TaskPool_default
  | reachable_step p op p' :
      reachable p → op_pre p op → run_op op p = Some (tt, p') → reachable p'.

Lemma reachable_inv p : reachable p → pool_inv p.
Proof.
  induction 1 as [|p op p' _ IH Hpre Hrun]; [apply pool_inv_default|].
  by destruct (runs_det _ _ _ _ _ (run_op_safe p op IH Hpre) Hrun).
Qed.
End Ops.

(** ** The submission counter

    [TaskPool::next_sequence] moves in [enqueue_at] only: every other operation
    leaves it where it was. *)

Section Counters.
Context `{SJ : SerdeJson}.
Implicit Types p : TaskPool.

Notation counted c p := (leaves p_next_sequence c p).

Lemma update_record_indexes_sequence id present p :
  p_next_sequence (update_record_indexes id present p) = p_next_sequence p.
Proof. unfold update_record_indexes. by case_match. Qed.

Lemma remember_evicted_sequence id capacity p :
  p_next_sequence (remember_evicted_task_id id capacity p) = p_next_sequence p.
Proof. unfold remember_evicted_task_id, trim_evicted_task_ids. case_match; [done|]. by case_match. Qed.

Lemma trim_evicted_sequence capacity p : p_next_sequence (trim_evicted_task_ids capacity p) = p_next_sequence p.
Proof. unfold trim_evicted_task_ids. by case_match. Qed.

Lemma remove_waits_sequence id p : p_next_sequence (remove_waits_for_parent id p) = p_next_sequence p.
Proof. done. Qed.
Hint Resolve update_record_indexes_sequence remember_evicted_sequence trim_evicted_sequence remove_waits_sequence : frame.
Hint Extern 0 (p_next_sequence (insert_record_indexes _ _) = _) => apply update_record_indexes_sequence : frame.
Hint Extern 0 (p_next_sequence (remove_record_indexes _ _) = _) => apply update_record_indexes_sequence : frame.

Lemma mutate_counted {R} id (mutate : TaskRecord → RuntimeResult R * TaskRecord) p :
  counted (mutate_record_indexed id mutate) p.
Proof. unfold mutate_record_indexed. leaves_go. Qed.

Lemma statistics_counted f p : counted (modify_statistics f) p.
Proof. by apply leaves_modify. Qed.

Lemma attempt_counted lease step p : counted (record_attempt_finished lease step) p.
Proof. by apply leaves_modify. Qed.
Hint Resolve mutate_counted statistics_counted attempt_counted : frame.

Lemma evict_counted id capacity p : counted (evict_terminal_task id capacity) p.
Proof. unfold evict_terminal_task. leaves_go. Qed.
Hint Resolve evict_counted : frame.

Lemma compact_loop_counted fuel retention examined p : counted (compact_loop fuel retention examined) p.
Proof.
  revert examined p. induction fuel as [|fuel IH]; intros examined p; cbn [compact_loop]; leaves_go.
Qed.
Hint Resolve compact_loop_counted : frame.

Lemma compact_counted p : counted compact_terminal_history p.
Proof. unfold compact_terminal_history. leaves_go. Qed.
Hint Resolve compact_counted : frame.

Lemma record_terminal_counted id p : counted (record_terminal_task id) p.
Proof. unfold record_terminal_task. leaves_go. Qed.
Hint Resolve record_terminal_counted : frame.

Lemma leased_counted op lease step p : counted (run_leased op lease step) p.
Proof. destruct op; cbn [run_leased]; unfold complete_with_output, fail_task, wait, defer_leased, block, cancel_task; leaves_go. Qed.

Lemma selectors_counted runner_id p : counted (with_ready_selectors runner_id) p.
Proof. unfold with_ready_selectors. leaves_go. Qed.
Hint Resolve leased_counted selectors_counted : frame.

Lemma claim_one_counted runner executor step gen expires totals id p :
  counted (claim_one runner executor step gen expires totals id) p.
Proof. unfold claim_one. leaves_go. Qed.
Hint Resolve claim_one_counted : frame.

Lemma claim_loop_counted runner executor step gen expires totals ids p :
  counted (claim_loop runner executor step gen expires totals ids) p.
Proof. revert totals p. induction ids as [|id ids IH]; intros totals p; cbn [claim_loop]; leaves_go. Qed.
Hint Resolve claim_loop_counted : frame.

Lemma select_counted runner step gen limit budget p : counted (select_candidate_ids runner step gen limit budget) p.
Proof. unfold select_candidate_ids, visit_candidate_records, ready_dispatch_queues. leaves_go. Qed.
Hint Resolve select_counted : frame.

Lemma terminal_by_core_counted id status failure action step p :
  counted (terminal_by_core id status failure action step) p.
Proof. unfold terminal_by_core. leaves_go. Qed.
Hint Resolve terminal_by_core_counted : frame.

Lemma wake_due_task_counted step id p : counted (wake_due_task step id) p.
Proof. unfold wake_due_task. leaves_go. Qed.

Lemma reclaim_one_counted step id p : counted (reclaim_one step id) p.
Proof. unfold reclaim_one. leaves_go. Qed.
Hint Resolve wake_due_task_counted reclaim_one_counted : frame.

Lemma reclaim_loop_counted step ids p : counted (reclaim_loop step ids) p.
Proof. revert p. induction ids as [|id ids IH]; intros p; cbn [reclaim_loop]; leaves_go. Qed.
Hint Resolve reclaim_loop_counted : frame.

Lemma take_waits_counted id p : counted (take_waits_for_child id) p.
Proof. unfold take_waits_for_child, take_waits_for_child_raw. apply leaves_get. cbv beta iota zeta. leaves_go. Qed.
Hint Resolve take_waits_counted : frame.

(** The operations that draw no number. *)
Lemma run_op_counted op p : is_submission op = false → counted (run_op op) p.
Proof.
  destruct op; [done|..]; intros _; cbn [run_op]; unfold discard, claim_ready_for_executor_with_budget, wait_on_task,
    wake, wake_due_tasks, take_due_wake_tasks, reject_ready, cancel_running_invocation, cancel_by_core, expire_by_core,
    dead_letter_by_core, reclaim_expired_task_leases, take_expired_lease_tasks, abort_all, rebind_ready_generation,
    configure_history_retention, record_stale_result_rejection, runner_load,
    ready_dispatch_count; leaves_go.
Qed.
End Counters.
