(* ===== verification/PoolTheorems.v ===== *)
(** * What the task pool guarantees

    The properties of every reachable pool and of every operation on it,
    stated on the operations themselves. *)

From S2P Require Import Prelude Contracts RunnerContracts TaskRecords TaskIndexes IndexFacts TaskPool TaskClaiming ClaimMerge PoolInvariant PoolHistory PoolSteps PoolKernelSteps PoolForced ClaimFacts PoolOps.

Section Theorems.
Context `{SJ : SerdeJson}.
Implicit Types r : TaskRecord.
Implicit Types p : TaskPool.

(** ** Shared facts *)

Lemma step_evolves p op p' :
  reachable p → op_pre p op → run_op op p = Some (tt, p') → progress p p' ∨ submits p p'.
Proof.
  intros Hp Hpre Hrun. apply reachable_inv in Hp.
  by destruct (runs_det _ _ _ _ _ (run_op_safe p op Hp Hpre) Hrun).
Qed.

Lemma terminal_no_step r r' : is_terminal_status (r_status r) = true → ¬ record_step r r'.
Proof. intros Ht [_ Hl _ _ _]. by destruct (r_status r). Qed.

Lemma terminal_rtc r r' : is_terminal_status (r_status r) = true → rtc record_step r r' → r' = r.
Proof. intros Ht Hs. destruct Hs as [|r1 r2 r3 Hs]; [done|]. by apply terminal_no_step in Hs. Qed.

(** The attempt counter only grows; a lease of an earlier attempt is never the
    record's lease again. *)
Definition superseded (lease : TaskLease) r : Prop :=
  (l_attempt_generation lease ≤ r_attempt_generation r)%N ∧ r_lease r ≠ Some lease.

Lemma attempt_mono r r' :
  rtc record_step r r' → (r_attempt_generation r' < u64_max)%N →
  (r_attempt_generation r ≤ r_attempt_generation r')%N.
Proof.
  induction 1 as [r|r r1 r2 [_ _ Hg _ _] _ IH]; [done|]. intros Hmax. specialize (IH Hmax).
  case_decide; unfold saturating_add in *; lia.
Qed.

Lemma superseded_rtc lease r r' :
  rtc record_step r r' → (r_attempt_generation r' < u64_max)%N →
  superseded lease r → superseded lease r'.
Proof.
  induction 1 as [r|r r1 r2 [_ _ Hg Hl _] Hs IH]; [done|]. intros Hmax [Hle Hne].
  apply IH; [done|]. pose proof (attempt_mono _ _ Hs Hmax) as Hmono. unfold superseded. rewrite Hg in *.
  case_decide.
  - destruct Hl as (lease' & -> & Hgen). unfold saturating_add in *. split; [lia|]. intros [= ->]. lia.
  - rewrite Hl. split; [done|congruence].
Qed.

(** A run of operations during which the task stays in the table. *)
Inductive kept (id : TaskId) : TaskPool → TaskPool → Prop :=
  | kept_refl p : is_Some (p_tasks p !! id) → kept id p p
  | kept_step p q op q' :
      kept id p q → op_pre q op → run_op op q = Some (tt, q') → is_Some (p_tasks q' !! id) →
      kept id p q'.

Lemma kept_reachable id p q : kept id p q → reachable p → reachable q.
Proof.
  induction 1 as [|p q op q' _ IH Hpre Hrun _]; [done|]. intros Hp.
  eapply (reachable_step q op); [by apply IH|done|done].
Qed.

Lemma kept_record id p q r :
  kept id p q → reachable p → p_tasks p !! id = Some r →
  ∃ r', p_tasks q !! id = Some r' ∧ rtc record_step r r'.
Proof.
  intros Hk Hp Hr. induction Hk as [p _|p q op q' Hk IH Hpre Hrun [r' Hr']]; [by exists r|].
  destruct IH as (r1 & Hr1 & Hs); [done|done|]. exists r'. split; [done|].
  destruct (step_evolves q op q') as [[Hf _]|(id' & r2 & Hfresh & _ & _ & _ & _ & Htasks)]; try done.
  - by eapply kept_reachable.
  - destruct (Hf _ _ Hr') as (r2 & ? & ?). simplify_eq. by etrans.
  - rewrite Htasks, lookup_insert_ne in Hr' by congruence. by simplify_eq.
Qed.

(** ** Safety of every operation *)

(** C1: no operation of the pool panics.  In every pool a run of operations can
    reach, every operation whose caller respects its precondition returns, and
    the pool it leaves is reachable again: no [expect] on a missing record, no
    arithmetic or capacity overflow, no loop that runs forever.  The
    preconditions bind submissions (the payload serializes, the counters have
    room) and claims (distinct protocols, a number of entries one allocation
    can hold); the other sixteen operations have none. *)
Theorem pool_ops_total p op :
  reachable p → op_pre p op → ∃ p', run_op op p = Some (tt, p') ∧ reachable p'.
Proof.
  intros Hp Hpre. destruct (run_op_safe p op (reachable_inv _ Hp) Hpre) as ([] & p' & Hrun & _).
  exists p'. split; [done|]. by eapply reachable_step.
Qed.

(** C3: the incremental indexes are exact.  In every reachable pool all eight
    indexes equal the ones rebuilt from the task table, and the cached payload
    sizes are those of the tasks' payloads, for exactly the tasks in the table
    (what [assert_indexes_consistent] checks). *)
Theorem pool_indexes_consistent p :
  reachable p →
  p_indexes p = rebuild (p_tasks p) ∧
  dom (p_payload_wire_bytes p) = dom (p_tasks p) ∧
  ∀ id r, p_tasks p !! id = Some r → ∃ value n,
    as_value (t_payload (r_task r)) = Some value ∧ compact_json_len value = Ok n ∧
    p_payload_wire_bytes p !! id = Some n.
Proof.
  intros Hp%reachable_inv. split; [|split; [apply (pi_payload _ _ Hp)|]].
  - eapply indexes_for_unique; [apply (pi_indexes _ _ Hp)|apply rebuild_for].
  - intros id r Hr. destruct (pi_payload _ _ Hp) as [Hd Hb]. pose proof (Hb _ _ Hr) as Hn.
    assert (is_Some (p_payload_wire_bytes p !! id)) as [n Hn'].
    { apply elem_of_dom. rewrite Hd. by eapply elem_of_dom_2. }
    unfold payload_bytes in Hn. rewrite Hn' in Hn.
    destruct (as_value (t_payload (r_task r))) as [value|]; [|done].
    destruct (compact_json_len value) as [n'|] eqn:Hj; simplify_eq. eauto.
Qed.

(** the status counters count.  In every reachable pool the counter of each
    status equals the number of records in it, so the counters sum up to the
    size of the table. *)
Theorem pool_statistics_exact p status :
  reachable p → status ≠ Created →
  status_counter status (p_statistics p) =
    N.of_nat (size (filter (λ e, r_status e.2 = status) (p_tasks p))).
Proof.
  intros Hp%reachable_inv Hs. rewrite (pi_stats _ _ Hp status Hs). unfold count_entries, status_entry.
  do 2 f_equal. apply map_filter_ext. intros. simpl. naive_solver.
Qed.

(** ** Lifecycle *)

(** C8: records move along the lifecycle only.  After any operation every
    record of the table is either one that was there and has moved along the
    lifecycle edges (ready to running, running to waiting, blocked, ready or
    terminal, ...), or a task just submitted under a fresh id, ready and never
    attempted. *)
Theorem pool_lifecycle p op p' id r' :
  reachable p → op_pre p op → run_op op p = Some (tt, p') → p_tasks p' !! id = Some r' →
  (∃ r, p_tasks p !! id = Some r ∧ rtc record_step r r') ∨
  (p_tasks p !! id = None ∧ id ∉ p_evicted_task_ids p ∧
   r_status r' = Ready ∧ r_attempt_generation r' = 0%N ∧ r_lease r' = None).
Proof.
  intros Hp Hpre Hrun Hr'. destruct (step_evolves p op p') as [[Hf _]|(id' & r2 & ? & ? & ? & ? & ? & Htasks)];
    try done; [by left; eauto|].
  rewrite Htasks in Hr'. apply lookup_insert_Some in Hr' as [[<- <-]|[? ?]]; [by right|].
  left. exists r'. by split.
Qed.

(** a finished task is final.  Once a record is completed, failed,
    cancelled, expired or dead-lettered no operation changes it: it stays as it
    is until it is evicted from the history. *)
Theorem terminal_records_final p op p' id r :
  reachable p → op_pre p op → run_op op p = Some (tt, p') →
  p_tasks p !! id = Some r → is_terminal_status (r_status r) = true →
  p_tasks p' !! id = Some r ∨ p_tasks p' !! id = None.
Proof.
  intros Hp Hpre Hrun Hr Ht. destruct (p_tasks p' !! id) as [r'|] eqn:Hr'; [left|by right].
  destruct (step_evolves p op p') as [[Hf _]|(id' & r2 & ? & _ & _ & _ & _ & Htasks)]; try done.
  - destruct (Hf _ _ Hr') as (r0 & ? & Hs). simplify_eq. f_equal. by apply terminal_rtc.
  - rewrite Htasks, lookup_insert_ne in Hr' by congruence. congruence.
Qed.

(** ** Lease fencing *)

(** C6: a lease fences its attempt.  Completing, failing, waiting, deferring,
    blocking or cancelling under a lease succeeds exactly when the record runs
    under exactly that lease and the lease has not expired; otherwise the
    operation returns task.not_found or task.claim_conflict and the pool is
    unchanged. *)
Theorem leased_ops_fenced p op lease step :
  reachable p →
  ∃ result p', run_leased op lease step p = Some (result, p') ∧
    (result = Ok tt ↔ ∃ r, p_tasks p !! l_task_id lease = Some r ∧ r_status r = Running ∧
       r_lease r = Some lease ∧ task_lease_expired lease step = false) ∧
    ∀ e, result = Err e → p' = p ∧ (e_code e = ERR_TASK_NOT_FOUND ∨ e_code e = ERR_TASK_CLAIM_CONFLICT).
Proof.
  intros Hp%reachable_inv. pose proof (run_leased_spec op p lease step Hp) as H. unfold leased_spec in H.
  destruct (ensure_active_lease _ _ _ _ _) as [u|e] eqn:He.
  - destruct H as (r & p' & Hr & Hl & Hrun & _). eexists _, p'. split; [exact Hrun|]. split; [|done].
    split; [|done]. intros _.
    apply ensure_active_lease_Ok in He as (r' & Hr' & (? & _ & ? & ?)%validate_record_lease_Ok). eauto.
  - eexists _, p. split; [exact H|]. unfold ensure_active_lease, pool_record in He. split.
    + split; [done|]. intros (r & Hr & Hrun & Hl & Hexp). rewrite Hr in He. simpl in He.
      destruct (pi_records _ _ Hp _ _ Hr) as (_ & _ & Hok). rewrite Hrun, Hl in Hok.
      destruct Hok as (_ & Hcl & _).
      assert (validate_record_lease r lease step (leased_action op) = Ok tt) as Hv
        by (by apply validate_record_lease_Ok). congruence.
    + intros e' [= <-]. split; [done|]. destruct (p_tasks p !! l_task_id lease) as [r|]; simpl in He.
      * right. by eapply validate_record_lease_code.
      * left. by simplify_eq.
Qed.

(** what a successful leased operation does.  It replaces the record by the
    one its transition describes and changes no other record; a transition to a
    terminal status may also evict finished records from the history, never a
    live one nor one a wait still mentions. *)
Theorem leased_ops_effect p op lease step p' :
  reachable p → run_leased op lease step p = Some (Ok tt, p') →
  ∃ r, p_tasks p !! l_task_id lease = Some r ∧
    let q := with_record (l_task_id lease) (leased_record op step r) p in
    p_tasks p' ⊆ p_tasks q ∧
    (∀ id r', p_tasks q !! id = Some r' →
       is_terminal_status (r_status r') = false ∨ history_protected q id = true →
       p_tasks p' !! id = Some r') ∧
    (is_terminal_status (r_status (leased_record op step r)) = true →
       ∀ retention, p_history_retention p' = Some retention →
       (len (p_terminal_order p') ≤ hr_max_terminal_records retention)%N ∨ all_protected p').
Proof.
  intros Hp%reachable_inv Hrun. pose proof (run_leased_spec op p lease step Hp) as H. unfold leased_spec in H.
  destruct (ensure_active_lease _ _ _ _ _) as [u|e] eqn:He; [|congruence].
  destruct H as (r & p'' & Hr & Hl & Hrun' & _ & _ & [Hev Hb]). assert (p'' = p') as -> by congruence.
  exists r. split; [done|]. cbv zeta. split_and!.
  - apply Hev.
  - intros id r' Hr' [Hlive|Hprot]; [by eapply ev_live|by eapply ev_protected].
  - done.
Qed.

(** C9: a superseded lease never validates again.  Take a lease that is not the
    record's current one and not newer than its attempt counter (a lease that
    was given up, reclaimed or replaced).  Whatever operations follow, as long
    as the record stays in the table and its attempt counter has not reached
    [u64::MAX], every use of that lease is rejected. *)
Theorem stale_lease_rejected id p q r lease step action :
  reachable p → p_tasks p !! id = Some r →
  (l_attempt_generation lease ≤ r_attempt_generation r)%N → r_lease r ≠ Some lease →
  kept id p q →
  (∀ r', p_tasks q !! id = Some r' → (r_attempt_generation r' < u64_max)%N) →
  ∃ e, ensure_active_lease q id lease step action = Err e ∧ e_code e = ERR_TASK_CLAIM_CONFLICT.
Proof.
  intros Hp Hr Hg Hl Hk Hmax. destruct (kept_record id p q r) as (r' & Hr' & Hs); try done.
  assert (superseded lease r') as [_ Hne] by (eapply superseded_rtc; eauto; by split).
  unfold ensure_active_lease, pool_record. rewrite Hr'. simpl.
  destruct (validate_record_lease r' lease step action) as [u|e] eqn:Hv.
  - apply validate_record_lease_unit, validate_record_lease_Ok in Hv as (_ & _ & ? & _). congruence.
  - exists e. split; [done|]. by eapply validate_record_lease_code.
Qed.

(** a lease and its record belong together.  In every reachable pool a
    record holds a lease exactly while it runs; the lease names the task, the
    runner that owns it and the attempt the record is in. *)
Theorem lease_iff_running p id r :
  reachable p → p_tasks p !! id = Some r →
  (r_status r = Running ↔ is_Some (r_lease r)) ∧
  ∀ lease, r_lease r = Some lease →
    l_task_id lease = id ∧ r_claimed_by r = Some (l_runner_id lease) ∧
    r_owner_runner r = Some (l_runner_id lease) ∧
    t_lease_id (r_task r) = Some (l_lease_id lease) ∧
    l_attempt_generation lease = r_attempt_generation r.
Proof.
  intros Hp%reachable_inv Hr. destruct (pi_records _ _ Hp _ _ Hr) as (_ & _ & H). split.
  - destruct (r_status r), (r_lease r); try done; naive_solver.
  - intros lease Hl. rewrite Hl in H. destruct (r_status r); naive_solver.
Qed.

(** ** Waits between tasks *)

(** the two wait tables mirror each other.  In every reachable pool a wait
    listed under its child is listed under its parent and conversely; the
    parent is in the table, waiting, and waits for one child only; the child is
    in the table. *)
Theorem waits_mirrored p :
  reachable p →
  (∀ c w, wait_mem (p_waits_by_child p) c w →
     child_of w = c ∧ is_Some (p_tasks p !! c) ∧
     p_waits_by_parent p !! aw_parent_task_id w = Some [w] ∧
     ∃ r, p_tasks p !! aw_parent_task_id w = Some r ∧ r_status r = Waiting) ∧
  (∀ q w, wait_mem (p_waits_by_parent p) q w →
     aw_parent_task_id w = q ∧ wait_mem (p_waits_by_child p) (child_of w) w).
Proof.
  intros Hp%reachable_inv. destruct (pi_waits _ _ Hp) as [Hc Hq _ Hs Hw Hpr]. split; [|done].
  intros c w H. destruct (Hc _ _ H) as [Hcw (l & Hl & Hin)]. destruct H as (l' & Hl' & _).
  split; [done|]. split; [apply Hpr; by eexists|].
  destruct (Hs _ _ Hl) as [w' ->]. apply list_elem_of_singleton in Hin as <-. split; [done|].
  destruct (Hw (aw_parent_task_id w)) as [[]%not_elem_of_empty|?]; [by eexists|done].
Qed.

(** awaiting a child task.  [wait_on_task] returns in every case; it
    accepts the wait exactly when the await names the leased task as parent,
    the parent runs under the lease, the child exists, is not finished and
    matches the handle and the parent's trace; then the parent waits and the
    wait is in both tables.  A rejected wait leaves the pool unchanged. *)
Theorem wait_on_task_correct p lease step w :
  reachable p →
  if decide (aw_parent_task_id w = l_task_id lease) then
    match validate_wait_on_task p lease step w with
    | Ok _ => ∃ r p', p_tasks p !! l_task_id lease = Some r ∧
        wait_on_task lease step w p = Some (Ok tt, p') ∧
        p_tasks p' = <[l_task_id lease := awaiting_record w r]> (p_tasks p) ∧
        wait_mem (p_waits_by_child p') (child_of w) w ∧
        p_waits_by_parent p' !! l_task_id lease = Some [w]
    | Err e => wait_on_task lease step w p = Some (Err e, p)
    end
  else wait_on_task lease step w p =
    Some (runtime_failure ERR_TASK_CLAIM_CONFLICT "runtime.task_pool"
            ("task.await.parent." +:+ l_task_id lease), p).
Proof.
  intros Hp%reachable_inv. case_decide as Hpar; [|by apply wait_on_task_parent].
  pose proof (wait_on_task_spec p lease step w Hp Hpar) as H.
  destruct (validate_wait_on_task p lease step w) as [u|e] eqn:Hv; [|done].
  destruct H as (r & p' & Hr & Hl & Hrun & Hi & _ & Ht & Ec & Ep). exists r, p'.
  assert (p_waits_by_parent p !! l_task_id lease = None) as Hnone.
  { destruct (validate_wait_on_task_Ok _ _ _ _ _ Hv) as (r' & _ & Hr' & Hv' & _).
    apply validate_record_lease_Ok in Hv' as (Hst & _).
    eapply waits_ok_not_parent; [by apply pi_waits|set_solver|exact Hr'|by rewrite Hst]. }
  split_and!; try done.
  - rewrite Ec. unfold push_wait, wait_mem. rewrite lookup_insert_eq.
    eexists. split; [done|]. set_solver.
  - rewrite Ep. unfold push_wait. by rewrite lookup_insert_eq, Hnone.
Qed.

(** delivering the waits on a finished child.  [take_waits_for_child]
    returns exactly the waits recorded on the child, in the order they were
    recorded, and leaves none of them in either table; waits on other children
    stay. *)
Theorem take_waits_delivers p child :
  reachable p →
  ∃ p', take_waits_for_child child p = Some (or_default [] (p_waits_by_child p !! child), p') ∧
    p_waits_by_child p' = delete child (p_waits_by_child p) ∧
    ∀ q w, wait_mem (p_waits_by_parent p') q w ↔ wait_mem (p_waits_by_parent p) q w ∧ child_of w ≠ child.
Proof.
  intros Hp%reachable_inv.
  destruct (take_waits_for_child_spec p child Hp) as (p' & Hrun & Hp' & _ & _ & Hev).
  pose proof (pi_waits _ _ Hp) as [Hc Hq _ _ _ _]. pose proof (pi_waits _ _ Hp') as [Hc' Hq' _ _ _ _].
  assert (p_waits_by_child p' = delete child (p_waits_by_child p)) as Ec by (by rewrite (ev_by_child _ _ Hev)).
  exists p'. split_and!; try done. intros q w. split.
  - intros Hw. destruct (Hq' _ _ Hw) as [<- Hw']. rewrite Ec in Hw'.
    apply wait_mem_delete in Hw' as [Hw' ?]. by destruct (Hc _ _ Hw').
  - intros [Hw Hne]. destruct (Hq _ _ Hw) as [<- Hw'].
    apply (proj2 (Hc' (child_of w) w ltac:(rewrite Ec; by apply wait_mem_delete))).
Qed.

(** ** Time *)

(** waking is exact.  [wake_due_tasks] wakes every waiting or blocked task
    whose step has come and nothing else: the tasks it reports are exactly
    those, each with its step, every other record is untouched. *)
Theorem wake_due_tasks_exact p step :
  reachable p → (step < u64_max)%N →
  ∃ due p', wake_due_tasks step p = Some (due, p') ∧
    (∀ id s, (id, s) ∈ due ↔ ∃ r, p_tasks p !! id = Some r ∧
       (r_status r = Waiting ∨ r_status r = Blocked) ∧ t_ready_at_step (r_task r) = Some s ∧ (s ≤ step)%N) ∧
    (∀ id, p_tasks p' !! id =
       (if decide (id ∈ due.*1) then wake_record step <$> p_tasks p !! id else p_tasks p !! id)).
Proof.
  intros Hp%reachable_inv Hmax.
  destruct (wake_due_tasks_runs p step Hp) as (due & p' & Hrun & Hi & _ & Hdue & Ht).
  assert (∀ s, due_step step s ↔ (s ≤ step)%N) as Hds by (unfold due_step; intros; lia).
  exists due, p'. split; [done|]. split.
  - intros id s. rewrite Hdue. pose proof (pi_records _ _ Hp) as Hrec. split.
    + intros (r & Hr & He & Hd). exists r. rewrite <-Hds. split; [done|].
      pose proof (wake_entry_status _ _ He). unfold wake_entry in He.
      destruct (r_status r), (t_ready_at_step (r_task r)); simplify_eq/=; auto.
    + intros (r & Hr & Hst & Hs & Hd). exists r. rewrite Hds. split_and!; try done.
      unfold wake_entry. destruct (Hrec _ _ Hr) as [<- _]. rewrite Hs. by destruct Hst as [-> | ->].
  - intros id. rewrite Ht, lookup_fmap. destruct (p_tasks p !! id) as [r|] eqn:Hr; simpl; [|by case_decide].
    destruct (pi_records _ _ Hp _ _ Hr) as [Hk _].
    destruct (wake_due step r) eqn:Hw; case_decide as Hin; try done; exfalso.
    + apply Hin. apply wake_due_spec in Hw as (s & He & Hd). rewrite Hk in He.
      apply list_elem_of_fmap. exists (id, s). split; [done|]. apply Hdue. eauto.
    + apply list_elem_of_fmap in Hin as ([id' s] & -> & (r' & Hr' & He & Hd)%Hdue). simpl in *.
      assert (r' = r) as -> by congruence.
      assert (wake_due step r = true); [|congruence]. apply wake_due_spec. rewrite Hk. eauto.
Qed.

(** reclaim is exact.  [reclaim_expired_task_leases] takes back exactly the
    expired leases: it returns them, the tasks that held them are ready again
    without a lease, and every other record is untouched. *)
Theorem reclaim_exact p step :
  reachable p →
  ∃ leases p', reclaim_expired_task_leases step p = Some (leases, p') ∧
    (∀ lease, lease ∈ leases ↔ ∃ id r, p_tasks p !! id = Some r ∧ r_lease r = Some lease ∧
       task_lease_expired lease step = true) ∧
    (∀ id r, p_tasks p !! id = Some r → p_tasks p' !! id =
       Some (if is_some_and (r_lease r) (λ lease, task_lease_expired lease step)
             then wake_record step r else r)) ∧
    (∀ id r, p_tasks p' !! id = Some r → is_some_and (r_lease r) (λ lease, task_lease_expired lease step) = false).
Proof.
  intros Hp%reachable_inv.
  destruct (reclaim_expired_runs p step Hp) as (leases & p' & Hrun & Hi & _ & Hl & Ht).
  exists leases, p'. split; [done|]. split; [done|]. rewrite Ht. split.
  - intros id r Hr. by rewrite lookup_fmap, Hr.
  - intros id r' (r & <- & Hr)%lookup_fmap_Some. unfold lease_expired.
    destruct (is_some_and (r_lease r) _) eqn:E; [done|]. done.
Qed.

(** ** Claiming *)

(** the heap merge of the ready queues is a sort.  Popping the heap of
    queue heads visits the due keys of all queues in ascending key order, each
    once: the visitor sees what it would see on the sorted list of all due
    keys, and stops where it would stop there. *)
Theorem dispatch_merge_is_sort {S} tasks step gen (visit : Visitor S) queues s :
  visit_queues tasks step gen visit queues s =
    visit_list tasks gen visit
      (merge_sort rk_le (concat ((λ q, filter (λ k, is_due k step = true) (elements q)) <$> queues))) 0 s.
Proof. apply visit_queues_sorted. Qed.

(** C7: a claim serves eligible tasks in order, as many as the budget allows.
    It returns.  The candidates are all the eligible tasks (ready, due, of an
    accepted protocol and generation, not reserved for another runner), each
    once, in ascending key order.  Without a budget the leased tasks are the
    first [limit] candidates.  Under a budget with a zero total nothing is
    leased; under any other budget the choice is greedy: candidates are offered
    in order until [limit] and [max_entries] are used up, and one is passed over
    exactly when taking it on top of those already taken would exceed the
    payload bytes or the entries of a lane.  So number, bytes and lane counts
    respect every limit.  Each leased task becomes a running record under its
    new lease and every other record is untouched. *)
Theorem claim_correct p runner executor_id step gen limit budget expires :
  reachable p → NoDup (d_accepted_protocol_ids runner) → allocatable TaskId (selection_limit limit budget) →
  (∀ s, expires = Some s → (s ≤ u64_max)%N) →
  let claim r := claim_record runner executor_id step gen expires r in
  ∃ C l p',
    claim_ready_for_executor_with_budget runner executor_id step gen limit budget expires p =
      Some ((λ r, ((claim r).1, r_task (claim r).2)) <$> l, p') ∧
    (∀ r, r ∈ C ↔ p_tasks p !! rec_id r = Some r ∧ eligible runner step r ∧
       generation_matches gen (t_registry_generation (r_task r)) = true) ∧
    NoDup (rec_id <$> C) ∧ StronglySorted rk_le (ready_key_of <$> C) ∧
    match budget with
    | Some B =>
        (if decide (closed B) then l = []
         else greedy (within_budget B p) (N.min limit (db_max_entries B)) [] C l) ∧
        (len l ≤ limit)%N ∧ (len l ≤ db_max_entries B)%N ∧ within_budget B p l
    | None => l = take (N.to_nat limit) C
    end ∧
    ∀ id, p_tasks p' !! id = (λ r, if decide (id ∈ rec_id <$> l) then (claim r).2 else r) <$> p_tasks p !! id.
Proof.
  intros Hp%reachable_inv Hnd Halloc Hexp claim.
  destruct (claim_runs runner executor_id step gen expires Hexp p limit budget Hp Hnd Halloc)
    as (leased & p' & Hrun & _ & _ & l & Hsel & -> & Ht).
  exists (candidates p runner step gen), l, p'. split; [exact Hrun|]. split_and!.
  - intros r. by apply elem_of_candidates.
  - by apply NoDup_candidates.
  - by apply candidates_sorted.
  - destruct budget as [B|]; [|done]. split; [done|].
    destruct (selects_bounds _ _ _ _ _ _ _ Hsel) as (_ & ? & Hb). by specialize (Hb B eq_refl).
  - done.
Qed.

(** ** Submission *)

(** submitting a task.  [enqueue_at] rejects an id that is in the table or
    still remembered as evicted, rejects a payload that does not encode, and
    otherwise stores the task ready and unattempted under its id, with the next
    sequence number when it carries none; both rejections leave the pool
    unchanged. *)
Theorem enqueue_correct p task step value :
  reachable p → as_value (t_payload task) = Some value →
  (p_next_sequence p < u64_max)%N → (N.of_nat (size (p_tasks p)) < usize_max)%N →
  if decide (is_Some (p_tasks p !! t_task_id task) ∨ t_task_id task ∈ p_evicted_task_ids p)
  then enqueue_at task step p =
         Some (runtime_failure ERR_TASK_DUPLICATE "runtime.task_pool"
                 ("task.enqueue." +:+ t_task_id task), p)
  else match compact_json_len value with
  | Err error => enqueue_at task step p =
      Some (runtime_failure ERR_RUNTIME_HOST_FAILED "runtime.task_pool"
              ("task.payload.encode." +:+ t_task_id task +:+ ":" +:+ error), p)
  | Ok bytes => ∃ r p', enqueue_at task step p = Some (Ok (t_task_id task), p') ∧
      p_tasks p' = <[t_task_id task := r]> (p_tasks p) ∧
      r_status r = Ready ∧ r_attempt_generation r = 0%N ∧ r_ready_since_step r = step ∧
      r_task r = (if decide (t_created_sequence task = 0%N)
                  then task <| t_created_sequence := (p_next_sequence p + 1)%N |> else task) ∧
      p_next_sequence p' = (p_next_sequence p + 1)%N ∧
      p_payload_wire_bytes p' !! t_task_id task = Some bytes
  end.
Proof.
  intros Hp%reachable_inv Hv Hseq Hsize. pose proof (enqueue_at_spec p task step value Hp Hv Hseq Hsize) as H.
  case_decide as Hc.
  - assert (contains_task_id p (t_task_id task) = true) as E; [|by rewrite E in H].
    unfold contains_task_id. rewrite orb_true_iff, !bool_decide_eq_true. done.
  - assert (contains_task_id p (t_task_id task) = false) as E; [|rewrite E in H].
    { unfold contains_task_id. rewrite orb_false_iff, !bool_decide_eq_false. tauto. }
    destruct (compact_json_len value); [|done]. destruct H as (p' & Hrun & _ & _ & Ht & Hn & Hb).
    eexists _, p'. split_and!; try done.
Qed.

(** shutdown.  [abort_all] returns the ids of the live tasks, in order, and
    leaves no live task and no wait: every record still in the table is
    finished, the ones that were live are cancelled with the given failure, and
    the others are as they were. *)
Theorem abort_all_final p step failure :
  reachable p →
  ∃ aborted p', abort_all step failure p = Some (aborted, p') ∧
    StronglySorted String.le aborted ∧
    (∀ id, id ∈ aborted ↔ ∃ r, p_tasks p !! id = Some r ∧ is_terminal_status (r_status r) = false) ∧
    (∀ id r', p_tasks p' !! id = Some r' → is_terminal_status (r_status r') = true ∧
       ∃ r, p_tasks p !! id = Some r ∧
         r' = if is_terminal_status (r_status r) then r
              else mark_terminal_record Cancelled (Some failure) r) ∧
    p_waits_by_parent p' = ∅ ∧ p_waits_by_child p' = ∅.
Proof.
  intros Hp%reachable_inv.
  destruct (abort_all_runs p step failure Hp) as (aborted & p' & Hrun & Hp' & _ & Hsort & Hab & Hsub).
  assert (∀ id r', p_tasks p' !! id = Some r' → is_terminal_status (r_status r') = true ∧
       ∃ r, p_tasks p !! id = Some r ∧
         r' = if is_terminal_status (r_status r) then r
              else mark_terminal_record Cancelled (Some failure) r) as Ht.
  { intros id r' Hr'. pose proof (lookup_weaken _ _ _ _ Hr' Hsub) as Hl.
    apply lookup_fmap_Some in Hl as (r & <- & Hr). unfold is_live.
    destruct (is_terminal_status (r_status r)) eqn:E; simpl; (split; [done|]); exists r; by rewrite E. }
  assert (p_waits_by_parent p' = ∅) as Hwp.
  { apply map_empty. intros q. apply eq_None_not_Some. intros Hs.
    destruct (wo_waiting _ _ _ _ (pi_waits _ _ Hp') q Hs) as [[]%not_elem_of_empty|(r & Hr & Hw)].
    destruct (Ht _ _ Hr) as [Hterm _]. by rewrite Hw in Hterm. }
  exists aborted, p'. split_and!; try done.
  - intros id. rewrite Hab. unfold is_live. split; intros (r & Hr & Hl); exists r;
      destruct (is_terminal_status (r_status r)); done.
  - apply map_empty. intros c. apply eq_None_not_Some. intros [l Hl].
    destruct (pi_waits _ _ Hp') as [Hc _ Hne _ _ _]. destruct l as [|w l]; [by eapply Hne|].
    destruct (Hc c w) as [_ (l' & Hl' & _)]; [exists (w :: l); split; [done|set_solver]|].
    by rewrite Hwp, lookup_empty in Hl'.
Qed.

(** ** History *)

(** history compaction terminates and bounds the history.  Switching
    retention on returns (the compaction loop does not run out of the fuel
    n*n+n+1 for a queue of n finished tasks), leaves at most
    [max_terminal_records] finished tasks unless all that are left are
    mentioned by a wait, keeps every live task and every task a wait mentions,
    and bounds the memory of evicted ids. *)
Theorem configure_history_bounds p retention :
  reachable p →
  ∃ p', configure_history_retention (Some retention) p = Some (tt, p') ∧
    ((len (p_terminal_order p') ≤ hr_max_terminal_records retention)%N ∨
     ∀ id, id ∈ p_terminal_order p' → history_protected p' id = true) ∧
    (∀ id r, p_tasks p !! id = Some r →
       is_terminal_status (r_status r) = false ∨ history_protected p id = true → p_tasks p' !! id = Some r) ∧
    p_tasks p' ⊆ p_tasks p ∧
    (len (p_evicted_task_order p') ≤ hr_max_evicted_task_ids retention)%N ∧
    (N.of_nat (size (p_evicted_task_ids p')) ≤ hr_max_evicted_task_ids retention)%N.
Proof.
  intros Hp%reachable_inv.
  destruct (configure_history_retention_spec p (Some retention) Hp) as (p' & Hrun & Hp' & Hret & Hc & Hev).
  exists p'. split; [done|]. pose proof (pi_evicted _ _ Hp') as (Hnd & Hids & _ & Hlen). rewrite Hret in Hlen.
  split_and!; try done.
  - intros id r Hr [Hlive|Hprot]; [by eapply ev_live|by eapply ev_protected].
  - apply Hev.
  - rewrite Hids, size_list_to_set by done. done.
Qed.

(** the history queue and the eviction memory are exact.  In every reachable
    pool with retention on, the queue lists each finished task of the table
    once and nothing else; the evicted ids are remembered once each, at most
    [max_evicted_task_ids] of them, and none of them is in the table. *)
Theorem history_exact p retention :
  reachable p → p_history_retention p = Some retention →
  NoDup (p_terminal_order p) ∧
  (∀ id, id ∈ p_terminal_order p ↔
     ∃ r, p_tasks p !! id = Some r ∧ is_terminal_status (r_status r) = true) ∧
  NoDup (p_evicted_task_order p) ∧
  (∀ id, id ∈ p_evicted_task_ids p ↔ id ∈ p_evicted_task_order p) ∧
  (∀ id, id ∈ p_evicted_task_ids p → p_tasks p !! id = None) ∧
  (len (p_evicted_task_order p) ≤ hr_max_evicted_task_ids retention)%N.
Proof.
  intros Hp%reachable_inv Hret. pose proof (pi_history _ _ Hp) as Hh. pose proof (pi_evicted _ _ Hp) as He.
  rewrite Hret in Hh, He. destruct Hh as [Hnd Hin], He as (Hnd' & Hids & Hno & Hlen).
  split_and!; try done.
  - intros id. rewrite Hin. unfold is_terminal. set_solver.
  - intros id. rewrite Hids. by rewrite elem_of_list_to_set.
  - intros id. rewrite Hids, elem_of_list_to_set. apply Hno.
Qed.

(** ** Queries answered from the indexes *)

(** the running tasks of a runner.  The index lists, for each runner,
    exactly the records that run under that runner, so the count and the
    records served from it are those of a scan of the table. *)
Theorem running_index_exact p runner_id :
  reachable p →
  (∀ id, id ∈ flatten_ids (running_task_ids p runner_id) ↔
     ∃ r, p_tasks p !! id = Some r ∧ r_status r = Running ∧ r_claimed_by r = Some runner_id) ∧
  running_count_for_runner p runner_id =
    N.of_nat (size (filter (λ e, r_status e.2 = Running ∧ r_claimed_by e.2 = Some runner_id) (p_tasks p))).
Proof.
  intros Hp%reachable_inv. split; [intros; by apply running_index|].
  unfold running_count_for_runner, map_set_len.
  transitivity (N.of_nat (length (flatten_ids (running_task_ids p runner_id)))).
  - unfold running_task_ids, flatten_ids. destruct (ix_running_by_runner (p_indexes p) !! runner_id) as [s|]; [|done].
    unfold btree_elements. rewrite (Permutation_length (sort_strings_perm _)). done.
  - f_equal. set (m := filter _ (p_tasks p)). rewrite <-(size_dom (D := gset TaskId) m).
    assert (NoDup (flatten_ids (running_task_ids p runner_id))) as Hnd.
    { unfold flatten_ids. destruct (running_task_ids p runner_id); [apply NoDup_btree_elements|constructor]. }
    rewrite <-(size_list_to_set (C := gset TaskId)) by done. f_equal. apply set_eq. intros id.
    rewrite elem_of_list_to_set, running_index, elem_of_dom by done. subst m.
    unfold is_Some. setoid_rewrite map_lookup_filter_Some. naive_solver.
Qed.

(** [o] is the least step after [step] in [P]. *)
Definition least_after (step : N) (P : N → Prop) (o : option N) : Prop :=
  match o with
  | Some n => (step < n)%N ∧ P n ∧ ∀ m, P m → (step < m)%N → (n ≤ m)%N
  | None => ∀ m, P m → (m ≤ step)%N
  end.

Lemma min_step_least step P Q a b :
  least_after step P a → least_after step Q b → least_after step (λ n, P n ∨ Q n) (min_step a b).
Proof.
  destruct a as [a|], b as [b|]; simpl.
  - intros (Ha & HPa & Hma) (Hb & HQb & Hmb). split; [lia|]. split.
    + destruct (N.min_spec a b) as [[_ ->]|[_ ->]]; auto.
    + intros m [Hm|Hm] Hlt; [specialize (Hma m Hm Hlt)|specialize (Hmb m Hm Hlt)]; lia.
  - intros (Ha & HPa & Hma) Hb. split_and!; [done|by left|]. intros m [Hm|Hm] Hlt; [by auto|].
    specialize (Hb m Hm). lia.
  - intros Ha (Hb & HQb & Hmb). split_and!; [done|by right|]. intros m [Hm|Hm] Hlt; [|by auto].
    specialize (Ha m Hm). lia.
  - intros Ha Hb m [?|?]; auto.
Qed.

Lemma next_bucket_after_spec (buckets : StepBuckets) step :
  least_after step (λ n, is_Some (buckets !! n)) (next_bucket_after buckets step).
Proof.
  unfold next_bucket_after. set (l := (btree_to_list buckets).*1).
  assert (∀ m, m ∈ l ↔ is_Some (buckets !! m)) as Hl.
  { intros m. subst l. rewrite list_elem_of_fmap. split.
    - intros ([m' s] & -> & Hin%elem_of_btree_to_list). by eexists.
    - intros [s Hs]. exists (m, s). by rewrite elem_of_btree_to_list. }
  assert (StronglySorted N.le l) as Hsort.
  { subst l. unfold btree_to_list, sort_by_key.
    assert (StronglySorted (le_by fst) (stable_sort (le_by fst) (map_to_list buckets))) as Hs
      by (apply StronglySorted_stable_sort; apply _).
    induction Hs as [|x l Hs IH Hall]; simpl; constructor; [done|].
    rewrite Forall_forall in Hall. apply Forall_forall.
    intros m (y & -> & Hy)%list_elem_of_fmap. by apply Hall. }
  assert (least_after step (λ n, n ∈ l) (head (filter (λ n, (step < n)%N) l))) as H.
  2:{ unfold least_after in *. destruct (head _) as [n|].
      - destruct H as (? & ? & Hm). split_and!; [done|by apply Hl|]. intros m ?%Hl. by apply Hm.
      - intros m ?%Hl. by apply H. }
  clearbody l. clear Hl. induction Hsort as [|x l Hs IH Hall]; simpl.
  { intros m Hm. by apply not_elem_of_nil in Hm. }
  rewrite filter_cons. case_decide as Hx; simpl.
  - split; [done|]. split; [set_solver|]. intros m Hm _. apply elem_of_cons in Hm as [->|Hm]; [done|].
    rewrite Forall_forall in Hall. by apply Hall.
  - destruct (head (filter _ l)) as [n|].
    + destruct IH as (? & ? & Hmin). split; [done|]. split; [set_solver|]. intros m Hm Hlt.
      apply elem_of_cons in Hm as [->|Hm]; [lia|by apply Hmin].
    + intros m Hm. apply elem_of_cons in Hm as [->|Hm]; [lia|by apply IH].
Qed.

(** The step at which a record is due to change by itself. *)
Definition alarm r : option N :=
  match r_status r with
  | Ready | Waiting | Blocked => t_ready_at_step (r_task r)
  | Running => r_lease r ≫= l_expires_at_step
  | _ => None
  end.

Lemma bucket_is_Some (b : StepBuckets) (entry : TaskRecord → option (N * TaskId)) tasks n :
  no_empty b → tracks (bucket_mem b) entry tasks →
  is_Some (b !! n) ↔ ∃ id r x, tasks !! id = Some r ∧ entry r = Some (n, x).
Proof.
  intros Hne Ht. split.
  - intros [s Hs]. destruct (set_choose_L s) as [x Hx]; [intros ->; by eapply Hne|].
    destruct (proj1 (Ht (n, x))) as (id & r & ? & ?); [by exists s|]. eauto.
  - intros (id & r & x & Hr & He). destruct (proj2 (Ht (n, x))) as (s & Hs & _); eauto.
Qed.

Lemma alarm_buckets p n :
  pool_inv p →
  (∃ id r, p_tasks p !! id = Some r ∧ alarm r = Some n) ↔
  is_Some (ix_ready_by_step (p_indexes p) !! n) ∨ is_Some (ix_wake_by_step (p_indexes p) !! n) ∨
  is_Some (ix_leases_by_expiry (p_indexes p) !! n).
Proof.
  intros Hp. destruct (pi_indexes _ _ Hp) as [[_ _ Hn1 Hn2 _ _ Hn3] _ _ H1 _ H2 _ _ H3].
  assert (∀ {X} (entry : TaskRecord → option X) r, unless_pending ∅ entry r = entry r) as Hun.
  { intros. unfold unless_pending. by rewrite decide_False by set_solver. }
  assert (tracks (bucket_mem (ix_wake_by_step (p_indexes p))) wake_entry (p_tasks p)) as H2'.
  { eapply tracks_ext; [|exact H2]. intros. apply Hun. }
  assert (tracks (bucket_mem (ix_leases_by_expiry (p_indexes p))) lease_entry (p_tasks p)) as H3'.
  { eapply tracks_ext; [|exact H3]. intros. apply Hun. }
  rewrite (bucket_is_Some _ _ _ _ Hn1 H1), (bucket_is_Some _ _ _ _ Hn2 H2'), (bucket_is_Some _ _ _ _ Hn3 H3').
  unfold alarm, ready_step_entry, wake_entry, lease_entry. split.
  - intros (id & r & Hr & Ha). destruct (r_status r) eqn:Hs; try done;
      [left|right; right|right; left|right; left]; exists id, r, (rec_id r); rewrite Hs, Ha; done.
  - intros [(id & r & x & Hr & He)|[(id & r & x & Hr & He)|(id & r & x & Hr & He)]]; exists id, r;
      (split; [done|]); destruct (r_status r); try done;
      apply fmap_Some in He as (? & ? & ?); by simplify_eq.
Qed.

(** the next step that matters.  [next_required_step_after] is the least
    step after the given one at which some record is due to change by itself (a
    ready or wake step, a lease expiry), and [None] when there is none: a host
    that sleeps until that step misses nothing. *)
Theorem next_required_step_least p step :
  reachable p →
  match next_required_step_after p step with
  | Some n => (step < n)%N ∧ (∃ id r, p_tasks p !! id = Some r ∧ alarm r = Some n) ∧
      ∀ id r m, p_tasks p !! id = Some r → alarm r = Some m → (step < m)%N → (n ≤ m)%N
  | None => ∀ id r m, p_tasks p !! id = Some r → alarm r = Some m → (m ≤ step)%N
  end.
Proof.
  intros Hp%reachable_inv.
  assert (least_after step (λ n, ∃ id r, p_tasks p !! id = Some r ∧ alarm r = Some n)
    (next_required_step_after p step)) as H.
  { pose proof (min_step_least step _ _ _ _ (next_bucket_after_spec (ix_ready_by_step (p_indexes p)) step)
      (min_step_least step _ _ _ _ (next_bucket_after_spec (ix_wake_by_step (p_indexes p)) step)
        (next_bucket_after_spec (ix_leases_by_expiry (p_indexes p)) step))) as H.
    fold (ix_next_required_step_after (p_indexes p) step) in H. unfold next_required_step_after, least_after in *.
    destruct (ix_next_required_step_after (p_indexes p) step) as [n|].
    - destruct H as (? & Hn & Hm). split_and!; [done|by apply alarm_buckets|].
      intros m Ha Hlt. apply Hm; [|done]. by apply alarm_buckets in Ha.
    - intros m Ha. apply H. by apply alarm_buckets in Ha. }
  unfold least_after in H. destruct (next_required_step_after p step) as [n|].
  - destruct H as (? & ? & Hm). split_and!; eauto.
  - eauto.
Qed.
End Theorems.
