(* ===== verification/PoolWitnesses.v ===== *)
(** * Concrete runs of the task pool

    A concrete JSON type, a runner and a pool built by running the operations;
    every theorem of PoolTheorems.v with a hypothesis is applied to them. *)

From S2P Require Import Prelude Contracts RunnerContracts DemoJson TaskRecords TaskIndexes IndexFacts TaskPool TaskClaiming ClaimMerge PoolInvariant PoolHistory PoolSteps PoolKernelSteps PoolForced ClaimFacts PoolOps PoolTheorems.

Definition demo_task (id : string) : Task := Task_new id "demo.run" (PayloadJson "x").

Definition demo_runner : RunnerDescriptor :=
  (core_kernel_descriptor 1) <| d_accepted_protocol_ids := ["demo.run"] |>.

Definition after (op : PoolOp) (p : TaskPool) : TaskPool :=
  match run_op op p with Some (_, p') => p' | None => p end.

(** Two tasks are submitted; the first is claimed until step 5. *)
Definition demo_submitted : TaskPool :=
  after (OpEnqueue (demo_task "b") 0) (after (OpEnqueue (demo_task "a") 0) TaskPool_default).
Definition demo_claim : PoolOp := OpClaim demo_runner "executor" 1 0 1 None (Some 5%N).
Definition demo_running : TaskPool := after demo_claim demo_submitted.

Definition demo_lease : TaskLease :=
  {| l_lease_id := "task-lease-1-a-1"; l_task_id := "a"; l_attempt_generation := 1;
     l_runner_id := "core.kernel"; l_executor_id := "executor"; l_registry_generation := 0;
     l_acquired_at_step := 1; l_expires_at_step := Some 5%N |}.

Definition demo_output : option (@Value TextJson) := Some "y".
Definition demo_done : TaskPool := after (OpLeased (LComplete demo_output) demo_lease 2) demo_running.
Definition demo_deferred : TaskPool := after (OpLeased LDefer demo_lease 2) demo_running.

Definition demo_await : TaskAwait :=
  {| aw_parent_task_id := "a";
     aw_child := {| h_task_id := "b"; h_protocol_id := "demo.run"; h_target_binding_id := None;
                    h_cancel_policy := Cascade; h_trace_id := None; h_correlation_id := None |};
     aw_continuation :=
       {| cont_continuation :=
            {| rr_ref_id := "cont";
               rr_resource_id := {| ri_kind_id := "k"; ri_slot_id := "s"; ri_generation := 1; ri_version := 1 |};
               rr_semantic := FrozenValue; rr_provider_id := "p"; rr_resource_kind := "k";
               rr_schema := "s"; rr_version := 1; rr_generation := 1; rr_access := AccessInline;
               rr_size_hint := None; rr_content_hash := None; rr_lifetime := Persistent;
               rr_lease := None; rr_seal_state := Sealed |};
          cont_wake := Some (Timer 4%N); cont_reason := None |};
     aw_cancel_policy := Cascade |}.
Definition demo_waiting : TaskPool := after (OpWaitOn demo_lease 2 demo_await) demo_running.

Example demo_running_lease : r_lease <$> (p_tasks demo_running !! "a") = Some (Some demo_lease).
Proof. vm_compute. reflexivity. Qed.

(** ** The pools are reachable *)

Lemma demo_pre_enqueue p id :
  (p_next_sequence p < u64_max)%N → (N.of_nat (size (p_tasks p)) < usize_max)%N →
  op_pre p (OpEnqueue (demo_task id) 0).
Proof. intros. split_and!; [by eexists|done|done]. Qed.

Lemma demo_submitted_reachable : reachable demo_submitted.
Proof.
  unfold demo_submitted. eapply (reachable_step (after (OpEnqueue (demo_task "a") 0) TaskPool_default)
    (OpEnqueue (demo_task "b") 0)); [|apply demo_pre_enqueue; vm_compute; reflexivity|vm_compute; reflexivity].
  eapply (reachable_step TaskPool_default (OpEnqueue (demo_task "a") 0));
    [apply reachable_init|apply demo_pre_enqueue; vm_compute; reflexivity|vm_compute; reflexivity].
Qed.

Lemma demo_protocols_distinct : NoDup (d_accepted_protocol_ids demo_runner).
Proof. apply NoDup_singleton. Qed.

Lemma demo_expiry_u64 (s : N) : Some 5%N = Some s → (s ≤ u64_max)%N.
Proof. intros [= <-]. by vm_compute. Qed.

Lemma demo_claim_pre p : op_pre p demo_claim.
Proof. split_and!; [apply demo_protocols_distinct|by vm_compute|apply demo_expiry_u64]. Qed.

Lemma demo_running_reachable : reachable demo_running.
Proof.
  eapply (reachable_step demo_submitted demo_claim);
    [apply demo_submitted_reachable|apply demo_claim_pre|vm_compute; reflexivity].
Qed.

Lemma demo_done_reachable : reachable demo_done.
Proof.
  eapply (reachable_step demo_running (OpLeased (LComplete demo_output) demo_lease 2));
    [apply demo_running_reachable|done|vm_compute; reflexivity].
Qed.

Lemma demo_waiting_reachable : reachable demo_waiting.
Proof.
  eapply (reachable_step demo_running (OpWaitOn demo_lease 2 demo_await));
    [apply demo_running_reachable|done|vm_compute; reflexivity].
Qed.

Definition demo_record (p : TaskPool) (id : TaskId) : TaskRecord :=
  match p_tasks p !! id with Some r => r | None => new_record (demo_task id) 0 end.

(** ** The theorems at these pools *)

Lemma pool_ops_total_witness : ∃ p', run_op demo_claim demo_submitted = Some (tt, p') ∧ reachable p'.
Proof. exact (pool_ops_total demo_submitted demo_claim demo_submitted_reachable (demo_claim_pre _)). Defined.

Lemma pool_indexes_consistent_witness :
  p_indexes demo_running = rebuild (p_tasks demo_running) ∧ size (p_tasks demo_running) = 2.
Proof.
  split; [exact (proj1 (pool_indexes_consistent demo_running demo_running_reachable))|].
  vm_compute. reflexivity.
Defined.

Lemma pool_statistics_exact_witness :
  st_running (p_statistics demo_running) = 1%N ∧
  st_running (p_statistics demo_running) =
    N.of_nat (size (filter (λ e, r_status e.2 = Running) (p_tasks demo_running))).
Proof.
  split; [vm_compute; reflexivity|].
  refine (pool_statistics_exact demo_running Running demo_running_reachable _). discriminate.
Defined.

Lemma pool_lifecycle_witness :
  (∃ r, p_tasks demo_submitted !! "a" = Some r ∧ rtc record_step r (demo_record demo_running "a")) ∨
  (p_tasks demo_submitted !! "a" = None ∧ "a" ∉ p_evicted_task_ids demo_submitted ∧
   r_status (demo_record demo_running "a") = Ready ∧
   r_attempt_generation (demo_record demo_running "a") = 0%N ∧ r_lease (demo_record demo_running "a") = None).
Proof.
  refine (pool_lifecycle demo_submitted demo_claim demo_running "a" _ demo_submitted_reachable
    (demo_claim_pre _) _ _); vm_compute; reflexivity.
Defined.

Lemma terminal_records_final_witness :
  p_tasks (after (OpReclaim 9) demo_done) !! "a" = Some (demo_record demo_done "a") ∨
  p_tasks (after (OpReclaim 9) demo_done) !! "a" = None.
Proof.
  refine (terminal_records_final demo_done (OpReclaim 9) _ "a" _ demo_done_reachable I _ _ _);
    vm_compute; reflexivity.
Defined.

Lemma leased_ops_fenced_witness :
  ∃ result p', run_leased LDefer demo_lease 7 demo_running = Some (result, p') ∧
    (result = Ok tt ↔ ∃ r, p_tasks demo_running !! "a" = Some r ∧ r_status r = Running ∧
       r_lease r = Some demo_lease ∧ task_lease_expired demo_lease 7 = false) ∧
    ∀ e, result = Err e → p' = demo_running ∧
      (e_code e = ERR_TASK_NOT_FOUND ∨ e_code e = ERR_TASK_CLAIM_CONFLICT).
Proof. exact (leased_ops_fenced demo_running LDefer demo_lease 7 demo_running_reachable). Defined.

Lemma leased_ops_effect_witness :
  ∃ r, p_tasks demo_running !! "a" = Some r ∧
    p_tasks demo_done ⊆ p_tasks (with_record "a" (leased_record (LComplete demo_output) 2 r) demo_running).
Proof.
  destruct (leased_ops_effect demo_running (LComplete demo_output) demo_lease 2 demo_done
    demo_running_reachable ltac:(vm_compute; reflexivity)) as (r & Hr & Hsub & _).
  exists r. split; [exact Hr|exact Hsub].
Defined.

Lemma demo_deferred_kept : kept "a" demo_deferred demo_deferred.
Proof. apply kept_refl. vm_compute. by eexists. Qed.

Lemma demo_deferred_reachable : reachable demo_deferred.
Proof.
  eapply (reachable_step demo_running (OpLeased LDefer demo_lease 2));
    [apply demo_running_reachable|done|vm_compute; reflexivity].
Qed.

Lemma stale_lease_rejected_witness :
  ∃ e, ensure_active_lease demo_deferred "a" demo_lease 2 "complete" = Err e ∧
       e_code e = ERR_TASK_CLAIM_CONFLICT.
Proof.
  refine (stale_lease_rejected "a" demo_deferred demo_deferred (demo_record demo_deferred "a") demo_lease 2
    "complete" demo_deferred_reachable _ _ _ demo_deferred_kept _).
  - vm_compute. reflexivity.
  - vm_compute. discriminate.
  - vm_compute. discriminate.
  - intros r' Hr'. vm_compute in Hr'. injection Hr' as <-. vm_compute. reflexivity.
Defined.

Lemma lease_iff_running_witness :
  (r_status (demo_record demo_running "a") = Running ↔ is_Some (r_lease (demo_record demo_running "a"))) ∧
  l_task_id demo_lease = "a".
Proof.
  destruct (lease_iff_running demo_running "a" (demo_record demo_running "a") demo_running_reachable
    ltac:(vm_compute; reflexivity)) as [H1 H2].
  split; [exact H1|]. exact (proj1 (H2 demo_lease ltac:(vm_compute; reflexivity))).
Defined.

Lemma waits_mirrored_witness :
  wait_mem (p_waits_by_child demo_waiting) "b" demo_await ∧
  p_waits_by_parent demo_waiting !! "a" = Some [demo_await].
Proof.
  assert (wait_mem (p_waits_by_child demo_waiting) "b" demo_await) as H.
  { exists [demo_await]. split; [vm_compute; reflexivity|]. apply list_elem_of_singleton. reflexivity. }
  split; [exact H|].
  exact (proj1 (proj2 (proj2 (proj1 (waits_mirrored demo_waiting demo_waiting_reachable) "b" demo_await H)))).
Defined.

Lemma wait_on_task_correct_witness :
  ∃ r p', p_tasks demo_running !! "a" = Some r ∧
    wait_on_task demo_lease 2 demo_await demo_running = Some (Ok tt, p') ∧
    p_waits_by_parent p' !! "a" = Some [demo_await].
Proof.
  pose proof (wait_on_task_correct demo_running demo_lease 2 demo_await demo_running_reachable) as H.
  replace (validate_wait_on_task demo_running demo_lease 2 demo_await) with (Ok tt : RuntimeResult unit) in H
    by (vm_compute; reflexivity).
  rewrite decide_True in H by reflexivity.
  destruct H as (r & p' & Hr & Hrun & _ & _ & Hw). exists r, p'. split; [exact Hr|]. split; [exact Hrun|exact Hw].
Defined.

Lemma take_waits_delivers_witness :
  ∃ p', take_waits_for_child "b" demo_waiting = Some ([demo_await], p') ∧ p_waits_by_child p' !! "b" = None.
Proof.
  destruct (take_waits_delivers demo_waiting "b" demo_waiting_reachable) as (p' & Hrun & Hc & _).
  exists p'. split; [exact Hrun|]. rewrite Hc. apply lookup_delete_eq.
Defined.

Lemma wake_due_tasks_exact_witness :
  ∃ due p', wake_due_tasks 4 demo_waiting = Some (due, p') ∧ ("a", 4%N) ∈ due.
Proof.
  destruct (wake_due_tasks_exact demo_waiting 4 demo_waiting_reachable ltac:(vm_compute; reflexivity))
    as (due & p' & Hrun & Hdue & _).
  exists due, p'. split; [exact Hrun|]. apply Hdue. exists (demo_record demo_waiting "a").
  split; [vm_compute; reflexivity|]. split; [left; vm_compute; reflexivity|].
  split; [vm_compute; reflexivity|]. vm_compute. discriminate.
Defined.

Lemma reclaim_exact_witness :
  ∃ leases p', reclaim_expired_task_leases 5 demo_running = Some (leases, p') ∧ demo_lease ∈ leases.
Proof.
  destruct (reclaim_exact demo_running 5 demo_running_reachable) as (leases & p' & Hrun & Hl & _).
  exists leases, p'. split; [exact Hrun|]. apply Hl. exists "a", (demo_record demo_running "a").
  split; [vm_compute; reflexivity|]. split; vm_compute; reflexivity.
Defined.

(** Two entries may be taken, but only one of the lane the demo tasks are in. *)
Definition demo_budget : DispatchBudget :=
  MkDispatchBudget 2 1 1000 {[ t_dispatch_lane (demo_task "a") := MkLaneBudget 1 ]}.

Lemma claim_correct_witness :
  ∃ C l p', claim_ready_for_executor_with_budget demo_runner "executor" 1 0 5 (Some demo_budget) (Some 5%N) demo_submitted =
      Some ((λ r, ((claim_record demo_runner "executor" 1 0 (Some 5%N) r).1,
                   r_task (claim_record demo_runner "executor" 1 0 (Some 5%N) r).2)) <$> l, p') ∧
    demo_record demo_submitted "b" ∈ C ∧
    greedy (within_budget demo_budget demo_submitted) 2 [] C l ∧ len l = 1%N.
Proof.
  destruct (claim_correct demo_submitted demo_runner "executor" 1 0 5 (Some demo_budget) (Some 5%N) demo_submitted_reachable
    demo_protocols_distinct ltac:(by vm_compute) demo_expiry_u64) as (C & l & p' & Hrun & HC & _ & _ & (Hl & _) & _).
  exists C, l, p'. split; [exact Hrun|]. split.
  { apply HC. split; [vm_compute; reflexivity|]. split; [|vm_compute; reflexivity].
    unfold eligible. split_and!; [vm_compute; reflexivity|by apply list_elem_of_singleton; vm_compute|
      vm_compute; reflexivity|vm_compute; reflexivity|vm_compute; discriminate]. }
  rewrite decide_False in Hl by (intros [?|[?|?]]; discriminate). split; [exact Hl|].
  apply (f_equal (λ o, match o with Some (leased, _) => len leased | None => 0%N end)) in Hrun. unfold len in *.
  rewrite length_fmap in Hrun. rewrite <-Hrun. vm_compute. reflexivity.
Defined.

Lemma enqueue_correct_witness :
  ∃ r p', enqueue_at (demo_task "c") 3 demo_running = Some (Ok "c", p') ∧
    p_tasks p' = <["c" := r]> (p_tasks demo_running) ∧ t_created_sequence (r_task r) = 3%N.
Proof.
  pose proof (enqueue_correct demo_running (demo_task "c") 3 "x" demo_running_reachable
    ltac:(vm_compute; reflexivity) ltac:(vm_compute; reflexivity) ltac:(vm_compute; reflexivity)) as H.
  rewrite decide_False in H.
  - destruct H as (r & p' & Hrun & Ht & _ & _ & _ & Htask & _). exists r, p'.
    split; [exact Hrun|]. split; [exact Ht|]. rewrite Htask. vm_compute. reflexivity.
  - intros [H'|H']; apply (bool_decide_pack _) in H'; vm_compute in H'; exact H'.
Defined.

Lemma abort_all_final_witness :
  ∃ aborted p', abort_all 3 (runtime_error ERR_RUNTIME_ABORTED "host" "stop") demo_waiting = Some (aborted, p') ∧
    "a" ∈ aborted ∧ p_waits_by_parent p' = ∅.
Proof.
  destruct (abort_all_final demo_waiting 3 (runtime_error ERR_RUNTIME_ABORTED "host" "stop")
    demo_waiting_reachable) as (aborted & p' & Hrun & _ & Hin & _ & Hw & _).
  exists aborted, p'. split; [exact Hrun|]. split; [|exact Hw]. apply Hin.
  exists (demo_record demo_waiting "a"). split; vm_compute; reflexivity.
Defined.

Lemma configure_history_bounds_witness :
  (∃ p', configure_history_retention (Some (MkTaskHistoryRetention 0 1)) demo_done = Some (tt, p') ∧
     (len (p_evicted_task_order p') ≤ 1)%N) ∧
  p_tasks (after (OpConfigureHistory (Some (MkTaskHistoryRetention 0 1))) demo_done) !! "a" = None.
Proof.
  split; [|vm_compute; reflexivity].
  destruct (configure_history_bounds demo_done (MkTaskHistoryRetention 0 1) demo_done_reachable)
    as (p' & Hrun & _ & _ & _ & Hlen & _).
  exists p'. split; [exact Hrun|exact Hlen].
Defined.

Definition demo_retained : TaskPool :=
  after (OpConfigureHistory (Some (MkTaskHistoryRetention 4 2))) demo_done.

Lemma demo_retained_reachable : reachable demo_retained.
Proof.
  eapply (reachable_step demo_done (OpConfigureHistory (Some (MkTaskHistoryRetention 4 2))));
    [apply demo_done_reachable|done|vm_compute; reflexivity].
Qed.

Lemma history_exact_witness :
  p_terminal_order demo_retained = ["a"] ∧ NoDup (p_terminal_order demo_retained).
Proof.
  split; [vm_compute; reflexivity|].
  exact (proj1 (history_exact demo_retained (MkTaskHistoryRetention 4 2) demo_retained_reachable
    ltac:(vm_compute; reflexivity))).
Defined.

Lemma running_index_exact_witness :
  running_count_for_runner demo_running "core.kernel" = 1%N ∧
  ("a" ∈ flatten_ids (running_task_ids demo_running "core.kernel") ↔
   ∃ r, p_tasks demo_running !! "a" = Some r ∧ r_status r = Running ∧ r_claimed_by r = Some "core.kernel").
Proof.
  split; [vm_compute; reflexivity|].
  exact (proj1 (running_index_exact demo_running "core.kernel" demo_running_reachable) "a").
Defined.

Lemma next_required_step_least_witness :
  next_required_step_after demo_running 2 = Some 5%N ∧
  ∃ id r, p_tasks demo_running !! id = Some r ∧ alarm r = Some 5%N.
Proof.
  pose proof (next_required_step_least demo_running 2 demo_running_reachable) as H.
  assert (next_required_step_after demo_running 2 = Some 5%N) as E by (vm_compute; reflexivity).
  rewrite E in H. split; [exact E|]. exact (proj1 (proj2 H)).
Defined.
