(* ===== verification/TaskOccupancy.v ===== *)
(** * Occupancy of contract surfaces by tasks

    Which surfaces the live tasks of a pool use
    (crates/mutsuki-runtime-core/src/task_pool/occupancy.rs). *)

From S2P Require Import Prelude Contracts RunnerContracts PluginContracts TaskRecords TaskIndexes TaskPool.

Section TaskOccupancy.
Context `{SJ : SerdeJson}.

Definition is_effect (task : Task) (protocol_classes : gmap string ProtocolClass) : bool :=
  bool_decide (protocol_classes !! t_protocol_id task = Some ProtocolEffect).

Definition surface_ids_for_task (task : Task) (protocol_classes : gmap string ProtocolClass) : list string :=
  let surface_ids := t_required_surfaces task ++ ["task_protocol:" +:+ t_protocol_id task] in
  let surface_ids :=
    if is_effect task protocol_classes
    then surface_ids ++ ["effect:" +:+ t_protocol_id task] else surface_ids in
  let surface_ids :=
    match t_runner_hint task with
    | Some runner_hint => surface_ids ++ ["runner:" +:+ runner_hint]
    | None => surface_ids
    end in
  dedup (sort_strings surface_ids).

(** What one record adds to the item of a surface it uses. *)
Definition occupy (record : TaskRecord) (effect : bool) (entry : SurfaceOccupancy) : SurfaceOccupancy :=
  let add_effect entry :=
    if effect then entry <| so_effect_inflight := (so_effect_inflight entry + 1)%N |> else entry in
  match r_status record with
  | Ready => add_effect (entry <| so_ready_tasks := (so_ready_tasks entry + 1)%N |>)
  | Running | Waiting => add_effect (entry <| so_running_invocations := (so_running_invocations entry + 1)%N |>)
  | _ => entry
  end.

Definition occupy_surface (record : TaskRecord) (effect : bool) (occupancy : gmap string SurfaceOccupancy)
    (surface_id : string) : gmap string SurfaceOccupancy :=
  <[ surface_id := occupy record effect (unwrap_or (occupancy !! surface_id) (zero_occupancy surface_id)) ]> occupancy.

Definition occupy_record (protocol_classes : gmap string ProtocolClass) (occupancy : gmap string SurfaceOccupancy)
    (record : TaskRecord) : gmap string SurfaceOccupancy :=
  foldl (occupy_surface record (is_effect (r_task record) protocol_classes)) occupancy
    (surface_ids_for_task (r_task record) protocol_classes).

Definition task_surface_occupancy (p : TaskPool) (protocol_classes : gmap string ProtocolClass) : list SurfaceOccupancy :=
  sort_by_str so_surface_id
    (snd <$> map_to_list (foldl (occupy_record protocol_classes) ∅ (snd <$> map_to_list (p_tasks p)))).

(** ** The items count the live tasks of each surface *)

Lemma elem_of_dedup {A} `{EqDecision A} (l : list A) x : x ∈ dedup l ↔ x ∈ l.
Proof.
  induction l as [|y l IH]; [done|]. cbn. destruct (dedup l) as [|z k].
  - assert (¬ x ∈ l) by (rewrite <-IH; set_solver). set_solver.
  - case_decide; set_solver.
Qed.

(** After a sort, [dedup] leaves no duplicates at all. *)
Lemma NoDup_dedup_sorted l : StronglySorted String.le l → NoDup (dedup l).
Proof.
  induction 1 as [|y l Hs IH Hall]; [constructor|]. cbn. destruct (dedup l) as [|z k] eqn:Hd; [apply NoDup_singleton|].
  case_decide as Hyz; [done|]. apply NoDup_cons. split; [|done]. intros Hin.
  assert (∀ x, x ∈ z :: k → x ∈ l) as Hsub by (intros x; rewrite <-Hd; apply elem_of_dedup).
  assert (∀ x, x ∈ z :: k → String.le z x) as Hmin.
  { intros x Hx. apply elem_of_cons in Hx as [->|Hx]; [reflexivity|].
    clear -Hs Hd Hx. revert z k Hd Hx. induction Hs as [|w l Hs IH Hall]; intros z k; [done|].
    cbn. destruct (dedup l) as [|v k'] eqn:Hd'; [intros [= <- <-] Hx; by apply not_elem_of_nil in Hx|].
    case_decide as Hwv; intros [= <- <-] Hx; [by eapply IH|].
    rewrite Forall_forall in Hall. apply Hall. apply elem_of_dedup. by rewrite Hd'. }
  rewrite Forall_forall in Hall. apply Hyz. apply (anti_symm String.le); [by apply Hall, Hsub; set_solver|by apply Hmin].
Qed.

Definition uses (protocol_classes : gmap string ProtocolClass) (surface_id : string) (r : TaskRecord) : Prop :=
  surface_id ∈ surface_ids_for_task (r_task r) protocol_classes.

#[export] Instance uses_dec classes id r : Decision (uses classes id r).
Proof. unfold uses. apply _. Defined.

Lemma NoDup_surface_ids task classes : NoDup (surface_ids_for_task task classes).
Proof. apply NoDup_dedup_sorted, sort_strings_sorted. Qed.

Lemma occupy_surface_list_at r effect ids occ id :
  NoDup ids →
  foldl (occupy_surface r effect) occ ids !! id =
    if decide (id ∈ ids) then Some (occupy r effect (unwrap_or (occ !! id) (zero_occupancy id))) else occ !! id.
Proof.
  revert occ. induction ids as [|x ids IH]; intros occ Hnd; [done|]. apply NoDup_cons in Hnd as [Hx Hnd].
  cbn [foldl]. rewrite IH by done. unfold occupy_surface. destruct (decide (id = x)) as [->|Hne].
  - rewrite decide_False by done. rewrite decide_True by set_solver. apply lookup_insert_eq.
  - rewrite lookup_insert_ne by done. destruct (decide (id ∈ ids)); [by rewrite decide_True by set_solver|].
    by rewrite decide_False by set_solver.
Qed.

Lemma occupy_record_at classes occ r id :
  occupy_record classes occ r !! id =
    if decide (uses classes id r)
    then Some (occupy r (is_effect (r_task r) classes) (unwrap_or (occ !! id) (zero_occupancy id))) else occ !! id.
Proof.
  unfold occupy_record. rewrite occupy_surface_list_at by apply NoDup_surface_ids.
  unfold uses. by do 2 case_decide.
Qed.

Definition live_in (status_ok : TaskStatus → bool) (P : TaskRecord → Prop) `{∀ r, Decision (P r)} (l : list TaskRecord) : N :=
  len (filter (λ r, P r ∧ status_ok (r_status r) = true) l).

Definition is_ready (status : TaskStatus) : bool := match status with Ready => true | _ => false end.
Definition is_inflight (status : TaskStatus) : bool := match status with Running | Waiting => true | _ => false end.

Lemma live_in_snoc f P `{∀ r, Decision (P r)} l r :
  live_in f P (l ++ [r]) = (live_in f P l + if decide (P r) then if f (r_status r) then 1 else 0 else 0)%N.
Proof.
  unfold live_in. rewrite filter_app, len_app, filter_cons, filter_nil.
  destruct (decide (P r)), (f (r_status r)); case_decide as Hd; try (exfalso; naive_solver); done.
Qed.

Lemma task_occupancy_at classes id l :
  let item := unwrap_or (foldl (occupy_record classes) ∅ l !! id) (zero_occupancy id) in
  so_surface_id item = id ∧
  so_ready_tasks item = live_in is_ready (uses classes id) l ∧
  so_running_invocations item = live_in is_inflight (uses classes id) l ∧
  so_effect_inflight item =
    live_in (λ st, is_ready st || is_inflight st) (λ r, uses classes id r ∧ is_effect (r_task r) classes = true) l.
Proof.
  cbv zeta. induction l as [|r l IH] using rev_ind; [done|].
  rewrite foldl_snoc, !live_in_snoc, occupy_record_at.
  destruct IH as (H0 & H1 & H2 & H3). destruct (decide (uses classes id r)) as [Hu|Hu].
  - cbn [unwrap_or]. generalize dependent (unwrap_or (foldl (occupy_record classes) ∅ l !! id) (zero_occupancy id)).
    intros item H0 H1 H2 H3. unfold occupy. rewrite <-H1, <-H2, <-H3.
    destruct (is_effect (r_task r) classes);
      [rewrite decide_True by done|rewrite decide_False by naive_solver];
      destruct (r_status r); cbn -[N.add]; rewrite ?N.add_0_r; done.
  - rewrite (decide_False (P := uses classes id r ∧ _)) by naive_solver. rewrite !N.add_0_r. done.
Qed.
Lemma task_occupancy_present classes id l :
  is_Some (foldl (occupy_record classes) ∅ l !! id) ↔ ∃ r, r ∈ l ∧ uses classes id r.
Proof.
  induction l as [|r l IH] using rev_ind; [cbn; rewrite lookup_empty; split; [by intros []|set_solver]|].
  rewrite foldl_snoc, occupy_record_at. case_decide as Hu.
  - split; [intros _; exists r; set_solver|by eexists].
  - rewrite IH. set_solver.
Qed.

(** task occupancy is exact.  The report lists, ordered by surface id,
    exactly the surfaces some task of the pool uses, each once, with the number
    of its ready tasks, of its running or waiting tasks and of its live effect
    tasks. *)
Theorem task_occupancy_exact p classes :
  let items := task_surface_occupancy p classes in
  let records := snd <$> map_to_list (p_tasks p) in
  StronglySorted String.le (so_surface_id <$> items) ∧ NoDup (so_surface_id <$> items) ∧
  (∀ id, id ∈ so_surface_id <$> items ↔ ∃ k r, p_tasks p !! k = Some r ∧ uses classes id r) ∧
  (∀ item, item ∈ items → let id := so_surface_id item in
     so_ready_tasks item = live_in is_ready (uses classes id) records ∧
     so_running_invocations item = live_in is_inflight (uses classes id) records ∧
     so_effect_inflight item =
       live_in (λ st, is_ready st || is_inflight st)
         (λ r, uses classes id r ∧ is_effect (r_task r) classes = true) records).
Proof.
  cbv zeta. unfold task_surface_occupancy. set (records := snd <$> map_to_list (p_tasks p)).
  set (m := foldl (occupy_record classes) ∅ records).
  assert (∀ id item, m !! id = Some item → so_surface_id item = id) as Hid.
  { intros id item Hm. destruct (task_occupancy_at classes id records) as [H _]. fold m in H. by rewrite Hm in H. }
  assert (so_surface_id <$> (snd <$> map_to_list m) = (map_to_list m).*1) as Hkeys.
  { rewrite <-list_fmap_compose. apply list_fmap_ext. intros i [k x] Hk%list_elem_of_lookup_2.
    apply elem_of_map_to_list in Hk. cbn. by apply Hid. }
  assert (∀ l, so_surface_id <$> sort_by_str so_surface_id l ≡ₚ so_surface_id <$> l) as Hperm.
  { intros l. unfold sort_by_str. by rewrite stable_sort_Permutation. }
  split_and!.
  - apply sort_by_str_sorted.
  - rewrite Hperm, Hkeys. apply NoDup_fst_map_to_list.
  - intros id. rewrite Hperm, Hkeys, list_elem_of_fmap. transitivity (is_Some (m !! id)).
    + split; [intros ([k x] & -> & Hk%elem_of_map_to_list); by eexists|].
      intros [x Hx]. exists (id, x). by rewrite elem_of_map_to_list.
    + unfold m. rewrite task_occupancy_present. subst records. setoid_rewrite list_elem_of_fmap. split.
      * intros (r & ([k r'] & -> & Hk%elem_of_map_to_list) & Hu). eauto.
      * intros (k & r & Hk & Hu). exists r. split; [|done]. exists (k, r). by rewrite elem_of_map_to_list.
  - intros item Hin. apply elem_of_sort_by_str, list_elem_of_fmap in Hin as ([k x] & -> & Hk%elem_of_map_to_list).
    cbn [snd]. rewrite (Hid _ _ Hk). destruct (task_occupancy_at classes k records) as [_ H]. fold m in H.
    by rewrite Hk in H.
Qed.
End TaskOccupancy.
