(* ===== verification/Registry.v ===== *)
(** * Runner registry, load-plan validation and surface comparison

    crates/mutsuki-runtime-core/src/registry.rs.  A [HashMap] is iterated in the
    order of [map_to_list]; what the code returns from such an iteration is
    sorted, or a first error whose presence does not depend on the order. *)

From S2P Require Import Prelude Contracts RunnerContracts BatchContracts PluginContracts.

(** The runner traits (runner.rs).  Their implementations are plugin code, so
    the objects are parameters: a descriptor that does not change, the effect
    of [run_batch], [cancel] and [dispose] on the object, and for an async
    handler the result of [dispose] on its management handle, if it has one. *)
Class RunnerApi `{SJ : SerdeJson} : Type := {
  Runner : Type;
  runner_descriptor : Runner → RunnerDescriptor;
  runner_run_batch : RunnerContext → WorkBatch → Runner → RuntimeResult CompletionBatch * Runner;
  runner_cancel : string → Runner → RuntimeResult unit * Runner;
  runner_dispose : Runner → RuntimeResult unit * Runner;
  AsyncHandler : Type;
  handler_descriptor : AsyncHandler → RunnerDescriptor;
  handler_dispose : AsyncHandler → option (RuntimeResult unit)
}.

Record RunnerHeartbeat : Type := MkRunnerHeartbeat {
  hbt_runner_id : string;
  hbt_executor_id : string;
  hbt_last_seen_step : N
}.

Record RunnerCapabilityDeclaration : Type := MkRunnerCapabilityDeclaration {
  cap_runner_id : string;
  cap_protocol_ids : list string;
  cap_capacity : N
}.

Section Registry.
Context `{RA : RunnerApi}.

Record RunnerRegistry : Type := MkRunnerRegistry {
  reg_runners : gmap string (list Runner);
  reg_async_handlers : gmap string AsyncHandler;
  reg_descriptors : gmap string RunnerDescriptor;
  reg_descriptor_snapshot : list RunnerDescriptor;
  reg_heartbeats : gmap string RunnerHeartbeat;
  reg_capabilities : gmap string RunnerCapabilityDeclaration;
  reg_frozen : bool
}.

Definition RunnerRegistry_eta (r : RunnerRegistry) : RunnerRegistry :=
  {| reg_runners := reg_runners r; reg_async_handlers := reg_async_handlers r;
     reg_descriptors := reg_descriptors r; reg_descriptor_snapshot := reg_descriptor_snapshot r;
     reg_heartbeats := reg_heartbeats r; reg_capabilities := reg_capabilities r; reg_frozen := reg_frozen r |}.
#[export] Instance set_reg_runners : Setter reg_runners := ltac:(derive_setter RunnerRegistry_eta reg_runners).
#[export] Instance set_reg_async_handlers : Setter reg_async_handlers := ltac:(derive_setter RunnerRegistry_eta reg_async_handlers).
#[export] Instance set_reg_descriptors : Setter reg_descriptors := ltac:(derive_setter RunnerRegistry_eta reg_descriptors).
#[export] Instance set_reg_descriptor_snapshot : Setter reg_descriptor_snapshot := ltac:(derive_setter RunnerRegistry_eta reg_descriptor_snapshot).
#[export] Instance set_reg_heartbeats : Setter reg_heartbeats := ltac:(derive_setter RunnerRegistry_eta reg_heartbeats).
#[export] Instance set_reg_capabilities : Setter reg_capabilities := ltac:(derive_setter RunnerRegistry_eta reg_capabilities).
#[export] Instance set_reg_frozen : Setter reg_frozen := ltac:(derive_setter RunnerRegistry_eta reg_frozen).

Definition RunnerRegistry_default : RunnerRegistry :=
  {| reg_runners := ∅; reg_async_handlers := ∅; reg_descriptors := ∅; reg_descriptor_snapshot := [];
     reg_heartbeats := ∅; reg_capabilities := ∅; reg_frozen := false |}.

Definition normalized_descriptor (descriptor : RunnerDescriptor) : RunnerDescriptor :=
  descriptor <| d_accepted_protocol_ids := dedup (sort_strings (d_accepted_protocol_ids descriptor)) |>.

Definition duplicate_runner {A} (runner_id : string) : RuntimeResult A :=
  runtime_failure ERR_REGISTRY_UNAUTHORIZED "runtime.runner_registry" ("runner." +:+ runner_id +:+ ".duplicate").

Definition allowed_instances (descriptor : RunnerDescriptor) : N :=
  match d_concurrency descriptor with Sharded instances => instances | _ => 1 end.

Definition rebuild_descriptor_snapshot (self : RunnerRegistry) : RunnerRegistry :=
  self <| reg_descriptor_snapshot := sort_by_str d_runner_id (snd <$> map_to_list (reg_descriptors self)) |>.

(** [runners.entry(id).or_default()] runs before the instance check: the entry
    is there even when the check fails. *)
Definition register (runner : Runner) : M RunnerRegistry (RuntimeResult unit) :=
  let! self := get in
  if reg_frozen self then
    ret (runtime_failure ERR_REGISTRY_FROZEN "runtime.runner_registry" "runner.register")
  else
    let runner_id := d_runner_id (runner_descriptor runner) in
    let descriptor := normalized_descriptor (runner_descriptor runner) in
    if bool_decide (is_Some (reg_async_handlers self !! runner_id)) then ret (duplicate_runner runner_id)
    else if is_some_and (reg_descriptors self !! runner_id)
              (λ existing, negb (RunnerDescriptor_eqb existing descriptor))
    then ret (duplicate_runner runner_id)
    else
      let runners := unwrap_or (reg_runners self !! runner_id) [] in
      if decide (allowed_instances descriptor ≤ len runners)%N then
        put (self <| reg_runners := <[ runner_id := runners ]> (reg_runners self) |>) ;;!
        ret (duplicate_runner runner_id)
      else
        put (rebuild_descriptor_snapshot
               (self <| reg_runners := <[ runner_id := runners ++ [runner] ]> (reg_runners self) |>
                     <| reg_descriptors := <[ runner_id := descriptor ]> (reg_descriptors self) |>)) ;;!
        ret (Ok tt).

Definition is_async_mode (mode : InvocationMode) : bool :=
  match mode with AsyncReentrant | AsyncExclusive => true | _ => false end.

Definition register_async_handler (handler : AsyncHandler) : M RunnerRegistry (RuntimeResult unit) :=
  let! self := get in
  if reg_frozen self then
    ret (runtime_failure ERR_REGISTRY_FROZEN "runtime.runner_registry" "async_handler.register")
  else
    let descriptor := normalized_descriptor (handler_descriptor handler) in
    let runner_id := d_runner_id descriptor in
    if bool_decide (is_Some (reg_descriptors self !! runner_id))
       || bool_decide (is_Some (reg_runners self !! runner_id))
       || bool_decide (is_Some (reg_async_handlers self !! runner_id))
    then ret (duplicate_runner runner_id)
    else if negb (is_async_mode (d_invocation_mode descriptor)) then
      ret (runtime_failure ERR_REGISTRY_UNAUTHORIZED "runtime.runner_registry"
             ("runner." +:+ runner_id +:+ ".async_invocation_mode"))
    else
      put (rebuild_descriptor_snapshot
             (self <| reg_descriptors := <[ runner_id := descriptor ]> (reg_descriptors self) |>
                   <| reg_async_handlers := <[ runner_id := handler ]> (reg_async_handlers self) |>)) ;;!
      ret (Ok tt).

Definition unregister (runner_id : string) : M RunnerRegistry (RuntimeResult (option Runner)) :=
  let! self := get in
  if reg_frozen self then
    ret (runtime_failure ERR_REGISTRY_FROZEN "runtime.runner_registry" ("runner.unregister." +:+ runner_id))
  else
    let self :=
      rebuild_descriptor_snapshot
        (self <| reg_heartbeats := delete runner_id (reg_heartbeats self) |>
              <| reg_capabilities := delete runner_id (reg_capabilities self) |>
              <| reg_async_handlers := delete runner_id (reg_async_handlers self) |>
              <| reg_descriptors := delete runner_id (reg_descriptors self) |>) in
    put (self <| reg_runners := delete runner_id (reg_runners self) |>) ;;!
    ret (Ok (reg_runners self !! runner_id ≫= last)).

Definition freeze : M RunnerRegistry unit := modify (λ self, self <| reg_frozen := true |>).

Definition actual_instances (self : RunnerRegistry) (runner_id : string) : N :=
  match reg_runners self !! runner_id with
  | Some runners => len runners
  | None => if bool_decide (is_Some (reg_async_handlers self !! runner_id)) then 1 else 0
  end.

Definition validate_instances (self : RunnerRegistry) (descriptor : RunnerDescriptor) : RuntimeResult unit :=
  let expected := allowed_instances descriptor in
  let actual := actual_instances self (d_runner_id descriptor) in
  if decide (actual ≠ expected) then
    runtime_failure ERR_REGISTRY_UNAUTHORIZED "runtime.runner_registry"
      ("runner." +:+ d_runner_id descriptor +:+ ".instances." +:+ pretty actual +:+ ".expected." +:+ pretty expected)
  else Ok tt.

(** [for x in l { check(x)?; }] of a check that only reads. *)
Fixpoint check_all {A} (check : A → RuntimeResult unit) (l : list A) : RuntimeResult unit :=
  match l with
  | [] => Ok tt
  | x :: l => letr? _ := check x in check_all check l
  end.

Definition validate_instance_counts (self : RunnerRegistry) : RuntimeResult unit :=
  check_all (validate_instances self) (snd <$> map_to_list (reg_descriptors self)).

Definition heartbeat (runner_id executor_id : string) (current_step : N) :
    M RunnerRegistry (RuntimeResult RunnerHeartbeat) :=
  let! self := get in
  match reg_descriptors self !! runner_id with
  | None => ret (runtime_failure ERR_RUNNER_NOT_FOUND "runtime.runner_registry" ("runner.heartbeat." +:+ runner_id))
  | Some _ =>
      let heartbeat := MkRunnerHeartbeat runner_id executor_id current_step in
      put (self <| reg_heartbeats := <[ runner_id := heartbeat ]> (reg_heartbeats self) |>) ;;!
      ret (Ok heartbeat)
  end.

Definition declare_capability (runner_id : string) (protocol_ids : list string) (capacity : N) :
    M RunnerRegistry (RuntimeResult RunnerCapabilityDeclaration) :=
  let! self := get in
  match reg_descriptors self !! runner_id with
  | None => ret (runtime_failure ERR_RUNNER_NOT_FOUND "runtime.runner_registry" ("runner.capability." +:+ runner_id))
  | Some descriptor =>
      let authorized := d_accepted_protocol_ids descriptor in
      if existsb (λ protocol_id, negb (bool_decide (protocol_id ∈ authorized))) protocol_ids then
        ret (runtime_failure ERR_REGISTRY_UNAUTHORIZED "runtime.runner_registry" ("runner.capability." +:+ runner_id))
      else
        let declaration := MkRunnerCapabilityDeclaration runner_id protocol_ids capacity in
        put (self <| reg_capabilities := <[ runner_id := declaration ]> (reg_capabilities self) |>) ;;!
        ret (Ok declaration)
  end.

(** [Vec::pop] *)
Definition pop {A} (l : list A) : option A * list A := (last l, take (length l - 1) l).

Definition take_runner (runner_id : string) : M RunnerRegistry (option Runner) :=
  let! self := get in
  match reg_runners self !! runner_id with
  | None => ret None
  | Some runners =>
      let '(runner, rest) := pop runners in
      put (self <| reg_runners := <[ runner_id := rest ]> (reg_runners self) |>) ;;! ret runner
  end.

Definition put_runner (runner : Runner) : M RunnerRegistry unit :=
  let! self := get in
  let runner_id := d_runner_id (runner_descriptor runner) in
  let runners := unwrap_or (reg_runners self !! runner_id) [] in
  put (self <| reg_runners := <[ runner_id := runners ++ [runner] ]> (reg_runners self) |>).

Definition cancel_runner (runner_id invocation_id : string) : M RunnerRegistry (RuntimeResult unit) :=
  let! self := get in
  match reg_runners self !! runner_id ≫= last with
  | None => ret (runtime_failure ERR_RUNNER_NOT_FOUND "runtime.runner_registry" ("runner.cancel." +:+ runner_id))
  | Some runner =>
      let '(result, runner') := runner_cancel invocation_id runner in
      let runners := unwrap_or (reg_runners self !! runner_id) [] in
      put (self <| reg_runners := <[ runner_id := (pop runners).2 ++ [runner'] ]> (reg_runners self) |>) ;;!
      ret result
  end.

Definition runner_ids (self : RunnerRegistry) : list string := d_runner_id <$> reg_descriptor_snapshot self.

Definition async_handler (self : RunnerRegistry) (runner_id : string) : option AsyncHandler :=
  reg_async_handlers self !! runner_id.

Definition registry_descriptor (self : RunnerRegistry) (runner_id : string) : option RunnerDescriptor :=
  reg_descriptors self !! runner_id.

(** ** Disposal

    [dispose_all] walks the runner objects and the handlers in the order of
    their [HashMap]s and stops at the first error; the runners reached by then
    have been disposed. *)

Fixpoint dispose_runners (runners : list Runner) : RuntimeResult (list string) * list Runner :=
  match runners with
  | [] => (Ok [], [])
  | runner :: rest =>
      let '(result, runner) := runner_dispose runner in
      match result with
      | Err e => (Err e, runner :: rest)
      | Ok _ =>
          let '(disposed, rest) := dispose_runners rest in
          (letr? ids := disposed in Ok (d_runner_id (runner_descriptor runner) :: ids), runner :: rest)
      end
  end.

Fixpoint dispose_runner_lists (entries : list (string * list Runner)) : M RunnerRegistry (RuntimeResult (list string)) :=
  match entries with
  | [] => ret (Ok [])
  | (runner_id, runners) :: entries =>
      let '(disposed, runners) := dispose_runners runners in
      modify (λ self, self <| reg_runners := <[ runner_id := runners ]> (reg_runners self) |>) ;;!
      match disposed with
      | Err e => ret (Err e)
      | Ok ids => let? rest := dispose_runner_lists entries in ret (Ok (ids ++ rest))
      end
  end.

Fixpoint dispose_handlers (handlers : list AsyncHandler) : RuntimeResult (list string) :=
  match handlers with
  | [] => Ok []
  | handler :: handlers =>
      letr? _ := match handler_dispose handler with Some result => result | None => Ok tt end in
      letr? ids := dispose_handlers handlers in
      Ok (d_runner_id (handler_descriptor handler) :: ids)
  end.

Definition dispose_all : M RunnerRegistry (RuntimeResult (list string)) :=
  let! self := get in
  let? runners := dispose_runner_lists (map_to_list (reg_runners self)) in
  let! self := get in
  ret (letr? handlers := dispose_handlers (snd <$> map_to_list (reg_async_handlers self)) in
       Ok (runners ++ handlers)).
End Registry.

(** ** Plugin generations *)

Inductive PluginGenerationPhase : Type := ShadowStarting | PhaseActive | PhaseDraining | Disposed.

#[export] Instance PluginGenerationPhase_eq_dec : EqDecision PluginGenerationPhase.
Proof. solve_decision. Defined.

Record PluginGenerationState : Type := MkPluginGenerationState {
  pgs_plugin_id : string;
  pgs_generation : N;
  pgs_phase : PluginGenerationPhase
}.

(** ** Handler bindings *)

Record HandlerBindingRegistry : Type := MkHandlerBindingRegistry {
  hbr_bindings : list HandlerBinding
}.

(** The comparator of [sort_bindings]: by protocol, then by falling priority,
    then by binding id. *)
Definition binding_le (a b : HandlerBinding) : Prop :=
  (hb_protocol_id a ≠ hb_protocol_id b ∧ String.le (hb_protocol_id a) (hb_protocol_id b)) ∨
  (hb_protocol_id a = hb_protocol_id b ∧
   ((hb_priority b < hb_priority a)%Z ∨
    (hb_priority a = hb_priority b ∧ String.le (hb_binding_id a) (hb_binding_id b)))).

#[export] Instance binding_le_dec : RelDecision binding_le.
Proof. unfold binding_le. intros a b. apply _. Defined.

Definition sort_bindings (bindings : list HandlerBinding) : list HandlerBinding := stable_sort binding_le bindings.

Definition from_load_plan `{SJ : SerdeJson} (load_plan : RuntimeLoadPlan) : HandlerBindingRegistry :=
  MkHandlerBindingRegistry
    (sort_bindings (flat_map (λ plugin, pv_handler_bindings (pm_provides plugin)) (plan_plugins load_plan))).

Definition query_protocol (self : HandlerBindingRegistry) (protocol_id : string) : list HandlerBinding :=
  filter (λ binding, hb_protocol_id binding = protocol_id) (hbr_bindings self).

Definition register_authorized (binding : HandlerBinding) (self : HandlerBindingRegistry) : HandlerBindingRegistry :=
  if existsb (λ existing, bool_decide (hb_binding_id existing = hb_binding_id binding)) (hbr_bindings self)
  then self
  else MkHandlerBindingRegistry (sort_bindings (hbr_bindings self ++ [binding])).

(** ** Load-plan validation *)

Section Validation.
Context `{SJ : SerdeJson}.

Definition unauthorized {A} (source route : string) : RuntimeResult A :=
  runtime_failure ERR_REGISTRY_UNAUTHORIZED source route.

Definition planned_runners (load_plan : RuntimeLoadPlan) : list RunnerDescriptor :=
  flat_map (λ plugin, pv_runners (pm_provides plugin)) (plan_plugins load_plan).

Definition planned_bindings (load_plan : RuntimeLoadPlan) : list HandlerBinding :=
  flat_map (λ plugin, pv_handler_bindings (pm_provides plugin)) (plan_plugins load_plan).

(** [plugins.iter().find_map(|p| p.provides.protocol_classes.get(id))] *)
Fixpoint find_protocol_class (plugins : list PluginManifest) (protocol_id : string) : option ProtocolClass :=
  match plugins with
  | [] => None
  | plugin :: plugins =>
      match pv_protocol_classes (pm_provides plugin) !! protocol_id with
      | Some class => Some class
      | None => find_protocol_class plugins protocol_id
      end
  end.

Definition matches_purity (purity : RunnerPurity) (class : ProtocolClass) : bool :=
  match purity, class with
  | Pure, ProtocolDomain => true
  | Effectful, ProtocolEffect => true
  | Committer, ProtocolCore => true
  | Committer, ProtocolControl => true
  | _, _ => false
  end.

Definition validate_protocol_class (load_plan : RuntimeLoadPlan) (runner : RunnerDescriptor) (protocol_id : string) :
    RuntimeResult unit :=
  let route := "runner." +:+ d_runner_id runner +:+ ".protocol." +:+ protocol_id in
  match find_protocol_class (plan_plugins load_plan) protocol_id with
  | None => unauthorized "runtime.load_plan.protocol_class" (route +:+ ".unknown")
  | Some class =>
      if negb (matches_purity (d_purity runner) class)
         || (bool_decide (class = ProtocolControl) && bool_decide (d_execution_class runner ≠ ClassControl))
      then unauthorized "runtime.load_plan.protocol_class" (route +:+ ".purity_conflict")
      else Ok tt
  end.

Definition validate_runner_protocol_classes (load_plan : RuntimeLoadPlan) (runner : RunnerDescriptor) : RuntimeResult unit :=
  check_all (validate_protocol_class load_plan runner) (d_accepted_protocol_ids runner).

Definition batch_invalid (runner : RunnerDescriptor) : bool :=
  let batch := d_batch runner in
  let declared_batches := max_inflight_batches (d_concurrency runner) in
  let declared_entries := max_inflight_entries (d_concurrency runner) (bc_max_batch_entries batch) in
  bool_decide (bc_preferred_batch_size batch = 0%N)
  || bool_decide (bc_max_batch_entries batch = 0%N)
  || bool_decide (bc_max_entry_concurrency batch = 0%N)
  || bool_decide (bc_max_inflight_batches batch = 0%N)
  || bool_decide (bc_max_inflight_batches batch ≠ declared_batches)
  || bool_decide (declared_batches = 0%N)
  || bool_decide (declared_entries = 0%N)
  || bool_decide (bc_max_batch_entries batch < bc_preferred_batch_size batch)%N
  || bool_decide (bc_max_batch_entries batch < bc_max_entry_concurrency batch)%N.

Definition invocation_matches_concurrency (mode : InvocationMode) (concurrency : RunnerConcurrency) : bool :=
  match mode, concurrency with
  | SyncExclusive, Exclusive => true
  | SyncExclusive, Sharded _ => true
  | AsyncExclusive, Exclusive => true
  | AsyncReentrant, Reentrant _ _ => true
  | ExternalProcess, Exclusive => true
  | ExternalProcess, Sharded _ => true
  | _, _ => false
  end.

Definition payload_invalid (payload : RunnerPayloadCapability) : bool :=
  bool_decide (pc_layouts payload = [])
  || negb (bool_decide (pc_preferred_layout payload ∈ pc_layouts payload))
  || negb (bool_decide (LayoutRow ∈ pc_layouts payload)).

Definition validate_runner_batch_capabilities (runner : RunnerDescriptor) : RuntimeResult unit :=
  let route suffix := "runner." +:+ d_runner_id runner +:+ suffix in
  if batch_invalid runner then unauthorized "runtime.load_plan" (route ".batch")
  else if negb (invocation_matches_concurrency (d_invocation_mode runner) (d_concurrency runner)) then
    unauthorized "runtime.load_plan" (route ".concurrency")
  else if payload_invalid (d_payload runner) then unauthorized "runtime.load_plan" (route ".payload")
  else
    match oc_default (d_ordering runner) with
    | StrictSequence _ =>
        if negb (oc_supports_sequence (d_ordering runner))
        then unauthorized "runtime.load_plan" (route ".ordering.sequence") else Ok tt
    | SameResourceOrder _ =>
        if negb (oc_supports_same_resource_order (d_ordering runner))
        then unauthorized "runtime.load_plan" (route ".ordering.resource") else Ok tt
    | _ => Ok tt
    end.

Definition validate_runner_privilege (runner : RunnerDescriptor) : RuntimeResult unit :=
  if bool_decide (d_purity runner = Committer) && bool_decide (d_runner_id runner ≠ "core.kernel") then
    unauthorized "runtime.load_plan" ("runner." +:+ d_runner_id runner +:+ ".committer")
  else if bool_decide (d_execution_class runner = ClassControl) && bool_decide (d_runner_id runner ≠ "core.kernel") then
    unauthorized "runtime.load_plan" ("runner." +:+ d_runner_id runner +:+ ".control")
  else validate_runner_batch_capabilities runner.

Definition runner_accepts_protocol (runner : RunnerDescriptor) (protocol_id : string) : bool :=
  bool_decide (protocol_id ∈ d_accepted_protocol_ids runner).

Definition validate_handler_binding (runners : list RunnerDescriptor) (binding : HandlerBinding) : RuntimeResult unit :=
  let route := "handler_binding." +:+ hb_binding_id binding in
  let target := hb_target_protocol_id binding in
  if negb (existsb (λ runner, runner_accepts_protocol runner target) runners) then
    unauthorized "runtime.load_plan" (route +:+ ".target_protocol_id." +:+ target)
  else
    match hb_target_runner_hint binding with
    | None => Ok tt
    | Some runner_hint =>
        match List.find (λ runner, bool_decide (d_runner_id runner = runner_hint)) runners with
        | None => unauthorized "runtime.load_plan" (route +:+ ".target_runner_hint." +:+ runner_hint)
        | Some runner =>
            if negb (runner_accepts_protocol runner target) then
              unauthorized "runtime.load_plan"
                (route +:+ ".target_runner_hint." +:+ runner_hint +:+ ".target_protocol_id." +:+ target)
            else Ok tt
        end
    end.

Definition validate_handler_bindings (load_plan : RuntimeLoadPlan) : RuntimeResult unit :=
  check_all (validate_handler_binding (planned_runners load_plan)) (planned_bindings load_plan).

Definition validate_planned_runner (load_plan : RuntimeLoadPlan) (runner : RunnerDescriptor) : RuntimeResult unit :=
  letr? _ := validate_runner_privilege runner in
  validate_runner_protocol_classes load_plan runner.

Definition validate_runtime_runner (load_plan : RuntimeLoadPlan) (runner : RunnerDescriptor) : RuntimeResult unit :=
  match List.find (λ planned, bool_decide (d_runner_id planned = d_runner_id runner)) (planned_runners load_plan) with
  | None => unauthorized "runtime.load_plan" ("runner." +:+ d_runner_id runner)
  | Some planned =>
      if bool_decide (d_invocation_mode planned ≠ d_invocation_mode runner)
         || bool_decide (d_concurrency planned ≠ d_concurrency runner) then
        unauthorized "runtime.load_plan" ("runner." +:+ d_runner_id runner +:+ ".invocation")
      else validate_planned_runner load_plan runner
  end.

Definition validate_runtime_descriptors (load_plan : RuntimeLoadPlan) (runners : list RunnerDescriptor) : RuntimeResult unit :=
  letr? _ := check_all (validate_planned_runner load_plan) (planned_runners load_plan) in
  letr? _ := check_all (validate_runtime_runner load_plan) runners in
  validate_handler_bindings load_plan.
End Validation.

(** ** Comparing contract surfaces on reload *)

Record ContractChange : Type := MkContractChange {
  ch_surface_id : string;
  ch_compatibility : SurfaceCompatibility
}.

Record ReloadDecision : Type := MkReloadDecision {
  rd_changes : list ContractChange;
  rd_blocked : bool
}.

(** [iter().map(|x| (key(x), x)).collect::<BTreeMap<_, _>>()]: the last element
    with a key wins. *)
Definition by_key {A} (key : A → string) (l : list A) : gmap string A :=
  foldl (λ m x, <[ key x := x ]> m) ∅ l.

(** Iteration order of a [BTreeMap<String, V>]. *)
Definition btree_entries {V} (m : gmap string V) : list (string * V) := sort_by_str fst (map_to_list m).

Definition compare_surface (new_by_id : gmap string ContractSurface) (occupancy_by_id : gmap string SurfaceOccupancy)
    (surface_id : string) (old_surface : ContractSurface) : RuntimeResult ContractChange :=
  match new_by_id !! surface_id with
  | Some new_surface =>
      if decide (cs_fingerprint new_surface = cs_fingerprint old_surface) then
        Ok (MkContractChange surface_id
              (if cs_deprecated new_surface && negb (cs_deprecated old_surface) then SurfaceDeprecated else Identical))
      else Ok (MkContractChange surface_id Breaking)
  | None =>
      let zero := match occupancy_by_id !! surface_id with Some occupancy => so_is_zero occupancy | None => true end in
      if negb zero then
        runtime_failure ERR_RELOAD_BLOCKED "runtime.reload" ("surface.remove." +:+ surface_id)
      else Ok (MkContractChange surface_id Removed)
  end.

(** The first loop: one change per old surface, stopped by the first error. *)
Fixpoint compare_old (new_by_id : gmap string ContractSurface) (occupancy_by_id : gmap string SurfaceOccupancy)
    (old : list (string * ContractSurface)) : RuntimeResult (list ContractChange) :=
  match old with
  | [] => Ok []
  | (surface_id, old_surface) :: old =>
      letr? change := compare_surface new_by_id occupancy_by_id surface_id old_surface in
      letr? changes := compare_old new_by_id occupancy_by_id old in
      Ok (change :: changes)
  end.

Definition compare_surfaces (old new : list ContractSurface) (occupancy : list SurfaceOccupancy) : RuntimeResult ReloadDecision :=
  let old_by_id := by_key cs_surface_id old in
  let new_by_id := by_key cs_surface_id new in
  let occupancy_by_id := by_key so_surface_id occupancy in
  letr? changes := compare_old new_by_id occupancy_by_id (btree_entries old_by_id) in
  let added := (λ id, MkContractChange id Additive) <$>
    filter (λ id, old_by_id !! id = None) ((btree_entries new_by_id).*1) in
  let changes := changes ++ added in
  Ok (MkReloadDecision changes (existsb (λ change, bool_decide (ch_compatibility change = Breaking)) changes)).
