(* ===== verification/RegistryTheorems.v ===== *)
(** * What the registry, the load-plan validation and the surface comparison
    guarantee *)

From S2P Require Import Prelude Contracts RunnerContracts BatchContracts PluginContracts TaskRecords TaskIndexes TaskPool TaskOccupancy Registry.

Section RegistryInvariant.
Context `{RA : RunnerApi}.
Implicit Types self : RunnerRegistry.

(** ** The invariant of a registry *)

Definition descriptor_ok (key : string) (d : RunnerDescriptor) : Prop :=
  d_runner_id d = key ∧ NoDup (d_accepted_protocol_ids d).

Record reg_inv self : Prop := {
  gi_descriptors : ∀ k d, reg_descriptors self !! k = Some d → descriptor_ok k d;
  gi_snapshot : reg_descriptor_snapshot self =
    sort_by_str d_runner_id (snd <$> map_to_list (reg_descriptors self));
  gi_async : ∀ k h, reg_async_handlers self !! k = Some h →
    reg_runners self !! k = None ∧ ∃ d, reg_descriptors self !! k = Some d ∧ is_async_mode (d_invocation_mode d) = true;
  gi_runners : ∀ k rs, reg_runners self !! k = Some rs →
    rs = [] ∨ ∃ d, reg_descriptors self !! k = Some d ∧ (len rs ≤ allowed_instances d)%N
}.

Lemma normalized_descriptor_ok d : descriptor_ok (d_runner_id d) (normalized_descriptor d).
Proof. split; [done|]. apply NoDup_dedup_sorted, sort_strings_sorted. Qed.

Lemma RunnerDescriptor_eqb_concurrency a b : RunnerDescriptor_eqb a b = true → d_concurrency a = d_concurrency b.
Proof.
  unfold RunnerDescriptor_eqb. rewrite !andb_true_iff, !bool_decide_eq_true.
  intros H. decompose [and] H. done.
Qed.

Lemma register_runs runner self :
  reg_inv self →
  runs (register runner) self (λ result self',
    reg_inv self' ∧ (reg_frozen self = true → self' = self ∧ ∃ e, result = Err e ∧ e_code e = ERR_REGISTRY_FROZEN)).
Proof.
  intros Hi. unfold register. apply runs_bind, runs_get. destruct (reg_frozen self) eqn:Hf.
  { apply runs_ret. split; [done|]. intros _. split; [done|]. by eexists. }
  set (id := d_runner_id (runner_descriptor runner)). set (d := normalized_descriptor (runner_descriptor runner)).
  destruct (bool_decide (is_Some (reg_async_handlers self !! id))) eqn:Ha; [by apply runs_ret|].
  apply bool_decide_eq_false in Ha.
  destruct (is_some_and (reg_descriptors self !! id) _) eqn:He; [by apply runs_ret|].
  assert (∀ old, reg_descriptors self !! id = Some old → allowed_instances old = allowed_instances d) as Hsame.
  { intros old Hold. rewrite Hold in He. cbn in He. apply negb_false_iff, RunnerDescriptor_eqb_concurrency in He.
    unfold allowed_instances. by rewrite He. }
  destruct Hi as [Hd Hs Hasy Hr]. set (rs := unwrap_or (reg_runners self !! id) []).
  assert (rs = [] ∨ ∃ old, reg_descriptors self !! id = Some old ∧ (len rs ≤ allowed_instances old)%N) as Hrs.
  { subst rs. destruct (reg_runners self !! id) eqn:E; [by apply Hr|by left]. }
  assert (∀ k h, reg_async_handlers self !! k = Some h → k ≠ id) as Hne
    by (intros k h Hk ->; apply Ha; by eexists).
  case_decide as Hcap; apply runs_bind, runs_put, runs_ret; (split; [|done]); constructor; cbn; try done.
  - intros k h Hk. rewrite lookup_insert_ne by (symmetry; by eapply Hne). by eapply Hasy.
  - intros k rs' [[<- <-]|[_ Hk]]%lookup_insert_Some; [done|by apply Hr].
  - intros k d' [[<- <-]|[_ Hk]]%lookup_insert_Some; [apply normalized_descriptor_ok|by apply Hd].
  - intros k h Hk. pose proof (Hne k h Hk). rewrite !lookup_insert_ne by done. by eapply Hasy.
  - intros k rs' [[<- <-]|[Hk' Hk]]%lookup_insert_Some.
    + right. exists d. rewrite lookup_insert_eq. split; [done|]. rewrite len_app. unfold len at 2. cbn. lia.
    + rewrite lookup_insert_ne by done. by apply Hr.
Qed.

Lemma register_async_handler_runs handler self :
  reg_inv self →
  runs (register_async_handler handler) self (λ result self',
    reg_inv self' ∧ (reg_frozen self = true → self' = self ∧ ∃ e, result = Err e ∧ e_code e = ERR_REGISTRY_FROZEN)).
Proof.
  intros Hi. unfold register_async_handler. apply runs_bind, runs_get. destruct (reg_frozen self) eqn:Hf.
  { apply runs_ret. split; [done|]. intros _. split; [done|]. by eexists. }
  cbv zeta. set (d := normalized_descriptor (handler_descriptor handler)).
  change (d_runner_id d) with (d_runner_id (handler_descriptor handler)).
  destruct (bool_decide (is_Some (reg_descriptors self !! _)) || _ || _) eqn:E; [by apply runs_ret|].
  apply orb_false_iff in E as [[E1%bool_decide_eq_false E2%bool_decide_eq_false]%orb_false_iff _].
  apply eq_None_not_Some in E1, E2.
  destruct (is_async_mode (d_invocation_mode d)) eqn:Hm; cbn [negb]; [|by apply runs_ret].
  apply runs_bind, runs_put, runs_ret. split; [|done]. destruct Hi as [Hd Hs Hasy Hr]. constructor; cbn; try done.
  - intros k d' [[<- <-]|[_ Hk]]%lookup_insert_Some; [apply (normalized_descriptor_ok (handler_descriptor handler))|by apply Hd].
  - intros k h [[<- <-]|[Hne Hk]]%lookup_insert_Some; [rewrite lookup_insert_eq; eauto|].
    rewrite lookup_insert_ne by done. by eapply Hasy.
  - intros k rs Hk. destruct (Hr _ _ Hk) as [->|(d' & Hd' & ?)]; [by left|right]. exists d'.
    rewrite lookup_insert_ne; [done|]. intros <-. congruence.
Qed.

Lemma unregister_runs runner_id self :
  reg_inv self →
  runs (unregister runner_id) self (λ result self',
    reg_inv self' ∧ (reg_frozen self = true → self' = self ∧ ∃ e, result = Err e ∧ e_code e = ERR_REGISTRY_FROZEN)).
Proof.
  intros Hi. unfold unregister. apply runs_bind, runs_get. destruct (reg_frozen self) eqn:Hf.
  { apply runs_ret. split; [done|]. intros _. split; [done|]. by eexists. }
  apply runs_bind, runs_put, runs_ret. split; [|done]. destruct Hi as [Hd Hs Hasy Hr]. constructor; cbn; try done.
  - intros k d [_ Hk]%lookup_delete_Some. by apply Hd.
  - intros k h [Hne Hk]%lookup_delete_Some. rewrite !lookup_delete_ne by done. by eapply Hasy.
  - intros k rs [Hne Hk]%lookup_delete_Some. rewrite lookup_delete_ne by done. by apply Hr.
Qed.

(** An operation on the runner objects of one id keeps the invariant when it
    does not add instances. *)
Lemma reg_inv_runners self id rs rs' :
  reg_inv self → reg_runners self !! id = Some rs → (len rs' ≤ len rs)%N →
  reg_inv (self <| reg_runners := <[ id := rs' ]> (reg_runners self) |>).
Proof.
  intros [Hd Hs Hasy Hr] Hid Hlen. constructor; cbn; try done.
  - intros k h Hk. destruct (Hasy k h Hk) as [Hn ?]. rewrite lookup_insert_ne; [done|]. intros <-. congruence.
  - intros k l [[<- <-]|[_ Hk]]%lookup_insert_Some; [|by apply Hr].
    destruct (Hr _ _ Hid) as [->|(d & ? & ?)].
    + left. unfold len in Hlen. cbn in Hlen. apply length_zero_iff_nil. lia.
    + right. exists d. split; [done|]. lia.
Qed.

Lemma len_pop {A} (l : list A) : len (pop l).2 = (len l - 1)%N.
Proof. unfold len. cbn. rewrite length_take. lia. Qed.

Lemma len_dispose_runners rs : len (dispose_runners rs).2 = len rs.
Proof.
  induction rs as [|r rs IH]; [done|]. cbn. destruct (runner_dispose r) as [[[]|e] r']; [|done].
  destruct (dispose_runners rs) as [ids rest]. cbn in *. rewrite !len_cons. lia.
Qed.

(** What freezing fixes. *)
Definition same_contract self self' : Prop :=
  reg_frozen self' = true ∧ reg_descriptors self' = reg_descriptors self ∧
  reg_async_handlers self' = reg_async_handlers self ∧ reg_descriptor_snapshot self' = reg_descriptor_snapshot self.

Lemma dispose_runner_lists_runs entries self :
  reg_inv self → NoDup entries.*1 → (∀ k rs, (k, rs) ∈ entries → reg_runners self !! k = Some rs) →
  runs (dispose_runner_lists entries) self (λ _ self', reg_inv self' ∧ (reg_frozen self = true → same_contract self self')).
Proof.
  revert self. induction entries as [|[id rs] entries IH]; intros self Hi Hnd Hin; cbn [dispose_runner_lists].
  { apply runs_ret. split; [done|by split]. }
  apply NoDup_cons in Hnd as [Hid Hnd]. pose proof (len_dispose_runners rs) as Hlen.
  destruct (dispose_runners rs) as [disposed rs']. cbn in Hlen. apply runs_bind, runs_modify.
  set (self1 := self <| reg_runners := _ |>).
  assert (reg_inv self1) as Hi1 by (apply (reg_inv_runners _ _ rs); [done|apply Hin; set_solver|lia]).
  destruct disposed as [ids|e]; [|apply runs_ret; split; [done|by split]].
  unfold try_bind. apply runs_bind. eapply runs_mono; [apply IH; [done|done|]|].
  - intros k l Hk. cbn. rewrite lookup_insert_ne; [apply Hin; set_solver|].
    intros <-. apply Hid, list_elem_of_fmap. by exists (id, l).
  - intros [ids'|e] self2 [Hi2 Hc]; apply runs_ret; (split; [done|]); intros Hf; exact (Hc Hf).
Qed.

Lemma dispose_all_runs self :
  reg_inv self → runs dispose_all self (λ _ self', reg_inv self' ∧ (reg_frozen self = true → same_contract self self')).
Proof.
  intros Hi. unfold dispose_all, try_bind. apply runs_bind, runs_get, runs_bind. eapply runs_mono.
  - apply dispose_runner_lists_runs; [done|apply NoDup_fst_map_to_list|]. intros k rs. by rewrite elem_of_map_to_list.
  - intros [ids|e] self' H; [apply runs_bind, runs_get, runs_ret|apply runs_ret]; done.
Qed.

(** ** Runs of the registry *)

Inductive RegOp : Type :=
  | OpRegisterRunner (runner : Runner)
  | OpRegisterAsync (handler : AsyncHandler)
  | OpUnregister (runner_id : string)
  | OpFreeze
  | OpHeartbeat (runner_id executor_id : string) (step : N)
  | OpDeclare (runner_id : string) (protocol_ids : list string) (capacity : N)
  | OpTake (runner_id : string)
  | OpPut (runner : Runner)
  | OpCancel (runner_id invocation_id : string)
  | OpDispose.

Definition run_reg_op (op : RegOp) : M RunnerRegistry unit :=
  match op with
  | OpRegisterRunner runner => register runner ;;! ret tt
  | OpRegisterAsync handler => register_async_handler handler ;;! ret tt
  | OpUnregister runner_id => unregister runner_id ;;! ret tt
  | OpFreeze => freeze
  | OpHeartbeat runner_id executor_id step => heartbeat runner_id executor_id step ;;! ret tt
  | OpDeclare runner_id protocol_ids capacity => declare_capability runner_id protocol_ids capacity ;;! ret tt
  | OpTake runner_id => take_runner runner_id ;;! ret tt
  | OpPut runner => put_runner runner
  | OpCancel runner_id invocation_id => cancel_runner runner_id invocation_id ;;! ret tt
  | OpDispose => dispose_all ;;! ret tt
  end.

(** [put_runner] gives back a runner that [take_runner] handed out: its id is
    registered as a synchronous runner with an instance missing. *)
Definition reg_op_pre self (op : RegOp) : Prop :=
  match op with
  | OpPut runner => ∃ rs d, reg_runners self !! d_runner_id (runner_descriptor runner) = Some rs ∧
      reg_descriptors self !! d_runner_id (runner_descriptor runner) = Some d ∧ (len rs < allowed_instances d)%N
  | _ => True
  end.

Lemma run_reg_op_inv op self :
  reg_inv self → reg_op_pre self op →
  runs (run_reg_op op) self (λ _ self', reg_inv self' ∧ (reg_frozen self = true → same_contract self self')).
Proof.
  intros Hi Hpre. destruct op; cbn [run_reg_op].
  - apply runs_bind. eapply runs_mono; [by apply register_runs|]. intros r self' [? Hfr]. apply runs_ret.
    split; [done|]. intros Hf. by destruct (Hfr Hf) as [-> _].
  - apply runs_bind. eapply runs_mono; [by apply register_async_handler_runs|]. intros r self' [? Hfr]. apply runs_ret.
    split; [done|]. intros Hf. by destruct (Hfr Hf) as [-> _].
  - apply runs_bind. eapply runs_mono; [by apply unregister_runs|]. intros r self' [? Hfr]. apply runs_ret.
    split; [done|]. intros Hf. by destruct (Hfr Hf) as [-> _].
  - apply runs_modify. split; [|done]. by destruct Hi; constructor.
  - unfold heartbeat. apply runs_bind, runs_bind, runs_get. destruct (reg_descriptors self !! runner_id).
    + apply runs_bind, runs_put, runs_ret, runs_ret. split; [by destruct Hi; constructor|done].
    + by apply runs_ret, runs_ret.
  - unfold declare_capability. apply runs_bind, runs_bind, runs_get. destruct (reg_descriptors self !! runner_id).
    + destruct (existsb _ protocol_ids); [by apply runs_ret, runs_ret|].
      apply runs_bind, runs_put, runs_ret, runs_ret. split; [by destruct Hi; constructor|done].
    + by apply runs_ret, runs_ret.
  - unfold take_runner. apply runs_bind, runs_bind, runs_get. destruct (reg_runners self !! runner_id) as [rs|] eqn:Hr.
    + destruct (pop rs) as [r rest] eqn:Hp. apply runs_bind, runs_put, runs_ret, runs_ret. split; [|done].
      eapply reg_inv_runners; [done|done|]. pose proof (len_pop rs) as Hl. rewrite Hp in Hl. cbn in Hl. lia.
    + by apply runs_ret, runs_ret.
  - unfold put_runner. apply runs_bind, runs_get, runs_put. split; [|done].
    destruct Hpre as (rs & d & Hrs & Hd' & Hlt). rewrite Hrs. cbn [unwrap_or].
    destruct Hi as [Hd Hs Hasy Hr]. constructor; cbn; try done.
    + intros k h Hk. destruct (Hasy k h Hk) as [Hn ?]. rewrite lookup_insert_ne; [done|]. intros <-. congruence.
    + intros k l [[<- <-]|[_ Hk]]%lookup_insert_Some; [|by apply Hr]. right. exists d. split; [done|].
      rewrite len_app. unfold len at 2. cbn. lia.
  - unfold cancel_runner. apply runs_bind, runs_bind, runs_get.
    destruct (reg_runners self !! runner_id) as [rs|] eqn:Hr; cbn [mbind option_bind]; [|by apply runs_ret, runs_ret].
    destruct (last rs) as [r|] eqn:Hl; [|by apply runs_ret, runs_ret].
    destruct (runner_cancel invocation_id r) as [result r']. apply runs_bind, runs_put, runs_ret, runs_ret.
    split; [|done]. eapply reg_inv_runners; [done|done|]. cbn [unwrap_or]. rewrite len_app, len_pop.
    assert (rs ≠ []) by (by intros ->). destruct rs; [done|]. rewrite len_cons. unfold len. cbn. lia.
  - apply runs_bind. eapply runs_mono; [by apply dispose_all_runs|]. intros r self' H. by apply runs_ret.
Qed.

Inductive reg_reachable : RunnerRegistry → Prop :=
  | reg_reachable_default : reg_reachable RunnerRegistry_default
  | reg_reachable_step self op self' :
      reg_reachable self → reg_op_pre self op → run_reg_op op self = Some (tt, self') → reg_reachable self'.

Lemma reg_reachable_inv self : reg_reachable self → reg_inv self.
Proof.
  induction 1 as [|self op self' _ IH Hpre Hrun]; [by constructor|].
  by apply (runs_det _ _ _ _ _ (run_reg_op_inv op self IH Hpre) Hrun).
Qed.

(** ** Properties *)

(** the registry is consistent.  In every reachable registry each
    descriptor is stored under its runner id and accepts no protocol twice
    (which is what claiming tasks for it relies on); the snapshot handed to the
    scheduler lists exactly the registered descriptors, each once, ordered by
    runner id; a runner id belongs to an async handler or to runner objects,
    never both; and there are never more runner objects than the descriptor
    allows. *)
Theorem registry_consistent self :
  reg_reachable self →
  (∀ k d, reg_descriptors self !! k = Some d → d_runner_id d = k ∧ NoDup (d_accepted_protocol_ids d)) ∧
  (∀ d, d ∈ reg_descriptor_snapshot self ↔ reg_descriptors self !! d_runner_id d = Some d) ∧
  StronglySorted String.le (runner_ids self) ∧ NoDup (runner_ids self) ∧
  (∀ k h, reg_async_handlers self !! k = Some h → reg_runners self !! k = None ∧ is_Some (reg_descriptors self !! k)) ∧
  (∀ k r rs, reg_runners self !! k = Some (r :: rs) →
     ∃ d, reg_descriptors self !! k = Some d ∧ (len (r :: rs) ≤ allowed_instances d)%N).
Proof.
  intros Hi%reg_reachable_inv. destruct Hi as [Hd Hs Hasy Hr].
  assert (d_runner_id <$> (snd <$> map_to_list (reg_descriptors self)) = (map_to_list (reg_descriptors self)).*1) as Hkeys.
  { rewrite <-list_fmap_compose. apply list_fmap_ext. intros i [k x] Hk%list_elem_of_lookup_2.
    apply elem_of_map_to_list in Hk. by destruct (Hd _ _ Hk). }
  unfold runner_ids. rewrite Hs. split_and!.
  - apply Hd.
  - intros d. rewrite elem_of_sort_by_str, list_elem_of_fmap. split.
    + intros ([k d'] & -> & Hk%elem_of_map_to_list). by destruct (Hd _ _ Hk) as [<- _].
    + intros Hk. exists (d_runner_id d, d). by rewrite elem_of_map_to_list.
  - apply sort_by_str_sorted.
  - unfold sort_by_str. rewrite stable_sort_Permutation, Hkeys. apply NoDup_fst_map_to_list.
  - intros k h Hk. destruct (Hasy k h Hk) as [? (d & ? & _)]. split; [done|]. by eexists.
  - intros k r rs Hk. by destruct (Hr _ _ Hk) as [|?].
Qed.

(** freezing is final.  A frozen registry rejects registration of runners
    and async handlers and unregistration with registry.frozen, unchanged; and
    no operation at all changes its descriptors, its snapshot or its async
    handlers, or unfreezes it. *)
Theorem frozen_registry_stable self op :
  reg_reachable self → reg_frozen self = true → reg_op_pre self op →
  (∃ self', run_reg_op op self = Some (tt, self') ∧ same_contract self self') ∧
  (∀ runner, ∃ e, register runner self = Some (Err e, self) ∧ e_code e = ERR_REGISTRY_FROZEN) ∧
  (∀ handler, ∃ e, register_async_handler handler self = Some (Err e, self) ∧ e_code e = ERR_REGISTRY_FROZEN) ∧
  (∀ runner_id, ∃ e, unregister runner_id self = Some (Err e, self) ∧ e_code e = ERR_REGISTRY_FROZEN).
Proof.
  intros Hi%reg_reachable_inv Hf Hpre. split_and!.
  - destruct (run_reg_op_inv op self Hi Hpre) as ([] & self' & Hrun & _ & Hs). eauto.
  - intros runner. destruct (register_runs runner self Hi) as (? & ? & Hrun & _ & H).
    destruct (H Hf) as [-> (e & -> & He)]. eauto.
  - intros handler. destruct (register_async_handler_runs handler self Hi) as (? & ? & Hrun & _ & H).
    destruct (H Hf) as [-> (e & -> & He)]. eauto.
  - intros runner_id. destruct (unregister_runs runner_id self Hi) as (? & ? & Hrun & _ & H).
    destruct (H Hf) as [-> (e & -> & He)]. eauto.
Qed.
End RegistryInvariant.

(** ** Load-plan validation *)

Section ValidationTheorems.
Context `{SJ : SerdeJson}.

Lemma check_all_Ok {A} (check : A → RuntimeResult unit) l :
  check_all check l = Ok tt ↔ ∀ x, x ∈ l → check x = Ok tt.
Proof.
  induction l as [|x l IH]; cbn; [split; [set_solver|done]|].
  destruct (check x) as [[]|e] eqn:Hx; cbn.
  - rewrite IH. split; [intros H y [->|Hy]%elem_of_cons; auto|intros H y Hy; apply H; set_solver].
  - split; [done|]. intros H. specialize (H x). rewrite Hx in H. by discriminate H; set_solver.
Qed.

(** What a descriptor must declare to be accepted under a load plan. *)
Record runner_admissible (plan : RuntimeLoadPlan) (r : RunnerDescriptor) : Prop := {
  ra_committer : d_purity r = Committer → d_runner_id r = "core.kernel";
  ra_control : d_execution_class r = ClassControl → d_runner_id r = "core.kernel";
  ra_protocols : ∀ p, p ∈ d_accepted_protocol_ids r → ∃ class,
    find_protocol_class (plan_plugins plan) p = Some class ∧ matches_purity (d_purity r) class = true ∧
    (class = ProtocolControl → d_execution_class r = ClassControl);
  ra_batch :
    let b := d_batch r in
    (0 < bc_preferred_batch_size b ≤ bc_max_batch_entries b)%N ∧
    (0 < bc_max_entry_concurrency b ≤ bc_max_batch_entries b)%N ∧
    (0 < bc_max_inflight_batches b)%N ∧ bc_max_inflight_batches b = max_inflight_batches (d_concurrency r) ∧
    (0 < max_inflight_entries (d_concurrency r) (bc_max_batch_entries b))%N;
  ra_invocation : invocation_matches_concurrency (d_invocation_mode r) (d_concurrency r) = true;
  ra_payload : LayoutRow ∈ pc_layouts (d_payload r) ∧ pc_preferred_layout (d_payload r) ∈ pc_layouts (d_payload r);
  ra_ordering :
    (∀ id, oc_default (d_ordering r) = StrictSequence id → oc_supports_sequence (d_ordering r) = true) ∧
    (∀ id, oc_default (d_ordering r) = SameResourceOrder id → oc_supports_same_resource_order (d_ordering r) = true)
}.

Lemma batch_invalid_false r :
  batch_invalid r = false ↔
    let b := d_batch r in
    (0 < bc_preferred_batch_size b ≤ bc_max_batch_entries b)%N ∧
    (0 < bc_max_entry_concurrency b ≤ bc_max_batch_entries b)%N ∧
    (0 < bc_max_inflight_batches b)%N ∧ bc_max_inflight_batches b = max_inflight_batches (d_concurrency r) ∧
    (0 < max_inflight_entries (d_concurrency r) (bc_max_batch_entries b))%N.
Proof.
  unfold batch_invalid. cbv zeta. rewrite !orb_false_iff, !bool_decide_eq_false. lia.
Qed.

Lemma payload_invalid_false p :
  payload_invalid p = false ↔ LayoutRow ∈ pc_layouts p ∧ pc_preferred_layout p ∈ pc_layouts p.
Proof.
  unfold payload_invalid. rewrite !orb_false_iff, !negb_false_iff, !bool_decide_eq_true, bool_decide_eq_false.
  split; [tauto|]. intros [Hr Hp]. split_and!; try done. intros Hn. rewrite Hn in Hr. by apply not_elem_of_nil in Hr.
Qed.

Lemma validate_capabilities_Ok r :
  validate_runner_batch_capabilities r = Ok tt ↔
  batch_invalid r = false ∧ invocation_matches_concurrency (d_invocation_mode r) (d_concurrency r) = true ∧
  payload_invalid (d_payload r) = false ∧
  (∀ id, oc_default (d_ordering r) = StrictSequence id → oc_supports_sequence (d_ordering r) = true) ∧
  (∀ id, oc_default (d_ordering r) = SameResourceOrder id → oc_supports_same_resource_order (d_ordering r) = true).
Proof.
  unfold validate_runner_batch_capabilities, unauthorized, runtime_failure. cbv zeta.
  destruct (batch_invalid r); [naive_solver|]. destruct (invocation_matches_concurrency _ _); cbn [negb]; [|naive_solver].
  destruct (payload_invalid _); [naive_solver|].
  destruct (oc_default (d_ordering r)); [naive_solver|naive_solver| |].
  - destruct (oc_supports_same_resource_order (d_ordering r)); cbn; naive_solver.
  - destruct (oc_supports_sequence (d_ordering r)); cbn; naive_solver.
Qed.

Lemma validate_protocol_class_Ok plan r p :
  validate_protocol_class plan r p = Ok tt ↔ ∃ class,
    find_protocol_class (plan_plugins plan) p = Some class ∧ matches_purity (d_purity r) class = true ∧
    (class = ProtocolControl → d_execution_class r = ClassControl).
Proof.
  unfold validate_protocol_class, unauthorized, runtime_failure. destruct (find_protocol_class _ p) as [class|]; [|naive_solver].
  destruct (matches_purity (d_purity r) class) eqn:Hm; cbn [negb orb];
    [|split; [done|]; intros (c & [= <-] & ? & _); congruence].
  destruct (decide (class = ProtocolControl)) as [->|Hc].
  - rewrite bool_decide_eq_true_2 by done. cbn. case_bool_decide; naive_solver.
  - rewrite bool_decide_eq_false_2 by done. cbn. naive_solver.
Qed.

Lemma validate_planned_runner_Ok plan r : validate_planned_runner plan r = Ok tt ↔ runner_admissible plan r.
Proof.
  unfold validate_planned_runner, validate_runner_privilege, unauthorized, runtime_failure.
  assert (∀ (P : Prop) `{Decision P}, bool_decide P && bool_decide (d_runner_id r ≠ "core.kernel") = false ↔
    (P → d_runner_id r = "core.kernel")) as Hguard.
  { intros P HP. rewrite andb_false_iff, !bool_decide_eq_false. destruct (decide P), (decide (d_runner_id r = "core.kernel")); tauto. }
  destruct (bool_decide (d_purity r = Committer) && _) eqn:E1.
  { split; [done|]. intros [H _ _ _ _ _ _]. pose proof (proj2 (Hguard _ _) H). congruence. }
  destruct (bool_decide (d_execution_class r = ClassControl) && _) eqn:E2.
  { split; [done|]. intros [_ H _ _ _ _ _]. pose proof (proj2 (Hguard _ _) H). congruence. }
  pose proof (proj1 (Hguard _ _) E1). pose proof (proj1 (Hguard _ _) E2). destruct (validate_runner_batch_capabilities r) as [[]|e] eqn:E3; cbn [rbind].
  - apply validate_capabilities_Ok in E3 as (Hb & Hinv & Hp & Ho). unfold validate_runner_protocol_classes.
    rewrite check_all_Ok. setoid_rewrite validate_protocol_class_Ok. apply batch_invalid_false in Hb.
    apply payload_invalid_false in Hp. split; [by constructor|]. by intros [_ _ ? _ _ _ _].
  - split; [done|]. intros [_ _ _ Hb Hinv Hp Ho].
    assert (validate_runner_batch_capabilities r = Ok tt) as Hok; [|congruence].
    apply validate_capabilities_Ok. rewrite batch_invalid_false, payload_invalid_false.
    exact (conj Hb (conj Hinv (conj Hp Ho))).
Qed.

(** What a handler binding must name. *)
Definition binding_admissible (planned : list RunnerDescriptor) (b : HandlerBinding) : Prop :=
  (∃ r, r ∈ planned ∧ hb_target_protocol_id b ∈ d_accepted_protocol_ids r) ∧
  ∀ hint, hb_target_runner_hint b = Some hint →
    ∃ r, List.find (λ r, bool_decide (d_runner_id r = hint)) planned = Some r ∧
      hb_target_protocol_id b ∈ d_accepted_protocol_ids r.

Lemma validate_handler_binding_Ok planned b : validate_handler_binding planned b = Ok tt ↔ binding_admissible planned b.
Proof.
  unfold validate_handler_binding, binding_admissible, runner_accepts_protocol, unauthorized, runtime_failure. cbv zeta.
  destruct (existsb _ planned) eqn:E; cbn [negb].
  - apply existsb_exists in E as (r & Hr%list_elem_of_In & Hp%bool_decide_eq_true).
    destruct (hb_target_runner_hint b) as [hint|]; [|naive_solver].
    assert (∀ P, (∀ hint', Some hint = Some hint' → P hint') ↔ P hint) as ->
      by (intros P; split; [auto|by intros ? ? [= <-]]).
    destruct (List.find _ planned) as [r'|]; [|naive_solver]. case_bool_decide; naive_solver.
  - split; [done|]. intros [(r & Hr & Hp) _]. assert (existsb (λ r, bool_decide (hb_target_protocol_id b ∈ d_accepted_protocol_ids r)) planned = true) as Hx; [|congruence].
    apply existsb_exists. exists r. rewrite <-list_elem_of_In, bool_decide_eq_true. done.
Qed.

(** load-plan validation accepts exactly the admissible plans.  Validation
    succeeds exactly when every planned runner is admissible (only core.kernel
    commits or runs in the control class; each accepted protocol has a class
    that fits the runner's purity; batch limits are positive and consistent;
    the invocation mode fits the concurrency; payload layouts and ordering are
    declared), every runner that registered is planned under its id with the
    same invocation mode and concurrency and is admissible itself, and every
    handler binding targets a protocol that a planned runner (the hinted one,
    if any) accepts. *)
Theorem load_plan_validation_exact plan runners :
  validate_runtime_descriptors plan runners = Ok tt ↔
  (∀ r, r ∈ planned_runners plan → runner_admissible plan r) ∧
  (∀ r, r ∈ runners → runner_admissible plan r ∧
     ∃ planned, List.find (λ p, bool_decide (d_runner_id p = d_runner_id r)) (planned_runners plan) = Some planned ∧
       d_invocation_mode planned = d_invocation_mode r ∧ d_concurrency planned = d_concurrency r) ∧
  (∀ b, b ∈ planned_bindings plan → binding_admissible (planned_runners plan) b).
Proof.
  assert (∀ r, validate_runtime_runner plan r = Ok tt ↔ runner_admissible plan r ∧
     ∃ planned, List.find (λ p, bool_decide (d_runner_id p = d_runner_id r)) (planned_runners plan) = Some planned ∧
       d_invocation_mode planned = d_invocation_mode r ∧ d_concurrency planned = d_concurrency r) as Hrun.
  { intros r. unfold validate_runtime_runner, unauthorized, runtime_failure. destruct (List.find _ _) as [p|]; [|naive_solver].
    destruct (decide (d_invocation_mode p = d_invocation_mode r)) as [Hm|Hm], (decide (d_concurrency p = d_concurrency r)) as [Hc|Hc].
    - rewrite !bool_decide_eq_false_2 by auto. cbn [orb]. rewrite validate_planned_runner_Ok. naive_solver.
    - rewrite (bool_decide_eq_true_2 (d_concurrency p ≠ _)), orb_true_r by done. naive_solver.
    - rewrite (bool_decide_eq_true_2 (d_invocation_mode p ≠ _)) by done. naive_solver.
    - rewrite (bool_decide_eq_true_2 (d_invocation_mode p ≠ _)) by done. naive_solver. }
  setoid_rewrite <-validate_planned_runner_Ok at 1. setoid_rewrite <-Hrun. setoid_rewrite <-validate_handler_binding_Ok.
  rewrite <-!check_all_Ok. unfold validate_runtime_descriptors, validate_handler_bindings.
  destruct (check_all _ (planned_runners plan)) as [[]|]; cbn; [|naive_solver].
  destruct (check_all _ runners) as [[]|]; cbn; [|naive_solver]. naive_solver.
Qed.
End ValidationTheorems.

(** ** Surface comparison *)

Lemma by_key_lookup {A} (key : A → string) l k :
  by_key key l !! k = last (filter (λ x, key x = k) l).
Proof.
  unfold by_key. induction l as [|x l IH] using rev_ind; [done|]. rewrite foldl_snoc, filter_app, filter_cons, filter_nil.
  case_decide as Hk; [subst k; by rewrite lookup_insert_eq, last_snoc|].
  by rewrite lookup_insert_ne, IH, app_nil_r by done.
Qed.

(** The surfaces of a list, with the last one for a repeated id. *)
Definition surface_at (l : list ContractSurface) (id : string) : option ContractSurface :=
  last (filter (λ s, cs_surface_id s = id) l).

Definition occupied (occupancy : list SurfaceOccupancy) (id : string) : Prop :=
  ∃ o, last (filter (λ o, so_surface_id o = id) occupancy) = Some o ∧ so_is_zero o = false.

(** How the surface [id] changes from [old] to [new]. *)
Definition surface_change (old new : list ContractSurface) (id : string) (c : SurfaceCompatibility) : Prop :=
  match surface_at old id, surface_at new id with
  | Some o, Some n =>
      if decide (cs_fingerprint n = cs_fingerprint o)
      then c = if cs_deprecated n && negb (cs_deprecated o) then SurfaceDeprecated else Identical
      else c = Breaking
  | Some _, None => c = Removed
  | None, Some _ => c = Additive
  | None, None => False
  end.

Lemma compare_surface_cases old new occupancy id o :
  surface_at old id = Some o →
  match compare_surface (by_key cs_surface_id new) (by_key so_surface_id occupancy) id o with
  | Ok change => ch_surface_id change = id ∧ surface_change old new id (ch_compatibility change) ∧
      (surface_at new id = None → ¬ occupied occupancy id)
  | Err e => e_code e = ERR_RELOAD_BLOCKED ∧ surface_at new id = None ∧ occupied occupancy id
  end.
Proof.
  intros Ho. unfold compare_surface, surface_change, occupied. rewrite Ho, !by_key_lookup. fold (surface_at new id).
  destruct (surface_at new id) as [n|]; [case_decide; naive_solver|].
  destruct (last _) as [x|]; [destruct (so_is_zero x) eqn:Hz|]; cbn.
  - split_and!; try done. intros _ (x' & [= <-] & ?). congruence.
  - split_and!; try done. by exists x.
  - split_and!; try done. by intros _ (x' & ? & ?).
Qed.

Lemma compare_old_spec old new occupancy entries :
  (∀ id o, (id, o) ∈ entries → surface_at old id = Some o) →
  match compare_old (by_key cs_surface_id new) (by_key so_surface_id occupancy) entries with
  | Ok changes => ch_surface_id <$> changes = entries.*1 ∧
      ∀ c, c ∈ changes → surface_change old new (ch_surface_id c) (ch_compatibility c) ∧
        (surface_at new (ch_surface_id c) = None → ¬ occupied occupancy (ch_surface_id c))
  | Err e => e_code e = ERR_RELOAD_BLOCKED ∧
      ∃ id o, (id, o) ∈ entries ∧ surface_at new id = None ∧ occupied occupancy id
  end.
Proof.
  induction entries as [|[id o] entries IH]; intros Hold; cbn [compare_old]; [split; [done|set_solver]|].
  pose proof (compare_surface_cases old new occupancy id o) as Hc.
  destruct (compare_surface _ _ id o) as [change|e]; cbn [rbind].
  - destruct Hc as (Hid & Hch & Hocc); [apply Hold; set_solver|].
    destruct (compare_old _ _ entries) as [changes|e]; cbn [rbind].
    + destruct IH as [Hids Hall]; [intros; apply Hold; set_solver|]. split; [cbn; by rewrite Hid, Hids|].
      intros c [->|Hin]%elem_of_cons; [by rewrite Hid|by apply Hall].
    + destruct IH as (? & id' & o' & ? & ? & ?); [intros; apply Hold; set_solver|]. split; [done|].
      exists id', o'. set_solver.
  - destruct Hc as (? & ? & ?); [apply Hold; set_solver|]. split; [done|]. exists id, o. set_solver.
Qed.

Lemma elem_of_btree_entries {V} (m : gmap string V) k v : (k, v) ∈ btree_entries m ↔ m !! k = Some v.
Proof. unfold btree_entries. by rewrite elem_of_sort_by_str, elem_of_map_to_list. Qed.

Lemma elem_of_btree_keys {V} (m : gmap string V) k : k ∈ (btree_entries m).*1 ↔ is_Some (m !! k).
Proof.
  rewrite list_elem_of_fmap. split.
  - intros ([k' v] & -> & Hk%elem_of_btree_entries). by eexists.
  - intros [v Hv]. exists (k, v). by rewrite elem_of_btree_entries.
Qed.

Lemma NoDup_btree_keys {V} (m : gmap string V) : NoDup (btree_entries m).*1.
Proof. unfold btree_entries, sort_by_str. rewrite stable_sort_Permutation. apply NoDup_fst_map_to_list. Qed.

(** reload decisions are exact.  Comparing two sets of surfaces is refused
    (plugin.reload_blocked) exactly when a surface that disappears is still
    occupied.  Otherwise the decision lists every surface of either side once,
    with the change it undergoes (identical, deprecated, breaking, removed,
    additive), and it is blocked exactly when some surface's fingerprint
    changed. *)
Theorem reload_decision_exact old new occupancy :
  match compare_surfaces old new occupancy with
  | Ok decision =>
      (∀ id, is_Some (surface_at old id) → surface_at new id = None → ¬ occupied occupancy id) ∧
      NoDup (ch_surface_id <$> rd_changes decision) ∧
      (∀ id, id ∈ ch_surface_id <$> rd_changes decision ↔ is_Some (surface_at old id) ∨ is_Some (surface_at new id)) ∧
      (∀ c, c ∈ rd_changes decision → surface_change old new (ch_surface_id c) (ch_compatibility c)) ∧
      (rd_blocked decision = true ↔ ∃ id o n, surface_at old id = Some o ∧ surface_at new id = Some n ∧
         cs_fingerprint o ≠ cs_fingerprint n)
  | Err e => e_code e = ERR_RELOAD_BLOCKED ∧
      ∃ id, is_Some (surface_at old id) ∧ surface_at new id = None ∧ occupied occupancy id
  end.
Proof.
  unfold compare_surfaces. cbv zeta.
  assert (∀ l id, by_key cs_surface_id l !! id = surface_at l id) as Hby by (intros; apply by_key_lookup).
  pose proof (compare_old_spec old new occupancy (btree_entries (by_key cs_surface_id old))) as Hc.
  destruct (compare_old _ _ _) as [changes|e]; cbn [rbind].
  2:{ destruct Hc as (? & id & o & Hid & ? & ?); [intros id o; by rewrite elem_of_btree_entries, Hby|].
      split; [done|]. exists id. split; [|done]. apply elem_of_btree_entries in Hid. rewrite <-Hby. by eexists. }
  destruct Hc as [Hids Hall]; [intros id o; by rewrite elem_of_btree_entries, Hby|].
  set (added := (λ id, MkContractChange id Additive) <$> _). cbn [rd_changes rd_blocked].
  assert (∀ id, id ∈ ch_surface_id <$> changes ↔ is_Some (surface_at old id)) as Hold.
  { intros id. rewrite Hids, elem_of_btree_keys, Hby. done. }
  assert (ch_surface_id <$> added = filter (λ id, by_key cs_surface_id old !! id = None) (btree_entries (by_key cs_surface_id new)).*1) as Hadd.
  { unfold added. rewrite <-list_fmap_compose. apply list_fmap_id. }
  assert (∀ id, id ∈ ch_surface_id <$> added ↔ surface_at old id = None ∧ is_Some (surface_at new id)) as Hnew.
  { intros id. rewrite Hadd, list_elem_of_filter, elem_of_btree_keys, !Hby. done. }
  assert (∀ c, c ∈ changes ++ added → surface_change old new (ch_surface_id c) (ch_compatibility c)) as Hchange.
  { intros c [Hin|Hin]%elem_of_app; [by apply Hall|]. unfold surface_change.
    destruct (proj1 (Hnew (ch_surface_id c))) as [-> [n ->]]; [apply list_elem_of_fmap; eauto|].
    by apply list_elem_of_fmap in Hin as (id & -> & _). }
  split_and!.
  - intros id (c & -> & Hc)%Hold%list_elem_of_fmap Hn. by apply (Hall c Hc).
  - rewrite fmap_app, NoDup_app. split_and!.
    + rewrite Hids. apply NoDup_btree_keys.
    + intros id [o Ho]%Hold [Hn _]%Hnew. congruence.
    + rewrite Hadd. apply NoDup_filter, NoDup_btree_keys.
  - intros id. rewrite fmap_app, elem_of_app, Hold, Hnew. destruct (surface_at old id), (surface_at new id); naive_solver.
  - done.
  - rewrite existsb_exists. split.
    + intros (c & Hin%list_elem_of_In & Hb%bool_decide_eq_true). specialize (Hchange c Hin). rewrite Hb in Hchange.
      unfold surface_change in Hchange. destruct (surface_at old (ch_surface_id c)) as [o|] eqn:Ho, (surface_at new (ch_surface_id c)) as [n|] eqn:Hn; try done.
      case_decide; [by destruct (_ && _)|]. by exists (ch_surface_id c), o, n.
    + intros (id & o & n & Ho & Hn & Hne). assert (id ∈ ch_surface_id <$> changes) as Hin by (apply Hold; by eexists).
      apply list_elem_of_fmap in Hin as (c & -> & Hin). exists c.
      assert (c ∈ changes ++ added) as Hin' by set_solver. split; [by apply list_elem_of_In|].
      specialize (Hchange c Hin'). unfold surface_change in Hchange. rewrite Ho, Hn, decide_False in Hchange by auto.
      by apply bool_decide_eq_true.
Qed.
