(* ===== verification/RuntimeState.v ===== *)
(** * The core runtime: state, boot and lifecycle

    crates/mutsuki-runtime-core/src/runtime.rs.  [CoreRuntime] owns every other
    component; its methods run the operations of the components on its fields
    and report what happened in the event and trace logs. *)

From S2P Require Import Prelude Contracts RunnerContracts BatchContracts PluginContracts Logs StateStore ResourceManager TaskRecords TaskIndexes TaskPool TaskClaiming Registry.

(** [BTreeMap::from([(k, v), ..])] and successive [insert]s. *)
Definition attr_map (l : list (string * ScalarValue)) : gmap string ScalarValue :=
  foldl (λ m kv, <[ kv.1 := kv.2 ]> m) ∅ l.

(** [n as i64] of a counter, as an attribute. *)
Definition attr_int (n : N) : ScalarValue := ScalarInt (u64_as_i64 n).

Inductive RuntimeStopState : Type := StopRunning | StopDraining | StopAborted.

#[export] Instance RuntimeStopState_eq_dec : EqDecision RuntimeStopState.
Proof. solve_decision. Defined.

Record RuntimeStatistics : Type := MkRuntimeStatistics {
  rs_tasks : TaskPoolStatistics;
  rs_retained_events : N;
  rs_dropped_events : N;
  rs_retained_traces : N;
  rs_dropped_traces : N;
  rs_scheduler_decisions : N
}.

Section Runtime.
Context `{RA : RunnerApi}.

Record TaskResultSnapshot : Type := MkTaskResultSnapshot {
  trs_task_id : string;
  trs_status : TaskStatus;
  trs_output : option Value;
  trs_output_ref : option string;
  trs_continuation_ref : option string;
  trs_failure : option RuntimeError
}.

Record DrainingGeneration : Type := MkDrainingGeneration {
  dg_registry_generation : N;
  dg_runner_ids : list string;
  dg_registry : RunnerRegistry
}.

Record CoreRuntime : Type := MkCoreRuntime {
  rt_load_plan : RuntimeLoadPlan;
  rt_handler_bindings : HandlerBindingRegistry;
  rt_surfaces : list ContractSurface;
  rt_protocol_classes : gmap string ProtocolClass;
  rt_registry : RunnerRegistry;
  rt_draining_generations : list DrainingGeneration;
  rt_generation_states : list PluginGenerationState;
  rt_tasks : TaskPool;
  rt_resources : ResourceManager;
  rt_states : StateStore;
  rt_events : EventLog;
  rt_traces : TraceLog;
  rt_scheduler_decisions : N;
  rt_current_step : N;
  rt_stop_state : RuntimeStopState
}.

Definition CoreRuntime_eta (r : CoreRuntime) : CoreRuntime :=
  {| rt_load_plan := rt_load_plan r;
     rt_handler_bindings := rt_handler_bindings r;
     rt_surfaces := rt_surfaces r;
     rt_protocol_classes := rt_protocol_classes r;
     rt_registry := rt_registry r;
     rt_draining_generations := rt_draining_generations r;
     rt_generation_states := rt_generation_states r;
     rt_tasks := rt_tasks r;
     rt_resources := rt_resources r;
     rt_states := rt_states r;
     rt_events := rt_events r;
     rt_traces := rt_traces r;
     rt_scheduler_decisions := rt_scheduler_decisions r;
     rt_current_step := rt_current_step r;
     rt_stop_state := rt_stop_state r |}.
#[export] Instance set_rt_load_plan : Setter rt_load_plan := ltac:(derive_setter CoreRuntime_eta rt_load_plan).
#[export] Instance set_rt_handler_bindings : Setter rt_handler_bindings := ltac:(derive_setter CoreRuntime_eta rt_handler_bindings).
#[export] Instance set_rt_surfaces : Setter rt_surfaces := ltac:(derive_setter CoreRuntime_eta rt_surfaces).
#[export] Instance set_rt_protocol_classes : Setter rt_protocol_classes := ltac:(derive_setter CoreRuntime_eta rt_protocol_classes).
#[export] Instance set_rt_registry : Setter rt_registry := ltac:(derive_setter CoreRuntime_eta rt_registry).
#[export] Instance set_rt_draining_generations : Setter rt_draining_generations := ltac:(derive_setter CoreRuntime_eta rt_draining_generations).
#[export] Instance set_rt_generation_states : Setter rt_generation_states := ltac:(derive_setter CoreRuntime_eta rt_generation_states).
#[export] Instance set_rt_tasks : Setter rt_tasks := ltac:(derive_setter CoreRuntime_eta rt_tasks).
#[export] Instance set_rt_resources : Setter rt_resources := ltac:(derive_setter CoreRuntime_eta rt_resources).
#[export] Instance set_rt_states : Setter rt_states := ltac:(derive_setter CoreRuntime_eta rt_states).
#[export] Instance set_rt_events : Setter rt_events := ltac:(derive_setter CoreRuntime_eta rt_events).
#[export] Instance set_rt_traces : Setter rt_traces := ltac:(derive_setter CoreRuntime_eta rt_traces).
#[export] Instance set_rt_scheduler_decisions : Setter rt_scheduler_decisions := ltac:(derive_setter CoreRuntime_eta rt_scheduler_decisions).
#[export] Instance set_rt_current_step : Setter rt_current_step := ltac:(derive_setter CoreRuntime_eta rt_current_step).
#[export] Instance set_rt_stop_state : Setter rt_stop_state := ltac:(derive_setter CoreRuntime_eta rt_stop_state).

(** ** Running a component's operation on its field *)

Definition on_tasks {A} (c : M TaskPool A) : M CoreRuntime A := λ s,
  match c (rt_tasks s) with Some (a, p) => Some (a, s <| rt_tasks := p |>) | None => None end.
Definition on_resources {A} (c : M ResourceManager A) : M CoreRuntime A := λ s,
  match c (rt_resources s) with Some (a, r) => Some (a, s <| rt_resources := r |>) | None => None end.
Definition on_states {A} (c : M StateStore A) : M CoreRuntime A := λ s,
  match c (rt_states s) with Some (a, r) => Some (a, s <| rt_states := r |>) | None => None end.
Definition on_registry {A} (c : M RunnerRegistry A) : M CoreRuntime A := λ s,
  match c (rt_registry s) with Some (a, r) => Some (a, s <| rt_registry := r |>) | None => None end.

(** [self.events.record(..)], the recorded event left out. *)
Definition record_event (kind : RuntimeEventKind) (name : string) (subject_id : option string)
    (attributes : gmap string ScalarValue) (error : option RuntimeError) : M CoreRuntime unit :=
  modify (λ s, s <| rt_events := (event_record kind name subject_id attributes error (rt_events s)).2 |>).

Definition record_span (trace_id name : string) (status : SpanStatus) (attributes : gmap string ScalarValue) :
    M CoreRuntime (option TraceSpan) := λ s,
  let '(span, traces) := trace_record trace_id name None status attributes (rt_traces s) in
  Some (span, s <| rt_traces := traces |>).

(** ** Boot *)

Definition protocol_classes_for_plan (load_plan : RuntimeLoadPlan) : gmap string ProtocolClass :=
  foldl (λ m plugin, pv_protocol_classes (pm_provides plugin) ∪ m) ∅ (plan_plugins load_plan).

Definition generation_states_for_plan (load_plan : RuntimeLoadPlan) (phase : PluginGenerationPhase) :
    list PluginGenerationState :=
  (λ plugin, {| pgs_plugin_id := pm_plugin_id plugin; pgs_generation := plan_registry_generation load_plan;
                pgs_phase := phase |}) <$> plan_plugins load_plan.

(** The registration part of [boot_with_async_handlers], which a reload runs as
    well. *)
Definition build_registry (runners : list Runner) (async_handlers : list AsyncHandler) :
    M RunnerRegistry (RuntimeResult unit) :=
  let? _ := try_for_each runners register in
  let? _ := try_for_each async_handlers register_async_handler in
  let! registry := get in
  match validate_instance_counts registry with
  | Err e => ret (Err e)
  | Ok _ => freeze ;;! ret (Ok tt)
  end.

Definition boot_with_async_handlers (load_plan : RuntimeLoadPlan) (runners : list Runner)
    (async_handlers : list AsyncHandler) : option (RuntimeResult CoreRuntime) :=
  let runner_descriptors := (runner_descriptor <$> runners) ++ (handler_descriptor <$> async_handlers) in
  match validate_runtime_descriptors load_plan runner_descriptors with
  | Err e => Some (Err e)
  | Ok _ =>
      match build_registry runners async_handlers RunnerRegistry_default with
      | None => None
      | Some (Err e, _) => Some (Err e)
      | Some (Ok _, registry) =>
          events ← EventLog_with_profile (obs_events (plan_observability load_plan));
          traces ← TraceLog_with_profile (obs_traces (plan_observability load_plan));
          Some (Ok
          {| rt_load_plan := load_plan;
             rt_handler_bindings := from_load_plan load_plan;
             rt_surfaces := plan_contract_surfaces load_plan;
             rt_protocol_classes := protocol_classes_for_plan load_plan;
             rt_registry := registry;
             rt_draining_generations := [];
             rt_generation_states := generation_states_for_plan load_plan PhaseActive;
             rt_tasks := TaskPool_default;
             rt_resources := ResourceManager_new;
             rt_states := MkStateStore ∅;
             rt_events := events;
             rt_traces := traces;
             rt_scheduler_decisions := 0;
             rt_current_step := 0;
             rt_stop_state := StopRunning |})
      end
  end.

Definition boot (load_plan : RuntimeLoadPlan) (runners : list Runner) : option (RuntimeResult CoreRuntime) :=
  boot_with_async_handlers load_plan runners [].

(** ** Queries *)

Record RegistrySnapshot : Type := MkRegistrySnapshot {
  rsn_generation : N;
  rsn_frozen : bool;
  rsn_runners : list RunnerDescriptor;
  rsn_handler_bindings : list HandlerBinding;
  rsn_surfaces : list ContractSurface
}.

Definition registry_snapshot (self : CoreRuntime) : RegistrySnapshot :=
  {| rsn_generation := plan_registry_generation (rt_load_plan self);
     rsn_frozen := true;
     rsn_runners := reg_descriptor_snapshot (rt_registry self);
     rsn_handler_bindings := hbr_bindings (rt_handler_bindings self);
     rsn_surfaces := rt_surfaces self |}.

Definition rt_handler_bindings_for (self : CoreRuntime) (protocol_id : string) : list HandlerBinding :=
  query_protocol (rt_handler_bindings self) protocol_id.

Definition register_handler_binding (binding : HandlerBinding) : RuntimeResult unit :=
  runtime_failure ERR_REGISTRY_FROZEN "runtime.handler_binding" ("handler_binding." +:+ hb_binding_id binding).

Definition next_required_step (self : CoreRuntime) : option N :=
  next_required_step_after (rt_tasks self) (rt_current_step self).

Definition rt_statistics (self : CoreRuntime) : RuntimeStatistics :=
  {| rs_tasks := p_statistics (rt_tasks self);
     rs_retained_events := len (bl_records (el_inner (rt_events self)));
     rs_dropped_events := bl_dropped (el_inner (rt_events self));
     rs_retained_traces := len (bl_records (tl_inner (rt_traces self)));
     rs_dropped_traces := bl_dropped (tl_inner (rt_traces self));
     rs_scheduler_decisions := rt_scheduler_decisions self |}.

Definition task_status (self : CoreRuntime) (task_id : string) : option TaskStatus :=
  r_status <$> pool_get (rt_tasks self) task_id.

(** ** Lifecycle *)

Definition record_task_terminal_event (task_id name : string) (error : option RuntimeError) : M CoreRuntime unit :=
  record_event EventTask name (Some task_id) ∅ error.

Definition begin_drain : M CoreRuntime (RuntimeResult RuntimeStopState) :=
  let! self := get in
  match rt_stop_state self with
  | StopRunning =>
      modify (λ s, s <| rt_stop_state := StopDraining |>) ;;!
      record_event EventLifecycle "runtime.drain_started" None ∅ None ;;!
      ret (Ok StopDraining)
  | StopDraining => ret (Ok StopDraining)
  | StopAborted => ret (runtime_failure ERR_RUNTIME_ABORTED "runtime.lifecycle" "runtime.drain.aborted")
  end.

Definition abort_failure (reason : string) : RuntimeError :=
  with_evidence "reason" (ScalarString reason)
    (runtime_error ERR_RUNTIME_ABORTED "runtime.lifecycle" "runtime.abort").

Definition abort (reason : string) : M CoreRuntime (RuntimeResult N) :=
  let! self := get in
  if decide (rt_stop_state self = StopAborted) then ret (Ok 0%N)
  else
    modify (λ s, s <| rt_stop_state := StopAborted |>) ;;!
    let failure := abort_failure reason in
    let! aborted := on_tasks (abort_all (rt_current_step self) failure) in
    for_each aborted (λ task_id, record_task_terminal_event task_id "task.cancelled" (Some failure)) ;;!
    record_event EventLifecycle "runtime.aborted" None
      (attr_map [("reason", ScalarString reason); ("cancelled_tasks", attr_int (len aborted))]) (Some failure) ;;!
    ret (Ok (len aborted)).

Definition is_drained (self : CoreRuntime) : bool :=
  let statistics := p_statistics (rt_tasks self) in
  bool_decide (rt_stop_state self = StopDraining)
  && bool_decide (st_ready statistics = 0%N)
  && bool_decide (st_running statistics = 0%N)
  && bool_decide (st_waiting statistics = 0%N)
  && bool_decide (st_blocked statistics = 0%N).

Definition ensure_accepting_external_tasks (self : CoreRuntime) : RuntimeResult unit :=
  match rt_stop_state self with
  | StopRunning => Ok tt
  | StopAborted => runtime_failure ERR_RUNTIME_ABORTED "runtime.lifecycle" "runtime.submit"
  | StopDraining => runtime_failure ERR_RUNTIME_NOT_ACCEPTING "runtime.lifecycle" "runtime.submit"
  end.

Definition ensure_not_aborted (self : CoreRuntime) : RuntimeResult unit :=
  if decide (rt_stop_state self = StopAborted)
  then runtime_failure ERR_RUNTIME_ABORTED "runtime.lifecycle" "runtime.execute.aborted"
  else Ok tt.

(** ** Configuration and management *)

Definition with_observability (observability : ObservabilityProfile) (plan : RuntimeLoadPlan) : RuntimeLoadPlan :=
  {| plan_lock_version := plan_lock_version plan; plan_core_api_version := plan_core_api_version plan;
     plan_profile_id := plan_profile_id plan; plan_profile_hash := plan_profile_hash plan;
     plan_registry_generation := plan_registry_generation plan; plan_plugins := plan_plugins plan;
     plan_load_order := plan_load_order plan; plan_runner_bindings := plan_runner_bindings plan;
     plan_plugin_deployments := plan_plugin_deployments plan; plan_observability := observability;
     plan_capability_graph := plan_capability_graph plan;
     plan_contract_surfaces := plan_contract_surfaces plan |}.

Definition configure_event_capacity (capacity : N) : M CoreRuntime unit :=
  modify (λ s,
    let profile := plan_observability (rt_load_plan s) in
    s <| rt_load_plan ::= with_observability
           {| obs_events := MkObservabilityOutletProfile capacity (op_overflow_policy (obs_events profile));
              obs_traces := obs_traces profile;
              obs_detailed_scheduler_decisions := obs_detailed_scheduler_decisions profile;
              obs_dispatch_spans := obs_dispatch_spans profile |} |>
      <| rt_events ::= λ events, MkEventLog (log_set_capacity capacity (el_inner events)) |>).

Definition configure_observability (profile : ObservabilityProfile) : M CoreRuntime unit :=
  modify (λ s, s <| rt_events ::= event_configure (obs_events profile) |>
                 <| rt_traces ::= trace_configure (obs_traces profile) |>
                 <| rt_load_plan ::= with_observability profile |>).

Definition configure_task_history_retention (retention : option TaskHistoryRetention) : M CoreRuntime unit :=
  on_tasks (configure_history_retention retention).

Definition runner_heartbeat (runner_id executor_id : string) : M CoreRuntime (RuntimeResult RunnerHeartbeat) :=
  let! self := get in
  on_registry (heartbeat runner_id executor_id (rt_current_step self)).

Definition runner_capability (runner_id : string) (protocol_ids : list string) (capacity : N) :
    M CoreRuntime (RuntimeResult RunnerCapabilityDeclaration) :=
  on_registry (declare_capability runner_id protocol_ids capacity).

Definition cancel_runner_invocation (runner_id invocation_or_task_id : string) : M CoreRuntime (RuntimeResult unit) :=
  on_registry (cancel_runner runner_id invocation_or_task_id).

(** ** Deprecated surfaces and suspension *)

Definition is_surface_deprecated (self : CoreRuntime) (surface_id : string) : bool :=
  existsb (λ surface, bool_decide (cs_surface_id surface = surface_id) && cs_deprecated surface) (rt_surfaces self).

Definition ensure_surface_not_deprecated (self : CoreRuntime) (surface_id source : string) : RuntimeResult unit :=
  if is_surface_deprecated self surface_id
  then runtime_failure ERR_RELOAD_BLOCKED source ("surface.deprecated." +:+ surface_id)
  else Ok tt.

Definition ensure_resource_surfaces_not_deprecated (self : CoreRuntime) (schema : string)
    (provider_id : option string) (source : string) : RuntimeResult unit :=
  letr? _ := ensure_surface_not_deprecated self schema source in
  letr? _ := ensure_surface_not_deprecated self ("resource_schema:" +:+ schema) source in
  match provider_id with
  | None => Ok tt
  | Some provider_id =>
      letr? _ := ensure_surface_not_deprecated self provider_id source in
      ensure_surface_not_deprecated self ("resource_provider:" +:+ provider_id) source
  end.

Definition ensure_task_can_suspend (self : CoreRuntime) (task_id : string) : RuntimeResult unit :=
  match active_mutable_lease_routes_for_task (rt_resources self) task_id with
  | [] => Ok tt
  | active_mutable =>
      Err (with_evidence "active_mutable_leases" (ScalarString (String.concat "," active_mutable))
             (runtime_error "resource.lease_cross_await" "runtime.resource_manager" ("task.await." +:+ task_id)))
  end.

(** ** Waking *)

Definition is_suspended (status : option TaskStatus) : bool :=
  match status with Some Waiting | Some Blocked => true | _ => false end.

(** The loop of [wake_tasks_waiting_on] over the waits taken from the pool. *)
Fixpoint wake_waits (child_task_id : string) (waits : list TaskAwait) (woken : N) : M CoreRuntime (RuntimeResult N) :=
  match waits with
  | [] => ret (Ok woken)
  | task_await :: waits =>
      let! self := get in
      let parent_task_id := aw_parent_task_id task_await in
      if is_suspended (task_status self parent_task_id) then
        let? _ := on_tasks (wake parent_task_id (rt_current_step self)) in
        record_event EventTask "task.wake" (Some parent_task_id)
          (attr_map [("child_task_id", ScalarString child_task_id)]) None ;;!
        wake_waits child_task_id waits (woken + 1)
      else wake_waits child_task_id waits woken
  end.

Definition wake_tasks_waiting_on (child_task_id : string) : M CoreRuntime (RuntimeResult N) :=
  let! waits := on_tasks (take_waits_for_child child_task_id) in
  wake_waits child_task_id waits 0.

Definition rt_wake_due_tasks : M CoreRuntime N :=
  let! self := get in
  let! due_tasks := on_tasks (wake_due_tasks (rt_current_step self)) in
  for_each due_tasks (λ due,
    record_event EventTask "task.wake" (Some due.1)
      (attr_map [("reason", ScalarString "ready_at_step"); ("ready_at_step", attr_int due.2)]) None) ;;!
  ret (len due_tasks).

(** The ready tasks whose expectations no longer hold, with the error. *)
Definition stale_ready_tasks (self : CoreRuntime) : list (string * RuntimeError) :=
  omap (λ task_id,
    match pool_get (rt_tasks self) task_id with
    | None => None
    | Some record =>
        match validate_expectations (rt_states self) (t_expected_versions (r_task record))
                ("task.precondition." +:+ task_id) with
        | Ok _ => None
        | Err failure => Some (task_id, failure)
        end
    end) (stale_expectation_task_ids (rt_tasks self)).

Fixpoint reject_stale (stale_tasks : list (string * RuntimeError)) (rejected : N) : M CoreRuntime (RuntimeResult N) :=
  match stale_tasks with
  | [] => ret (Ok rejected)
  | (task_id, failure) :: stale_tasks =>
      let? _ := on_tasks (reject_ready task_id failure) in
      record_task_terminal_event task_id "task.failed" (Some failure) ;;!
      let? _ := wake_tasks_waiting_on task_id in
      reject_stale stale_tasks (rejected + 1)
  end.

Definition reject_stale_ready_tasks : M CoreRuntime (RuntimeResult N) :=
  let! self := get in
  reject_stale (stale_ready_tasks self) 0.
End Runtime.
