(* ===== verification/RuntimeTasks.v ===== *)
(** * The core runtime: tasks

    crates/mutsuki-runtime-core/src/runtime/task_api.rs: submission, queries on
    tasks, cancellation and the other transitions the kernel makes itself. *)

From S2P Require Import Prelude Contracts RunnerContracts BatchContracts PluginContracts Logs StateStore ResourceManager TaskRecords TaskIndexes TaskPool TaskClaiming TaskOccupancy Registry RuntimeState.

Section TaskApi.
Context `{RA : RunnerApi}.

(** ** Submission *)

Definition enqueue_task (task : Task) : M CoreRuntime (RuntimeResult string) :=
  let! self := get in
  match ensure_not_aborted self with
  | Err e => ret (Err e)
  | Ok _ =>
      let task :=
        if decide (t_registry_generation task = 0%N)
        then task <| t_registry_generation := plan_registry_generation (rt_load_plan self) |> else task in
      let deprecated_surface :=
        List.find (is_surface_deprecated self) (surface_ids_for_task task (rt_protocol_classes self)) in
      let? task_id := on_tasks (enqueue_at task (rt_current_step self)) in
      match deprecated_surface with
      | Some surface_id =>
          on_tasks (reject_ready task_id
            (runtime_error ERR_RELOAD_BLOCKED "runtime.result_router" ("surface.deprecated." +:+ surface_id))) ;;!
          ret tt
      | None => ret tt
      end ;;!
      record_event EventTask "task.enqueue" (Some task_id) ∅ None ;;!
      record_event EventTask "task.submitted" (Some task_id) ∅ None ;;!
      ret (Ok task_id)
  end.

(** The first loop of [submit_batch]: the first task whose id occurs earlier in
    the batch or is known to the pool. *)
Fixpoint check_batch_ids (pool : TaskPool) (batch_id : string) (seen : gset string) (tasks : list Task) :
    RuntimeResult unit :=
  match tasks with
  | [] => Ok tt
  | task :: tasks =>
      if bool_decide (t_task_id task ∈ seen) || contains_task_id pool (t_task_id task) then
        runtime_failure ERR_TASK_DUPLICATE "runtime.task"
          ("task.batch." +:+ batch_id +:+ "." +:+ t_task_id task)
      else check_batch_ids pool batch_id ({[ t_task_id task ]} ∪ seen) tasks
  end.

Fixpoint enqueue_tasks (tasks : list Task) : M CoreRuntime (RuntimeResult (list string)) :=
  match tasks with
  | [] => ret (Ok [])
  | task :: tasks =>
      let? task_id := enqueue_task task in
      let? task_ids := enqueue_tasks tasks in
      ret (Ok (task_id :: task_ids))
  end.

Definition task_handle_for_id (self : CoreRuntime) (task_id : string) : RuntimeResult TaskHandle :=
  match pool_get (rt_tasks self) task_id with
  | None => runtime_failure ERR_TASK_NOT_FOUND "runtime.task" ("task.handle." +:+ task_id)
  | Some record =>
      let task := r_task record in
      Ok {| h_task_id := t_task_id task; h_protocol_id := t_protocol_id task;
            h_target_binding_id := t_target_binding_id task; h_cancel_policy := Cascade;
            h_trace_id := t_trace_id task; h_correlation_id := t_correlation_id task |}
  end.

(** [iter().map(f).collect::<Result<Vec<_>, _>>()] *)
Fixpoint collect_results {A B} (f : A → RuntimeResult B) (l : list A) : RuntimeResult (list B) :=
  match l with
  | [] => Ok []
  | x :: l => letr? y := f x in letr? ys := collect_results f l in Ok (y :: ys)
  end.

Definition submit_batch (batch : TaskBatch) : M CoreRuntime (RuntimeResult (list TaskHandle)) :=
  let! self := get in
  match ensure_accepting_external_tasks self with
  | Err e => ret (Err e)
  | Ok _ =>
      match check_batch_ids (rt_tasks self) (tb_batch_id batch) ∅ (tb_tasks batch) with
      | Err e => ret (Err e)
      | Ok _ =>
          let? task_ids := enqueue_tasks (tb_tasks batch) in
          let! self := get in
          ret (collect_results (task_handle_for_id self) task_ids)
      end
  end.

Definition submit_task (task : Task) : M CoreRuntime (RuntimeResult TaskHandle) :=
  let? handles := submit_batch (TaskBatch_one ("core.submit." +:+ t_task_id task) task) in
  match handles with
  | handle :: _ => ret (Ok handle)
  | [] => ret (runtime_failure ERR_TASK_CLAIM_CONFLICT "runtime.task" "task.submit.empty")
  end.

Definition submit_targeted_task (task_id binding_id : string) (payload : Value) :
    M CoreRuntime (RuntimeResult TaskHandle) :=
  let! self := get in
  match List.find (λ binding, bool_decide (hb_binding_id binding = binding_id))
          (hbr_bindings (rt_handler_bindings self)) with
  | None =>
      ret (runtime_failure ERR_REGISTRY_UNAUTHORIZED "runtime.handler_binding" ("handler_binding." +:+ binding_id))
  | Some binding =>
      submit_task
        ((Task_new task_id (hb_target_protocol_id binding) (PayloadJson payload))
           <| t_target_binding_id := Some (hb_binding_id binding) |>
           <| t_runner_hint := hb_target_runner_hint binding |>)
  end.

(** ** Queries *)

Definition task_handle_status (self : CoreRuntime) (handle : TaskHandle) : option TaskStatus :=
  task_status self (h_task_id handle).

Definition task_result (self : CoreRuntime) (task_id : string) : option TaskResultSnapshot :=
  (λ record,
    {| trs_task_id := t_task_id (r_task record); trs_status := r_status record; trs_output := r_output record;
       trs_output_ref := t_output_ref (r_task record); trs_continuation_ref := t_continuation_ref (r_task record);
       trs_failure := r_failure record |}) <$> pool_get (rt_tasks self) task_id.

Definition task_outcome (self : CoreRuntime) (task_id : string) : RuntimeResult (option TaskOutcome) :=
  match pool_get (rt_tasks self) task_id with
  | None => runtime_failure ERR_TASK_NOT_FOUND "runtime.task" ("task.outcome." +:+ task_id)
  | Some record =>
      let id := t_task_id (r_task record) in
      let reason := e_route <$> r_failure record in
      Ok match r_status record with
         | Completed => Some (OutcomeCompleted id (r_output record) (t_output_ref (r_task record)))
         | Failed => Some (OutcomeFailed id
             (unwrap_or (r_failure record)
                (runtime_error "runner.failed" "runtime.task" ("task.outcome." +:+ task_id))))
         | Cancelled => Some (OutcomeCancelled id reason)
         | Expired => Some (OutcomeExpired id reason)
         | DeadLetter => Some (OutcomeDeadLetter id reason)
         | _ => None
         end
  end.

Definition task_events (self : CoreRuntime) (task_id : string) : list RuntimeEvent :=
  filter (λ event, ev_subject_id event = Some task_id) (bl_records (el_inner (rt_events self))).

(** The order of [Vec<(String, String)>::sort]. *)
Definition pair_le (a b : string * string) : Prop :=
  (a.1 ≠ b.1 ∧ String.le a.1 b.1) ∨ (a.1 = b.1 ∧ String.le a.2 b.2).

#[export] Instance pair_le_dec : RelDecision pair_le.
Proof. unfold pair_le. intros a b. apply _. Defined.

Definition cascade_children (p : TaskPool) (task_id : string) : list string :=
  (λ task_await, h_task_id (aw_child task_await)) <$>
    filter (λ task_await, aw_cancel_policy task_await = Cascade) (awaits_for_parent p task_id).

(** The [while let Some(task_id) = pending.pop()] loop; the stack keeps its top
    at the end. [None] when the fuel runs out. *)
Fixpoint cancellation_loop (fuel : nat) (p : TaskPool) (pending : list string) (visited : gset string)
    (targets : list (string * string)) : option (list (string * string)) :=
  match fuel with
  | O => None
  | S fuel =>
      match last pending with
      | None => Some targets
      | Some task_id =>
          let pending := take (length pending - 1) pending in
          if decide (task_id ∈ visited) then cancellation_loop fuel p pending visited targets
          else
            let targets :=
              match pool_get p task_id ≫= r_owner_runner with
              | Some runner_id => targets ++ [(task_id, runner_id)]
              | None => targets
              end in
            cancellation_loop fuel p (pending ++ cascade_children p task_id) ({[ task_id ]} ∪ visited) targets
      end
  end.

(** Every round takes one entry off the stack, and each parent pushes its
    children at most once. *)
Definition cancellation_fuel (p : TaskPool) : nat :=
  2 + sum_list (length <$> (snd <$> map_to_list (p_waits_by_parent p))).

Definition task_cancellation_targets (self : CoreRuntime) (handle : TaskHandle) : option (list (string * string)) :=
  merge_sort pair_le <$>
    cancellation_loop (cancellation_fuel (rt_tasks self)) (rt_tasks self) [h_task_id handle] ∅ [].

(** ** Transitions by the kernel *)

Definition is_live_status (status : option TaskStatus) : bool :=
  match status with
  | Some (Created | Ready | Running | Waiting | Blocked) => true
  | _ => false
  end.

(** Each nested call cancels a live task first, so the number of tasks bounds
    the depth; [None] when the fuel runs out. *)
Fixpoint cancel_by_id (fuel : nat) (task_id : string) : M CoreRuntime (RuntimeResult unit) :=
  match fuel with
  | O => panic
  | S fuel =>
      let! self := get in
      let awaits := awaits_for_parent (rt_tasks self) task_id in
      if existsb (λ task_await, bool_decide (aw_cancel_policy task_await ≠ Cascade)) awaits then
        ret (runtime_failure "task.cancel_policy_unsupported" "runtime.task" ("task.cancel." +:+ task_id))
      else
        let? _ := on_tasks (cancel_by_core task_id (rt_current_step self)) in
        record_task_terminal_event task_id "task.cancelled" None ;;!
        let? _ := try_for_each awaits (λ task_await,
          let! self := get in
          let child := h_task_id (aw_child task_await) in
          if is_live_status (task_status self child) then cancel_by_id fuel child else ret (Ok tt)) in
        let? _ := wake_tasks_waiting_on task_id in
        ret (Ok tt)
  end.

Definition cancel_task_by_id (task_id : string) : M CoreRuntime (RuntimeResult unit) :=
  let! self := get in
  cancel_by_id (S (size (p_tasks (rt_tasks self)))) task_id.

Definition cancel_task_handle (handle : TaskHandle) : M CoreRuntime (RuntimeResult unit) :=
  cancel_task_by_id (h_task_id handle).

Definition expire_task (task_id reason : string) : M CoreRuntime (RuntimeResult unit) :=
  let! self := get in
  let failure := with_evidence "reason" (ScalarString reason)
    (runtime_error ERR_TASK_EXPIRED "runtime.task" ("task.expire." +:+ task_id)) in
  let? _ := on_tasks (expire_by_core task_id failure (rt_current_step self)) in
  record_task_terminal_event task_id "task.expired" (Some failure) ;;!
  let? _ := wake_tasks_waiting_on task_id in
  ret (Ok tt).

Definition dead_letter_task (task_id reason : string) : M CoreRuntime (RuntimeResult unit) :=
  let! self := get in
  let failure := with_evidence "reason" (ScalarString reason)
    (runtime_error ERR_TASK_DEAD_LETTER "runtime.task" ("task.dead_letter." +:+ task_id)) in
  let? _ := on_tasks (dead_letter_by_core task_id failure (rt_current_step self)) in
  record_task_terminal_event task_id "task.dead_lettered" (Some failure) ;;!
  let? _ := wake_tasks_waiting_on task_id in
  ret (Ok tt).

Definition wake_task_by_id (task_id : string) : M CoreRuntime (RuntimeResult unit) :=
  let! self := get in
  on_tasks (wake task_id (rt_current_step self)).

Definition wake_task_handle (handle : TaskHandle) : M CoreRuntime (RuntimeResult unit) :=
  wake_task_by_id (h_task_id handle).
End TaskApi.
