(* ===== verification/BatchBuild.v ===== *)
(** * Building a work batch

    crates/mutsuki-runtime-core/src/runtime/runner_loop/batch.rs and
    trace_metadata.rs: how leased tasks are grouped, turned into the entries of
    a batch with a plan for the resources they touch, and described in spans.

    Below, what the batches built satisfy. *)

From S2P Require Import Prelude Contracts RunnerContracts BatchContracts PluginContracts TaskRecords TaskIndexes TaskPool Registry RuntimeState.

(** ** Debug names used in attributes *)

Definition runner_mode_debug (mode : RunnerMode) : string :=
  match mode with ScalarAdapter => "ScalarAdapter" | NativeBatch => "NativeBatch" | Batch => "Batch" end.

Definition lane_debug (lane : DispatchLane) : string :=
  match lane with
  | LaneControl => "Control" | LaneInteractive => "Interactive" | LaneNormal => "Normal"
  | LaneBackground => "Background" | LaneBulk => "Bulk"
  end.

Section Batch.
Context `{SJ : SerdeJson}.

(** ** Grouping by written resources *)

Definition is_write_mode (mode : ResourceAccessMode) : bool :=
  match mode with ModeWrite | ModeExclusiveWrite => true | ModeRead => false end.

Definition write_requirement_refs (task : Task) : list string :=
  rq_ref_id <$> filter (λ requirement, is_write_mode (rq_mode requirement) = true) (t_resource_requirements task).

(** [groups], [current_group] and [current_write_refs] of the loop. *)
Record SplitState : Type := MkSplitState {
  sp_groups : list (list (TaskLease * Task));
  sp_current : list (TaskLease * Task);
  sp_write_refs : gset string
}.

Definition split_step (s : SplitState) (leased_task : TaskLease * Task) : SplitState :=
  let write_refs := write_requirement_refs leased_task.2 in
  let s :=
    if negb (bool_decide (sp_current s = []))
       && existsb (λ ref_id, bool_decide (ref_id ∈ sp_write_refs s)) write_refs
    then {| sp_groups := sp_groups s ++ [sp_current s]; sp_current := []; sp_write_refs := ∅ |}
    else s in
  {| sp_groups := sp_groups s; sp_current := sp_current s ++ [leased_task];
     sp_write_refs := foldl (λ refs ref_id, {[ ref_id ]} ∪ refs) (sp_write_refs s) write_refs |}.

Definition split_leased_tasks_by_resource_conflict (leased_tasks : list (TaskLease * Task)) :
    list (list (TaskLease * Task)) :=
  let s := foldl split_step {| sp_groups := []; sp_current := []; sp_write_refs := ∅ |} leased_tasks in
  match sp_current s with [] => sp_groups s | _ => sp_groups s ++ [sp_current s] end.

(** ** The resource plan of a batch *)

(** [map.entry(key).or_default().push(index)] *)
Definition push_index (key : string) (index : N) (m : gmap string (list N)) : gmap string (list N) :=
  <[ key := unwrap_or (m !! key) [] ++ [index] ]> m.

Record RequirementScan : Type := MkRequirementScan {
  sc_version_checks : list VersionExpectation;
  sc_read_views : gmap string (list N);
  sc_write_locks : gmap string (list N)
}.

Definition scan_requirement (s : RequirementScan) (indexed : nat * ResourceRequirement) : RequirementScan :=
  let '(index, requirement) := indexed in
  let ref_id := rq_ref_id requirement in
  let index := N.of_nat index in
  {| sc_version_checks :=
       match rq_expected_version requirement with
       | Some expected_version => sc_version_checks s ++ [MkVersionExpectation ref_id expected_version]
       | None => sc_version_checks s
       end;
     sc_read_views :=
       if is_write_mode (rq_mode requirement) then sc_read_views s else push_index ref_id index (sc_read_views s);
     sc_write_locks :=
       if is_write_mode (rq_mode requirement) then push_index ref_id index (sc_write_locks s) else sc_write_locks s |}.

(** The entries with a requirement on a lock that another requirement shares. *)
Definition lock_conflicts (requirement_entry_indices : list N) (conflicts : gset N)
    (lock : string * list N) : gset N :=
  let '(_, requirement_indices) := lock in
  if decide (1 < len requirement_indices)%N then
    foldl (λ conflicts requirement_index,
             match requirement_entry_indices !! N.to_nat requirement_index with
             | Some entry_index => {[ entry_index ]} ∪ conflicts
             | None => conflicts
             end) conflicts requirement_indices
  else conflicts.

Record GroupScan : Type := MkGroupScan {
  gs_conflict_entries : list string;
  gs_serial_groups : list (list string);
  gs_parallel_group : list string
}.

Definition group_entry (conflicts : gset N) (s : GroupScan) (indexed : nat * BatchEntry) : GroupScan :=
  let '(entry_index, entry) := indexed in
  let id := be_entry_id entry in
  if decide (N.of_nat entry_index ∈ conflicts) then
    {| gs_conflict_entries := gs_conflict_entries s ++ [id]; gs_serial_groups := gs_serial_groups s;
       gs_parallel_group := gs_parallel_group s |}
  else
    match be_ordering entry with
    | OrderingNone =>
        {| gs_conflict_entries := gs_conflict_entries s; gs_serial_groups := gs_serial_groups s;
           gs_parallel_group := gs_parallel_group s ++ [id] |}
    | _ =>
        {| gs_conflict_entries := gs_conflict_entries s; gs_serial_groups := gs_serial_groups s ++ [[id]];
           gs_parallel_group := gs_parallel_group s |}
    end.

(** [iter().enumerate()] *)
Definition enumerate {A} (l : list A) : list (nat * A) := imap pair l.

Definition build_work_resource_plan (work_set : WorkSet) (requirement_entry_indices : list N) : WorkResourcePlan :=
  let scan := foldl scan_requirement (MkRequirementScan [] ∅ ∅) (enumerate (ws_resource_requirements work_set)) in
  let locks := btree_entries (sc_write_locks scan) in
  let conflicts := foldl (lock_conflicts requirement_entry_indices) ∅ locks in
  let groups := foldl (group_entry conflicts) (MkGroupScan [] [] []) (enumerate (ws_entries work_set)) in
  {| wp_read_views := (λ e, MkResourceReadView e.1 e.2) <$> btree_entries (sc_read_views scan);
     wp_write_locks := (λ e, MkResourceWriteLock e.1 e.2) <$> locks;
     wp_parallel_groups := match gs_parallel_group groups with [] => [] | group => [group] end;
     wp_serial_groups := gs_serial_groups groups;
     wp_parallelism_limit :=
       if bool_decide (gs_serial_groups groups = []) && bool_decide (gs_conflict_entries groups = [])
       then N.max (len (ws_entries work_set)) 1 else 1;
     wp_version_checks := sc_version_checks scan;
     wp_deferred_writes := [];
     wp_conflict_entries := gs_conflict_entries groups |}.

(** ** The batch *)

Record BatchScan : Type := MkBatchScan {
  bs_requirements : list ResourceRequirement;
  bs_entry_indices : list N;
  bs_entries : list BatchEntry
}.

(** [(start..end).collect()] *)
Definition index_range (start stop : nat) : list N := N.of_nat <$> seq start (stop - start).

Definition add_entry (s : BatchScan) (indexed : nat * (TaskLease * Task)) : BatchScan :=
  let '(payload_index, (_, task)) := indexed in
  let resource_start := length (bs_requirements s) in
  let requirements := bs_requirements s ++ t_resource_requirements task in
  {| bs_requirements := requirements;
     bs_entry_indices :=
       bs_entry_indices s ++ replicate (length (t_resource_requirements task)) (N.of_nat payload_index);
     bs_entries := bs_entries s ++
       [{| be_entry_id := t_task_id task; be_task_id := t_task_id task; be_trace_id := t_trace_id task;
           be_parent_id := None; be_payload_index := N.of_nat payload_index;
           be_resource_requirement_indices := index_range resource_start (length requirements);
           be_cancel_index := Some (N.of_nat payload_index); be_deadline_tick := None;
           be_priority := t_priority task; be_lane := t_dispatch_lane task; be_ordering := t_ordering task |}] |}.

Definition build_work_batch (current_step : N) (batch_id : string) (descriptor : RunnerDescriptor)
    (leased_tasks : list (TaskLease * Task)) : WorkBatch :=
  let tick_id := "tick-" +:+ pretty current_step in
  let scan := foldl add_entry (MkBatchScan [] [] []) (enumerate leased_tasks) in
  let work_set :=
    {| ws_tick_id := tick_id; ws_batch_key := d_runner_id descriptor; ws_entries := bs_entries scan;
       ws_resource_requirements := bs_requirements scan |} in
  {| wb_batch_id := batch_id; wb_tick_id := tick_id; wb_batch_key := ws_batch_key work_set;
     wb_entries := ws_entries work_set;
     wb_payload := from_local_tasks (leased_tasks.*2);
     wb_resource_plan := build_work_resource_plan work_set (bs_entry_indices scan);
     wb_task_leases := leased_tasks.*1 |}.

(** ** Attributes of spans *)

Section Attributes.
Context `{ST : !SerdeTypes}.

Definition dispatch_batch_attrs (descriptor : RunnerDescriptor) (batch : WorkBatch) (task_leases : list TaskLease)
    (executor_id : string) : gmap string ScalarValue :=
  let plan := wb_resource_plan batch in
  attr_map (
    [("executor_id", ScalarString executor_id);
     ("task_count", attr_int (len (wb_entries batch)));
     ("entry_count", attr_int (len (wb_entries batch)));
     ("batch_id", ScalarString (wb_batch_id batch));
     ("tick_id", ScalarString (wb_tick_id batch));
     ("payload_layout", ScalarString (layout_as_str (layout (wb_payload batch))));
     ("resource_conflict_count", attr_int (len (wp_conflict_entries plan)));
     ("parallel_group_count", attr_int (len (wp_parallel_groups plan)));
     ("serial_group_count", attr_int (len (wp_serial_groups plan)));
     ("effective_concurrency", attr_int (wp_parallelism_limit plan));
     ("runner_mode", ScalarString (runner_mode_debug (bc_mode (d_batch descriptor))))]
    ++ match wb_entries batch with
       | entry :: _ =>
           [("entry_id", ScalarString (be_entry_id entry)); ("task_id", ScalarString (be_task_id entry));
            ("lane", ScalarString (lane_debug (be_lane entry)))]
       | [] => []
       end
    ++ match task_at (wb_payload batch) 0 with
       | Ok task =>
           match t_correlation_id task with
           | Some correlation_id => [("correlation_id", ScalarString correlation_id)]
           | None => []
           end
       | Err _ => []
       end
    ++ [("task_lease_ids", ScalarString (String.concat "," (l_lease_id <$> task_leases)))]).

End Attributes.

Definition descriptor_fingerprint (runner : RunnerDescriptor) : string :=
  "runner:" +:+ d_runner_id runner +:+ ":" +:+ d_plugin_id runner +:+ ":" +:+ pretty (d_plugin_generation runner)
    +:+ ":" +:+ String.concat "," (d_accepted_protocol_ids runner).

Definition contract_fingerprint (runner : RunnerDescriptor) (load_plan : RuntimeLoadPlan) : string :=
  String.concat ";" (sort_strings ((λ surface_id,
    let fingerprint :=
      match List.find (λ surface, bool_decide (cs_surface_id surface = surface_id)) (plan_contract_surfaces load_plan) with
      | Some surface => cs_fingerprint surface
      | None => "missing"
      end in
    surface_id +:+ "=" +:+ fingerprint) <$> d_contract_surfaces runner)).

Definition runner_attrs (runner : RunnerDescriptor) (load_plan : RuntimeLoadPlan) : gmap string ScalarValue :=
  attr_map
    [("runner_id", ScalarString (d_runner_id runner));
     ("plugin_id", ScalarString (d_plugin_id runner));
     ("plugin_generation", attr_int (d_plugin_generation runner));
     ("artifact_hash", ScalarString
        match List.find (λ plugin, bool_decide (pm_plugin_id plugin = d_plugin_id runner)) (plan_plugins load_plan) with
        | Some plugin => pa_sha256 (pm_artifact plugin)
        | None => "unknown"
        end);
     ("descriptor_hash", ScalarString (descriptor_fingerprint runner));
     ("contract_fingerprint", ScalarString (contract_fingerprint runner load_plan))].

Definition trace_attrs (span : TraceSpan) : gmap string ScalarValue :=
  attr_map
    [("trace_id", ScalarString (span_trace_id span));
     ("span_id", ScalarString (span_span_id span));
     ("span_name", ScalarString (span_name span))].
End Batch.

(** ** What a work batch guarantees

    Leased tasks are split where their writes collide, and the batch built from
    a group has one entry per task, in order, each with its own requirements;
    its resource plan sends every entry to exactly one place. *)

Section BatchFacts.
Context `{SJ : SerdeJson}.
Implicit Types l g h : list (TaskLease * Task).
Implicit Types x y : TaskLease * Task.

Definition writes x : list string := write_requirement_refs x.2.

(** ** Splitting *)

(** Two tasks of the group write different resources. *)
Definition conflict_free g : Prop :=
  ∀ i j x y ref_id, i < j → g !! i = Some x → g !! j = Some y → ref_id ∈ writes x → ref_id ∉ writes y.

(** The first task of [h] writes what some task of [g] writes. *)
Definition forced g h : Prop := ∃ x y ref_id, head h = Some x ∧ y ∈ g ∧ ref_id ∈ writes x ∧ ref_id ∈ writes y.

Definition adjacent_forced (groups : list (list (TaskLease * Task))) : Prop :=
  ∀ i g h, groups !! i = Some g → groups !! S i = Some h → forced g h.

Record split_inv l (s : SplitState) : Prop := {
  si_concat : concat (sp_groups s) ++ sp_current s = l;
  si_nonempty : Forall (λ g, g ≠ []) (sp_groups s);
  si_start : sp_current s = [] → sp_groups s = [];
  si_free : Forall conflict_free (sp_groups s ++ [sp_current s]);
  si_refs : ∀ ref_id, ref_id ∈ sp_write_refs s ↔ ∃ x, x ∈ sp_current s ∧ ref_id ∈ writes x;
  si_forced : adjacent_forced (sp_groups s ++ [sp_current s])
}.

Lemma elem_of_foldl_insert (refs : list string) (X : gset string) ref_id :
  ref_id ∈ foldl (λ X r, {[ r ]} ∪ X) X refs ↔ ref_id ∈ X ∨ ref_id ∈ refs.
Proof. revert X. induction refs as [|r refs IH]; intros X; cbn; [set_solver|]. rewrite IH. set_solver. Qed.

Lemma conflict_free_snoc g x :
  conflict_free g → (∀ y ref_id, y ∈ g → ref_id ∈ writes y → ref_id ∉ writes x) → conflict_free (g ++ [x]).
Proof.
  intros Hg Hx i j a b ref_id Hij Ha Hb.
  apply lookup_app_Some in Hb as [Hb|[Hlen Hb]].
  - rewrite lookup_app_l in Ha by (apply lookup_lt_Some in Hb; lia). by eapply Hg.
  - apply list_lookup_singleton_Some in Hb as [Hj <-]. rewrite lookup_app_l in Ha by lia.
    apply Hx. by eapply list_elem_of_lookup_2.
Qed.

Lemma conflict_free_singleton x : conflict_free [x].
Proof. intros [|i] [|j] a b ref_id Hij Ha Hb; cbn in *; try done; lia. Qed.

Lemma adjacent_forced_snoc groups g h : adjacent_forced (groups ++ [g]) → forced g h → adjacent_forced ((groups ++ [g]) ++ [h]).
Proof.
  intros Hf Hgh i a b Ha Hb. apply lookup_app_Some in Hb as [Hb|[Hlen Hb]].
  - rewrite lookup_app_l in Ha by (apply lookup_lt_Some in Hb; lia). by eapply Hf.
  - apply list_lookup_singleton_Some in Hb as [Hi <-]. rewrite length_app in *. cbn in *.
    rewrite lookup_app_l in Ha by (rewrite length_app; cbn; lia). rewrite lookup_app_r in Ha by lia.
    assert (i - length groups = 0) as E by lia. rewrite E in Ha. by simplify_eq/=.
Qed.

(** Only the last group grows; what precedes it stays. *)
Lemma adjacent_forced_grow groups g g' :
  adjacent_forced (groups ++ [g]) → (∀ h, forced h g → forced h g') → adjacent_forced (groups ++ [g']).
Proof.
  intros Hf Hg i a b Ha Hb. apply lookup_app_Some in Hb as [Hb|[Hlen Hb]].
  - rewrite lookup_app_l in Ha by (apply lookup_lt_Some in Hb; lia).
    apply (Hf i); rewrite lookup_app_l by (apply lookup_lt_Some in Ha; apply lookup_lt_Some in Hb; lia); done.
  - apply list_lookup_singleton_Some in Hb as [Hi <-]. rewrite lookup_app_l in Ha by lia. apply Hg, (Hf i).
    + rewrite lookup_app_l by (by apply lookup_lt_Some in Ha). done.
    + rewrite lookup_app_r by lia. by rewrite Hi.
Qed.

Lemma split_step_inv l s x : split_inv l s → split_inv (l ++ [x]) (split_step s x).
Proof.
  intros [Hc Hn Hst Hf Hr Hadj]. unfold split_step. fold (writes x).
  apply Forall_app in Hf as [Hf [Hcur _]%Forall_cons].
  destruct (negb _ && _) eqn:Hcut.
  - apply andb_true_iff in Hcut as [Hne%negb_true_iff Hex]. apply bool_decide_eq_false_1 in Hne.
    apply existsb_exists in Hex as (ref_id & Hin%list_elem_of_In & Hmem%bool_decide_eq_true_1).
    apply Hr in Hmem as (y & Hy & Hyw). split; cbn.
    + rewrite concat_app. cbn. rewrite app_nil_r. by rewrite <-Hc.
    + apply Forall_app. split; [done|]. by constructor.
    + done.
    + apply Forall_app. split; [apply Forall_app; split; [done|]|]; (constructor; [|constructor]); [done|].
      apply conflict_free_singleton.
    + intros r. rewrite elem_of_foldl_insert, elem_of_empty. split.
      * intros [[]|Hin']. exists x. split; [apply list_elem_of_here|done].
      * intros (z & ->%list_elem_of_singleton & Hz). by right.
    + apply adjacent_forced_snoc; [done|]. by exists x, y, ref_id.
  - split; cbn.
    + by rewrite app_assoc, Hc.
    + done.
    + by intros []%app_nil.
    + apply Forall_app. split; [done|]. constructor; [|constructor]. apply conflict_free_snoc; [done|].
      intros y ref_id Hy Hyw Hxw. apply andb_false_iff in Hcut as [Hcut|Hcut].
      * apply negb_false_iff, bool_decide_eq_true_1 in Hcut. rewrite Hcut in Hy. by apply elem_of_nil in Hy.
      * assert (existsb (λ r, bool_decide (r ∈ sp_write_refs s)) (writes x) = true) as Hx; [|congruence].
        apply existsb_exists. exists ref_id. split; [by apply list_elem_of_In|]. apply bool_decide_eq_true_2, Hr. eauto.
    + intros r. rewrite elem_of_foldl_insert, Hr. split.
      * intros [(z & Hz & Hw)|Hw]; [exists z|exists x]; rewrite elem_of_app, list_elem_of_singleton; auto.
      * intros (z & Hz & Hw). apply elem_of_app in Hz as [Hz| ->%list_elem_of_singleton]; eauto.
    + eapply adjacent_forced_grow; [exact Hadj|]. intros h (a & y & r & Ha & Hrest). exists a, y, r. split; [|done].
      destruct (sp_current s); [done|]. by cbn in *.
Qed.

Lemma split_fold_inv l : split_inv l (foldl split_step {| sp_groups := []; sp_current := []; sp_write_refs := ∅ |} l).
Proof.
  induction l as [|x l IH] using rev_ind.
  - split; cbn; try done.
    + constructor; [|constructor]. intros i j ? ? ? ? Hi. by rewrite lookup_nil in Hi.
    + intros r. split; [by intros ?%elem_of_empty|]. by intros (z & Hz%elem_of_nil & _).
  - rewrite foldl_app. by apply split_step_inv.
Qed.

Lemma split_spec l :
  let groups := split_leased_tasks_by_resource_conflict l in
  concat groups = l ∧ Forall (λ g, g ≠ []) groups ∧ Forall conflict_free groups ∧ adjacent_forced groups.
Proof.
  cbv zeta. unfold split_leased_tasks_by_resource_conflict.
  destruct (split_fold_inv l) as [Hc Hn Hst Hf _ Hadj]. set (s := foldl _ _ _) in *.
  destruct (sp_current s) as [|x current] eqn:E.
  - rewrite (Hst eq_refl) in *. cbn in *. split_and!; [done|constructor|constructor|]. intros i g h. by rewrite lookup_nil.
  - split_and!; [|apply Forall_app; split; [done|by constructor]|done|done]. rewrite concat_app. cbn. by rewrite app_nil_r.
Qed.

(** leased tasks are split into groups by the resources they write.  The
    groups, one after the other, are the leased tasks in their order; no group
    is empty; two tasks of one group never write the same resource; and a group
    ends only where it has to: the first task of the next group writes a
    resource that a task of this group writes. *)
Theorem split_is_greedy_and_conflict_free l :
  let groups := split_leased_tasks_by_resource_conflict l in
  concat groups = l ∧
  (∀ g, g ∈ groups → g ≠ [] ∧
    ∀ i j x y ref_id, i < j → g !! i = Some x → g !! j = Some y →
      ref_id ∈ write_requirement_refs x.2 → ref_id ∉ write_requirement_refs y.2) ∧
  (∀ i g h, groups !! i = Some g → groups !! S i = Some h →
    ∃ x y ref_id, head h = Some x ∧ y ∈ g ∧
      ref_id ∈ write_requirement_refs x.2 ∧ ref_id ∈ write_requirement_refs y.2).
Proof.
  destruct (split_spec l) as (Hc & Hn & Hf & Ha). cbv zeta. split_and!; [done| |exact Ha].
  intros g Hg. rewrite Forall_forall in Hn, Hf. split; [by apply Hn|exact (Hf _ Hg)].
Qed.

(** ** Entries *)

Definition requirements_of l : list ResourceRequirement := concat (t_resource_requirements <$> l.*2).

Lemma enumerate_snoc {A} (l : list A) (x : A) : enumerate (l ++ [x]) = enumerate l ++ [(length l, x)].
Proof. unfold enumerate. rewrite imap_app. cbn. by rewrite Nat.add_0_r. Qed.

Lemma requirements_of_snoc l x : requirements_of (l ++ [x]) = requirements_of l ++ t_resource_requirements x.2.
Proof. unfold requirements_of. rewrite !fmap_app, concat_app. cbn. by rewrite app_nil_r. Qed.

Definition batch_scan l : BatchScan := foldl add_entry (MkBatchScan [] [] []) (enumerate l).

Lemma batch_scan_snoc l x : batch_scan (l ++ [x]) = add_entry (batch_scan l) (length l, x).
Proof. unfold batch_scan. by rewrite enumerate_snoc, foldl_app. Qed.

Lemma batch_scan_requirements l : bs_requirements (batch_scan l) = requirements_of l.
Proof.
  induction l as [|x l IH] using rev_ind; [done|]. rewrite batch_scan_snoc, requirements_of_snoc, <-IH.
  destruct x as [lease task]. done.
Qed.

(** The entry of the task at a position. *)
Definition entry_at l (i : nat) x : BatchEntry :=
  let start := length (requirements_of (take i l)) in
  {| be_entry_id := t_task_id x.2; be_task_id := t_task_id x.2; be_trace_id := t_trace_id x.2; be_parent_id := None;
     be_payload_index := N.of_nat i;
     be_resource_requirement_indices := index_range start (start + length (t_resource_requirements x.2));
     be_cancel_index := Some (N.of_nat i); be_deadline_tick := None; be_priority := t_priority x.2;
     be_lane := t_dispatch_lane x.2; be_ordering := t_ordering x.2 |}.

Lemma batch_scan_entries l : bs_entries (batch_scan l) = imap (λ i x, entry_at l i x) l.
Proof.
  induction l as [|x l IH] using rev_ind; [done|]. rewrite batch_scan_snoc, imap_app. cbn [imap]. rewrite Nat.add_0_r.
  destruct x as [lease task]. cbn [add_entry bs_entries]. rewrite IH, batch_scan_requirements. f_equal.
  - apply imap_ext. intros i y Hy. unfold entry_at. rewrite take_app_le; [done|]. apply lookup_lt_Some in Hy. lia.
  - unfold entry_at. cbn. rewrite length_app, take_app_length. done.
Qed.

Lemma lookup_range {A} (before l after : list A) :
  omap (λ i, (before ++ l ++ after) !! N.to_nat i) (index_range (length before) (length before + length l)) = l.
Proof.
  unfold index_range. replace (length before + length l - length before) with (length l) by lia.
  revert before. induction l as [|x l IH]; intros before; [done|].
  change ((x :: l) ++ after) with (x :: l ++ after). cbn [length seq fmap list_fmap omap list_omap].
  rewrite Nat2N.id, list_lookup_middle by done. f_equal. specialize (IH (before ++ [x])).
  rewrite length_app, Nat.add_1_r in IH. rewrite <-IH at 2. by rewrite <-app_assoc.
Qed.

Lemma requirements_split l i x :
  l !! i = Some x →
  requirements_of l = requirements_of (take i l) ++ t_resource_requirements x.2 ++ requirements_of (drop (S i) l).
Proof.
  intros Hx. rewrite <-(take_drop_middle l i x Hx) at 1. unfold requirements_of.
  rewrite !fmap_app, concat_app. done.
Qed.

(** C39: a batch is laid out position by position.  It has an entry and a lease for
    every leased task, in order; the entry at a position names the task at that
    position of the payload, and the indices it carries select that task's own
    requirements, in order, out of the requirements of the batch. *)
Theorem build_work_batch_layout `{ST : !SerdeTypes} step batch_id descriptor l i lease task :
  l !! i = Some (lease, task) →
  let batch := build_work_batch step batch_id descriptor l in
  length (wb_entries batch) = length l ∧ wb_task_leases batch !! i = Some lease ∧
  ∃ entry, wb_entries batch !! i = Some entry ∧
    be_entry_id entry = t_task_id task ∧ be_task_id entry = t_task_id task ∧
    task_at (wb_payload batch) (be_payload_index entry) = Ok task ∧
    omap (λ k, requirements_of l !! N.to_nat k) (be_resource_requirement_indices entry) = t_resource_requirements task.
Proof.
  intros Hx batch. assert (wb_entries batch = imap (λ i x, entry_at l i x) l) as He by apply batch_scan_entries.
  split; [by rewrite He, length_imap|]. split; [by cbn; rewrite list_lookup_fmap, Hx|].
  exists (entry_at l i (lease, task)). split; [by rewrite He, list_lookup_imap, Hx|]. split_and!; [done|done| |].
  - cbn. by rewrite Nat2N.id, list_lookup_fmap, Hx.
  - rewrite (requirements_split l i _ Hx). apply lookup_range.
Qed.

(** ** The resource plan *)

(** The positions of the requirements that satisfy [P]. *)
Definition positions (P : ResourceRequirement → bool) (reqs : list ResourceRequirement) : list N :=
  omap (λ e, if P e.2 then Some (N.of_nat e.1) else None) (enumerate reqs).

Definition writes_ref (ref_id : string) (r : ResourceRequirement) : bool :=
  is_write_mode (rq_mode r) && bool_decide (rq_ref_id r = ref_id).

Definition reads_ref (ref_id : string) (r : ResourceRequirement) : bool :=
  negb (is_write_mode (rq_mode r)) && bool_decide (rq_ref_id r = ref_id).

Definition some_nonempty {A} (l : list A) : option (list A) := match l with [] => None | _ => Some l end.

Definition requirement_scan (reqs : list ResourceRequirement) : RequirementScan :=
  foldl scan_requirement (MkRequirementScan [] ∅ ∅) (enumerate reqs).

Lemma requirement_scan_snoc reqs r : requirement_scan (reqs ++ [r]) = scan_requirement (requirement_scan reqs) (length reqs, r).
Proof. unfold requirement_scan. by rewrite enumerate_snoc, foldl_app. Qed.

Lemma positions_snoc P reqs r :
  positions P (reqs ++ [r]) = positions P reqs ++ if P r then [N.of_nat (length reqs)] else [].
Proof. unfold positions. rewrite enumerate_snoc, omap_app. f_equal. cbn. by destruct (P r). Qed.

Lemma push_index_lookup key index (m : gmap string (list N)) ref_id :
  push_index key index m !! ref_id =
    if decide (ref_id = key) then some_nonempty (default [] (m !! key) ++ [index]) else m !! ref_id.
Proof.
  unfold push_index. case_decide as E; [subst ref_id; rewrite lookup_insert_eq|by rewrite lookup_insert_ne].
  unfold some_nonempty. destruct (m !! key) as [l|]; cbn; [|done]. by destruct l.
Qed.

Lemma default_some_nonempty {A} (l : list A) : default [] (some_nonempty l) = l.
Proof. by destruct l. Qed.

Lemma requirement_scan_spec reqs ref_id :
  sc_write_locks (requirement_scan reqs) !! ref_id = some_nonempty (positions (writes_ref ref_id) reqs) ∧
  sc_read_views (requirement_scan reqs) !! ref_id = some_nonempty (positions (reads_ref ref_id) reqs).
Proof.
  revert ref_id. induction reqs as [|r reqs IH] using rev_ind; intros ref_id; [done|].
  rewrite requirement_scan_snoc, !positions_snoc. cbn [scan_requirement sc_write_locks sc_read_views].
  destruct (IH ref_id) as [IHw IHr]. destruct (IH (rq_ref_id r)) as [IHw' IHr'].
  unfold writes_ref, reads_ref in *. destruct (is_write_mode (rq_mode r)); cbn [negb andb].
  all: rewrite ?push_index_lookup, ?IHw', ?IHr', ?default_some_nonempty, ?app_nil_r; split; [|try done]; try done.
  all: case_decide as E; [subst ref_id; by rewrite bool_decide_eq_true_2|].
  all: by rewrite bool_decide_eq_false_2, ?app_nil_r by congruence.
Qed.

(** The entries that share a written resource with another requirement. *)
Definition collides (reqs : list ResourceRequirement) (owners : list N) (entry : N) : Prop :=
  ∃ ref_id k, (1 < len (positions (writes_ref ref_id) reqs))%N ∧ k ∈ positions (writes_ref ref_id) reqs ∧
    owners !! N.to_nat k = Some entry.

Lemma lock_conflicts_spec owners X lock entry :
  entry ∈ lock_conflicts owners X lock ↔
  entry ∈ X ∨ (1 < len lock.2)%N ∧ ∃ k, k ∈ lock.2 ∧ owners !! N.to_nat k = Some entry.
Proof.
  unfold lock_conflicts. destruct lock as [ref_id ks]. cbn [snd]. case_decide as Hlen; [|naive_solver].
  assert (∀ (ks : list N) (X : gset N), entry ∈ foldl (λ conflicts k, match owners !! N.to_nat k with
      | Some entry_index => {[ entry_index ]} ∪ conflicts | None => conflicts end) X ks ↔
      entry ∈ X ∨ ∃ k, k ∈ ks ∧ owners !! N.to_nat k = Some entry) as H; [|rewrite H; naive_solver].
  clear. induction ks as [|k ks IH]; intros X; cbn.
  - split; [by left|]. by intros [?|(k & ?%elem_of_nil & _)].
  - rewrite IH. setoid_rewrite elem_of_cons. destruct (owners !! N.to_nat k) as [o|] eqn:E; [rewrite elem_of_union, elem_of_singleton|]; naive_solver.
Qed.

Lemma conflicts_spec reqs owners entry :
  entry ∈ foldl (lock_conflicts owners) ∅ (btree_entries (sc_write_locks (requirement_scan reqs))) ↔
  collides reqs owners entry.
Proof.
  assert (∀ locks X, entry ∈ foldl (lock_conflicts owners) X locks ↔
    entry ∈ X ∨ ∃ lock, lock ∈ locks ∧ (1 < len lock.2)%N ∧ ∃ k, k ∈ lock.2 ∧ owners !! N.to_nat k = Some entry) as H.
  { induction locks as [|lock locks IH]; intros X; cbn.
    - split; [by left|]. by intros [?|(? & ?%elem_of_nil & _)].
    - rewrite IH, lock_conflicts_spec. setoid_rewrite elem_of_cons. naive_solver. }
  rewrite H. unfold collides, btree_entries. setoid_rewrite elem_of_sort_by_str. split.
  - intros [?%elem_of_empty|([ref_id ks] & Hin%elem_of_map_to_list & Hlen & k & Hk & Ho)]; [done|].
    destruct (requirement_scan_spec reqs ref_id) as [Hw _]. rewrite Hin in Hw.
    exists ref_id, k. destruct (positions (writes_ref ref_id) reqs); [done|]. by simplify_eq/=.
  - intros (ref_id & k & Hlen & Hk & Ho). right. exists (ref_id, positions (writes_ref ref_id) reqs). split; [|eauto].
    apply elem_of_map_to_list. destruct (requirement_scan_spec reqs ref_id) as [Hw _]. rewrite Hw.
    by destruct (positions (writes_ref ref_id) reqs).
Qed.

Definition group_scan (conflicts : gset N) (entries : list BatchEntry) : GroupScan :=
  foldl (group_entry conflicts) (MkGroupScan [] [] []) (enumerate entries).

Lemma group_scan_snoc conflicts entries e :
  group_scan conflicts (entries ++ [e]) = group_entry conflicts (group_scan conflicts entries) (length entries, e).
Proof. unfold group_scan. by rewrite enumerate_snoc, foldl_app. Qed.

Lemma group_scan_perm conflicts entries :
  let s := group_scan conflicts entries in
  gs_conflict_entries s ++ gs_parallel_group s ++ concat (gs_serial_groups s) ≡ₚ be_entry_id <$> entries.
Proof.
  cbv zeta. induction entries as [|e entries IH] using rev_ind; [done|].
  rewrite group_scan_snoc, fmap_app, <-IH. unfold group_entry. set (s := group_scan conflicts entries). cbn [fmap list_fmap].
  case_decide; [cbn; solve_Permutation|]. destruct (be_ordering e); cbn; rewrite ?concat_app; cbn; solve_Permutation.
Qed.

Lemma group_scan_conflicts conflicts entries id :
  id ∈ gs_conflict_entries (group_scan conflicts entries) ↔
  ∃ k e, entries !! k = Some e ∧ be_entry_id e = id ∧ N.of_nat k ∈ conflicts.
Proof.
  induction entries as [|e entries IH] using rev_ind.
  { split; [by intros ?%elem_of_nil|]. intros (k & e & Hk & _). by rewrite lookup_nil in Hk. }
  assert ((∃ k e', (entries ++ [e]) !! k = Some e' ∧ be_entry_id e' = id ∧ N.of_nat k ∈ conflicts) ↔
    (∃ k e', entries !! k = Some e' ∧ be_entry_id e' = id ∧ N.of_nat k ∈ conflicts) ∨
    be_entry_id e = id ∧ N.of_nat (length entries) ∈ conflicts) as ->.
  { split.
    - intros (k & e' & [[_ Hk]|[-> <-]]%lookup_snoc_Some & Hid & Hc); [left; by exists k, e'|by right].
    - intros [(k & e' & Hk & Hid & Hc)|[Hid Hc]].
      + exists k, e'. split; [|done]. apply lookup_snoc_Some. left. split; [by eapply lookup_lt_Some|done].
      + exists (length entries), e. split; [|done]. apply lookup_snoc_Some. by right. }
  rewrite <-IH, group_scan_snoc. unfold group_entry.
  case_decide; [cbn; rewrite elem_of_app, list_elem_of_singleton; naive_solver|].
  destruct (be_ordering e); cbn; naive_solver.
Qed.

(** The ids of the entries that are chosen by position and content, in order. *)
Definition chosen (P : nat → BatchEntry → bool) (entries : list BatchEntry) : list string :=
  omap (λ e, if P e.1 e.2 then Some (be_entry_id e.2) else None) (enumerate entries).

Lemma chosen_snoc P entries e :
  chosen P (entries ++ [e]) = chosen P entries ++ if P (length entries) e then [be_entry_id e] else [].
Proof. unfold chosen. rewrite enumerate_snoc, omap_app. f_equal. cbn. by destruct (P (length entries) e). Qed.

Definition kept_back (conflicts : gset N) (k : nat) (entry : BatchEntry) : bool := bool_decide (N.of_nat k ∈ conflicts).
Definition unordered (entry : BatchEntry) : bool := match be_ordering entry with OrderingNone => true | _ => false end.

Lemma group_scan_exact conflicts entries :
  group_scan conflicts entries =
    MkGroupScan (chosen (kept_back conflicts) entries)
      ((λ id, [id]) <$> chosen (λ k e, negb (kept_back conflicts k e) && negb (unordered e)) entries)
      (chosen (λ k e, negb (kept_back conflicts k e) && unordered e) entries).
Proof.
  induction entries as [|e entries IH] using rev_ind; [done|].
  rewrite group_scan_snoc, IH, !chosen_snoc, fmap_app. unfold group_entry, kept_back, unordered.
  case_decide as Hc; [rewrite bool_decide_eq_true_2 by done; cbn; by rewrite !app_nil_r|].
  rewrite bool_decide_eq_false_2 by done. destruct (be_ordering e); cbn; by rewrite !app_nil_r.
Qed.

Lemma requirement_scan_versions reqs :
  sc_version_checks (requirement_scan reqs) = omap (λ r, MkVersionExpectation (rq_ref_id r) <$> rq_expected_version r) reqs.
Proof.
  induction reqs as [|r reqs IH] using rev_ind; [done|]. rewrite requirement_scan_snoc, omap_app, <-IH. cbn.
  destruct (rq_expected_version r); cbn; by rewrite ?app_nil_r.
Qed.

Lemma btree_entries_keys {A} (m : gmap string A) : NoDup (btree_entries m).*1 ∧ StronglySorted String.le (btree_entries m).*1.
Proof.
  split; [|apply sort_by_str_sorted]. unfold btree_entries, sort_by_str. rewrite stable_sort_Permutation. apply NoDup_fst_map_to_list.
Qed.

(** What is listed for a resource, once for each, by name. *)
Lemma scanned_entries (m : gmap string (list N)) (P : string → ResourceRequirement → bool) reqs :
  (∀ ref_id, m !! ref_id = some_nonempty (positions (P ref_id) reqs)) →
  ∃ refs, NoDup refs ∧ StronglySorted String.le refs ∧ (∀ ref_id, ref_id ∈ refs ↔ Exists (λ r, P ref_id r = true) reqs) ∧
    btree_entries m = (λ ref_id, (ref_id, positions (P ref_id) reqs)) <$> refs.
Proof.
  intros Hm. destruct (btree_entries_keys m) as [Hn Hs]. exists (btree_entries m).*1.
  assert (∀ ref_id ks, (ref_id, ks) ∈ btree_entries m ↔ ks = positions (P ref_id) reqs ∧ ks ≠ []) as Hin.
  { intros ref_id ks. unfold btree_entries. rewrite elem_of_sort_by_str, elem_of_map_to_list, Hm.
    destruct (positions (P ref_id) reqs); cbn; split; [done|by intros [-> ?]|by intros [= <-]|by intros [-> _]]. }
  split_and!; [done|done| |].
  - intros ref_id. assert (positions (P ref_id) reqs ≠ [] ↔ Exists (λ r, P ref_id r = true) reqs) as <-.
    { clear. induction reqs as [|r reqs IH] using rev_ind; [split; [done|by intros ?%Exists_nil]|].
      rewrite positions_snoc, Exists_app, Exists_cons, Exists_nil, <-IH. destruct (P ref_id r), (positions (P ref_id) reqs); cbn; naive_solver. }
    rewrite list_elem_of_fmap. split; [intros ([? ks] & -> & [-> ?]%Hin); done|].
    intros Hne. exists (ref_id, positions (P ref_id) reqs). split; [done|]. by apply Hin.
  - rewrite <-list_fmap_compose. rewrite <-(list_fmap_id (btree_entries m)) at 1. apply list_fmap_ext. intros i [ref_id ks] Hi.
    apply list_elem_of_lookup_2, Hin in Hi as [-> _]. done.
Qed.

(** The resources that some requirement uses in the way [P] says, by name and
    without repetition. *)
Definition used_refs (P : string → ResourceRequirement → bool) (reqs : list ResourceRequirement) (refs : list string) : Prop :=
  NoDup refs ∧ StronglySorted String.le refs ∧ ∀ ref_id, ref_id ∈ refs ↔ Exists (λ r, P ref_id r = true) reqs.

(** C40: the resource plan of a batch is exact.  It has one write lock for each
    resource that some requirement writes and one view for each that some
    requirement reads, by name, with the positions of these requirements, all of
    them and in order, and a version check for each requirement that expects a
    version.  Every entry is sent to exactly one place: it is kept back as a
    conflict exactly when it has a write requirement on a resource that another
    write requirement of the batch names as well; of the others, those without an
    ordering constraint form the one parallel group, in order, and each of the
    rest has a serial group of its own.  As many entries as the batch has may run
    in parallel when nothing is kept back or serial, and else one at a time. *)
Theorem resource_plan_exact work_set owners :
  let plan := build_work_resource_plan work_set owners in
  let reqs := ws_resource_requirements work_set in
  let entries := ws_entries work_set in
  (∃ refs, used_refs writes_ref reqs refs ∧
    wp_write_locks plan = (λ ref_id, MkResourceWriteLock ref_id (positions (writes_ref ref_id) reqs)) <$> refs) ∧
  (∃ refs, used_refs reads_ref reqs refs ∧
    wp_read_views plan = (λ ref_id, MkResourceReadView ref_id (positions (reads_ref ref_id) reqs)) <$> refs) ∧
  wp_version_checks plan = omap (λ r, MkVersionExpectation (rq_ref_id r) <$> rq_expected_version r) reqs ∧
  wp_deferred_writes plan = [] ∧
  (∃ conflicts : gset N, (∀ entry, entry ∈ conflicts ↔ collides reqs owners entry) ∧
    wp_conflict_entries plan = chosen (kept_back conflicts) entries ∧
    wp_serial_groups plan = (λ id, [id]) <$> chosen (λ k e, negb (kept_back conflicts k e) && negb (unordered e)) entries ∧
    wp_parallel_groups plan =
      match chosen (λ k e, negb (kept_back conflicts k e) && unordered e) entries with [] => [] | ids => [ids] end) ∧
  wp_conflict_entries plan ++ concat (wp_parallel_groups plan) ++ concat (wp_serial_groups plan)
    ≡ₚ be_entry_id <$> entries ∧
  (wp_serial_groups plan = [] ∧ wp_conflict_entries plan = [] → wp_parallelism_limit plan = N.max (len entries) 1) ∧
  (wp_serial_groups plan ≠ [] ∨ wp_conflict_entries plan ≠ [] → wp_parallelism_limit plan = 1%N).
Proof.
  cbv zeta. unfold build_work_resource_plan. cbv zeta. fold (requirement_scan (ws_resource_requirements work_set)).
  set (reqs := ws_resource_requirements work_set). set (conflicts := foldl (lock_conflicts owners) ∅ _).
  fold (group_scan conflicts (ws_entries work_set)). rewrite requirement_scan_versions.
  destruct (scanned_entries _ writes_ref reqs (λ r, proj1 (requirement_scan_spec reqs r))) as (wr & Hwn & Hws & Hwe & ->).
  destruct (scanned_entries _ reads_ref reqs (λ r, proj2 (requirement_scan_spec reqs r))) as (rr & Hrn & Hrs & Hre & ->).
  pose proof (group_scan_perm conflicts (ws_entries work_set)) as Hperm. cbv zeta in Hperm. rewrite group_scan_exact in Hperm |- *.
  cbn [wp_write_locks wp_read_views wp_conflict_entries wp_parallel_groups wp_serial_groups wp_version_checks wp_deferred_writes
       wp_parallelism_limit gs_conflict_entries gs_parallel_group gs_serial_groups] in *.
  split_and!; [exists wr|exists rr|done|done|exists conflicts| | |].
  - split; [done|]. by rewrite <-list_fmap_compose.
  - split; [done|]. by rewrite <-list_fmap_compose.
  - split_and!; [|done..]. intros entry. apply conflicts_spec.
  - rewrite <-Hperm. assert (∀ ids : list string, concat (match ids with [] => [] | id :: l => [id :: l] end) = ids) as Hone
      by (intros [|id ids]; cbn; by rewrite ?app_nil_r).
    by rewrite Hone.
  - intros [Hs Hc]. by rewrite !bool_decide_eq_true_2.
  - intros Hsc. destruct (bool_decide _ && bool_decide _) eqn:Hb; [|done]. exfalso.
    apply andb_true_iff in Hb as [?%bool_decide_eq_true_1 ?%bool_decide_eq_true_1]. by destruct Hsc.
Qed.

(** ** The two together *)

Lemma positions_count ref_id reqs :
  length (positions (writes_ref ref_id) reqs) =
  length (filter (λ r, r = ref_id) (rq_ref_id <$> filter (λ r, is_write_mode (rq_mode r) = true) reqs)).
Proof.
  induction reqs as [|r reqs IH] using rev_ind; [done|].
  rewrite positions_snoc, filter_app, fmap_app, filter_app, !length_app, IH. f_equal. unfold writes_ref.
  destruct (is_write_mode (rq_mode r)) eqn:Hm.
  - rewrite filter_cons_True by done. cbn. case_bool_decide as E; [rewrite decide_True by done|rewrite decide_False by done]; done.
  - rewrite filter_cons_False by congruence. done.
Qed.

Lemma filter_eq_NoDup (r : string) (l : list string) : NoDup l → length (filter (λ k, k = r) l) ≤ 1.
Proof.
  induction 1 as [|x l Hx Hl IH]; [cbn; lia|]. rewrite filter_cons. case_decide as E; [|done]. subst x.
  rewrite (filter_none (λ k, k = r)); [done|]. intros y Hy ->. done.
Qed.

Lemma writes_of_requirements l :
  rq_ref_id <$> filter (λ r, is_write_mode (rq_mode r) = true) (requirements_of l) = concat (writes <$> l).
Proof.
  unfold requirements_of. induction l as [|x l IH]; [done|]. cbn. by rewrite filter_app, fmap_app, IH.
Qed.

Lemma conflict_free_NoDup g : conflict_free g → Forall (λ x, NoDup (writes x)) g → NoDup (concat (writes <$> g)).
Proof.
  induction g as [|x g IH]; intros Hf Hn; [constructor|]. apply Forall_cons in Hn as [Hx Hn]. cbn. apply NoDup_app. split_and!.
  - done.
  - intros ref_id Hin Hcat. apply list_elem_of_In, in_concat in Hcat as (ws & Hws%list_elem_of_In & Hr%list_elem_of_In).
    apply list_elem_of_fmap in Hws as (y & -> & (j & Hj)%list_elem_of_lookup_1).
    apply (Hf 0 (S j) x y ref_id); [lia|done..].
  - apply IH; [|done]. intros i j a b ref_id Hij Ha Hb. apply (Hf (S i) (S j)); [lia|done|done].
Qed.

Lemma group_conflicts_empty g :
  conflict_free g → Forall (λ x, NoDup (write_requirement_refs x.2)) g →
  ∀ owners, foldl (lock_conflicts owners) ∅ (btree_entries (sc_write_locks (requirement_scan (requirements_of g)))) = ∅.
Proof.
  intros Hf Hn owners. apply set_eq. intros entry. rewrite conflicts_spec. split; [|by intros ?%elem_of_empty].
  intros (ref_id & k & Hlen & _). unfold len in Hlen. rewrite positions_count, writes_of_requirements in Hlen.
  pose proof (filter_eq_NoDup ref_id _ (conflict_free_NoDup g Hf Hn)). lia.
Qed.

Lemma group_scan_unordered entries :
  Forall (λ e, be_ordering e = OrderingNone) entries → group_scan ∅ entries = MkGroupScan [] [] (be_entry_id <$> entries).
Proof.
  induction entries as [|e entries IH] using rev_ind; [done|]. intros [Hall [He _]%Forall_cons]%Forall_app.
  rewrite group_scan_snoc, (IH Hall). unfold group_entry. rewrite decide_False by set_solver. rewrite He. cbn. by rewrite fmap_app.
Qed.

(** the group a claim dispatches needs no second look at its writes.  When no
    task of a group names the same resource twice for writing, the plan of the
    batch built from the group keeps no entry back, and the batch may run with
    as many entries in parallel as it has, unless an entry asks for an order. *)
Theorem dispatched_group_has_no_conflicts step batch_id descriptor l g :
  g ∈ split_leased_tasks_by_resource_conflict l → Forall (λ x, NoDup (write_requirement_refs x.2)) g →
  let plan := wb_resource_plan (build_work_batch step batch_id descriptor g) in
  wp_conflict_entries plan = [] ∧
  (Forall (λ x, t_ordering x.2 = OrderingNone) g →
    wp_parallel_groups plan = [(λ x, t_task_id x.2) <$> g] ∧ wp_parallelism_limit plan = len g).
Proof.
  intros Hg Hn plan. destruct (split_spec l) as (_ & Hne & Hf & _). rewrite Forall_forall in Hne, Hf.
  pose proof (group_conflicts_empty g (Hf _ Hg) Hn) as Hempty. unfold plan, build_work_batch. cbv zeta.
  cbn [wb_resource_plan]. fold (batch_scan g). unfold build_work_resource_plan. cbv zeta. cbn [ws_resource_requirements ws_entries].
  fold (requirement_scan (bs_requirements (batch_scan g))). rewrite batch_scan_requirements, Hempty.
  fold (group_scan ∅ (bs_entries (batch_scan g))). cbn [wp_conflict_entries wp_parallel_groups wp_parallelism_limit].
  assert (gs_conflict_entries (group_scan ∅ (bs_entries (batch_scan g))) = []) as ->.
  { apply elem_of_nil_inv. intros id (k & e & _ & _ & Hk)%group_scan_conflicts. by apply elem_of_empty in Hk. }
  split; [done|]. intros Ho. rewrite group_scan_unordered.
  - rewrite batch_scan_entries. cbn [gs_parallel_group gs_serial_groups]. specialize (Hne _ Hg).
    assert (be_entry_id <$> imap (λ i x, entry_at g i x) g = (λ x, t_task_id x.2) <$> g) as ->.
    { apply list_eq. intros i. rewrite !list_lookup_fmap, list_lookup_imap. by destruct (g !! i). }
    unfold len. rewrite length_imap. destruct g; [done|]. cbn. split; [done|lia].
  - rewrite batch_scan_entries. apply Forall_lookup. intros i e He. rewrite list_lookup_imap in He.
    destruct (g !! i) as [x|] eqn:Hx; [|done]. injection He as <-. rewrite Forall_lookup in Ho. by apply (Ho i).
Qed.
End BatchFacts.
