(* ===== verification/RuntimeRouting.v ===== *)
(** * The core runtime: routing what runners return

    crates/mutsuki-runtime-core/src/runtime/runner_loop/: failure_reporting.rs,
    kernel.rs, result_router.rs and completion_router.rs. *)

From S2P Require Import Prelude Contracts RunnerContracts BatchContracts PluginContracts Logs StateStore ResourceManager TaskRecords TaskIndexes TaskPool TaskClaiming Registry RuntimeState RuntimeTasks.

Record RunnerLoopReport : Type := MkRunnerLoopReport {
  rep_claimed_tasks : N;
  rep_completed_tasks : N
}.

Section Routing.
Context `{RA : RunnerApi} `{ST : !SerdeTypes}.

(** ** Reporting failures (failure_reporting.rs) *)

Definition lease_expired_attrs (lease : TaskLease) (current_step : N) : gmap string ScalarValue :=
  attr_map (
    [("lease_id", ScalarString (l_lease_id lease));
     ("runner_id", ScalarString (l_runner_id lease));
     ("executor_id", ScalarString (l_executor_id lease));
     ("registry_generation", attr_int (l_registry_generation lease));
     ("acquired_at_step", attr_int (l_acquired_at_step lease))]
    ++ match l_expires_at_step lease with
       | Some expires_at_step => [("expires_at_step", attr_int expires_at_step)]
       | None => []
       end
    ++ [("current_step", attr_int current_step)]).

Definition rt_reclaim_expired_task_leases : M CoreRuntime unit :=
  let! self := get in
  let! reclaimed := on_tasks (reclaim_expired_task_leases (rt_current_step self)) in
  for_each reclaimed (λ lease,
    record_event EventTask "task.lease.expired" (Some (l_task_id lease))
      (lease_expired_attrs lease (rt_current_step self)) None).

Definition fail_runner_dispatch (task_lease : TaskLease) (failure : RuntimeError) : M CoreRuntime (RuntimeResult N) :=
  let! self := get in
  let! result := on_tasks (fail_task task_lease (rt_current_step self) failure) in
  if is_ok result then
    record_task_terminal_event (l_task_id task_lease) "task.failed" (Some failure) ;;!
    let? _ := wake_tasks_waiting_on (l_task_id task_lease) in
    ret (Ok 1%N)
  else ret (Ok 0%N).

(** [for x in l { total += f(x)?; } Ok(total)] *)
Fixpoint try_sum {A} (l : list A) (f : A → M CoreRuntime (RuntimeResult N)) : M CoreRuntime (RuntimeResult N) :=
  match l with
  | [] => ret (Ok 0%N)
  | x :: l =>
      let? n := f x in
      let? m := try_sum l f in
      ret (Ok (n + m)%N)
  end.

Definition fail_runner_dispatches (leases : list TaskLease) (failure : RuntimeError) : M CoreRuntime (RuntimeResult N) :=
  try_sum leases (λ lease, fail_runner_dispatch lease failure).

Definition record_rejected_runner_result (task_id : string) (error : RuntimeError) : M CoreRuntime unit :=
  let! self := get in
  record_event EventTask "task.result.rejected" (Some task_id)
    (attr_map [("error_code", ScalarString (e_code error)); ("error_route", ScalarString (e_route error));
               ("current_step", attr_int (rt_current_step self))]) (Some error).

(** ** Tasks of the kernel itself (kernel.rs) *)

(** One round of [process_kernel_tasks].  An error leaves the method, the task
    and those after it still leased. *)
Definition process_kernel_task (leased : TaskLease * Task) : M CoreRuntime (RuntimeResult N) :=
  let '(lease, task) := leased in
  let! self := get in
  match ensure_active_lease (rt_tasks self) (t_task_id task) lease (rt_current_step self) "kernel" with
  | Err e => ret (Err e)
  | Ok _ =>
      if decide (t_protocol_id task = "core.commit") then
        let! payload := expect (as_value (t_payload task)) in
        match delta_from_value payload with
        | Err text => ret (runtime_failure "state.delta_decode_failed" "runtime.committer" text)
        | Ok delta =>
            let? _ := on_states (apply delta) in
            record_event EventState "state.commit" (Some (sdl_target_ref delta)) ∅ None ;;!
            let? _ := on_tasks (complete lease (rt_current_step self)) in
            ret (Ok 1%N)
        end
      else if decide (t_protocol_id task = "core.event.append") then
        let! payload := expect (as_value (t_payload task)) in
        match event_from_value payload with
        | Err text => ret (runtime_failure "event.decode_failed" "runtime.event_log" text)
        | Ok event =>
            record_event EventTask (dev_kind event) (Some (dev_event_id event)) ∅ None ;;!
            let? _ := on_tasks (complete lease (rt_current_step self)) in
            ret (Ok 1%N)
        end
      else
        let failure := runtime_error ERR_TASK_UNSUPPORTED "runtime.committer" ("core.task." +:+ t_protocol_id task) in
        let? _ := on_tasks (fail_task lease (rt_current_step self) failure) in
        record_task_terminal_event (t_task_id task) "task.failed" (Some failure) ;;!
        let? _ := wake_tasks_waiting_on (t_task_id task) in
        ret (Ok 1%N)
  end.

Definition process_kernel_tasks (tasks : list (TaskLease * Task)) : M CoreRuntime (RuntimeResult N) :=
  try_sum tasks process_kernel_task.

(** ** Results (result_router.rs) *)

Definition claim_conflict_at {A} (route : string) : RuntimeResult A :=
  runtime_failure ERR_TASK_CLAIM_CONFLICT "runtime.result_router" route.

Definition validate_await_child_task (parent_task_id : string) (parent_task : Task) (task_await : TaskAwait)
    (child_task : Task) : RuntimeResult unit :=
  let child := aw_child task_await in
  let child_matches_handle :=
    bool_decide (h_protocol_id child = t_protocol_id child_task)
    && bool_decide (h_target_binding_id child = t_target_binding_id child_task)
    && bool_decide (h_trace_id child = t_trace_id child_task)
    && bool_decide (h_correlation_id child = t_correlation_id child_task) in
  let child_inherits_parent_context :=
    bool_decide (t_trace_id child_task = t_trace_id parent_task)
    && bool_decide (t_correlation_id child_task = t_correlation_id parent_task) in
  if child_matches_handle && child_inherits_parent_context then Ok tt
  else claim_conflict_at ("task.await.child_descriptor." +:+ parent_task_id).

Definition validate_await_child_descriptor (self : CoreRuntime) (parent_task_id : string) (task_await : TaskAwait)
    (output_tasks : list Task) : RuntimeResult unit :=
  let child_id := h_task_id (aw_child task_await) in
  match pool_get (rt_tasks self) parent_task_id with
  | None => runtime_failure ERR_TASK_NOT_FOUND "runtime.result_router" ("task.await.parent." +:+ parent_task_id)
  | Some parent =>
      match List.find (λ task, bool_decide (t_task_id task = child_id)) output_tasks with
      | Some output_task => validate_await_child_task parent_task_id (r_task parent) task_await output_task
      | None =>
          match pool_get (rt_tasks self) child_id with
          | None => runtime_failure ERR_TASK_NOT_FOUND "runtime.result_router" ("task.await.child." +:+ child_id)
          | Some child =>
              if is_terminal_status (r_status child)
              then claim_conflict_at ("task.await.child_terminal." +:+ child_id)
              else validate_await_child_task parent_task_id (r_task parent) task_await (r_task child)
          end
      end
  end.

Definition validate_waiting_result (self : CoreRuntime) (task_id : string) (status : RunnerStatus)
    (task_await : option TaskAwait) (output_tasks : list Task) : RuntimeResult unit :=
  match task_await with
  | None => Ok tt
  | Some task_await =>
      if decide (status ≠ StatusWaiting) then claim_conflict_at ("task.await.status." +:+ task_id)
      else
        letr? _ := ensure_task_can_suspend self task_id in
        if decide (aw_parent_task_id task_await ≠ task_id) then claim_conflict_at ("task.await.parent." +:+ task_id)
        else validate_await_child_descriptor self task_id task_await output_tasks
  end.

Definition no_outputs (result : RunnerResult) : bool :=
  bool_decide (rres_output result = None) && bool_decide (rres_deltas result = [])
  && bool_decide (rres_events result = []) && bool_decide (rres_tasks result = [])
  && bool_decide (rres_effects result = []) && bool_decide (rres_values result = [])
  && bool_decide (rres_resources result = []).

Definition validate_status_outputs (result : RunnerResult) : RuntimeResult unit :=
  if negb (bool_decide (rres_output result = None)) && bool_decide (rres_status result ≠ StatusCompleted)
  then claim_conflict_at ("task.status.output." +:+ rres_task_id result)
  else if decide (rres_status result ≠ StatusContinue) then Ok tt
  else if no_outputs result then Ok tt
  else claim_conflict_at ("task.continue.outputs." +:+ rres_task_id result).

Definition commit_task (source_task_id : string) (index : N) (delta : StateDelta) (generation : N) : Task :=
  (Task_new (source_task_id +:+ ":commit:" +:+ pretty index) "core.commit" (PayloadJson (delta_to_value delta)))
    <| t_registry_generation := generation |>.

Definition event_task (source_task_id : string) (event : DomainEvent) (generation : N) : Task :=
  (Task_new (source_task_id +:+ ":event:" +:+ dev_event_id event) "core.event.append"
     (PayloadJson (event_to_value event)))
    <| t_registry_generation := generation |>.

Definition effect_task (source_task_id : string) (effect : EffectRequest) (generation : N) : Task :=
  (Task_new (source_task_id +:+ ":effect:" +:+ eff_effect_id effect) (eff_kind effect)
     (PayloadJson (effect_to_value effect)))
    <| t_registry_generation := generation |>
    <| t_expected_versions :=
         (λ precondition, MkVersionExpectation (epc_ref_id precondition) (epc_expected_version precondition))
           <$> eff_preconditions effect |>.

Definition pending_output_tasks (source_task_id : string) (generation : N) (runner_purity : RunnerPurity)
    (result : RunnerResult) : list Task :=
  (if decide (runner_purity = Pure) then
     imap (λ index delta, commit_task source_task_id (N.of_nat index) delta generation) (rres_deltas result)
     ++ ((λ effect, effect_task source_task_id effect generation) <$> rres_effects result)
   else [])
  ++ ((λ event, event_task source_task_id event generation) <$> rres_events result)
  ++ rres_tasks result.

Fixpoint ensure_output_task_ids_available (pool : TaskPool) (seen : gset string) (pending_tasks : list Task) :
    RuntimeResult unit :=
  match pending_tasks with
  | [] => Ok tt
  | task :: pending_tasks =>
      if bool_decide (t_task_id task ∈ seen) || contains_task_id pool (t_task_id task) then
        runtime_failure ERR_TASK_DUPLICATE "runtime.result_router" ("task.enqueue." +:+ t_task_id task)
      else ensure_output_task_ids_available pool ({[ t_task_id task ]} ∪ seen) pending_tasks
  end.

Definition ref_lineage_attrs (ref_id schema : string) (generation : N) : gmap string ScalarValue :=
  attr_map [("ref_id", ScalarString ref_id); ("schema", ScalarString schema); ("generation", attr_int generation)].

Definition route_result_outputs (runner : RunnerDescriptor) (task_id : string) (outputs : RunnerResult) :
    M CoreRuntime (RuntimeResult unit) :=
  let! self := get in
  if bool_decide (d_purity runner ≠ Pure)
     && (negb (bool_decide (rres_deltas outputs = [])) || negb (bool_decide (rres_effects outputs = []))) then
    ret (runtime_failure ERR_RUNNER_PURITY_VIOLATION "runtime.result_router"
           ("runner." +:+ d_runner_id runner +:+ ".core_derivation"))
  else
    let pending_tasks :=
      pending_output_tasks task_id (plan_registry_generation (rt_load_plan self)) (d_purity runner) outputs in
    match ensure_output_task_ids_available (rt_tasks self) ∅ pending_tasks with
    | Err e => ret (Err e)
    | Ok _ =>
        for_each (rres_values outputs) (λ value_ref,
          record_event EventResource "value.lineage" (Some task_id)
            (ref_lineage_attrs (vr_ref_id value_ref) (vr_schema value_ref) (vr_generation value_ref)) None) ;;!
        for_each (rres_resources outputs) (λ resource_ref,
          record_event EventResource "resource.lineage" (Some task_id)
            (ref_lineage_attrs (rr_ref_id resource_ref) (rr_schema resource_ref) (rr_generation resource_ref)) None) ;;!
        try_for_each pending_tasks (λ task, let? _ := enqueue_task task in ret (Ok tt))
    end.

(** A terminal transition with its event, and the wake-up of those who waited. *)
Definition finish_task (transition : M TaskPool (RuntimeResult unit)) (task_id name : string)
    (error : option RuntimeError) : M CoreRuntime (RuntimeResult N) :=
  let? _ := on_tasks transition in
  record_task_terminal_event task_id name error ;;!
  let? _ := wake_tasks_waiting_on task_id in
  ret (Ok 1%N).

Definition record_progress (task_id status : string) : M CoreRuntime unit :=
  record_event EventTask "task.progress" (Some task_id) (attr_map [("status", ScalarString status)]) None.

Definition commit_result_status (runner : RunnerDescriptor) (lease : TaskLease) (task_id : string)
    (status : RunnerStatus) (task_await : option TaskAwait) (output : option Value) : M CoreRuntime (RuntimeResult N) :=
  let! self := get in
  let step := rt_current_step self in
  match status with
  | StatusCompleted => finish_task (complete_with_output lease step output) task_id "task.completed" None
  | StatusWaiting =>
      let? _ := match task_await with
                | Some task_await => on_tasks (wait_on_task lease step task_await)
                | None => on_tasks (wait lease step None)
                end in
      record_progress task_id "waiting" ;;! ret (Ok 0%N)
  | StatusBlocked =>
      let? _ := on_tasks (block lease step) in
      record_progress task_id "blocked" ;;! ret (Ok 0%N)
  | StatusFailed =>
      let failure := runtime_error "runner.failed" "runtime.result_router" ("runner." +:+ d_runner_id runner) in
      finish_task (fail_task lease step failure) task_id "task.failed" (Some failure)
  | StatusCancelled => finish_task (cancel_task lease step) task_id "task.cancelled" None
  | StatusContinue => ret (Ok 0%N)
  end.

Definition route_result (runner : RunnerDescriptor) (lease : TaskLease) (result : RunnerResult) :
    M CoreRuntime (RuntimeResult N) :=
  let! self := get in
  let task_id := rres_task_id result in
  match
    letr? _ := ensure_active_lease (rt_tasks self) task_id lease (rt_current_step self) "route" in
    letr? _ := validate_waiting_result self task_id (rres_status result) (rres_task_await result) (rres_tasks result) in
    validate_status_outputs result
  with
  | Err e => ret (Err e)
  | Ok _ =>
      let? _ := route_result_outputs runner task_id result in
      commit_result_status runner lease task_id (rres_status result) (rres_task_await result) (rres_output result)
  end.

(** ** Completions (completion_router.rs) *)

Record RunnerCompletion : Type := MkRunnerCompletion {
  rcp_runner : option Runner;
  rcp_task_leases : list TaskLease;
  rcp_batch_id : string;
  rcp_expected_entries : list BatchEntry;
  rcp_result : RuntimeResult CompletionBatch
}.

Definition batch_claim_conflict (route : string) : RuntimeError :=
  runtime_error ERR_TASK_CLAIM_CONFLICT "runtime.runner_loop" route.

Definition is_stale_completion_conflict (error : RuntimeError) : bool :=
  bool_decide (e_code error = ERR_TASK_CLAIM_CONFLICT) && String.prefix "task.route." (e_route error).

Definition route_entry_completion (descriptor : RunnerDescriptor) (lease : TaskLease) (completion : EntryCompletion) :
    M CoreRuntime (RuntimeResult N) :=
  match ec_error completion with
  | Some error => fail_runner_dispatch lease error
  | None =>
      match ec_result completion with
      | None => fail_runner_dispatch lease (batch_claim_conflict ("batch.entry.empty." +:+ ec_entry_id completion))
      | Some result =>
          if bool_decide (rres_task_id result ≠ l_task_id lease) || bool_decide (ec_task_id completion ≠ l_task_id lease)
          then fail_runner_dispatch lease (batch_claim_conflict ("task.result." +:+ rres_task_id result))
          else
            let! routed := route_result descriptor lease result in
            match routed with
            | Ok count => ret (Ok count)
            | Err failure =>
                if is_stale_completion_conflict failure then
                  on_tasks record_stale_result_rejection ;;!
                  record_rejected_runner_result (l_task_id lease) failure ;;!
                  ret (Ok 0%N)
                else ret (Err failure)
            end
      end
  end.

(** The map of entry ids, or the id of the entry that is a duplicate or has no
    lease. *)
Fixpoint index_entries (leases_by_task : gmap string TaskLease) (index : nat) (entries : list BatchEntry)
    (by_id : gmap string nat) : Result string (gmap string nat) :=
  match entries with
  | [] => Ok by_id
  | entry :: entries =>
      if bool_decide (is_Some (by_id !! be_entry_id entry))
         || negb (bool_decide (is_Some (leases_by_task !! be_task_id entry)))
      then Err (be_entry_id entry)
      else index_entries leases_by_task (S index) entries (<[ be_entry_id entry := index ]> by_id)
  end.

(** [completions_by_entry] after the results, or the id of the entry that is
    unknown, belongs to another task or is completed twice; [None] is a slice
    index out of range. *)
Fixpoint collect_completions (leases_by_task : gmap string TaskLease) (expected_entries : list BatchEntry)
    (by_id : gmap string nat) (results : list EntryCompletion) (slots : list (option EntryCompletion)) :
    option (Result string (list (option EntryCompletion))) :=
  match results with
  | [] => Some (Ok slots)
  | completion :: results =>
      match by_id !! ec_entry_id completion with
      | None => Some (Err (ec_entry_id completion))
      | Some index =>
          entry ← expected_entries !! index;
          if bool_decide (be_task_id entry ≠ ec_task_id completion)
             || negb (bool_decide (is_Some (leases_by_task !! ec_task_id completion)))
          then Some (Err (ec_entry_id completion))
          else
            slot ← slots !! index;
            match slot with
            | Some _ => Some (Err (be_entry_id entry))
            | None => collect_completions leases_by_task expected_entries by_id results (<[ index := Some completion ]> slots)
            end
      end
  end.

Fixpoint route_entries (descriptor : RunnerDescriptor) (leases : list TaskLease) (leases_by_task : gmap string TaskLease)
    (slots : list (BatchEntry * option EntryCompletion)) (completed : N) : M CoreRuntime (RuntimeResult N) :=
  match slots with
  | [] => ret (Ok completed)
  | (entry, slot) :: slots =>
      match leases_by_task !! be_task_id entry with
      | None => fail_runner_dispatches leases (batch_claim_conflict ("batch.entry.expected." +:+ be_entry_id entry))
      | Some lease =>
          let? count :=
            match slot with
            | None => fail_runner_dispatch lease (batch_claim_conflict ("batch.missing." +:+ be_entry_id entry))
            | Some completion => route_entry_completion descriptor lease completion
            end in
          route_entries descriptor leases leases_by_task slots (completed + count)
      end
  end.

Definition route_completion_batch (descriptor : RunnerDescriptor) (leases : list TaskLease)
    (expected_entries : list BatchEntry) (batch : CompletionBatch) : M CoreRuntime (RuntimeResult N) :=
  let leases_by_task := foldl (λ m lease, <[ l_task_id lease := lease ]> m) ∅ leases in
  match index_entries leases_by_task 0 expected_entries ∅ with
  | Err entry_id => fail_runner_dispatches leases (batch_claim_conflict ("batch.entry.expected." +:+ entry_id))
  | Ok by_id =>
      let! collected := expect (collect_completions leases_by_task expected_entries by_id (cb_results batch)
                                  (replicate (length expected_entries) None)) in
      match collected with
      | Err entry_id => fail_runner_dispatches leases (batch_claim_conflict ("batch.entry." +:+ entry_id))
      | Ok slots => route_entries descriptor leases leases_by_task (zip expected_entries slots) 0
      end
  end.

Definition runner_not_found {A} (batch_id : string) : RuntimeResult A :=
  runtime_failure ERR_RUNNER_NOT_FOUND "runtime.runner_loop" ("batch." +:+ batch_id +:+ ".runner").

Definition completed_report (completed : N) : RunnerLoopReport := MkRunnerLoopReport 0 completed.

Definition complete_runner_dispatch (completion : RunnerCompletion) : M CoreRuntime (RuntimeResult RunnerLoopReport) :=
  let! self := get in
  let runner_id :=
    match rcp_runner completion with
    | Some runner => Some (d_runner_id (runner_descriptor runner))
    | None => l_runner_id <$> head (rcp_task_leases completion)
    end in
  match runner_id with
  | None => ret (runner_not_found (rcp_batch_id completion))
  | Some runner_id =>
      match List.find (λ descriptor, bool_decide (d_runner_id descriptor = runner_id))
              (reg_descriptor_snapshot (rt_registry self)) with
      | None => ret (runner_not_found (rcp_batch_id completion))
      | Some descriptor =>
          match rcp_runner completion with
          | Some runner => on_registry (put_runner runner)
          | None => ret tt
          end ;;!
          let? completed :=
            match rcp_result completion with
            | Err failure => fail_runner_dispatches (rcp_task_leases completion) failure
            | Ok result =>
                if decide (cb_batch_id result ≠ rcp_batch_id completion) then
                  fail_runner_dispatches (rcp_task_leases completion)
                    (batch_claim_conflict ("batch.result." +:+ cb_batch_id result))
                else
                  route_completion_batch descriptor (rcp_task_leases completion) (rcp_expected_entries completion) result
            end in
          ret (Ok (completed_report completed))
      end
  end.
End Routing.
