(* ===== verification/RuntimeDispatch.v ===== *)
(** * The core runtime: the runner loop

    crates/mutsuki-runtime-core/src/runtime/runner_loop.rs with
    dispatch_build.rs, dispatch_selection.rs and executor.rs: claiming ready
    work for each runner, splitting it into batches, running them inline or
    handing them to a host. *)

From S2P Require Import Prelude Contracts RunnerContracts BatchContracts PluginContracts Logs StateStore ResourceManager TaskRecords TaskIndexes TaskPool TaskClaiming Registry RuntimeState RuntimeTasks BatchBuild RuntimeRouting.

Section Dispatch.
Context `{RA : RunnerApi} `{ST : !SerdeTypes}.

Inductive RunnerDispatchTarget : Type :=
  | TargetSync (runner : Runner)
  | TargetAsync (handler : AsyncHandler).

Record RunnerDispatch : Type := MkRunnerDispatch {
  rdp_target : RunnerDispatchTarget;
  rdp_ctx : RunnerContext;
  rdp_task_leases : list TaskLease;
  rdp_batch : WorkBatch
}.

Definition target_descriptor (target : RunnerDispatchTarget) : RunnerDescriptor :=
  match target with
  | TargetSync runner => runner_descriptor runner
  | TargetAsync handler => handler_descriptor handler
  end.

Definition is_async (target : RunnerDispatchTarget) : bool :=
  match target with TargetAsync _ => true | TargetSync _ => false end.

Definition empty_runner_loop_report : RunnerLoopReport := MkRunnerLoopReport 0 0.

(** ** Recording decisions *)

Definition decision_attrs (self : CoreRuntime) (descriptor : RunnerDescriptor) (decision : ScheduleDecision) :
    list (string * ScalarValue) :=
  [("scheduler_id", ScalarString (dec_scheduler_id decision));
   ("runner_id", ScalarString (d_runner_id descriptor));
   ("requested_dispatch_limit", attr_int (dec_requested_dispatch_limit decision));
   ("effective_dispatch_limit", attr_int (dec_dispatch_limit decision));
   ("budget_max_entries", attr_int (db_max_entries (dec_budget decision)));
   ("budget_max_batches", attr_int (db_max_batches (dec_budget decision)));
   ("reason", ScalarString (dec_reason decision));
   ("registry_generation", attr_int (plan_registry_generation (rt_load_plan self)));
   ("current_step", attr_int (rt_current_step self))].

Definition record_scheduler_decision (descriptor : RunnerDescriptor) (decision : ScheduleDecision) : M CoreRuntime unit :=
  modify (λ s, s <| rt_scheduler_decisions ::= λ n, saturating_add n 1 |>) ;;!
  let! self := get in
  let events_enabled := is_enabled (el_inner (rt_events self)) in
  let traces_retain := will_retain_next (tl_inner (rt_traces self)) in
  if negb (obs_detailed_scheduler_decisions (plan_observability (rt_load_plan self))) then ret tt
  else if negb events_enabled && negb traces_retain then ret tt
  else
    let attrs := decision_attrs self descriptor decision in
    let! span :=
      if traces_retain then
        record_span ("trace-scheduler-" +:+ d_runner_id descriptor) "scheduler.decision" SpanOk (attr_map attrs)
      else ret None in
    let attrs := match span with
                 | Some span => attrs ++ [("span_id", ScalarString (span_span_id span))]
                 | None => attrs
                 end in
    if events_enabled then
      record_event EventTrace "scheduler.decision" (Some (d_runner_id descriptor)) (attr_map attrs) None
    else ret tt.

(** ** Building a dispatch (dispatch_build.rs) *)

Definition dispatch_trace_id (task : Task) : string :=
  match t_trace_id task with Some trace_id => trace_id | None => "trace-task-" +:+ t_task_id task end.

Definition started_attrs (lease : TaskLease) : gmap string ScalarValue :=
  attr_map
    [("lease_id", ScalarString (l_lease_id lease)); ("runner_id", ScalarString (l_runner_id lease));
     ("registry_generation", attr_int (l_registry_generation lease))].

(** The async handler of the runner, or a runner object taken from the
    registry. *)
Definition dispatch_target (runner_id : string) : M CoreRuntime (RuntimeResult RunnerDispatchTarget) :=
  let! self := get in
  match async_handler (rt_registry self) runner_id with
  | Some handler => ret (Ok (TargetAsync handler))
  | None =>
      let! runner := on_registry (take_runner runner_id) in
      match runner with
      | Some runner => ret (Ok (TargetSync runner))
      | None => ret (runtime_failure ERR_RUNNER_NOT_FOUND "runtime.runner_loop" ("runner." +:+ runner_id))
      end
  end.

Definition build_runner_dispatch (descriptor : RunnerDescriptor) (executor_id : string)
    (leased_tasks : list (TaskLease * Task)) : M CoreRuntime (RuntimeResult RunnerDispatch) :=
  let! self := get in
  let runner_id := d_runner_id descriptor in
  let first_sequence := match leased_tasks with (_, task) :: _ => t_created_sequence task | [] => 0%N end in
  let batch_id :=
    "batch-" +:+ pretty (rt_current_step self) +:+ "-" +:+ runner_id +:+ "-" +:+ pretty first_sequence in
  let task_leases := leased_tasks.*1 in
  let trace_id :=
    match leased_tasks with (_, task) :: _ => dispatch_trace_id task | [] => "trace-batch-" +:+ batch_id end in
  let batch := build_work_batch (rt_current_step self) batch_id descriptor leased_tasks in
  let! span :=
    if obs_dispatch_spans (plan_observability (rt_load_plan self)) && will_retain_next (tl_inner (rt_traces self)) then
      record_span trace_id "runner.run_batch" SpanOk
        (dispatch_batch_attrs descriptor batch task_leases executor_id ∪ runner_attrs descriptor (rt_load_plan self))
    else ret None in
  let? target := dispatch_target runner_id in
  let ctx :=
    with_batch
      (RunnerContext_new (plan_registry_generation (rt_load_plan self)) (rt_current_step self) executor_id
         (l_lease_id <$> task_leases) batch_id) batch_id (len task_leases) in
  for_each task_leases (λ lease,
    record_event EventTask "task.started" (Some (l_task_id lease)) (started_attrs lease) None) ;;!
  let! self := get in
  match span with
  | Some span =>
      if is_enabled (el_inner (rt_events self)) then
        record_event EventTrace "trace.span" (Some runner_id) (trace_attrs span) None
      else ret tt
  | None => ret tt
  end ;;!
  ret (Ok {| rdp_target := target; rdp_ctx := ctx; rdp_task_leases := task_leases; rdp_batch := batch |}).

(** ** Selecting and claiming work (dispatch_selection.rs) *)

Definition runner_can_dispatch (descriptor : RunnerDescriptor) : bool :=
  bool_decide (d_execution_class descriptor ≠ ClassControl) || bool_decide (d_runner_id descriptor = "core.kernel").

(** [slice::chunks]: consecutive pieces of [size] elements, the last one
    shorter; a size of zero panics. *)
Fixpoint chunks_fuel {A} (fuel : nat) (size : nat) (l : list A) : list (list A) :=
  match fuel, l with
  | S fuel, _ :: _ => take size l :: chunks_fuel fuel size (drop size l)
  | _, _ => []
  end.

Definition chunks {A} (size : N) (l : list A) : option (list (list A)) :=
  if decide (size = 0%N) then None else Some (chunks_fuel (length l) (N.to_nat size) l).

Definition defer_all (leased_tasks : list (TaskLease * Task)) : M CoreRuntime (RuntimeResult unit) :=
  try_for_each leased_tasks (λ leased,
    let! self := get in on_tasks (defer_leased leased.1 (rt_current_step self))).

Fixpoint build_dispatches (descriptor : RunnerDescriptor) (executor_id : string)
    (groups : list (list (TaskLease * Task))) : M CoreRuntime (RuntimeResult (list RunnerDispatch)) :=
  match groups with
  | [] => ret (Ok [])
  | group :: groups =>
      let? dispatch := build_runner_dispatch descriptor executor_id group in
      let? dispatches := build_dispatches descriptor executor_id groups in
      ret (Ok (dispatch :: dispatches))
  end.

(** The batches the decision leaves to this runner, and the decision clamped to
    what the runner can take. *)
Definition allowed_batches (descriptor : RunnerDescriptor) (decision : ScheduleDecision) : N :=
  N.min (db_max_batches (dec_budget decision)) (max_inflight_batches (d_concurrency descriptor)).

Definition clamp_decision (descriptor : RunnerDescriptor) (decision : ScheduleDecision) : ScheduleDecision :=
  let max_batches := allowed_batches descriptor decision in
  decision_clamp_batches
    (decision_clamp_to decision (saturating_mul (bc_max_batch_entries (d_batch descriptor)) max_batches)) max_batches.

Definition claim_runner_work (descriptor : RunnerDescriptor) (decision : ScheduleDecision)
    (lease_expires_at : option N) : M CoreRuntime (RuntimeResult (RunnerLoopReport * list RunnerDispatch)) :=
  let max_batches := allowed_batches descriptor decision in
  let decision := clamp_decision descriptor decision in
  record_scheduler_decision descriptor decision ;;!
  if decide (dec_dispatch_limit decision = 0%N) then ret (Ok (empty_runner_loop_report, []))
  else
    let! self := get in
    let executor_id := "executor:" +:+ d_runner_id descriptor in
    let! leased_tasks := on_tasks (claim_ready_for_executor_with_budget descriptor executor_id
      (rt_current_step self) (plan_registry_generation (rt_load_plan self)) (dec_dispatch_limit decision)
      (Some (dec_budget decision)) lease_expires_at) in
    if bool_decide (leased_tasks = []) then ret (Ok (empty_runner_loop_report, []))
    else if bool_decide (d_purity descriptor = Committer) && bool_decide (d_runner_id descriptor = "core.kernel") then
      let? completed_tasks := process_kernel_tasks leased_tasks in
      ret (Ok (MkRunnerLoopReport (len leased_tasks) completed_tasks, []))
    else
      match split_leased_tasks_by_resource_conflict leased_tasks with
      | [] => panic
      | dispatch_group :: deferred_groups =>
          let? _ := defer_all (concat deferred_groups) in
          let! all_chunks := expect (chunks (bc_max_batch_entries (d_batch descriptor)) dispatch_group) in
          let chunks := take (N.to_nat max_batches) all_chunks in
          let dispatched_tasks := sum_list (length <$> chunks) in
          let? _ := defer_all (drop dispatched_tasks dispatch_group) in
          let? dispatches := build_dispatches descriptor executor_id chunks in
          ret (Ok (MkRunnerLoopReport (N.of_nat dispatched_tasks) 0, dispatches))
      end.

(** ** Executing inline (executor.rs) *)

Definition execute_inline (dispatch : RunnerDispatch) : RunnerCompletion :=
  let batch := rdp_batch dispatch in
  match rdp_target dispatch with
  | TargetSync runner =>
      let '(result, runner) := runner_run_batch (rdp_ctx dispatch) batch runner in
      {| rcp_runner := Some runner; rcp_task_leases := rdp_task_leases dispatch; rcp_batch_id := wb_batch_id batch;
         rcp_expected_entries := wb_entries batch; rcp_result := result |}
  | TargetAsync _ =>
      {| rcp_runner := None; rcp_task_leases := rdp_task_leases dispatch; rcp_batch_id := wb_batch_id batch;
         rcp_expected_entries := wb_entries batch;
         rcp_result := runtime_failure ERR_RUNTIME_HOST_FAILED "runtime.inline_executor"
                         "host.async_executor.unavailable" |}
  end.

Definition complete_inline_dispatch (completion : RunnerCompletion) : M CoreRuntime (RuntimeResult N) :=
  let? report := complete_runner_dispatch completion in
  ret (Ok (rep_completed_tasks report)).

(** ** The loop (runner_loop.rs) *)

Definition add_report (a b : RunnerLoopReport) : RunnerLoopReport :=
  MkRunnerLoopReport (rep_claimed_tasks a + rep_claimed_tasks b) (rep_completed_tasks a + rep_completed_tasks b).

(** The first part of both scheduling passes, with the step already set. *)
Definition begin_pass : M CoreRuntime (RuntimeResult RunnerLoopReport) :=
  rt_reclaim_expired_task_leases ;;!
  rt_wake_due_tasks ;;!
  let? rejected := reject_stale_ready_tasks in
  ret (Ok (completed_report rejected)).

Definition tick_runner (descriptor : RunnerDescriptor) : M CoreRuntime (RuntimeResult RunnerLoopReport) :=
  let! self := get in
  if negb (runner_can_dispatch descriptor) then ret (Ok empty_runner_loop_report)
  else
    let! load := on_tasks (runner_load descriptor (rt_current_step self) (plan_registry_generation (rt_load_plan self))) in
    let decision :=
      decision_clamp_to (ScheduleDecision_new "core.inline" (ld_queued_count load) "inline.default") (ld_queued_count load) in
    let! expires := u64_add (rt_current_step self) TASK_LEASE_TTL_STEPS in
    let? claimed := claim_runner_work descriptor decision (Some expires) in
    let '(report, dispatches) := claimed in
    let? completed := try_sum dispatches (λ dispatch, complete_inline_dispatch (execute_inline dispatch)) in
    ret (Ok (add_report report (completed_report completed))).

Fixpoint tick_runners (descriptors : list RunnerDescriptor) (report : RunnerLoopReport) :
    M CoreRuntime (RuntimeResult RunnerLoopReport) :=
  match descriptors with
  | [] => ret (Ok report)
  | descriptor :: descriptors =>
      let? one := tick_runner descriptor in
      tick_runners descriptors (add_report report one)
  end.

Definition tick_once : M CoreRuntime (RuntimeResult RunnerLoopReport) :=
  let! self := get in
  match ensure_not_aborted self with
  | Err e => ret (Err e)
  | Ok _ =>
      let! step := u64_add (rt_current_step self) 1 in
      modify (λ s, s <| rt_current_step := step |>) ;;!
      let? report := begin_pass in
      let! self := get in
      tick_runners (reg_descriptor_snapshot (rt_registry self)) report
  end.

(** A host decides how much each runner may take; its closure keeps a state
    [D]. *)
Section HostPass.
Context {D : Type}.
(** [None] is a panic of the closure. *)
Variable decide_schedule : RunnerDescriptor → RunnerLoad → N → N → D → option (RuntimeResult ScheduleDecision * D).

Fixpoint claim_for_runners (descriptors : list RunnerDescriptor) (lease_expires_at : option N) (d : D)
    (report : RunnerLoopReport) (dispatches : list RunnerDispatch) :
    M CoreRuntime (RuntimeResult (RunnerLoopReport * list RunnerDispatch)) :=
  match descriptors with
  | [] => ret (Ok (report, dispatches))
  | descriptor :: descriptors =>
      if negb (runner_can_dispatch descriptor) then claim_for_runners descriptors lease_expires_at d report dispatches
      else
        let! self := get in
        let generation := plan_registry_generation (rt_load_plan self) in
        let! load := on_tasks (runner_load descriptor (rt_current_step self) generation) in
        let! decided := expect (decide_schedule descriptor load (rt_current_step self) generation d) in
        let '(decision, d) := decided in
        match decision with
        | Err e => ret (Err e)
        | Ok decision =>
            let? claimed := claim_runner_work descriptor decision lease_expires_at in
            let '(one, runner_dispatches) := claimed in
            claim_for_runners descriptors lease_expires_at d (add_report report one) (dispatches ++ runner_dispatches)
        end
  end.

Definition claim_ready_dispatches_at_step (target_step : N) (d : D) (lease_expires_at : option N) :
    M CoreRuntime (RuntimeResult (RunnerLoopReport * list RunnerDispatch)) :=
  let! self := get in
  match ensure_not_aborted self with
  | Err e => ret (Err e)
  | Ok _ =>
      if decide (target_step ≤ rt_current_step self)%N then
        ret (runtime_failure "runtime.tick.invalid" "runtime.runner_loop"
               ("runtime.step." +:+ pretty target_step +:+ ".after." +:+ pretty (rt_current_step self)))
      else
        modify (λ s, s <| rt_current_step := target_step |>) ;;!
        let? report := begin_pass in
        let! self := get in
        claim_for_runners (reg_descriptor_snapshot (rt_registry self)) lease_expires_at d report []
  end.

Definition claim_ready_dispatches (d : D) (lease_expires_at : option N) :
    M CoreRuntime (RuntimeResult (RunnerLoopReport * list RunnerDispatch)) :=
  let! self := get in
  claim_ready_dispatches_at_step (saturating_add (rt_current_step self) 1) d lease_expires_at.
End HostPass.

Definition ensure_leases_active (self : CoreRuntime) (leases : list TaskLease) : RuntimeResult unit :=
  check_all (λ lease, ensure_active_lease (rt_tasks self) (l_task_id lease) lease (rt_current_step self) "host_defer") leases.

Definition defer_runner_dispatch (dispatch : RunnerDispatch) : M CoreRuntime (RuntimeResult N) :=
  let! self := get in
  match ensure_leases_active self (rdp_task_leases dispatch) with
  | Err e => ret (Err e)
  | Ok _ =>
      let? _ := try_for_each (rdp_task_leases dispatch) (λ lease,
        on_tasks (defer_leased lease (rt_current_step self))) in
      match rdp_target dispatch with
      | TargetSync runner => on_registry (put_runner runner)
      | TargetAsync _ => ret tt
      end ;;!
      ret (Ok (len (rdp_task_leases dispatch)))
  end.

Fixpoint run_ticks (max_ticks : nat) (aggregate : RunnerLoopReport) : M CoreRuntime (RuntimeResult RunnerLoopReport) :=
  match max_ticks with
  | O => ret (Ok aggregate)
  | S max_ticks =>
      let? report := tick_once in
      let aggregate := add_report aggregate report in
      if bool_decide (rep_claimed_tasks report = 0%N) && bool_decide (rep_completed_tasks report = 0%N)
      then ret (Ok aggregate)
      else run_ticks max_ticks aggregate
  end.

Definition run_until_idle (max_ticks : N) : M CoreRuntime (RuntimeResult RunnerLoopReport) :=
  run_ticks (N.to_nat max_ticks) empty_runner_loop_report.
End Dispatch.
