(* ===== verification/RuntimeReload.v ===== *)
(** * The core runtime: reload and plugin generations

    crates/mutsuki-runtime-core/src/runtime/reload.rs, reload/generations.rs,
    reload/invocation.rs and reload/occupancy.rs. *)

From S2P Require Import Prelude Contracts RunnerContracts BatchContracts PluginContracts Logs StateStore ResourceManager ResourceOccupancy TaskRecords TaskIndexes TaskPool TaskClaiming TaskOccupancy Registry RuntimeState.

Inductive InvocationPollution : Type := Clean | LocalDirty | Polluted | UnknownDirty.

#[export] Instance InvocationPollution_eq_dec : EqDecision InvocationPollution.
Proof. solve_decision. Defined.

Definition pollution_debug (pollution : InvocationPollution) : string :=
  match pollution with
  | Clean => "Clean" | LocalDirty => "LocalDirty" | Polluted => "Polluted" | UnknownDirty => "UnknownDirty"
  end.

Definition needs_drain (pollution : InvocationPollution) : bool :=
  match pollution with Polluted | UnknownDirty => true | Clean | LocalDirty => false end.

Record RunningInvocationDisposition : Type := MkRunningInvocationDisposition {
  dsp_task_id : string;
  dsp_invocation_id : string;
  dsp_runner_id : string;
  dsp_plugin_id : string;
  dsp_plugin_generation : N;
  dsp_pollution : InvocationPollution
}.

Section Reload.
Context `{RA : RunnerApi}.

(** ** Occupancy of surfaces (occupancy.rs) *)

Definition add_occupancy (entry item : SurfaceOccupancy) : SurfaceOccupancy :=
  {| so_surface_id := so_surface_id entry;
     so_ready_tasks := so_ready_tasks entry + so_ready_tasks item;
     so_running_invocations := so_running_invocations entry + so_running_invocations item;
     so_resource_refs := so_resource_refs entry + so_resource_refs item;
     so_state_refs := so_state_refs entry + so_state_refs item;
     so_active_leases := so_active_leases entry + so_active_leases item;
     so_open_streams := so_open_streams entry + so_open_streams item;
     so_subscriptions := so_subscriptions entry + so_subscriptions item;
     so_timers := so_timers entry + so_timers item;
     so_effect_inflight := so_effect_inflight entry + so_effect_inflight item |}%N.

Definition merge_item (by_surface : gmap string SurfaceOccupancy) (item : SurfaceOccupancy) : gmap string SurfaceOccupancy :=
  let id := so_surface_id item in
  <[ id := add_occupancy (unwrap_or (by_surface !! id) (zero_occupancy id)) item ]> by_surface.

Definition merge_occupancy (task_occupancy resource_occupancy : list SurfaceOccupancy) : list SurfaceOccupancy :=
  (btree_entries (foldl merge_item ∅ (task_occupancy ++ resource_occupancy))).*2.

Definition rt_surface_occupancy (self : CoreRuntime) : list SurfaceOccupancy :=
  merge_occupancy (task_surface_occupancy (rt_tasks self) (rt_protocol_classes self))
    (surface_occupancy (rt_resources self) (rt_surfaces self)).

(** ** Running invocations (invocation.rs) *)

Definition classify_pollution (task : Task) (runner : RunnerDescriptor) (protocol_classes : gmap string ProtocolClass) :
    InvocationPollution :=
  match protocol_classes !! t_protocol_id task with
  | Some (ProtocolEffect | ProtocolCore | ProtocolControl) => Polluted
  | Some ProtocolDomain =>
      if decide (d_purity runner = Pure) then
        match t_input_refs task, t_expected_versions task with
        | [], [] => Clean
        | _, _ => LocalDirty
        end
      else UnknownDirty
  | None => UnknownDirty
  end.

Definition classify_record (self : CoreRuntime) (record : TaskRecord) : option RunningInvocationDisposition :=
  let task := r_task record in
  runner_id ← r_claimed_by record;
  let invocation_id := match r_lease record with Some lease => l_lease_id lease | None => t_task_id task end in
  Some match registry_descriptor (rt_registry self) runner_id with
       | Some descriptor =>
           {| dsp_task_id := t_task_id task; dsp_invocation_id := invocation_id; dsp_runner_id := runner_id;
              dsp_plugin_id := d_plugin_id descriptor; dsp_plugin_generation := d_plugin_generation descriptor;
              dsp_pollution := classify_pollution task descriptor (rt_protocol_classes self) |}
       | None =>
           {| dsp_task_id := t_task_id task; dsp_invocation_id := invocation_id; dsp_runner_id := runner_id;
              dsp_plugin_id := "unknown"; dsp_plugin_generation := t_registry_generation task;
              dsp_pollution := UnknownDirty |}
       end.

Definition classify_running_invocations (self : CoreRuntime) : list RunningInvocationDisposition :=
  omap (classify_record self) (running_records (rt_tasks self)).

Definition invocation_attrs (runner_id invocation_id : string) (returned_to_ready : N) : gmap string ScalarValue :=
  attr_map [("runner_id", ScalarString runner_id); ("invocation_id", ScalarString invocation_id);
            ("returned_to_ready", attr_int returned_to_ready)].

Definition cancel_attrs (disposition : RunningInvocationDisposition) (policy : string) : gmap string ScalarValue :=
  attr_map
    [("runner_id", ScalarString (dsp_runner_id disposition));
     ("invocation_id", ScalarString (dsp_invocation_id disposition));
     ("plugin_id", ScalarString (dsp_plugin_id disposition));
     ("plugin_generation", attr_int (dsp_plugin_generation disposition));
     ("pollution", ScalarString (pollution_debug (dsp_pollution disposition)));
     ("policy", ScalarString policy)].

Definition cancel_invocation (runner_id invocation_id : string) : M CoreRuntime (RuntimeResult N) :=
  let! self := get in
  let? _ := on_registry (cancel_runner runner_id invocation_id) in
  let! returned := on_tasks (cancel_running_invocation runner_id invocation_id (rt_current_step self)) in
  record_event EventRunner "runner.cancel" (Some runner_id) (invocation_attrs runner_id invocation_id returned) None ;;!
  ret (Ok returned).

(** ** Generations (generations.rs) *)

Definition set_phase (phase : PluginGenerationPhase) (state : PluginGenerationState) : PluginGenerationState :=
  MkPluginGenerationState (pgs_plugin_id state) (pgs_generation state) phase.

Definition mark_generation_phase (registry_generation : N) (phase : PluginGenerationPhase) : M CoreRuntime unit :=
  modify (λ s, s <| rt_generation_states ::= fmap (λ state,
    if decide (pgs_generation state = registry_generation) then set_phase phase state else state) |>).

(** [if !states.iter().any(|s| same plugin and generation) { states.push(state) }] *)
Definition push_new_state (states : list PluginGenerationState) (state : PluginGenerationState) : list PluginGenerationState :=
  if existsb (λ other, bool_decide (pgs_plugin_id other = pgs_plugin_id state)
                       && bool_decide (pgs_generation other = pgs_generation state)) states
  then states else states ++ [state].

Definition activate_state (active_generation : N) (state : PluginGenerationState) : PluginGenerationState :=
  if decide (pgs_generation state = active_generation) then set_phase PhaseActive state
  else if decide (pgs_phase state = PhaseActive) then set_phase PhaseDraining state else state.

Definition set_active_generation_states : M CoreRuntime unit :=
  modify (λ s, s <| rt_generation_states ::= λ states,
    foldl push_new_state (activate_state (plan_registry_generation (rt_load_plan s)) <$> states)
      (generation_states_for_plan (rt_load_plan s) PhaseActive) |>).

Definition apply_load_plan (new_plan : RuntimeLoadPlan) : M CoreRuntime unit :=
  let! self := get in
  on_tasks (rebind_ready_generation (plan_registry_generation (rt_load_plan self)) (plan_registry_generation new_plan)) ;;!
  modify (λ s, s <| rt_handler_bindings := from_load_plan new_plan |>
                 <| rt_surfaces := plan_contract_surfaces new_plan |>
                 <| rt_protocol_classes := protocol_classes_for_plan new_plan |>
                 <| rt_load_plan := new_plan |>).

Definition dispose_plugins : M CoreRuntime (RuntimeResult (list string)) :=
  let? bag := on_registry dispose_all in
  let! self := get in
  mark_generation_phase (plan_registry_generation (rt_load_plan self)) Disposed ;;!
  record_event EventPlugin "plugin.dispose" None ∅ None ;;!
  ret (Ok bag).

Definition still_running (p : TaskPool) (generation : DrainingGeneration) : bool :=
  existsb (λ runner_id, negb (bool_decide (running_records_for_runner p runner_id = []))) (dg_runner_ids generation).

(** [disposed], [remaining] and [disposed_generations] of the loop, [None] for
    a panic. *)
Record SettleState : Type := MkSettleState {
  se_disposed : list string;
  se_remaining : list DrainingGeneration;
  se_generations : list N
}.

Fixpoint settle_loop (p : TaskPool) (generations : list DrainingGeneration) (s : SettleState) :
    option (RuntimeResult SettleState) :=
  match generations with
  | [] => Some (Ok s)
  | generation :: generations =>
      if still_running p generation then
        settle_loop p generations
          (MkSettleState (se_disposed s) (se_remaining s ++ [generation]) (se_generations s))
      else
        match dispose_all (dg_registry generation) with
        | None => None
        | Some (Err e, _) => Some (Err e)
        | Some (Ok bag, _) =>
            settle_loop p generations
              (MkSettleState (se_disposed s ++ bag) (se_remaining s)
                 (se_generations s ++ [dg_registry_generation generation]))
        end
  end.

(** [draining_generations.drain(..)] empties the list when the loop is left,
    also by an error. *)
Definition settle_draining_generations : M CoreRuntime (RuntimeResult (list string)) :=
  let! self := get in
  let! settled := expect (settle_loop (rt_tasks self) (rt_draining_generations self) (MkSettleState [] [] [])) in
  modify (λ s, s <| rt_draining_generations := [] |>) ;;!
  match settled with
  | Err e => ret (Err e)
  | Ok s =>
      modify (λ self, self <| rt_draining_generations := se_remaining s |>) ;;!
      for_each (se_generations s) (λ generation, mark_generation_phase generation Disposed) ;;!
      ret (Ok (se_disposed s))
  end.

(** ** Reload (reload.rs) *)

Definition reload_blocked {A} : RuntimeResult A := runtime_failure ERR_RELOAD_BLOCKED "runtime.reload" "reload.breaking".

(** The surface check both kinds of reload make first. *)
Definition check_reload (self : CoreRuntime) (new_plan : RuntimeLoadPlan) : RuntimeResult ReloadDecision :=
  letr? decision := compare_surfaces (rt_surfaces self) (plan_contract_surfaces new_plan) (rt_surface_occupancy self) in
  if rd_blocked decision then reload_blocked else Ok decision.

Definition reload_load_plan_only (new_plan : RuntimeLoadPlan) : M CoreRuntime (RuntimeResult ReloadDecision) :=
  let! self := get in
  match check_reload self new_plan with
  | Err e => ret (Err e)
  | Ok decision =>
      record_event EventReload "plugin.reload" (Some (pretty (plan_registry_generation new_plan))) ∅ None ;;!
      apply_load_plan new_plan ;;!
      ret (Ok decision)
  end.

Definition handle_invocation (disposition : RunningInvocationDisposition) : M CoreRuntime (RuntimeResult unit) :=
  if needs_drain (dsp_pollution disposition) then
    record_event EventReload "plugin.reload.drain_invocation" (Some (dsp_task_id disposition))
      (cancel_attrs disposition "reload.drain") None ;;!
    ret (Ok tt)
  else
    let? _ := on_registry (cancel_runner (dsp_runner_id disposition) (dsp_invocation_id disposition)) in
    let! self := get in
    on_tasks (cancel_running_invocation (dsp_runner_id disposition) (dsp_invocation_id disposition) (rt_current_step self)) ;;!
    record_event EventRunner "runner.cancel" (Some (dsp_runner_id disposition))
      (cancel_attrs disposition "reload.cancel_requeue") None ;;!
    ret (Ok tt).

(** The old registry is kept for draining, or disposed of. *)
Definition retire_registry (old_generation : N) (old_runner_ids : list string)
    (dispositions : list RunningInvocationDisposition) : M CoreRuntime (RuntimeResult unit) :=
  let! self := get in
  let old_registry := rt_registry self in
  modify (λ s, s <| rt_registry := RunnerRegistry_default |>) ;;!
  if existsb (λ disposition, needs_drain (dsp_pollution disposition)) dispositions then
    modify (λ s, s <| rt_draining_generations ::= λ l, l ++ [MkDrainingGeneration old_generation old_runner_ids old_registry] |>) ;;!
    ret (Ok tt)
  else
    let! disposed := expect (fst <$> dispose_all old_registry) in
    match disposed with
    | Err e => ret (Err e)
    | Ok _ => mark_generation_phase old_generation Disposed ;;! ret (Ok tt)
    end.

Definition swap_generation (new_plan : RuntimeLoadPlan) (new_registry : RunnerRegistry) : M CoreRuntime (RuntimeResult unit) :=
  record_event EventReload "plugin.reload.swap_generation" (Some (pretty (plan_registry_generation new_plan))) ∅ None ;;!
  apply_load_plan new_plan ;;!
  modify (λ s, s <| rt_registry := new_registry |>) ;;!
  set_active_generation_states ;;!
  let? _ := settle_draining_generations in
  ret (Ok tt).

Definition reload_with_async_handlers (new_plan : RuntimeLoadPlan) (new_runners : list Runner)
    (new_async_handlers : list AsyncHandler) : M CoreRuntime (RuntimeResult ReloadDecision) :=
  let! self := get in
  let runner_descriptors := (runner_descriptor <$> new_runners) ++ (handler_descriptor <$> new_async_handlers) in
  match letr? _ := validate_runtime_descriptors new_plan runner_descriptors in check_reload self new_plan with
  | Err e => ret (Err e)
  | Ok decision =>
      let! built := expect (build_registry new_runners new_async_handlers RunnerRegistry_default) in
      match built with
      | (Err e, _) => ret (Err e)
      | (Ok _, new_registry) =>
          modify (λ s, s <| rt_generation_states ::= λ states,
            foldl push_new_state states (generation_states_for_plan new_plan ShadowStarting) |>) ;;!
          let dispositions := classify_running_invocations self in
          let? _ := try_for_each dispositions handle_invocation in
          let? _ := retire_registry (plan_registry_generation (rt_load_plan self)) (runner_ids (rt_registry self)) dispositions in
          let? _ := swap_generation new_plan new_registry in
          ret (Ok decision)
      end
  end.

Definition reload_with_runners (new_plan : RuntimeLoadPlan) (new_runners : list Runner) :
    M CoreRuntime (RuntimeResult ReloadDecision) :=
  reload_with_async_handlers new_plan new_runners [].
End Reload.
