(* ===== verification/RuntimeResources.v ===== *)
(** * The core runtime: resources

    crates/mutsuki-runtime-core/src/runtime/resource_api.rs: the resource
    manager behind checks for deprecated surfaces, with the runtime's step. *)

From S2P Require Import Prelude Contracts RunnerContracts BatchContracts PluginContracts Logs StateStore ResourceManager ResourceOccupancy TaskRecords TaskIndexes TaskPool Registry RuntimeState.

Section ResourceApi.
Context `{RA : RunnerApi}.

(** A guard that only reads, then an operation of the manager. *)
Definition guarded_resources {A} (guard : CoreRuntime → RuntimeResult unit) (c : M ResourceManager (RuntimeResult A)) :
    M CoreRuntime (RuntimeResult A) :=
  let! self := get in
  match guard self with
  | Err e => ret (Err e)
  | Ok _ => on_resources c
  end.

Definition ensure_resource_descriptor_not_deprecated (descriptor : ResourceRef) (self : CoreRuntime) : RuntimeResult unit :=
  ensure_resource_surfaces_not_deprecated self (rr_schema descriptor) (Some (rr_provider_id descriptor))
    "runtime.resource_manager".

Definition open_stream (stream_id schema provider_id endpoint : string) : M CoreRuntime (RuntimeResult ResourceRef) :=
  guarded_resources (λ self,
      letr? _ := ensure_surface_not_deprecated self ("stream:" +:+ stream_id) "runtime.resource_manager" in
      ensure_resource_surfaces_not_deprecated self schema (Some provider_id) "runtime.resource_manager")
    (let! resource := create_stream_resource stream_id schema provider_id endpoint in ret (Ok resource)).

Definition close_stream (ref_id : string) : M CoreRuntime (RuntimeResult unit) :=
  let? _ := on_resources (close_stream_resource ref_id) in ret (Ok tt).

Definition rt_register_resource_descriptor (descriptor : ResourceRef) : M CoreRuntime (RuntimeResult ResourceRef) :=
  guarded_resources (ensure_resource_descriptor_not_deprecated descriptor) (register_resource_descriptor descriptor).

(** The descriptors a receipt would write: its resource, its snapshot and its
    updates. *)
Definition receipt_not_deprecated (receipt : PlanReceipt) (self : CoreRuntime) : RuntimeResult unit :=
  letr? _ := match pr_resource_ref receipt with
             | Some resource => ensure_resource_descriptor_not_deprecated resource self
             | None => Ok tt
             end in
  letr? _ := match pr_snapshot receipt with
             | Some snapshot => ensure_resource_descriptor_not_deprecated (sd_snapshot_ref snapshot) self
             | None => Ok tt
             end in
  check_all (λ descriptor, ensure_resource_descriptor_not_deprecated descriptor self) (pr_descriptor_updates receipt).

Definition rt_sync_plan_receipt (receipt : PlanReceipt) : M CoreRuntime (RuntimeResult (list ResourceRef)) :=
  guarded_resources (receipt_not_deprecated receipt) (sync_plan_receipt receipt).

Fixpoint sync_plan_receipts (receipts : list PlanReceipt) : M CoreRuntime (RuntimeResult (list ResourceRef)) :=
  match receipts with
  | [] => ret (Ok [])
  | receipt :: receipts =>
      let? synced := rt_sync_plan_receipt receipt in
      let? rest := sync_plan_receipts receipts in
      ret (Ok (synced ++ rest))
  end.

Definition lock_resource (ref_id owner : string) (expires_at_step : option N) :
    M CoreRuntime (RuntimeResult ExclusiveWriteLease) :=
  on_resources (acquire_write_lease ref_id owner expires_at_step).

Definition rt_release_write_lease (lease : ExclusiveWriteLease) : M CoreRuntime (RuntimeResult unit) :=
  let! self := get in
  on_resources (release_write_lease_at lease (rt_current_step self)).

Definition rt_create_resource_cell (cell_id resource_kind owner_plugin_id schema reload_policy : string) :
    M CoreRuntime (RuntimeResult ResourceCellRef) :=
  guarded_resources (λ self, ensure_resource_surfaces_not_deprecated self schema None "runtime.resource_manager")
    (let! cell := create_resource_cell cell_id resource_kind owner_plugin_id schema reload_policy in ret (Ok cell)).

Definition rt_acquire_resource_lease (cell_id borrower_task_id borrower_executor_id mode : string)
    (expires_at_step : option N) : M CoreRuntime (RuntimeResult ResourceLease) :=
  on_resources (acquire_resource_lease cell_id borrower_task_id borrower_executor_id mode expires_at_step).

Definition rt_release_resource_lease (lease : ResourceLease) : M CoreRuntime (RuntimeResult unit) :=
  let! self := get in
  on_resources (release_resource_lease_at lease (rt_current_step self)).

Definition rt_reclaim_expired_resource_leases : M CoreRuntime (list ResourceLease) :=
  let! self := get in
  on_resources (reclaim_expired_resource_leases (rt_current_step self)).

Definition rt_register_surface_occupancy (handle : SurfaceOccupancyHandle) : M CoreRuntime (RuntimeResult unit) :=
  guarded_resources (λ self, ensure_surface_not_deprecated self (oh_surface_id handle) "runtime.resource_manager")
    (register_surface_occupancy handle).

Definition rt_release_surface_occupancy (handle_id : string) : M CoreRuntime (RuntimeResult SurfaceOccupancyHandle) :=
  on_resources (release_surface_occupancy handle_id).
End ResourceApi.
