(* ===== verification/RuntimeInvariant.v ===== *)
(** * Runs of the core runtime

    What holds of the runtime between operations ([rt_ok]), how an operation
    may change it ([advances]: every component is changed by its own operations
    only), and the rules to show that a method of the runtime respects both.

    Below, the methods that add no task. *)

From S2P Require Import Prelude Contracts RunnerContracts BatchContracts Ids Logs StateStore ResourceManager ResourceOccupancy ResourceTheorems TaskRecords TaskIndexes IndexFacts TaskPool TaskClaiming PoolInvariant PoolHistory PoolSteps PoolKernelSteps PoolForced PoolOps PluginContracts Registry RegistryTheorems RuntimeState RuntimeTasks RuntimeRouting.

Section Invariant.
Context `{RA : RunnerApi}.
Implicit Types s : CoreRuntime.

(** ** One operation of a component *)

Definition pool_step (p p' : TaskPool) : Prop := ∃ op, op_pre p op ∧ run_op op p = Some (tt, p').

Definition manager_step (m m' : ResourceManager) : Prop :=
  (id_next (rm_id_source m) < u64_max)%N ∧ ∃ op, run_rm_op op m = Some (tt, m').

(** The descriptors a scheduling pass goes through. *)
Definition registry_ok (r : RunnerRegistry) : Prop :=
  (∀ k d, reg_descriptors r !! k = Some d → descriptor_ok k d) ∧
  reg_descriptor_snapshot r = sort_by_str d_runner_id (snd <$> map_to_list (reg_descriptors r)).

Definition all_terminal (p : TaskPool) : Prop :=
  ∀ id r, p_tasks p !! id = Some r → is_terminal_status (r_status r) = true.

(** ** What holds between operations *)

(** The records of a log carry increasing numbers, until the saturating counter
    that numbers them has reached its end. *)
Definition numbered (log : EventLog) : Prop :=
  (u64_max ≤ bl_next_sequence (el_inner log))%N ∨ log_history ev_sequence (el_inner log) 0.

Definition spans_numbered (log : TraceLog) : Prop :=
  (u64_max ≤ bl_next_sequence (tl_inner log))%N ∨ trace_history log.

Record rt_ok s : Prop := {
  ok_tasks : reachable (rt_tasks s);
  ok_resources : rm_reachable (rt_resources s);
  ok_registry : registry_ok (rt_registry s);
  ok_events : numbered (rt_events s);
  ok_traces : spans_numbered (rt_traces s);
  ok_stop : rt_stop_state s = StopAborted → all_terminal (rt_tasks s)
}.

Definition stop_rank (st : RuntimeStopState) : nat :=
  match st with StopRunning => 0 | StopDraining => 1 | StopAborted => 2 end.

(** ** How the runtime changes *)

Record advances s s' : Prop := {
  ad_tasks : rtc pool_step (rt_tasks s) (rt_tasks s');
  ad_resources : rtc manager_step (rt_resources s) (rt_resources s');
  ad_states : ∃ deltas, store_run (rt_states s) deltas (rt_states s');
  ad_step : (rt_current_step s ≤ rt_current_step s')%N;
  ad_stop : stop_rank (rt_stop_state s) ≤ stop_rank (rt_stop_state s');
  ad_aborted : rt_stop_state s = StopAborted → progress (rt_tasks s) (rt_tasks s')
}.

Lemma store_run_app a l b k c : store_run a l b → store_run b k c → store_run a (l ++ k) c.
Proof. induction 1; intros; cbn; [done|eapply store_run_ok; eauto|eapply store_run_err; eauto]. Qed.

#[export] Instance advances_preorder : PreOrder advances.
Proof.
  split.
  - intros s. split; try done. by exists []; constructor.
  - intros s t u [H1 H2 [l H3] H4 H5 H6] [K1 K2 [k K3] K4 K5 K6]. split.
    + by etrans.
    + by etrans.
    + exists (l ++ k). by eapply store_run_app.
    + lia.
    + lia.
    + intros Hs. etrans; [by apply H6|]. apply K6. rewrite Hs in H5. destruct (rt_stop_state t); cbn in H5; lia || done.
Qed.

(** ** Room in the counters

    Submitting a task draws a sequence number and a place in the table, a commit
    raises the version of the state it writes; the additions panic when they
    overflow.  A claim allocates the ids of the entries it may take and panics
    when they do not fit one allocation.  [room n]: there is room for [n] of
    them; [spends n]: at most [n] happened. *)

Definition room (n : N) s : Prop :=
  allocatable TaskId n ∧ (p_next_sequence (rt_tasks s) + n ≤ u64_max)%N ∧
  (N.of_nat (size (p_tasks (rt_tasks s))) + n ≤ usize_max)%N ∧
  ∀ ref_id, (current_version (rt_states s) ref_id + n ≤ u64_max)%N.

Definition spends (n : N) s s' : Prop :=
  (p_next_sequence (rt_tasks s') ≤ p_next_sequence (rt_tasks s) + n)%N ∧
  (N.of_nat (size (p_tasks (rt_tasks s'))) ≤ N.of_nat (size (p_tasks (rt_tasks s))) + n)%N ∧
  ∀ ref_id, (current_version (rt_states s') ref_id ≤ current_version (rt_states s) ref_id + n)%N.

Lemma room_after n m s s' : room (n + m) s → spends n s s' → room m s'.
Proof.
  intros (H0 & H1 & H2 & H3) (K1 & K2 & K3). split_and!; [by eapply allocatable_le; [|exact H0]; lia|lia|lia|].
  intros ref_id. specialize (H3 ref_id). specialize (K3 ref_id). lia.
Qed.

Lemma room_mono n m s : (n ≤ m)%N → room m s → room n s.
Proof.
  intros Hle (H0 & H1 & H2 & H3). split_and!; [by eapply allocatable_le|lia|lia|]. intros ref_id. specialize (H3 ref_id). lia. Qed.

Lemma spends_mono n m s s' : (n ≤ m)%N → spends n s s' → spends m s s'.
Proof. intros Hle (H1 & H2 & H3). split_and!; [lia|lia|]. intros ref_id. specialize (H3 ref_id). lia. Qed.

Lemma spends_trans n m s t u : spends n s t → spends m t u → spends (n + m) s u.
Proof.
  intros (H1 & H2 & H3) (K1 & K2 & K3). split_and!; [lia|lia|]. intros ref_id. specialize (H3 ref_id). specialize (K3 ref_id). lia.
Qed.

(** The method returns and leaves a runtime that is fine and has advanced. *)
Definition safely {A} (c : M CoreRuntime A) s (Q : A → CoreRuntime → Prop) : Prop :=
  runs c s (λ a s', rt_ok s' ∧ advances s s' ∧ Q a s').

(** ** Rules *)

Lemma safely_mono {A} (c : M CoreRuntime A) s (P Q : A → CoreRuntime → Prop) :
  safely c s P → (∀ a s', rt_ok s' → advances s s' → P a s' → Q a s') → safely c s Q.
Proof. intros (a & s' & Hc & Hok & Hadv & HP) Hmono. exists a, s'. auto. Qed.

Lemma safely_ret {A} (a : A) s (Q : A → CoreRuntime → Prop) : rt_ok s → Q a s → safely (ret a) s Q.
Proof. intros Hok HQ. by apply runs_ret. Qed.

Lemma safely_bind {A B} (c : M CoreRuntime A) (k : A → M CoreRuntime B) s P Q :
  safely c s P → (∀ a s', rt_ok s' → advances s s' → P a s' → safely (k a) s' Q) → safely (bind c k) s Q.
Proof.
  intros (a & s' & Hc & Hok & Hadv & HP) Hnext.
  destruct (Hnext a s' Hok Hadv HP) as (b & s'' & Hk & Hok' & Hadv' & HQ).
  exists b, s''. unfold bind. rewrite Hc. split_and!; [done|done|by etrans|done].
Qed.

(** Reading the state. *)
Lemma safely_get {B} (k : CoreRuntime → M CoreRuntime B) s Q : safely (k s) s Q → safely (bind get k) s Q.
Proof. done. Qed.

Lemma safely_try {A B} (c : M CoreRuntime (RuntimeResult A)) (k : A → M CoreRuntime (RuntimeResult B)) s P
    (Q : RuntimeResult B → CoreRuntime → Prop) :
  safely c s P →
  (∀ a s', rt_ok s' → advances s s' → P (Ok a) s' → safely (k a) s' Q) →
  (∀ e s', rt_ok s' → advances s s' → P (Err e) s' → Q (Err e) s') →
  safely (try_bind c k) s Q.
Proof.
  intros Hc Hok Herr. eapply safely_bind; [exact Hc|]. intros [a|e] s' ? ? ?; [by apply Hok|].
  apply safely_ret; auto.
Qed.

Lemma safely_for_each {A} (l : list A) (body : A → M CoreRuntime unit) (I : CoreRuntime → Prop) s :
  rt_ok s → I s → (∀ x s', x ∈ l → rt_ok s' → I s' → safely (body x) s' (λ _, I)) →
  safely (for_each l body) s (λ _, I).
Proof.
  revert s. induction l as [|x l IH]; intros s Hok HI Hb; cbn [for_each]; [by apply safely_ret|].
  eapply safely_bind; [apply Hb; set_solver|]. intros [] s' ? ? ?. apply IH; [done|done|]. intros. apply Hb; set_solver.
Qed.

Lemma safely_try_for_each {A} (l : list A) (body : A → M CoreRuntime (RuntimeResult unit)) (I : CoreRuntime → Prop) s :
  rt_ok s → I s → (∀ x s', x ∈ l → rt_ok s' → I s' → safely (body x) s' (λ _, I)) →
  safely (try_for_each l body) s (λ _, I).
Proof.
  revert s. induction l as [|x l IH]; intros s Hok HI Hb; cbn [try_for_each]; [by apply safely_ret|].
  eapply safely_try; [apply Hb; set_solver| |done]. intros [] s' ? ? ?. apply IH; [done|done|].
  intros. apply Hb; set_solver.
Qed.

(** A change of fields the components do not own. *)
Lemma safely_modify (f : CoreRuntime → CoreRuntime) s (Q : unit → CoreRuntime → Prop) :
  rt_ok (f s) → advances s (f s) → Q tt (f s) → safely (modify f) s Q.
Proof. intros. by apply runs_modify. Qed.

(** ** The task pool *)

Lemma reachable_rtc p p' : reachable p → rtc pool_step p p' → reachable p'.
Proof. intros Hp. induction 1 as [|p q p' (op & Hpre & Hrun)]; [done|]. apply IHrtc. by eapply reachable_step. Qed.

Lemma all_terminal_progress p p' : all_terminal p → progress p p' → all_terminal p'.
Proof.
  intros Hp [Hf _] id r' Hr'. destruct (Hf _ _ Hr') as (r & Hr & Hs). specialize (Hp _ _ Hr).
  assert (∀ a b, is_terminal_status (r_status a) = true → ¬ record_step a b) as Hno.
  { intros a b Ht [_ Hl _ _ _]. by destruct (r_status a). }
  destruct Hs as [|a b c Hs]; [done|]. by apply Hno in Hs.
Qed.

Lemma rt_ok_tasks s p :
  rt_ok s → reachable p → (rt_stop_state s = StopAborted → all_terminal p) → rt_ok (s <| rt_tasks := p |>).
Proof. intros [] ? ?. by split. Qed.

(** Records move along the lifecycle and no number is drawn. *)
Definition calm (p p' : TaskPool) : Prop := progress p p' ∧ p_next_sequence p' = p_next_sequence p.

#[export] Instance calm_preorder : PreOrder calm.
Proof. split; [by split|]. intros p q r [H1 H2] [K1 K2]. split; [by etrans|congruence]. Qed.

Lemma calm_size p p' : calm p p' → size (p_tasks p') ≤ size (p_tasks p).
Proof.
  intros [[Hf _] _]. rewrite <-!(size_dom (D:=gset string)). apply subseteq_size. intros id [r Hr]%elem_of_dom.
  destruct (Hf _ _ Hr) as (r0 & Hr0 & _). by eapply elem_of_dom_2.
Qed.

(** An operation of the pool that adds no task. *)
Lemma on_tasks_quiet {A} (c : M TaskPool A) op s :
  rt_ok s → run_op op = PoolOps.discard c → op_pre (rt_tasks s) op → is_submission op = false →
  safely (on_tasks c) s (λ a s', ∃ p', c (rt_tasks s) = Some (a, p') ∧ s' = s <| rt_tasks := p' |> ∧
    calm (rt_tasks s) p').
Proof.
  intros Hok Hop Hpre Hq. pose proof (reachable_inv _ (ok_tasks _ Hok)) as Hinv.
  destruct (run_op_quiet _ op Hinv Hpre Hq) as ([] & p' & Hrun & _ & Hprog).
  pose proof (run_op_counted op _ Hq _ _ Hrun) as Hseq.
  pose proof Hrun as Hc. rewrite Hop in Hc. unfold PoolOps.discard, bind in Hc.
  destruct (c (rt_tasks s)) as [[a p'']|] eqn:Hc'; [|done]. injection Hc as ->.
  assert (reachable p') as Hp' by (eapply reachable_step; [apply Hok|done|done]).
  exists a, (s <| rt_tasks := p' |>). unfold on_tasks. rewrite Hc'. split_and!; [done| | |by exists p'].
  - apply rt_ok_tasks; [done|done|]. intros Hs. eapply all_terminal_progress; [by apply Hok|done].
  - split; cbn; try done; [|by exists []; constructor]. apply rtc_once. by exists op.
Qed.

(** Submission, while the runtime is not aborted. *)
Lemma on_tasks_enqueue task s :
  rt_ok s → is_Some (as_value (t_payload task)) → rt_stop_state s ≠ StopAborted → room 1 s →
  safely (on_tasks (enqueue_at task (rt_current_step s))) s (λ a s', spends 1 s s' ∧ ∃ p',
    enqueue_at task (rt_current_step s) (rt_tasks s) = Some (a, p') ∧ s' = s <| rt_tasks := p' |>).
Proof.
  intros Hok [value Hv] Hstop (_ & Hseq & Hsize & _).
  set (op := OpEnqueue task (rt_current_step s)). assert (op_pre (rt_tasks s) op) as Hpre by (split_and!; [by eexists|lia|lia]).
  pose proof (reachable_inv _ (ok_tasks _ Hok)) as Hinv.
  assert (∃ a p', enqueue_at task (rt_current_step s) (rt_tasks s) = Some (a, p') ∧ spends 1 s (s <| rt_tasks := p' |>))
    as (a & p' & Hc & Hsp).
  { pose proof (enqueue_at_spec (rt_tasks s) task (rt_current_step s) value Hinv Hv) as H.
    assert (spends 1 s (s <| rt_tasks := rt_tasks s |>)) as Hsame by (split_and!; cbn; lia).
    destruct (contains_task_id _ _); [eexists _, _; split; [apply H; lia|exact Hsame]|].
    destruct (compact_json_len value); [|eexists _, _; split; [apply H; lia|exact Hsame]].
    destruct H as (p' & Hrun & _ & Hnew & Htasks & Hnext & _); [lia|lia|]. eexists _, p'. split; [exact Hrun|].
    split_and!; cbn; [lia| |lia]. rewrite Htasks, map_size_insert_None by done. lia. }
  assert (run_op op (rt_tasks s) = Some (tt, p')) as Hrun by (cbn [run_op op]; unfold PoolOps.discard, bind; by rewrite Hc).
  assert (reachable p') as Hp' by (eapply reachable_step; [apply Hok|done|done]).
  exists a, (s <| rt_tasks := p' |>). unfold on_tasks. rewrite Hc. split_and!; [done| | |done|by exists p'].
  - by apply rt_ok_tasks.
  - split; cbn; try done; [|by exists []; constructor]. apply rtc_once. by exists op.
Qed.

(** ** The other components *)

Lemma on_resources_safely {A} (c : M ResourceManager A) op s :
  rt_ok s → (id_next (rm_id_source (rt_resources s)) < u64_max)%N → run_rm_op op = ResourceTheorems.discard c →
  safely (on_resources c) s (λ a s', ∃ m', c (rt_resources s) = Some (a, m') ∧ s' = s <| rt_resources := m' |>).
Proof.
  intros Hok Hid Hop.
  pose proof (rm_reachable_inv _ (ok_resources _ Hok)) as Hinv.
  destruct (run_rm_op_inv op _ Hinv) as ([] & m' & Hrun & _); [lia|].
  pose proof Hrun as Hc. rewrite Hop in Hc. unfold ResourceTheorems.discard, bind in Hc.
  destruct (c (rt_resources s)) as [[a m'']|] eqn:Hc'; [|done]. injection Hc as ->.
  exists a, (s <| rt_resources := m' |>). unfold on_resources. rewrite Hc'. split_and!; [done| | |by exists m'].
  - destruct Hok. split; try done. eapply rm_reachable_step; [done|lia|done].
  - split; cbn; try done; [|by exists []; constructor]. apply rtc_once. split; [lia|by exists op].
Qed.

Lemma on_states_apply delta s :
  rt_ok s → room 1 s →
  safely (on_states (apply delta)) s (λ a s', spends 1 s s' ∧ ∃ st', apply delta (rt_states s) = Some (a, st') ∧
    s' = s <| rt_states := st' |>).
Proof.
  intros Hok (_ & _ & _ & Hv). specialize (Hv (sdl_target_ref delta)).
  assert (∃ a st', apply delta (rt_states s) = Some (a, st')) as (a & st' & Ha).
  { unfold apply, bind, get, u64_add. case_decide; [by eexists _, _|]. rewrite decide_True by lia. by eexists _, _. }
  exists a, (s <| rt_states := st' |>). unfold on_states. rewrite Ha. split_and!; [done| | | |by exists st'].
  - by destruct Hok; split.
  - split; cbn; try done. destruct a as [[]|e].
    + exists [delta]. eapply store_run_ok; [done|constructor].
    + exists []. eapply store_run_err; [done|constructor].
  - split_and!; cbn; [lia|lia|]. intros ref_id. destruct a as [[]|e].
    + destruct (apply_ok _ _ _ Ha) as (Hcur & _ & Hval). unfold current_version in *. rewrite Hval.
      destruct (decide (ref_id = sdl_target_ref delta)) as [->|Hne]; [rewrite lookup_insert_eq|rewrite lookup_insert_ne by done]; cbn; lia.
    + apply apply_err in Ha as ->. lia.
Qed.

(** An operation of the registry that keeps the descriptors. *)
Lemma on_registry_safely {A} (c : M RunnerRegistry A) s :
  rt_ok s → runs c (rt_registry s) (λ _ r', registry_ok r') →
  safely (on_registry c) s (λ a s', ∃ r', c (rt_registry s) = Some (a, r') ∧ s' = s <| rt_registry := r' |>).
Proof.
  intros Hok (a & r' & Hc & Hr). exists a, (s <| rt_registry := r' |>). unfold on_registry. rewrite Hc.
  split_and!; [done| | |by exists r'].
  - by destruct Hok; split.
  - split; cbn; try done. by exists []; constructor.
Qed.

(** ** The logs *)

Lemma event_record_inner kind name subject attrs error log :
  el_inner (event_record kind name subject attrs error log).2 =
  run_log_op (OpRecord (λ n, {| ev_sequence := n; ev_kind := kind; ev_name := name; ev_subject_id := subject;
                                ev_attributes := attrs; ev_error := error |})) (el_inner log).
Proof. unfold event_record. cbn [run_log_op]. by destruct (record_with _ (el_inner log)). Qed.

Lemma log_step_history {T} `{!SizeOf T} (seq : T → N) (op : LogOp) log :
  log_history seq log 0 → op_faithful seq op → drained_by op log = 0%N → (bl_next_sequence log < u64_max)%N →
  log_history seq (run_log_op op log) 0.
Proof. intros Hl Hop Hd Hmax. pose proof (log_history_step seq log 0 op Hl Hop Hmax) as H. by rewrite Hd in H. Qed.

(** A saturated log stays saturated. *)
Lemma configure_loop_sequence {T} fuel (log : BoundedLog T) : bl_next_sequence (configure_loop fuel log) = bl_next_sequence log.
Proof. revert log. induction fuel as [|fuel IH]; intros log; cbn [configure_loop]; [done|]. case_match; [|done]. by rewrite IH. Qed.

Lemma log_step_saturated {T} (op : LogOp (T:=T)) log :
  (u64_max ≤ bl_next_sequence log)%N → (u64_max ≤ bl_next_sequence (run_log_op op log))%N.
Proof.
  intros H. destruct op as [build|profile|capacity|]; cbn [run_log_op]; [|by unfold log_set_capacity, log_configure; rewrite configure_loop_sequence..|done].
  assert (u64_max ≤ saturating_add (bl_next_sequence log) 1)%N by (unfold saturating_add; lia).
  unfold record_with, retain, make_room. cbn. by repeat (case_match; simplify_eq; cbn).
Qed.

Lemma span_step_saturated trace_id name status attrs log :
  (u64_max ≤ bl_next_sequence (tl_inner log))%N →
  (u64_max ≤ bl_next_sequence (tl_inner (trace_record trace_id name None status attrs log).2))%N.
Proof.
  intros H. pose proof (log_step_saturated (OpRecord (new_span trace_id name None status attrs)) _ H) as H'.
  unfold trace_record. cbn [run_log_op] in H'. by destruct (record_with _ (tl_inner log)).
Qed.

Lemma numbered_step op log :
  numbered log → op_faithful ev_sequence op → drained_by op (el_inner log) = 0%N →
  numbered (MkEventLog (run_log_op op (el_inner log))).
Proof.
  intros [Hs|Hl] Hop Hd; [left; by apply log_step_saturated|].
  destruct (decide (u64_max ≤ bl_next_sequence (el_inner log))%N); [left; by apply log_step_saturated|].
  right. apply log_step_history; [done|done|done|lia].
Qed.

Lemma rt_ok_events s log : rt_ok s → numbered log → rt_ok (s <| rt_events := log |>).
Proof. intros [] ?. by split. Qed.

Lemma record_event_safely kind name subject attrs error s :
  rt_ok s → safely (record_event kind name subject attrs error) s (λ _ s',
    s' = s <| rt_events := (event_record kind name subject attrs error (rt_events s)).2 |>).
Proof.
  intros Hok. apply safely_modify; [|split; cbn; try done; by exists []; constructor|done].
  apply rt_ok_events; [done|].
  set (build := λ n, {| ev_sequence := n; ev_kind := kind; ev_name := name; ev_subject_id := subject;
                        ev_attributes := attrs; ev_error := error |}).
  pose proof (numbered_step (OpRecord build) _ (ok_events _ Hok)) as H. unfold build, numbered in *.
  rewrite event_record_inner. by apply H.
Qed.

Lemma record_span_safely trace_id name status attrs s :
  rt_ok s → safely (record_span trace_id name status attrs) s (λ _ s',
    s' = s <| rt_traces := (trace_record trace_id name None status attrs (rt_traces s)).2 |>).
Proof.
  intros Hok. unfold record_span. pose proof (ok_traces _ Hok) as Ht.
  assert (spans_numbered (trace_record trace_id name None status attrs (rt_traces s)).2) as Ht'.
  { destruct (decide (u64_max ≤ bl_next_sequence (tl_inner (rt_traces s)))%N) as [Hx|Hv].
    - left. by apply span_step_saturated.
    - destruct Ht as [|Ht]; [lia|]. right. apply trace_history_record; [done|lia]. }
  destruct (trace_record trace_id name None status attrs (rt_traces s)) as [span log] eqn:E.
  exists span, (s <| rt_traces := log |>). rewrite E. split_and!; [done| | |done].
  - destruct Hok. split; try done.
  - split; cbn; try done. by exists []; constructor.
Qed.
End Invariant.

(** ** The methods of the runtime that add no task

    Each of them returns, moves records along the lifecycle only and leaves the
    other components alone. *)

(** Lemmas [keeps quiet (method ..) s] for [quiet_go]. *)
Create HintDb runtime.

Section Safe.
Context `{RA : RunnerApi} `{ST : !SerdeTypes}.
Implicit Types s : CoreRuntime.

(** ** Relations between the states before and after a method *)

Record same_frame s s' : Prop := {
  sf_states : rt_states s' = rt_states s;
  sf_resources : rt_resources s' = rt_resources s;
  sf_step : rt_current_step s' = rt_current_step s;
  sf_stop : rt_stop_state s' = rt_stop_state s;
  sf_plan : rt_load_plan s' = rt_load_plan s;
  sf_surfaces : rt_surfaces s' = rt_surfaces s;
  sf_classes : rt_protocol_classes s' = rt_protocol_classes s;
  sf_runners : reg_descriptor_snapshot (rt_registry s') = reg_descriptor_snapshot (rt_registry s)
}.

#[export] Instance same_frame_preorder : PreOrder same_frame.
Proof. split; [by split|]. intros s t u [] []. split; congruence. Qed.

Definition quiet s s' : Prop :=
  same_frame s s' ∧ calm (rt_tasks s) (rt_tasks s') ∧ rt_registry s' = rt_registry s.

#[export] Instance quiet_preorder : PreOrder quiet.
Proof.
  split; [intros s; split; [|split]; reflexivity|]. intros s t u (? & ? & ?) (? & ? & ?).
  split; [by etrans|split; [by etrans|congruence]].
Qed.

Lemma quiet_spends s s' : quiet s s' → spends 0 s s'.
Proof.
  intros ([Hst _ _ _ _ _ _ _] & Hc & _). pose proof (calm_size _ _ Hc). destruct Hc as [_ Hseq]. split_and!; [lia|lia|].
  intros. rewrite Hst. lia.
Qed.

Definition keeps (R : CoreRuntime → CoreRuntime → Prop) {A} (c : M CoreRuntime A) s : Prop := safely c s (λ _, R s).

Lemma keeps_ret R `{!Reflexive R} {A} (a : A) s : rt_ok s → keeps R (ret a) s.
Proof. intros Hok. by apply safely_ret. Qed.

Lemma keeps_get R {B} (k : CoreRuntime → M CoreRuntime B) s : keeps R (k s) s → keeps R (bind get k) s.
Proof. apply safely_get. Qed.

Lemma keeps_after R `{!Transitive R} {A} (c : M CoreRuntime A) s t :
  R s t → keeps R c t → safely c t (λ _, R s).
Proof. intros Hst Hc. eapply safely_mono; [exact Hc|]. intros a u _ _ H. by etrans. Qed.

Lemma keeps_bind R `{!Transitive R} {A B} (c : M CoreRuntime A) (k : A → M CoreRuntime B) s :
  keeps R c s → (∀ a s', rt_ok s' → R s s' → keeps R (k a) s') → keeps R (bind c k) s.
Proof. intros Hc Hk. eapply safely_bind; [exact Hc|]. intros a t ? ? ?. apply keeps_after; auto. Qed.

Lemma keeps_try R `{!Transitive R} {A B} (c : M CoreRuntime (RuntimeResult A)) (k : A → M CoreRuntime (RuntimeResult B)) s :
  keeps R c s → (∀ a s', rt_ok s' → R s s' → keeps R (k a) s') → keeps R (try_bind c k) s.
Proof. intros Hc Hk. eapply safely_try; [exact Hc| |done]. intros a t ? ? ?. apply keeps_after; auto. Qed.

Lemma keeps_for_each R `{!PreOrder R} {A} (l : list A) (body : A → M CoreRuntime unit) s :
  rt_ok s → (∀ x s', rt_ok s' → keeps R (body x) s') → keeps R (for_each l body) s.
Proof.
  intros Hok Hb. eapply safely_mono; [apply (safely_for_each l body (R s)); [done|reflexivity|]|done].
  intros x t _ ? ?. apply keeps_after; auto with typeclass_instances.
Qed.

Lemma keeps_try_for_each R `{!PreOrder R} {A} (l : list A) (body : A → M CoreRuntime (RuntimeResult unit)) s :
  rt_ok s → (∀ x s', x ∈ l → rt_ok s' → R s s' → keeps R (body x) s') → keeps R (try_for_each l body) s.
Proof.
  intros Hok Hb. eapply safely_mono; [apply (safely_try_for_each l body (R s)); [done|reflexivity|]|done].
  intros x t ? ? ?. apply keeps_after; auto with typeclass_instances.
Qed.

Lemma keeps_try_sum R `{!PreOrder R} {A} (l : list A) (body : A → M CoreRuntime (RuntimeResult N)) s :
  rt_ok s → (∀ x s', x ∈ l → rt_ok s' → R s s' → keeps R (body x) s') → keeps R (try_sum l body) s.
Proof.
  revert s. induction l as [|x l IH]; intros s Hok Hb; cbn [try_sum]; [by apply (keeps_ret R)|].
  apply (keeps_try R); [apply Hb; [set_solver|done|reflexivity]|]. intros n t Ht Hst.
  apply (keeps_try R); [|intros; by apply (keeps_ret R)]. apply IH; [done|].
  intros y u ? ? ?. apply Hb; [set_solver|done|by etrans].
Qed.

(** ** Base cases *)

Lemma event_quiet kind name subject attrs error s :
  rt_ok s → keeps quiet (record_event kind name subject attrs error) s.
Proof. intros Hok. eapply safely_mono; [by apply record_event_safely|]. by intros [] s' _ _ ->. Qed.

Lemma tasks_quiet {A} (c : M TaskPool A) op s :
  rt_ok s → run_op op = PoolOps.discard c → op_pre (rt_tasks s) op → is_submission op = false →
  keeps quiet (on_tasks c) s.
Proof. intros. eapply safely_mono; [by eapply on_tasks_quiet|]. by intros a s' _ _ (p' & _ & -> & Hp). Qed.

Lemma quiet_step s s' : quiet s s' → rt_current_step s' = rt_current_step s.
Proof. by intros [[] _]. Qed.

(** Discharges [keeps quiet (on_tasks c) s] for an operation of the pool. *)
Ltac pool_op op := apply (tasks_quiet _ op); [done|reflexivity|done|reflexivity].

Lemma keeps_ret_quiet {A} (a : A) s : rt_ok s → keeps quiet (ret a) s.
Proof. apply keeps_ret, _. Qed.

(** One step through the body of a method. *)
Ltac quiet_go :=
  intros; cbv zeta;
  lazymatch goal with
  | |- keeps quiet (ret _) _ => by apply keeps_ret_quiet
  | |- keeps quiet (bind get _) _ => apply keeps_get
  | |- keeps quiet (record_event _ _ _ _ _) _ => by apply event_quiet
  | |- keeps quiet (try_bind _ _) _ => apply (keeps_try quiet)
  | |- keeps quiet (bind _ _) _ => apply (keeps_bind quiet)
  | |- keeps quiet (for_each _ _) _ => apply (keeps_for_each quiet); [done|]
  | |- keeps quiet (match _ with _ => _ end) _ => case_match
  | |- keeps quiet _ _ => by eauto with runtime
  end.

(** ** Waking *)

Lemma wake_quiet id step s : rt_ok s → keeps quiet (on_tasks (wake id step)) s.
Proof. intros. pool_op (OpWake id step). Qed.
Hint Resolve wake_quiet : runtime.

Lemma take_waits_quiet id s : rt_ok s → keeps quiet (on_tasks (take_waits_for_child id)) s.
Proof. intros. pool_op (OpTakeWaits id). Qed.
Hint Resolve take_waits_quiet : runtime.

Lemma wake_waits_quiet child waits woken s : rt_ok s → keeps quiet (wake_waits child waits woken) s.
Proof.
  revert woken s. induction waits as [|w waits IH]; intros woken s Hok; cbn [wake_waits]; [quiet_go|].
  quiet_go. quiet_go; [|by apply IH]. quiet_go; [quiet_go|]. quiet_go; [quiet_go|]. intros. by apply IH.
Qed.
Hint Resolve wake_waits_quiet : runtime.

Lemma wake_tasks_waiting_on_quiet id s : rt_ok s → keeps quiet (wake_tasks_waiting_on id) s.
Proof. intros. unfold wake_tasks_waiting_on. repeat quiet_go. Qed.
Hint Resolve wake_tasks_waiting_on_quiet : runtime.

Lemma rt_wake_due_tasks_quiet s : rt_ok s → keeps quiet rt_wake_due_tasks s.
Proof.
  intros. unfold rt_wake_due_tasks. quiet_go. quiet_go; [pool_op (OpWakeDue (rt_current_step s))|]. repeat quiet_go.
Qed.
Hint Resolve rt_wake_due_tasks_quiet : runtime.

(** ** Terminal transitions *)

Lemma reject_ready_quiet id failure s : rt_ok s → keeps quiet (on_tasks (reject_ready id failure)) s.
Proof. intros. pool_op (OpReject id failure). Qed.
Hint Resolve reject_ready_quiet : runtime.

Lemma terminal_event_quiet id name error s : rt_ok s → keeps quiet (record_task_terminal_event id name error) s.
Proof. apply event_quiet. Qed.
Hint Resolve terminal_event_quiet : runtime.

Lemma reject_stale_quiet l rejected s : rt_ok s → keeps quiet (reject_stale l rejected) s.
Proof.
  revert rejected s. induction l as [|[id failure] l IH]; intros rejected s Hok; cbn [reject_stale]; [quiet_go|].
  do 3 (quiet_go; [quiet_go|]). intros. by apply IH.
Qed.

Lemma reject_stale_ready_tasks_quiet s : rt_ok s → keeps quiet reject_stale_ready_tasks s.
Proof. intros. apply (keeps_get quiet). by apply reject_stale_quiet. Qed.
Hint Resolve reject_stale_ready_tasks_quiet : runtime.

Lemma leased_quiet op lease step s : rt_ok s → keeps quiet (on_tasks (run_leased op lease step)) s.
Proof. intros. pool_op (OpLeased op lease step). Qed.

(** A lease-guarded transition of the pool, by the operation it is. *)
Ltac leased op := match goal with |- keeps quiet (on_tasks ?c) _ => by apply (leased_quiet op) end.

Lemma expire_task_quiet id reason s : rt_ok s → keeps quiet (expire_task id reason) s.
Proof.
  intros. unfold expire_task. quiet_go. cbv zeta.
  set (failure := with_evidence _ _ _). quiet_go; [pool_op (OpExpire id failure (rt_current_step s))|]. repeat quiet_go.
Qed.

Lemma dead_letter_task_quiet id reason s : rt_ok s → keeps quiet (dead_letter_task id reason) s.
Proof.
  intros. unfold dead_letter_task. quiet_go. cbv zeta.
  set (failure := with_evidence _ _ _). quiet_go; [pool_op (OpDeadLetter id failure (rt_current_step s))|]. repeat quiet_go.
Qed.

Lemma fail_runner_dispatch_quiet lease failure s : rt_ok s → keeps quiet (fail_runner_dispatch lease failure) s.
Proof. intros. unfold fail_runner_dispatch. quiet_go. quiet_go; [leased (LFail failure)|]. repeat quiet_go. Qed.
Hint Resolve fail_runner_dispatch_quiet : runtime.

Lemma fail_runner_dispatches_quiet leases failure s : rt_ok s → keeps quiet (fail_runner_dispatches leases failure) s.
Proof. intros. apply (keeps_try_sum quiet); [done|]. intros. by apply fail_runner_dispatch_quiet. Qed.
Hint Resolve fail_runner_dispatches_quiet : runtime.

Lemma rt_reclaim_quiet s : rt_ok s → keeps quiet rt_reclaim_expired_task_leases s.
Proof.
  intros. unfold rt_reclaim_expired_task_leases. quiet_go.
  quiet_go; [pool_op (PoolOps.OpReclaim (rt_current_step s))|]. repeat quiet_go.
Qed.
Hint Resolve rt_reclaim_quiet : runtime.

Lemma finish_task_quiet op lease step id name error s :
  rt_ok s → keeps quiet (finish_task (run_leased op lease step) id name error) s.
Proof. intros. unfold finish_task. quiet_go; [by apply leased_quiet|]. repeat quiet_go. Qed.

Lemma commit_result_status_quiet runner lease id status task_await output s :
  rt_ok s → keeps quiet (commit_result_status runner lease id status task_await output) s.
Proof.
  intros Hok. unfold commit_result_status. quiet_go. cbv zeta. set (step := rt_current_step s). destruct status.
  - by apply (finish_task_quiet (LComplete output)).
  - quiet_go; [|unfold record_progress; repeat quiet_go].
    destruct task_await as [a|]; [pool_op (OpWaitOn lease step a)|leased (LWait None)].
  - quiet_go; [leased LBlock|unfold record_progress; repeat quiet_go].
  - quiet_go.
  - by apply (finish_task_quiet (LFail _)).
  - by apply (finish_task_quiet LCancel).
Qed.
Hint Resolve commit_result_status_quiet : runtime.
End Safe.
