(* ===== verification/RuntimeRuns.v ===== *)
(** * The methods of the runtime that add tasks, dispatch and reload

    Submission, cancellation, routing of results and claiming: each returns when
    the 64-bit counters have room for what it draws, and changes every component
    through that component's operations only. *)

From S2P Require Import Prelude Contracts RunnerContracts BatchContracts PluginContracts Ids Logs StateStore ResourceManager ResourceOccupancy ResourceTheorems TaskRecords TaskIndexes IndexFacts TaskPool TaskClaiming PoolInvariant PoolHistory PoolSteps PoolKernelSteps PoolForced ClaimFacts PoolOps TaskOccupancy Registry RegistryTheorems RuntimeState RuntimeTasks BatchBuild RuntimeRouting RuntimeDispatch RuntimeReload RuntimeResources RuntimeInvariant.

Section Runs.
Context `{RA : RunnerApi} `{ST : !SerdeTypes}.
Implicit Types s : CoreRuntime.

Lemma keeps_weaken R R' {A} (c : M CoreRuntime A) s : keeps R c s → (∀ s', R s s' → R' s s') → keeps R' c s.
Proof. intros H HR. eapply safely_mono; [exact H|]. auto. Qed.

Lemma keeps_expect R {A B} (o : option A) a (k : A → M CoreRuntime B) s :
  o = Some a → keeps R (k a) s → keeps R (bind (expect o) k) s.
Proof. by intros ->. Qed.

Definition anything s s' : Prop := True.

#[export] Instance anything_preorder : PreOrder anything.
Proof. by split. Qed.

Lemma keeps_any R {A} (c : M CoreRuntime A) s : keeps R c s → keeps anything c s.
Proof. intros H. by eapply keeps_weaken. Qed.

(** ** Cancellation *)

Definition live_ids (p : TaskPool) : gset string :=
  dom (filter (λ e, is_terminal_status (r_status e.2) = false) (p_tasks p)).

Lemma elem_of_live_ids p id :
  id ∈ live_ids p ↔ ∃ r, p_tasks p !! id = Some r ∧ is_terminal_status (r_status r) = false.
Proof.
  unfold live_ids. rewrite elem_of_dom. split.
  - intros [r [Hr Hl]%map_lookup_filter_Some]. eauto.
  - intros (r & Hr & Hl). exists r. by apply map_lookup_filter_Some.
Qed.

Lemma live_ids_progress p p' : progress p p' → live_ids p' ⊆ live_ids p.
Proof.
  intros [Hf _] id. rewrite !elem_of_live_ids. intros (r' & Hr' & Hl).
  destruct (Hf _ _ Hr') as (r & Hr & Hs). exists r. split; [done|].
  destruct Hs as [|a b c [_ Hab _ _ _]]; [done|]. by destruct (r_status a).
Qed.

Lemma size_live_ids p : size (live_ids p) ≤ size (p_tasks p).
Proof.
  unfold live_ids. rewrite size_dom. apply map_subseteq_size, map_filter_subseteq.
Qed.

(** Cancelling a live task by the kernel. *)
Lemma cancel_by_core_spec p id step a p' :
  pool_inv p → cancel_by_core id step p = Some (a, p') →
  match a with
  | Ok _ => id ∈ live_ids p ∧ id ∉ live_ids p' ∧ progress p p'
  | Err _ => p' = p
  end.
Proof.
  intros Hinv Hrun. pose proof (terminal_by_core_spec p id Cancelled None "cancel" step Hinv eq_refl) as H.
  unfold cancel_by_core in Hrun. destruct (letr? record := _ in _) as [u|e]; [|by rewrite H in Hrun; simplify_eq].
  destruct H as (r & q & Hr & Hl & Hq & _ & Hprog & _ & Hev & _). rewrite Hq in Hrun. simplify_eq.
  split_and!; [rewrite elem_of_live_ids; eauto| |done]. rewrite elem_of_live_ids. intros (r' & Hr' & Hl').
  pose proof (lookup_weaken _ _ _ _ Hr' (ev_tasks _ _ Hev)) as Hw. cbn in Hw. rewrite lookup_insert_eq in Hw. by simplify_eq.
Qed.

Lemma cancel_by_id_quiet fuel id s :
  rt_ok s → size (live_ids (rt_tasks s)) < fuel → keeps quiet (cancel_by_id fuel id) s.
Proof.
  revert id s. induction fuel as [|fuel IH]; intros id s Hok Hfuel; [lia|]. cbn [cancel_by_id].
  apply (keeps_get quiet). case_match; [by apply (keeps_ret quiet)|].
  eapply safely_try; [by apply (on_tasks_quiet _ (PoolOps.OpCancel id (rt_current_step s)))| |].
  2: { intros e s' _ _ (p' & _ & -> & Hp). by split. }
  intros [] s1 Hok1 _ (p' & Hrun & -> & Hcalm). destruct Hcalm as [Hprog Hseq].
  destruct (cancel_by_core_spec _ _ _ _ _ (reachable_inv _ (ok_tasks _ Hok)) Hrun) as (Hin & Hout & _).
  assert (size (live_ids p') < fuel) as Hless.
  { assert (live_ids p' ⊂ live_ids (rt_tasks s)) as Hs%subset_size; [|lia].
    split; [by apply live_ids_progress|]. intros Hsub. by apply Hout, Hsub. }
  apply keeps_after; [apply _|by split|]. set (s1 := s <| rt_tasks := p' |>) in *.
  apply (keeps_bind quiet); [by apply terminal_event_quiet|]. intros [] s2 Hok2 H2.
  apply (keeps_try quiet).
  - apply (keeps_try_for_each quiet); [done|]. intros w s3 _ Hok3 H3. apply (keeps_get quiet).
    cbv zeta. case_match; [|by apply (keeps_ret quiet)]. apply IH; [done|].
    destruct H2 as (_ & [H2 _] & _), H3 as (_ & [H3 _] & _). cbn in *.
    pose proof (subseteq_size _ _ (live_ids_progress _ _ H2)). pose proof (subseteq_size _ _ (live_ids_progress _ _ H3)). cbn in *. lia.
  - intros [] s3 Hok3 H3. apply (keeps_try quiet); [by apply wake_tasks_waiting_on_quiet|]. intros. by apply (keeps_ret quiet).
Qed.

Lemma cancel_task_by_id_quiet id s : rt_ok s → keeps quiet (cancel_task_by_id id) s.
Proof.
  intros Hok. apply (keeps_get quiet). apply cancel_by_id_quiet; [done|]. pose proof (size_live_ids (rt_tasks s)). lia.
Qed.

(** ** What a method draws from the counters *)

Definition costs (n : N) (R : CoreRuntime → CoreRuntime → Prop) {A} (c : M CoreRuntime A) s : Prop :=
  room n s → keeps (λ s s', R s s' ∧ spends n s s') c s.

Lemma spends_refl n s : spends n s s.
Proof. split_and!; [lia|lia|]. intros. lia. Qed.

Lemma costs_ret n R `{!Reflexive R} {A} (a : A) s : rt_ok s → costs n R (ret a) s.
Proof. intros Hok _. apply safely_ret; [done|]. split; [done|apply spends_refl]. Qed.

Lemma costs_get n R {B} (k : CoreRuntime → M CoreRuntime B) s : costs n R (k s) s → costs n R (bind get k) s.
Proof. done. Qed.

Lemma costs_mono n m R R' {A} (c : M CoreRuntime A) s :
  costs n R c s → (n ≤ m)%N → (∀ s', R s s' → R' s s') → costs m R' c s.
Proof.
  intros Hc Hle HR Hroom. eapply safely_mono; [apply Hc; by eapply room_mono|]. intros a s' _ _ [H1 H2].
  split; [by apply HR|by eapply spends_mono].
Qed.

(** A method that runs after another one. *)
Lemma costs_after n m R `{!Transitive R} {A} (c : M CoreRuntime A) s t :
  room (n + m) s → R s t → spends n s t → costs m R c t → safely c t (λ _ u, R s u ∧ spends (n + m) s u).
Proof.
  intros Hroom HR Hn Hc. eapply safely_mono; [apply Hc; by eapply room_after|]. intros a u _ _ [H1 H2].
  split; [by etrans|by eapply spends_trans].
Qed.

Lemma costs_bind n m R `{!Transitive R} {A B} (c : M CoreRuntime A) (k : A → M CoreRuntime B) s :
  costs n R c s → (∀ a s', rt_ok s' → R s s' → costs m R (k a) s') → costs (n + m) R (bind c k) s.
Proof.
  intros Hc Hk Hroom. eapply safely_bind; [apply Hc; eapply room_mono; [|exact Hroom]; lia|].
  intros a t ? ? [? ?]. by apply costs_after; [| | | |apply Hk].
Qed.

Lemma costs_try n m R `{!Transitive R} {A B} (c : M CoreRuntime (RuntimeResult A)) (k : A → M CoreRuntime (RuntimeResult B)) s :
  costs n R c s → (∀ a s', rt_ok s' → R s s' → costs m R (k a) s') → costs (n + m) R (try_bind c k) s.
Proof.
  intros Hc Hk Hroom. eapply safely_try; [apply Hc; eapply room_mono; [|exact Hroom]; lia| |].
  - intros a t ? ? [? ?]. by apply costs_after; [| | | |apply Hk].
  - intros e t _ _ [? ?]. split; [done|]. eapply spends_mono; [|done]. lia.
Qed.

(** The first part draws nothing. *)
Lemma costs_free_bind n R `{!Transitive R} {A B} (c : M CoreRuntime A) (k : A → M CoreRuntime B) s :
  costs 0 R c s → (∀ a s', rt_ok s' → R s s' → costs n R (k a) s') → costs n R (bind c k) s.
Proof. intros. by apply (costs_bind 0 n R). Qed.

Lemma costs_free_try n R `{!Transitive R} {A B} (c : M CoreRuntime (RuntimeResult A)) (k : A → M CoreRuntime (RuntimeResult B)) s :
  costs 0 R c s → (∀ a s', rt_ok s' → R s s' → costs n R (k a) s') → costs n R (try_bind c k) s.
Proof. intros. by apply (costs_try 0 n R). Qed.

(** What follows draws nothing. *)
Lemma costs_then n R `{!Transitive R} {A B} (c : M CoreRuntime (RuntimeResult A)) (k : A → M CoreRuntime (RuntimeResult B)) s :
  costs n R c s → (∀ a s', rt_ok s' → R s s' → costs 0 R (k a) s') → costs n R (try_bind c k) s.
Proof. intros. eapply costs_mono; [by apply (costs_try n 0 R)|lia|done]. Qed.

Definition total {A} (f : A → N) (l : list A) : N := sum_N (f <$> l).
Arguments total : simpl never.

Lemma total_cons {A} (f : A → N) x l : total f (x :: l) = (f x + total f l)%N.
Proof. done. Qed.

Lemma costs_loop {A} (f : A → N) R `{!PreOrder R} (l : list A) (body : A → M CoreRuntime (RuntimeResult unit)) s :
  rt_ok s → (∀ x s', x ∈ l → rt_ok s' → R s s' → costs (f x) R (body x) s') →
  costs (total f l) R (try_for_each l body) s.
Proof.
  revert s. induction l as [|x l IH]; intros s Hok Hb; cbn [try_for_each]; [by apply (costs_ret _ R)|].
  change (total f (x :: l)) with (f x + total f l)%N.
  apply (costs_try _ _ R); [apply Hb; [set_solver|done|reflexivity]|]. intros [] t Ht Hst.
  apply IH; [done|]. intros y u ? ? ?. apply Hb; [set_solver|done|by etrans].
Qed.

Lemma costs_sum {A} (f : A → N) R `{!PreOrder R} (l : list A) (body : A → M CoreRuntime (RuntimeResult N)) s :
  rt_ok s → (∀ x s', x ∈ l → rt_ok s' → R s s' → costs (f x) R (body x) s') →
  costs (total f l) R (try_sum l body) s.
Proof.
  revert s. induction l as [|x l IH]; intros s Hok Hb; cbn [try_sum]; [by apply (costs_ret _ R)|].
  change (total f (x :: l)) with (f x + total f l)%N.
  apply (costs_try _ _ R); [apply Hb; [set_solver|done|reflexivity]|]. intros n t Ht Hst.
  apply (costs_then _ R); [|intros; by apply (costs_ret _ R)].
  apply IH; [done|]. intros y u ? ? ?. apply Hb; [set_solver|done|by etrans].
Qed.

Lemma total_const {A} (l : list A) : total (λ _, 1%N) l = len l.
Proof. induction l as [|x l IH]; [done|]. rewrite len_cons, <-IH. done. Qed.

(** ** Submission *)

Definition serializes (task : Task) : Prop := is_Some (as_value (t_payload task)).

Definition framed s s' : Prop := same_frame s s' ∧ rt_registry s' = rt_registry s.

#[export] Instance framed_preorder : PreOrder framed.
Proof. split; [intros s; split; reflexivity|]. intros s t u [? ?] [? ?]. split; [by etrans|congruence]. Qed.

Lemma quiet_framed s s' : quiet s s' → framed s s'.
Proof. by intros (? & _ & ?). Qed.

Lemma costs_quiet n R {A} (c : M CoreRuntime A) s : keeps quiet c s → (∀ s', quiet s s' → R s s') → costs n R c s.
Proof.
  intros Hc HR _. eapply safely_mono; [exact Hc|]. intros a s' _ _ Hq. split; [by apply HR|].
  eapply spends_mono, quiet_spends; [lia|done].
Qed.

Lemma costs_framed n {A} (c : M CoreRuntime A) s : keeps quiet c s → costs n framed c s.
Proof. intros H. apply costs_quiet; [done|]. apply quiet_framed. Qed.

Lemma enqueue_task_framed task s : rt_ok s → serializes task → costs 1 framed (enqueue_task task) s.
Proof.
  intros Hok Hv Hroom. unfold enqueue_task. apply safely_get. unfold ensure_not_aborted.
  case_decide as Hst; [by apply (costs_ret 1 framed)|]. cbv zeta.
  set (task' := if decide _ then _ else _). set (dep := List.find _ _).
  assert (serializes task') as Hv' by (unfold task', serializes; by case_decide).
  eapply safely_try; [by apply on_tasks_enqueue| |].
  2: { intros e s' _ _ (Hsp & p' & _ & ->). by split. }
  intros id s1 Hok1 _ (Hsp & p' & _ & ->). apply (costs_after 1 0 framed); [exact Hroom|by split|done|].
  set (s1 := s <| rt_tasks := p' |>) in *.
  apply costs_framed. apply (keeps_bind quiet).
  - destruct dep; [|by apply keeps_ret_quiet]. apply (keeps_bind quiet); [by apply reject_ready_quiet|].
    intros. by apply keeps_ret_quiet.
  - intros. apply (keeps_bind quiet); [by apply event_quiet|]. intros.
    apply (keeps_bind quiet); [by apply event_quiet|]. intros. by apply keeps_ret_quiet.
Qed.

Lemma enqueue_tasks_framed tasks s : rt_ok s → Forall serializes tasks → costs (len tasks) framed (enqueue_tasks tasks) s.
Proof.
  revert s. induction tasks as [|t tasks IH]; intros s Hok Hall; cbn [enqueue_tasks]; [by apply (costs_ret _ framed)|].
  apply Forall_cons in Hall as [Ht Hall]. rewrite len_cons. apply (costs_try _ _ framed); [by apply enqueue_task_framed|]. intros.
  apply (costs_then _ framed); [by apply IH|]. intros. by apply (costs_ret _ framed).
Qed.

Lemma submit_batch_framed batch s :
  rt_ok s → Forall serializes (tb_tasks batch) → costs (len (tb_tasks batch)) framed (submit_batch batch) s.
Proof.
  intros Hok Hall. unfold submit_batch. apply costs_get.
  case_match; [|by apply (costs_ret _ framed)]. case_match; [|by apply (costs_ret _ framed)].
  apply (costs_then _ framed); [by apply enqueue_tasks_framed|]. intros. apply costs_get. by apply (costs_ret _ framed).
Qed.

Lemma submit_task_framed task s : rt_ok s → serializes task → costs 1 framed (submit_task task) s.
Proof.
  intros Hok Hv. unfold submit_task.
  apply (costs_then _ framed); [apply (submit_batch_framed (TaskBatch_one _ task)); [done|by repeat constructor]|].
  intros [] ? ? ?; by apply (costs_ret _ framed).
Qed.

Lemma submit_targeted_task_framed id binding payload s : rt_ok s → costs 1 framed (submit_targeted_task id binding payload) s.
Proof.
  intros Hok. unfold submit_targeted_task. apply costs_get. case_match; [|by apply (costs_ret _ framed)].
  apply submit_task_framed; [done|]. by eexists.
Qed.

(** ** Routing *)

(** What a runner returns can be enqueued: the payloads of its tasks
    serialize. *)
Definition completion_serializes (batch : CompletionBatch) : Prop :=
  ∀ ec result, ec ∈ cb_results batch → ec_result ec = Some result → Forall serializes (rres_tasks result).

Lemma pending_serializes id gen purity result :
  Forall serializes (rres_tasks result) → Forall serializes (pending_output_tasks id gen purity result).
Proof.
  intros Hall. unfold pending_output_tasks. apply Forall_app. split; [|apply Forall_app; split; [|done]].
  - case_decide; [|constructor]. apply Forall_app. split.
    + apply Forall_forall. intros t Ht. apply elem_of_lookup_imap in Ht as (i & d & -> & _). by eexists.
    + apply Forall_fmap, Forall_forall. intros. by eexists.
  - apply Forall_fmap, Forall_forall. intros. by eexists.
Qed.

(** The tasks a result asks for, at most. *)
Definition result_cost (result : RunnerResult) : N :=
  len (rres_deltas result) + len (rres_effects result) + len (rres_events result) + len (rres_tasks result).

Definition entry_cost (completion : EntryCompletion) : N :=
  match ec_result completion with Some result => result_cost result | None => 0 end.

Definition completion_cost (batch : CompletionBatch) : N := total entry_cost (cb_results batch).

Lemma pending_cost id gen purity result : (len (pending_output_tasks id gen purity result) ≤ result_cost result)%N.
Proof.
  unfold pending_output_tasks, result_cost, len. rewrite !length_app, !length_fmap.
  case_decide; [rewrite length_app, length_imap, length_fmap|cbn]; lia.
Qed.

Lemma route_result_outputs_framed runner id result s :
  rt_ok s → Forall serializes (rres_tasks result) → costs (result_cost result) framed (route_result_outputs runner id result) s.
Proof.
  intros Hok Hall. unfold route_result_outputs. apply costs_get. case_match; [by apply (costs_ret _ framed)|].
  cbv zeta. set (pending := pending_output_tasks _ _ _ _).
  assert (len pending ≤ result_cost result)%N as Hle by apply pending_cost. case_match; [|by apply (costs_ret _ framed)].
  apply (costs_free_bind _ framed); [apply costs_framed, (keeps_for_each quiet); [done|]; intros; by apply event_quiet|]. intros.
  apply (costs_free_bind _ framed); [apply costs_framed, (keeps_for_each quiet); [done|]; intros; by apply event_quiet|]. intros.
  rewrite <-total_const in Hle. eapply costs_mono; [apply (costs_loop (λ _, 1%N) framed); [done|]|exact Hle|done].
  intros t s3 Ht Hok3 _. apply (costs_then _ framed); [|intros; by apply (costs_ret _ framed)].
  apply enqueue_task_framed; [done|].
  pose proof (pending_serializes id (plan_registry_generation (rt_load_plan s)) (d_purity runner) result Hall) as Hp.
  rewrite Forall_forall in Hp. by apply Hp.
Qed.

Lemma route_result_framed runner lease result s :
  rt_ok s → Forall serializes (rres_tasks result) → costs (result_cost result) framed (route_result runner lease result) s.
Proof.
  intros Hok Hall. unfold route_result. apply costs_get. cbv zeta. case_match; [|by apply (costs_ret _ framed)].
  apply (costs_then _ framed); [by apply route_result_outputs_framed|]. intros. by apply costs_framed, commit_result_status_quiet.
Qed.

Lemma route_entry_completion_framed descriptor lease completion s :
  rt_ok s → (∀ result, ec_result completion = Some result → Forall serializes (rres_tasks result)) →
  costs (entry_cost completion) framed (route_entry_completion descriptor lease completion) s.
Proof.
  intros Hok Hall. unfold route_entry_completion, entry_cost.
  destruct (ec_error completion); [by apply costs_framed, fail_runner_dispatch_quiet|].
  destruct (ec_result completion) as [result|]; [|by apply costs_framed, fail_runner_dispatch_quiet].
  case_match; [by apply costs_framed, fail_runner_dispatch_quiet|].
  eapply costs_mono; [apply (costs_bind (result_cost result) 0 framed); [apply route_result_framed; auto|]|lia|done].
  intros [n|e] s1 Hok1 _; [by apply (costs_ret _ framed)|].
  case_match; [|by apply (costs_ret _ framed)]. apply costs_framed.
  apply (keeps_bind quiet); [by apply (tasks_quiet _ OpStaleResult)|]. intros.
  apply (keeps_bind quiet); [apply (keeps_get quiet); by apply event_quiet|]. intros. by apply keeps_ret_quiet.
Qed.

Lemma index_entries_range lbt entries index by_id by_id' :
  index_entries lbt index entries by_id = Ok by_id' →
  (∀ k i, by_id !! k = Some i → i < index) → ∀ k i, by_id' !! k = Some i → i < index + length entries.
Proof.
  revert index by_id. induction entries as [|e entries IH]; intros index by_id; cbn [index_entries].
  { intros [= <-] H k i Hk. specialize (H _ _ Hk). cbn. lia. }
  case_match; [done|]. intros Hr Hlt k i Hk. cbn. specialize (IH (S index) _ Hr). assert (i < S index + length entries); [|lia].
  eapply IH; [|exact Hk]. intros k' i' [[<- <-]|[_ Hk']]%lookup_insert_Some; [lia|]. specialize (Hlt _ _ Hk'). lia.
Qed.

Definition slot_cost (slot : option EntryCompletion) : N :=
  match slot with Some completion => entry_cost completion | None => 0 end.

Lemma total_slots_insert slots i completion :
  slots !! i = Some None →
  total slot_cost (<[i := Some completion]> slots) = (total slot_cost slots + entry_cost completion)%N.
Proof.
  revert i. induction slots as [|slot slots IH]; intros [|i] Hi; [done|done| |].
  - injection Hi as ->. change (<[0 := Some completion]> (None :: slots)) with (Some completion :: slots).
    rewrite !total_cons. cbn. lia.
  - specialize (IH i Hi). change (<[S i := Some completion]> (slot :: slots)) with (slot :: <[i := Some completion]> slots).
    rewrite !total_cons, IH. lia.
Qed.

Lemma collect_completions_some lbt entries by_id results slots :
  (∀ k i, by_id !! k = Some i → i < length entries) → length slots = length entries →
  (∀ ec, ec ∈ results → ∀ result, ec_result ec = Some result → Forall serializes (rres_tasks result)) →
  (∀ ec, Some ec ∈ slots → ∀ result, ec_result ec = Some result → Forall serializes (rres_tasks result)) →
  ∃ collected, collect_completions lbt entries by_id results slots = Some collected ∧
    ∀ slots', collected = Ok slots' →
      total slot_cost slots' = (total slot_cost slots + total entry_cost results)%N ∧
      ∀ ec, Some ec ∈ slots' → ∀ result, ec_result ec = Some result → Forall serializes (rres_tasks result).
Proof.
  intros Hid. revert slots. induction results as [|ec results IH]; intros slots Hlen Hres Hsl; cbn [collect_completions].
  { eexists. split; [done|]. intros slots' [= <-]. split; [unfold total; cbn; lia|done]. }
  destruct (by_id !! ec_entry_id ec) as [i|] eqn:Hi; [|by eexists].
  specialize (Hid _ _ Hi) as Hlt. destruct (lookup_lt_is_Some_2 entries i Hlt) as [entry He]. rewrite He. cbn.
  case_match; [by eexists|]. destruct (lookup_lt_is_Some_2 slots i) as [slot Hs]; [lia|]. rewrite Hs. cbn.
  destruct slot; [by eexists|].
  destruct (IH (<[i := Some ec]> slots)) as (collected & Hc & Hok);
    [by rewrite length_insert|intros; eapply Hres; [by apply list_elem_of_further|done]| |].
  2: { exists collected. split; [done|]. intros slots' ->. destruct (Hok _ eq_refl) as [Ht Hall]. split; [|done].
       rewrite Ht, total_slots_insert, total_cons by done. lia. }
  intros ec' [j Hj]%list_elem_of_lookup_1. destruct (decide (j = i)) as [->|Hne].
  - rewrite list_lookup_insert_eq in Hj by lia. injection Hj as <-. apply Hres. set_solver.
  - rewrite list_lookup_insert_ne in Hj by done. apply Hsl. by eapply list_elem_of_lookup_2.
Qed.

Lemma route_entries_framed descriptor leases lbt slots completed s :
  rt_ok s →
  (∀ e ec, (e, Some ec) ∈ slots → ∀ result, ec_result ec = Some result → Forall serializes (rres_tasks result)) →
  costs (total (slot_cost ∘ snd) slots) framed (route_entries descriptor leases lbt slots completed) s.
Proof.
  revert completed s. induction slots as [|[e slot] slots IH]; intros completed s Hok Hall; cbn [route_entries];
    [by apply (costs_ret _ framed)|].
  case_match; [|by apply costs_framed, fail_runner_dispatches_quiet].
  change (total (slot_cost ∘ snd) ((e, slot) :: slots)) with (slot_cost slot + total (slot_cost ∘ snd) slots)%N.
  apply (costs_try _ _ framed).
  - destruct slot as [ec|]; [|by apply costs_framed, fail_runner_dispatch_quiet].
    apply route_entry_completion_framed; [done|]. eapply Hall. apply list_elem_of_here.
  - intros. apply IH; [done|]. intros. eapply Hall; [by apply list_elem_of_further|done].
Qed.

Lemma total_none n : total slot_cost (replicate n None) = 0%N.
Proof. induction n as [|n IH]; [done|]. cbn [replicate]. by rewrite total_cons, IH. Qed.

Lemma total_zip {A} (entries : list A) slots : (total (slot_cost ∘ snd) (zip entries slots) ≤ total slot_cost slots)%N.
Proof.
  revert slots. induction entries as [|e entries IH]; intros [|slot slots]; try (unfold total; cbn; lia).
  specialize (IH slots). change (zip (e :: entries) (slot :: slots)) with ((e, slot) :: zip entries slots).
  rewrite !total_cons. cbn. lia.
Qed.

Lemma bind_ret_l {S A B} (a : A) (k : A → M S B) : bind (ret a) k = k a.
Proof. done. Qed.

Lemma route_completion_batch_framed descriptor leases entries batch s :
  rt_ok s → completion_serializes batch →
  costs (completion_cost batch) framed (route_completion_batch descriptor leases entries batch) s.
Proof.
  intros Hok Hall. unfold route_completion_batch. cbv zeta. set (lbt := foldl _ _ _).
  destruct (index_entries lbt 0 entries ∅) as [by_id|e] eqn:Hix; [|by apply costs_framed, fail_runner_dispatches_quiet].
  destruct (collect_completions_some lbt entries by_id (cb_results batch) (replicate (length entries) None))
    as (collected & -> & Hc).
  - intros k i Hk. eapply (index_entries_range _ _ 0) in Hk; [done|done|]. intros ? ?. by rewrite lookup_empty.
  - apply length_replicate.
  - intros. by eapply Hall.
  - intros ec [j [? _]%lookup_replicate_1]%list_elem_of_lookup_1. done.
  - unfold expect. rewrite (bind_ret_l collected). destruct collected as [slots|e]; [|by apply costs_framed, fail_runner_dispatches_quiet].
    destruct (Hc _ eq_refl) as [Hcost Hser]. eapply costs_mono; [apply route_entries_framed; [done|]| |done].
    + intros e ec Hin. eapply Hser. by eapply elem_of_zip_r.
    + unfold completion_cost. rewrite total_none, N.add_0_l in Hcost. rewrite <-Hcost. apply total_zip.
Qed.

Lemma registry_ok_same r r' :
  registry_ok r → reg_descriptors r' = reg_descriptors r → reg_descriptor_snapshot r' = reg_descriptor_snapshot r →
  registry_ok r'.
Proof. intros [H1 H2] Hd Hs. split; by rewrite ?Hd, ?Hs. Qed.

Lemma put_runner_safely runner s :
  rt_ok s → safely (on_registry (put_runner runner)) s (λ _ s', same_frame s s' ∧ rt_tasks s' = rt_tasks s).
Proof.
  intros Hok. eapply safely_mono; [apply on_registry_safely; [done|]|].
  - unfold put_runner. apply runs_bind, runs_get, runs_put. by eapply registry_ok_same; [apply Hok|..].
  - intros [] s' _ _ (r' & [= <-] & ->). by repeat split.
Qed.

(** Building a dispatch touches the registry and the logs only. *)
Definition logged s s' : Prop := same_frame s s' ∧ rt_tasks s' = rt_tasks s.

#[export] Instance logged_preorder : PreOrder logged.
Proof. split; [intros s; split; reflexivity|]. intros s t u [? ?] [? ?]. split; [by etrans|congruence]. Qed.

Lemma costs_logged n R {A} (c : M CoreRuntime A) s : keeps logged c s → (∀ s', logged s s' → R s s') → costs n R c s.
Proof.
  intros Hc HR _. eapply safely_mono; [exact Hc|]. intros a s' _ _ Hl. split; [by apply HR|].
  destruct Hl as [[Hst _ _ _ _ _ _ _] Ht]. unfold spends. rewrite Hst, Ht. apply spends_refl.
Qed.

(** What a completion hands in. *)
Definition handed_in (completion : RunnerCompletion) : N :=
  match rcp_result completion with Ok result => completion_cost result | Err _ => 0 end.

Lemma complete_runner_dispatch_frame completion s :
  rt_ok s → (∀ result, rcp_result completion = Ok result → completion_serializes result) →
  costs (handed_in completion) same_frame (complete_runner_dispatch completion) s.
Proof.
  intros Hok Hall. unfold complete_runner_dispatch, handed_in. apply costs_get. cbv zeta.
  destruct (match rcp_runner completion with Some _ => _ | None => _ end) as [id|]; [|by apply (costs_ret _ same_frame)].
  destruct (List.find _ _); [|by apply (costs_ret _ same_frame)].
  apply (costs_free_bind _ same_frame).
  { destruct (rcp_runner completion); [|by apply (costs_ret _ same_frame)].
    apply costs_logged; [by apply put_runner_safely|by intros ? [? _]]. }
  intros [] s1 Hok1 _. apply (costs_then _ same_frame); [|intros; by apply (costs_ret _ same_frame)].
  assert (∀ n {A} (c : M CoreRuntime A), costs n framed c s1 → costs n same_frame c s1) as Hf
    by (intros n A c Hc; eapply costs_mono; [exact Hc|done|by intros ? [? _]]).
  destruct (rcp_result completion) as [result|e]; [|by apply Hf, costs_framed, fail_runner_dispatches_quiet].
  case_decide; [by apply Hf, costs_framed, fail_runner_dispatches_quiet|].
  apply Hf, route_completion_batch_framed; auto.
Qed.

(** ** Kernel tasks *)

(** The runners and the step stay. *)
Definition in_pass s s' : Prop :=
  reg_descriptor_snapshot (rt_registry s') = reg_descriptor_snapshot (rt_registry s) ∧
  rt_current_step s' = rt_current_step s.

#[export] Instance in_pass_preorder : PreOrder in_pass.
Proof. split; [by split|]. intros s t u [? ?] [? ?]. split; congruence. Qed.

Lemma same_frame_in_pass s s' : same_frame s s' → in_pass s s'.
Proof. by intros []. Qed.

Lemma quiet_in_pass s s' : quiet s s' → in_pass s s'.
Proof. intros [? _]. by apply same_frame_in_pass. Qed.

Lemma costs_in_pass n {A} (c : M CoreRuntime A) s : keeps quiet c s → costs n in_pass c s.
Proof. intros. apply costs_quiet; [done|]. apply quiet_in_pass. Qed.

Lemma process_kernel_task_costs leased s :
  rt_ok s → serializes leased.2 → costs 1 in_pass (process_kernel_task leased) s.
Proof.
  intros Hok [v Hv]. destruct leased as [lease task]. cbn [snd] in Hv. unfold process_kernel_task.
  apply costs_get. case_match; [|by apply (costs_ret _ in_pass)].
  assert (∀ n s', rt_ok s' → costs n in_pass (let? _ := on_tasks (complete lease (rt_current_step s)) in ret (Ok 1%N)) s') as Hend.
  { intros n s' Hok'. apply costs_in_pass, (keeps_try quiet); [by apply (leased_quiet (LComplete None))|]. intros. by apply keeps_ret_quiet. }
  repeat case_decide.
  - rewrite Hv. unfold expect. rewrite (bind_ret_l v). case_match; [|by apply (costs_ret _ in_pass)].
    apply (costs_then _ in_pass).
    + intros Hroom. eapply safely_mono; [by apply on_states_apply|]. by intros ? ? _ _ (? & st' & _ & ->).
    + intros. apply (costs_free_bind _ in_pass); [by apply costs_in_pass, event_quiet|]. intros. by apply Hend.
  - rewrite Hv. unfold expect. rewrite (bind_ret_l v). case_match; [|by apply (costs_ret _ in_pass)].
    apply (costs_free_bind _ in_pass); [by apply costs_in_pass, event_quiet|]. intros. by apply Hend.
  - apply costs_in_pass, (keeps_try quiet); [by apply (leased_quiet (LFail _))|]. intros.
    apply (keeps_bind quiet); [by apply terminal_event_quiet|]. intros.
    apply (keeps_try quiet); [by apply wake_tasks_waiting_on_quiet|]. intros. by apply keeps_ret_quiet.
Qed.

Lemma process_kernel_tasks_costs leased s :
  rt_ok s → Forall (λ lt, serializes lt.2) leased → costs (len leased) in_pass (process_kernel_tasks leased) s.
Proof.
  intros Hok Hall. rewrite <-total_const. apply (costs_sum (λ _, 1%N) in_pass); [done|].
  intros x s' Hx Hok' _. apply process_kernel_task_costs; [done|]. rewrite Forall_forall in Hall. by apply Hall.
Qed.

(** ** Claiming and dispatching *)

Lemma claim_safely runner executor step gen limit budget expires s :
  rt_ok s → NoDup (d_accepted_protocol_ids runner) → allocatable TaskId (selection_limit limit budget) →
  (∀ e, expires = Some e → (e ≤ u64_max)%N) →
  safely (on_tasks (claim_ready_for_executor_with_budget runner executor step gen limit budget expires)) s
    (λ leased s', Forall (λ lt, serializes lt.2) leased ∧ (len leased ≤ limit)%N ∧ quiet s s').
Proof.
  intros Hok Hnd Halloc Hexp. set (op := OpClaim runner executor step gen limit budget expires).
  eapply safely_mono; [by apply (on_tasks_quiet _ op)|]. intros leased s' _ _ (p' & Hrun & -> & Hcalm).
  pose proof (reachable_inv _ (ok_tasks _ Hok)) as Hinv.
  destruct (runs_det _ _ _ _ _ (claim_runs runner executor step gen expires Hexp _ limit budget Hinv Hnd Halloc) Hrun)
    as (_ & _ & l & Hsel & -> & _). apply selects_bounds in Hsel as (Hsub & Hlen & _).
  split; [|split; [unfold len in *; by rewrite length_fmap|by split]].
  apply Forall_fmap, Forall_forall. intros r Hr. cbn.
  assert (r ∈ candidates (rt_tasks s) runner step gen) as Hc by (by eapply sublist_subseteq).
  apply elem_of_candidates in Hc as (Hc & _); [|done]. destruct (pi_payload _ _ Hinv) as [Hd Hb].
  specialize (Hb _ _ Hc). unfold payload_bytes in Hb. unfold serializes. cbn.
  assert (is_Some (p_payload_wire_bytes (rt_tasks s) !! rec_id r)) as [n Hn].
  { apply elem_of_dom. rewrite Hd. by eapply elem_of_dom_2. }
  rewrite Hn in Hb. by destruct (as_value (t_payload (r_task r))).
Qed.

Lemma modify_quiet (f : CoreRuntime → CoreRuntime) s :
  rt_ok (f s) → advances s (f s) → quiet s (f s) → keeps quiet (modify f) s.
Proof. intros. by apply safely_modify. Qed.

Lemma record_span_quiet trace_id name status attrs s : rt_ok s → keeps quiet (record_span trace_id name status attrs) s.
Proof. intros Hok. eapply safely_mono; [by apply record_span_safely|]. by intros ? s' _ _ ->. Qed.

Lemma record_scheduler_decision_quiet descriptor decision s :
  rt_ok s → keeps quiet (record_scheduler_decision descriptor decision) s.
Proof.
  intros Hok. unfold record_scheduler_decision. apply (keeps_bind quiet).
  { apply modify_quiet; [by destruct Hok; split| |by split]. split; cbn; try done. by exists []; constructor. }
  intros [] s1 Hok1 _. apply (keeps_get quiet). cbv zeta. case_match; [by apply keeps_ret_quiet|].
  case_match; [by apply keeps_ret_quiet|]. apply (keeps_bind quiet).
  - case_match; [by apply record_span_quiet|by apply keeps_ret_quiet].
  - intros. case_match; [by apply event_quiet|by apply keeps_ret_quiet].
Qed.

Lemma take_runner_safely id s :
  rt_ok s → safely (on_registry (take_runner id)) s (λ _ s', same_frame s s' ∧ rt_tasks s' = rt_tasks s).
Proof.
  intros Hok. assert (runs (take_runner id) (rt_registry s) (λ _ r', registry_ok r' ∧
    reg_descriptor_snapshot r' = reg_descriptor_snapshot (rt_registry s))) as Hrun.
  { unfold take_runner. apply runs_bind, runs_get. case_match; [|by apply runs_ret; split; [apply Hok|]].
    destruct (pop _). apply runs_bind, runs_put, runs_ret. split; [by eapply registry_ok_same; [apply Hok|..]|done]. }
  eapply safely_mono; [apply on_registry_safely; [done|]; eapply runs_mono; [exact Hrun|]; by intros ? ? [? _]|].
  intros a s' _ _ (r' & Hr & ->). destruct (runs_det _ _ _ _ _ Hrun Hr) as [_ ?]. by repeat split.
Qed.

Lemma event_logged kind name subject attrs error s : rt_ok s → keeps logged (record_event kind name subject attrs error) s.
Proof. intros Hok. eapply safely_mono; [by apply record_event_safely|]. by intros [] s' _ _ ->. Qed.

Lemma build_runner_dispatch_logged descriptor executor leased s :
  rt_ok s → keeps logged (build_runner_dispatch descriptor executor leased) s.
Proof.
  intros Hok. unfold build_runner_dispatch. apply (keeps_get logged). cbv zeta. apply (keeps_bind logged).
  { case_match; [|by apply (keeps_ret logged)]. eapply safely_mono; [by apply record_span_safely|]. by intros ? s' _ _ ->. }
  intros span s1 Hok1 _. apply (keeps_try logged).
  { unfold dispatch_target. apply (keeps_get logged). case_match; [by apply (keeps_ret logged)|].
    apply (keeps_bind logged); [by apply take_runner_safely|]. intros [r|] s2 ? _; by apply (keeps_ret logged). }
  intros target s2 Hok2 _. apply (keeps_bind logged); [apply (keeps_for_each logged); [done|]; intros; by apply event_logged|].
  intros [] s3 Hok3 _. apply (keeps_get logged). apply (keeps_bind logged); [|intros; by apply (keeps_ret logged)].
  destruct span; [|by apply (keeps_ret logged)]. case_match; [by apply event_logged|by apply (keeps_ret logged)].
Qed.

Lemma build_dispatches_logged descriptor executor groups s :
  rt_ok s → keeps logged (build_dispatches descriptor executor groups) s.
Proof.
  revert s. induction groups as [|g groups IH]; intros s Hok; cbn [build_dispatches]; [by apply (keeps_ret logged)|].
  apply (keeps_try logged); [by apply build_runner_dispatch_logged|]. intros.
  apply (keeps_try logged); [by apply IH|]. intros. by apply (keeps_ret logged).
Qed.

Lemma defer_all_quiet leased s : rt_ok s → keeps quiet (defer_all leased) s.
Proof.
  intros Hok. apply (keeps_try_for_each quiet); [done|]. intros. apply (keeps_get quiet). by apply (leased_quiet LDefer).
Qed.

Lemma clamp_decision_entries descriptor decision :
  dec_dispatch_limit (clamp_decision descriptor decision) ≠ 0%N → bc_max_batch_entries (d_batch descriptor) ≠ 0%N.
Proof.
  intros Hne Hz. apply Hne. unfold clamp_decision, decision_clamp_batches. cbv zeta. rewrite Hz.
  case_match; [done|]. cbn. unfold saturating_mul. lia.
Qed.

Lemma split_nonempty leased : leased ≠ [] → split_leased_tasks_by_resource_conflict leased ≠ [].
Proof.
  destruct leased as [|x leased] using rev_ind; [done|]. intros _. unfold split_leased_tasks_by_resource_conflict.
  rewrite foldl_app. cbn. set (t := foldl _ _ _). cbn. destruct (_ && _); cbn.
  - by intros []%app_nil.
  - destruct (sp_current t ++ [x]) eqn:E; [by apply app_nil in E as [_ ?]|]. by intros []%app_nil.
Qed.

Lemma chunks_some {A} size (l : list A) : size ≠ 0%N → is_Some (chunks size l).
Proof. intros. unfold chunks. rewrite decide_False by done. by eexists. Qed.

(** The tasks one pass claims for a runner, at most. *)
Definition claim_bound (descriptor : RunnerDescriptor) : N :=
  bc_max_batch_entries (d_batch descriptor) * max_inflight_batches (d_concurrency descriptor).

Lemma clamp_decision_bound descriptor decision :
  (dec_dispatch_limit (clamp_decision descriptor decision) ≤ claim_bound descriptor)%N.
Proof.
  unfold clamp_decision, decision_clamp_batches, claim_bound. cbv zeta.
  assert (allowed_batches descriptor decision ≤ max_inflight_batches (d_concurrency descriptor))%N
    by (unfold allowed_batches; lia).
  case_match; cbn; [lia|]. unfold saturating_mul.
  assert (bc_max_batch_entries (d_batch descriptor) * allowed_batches descriptor decision
    ≤ bc_max_batch_entries (d_batch descriptor) * max_inflight_batches (d_concurrency descriptor))%N by nia. lia.
Qed.

(** What a claim allocates is within the room of its runner. *)
Lemma clamp_decision_allocatable descriptor decision s :
  room (claim_bound descriptor) s →
  allocatable TaskId (selection_limit (dec_dispatch_limit (clamp_decision descriptor decision))
    (Some (dec_budget (clamp_decision descriptor decision)))).
Proof.
  intros [Halloc _]. eapply allocatable_le, Halloc. pose proof (clamp_decision_bound descriptor decision).
  unfold selection_limit. lia.
Qed.

Lemma logged_in_pass s s' : logged s s' → in_pass s s'.
Proof. intros [? _]. by apply same_frame_in_pass. Qed.

Lemma build_dispatches_length descriptor executor groups s dispatches s' :
  build_dispatches descriptor executor groups s = Some (Ok dispatches, s') → length dispatches = length groups.
Proof.
  revert s dispatches s'. induction groups as [|g groups IH]; intros s dispatches s'; cbn [build_dispatches];
    [by intros [= <- _]|].
  unfold try_bind, bind. destruct (build_runner_dispatch _ _ _ s) as [[[d|e] s1]|]; [|done..].
  destruct (build_dispatches _ _ _ s1) as [[[ds|e] s2]|] eqn:E; [|done..]. intros [= <- _]. cbn. by rewrite (IH _ _ _ E).
Qed.

(** Nothing is drawn and the pass goes on. *)
Definition free s s' : Prop := in_pass s s' ∧ spends 0 s s'.

#[export] Instance free_preorder : PreOrder free.
Proof.
  split; [intros s; split; [done|apply spends_refl]|]. intros s t u [? H1] [? H2]. split; [by etrans|].
  by apply (spends_trans 0 0 s t u).
Qed.

Lemma quiet_free s s' : quiet s s' → free s s'.
Proof. intros. split; [by apply quiet_in_pass|by apply quiet_spends]. Qed.

Lemma keeps_free {A} (c : M CoreRuntime A) s : keeps quiet c s → keeps free c s.
Proof. intros H. eapply keeps_weaken; [exact H|]. apply quiet_free. Qed.

Lemma logged_free s s' : logged s s' → free s s'.
Proof. intros H. split; [by apply logged_in_pass|]. destruct H as [[Hst _ _ _ _ _ _ _] Ht]. unfold spends. rewrite Hst, Ht. apply spends_refl. Qed.

(** The batches of one claim, once its tasks are leased. *)
Lemma dispatch_groups_free descriptor executor max_batches group deferred s :
  rt_ok s → bc_max_batch_entries (d_batch descriptor) ≠ 0%N →
  safely (let? _ := defer_all (concat deferred) in
    let! all_chunks := expect (chunks (bc_max_batch_entries (d_batch descriptor)) group) in
    let chunks := take (N.to_nat max_batches) all_chunks in
    let dispatched_tasks := sum_list (length <$> chunks) in
    let? _ := defer_all (drop dispatched_tasks group) in
    let? dispatches := build_dispatches descriptor executor chunks in
    ret (Ok (MkRunnerLoopReport (N.of_nat dispatched_tasks) 0, dispatches))) s
    (λ a s', free s s' ∧ ∀ report dispatches, a = Ok (report, dispatches) → (len dispatches ≤ max_batches)%N).
Proof.
  intros Hok Hne. eapply safely_try; [by apply keeps_free, defer_all_quiet| |by intros ? ? _ _ ?].
  intros [] s1 Hok1 _ H1. destruct (chunks_some (bc_max_batch_entries (d_batch descriptor)) group) as [cs ->]; [done|].
  unfold expect. rewrite (bind_ret_l cs). cbv zeta.
  eapply safely_try; [by apply keeps_free, defer_all_quiet| |by intros ? ? _ _ ?; split; [etrans|]].
  intros [] s2 Hok2 _ H2.
  destruct (build_dispatches_logged descriptor executor (take (N.to_nat max_batches) cs) s2 Hok2) as (a & s3 & Hb & Hok3 & Hadv & H3).
  assert (free s s3) as H4 by (etrans; [exact H1|]; etrans; [exact H2|]; by apply logged_free).
  eapply (safely_bind _ _ _ (λ a' s', a' = a ∧ s' = s3)); [by exists a, s3|]. intros a' s' _ _ [-> ->].
  destruct a as [dispatches|e]; [|by apply safely_ret]. apply safely_ret; [done|]. split; [done|].
  intros report ds [= _ <-]. unfold len. rewrite (build_dispatches_length _ _ _ _ _ _ Hb), length_take. lia.
Qed.

(** A claim draws at most one version per task it processes itself, and hands
    out no more batches than the runner may have in flight. *)
Lemma claim_runner_work_costs descriptor decision expires s :
  rt_ok s → NoDup (d_accepted_protocol_ids descriptor) → (∀ e, expires = Some e → (e ≤ u64_max)%N) →
  room (claim_bound descriptor) s →
  safely (claim_runner_work descriptor decision expires) s (λ a s', in_pass s s' ∧ spends (claim_bound descriptor) s s' ∧
    ∀ report dispatches, a = Ok (report, dispatches) →
      (len dispatches ≤ max_inflight_batches (d_concurrency descriptor))%N).
Proof.
  intros Hok Hnd Hexp Hroom. unfold claim_runner_work. cbv zeta.
  set (bound := claim_bound descriptor) in *. set (cap := max_inflight_batches (d_concurrency descriptor)).
  assert (∀ t, free s t → in_pass s t ∧ spends bound s t) as Hfree
    by (intros t [? Hsp]; split; [done|]; eapply spends_mono, Hsp; lia).
  assert (∀ t report, free s t → in_pass s t ∧ spends bound s t ∧ ∀ r dispatches,
    (Ok (report, []) : RuntimeResult (RunnerLoopReport * list RunnerDispatch)) = Ok (r, dispatches) → (len dispatches ≤ cap)%N) as Hempty.
  { intros t report Ht%Hfree. destruct Ht. split_and!; [done|done|]. intros r ds [= _ <-]. unfold len. cbn. lia. }
  eapply safely_bind; [by apply keeps_free, record_scheduler_decision_quiet|]. intros [] s1 Hok1 _ H1.
  case_decide as Hlim; [by apply safely_ret; [|apply Hempty]|]. apply safely_get.
  eapply safely_bind; [by apply claim_safely; [..|by eapply clamp_decision_allocatable|]|]. intros leased s2 Hok2 _ (Hser & Hlen & Hq). cbv beta.
  assert (free s s2) as H2 by (etrans; [exact H1|]; by apply quiet_free).
  case_bool_decide as Hne; [by apply safely_ret; [|apply Hempty]|].
  assert (len leased ≤ bound)%N as Hb by (etrans; [exact Hlen|]; apply clamp_decision_bound).
  case_match.
  - eapply safely_try; [apply process_kernel_tasks_costs; [done|done|]| |].
    + eapply room_mono; [exact Hb|]. apply (room_after 0 bound s); [done|by destruct H2].
    + intros n s3 Hok3 _ [H3 Hsp]. apply safely_ret; [done|]. destruct H2 as [? Hz]. split_and!; [by etrans| |].
      * eapply spends_mono, (spends_trans 0 _ s s2 s3); [|exact Hz|exact Hsp]. lia.
      * intros ? ? [= _ <-]. unfold len. cbn. lia.
    + intros e s3 _ _ [H3 Hsp]. destruct H2 as [? Hz]. split_and!; [by etrans| |done].
      eapply spends_mono, (spends_trans 0 _ s s2 s3); [|exact Hz|exact Hsp]. lia.
  - pose proof (split_nonempty _ Hne). destruct (split_leased_tasks_by_resource_conflict leased) as [|group deferred]; [done|].
    eapply safely_mono; [apply dispatch_groups_free; [done|by eapply clamp_decision_entries]|].
    intros a s3 _ _ [H3 Hds]. destruct (Hfree s3) as [? ?]; [by etrans|]. split_and!; [done|done|].
    intros report ds Ha. etrans; [by eapply Hds|]. unfold allowed_batches. lia.
Qed.
End Runs.
