(* ===== verification/RuntimePasses.v ===== *)
(** * Scheduling passes

    One pass of the runner loop, inline or for a host: it returns when the
    counters have room for what its runners may hand in, and leaves the
    registered runners as they are. *)

From S2P Require Import Prelude Contracts RunnerContracts BatchContracts PluginContracts Ids Logs StateStore ResourceManager ResourceOccupancy ResourceTheorems TaskRecords TaskIndexes IndexFacts TaskPool TaskClaiming PoolInvariant PoolHistory PoolSteps PoolKernelSteps PoolForced ClaimFacts PoolOps TaskOccupancy Registry RegistryTheorems RuntimeState RuntimeTasks BatchBuild RuntimeRouting RuntimeDispatch RuntimeReload RuntimeResources RuntimeInvariant RuntimeRuns.

Section Passes.
Context `{RA : RunnerApi} `{ST : !SerdeTypes}.
Implicit Types s : CoreRuntime.

(** ** What runners return *)

(** The payloads of the tasks runners return serialize: a local payload that
    does not panics in [materialize_json]. *)
Definition runners_serialize : Prop :=
  ∀ ctx batch runner result runner',
    runner_run_batch ctx batch runner = (Ok result, runner') → completion_serializes result.

(** No batch asks for more than [K] tasks. *)
Definition runners_bounded (K : N) : Prop :=
  ∀ ctx batch runner result runner',
    runner_run_batch ctx batch runner = (Ok result, runner') → (completion_cost result ≤ K)%N.

Lemma begin_pass_quiet s : rt_ok s → keeps quiet begin_pass s.
Proof.
  intros Hok. unfold begin_pass. apply (keeps_bind quiet); [by apply rt_reclaim_quiet|]. intros [] s1 ? _.
  apply (keeps_bind quiet); [by apply rt_wake_due_tasks_quiet|]. intros ? s2 ? _.
  apply (keeps_try quiet); [by apply reject_stale_ready_tasks_quiet|]. intros. by apply keeps_ret_quiet.
Qed.

(** The descriptors of the snapshot can be claimed for. *)
Lemma snapshot_nodup s d :
  rt_ok s → d ∈ reg_descriptor_snapshot (rt_registry s) → NoDup (d_accepted_protocol_ids d).
Proof.
  intros Hok. destruct (ok_registry _ Hok) as [Hd Hs]. rewrite Hs, elem_of_sort_by_str, list_elem_of_fmap.
  intros ([k d'] & -> & Hk%elem_of_map_to_list). by destruct (Hd _ _ Hk).
Qed.

Lemma runner_load_quiet descriptor step gen s : rt_ok s → keeps quiet (on_tasks (runner_load descriptor step gen)) s.
Proof. intros. by apply (tasks_quiet _ (OpRunnerLoad descriptor step gen)). Qed.

Lemma execute_inline_serializes dispatch result :
  runners_serialize → rcp_result (execute_inline dispatch) = Ok result → completion_serializes result.
Proof.
  intros Hr. unfold execute_inline. destruct (rdp_target dispatch) as [runner|handler]; [|done].
  destruct (runner_run_batch _ _ runner) as [r runner'] eqn:Hrun. cbn. intros ->. by eapply Hr.
Qed.

Lemma execute_inline_bounded K dispatch : runners_bounded K → (handed_in (execute_inline dispatch) ≤ K)%N.
Proof.
  intros Hr. unfold execute_inline, handed_in. destruct (rdp_target dispatch) as [runner|handler]; [|cbn; lia].
  destruct (runner_run_batch _ _ runner) as [[result|e] runner'] eqn:Hrun; cbn; [by eapply Hr|lia].
Qed.

Lemma safely_u64_add {B} a b (k : N → M CoreRuntime B) s Q :
  (a + b ≤ u64_max)%N → safely (k (a + b)%N) s Q → safely (bind (u64_add a b) k) s Q.
Proof. intros Hle. unfold u64_add. by rewrite decide_True. Qed.

(** ** Inline passes *)

(** What one runner draws in a pass, when no batch asks for more than [K]
    tasks; what all of them draw. *)
Definition tick_cost (K : N) (descriptor : RunnerDescriptor) : N :=
  claim_bound descriptor + max_inflight_batches (d_concurrency descriptor) * K.

Definition pass_cost (K : N) s : N := total (tick_cost K) (reg_descriptor_snapshot (rt_registry s)).

Lemma total_bound {A} (l : list A) K : total (λ _, K) l = (len l * K)%N.
Proof. induction l as [|x l IH]; [done|]. rewrite total_cons, IH, len_cons. lia. Qed.

Lemma inline_dispatches_costs K dispatches s :
  runners_serialize → runners_bounded K → rt_ok s →
  costs (len dispatches * K) in_pass (try_sum dispatches (λ dispatch, complete_inline_dispatch (execute_inline dispatch))) s.
Proof.
  intros Hr HK Hok. rewrite <-total_bound. apply (costs_sum (λ _, K) in_pass); [done|].
  intros dispatch s3 _ Hok3 _. unfold complete_inline_dispatch.
  apply (costs_then _ in_pass); [|intros; by apply (costs_ret _ in_pass)].
  eapply costs_mono; [apply complete_runner_dispatch_frame; [done|]| |].
  - intros result. by apply execute_inline_serializes.
  - by apply execute_inline_bounded.
  - intros ?. apply same_frame_in_pass.
Qed.

Lemma tick_runner_costs K descriptor s :
  runners_serialize → runners_bounded K → rt_ok s → NoDup (d_accepted_protocol_ids descriptor) →
  (rt_current_step s + TASK_LEASE_TTL_STEPS ≤ u64_max)%N →
  costs (tick_cost K descriptor) in_pass (tick_runner descriptor) s.
Proof.
  intros Hr HK Hok Hnd Hstep. unfold tick_runner. apply costs_get.
  case_match; [by apply (costs_ret _ in_pass)|].
  apply (costs_free_bind _ in_pass); [by apply costs_in_pass, runner_load_quiet|]. intros load s1 Hok1 _. cbv zeta.
  intros Hroom. apply safely_u64_add; [done|].
  eapply safely_try; [apply claim_runner_work_costs; [done|done| |]| |].
  - by intros e [= <-].
  - eapply room_mono; [|exact Hroom]. unfold tick_cost. lia.
  - intros [report dispatches] s2 Hok2 _ (H2 & Hsp & Hlen). specialize (Hlen _ _ eq_refl). cbv beta.
    apply (costs_after (claim_bound descriptor) _ in_pass); [exact Hroom|done|done|].
    apply (costs_then _ in_pass); [|intros; by apply (costs_ret _ in_pass)].
    eapply costs_mono; [by apply (inline_dispatches_costs K)| |done]. nia.
  - intros e s2 _ _ (H2 & Hsp & _). split; [done|]. eapply spends_mono; [|exact Hsp]. unfold tick_cost. lia.
Qed.

Lemma tick_runners_costs K descriptors report s :
  runners_serialize → runners_bounded K → rt_ok s → Forall (λ d, NoDup (d_accepted_protocol_ids d)) descriptors →
  (rt_current_step s + TASK_LEASE_TTL_STEPS ≤ u64_max)%N →
  costs (total (tick_cost K) descriptors) in_pass (tick_runners descriptors report) s.
Proof.
  intros Hr HK. revert report s. induction descriptors as [|d descriptors IH]; intros report s Hok Hall Hstep; cbn [tick_runners];
    [by apply (costs_ret _ in_pass)|].
  apply Forall_cons in Hall as [Hd Hall]. rewrite total_cons. apply (costs_try _ _ in_pass); [by apply tick_runner_costs|].
  intros one s1 Hok1 [_ H1]. apply IH; [done|done|]. by rewrite H1.
Qed.

(** Moving to a later step. *)
Lemma step_safely step s :
  rt_ok s → (rt_current_step s ≤ step)%N →
  safely (modify (λ s, s <| rt_current_step := step |>)) s (λ _ s', s' = s <| rt_current_step := step |>).
Proof.
  intros Hok Hle. apply safely_modify; [by destruct Hok; split| |done]. split; cbn; try done. by exists []; constructor.
Qed.

(** The next step begins with the same runners. *)
Definition ticked s s' : Prop :=
  reg_descriptor_snapshot (rt_registry s') = reg_descriptor_snapshot (rt_registry s) ∧
  (rt_current_step s' ≤ rt_current_step s + 1)%N.

Lemma tick_once_costs K s :
  runners_serialize → runners_bounded K → rt_ok s → (rt_current_step s + 1 + TASK_LEASE_TTL_STEPS ≤ u64_max)%N →
  costs (pass_cost K s) ticked tick_once s.
Proof.
  intros Hr HK Hok Hstep Hroom. unfold tick_once. apply safely_get.
  case_match; [|apply safely_ret; [done|]; split; [split; [done|lia]|apply spends_refl]]. apply safely_u64_add; [lia|].
  eapply safely_bind; [apply step_safely; [done|lia]|]. intros [] s1 Hok1 _ Hs1.
  eapply safely_mono; [apply (costs_free_try (pass_cost K s) in_pass)|].
  - by apply costs_in_pass, begin_pass_quiet.
  - intros report s2 Hok2 [Hreg H2]. apply costs_get. unfold pass_cost. rewrite Hs1 in Hreg. cbn in Hreg. rewrite <-Hreg.
    apply tick_runners_costs; [done|done|done| |].
    + apply Forall_forall. intros d. by apply snapshot_nodup.
    + rewrite H2, Hs1. cbn. lia.
  - by rewrite Hs1.
  - intros res s2 _ _ [[Hreg H2] Hsp]. rewrite Hs1 in Hreg, H2, Hsp. split; [|done]. split; [done|]. rewrite H2. cbn. lia.
Qed.

Lemma run_ticks_costs K n aggregate s :
  runners_serialize → runners_bounded K → rt_ok s →
  (rt_current_step s + N.of_nat n + TASK_LEASE_TTL_STEPS ≤ u64_max)%N → room (N.of_nat n * pass_cost K s) s →
  keeps anything (run_ticks n aggregate) s.
Proof.
  intros Hr HK. revert aggregate s. induction n as [|n IH]; intros aggregate s Hok Hstep Hroom; cbn [run_ticks];
    [by apply (keeps_ret anything)|].
  eapply safely_try; [apply (tick_once_costs K); [done|done|done|lia|eapply room_mono; [|exact Hroom]; lia]| |done].
  intros report s1 Hok1 _ [[Hreg H1] Hsp]. cbv zeta. case_match; [by apply safely_ret|].
  eapply safely_mono; [apply IH; [done|lia|]|done]. unfold pass_cost in *. rewrite Hreg. eapply room_after; [|exact Hsp].
  eapply room_mono; [|exact Hroom]. lia.
Qed.

(** ** Passes for a host *)

(** The host's closure never panics. *)
Definition schedule_returns {D} (schedule : RunnerDescriptor → RunnerLoad → N → N → D → option (RuntimeResult ScheduleDecision * D)) :
    Prop :=
  ∀ descriptor load step generation d, is_Some (schedule descriptor load step generation d).

Lemma claim_for_runners_costs {D} (schedule : RunnerDescriptor → RunnerLoad → N → N → D → option (RuntimeResult ScheduleDecision * D))
    descriptors expires d report dispatches s :
  schedule_returns schedule → rt_ok s → (∀ e, expires = Some e → (e ≤ u64_max)%N) → Forall (λ d, NoDup (d_accepted_protocol_ids d)) descriptors →
  costs (total claim_bound descriptors) in_pass (claim_for_runners schedule descriptors expires d report dispatches) s.
Proof.
  intros Hsched Hok Hexp. revert d report dispatches s Hok.
  induction descriptors as [|desc descriptors IH]; intros d report dispatches s Hok Hall; cbn [claim_for_runners];
    [by apply (costs_ret _ in_pass)|].
  apply Forall_cons in Hall as [Hd Hall]. rewrite total_cons.
  case_match; [eapply costs_mono; [by apply IH|lia|done]|]. apply costs_get. cbv zeta.
  apply (costs_free_bind _ in_pass); [by apply costs_in_pass, runner_load_quiet|]. intros load s1 Hok1 _.
  destruct (Hsched desc load (rt_current_step s) (plan_registry_generation (rt_load_plan s)) d) as [[[decision|e] d'] ->];
    unfold expect; rewrite bind_ret_l; [|by apply (costs_ret _ in_pass)].
  apply (costs_try _ _ in_pass); [|intros [one ds] s2 Hok2 _; by apply IH].
  intros Hroom. eapply safely_mono; [by apply claim_runner_work_costs|]. by intros a s' _ _ (? & ? & _).
Qed.

Lemma claim_ready_dispatches_at_step_any {D}
    (schedule : RunnerDescriptor → RunnerLoad → N → N → D → option (RuntimeResult ScheduleDecision * D)) step d expires s :
  schedule_returns schedule → rt_ok s → (∀ e, expires = Some e → (e ≤ u64_max)%N) →
  room (total claim_bound (reg_descriptor_snapshot (rt_registry s))) s →
  keeps anything (claim_ready_dispatches_at_step schedule step d expires) s.
Proof.
  intros Hsched Hok Hexp Hroom. unfold claim_ready_dispatches_at_step. apply (keeps_get anything).
  case_match; [|by apply (keeps_ret anything)]. case_decide; [by apply (keeps_ret anything)|].
  eapply safely_bind; [apply step_safely; [done|lia]|]. intros [] s1 Hok1 _ Hs1.
  eapply safely_mono; [apply (costs_free_try (total claim_bound (reg_descriptor_snapshot (rt_registry s))) in_pass)|done].
  - by apply costs_in_pass, begin_pass_quiet.
  - intros report s2 Hok2 [Hreg _]. apply costs_get. rewrite Hs1 in Hreg. cbn in Hreg. rewrite <-Hreg.
    apply claim_for_runners_costs; [done|done|done|]. apply Forall_forall. intros desc. by apply snapshot_nodup.
  - by rewrite Hs1.
Qed.

Lemma defer_runner_dispatch_free dispatch s : rt_ok s → keeps free (defer_runner_dispatch dispatch) s.
Proof.
  intros Hok. unfold defer_runner_dispatch. apply (keeps_get free). case_match; [|by apply (keeps_ret free)].
  apply (keeps_try free).
  { apply keeps_free, (keeps_try_for_each quiet); [done|]. intros. by apply (leased_quiet LDefer). }
  intros [] s1 Hok1 _. apply (keeps_bind free); [|intros; by apply (keeps_ret free)].
  case_match; [|by apply (keeps_ret free)]. eapply safely_mono; [by apply put_runner_safely|].
  intros ? s' _ _ ?. by apply logged_free.
Qed.

Lemma defer_runner_dispatch_any dispatch s : rt_ok s → keeps anything (defer_runner_dispatch dispatch) s.
Proof. intros. by eapply keeps_any, defer_runner_dispatch_free. Qed.
End Passes.
