(* ===== verification/RuntimeOps.v ===== *)
(** * Runs of the runtime

    Lifecycle, reload and the resource interface; every public method as one
    operation, and the runtimes that operations reach from a boot. *)

From S2P Require Import Prelude Contracts RunnerContracts BatchContracts PluginContracts Ids Logs StateStore ResourceManager ResourceOccupancy ResourceTheorems TaskRecords TaskIndexes IndexFacts TaskPool TaskClaiming PoolInvariant PoolHistory PoolSteps PoolKernelSteps PoolForced ClaimFacts PoolOps TaskOccupancy Registry RegistryTheorems RuntimeState RuntimeTasks BatchBuild RuntimeRouting RuntimeDispatch RuntimeReload RuntimeResources RuntimeInvariant RuntimeRuns RuntimePasses.

Section Ops.
Context `{RA : RunnerApi} `{ST : !SerdeTypes}.
Implicit Types s : CoreRuntime.

(** ** Lifecycle and configuration *)

Lemma safely_jump {A} (c c' : M CoreRuntime A) s t Q :
  c s = c' t → advances s t → safely c' t Q → safely c s Q.
Proof.
  intros Hc Hadv (a & u & Hrun & Hok & Hu & HQ).
  exists a, u. rewrite Hc. split_and!; [done|done|by etrans|done].
Qed.

Lemma aborted_tasks_terminal failure tasks id r :
  aborted_tasks failure tasks !! id = Some r → is_terminal_status (r_status r) = true.
Proof.
  intros Hl. apply lookup_fmap_Some in Hl as (r0 & <- & Hr). unfold is_live.
  destruct (is_terminal_status (r_status r0)) eqn:E; done.
Qed.

#[export] Instance spends_nothing_preorder : PreOrder (spends 0).
Proof. split; [intros s; apply spends_refl|]. intros s t u H1 H2. by apply (spends_trans 0 0 s t u). Qed.

Lemma quiet_draws_nothing {A} (c : M CoreRuntime A) s : keeps quiet c s → keeps (spends 0) c s.
Proof. intros H. eapply keeps_weaken; [exact H|]. apply quiet_spends. Qed.

Lemma abort_draws_nothing reason s : rt_ok s → keeps (spends 0) (abort reason) s.
Proof.
  intros Hok. unfold abort. apply (keeps_get (spends 0)). case_decide as Hst; [by apply (keeps_ret (spends 0))|]. cbv zeta.
  set (failure := abort_failure reason). set (step := rt_current_step s).
  pose proof (reachable_inv _ (ok_tasks _ Hok)) as Hinv.
  destruct (abort_all_runs _ step failure Hinv) as (aborted & p' & Hrun & _ & Hprog & _ & _ & Hsub).
  set (t := s <| rt_stop_state := StopAborted |> <| rt_tasks := p' |>).
  assert (run_op (OpAbortAll step failure) (rt_tasks s) = Some (tt, p')) as Hop.
  { cbn. unfold PoolOps.discard, bind. by rewrite Hrun. }
  assert (spends 0 s t) as Hst0.
  { assert (calm (rt_tasks s) p') as Hc by (split; [done|by eapply run_op_counted in Hop]).
    pose proof (calm_size _ _ Hc). destruct Hc as [_ Hseq]. split_and!; cbn; [lia|lia|intros; lia]. }
  eapply (safely_jump _ _ _ t).
  { rewrite (bind_run _ _ _ tt (s <| rt_stop_state := StopAborted |>)) by done. rewrite (bind_run _ _ _ aborted t); [reflexivity|].
    unfold on_tasks. change (rt_tasks (s <| rt_stop_state := StopAborted |>)) with (rt_tasks s). by rewrite Hrun. }
  { split; cbn; try done; [|by exists []; constructor|destruct (rt_stop_state s); cbn; lia].
    apply rtc_once. by exists (OpAbortAll step failure). }
  assert (rt_ok t) as Hokt.
  { destruct Hok. split; try done.
    - eapply reachable_step; [done| |exact Hop]. done.
    - intros _ id r Hr. eapply aborted_tasks_terminal, lookup_weaken; [exact Hr|done]. }
  eapply safely_mono; [|intros a u _ _ Hu; etrans; [exact Hst0|apply quiet_spends, Hu]].
  apply (keeps_bind quiet); [apply (keeps_for_each quiet); [done|]; intros; by apply terminal_event_quiet|].
  intros. apply (keeps_bind quiet); [by apply event_quiet|]. intros. by apply keeps_ret_quiet.
Qed.

Lemma abort_any reason s : rt_ok s → keeps anything (abort reason) s.
Proof. intros. by eapply keeps_any, abort_draws_nothing. Qed.

Lemma begin_drain_any s : rt_ok s → keeps anything begin_drain s.
Proof.
  intros Hok. unfold begin_drain. apply (keeps_get anything). destruct (rt_stop_state s) eqn:Hst; try by apply (keeps_ret anything).
  apply (keeps_bind anything).
  - apply safely_modify; [by destruct Hok; split| |done]. split; cbn; try done; [by exists []; constructor|rewrite Hst; cbn; lia].
  - intros. apply (keeps_bind anything); [by eapply keeps_any, event_quiet|]. intros. by apply (keeps_ret anything).
Qed.

Lemma configure_event_capacity_any capacity s : rt_ok s → keeps anything (configure_event_capacity capacity) s.
Proof.
  intros Hok. apply safely_modify; [|split; cbn; try done; by exists []; constructor|done]. destruct Hok. split; try done.
  by apply (numbered_step (OpSetCapacity capacity)).
Qed.

Lemma trace_configure_numbered profile log : spans_numbered log → spans_numbered (trace_configure profile log).
Proof.
  intros Hl. destruct (decide (u64_max ≤ bl_next_sequence (tl_inner log))%N).
  - left. by apply (log_step_saturated (OpConfigure profile)).
  - right. destruct Hl; [lia|]. apply trace_history_configure; [done|lia].
Qed.

Lemma configure_observability_any profile s : rt_ok s → keeps anything (configure_observability profile) s.
Proof.
  intros Hok. apply safely_modify; [|split; cbn; try done; by exists []; constructor|done]. destruct Hok. split; try done.
  - by apply (numbered_step (OpConfigure (obs_events profile))).
  - by apply trace_configure_numbered.
Qed.

Lemma configure_history_draws_nothing retention s : rt_ok s → keeps (spends 0) (configure_task_history_retention retention) s.
Proof.
  intros Hok. pose proof (reachable_inv _ (ok_tasks _ Hok)) as Hinv.
  destruct (run_op_quiet _ (OpConfigureHistory retention) Hinv I eq_refl) as ([] & p' & Hrun & _ & Hprog).
  assert (calm (rt_tasks s) p') as Hcalm by (split; [done|by eapply run_op_counted in Hrun]).
  exists tt, (s <| rt_tasks := p' |>). unfold configure_task_history_retention, on_tasks. cbn [run_op] in Hrun.
  rewrite Hrun. split_and!; [done| | |].
  - apply rt_ok_tasks; [done| |]; [eapply (reachable_step _ (OpConfigureHistory retention)); [apply Hok|done|done]|].
    intros Hs. eapply all_terminal_progress; [by apply Hok|done].
  - split; cbn; try done; [|by exists []; constructor]. apply rtc_once. by exists (OpConfigureHistory retention).
  - pose proof (calm_size _ _ Hcalm). destruct Hcalm as [_ Hseq]. split_and!; cbn; [lia|lia|intros; lia].
Qed.

Lemma configure_history_any retention s : rt_ok s → keeps anything (configure_task_history_retention retention) s.
Proof. intros. by eapply keeps_any, configure_history_draws_nothing. Qed.

(** ** Registries *)

Lemma registry_keeps_any {A} (c : M RunnerRegistry A) s :
  rt_ok s → runs c (rt_registry s) (λ _ r', registry_ok r') → keeps anything (on_registry c) s.
Proof. intros. eapply safely_mono; [by apply on_registry_safely|done]. Qed.

Lemma heartbeat_ok runner_id executor_id step r :
  registry_ok r → runs (heartbeat runner_id executor_id step) r (λ _, registry_ok).
Proof.
  intros Hr. unfold heartbeat. apply runs_bind, runs_get. case_match; [|by apply runs_ret].
  apply runs_bind, runs_put, runs_ret. by eapply registry_ok_same.
Qed.

Lemma declare_capability_ok runner_id protocol_ids capacity r :
  registry_ok r → runs (declare_capability runner_id protocol_ids capacity) r (λ _, registry_ok).
Proof.
  intros Hr. unfold declare_capability. apply runs_bind, runs_get. case_match; [|by apply runs_ret].
  case_match; [by apply runs_ret|]. apply runs_bind, runs_put, runs_ret. by eapply registry_ok_same.
Qed.

Lemma cancel_runner_ok runner_id invocation_id r :
  registry_ok r → runs (cancel_runner runner_id invocation_id) r (λ _, registry_ok).
Proof.
  intros Hr. unfold cancel_runner. apply runs_bind, runs_get. case_match; [|by apply runs_ret].
  destruct (runner_cancel _ _). apply runs_bind, runs_put, runs_ret. by eapply registry_ok_same.
Qed.

Lemma dispose_runner_lists_ok entries r :
  registry_ok r → runs (dispose_runner_lists entries) r (λ _, registry_ok).
Proof.
  revert r. induction entries as [|[id rs] entries IH]; intros r Hr; cbn [dispose_runner_lists]; [by apply runs_ret|].
  destruct (dispose_runners rs) as [disposed rs']. apply runs_bind, runs_modify.
  assert (registry_ok (r <| reg_runners := <[id := rs']> (reg_runners r) |>)) as Hr' by (by eapply registry_ok_same).
  destruct disposed; [|by apply runs_ret]. apply runs_bind. eapply runs_mono; [by apply IH|].
  intros [] ? ?; by apply runs_ret.
Qed.

Lemma dispose_all_ok r : registry_ok r → runs dispose_all r (λ _, registry_ok).
Proof.
  intros Hr. unfold dispose_all. apply runs_bind, runs_get, runs_bind.
  eapply runs_mono; [by apply dispose_runner_lists_ok|]. intros [] r' Hr'; [apply runs_bind, runs_get, runs_ret|apply runs_ret]; done.
Qed.

(** Disposal returns whatever the registry holds. *)
Lemma dispose_runner_lists_total entries r : ∃ a r', dispose_runner_lists entries r = Some (a, r').
Proof.
  revert r. induction entries as [|[id rs] entries IH]; intros r; cbn [dispose_runner_lists]; [by eexists _, _|].
  destruct (dispose_runners rs) as [[ids|e] rs']; unfold bind, modify, try_bind; [|by eexists _, _].
  destruct (IH (r <| reg_runners := <[id := rs']> (reg_runners r) |>)) as ([] & r' & Hr'); unfold bind; rewrite Hr'; by eexists _, _.
Qed.

Lemma dispose_all_total r : ∃ a r', dispose_all r = Some (a, r').
Proof.
  unfold dispose_all, try_bind, bind, get. destruct (dispose_runner_lists_total (map_to_list (reg_runners r)) r) as ([] & r' & ->);
    by eexists _, _.
Qed.

Lemma try_for_each_registry {A} (l : list A) (body : A → M RunnerRegistry (RuntimeResult unit)) r :
  (∀ x r, reg_inv r → runs (body x) r (λ _, reg_inv)) → reg_inv r → runs (try_for_each l body) r (λ _, reg_inv).
Proof.
  intros Hb. revert r. induction l as [|x l IH]; intros r Hr; cbn [try_for_each]; [by apply runs_ret|].
  apply runs_bind. eapply runs_mono; [by apply Hb|]. intros [[]|e] r' Hr'; [by apply IH|by apply runs_ret].
Qed.

Lemma build_registry_runs runners handlers :
  runs (build_registry runners handlers) RunnerRegistry_default (λ _, reg_inv).
Proof.
  assert (reg_inv RunnerRegistry_default) as H0 by by constructor.
  unfold build_registry. apply runs_bind. eapply runs_mono.
  { apply try_for_each_registry; [|exact H0]. intros x r Hr. eapply runs_mono; [by apply register_runs|]. by intros ? ? [? _]. }
  intros [[]|e] r Hr; [|by apply runs_ret]. apply runs_bind. eapply runs_mono.
  { apply try_for_each_registry; [|exact Hr]. intros x r' Hr'. eapply runs_mono; [by apply register_async_handler_runs|]. by intros ? ? [? _]. }
  intros [[]|e] r1 Hr1; [|by apply runs_ret]. apply runs_bind, runs_get. case_match; [|by apply runs_ret].
  apply runs_bind, runs_modify, runs_ret. by destruct Hr1; constructor.
Qed.

Lemma reg_inv_ok r : reg_inv r → registry_ok r.
Proof. intros []. by split. Qed.

(** ** Reload *)

(** A change of fields that [rt_ok] and [advances] do not mention. *)
Lemma modify_any (f : CoreRuntime → CoreRuntime) s :
  rt_ok (f s) → advances s (f s) → keeps anything (modify f) s.
Proof. intros. by apply safely_modify. Qed.

Ltac plain_modify := apply modify_any; [by destruct_and?; match goal with H : rt_ok _ |- _ => destruct H; split end
                                       |split; cbn; try done; by exists []; constructor].

Lemma mark_generation_phase_any gen phase s : rt_ok s → keeps anything (mark_generation_phase gen phase) s.
Proof. intros Hok. unfold mark_generation_phase. plain_modify. Qed.

Lemma apply_load_plan_any plan s : rt_ok s → keeps anything (apply_load_plan plan) s.
Proof.
  intros Hok. unfold apply_load_plan. apply (keeps_get anything). apply (keeps_bind anything).
  - eapply keeps_any, (tasks_quiet _ (OpRebind _ _)); done.
  - intros ? s1 Hok1 _. plain_modify.
Qed.

Lemma settle_loop_total p generations st : is_Some (settle_loop p generations st).
Proof.
  revert st. induction generations as [|g generations IH]; intros st; cbn [settle_loop]; [by eexists|].
  case_match; [apply IH|]. destruct (dispose_all_total (dg_registry g)) as ([bag|e] & r' & ->); [apply IH|by eexists].
Qed.

Lemma settle_any s : rt_ok s → keeps anything settle_draining_generations s.
Proof.
  intros Hok. unfold settle_draining_generations. apply (keeps_get anything).
  destruct (settle_loop_total (rt_tasks s) (rt_draining_generations s) (MkSettleState [] [] [])) as [settled Hs].
  eapply keeps_expect; [exact Hs|]. apply (keeps_bind anything); [plain_modify|]. intros [] s1 Hok1 _.
  destruct settled; [|by apply (keeps_ret anything)]. apply (keeps_bind anything); [plain_modify|]. intros [] s2 Hok2 _.
  apply (keeps_bind anything); [|intros; by apply (keeps_ret anything)]. apply (keeps_for_each anything); [done|].
  intros. by apply mark_generation_phase_any.
Qed.

Lemma dispose_plugins_any s : rt_ok s → keeps anything dispose_plugins s.
Proof.
  intros Hok. unfold dispose_plugins. apply (keeps_try anything); [apply registry_keeps_any; [done|apply dispose_all_ok, Hok]|].
  intros bag s1 Hok1 _. apply (keeps_get anything). apply (keeps_bind anything); [by apply mark_generation_phase_any|]. intros.
  apply (keeps_bind anything); [by eapply keeps_any, event_quiet|]. intros. by apply (keeps_ret anything).
Qed.

Lemma reload_load_plan_only_any plan s : rt_ok s → keeps anything (reload_load_plan_only plan) s.
Proof.
  intros Hok. unfold reload_load_plan_only. apply (keeps_get anything). case_match; [|by apply (keeps_ret anything)].
  apply (keeps_bind anything); [by eapply keeps_any, event_quiet|]. intros.
  apply (keeps_bind anything); [by apply apply_load_plan_any|]. intros. by apply (keeps_ret anything).
Qed.

Lemma cancel_running_any runner_id invocation_id step s :
  rt_ok s → keeps anything (on_tasks (cancel_running_invocation runner_id invocation_id step)) s.
Proof. intros Hok. by eapply keeps_any, (tasks_quiet _ (OpCancelInvocation runner_id invocation_id step)). Qed.

Lemma cancel_invocation_any runner_id invocation_id s : rt_ok s → keeps anything (cancel_invocation runner_id invocation_id) s.
Proof.
  intros Hok. unfold cancel_invocation. apply (keeps_get anything).
  apply (keeps_try anything); [apply registry_keeps_any; [done|apply cancel_runner_ok, Hok]|]. intros.
  apply (keeps_bind anything); [by apply cancel_running_any|]. intros.
  apply (keeps_bind anything); [by eapply keeps_any, event_quiet|]. intros. by apply (keeps_ret anything).
Qed.

Lemma handle_invocation_any disposition s : rt_ok s → keeps anything (handle_invocation disposition) s.
Proof.
  intros Hok. unfold handle_invocation. case_match.
  - apply (keeps_bind anything); [by eapply keeps_any, event_quiet|]. intros. by apply (keeps_ret anything).
  - apply (keeps_try anything); [apply registry_keeps_any; [done|apply cancel_runner_ok, Hok]|]. intros.
    apply (keeps_get anything). apply (keeps_bind anything); [by apply cancel_running_any|]. intros.
    apply (keeps_bind anything); [by eapply keeps_any, event_quiet|]. intros. by apply (keeps_ret anything).
Qed.

Lemma registry_default_ok : registry_ok RunnerRegistry_default.
Proof. by split. Qed.

Lemma set_registry_any r s : rt_ok s → registry_ok r → keeps anything (modify (λ s, s <| rt_registry := r |>)) s.
Proof. intros Hok Hr. apply modify_any; [by destruct Hok; split|split; cbn; try done; by exists []; constructor]. Qed.

Lemma retire_registry_any gen ids dispositions s : rt_ok s → keeps anything (retire_registry gen ids dispositions) s.
Proof.
  intros Hok. unfold retire_registry. apply (keeps_get anything). cbv zeta.
  apply (keeps_bind anything); [apply set_registry_any; [done|apply registry_default_ok]|]. intros [] s1 Hok1 _. case_match.
  - apply (keeps_bind anything); [plain_modify|]. intros. by apply (keeps_ret anything).
  - destruct (dispose_all_total (rt_registry s)) as (a & r' & Hd). eapply keeps_expect; [by rewrite Hd|]. cbn [fst].
    destruct a; [|by apply (keeps_ret anything)]. apply (keeps_bind anything); [by apply mark_generation_phase_any|].
    intros. by apply (keeps_ret anything).
Qed.

Lemma swap_generation_any plan r s : rt_ok s → registry_ok r → keeps anything (swap_generation plan r) s.
Proof.
  intros Hok Hr. unfold swap_generation. apply (keeps_bind anything); [by eapply keeps_any, event_quiet|]. intros.
  apply (keeps_bind anything); [by apply apply_load_plan_any|]. intros.
  apply (keeps_bind anything); [by apply set_registry_any|]. intros.
  apply (keeps_bind anything); [unfold set_active_generation_states; plain_modify|]. intros.
  apply (keeps_try anything); [by apply settle_any|]. intros. by apply (keeps_ret anything).
Qed.

Lemma reload_any plan runners handlers s : rt_ok s → keeps anything (reload_with_async_handlers plan runners handlers) s.
Proof.
  intros Hok. unfold reload_with_async_handlers. apply (keeps_get anything). cbv zeta.
  destruct (letr? _ := _ in _) as [decision|e]; [|by apply (keeps_ret anything)].
  destruct (build_registry_runs runners handlers) as (a & r & Hb & Hr). eapply keeps_expect; [exact Hb|].
  destruct a; [|by apply (keeps_ret anything)].
  apply (keeps_bind anything); [plain_modify|]. intros [] s1 Hok1 _.
  apply (keeps_try anything); [apply (keeps_try_for_each anything); [done|]; intros; by apply handle_invocation_any|].
  intros [] s2 Hok2 _. apply (keeps_try anything); [by apply retire_registry_any|]. intros [] s3 Hok3 _.
  apply (keeps_try anything); [apply swap_generation_any; [done|by apply reg_inv_ok]|]. intros. by apply (keeps_ret anything).
Qed.
(** ** Resources *)

Definition ids_left s : Prop := (id_next (rm_id_source (rt_resources s)) < u64_max)%N.

Lemma resources_any {A} (c : M ResourceManager A) op s :
  rt_ok s → ids_left s → run_rm_op op = ResourceTheorems.discard c → keeps anything (on_resources c) s.
Proof. intros. eapply safely_mono; [by eapply on_resources_safely|done]. Qed.

Lemma guarded_any {A} guard (c : M ResourceManager (RuntimeResult A)) s :
  rt_ok s → keeps anything (on_resources c) s → keeps anything (guarded_resources guard c) s.
Proof. intros. apply (keeps_get anything). case_match; [done|by apply (keeps_ret anything)]. Qed.

(** An operation of the manager whose result is wrapped in [Ok]. *)
Lemma resources_wrapped_any {A B} (c : M ResourceManager A) (f : A → B) op s :
  rt_ok s → ids_left s → run_rm_op op = ResourceTheorems.discard c →
  keeps anything (on_resources (let! a := c in ret (f a))) s.
Proof.
  intros Hok Hids Hop. destruct (on_resources_safely c op s Hok Hids Hop) as (a & s' & Hrun & Hok' & Hadv & _).
  exists (f a), s'. split; [|done]. unfold on_resources, bind in *. by destruct (c (rt_resources s)) as [[? ?]|]; simplify_eq.
Qed.

(** Synchronising descriptors draws no id. *)
Lemma sync_descriptor_ids descriptor m : leaves rm_id_source (sync_resource_descriptor descriptor) m.
Proof. unfold sync_resource_descriptor. leaves_go. Qed.
Hint Resolve sync_descriptor_ids : frame.

Lemma sync_descriptors_ids descriptors m : leaves rm_id_source (sync_descriptors descriptors) m.
Proof. revert m. induction descriptors as [|d descriptors IH]; intros m; cbn [sync_descriptors]; leaves_go. Qed.

Lemma sync_plan_receipts_any receipts s : rt_ok s → ids_left s → keeps anything (sync_plan_receipts receipts) s.
Proof.
  revert s. induction receipts as [|r receipts IH]; intros s Hok Hids; cbn [sync_plan_receipts]; [by apply (keeps_ret anything)|].
  eapply (safely_try _ _ _ (λ _ s', ids_left s')).
  - apply safely_get. case_match; [|by apply safely_ret].
    eapply safely_mono; [by apply (on_resources_safely _ (OpSyncReceipt r))|]. intros res s' _ _ (m' & Hm & ->).
    unfold ids_left in *. cbn. by rewrite (sync_descriptors_ids _ _ _ _ Hm).
  - intros synced s' Hok' _ Hids'. eapply safely_mono; [|done].
    apply (keeps_try anything); [by apply IH|]. intros. by apply (keeps_ret anything).
  - done.
Qed.

(** ** Every method as an operation *)

Inductive RtOp : Type :=
  | RtBeginDrain
  | RtAbort (reason : string)
  | RtConfigureEventCapacity (capacity : N)
  | RtConfigureObservability (profile : ObservabilityProfile)
  | RtConfigureHistory (retention : option TaskHistoryRetention)
  | RtHeartbeat (runner_id executor_id : string)
  | RtCapability (runner_id : string) (protocol_ids : list string) (capacity : N)
  | RtCancelRunner (runner_id invocation_id : string)
  | RtSubmitBatch (batch : TaskBatch)
  | RtSubmitTask (task : Task)
  | RtSubmitTargeted (task_id binding_id : string) (payload : Value)
  | RtCancelTask (task_id : string)
  | RtExpireTask (task_id reason : string)
  | RtDeadLetterTask (task_id reason : string)
  | RtWakeTask (task_id : string)
  | RtTickOnce
  | RtRunUntilIdle (max_ticks : N)
  | RtClaimDispatches (D : Type) (schedule : RunnerDescriptor → RunnerLoad → N → N → D → option (RuntimeResult ScheduleDecision * D))
      (target_step : N) (d : D) (lease_expires_at : option N)
  | RtCompleteDispatch (completion : RunnerCompletion)
  | RtDeferDispatch (dispatch : RunnerDispatch)
  | RtCancelInvocation (runner_id invocation_id : string)
  | RtReloadPlanOnly (plan : RuntimeLoadPlan)
  | RtReload (plan : RuntimeLoadPlan) (runners : list Runner) (handlers : list AsyncHandler)
  | RtDisposePlugins
  | RtSettle
  | RtOpenStream (stream_id schema provider_id endpoint : string)
  | RtCloseStream (ref_id : string)
  | RtRegisterDescriptor (descriptor : ResourceRef)
  | RtSyncReceipts (receipts : list PlanReceipt)
  | RtLockResource (ref_id owner : string) (expires_at_step : option N)
  | RtReleaseWriteLease (lease : ExclusiveWriteLease)
  | RtCreateCell (cell_id resource_kind owner_plugin_id schema reload_policy : string)
  | RtAcquireLease (cell_id task_id executor_id mode : string) (expires_at_step : option N)
  | RtReleaseLease (lease : ResourceLease)
  | RtReclaimLeases
  | RtRegisterOccupancy (handle : SurfaceOccupancyHandle)
  | RtReleaseOccupancy (handle_id : string).

Definition forget {A} (c : M CoreRuntime A) : M CoreRuntime unit := c ;;! ret tt.

Definition run_rt (op : RtOp) : M CoreRuntime unit :=
  match op with
  | RtBeginDrain => forget begin_drain
  | RtAbort reason => forget (abort reason)
  | RtConfigureEventCapacity capacity => forget (configure_event_capacity capacity)
  | RtConfigureObservability profile => forget (configure_observability profile)
  | RtConfigureHistory retention => forget (configure_task_history_retention retention)
  | RtHeartbeat runner_id executor_id => forget (runner_heartbeat runner_id executor_id)
  | RtCapability runner_id protocol_ids capacity => forget (runner_capability runner_id protocol_ids capacity)
  | RtCancelRunner runner_id invocation_id => forget (cancel_runner_invocation runner_id invocation_id)
  | RtSubmitBatch batch => forget (submit_batch batch)
  | RtSubmitTask task => forget (submit_task task)
  | RtSubmitTargeted task_id binding_id payload => forget (submit_targeted_task task_id binding_id payload)
  | RtCancelTask task_id => forget (cancel_task_by_id task_id)
  | RtExpireTask task_id reason => forget (expire_task task_id reason)
  | RtDeadLetterTask task_id reason => forget (dead_letter_task task_id reason)
  | RtWakeTask task_id => forget (wake_task_by_id task_id)
  | RtTickOnce => forget tick_once
  | RtRunUntilIdle max_ticks => forget (run_until_idle max_ticks)
  | RtClaimDispatches _ schedule target_step d lease_expires_at =>
      forget (claim_ready_dispatches_at_step schedule target_step d lease_expires_at)
  | RtCompleteDispatch completion => forget (complete_runner_dispatch completion)
  | RtDeferDispatch dispatch => forget (defer_runner_dispatch dispatch)
  | RtCancelInvocation runner_id invocation_id => forget (cancel_invocation runner_id invocation_id)
  | RtReloadPlanOnly plan => forget (reload_load_plan_only plan)
  | RtReload plan runners handlers => forget (reload_with_async_handlers plan runners handlers)
  | RtDisposePlugins => forget dispose_plugins
  | RtSettle => forget settle_draining_generations
  | RtOpenStream stream_id schema provider_id endpoint => forget (open_stream stream_id schema provider_id endpoint)
  | RtCloseStream ref_id => forget (close_stream ref_id)
  | RtRegisterDescriptor descriptor => forget (rt_register_resource_descriptor descriptor)
  | RtSyncReceipts receipts => forget (sync_plan_receipts receipts)
  | RtLockResource ref_id owner expires => forget (lock_resource ref_id owner expires)
  | RtReleaseWriteLease lease => forget (rt_release_write_lease lease)
  | RtCreateCell cell_id kind owner schema policy => forget (rt_create_resource_cell cell_id kind owner schema policy)
  | RtAcquireLease cell_id task_id executor_id mode expires =>
      forget (rt_acquire_resource_lease cell_id task_id executor_id mode expires)
  | RtReleaseLease lease => forget (rt_release_resource_lease lease)
  | RtReclaimLeases => forget rt_reclaim_expired_resource_leases
  | RtRegisterOccupancy handle => forget (rt_register_surface_occupancy handle)
  | RtReleaseOccupancy handle_id => forget (rt_release_surface_occupancy handle_id)
  end.

(** What a caller must respect: the payloads handed in serialize, an expiry is
    a [u64], and so do the payloads runners return when the runtime runs them
    itself. *)
Definition rt_pre (op : RtOp) : Prop :=
  match op with
  | RtSubmitBatch batch => Forall serializes (tb_tasks batch)
  | RtSubmitTask task => serializes task
  | RtTickOnce | RtRunUntilIdle _ => runners_serialize
  | RtClaimDispatches _ schedule _ _ expires => schedule_returns schedule ∧ ∀ e, expires = Some e → (e ≤ u64_max)%N
  | RtCompleteDispatch completion => ∀ result, rcp_result completion = Ok result → completion_serializes result
  | _ => True
  end.

(** The room an operation needs in the 64-bit counters: one number for every
    task it may enqueue, one version for every commit, one id for a resource,
    and the steps it takes. *)
Definition rt_room (op : RtOp) s : Prop :=
  match op with
  | RtSubmitBatch batch => room (len (tb_tasks batch)) s
  | RtSubmitTask _ | RtSubmitTargeted _ _ _ => room 1 s
  | RtTickOnce => ∃ K, runners_bounded K ∧ room (pass_cost K s) s ∧
      (rt_current_step s + 1 + TASK_LEASE_TTL_STEPS ≤ u64_max)%N
  | RtRunUntilIdle n => ∃ K, runners_bounded K ∧ room (n * pass_cost K s) s ∧
      (rt_current_step s + n + TASK_LEASE_TTL_STEPS ≤ u64_max)%N
  | RtClaimDispatches _ _ _ _ _ => room (total claim_bound (reg_descriptor_snapshot (rt_registry s))) s
  | RtCompleteDispatch completion => room (handed_in completion) s
  | RtOpenStream _ _ _ _ | RtCloseStream _ | RtRegisterDescriptor _ | RtSyncReceipts _ | RtLockResource _ _ _
  | RtReleaseWriteLease _ | RtCreateCell _ _ _ _ _ | RtAcquireLease _ _ _ _ _ | RtReleaseLease _ | RtReclaimLeases
  | RtRegisterOccupancy _ | RtReleaseOccupancy _ => ids_left s
  | _ => True
  end.

Lemma costs_any n R {A} (c : M CoreRuntime A) s : costs n R c s → room n s → keeps anything c s.
Proof. intros Hc Hroom. by eapply safely_mono; [apply Hc|]. Qed.

Lemma forget_any {A} (c : M CoreRuntime A) s : keeps anything c s → keeps anything (forget c) s.
Proof. intros Hc. apply (keeps_bind anything); [done|]. intros. by apply (keeps_ret anything). Qed.

Lemma run_rt_any op s : rt_ok s → rt_pre op → rt_room op s → keeps anything (run_rt op) s.
Proof.
  intros Hok Hpre Hroom. destruct op; cbn [run_rt rt_pre rt_room] in *; apply forget_any.
  - by apply begin_drain_any.
  - by apply abort_any.
  - by apply configure_event_capacity_any.
  - by apply configure_observability_any.
  - by apply configure_history_any.
  - apply (keeps_get anything). apply registry_keeps_any; [done|apply heartbeat_ok, Hok].
  - apply registry_keeps_any; [done|apply declare_capability_ok, Hok].
  - apply registry_keeps_any; [done|apply cancel_runner_ok, Hok].
  - by eapply costs_any; [apply submit_batch_framed|].
  - by eapply costs_any; [apply submit_task_framed|].
  - by eapply costs_any; [apply submit_targeted_task_framed|].
  - by eapply keeps_any, cancel_task_by_id_quiet.
  - by eapply keeps_any, expire_task_quiet.
  - by eapply keeps_any, dead_letter_task_quiet.
  - apply (keeps_get anything). by eapply keeps_any, wake_quiet.
  - destruct Hroom as (K & HK & Hroom & Hstep). by eapply costs_any; [apply (tick_once_costs K)|].
  - destruct Hroom as (K & HK & Hroom & Hstep). apply (run_ticks_costs K); [done|done|done|by rewrite N2Nat.id|by rewrite N2Nat.id].
  - destruct Hpre. by apply claim_ready_dispatches_at_step_any.
  - by eapply costs_any; [apply complete_runner_dispatch_frame|].
  - by apply defer_runner_dispatch_any.
  - by apply cancel_invocation_any.
  - by apply reload_load_plan_only_any.
  - by apply reload_any.
  - by apply dispose_plugins_any.
  - by apply settle_any.
  - apply guarded_any; [done|]. by apply (resources_wrapped_any _ _ (OpCreateStream stream_id schema provider_id endpoint)).
  - apply (keeps_try anything); [by apply (resources_any _ (OpCloseStream ref_id))|]. intros. by apply (keeps_ret anything).
  - apply guarded_any; [done|]. by apply (resources_any _ (OpRegister descriptor)).
  - by apply sync_plan_receipts_any.
  - by apply (resources_any _ (OpAcquireWrite ref_id owner expires_at_step)).
  - apply (keeps_get anything). by apply (resources_any _ (OpReleaseWrite lease (Some (rt_current_step s)))).
  - apply guarded_any; [done|].
    by apply (resources_wrapped_any _ _ (OpCreateCell cell_id resource_kind owner_plugin_id schema reload_policy)).
  - by apply (resources_any _ (OpAcquire cell_id task_id executor_id mode expires_at_step)).
  - apply (keeps_get anything). by apply (resources_any _ (OpRelease lease (Some (rt_current_step s)))).
  - apply (keeps_get anything). by apply (resources_any _ (ResourceTheorems.OpReclaim (rt_current_step s))).
  - apply guarded_any; [done|]. by apply (resources_any _ (OpRegisterOccupancy handle)).
  - by apply (resources_any _ (OpReleaseOccupancy handle_id)).
Qed.

(** ** Reachable runtimes *)

Inductive rt_reachable : CoreRuntime → Prop :=
  | rt_reachable_boot plan runners handlers s :
      boot_with_async_handlers plan runners handlers = Some (Ok s) → rt_reachable s
  | rt_reachable_step s op s' :
      rt_reachable s → rt_pre op → rt_room op s → run_rt op s = Some (tt, s') → rt_reachable s'.

Lemma boot_ok plan runners handlers s : boot_with_async_handlers plan runners handlers = Some (Ok s) → rt_ok s.
Proof.
  unfold boot_with_async_handlers. case_match; [|done].
  destruct (build_registry_runs runners handlers) as (res & r & -> & Hr). destruct res as [[]|e]; [|done].
  destruct (EventLog_with_profile _) as [events|] eqn:He; [|done]. destruct (TraceLog_with_profile _) as [traces|] eqn:Ht; [|done].
  intros [= <-]. split; cbn; try done; [constructor|constructor|by apply reg_inv_ok| |right; by eapply trace_history_new].
  right. apply fmap_Some in He as (log & Hlog & ->). by eapply log_history_new.
Qed.

Lemma rt_reachable_ok s : rt_reachable s → rt_ok s.
Proof.
  induction 1 as [plan runners handlers s Hb|s op s' _ IH Hpre Hroom Hrun]; [by eapply boot_ok|].
  by apply (runs_det _ _ _ _ _ (run_rt_any op s IH Hpre Hroom) Hrun).
Qed.
End Ops.
