(* ===== verification/RuntimeTheorems.v ===== *)
(** * What the core runtime guarantees

    The theorems on runs of the whole runtime: operations return and refine the
    operations of the components, an aborted runtime stays as it is, a drained
    one has nothing left, a finished task wakes those who wait for it, a late
    result changes nothing and cancellation follows the awaits. *)

From S2P Require Import Prelude Contracts RunnerContracts BatchContracts PluginContracts Ids Logs StateStore ResourceManager ResourceOccupancy ResourceTheorems TaskRecords TaskIndexes IndexFacts TaskPool TaskClaiming PoolInvariant PoolHistory PoolSteps PoolKernelSteps PoolForced ClaimFacts PoolOps TaskOccupancy Registry RegistryTheorems RuntimeState RuntimeTasks BatchBuild RuntimeRouting RuntimeDispatch RuntimeReload RuntimeResources RuntimeInvariant RuntimeRuns RuntimePasses RuntimeOps.

Section Theorems.
Context `{RA : RunnerApi} `{ST : !SerdeTypes}.
Implicit Types s : CoreRuntime.

(** ** Every operation returns *)

(** C2: every public method of the runtime returns, and what it does is a run of
    its components.  From a runtime that operations reached from a boot, with
    room in the 64-bit counters for what the method may draw and no more tasks
    asked for at once than one allocation can hold the ids of, the method does
    not panic, and it changes the task pool and the resource manager by
    operations of theirs only, the state store by commits only, never steps
    back in time and never out of draining or aborted. *)
Theorem runtime_refines_components s op :
  rt_reachable s → rt_pre op → rt_room op s →
  ∃ s', run_rt op s = Some (tt, s') ∧ rt_reachable s' ∧
    rtc pool_step (rt_tasks s) (rt_tasks s') ∧ rtc manager_step (rt_resources s) (rt_resources s') ∧
    (∃ deltas, store_run (rt_states s) deltas (rt_states s')) ∧
    (rt_current_step s ≤ rt_current_step s')%N ∧
    stop_rank (rt_stop_state s) ≤ stop_rank (rt_stop_state s').
Proof.
  intros Hs Hpre Hroom. destruct (run_rt_any op s (rt_reachable_ok _ Hs) Hpre Hroom) as ([] & s' & Hrun & _ & [] & _).
  exists s'. split_and!; try done. by eapply rt_reachable_step.
Qed.

(** ** Stopping *)

Lemma record_step_terminal r r' : is_terminal_status (r_status r) = true → rtc record_step r r' → r' = r.
Proof. intros Ht Hs. destruct Hs as [|a b c [_ Hl _ _ _]]; [done|]. by destruct (r_status a). Qed.

(** C14: an aborted runtime is final.  Every task it still knows has ended; it
    accepts no task, does not tick and does not drain, and each of these calls
    leaves it as it is; and whatever method is called, it stays aborted, no
    task enters the table and no record changes. *)
Theorem aborted_is_final s :
  rt_reachable s → rt_stop_state s = StopAborted →
  (∀ id r, p_tasks (rt_tasks s) !! id = Some r → is_terminal_status (r_status r) = true) ∧
  (∀ batch, submit_batch batch s = Some (runtime_failure ERR_RUNTIME_ABORTED "runtime.lifecycle" "runtime.submit", s)) ∧
  tick_once s = Some (runtime_failure ERR_RUNTIME_ABORTED "runtime.lifecycle" "runtime.execute.aborted", s) ∧
  begin_drain s = Some (runtime_failure ERR_RUNTIME_ABORTED "runtime.lifecycle" "runtime.drain.aborted", s) ∧
  (∀ reason, abort reason s = Some (Ok 0%N, s)) ∧
  (∀ op s', rt_pre op → rt_room op s → run_rt op s = Some (tt, s') →
    rt_stop_state s' = StopAborted ∧ p_tasks (rt_tasks s') ⊆ p_tasks (rt_tasks s)).
Proof.
  intros Hs Hst. pose proof (rt_reachable_ok _ Hs) as Hok. pose proof (ok_stop _ Hok Hst) as Hall. split_and!.
  - exact Hall.
  - intros batch. unfold submit_batch, ensure_accepting_external_tasks, bind, get. by rewrite Hst.
  - unfold tick_once, ensure_not_aborted, bind, get. by rewrite decide_True.
  - unfold begin_drain, bind, get. by rewrite Hst.
  - intros reason. unfold abort, bind, get. by rewrite decide_True.
  - intros op s' Hpre Hroom Hrun.
    destruct (runs_det _ _ _ _ _ (run_rt_any op s Hok Hpre Hroom) Hrun) as (_ & [_ _ _ _ Hrank Hprog] & _). split.
    + rewrite Hst in Hrank. destruct (rt_stop_state s'); cbn in Hrank; lia || done.
    + apply map_subseteq_spec. intros id r' Hr'. destruct (Hprog Hst) as [Hf _]. destruct (Hf _ _ Hr') as (r & Hr & Hst').
      by rewrite (record_step_terminal r r' (Hall _ _ Hr) Hst').
Qed.

Lemma count_entries_zero tasks status :
  count_entries status_entry tasks status = 0%N ↔ ∀ id r, tasks !! id = Some r → r_status r ≠ status.
Proof.
  unfold count_entries. set (m := filter _ tasks). assert (N.of_nat (size m) = 0%N ↔ size m = 0) as -> by lia.
  rewrite map_size_empty_iff, map_empty. unfold m. split.
  - intros H id r Hr E. specialize (H id). apply map_lookup_filter_None in H as [H|H]; [congruence|].
    apply (H r Hr). unfold status_entry. cbn. by rewrite E.
  - intros H id. apply map_lookup_filter_None. right. intros r Hr [= E]. by eapply H.
Qed.

(** a runtime reports that it is drained exactly when it is draining and no
    task it knows can still run: the counters it looks at are exact. *)
Theorem is_drained_exact s :
  rt_reachable s →
  is_drained s = true ↔
  rt_stop_state s = StopDraining ∧
  ∀ id r, p_tasks (rt_tasks s) !! id = Some r → is_terminal_status (r_status r) = true.
Proof.
  intros Hs. pose proof (reachable_inv _ (ok_tasks _ (rt_reachable_ok _ Hs))) as [Hrec _ Hst _ _ _ _ _ _ _].
  unfold is_drained. cbv zeta. rewrite !andb_true_iff, !bool_decide_eq_true.
  pose proof (Hst Ready ltac:(done)) as H1. pose proof (Hst Running ltac:(done)) as H2.
  pose proof (Hst Waiting ltac:(done)) as H3. pose proof (Hst Blocked ltac:(done)) as H4. cbn in H1, H2, H3, H4.
  rewrite H1, H2, H3, H4, !count_entries_zero. split.
  - intros ((((Hd & Hr) & Hu) & Hw) & Hb). split; [done|]. intros id r Hl.
    destruct (Hrec _ _ Hl) as (_ & Hc & _).
    specialize (Hr _ _ Hl). specialize (Hu _ _ Hl). specialize (Hw _ _ Hl). specialize (Hb _ _ Hl). by destruct (r_status r).
  - intros [Hd Hall]. split_and!; try done; intros id r Hl E; specialize (Hall _ _ Hl); by rewrite E in Hall.
Qed.

(** ** Waking those who wait *)

(** [parent] waits for [child] in the tables of the pool. *)
Definition waits_for (p : TaskPool) (parent child : string) : Prop :=
  ∃ w, wait_mem (p_waits_by_child p) child w ∧ aw_parent_task_id w = parent.

Lemma remove_waits_child_none q p child :
  p_waits_by_child p !! child = None → p_waits_by_child (remove_waits_for_parent q p) !! child = None.
Proof.
  intros Hn. cbn. apply (foldl_retain_ind (λ m, m !! child = None)); [done|]. intros m key Hm.
  rewrite retain_waits_lookup. case_decide as E; [subst key; by rewrite Hm|done].
Qed.

Definition woken_record (step : N) (parents : list string) (id : string) (r : TaskRecord) : TaskRecord :=
  if decide (id ∈ parents ∧ is_suspended (Some (r_status r)) = true) then wake_record step r else r.

Lemma wake_waits_runs child waits n s :
  pool_inv (rt_tasks s) →
  runs (wake_waits child waits n) s (λ a s', is_ok a = true ∧
    (p_waits_by_child (rt_tasks s) !! child = None → p_waits_by_child (rt_tasks s') !! child = None) ∧
    ∀ id, p_tasks (rt_tasks s') !! id =
      woken_record (rt_current_step s) (aw_parent_task_id <$> waits) id <$> p_tasks (rt_tasks s) !! id).
Proof.
  revert n s. induction waits as [|w waits IH]; intros n s Hinv; cbn [wake_waits].
  { apply runs_ret. split_and!; [done|done|]. intros id. by destruct (p_tasks _ !! id). }
  apply runs_bind, runs_get. cbv zeta. set (q := aw_parent_task_id w). unfold task_status, pool_get.
  pose proof (wake_spec (rt_tasks s) q (rt_current_step s) Hinv) as Hw. unfold pool_record in Hw.
  destruct (p_tasks (rt_tasks s) !! q) as [r|] eqn:Hq; cbn [fmap option_fmap option_map is_suspended].
  - destruct (is_suspended (Some (r_status r))) eqn:Hsus; cbn [is_suspended] in Hsus.
    + assert (∃ st, wakeable q r = Ok st) as [st Hst].
      { unfold wakeable. by destruct (r_status r); try done; eexists. }
      cbn in Hw. rewrite Hst in Hw. destruct Hw as (r' & [= <-] & Hrun & Hinv' & _).
      rewrite Hsus. unfold try_bind. apply runs_bind. eapply runs_eq; [unfold on_tasks; by rewrite Hrun|].
      apply runs_bind. eapply runs_eq; [done|].
      set (s1 := s <| rt_tasks := _ |>). eapply runs_mono; [apply (IH _ (s1 <| rt_events := _ |>)); exact Hinv'|].
      intros a s' (Hok & Hnone & Hall). split_and!; [done| |].
      * intros Hn. apply Hnone. by apply remove_waits_child_none.
      * intros id. rewrite Hall. cbn. destruct (decide (id = q)) as [->|Hne].
        -- rewrite lookup_insert_eq, Hq. cbn. f_equal. unfold woken_record. cbn.
           rewrite decide_False by naive_solver. rewrite decide_True; [done|]. split; [apply list_elem_of_here|].
           by destruct (r_status r).
        -- rewrite lookup_insert_ne by done. destruct (p_tasks (rt_tasks s) !! id); [|done]. cbn. f_equal.
           unfold woken_record. apply decide_ext. cbn. rewrite elem_of_cons. naive_solver.
    + rewrite Hsus. eapply runs_mono; [by apply IH|]. intros a s' (Hok & Hnone & Hall). split_and!; [done|done|].
      intros id. rewrite Hall. destruct (p_tasks (rt_tasks s) !! id) as [r0|] eqn:H0; [|done]. cbn. f_equal.
      unfold woken_record. apply decide_ext. cbn. rewrite elem_of_cons.
      assert (id = q → is_suspended (Some (r_status r0)) ≠ true) by (intros ->; rewrite Hq in H0; simplify_eq; cbn [is_suspended]; by rewrite Hsus).
      naive_solver.
  - eapply runs_mono; [by apply IH|]. intros a s' (Hok & Hnone & Hall). split_and!; [done|done|].
    intros id. rewrite Hall. destruct (p_tasks (rt_tasks s) !! id) as [r0|] eqn:H0; [|done]. cbn. f_equal.
    assert (id ≠ q) by congruence. unfold woken_record. apply decide_ext. cbn. rewrite elem_of_cons. fold q. tauto.
Qed.

Lemma waits_for_waiting p q child :
  pool_inv p → waits_for p q child → ∃ r, p_tasks p !! q = Some r ∧ r_status r = Waiting.
Proof.
  intros Hinv (w & Hw & <-). destruct (pi_waits _ _ Hinv) as [Hc _ _ _ Hwait _].
  destruct (Hc _ _ Hw) as [_ (l & Hl & _)]. destruct (Hwait (aw_parent_task_id w)) as [H|H]; [by eexists|set_solver|done].
Qed.

Lemma wake_all_runs child s :
  pool_inv (rt_tasks s) →
  runs (wake_tasks_waiting_on child) s (λ a s', is_ok a = true ∧ p_waits_by_child (rt_tasks s') !! child = None ∧
    (∀ q r, waits_for (rt_tasks s) q child → p_tasks (rt_tasks s) !! q = Some r →
      p_tasks (rt_tasks s') !! q = Some (wake_record (rt_current_step s) r)) ∧
    live_ids (rt_tasks s') ⊆ live_ids (rt_tasks s)).
Proof.
  intros Hinv. unfold wake_tasks_waiting_on. apply runs_bind.
  destruct (take_waits_for_child_spec (rt_tasks s) child Hinv) as (p' & Hrun & Hinv' & Hprog & Hnone & Hev).
  eapply runs_eq; [unfold on_tasks; by rewrite Hrun|]. set (s1 := s <| rt_tasks := p' |>).
  eapply runs_mono; [by apply (wake_waits_runs child _ 0 s1)|]. intros a s' (Hok & Hn & Hall). split_and!; [done|by apply Hn| |].
  - intros q r Hq Hr. destruct (waits_for_waiting _ _ _ Hinv Hq) as (r0 & Hr0 & Hw). rewrite Hr in Hr0. injection Hr0 as <-.
    rewrite Hall. cbn. assert (p_tasks p' !! q = Some r) as ->.
    { apply (ev_live _ _ Hev); [done|by rewrite Hw]. }
    cbn. f_equal. unfold woken_record. rewrite decide_True; [done|]. split; [|by rewrite Hw].
    destruct Hq as (w & (l & Hl & Hwl) & <-). rewrite Hl. cbn. by apply list_elem_of_fmap_2.
  - intros id. rewrite !elem_of_live_ids. intros (r' & Hr' & Hl). rewrite Hall in Hr'.
    apply fmap_Some in Hr' as (r & Hr & ->). apply elem_of_live_ids, (live_ids_progress _ _ Hprog), elem_of_live_ids.
    exists r. split; [done|]. unfold woken_record in Hl. case_decide as Hd; [|done]. destruct Hd as [_ Hd].
    by destruct (r_status r).
Qed.

Lemma active_lease_action p id lease step action action' :
  ensure_active_lease p id lease step action = Ok tt → ensure_active_lease p id lease step action' = Ok tt.
Proof.
  unfold ensure_active_lease, pool_record. destruct (p_tasks p !! id) as [r|]; [|done]. cbn. unfold validate_record_lease.
  cbv zeta. by case_match.
Qed.

(** A transition of a leased task that ends it. *)
Definition ends (op : LeasedOp) : bool := match op with LComplete _ | LFail _ | LCancel => true | _ => false end.

Lemma finish_task_runs op lease s name error :
  pool_inv (rt_tasks s) → ends op = true →
  ensure_active_lease (rt_tasks s) (l_task_id lease) lease (rt_current_step s) "route" = Ok tt →
  runs (finish_task (run_leased op lease (rt_current_step s)) (l_task_id lease) name error) s (λ a s',
    a = Ok 1%N ∧ l_task_id lease ∉ live_ids (rt_tasks s') ∧ p_waits_by_child (rt_tasks s') !! l_task_id lease = None ∧
    ∀ q r, waits_for (rt_tasks s) q (l_task_id lease) → p_tasks (rt_tasks s) !! q = Some r →
      p_tasks (rt_tasks s') !! q = Some (wake_record (rt_current_step s) r)).
Proof.
  intros Hinv Hop Hact. set (step := rt_current_step s) in *. set (id := l_task_id lease) in *.
  pose proof (run_leased_spec op (rt_tasks s) lease step Hinv) as Hspec. unfold leased_spec in Hspec. fold id in Hspec.
  rewrite (active_lease_action _ _ _ _ _ (leased_action op) Hact) in Hspec.
  destruct Hspec as (r & p' & Hr & Hlease & Hrun & Hinv' & _ & [Hev _]).
  assert (is_terminal_status (r_status (leased_record op step r)) = true) as Hterm by (by destruct op).
  assert (id ∉ live_ids p') as Hdead.
  { rewrite elem_of_live_ids. intros (r' & Hr' & Hl).
    pose proof (lookup_weaken _ _ _ _ Hr' (ev_tasks _ _ Hev)) as Hw. cbn in Hw. rewrite lookup_insert_eq in Hw. injection Hw as Hw. by rewrite <-Hw, Hterm in Hl. }
  unfold finish_task, try_bind. apply runs_bind. eapply runs_eq; [unfold on_tasks; by rewrite Hrun|].
  apply runs_bind. eapply runs_eq; [done|]. set (s1 := s <| rt_tasks := p' |> <| rt_events := _ |>).
  apply runs_bind. eapply runs_mono; [by apply (wake_all_runs id s1)|]. intros [n|e] s' (Hok & Hnone & Hwoken & Hsub); [|done].
  apply runs_ret. split_and!; [done| |done|].
  - intros Hin. by apply Hdead, Hsub.
  - intros q rq Hq Hrq. destruct (waits_for_waiting _ _ _ Hinv Hq) as (r0 & Hr0 & Hw). rewrite Hrq in Hr0. injection Hr0 as <-.
    assert (q ≠ id) as Hne.
    { intros ->. destruct (pi_records _ _ Hinv _ _ Hrq) as (_ & _ & Hl). rewrite Hr in Hrq. simplify_eq. rewrite Hw, Hlease in Hl. by destruct Hl. }
    apply Hwoken.
    + destruct Hq as (w & Hwm & <-). exists w. split; [|done]. cbn. by rewrite (ev_by_child _ _ Hev).
    + apply (ev_live _ _ Hev); cbn; [by rewrite lookup_insert_ne|by rewrite Hw].
Qed.

(** C10: a task that ends wakes everyone who waits for it.  When a runner reports,
    under an active lease, that a task is completed, failed or cancelled, the
    call returns, the task has ended, nobody waits for it any more, and every
    task that did is ready again at the current step. *)
Theorem finished_task_wakes_waiters s runner lease status task_await output :
  rt_reachable s → status ∈ [StatusCompleted; StatusFailed; StatusCancelled] →
  ensure_active_lease (rt_tasks s) (l_task_id lease) lease (rt_current_step s) "route" = Ok tt →
  ∃ s', commit_result_status runner lease (l_task_id lease) status task_await output s = Some (Ok 1%N, s') ∧
    (∀ r, p_tasks (rt_tasks s') !! l_task_id lease = Some r → is_terminal_status (r_status r) = true) ∧
    (∀ q, ¬ waits_for (rt_tasks s') q (l_task_id lease)) ∧
    ∀ q r, waits_for (rt_tasks s) q (l_task_id lease) → p_tasks (rt_tasks s) !! q = Some r →
      ∃ r', p_tasks (rt_tasks s') !! q = Some r' ∧ r_status r' = Ready ∧ r_ready_since_step r' = rt_current_step s.
Proof.
  intros Hs Hst Hact. pose proof (reachable_inv _ (ok_tasks _ (rt_reachable_ok _ Hs))) as Hinv.
  assert (∃ op name error, ends op = true ∧ commit_result_status runner lease (l_task_id lease) status task_await output s =
    finish_task (run_leased op lease (rt_current_step s)) (l_task_id lease) name error s) as (op & name & error & Hop & Heq).
  { unfold commit_result_status, bind, get. cbv zeta. rewrite !elem_of_cons, elem_of_nil in Hst.
    destruct Hst as [->|[->|[->|[]]]]; [by exists (LComplete output), "task.completed", None| |by exists LCancel, "task.cancelled", None].
    by eexists (LFail _), "task.failed", (Some _). }
  destruct (finish_task_runs op lease s name error Hinv Hop Hact) as (a & s' & Hrun & -> & Hdead & Hnone & Hw).
  exists s'. split_and!; [by rewrite Heq| | |].
  - intros r Hr. destruct (is_terminal_status (r_status r)) eqn:E; [done|]. exfalso. apply Hdead, elem_of_live_ids. eauto.
  - intros q (w & (l & Hl & _) & _). by rewrite Hnone in Hl.
  - intros q r Hq Hr. exists (wake_record (rt_current_step s) r). split_and!; [by apply Hw|done|done].
Qed.

(** ** Late results *)

(** The runtime with other statistics of the pool and another event log. *)
Definition reported s (stats : TaskPoolStatistics) (events : EventLog) : CoreRuntime :=
  s <| rt_tasks ::= λ p, p <| p_statistics := stats |> |> <| rt_events := events |>.

Lemma reported_same s : reported s (p_statistics (rt_tasks s)) (rt_events s) = s.
Proof. by destruct s as [? ? ? ? ? ? ? [] ? ? ? ? ? ? ?]. Qed.

Lemma stale_lease_conflict p r lease step action :
  p_tasks p !! l_task_id lease = Some r → ensure_active_lease p (l_task_id lease) lease step action ≠ Ok tt →
  ∃ e, ensure_active_lease p (l_task_id lease) lease step action = Err e ∧ e_code e = ERR_TASK_CLAIM_CONFLICT ∧
    e_route e = "task." +:+ action +:+ "." +:+ l_task_id lease.
Proof.
  intros Hr. unfold ensure_active_lease, pool_record. rewrite Hr. cbn. unfold validate_record_lease. cbv zeta.
  case_match; [done|]. intros _. eexists. split; [done|]. repeat case_match; done.
Qed.

Lemma fail_dispatch_stale lease failure s :
  pool_inv (rt_tasks s) →
  (∀ action, ensure_active_lease (rt_tasks s) (l_task_id lease) lease (rt_current_step s) action ≠ Ok tt) →
  fail_runner_dispatch lease failure s = Some (Ok 0%N, s).
Proof.
  intros Hinv Hst. pose proof (run_leased_spec (LFail failure) (rt_tasks s) lease (rt_current_step s) Hinv) as H.
  unfold leased_spec in H. cbn in H. specialize (Hst "fail"). destruct (ensure_active_lease _ _ _ _ "fail") as [[]|e]; [done|].
  unfold fail_runner_dispatch, on_tasks, bind, get. rewrite H. cbn. by destruct s.
Qed.

(** C12: a result that comes after its lease was lost changes nothing.  When the
    lease is not the active one (it expired, the task was cancelled, reclaimed
    or claimed again) but the task is still known, what the runner returned,
    whatever it is, is dropped: the call succeeds, completes nothing, and only
    the counter of rejected results and the event log may move. *)
Theorem late_result_changes_nothing s descriptor lease completion r :
  rt_reachable s → p_tasks (rt_tasks s) !! l_task_id lease = Some r →
  ensure_active_lease (rt_tasks s) (l_task_id lease) lease (rt_current_step s) "route" ≠ Ok tt →
  ∃ stats events, route_entry_completion descriptor lease completion s = Some (Ok 0%N, reported s stats events) ∧
    stats ∈ [p_statistics (rt_tasks s);
             (p_statistics (rt_tasks s)) <| st_stale_results_rejected ::= λ c, saturating_add c 1 |>].
Proof.
  intros Hs Hr Hst. pose proof (reachable_inv _ (ok_tasks _ (rt_reachable_ok _ Hs))) as Hinv.
  assert (∀ failure, fail_runner_dispatch lease failure s = Some (Ok 0%N, s)) as Hfail.
  { intros failure. apply fail_dispatch_stale; [done|]. intros action Ha. by apply Hst, (active_lease_action _ _ _ _ action). }
  assert (∀ failure, ∃ stats events, fail_runner_dispatch lease failure s = Some (Ok 0%N, reported s stats events) ∧
    stats ∈ [p_statistics (rt_tasks s);
             (p_statistics (rt_tasks s)) <| st_stale_results_rejected ::= λ c, saturating_add c 1 |>]) as Hdone.
  { intros failure. exists (p_statistics (rt_tasks s)), (rt_events s). rewrite reported_same. split; [done|apply list_elem_of_here]. }
  unfold route_entry_completion. destruct (ec_error completion); [done|]. destruct (ec_result completion) as [result|]; [|done].
  destruct (bool_decide _ || bool_decide _) eqn:Hids; [done|].
  apply orb_false_elim in Hids as [Hid%bool_decide_eq_false_1 _]. apply dec_stable in Hid.
  destruct (stale_lease_conflict _ _ _ _ _ Hr Hst) as (e & He & Hcode & Hroute).
  assert (route_result descriptor lease result s = Some (Err e, s)) as Hrun.
  { unfold route_result, bind, get. rewrite Hid. cbn. by rewrite He. }
  unfold bind at 1. rewrite Hrun. assert (is_stale_completion_conflict e = true) as ->.
  { unfold is_stale_completion_conflict. rewrite Hcode, Hroute, bool_decide_eq_true_2 by done. cbn. by destruct (l_task_id lease). }
  eexists _, _. split; [reflexivity|]. apply list_elem_of_further, list_elem_of_here.
Qed.

(** a late result of a task that has left the history stops the whole
    completion.  Once the record was evicted the missing task is an error, not
    a stale result: the entries of the batch that come after it are not routed
    and stay leased. *)
Theorem late_result_of_evicted_task_stops_batch s descriptor leases leases_by_task entry lease completion result slots completed :
  leases_by_task !! be_task_id entry = Some lease → p_tasks (rt_tasks s) !! l_task_id lease = None →
  ec_error completion = None → ec_result completion = Some result →
  rres_task_id result = l_task_id lease → ec_task_id completion = l_task_id lease →
  route_entries descriptor leases leases_by_task ((entry, Some completion) :: slots) completed s =
    Some (runtime_failure ERR_TASK_NOT_FOUND "runtime.task_pool" ("task." +:+ l_task_id lease), s).
Proof.
  intros Hl Hnone Herr Hres Hid1 Hid2. cbn [route_entries]. rewrite Hl. unfold route_entry_completion. rewrite Herr, Hres.
  rewrite !bool_decide_eq_false_2 by congruence. cbn [orb].
  assert (route_result descriptor lease result s =
    Some (runtime_failure ERR_TASK_NOT_FOUND "runtime.task_pool" ("task." +:+ l_task_id lease), s)) as Hrun.
  { unfold route_result, bind, get, ensure_active_lease, pool_record. cbv zeta. rewrite Hid1. by rewrite Hnone. }
  unfold try_bind, bind. by rewrite Hrun.
Qed.

(** ** Cancellation *)

(** The task [a] waits for [b]. *)
Definition awaits (p : TaskPool) (a b : string) : Prop := ∃ w, wait_mem (p_waits_by_parent p) a w ∧ child_of w = b.

Lemma awaits_det p a b b' : pool_inv p → awaits p a b → awaits p a b' → b' = b.
Proof.
  intros Hinv (w & (l & Hl & Hw) & <-) (w' & (l' & Hl' & Hw') & <-). destruct (pi_waits _ _ Hinv) as [_ _ _ Hs _ _].
  destruct (Hs _ _ Hl) as [w0 ->]. simplify_eq. rewrite list_elem_of_singleton in Hw, Hw'. by subst.
Qed.

Lemma awaits_live p a b : pool_inv p → awaits p a b → a ∈ live_ids p.
Proof.
  intros Hinv (w & (l & Hl & _) & _). destruct (pi_waits _ _ Hinv) as [_ _ _ _ Hw _].
  destruct (Hw a) as [?|(r & Hr & Hst)]; [by eexists|set_solver|]. apply elem_of_live_ids. exists r. by rewrite Hst.
Qed.

(** Once [id] is cancelled its own wait is gone and the others stay. *)
Lemma cancel_by_core_awaits p id step p' :
  pool_inv p → cancel_by_core id step p = Some (Ok tt, p') →
  pool_inv p' ∧ progress p p' ∧ id ∉ live_ids p' ∧ ∀ a b, a ≠ id → awaits p a b → awaits p' a b.
Proof.
  intros Hinv Hrun. pose proof (terminal_by_core_spec p id Cancelled None "cancel" step Hinv eq_refl) as H.
  unfold cancel_by_core in Hrun. destruct (letr? record := _ in _) as [u|e]; [|by rewrite H in Hrun].
  destruct H as (r & q & Hr & Hl & Hq & Hinv' & Hprog & _ & Hev & _). rewrite Hq in Hrun. injection Hrun as <-.
  split_and!; [done|done| |].
  - rewrite elem_of_live_ids. intros (r' & Hr' & Hl').
    pose proof (lookup_weaken _ _ _ _ Hr' (ev_tasks _ _ Hev)) as Hw. cbn in Hw. rewrite lookup_insert_eq in Hw. by simplify_eq.
  - intros a b Hne (w & Hw & Hb). exists w. split; [|done]. rewrite (ev_by_parent _ _ Hev). cbn. by apply wait_mem_delete.
Qed.

(** What [id] reaches, it reaches through its child, without [id]'s own wait. *)
Lemma awaits_through p p' id b c :
  pool_inv p → awaits p id b → (∀ a b, a ≠ id → awaits p a b → awaits p' a b) →
  rtc (awaits p) id c → c = id ∨ rtc (awaits p') b c.
Proof.
  intros Hinv Hb Hkeep Hc. revert c Hc. apply rtc_ind_r; [by left|]. intros c d _ Hcd IH. right.
  destruct (decide (c = id)) as [->|Hne]; [by rewrite (awaits_det p id b d Hinv Hb Hcd)|].
  destruct IH as [?|IH]; [done|]. eapply rtc_r; [done|by apply Hkeep].
Qed.

(** A cancelled task's child, when nothing else is cancelled, has ended. *)
Lemma ended_reaches p b c : pool_inv p → b ∉ live_ids p → rtc (awaits p) b c → c = b.
Proof. intros Hinv Hb Hc. destruct Hc as [|b c d Hbc _]; [done|]. by apply awaits_live in Hbc. Qed.

Lemma live_status_ids s id : is_live_status (task_status s id) = true ↔ id ∈ live_ids (rt_tasks s).
Proof.
  unfold task_status, pool_get. rewrite elem_of_live_ids. split.
  - destruct (p_tasks (rt_tasks s) !! id) as [r|]; [|done]. cbn. intros H. exists r. split; [done|]. by destruct (r_status r).
  - intros (r & -> & H). cbn. by destruct (r_status r).
Qed.

Lemma try_inv {S E A B} (c : M S (Result E A)) (k : A → M S (Result E B)) (s : S) b (s' : S) :
  try_bind c k s = Some (Ok b, s') → ∃ a t, c s = Some (Ok a, t) ∧ k a t = Some (Ok b, s').
Proof. intros ([a|e] & t & Hc & Hk)%bind_inv; [eauto|done]. Qed.

Lemma live_ids_quiet s s' : quiet s s' → live_ids (rt_tasks s') ⊆ live_ids (rt_tasks s).
Proof. intros (_ & [H _] & _). by apply live_ids_progress. Qed.

(** The children of a cancelled task, one level down. *)
Lemma cancel_children_quiet fuel ws s :
  rt_ok s → size (live_ids (rt_tasks s)) < fuel →
  keeps quiet (try_for_each ws (λ task_await,
    let! self := get in
    let child := h_task_id (aw_child task_await) in
    if is_live_status (task_status self child) then cancel_by_id fuel child else ret (Ok tt))) s.
Proof.
  intros Hok Hfuel. apply (keeps_try_for_each quiet); [done|]. intros w t _ Hokt Ht. apply (keeps_get quiet). cbv zeta.
  case_match; [|by apply keeps_ret_quiet]. apply cancel_by_id_quiet; [done|].
  pose proof (subseteq_size _ _ (live_ids_quiet _ _ Ht)). lia.
Qed.

Lemma cancel_by_id_cascades fuel id s s' :
  rt_ok s → size (live_ids (rt_tasks s)) < fuel → cancel_by_id fuel id s = Some (Ok tt, s') →
  ∀ c, rtc (awaits (rt_tasks s)) id c → c ∉ live_ids (rt_tasks s').
Proof.
  revert id s s'. induction fuel as [|fuel IH]; intros id s s' Hok Hfuel Hrun c Hc; [lia|].
  pose proof (reachable_inv _ (ok_tasks _ Hok)) as Hinv. cbn [cancel_by_id] in Hrun.
  rewrite (bind_run get _ s s s) in Hrun by done. cbv zeta in Hrun. destruct (existsb _ _); [done|].
  apply try_inv in Hrun as ([] & s1 & H1 & Hrun). apply bind_inv in Hrun as ([] & s2 & H2 & Hrun).
  apply try_inv in Hrun as ([] & s3 & H3 & Hrun). apply try_inv in Hrun as (n & s4 & H4 & [= <-]).
  destruct (runs_det _ _ _ _ _ (on_tasks_quiet _ (PoolOps.OpCancel id (rt_current_step s)) s Hok eq_refl I eq_refl) H1)
    as (Hok1 & _ & p1 & Hp1 & -> & _).
  destruct (cancel_by_core_awaits _ _ _ _ Hinv Hp1) as (Hinv1 & Hprog1 & Hdead & Hkeep).
  destruct (runs_det _ _ _ _ _ (terminal_event_quiet id "task.cancelled" None _ Hok1) H2) as (Hok2 & _ & Hq2).
  assert (rt_tasks s2 = p1) as E2 by (injection H2 as <-; done).
  assert (size (live_ids (rt_tasks s2)) < fuel) as Hless.
  { destruct (cancel_by_core_spec _ _ _ _ _ Hinv Hp1) as (Hin & Hout & _). rewrite E2.
    assert (live_ids p1 ⊂ live_ids (rt_tasks s)) as Hs%subset_size; [|lia].
    split; [by apply live_ids_progress|]. intros Hsub. by apply Hout, Hsub. }
  destruct (runs_det _ _ _ _ _ (cancel_children_quiet fuel _ _ Hok2 Hless) H3) as (Hok3 & _ & Hq3).
  destruct (runs_det _ _ _ _ _ (wake_tasks_waiting_on_quiet id _ Hok3) H4) as (_ & _ & Hq4).
  pose proof (live_ids_quiet _ _ Hq3) as Hl3. pose proof (live_ids_quiet _ _ Hq4) as Hl4. rewrite E2 in Hl3.
  assert (∀ d, d ∉ live_ids p1 → d ∉ live_ids (rt_tasks s4)) as Hgone by (intros d Hd Hin; by apply Hd, Hl3, Hl4).
  unfold awaits_for_parent in H3. destruct (p_waits_by_parent (rt_tasks s) !! id) as [l|] eqn:Hby.
  - destruct (wo_single _ _ _ _ (pi_waits _ _ Hinv) _ _ Hby) as [w ->]. cbn [or_default try_for_each] in H3.
    assert (awaits (rt_tasks s) id (child_of w)) as Hw
      by (exists w; split; [exists [w]; split; [done|apply list_elem_of_here]|done]).
    destruct (awaits_through _ p1 id _ c Hinv Hw Hkeep Hc) as [->|Hb]; [by apply Hgone|].
    apply try_inv in H3 as ([] & t & H3 & [= <-]). rewrite (bind_run get _ s2 s2 s2) in H3 by done. cbv zeta in H3.
    fold (child_of w) in H3. destruct (is_live_status (task_status s2 (child_of w))) eqn:Hlive.
    + rewrite <-E2 in Hb. intros Hin. by apply (IH _ _ _ Hok2 Hless H3 _ Hb), Hl4.
    + assert (child_of w ∉ live_ids p1) as Hnot by (rewrite <-E2, <-live_status_ids; by rewrite Hlive).
      rewrite (ended_reaches _ _ _ Hinv1 Hnot Hb). by apply Hgone.
  - destruct Hc as [|id b c (w & (l & Hl & _) & _) _]; [by apply Hgone|congruence].
Qed.

(** C13: cancelling a task cancels everything it waits for.  When the cancellation
    of a task returns with success, the task has ended, and so has every task
    on the chain of awaits that starts at it, however long. *)
Theorem cancellation_follows_awaits s id s' c :
  rt_reachable s → cancel_task_by_id id s = Some (Ok tt, s') → rtc (awaits (rt_tasks s)) id c →
  ∀ r, p_tasks (rt_tasks s') !! c = Some r → is_terminal_status (r_status r) = true.
Proof.
  intros Hs Hrun Hc r Hr. unfold cancel_task_by_id in Hrun. rewrite (bind_run get _ s s s) in Hrun by done.
  destruct (is_terminal_status (r_status r)) eqn:E; [done|]. exfalso.
  eapply (cancel_by_id_cascades _ id s s' (rt_reachable_ok _ Hs)); [|exact Hrun|exact Hc|apply elem_of_live_ids; eauto].
  pose proof (size_live_ids (rt_tasks s)). lia.
Qed.
End Theorems.
