(* ===== verification/RuntimeClaims.v ===== *)
(** * What a claim does with the tasks it leases

    Every task a scheduling pass leases for a runner is handed out in exactly
    one batch, or it is ready again when the claim returns.

    Below, the kernel tasks. *)

From S2P Require Import Prelude Contracts RunnerContracts BatchContracts PluginContracts Ids Logs StateStore ResourceManager ResourceOccupancy ResourceTheorems TaskRecords TaskIndexes IndexFacts TaskPool TaskClaiming PoolInvariant PoolHistory PoolSteps PoolKernelSteps PoolForced ClaimFacts PoolOps TaskOccupancy Registry RegistryTheorems RuntimeState RuntimeTasks BatchBuild RuntimeRouting RuntimeDispatch RuntimeReload RuntimeResources RuntimeInvariant RuntimeRuns RuntimePasses RuntimeOps RuntimeTheorems.

Section Claims.
Context `{RA : RunnerApi} `{ST : !SerdeTypes}.
Implicit Types s : CoreRuntime.

(** ** Chunks *)

Lemma chunks_fuel_concat {A} fuel size (l : list A) : size ≠ 0 → length l ≤ fuel → concat (chunks_fuel fuel size l) = l.
Proof.
  intros Hsize. revert l. induction fuel as [|fuel IH]; intros [|x l] Hlen; cbn [chunks_fuel]; try done; [cbn in Hlen; lia|].
  change (take size (x :: l) ++ concat (chunks_fuel fuel size (drop size (x :: l))) = x :: l).
  rewrite IH; [apply take_drop|]. rewrite length_drop. cbn in *. lia.
Qed.

Lemma chunks_concat {A} size (l : list A) cs : chunks size l = Some cs → concat cs = l.
Proof. unfold chunks. case_decide; [done|]. intros [= <-]. apply chunks_fuel_concat; lia. Qed.

(** Slices of [size] elements at most, none empty. *)
Lemma chunks_fuel_sizes {A} fuel size (l : list A) :
  size ≠ 0 → Forall (λ c, c ≠ [] ∧ length c ≤ size) (chunks_fuel fuel size l).
Proof.
  intros Hsize. revert l. induction fuel as [|fuel IH]; intros [|x l]; cbn [chunks_fuel]; try constructor; [|apply IH].
  split; [by destruct size|]. rewrite length_take. lia.
Qed.

Lemma concat_length {A} (cs : list (list A)) : length (concat cs) = sum_list (length <$> cs).
Proof. induction cs as [|c cs IH]; [done|]. cbn. by rewrite length_app, IH. Qed.

Lemma take_chunks {A} n (cs : list (list A)) l :
  concat cs = l → l = concat (take n cs) ++ drop (sum_list (length <$> take n cs)) l.
Proof.
  intros <-. assert (concat cs = concat (take n cs) ++ concat (drop n cs)) as E by (rewrite <-concat_app; by rewrite take_drop).
  rewrite E at 1. f_equal. by rewrite E, <-concat_length, drop_app_length.
Qed.

(** ** Deferring *)

(** A record that is running after the deferrals was not deferred and is as it
    was. *)
Lemma defer_all_running leased s s' id r :
  pool_inv (rt_tasks s) → defer_all leased s = Some (Ok tt, s') →
  p_tasks (rt_tasks s') !! id = Some r → r_status r = Running →
  id ∉ (l_task_id ∘ fst <$> leased) ∧ p_tasks (rt_tasks s) !! id = Some r.
Proof.
  unfold defer_all. revert s. induction leased as [|[lease task] leased IH]; intros s Hinv; cbn [try_for_each].
  { intros [= <-] Hr _. split; [by intros ?%elem_of_nil|done]. }
  intros ([] & t & Ht & Hrest)%try_inv Hr Hrun. cbn in Ht.
  pose proof (run_leased_spec LDefer (rt_tasks s) lease (rt_current_step s) Hinv) as Hspec. unfold leased_spec in Hspec.
  unfold bind, get, on_tasks in Ht. cbn in Hspec.
  destruct (ensure_active_lease _ _ _ _ "defer"); [|by rewrite Hspec in Ht].
  destruct Hspec as (r0 & p' & Hr0 & _ & Hd & Hinv' & _ & [Hev _]). rewrite Hd in Ht. injection Ht as <-.
  assert (pool_inv (rt_tasks (s <| rt_tasks := p' |>))) as Hnext by (cbn; exact Hinv').
  destruct (IH _ Hnext Hrest Hr Hrun) as [Hnot Hr']. cbn in Hr'.
  pose proof (lookup_weaken _ _ _ _ Hr' (ev_tasks _ _ Hev)) as Hw. cbn in Hw.
  destruct (decide (id = l_task_id lease)) as [->|Hne].
  - rewrite lookup_insert_eq in Hw. injection Hw as <-. done.
  - rewrite lookup_insert_ne in Hw by done. split; [|done]. cbn. rewrite elem_of_cons. naive_solver.
Qed.

Lemma build_dispatches_leases descriptor executor groups s dispatches s' :
  build_dispatches descriptor executor groups s = Some (Ok dispatches, s') →
  rdp_task_leases <$> dispatches = (λ g, g.*1) <$> groups.
Proof.
  revert s dispatches s'. induction groups as [|g groups IH]; intros s dispatches s'; cbn [build_dispatches];
    [by intros [= <- _]|].
  intros (d & t & Hd & Hrest)%try_inv. apply try_inv in Hrest as (ds & t' & Hds & [= <- <-]). cbn.
  rewrite (IH _ _ _ Hds). f_equal. unfold build_runner_dispatch in Hd. cbv zeta in Hd.
  apply bind_inv in Hd as (self & t1 & _ & Hd). apply bind_inv in Hd as (span & t2 & _ & Hd).
  apply try_inv in Hd as (target & t3 & _ & Hd). apply bind_inv in Hd as ([] & t4 & _ & Hd).
  apply bind_inv in Hd as (self' & t5 & _ & Hd). apply bind_inv in Hd as ([] & t6 & _ & Hd). by injection Hd as <- _.
Qed.

(** ** The claim *)

(** The leases a claim hands out. *)
Definition handed_out (dispatches : list RunnerDispatch) : list TaskLease := concat (rdp_task_leases <$> dispatches).

(** The part of a claim after its tasks are leased. *)
Lemma dispatch_groups_running descriptor executor max_batches group deferred s report dispatches s' :
  rt_ok s →
  (let? _ := defer_all (concat deferred) in
    let! all_chunks := expect (chunks (bc_max_batch_entries (d_batch descriptor)) group) in
    let chunks := take (N.to_nat max_batches) all_chunks in
    let dispatched_tasks := sum_list (length <$> chunks) in
    let? _ := defer_all (drop dispatched_tasks group) in
    let? dispatches := build_dispatches descriptor executor chunks in
    ret (Ok (MkRunnerLoopReport (N.of_nat dispatched_tasks) 0, dispatches))) s = Some (Ok (report, dispatches), s') →
  rep_claimed_tasks report = len (handed_out dispatches) ∧
  (handed_out dispatches ⊆+ (group ++ concat deferred).*1) ∧
  (∀ id r, p_tasks (rt_tasks s') !! id = Some r → r_status r = Running →
    p_tasks (rt_tasks s) !! id = Some r ∧
    (id ∈ (l_task_id ∘ fst <$> group ++ concat deferred) → id ∈ l_task_id <$> handed_out dispatches)).
Proof.
  intros Hok Hrun. apply try_inv in Hrun as ([] & s1 & H1 & Hrun).
  destruct (runs_det _ _ _ _ _ (defer_all_quiet _ _ Hok) H1) as (Hok1 & _ & _).
  apply bind_inv in Hrun as (cs & s1' & Hcs & Hrun).
  destruct (chunks _ group) as [cs'|] eqn:Hch; [|done]. injection Hcs as -> <-. cbv zeta in Hrun.
  set (kept := take (N.to_nat max_batches) cs) in *. apply try_inv in Hrun as ([] & s2 & H2 & Hrun).
  destruct (runs_det _ _ _ _ _ (defer_all_quiet _ _ Hok1) H2) as (Hok2 & _ & _).
  apply try_inv in Hrun as (ds & s3 & H3 & [= <- <- <-]).
  destruct (runs_det _ _ _ _ _ (build_dispatches_logged _ _ _ _ Hok2) H3) as (_ & _ & _ & E3).
  pose proof (take_chunks (N.to_nat max_batches) cs group (chunks_concat _ _ _ Hch)) as Hsplit. fold kept in Hsplit.
  assert (handed_out ds = (concat kept).*1) as Hout.
  { unfold handed_out. rewrite (build_dispatches_leases _ _ _ _ _ _ H3). clear. induction kept as [|g kept IH]; [done|].
    cbn. by rewrite IH, fmap_app. }
  split_and!.
  - cbn. unfold len. by rewrite Hout, length_fmap, concat_length.
  - rewrite Hout. apply fmap_submseteq. rewrite Hsplit. rewrite <-app_assoc. apply submseteq_inserts_r. done.
  - rewrite E3. intros id r Hr Hrun. pose proof (reachable_inv _ (ok_tasks _ Hok)) as Hinv.
    pose proof (reachable_inv _ (ok_tasks _ Hok1)) as Hinv1.
    destruct (defer_all_running _ _ _ _ _ Hinv1 H2 Hr Hrun) as [Hn2 Hr1].
    destruct (defer_all_running _ _ _ _ _ Hinv H1 Hr1 Hrun) as [Hn1 Hr0]. split; [done|].
    rewrite fmap_app, elem_of_app. intros [Hin|Hin]; [|done]. rewrite Hsplit, fmap_app, elem_of_app in Hin.
    destruct Hin as [Hin|Hin]; [|done]. rewrite Hout, <-list_fmap_compose. done.
Qed.

(** The leases of a claim, by the pool's own account. *)
Lemma claimed_leases runner executor step gen limit budget expires p leased p' :
  pool_inv p → NoDup (d_accepted_protocol_ids runner) → allocatable TaskId (selection_limit limit budget) →
  (∀ e, expires = Some e → (e ≤ u64_max)%N) →
  claim_ready_for_executor_with_budget runner executor step gen limit budget expires p = Some (leased, p') →
  NoDup (l_task_id <$> leased.*1) ∧
  ∀ id r, p_tasks p' !! id = Some r →
    p_tasks p !! id = Some r ∨
    (id ∈ l_task_id <$> leased.*1 ∧ ∀ lease, lease ∈ leased.*1 → l_task_id lease = id → r_lease r = Some lease).
Proof.
  intros Hinv Hnd Halloc Hexp Hrun.
  destruct (runs_det _ _ _ _ _ (claim_runs runner executor step gen expires Hexp _ limit budget Hinv Hnd Halloc) Hrun)
    as (_ & _ & l & [Hsub _]%selects_bounds & -> & Htab).
  assert (∀ r, r ∈ l → p_tasks p !! rec_id r = Some r) as Hin.
  { intros r Hr. assert (r ∈ candidates p runner step gen) as Hc by (by eapply sublist_subseteq).
    by apply elem_of_candidates in Hc as (? & _). }
  assert (l_task_id <$> ((λ r, (claim_lease runner executor step gen expires r,
      r_task (claimed runner executor step gen expires r))) <$> l).*1 = rec_id <$> l) as Hids
    by (by rewrite <-!list_fmap_compose). 
  rewrite Hids. split.
  - eapply sublist_NoDup; [|apply fmap_sublist, Hsub]. by apply NoDup_candidates.
  - intros id r Hr. rewrite Htab in Hr. destruct (p_tasks p !! id) as [r0|] eqn:H0; [|done]. cbn in Hr.
    case_decide as Hid; [|by left]. right. injection Hr as <-. split; [done|]. intros lease Hl Hlid.
    rewrite <-list_fmap_compose in Hl. apply list_elem_of_fmap in Hl as (r1 & -> & Hr1). cbn in *.
    specialize (Hin _ Hr1). change (rec_id r1 = id) in Hlid. rewrite Hlid, H0 in Hin. by injection Hin as ->.
Qed.

Lemma event_tasks kind name subject attrs error s : leaves rt_tasks (record_event kind name subject attrs error) s.
Proof. by apply leaves_modify. Qed.

Lemma span_tasks trace_id name status attrs s : leaves rt_tasks (record_span trace_id name status attrs) s.
Proof. intros a s'. unfold record_span. destruct (trace_record _ _ _ _ _ _). by intros [= _ <-]. Qed.
Hint Resolve event_tasks span_tasks : frame.

Lemma scheduler_decision_tasks descriptor decision s : leaves rt_tasks (record_scheduler_decision descriptor decision) s.
Proof. unfold record_scheduler_decision. leaves_go. Qed.

(** C11: no claimed task is lost.  When a claim for a runner other than the
    committing kernel runner (whose tasks are processed in place) succeeds, it
    reports exactly the tasks it hands out, no task is handed out twice, no more
    batches than the runner may have in flight, and a task that is running
    afterwards either was running before, untouched, or is in one of the batches
    under the lease its record holds; every other task it had leased is no
    longer running. *)
Theorem claimed_tasks_accounted s descriptor decision expires report dispatches s' :
  rt_reachable s → descriptor ∈ reg_descriptor_snapshot (rt_registry s) → d_purity descriptor ≠ Committer ∨ d_runner_id descriptor ≠ "core.kernel" →
  (∀ e, expires = Some e → (e ≤ u64_max)%N) → room (claim_bound descriptor) s →
  claim_runner_work descriptor decision expires s = Some (Ok (report, dispatches), s') →
  rep_claimed_tasks report = len (handed_out dispatches) ∧ NoDup (l_task_id <$> handed_out dispatches) ∧
  (len dispatches ≤ max_inflight_batches (d_concurrency descriptor))%N ∧
  ∀ id r, p_tasks (rt_tasks s') !! id = Some r → r_status r = Running →
    p_tasks (rt_tasks s) !! id = Some r ∨
    ∃ lease, lease ∈ handed_out dispatches ∧ l_task_id lease = id ∧ r_lease r = Some lease.
Proof.
  intros Hs Hd Hpure Hexp Hroom Hrun. pose proof (rt_reachable_ok _ Hs) as Hok. pose proof (snapshot_nodup _ _ Hok Hd) as Hnd.
  pose proof (clamp_decision_allocatable descriptor decision s Hroom) as Halloc.
  destruct (runs_det _ _ _ _ _ (claim_runner_work_costs descriptor decision expires s Hok Hnd Hexp Hroom) Hrun)
    as (_ & _ & _ & _ & Hlen). specialize (Hlen _ _ eq_refl).
  unfold claim_runner_work in Hrun. cbv zeta in Hrun. apply bind_inv in Hrun as ([] & s1 & H1 & Hrun).
  destruct (runs_det _ _ _ _ _ (record_scheduler_decision_quiet _ _ _ Hok) H1) as (Hok1 & _ & Hq1).
  pose proof (scheduler_decision_tasks _ _ _ _ _ H1) as E1.
  case_decide.
  { injection Hrun as <- <- <-. split_and!; [done|constructor|done|]. rewrite E1. auto. }
  apply bind_inv in Hrun as (self & s1' & [= <- <-] & Hrun). apply bind_inv in Hrun as (leased & s2 & H2 & Hrun).
  unfold on_tasks in H2. destruct (claim_ready_for_executor_with_budget _ _ _ _ _ _ _ _) as [[leased' p']|] eqn:Hclaim; [|done].
  injection H2 as -> <-. rewrite E1 in Hclaim. pose proof (reachable_inv _ (ok_tasks _ Hok)) as Hinv.
  destruct (claimed_leases _ _ _ _ _ _ _ _ _ _ Hinv Hnd Halloc Hexp Hclaim) as [Hnodup Htab].
  case_bool_decide as Hne.
  { injection Hrun as <- <- <-. subst leased. split_and!; [done|constructor|done|]. intros id r Hr _. left.
    destruct (Htab _ _ Hr) as [?|[Hin _]]; [done|]. by apply elem_of_nil in Hin. }
  replace (bool_decide _ && bool_decide _) with false in Hrun
    by (symmetry; rewrite andb_false_iff, !bool_decide_eq_false; naive_solver). cbn [andb] in Hrun.
  destruct (split_spec leased) as (Hcat & _). destruct (split_leased_tasks_by_resource_conflict leased) as [|group deferred]; [done|].
  cbn in Hcat. assert (rt_ok (s1 <| rt_tasks := p' |>)) as Hok2.
  { destruct (claim_safely descriptor ("executor:" +:+ d_runner_id descriptor) (rt_current_step s1)
      (plan_registry_generation (rt_load_plan s1)) (dec_dispatch_limit (clamp_decision descriptor decision))
      (Some (dec_budget (clamp_decision descriptor decision))) expires s1 Hok1 Hnd Halloc Hexp) as (a & t & Ha & Ht & _).
    unfold on_tasks in Ha. rewrite E1, Hclaim in Ha. by injection Ha as _ <-. }
  destruct (dispatch_groups_running _ _ _ _ _ _ _ _ _ Hok2 Hrun) as (Hrep & Hsub & Hkeep). rewrite Hcat in Hsub, Hkeep.
  split_and!; [done| |done|].
  - apply (fmap_submseteq l_task_id) in Hsub. destruct (submseteq_Permutation _ _ Hsub) as [k Hk].
    rewrite Hk in Hnodup. by apply NoDup_app in Hnodup as (? & _ & _).
  - intros id r Hr Hst. destruct (Hkeep _ _ Hr Hst) as [Hr2 Hin]. cbn in Hr2.
    destruct (Htab _ _ Hr2) as [?|[Hmem Hlease]]; [by left|]. right.
    rewrite <-list_fmap_compose in Hmem. specialize (Hin Hmem).
    apply list_elem_of_fmap in Hin as (lease & -> & Hl). exists lease. split_and!; [done|done|]. apply Hlease; [|done].
    by eapply elem_of_submseteq.
Qed.
End Claims.

(** ** The tasks of the kernel

    What a commit does to the state store and the pool, on every branch, and
    what the pass that runs it does when it is refused. *)

Section Kernel.
Context `{RA : RunnerApi} `{ST : !SerdeTypes}.
Implicit Types s : CoreRuntime.

Lemma waits_kept p q child p' r :
  pool_inv p → r_status r ≠ Waiting → evicts (with_record child r p) p' → p_waits_by_parent p !! child = None →
  waits_for p q child → waits_for p' q child ∧ p_tasks p' !! q = p_tasks p !! q.
Proof.
  intros Hinv Hst Hev Hnone Hq. split.
  - destruct Hq as (w & Hw & <-). exists w. split; [|done]. by rewrite (ev_by_child _ _ Hev).
  - destruct (waits_for_waiting _ _ _ Hinv Hq) as (rq & Hrq & Hw). rewrite Hrq.
    assert (q ≠ child) as Hne.
    { intros ->. destruct Hq as (w & Hw' & Hp). destruct (pi_waits _ _ Hinv) as [Hc _ _ _ _ _].
      destruct (Hc _ _ Hw') as [_ (l & Hl & _)]. rewrite Hp, Hnone in Hl. done. }
    apply (ev_live _ _ Hev); cbn; [by rewrite lookup_insert_ne|by rewrite Hw].
Qed.

Lemma running_no_wait p id r : pool_inv p → p_tasks p !! id = Some r → r_status r = Running → p_waits_by_parent p !! id = None.
Proof.
  intros Hinv Hr Hst. destruct (p_waits_by_parent p !! id) eqn:E; [|done].
  destruct (wo_waiting _ _ _ _ (pi_waits _ _ Hinv) id) as [?|(r' & Hr' & Hw)]; [by eexists|set_solver|congruence].
Qed.

(** Completing a kernel task under an active lease. *)
Lemma kernel_complete_runs lease s :
  pool_inv (rt_tasks s) →
  ensure_active_lease (rt_tasks s) (l_task_id lease) lease (rt_current_step s) "kernel" = Ok tt →
  ∃ p', complete lease (rt_current_step s) (rt_tasks s) = Some (Ok tt, p') ∧ l_task_id lease ∉ live_ids p' ∧
    ∀ q, waits_for (rt_tasks s) q (l_task_id lease) →
      waits_for p' q (l_task_id lease) ∧ p_tasks p' !! q = p_tasks (rt_tasks s) !! q.
Proof.
  intros Hinv Hact. pose proof (run_leased_spec (LComplete None) (rt_tasks s) lease (rt_current_step s) Hinv) as Hspec.
  unfold leased_spec in Hspec. rewrite (active_lease_action _ _ _ _ _ (leased_action (LComplete None)) Hact) in Hspec.
  destruct Hspec as (r & p' & Hr & Hlease & Hrun & _ & _ & [Hev _]). exists p'. split_and!; [done| |].
  - rewrite elem_of_live_ids. intros (r' & Hr' & Hl).
    pose proof (lookup_weaken _ _ _ _ Hr' (ev_tasks _ _ Hev)) as Hw. cbn in Hw. rewrite lookup_insert_eq in Hw. by simplify_eq/=.
  - intros q Hq. eapply (waits_kept (rt_tasks s)); [done| |exact Hev| |done]; [done|].
    eapply running_no_wait; [done|exact Hr|]. destruct (pi_records _ _ Hinv _ _ Hr) as (_ & _ & Hl). rewrite Hlease in Hl.
    destruct (r_status r); try done; by destruct Hl.
Qed.

(** C15: a commit is applied exactly when the version it expects is the current one.
    Applied, it writes its patch at the next version and ends the task; whoever
    waits for that task is not woken and keeps waiting.  Refused, it changes
    nothing, the error ends the pass, the task and those claimed with it stay
    leased. *)
Theorem kernel_commit_exact s lease task rest v delta :
  rt_reachable s → l_task_id lease = t_task_id task →
  ensure_active_lease (rt_tasks s) (t_task_id task) lease (rt_current_step s) "kernel" = Ok tt →
  t_protocol_id task = "core.commit" → as_value (t_payload task) = Some v → delta_from_value v = Ok delta →
  (current_version (rt_states s) (sdl_target_ref delta) ≠ sdl_expected_version delta →
    ∃ e, process_kernel_tasks ((lease, task) :: rest) s = Some (Err e, s)) ∧
  (current_version (rt_states s) (sdl_target_ref delta) = sdl_expected_version delta →
   (sdl_expected_version delta < u64_max)%N →
    ∃ s', process_kernel_task (lease, task) s = Some (Ok 1%N, s') ∧
      ss_values (rt_states s') =
        <[ sdl_target_ref delta := ((sdl_expected_version delta + 1)%N, sdl_patch delta) ]> (ss_values (rt_states s)) ∧
      (∀ r, p_tasks (rt_tasks s') !! t_task_id task = Some r → is_terminal_status (r_status r) = true) ∧
      (∀ q, waits_for (rt_tasks s) q (t_task_id task) →
        waits_for (rt_tasks s') q (t_task_id task) ∧ p_tasks (rt_tasks s') !! q = p_tasks (rt_tasks s) !! q)).
Proof.
  intros Hs Hid Hact Hproto Hv Hdelta. pose proof (reachable_inv _ (ok_tasks _ (rt_reachable_ok _ Hs))) as Hinv.
  assert (∀ a st', apply delta (rt_states s) = Some (a, st') → process_kernel_task (lease, task) s =
    (let? _ := ret a in
     record_event EventState "state.commit" (Some (sdl_target_ref delta)) ∅ None ;;!
     let? _ := on_tasks (complete lease (rt_current_step s)) in ret (Ok 1%N)) (s <| rt_states := st' |>)) as Hrun.
  { intros a st' Ha. unfold process_kernel_task. rewrite (bind_run get _ s s s) by done. rewrite Hact, decide_True, Hv by done.
    unfold expect. rewrite (bind_ret_l v), Hdelta. unfold try_bind, bind at 1, on_states. rewrite Ha. done. }
  split.
  - intros Hne. assert (∃ e, apply delta (rt_states s) = Some (Err e, rt_states s)) as [e He].
    { unfold apply, bind, get. rewrite decide_True by done. by eexists. }
    exists e. unfold process_kernel_tasks. cbn [try_sum]. unfold try_bind at 1, bind at 1. rewrite (Hrun _ _ He).
    cbn. by destruct s.
  - intros Heq Hmax. assert (∃ st', apply delta (rt_states s) = Some (Ok tt, st')) as [st' Ha].
    { unfold apply, bind, get, u64_add. rewrite decide_False by congruence. rewrite decide_True by lia. by eexists. }
    destruct (apply_ok _ _ _ Ha) as (_ & _ & Hval). rewrite (Hrun _ _ Ha). rewrite <-Hid in Hact.
    destruct (kernel_complete_runs lease s Hinv Hact) as (p' & Hc & Hdead & Hwait). rewrite Hid in Hdead, Hwait.
    eexists. split.
    { unfold try_bind at 1. rewrite (bind_ret_l (Ok tt)). unfold try_bind, bind, record_event, modify, on_tasks. cbn.
      rewrite Hc. reflexivity. }
    cbn. split_and!; [done| |done].
    intros r Hr. destruct (is_terminal_status (r_status r)) eqn:E; [done|]. exfalso. apply Hdead, elem_of_live_ids. eauto.
Qed.
End Kernel.
