(* ===== verification/ReloadTheorems.v ===== *)
(** * What a reload guarantees

    A reload that succeeds has installed the new generation; one that fails
    while it disposes of the old runners has lost them. *)

From S2P Require Import Prelude Contracts RunnerContracts BatchContracts PluginContracts Ids Logs StateStore ResourceManager ResourceOccupancy ResourceTheorems TaskRecords TaskIndexes IndexFacts TaskPool TaskClaiming PoolInvariant PoolHistory PoolSteps PoolKernelSteps PoolForced ClaimFacts PoolOps TaskOccupancy Registry RegistryTheorems RuntimeState RuntimeTasks BatchBuild RuntimeRouting RuntimeDispatch RuntimeReload RuntimeResources RuntimeInvariant RuntimeRuns RuntimePasses RuntimeOps RuntimeTheorems.

(** Methods are unfolded before the monad they are written in. *)
#[local] Strategy 100 [bind try_bind].

Section ReloadFacts.
Context `{RA : RunnerApi} `{ST : !SerdeTypes}.
Implicit Types s : CoreRuntime.

(** ** Settling *)

Definition installed s : RuntimeLoadPlan * list ContractSurface * gmap string ProtocolClass * RunnerRegistry * TaskPool :=
  (rt_load_plan s, rt_surfaces s, rt_protocol_classes s, rt_registry s, rt_tasks s).

Lemma mark_phase_installed gen phase s : leaves installed (mark_generation_phase gen phase) s.
Proof. by apply leaves_modify. Qed.
Hint Resolve mark_phase_installed : frame.

Lemma settle_installed s : leaves installed settle_draining_generations s.
Proof. unfold settle_draining_generations. leaves_go. Qed.

(** No other generation than [gen] is active. *)
Definition only_active (gen : N) (states : list PluginGenerationState) : Prop :=
  Forall (λ st, pgs_phase st = PhaseActive → pgs_generation st = gen) states.

Lemma mark_disposed_only_active gen gen' s s' a :
  mark_generation_phase gen' Disposed s = Some (a, s') →
  only_active gen (rt_generation_states s) → only_active gen (rt_generation_states s').
Proof.
  intros [= _ <-] Hall. cbn. apply Forall_fmap. eapply Forall_impl; [exact Hall|]. intros st Hst. cbn. case_decide; [done|exact Hst].
Qed.

Lemma mark_all_only_active gen gens s s' a :
  for_each gens (λ g, mark_generation_phase g Disposed) s = Some (a, s') →
  only_active gen (rt_generation_states s) → only_active gen (rt_generation_states s').
Proof.
  revert s. induction gens as [|g gens IH]; intros s; cbn [for_each]; [by intros [= _ <-]|].
  intros ([] & t & Ht & Hrest)%bind_inv Hall. eapply IH; [exact Hrest|]. by eapply mark_disposed_only_active.
Qed.

Lemma settle_only_active gen s s' a :
  settle_draining_generations s = Some (a, s') →
  only_active gen (rt_generation_states s) → only_active gen (rt_generation_states s').
Proof.
  unfold settle_draining_generations. intros Hrun Hall. apply bind_inv in Hrun as (self & t & [= <- <-] & Hrun).
  apply bind_inv in Hrun as (settled & t & Ht & Hrun). destruct (settle_loop _ _ _) as [res|]; [|done]. injection Ht as -> <-.
  apply bind_inv in Hrun as ([] & t & [= <-] & Hrun). destruct settled as [st|e]; [|by injection Hrun as _ <-].
  apply bind_inv in Hrun as ([] & t & [= <-] & Hrun). apply bind_inv in Hrun as ([] & t & Ht & [= _ <-]).
  by eapply mark_all_only_active.
Qed.

Lemma activate_only_active gen (states : list PluginGenerationState) : only_active gen (activate_state gen <$> states).
Proof.
  apply Forall_fmap, Forall_forall. intros st _. cbn. unfold activate_state. case_decide; [done|]. by case_decide.
Qed.

Lemma push_only_active gen states new :
  only_active gen states → only_active gen new → only_active gen (foldl push_new_state states new).
Proof.
  intros Hs Hn. revert states Hs. induction Hn as [|st new Hst Hn IH]; intros states Hs; [done|]. cbn. apply IH.
  unfold push_new_state. case_match; [done|]. apply Forall_app. split; [done|by constructor].
Qed.

(** ** Swapping *)

Lemma apply_load_plan_spec plan s s' :
  pool_inv (rt_tasks s) → apply_load_plan plan s = Some (tt, s') →
  rt_load_plan s' = plan ∧ rt_surfaces s' = plan_contract_surfaces plan ∧
  rt_protocol_classes s' = protocol_classes_for_plan plan ∧
  p_tasks (rt_tasks s') =
    rebound (plan_registry_generation (rt_load_plan s)) (plan_registry_generation plan) <$> p_tasks (rt_tasks s).
Proof.
  intros Hinv. unfold apply_load_plan, bind, get, on_tasks.
  destruct (rebind_ready_generation_spec (rt_tasks s) (plan_registry_generation (rt_load_plan s)) (plan_registry_generation plan) Hinv)
    as (p' & -> & _ & _ & <-). by intros [= <-].
Qed.

Lemma event_installed kind name subject attrs error s s' :
  record_event kind name subject attrs error s = Some (tt, s') → rt_load_plan s' = rt_load_plan s ∧ rt_tasks s' = rt_tasks s.
Proof. by intros [= <-]. Qed.

Lemma set_registry_spec registry s s' :
  modify (λ s, s <| rt_registry := registry |>) s = Some (tt, s') →
  rt_load_plan s' = rt_load_plan s ∧ rt_surfaces s' = rt_surfaces s ∧ rt_protocol_classes s' = rt_protocol_classes s ∧
  rt_registry s' = registry ∧ rt_tasks s' = rt_tasks s.
Proof. by intros [= <-]. Qed.

Lemma set_active_spec s s' :
  set_active_generation_states s = Some (tt, s') →
  only_active (plan_registry_generation (rt_load_plan s)) (rt_generation_states s') ∧
  rt_load_plan s' = rt_load_plan s ∧ rt_surfaces s' = rt_surfaces s ∧ rt_protocol_classes s' = rt_protocol_classes s ∧
  rt_registry s' = rt_registry s ∧ rt_tasks s' = rt_tasks s.
Proof.
  intros [= <-]. split; [|done]. cbn. apply push_only_active; [apply activate_only_active|].
  unfold generation_states_for_plan. apply Forall_fmap, Forall_forall. done.
Qed.

Lemma swap_generation_spec plan registry s s' :
  rt_ok s → swap_generation plan registry s = Some (Ok tt, s') →
  rt_load_plan s' = plan ∧ rt_surfaces s' = plan_contract_surfaces plan ∧
  rt_protocol_classes s' = protocol_classes_for_plan plan ∧ rt_registry s' = registry ∧
  p_tasks (rt_tasks s') =
    rebound (plan_registry_generation (rt_load_plan s)) (plan_registry_generation plan) <$> p_tasks (rt_tasks s) ∧
  only_active (plan_registry_generation plan) (rt_generation_states s').
Proof.
  intros Hok Hrun. unfold swap_generation in Hrun. apply bind_inv in Hrun as ([] & s1 & H1 & Hrun).
  apply bind_inv in Hrun as ([] & s2 & H2 & Hrun). apply bind_inv in Hrun as ([] & s3 & H3 & Hrun).
  apply bind_inv in Hrun as ([] & s4 & H4 & Hrun). apply try_inv in Hrun as (bag & s5 & H5 & H6).
  assert (s' = s5) as -> by (by injection H6). clear H6.
  destruct (event_installed _ _ _ _ _ _ _ H1) as [E1 E1'].
  assert (pool_inv (rt_tasks s1)) as Hinv by (rewrite E1'; by apply reachable_inv, ok_tasks).
  destruct (apply_load_plan_spec _ _ _ Hinv H2) as (P1 & P2 & P3 & P4). rewrite E1, E1' in P4.
  destruct (set_registry_spec _ _ _ H3) as (G1 & G2 & G3 & G4 & G5).
  destruct (set_active_spec _ _ H4) as (K & K1 & K2 & K3 & K4 & K5).
  pose proof (settle_installed _ _ _ H5) as Hinst. unfold installed in Hinst.
  assert (rt_load_plan s3 = plan) as Hplan by congruence. rewrite Hplan in K.
  split_and!; [congruence..|]. by apply (settle_only_active _ _ _ _ H5).
Qed.

Lemma leaves_try_for_each {S A B} (f : S → B) (l : list A) (body : A → M S (RuntimeResult unit)) (s : S) :
  (∀ x t, leaves f (body x) t) → leaves f (try_for_each l body) s.
Proof.
  intros Hb. revert s. induction l as [|x l IH]; intros s; cbn [try_for_each]; [apply leaves_ret|]. by apply leaves_try.
Qed.

Lemma tasks_plan {A} (c : M TaskPool A) s : leaves rt_load_plan (on_tasks c) s.
Proof. intros a s'. unfold on_tasks. destruct (c (rt_tasks s)) as [[? ?]|]; [|done]. by intros [= _ <-]. Qed.

Lemma registry_plan {A} (c : M RunnerRegistry A) s : leaves rt_load_plan (on_registry c) s.
Proof. intros a s'. unfold on_registry. destruct (c (rt_registry s)) as [[? ?]|]; [|done]. by intros [= _ <-]. Qed.

Lemma event_plan kind name subject attrs error s : leaves rt_load_plan (record_event kind name subject attrs error) s.
Proof. by apply leaves_modify. Qed.
Hint Resolve tasks_plan registry_plan event_plan : frame.

Lemma handle_invocation_plan disposition s : leaves rt_load_plan (handle_invocation disposition) s.
Proof. unfold handle_invocation. leaves_go. Qed.

Lemma retire_registry_plan gen ids dispositions s : leaves rt_load_plan (retire_registry gen ids dispositions) s.
Proof. unfold retire_registry, mark_generation_phase. leaves_go. Qed.

(** ** The states of the generations *)

Abbreviation states := rt_generation_states.
Definition draining_gens s : list N := dg_registry_generation <$> rt_draining_generations s.

Definition disposed_among (gens : list N) (st : PluginGenerationState) : PluginGenerationState :=
  if decide (pgs_generation st ∈ gens) then set_phase Disposed st else st.

Lemma disposed_none (l : list PluginGenerationState) : disposed_among [] <$> l = l.
Proof. induction l as [|st l IH]; [done|]. rewrite fmap_cons, IH. unfold disposed_among. by rewrite decide_False by set_solver. Qed.

Lemma mark_all_states gens s a s' :
  for_each gens (λ g, mark_generation_phase g Disposed) s = Some (a, s') → states s' = disposed_among gens <$> states s.
Proof.
  revert s. induction gens as [|g gens IH]; intros s; cbn [for_each].
  - intros [= _ <-]. by rewrite disposed_none.
  - intros ([] & t & [= <-] & ->%IH)%bind_inv. cbn. rewrite <-list_fmap_compose. apply list_fmap_ext. intros _ st _. cbn.
    unfold disposed_among. destruct (decide (pgs_generation st = g)) as [<-|Hne]; cbn.
    + rewrite (decide_True (P := _ ∈ _ :: _)) by set_solver. by case_decide.
    + destruct (decide (pgs_generation st ∈ gens)); [by rewrite decide_True by set_solver|by rewrite decide_False by set_solver].
Qed.

Lemma settle_loop_generations p generations st st' :
  settle_loop p generations st = Some (Ok st') →
  se_generations st' ⊆ se_generations st ++ (dg_registry_generation <$> generations).
Proof.
  revert st. induction generations as [|g generations IH]; intros st; cbn [settle_loop]; [intros [= <-]; set_solver|].
  destruct (still_running p g); [intros H%IH; set_solver|].
  destruct (dispose_all _) as [[[bag|e] r]|]; [|done..]. intros H%IH. cbn in H. set_solver.
Qed.

Lemma settle_states s bag s' :
  settle_draining_generations s = Some (Ok bag, s') →
  ∃ gens, gens ⊆ draining_gens s ∧ states s' = disposed_among gens <$> states s.
Proof.
  unfold settle_draining_generations. intros Hrun. apply bind_inv in Hrun as (self & t & [= <- <-] & Hrun).
  apply bind_inv in Hrun as (settled & t & Ht & Hrun). destruct (settle_loop _ _ _) as [res|] eqn:Hloop; [|done].
  injection Ht as -> <-. apply bind_inv in Hrun as ([] & t & [= <-] & Hrun). destruct settled as [st|e]; [|done].
  apply bind_inv in Hrun as ([] & t & [= <-] & Hrun). apply bind_inv in Hrun as ([] & t & Ht & [= _ <-]).
  exists (se_generations st). split; [by apply settle_loop_generations in Hloop|]. by apply mark_all_states in Ht.
Qed.

Lemma retire_states gen ids dispositions s s' :
  retire_registry gen ids dispositions s = Some (Ok tt, s') →
  rt_tasks s' = rt_tasks s ∧ draining_gens s' ⊆ draining_gens s ++ [gen] ∧
  ∃ gens, gens ⊆ [gen] ∧ states s' = disposed_among gens <$> states s.
Proof.
  unfold retire_registry. intros Hrun. apply bind_inv in Hrun as (self & t & [= <- <-] & Hrun). cbv zeta in Hrun.
  apply bind_inv in Hrun as ([] & t & [= <-] & Hrun). destruct (existsb _ _).
  - injection Hrun as <-. split_and!; [done|unfold draining_gens; cbn; by rewrite fmap_app|].
    exists []. split; [set_solver|]. by rewrite disposed_none.
  - apply bind_inv in Hrun as (d & t & Hd & Hrun). destruct (dispose_all _) as [[d' r]|]; [|done]. injection Hd as -> <-.
    destruct d as [bag|e]; [|done]. injection Hrun as <-. split_and!; [done|set_solver|]. exists [gen]. split; [done|]. cbn.
    apply list_fmap_ext. intros _ st _. unfold disposed_among.
    destruct (decide (pgs_generation st = gen)); [by rewrite decide_True by set_solver|by rewrite decide_False by set_solver].
Qed.

(** Pushing keeps every state and adds each new one unless there is one of its
    plugin and generation. *)
Lemma push_states old new st :
  st ∈ foldl push_new_state old new → st ∈ old ∨ st ∈ new.
Proof.
  revert old. induction new as [|n new IH]; intros old; cbn; [by left|]. intros [H|H]%IH; [|set_solver].
  revert H. unfold push_new_state. case_match; set_solver.
Qed.
Lemma push_states_old old new st : st ∈ old → st ∈ foldl push_new_state old new.
Proof.
  revert old. induction new as [|n new IH]; intros old Hst; [done|]. apply IH. unfold push_new_state. case_match; set_solver.
Qed.
Lemma push_states_new old new n :
  n ∈ new → ∃ st, st ∈ foldl push_new_state old new ∧ pgs_plugin_id st = pgs_plugin_id n ∧ pgs_generation st = pgs_generation n.
Proof.
  revert old. induction new as [|n' new IH]; intros old; [intros []%not_elem_of_nil|]. intros [->|Hn]%elem_of_cons; [|by apply IH].
  assert (∃ st, st ∈ push_new_state old n' ∧ pgs_plugin_id st = pgs_plugin_id n' ∧ pgs_generation st = pgs_generation n') as (st & Hst & Hid & Hg).
  { unfold push_new_state. destruct (existsb _ _) eqn:He; [|exists n'; split; [set_solver|done]].
    apply existsb_exists in He as (st & Hst%list_elem_of_In & [H1%bool_decide_eq_true H2%bool_decide_eq_true]%andb_prop). by exists st. }
  exists st. split_and!; [|done|done]. cbn. by apply push_states_old.
Qed.

(** ** Ready tasks during a reload *)

Definition keeps_ready s s' : Prop := ∀ id r, p_tasks (rt_tasks s) !! id = Some r → r_status r = Ready →
  p_tasks (rt_tasks s') !! id = Some r.

(** What a reload does before the swap leaves the states, the draining
    generations and the ready tasks. *)
Definition gens_of s : list PluginGenerationState * list DrainingGeneration := (states s, rt_draining_generations s).

Lemma tasks_gens {A} (c : M TaskPool A) s : leaves gens_of (on_tasks c) s.
Proof. intros a s'. unfold on_tasks. destruct (c (rt_tasks s)) as [[? ?]|]; [|done]. by intros [= _ <-]. Qed.
Lemma registry_gens {A} (c : M RunnerRegistry A) s : leaves gens_of (on_registry c) s.
Proof. intros a s'. unfold on_registry. destruct (c (rt_registry s)) as [[? ?]|]; [|done]. by intros [= _ <-]. Qed.
Lemma event_gens kind name subject attrs error s : leaves gens_of (record_event kind name subject attrs error) s.
Proof. by apply leaves_modify. Qed.
Hint Resolve tasks_gens registry_gens event_gens : frame.
Lemma handle_invocation_gens disposition s : leaves gens_of (handle_invocation disposition) s.
Proof. unfold handle_invocation. leaves_go. Qed.
Lemma apply_load_plan_gens plan s : leaves gens_of (apply_load_plan plan) s.
Proof. unfold apply_load_plan. leaves_go. Qed.

Lemma registry_tasks {A} (c : M RunnerRegistry A) s a s' : on_registry c s = Some (a, s') → rt_tasks s' = rt_tasks s.
Proof. unfold on_registry. destruct (c (rt_registry s)) as [[? ?]|]; [|done]. by intros [= _ <-]. Qed.

Lemma handle_invocation_ready disposition s a s' :
  rt_ok s → handle_invocation disposition s = Some (a, s') → keeps_ready s s'.
Proof.
  intros Hok. unfold handle_invocation. destruct (needs_drain _); [by intros [= _ <-] id r|].
  intros Hrun. unfold try_bind in Hrun. apply bind_inv in Hrun as (res & s1 & H1%registry_tasks & Hrun).
  destruct res as [[]|e]; [|injection Hrun as _ <-; intros id r; by rewrite H1].
  apply bind_inv in Hrun as (self & t & [= <- <-] & Hrun). apply bind_inv in Hrun as (n & s2 & H2 & Hrun).
  assert (rt_tasks s' = rt_tasks s2) as Hs' by (by injection Hrun as _ <-). clear Hrun.
  intros id r Hr Hready. rewrite Hs'. unfold on_tasks in H2. rewrite H1 in H2.
  pose proof (cancel_running_invocation_spec (rt_tasks s) (dsp_runner_id disposition) (dsp_invocation_id disposition) (rt_current_step s1)
    (reachable_inv _ (ok_tasks _ Hok))) as Hspec.
  destruct (find_running_invocation _ _ _) as [id'|].
  - destruct Hspec as (r' & p' & Hr' & (Hrunning & _) & Hc & _ & _ & Htab). rewrite Hc in H2. injection H2 as _ <-. cbn. rewrite Htab.
    rewrite lookup_insert_ne; [done|]. intros ->. congruence.
  - rewrite Hspec in H2. by injection H2 as _ <-.
Qed.

Lemma handle_all_ready dispositions s a s' :
  rt_ok s → try_for_each dispositions handle_invocation s = Some (a, s') → keeps_ready s s'.
Proof.
  revert s. induction dispositions as [|d dispositions IH]; intros s Hok; cbn [try_for_each]; [by intros [= _ <-] id r|].
  intros (res & s1 & H1 & Hrun)%bind_inv. pose proof (handle_invocation_ready _ _ _ _ Hok H1) as Hk.
  destruct (runs_det _ _ _ _ _ (handle_invocation_any d s Hok) H1) as (Hok1 & _).
  destruct res as [[]|e]; [|injection Hrun as _ <-; exact Hk].
  intros id r Hr Hready. eapply IH; [exact Hok1|exact Hrun| |done]. by apply Hk.
Qed.

(** ** A reload that succeeds *)

(** The states after a reload: new ones pushed as starting, the old registry's
    disposed if it was, all activated for the new generation, then the settled
    ones disposed. *)
Definition reloaded_states (old : list PluginGenerationState) (plan : RuntimeLoadPlan) (retired settled : list N) :
    list PluginGenerationState :=
  disposed_among settled <$>
    foldl push_new_state
      (activate_state (plan_registry_generation plan) <$>
         (disposed_among retired <$> foldl push_new_state old (generation_states_for_plan plan ShadowStarting)))
      (generation_states_for_plan plan PhaseActive).

Lemma planned_state plan phase m :
  m ∈ plan_plugins plan →
  MkPluginGenerationState (pm_plugin_id m) (plan_registry_generation plan) phase ∈ generation_states_for_plan plan phase.
Proof. intros Hm. apply list_elem_of_fmap. by exists m. Qed.

Lemma reloaded_states_active old plan retired settled :
  plan_registry_generation plan ∉ settled →
  (∀ st, st ∈ reloaded_states old plan retired settled → pgs_generation st = plan_registry_generation plan → pgs_phase st = PhaseActive) ∧
  (∀ m, m ∈ plan_plugins plan → ∃ st, st ∈ reloaded_states old plan retired settled ∧
     pgs_plugin_id st = pm_plugin_id m ∧ pgs_generation st = plan_registry_generation plan).
Proof.
  intros Hn. unfold reloaded_states. set (mid := _ <$> (_ <$> _)). split.
  - intros st (st0 & -> & Hst)%list_elem_of_fmap. unfold disposed_among. case_decide as Hd; [|intros Hg]; cbn; [congruence|].
    apply push_states in Hst as [Hst|Hst].
    + unfold mid in Hst. apply list_elem_of_fmap in Hst as (st1 & -> & _). revert Hg. unfold activate_state. case_decide; [done|].
      case_decide; cbn; congruence.
    + by apply list_elem_of_fmap in Hst as (m & -> & _).
  - intros m Hm. destruct (push_states_new mid _ _ (planned_state plan PhaseActive m Hm)) as (st & Hst & Hid & Hg). cbn in Hid, Hg.
    exists (disposed_among settled st). split; [by apply list_elem_of_fmap_2|]. unfold disposed_among. by case_decide.
Qed.

Lemma reloaded_states_old old plan retired settled st :
  st ∈ old → pgs_generation st ≠ plan_registry_generation plan → pgs_phase st = PhaseActive →
  ∃ st', st' ∈ reloaded_states old plan retired settled ∧ pgs_plugin_id st' = pgs_plugin_id st ∧
    pgs_generation st' = pgs_generation st ∧ (pgs_phase st' = PhaseDraining ∨ pgs_phase st' = Disposed).
Proof.
  intros Hst Hne Hact. exists (disposed_among settled (activate_state (plan_registry_generation plan) (disposed_among retired st))).
  split; [by apply list_elem_of_fmap_2, push_states_old, list_elem_of_fmap_2, list_elem_of_fmap_2, push_states_old|].
  unfold disposed_among, activate_state. repeat (case_decide; cbn in *; try done); auto.
Qed.

(** Where the parts of a successful reload end up *)
Lemma reload_parts s plan runners handlers decision s' :
  rt_ok s → reload_with_async_handlers plan runners handlers s = Some (Ok decision, s') →
  ∃ s3 registry retired settled,
    rt_ok s3 ∧ build_registry runners handlers RunnerRegistry_default = Some (Ok tt, registry) ∧
    swap_generation plan registry s3 = Some (Ok tt, s') ∧ rt_load_plan s3 = rt_load_plan s ∧ keeps_ready s s3 ∧
    settled ⊆ plan_registry_generation (rt_load_plan s) :: draining_gens s ∧
    states s' = reloaded_states (states s) plan retired settled.
Proof.
  intros Hok Hrun. unfold reload_with_async_handlers in Hrun.
  apply bind_inv in Hrun as (self & t & [= <- <-] & Hrun). cbv zeta in Hrun.
  destruct (letr? _ := validate_runtime_descriptors _ _ in _) as [d|e]; [|done].
  destruct (build_registry_runs runners handlers) as (res & registry & Hb & Hreg). rewrite Hb in Hrun.
  apply bind_inv in Hrun as (built & t & [= <- <-] & Hrun). destruct res as [[]|e]; [|done].
  apply bind_inv in Hrun as ([] & s1 & H1 & Hrun). apply try_inv in Hrun as ([] & s2 & H2 & Hrun).
  apply try_inv in Hrun as ([] & s3 & H3 & Hrun). apply try_inv in Hrun as ([] & s4 & H4 & [= <- <-]).
  assert (rt_ok s1) as Hok1 by (injection H1 as <-; by destruct Hok; split).
  assert (rt_ok s2) as Hok2.
  { eapply (runs_det _ _ _ _ _ (keeps_try_for_each anything _ handle_invocation s1 Hok1 ltac:(intros; by apply handle_invocation_any)) H2). }
  assert (rt_ok s3) as Hok3 by (eapply (runs_det _ _ _ _ _ (retire_registry_any _ _ _ s2 Hok2) H3)).
  pose proof (leaves_try_for_each gens_of _ _ _ handle_invocation_gens _ _ H2) as E2. injection E2 as E2 E2'.
  destruct (retire_states _ _ _ _ _ H3) as (Et & Hd & retired & _ & E3).
  unfold swap_generation in H4. pose proof H4 as Hswap. apply bind_inv in H4 as ([] & t4 & H41 & H4).
  apply bind_inv in H4 as ([] & t5 & H42 & H4). apply bind_inv in H4 as ([] & t6 & [= <-] & H4).
  apply bind_inv in H4 as ([] & t7 & [= <-] & H4). apply try_inv in H4 as (bag & t8 & H4 & [= <-]).
  pose proof (event_gens _ _ _ _ _ _ _ _ H41) as E4. pose proof (apply_load_plan_gens _ _ _ _ H42) as E5. rewrite E4 in E5.
  injection E5 as E5 E5'. apply settle_states in H4 as (settled & Hset & E6). cbn in E6, Hset.
  assert (rt_load_plan t5 = plan) as Hplan by (revert H42; unfold apply_load_plan, bind, get; by destruct (on_tasks _ _) as [[]|]; [intros [= <-]|]).
  exists s3, registry, retired, settled. split_and!; [done|done|exact Hswap| | | |].
  - rewrite (retire_registry_plan _ _ _ _ _ _ H3), (leaves_try_for_each _ _ _ _ (handle_invocation_plan) _ _ H2). by injection H1 as <-.
  - intros id r Hr Hready. rewrite Et. eapply handle_all_ready; [exact Hok1|exact H2| |done]. by injection H1 as <-.
  - unfold draining_gens in *. cbn in Hset. rewrite E5' in Hset. assert (rt_draining_generations s2 = rt_draining_generations s) as E by (rewrite E2'; by injection H1 as <-).
    rewrite E in Hd. set_solver.
  - rewrite E6, Hplan, E5, E3, E2. by injection H1 as <-.
Qed.

(** C16: a reload that succeeds has replaced the generation as a whole.  The
    surfaces were compatible, the plan, its surfaces and protocol classes are
    the new ones, the registry is the one built from the new runners and is
    frozen.  Every task that was ready is ready still, those bound to the old
    generation are bound to the new one, and no ready task is left bound to the
    old one.  No generation but the new one is active: what was active before is
    draining or disposed; and when the number of the new generation is not that
    of the old one or of one still draining, every plugin of the new plan has a
    state and all states of the new generation are active. *)
Theorem reload_installs_new_generation s plan runners handlers decision s' :
  rt_reachable s → reload_with_async_handlers plan runners handlers s = Some (Ok decision, s') →
  let old_generation := plan_registry_generation (rt_load_plan s) in
  let new_generation := plan_registry_generation plan in
  rd_blocked decision = false ∧
  rt_load_plan s' = plan ∧ rt_surfaces s' = plan_contract_surfaces plan ∧
  rt_protocol_classes s' = protocol_classes_for_plan plan ∧
  (∃ registry, build_registry runners handlers RunnerRegistry_default = Some (Ok tt, registry) ∧ rt_registry s' = registry) ∧
  (∀ id r, p_tasks (rt_tasks s) !! id = Some r → r_status r = Ready →
    ∃ r', p_tasks (rt_tasks s') !! id = Some r' ∧ r_status r' = Ready ∧
      t_registry_generation (r_task r') =
        (if decide (t_registry_generation (r_task r) = old_generation) then new_generation else t_registry_generation (r_task r))) ∧
  (∀ id r, p_tasks (rt_tasks s') !! id = Some r → r_status r = Ready →
    t_registry_generation (r_task r) = old_generation → new_generation = old_generation) ∧
  (∀ st, st ∈ rt_generation_states s' → pgs_phase st = PhaseActive → pgs_generation st = new_generation) ∧
  (∀ st, st ∈ rt_generation_states s → pgs_generation st ≠ new_generation → pgs_phase st = PhaseActive →
    ∃ st', st' ∈ rt_generation_states s' ∧ pgs_plugin_id st' = pgs_plugin_id st ∧ pgs_generation st' = pgs_generation st ∧
      (pgs_phase st' = PhaseDraining ∨ pgs_phase st' = Disposed)) ∧
  (new_generation ≠ old_generation → new_generation ∉ dg_registry_generation <$> rt_draining_generations s →
    (∀ m, m ∈ plan_plugins plan → ∃ st, st ∈ rt_generation_states s' ∧
       pgs_plugin_id st = pm_plugin_id m ∧ pgs_generation st = new_generation) ∧
    ∀ st, st ∈ rt_generation_states s' → pgs_generation st = new_generation → pgs_phase st = PhaseActive).
Proof.
  intros Hs Hrun. pose proof (rt_reachable_ok _ Hs) as Hok. cbv zeta.
  destruct (reload_parts _ _ _ _ _ _ Hok Hrun) as (s3 & registry & retired & settled & Hok3 & Hb & H4 & Eplan & Hready & Hset & Hstates).
  destruct (swap_generation_spec _ _ _ _ Hok3 H4) as (Hp & Hsf & Hcl & Hr & Htab & Hact). rewrite Eplan in Htab. split_and!; try done.
  - unfold reload_with_async_handlers in Hrun. apply bind_inv in Hrun as (self & t & [= <- <-] & Hrun). cbv zeta in Hrun.
    destruct (letr? _ := validate_runtime_descriptors _ _ in _) as [d|e] eqn:Hcheck; [|done]. rewrite Hb in Hrun.
    apply bind_inv in Hrun as (built & t & [= <- <-] & Hrun). apply bind_inv in Hrun as ([] & s1 & H1 & Hrun).
    apply try_inv in Hrun as ([] & s2 & H2 & Hrun). apply try_inv in Hrun as ([] & s3' & H3 & Hrun).
    apply try_inv in Hrun as ([] & s4 & _ & [= <- _]).
    unfold check_reload in Hcheck. destruct (validate_runtime_descriptors _ _); [|done]. cbn in Hcheck.
    destruct (compare_surfaces _ _ _) as [d'|]; [|done]. cbn in Hcheck. destruct (rd_blocked d') eqn:E; [done|]. by injection Hcheck as <-.
  - by exists registry.
  - intros id r Hl Hst. exists (rebound (plan_registry_generation (rt_load_plan s)) (plan_registry_generation plan) r).
    rewrite Htab, lookup_fmap, (Hready _ _ Hl Hst), rebound_status. split_and!; [done|done|].
    unfold rebound, rebinds. rewrite bool_decide_eq_true_2 by done. cbn. case_decide as Hg; [by rewrite Hg, N.eqb_refl|].
    by rewrite (proj2 (N.eqb_neq _ _) Hg).
  - intros id r Hl Hst Hgen. rewrite Htab in Hl. apply lookup_fmap_Some in Hl as (r0 & <- & _).
    rewrite rebound_status in Hst. unfold rebound in Hgen. destruct (rebinds _ r0) eqn:E; [done|].
    unfold rebinds in E. by rewrite bool_decide_eq_true_2, Hgen, N.eqb_refl in E.
  - intros st Hst. unfold only_active in Hact. rewrite Forall_forall in Hact. by apply Hact.
  - intros st. rewrite Hstates. apply reloaded_states_old.
  - intros Hne Hnd. rewrite Hstates. destruct (reloaded_states_active (states s) plan retired settled) as [H1 H2]; [|done].
    unfold draining_gens in Hset. set_solver.
Qed.

(** ** A reload that fails while it disposes *)

Lemma retire_registry_error gen ids s e old_registry :
  dispose_all (rt_registry s) = Some (Err e, old_registry) →
  retire_registry gen ids [] s = Some (Err e, s <| rt_registry := RunnerRegistry_default |>).
Proof.
  intros Hd. unfold retire_registry. rewrite (bind_run get _ s s s) by done. cbv zeta.
  rewrite (bind_run (modify _) _ s tt (s <| rt_registry := RunnerRegistry_default |>)) by done. cbn [existsb]. rewrite Hd. done.
Qed.

(** a reload that cannot dispose of the old runners leaves the runtime without
    any.  When nothing is running and a runner of the old generation fails to
    dispose, the reload returns that error after the old registry was taken out
    and before the new one was put in: the old plan is still in force, with an
    empty registry. *)
Theorem reload_dispose_error_empties_registry s plan runners handlers decision registry e old_registry :
  validate_runtime_descriptors plan ((runner_descriptor <$> runners) ++ (handler_descriptor <$> handlers)) = Ok tt →
  check_reload s plan = Ok decision →
  build_registry runners handlers RunnerRegistry_default = Some (Ok tt, registry) →
  running_records (rt_tasks s) = [] → dispose_all (rt_registry s) = Some (Err e, old_registry) →
  ∃ s', reload_with_async_handlers plan runners handlers s = Some (Err e, s') ∧
    rt_registry s' = RunnerRegistry_default ∧ rt_load_plan s' = rt_load_plan s ∧ rt_tasks s' = rt_tasks s.
Proof.
  intros Hv Hc Hb Hrun Hd. eexists. split.
  - unfold reload_with_async_handlers. rewrite (bind_run get _ s s s) by done. cbv zeta. rewrite Hv. cbn [rbind]. rewrite Hc, Hb.
    unfold expect at 1. rewrite (bind_ret_l (Ok tt, registry)).
    match goal with |- bind (modify ?f) _ _ = _ => set (s1 := f s) end.
    rewrite (bind_run (modify _) _ s tt s1) by done.
    unfold classify_running_invocations. rewrite Hrun. cbn [omap list_omap try_for_each].
    unfold try_bind at 1. rewrite (bind_ret_l (Ok tt)). unfold try_bind at 1.
    rewrite (bind_run _ _ s1 _ _ (retire_registry_error _ _ s1 e old_registry Hd)). reflexivity.
  - done.
Qed.
End ReloadFacts.
