(* ===== verification/RuntimeWitnesses.v ===== *)
(** * Concrete runs of the core runtime

    A plan with one plugin, a worker and the kernel; runtimes reached from its
    boot by running operations, to which the theorems on the runtime are
    applied.

    Below, runs that dispatch, route and reload. *)

From S2P Require Import Prelude Contracts RunnerContracts BatchContracts PluginContracts DemoJson Ids Logs StateStore ResourceManager ResourceOccupancy ResourceTheorems TaskRecords TaskIndexes IndexFacts TaskPool TaskClaiming PoolInvariant PoolHistory PoolSteps PoolKernelSteps PoolForced ClaimFacts PoolOps TaskOccupancy Registry RegistryTheorems RuntimeState RuntimeTasks BatchBuild RuntimeRouting RuntimeDispatch RuntimeReload RuntimeResources RuntimeInvariant RuntimeRuns RuntimePasses RuntimeOps RuntimeTheorems RuntimeClaims ReloadTheorems.

(** A runner is a descriptor and whether its disposal fails; it completes every
    entry it is given. *)
#[local] Instance DemoRunners : RunnerApi := {|
  Runner := RunnerDescriptor * bool;
  runner_descriptor := fst;
  runner_run_batch := λ _ batch runner,
    (Ok (from_results batch ((λ e, {| ec_entry_id := be_entry_id e; ec_task_id := be_task_id e;
       ec_result := Some (RunnerResult_completed (be_task_id e)); ec_error := None |}) <$> wb_entries batch)), runner);
  runner_cancel := λ _ runner, (Ok tt, runner);
  runner_dispose := λ runner, (if runner.2 then runtime_failure "demo.dispose" "demo" "demo" else Ok tt, runner);
  AsyncHandler := RunnerDescriptor;
  handler_descriptor := λ d, d;
  handler_dispose := λ _, None
|}.

(** A delta writes the value it is read from, at version zero, or at version
    one for "late". *)
#[local] Instance DemoSerde : SerdeTypes := {|
  delta_to_value := sdl_target_ref;
  delta_from_value := λ v, Ok (MkStateDelta v (if bool_decide (v = "late") then 1 else 0) v PolicyFail);
  event_to_value := dev_event_id;
  event_from_value := λ v, Ok (MkDomainEvent v "demo" v);
  effect_to_value := eff_effect_id;
  task_from_value := λ v, Ok (Task_new v "demo.run" (PayloadJson v))
|}.

Definition worker : RunnerDescriptor :=
  {| d_runner_id := "a.worker"; d_plugin_id := "p"; d_plugin_generation := 1; d_accepted_protocol_ids := ["demo.run"];
     d_purity := Pure; d_execution_class := Cpu; d_invocation_mode := SyncExclusive; d_concurrency := Exclusive;
     d_input_schema := json_empty_object; d_output_schema := json_empty_object;
     d_batch := RunnerBatchCapability_default; d_payload := RunnerPayloadCapability_default;
     d_resources := RunnerResourceCapability_default; d_ordering := RunnerOrderingCapability_default;
     d_control := RunnerControlCapability_default; d_metadata := ∅; d_contract_surfaces := [] |}.

Definition kernel : RunnerDescriptor := core_kernel_descriptor 1.

Definition demo_provides : PluginProvides :=
  {| pv_runners := [worker; kernel]; pv_protocols := [];
     pv_protocol_classes := {[ "demo.run" := ProtocolDomain; "core.commit" := ProtocolCore; "core.event.append" := ProtocolCore ]};
     pv_handler_bindings := []; pv_resource_schemas := []; pv_resource_providers := []; pv_resource_types := [];
     pv_effects := []; pv_streams := []; pv_subscriptions := []; pv_timers := []; pv_state_schemas := [];
     pv_host_extensions := []; pv_plugin_backends := []; pv_codecs := []; pv_bridges := [];
     pv_scheduler_policies := []; pv_workflows := [] |}.

Definition demo_plan (generation : N) : RuntimeLoadPlan :=
  {| plan_lock_version := 1; plan_core_api_version := "1"; plan_profile_id := "demo"; plan_profile_hash := "";
     plan_registry_generation := generation;
     plan_plugins := [{| pm_plugin_id := "p"; pm_version := "1"; pm_api_version := "1";
       pm_artifact := MkPluginArtifact ArtifactNative "" ""; pm_provides := demo_provides; pm_requires := [];
       pm_permissions := MkPermissionGrant [] []; pm_lifecycle := MkLifecyclePolicy "" 0 true true false; pm_metadata := ∅ |}];
     plan_load_order := ["p"]; plan_runner_bindings := ∅; plan_plugin_deployments := ∅;
     plan_observability := ObservabilityProfile_default;
     plan_capability_graph := MkRuntimeCapabilityGraph FullDev [] [] [] [] [] [] [] [] [] [] [] [];
     plan_contract_surfaces := [] |}.

Definition booted (fails : bool) : CoreRuntime :=
  match boot (demo_plan 1) [(worker, fails); (kernel, false)] with
  | Some (Ok s) => s
  | _ => MkCoreRuntime (demo_plan 0) (from_load_plan (demo_plan 0)) [] ∅ RunnerRegistry_default [] [] TaskPool_default
           ResourceManager_new (MkStateStore ∅) (MkEventLog (log_empty (MkObservabilityOutletProfile 0 DropNew))) (MkTraceLog (log_empty (MkObservabilityOutletProfile 0 DropNew))) 0 0 StopRunning
  end.

Definition boots (fails : bool) : bool :=
  match boot (demo_plan 1) [(worker, fails); (kernel, false)] with Some (Ok _) => true | _ => false end.

Lemma booted_run fails : boots fails = true → boot (demo_plan 1) [(worker, fails); (kernel, false)] = Some (Ok (booted fails)).
Proof. unfold boots, booted. by destruct (boot _ _) as [[]|]. Qed.

(** ** Runs *)

Definition rt_after (op : RtOp) (s : CoreRuntime) : CoreRuntime :=
  match run_rt op s with Some (_, s') => s' | None => s end.

Lemma rt_after_reachable op s : rt_reachable s → rt_pre op → rt_room op s → rt_reachable (rt_after op s).
Proof.
  intros Hs Hpre Hroom. unfold rt_after. destruct (run_rt op s) as [[[] s']|] eqn:Hrun; [|done]. by eapply rt_reachable_step.
Qed.

Lemma demo_room n s :
  rt_states s = MkStateStore ∅ → (p_next_sequence (rt_tasks s) + n ≤ u64_max)%N →
  (N.of_nat (size (p_tasks (rt_tasks s))) + n ≤ usize_max)%N → (n ≤ u64_max)%N → allocatable TaskId n → room n s.
Proof. intros Hst H1 H2 H3 H4. split_and!; [done|done|done|]. intros ref_id. rewrite Hst. unfold current_version. cbn. by rewrite lookup_empty. Qed.

(** Discharges [room n s] for a concrete [s]. *)
Ltac demo_room := apply demo_room; [vm_compute; reflexivity|vm_compute; discriminate..].

Lemma demo_runners_serialize : runners_serialize.
Proof.
  intros ctx batch runner result runner' [= <- _] ec res Hin. cbn in Hin.
  apply list_elem_of_fmap in Hin as (e & -> & _). intros [= <-]. constructor.
Qed.

Lemma demo_runners_bounded : runners_bounded 0.
Proof.
  intros ctx batch runner result runner' [= <- _]. unfold completion_cost. cbn.
  induction (wb_entries batch) as [|e l IH]; [done|]. cbn. exact IH.
Qed.

Definition demo_task (id protocol_id payload : string) : Task := Task_new id protocol_id (PayloadJson payload).

Definition s0 : CoreRuntime := booted false.
Definition s1 : CoreRuntime := rt_after (RtSubmitTask (demo_task "t" "demo.run" "x")) s0.

Definition demo_schedule (_ : RunnerDescriptor) (load : RunnerLoad) (_ _ : N) (passed : nat) :
    option (RuntimeResult ScheduleDecision * nat) :=
  Some (Ok (ScheduleDecision_new "demo" (ld_queued_count load) "demo"), S passed).

(** The task is handed out for a hundred steps; then it is cancelled. *)
Definition s2 : CoreRuntime := rt_after (RtClaimDispatches nat demo_schedule 1 0 (Some 100%N)) s1.
Definition s3 : CoreRuntime := rt_after (RtCancelTask "t") s2.

Definition demo_lease : TaskLease :=
  {| l_lease_id := "task-lease-1-t-1"; l_task_id := "t"; l_attempt_generation := 1; l_runner_id := "a.worker";
     l_executor_id := "executor:a.worker"; l_registry_generation := 1; l_acquired_at_step := 1;
     l_expires_at_step := Some 100%N |}.

Example s2_lease : (p_tasks (rt_tasks s2) !! "t") ≫= r_lease = Some demo_lease.
Proof. vm_compute. reflexivity. Qed.

Lemma s0_reachable : rt_reachable s0.
Proof. eapply rt_reachable_boot. apply (booted_run false). vm_compute. reflexivity. Qed.

Lemma s1_reachable : rt_reachable s1.
Proof. apply rt_after_reachable; [apply s0_reachable|by eexists|demo_room]. Qed.

Lemma expires_u64 (e : N) : Some 100%N = Some e → (e ≤ u64_max)%N.
Proof. intros [= <-]. vm_compute. discriminate. Qed.

Lemma s2_reachable : rt_reachable s2.
Proof. apply rt_after_reachable; [apply s1_reachable|split; [by eexists|exact expires_u64]|demo_room]. Qed.

Lemma s3_reachable : rt_reachable s3.
Proof. by apply rt_after_reachable; [apply s2_reachable| |]. Qed.

(** A commit that expects a version the state does not have is refused and
    stays leased. *)
Definition s4 : CoreRuntime := rt_after (RtSubmitTask (demo_task "c" "core.commit" "late")) s0.
Definition s5 : CoreRuntime := rt_after RtTickOnce s4.

Lemma s5_reachable : rt_reachable s5.
Proof.
  apply rt_after_reachable.
  - apply rt_after_reachable; [apply s0_reachable|by eexists|demo_room].
  - exact demo_runners_serialize.
  - exists 0%N. split_and!; [exact demo_runners_bounded|demo_room|vm_compute; discriminate].
Qed.

Definition commit_lease : TaskLease :=
  {| l_lease_id := "task-lease-1-c-1"; l_task_id := "c"; l_attempt_generation := 1; l_runner_id := "core.kernel";
     l_executor_id := "executor:core.kernel"; l_registry_generation := 1; l_acquired_at_step := 1;
     l_expires_at_step := Some 2%N |}.

Example s5_lease : (p_tasks (rt_tasks s5) !! "c") ≫= r_lease = Some commit_lease.
Proof. vm_compute. reflexivity. Qed.

(** ** The theorems at these states *)

Lemma runtime_refines_components_witness :
  ∃ s', run_rt (RtSubmitTask (demo_task "t" "demo.run" "x")) s0 = Some (tt, s') ∧ rtc pool_step (rt_tasks s0) (rt_tasks s').
Proof.
  destruct (runtime_refines_components s0 (RtSubmitTask (demo_task "t" "demo.run" "x"))) as (s' & Hrun & _ & Hpool & _).
  - apply s0_reachable.
  - by eexists.
  - demo_room.
  - exists s'. exact (conj Hrun Hpool).
Defined.

Definition aborted : CoreRuntime := rt_after (RtAbort "stop") s1.

Lemma aborted_is_final_witness : tick_once aborted = Some (runtime_failure ERR_RUNTIME_ABORTED "runtime.lifecycle" "runtime.execute.aborted", aborted).
Proof.
  apply (aborted_is_final aborted).
  - by apply rt_after_reachable; [apply s1_reachable| |].
  - vm_compute. reflexivity.
Defined.

Definition draining : CoreRuntime := rt_after RtBeginDrain s3.

Lemma is_drained_exact_witness : rt_stop_state draining = StopDraining ∧
  ∀ id r, p_tasks (rt_tasks draining) !! id = Some r → is_terminal_status (r_status r) = true.
Proof.
  apply (is_drained_exact draining).
  - by apply rt_after_reachable; [apply s3_reachable| |].
  - vm_compute. reflexivity.
Defined.

(** The task waits for a child that it submits with its result, and the child
    is handed out. *)
Definition demo_await : TaskAwait :=
  {| aw_parent_task_id := "t"; aw_child := MkTaskHandle "c" "demo.run" None Cascade None None;
     aw_continuation := {| cont_continuation :=
         {| rr_ref_id := "k"; rr_resource_id := MkResourceId "demo" "k" 1 1; rr_semantic := CowVersionedState; rr_provider_id := "demo";
            rr_resource_kind := "demo"; rr_schema := ""; rr_version := 1; rr_generation := 1; rr_access := AccessInline;
            rr_size_hint := None; rr_content_hash := None; rr_lifetime := Persistent; rr_lease := None;
            rr_seal_state := Sealed |};
       cont_wake := None; cont_reason := None |};
     aw_cancel_policy := Cascade |}.

Definition waiting_result : RunnerResult :=
  {| rres_task_id := "t"; rres_output := None; rres_deltas := []; rres_events := []; rres_tasks := [demo_task "c" "demo.run" "y"];
     rres_effects := []; rres_values := []; rres_resources := []; rres_task_await := Some demo_await; rres_status := StatusWaiting |}.

Definition waiting_completion : RunnerCompletion :=
  {| rcp_runner := Some (worker, false); rcp_task_leases := [demo_lease]; rcp_batch_id := "b";
     rcp_expected_entries := [MkBatchEntry "t" "t" None None 0 [] None None 0 LaneNormal OrderingNone];
     rcp_result := Ok (MkCompletionBatch "b" "tick-1"
       [{| ec_entry_id := "t"; ec_task_id := "t"; ec_result := Some waiting_result; ec_error := None |}] []) |}.

Definition s_waiting : CoreRuntime := rt_after (RtCompleteDispatch waiting_completion) s2.
Definition s_child : CoreRuntime := rt_after (RtClaimDispatches nat demo_schedule 2 0 (Some 100%N)) s_waiting.

Definition child_lease : TaskLease :=
  {| l_lease_id := "task-lease-2-c-1"; l_task_id := "c"; l_attempt_generation := 1; l_runner_id := "a.worker";
     l_executor_id := "executor:a.worker"; l_registry_generation := 1; l_acquired_at_step := 2;
     l_expires_at_step := Some 100%N |}.

Lemma s_waiting_reachable : rt_reachable s_waiting.
Proof.
  apply rt_after_reachable; [apply s2_reachable| |demo_room].
  intros result [= <-] ec res Hin Hres. apply list_elem_of_singleton in Hin as ->. injection Hres as <-.
  constructor; [by eexists|constructor].
Qed.

Lemma s_child_reachable : rt_reachable s_child.
Proof. apply rt_after_reachable; [apply s_waiting_reachable|split; [by eexists|exact expires_u64]|demo_room]. Qed.

Lemma finished_task_wakes_waiters_witness :
  waits_for (rt_tasks s_child) "t" "c" ∧
  ∃ s' r, commit_result_status worker child_lease "c" StatusCompleted None None s_child = Some (Ok 1%N, s') ∧
    p_tasks (rt_tasks s') !! "t" = Some r ∧ r_status r = Ready ∧ ∀ q, ¬ waits_for (rt_tasks s') q "c".
Proof.
  assert (waits_for (rt_tasks s_child) "t" "c") as Hw.
  { exists demo_await. split; [|reflexivity]. exists [demo_await]. split; [vm_compute; reflexivity|apply list_elem_of_here]. }
  split; [exact Hw|].
  destruct (p_tasks (rt_tasks s_child) !! "t") as [r|] eqn:Hr; [|exfalso; revert Hr; vm_compute; discriminate].
  destruct (finished_task_wakes_waiters s_child worker child_lease StatusCompleted None None) as (s' & Hrun & _ & Hno & Hwoken).
  - apply s_child_reachable.
  - constructor.
  - vm_compute. reflexivity.
  - destruct (Hwoken "t" r Hw Hr) as (r' & Hr' & Hready & _). exists s', r'. exact (conj Hrun (conj Hr' (conj Hready Hno))).
Defined.

Lemma late_result_changes_nothing_witness :
  ∃ stats events, route_entry_completion worker demo_lease
    {| ec_entry_id := "t"; ec_task_id := "t"; ec_result := Some (RunnerResult_completed "t"); ec_error := None |} s3
    = Some (Ok 0%N, reported s3 stats events).
Proof.
  destruct (p_tasks (rt_tasks s3) !! "t") as [r|] eqn:Hr; [|exfalso; revert Hr; vm_compute; discriminate].
  edestruct (late_result_changes_nothing s3 worker demo_lease) as (stats & events & Hrun & _).
  - apply s3_reachable.
  - exact Hr.
  - vm_compute. discriminate.
  - exists stats, events. exact Hrun.
Defined.

Lemma late_result_of_evicted_task_stops_batch_witness :
  ∃ e, route_entries worker [demo_lease] {[ "t" := demo_lease ]}
    [(MkBatchEntry "t" "t" None None 0 [] None None 0 LaneNormal OrderingNone,
      Some {| ec_entry_id := "t"; ec_task_id := "t"; ec_result := Some (RunnerResult_completed "t"); ec_error := None |})] 0 s0
    = Some (Err e, s0).
Proof.
  eexists. eapply late_result_of_evicted_task_stops_batch; vm_compute; reflexivity.
Defined.

Lemma cancelled_run id s :
  match cancel_task_by_id id s with Some (Ok _, _) => true | _ => false end = true →
  cancel_task_by_id id s = Some (Ok tt, rt_after (RtCancelTask id) s).
Proof. unfold rt_after, run_rt, forget, bind. by destruct (cancel_task_by_id id s) as [[[[]|] ?]|]. Qed.

Lemma cancellation_follows_awaits_witness :
  awaits (rt_tasks s_child) "t" "c" ∧
  ∃ r, p_tasks (rt_tasks (rt_after (RtCancelTask "t") s_child)) !! "c" = Some r ∧ is_terminal_status (r_status r) = true.
Proof.
  assert (awaits (rt_tasks s_child) "t" "c") as Hw.
  { exists demo_await. split; [|reflexivity]. exists [demo_await]. split; [vm_compute; reflexivity|apply list_elem_of_here]. }
  split; [exact Hw|].
  destruct (p_tasks (rt_tasks (rt_after (RtCancelTask "t") s_child)) !! "c") as [r|] eqn:Hr;
    [|exfalso; revert Hr; vm_compute; discriminate].
  exists r. split; [reflexivity|].
  apply (cancellation_follows_awaits s_child "t" (rt_after (RtCancelTask "t") s_child) "c").
  - apply s_child_reachable.
  - apply cancelled_run. vm_compute. reflexivity.
  - apply rtc_once, Hw.
  - exact Hr.
Defined.

(** ** Concrete runs of the passes, the kernel and the reload

    The theorems on claiming, on the kernel, on the reload and on batches, at
    the runtimes of [RuntimeWitnesses]. *)

#[local] Existing Instance DemoRunners.
#[local] Existing Instance DemoSerde.

(** What a run answers, and the state it leaves. *)
Definition answer {A} (c : M CoreRuntime (RuntimeResult A)) (s : CoreRuntime) (default : A) : A :=
  match c s with Some (Ok x, _) => x | _ => default end.

Definition after {A} (c : M CoreRuntime A) (s : CoreRuntime) : CoreRuntime :=
  match c s with Some (_, s') => s' | None => s end.

Definition succeeds {A} (c : M CoreRuntime (RuntimeResult A)) (s : CoreRuntime) : bool :=
  match c s with Some (Ok _, _) => true | _ => false end.

Lemma succeeds_run {A} (c : M CoreRuntime (RuntimeResult A)) s default :
  succeeds c s = true → c s = Some (Ok (answer c s default), after c s).
Proof. unfold succeeds, answer, after. by destruct (c s) as [[[] ?]|]. Qed.

(** ** Claiming *)

Definition claim_one : M CoreRuntime (RuntimeResult (RunnerLoopReport * list RunnerDispatch)) :=
  claim_runner_work worker (ScheduleDecision_new "demo" 1 "demo") (Some 100%N).

Definition claimed : RunnerLoopReport * list RunnerDispatch := answer claim_one s1 (empty_runner_loop_report, []).

Lemma worker_registered : worker ∈ reg_descriptor_snapshot (rt_registry s1).
Proof.
  assert (head (reg_descriptor_snapshot (rt_registry s1)) = Some worker) as Hhead by (vm_compute; reflexivity).
  revert Hhead. case (reg_descriptor_snapshot (rt_registry s1)) as [|d l]; [discriminate|]. intros [= ->]. left.
Qed.

Lemma claimed_tasks_accounted_witness :
  rep_claimed_tasks (fst claimed) = len (handed_out (snd claimed)) ∧ len (handed_out (snd claimed)) = 1%N.
Proof.
  destruct (claimed_tasks_accounted s1 worker (ScheduleDecision_new "demo" 1 "demo") (Some 100%N)
    (fst claimed) (snd claimed) (after claim_one s1)) as (Hcount & _).
  - apply s1_reachable.
  - apply worker_registered.
  - left. discriminate.
  - apply expires_u64.
  - demo_room.
  - rewrite <-surjective_pairing. apply (succeeds_run claim_one). vm_compute. reflexivity.
  - split; [exact Hcount|vm_compute; reflexivity].
Defined.

(** ** The kernel *)

Definition late : Value := "late".
Definition late_delta : StateDelta := MkStateDelta "late" 1 late PolicyFail.

Lemma kernel_commit_exact_witness :
  ∃ e, process_kernel_tasks [(commit_lease, demo_task "c" "core.commit" "late")] s5 = Some (Err e, s5).
Proof.
  apply (kernel_commit_exact s5 commit_lease (demo_task "c" "core.commit" "late") [] late late_delta).
  - apply s5_reachable.
  - reflexivity.
  - vm_compute. reflexivity.
  - reflexivity.
  - reflexivity.
  - reflexivity.
  - vm_compute. discriminate.
Defined.

(** ** The reload *)

Definition reload_demo : M CoreRuntime (RuntimeResult ReloadDecision) :=
  reload_with_async_handlers (demo_plan 2) [(worker, false); (kernel, false)] [].

Lemma reload_installs_new_generation_witness :
  rt_load_plan (after reload_demo s1) = demo_plan 2 ∧
  (∃ r, p_tasks (rt_tasks (after reload_demo s1)) !! "t" = Some r ∧ t_registry_generation (r_task r) = 2%N) ∧
  ∃ st, st ∈ rt_generation_states (after reload_demo s1) ∧ pgs_plugin_id st = "p" ∧ pgs_generation st = 2%N ∧
    pgs_phase st = PhaseActive.
Proof.
  destruct (reload_installs_new_generation s1 (demo_plan 2) [(worker, false); (kernel, false)] []
    (answer reload_demo s1 (MkReloadDecision [] true)) (after reload_demo s1)) as (_ & Hplan & _ & _ & _ & Hready & _ & _ & _ & Hnew).
  - apply s1_reachable.
  - apply (succeeds_run reload_demo). vm_compute. reflexivity.
  - split; [exact Hplan|]. split.
    + destruct (p_tasks (rt_tasks s1) !! "t") as [r|] eqn:Hr; [|exfalso; revert Hr; vm_compute; discriminate].
      assert (r_status r = Ready ∧ t_registry_generation (r_task r) = 1%N) as [Hst Hg]
        by (revert Hr; vm_compute; intros [= <-]; split; reflexivity).
      destruct (Hready "t" r Hr Hst) as (r' & Hr' & _ & Hgen). exists r'. split; [exact Hr'|].
      rewrite Hgen, Hg. vm_compute. reflexivity.
    + destruct Hnew as [Hall Hactive]; [vm_compute; discriminate|vm_compute; intros Hin; inversion Hin|].
      destruct (Hall _ (list_elem_of_here _ _)) as (st & Hin & Hid & Hgen). exists st.
      exact (conj Hin (conj Hid (conj Hgen (Hactive st Hin Hgen)))).
Defined.

(** The worker's disposal fails. *)
Definition unchecked : ReloadDecision := MkReloadDecision [] true.

Definition checked : ReloadDecision :=
  match check_reload (booted true) (demo_plan 2) with Ok decision => decision | Err _ => unchecked end.

Lemma reload_checked : check_reload (booted true) (demo_plan 2) = Ok checked.
Proof.
  assert (match check_reload (booted true) (demo_plan 2) with Ok _ => true | Err _ => false end = true) as Hok
    by (vm_compute; reflexivity).
  unfold checked. revert Hok. by case (check_reload (booted true) (demo_plan 2)).
Qed.

Definition registry_of {A} (outcome : option (A * RunnerRegistry)) : RunnerRegistry :=
  match outcome with Some (_, registry) => registry | None => RunnerRegistry_default end.

Lemma outcome_eta {A} (outcome : option (A * RunnerRegistry)) x :
  fst <$> outcome = Some x → outcome = Some (x, registry_of outcome).
Proof. destruct outcome as [[]|]; cbn; congruence. Qed.

Definition demo_runners : list Runner := [(worker, false); (kernel, false)].

Definition disposal_error : RuntimeError := runtime_error "demo.dispose" "demo" "demo".

Lemma reload_dispose_error_empties_registry_witness :
  ∃ s', reload_demo (booted true) = Some (Err disposal_error, s') ∧ rt_registry s' = RunnerRegistry_default.
Proof.
  destruct (reload_dispose_error_empties_registry (booted true) (demo_plan 2) demo_runners []
    checked (registry_of (build_registry demo_runners [] RunnerRegistry_default)) disposal_error
    (registry_of (dispose_all (rt_registry (booted true))))) as (s' & Hrun & Hregistry & _).
  - vm_compute. reflexivity.
  - exact reload_checked.
  - apply outcome_eta. vm_compute. reflexivity.
  - vm_compute. reflexivity.
  - apply outcome_eta. vm_compute. reflexivity.
  - exists s'. exact (conj Hrun Hregistry).
Defined.

(** ** Batches *)

Lemma build_work_batch_layout_witness :
  wb_task_leases (build_work_batch 1 "b" worker [(demo_lease, demo_task "t" "demo.run" "x")]) !! 0 = Some demo_lease.
Proof.
  apply (build_work_batch_layout 1 "b" worker [(demo_lease, demo_task "t" "demo.run" "x")] 0 demo_lease
    (demo_task "t" "demo.run" "x")).
  reflexivity.
Defined.

Lemma dispatched_group_has_no_conflicts_witness :
  wp_conflict_entries (wb_resource_plan (build_work_batch 1 "b" worker [(demo_lease, demo_task "t" "demo.run" "x")])) = [].
Proof.
  apply (dispatched_group_has_no_conflicts 1 "b" worker [(demo_lease, demo_task "t" "demo.run" "x")]).
  - left.
  - repeat constructor.
Defined.
