(* ===== verification/ComponentWitnesses.v ===== *)
(** * Concrete runs of the logs, the state store, the resource manager and the
    registry

    Each lemma evaluates a property on a concrete input that satisfies its
    hypotheses. *)

From S2P Require Import Prelude Contracts RunnerContracts BatchContracts PluginContracts DemoJson Ids Logs StateStore ResourceManager ResourceOccupancy ResourceTheorems TaskRecords TaskIndexes TaskPool TaskOccupancy Registry RegistryTheorems.

(** ** Logs *)

Definition count_op : LogOp (T := N) := OpRecord (λ n, n).

(** The records are [u64]s. *)
#[local] Instance u64_size : SizeOf N := 8%N.

(** Three records in a log of two that drops the oldest. *)
Definition demo_log : BoundedLog N :=
  run_log_op count_op (run_log_op count_op (run_log_op count_op
    (log_empty (MkObservabilityOutletProfile 2 DropOldest)))).

Lemma demo_log_history : log_history (λ n, n) demo_log 0.
Proof.
  unfold demo_log. do 3 (refine (log_history_step (λ n, n) _ 0 count_op _ (λ n, eq_refl) _); [|vm_compute; reflexivity]).
  by apply (log_history_new _ (MkObservabilityOutletProfile 2 DropOldest)).
Defined.

Lemma log_accounted_witness :
  bl_next_sequence demo_log = (len (bl_records demo_log) + bl_dropped demo_log + 0)%N.
Proof. exact (proj2 (proj2 (proj2 (log_accounted (λ n, n) demo_log 0 demo_log_history)))). Defined.

Lemma page_after_exact_witness :
  let page := page_after (λ n, n) demo_log 0 5 in
  pg_items page = [2%N; 3%N] ∧ (pg_lost page + len (pg_items page) = pg_next_sequence page - 0)%N.
Proof.
  split; [vm_compute; reflexivity|].
  destruct (page_after_exact (λ n, n) demo_log 0 0 5 demo_log_history) as (_ & _ & _ & _ & _ & H & _);
    [discriminate|vm_compute; discriminate|exact H].
Defined.

(** ** State store *)

Definition demo_delta (version : N) : StateDelta :=
  {| sdl_target_ref := "a"; sdl_expected_version := version; sdl_patch := "x"; sdl_conflict_policy := PolicyFail |}.
Definition demo_store : StateStore := MkStateStore ∅.
Definition demo_store1 : StateStore := MkStateStore {[ "a" := (1%N, "x") ]}.

Lemma state_apply_cas_witness :
  ∃ result s', apply (demo_delta 0) demo_store = Some (result, s') ∧ (result = Ok tt ↔ 0%N = 0%N).
Proof.
  destruct (state_apply_cas (demo_delta 0) demo_store) as (result & s' & Hrun & Hiff & _); [vm_compute; reflexivity|].
  exists result, s'. split; [exact Hrun|exact Hiff].
Defined.

Lemma demo_store_run : store_run demo_store [demo_delta 0] demo_store1.
Proof. eapply store_run_ok; [vm_compute; reflexivity|]. eapply store_run_err; [|apply store_run_nil].
  instantiate (2 := demo_delta 0). vm_compute. reflexivity. Defined.

Lemma state_history_serial_witness : current_version demo_store1 "a" = (0 + 1)%N.
Proof. exact (proj1 (state_history_serial demo_store [demo_delta 0] demo_store1 "a" demo_store_run)). Defined.

(** ** Resource manager *)

Definition rm_after (op : RmOp) (s : ResourceManager) : ResourceManager :=
  match run_rm_op op s with Some (_, s') => s' | None => s end.

Lemma rm_after_reachable op s :
  rm_reachable s → (id_next (rm_id_source s) < u64_max)%N → rm_reachable (rm_after op s).
Proof.
  intros Hs Hmax. unfold rm_after. destruct (run_rm_op op s) as [[[] s']|] eqn:Hrun; [|done].
  by eapply rm_reachable_step.
Defined.

Definition demo_descriptor (version : N) : ResourceRef :=
  {| rr_ref_id := "r"; rr_resource_id := MkResourceId "kind" "slot" 1 version; rr_semantic := CowVersionedState;
     rr_provider_id := "p"; rr_resource_kind := "kind"; rr_schema := "s"; rr_version := version; rr_generation := 1;
     rr_access := AccessInline; rr_size_hint := None; rr_content_hash := None; rr_lifetime := Persistent;
     rr_lease := None; rr_seal_state := Sealed |}.

(** A cell leased exclusively until step 3, and a resource whose writer's lease
    runs until step 5. *)
Definition demo_rm : ResourceManager :=
  rm_after (OpAcquireWrite "r" "t" (Some 5%N))
    (rm_after (OpRegister (demo_descriptor 1))
      (rm_after (OpAcquire "c" "t" "x" "exclusive" (Some 3%N))
        (rm_after (OpCreateCell "c" "kind" "plugin" "s" "drain") ResourceManager_new))).

Lemma demo_rm_reachable : rm_reachable demo_rm.
Proof.
  unfold demo_rm. repeat (apply rm_after_reachable; [|vm_compute; reflexivity]). apply rm_reachable_new.
Defined.

Definition demo_lease : ResourceLease :=
  {| rl_lease_id := "resource-lease-" +:+ pad26 1; rl_cell_id := "c"; rl_borrower_task_id := "t";
     rl_borrower_executor_id := "x"; rl_mode := "exclusive"; rl_expires_at_step := Some 3%N; rl_generation := 1 |}.

Definition demo_token : LeaseToken :=
  {| tok_token_id := "lease-" +:+ pad26 2; tok_ref_id := "r"; tok_owner := "t"; tok_mode := "exclusive_write";
     tok_expires_at_step := Some 5%N; tok_generation := 1 |}.

Definition demo_entry : ResourceEntry := MkResourceEntry (demo_descriptor 1) (Some demo_token).

Lemma lease_exclusion_witness : tok_ref_id demo_token = "r" ∧ tok_generation demo_token = 1%N.
Proof.
  apply (proj2 (lease_exclusion demo_rm demo_rm_reachable) "r" demo_entry demo_token); vm_compute; reflexivity.
Defined.

Lemma acquire_resource_lease_correct_witness :
  ∃ result s', acquire_resource_lease "c" "u" "x" "shared" None demo_rm = Some (result, s') ∧ is_ok result = false.
Proof.
  destruct (acquire_resource_lease_correct demo_rm "c" "u" "x" "shared" None demo_rm_reachable)
    as (result & s' & Hrun & _); [vm_compute; reflexivity|].
  exists result, s'. split; [exact Hrun|]. vm_compute in Hrun. injection Hrun as <- _. reflexivity.
Defined.

Lemma release_resource_lease_correct_witness :
  ∃ result s', release_resource_lease_checked demo_lease (Some 2%N) demo_rm = Some (result, s') ∧ result = Ok tt.
Proof.
  destruct (release_resource_lease_correct demo_rm demo_lease (Some 2%N) demo_rm_reachable) as (result & s' & Hrun & _).
  exists result, s'. split; [exact Hrun|]. vm_compute in Hrun. injection Hrun as <- _. reflexivity.
Defined.

Lemma reclaim_resource_leases_exact_witness :
  ∃ reclaimed s', reclaim_expired_resource_leases 3 demo_rm = Some (reclaimed, s') ∧ demo_lease ∈ reclaimed.
Proof.
  destruct (reclaim_resource_leases_exact demo_rm 3 demo_rm_reachable) as (reclaimed & s' & Hrun & _ & Hin & _).
  exists reclaimed, s'. split; [exact Hrun|]. apply Hin. eexists. split_and!; vm_compute; reflexivity.
Defined.

Lemma write_lease_correct_witness :
  ∃ result s', release_write_lease_checked (MkExclusiveWriteLease demo_token) (Some 4%N) demo_rm = Some (result, s') ∧
    result = Ok tt.
Proof.
  destruct (write_lease_correct demo_rm "r" "u" None (MkExclusiveWriteLease demo_token) (Some 4%N) demo_rm_reachable)
    as [_ (result & s' & Hrun & _)]; [vm_compute; reflexivity|].
  exists result, s'. split; [exact Hrun|]. vm_compute in Hrun. injection Hrun as <- _. reflexivity.
Defined.

Lemma expired_write_lease_stuck_witness :
  ∃ e, release_write_lease_at (MkExclusiveWriteLease demo_token) 5 demo_rm = Some (Err e, demo_rm) ∧
    e_code e = ERR_RESOURCE_LEASE_EXPIRED.
Proof.
  apply (expired_write_lease_stuck demo_rm "r" demo_entry demo_token 5 5 "u" None demo_rm_reachable);
    [vm_compute; reflexivity|reflexivity|reflexivity|vm_compute; discriminate].
Defined.

Definition demo_receipt : PlanReceipt :=
  {| pr_plan_id := "plan"; pr_status := "ok"; pr_resource_ref := Some (demo_descriptor 1); pr_snapshot := None;
     pr_descriptor_updates := [demo_descriptor 3; demo_descriptor 2]; pr_new_version := Some 3%N; pr_output := "null" |}.

Lemma sync_plan_receipt_correct_witness :
  receipt_descriptors demo_receipt = [demo_descriptor 3] ∧
  ∃ result s', sync_plan_receipt demo_receipt demo_rm = Some (result, s') ∧ hub_advances (rm_hub demo_rm) (rm_hub s').
Proof.
  split; [vm_compute; reflexivity|].
  destruct (sync_plan_receipt_correct demo_rm demo_receipt demo_rm_reachable)
    as (_ & _ & _ & result & s' & applied & rest & Hrun & _ & _ & Hadv & _).
  exists result, s'. split; [exact Hrun|exact Hadv].
Defined.

Lemma packed_value_roundtrip_witness :
  ∃ packed s', pack_value "s" "hello" demo_rm = Some (Ok packed, s') ∧ packed = PackedInline (ResourceInline "s" "hello" 1).
Proof.
  destruct (packed_value_roundtrip demo_rm "s" "hello" 7 demo_rm_reachable) as (packed & s' & Hrun & _);
    [vm_compute; reflexivity|vm_compute; reflexivity|].
  exists packed, s'. split; [exact Hrun|]. vm_compute in Hrun. injection Hrun as <- _. reflexivity.
Defined.

Definition demo_surface : ContractSurface :=
  {| cs_surface_id := "resource_schema:s"; cs_kind := SurfaceResourceSchema; cs_owner_plugin_id := "plugin";
     cs_fingerprint := "f"; cs_deprecated := false |}.

Lemma resource_occupancy_exact_witness :
  surface_occupancy demo_rm [demo_surface] = [occupancy_item demo_rm demo_surface] ∧
  (occupancy_item demo_rm demo_surface ∈ surface_occupancy demo_rm [demo_surface] ↔ surface_in_use demo_rm demo_surface).
Proof.
  split; [vm_compute; reflexivity|].
  apply (resource_occupancy_exact demo_rm [demo_surface] demo_surface). apply list_elem_of_here.
Defined.

(** ** Registry *)

(** Runners and handlers that are just their descriptor. *)
#[local] Instance PlainRunners : RunnerApi := {|
  Runner := RunnerDescriptor;
  runner_descriptor := λ d, d;
  runner_run_batch := λ _ batch d, (Ok (from_results batch []), d);
  runner_cancel := λ _ d, (Ok tt, d);
  runner_dispose := λ d, (Ok tt, d);
  AsyncHandler := RunnerDescriptor;
  handler_descriptor := λ d, d;
  handler_dispose := λ _, None
|}.

Definition reg_after (op : RegOp) (self : RunnerRegistry) : RunnerRegistry :=
  match run_reg_op op self with Some (_, self') => self' | None => self end.

Lemma reg_after_reachable op self : reg_reachable self → reg_op_pre self op → reg_reachable (reg_after op self).
Proof.
  intros Hs Hpre. unfold reg_after. destruct (run_reg_op op self) as [[[] s']|] eqn:Hrun; [|done].
  by eapply reg_reachable_step.
Defined.

Definition demo_registry : RunnerRegistry :=
  reg_after OpFreeze (reg_after (OpRegisterRunner (core_kernel_descriptor 1)) RunnerRegistry_default).

Lemma demo_registry_reachable : reg_reachable demo_registry.
Proof. unfold demo_registry. repeat (apply reg_after_reachable; [|exact I]). apply reg_reachable_default. Defined.

Lemma registry_consistent_witness : NoDup (runner_ids demo_registry) ∧ runner_ids demo_registry = ["core.kernel"].
Proof.
  split; [|vm_compute; reflexivity].
  apply (registry_consistent demo_registry demo_registry_reachable).
Defined.

Lemma frozen_registry_stable_witness :
  ∃ self', run_reg_op (OpTake "core.kernel") demo_registry = Some (tt, self') ∧ same_contract demo_registry self'.
Proof.
  apply (frozen_registry_stable demo_registry (OpTake "core.kernel") demo_registry_reachable); [reflexivity|exact I].
Defined.
