(* ===== verification/WireBytes.v ===== *)
(** * Bytes on the wire

    [u8] is the standard library's byte; the big-endian conversions
    [to_be_bytes] and [from_be_bytes], slices, and the reader a frame is read
    from. *)

From Stdlib Require Import Strings.Byte.
From S2P Require Import Prelude.

Abbreviation byte := Byte.byte.

#[export] Instance byte_eq_dec : EqDecision byte := Byte.byte_eq_dec.

Definition byte_val (b : byte) : N := Byte.to_N b.

(** [n as u8] *)
Definition byte_of (n : N) : byte :=
  match Byte.of_N (n mod 256) with Some b => b | None => x00 end.

(** [n.to_be_bytes()] of an integer of [width] bytes *)
Fixpoint be_bytes (width : nat) (n : N) : list byte :=
  match width with
  | O => []
  | S width => be_bytes width (n / 256) ++ [byte_of n]
  end.

(** [from_be_bytes] *)
Definition be_value (l : list byte) : N := foldl (λ acc b, (acc * 256 + byte_val b)%N) 0%N l.

(** [bytes[start..stop]] inside the bounds *)
Definition slice (start stop : nat) (l : list byte) : list byte := take (stop - start) (drop start l).

Lemma byte_val_bound b : (byte_val b < 256)%N.
Proof. destruct b; vm_compute; reflexivity. Qed.

Lemma byte_of_val b : byte_of (byte_val b) = b.
Proof. destruct b; vm_compute; reflexivity. Qed.

Lemma byte_val_of n : byte_val (byte_of n) = (n mod 256)%N.
Proof.
  unfold byte_of, byte_val. destruct (Byte.of_N (n mod 256)) as [b|] eqn:Hb.
  - by apply Byte.to_of_N.
  - apply Byte.of_N_None_iff in Hb. pose proof (N.mod_lt n 256). lia.
Qed.

Lemma byte_val_inj b c : byte_val b = byte_val c → b = c.
Proof. intros Heq. by rewrite <-(byte_of_val b), Heq, byte_of_val. Qed.

Lemma be_bytes_length width n : length (be_bytes width n) = width.
Proof. revert n. induction width as [|w IH]; intros n; [done|]. cbn. rewrite length_app, IH. cbn. lia. Qed.

Lemma be_value_snoc l b : be_value (l ++ [b]) = (be_value l * 256 + byte_val b)%N.
Proof. unfold be_value. by rewrite foldl_app. Qed.

Lemma be_value_bytes width n : (n < 256 ^ N.of_nat width)%N → be_value (be_bytes width n) = n.
Proof.
  revert n. induction width as [|w IH]; intros n Hn; cbn -[N.pow N.div N.modulo] in *.
  - change (256 ^ 0)%N with 1%N in Hn. cbn. lia.
  - rewrite be_value_snoc, IH, byte_val_of.
    + rewrite N.mul_comm. symmetry. apply N.div_mod. lia.
    + apply N.Div0.div_lt_upper_bound. by rewrite <-N.pow_succ_r', <-Nat2N.inj_succ.
Qed.

Lemma be_bytes_value l : be_bytes (length l) (be_value l) = l.
Proof.
  induction l as [|b l IH] using rev_ind; [done|].
  rewrite length_app, be_value_snoc, Nat.add_1_r. cbn -[N.div N.modulo].
  pose proof (byte_val_bound b) as Hb.
  rewrite N.div_add_l, (N.div_small (byte_val b)), N.add_0_r, IH by lia. do 2 f_equal.
  rewrite <-(byte_of_val b) at 2. unfold byte_of.
  by rewrite N.add_comm, N.Div0.mod_add.
Qed.

Lemma be_value_bound l : (be_value l < 256 ^ N.of_nat (length l))%N.
Proof.
  induction l as [|b l IH] using rev_ind; [done|].
  rewrite be_value_snoc, length_app, Nat.add_1_r, Nat2N.inj_succ, N.pow_succ_r'.
  pose proof (byte_val_bound b). lia.
Qed.

Lemma be_bytes_of_value width l n : length l = width → be_value l = n → l = be_bytes width n.
Proof. intros <- <-. by rewrite be_bytes_value. Qed.

(** ** Readers

    A [Read] is what it will still deliver: bytes, then the end of the stream or
    an error of the operating system. *)

Record Reader : Type := MkReader {
  rd_bytes : list byte;
  rd_failure : option string
}.

(** [read_exact] of [n] bytes; a reader that ends early is used up. *)
Definition read_exact (n : N) : M Reader (Result string (list byte)) := λ r,
  if decide (n ≤ len (rd_bytes r))%N then
    Some (Ok (take (N.to_nat n) (rd_bytes r)), MkReader (drop (N.to_nat n) (rd_bytes r)) (rd_failure r))
  else
    Some (Err (default "failed to fill whole buffer" (rd_failure r)), MkReader [] (rd_failure r)).

(** [read] into a buffer of one byte. *)
Definition read_one : M Reader (Result string (option byte)) := λ r,
  match rd_bytes r with
  | b :: bytes => Some (Ok (Some b), MkReader bytes (rd_failure r))
  | [] => match rd_failure r with Some e => Some (Err e, r) | None => Some (Ok None, r) end
  end.

Lemma read_exact_app l rest failure :
  read_exact (len l) (MkReader (l ++ rest) failure) = Some (Ok l, MkReader rest failure).
Proof.
  unfold read_exact. rewrite decide_True by (cbn; rewrite len_app; lia). cbn. unfold len. rewrite Nat2N.id.
  by rewrite take_app_length, drop_app_length.
Qed.
