(* ===== verification/WireProtocol.v ===== *)
(** * The wire protocol: versions, limits, opcodes, negotiation

    crates/mutsuki-runtime-wire/src/protocol.rs. *)

From S2P Require Import Prelude Contracts RunnerContracts BatchContracts PluginContracts WireBytes.

Definition u16_max : N := 65535.
Definition u32_max : N := 4294967295.

Definition DEBUG_JSONL_CODEC_ID : string := "mutsuki.codec.typed-jsonl.v1".
Definition BINARY_CODEC_ID : string := "mutsuki.codec.typed-msgpack.v1".
Definition SCHEMA_REVISION : string := "mutsuki.runtime.wire/1.3.0".
Definition MAX_FRAME_BYTES : N := 8 * 1024 * 1024.
Definition MAX_PAYLOAD_BYTES : N := 4 * 1024 * 1024.
Definition MAX_JSONL_LINE_BYTES : N := 8 * 1024 * 1024.
Definition MAX_INLINE_RESOURCE_BYTES : N := 64 * 1024.
Definition MAX_IN_FLIGHT_REQUESTS : N := 64.
Definition MANAGEMENT_RESERVED_REQUESTS : N := 8.

(** ** Errors *)

Inductive WireCodecError : Type :=
  | VersionMismatch (expected_major actual_major : N)
  | CodecMismatch (expected actual : string)
  | SchemaMismatch (expected actual : string)
  | LimitMismatch
  | ManagementChannelRequired
  | FeatureMissing (feature : string)
  | UnknownOpcode (value : N)
  | UnknownMethod (method : string)
  | MethodMismatch (opcode : N) (expected actual : string)
  | PayloadOversized (actual limit : N)
  | FrameOversized (actual limit : N)
  | Truncated (expected actual : N)
  | InvalidMagic (magic : N)
  | InvalidFlags (bits : N)
  | InvalidRequestId
  | ResponseMismatch
  | PayloadLengthMismatch (declared actual : N)
  | InlineResourceOversized (actual limit : N)
  | EncodeError (detail : string)
  | DecodeError (detail : string)
  | IoError (detail : string).

Abbreviation WireResult := (Result WireCodecError).

(** The digits of [{:x}], padded with zeros to [width]. *)
Fixpoint hex_digits (width : nat) (n : N) (acc : string) : string :=
  match width with
  | O => acc
  | S width =>
      let digit := (n mod 16)%N in
      let char := if (digit <? 10)%N then Ascii.ascii_of_N (48 + digit) else Ascii.ascii_of_N (87 + digit) in
      hex_digits width (n / 16) (String char acc)
  end.

(** [{:#06x}] of a [u16] and [{:#010x}] of a [u32] *)
Definition hex16 (n : N) : string := "0x" +:+ hex_digits 4 n "".
Definition hex32 (n : N) : string := "0x" +:+ hex_digits 8 n "".

(** The [Display] of the error. *)
Definition wire_error_to_string (error : WireCodecError) : string :=
  match error with
  | VersionMismatch expected actual =>
      "wire protocol major mismatch: expected " +:+ pretty expected +:+ ", got " +:+ pretty actual
  | CodecMismatch expected actual => "wire codec mismatch: expected " +:+ expected +:+ ", got " +:+ actual
  | SchemaMismatch expected actual => "wire schema mismatch: expected " +:+ expected +:+ ", got " +:+ actual
  | LimitMismatch => "wire peer returned invalid or expanded negotiated limits"
  | ManagementChannelRequired => "wire management channel support is required"
  | FeatureMissing feature => "wire peer is missing required feature " +:+ feature
  | UnknownOpcode value => "unknown wire opcode " +:+ hex16 value
  | UnknownMethod method => "unknown wire method " +:+ method
  | MethodMismatch opcode expected actual =>
      "opcode " +:+ hex16 opcode +:+ " maps to " +:+ expected +:+ ", not " +:+ actual
  | PayloadOversized actual limit => "wire payload is oversized: " +:+ pretty actual +:+ " > " +:+ pretty limit
  | FrameOversized actual limit => "wire frame is oversized: " +:+ pretty actual +:+ " > " +:+ pretty limit
  | Truncated expected actual => "wire frame is truncated: expected " +:+ pretty expected +:+ ", got " +:+ pretty actual
  | InvalidMagic magic => "invalid wire magic " +:+ hex32 magic
  | InvalidFlags bits => "invalid wire flags " +:+ hex16 bits
  | InvalidRequestId => "wire request id must be non-zero"
  | ResponseMismatch => "wire response does not match the typed request"
  | PayloadLengthMismatch declared actual =>
      "wire payload length mismatch: declared " +:+ pretty declared +:+ ", actual " +:+ pretty actual
  | InlineResourceOversized actual limit =>
      "large resource bytes must use ResourceRef: " +:+ pretty actual +:+ " > " +:+ pretty limit
  | EncodeError detail => "wire encode failed: " +:+ detail
  | DecodeError detail => "wire decode failed: " +:+ detail
  | IoError detail => "wire I/O failed: " +:+ detail
  end.

(** ** Versions and limits *)

Record WireProtocolVersion : Type := MkWireProtocolVersion {
  wv_major : N;
  wv_minor : N
}.

#[export] Instance WireProtocolVersion_eq_dec : EqDecision WireProtocolVersion.
Proof. solve_decision. Defined.

Definition CURRENT : WireProtocolVersion := {| wv_major := 1; wv_minor := 2 |}.

Definition ensure_compatible (self : WireProtocolVersion) : WireResult unit :=
  if decide (wv_major self ≠ wv_major CURRENT) then Err (VersionMismatch (wv_major CURRENT) (wv_major self))
  else Ok tt.

Record WireLimits : Type := MkWireLimits {
  lim_max_frame_bytes : N;
  lim_max_payload_bytes : N;
  lim_max_jsonl_line_bytes : N;
  lim_max_inline_resource_bytes : N;
  lim_max_in_flight_requests : N;
  lim_management_reserved_requests : N
}.

Definition limits_validate (self : WireLimits) : WireResult unit :=
  if (lim_max_frame_bytes self =? 0)%N
     || (lim_max_payload_bytes self =? 0)%N
     || (lim_max_jsonl_line_bytes self =? 0)%N
     || (lim_max_inline_resource_bytes self =? 0)%N
     || (lim_max_frame_bytes self <? lim_max_payload_bytes self)%N
     || (lim_max_payload_bytes self <? lim_max_inline_resource_bytes self)%N
     || (lim_max_in_flight_requests self <? 2)%N
     || (lim_management_reserved_requests self =? 0)%N
     || (lim_max_in_flight_requests self <=? lim_management_reserved_requests self)%N
  then Err LimitMismatch
  else Ok tt.

Definition DEFAULT_WIRE_LIMITS : WireLimits :=
  {| lim_max_frame_bytes := MAX_FRAME_BYTES;
     lim_max_payload_bytes := MAX_PAYLOAD_BYTES;
     lim_max_jsonl_line_bytes := MAX_JSONL_LINE_BYTES;
     lim_max_inline_resource_bytes := MAX_INLINE_RESOURCE_BYTES;
     lim_max_in_flight_requests := MAX_IN_FLIGHT_REQUESTS;
     lim_management_reserved_requests := MANAGEMENT_RESERVED_REQUESTS |}.

(** ** Opcodes *)

Inductive Opcode : Type :=
  | OpPluginInitialize | OpRunnerRunBatch | OpRunnerCancel | OpRunnerDispose
  | OpTaskSubmitBatch | OpTaskCancel | OpTaskOutcome
  | OpResourceReadCollect | OpResourceReadSnapshot | OpResourceStreamOpen | OpResourceExport
  | OpResourceWriteCommit | OpResourceCommand | OpResourceCommandBatch | OpResourceSaga
  | OpResourceCreateBlob | OpResourceCreateCowState | OpResourceCreateCapability.

#[export] Instance Opcode_eq_dec : EqDecision Opcode.
Proof. solve_decision. Defined.

(** [opcode as u16] *)
Definition opcode_u16 (self : Opcode) : N :=
  match self with
  | OpPluginInitialize => 0x0001
  | OpRunnerRunBatch => 0x1001
  | OpRunnerCancel => 0x1002
  | OpRunnerDispose => 0x1003
  | OpTaskSubmitBatch => 0x2001
  | OpTaskCancel => 0x2002
  | OpTaskOutcome => 0x2003
  | OpResourceReadCollect => 0x3001
  | OpResourceReadSnapshot => 0x3002
  | OpResourceStreamOpen => 0x3003
  | OpResourceExport => 0x3004
  | OpResourceWriteCommit => 0x3005
  | OpResourceCommand => 0x3006
  | OpResourceCommandBatch => 0x3007
  | OpResourceSaga => 0x3008
  | OpResourceCreateBlob => 0x3009
  | OpResourceCreateCowState => 0x300a
  | OpResourceCreateCapability => 0x300b
  end.

Definition ALL_OPCODES : list Opcode :=
  [OpPluginInitialize; OpRunnerRunBatch; OpRunnerCancel; OpRunnerDispose; OpTaskSubmitBatch; OpTaskCancel;
   OpTaskOutcome; OpResourceReadCollect; OpResourceReadSnapshot; OpResourceStreamOpen; OpResourceExport;
   OpResourceWriteCommit; OpResourceCommand; OpResourceCommandBatch; OpResourceSaga; OpResourceCreateBlob;
   OpResourceCreateCowState; OpResourceCreateCapability].

Definition opcode_method (self : Opcode) : string :=
  match self with
  | OpPluginInitialize => "plugin.initialize"
  | OpRunnerRunBatch => "runner.run_batch"
  | OpRunnerCancel => "runner.cancel"
  | OpRunnerDispose => "runner.dispose"
  | OpTaskSubmitBatch => "task.submit_batch"
  | OpTaskCancel => "task.cancel"
  | OpTaskOutcome => "task.outcome"
  | OpResourceReadCollect => "resource.read.collect"
  | OpResourceReadSnapshot => "resource.read.snapshot"
  | OpResourceStreamOpen => "resource.stream.open"
  | OpResourceExport => "resource.export"
  | OpResourceWriteCommit => "resource.write.commit"
  | OpResourceCommand => "resource.command"
  | OpResourceCommandBatch => "resource.command_batch"
  | OpResourceSaga => "resource.saga"
  | OpResourceCreateBlob => "resource.create_blob"
  | OpResourceCreateCowState => "resource.create_cow_state"
  | OpResourceCreateCapability => "resource.create_capability"
  end.

Definition is_management (self : Opcode) : bool :=
  match self with
  | OpPluginInitialize | OpRunnerCancel | OpRunnerDispose => true
  | _ => false
  end.

Definition opcode_from_u16 (value : N) : WireResult Opcode :=
  match list_find (λ opcode, opcode_u16 opcode = value) ALL_OPCODES with
  | Some (_, opcode) => Ok opcode
  | None => Err (UnknownOpcode value)
  end.

Definition opcode_from_method (value : string) : WireResult Opcode :=
  match list_find (λ opcode, opcode_method opcode = value) ALL_OPCODES with
  | Some (_, opcode) => Ok opcode
  | None => Err (UnknownMethod value)
  end.

(** ** Negotiation *)

Record ProtocolHello : Type := MkProtocolHello {
  ph_protocol : WireProtocolVersion;
  ph_codec_id : string;
  ph_schema_revision : string;
  ph_max_frame_bytes : N;
  ph_max_payload_bytes : N;
  ph_max_in_flight_requests : N;
  ph_management_reserved_requests : N;
  ph_management_channel : bool;
  ph_feature_flags : list string
}.

Definition as_u32 (n : N) : N := N.min n u32_max.

Definition for_codec (codec_id : string) (limits : WireLimits) : ProtocolHello :=
  {| ph_protocol := CURRENT;
     ph_codec_id := codec_id;
     ph_schema_revision := SCHEMA_REVISION;
     ph_max_frame_bytes := as_u32 (lim_max_frame_bytes limits);
     ph_max_payload_bytes := as_u32 (lim_max_payload_bytes limits);
     ph_max_in_flight_requests := as_u32 (lim_max_in_flight_requests limits);
     ph_management_reserved_requests := as_u32 (lim_management_reserved_requests limits);
     ph_management_channel := true;
     ph_feature_flags := ["typed_requests"; "out_of_order_responses"; "resource_ref_required_for_large_bytes"] |}.

Definition hello_debug_jsonl : ProtocolHello := for_codec DEBUG_JSONL_CODEC_ID DEFAULT_WIRE_LIMITS.
Definition hello_binary : ProtocolHello := for_codec BINARY_CODEC_ID DEFAULT_WIRE_LIMITS.

Definition binary_with_limits (limits : WireLimits) : WireResult ProtocolHello :=
  letr? _ := limits_validate limits in
  Ok (for_codec BINARY_CODEC_ID limits).

Definition debug_jsonl_with_limits (limits : WireLimits) : WireResult ProtocolHello :=
  letr? _ := limits_validate limits in
  Ok (for_codec DEBUG_JSONL_CODEC_ID limits).

Section Negotiation.
Context `{SJ : !SerdeJson}.

Record InitializedPlugin : Type := MkInitializedPlugin {
  ip_manifest : PluginManifest;
  ip_resource_provider_ids : list string
}.

Record ProtocolHelloAck : Type := MkProtocolHelloAck {
  pa_protocol : WireProtocolVersion;
  pa_codec_id : string;
  pa_schema_revision : string;
  pa_max_frame_bytes : N;
  pa_max_payload_bytes : N;
  pa_max_in_flight_requests : N;
  pa_management_reserved_requests : N;
  pa_management_channel : bool;
  pa_feature_flags : list string;
  pa_plugin : option InitializedPlugin
}.

Definition ack_accept (hello : ProtocolHello) (plugin : option InitializedPlugin) : ProtocolHelloAck :=
  {| pa_protocol := CURRENT;
     pa_codec_id := ph_codec_id hello;
     pa_schema_revision := ph_schema_revision hello;
     pa_max_frame_bytes := N.min (ph_max_frame_bytes hello) MAX_FRAME_BYTES;
     pa_max_payload_bytes := N.min (ph_max_payload_bytes hello) MAX_PAYLOAD_BYTES;
     pa_max_in_flight_requests := N.min (ph_max_in_flight_requests hello) MAX_IN_FLIGHT_REQUESTS;
     pa_management_reserved_requests :=
       N.min (N.min (ph_management_reserved_requests hello) MANAGEMENT_RESERVED_REQUESTS)
         (saturating_sub (ph_max_in_flight_requests hello) 1);
     pa_management_channel := ph_management_channel hello;
     pa_feature_flags := ph_feature_flags hello;
     pa_plugin := plugin |}.

(** The first of the required features the other side does not list. *)
Definition missing_feature (required offered : list string) : option string :=
  snd <$> list_find (λ feature, feature ∉ offered) required.

Definition hello_accept (self : ProtocolHello) (expected_codec : string) (plugin : option InitializedPlugin) :
    WireResult ProtocolHelloAck :=
  letr? _ := ensure_compatible (ph_protocol self) in
  if decide (ph_codec_id self ≠ expected_codec) then Err (CodecMismatch expected_codec (ph_codec_id self))
  else if decide (ph_schema_revision self ≠ SCHEMA_REVISION) then
    Err (SchemaMismatch SCHEMA_REVISION (ph_schema_revision self))
  else if (ph_max_frame_bytes self =? 0)%N
       || (ph_max_payload_bytes self =? 0)%N
       || (ph_max_in_flight_requests self =? 0)%N
       || (ph_management_reserved_requests self =? 0)%N
       || (ph_max_in_flight_requests self <=? ph_management_reserved_requests self)%N
  then Err LimitMismatch
  else
    let required := for_codec expected_codec DEFAULT_WIRE_LIMITS in
    if ph_management_channel required && negb (ph_management_channel self) then Err ManagementChannelRequired
    else
      match missing_feature (ph_feature_flags required) (ph_feature_flags self) with
      | Some missing => Err (FeatureMissing missing)
      | None => Ok (ack_accept self plugin)
      end.

Definition ack_validate_for (self : ProtocolHelloAck) (hello : ProtocolHello) : WireResult unit :=
  letr? _ := ensure_compatible (pa_protocol self) in
  if decide (pa_codec_id self ≠ ph_codec_id hello) then Err (CodecMismatch (ph_codec_id hello) (pa_codec_id self))
  else if decide (pa_schema_revision self ≠ ph_schema_revision hello) then
    Err (SchemaMismatch (ph_schema_revision hello) (pa_schema_revision self))
  else if (pa_max_frame_bytes self =? 0)%N
       || (ph_max_frame_bytes hello <? pa_max_frame_bytes self)%N
       || (pa_max_payload_bytes self =? 0)%N
       || (ph_max_payload_bytes hello <? pa_max_payload_bytes self)%N
       || (pa_max_in_flight_requests self =? 0)%N
       || (ph_max_in_flight_requests hello <? pa_max_in_flight_requests self)%N
       || (pa_management_reserved_requests self =? 0)%N
       || (ph_management_reserved_requests hello <? pa_management_reserved_requests self)%N
       || (pa_max_in_flight_requests self <=? pa_management_reserved_requests self)%N
  then Err LimitMismatch
  else if ph_management_channel hello && negb (pa_management_channel self) then Err ManagementChannelRequired
  else
    match missing_feature (ph_feature_flags hello) (pa_feature_flags self) with
    | Some missing => Err (FeatureMissing missing)
    | None => Ok tt
    end.
End Negotiation.

(** ** Opcodes are told apart by number and by name *)

Lemma opcode_from_u16_of opcode : opcode_from_u16 (opcode_u16 opcode) = Ok opcode.
Proof. destruct opcode; vm_compute; reflexivity. Qed.

Lemma opcode_from_u16_inv value opcode : opcode_from_u16 value = Ok opcode → opcode_u16 opcode = value.
Proof.
  unfold opcode_from_u16. destruct (list_find _ _) as [[i op]|] eqn:Hfind; intros [= <-].
  apply list_find_Some in Hfind. tauto.
Qed.

Lemma opcode_u16_bound opcode : (opcode_u16 opcode ≤ u16_max)%N.
Proof. destruct opcode; vm_compute; discriminate. Qed.

Lemma opcode_from_method_of opcode : opcode_from_method (opcode_method opcode) = Ok opcode.
Proof. destruct opcode; vm_compute; reflexivity. Qed.
