(* ===== verification/MsgPack.v ===== *)
(** * The structure check of MessagePack payloads

    crates/mutsuki-runtime-wire/src/binary/payload.rs and
    binary/payload/structure.rs: a scan over the bytes of a payload that accepts
    exactly one value, nested at most [MAX_MSGPACK_NESTING_DEPTH] deep, with at
    most [MAX_MSGPACK_CONTAINER_ITEMS] items per container. The second half
    gives the values of the format with their encodings and shows that the scan
    accepts exactly the encodings of the values within the limits.

    Below, the encodings it accepts. *)

From S2P Require Import Prelude Contracts WireBytes WireProtocol.

Definition MAX_MSGPACK_NESTING_DEPTH : N := 64.
Definition MAX_MSGPACK_CONTAINER_ITEMS : N := 65536.

Definition decode_error {A} (detail : string) : WireResult A := Err (DecodeError detail).

Section Scan.
(** The state is the offset into [bytes]. *)
Variable bytes : list byte.

Definition take_bytes (length : N) : M N (WireResult (list byte)) :=
  let! offset := get in
  let stop := (offset + length)%N in
  if decide (usize_max < stop)%N then ret (decode_error "MessagePack length overflow")
  else if decide (stop ≤ len bytes)%N then
    put stop ;;!
    ret (Ok (slice (N.to_nat offset) (N.to_nat stop) bytes))
  else ret (decode_error "truncated MessagePack value").

Definition skip_bytes (length : N) : M N (WireResult unit) :=
  let? _ := take_bytes length in ret (Ok tt).

Definition read_u8 : M N (WireResult N) :=
  let! offset := get in
  match bytes !! N.to_nat offset with
  | Some value => put (offset + 1)%N ;;! ret (Ok (byte_val value))
  | None => ret (decode_error "truncated MessagePack value")
  end.

Definition read_u16 : M N (WireResult N) :=
  let? bs := take_bytes 2 in ret (Ok (be_value bs)).

Definition read_u32 : M N (WireResult N) :=
  let? bs := take_bytes 4 in ret (Ok (be_value bs)).

Definition parse_extension (length : N) : M N (WireResult unit) :=
  skip_bytes (saturating_add length 1).

(** [for _ in 0..n { body?; }] *)
Fixpoint repeat_try (n : nat) (body : M N (WireResult unit)) : M N (WireResult unit) :=
  match n with
  | O => ret (Ok tt)
  | S n => let? _ := body in repeat_try n body
  end.

Section Container.
Variable parse_value : N → M N (WireResult unit).

Definition parse_container (count depth : N) (map : bool) : M N (WireResult unit) :=
  if decide (MAX_MSGPACK_CONTAINER_ITEMS < count)%N then
    ret (decode_error "MessagePack container item limit exceeded")
  else
    let values := if map then (count * 2)%N else count in
    if decide (usize_max < values)%N then ret (decode_error "MessagePack map length overflow")
    else repeat_try (N.to_nat values) (parse_value (depth + 1)).
End Container.

(** The ranges of the markers are matched in the order of the code. *)
Definition in_range (low high marker : N) : bool := (low <=? marker)%N && (marker <=? high)%N.

(** The match on the marker; [container] is [parse_container] at [depth]. *)
Definition parse_marker (container : N → bool → M N (WireResult unit)) (marker : N) : M N (WireResult unit) :=
  if in_range 0x00 0x7f marker || (marker =? 0xc0)%N || (marker =? 0xc2)%N || (marker =? 0xc3)%N
     || in_range 0xe0 0xff marker
  then ret (Ok tt)
  else if in_range 0x80 0x8f marker then container (N.land marker 0x0f) true
  else if in_range 0x90 0x9f marker then container (N.land marker 0x0f) false
  else if in_range 0xa0 0xbf marker then skip_bytes (N.land marker 0x1f)
  else
    match marker with
    | 0xc1 => ret (decode_error "reserved MessagePack marker")
    | 0xc4 | 0xd9 => let? length := read_u8 in skip_bytes length
    | 0xc5 | 0xda => let? length := read_u16 in skip_bytes length
    | 0xc6 | 0xdb => let? length := read_u32 in skip_bytes length
    | 0xc7 => let? length := read_u8 in parse_extension length
    | 0xc8 => let? length := read_u16 in parse_extension length
    | 0xc9 => let? length := read_u32 in parse_extension length
    | 0xca => skip_bytes 4
    | 0xcb => skip_bytes 8
    | 0xcc | 0xd0 => skip_bytes 1
    | 0xcd | 0xd1 => skip_bytes 2
    | 0xce | 0xd2 => skip_bytes 4
    | 0xcf | 0xd3 => skip_bytes 8
    | 0xd4 => parse_extension 1
    | 0xd5 => parse_extension 2
    | 0xd6 => parse_extension 4
    | 0xd7 => parse_extension 8
    | 0xd8 => parse_extension 16
    | 0xdc => let? count := read_u16 in container count false
    | 0xdd => let? count := read_u32 in container count false
    | 0xde => let? count := read_u16 in container count true
    | 0xdf => let? count := read_u32 in container count true
    | _ => panic
    end%N.

Fixpoint parse_value (fuel : nat) (depth : N) : M N (WireResult unit) :=
  match fuel with
  | O => panic
  | S fuel =>
    if decide (MAX_MSGPACK_NESTING_DEPTH < depth)%N then
      ret (decode_error "MessagePack nesting depth exceeded")
    else
      let? marker := read_u8 in
      parse_marker (λ count map, parse_container (parse_value fuel) count depth map) marker
  end.

(** The recursion ends one level below the deepest allowed one. *)
Definition scan_fuel : nat := N.to_nat MAX_MSGPACK_NESTING_DEPTH + 2.
End Scan.

Definition validate_messagepack_structure (bytes : list byte) : option (WireResult unit) :=
  match parse_value bytes scan_fuel 0 0%N with
  | Some (Ok tt, offset) =>
      Some (if decide (offset ≠ len bytes) then decode_error "trailing bytes after MessagePack value" else Ok tt)
  | Some (Err e, _) => Some (Err e)
  | None => None
  end.

(** ** The format *)

Inductive LengthWidth : Type := W8 | W16 | W32.

Definition width_bytes (w : LengthWidth) : nat := match w with W8 => 1 | W16 => 2 | W32 => 4 end.

(** What follows a marker: nothing; so many bytes; a length and that many
    bytes, with a type byte in front for an extension; items whose number is in
    the marker or follows it. *)
Inductive MpForm : Type :=
  | FormAtom
  | FormData (length : N)
  | FormLength (width : LengthWidth) (extension : bool)
  | FormFixItems (count : N) (map : bool)
  | FormItems (width : LengthWidth) (map : bool)
  | FormReserved.

(** The forms of the markers from 0xc0 to 0xdf. *)
Definition form_table : list MpForm :=
  [FormAtom; FormReserved; FormAtom; FormAtom;
   FormLength W8 false; FormLength W16 false; FormLength W32 false;
   FormLength W8 true; FormLength W16 true; FormLength W32 true;
   FormData 4; FormData 8; FormData 1; FormData 2; FormData 4; FormData 8;
   FormData 1; FormData 2; FormData 4; FormData 8;
   FormData 2; FormData 3; FormData 5; FormData 9; FormData 17;
   FormLength W8 false; FormLength W16 false; FormLength W32 false;
   FormItems W16 false; FormItems W32 false; FormItems W16 true; FormItems W32 true].

Definition mp_form (marker : byte) : MpForm :=
  let v := byte_val marker in
  if (v <? 0x80)%N then FormAtom
  else if (v <? 0x90)%N then FormFixItems (v - 0x80) true
  else if (v <? 0xa0)%N then FormFixItems (v - 0x90) false
  else if (v <? 0xc0)%N then FormData (v - 0xa0)
  else if (v <? 0xe0)%N then default FormReserved (form_table !! N.to_nat (v - 0xc0))
  else FormAtom.

(** A value: a marker with its data or with its items (for a map, keys and
    values in turn). *)
Inductive MpValue : Type :=
  | MpData (marker : byte) (data : list byte)
  | MpItems (marker : byte) (items : list MpValue).

Definition item_count (count : N) (map : bool) : N := if map then (count * 2)%N else count.

Definition extension_bytes (extension : bool) : N := if extension then 1 else 0.

(** The bytes between the marker and the data or the items. *)
Definition data_header (form : MpForm) (length : N) : list byte :=
  match form with
  | FormLength w extension => be_bytes (width_bytes w) (length - extension_bytes extension)
  | _ => []
  end.

Definition items_header (form : MpForm) (length : N) : list byte :=
  match form with
  | FormItems w map => be_bytes (width_bytes w) (if map then (length / 2)%N else length)
  | _ => []
  end.

Fixpoint mp_encode (v : MpValue) : list byte :=
  match v with
  | MpData marker data => marker :: data_header (mp_form marker) (len data) ++ data
  | MpItems marker items => marker :: items_header (mp_form marker) (len items) ++ concat (mp_encode <$> items)
  end.

Definition data_fits (form : MpForm) (length : N) : Prop :=
  match form with
  | FormAtom => length = 0%N
  | FormData n => length = n
  | FormLength w extension => ∃ n, (n < 256 ^ N.of_nat (width_bytes w))%N ∧ length = (n + extension_bytes extension)%N
  | _ => False
  end.

Definition items_fit (form : MpForm) (length : N) : Prop :=
  match form with
  | FormFixItems n map => length = item_count n map
  | FormItems w map => ∃ n, (n < 256 ^ N.of_nat (width_bytes w))%N ∧ (n ≤ MAX_MSGPACK_CONTAINER_ITEMS)%N ∧ length = item_count n map
  | _ => False
  end.

(** A value of the format within the limits, [room] levels of nesting being
    left for what it contains. *)
Inductive mp_valid : nat → MpValue → Prop :=
  | mp_valid_data room marker data : data_fits (mp_form marker) (len data) → mp_valid room (MpData marker data)
  | mp_valid_empty room marker : items_fit (mp_form marker) 0 → mp_valid room (MpItems marker [])
  | mp_valid_items room marker items :
      items_fit (mp_form marker) (len items) → Forall (mp_valid room) items → mp_valid (S room) (MpItems marker items).

(** ** The structure check accepts exactly the values of the format *)

(** ** Exact scanners

    [scans c P]: run anywhere in the bytes, [c] returns; if it succeeds it has
    consumed a piece [P] describes, and if such a piece lies ahead it succeeds
    with it. *)
Section Scanners.
Variable bytes : list byte.
Hypothesis Hlen : (len bytes ≤ usize_max)%N.

Definition ahead (offset : N) (rest : list byte) : Prop :=
  (offset ≤ len bytes)%N ∧ drop (N.to_nat offset) bytes = rest.

Definition scans {A} (c : M N (WireResult A)) (P : A → list byte → Prop) : Prop :=
  ∀ offset rest, ahead offset rest →
    (∃ r offset', c offset = Some (r, offset') ∧
       ∀ a, r = Ok a → ∃ l rest', rest = l ++ rest' ∧ P a l ∧ offset' = (offset + len l)%N) ∧
    ∀ a l rest', rest = l ++ rest' → P a l → c offset = Some (Ok a, (offset + len l)%N).

Lemma ahead_app offset l rest : ahead offset (l ++ rest) → ahead (offset + len l) rest.
Proof.
  intros [Hle Hdrop]. assert (len (drop (N.to_nat offset) bytes) = len l + len rest)%N as Hl by by rewrite Hdrop, len_app.
  unfold len in Hl. rewrite length_drop in Hl. split; [unfold len in *; lia|].
  unfold len. rewrite N2Nat.inj_add, Nat2N.id, <-drop_drop, Hdrop. apply drop_app_length.
Qed.

Lemma ahead_len offset rest : ahead offset rest → (offset + len rest = len bytes)%N.
Proof. intros [Hle <-]. unfold len in *. rewrite length_drop. lia. Qed.

Lemma scans_iff {A} (c : M N (WireResult A)) P Q :
  (∀ a l, P a l ↔ Q a l) → scans c P → scans c Q.
Proof.
  intros HPQ Hc offset rest Hat. destruct (Hc offset rest Hat) as [(r & offset' & Hrun & Hok) Hback].
  split; [|intros a l rest' Hrest HQ; eapply Hback; [exact Hrest|by apply HPQ]].
  exists r, offset'. split; [done|]. intros a Ha. destruct (Hok a Ha) as (l & rest' & ? & HP & ?).
  exists l, rest'. split_and!; [done|by apply HPQ|done].
Qed.

Lemma scans_ok {A} (x : A) : scans (ret (Ok x)) (λ a l, a = x ∧ l = []).
Proof.
  intros offset rest Hat. split.
  - exists (Ok x), offset. split; [done|]. intros a [= <-]. exists [], rest. split_and!; [done..|]. unfold len. cbn. lia.
  - intros a l rest' _ [-> ->]. unfold ret, len. cbn. by rewrite N.add_0_r.
Qed.

Lemma scans_err {A} e : scans (A := A) (ret (Err e)) (λ _ _, False).
Proof. intros offset rest Hat. split; [|done]. by exists (Err e), offset. Qed.

Lemma scans_bind {A B} (c : M N (WireResult A)) (k : A → M N (WireResult B)) P Q :
  scans c P → (∀ a l, P a l → scans (k a) (Q a)) →
  scans (try_bind c k) (λ b l, ∃ a l1 l2, l = l1 ++ l2 ∧ P a l1 ∧ Q a b l2).
Proof.
  intros Hc Hk offset rest Hat. unfold try_bind, bind. destruct (Hc offset rest Hat) as [(r & offset' & Hrun & Hok) Hback]. split.
  - rewrite Hrun. destruct r as [a|e]; [|by exists (Err e), offset'].
    destruct (Hok a eq_refl) as (l & rest' & -> & HP & ->).
    destruct (Hk a _ HP _ _ (ahead_app _ _ _ Hat)) as [(r & offset2 & Hrun2 & Hok2) _].
    exists r, offset2. split; [done|]. intros b Hb. destruct (Hok2 b Hb) as (l2 & rest2 & -> & HQ & ->).
    exists (l ++ l2), rest2. rewrite app_assoc, len_app. split_and!; [done|by exists a, l, l2|lia].
  - intros b ? rest' -> (a & l1 & l2 & -> & HP & HQ). rewrite <-app_assoc in Hat, Hback.
    rewrite (Hback a l1 _ eq_refl HP). destruct (Hk a _ HP _ _ (ahead_app _ _ _ Hat)) as [_ Hback2].
    rewrite (Hback2 b l2 _ eq_refl HQ), len_app. do 2 f_equal. lia.
Qed.

Lemma scans_take n : scans (take_bytes bytes n) (λ a l, a = l ∧ len l = n).
Proof.
  intros offset rest Hat. pose proof (ahead_len _ _ Hat) as Hsum. destruct Hat as [Hle Hdrop].
  unfold take_bytes, bind, get, put, ret. cbn -[N.add]. split.
  - destruct (decide (usize_max < offset + n)%N) as [Hover|Hover].
    { by eexists (Err _), _. }
    destruct (decide (offset + n ≤ len bytes)%N) as [Hin|Hin].
    2:{ by eexists (Err _), _. }
    eexists _, _. split; [done|]. intros a [= <-].
    unfold slice. rewrite Hdrop. exists (take (N.to_nat n) rest), (drop (N.to_nat n) rest).
    replace (N.to_nat (offset + n) - N.to_nat offset) with (N.to_nat n) by lia.
    assert (len (take (N.to_nat n) rest) = n) as Hn by (unfold len in *; rewrite length_take; lia).
    rewrite take_drop, Hn. done.
  - intros a l rest' -> [-> Hn]. rewrite len_app in Hsum.
    rewrite decide_False by lia. rewrite decide_True by lia. unfold slice. rewrite Hdrop, <-Hn.
    replace (N.to_nat (offset + len l) - N.to_nat offset) with (length l) by (unfold len; lia).
    by rewrite take_app_length.
Qed.

Lemma scans_skip n : scans (skip_bytes bytes n) (λ _ l, len l = n).
Proof.
  eapply scans_iff; [|apply scans_bind; [apply scans_take|intros; apply scans_ok]].
  intros [] l. split.
  - intros (a & l1 & l2 & -> & [-> Hn] & _ & ->). by rewrite app_nil_r.
  - intros Hn. exists l, l, []. by rewrite app_nil_r.
Qed.

Lemma scans_u8 : scans (read_u8 bytes) (λ n l, ∃ b, l = [b] ∧ n = byte_val b).
Proof.
  intros offset rest Hat. pose proof (ahead_len _ _ Hat) as Hsum. destruct Hat as [Hle Hdrop].
  unfold read_u8, bind, get, put, ret. cbn -[N.add].
  assert (bytes !! N.to_nat offset = head rest) as ->.
  { rewrite <-Hdrop. rewrite <-(Nat.add_0_r (N.to_nat offset)) at 1. rewrite <-lookup_drop. by destruct (drop _ _). }
  split.
  - destruct rest as [|b rest]; [by eexists (Err _), _|]. eexists _, _. split; [done|]. intros a [= <-].
    exists [b], rest. split_and!; [done|by exists b|done].
  - intros a l rest' -> (b & -> & ->). done.
Qed.

Definition read_length (w : LengthWidth) : M N (WireResult N) :=
  match w with W8 => read_u8 bytes | W16 => read_u16 bytes | W32 => read_u32 bytes end.

Lemma scans_length w :
  scans (read_length w) (λ n l, length l = width_bytes w ∧ n = be_value l).
Proof.
  assert (∀ k, scans (let? bs := take_bytes bytes (N.of_nat k) in ret (Ok (be_value bs)))
    (λ n l, length l = k ∧ n = be_value l)) as Hwide.
  { intros k. eapply scans_iff; [|apply scans_bind; [apply scans_take|intros; apply scans_ok]].
    intros n l. split.
    - intros (a & l1 & l2 & -> & [-> Hl] & -> & ->). rewrite app_nil_r. unfold len in Hl. lia.
    - intros [Hl ->]. exists l, l, []. rewrite app_nil_r. unfold len. by rewrite Hl. }
  destruct w; [|apply (Hwide 2)|apply (Hwide 4)].
  eapply scans_iff; [|apply scans_u8]. intros n l. split.
  - by intros (b & -> & ->).
  - intros [Hl ->]. destruct l as [|b [|]]; [done| |done]. by exists b.
Qed.

Lemma scans_repeat n body P :
  scans body P →
  scans (repeat_try n body) (λ _ l, ∃ ls, length ls = n ∧ Forall (P tt) ls ∧ l = concat ls).
Proof.
  intros Hbody. induction n as [|n IH]; cbn.
  - eapply scans_iff; [|apply scans_ok]. intros [] l. split.
    + intros [_ ->]. by exists [].
    + intros ([|] & [=] & _ & ->). done.
  - eapply scans_iff; [|apply scans_bind; [exact Hbody|intros; exact IH]]. intros [] l. split.
    + intros ([] & l1 & l2 & -> & HP & ls & <- & Hls & ->). exists (l1 :: ls). by auto.
    + intros ([|l1 ls] & [= Hn] & Hls & ->). apply Forall_cons in Hls as [HP Hls].
      exists tt, l1, (concat ls). split_and!; [done|done|]. by exists ls.
Qed.

Lemma scans_container parse P count depth map :
  scans (parse (depth + 1)%N) P →
  scans (parse_container parse count depth map)
    (λ _ l, (count ≤ MAX_MSGPACK_CONTAINER_ITEMS)%N ∧
       ∃ ls, len ls = item_count count map ∧ Forall (P tt) ls ∧ l = concat ls).
Proof.
  intros Hparse. unfold parse_container. case_decide as Hmax.
  { eapply scans_iff; [|apply scans_err]. intros a l. split; [done|]. intros [? _]. lia. }
  rewrite decide_False by (unfold MAX_MSGPACK_CONTAINER_ITEMS, usize_max in *; destruct map; lia).
  eapply scans_iff; [|apply scans_repeat, Hparse]. intros [] l. split.
  - intros (ls & Hn & Hls & ->). split; [lia|]. exists ls. split_and!; [|done|done].
    unfold len, item_count. rewrite Hn. lia.
  - intros [_ (ls & Hn & Hls & ->)]. exists ls. split_and!; [|done|done]. unfold len, item_count in Hn. lia.
Qed.

(** ** The scan by the table of the format *)

Definition parse_form (container : N → bool → M N (WireResult unit)) (form : MpForm) : M N (WireResult unit) :=
  match form with
  | FormAtom => ret (Ok tt)
  | FormData n => skip_bytes bytes n
  | FormLength w false => let? length := read_length w in skip_bytes bytes length
  | FormLength w true => let? length := read_length w in parse_extension bytes length
  | FormFixItems count map => container count map
  | FormItems w map => let? count := read_length w in container count map
  | FormReserved => ret (decode_error "reserved MessagePack marker")
  end.

Lemma parse_marker_form container marker :
  parse_marker bytes container (byte_val marker) = parse_form container (mp_form marker).
Proof. by destruct marker. Qed.

(** The items of a container at a level below which [room] levels are left. *)
Definition nested_fits (room : nat) (items : list MpValue) : Prop :=
  items = [] ∨ ∃ room', room = S room' ∧ Forall (mp_valid room') items.

Definition items_scanned (room : nat) (count : N) (map : bool) (l : list byte) : Prop :=
  (count ≤ MAX_MSGPACK_CONTAINER_ITEMS)%N ∧
  ∃ items, len items = item_count count map ∧ l = concat (mp_encode <$> items) ∧ nested_fits room items.

(** What may follow a marker of a form. *)
Definition form_scanned (room : nat) (form : MpForm) (l : list byte) : Prop :=
  (∃ data, data_fits form (len data) ∧ l = data_header form (len data) ++ data) ∨
  (∃ items, items_fit form (len items) ∧ nested_fits room items ∧
     l = items_header form (len items) ++ concat (mp_encode <$> items)).

Lemma form_scanned_value room marker l :
  form_scanned room (mp_form marker) l ↔ ∃ v, mp_valid room v ∧ mp_encode v = marker :: l.
Proof.
  split.
  - intros [(data & Hfit & ->)|(items & Hfit & Hnested & ->)].
    + exists (MpData marker data). split; [by constructor|done].
    + exists (MpItems marker items). split; [|done]. destruct Hnested as [->|(room' & -> & Hall)]; by constructor.
  - intros ([m data|m items] & Hv & [= -> <-]); [left|right].
    + exists data. by inversion Hv; subst.
    + exists items. inversion Hv; subst; split_and!; try done; [by left|right; eauto].
Qed.

Lemma small_container marker count map : mp_form marker = FormFixItems count map → (count ≤ MAX_MSGPACK_CONTAINER_ITEMS)%N.
Proof. destruct marker; cbn; intros Hf; inversion Hf; vm_compute; discriminate. Qed.

Lemma width_small w l : length l = width_bytes w → (be_value l + 1 ≤ u64_max)%N.
Proof.
  intros Hl. pose proof (be_value_bound l) as Hb. rewrite Hl in Hb. unfold u64_max. destruct w; cbn in Hb; lia.
Qed.

Lemma scans_blob room w extension (k : N → M N (WireResult unit)) :
  (∀ n, (n + 1 ≤ u64_max)%N → scans (k n) (λ _ l, len l = (n + extension_bytes extension)%N)) →
  scans (let? length := read_length w in k length) (λ _, form_scanned room (FormLength w extension)).
Proof.
  intros Hk. eapply scans_iff;
    [|eapply (scans_bind _ _ _ (λ n _ l, len l = (n + extension_bytes extension)%N)); [apply scans_length|]].
  2:{ intros n l [Hw ->]. apply Hk. by eapply width_small. }
  intros [] l. split.
  - intros (n & hdr & data & -> & [Hw ->] & Hdata). left. exists data. cbn. rewrite Hdata, N.add_sub, <-Hw, be_bytes_value.
    split; [|done]. exists (be_value hdr). split; [apply be_value_bound|done].
  - intros [(data & (n & Hn & Hdata) & ->)|(items & [] & _)]. cbn. rewrite Hdata, N.add_sub.
    exists n, (be_bytes (width_bytes w) n), data. by rewrite be_bytes_length, be_value_bytes.
Qed.

Section Form.
Variables (room : nat) (container : N → bool → M N (WireResult unit)).
Hypothesis Hcontainer : ∀ count map, scans (container count map) (λ _, items_scanned room count map).

Lemma scans_items w map :
  scans (let? count := read_length w in container count map) (λ _, form_scanned room (FormItems w map)).
Proof.
  assert (∀ n, (if map then item_count n map / 2 else item_count n map)%N = n) as Hhalf.
  { intros n. destruct map; cbn; [by apply N.div_mul|done]. }
  eapply scans_iff; [|apply scans_bind; [apply scans_length|intros; apply Hcontainer]]. intros [] l. split.
  - intros (n & hdr & rest & -> & [Hw ->] & Hmax & items & Hn & -> & Hnested). right. exists items. cbn.
    rewrite Hn, Hhalf, <-Hw, be_bytes_value. split_and!; [|done|done].
    exists (be_value hdr). split; [apply be_value_bound|done].
  - intros [(data & [] & _)|(items & (n & Hn & Hmax & Hlength) & Hnested & ->)]. cbn. rewrite Hlength, Hhalf.
    exists n, (be_bytes (width_bytes w) n), (concat (mp_encode <$> items)). rewrite be_bytes_length, be_value_bytes by done.
    split_and!; [done..|]. split; [done|]. by exists items.
Qed.

Lemma scans_form marker :
  scans (parse_form container (mp_form marker)) (λ _, form_scanned room (mp_form marker)).
Proof.
  destruct (mp_form marker) as [|n|w [|]|count map|w map|] eqn:Hform; cbn [parse_form].
  - eapply scans_iff; [|apply scans_ok]. intros [] l. split.
    + intros [_ ->]. left. by exists [].
    + intros [([|] & Hfit & ->)|(items & [] & _)]; by inversion Hfit.
  - eapply scans_iff; [|by apply scans_skip]. intros [] l. split.
    + intros Hl. left. by exists l.
    + by intros [(data & Hfit & ->)|(items & [] & _)].
  - apply scans_blob. intros n Hn. unfold parse_extension. rewrite saturating_add_exact by done. by apply scans_skip.
  - apply scans_blob. intros n Hn. cbn. rewrite N.add_0_r. by apply scans_skip.
  - eapply scans_iff; [|apply Hcontainer]. intros [] l. split.
    + intros (_ & items & Hn & -> & Hnested). right. by exists items.
    + intros [(data & [] & _)|(items & Hfit & Hnested & ->)]. split; [by eapply small_container|]. by exists items.
  - apply scans_items.
  - eapply scans_iff; [|apply scans_err]. intros [] l. split; [done|].
    by intros [(data & [] & _)|(items & [] & _)].
Qed.
End Form.

Lemma scans_too_deep fuel depth :
  (MAX_MSGPACK_NESTING_DEPTH < depth)%N → scans (parse_value bytes (S fuel) depth) (λ _ _, False).
Proof. intros Hdeep. cbn -[N.lt]. rewrite decide_True by done. apply scans_err. Qed.

(** The items of a container, when a value one level deeper is scanned
    exactly. *)
Lemma scans_nested room fuel depth count map :
  match room with
  | O => scans (parse_value bytes fuel (depth + 1)) (λ _ _, False)
  | S room => scans (parse_value bytes fuel (depth + 1)) (λ _ l, ∃ v, mp_valid room v ∧ mp_encode v = l)
  end →
  scans (parse_container (parse_value bytes fuel) count depth map) (λ _, items_scanned room count map).
Proof.
  intros Hnext. destruct room as [|room]; (eapply scans_iff; [|eapply scans_container, Hnext]); intros [] l; split.
  - intros (Hmax & [|x ls] & Hn & Hls & ->); [|by apply Forall_cons in Hls as [[] _]].
    split; [done|]. exists []. split_and!; [done..|by left].
  - intros (Hmax & items & Hn & -> & [->|(room' & [=] & _)]). split; [done|]. by exists [].
  - intros (Hmax & ls & Hn & Hls & ->). split; [done|].
    assert (∃ items, Forall (mp_valid room) items ∧ ls = mp_encode <$> items) as (items & Hitems & ->).
    { clear Hn. induction Hls as [|l ls (v & Hv & <-) _ (items & Hitems & ->)]; [by exists []|].
      exists (v :: items). by auto. }
    exists items. unfold len in *. rewrite length_fmap in Hn. split_and!; [done..|]. right. eauto.
  - intros (Hmax & items & Hn & -> & Hnested). split; [done|]. exists (mp_encode <$> items).
    unfold len in *. rewrite length_fmap. split_and!; [done| |done].
    destruct Hnested as [->|(room' & [= <-] & Hall)]; [done|]. apply Forall_fmap. eapply Forall_impl; [exact Hall|]. eauto.
Qed.

Lemma scans_level room fuel depth :
  (depth ≤ MAX_MSGPACK_NESTING_DEPTH)%N →
  (∀ count map, scans (parse_container (parse_value bytes fuel) count depth map) (λ _, items_scanned room count map)) →
  scans (parse_value bytes (S fuel) depth) (λ _ l, ∃ v, mp_valid room v ∧ mp_encode v = l).
Proof.
  intros Hdepth Hitems. cbn [parse_value]. rewrite decide_False by lia. eapply scans_iff;
    [|eapply (scans_bind _ _ _ (λ n _ l, ∃ marker, n = byte_val marker ∧ form_scanned room (mp_form marker) l)); [apply scans_u8|]].
  - intros [] l. split.
    + intros (n & ? & rest & -> & (b & -> & ->) & marker & Hb & Hform). apply byte_val_inj in Hb as ->.
      by apply form_scanned_value.
    + intros (v & Hv & <-). destruct (mp_encode v) as [|marker l] eqn:Henc; [by destruct v|].
      exists (byte_val marker), [marker], l. split_and!; [done|by exists marker|]. exists marker. split; [done|].
      apply form_scanned_value. by exists v.
  - intros n l (marker & -> & ->). rewrite parse_marker_form.
    eapply scans_iff; [|apply (scans_form room); exact Hitems]. intros [] rest. split.
    + intros Hform. by exists marker.
    + intros (b & Hb & Hform). by apply byte_val_inj in Hb as ->.
Qed.

Lemma scans_value room : ∀ fuel depth,
  (depth + N.of_nat room = MAX_MSGPACK_NESTING_DEPTH)%N → room + 2 ≤ fuel →
  scans (parse_value bytes fuel depth) (λ _ l, ∃ v, mp_valid room v ∧ mp_encode v = l).
Proof.
  induction room as [|room IH]; intros [|fuel] depth Hdepth Hfuel; [lia| |lia|];
    (apply scans_level; [lia|]); intros count map; apply scans_nested.
  - destruct fuel as [|fuel]; [lia|]. apply scans_too_deep. lia.
  - apply IH; lia.
Qed.
End Scanners.

(** C31: The structure check returns on every input that fits in memory, and
    accepts exactly the encodings of values of the format that are nested at
    most 64 levels deep with at most 65536 items per container. *)
Theorem structure_check_exact bytes :
  (len bytes ≤ usize_max)%N →
  ∃ r, validate_messagepack_structure bytes = Some r ∧
    (r = Ok tt ↔ ∃ v, mp_valid (N.to_nat MAX_MSGPACK_NESTING_DEPTH) v ∧ mp_encode v = bytes).
Proof.
  intros Hlen. assert (ahead bytes 0 bytes) as Hat by (split; [lia|done]).
  destruct (scans_value bytes Hlen (N.to_nat MAX_MSGPACK_NESTING_DEPTH) scan_fuel 0 eq_refl (le_n _) 0%N bytes Hat)
    as [(r & offset & Hrun & Hok) Hback].
  unfold validate_messagepack_structure. rewrite Hrun. destruct r as [[]|e].
  - eexists. split; [done|]. destruct (Hok tt eq_refl) as (l & rest & Hbytes & (v & Hv & Henc) & Hoffset). split.
    + case_decide as Hend; [done|]. intros _. exists v. split; [done|]. rewrite Henc, Hbytes.
      assert (len rest = 0)%N as Hrest by (rewrite Hbytes, len_app in Hend; lia).
      destruct rest; [by rewrite app_nil_r|done].
    + intros (v' & Hv' & Henc'). rewrite (Hback tt bytes [] (eq_sym (app_nil_r _)) (ex_intro _ v' (conj Hv' Henc'))) in Hrun.
      injection Hrun as <-. by rewrite decide_False by (intros Hne; apply Hne; lia).
  - eexists. split; [done|]. split; [done|]. intros (v & Hv & Henc).
    rewrite (Hback tt bytes [] (eq_sym (app_nil_r _)) (ex_intro _ v (conj Hv Henc))) in Hrun. discriminate.
Qed.
