(* ===== verification/WireFrame.v ===== *)
(** * Binary frames

    crates/mutsuki-runtime-wire/src/binary/frame.rs: a length prefix, a header
    of fixed size and the payload.

    Below, what decoding, streams and negotiation guarantee. *)

From S2P Require Import Prelude Contracts RunnerContracts BatchContracts PluginContracts WireBytes WireProtocol.

Definition BINARY_LENGTH_PREFIX_LEN : N := 4.
Definition BINARY_HEADER_LEN : N := 24.
Definition WIRE_MAGIC : N := 0x4d555453.

(** ** Flags *)

Definition FLAG_REQUEST : N := 0x0001.
Definition FLAG_RESPONSE : N := 0x0002.
Definition FLAG_ERROR : N := 0x0004.
Definition FLAG_MANAGEMENT : N := 0x0008.
Definition FLAGS_KNOWN : N := N.lor (N.lor (N.lor FLAG_REQUEST FLAG_RESPONSE) FLAG_ERROR) FLAG_MANAGEMENT.

Definition flags_contains (self other : N) : bool := (N.land self other =? other)%N.

(** [!KNOWN] on [u16] is the complement in 16 bits. *)
Definition flags_from_bits (bits : N) : WireResult N :=
  if negb (N.land bits (N.lxor FLAGS_KNOWN u16_max) =? 0)%N then Err (InvalidFlags bits)
  else if eqb (flags_contains bits FLAG_REQUEST) (flags_contains bits FLAG_RESPONSE) then Err (InvalidFlags bits)
  else if flags_contains bits FLAG_ERROR && negb (flags_contains bits FLAG_RESPONSE) then Err (InvalidFlags bits)
  else Ok bits.

(** ** Frames *)

Record WireHeader : Type := MkWireHeader {
  wh_protocol : WireProtocolVersion;
  wh_opcode : Opcode;
  wh_flags : N;
  wh_request_id : N;
  wh_payload_len : N
}.

Record BinaryFrame : Type := MkBinaryFrame {
  bf_header : WireHeader;
  bf_payload : list byte
}.

Definition validate_frame_length (length : N) (limits : WireLimits) : WireResult unit :=
  if decide (lim_max_frame_bytes limits < length)%N then Err (FrameOversized length (lim_max_frame_bytes limits))
  else if decide (length < BINARY_HEADER_LEN)%N then Err (Truncated BINARY_HEADER_LEN length)
  else Ok tt.

Definition decode_frame_body (body : list byte) (limits : WireLimits) : WireResult BinaryFrame :=
  if decide (len body < BINARY_HEADER_LEN)%N then Err (Truncated BINARY_HEADER_LEN (len body))
  else
    let magic := be_value (slice 0 4 body) in
    if decide (magic ≠ WIRE_MAGIC) then Err (InvalidMagic magic)
    else
      let protocol := {| wv_major := be_value (slice 4 6 body); wv_minor := be_value (slice 6 8 body) |} in
      letr? _ := ensure_compatible protocol in
      letr? opcode := opcode_from_u16 (be_value (slice 8 10 body)) in
      letr? flags := flags_from_bits (be_value (slice 10 12 body)) in
      let request_id := be_value (slice 12 20 body) in
      if decide (request_id = 0%N) then Err InvalidRequestId
      else
        let payload_len := be_value (slice 20 24 body) in
        if decide (lim_max_payload_bytes limits < payload_len)%N then
          Err (PayloadOversized payload_len (lim_max_payload_bytes limits))
        else
          let payload := drop (N.to_nat BINARY_HEADER_LEN) body in
          if decide (payload_len ≠ len payload) then Err (PayloadLengthMismatch payload_len (len payload))
          else
            Ok {| bf_header := {| wh_protocol := protocol; wh_opcode := opcode; wh_flags := flags;
                                  wh_request_id := request_id; wh_payload_len := payload_len |};
                  bf_payload := payload |}.

Definition decode_binary_frame (bytes : list byte) (limits : WireLimits) : WireResult BinaryFrame :=
  if decide (len bytes < BINARY_LENGTH_PREFIX_LEN)%N then Err (Truncated BINARY_LENGTH_PREFIX_LEN (len bytes))
  else
    let declared := be_value (slice 0 4 bytes) in
    letr? _ := validate_frame_length declared limits in
    let actual := (len bytes - BINARY_LENGTH_PREFIX_LEN)%N in
    if decide (declared ≠ actual) then Err (Truncated declared actual)
    else decode_frame_body (drop (N.to_nat BINARY_LENGTH_PREFIX_LEN) bytes) limits.

(** [body_len as u32] and [payload.len() as u32] keep the low 32 bits. *)
Definition encode_frame (opcode : Opcode) (flags request_id : N) (payload : list byte) (limits : WireLimits) :
    WireResult (list byte) :=
  if decide (lim_max_payload_bytes limits < len payload)%N then
    Err (PayloadOversized (len payload) (lim_max_payload_bytes limits))
  else
    let body_len := (BINARY_HEADER_LEN + len payload)%N in
    letr? _ := validate_frame_length body_len limits in
    Ok (be_bytes 4 body_len ++ be_bytes 4 WIRE_MAGIC ++ be_bytes 2 (wv_major CURRENT) ++ be_bytes 2 (wv_minor CURRENT)
        ++ be_bytes 2 (opcode_u16 opcode) ++ be_bytes 2 flags ++ be_bytes 8 request_id ++ be_bytes 4 (len payload)
        ++ payload).

(** ** Reading frames from a stream *)

Definition io_result {A} (c : M Reader (Result string A)) : M Reader (WireResult A) :=
  let! r := c in ret (match r with Ok a => Ok a | Err e => Err (IoError e) end).

Definition read_binary_frame (limits : WireLimits) : M Reader (WireResult BinaryFrame) :=
  let? prefix := io_result (read_exact BINARY_LENGTH_PREFIX_LEN) in
  let declared := be_value prefix in
  let? _ := ret (validate_frame_length declared limits) in
  let? body := io_result (read_exact declared) in
  ret (decode_frame_body body limits).

Definition read_binary_frame_bytes (limits : WireLimits) : M Reader (WireResult (option (list byte))) :=
  let? first := io_result read_one in
  match first with
  | None => ret (Ok None)
  | Some first =>
      let? prefix_rest := io_result (read_exact 3) in
      let prefix := first :: prefix_rest in
      let declared := be_value prefix in
      let? _ := ret (validate_frame_length declared limits) in
      let? body := io_result (read_exact declared) in
      let bytes := prefix ++ body in
      let? _ := ret (decode_binary_frame bytes limits) in
      ret (Ok (Some bytes))
  end.

(** ** Frames and negotiation: what the decoder accepts, round trips *)

(** ** Slices *)

Lemma slice_first l rest stop : length l = stop → slice 0 stop (l ++ rest) = l.
Proof. intros <-. unfold slice. rewrite drop_0, Nat.sub_0_r. apply take_app_length. Qed.

Lemma slice_later l rest start stop :
  length l ≤ start → slice start stop (l ++ rest) = slice (start - length l) (stop - length l) rest.
Proof. intros Hl. unfold slice. rewrite drop_app_ge by done. f_equal. lia. Qed.

Lemma slice_value start stop l : stop ≤ length l → be_bytes (stop - start) (be_value (slice start stop l)) = slice start stop l.
Proof.
  intros Hl. assert (length (slice start stop l) = stop - start) as <- by (unfold slice; rewrite length_take, length_drop; lia).
  apply be_bytes_value.
Qed.

Lemma slice_bound start stop l : (be_value (slice start stop l) < 256 ^ N.of_nat (stop - start))%N.
Proof.
  eapply N.lt_le_trans; [apply be_value_bound|]. apply N.pow_le_mono_r; [done|].
  unfold slice. rewrite length_take. lia.
Qed.

(** ** The bytes of a frame *)

Definition header_bytes (h : WireHeader) : list byte :=
  be_bytes 4 WIRE_MAGIC ++ be_bytes 2 (wv_major (wh_protocol h)) ++ be_bytes 2 (wv_minor (wh_protocol h))
  ++ be_bytes 2 (opcode_u16 (wh_opcode h)) ++ be_bytes 2 (wh_flags h) ++ be_bytes 8 (wh_request_id h)
  ++ be_bytes 4 (wh_payload_len h).

Definition frame_bytes (f : BinaryFrame) : list byte :=
  be_bytes 4 (BINARY_HEADER_LEN + len (bf_payload f)) ++ header_bytes (bf_header f) ++ bf_payload f.

(** Flags a header may carry: of bits 0 (request), 1 (response), 2 (error) and 3
    (management) only, a request or a response and not both, and an error only
    with a response *)
Definition flags_consistent (flags : N) : Prop :=
  (∀ i, (4 ≤ i)%N → N.testbit flags i = false) ∧
  N.testbit flags 0 = negb (N.testbit flags 1) ∧
  (N.testbit flags 2 = true → N.testbit flags 1 = true).

Definition header_ok (h : WireHeader) : Prop :=
  wv_major (wh_protocol h) = wv_major CURRENT ∧ (wv_minor (wh_protocol h) ≤ u16_max)%N ∧
  (wh_flags h ≤ u16_max)%N ∧ flags_consistent (wh_flags h) ∧
  (0 < wh_request_id h ≤ u64_max)%N.

(** The frames a peer with these limits accepts. *)
Definition frame_ok (f : BinaryFrame) (limits : WireLimits) : Prop :=
  header_ok (bf_header f) ∧ wh_payload_len (bf_header f) = len (bf_payload f) ∧
  (len (bf_payload f) ≤ lim_max_payload_bytes limits)%N ∧
  (BINARY_HEADER_LEN + len (bf_payload f) ≤ lim_max_frame_bytes limits)%N ∧
  (BINARY_HEADER_LEN + len (bf_payload f) ≤ u32_max)%N.

Lemma flag_bit flags k : flags_contains flags (2 ^ k) = N.testbit flags k.
Proof.
  unfold flags_contains. destruct (N.testbit flags k) eqn:Hk.
  - apply N.eqb_eq, N.bits_inj. intros i. rewrite N.land_spec, N.pow2_bits_eqb.
    destruct (N.eqb_spec k i) as [<-|]; [by rewrite Hk|]. by rewrite andb_false_r.
  - apply N.eqb_neq. intros H. assert (N.testbit (N.land flags (2 ^ k)) k = true) as Hb by (rewrite H; apply N.pow2_bits_true).
    by rewrite N.land_spec, Hk in Hb.
Qed.

Lemma known_bits flags : (flags ≤ u16_max)%N →
  N.land flags (N.lxor FLAGS_KNOWN u16_max) = 0%N ↔ ∀ i, (4 ≤ i)%N → N.testbit flags i = false.
Proof.
  intros Hle. assert (∀ i, (16 ≤ i)%N → N.testbit flags i = false) as Hhigh.
  { intros i Hi. destruct (N.eq_dec flags 0) as [->|Hz]; [apply N.bits_0|]. apply N.bits_above_log2.
    apply N.lt_le_trans with 16%N; [|done]. apply N.log2_lt_pow2; [lia|]. unfold u16_max in Hle. cbn. lia. }
  change (N.lxor FLAGS_KNOWN u16_max) with (N.ones 12 * 2 ^ 4)%N. split.
  - intros H i Hi. destruct (N.lt_ge_cases i 16) as [Hlt|Hge]; [|by apply Hhigh].
    assert (N.testbit (N.land flags (N.ones 12 * 2 ^ 4)) i = false) as Hb by (rewrite H; apply N.bits_0).
    rewrite N.land_spec, N.mul_pow2_bits_high, N.ones_spec_low, andb_true_r in Hb by lia. done.
  - intros H. apply N.bits_inj. intros i. rewrite N.land_spec, N.bits_0. destruct (N.lt_ge_cases i 4) as [Hlt|Hge].
    + rewrite N.mul_pow2_bits_low by done. apply andb_false_r.
    + by rewrite H.
Qed.

(** The check of the code accepts the consistent flags. *)
Lemma flags_from_bits_exact flags : (flags ≤ u16_max)%N → flags_from_bits flags = Ok flags ↔ flags_consistent flags.
Proof.
  intros Hle. pose proof (known_bits flags Hle) as Hknown. unfold flags_from_bits, flags_consistent.
  change FLAG_REQUEST with (2 ^ 0)%N. change FLAG_RESPONSE with (2 ^ 1)%N. change FLAG_ERROR with (2 ^ 2)%N. rewrite !flag_bit.
  destruct (N.eqb_spec (N.land flags (N.lxor FLAGS_KNOWN u16_max)) 0) as [H0|H0]; cbn [negb]; [|naive_solver].
  rewrite Hknown in H0.
  destruct (N.testbit flags 0), (N.testbit flags 1), (N.testbit flags 2); cbn; naive_solver.
Qed.

Lemma header_bytes_length h : length (header_bytes h) = 24.
Proof. unfold header_bytes. by rewrite !length_app, !be_bytes_length. Qed.

(** Cuts a slice out of a concatenation of fields of known width. *)
Ltac cut_slice :=
  repeat (rewrite slice_later by (rewrite be_bytes_length; lia); rewrite be_bytes_length; cbn [Nat.sub]);
  rewrite ?slice_first by apply be_bytes_length.

Lemma decode_header h payload :
  header_ok h → (wh_payload_len h ≤ u32_max)%N →
  let body := header_bytes h ++ payload in
  be_value (slice 0 4 body) = WIRE_MAGIC ∧ be_value (slice 4 6 body) = wv_major (wh_protocol h) ∧
  be_value (slice 6 8 body) = wv_minor (wh_protocol h) ∧ be_value (slice 8 10 body) = opcode_u16 (wh_opcode h) ∧
  be_value (slice 10 12 body) = wh_flags h ∧ be_value (slice 12 20 body) = wh_request_id h ∧
  be_value (slice 20 24 body) = wh_payload_len h.
Proof.
  intros (Hmajor & Hminor & Hflags & _ & Hid) Hlen. cbv zeta. unfold header_bytes. rewrite <-!app_assoc.
  pose proof (opcode_u16_bound (wh_opcode h)) as Hop. unfold u16_max, u32_max, u64_max in *.
  split_and!; cut_slice; apply be_value_bytes; cbn -[N.lt].
  all: try (rewrite Hmajor; vm_compute; reflexivity). all: try done. all: lia.
Qed.

Lemma body_split body :
  (BINARY_HEADER_LEN ≤ len body)%N →
  body = slice 0 4 body ++ slice 4 6 body ++ slice 6 8 body ++ slice 8 10 body ++ slice 10 12 body
         ++ slice 12 20 body ++ slice 20 24 body ++ drop 24 body.
Proof.
  intros Hlen. unfold len, BINARY_HEADER_LEN in Hlen.
  do 24 (destruct body as [|? body]; [cbn in Hlen; lia|]). reflexivity.
Qed.

Lemma decode_body_ok f limits : frame_ok f limits → decode_frame_body (header_bytes (bf_header f) ++ bf_payload f) limits = Ok f.
Proof.
  intros (Hh & Hplen & Hpayload & Hframe & Hu32).
  destruct (decode_header _ (bf_payload f) Hh) as (Hmagic & Hmajor & Hminor & Hop & Hflags & Hid & Hlen).
  { rewrite Hplen. unfold BINARY_HEADER_LEN in Hu32. lia. }
  destruct Hh as (HM & Hm & Hf & Hbits & Hr). unfold decode_frame_body, ensure_compatible.
  rewrite Hmagic, Hmajor, Hminor, Hop, Hflags, Hid, Hlen, opcode_from_u16_of, (proj2 (flags_from_bits_exact _ Hf) Hbits). cbn [rbind wv_major].
  rewrite decide_False by (unfold len; rewrite length_app, header_bytes_length; unfold BINARY_HEADER_LEN; lia).
  rewrite decide_False by (by intros []). rewrite decide_False by (rewrite HM; by intros []). cbn [rbind].
  rewrite decide_False by lia. rewrite decide_False by lia.
  rewrite (drop_app_length' _ _ (N.to_nat BINARY_HEADER_LEN)) by (by rewrite header_bytes_length).
  rewrite decide_False by (rewrite Hplen; by intros []). by destruct f as [[[] ? ? ? ?] ?].
Qed.

Lemma flags_from_bits_id bits flags : flags_from_bits bits = Ok flags → flags = bits.
Proof. unfold flags_from_bits. repeat case_match; congruence. Qed.

Lemma header_ok_read body opcode :
  let h := {| wh_protocol := {| wv_major := be_value (slice 4 6 body); wv_minor := be_value (slice 6 8 body) |};
              wh_opcode := opcode; wh_flags := be_value (slice 10 12 body);
              wh_request_id := be_value (slice 12 20 body); wh_payload_len := be_value (slice 20 24 body) |} in
  ensure_compatible (wh_protocol h) = Ok tt → flags_from_bits (wh_flags h) = Ok (wh_flags h) →
  wh_request_id h ≠ 0%N → header_ok h.
Proof.
  cbn -[slice be_value]. unfold ensure_compatible. cbn -[slice be_value]. case_decide as Hmajor; [done|]. intros _ Hflags Hid.
  pose proof (slice_bound 6 8 body). pose proof (slice_bound 10 12 body). pose proof (slice_bound 12 20 body).
  unfold header_ok, u64_max. assert (be_value (slice 10 12 body) ≤ u16_max)%N as Hle by (unfold u16_max; cbn -[slice be_value N.lt N.le] in *; lia).
  apply (flags_from_bits_exact _ Hle) in Hflags.
  unfold u16_max in *. cbn -[slice be_value N.lt N.le flags_consistent] in *. split_and!; [done|lia|lia|done|lia|lia].
Qed.

Lemma decode_body_inv body limits f :
  decode_frame_body body limits = Ok f →
  body = header_bytes (bf_header f) ++ bf_payload f ∧ header_ok (bf_header f) ∧
  wh_payload_len (bf_header f) = len (bf_payload f) ∧ (len (bf_payload f) ≤ lim_max_payload_bytes limits)%N.
Proof.
  unfold decode_frame_body. case_decide as Hlen; [done|]. case_decide as Hmagic; [done|].
  destruct (ensure_compatible _) as [[]|] eqn:Hc; [|done]. cbn [rbind].
  destruct (opcode_from_u16 _) as [op|] eqn:Hop; [|done]. cbn [rbind].
  destruct (flags_from_bits _) as [fl|] eqn:Hfl; [|done]. cbn [rbind].
  pose proof (flags_from_bits_id _ _ Hfl) as ->.
  case_decide as Hid; [done|]. case_decide as Hover; [done|]. case_decide as Hmatch; [done|]. intros [= <-].
  apply opcode_from_u16_inv in Hop. unfold BINARY_HEADER_LEN in Hlen. assert (24 ≤ length body) as Hl by (unfold len in Hlen; lia).
  cbn [bf_header bf_payload wh_payload_len]. split_and!; [|by apply header_ok_read|done|rewrite <-Hmatch; lia].
  rewrite (body_split body) at 1 by (unfold BINARY_HEADER_LEN; lia). unfold header_bytes.
  cbn [wh_protocol wh_opcode wh_flags wh_request_id wh_payload_len wv_major wv_minor]. rewrite <-!app_assoc, Hop, <-Hmagic.
  by rewrite (slice_value 0 4), (slice_value 4 6), (slice_value 6 8), (slice_value 8 10), (slice_value 10 12),
    (slice_value 12 20), (slice_value 20 24) by lia.
Qed.

Lemma validate_frame_length_ok length limits :
  validate_frame_length length limits = Ok tt ↔ (BINARY_HEADER_LEN ≤ length ≤ lim_max_frame_bytes limits)%N.
Proof. unfold validate_frame_length. repeat case_decide; split; try done; lia. Qed.

Lemma frame_bytes_length f : len (frame_bytes f) = (28 + len (bf_payload f))%N.
Proof. unfold frame_bytes, len. rewrite !length_app, be_bytes_length, header_bytes_length. lia. Qed.

Lemma frame_decode_exact_intro f limits : frame_ok f limits → decode_binary_frame (frame_bytes f) limits = Ok f.
Proof.
  intros Hok. unfold decode_binary_frame. pose proof Hok as (Hh & Hplen & Hpayload & Hframe & Hu32). pose proof (frame_bytes_length f) as Hl.
  assert (be_value (slice 0 4 (frame_bytes f)) = BINARY_HEADER_LEN + len (bf_payload f))%N as ->.
  { unfold frame_bytes. rewrite slice_first by apply be_bytes_length. apply be_value_bytes. unfold u32_max in Hu32. cbn -[N.lt]. lia. }
  rewrite decide_False by (rewrite Hl; unfold BINARY_LENGTH_PREFIX_LEN; lia).
  rewrite (proj2 (validate_frame_length_ok _ _)) by lia. cbn [rbind].
  rewrite decide_False by (rewrite Hl; unfold BINARY_HEADER_LEN, BINARY_LENGTH_PREFIX_LEN; lia).
  unfold frame_bytes. rewrite (drop_app_length' _ _ (N.to_nat BINARY_LENGTH_PREFIX_LEN)) by (by rewrite be_bytes_length).
  by apply decode_body_ok.
Qed.

Lemma frame_decode_exact_elim bytes limits f :
  decode_binary_frame bytes limits = Ok f → bytes = frame_bytes f ∧ frame_ok f limits.
Proof.
  unfold decode_binary_frame. case_decide as Hshort; [done|]. destruct (validate_frame_length _ _) as [[]|] eqn:Hv; [|done]. cbn [rbind].
  apply validate_frame_length_ok in Hv. case_decide as Hdeclared; [done|]. intros Hbody.
  apply decode_body_inv in Hbody as (Hbody & Hh & Hplen & Hpayload).
  assert (bytes = slice 0 4 bytes ++ drop 4 bytes) as Hsplit by by rewrite <-(take_drop 4 bytes) at 1.
  assert (len bytes = 28 + len (bf_payload f))%N as Hl.
  { rewrite Hsplit, len_app. change (N.to_nat BINARY_LENGTH_PREFIX_LEN) with 4 in Hbody. rewrite Hbody, len_app.
    unfold BINARY_LENGTH_PREFIX_LEN in Hshort. unfold len in *. unfold slice. rewrite length_take, length_drop, header_bytes_length. lia. }
  assert (be_value (slice 0 4 bytes) = BINARY_HEADER_LEN + len (bf_payload f))%N as Hprefix.
  { rewrite Hdeclared, Hl. unfold BINARY_LENGTH_PREFIX_LEN, BINARY_HEADER_LEN. lia. }
  split.
  + rewrite Hsplit at 1. unfold frame_bytes. change (drop 4 bytes) with (drop (N.to_nat BINARY_LENGTH_PREFIX_LEN) bytes).
    rewrite Hbody, <-Hprefix. by rewrite (slice_value 0 4) by (unfold len in Hl; lia).
  + pose proof (slice_bound 0 4 bytes) as Hb. rewrite Hprefix in Hb, Hv. cbn in Hb.
    split_and!; [done|done|done|lia|unfold u32_max; lia].
Qed.

(** C28: The decoder accepts a sequence of bytes exactly when it is the
    encoding of a frame within the limits, with a compatible version, a request
    id and consistent flags - no unknown bit, a request or a response and not
    both, an error only with a response - and then returns that frame. *)
Theorem frame_decode_exact bytes limits f :
  decode_binary_frame bytes limits = Ok f ↔ bytes = frame_bytes f ∧ frame_ok f limits.
Proof.
  split; [apply frame_decode_exact_elim|]. intros [-> Hok]. by apply frame_decode_exact_intro.
Qed.

(** ** Encoding *)

(** The frame an encoder of the current version writes. *)
Definition frame_of (opcode : Opcode) (flags request_id : N) (payload : list byte) : BinaryFrame :=
  {| bf_header := {| wh_protocol := CURRENT; wh_opcode := opcode; wh_flags := flags; wh_request_id := request_id;
                     wh_payload_len := len payload |};
     bf_payload := payload |}.

Lemma encode_frame_exact opcode flags request_id payload limits bytes :
  encode_frame opcode flags request_id payload limits = Ok bytes ↔
  (len payload ≤ lim_max_payload_bytes limits)%N ∧ (BINARY_HEADER_LEN + len payload ≤ lim_max_frame_bytes limits)%N ∧
  bytes = frame_bytes (frame_of opcode flags request_id payload).
Proof.
  unfold encode_frame, frame_bytes, header_bytes, frame_of. cbn [bf_header bf_payload wh_protocol wh_opcode wh_flags wh_request_id wh_payload_len].
  rewrite <-!app_assoc. case_decide as Hp; [split; [done|lia]|].
  destruct (validate_frame_length _ _) as [[]|e] eqn:Hv; cbn [rbind].
  - apply validate_frame_length_ok in Hv. split; [intros [= <-]|intros (_ & _ & ->)]; [|done]. split_and!; [lia|lia|done].
  - split; [done|]. intros (_ & Hf & _). enough (validate_frame_length (BINARY_HEADER_LEN + len payload) limits = Ok tt) by congruence.
    apply validate_frame_length_ok. lia.
Qed.

Lemma encoded_frame_ok opcode flags request_id payload limits bytes :
  encode_frame opcode flags request_id payload limits = Ok bytes →
  flags_from_bits flags = Ok flags → (flags ≤ u16_max)%N → (0 < request_id ≤ u64_max)%N → (lim_max_frame_bytes limits ≤ u32_max)%N →
  frame_ok (frame_of opcode flags request_id payload) limits ∧ bytes = frame_bytes (frame_of opcode flags request_id payload).
Proof.
  intros (Hp & Hf & ->)%encode_frame_exact Hflags Hbits Hid Hu32. apply (flags_from_bits_exact _ Hbits) in Hflags. split; [|done]. unfold frame_ok, header_ok. cbn.
  split_and!; try done; lia.
Qed.

Lemma encoded_frame_decodes opcode flags request_id payload limits bytes :
  encode_frame opcode flags request_id payload limits = Ok bytes →
  flags_from_bits flags = Ok flags → (flags ≤ u16_max)%N → (0 < request_id ≤ u64_max)%N → (lim_max_frame_bytes limits ≤ u32_max)%N →
  decode_binary_frame bytes limits = Ok (frame_of opcode flags request_id payload).
Proof.
  intros Henc Hflags Hbits Hid Hu32. destruct (encoded_frame_ok _ _ _ _ _ _ Henc Hflags Hbits Hid Hu32) as [Hok ->].
  by apply frame_decode_exact_intro.
Qed.

(** ** Streams *)

Fixpoint read_frames (n : nat) (limits : WireLimits) : M Reader (WireResult (list BinaryFrame)) :=
  match n with
  | O => ret (Ok [])
  | S n =>
      let? f := read_binary_frame limits in
      let? fs := read_frames n limits in
      ret (Ok (f :: fs))
  end.

Lemma prefix_value f limits : frame_ok f limits → be_value (be_bytes 4 (BINARY_HEADER_LEN + len (bf_payload f))) = (BINARY_HEADER_LEN + len (bf_payload f))%N.
Proof. intros (_ & _ & _ & _ & Hu32). apply be_value_bytes. unfold u32_max in Hu32. cbn -[N.lt]. lia. Qed.

Lemma body_len f : len (header_bytes (bf_header f) ++ bf_payload f) = (BINARY_HEADER_LEN + len (bf_payload f))%N.
Proof. rewrite len_app. unfold len at 1. by rewrite header_bytes_length. Qed.

Lemma read_exact_io l n rest failure :
  n = len l → io_result (read_exact n) (MkReader (l ++ rest) failure) = Some (Ok l, MkReader rest failure).
Proof. intros ->. unfold io_result, bind. by rewrite read_exact_app. Qed.

Lemma read_frame_ok f limits rest failure :
  frame_ok f limits → read_binary_frame limits (MkReader (frame_bytes f ++ rest) failure) = Some (Ok f, MkReader rest failure).
Proof.
  intros Hok. pose proof Hok as (_ & _ & _ & Hframe & _). unfold read_binary_frame, frame_bytes, try_bind, bind. rewrite <-app_assoc.
  rewrite (read_exact_io (be_bytes 4 _)) by (unfold len; by rewrite be_bytes_length). unfold ret.
  rewrite (prefix_value _ _ Hok), (proj2 (validate_frame_length_ok _ _)) by lia.
  rewrite read_exact_io by (by rewrite body_len). by rewrite decode_body_ok.
Qed.

Lemma read_frame_bytes_ok f limits rest failure :
  frame_ok f limits →
  read_binary_frame_bytes limits (MkReader (frame_bytes f ++ rest) failure) = Some (Ok (Some (frame_bytes f)), MkReader rest failure).
Proof.
  intros Hok. pose proof Hok as (_ & _ & _ & Hframe & _).
  assert (decode_binary_frame (frame_bytes f) limits = Ok f) as Hdec by by apply frame_decode_exact_intro.
  pose proof (be_bytes_length 4 (BINARY_HEADER_LEN + len (bf_payload f))) as Hwidth. pose proof (prefix_value _ _ Hok) as Hvalue.
  revert Hdec. unfold frame_bytes. destruct (be_bytes 4 _) as [|b prefix]; [done|]. cbn [app]. intros Hdec. injection Hwidth as Hwidth.
  unfold read_binary_frame_bytes, try_bind, bind, io_result at 1, read_one, bind, ret. cbn [rd_bytes rd_failure].
  rewrite <-!app_assoc. rewrite (read_exact_io prefix) by (unfold len; by rewrite Hwidth).
  rewrite Hvalue, (proj2 (validate_frame_length_ok _ _)) by lia.
  rewrite app_assoc. rewrite read_exact_io by (by rewrite body_len). cbn [app]. by rewrite Hdec.
Qed.

(** ** Streams that end inside a frame *)

Definition cut_off (failure : option string) : WireCodecError := IoError (default "failed to fill whole buffer" failure).

Lemma read_exact_short n l failure :
  (len l < n)%N → io_result (read_exact n) (MkReader l failure) = Some (Err (cut_off failure), MkReader [] failure).
Proof. intros Hn. unfold io_result, read_exact, bind. by rewrite decide_False by (cbn; lia). Qed.

Lemma take_frame n f : 4 ≤ n → take n (frame_bytes f) =
  be_bytes 4 (BINARY_HEADER_LEN + len (bf_payload f)) ++ take (n - 4) (header_bytes (bf_header f) ++ bf_payload f).
Proof. intros Hn. unfold frame_bytes. rewrite take_app_ge by (by rewrite be_bytes_length). by rewrite be_bytes_length. Qed.

Lemma short_body n f : 4 ≤ n < length (frame_bytes f) →
  (len (take (n - 4) (header_bytes (bf_header f) ++ bf_payload f)) < BINARY_HEADER_LEN + len (bf_payload f))%N.
Proof.
  intros [Hn Hl]. pose proof (frame_bytes_length f) as Hf. rewrite <-body_len. unfold len in *. rewrite length_take.
  pose proof (body_len f) as Hb. unfold len, BINARY_HEADER_LEN in Hb. lia.
Qed.

Lemma read_frame_cut f limits n failure :
  frame_ok f limits → n < length (frame_bytes f) →
  read_binary_frame limits (MkReader (take n (frame_bytes f)) failure) = Some (Err (cut_off failure), MkReader [] failure).
Proof.
  intros Hok Hn. pose proof Hok as (_ & _ & _ & Hframe & _). unfold read_binary_frame, try_bind, bind.
  destruct (decide (n < 4)) as [Hs|Hs].
  - by rewrite read_exact_short by (unfold len, BINARY_LENGTH_PREFIX_LEN; rewrite length_take; lia).
  - rewrite take_frame by lia. rewrite (read_exact_io (be_bytes 4 _)) by (unfold len; by rewrite be_bytes_length). unfold ret.
    rewrite (prefix_value _ _ Hok), (proj2 (validate_frame_length_ok _ _)) by lia.
    by rewrite read_exact_short by (apply short_body; lia).
Qed.

Lemma read_frame_bytes_cut f limits n failure :
  frame_ok f limits → 0 < n < length (frame_bytes f) →
  read_binary_frame_bytes limits (MkReader (take n (frame_bytes f)) failure) = Some (Err (cut_off failure), MkReader [] failure).
Proof.
  intros Hok Hn. pose proof Hok as (_ & _ & _ & Hframe & _). unfold read_binary_frame_bytes, try_bind, bind.
  pose proof (be_bytes_length 4 (BINARY_HEADER_LEN + len (bf_payload f))) as Hwidth. pose proof (prefix_value _ _ Hok) as Hvalue.
  destruct (decide (n < 4)) as [Hs|Hs].
  - unfold frame_bytes. destruct (be_bytes 4 _) as [|b prefix]; [done|]. destruct n as [|n]; [lia|]. injection Hwidth as Hwidth.
    cbn [app take]. unfold io_result at 1, read_one, bind, ret. cbn [rd_bytes rd_failure].
    by rewrite read_exact_short by (unfold len; rewrite length_take; lia).
  - rewrite take_frame by lia. pose proof (short_body n f) as Hshort. destruct (be_bytes 4 _) as [|b prefix]; [done|]. injection Hwidth as Hwidth.
    cbn [app]. unfold io_result at 1, read_one, bind, ret. cbn [rd_bytes rd_failure].
    rewrite (read_exact_io prefix) by (unfold len; by rewrite Hwidth).
    rewrite Hvalue, (proj2 (validate_frame_length_ok _ _)) by lia. by rewrite read_exact_short by (apply Hshort; lia).
Qed.

(** The end of the stream is reported only there. *)
Lemma read_end_only limits r r' :
  read_binary_frame_bytes limits r = Some (Ok None, r') ↔ r = MkReader [] None ∧ r' = r.
Proof.
  split; [|by intros [-> ->]]. destruct r as [[|b bytes] failure]; unfold read_binary_frame_bytes, try_bind, io_result at 1, read_one, bind, ret; cbn [rd_bytes rd_failure].
  - destruct failure; [done|]. by intros [= <-].
  - unfold io_result, bind. destruct (read_exact _ _) as [[[rest|e] r1]|]; [|done..].
    unfold ret. destruct (validate_frame_length _ _); [|done].
    destruct (read_exact _ r1) as [[[body|e] r2]|]; [|done..]. by destruct (decode_binary_frame _ _).
Qed.

(** C29: Whoever reads from a stream that carries the encodings of frames within
    the limits gets these frames one by one, whichever of the two readers is
    used, and nothing of what follows is consumed.  The end of the stream is told
    apart from a stream that ends inside a frame: the second reader reports the
    end exactly when there is no byte left and no error, and a frame of which
    only a part arrives is an error of both readers, wherever it is cut. *)
Theorem stream_roundtrip fs limits rest failure :
  Forall (λ f, frame_ok f limits) fs →
  read_frames (length fs) limits (MkReader (concat (frame_bytes <$> fs) ++ rest) failure) = Some (Ok fs, MkReader rest failure) ∧
  (∀ f fs', fs = f :: fs' →
    read_binary_frame_bytes limits (MkReader (concat (frame_bytes <$> fs) ++ rest) failure) =
      Some (Ok (Some (frame_bytes f)), MkReader (concat (frame_bytes <$> fs') ++ rest) failure)) ∧
  (∀ r r', read_binary_frame_bytes limits r = Some (Ok None, r') ↔ r = MkReader [] None ∧ r' = r) ∧
  (∀ f n, f ∈ fs → n < length (frame_bytes f) →
    read_binary_frame limits (MkReader (take n (frame_bytes f)) failure) = Some (Err (cut_off failure), MkReader [] failure) ∧
    (0 < n → read_binary_frame_bytes limits (MkReader (take n (frame_bytes f)) failure) =
      Some (Err (cut_off failure), MkReader [] failure))).
Proof.
  intros Hall. split_and!; [|intros f fs' ->|apply read_end_only|].
  - induction Hall as [|f fs Hf Hall IH]; [done|]. cbn [fmap list_fmap concat length read_frames]. rewrite <-app_assoc.
    unfold try_bind, bind. rewrite read_frame_ok by done. by rewrite IH.
  - apply Forall_cons in Hall as [Hf _]. cbn [fmap list_fmap concat]. rewrite <-app_assoc. by apply read_frame_bytes_ok.
  - intros f n Hf Hn. rewrite Forall_forall in Hall. split; [by apply read_frame_cut; [apply Hall|]|].
    intros Hpos. apply read_frame_bytes_cut; [by apply Hall|lia].
Qed.

(** ** Negotiation *)

Section Negotiation.
Context `{SJ : !SerdeJson}.

Lemma missing_feature_none required offered : missing_feature required offered = None ↔ ∀ f, f ∈ required → f ∈ offered.
Proof.
  unfold missing_feature. rewrite fmap_None, list_find_None, Forall_forall. split; intros H f Hf.
  - apply dec_stable. by apply H.
  - intros Hn. apply Hn, H, Hf.
Qed.

(** A peer that accepts a hello answers with an acknowledgement the sender of
    the hello accepts; the negotiated limits are at most those of either side,
    and some requests are left beside the reserved ones. *)
Theorem negotiation_agrees hello codec plugin ack :
  hello_accept hello codec plugin = Ok ack →
  ack_validate_for ack hello = Ok tt ∧ pa_codec_id ack = codec ∧ pa_schema_revision ack = SCHEMA_REVISION ∧
  (pa_max_frame_bytes ack ≤ ph_max_frame_bytes hello)%N ∧ (pa_max_frame_bytes ack ≤ MAX_FRAME_BYTES)%N ∧
  (pa_max_payload_bytes ack ≤ ph_max_payload_bytes hello)%N ∧ (pa_max_payload_bytes ack ≤ MAX_PAYLOAD_BYTES)%N ∧
  (pa_max_in_flight_requests ack ≤ ph_max_in_flight_requests hello)%N ∧
  (0 < pa_management_reserved_requests ack < pa_max_in_flight_requests ack)%N.
Proof.
  unfold hello_accept. destruct (ensure_compatible _) as [[]|] eqn:Hc; [|done]. cbn [rbind].
  case_decide as Hcodec; [done|]. case_decide as Hschema; [done|].
  destruct (_ || _) eqn:Hlimits; [done|]. destruct (_ && _) eqn:Hchannel; [done|].
  destruct (missing_feature _ _) eqn:Hmissing; [done|]. intros [= <-].
  repeat (apply orb_false_iff in Hlimits as [Hlimits ?%N.eqb_neq] || apply orb_false_iff in Hlimits as [Hlimits ?%N.leb_gt]).
  apply N.eqb_neq in Hlimits.
  unfold ack_validate_for, ack_accept, saturating_sub, MAX_FRAME_BYTES, MAX_PAYLOAD_BYTES, MAX_IN_FLIGHT_REQUESTS,
    MANAGEMENT_RESERVED_REQUESTS in *. cbn [pa_protocol pa_codec_id pa_schema_revision pa_max_frame_bytes pa_max_payload_bytes
    pa_max_in_flight_requests pa_management_reserved_requests pa_management_channel pa_feature_flags].
  split_and!; try done; try lia. change (ensure_compatible CURRENT) with (@Ok WireCodecError unit tt). cbn [rbind].
  rewrite decide_False by (by intros []). rewrite decide_False by (by intros []).
  rewrite (proj2 (missing_feature_none _ _)) by done.
  destruct (_ || _) eqn:Hagain; [|by rewrite andb_negb_r].
  exfalso. repeat (apply orb_true_iff in Hagain as [Hagain|Hagain]);
    first [apply N.eqb_eq in Hagain|apply N.ltb_lt in Hagain|apply N.leb_le in Hagain]; lia.
Qed.

(** What a peer offers with valid limits that fit in 32 bits is accepted. *)
Theorem offered_hello_accepted limits hello plugin :
  binary_with_limits limits = Ok hello → (lim_max_in_flight_requests limits ≤ u32_max)%N →
  hello_accept hello BINARY_CODEC_ID plugin = Ok (ack_accept hello plugin).
Proof.
  unfold binary_with_limits, limits_validate. destruct (_ || _) eqn:Hlimits; [done|]. cbn [rbind]. intros [= <-] Hu32.
  repeat (apply orb_false_iff in Hlimits as [Hlimits ?]).
  repeat match goal with
  | H : (_ =? _)%N = false |- _ => apply N.eqb_neq in H
  | H : (_ <? _)%N = false |- _ => apply N.ltb_ge in H
  | H : (_ <=? _)%N = false |- _ => apply N.leb_gt in H
  end.
  unfold hello_accept, for_codec, as_u32, u32_max in *. cbn [ph_protocol ph_codec_id ph_schema_revision ph_max_frame_bytes
    ph_max_payload_bytes ph_max_in_flight_requests ph_management_reserved_requests ph_management_channel ph_feature_flags].
  change (ensure_compatible CURRENT) with (@Ok WireCodecError unit tt). cbn [rbind].
  rewrite decide_False by (by intros []). rewrite decide_False by (by intros []).
  rewrite (proj2 (missing_feature_none _ _)) by done.
  destruct (_ || _) eqn:Hagain; [|done].
  exfalso. repeat (apply orb_true_iff in Hagain as [Hagain|Hagain]);
    first [apply N.eqb_eq in Hagain|apply N.ltb_lt in Hagain|apply N.leb_le in Hagain]; lia.
Qed.
End Negotiation.
