(* ===== verification/WireOperations.v ===== *)
(** * The operations of the wire

    crates/mutsuki-runtime-wire/src/operations.rs and the experimental plans of
    crates/mutsuki-runtime-contracts/src/resource/experimental.rs. Every opcode
    has one request type and one response type; [request_type] and
    [response_type] are what [wire_request!] and the hand-written impls of
    [WireRequest] associate with it. *)

From S2P Require Import Prelude Contracts RunnerContracts BatchContracts PluginContracts WireBytes WireProtocol.

Section Operations.
Context `{SJ : !SerdeJson}.

Record CommandBatch : Type := MkCommandBatch {
  cmb_batch_id : string;
  cmb_commands : list CommandPlan;
  cmb_rollback_guarantee : bool
}.

Record SagaPlan : Type := MkSagaPlan {
  sg_saga_id : string;
  sg_steps : list CommandPlan;
  sg_compensations : list CommandPlan
}.

Record InitializeRequest : Type := MkInitializeRequest {
  irq_hello : ProtocolHello;
  irq_config : option Value
}.

Record RunBatchRequest : Type := MkRunBatchRequest {
  rbr_runner_id : string;
  rbr_ctx : RunnerContext;
  rbr_batch : WorkBatch
}.

Record CancelRunnerRequest : Type := MkCancelRunnerRequest {
  crr_runner_id : string;
  crr_invocation_id : string
}.

Record DisposeRunnerRequest : Type := MkDisposeRunnerRequest { drr_runner_id : string }.

Record SubmitTaskBatchRequest : Type := MkSubmitTaskBatchRequest { stb_batch : TaskBatch }.

Record CancelTaskRequest : Type := MkCancelTaskRequest { ctr_handle : TaskHandle }.

Record TaskOutcomeRequest : Type := MkTaskOutcomeRequest { tor_handle : TaskHandle }.

Record CollectReadPlanRequest : Type := MkCollectReadPlanRequest {
  crp_provider_id : option string;
  crp_plan : ReadPlan
}.

Record SnapshotReadPlanRequest : Type := MkSnapshotReadPlanRequest {
  srp_provider_id : option string;
  srp_plan : ReadPlan;
  srp_kind_id : string;
  srp_schema : string
}.

Record OpenStreamPlanRequest : Type := MkOpenStreamPlanRequest {
  osp_provider_id : option string;
  osp_plan : ReadPlan
}.

Record ExportPlanRequest : Type := MkExportPlanRequest {
  epr_provider_id : option string;
  epr_plan : ExportPlan
}.

Record CommitWritePlanRequest : Type := MkCommitWritePlanRequest {
  cwp_provider_id : option string;
  cwp_plan : WritePlan;
  cwp_bytes : list byte
}.

Record CommandPlanRequest : Type := MkCommandPlanRequest {
  cpr_provider_id : option string;
  cpr_plan : CommandPlan
}.

Record CommandBatchRequest : Type := MkCommandBatchRequest {
  cbr_provider_id : option string;
  cbr_batch : CommandBatch
}.

Record SagaPlanRequest : Type := MkSagaPlanRequest {
  spr_provider_id : option string;
  spr_saga : SagaPlan
}.

Record CreateBlobRequest : Type := MkCreateBlobRequest {
  cbl_provider_id : option string;
  cbl_schema : string;
  cbl_bytes : list byte
}.

Record CreateCowStateRequest : Type := MkCreateCowStateRequest {
  ccs_provider_id : option string;
  ccs_kind_id : string;
  ccs_schema : string;
  ccs_bytes : list byte
}.

Record CreateCapabilityRequest : Type := MkCreateCapabilityRequest {
  ccr_provider_id : option string;
  ccr_kind_id : string;
  ccr_schema : string
}.

(** The type [R] with [R::OPCODE = opcode]. *)
Definition request_type (opcode : Opcode) : Type :=
  match opcode with
  | OpPluginInitialize => InitializeRequest
  | OpRunnerRunBatch => RunBatchRequest
  | OpRunnerCancel => CancelRunnerRequest
  | OpRunnerDispose => DisposeRunnerRequest
  | OpTaskSubmitBatch => SubmitTaskBatchRequest
  | OpTaskCancel => CancelTaskRequest
  | OpTaskOutcome => TaskOutcomeRequest
  | OpResourceReadCollect => CollectReadPlanRequest
  | OpResourceReadSnapshot => SnapshotReadPlanRequest
  | OpResourceStreamOpen => OpenStreamPlanRequest
  | OpResourceExport => ExportPlanRequest
  | OpResourceWriteCommit => CommitWritePlanRequest
  | OpResourceCommand => CommandPlanRequest
  | OpResourceCommandBatch => CommandBatchRequest
  | OpResourceSaga => SagaPlanRequest
  | OpResourceCreateBlob => CreateBlobRequest
  | OpResourceCreateCowState => CreateCowStateRequest
  | OpResourceCreateCapability => CreateCapabilityRequest
  end.

(** [R::Response] *)
Definition response_type (opcode : Opcode) : Type :=
  match opcode with
  | OpPluginInitialize => ProtocolHelloAck
  | OpRunnerRunBatch => CompletionBatch
  | OpRunnerCancel | OpRunnerDispose | OpTaskCancel => unit
  | OpTaskSubmitBatch => list TaskHandle
  | OpTaskOutcome => option TaskOutcome
  | OpResourceReadCollect => list byte
  | OpResourceReadSnapshot => SnapshotDescriptor
  | OpResourceStreamOpen => StreamPlan
  | OpResourceExport | OpResourceWriteCommit | OpResourceCommand => PlanReceipt
  | OpResourceCommandBatch | OpResourceSaga => list PlanReceipt
  | OpResourceCreateBlob | OpResourceCreateCowState | OpResourceCreateCapability => ResourceRef
  end.

Definition validate_inline_resource_bytes (length : N) (limits : WireLimits) : WireResult unit :=
  if decide (lim_max_inline_resource_bytes limits < length)%N then
    Err (InlineResourceOversized length (lim_max_inline_resource_bytes limits))
  else Ok tt.

(** The length of the bytes a request carries inline. *)
Definition inline_bytes (opcode : Opcode) : request_type opcode → option N :=
  match opcode return request_type opcode → option N with
  | OpResourceWriteCommit => λ request, Some (len (cwp_bytes request))
  | OpResourceCreateBlob => λ request, Some (len (cbl_bytes request))
  | OpResourceCreateCowState => λ request, Some (len (ccs_bytes request))
  | _ => λ _, None
  end.

(** [request.validate(limits)] *)
Definition request_validate (opcode : Opcode) (request : request_type opcode) (limits : WireLimits) : WireResult unit :=
  match inline_bytes opcode request with
  | Some length => validate_inline_resource_bytes length limits
  | None => Ok tt
  end.

(** A request with its constructor of [AnyWireRequest]. *)
Inductive AnyWireRequest : Type :=
  | AnyInitialize (request : InitializeRequest)
  | AnyRunBatch (request : RunBatchRequest)
  | AnyCancelRunner (request : CancelRunnerRequest)
  | AnyDisposeRunner (request : DisposeRunnerRequest)
  | AnySubmitTaskBatch (request : SubmitTaskBatchRequest)
  | AnyCancelTask (request : CancelTaskRequest)
  | AnyTaskOutcome (request : TaskOutcomeRequest)
  | AnyCollectReadPlan (request : CollectReadPlanRequest)
  | AnySnapshotReadPlan (request : SnapshotReadPlanRequest)
  | AnyOpenStreamPlan (request : OpenStreamPlanRequest)
  | AnyExportPlan (request : ExportPlanRequest)
  | AnyCommitWritePlan (request : CommitWritePlanRequest)
  | AnyCommandPlan (request : CommandPlanRequest)
  | AnyCommandBatch (request : CommandBatchRequest)
  | AnySagaPlan (request : SagaPlanRequest)
  | AnyCreateBlob (request : CreateBlobRequest)
  | AnyCreateCowState (request : CreateCowStateRequest)
  | AnyCreateCapability (request : CreateCapabilityRequest).

Record DecodedWireRequest : Type := MkDecodedWireRequest {
  dwr_request_id : N;
  dwr_request : AnyWireRequest
}.

Definition any_opcode (self : AnyWireRequest) : Opcode :=
  match self with
  | AnyInitialize _ => OpPluginInitialize
  | AnyRunBatch _ => OpRunnerRunBatch
  | AnyCancelRunner _ => OpRunnerCancel
  | AnyDisposeRunner _ => OpRunnerDispose
  | AnySubmitTaskBatch _ => OpTaskSubmitBatch
  | AnyCancelTask _ => OpTaskCancel
  | AnyTaskOutcome _ => OpTaskOutcome
  | AnyCollectReadPlan _ => OpResourceReadCollect
  | AnySnapshotReadPlan _ => OpResourceReadSnapshot
  | AnyOpenStreamPlan _ => OpResourceStreamOpen
  | AnyExportPlan _ => OpResourceExport
  | AnyCommitWritePlan _ => OpResourceWriteCommit
  | AnyCommandPlan _ => OpResourceCommand
  | AnyCommandBatch _ => OpResourceCommandBatch
  | AnySagaPlan _ => OpResourceSaga
  | AnyCreateBlob _ => OpResourceCreateBlob
  | AnyCreateCowState _ => OpResourceCreateCowState
  | AnyCreateCapability _ => OpResourceCreateCapability
  end.

Definition any_validate (self : AnyWireRequest) (limits : WireLimits) : WireResult unit :=
  match self with
  | AnyInitialize request => request_validate OpPluginInitialize request limits
  | AnyRunBatch request => request_validate OpRunnerRunBatch request limits
  | AnyCancelRunner request => request_validate OpRunnerCancel request limits
  | AnyDisposeRunner request => request_validate OpRunnerDispose request limits
  | AnySubmitTaskBatch request => request_validate OpTaskSubmitBatch request limits
  | AnyCancelTask request => request_validate OpTaskCancel request limits
  | AnyTaskOutcome request => request_validate OpTaskOutcome request limits
  | AnyCollectReadPlan request => request_validate OpResourceReadCollect request limits
  | AnySnapshotReadPlan request => request_validate OpResourceReadSnapshot request limits
  | AnyOpenStreamPlan request => request_validate OpResourceStreamOpen request limits
  | AnyExportPlan request => request_validate OpResourceExport request limits
  | AnyCommitWritePlan request => request_validate OpResourceWriteCommit request limits
  | AnyCommandPlan request => request_validate OpResourceCommand request limits
  | AnyCommandBatch request => request_validate OpResourceCommandBatch request limits
  | AnySagaPlan request => request_validate OpResourceSaga request limits
  | AnyCreateBlob request => request_validate OpResourceCreateBlob request limits
  | AnyCreateCowState request => request_validate OpResourceCreateCowState request limits
  | AnyCreateCapability request => request_validate OpResourceCreateCapability request limits
  end.

(** [decode_any_wire_request!]: the constructor of an opcode. *)
Definition any_request (opcode : Opcode) : request_type opcode → AnyWireRequest :=
  match opcode return request_type opcode → AnyWireRequest with
  | OpPluginInitialize => AnyInitialize
  | OpRunnerRunBatch => AnyRunBatch
  | OpRunnerCancel => AnyCancelRunner
  | OpRunnerDispose => AnyDisposeRunner
  | OpTaskSubmitBatch => AnySubmitTaskBatch
  | OpTaskCancel => AnyCancelTask
  | OpTaskOutcome => AnyTaskOutcome
  | OpResourceReadCollect => AnyCollectReadPlan
  | OpResourceReadSnapshot => AnySnapshotReadPlan
  | OpResourceStreamOpen => AnyOpenStreamPlan
  | OpResourceExport => AnyExportPlan
  | OpResourceWriteCommit => AnyCommitWritePlan
  | OpResourceCommand => AnyCommandPlan
  | OpResourceCommandBatch => AnyCommandBatch
  | OpResourceSaga => AnySagaPlan
  | OpResourceCreateBlob => AnyCreateBlob
  | OpResourceCreateCowState => AnyCreateCowState
  | OpResourceCreateCapability => AnyCreateCapability
  end.

Lemma any_request_opcode opcode request : any_opcode (any_request opcode request) = opcode.
Proof. by destruct opcode. Qed.

Lemma any_request_validate opcode request limits :
  any_validate (any_request opcode request) limits = request_validate opcode request limits.
Proof. by destruct opcode. Qed.
End Operations.
