(* ===== verification/WireBinary.v ===== *)
(** * Requests and responses in binary frames

    crates/mutsuki-runtime-wire/src/binary.rs and binary/payload.rs. The
    MessagePack encoding of a type is library code (rmp_serde and the derived
    serializers): a class [MessagePack] for each type of the wire.

    What a peer reads of a value is its image: a value written and read back.
    For most values that is the value, not for all: a batch with a local payload
    is read with a row payload, and [Some(null)] in an optional JSON value is
    read as [None].  The theorems on round trips are about the image and assume
    nothing of the library. *)

From S2P Require Import Prelude Contracts RunnerContracts BatchContracts PluginContracts WireBytes WireProtocol MsgPack WireFrame WireOperations.

(** [T: Serialize + DeserializeOwned] through rmp_serde, with its depth limit;
    errors are their texts. *)
Class MessagePack (T : Type) : Type := {
  mp_serialize : T → Result string (list byte);
  mp_deserialize : list byte → Result string T
}.

(** What a peer reads of a value that was written *)
Definition mp_image {T} `{MessagePack T} (value : T) : Result string T :=
  match mp_serialize value with Ok bytes => mp_deserialize bytes | Err e => Err e end.

Class WireSerde `{SJ : SerdeJson} : Type := {
  request_mp :: ∀ opcode, MessagePack (request_type opcode);
  response_mp :: ∀ opcode, MessagePack (response_type opcode);
  error_mp :: MessagePack RuntimeError
}.

Section Binary.
Context `{SJ : !SerdeJson} `{WS : !WireSerde}.

Definition decode_binary_payload {T} `{MessagePack T} (frame : BinaryFrame) : M unit (WireResult T) :=
  let? _ := expect (validate_messagepack_structure (bf_payload frame)) in
  ret (match mp_deserialize (bf_payload frame) with Ok value => Ok value | Err e => Err (DecodeError e) end).

Definition encode_messagepack {T} `{MessagePack T} (value : T) : M unit (WireResult (list byte)) :=
  let? payload := ret (match mp_serialize value with Ok payload => Ok payload | Err e => Err (EncodeError e) end) in
  let! checked := expect (validate_messagepack_structure payload) in
  ret (match checked with Ok _ => Ok payload | Err e => Err (EncodeError (wire_error_to_string e)) end).

Definition request_flags (opcode : Opcode) : N :=
  if is_management opcode then N.lor FLAG_REQUEST FLAG_MANAGEMENT else FLAG_REQUEST.

Definition encode_binary_request_value {T} `{MessagePack T} (request_id : N) (opcode : Opcode) (request : T)
    (limits : WireLimits) : M unit (WireResult (list byte)) :=
  if decide (request_id = 0%N) then ret (Err InvalidRequestId)
  else
    let? payload := encode_messagepack request in
    ret (encode_frame opcode (request_flags opcode) request_id payload limits).

Definition encode_binary_request (opcode : Opcode) (request_id : N) (request : request_type opcode)
    (limits : WireLimits) : M unit (WireResult (list byte)) :=
  if decide (request_id = 0%N) then ret (Err InvalidRequestId)
  else
    let? _ := ret (request_validate opcode request limits) in
    let? payload := encode_messagepack request in
    ret (encode_frame opcode (request_flags opcode) request_id payload limits).

Definition encode_binary_response {T} `{MessagePack T} (request_id : N) (opcode : Opcode)
    (response : Result RuntimeError T) (limits : WireLimits) : M unit (WireResult (list byte)) :=
  if decide (request_id = 0%N) then ret (Err InvalidRequestId)
  else
    match response with
    | Ok value =>
        let? payload := encode_messagepack value in
        ret (encode_frame opcode FLAG_RESPONSE request_id payload limits)
    | Err error =>
        let? payload := encode_messagepack error in
        ret (encode_frame opcode (N.lor FLAG_RESPONSE FLAG_ERROR) request_id payload limits)
    end.

Definition validate_request_frame (opcode : Opcode) (frame : BinaryFrame) : WireResult unit :=
  if negb (flags_contains (wh_flags (bf_header frame)) FLAG_REQUEST)
     || negb (bool_decide (wh_opcode (bf_header frame) = opcode))
  then Err ResponseMismatch
  else Ok tt.

Definition decode_binary_request (opcode : Opcode) (bytes : list byte) (limits : WireLimits) :
    M unit (WireResult (N * request_type opcode)) :=
  let? frame := ret (decode_binary_frame bytes limits) in
  let? _ := ret (validate_request_frame opcode frame) in
  let? request := decode_binary_payload frame in
  let? _ := ret (request_validate opcode request limits) in
  ret (Ok (wh_request_id (bf_header frame), request)).

Definition decode_binary_any_request (bytes : list byte) (limits : WireLimits) :
    M unit (WireResult DecodedWireRequest) :=
  let? frame := ret (decode_binary_frame bytes limits) in
  if negb (flags_contains (wh_flags (bf_header frame)) FLAG_REQUEST) then
    ret (Err (InvalidFlags (wh_flags (bf_header frame))))
  else
    let opcode := wh_opcode (bf_header frame) in
    let? payload := decode_binary_payload (T := request_type opcode) frame in
    let request := any_request opcode payload in
    let? _ := ret (any_validate request limits) in
    ret (Ok {| dwr_request_id := wh_request_id (bf_header frame); dwr_request := request |}).

Definition wire_runtime_error (error : WireCodecError) : RuntimeError :=
  with_evidence "reason" (ScalarString (wire_error_to_string error))
    (runtime_error ERR_RUNTIME_HOST_FAILED "runtime_wire.binary" "wire.binary.decode").

(** [map_err(wire_runtime_error)] *)
Definition as_runtime {A} (c : M unit (WireResult A)) : M unit (RuntimeResult A) :=
  let! r := c in ret (match r with Ok a => Ok a | Err e => Err (wire_runtime_error e) end).

Definition decode_binary_response (opcode : Opcode) (bytes : list byte) (expected_request_id : N) (limits : WireLimits) :
    M unit (RuntimeResult (response_type opcode)) :=
  let? frame := as_runtime (ret (decode_binary_frame bytes limits)) in
  let header := bf_header frame in
  if negb (flags_contains (wh_flags header) FLAG_RESPONSE)
     || negb (bool_decide (wh_opcode header = opcode))
     || negb (bool_decide (wh_request_id header = expected_request_id))
  then ret (Err (wire_runtime_error ResponseMismatch))
  else if flags_contains (wh_flags header) FLAG_ERROR then
    let? error := as_runtime (decode_binary_payload (T := RuntimeError) frame) in
    ret (Err error)
  else as_runtime (decode_binary_payload frame).
End Binary.

(** ** Requests and responses survive the wire *)

Section Binary.
Context `{SJ : !SerdeJson} `{WS : !WireSerde}.

Lemma encode_messagepack_inv {T} `{MessagePack T} (value : T) payload :
  encode_messagepack value tt = Some (Ok payload, tt) →
  mp_serialize value = Ok payload ∧ validate_messagepack_structure payload = Some (Ok tt).
Proof.
  unfold encode_messagepack, try_bind, bind, ret, expect. destruct (mp_serialize value) as [bytes|]; [|done].
  destruct (validate_messagepack_structure bytes) as [[[]|]|] eqn:Hv; try done. by intros [= <-].
Qed.

Lemma decode_payload_ok {T} `{MessagePack T} (value : T) header payload :
  encode_messagepack value tt = Some (Ok payload, tt) →
  decode_binary_payload {| bf_header := header; bf_payload := payload |} tt =
    Some (match mp_image value with Ok value => Ok value | Err e => Err (DecodeError e) end, tt).
Proof.
  intros (Hser & Hv)%encode_messagepack_inv. unfold decode_binary_payload, mp_image, try_bind, bind, ret. cbn.
  by rewrite Hv, Hser.
Qed.

(** What a peer makes of a request: its image, checked again *)
Definition received_request (opcode : Opcode) (request : request_type opcode) (limits : WireLimits) :
    WireResult (request_type opcode) :=
  match mp_image request with
  | Err e => Err (DecodeError e)
  | Ok image => match request_validate opcode image limits with Ok _ => Ok image | Err e => Err e end
  end.

(** What the caller makes of a response: the image of the value or of the error *)
Definition received_response (opcode : Opcode) (response : Result RuntimeError (response_type opcode)) :
    Result RuntimeError (response_type opcode) :=
  match response with
  | Ok value => match mp_image value with Ok image => Ok image | Err e => Err (wire_runtime_error (DecodeError e)) end
  | Err error => match mp_image error with Ok image => Err image | Err e => Err (wire_runtime_error (DecodeError e)) end
  end.

Lemma request_flags_ok opcode : flags_from_bits (request_flags opcode) = Ok (request_flags opcode) ∧ (request_flags opcode ≤ u16_max)%N.
Proof. destruct opcode; vm_compute; (split; [reflexivity|discriminate]). Qed.

Lemma request_flags_request opcode : flags_contains (request_flags opcode) FLAG_REQUEST = true.
Proof. by destruct opcode. Qed.

Lemma encode_request_inv opcode request_id request limits bytes :
  encode_binary_request opcode request_id request limits tt = Some (Ok bytes, tt) →
  request_id ≠ 0%N ∧ request_validate opcode request limits = Ok tt ∧
  ∃ payload, encode_messagepack request tt = Some (Ok payload, tt) ∧
    encode_frame opcode (request_flags opcode) request_id payload limits = Ok bytes.
Proof.
  unfold encode_binary_request. case_decide as Hid; [done|]. unfold try_bind, bind, ret.
  destruct (request_validate opcode request limits) as [[]|] eqn:Hv; [|done].
  destruct (encode_messagepack request tt) as [[[payload|] []]|] eqn:Hp; [|done..]. intros [= Hb]. eauto.
Qed.

(** The frame of an encoded request, and what is in it *)
Lemma request_decodes opcode request_id request limits bytes :
  (request_id ≤ u64_max)%N → (lim_max_frame_bytes limits ≤ u32_max)%N →
  encode_binary_request opcode request_id request limits tt = Some (Ok bytes, tt) →
  ∃ frame, decode_binary_frame bytes limits = Ok frame ∧
    wh_flags (bf_header frame) = request_flags opcode ∧ wh_opcode (bf_header frame) = opcode ∧
    wh_request_id (bf_header frame) = request_id ∧ request_validate opcode request limits = Ok tt ∧
    decode_binary_payload (T := request_type opcode) frame tt =
      Some (match mp_image request with Ok request => Ok request | Err e => Err (DecodeError e) end, tt).
Proof.
  intros Hid Hu32 (Hnz & Hvalid & payload & Hp & Hframe)%encode_request_inv.
  destruct (request_flags_ok opcode) as [Hflags Hbits].
  pose proof (encoded_frame_decodes _ _ _ _ _ _ Hframe Hflags Hbits ltac:(lia) Hu32) as Hdec.
  eexists. split_and!; [exact Hdec|done..|]. by apply decode_payload_ok.
Qed.

Lemma request_decodes_any opcode request_id request limits bytes :
  (request_id ≤ u64_max)%N → (lim_max_frame_bytes limits ≤ u32_max)%N →
  encode_binary_request opcode request_id request limits tt = Some (Ok bytes, tt) →
  decode_binary_any_request bytes limits tt =
    Some (match received_request opcode request limits with
          | Ok image => Ok {| dwr_request_id := request_id; dwr_request := any_request opcode image |}
          | Err e => Err e
          end, tt).
Proof.
  intros Hid Hu32 Henc. destruct (request_decodes _ _ _ _ _ Hid Hu32 Henc)
    as ([header payload] & Hdec & Hf & Ho & Hr & Hv & Hp). cbn in Hf, Ho, Hr.
  unfold decode_binary_any_request, try_bind, bind, ret. rewrite Hdec. cbn [bf_header]. rewrite Hf, request_flags_request. cbn [negb].
  unfold received_request. destruct Ho. rewrite Hp. destruct (mp_image request) as [image|e]; [|done].
  rewrite any_request_validate, Hr. by destruct (request_validate _ image limits).
Qed.

(** C30: A request that has been encoded is received as MessagePack's own image of
    it, with its id, by a peer that expects this operation and by one that
    accepts any, as long as the id fits in 64 bits and frames in 32: the frame
    loses and adds nothing.  The peer checks the image again, and refuses what
    MessagePack cannot read.  In particular a request that MessagePack reads
    back as it was written is decoded to itself. *)
Theorem request_roundtrip opcode request_id request limits bytes :
  (request_id ≤ u64_max)%N → (lim_max_frame_bytes limits ≤ u32_max)%N →
  encode_binary_request opcode request_id request limits tt = Some (Ok bytes, tt) →
  decode_binary_request opcode bytes limits tt =
    Some (match received_request opcode request limits with Ok image => Ok (request_id, image) | Err e => Err e end, tt) ∧
  decode_binary_any_request bytes limits tt =
    Some (match received_request opcode request limits with
          | Ok image => Ok {| dwr_request_id := request_id; dwr_request := any_request opcode image |}
          | Err e => Err e
          end, tt) ∧
  (mp_image request = Ok request → decode_binary_request opcode bytes limits tt = Some (Ok (request_id, request), tt)).
Proof.
  intros Hid Hu32 Henc.
  assert (decode_binary_request opcode bytes limits tt =
    Some (match received_request opcode request limits with Ok image => Ok (request_id, image) | Err e => Err e end, tt)) as Hd.
  { destruct (request_decodes _ _ _ _ _ Hid Hu32 Henc) as ([header payload] & Hdec & Hf & Ho & Hr & Hv & Hp). cbn in Hf, Ho, Hr.
    unfold decode_binary_request, try_bind, bind, ret. rewrite Hdec. unfold validate_request_frame. cbn [bf_header].
    rewrite Hf, Ho, Hr, request_flags_request. cbn [negb orb]. rewrite bool_decide_eq_true_2 by done. cbn [negb]. rewrite Hp.
    unfold received_request. destruct (mp_image request) as [image|e]; [|done]. by destruct (request_validate _ image limits). }
  split_and!; [done|by apply request_decodes_any|]. intros Himage. rewrite Hd. unfold received_request. rewrite Himage.
  apply encode_request_inv in Henc as (_ & -> & _). done.
Qed.

Lemma encode_response_inv {T} `{MessagePack T} request_id opcode (response : Result RuntimeError T) limits bytes :
  encode_binary_response request_id opcode response limits tt = Some (Ok bytes, tt) →
  request_id ≠ 0%N ∧ ∃ payload,
    match response with
    | Ok value => encode_messagepack value tt = Some (Ok payload, tt) ∧
        encode_frame opcode FLAG_RESPONSE request_id payload limits = Ok bytes
    | Err error => encode_messagepack error tt = Some (Ok payload, tt) ∧
        encode_frame opcode (N.lor FLAG_RESPONSE FLAG_ERROR) request_id payload limits = Ok bytes
    end.
Proof.
  unfold encode_binary_response. case_decide as Hid; [done|]. unfold try_bind, bind, ret.
  destruct response as [value|error].
  - destruct (encode_messagepack value tt) as [[[payload|] []]|] eqn:Hp; [|done..]. intros [= Hb]. eauto.
  - destruct (encode_messagepack error tt) as [[[payload|] []]|] eqn:Hp; [|done..]. intros [= Hb]. eauto.
Qed.

Section Response.
Variables (opcode : Opcode) (flags request_id : N) (payload bytes : list byte) (limits : WireLimits).
Hypothesis Hdec : decode_binary_frame bytes limits = Ok (frame_of opcode flags request_id payload).
Hypothesis Hflag : flags_contains flags FLAG_RESPONSE = true.

Lemma response_matches :
  decode_binary_response opcode bytes request_id limits tt =
    if flags_contains flags FLAG_ERROR then
      match as_runtime (decode_binary_payload (T := RuntimeError) (frame_of opcode flags request_id payload)) tt with
      | Some (Ok error, s) | Some (Err error, s) => Some (Err error, s)
      | None => None
      end
    else as_runtime (decode_binary_payload (frame_of opcode flags request_id payload)) tt.
Proof.
  unfold decode_binary_response, try_bind. rewrite Hdec. unfold bind at 1. change (as_runtime (ret (Ok ?f)) tt) with (Some (@Ok RuntimeError _ f, tt)).
  cbn [frame_of bf_header wh_flags wh_opcode wh_request_id]. rewrite Hflag, !bool_decide_eq_true_2 by done. cbn [negb orb].
  destruct (flags_contains flags FLAG_ERROR); [|done]. unfold bind. by destruct (as_runtime _ tt) as [[[] ?]|].
Qed.

Lemma response_mismatches opcode' id :
  opcode' ≠ opcode ∨ id ≠ request_id →
  decode_binary_response opcode' bytes id limits tt = Some (Err (wire_runtime_error ResponseMismatch), tt).
Proof.
  intros Hne. unfold decode_binary_response, as_runtime, try_bind, bind, ret. rewrite Hdec.
  cbn [frame_of bf_header wh_flags wh_opcode wh_request_id].
  rewrite Hflag. destruct (decide (opcode = opcode')) as [->|Ho].
  - destruct Hne as [|Hne]; [done|]. rewrite (bool_decide_eq_false_2 (request_id = id)) by congruence. by rewrite orb_true_r.
  - rewrite (bool_decide_eq_false_2 (opcode = opcode')) by done. done.
Qed.
End Response.

(** A response is received as MessagePack's image of it, an error response as
    the image of its error, by whoever sent the request; for any other request id
    or operation it is rejected as a mismatch. *)
Theorem response_roundtrip opcode request_id (response : Result RuntimeError (response_type opcode)) limits bytes :
  (request_id ≤ u64_max)%N → (lim_max_frame_bytes limits ≤ u32_max)%N →
  encode_binary_response request_id opcode response limits tt = Some (Ok bytes, tt) →
  decode_binary_response opcode bytes request_id limits tt = Some (received_response opcode response, tt) ∧
  (∀ id, id ≠ request_id →
    decode_binary_response opcode bytes id limits tt = Some (Err (wire_runtime_error ResponseMismatch), tt)) ∧
  (∀ opcode' id, opcode' ≠ opcode →
    decode_binary_response opcode' bytes id limits tt = Some (Err (wire_runtime_error ResponseMismatch), tt)).
Proof.
  intros Hid Hu32 (Hnz & payload & Henc)%encode_response_inv.
  destruct response as [value|error]; destruct Henc as [Hp Hframe].
  - pose proof (encoded_frame_decodes _ _ _ _ _ _ Hframe eq_refl ltac:(vm_compute; discriminate) ltac:(lia) Hu32) as Hdec.
    split_and!; [|intros; eapply response_mismatches; eauto..]. rewrite (response_matches _ _ _ _ _ _ Hdec eq_refl).
    change (flags_contains FLAG_RESPONSE FLAG_ERROR) with false. unfold as_runtime, bind, frame_of, received_response.
    rewrite (decode_payload_ok value _ payload Hp). by destruct (mp_image value).
  - pose proof (encoded_frame_decodes _ _ _ _ _ _ Hframe eq_refl ltac:(vm_compute; discriminate) ltac:(lia) Hu32) as Hdec.
    split_and!; [|intros; eapply response_mismatches; eauto..]. rewrite (response_matches _ _ _ _ _ _ Hdec eq_refl).
    change (flags_contains (N.lor FLAG_RESPONSE FLAG_ERROR) FLAG_ERROR) with true. unfold as_runtime, bind, frame_of, received_response.
    rewrite (decode_payload_ok error _ payload Hp). by destruct (mp_image error).
Qed.
End Binary.
