(* ===== verification/WireJsonl.v ===== *)
(** * Requests and responses as JSON lines

    crates/mutsuki-runtime-wire/src/jsonl.rs. The JSON text of a type, of an
    envelope and of a value is library code (serde_json and the derived
    serializers): the classes [JsonText] and [JsonlSerde]. *)

From S2P Require Import Prelude Contracts RunnerContracts BatchContracts PluginContracts WireBytes WireProtocol WireOperations.

(** [serde_json::to_string] and [serde_json::from_str] *)
Class JsonText (T : Type) : Type := {
  to_json_text : T → Result string (list byte);
  from_json_text : list byte → Result string T
}.

Section Jsonl.
Context `{SJ : !SerdeJson}.

(** [JsonlRequestEnvelope] with the payload kept as text ([RawValue]). *)
Record RawJsonlRequestEnvelope : Type := MkRawJsonlRequestEnvelope {
  jq_request_id : N;
  jq_protocol : WireProtocolVersion;
  jq_opcode : N;
  jq_method : string;
  jq_payload_len : N;
  jq_payload : list byte
}.

Record JsonlResponseEnvelope : Type := MkJsonlResponseEnvelope {
  jr_request_id : N;
  jr_protocol : WireProtocolVersion;
  jr_opcode : N;
  jr_payload_len : N;
  jr_ok : bool;
  jr_result : option Value;
  jr_error : option RuntimeError
}.

(** [raw_value] is [RawValue::from_string], which checks that the text is one
    JSON value; [to_value] and [from_value] are those of serde_json. *)
Class JsonlSerde : Type := {
  request_text :: ∀ opcode, JsonText (request_type opcode);
  request_envelope_text :: JsonText RawJsonlRequestEnvelope;
  response_envelope_text :: JsonText JsonlResponseEnvelope;
  value_text :: JsonText Value;
  raw_value : list byte → Result string (list byte);
  response_to_value : ∀ opcode, response_type opcode → Result string Value;
  response_from_value : ∀ opcode, Value → Result string (response_type opcode);
  error_to_value : RuntimeError → Result string Value
}.

Context `{JS : !JsonlSerde}.

Definition encode_err {A} (r : Result string A) : WireResult A :=
  match r with Ok a => Ok a | Err e => Err (EncodeError e) end.

Definition decode_err {A} (r : Result string A) : WireResult A :=
  match r with Ok a => Ok a | Err e => Err (DecodeError e) end.

Definition validate_payload_len (length : N) (limits : WireLimits) : WireResult unit :=
  if decide (lim_max_payload_bytes limits < length)%N then Err (PayloadOversized length (lim_max_payload_bytes limits))
  else Ok tt.

(** The encoded envelope with its newline, within the line limit. *)
Definition finish_line (encoded : list byte) (limits : WireLimits) : WireResult (list byte) :=
  let encoded := encoded ++ [byte_of 10] in
  if decide (lim_max_jsonl_line_bytes limits < len encoded)%N then
    Err (FrameOversized (len encoded) (lim_max_jsonl_line_bytes limits))
  else Ok encoded.

Definition check_line (line : list byte) (limits : WireLimits) : WireResult unit :=
  if decide (lim_max_jsonl_line_bytes limits < len line)%N then
    Err (FrameOversized (len line) (lim_max_jsonl_line_bytes limits))
  else Ok tt.

Definition encode_jsonl_request (opcode : Opcode) (request_id : N) (request : request_type opcode)
    (limits : WireLimits) : WireResult (list byte) :=
  if decide (request_id = 0%N) then Err InvalidRequestId
  else
    letr? _ := request_validate opcode request limits in
    letr? payload := encode_err (to_json_text request) in
    let payload_len := len payload in
    letr? _ := validate_payload_len payload_len limits in
    letr? raw := encode_err (raw_value payload) in
    letr? encoded := encode_err (to_json_text
      {| jq_request_id := request_id; jq_protocol := CURRENT; jq_opcode := opcode_u16 opcode;
         jq_method := opcode_method opcode; jq_payload_len := (payload_len mod 2 ^ 32)%N; jq_payload := raw |}) in
    finish_line encoded limits.

Definition validate_raw_request_envelope (request_id : N) (protocol : WireProtocolVersion) (opcode : N)
    (method : option string) (payload_len : N) (payload : list byte) (limits : WireLimits) : WireResult unit :=
  if decide (request_id = 0%N) then Err InvalidRequestId
  else
    letr? _ := ensure_compatible protocol in
    letr? opcode := opcode_from_u16 opcode in
    letr? _ :=
      match method with
      | Some method =>
          if decide (method ≠ opcode_method opcode) then
            Err (MethodMismatch (opcode_u16 opcode) (opcode_method opcode) method)
          else Ok tt
      | None => Ok tt
      end in
    letr? _ := validate_payload_len (len payload) limits in
    if decide (payload_len ≠ len payload) then Err (PayloadLengthMismatch payload_len (len payload))
    else Ok tt.

Definition decode_raw_envelope (line : list byte) (limits : WireLimits) : WireResult RawJsonlRequestEnvelope :=
  letr? _ := check_line line limits in
  letr? envelope := decode_err (from_json_text line) in
  letr? _ := validate_raw_request_envelope (jq_request_id envelope) (jq_protocol envelope) (jq_opcode envelope)
    (Some (jq_method envelope)) (jq_payload_len envelope) (jq_payload envelope) limits in
  Ok envelope.

(** The request is not validated against the limits here. *)
Definition decode_jsonl_request (opcode : Opcode) (line : list byte) (limits : WireLimits) :
    WireResult (N * request_type opcode) :=
  letr? envelope := decode_raw_envelope line limits in
  if decide (jq_opcode envelope ≠ opcode_u16 opcode) then Err (UnknownOpcode (jq_opcode envelope))
  else
    letr? request := decode_err (from_json_text (jq_payload envelope)) in
    Ok (jq_request_id envelope, request).

Definition decode_jsonl_any_request (line : list byte) (limits : WireLimits) : WireResult DecodedWireRequest :=
  letr? envelope := decode_raw_envelope line limits in
  letr? opcode := opcode_from_u16 (jq_opcode envelope) in
  letr? payload := decode_err (from_json_text (jq_payload envelope)) in
  let request := any_request opcode payload in
  letr? _ := any_validate request limits in
  Ok {| dwr_request_id := jq_request_id envelope; dwr_request := request |}.

(** ** Responses *)

Definition encoded_json_len (value : Value) : WireResult N :=
  letr? encoded := encode_err (to_json_text value) in
  Ok (len encoded).

Definition encode_response_envelope (envelope : JsonlResponseEnvelope) (limits : WireLimits) : WireResult (list byte) :=
  letr? encoded := encode_err (to_json_text envelope) in
  finish_line encoded limits.

Definition encode_error_response (request_id : N) (opcode : Opcode) (error : RuntimeError) (limits : WireLimits) :
    WireResult (list byte) :=
  letr? value := encode_err (error_to_value error) in
  letr? payload_len := encoded_json_len value in
  letr? _ := validate_payload_len payload_len limits in
  encode_response_envelope
    {| jr_request_id := request_id; jr_protocol := CURRENT; jr_opcode := opcode_u16 opcode;
       jr_payload_len := (payload_len mod 2 ^ 32)%N; jr_ok := false; jr_result := None; jr_error := Some error |} limits.

Definition encode_jsonl_response (request_id : N) (opcode : Opcode) (response : Result RuntimeError (response_type opcode))
    (limits : WireLimits) : WireResult (list byte) :=
  if decide (request_id = 0%N) then Err InvalidRequestId
  else
    match response with
    | Ok value =>
        letr? payload_value := encode_err (response_to_value opcode value) in
        letr? payload_len := encoded_json_len payload_value in
        letr? _ := validate_payload_len payload_len limits in
        encode_response_envelope
          {| jr_request_id := request_id; jr_protocol := CURRENT; jr_opcode := opcode_u16 opcode;
             jr_payload_len := (payload_len mod 2 ^ 32)%N; jr_ok := true; jr_result := Some payload_value;
             jr_error := None |} limits
    | Err error => encode_error_response request_id opcode error limits
    end.

Definition validate_declared_payload (declared : N) (payload : Value) (limits : WireLimits) : WireResult unit :=
  letr? actual := encoded_json_len payload in
  letr? _ := validate_payload_len actual limits in
  if decide (declared ≠ actual) then Err (PayloadLengthMismatch declared actual) else Ok tt.

Definition decode_jsonl_response_inner (opcode : Opcode) (line : list byte) (expected_request_id : N)
    (limits : WireLimits) : WireResult (RuntimeResult (response_type opcode)) :=
  letr? _ := check_line line limits in
  letr? envelope := decode_err (from_json_text line) in
  if decide (jr_request_id envelope ≠ expected_request_id) then
    Err (DecodeError ("response request id mismatch: expected " +:+ pretty expected_request_id
      +:+ ", got " +:+ pretty (jr_request_id envelope)))
  else if decide (jr_opcode envelope ≠ opcode_u16 opcode) then
    Err (DecodeError ("response opcode mismatch: expected " +:+ hex16 (opcode_u16 opcode)
      +:+ ", got " +:+ hex16 (jr_opcode envelope)))
  else
    letr? _ := ensure_compatible (jr_protocol envelope) in
    if jr_ok envelope then
      match jr_error envelope with
      | Some _ => Err (DecodeError "successful response contains error")
      | None =>
          let result := default json_null (jr_result envelope) in
          letr? _ := validate_declared_payload (jr_payload_len envelope) result limits in
          letr? decoded := decode_err (response_from_value opcode result) in
          Ok (Ok decoded)
      end
    else
      match jr_result envelope with
      | Some _ => Err (DecodeError "failed response contains result")
      | None =>
          match jr_error envelope with
          | None => Err (DecodeError "response missing error")
          | Some error =>
              letr? error_value := encode_err (error_to_value error) in
              letr? _ := validate_declared_payload (jr_payload_len envelope) error_value limits in
              Ok (Err error)
          end
      end.

Definition jsonl_runtime_error (error : WireCodecError) : RuntimeError :=
  with_evidence "wire_error" (ScalarString (wire_error_to_string error))
    (runtime_error ERR_RUNTIME_HOST_FAILED "mutsuki.runtime.wire" "wire.jsonl.decode_response").

Definition decode_jsonl_response (opcode : Opcode) (line : list byte) (expected_request_id : N) (limits : WireLimits) :
    RuntimeResult (response_type opcode) :=
  match decode_jsonl_response_inner opcode line expected_request_id limits with
  | Ok response => response
  | Err e => Err (jsonl_runtime_error e)
  end.

(** ** Round trips *)

(** What the JSON library writes, with or without a final newline, reads
    back; raw values are kept as they are. *)
Definition json_reads_back (T : Type) `{JsonText T} : Prop :=
  ∀ (value : T) text, to_json_text value = Ok text →
    from_json_text text = Ok value ∧ from_json_text (text ++ [byte_of 10]) = Ok value.

Lemma finish_line_inv encoded limits line :
  finish_line encoded limits = Ok line → line = encoded ++ [byte_of 10] ∧ check_line line limits = Ok tt.
Proof. unfold finish_line, check_line. case_decide as Hl; [done|]. intros [= <-]. by rewrite decide_False. Qed.

Lemma encode_err_inv {A} (r : Result string A) a : encode_err r = Ok a → r = Ok a.
Proof. destruct r; [|done]. by intros [= ->]. Qed.

Lemma encode_jsonl_request_inv opcode request_id request limits line :
  encode_jsonl_request opcode request_id request limits = Ok line →
  ∃ payload raw encoded, request_id ≠ 0%N ∧ request_validate opcode request limits = Ok tt ∧
    to_json_text request = Ok payload ∧ validate_payload_len (len payload) limits = Ok tt ∧ raw_value payload = Ok raw ∧
    to_json_text {| jq_request_id := request_id; jq_protocol := CURRENT; jq_opcode := opcode_u16 opcode;
      jq_method := opcode_method opcode; jq_payload_len := (len payload mod 2 ^ 32)%N; jq_payload := raw |} = Ok encoded ∧
    finish_line encoded limits = Ok line.
Proof.
  unfold encode_jsonl_request. case_decide as Hid; [done|].
  destruct (request_validate _ _ _) as [[]|]; [|done]. cbn [rbind].
  destruct (encode_err (to_json_text request)) as [payload|] eqn:Hp; [|done]. cbn [rbind].
  destruct (validate_payload_len _ _) as [[]|] eqn:Hl; [|done]. cbn [rbind].
  destruct (encode_err (raw_value payload)) as [raw|] eqn:Hr; [|done]. cbn [rbind].
  match goal with |- context [rbind (encode_err ?e) _] => destruct (encode_err e) as [encoded|] eqn:He; [|done] end.
  cbn [rbind]. intros Hline.
  exists payload, raw, encoded. split_and!; try done; by apply encode_err_inv.
Qed.

(** A request that the JSON library reads back as it wrote it is, written as a
    JSON line, read back with its id, by a peer that expects this operation and
    by one that accepts any. *)
Theorem jsonl_request_roundtrip opcode request_id request limits line :
  (∀ text, to_json_text request = Ok text → from_json_text text = Ok request ∧ from_json_text (text ++ [byte_of 10]) = Ok request) →
  json_reads_back RawJsonlRequestEnvelope →
  (∀ text raw, raw_value text = Ok raw → raw = text) → (lim_max_payload_bytes limits ≤ u32_max)%N →
  encode_jsonl_request opcode request_id request limits = Ok line →
  decode_jsonl_request opcode line limits = Ok (request_id, request) ∧
  decode_jsonl_any_request line limits = Ok {| dwr_request_id := request_id; dwr_request := any_request opcode request |}.
Proof.
  intros Hreq Henv Hraw Hu32 Henc. apply encode_jsonl_request_inv in Henc
    as (payload & raw & encoded & Hid & Hvalid & Hp & Hlen & Hr & He & Hline).
  apply Hraw in Hr as ->. apply finish_line_inv in Hline as [-> Hcheck].
  assert (len payload mod 2 ^ 32 = len payload)%N as Hmod.
  { apply N.mod_small. revert Hlen. unfold validate_payload_len. case_decide; [done|]. intros _. unfold u32_max in *.
    change (2 ^ 32)%N with 4294967296%N. lia. }
  rewrite Hmod in He.
  assert (decode_raw_envelope (encoded ++ [byte_of 10]) limits = Ok
    {| jq_request_id := request_id; jq_protocol := CURRENT; jq_opcode := opcode_u16 opcode;
       jq_method := opcode_method opcode; jq_payload_len := len payload; jq_payload := payload |}) as Hdec.
  { unfold decode_raw_envelope. rewrite Hcheck. cbn [rbind]. rewrite (proj2 (Henv _ _ He)). cbn [decode_err rbind].
    unfold validate_raw_request_envelope. cbn [jq_request_id jq_protocol jq_opcode jq_method jq_payload_len jq_payload].
    rewrite decide_False by done. change (ensure_compatible CURRENT) with (@Ok WireCodecError unit tt). cbn [rbind].
    rewrite opcode_from_u16_of. cbn [rbind]. rewrite decide_False by (by intros []). cbn [rbind].
    rewrite Hlen. cbn [rbind]. by rewrite decide_False by (by intros []). }
  unfold decode_jsonl_request, decode_jsonl_any_request. rewrite Hdec. cbn [rbind jq_request_id jq_opcode jq_payload].
  rewrite decide_False by (by intros []). rewrite opcode_from_u16_of. cbn [rbind].
  rewrite (proj1 (Hreq _ Hp)). cbn [decode_err rbind]. by rewrite any_request_validate, Hvalid.
Qed.

(** A typed JSON decoder accepts a request whose inline bytes exceed the limit,
    which the untyped decoder (and both binary decoders) reject. *)
Theorem jsonl_typed_decoder_skips_limits opcode line limits envelope request length :
  decode_raw_envelope line limits = Ok envelope → jq_opcode envelope = opcode_u16 opcode →
  from_json_text (jq_payload envelope) = Ok request → inline_bytes opcode request = Some length →
  (lim_max_inline_resource_bytes limits < length)%N →
  decode_jsonl_request opcode line limits = Ok (jq_request_id envelope, request) ∧
  decode_jsonl_any_request line limits = Err (InlineResourceOversized length (lim_max_inline_resource_bytes limits)).
Proof.
  intros Henv Hop Htext Hinline Hover. unfold decode_jsonl_request, decode_jsonl_any_request. rewrite Henv. cbn [rbind].
  rewrite decide_False by (rewrite Hop; by intros []). rewrite Hop, opcode_from_u16_of. cbn [rbind].
  rewrite Htext. cbn [decode_err rbind]. split; [done|].
  rewrite any_request_validate. unfold request_validate. rewrite Hinline. unfold validate_inline_resource_bytes.
  by rewrite decide_True.
Qed.
End Jsonl.
