(* ===== verification/WireWitnesses.v ===== *)
(** * Concrete frames, requests and lines *)

From Stdlib Require Import Strings.String.
From S2P Require Import Prelude Contracts RunnerContracts BatchContracts PluginContracts DemoJson WireBytes WireProtocol MsgPack WireFrame WireOperations WireBinary WireJsonl.

(** [["a", {1: nil}]] *)
Definition demo_msgpack : list byte := byte_of <$> [0x92; 0xa1; 0x61; 0x81; 0x01; 0xc0]%N.

Lemma structure_check_exact_witness :
  ∃ v, mp_valid (N.to_nat MAX_MSGPACK_NESTING_DEPTH) v ∧ mp_encode v = demo_msgpack.
Proof.
  destruct (structure_check_exact demo_msgpack) as (r & Hrun & Hexact); [vm_compute; discriminate|].
  apply Hexact. assert (validate_messagepack_structure demo_msgpack = Some (Ok tt)) as Hok by (vm_compute; reflexivity).
  congruence.
Defined.

Definition demo_frame : BinaryFrame := frame_of OpTaskCancel FLAG_REQUEST 7 demo_msgpack.

Lemma demo_frame_ok : frame_ok demo_frame DEFAULT_WIRE_LIMITS.
Proof.
  unfold frame_ok, header_ok. split_and!; try reflexivity; try (vm_compute; discriminate).
  apply flags_from_bits_exact; vm_compute; [discriminate|reflexivity].
Qed.

Lemma stream_roundtrip_witness :
  read_frames 2 DEFAULT_WIRE_LIMITS (MkReader (frame_bytes demo_frame ++ frame_bytes demo_frame) None)
  = Some (Ok [demo_frame; demo_frame], MkReader [] None).
Proof.
  apply (stream_roundtrip [demo_frame; demo_frame] DEFAULT_WIRE_LIMITS [] None).
  repeat constructor; apply demo_frame_ok.
Defined.

Lemma negotiation_agrees_witness : ack_validate_for (ack_accept hello_binary None) hello_binary = Ok tt.
Proof.
  apply (negotiation_agrees hello_binary BINARY_CODEC_ID None). vm_compute. reflexivity.
Defined.

Lemma offered_hello_accepted_witness : hello_accept hello_binary BINARY_CODEC_ID None = Ok (ack_accept hello_binary None).
Proof.
  apply (offered_hello_accepted DEFAULT_WIRE_LIMITS); vm_compute; [reflexivity|discriminate].
Defined.

(** ** An encoding of two types *)

(** Disposal requests as short strings; other requests have no encoding. *)
Definition demo_request_mp (opcode : Opcode) : MessagePack (request_type opcode) :=
  match opcode return MessagePack (request_type opcode) with
  | OpRunnerDispose =>
      {| mp_serialize := λ request,
           let text := list_byte_of_string (drr_runner_id request) in
           if decide (len text < 32)%N then Ok (byte_of (160 + len text) :: text) else Err "long";
         mp_deserialize := λ bytes, Ok (MkDisposeRunnerRequest (string_of_list_byte (tail bytes))) |}
  | _ => {| mp_serialize := λ _, Err "unsupported"; mp_deserialize := λ _, Err "unsupported" |}
  end.

(** The response of a disposal is nil. *)
Definition demo_response_mp (opcode : Opcode) : MessagePack (response_type opcode) :=
  match opcode return MessagePack (response_type opcode) with
  | OpRunnerDispose => {| mp_serialize := λ _, Ok [byte_of 192]; mp_deserialize := λ _, Ok tt |}
  | _ => {| mp_serialize := λ _, Err "unsupported"; mp_deserialize := λ _, Err "unsupported" |}
  end.

#[local] Instance DemoWire : WireSerde :=
  {| request_mp := demo_request_mp; response_mp := demo_response_mp;
     error_mp := {| mp_serialize := λ _, Err "unsupported"; mp_deserialize := λ _, Err "unsupported" |} |}.

Definition demo_dispose : request_type OpRunnerDispose := MkDisposeRunnerRequest "w".

Definition demo_request_bytes : list byte :=
  match encode_binary_request OpRunnerDispose 7 demo_dispose DEFAULT_WIRE_LIMITS tt with Some (Ok bytes, _) => bytes | _ => [] end.

Lemma request_roundtrip_witness :
  decode_binary_request OpRunnerDispose demo_request_bytes DEFAULT_WIRE_LIMITS tt = Some (Ok (7%N, demo_dispose), tt).
Proof.
  apply (request_roundtrip OpRunnerDispose 7 demo_dispose DEFAULT_WIRE_LIMITS demo_request_bytes).
  - vm_compute. discriminate.
  - vm_compute. discriminate.
  - vm_compute. reflexivity.
  - vm_compute. reflexivity.
Defined.

Definition demo_response_bytes : list byte :=
  match encode_binary_response 7 OpRunnerDispose (@Ok RuntimeError (response_type OpRunnerDispose) tt) DEFAULT_WIRE_LIMITS tt with
  | Some (Ok bytes, _) => bytes
  | _ => []
  end.

Lemma response_roundtrip_witness :
  decode_binary_response OpRunnerDispose demo_response_bytes 7 DEFAULT_WIRE_LIMITS tt =
    Some (received_response OpRunnerDispose (Ok tt), tt) ∧ received_response OpRunnerDispose (Ok tt) = Ok tt.
Proof.
  split; [|reflexivity].
  apply (response_roundtrip OpRunnerDispose 7 (Ok tt) DEFAULT_WIRE_LIMITS demo_response_bytes).
  - vm_compute. discriminate.
  - vm_compute. discriminate.
  - vm_compute. reflexivity.
Defined.

(** ** A JSON library that knows one request *)

#[local] Instance blob_eq_dec : EqDecision CreateBlobRequest.
Proof. solve_decision. Defined.

#[local] Instance envelope_eq_dec : EqDecision RawJsonlRequestEnvelope.
Proof. solve_decision. Defined.

Definition demo_blob : CreateBlobRequest := {| cbl_provider_id := None; cbl_schema := "s"; cbl_bytes := [byte_of 0; byte_of 0] |}.

Definition demo_envelope : RawJsonlRequestEnvelope :=
  {| jq_request_id := 7; jq_protocol := CURRENT; jq_opcode := opcode_u16 OpResourceCreateBlob;
     jq_method := opcode_method OpResourceCreateBlob; jq_payload_len := 1; jq_payload := [byte_of 49] |}.

(** The text of one value is one byte. *)
Definition only {T} `{EqDecision T} (value : T) (text : byte) : JsonText T :=
  {| to_json_text := λ v, if decide (v = value) then Ok [text] else Err "unsupported";
     from_json_text := λ _, Ok value |}.

Lemma only_reads_back {T} `{EqDecision T} (value : T) text : @json_reads_back T (only value text).
Proof. intros v bytes. cbn. case_decide; [|done]. by intros [= <-]; subst. Qed.

Definition no_text {T} : JsonText T := {| to_json_text := λ _, Err "unsupported"; from_json_text := λ _, Err "unsupported" |}.

#[local] Instance DemoLines : JsonlSerde :=
  {| request_text := λ opcode,
       match opcode return JsonText (request_type opcode) with
       | OpResourceCreateBlob => only demo_blob (byte_of 49)
       | _ => no_text
       end;
     request_envelope_text := only demo_envelope (byte_of 50);
     response_envelope_text := no_text;
     value_text := no_text;
     raw_value := Ok;
     response_to_value := λ _ _, Err "unsupported";
     response_from_value := λ _ _, Err "unsupported";
     error_to_value := λ _, Err "unsupported" |}.

Lemma jsonl_request_roundtrip_witness :
  decode_jsonl_request OpResourceCreateBlob [byte_of 50; byte_of 10] DEFAULT_WIRE_LIMITS = Ok (7%N, demo_blob).
Proof.
  apply (jsonl_request_roundtrip OpResourceCreateBlob 7 demo_blob DEFAULT_WIRE_LIMITS).
  - intros text. apply only_reads_back.
  - apply only_reads_back.
  - by intros text raw [= <-].
  - vm_compute. discriminate.
  - vm_compute. reflexivity.
Defined.

Definition tight_limits : WireLimits :=
  {| lim_max_frame_bytes := 1024; lim_max_payload_bytes := 1024; lim_max_jsonl_line_bytes := 1024;
     lim_max_inline_resource_bytes := 1; lim_max_in_flight_requests := 2; lim_management_reserved_requests := 1 |}.

Lemma jsonl_typed_decoder_skips_limits_witness :
  decode_jsonl_request OpResourceCreateBlob [byte_of 50; byte_of 10] tight_limits = Ok (7%N, demo_blob) ∧
  limits_validate tight_limits = Ok tt.
Proof.
  split; [|vm_compute; reflexivity].
  apply (jsonl_typed_decoder_skips_limits OpResourceCreateBlob [byte_of 50; byte_of 10] tight_limits demo_envelope demo_blob 2);
    vm_compute; reflexivity.
Defined.
