(* ===== verification/ExecutionPolicy.v ===== *)
(** * Execution policies, variants and profiles

    crates/mutsuki-runtime-contracts/src/execution_policy.rs: the policy a task
    is executed under, the selection of an implementation variant for the
    capabilities of a host, and the fixed-size profile a variant's executions
    are accumulated in.  The second half proves what a selection and a profile
    say.

    Below, what selection and profiles compute. *)

From Stdlib Require Import SpecFloat.
From S2P Require Import Prelude Contracts.

Definition EXECUTION_PROFILE_WINDOW_CAPACITY : nat := 32.
Definition EXECUTION_PROFILE_HISTOGRAM_BUCKETS : nat := 16.
Definition ERR_EXECUTION_NO_VARIANT : string := "execution.no_variant".

(** ** Policies *)

Inductive LatencyClass : Type := HardRealtime | SoftRealtime | Interactive | LatencyBatch | Background.
Inductive Criticality : Type := SafetyCritical | MissionCritical | UserVisible | NormalCriticality | Deferrable.
Inductive FailureMode : Type := FailureFail | FailureWait | FailureFallback.
Inductive NoPlacementPolicy : Type := PlacementFail | PlacementWait | UseFallback.
Inductive CachePolicy : Type := CacheDisabled | FreshOnly | AllowStale (max_age_ms : N).
Inductive PartialResultPolicy : Type := RejectPartial | AllowPartial.

#[export] Instance NoPlacementPolicy_eq_dec : EqDecision NoPlacementPolicy.
Proof. solve_decision. Defined.

(** [u8] levels *)
Record QualityPolicy : Type := MkQualityPolicy { q_requested_level : N; q_minimum_level : N }.

Definition default_quality : QualityPolicy := MkQualityPolicy 255 255.

Definition permits_degradation (q : QualityPolicy) : bool :=
  bool_decide (q_minimum_level q < q_requested_level q)%N.

Record DeadlinePolicy : Type := MkDeadlinePolicy {
  dl_deadline_after_ms : option N;
  dl_max_queue_ms : option N
}.

Record LocalSchedulingHint : Type := MkLocalSchedulingHint {
  lh_criticality : Criticality;
  lh_base_priority : Z;
  lh_preemptible : bool;
  lh_pausable : bool
}.

Record ExecutionPolicy : Type := MkExecutionPolicy {
  x_latency_class : LatencyClass;
  x_deadline : DeadlinePolicy;
  x_failure_mode : FailureMode;
  x_quality : QualityPolicy;
  x_cache : CachePolicy;
  x_partial_results : PartialResultPolicy;
  x_no_placement : NoPlacementPolicy;
  x_scheduling : LocalSchedulingHint
}.

Definition default_policy : ExecutionPolicy := {|
  x_latency_class := LatencyBatch;
  x_deadline := MkDeadlinePolicy None None;
  x_failure_mode := FailureFallback;
  x_quality := default_quality;
  x_cache := CacheDisabled;
  x_partial_results := RejectPartial;
  x_no_placement := UseFallback;
  x_scheduling := MkLocalSchedulingHint NormalCriticality 0 false false
|}.

(** ** Capabilities and requirements *)

Record CapabilitySet : Type := MkCapabilitySet {
  cs_architectures : gset string;
  cs_instruction_sets : gset string;
  cs_compute_backends : gset string;
  cs_precisions : gset string;
  cs_memory_classes : gset string;
  cs_available_memory_bytes : option N;
  cs_runner_versions : gmap string string;
  cs_plugin_versions : gmap string string;
  cs_custom : gset string
}.

Record RequirementSet : Type := MkRequirementSet {
  rq_architectures : gset string;
  rq_instruction_sets : gset string;
  rq_compute_backends : gset string;
  rq_precisions : gset string;
  rq_memory_classes : gset string;
  rq_minimum_memory_bytes : option N;
  rq_runner_versions : gmap string string;
  rq_plugin_versions : gmap string string;
  rq_custom : gset string
}.

Definition versions_match (required available : gmap string string) : bool :=
  forallb (λ '(id, version), bool_decide (available !! id = Some version)) (map_to_list required).

Definition is_none_or {A} (o : option A) (p : A → bool) : bool :=
  match o with Some a => p a | None => true end.

Definition is_satisfied_by (r : RequirementSet) (c : CapabilitySet) : bool :=
  bool_decide (rq_architectures r ⊆ cs_architectures c) &&
  bool_decide (rq_instruction_sets r ⊆ cs_instruction_sets c) &&
  bool_decide (rq_compute_backends r ⊆ cs_compute_backends c) &&
  bool_decide (rq_precisions r ⊆ cs_precisions c) &&
  bool_decide (rq_memory_classes r ⊆ cs_memory_classes c) &&
  is_none_or (rq_minimum_memory_bytes r) (λ required,
    is_some_and (cs_available_memory_bytes c) (λ available, bool_decide (required ≤ available)%N)) &&
  versions_match (rq_runner_versions r) (cs_runner_versions c) &&
  versions_match (rq_plugin_versions r) (cs_plugin_versions c) &&
  bool_decide (rq_custom r ⊆ cs_custom c).

(** ** Variants *)

Record ExecutionVariant : Type := MkExecutionVariant {
  ev_variant_id : string;
  ev_task_type : ProtocolId;
  ev_runner_id : string;
  ev_plugin_id : string;
  ev_implementation_version : string;
  ev_requirements : RequirementSet;
  ev_quality_level : N;
  ev_preference : N
}.

Record ExecutionVariantCatalog : Type := MkCatalog { vc_variants : list ExecutionVariant }.

Record ExecutionOutcomeMetadata : Type := MkOutcome {
  om_requested_variant_id : option string;
  om_executed_variant_id : option string;
  om_quality_level : N;
  om_partial : bool;
  om_stale : bool;
  om_fallback_used : bool;
  om_degradation_reasons : list string
}.

Record VariantSelection : Type := MkVariantSelection {
  vs_variant : ExecutionVariant;
  vs_outcome : ExecutionOutcomeMetadata
}.

Definition then_with (c d : comparison) : comparison := match c with Eq => d | _ => c end.

Definition variant_order (left right : ExecutionVariant) : comparison :=
  then_with (N.compare (ev_preference left) (ev_preference right))
    (then_with (N.compare (ev_quality_level right) (ev_quality_level left))
      (String.compare (ev_variant_id left) (ev_variant_id right))).

(** What [sort_by] leaves in place: not [Greater]. *)
Definition variant_le (v w : ExecutionVariant) : Prop := variant_order v w ≠ Gt.
#[export] Instance variant_le_dec : RelDecision variant_le.
Proof. intros v w. unfold variant_le. destruct (variant_order v w); [left|left|right]; congruence. Defined.

Definition no_variant_error (task_type : string) (policy : ExecutionPolicy) (compatible : N) : RuntimeError :=
  let e := runtime_error ERR_EXECUTION_NO_VARIANT "runtime.execution_policy"
             ("execution.select." +:+ task_type) in
  {| e_code := e_code e; e_source := e_source e; e_route := e_route e;
     e_lost_capability := e_lost_capability e;
     e_recovery := match x_no_placement policy with
                   | PlacementWait => Some "wait_for_local_capability"
                   | UseFallback => Some "provide_explicit_fallback"
                   | PlacementFail => None
                   end;
     e_cause := e_cause e;
     e_evidence := <["compatible_variants" := ScalarInt (u64_as_i64 compatible)]> (e_evidence e) |}.

Definition find_level (level : N) (l : list ExecutionVariant) : option ExecutionVariant :=
  snd <$> list_find (λ v, (level ≤ ev_quality_level v)%N) l.

Definition selection_of (preferred_variant_id : option string) (selected : ExecutionVariant)
    (policy : ExecutionPolicy) : VariantSelection :=
  let fallback_used := negb (bool_decide (preferred_variant_id = Some (ev_variant_id selected))) in
  let degraded := bool_decide (ev_quality_level selected < q_requested_level (x_quality policy))%N in
  {| vs_variant := selected;
     vs_outcome := {|
       om_requested_variant_id := preferred_variant_id;
       om_executed_variant_id := Some (ev_variant_id selected);
       om_quality_level := ev_quality_level selected;
       om_partial := false;
       om_stale := false;
       om_fallback_used := fallback_used;
       om_degradation_reasons :=
         (if fallback_used then ["preferred_variant_unavailable"] else []) ++
         (if degraded then ["requested_quality_unavailable"] else [])
     |} |}.

Definition select_local (catalog : ExecutionVariantCatalog) (task_type : string)
    (capabilities : CapabilitySet) (policy : ExecutionPolicy) : RuntimeResult VariantSelection :=
  let all := stable_sort variant_le (filter (λ v, ev_task_type v = task_type) (vc_variants catalog)) in
  let preferred_variant_id := ev_variant_id <$> head all in
  let compatible := stable_sort variant_le
    (filter (λ v, is_satisfied_by (ev_requirements v) capabilities = true) all) in
  let selected :=
    match find_level (q_requested_level (x_quality policy)) compatible with
    | Some v => Some v
    | None =>
        if bool_decide (x_no_placement policy = UseFallback) && permits_degradation (x_quality policy)
        then find_level (q_minimum_level (x_quality policy)) compatible
        else None
    end in
  match selected with
  | None => Err (no_variant_error task_type policy (len compatible))
  | Some selected => Ok (selection_of preferred_variant_id selected policy)
  end.

(** ** Profiles *)

Definition f64_mul : spec_float → spec_float → spec_float := SFmul 53 1024.
Definition f64_add : spec_float → spec_float → spec_float := SFadd 53 1024.
Definition f64_sub : spec_float → spec_float → spec_float := SFsub 53 1024.
Definition f64_div : spec_float → spec_float → spec_float := SFdiv 53 1024.
(** The binary64 nearest to 0.2: 0x1.999999999999ap-3. *)
Definition f64_0_2 : spec_float := S754_finite false 7205759403792794 (-55).

Record FixedEwma : Type := MkFixedEwma {
  ew_alpha : spec_float;
  ew_value : spec_float;
  ew_initialized : bool
}.

Definition default_ewma : FixedEwma := MkFixedEwma f64_0_2 (u64_as_f64 0) false.

Definition ewma_record (e : FixedEwma) (sample : spec_float) : FixedEwma :=
  if ew_initialized e then
    MkFixedEwma (ew_alpha e)
      (f64_add (f64_mul (ew_alpha e) sample)
               (f64_mul (f64_sub (u64_as_f64 1) (ew_alpha e)) (ew_value e)))
      (ew_initialized e)
  else MkFixedEwma (ew_alpha e) sample true.

(** Arrays are lists of their fixed length. *)
Record FixedHistogram : Type := MkFixedHistogram {
  fh_upper_bounds_ms : list N;
  fh_counts : list N;
  fh_total : N
}.

Definition default_histogram : FixedHistogram := {|
  fh_upper_bounds_ms :=
    [1; 2; 4; 8; 16; 32; 64; 128; 256; 512; 1000; 2000; 4000; 8000; 16000; 32000]%N;
  fh_counts := replicate (EXECUTION_PROFILE_HISTOGRAM_BUCKETS + 1) 0%N;
  fh_total := 0
|}.

Definition bucket_index (h : FixedHistogram) (sample_ms : N) : nat :=
  match list_find (λ bound, (sample_ms ≤ bound)%N) (fh_upper_bounds_ms h) with
  | Some (i, _) => i
  | None => EXECUTION_PROFILE_HISTOGRAM_BUCKETS
  end.

(** [None]: the index is out of the array's bounds. *)
Definition histogram_record (h : FixedHistogram) (sample_ms : N) : option FixedHistogram :=
  let index := bucket_index h sample_ms in
  match fh_counts h !! index with
  | None => None
  | Some count => Some {|
      fh_upper_bounds_ms := fh_upper_bounds_ms h;
      fh_counts := <[index := saturating_add count 1]> (fh_counts h);
      fh_total := saturating_add (fh_total h) 1 |}
  end.

Record FixedSampleWindow : Type := MkFixedSampleWindow {
  sw_samples : list N;
  sw_next : N;
  sw_len : N
}.

Definition default_window : FixedSampleWindow :=
  MkFixedSampleWindow (replicate EXECUTION_PROFILE_WINDOW_CAPACITY 0%N) 0 0.

Definition window_record (w : FixedSampleWindow) (sample : N) : option FixedSampleWindow :=
  match sw_samples w !! N.to_nat (sw_next w) with
  | None => None
  | Some _ => Some {|
      sw_samples := <[N.to_nat (sw_next w) := sample]> (sw_samples w);
      sw_next := ((sw_next w + 1) mod N.of_nat EXECUTION_PROFILE_WINDOW_CAPACITY)%N;
      sw_len := N.min (N.min (sw_len w + 1) 255) (N.of_nat EXECUTION_PROFILE_WINDOW_CAPACITY) |}
  end.

Definition window_is_empty (w : FixedSampleWindow) : bool := bool_decide (sw_len w = 0%N).

Definition div_ceil (a b : N) : N := ((a + b - 1) / b)%N.

(** The inner option is the method's own result; the outer one a panic (a slice
    or an index out of bounds). *)
Definition quantile (w : FixedSampleWindow) (percentile : N) : option (option N) :=
  if window_is_empty w then Some None
  else
    let n := N.to_nat (sw_len w) in
    if decide (n ≤ length (sw_samples w) ∧ n ≤ EXECUTION_PROFILE_WINDOW_CAPACITY) then
      let sorted := merge_sort N.le (take n (sw_samples w)) ++
                    replicate (EXECUTION_PROFILE_WINDOW_CAPACITY - n) 0%N in
      let rank := div_ceil (N.min percentile 100 * (sw_len w - 1)) 100 in
      match sorted !! N.to_nat rank with
      | Some x => Some (Some x)
      | None => None
      end
    else None.

Record ExecutionSample : Type := MkExecutionSample {
  xs_latency_ms : N;
  xs_throughput_per_second : spec_float;
  xs_peak_memory_bytes : N;
  xs_succeeded : bool
}.

Record ExecutionProfileAccumulator : Type := MkAccumulator {
  pa_task_type : ProtocolId;
  pa_variant_id : string;
  pa_input_bucket : string;
  pa_latency_window : FixedSampleWindow;
  pa_latency_histogram : FixedHistogram;
  pa_throughput : FixedEwma;
  pa_peak_memory_bytes : N;
  pa_failures : N;
  pa_sample_count : N
}.

Definition accumulator_new (task_type variant_id input_bucket : string) : ExecutionProfileAccumulator := {|
  pa_task_type := task_type; pa_variant_id := variant_id; pa_input_bucket := input_bucket;
  pa_latency_window := default_window;
  pa_latency_histogram := default_histogram;
  pa_throughput := default_ewma;
  pa_peak_memory_bytes := 0; pa_failures := 0; pa_sample_count := 0
|}.

Definition accumulator_record (a : ExecutionProfileAccumulator) (sample : ExecutionSample) :
    option ExecutionProfileAccumulator :=
  match window_record (pa_latency_window a) (xs_latency_ms sample) with
  | None => None
  | Some window =>
  match histogram_record (pa_latency_histogram a) (xs_latency_ms sample) with
  | None => None
  | Some histogram => Some {|
      pa_task_type := pa_task_type a;
      pa_variant_id := pa_variant_id a;
      pa_input_bucket := pa_input_bucket a;
      pa_latency_window := window;
      pa_latency_histogram := histogram;
      pa_throughput := ewma_record (pa_throughput a) (xs_throughput_per_second sample);
      pa_peak_memory_bytes := N.max (pa_peak_memory_bytes a) (xs_peak_memory_bytes sample);
      pa_failures := if xs_succeeded sample then pa_failures a else saturating_add (pa_failures a) 1;
      pa_sample_count := saturating_add (pa_sample_count a) 1 |}
  end end.

Record ExecutionProfile : Type := MkExecutionProfile {
  xp_task_type : ProtocolId;
  xp_variant_id : string;
  xp_input_bucket : string;
  xp_p50_ms : N;
  xp_p95_ms : N;
  xp_p99_ms : N;
  xp_throughput_per_second : spec_float;
  xp_peak_memory_bytes : N;
  xp_failure_rate : spec_float;
  xp_sample_count : N
}.

Definition snapshot (a : ExecutionProfileAccumulator) : option ExecutionProfile :=
  match quantile (pa_latency_window a) 50, quantile (pa_latency_window a) 95,
        quantile (pa_latency_window a) 99 with
  | Some p50, Some p95, Some p99 => Some {|
      xp_task_type := pa_task_type a;
      xp_variant_id := pa_variant_id a;
      xp_input_bucket := pa_input_bucket a;
      xp_p50_ms := unwrap_or p50 0%N;
      xp_p95_ms := unwrap_or p95 0%N;
      xp_p99_ms := unwrap_or p99 0%N;
      xp_throughput_per_second := ew_value (pa_throughput a);
      xp_peak_memory_bytes := pa_peak_memory_bytes a;
      xp_failure_rate :=
        if decide (pa_sample_count a = 0%N) then u64_as_f64 0
        else f64_div (u64_as_f64 (pa_failures a)) (u64_as_f64 (pa_sample_count a));
      xp_sample_count := pa_sample_count a |}
  | _, _, _ => None
  end.

(** ** Selections and profiles

    What [select_local] chooses, and what a profile says of the samples it was
    built from. *)

(** ** The order of variants is a total preorder *)

Lemma compare_le_trans (a b c : N) x y z :
  then_with (N.compare a b) x ≠ Gt → then_with (N.compare b c) y ≠ Gt →
  (x ≠ Gt → y ≠ Gt → z ≠ Gt) → then_with (N.compare a c) z ≠ Gt.
Proof.
  unfold then_with. intros H1 H2 H.
  destruct (N.compare_spec a b), (N.compare_spec b c), (N.compare_spec a c); subst; try lia; try done; auto.
Qed.

Lemma string_compare_le a b : String.compare a b ≠ Gt ↔ String.le a b.
Proof. unfold String.le, String.leb. destruct (String.compare a b); naive_solver. Qed.

#[export] Instance variant_le_trans : Transitive variant_le.
Proof.
  intros u v w. unfold variant_le, variant_order. intros H1 H2.
  eapply compare_le_trans; [exact H1|exact H2|]. clear H1 H2. intros H1 H2.
  unfold then_with in *.
  destruct (N.compare_spec (ev_quality_level v) (ev_quality_level u)),
    (N.compare_spec (ev_quality_level w) (ev_quality_level v)),
    (N.compare_spec (ev_quality_level w) (ev_quality_level u)); subst; try lia; try done.
  rewrite string_compare_le in *. by etrans.
Qed.

#[export] Instance variant_le_total : Total variant_le.
Proof.
  intros v w. unfold variant_le, variant_order, then_with.
  rewrite (N.compare_antisym (ev_preference v) (ev_preference w)),
    (N.compare_antisym (ev_quality_level v) (ev_quality_level w)), (String.compare_antisym (ev_variant_id v)).
  destruct (N.compare (ev_preference v) _), (N.compare (ev_quality_level v) _),
    (String.compare (ev_variant_id w) (ev_variant_id v)); naive_solver.
Qed.

(** ** Selection *)

(** The variants of the catalog that implement the task type on a host with
    these capabilities at the quality level or better. *)
Definition offers (catalog : ExecutionVariantCatalog) (task_type : string) (capabilities : CapabilitySet)
    (level : N) (v : ExecutionVariant) : Prop :=
  v ∈ vc_variants catalog ∧ ev_task_type v = task_type ∧
  is_satisfied_by (ev_requirements v) capabilities = true ∧ (level ≤ ev_quality_level v)%N.

(** The best of them: none is ordered strictly before it. *)
Definition best (P : ExecutionVariant → Prop) (v : ExecutionVariant) : Prop :=
  P v ∧ ∀ w, P w → variant_le v w.

Lemma head_sorted l v : head (stable_sort variant_le l) = Some v → v ∈ l ∧ ∀ w, w ∈ l → w = v ∨ variant_le v w.
Proof.
  intros Hh. pose proof (stable_sort_Permutation variant_le l) as Hp.
  pose proof (StronglySorted_stable_sort variant_le l) as Hs.
  destruct (stable_sort variant_le l) as [|x k]; [done|]. injection Hh as ->.
  apply StronglySorted_inv in Hs as [_ Hall]. rewrite Forall_forall in Hall.
  setoid_rewrite <-Hp. split; [set_solver|]. intros w Hw. apply elem_of_cons in Hw as [->|Hw]; auto.
Qed.

Lemma variant_le_refl v : variant_le v v.
Proof. destruct (total variant_le v v); done. Qed.

Lemma sorted_lookup_lt {A} (R : relation A) l i j x y :
  StronglySorted R l → l !! i = Some x → l !! j = Some y → i < j → R x y.
Proof.
  intros Hs. revert i j. induction Hs as [|z k Hs IH Hall]; intros i j Hi Hj Hij; [done|].
  destruct j as [|j]; [lia|]. destruct i as [|i]; [|eapply IH; eauto; lia].
  injection Hi as ->. rewrite Forall_forall in Hall. apply Hall. by eapply list_elem_of_lookup_2.
Qed.

Lemma find_level_sorted level l v :
  StronglySorted variant_le l → find_level level l = Some v →
  best (λ w, w ∈ l ∧ (level ≤ ev_quality_level w)%N) v.
Proof.
  intros Hs Hf. unfold find_level in Hf. apply fmap_Some in Hf as ([i w] & Hf & ->). cbn.
  apply list_find_Some in Hf as (Hi & Hw & Hbefore). split; [split; [by eapply list_elem_of_lookup_2|done]|].
  intros u [Hu Hlu]. apply list_elem_of_lookup in Hu as [j Hj].
  destruct (decide (j < i)) as [Hji|Hji]; [by destruct (Hbefore j u Hj Hji)|].
  destruct (decide (i = j)) as [<-|Hne]; [simplify_eq; apply variant_le_refl|].
  eapply sorted_lookup_lt; [exact Hs|exact Hi|exact Hj|lia].
Qed.

Lemma find_level_none level l : find_level level l = None ↔ ∀ w, w ∈ l → ¬ (level ≤ ev_quality_level w)%N.
Proof.
  unfold find_level. rewrite fmap_None, list_find_None, Forall_forall. done.
Qed.

Lemma elem_of_compatible catalog task_type capabilities v :
  v ∈ stable_sort variant_le (filter (λ v, is_satisfied_by (ev_requirements v) capabilities = true)
        (stable_sort variant_le (filter (λ v, ev_task_type v = task_type) (vc_variants catalog)))) ↔
  v ∈ vc_variants catalog ∧ ev_task_type v = task_type ∧ is_satisfied_by (ev_requirements v) capabilities = true.
Proof. rewrite stable_sort_Permutation, list_elem_of_filter, stable_sort_Permutation, list_elem_of_filter. naive_solver. Qed.

Lemma best_proper (P Q : ExecutionVariant → Prop) v : (∀ w, P w ↔ Q w) → best P v → best Q v.
Proof. intros H [HP Hall]. split; [by apply H|]. intros w Hw. apply Hall. by apply H. Qed.

(** What the outcome records of the variant that was selected. *)
Lemma selection_of_spec catalog task_type policy v :
  v ∈ vc_variants catalog → ev_task_type v = task_type →
  let all := stable_sort variant_le (filter (λ v, ev_task_type v = task_type) (vc_variants catalog)) in
  let o := vs_outcome (selection_of (ev_variant_id <$> head all) v policy) in
  (∃ p, om_requested_variant_id o = Some (ev_variant_id p) ∧
        best (λ w, w ∈ vc_variants catalog ∧ ev_task_type w = task_type) p) ∧
  om_executed_variant_id o = Some (ev_variant_id v) ∧
  om_quality_level o = ev_quality_level v ∧
  (om_fallback_used o = true ↔ om_requested_variant_id o ≠ om_executed_variant_id o) ∧
  ("preferred_variant_unavailable" ∈ om_degradation_reasons o ↔ om_fallback_used o = true) ∧
  ("requested_quality_unavailable" ∈ om_degradation_reasons o ↔
     (ev_quality_level v < q_requested_level (x_quality policy))%N).
Proof.
  intros Hv Ht. cbn. set (l := filter _ _). assert (v ∈ l) as Hl by (by apply list_elem_of_filter).
  split; [|split_and!]; [|done|done|..]; [|repeat case_bool_decide; cbn; rewrite ?elem_of_cons, ?elem_of_nil; naive_solver..].
  destruct (head (stable_sort variant_le l)) as [p|] eqn:Hp.
  - exists p. split; [done|]. apply head_sorted in Hp as [Hin Hall].
    split; [apply list_elem_of_filter in Hin; naive_solver|]. intros w Hw.
    destruct (Hall w) as [->|]; [apply list_elem_of_filter; tauto|apply variant_le_refl|done].
  - rewrite <-(stable_sort_Permutation variant_le l) in Hl.
    by destruct (stable_sort variant_le l); [apply elem_of_nil in Hl|].
Qed.

(** [select_local] returns a best variant among those the host can run at the
    requested quality; only when there is none, the policy is [UseFallback] and
    its minimum level is below the requested one, a best one at the minimum
    level; and it fails exactly when neither exists.  The outcome names the
    variant that ran and the preferred one of the task type, and records a
    fallback and a degradation exactly when they happened. *)
Theorem select_local_exact catalog task_type capabilities policy :
  let offers := offers catalog task_type capabilities in
  let quality := x_quality policy in
  let fallback := x_no_placement policy = UseFallback ∧ (q_minimum_level quality < q_requested_level quality)%N in
  match select_local catalog task_type capabilities policy with
  | Ok s =>
      let v := vs_variant s in
      let o := vs_outcome s in
      (best (offers (q_requested_level quality)) v ∨
       (∀ w, ¬ offers (q_requested_level quality) w) ∧ fallback ∧ best (offers (q_minimum_level quality)) v) ∧
      (∃ p, om_requested_variant_id o = Some (ev_variant_id p) ∧
            best (λ w, w ∈ vc_variants catalog ∧ ev_task_type w = task_type) p) ∧
      om_executed_variant_id o = Some (ev_variant_id v) ∧
      om_quality_level o = ev_quality_level v ∧
      (om_fallback_used o = true ↔ om_requested_variant_id o ≠ om_executed_variant_id o) ∧
      ("preferred_variant_unavailable" ∈ om_degradation_reasons o ↔ om_fallback_used o = true) ∧
      ("requested_quality_unavailable" ∈ om_degradation_reasons o ↔ (ev_quality_level v < q_requested_level quality)%N)
  | Err e =>
      e_code e = ERR_EXECUTION_NO_VARIANT ∧
      (∀ w, ¬ offers (q_requested_level quality) w) ∧
      (fallback → ∀ w, ¬ offers (q_minimum_level quality) w)
  end.
Proof.
  cbv zeta. unfold select_local.
  set (all := stable_sort variant_le (filter (λ v, ev_task_type v = task_type) (vc_variants catalog))).
  set (compatible := stable_sort variant_le (filter _ all)).
  assert (StronglySorted variant_le compatible) as Hs by (apply StronglySorted_stable_sort; apply _).
  assert (∀ level w, w ∈ compatible ∧ (level ≤ ev_quality_level w)%N ↔
    offers catalog task_type capabilities level w) as Hin.
  { intros level w. unfold compatible, all. rewrite elem_of_compatible. unfold offers. naive_solver. }
  assert (∀ level v, find_level level compatible = Some v → best (offers catalog task_type capabilities level) v)
    as Hsome by (intros level v Hf; eapply best_proper; [apply Hin|by apply find_level_sorted]).
  assert (∀ level, find_level level compatible = None → ∀ w, ¬ offers catalog task_type capabilities level w) as Hnone.
  { intros level Hf w Hw. apply Hin in Hw as [Hw Hl]. rewrite find_level_none in Hf. by eapply Hf. }
  assert (∀ level v, best (offers catalog task_type capabilities level) v →
    v ∈ vc_variants catalog ∧ ev_task_type v = task_type) as Hof by (intros level v [Hv _]; unfold offers in Hv; naive_solver).
  unfold permits_degradation.
  destruct (find_level (q_requested_level _) compatible) as [v|] eqn:E1.
  { apply Hsome in E1. split; [by left|]. apply selection_of_spec; by eapply Hof. }
  pose proof (Hnone _ E1) as Hno. repeat case_bool_decide; cbn [andb]; try (split_and!; [done|done|tauto]).
  destruct (find_level (q_minimum_level _) compatible) as [v|] eqn:E2; [|split_and!; eauto].
  apply Hsome in E2. split; [by right|]. apply selection_of_spec; by eapply Hof.
Qed.

(** ** Profiles *)

(** The most recent samples, as many as the window holds, oldest first. *)
Definition recent {A} (xs : list A) : list A := drop (length xs - EXECUTION_PROFILE_WINDOW_CAPACITY) xs.

(** The sample of the given percentile, by nearest rank. *)
Definition nearest_rank (xs : list N) (percentile : N) : option N :=
  merge_sort N.le xs !! N.to_nat (div_ceil (N.min percentile 100 * (len xs - 1)) 100).

(** The window after the samples [xs]: the array is filled from the left, then
    overwritten cyclically. *)
Definition window_of (xs : list N) (w : FixedSampleWindow) : Prop :=
  (length xs < 32 ∧ sw_samples w = xs ++ replicate (32 - length xs) 0%N ∧
   sw_next w = len xs ∧ sw_len w = len xs) ∨
  (32 ≤ length xs ∧ ∃ old new, old ≠ [] ∧ length (old ++ new) = 32 ∧
   sw_samples w = new ++ old ∧ recent xs = old ++ new ∧ sw_next w = len new ∧ sw_len w = 32%N).

Lemma recent_snoc {A} (xs : list A) x y k :
  recent xs = y :: k → length (y :: k) = 32 → recent (xs ++ [x]) = k ++ [x].
Proof.
  unfold recent, EXECUTION_PROFILE_WINDOW_CAPACITY. intros Hr Hk.
  assert (32 ≤ length xs) as Hxs.
  { pose proof (f_equal length Hr) as Hl. rewrite length_drop in Hl. lia. }
  rewrite length_app. cbn [length]. replace (length xs + 1 - 32) with (length xs - 32 + 1) by lia.
  rewrite drop_app_le by lia. f_equal. by rewrite <-drop_drop, Hr.
Qed.

Lemma window_of_default : window_of [] default_window.
Proof. left. by vm_compute; split_and!; try lia. Qed.

Lemma length_recent {A} (xs : list A) : length (recent xs) = length xs `min` 32.
Proof. unfold recent, EXECUTION_PROFILE_WINDOW_CAPACITY. rewrite length_drop. lia. Qed.

Lemma recent_short {A} (xs : list A) : length xs ≤ 32 → recent xs = xs.
Proof. intros H. unfold recent, EXECUTION_PROFILE_WINDOW_CAPACITY. by replace (length xs - 32) with 0 by lia. Qed.

Lemma lookup_middle {A} (l k : list A) y n : n = length l → (l ++ y :: k) !! n = Some y.
Proof. intros ->. by rewrite lookup_app_r, Nat.sub_diag by lia. Qed.

Lemma insert_middle {A} (l k : list A) x y n : n = length l → <[n:=x]> (l ++ y :: k) = l ++ x :: k.
Proof. intros ->. by rewrite insert_app_r_alt, Nat.sub_diag by lia. Qed.

Lemma window_record_of xs w x : window_of xs w → ∃ w', window_record w x = Some w' ∧ window_of (xs ++ [x]) w'.
Proof.
  unfold window_record, EXECUTION_PROFILE_WINDOW_CAPACITY.
  intros [(Hlt & -> & Hn & Hl)|(Hge & old & new & Hold & H32 & -> & Hr & Hn & Hl)].
  - rewrite Hn, Hl. unfold len. rewrite Nat2N.id. replace (32 - length xs) with (S (31 - length xs)) by lia.
    cbn [replicate]. rewrite lookup_middle, insert_middle by done. eexists; split; [done|].
    destruct (decide (length xs = 31)) as [H31|H31].
    + right. rewrite H31, length_app, H31. cbn. split; [lia|]. exists (xs ++ [x]), [].
      rewrite app_nil_r, length_app, H31, recent_short by (rewrite length_app, H31; cbn; lia).
      split_and!; try done. by destruct xs.
    + left. rewrite length_app. cbn [length sw_samples sw_next sw_len].
      rewrite N.mod_small by lia. unfold len. rewrite length_app. cbn [length].
      split_and!; [lia| |lia|lia]. rewrite <-app_assoc. cbn. do 3 f_equal. lia.
  - destruct old as [|o old]; [done|]. rewrite Hn, Hl. unfold len. rewrite Nat2N.id.
    rewrite lookup_middle, insert_middle by done. eexists; split; [done|]. right.
    rewrite length_app in H32. cbn [length] in H32. rewrite length_app. split; [lia|].
    apply (recent_snoc _ x) in Hr; [|cbn; rewrite length_app; lia].
    destruct old as [|o' old].
    + exists (new ++ [x]), []. cbn in H32. rewrite !length_app. cbn [length sw_samples sw_next sw_len].
      split_and!; [by destruct new|lia|done|by rewrite app_nil_r|by replace (length new) with 31 by lia|done].
    + exists (o' :: old), (new ++ [x]). cbn [length] in *. rewrite !length_app. unfold len. rewrite length_app.
      cbn [length sw_samples sw_next sw_len].
      split_and!; [done|lia|by rewrite <-app_assoc|rewrite Hr; by rewrite app_assoc|rewrite N.mod_small; lia|done].
Qed.

(** Whatever the rotation of the window, its first [len] places hold exactly the
    recent samples. *)
Lemma window_of_perm xs w : window_of xs w →
  sw_len w = len (recent xs) ∧ length (sw_samples w) = 32 ∧ take (N.to_nat (sw_len w)) (sw_samples w) ≡ₚ recent xs.
Proof.
  intros [(Hlt & -> & Hn & Hl)|(Hge & old & new & Hold & H32 & -> & Hr & Hn & Hl)]; rewrite Hl.
  - rewrite recent_short by lia. unfold len. rewrite Nat2N.id, take_app_length, length_app, length_replicate.
    split_and!; [done|lia|done].
  - unfold len. rewrite Hr, H32. rewrite length_app in *. split_and!; [done|lia|].
    rewrite take_ge by (rewrite length_app; change (N.to_nat 32) with 32; lia). apply Permutation_app_comm.
Qed.

Lemma div_ceil_lt p n : (0 < n)%N → (div_ceil (N.min p 100 * (n - 1)) 100 < n)%N.
Proof. intros Hn. unfold div_ceil. apply N.Div0.div_lt_upper_bound. nia. Qed.

Lemma nearest_rank_some xs p : xs ≠ [] → is_Some (nearest_rank xs p).
Proof.
  intros Hxs. unfold nearest_rank. apply lookup_lt_is_Some.
  rewrite (Permutation_length (merge_sort_Permutation _ xs)).
  assert (0 < len xs)%N as Hl by (unfold len; destruct xs; [done|cbn; lia]).
  pose proof (div_ceil_lt p _ Hl) as Hd. unfold len in *. lia.
Qed.

Lemma quantile_of xs w p : window_of xs w → quantile w p = Some (if decide (xs = []) then None else nearest_rank (recent xs) p).
Proof.
  intros Hw. apply window_of_perm in Hw as (Hl & H32 & Hp). unfold quantile, window_is_empty.
  pose proof (length_recent xs) as Hr. rewrite Hl. unfold len at 1.
  destruct (decide (xs = [])) as [->|Hxs]; [by rewrite bool_decide_eq_true_2|]. rewrite bool_decide_eq_false_2 by (rewrite Hr; destruct xs; [done|cbn; lia]).
  rewrite decide_True by (unfold EXECUTION_PROFILE_WINDOW_CAPACITY, len; lia).
  replace (N.to_nat (len (recent xs))) with (length xs `min` 32) by (unfold len; lia).
  rewrite Hl in Hp. unfold len in Hp. rewrite Nat2N.id, Hr in Hp.
  assert (merge_sort N.le (take (length xs `min` 32) (sw_samples w)) = merge_sort N.le (recent xs)) as Hs.
  { apply (StronglySorted_unique N.le); [apply StronglySorted_merge_sort; apply _..|]. by rewrite !merge_sort_Permutation. }
  rewrite Hs. clear Hs. assert (recent xs ≠ []) as Hne by (intros H0; rewrite H0 in Hr; destruct xs; [done|cbn in Hr; lia]).
  destruct (nearest_rank_some (recent xs) p Hne) as [x Hx]. rewrite Hx. unfold nearest_rank in Hx.
  rewrite lookup_app_l by (by eapply lookup_lt_Some). by rewrite Hx.
Qed.

(** Percentiles grow with the percentage. *)
Lemma nearest_rank_mono xs p q x y :
  (p ≤ q)%N → nearest_rank xs p = Some x → nearest_rank xs q = Some y → (x ≤ y)%N.
Proof.
  unfold nearest_rank. intros Hpq Hx Hy.
  assert (div_ceil (N.min p 100 * (len xs - 1)) 100 ≤ div_ceil (N.min q 100 * (len xs - 1)) 100)%N as Hd
    by (apply N.Div0.div_le_mono; nia).
  assert (StronglySorted N.le (merge_sort N.le xs)) as Hs by (apply StronglySorted_merge_sort; apply _).
  apply N.le_lteq in Hd as [Hd|Hd]; [|rewrite Hd in Hx; simplify_eq; done].
  eapply (sorted_lookup_lt N.le); [exact Hs|exact Hx|exact Hy|lia].
Qed.

Lemma nearest_rank_unwrap_mono xs p q : (p ≤ q)%N →
  (unwrap_or (nearest_rank xs p) 0 ≤ unwrap_or (nearest_rank xs q) 0)%N.
Proof.
  intros Hpq. destruct (decide (xs = [])) as [->|Hxs]; [done|].
  destruct (nearest_rank_some xs p Hxs) as [x Hx], (nearest_rank_some xs q Hxs) as [y Hy].
  rewrite Hx, Hy. by eapply nearest_rank_mono.
Qed.

(** ** Histograms *)

Definition tally (n : nat) : N := N.min (N.of_nat n) u64_max.

Lemma tally_S n : saturating_add (tally n) 1 = tally (S n).
Proof. unfold tally, saturating_add. lia. Qed.

(** The histogram after the samples [xs]. *)
Definition histogram_of (xs : list N) : FixedHistogram := {|
  fh_upper_bounds_ms := fh_upper_bounds_ms default_histogram;
  fh_counts := (λ i, tally (length (filter (λ x, bucket_index default_histogram x = i) xs))) <$> seq 0 17;
  fh_total := tally (length xs)
|}.

Lemma bucket_index_spec x i : bucket_index default_histogram x = i →
  i ≤ 16 ∧ (∀ b, fh_upper_bounds_ms default_histogram !! i = Some b → (x ≤ b)%N) ∧
  (∀ j b, j < i → fh_upper_bounds_ms default_histogram !! j = Some b → (b < x)%N).
Proof.
  unfold bucket_index, EXECUTION_PROFILE_HISTOGRAM_BUCKETS. intros <-.
  destruct (list_find _ _) as [[i b]|] eqn:E.
  - apply list_find_Some in E as (Hi & Hb & Hall). split; [apply lookup_lt_Some in Hi; cbn in Hi; lia|].
    split; [naive_solver|]. intros j c Hj Hc. specialize (Hall j c Hc Hj). cbn in Hall. lia.
  - apply list_find_None in E. rewrite Forall_forall in E. split; [lia|]. split; [done|].
    intros j c _ Hc. specialize (E c (list_elem_of_lookup_2 _ _ _ Hc)). cbn in E. lia.
Qed.

Lemma histogram_record_of xs x : histogram_record (histogram_of xs) x = Some (histogram_of (xs ++ [x])).
Proof.
  pose proof (bucket_index_spec x _ eq_refl) as (Hi & _). unfold histogram_record.
  change (bucket_index (histogram_of xs) x) with (bucket_index default_histogram x).
  set (i := bucket_index default_histogram x) in *.
  cbn [histogram_of fh_counts fh_total fh_upper_bounds_ms].
  rewrite list_lookup_fmap, lookup_seq_lt by lia. cbn [fmap option_fmap option_map]. f_equal.
  unfold histogram_of. rewrite length_app, Nat.add_1_r, <-(tally_S (length xs)). f_equal.
  apply list_eq. intros j. destruct (decide (i = j)) as [<-|Hne].
  - rewrite list_lookup_insert_eq by (rewrite length_fmap, length_seq; lia).
    rewrite list_lookup_fmap, lookup_seq_lt by lia. cbn. f_equal.
    by rewrite tally_S, filter_app, length_app, filter_cons_True, Nat.add_comm.
  - rewrite list_lookup_insert_ne, !list_lookup_fmap by done. destruct (seq 0 17 !! j) as [k|] eqn:Ek; [|done].
    apply lookup_seq in Ek as [-> _]. cbn. f_equal. rewrite filter_app, length_app, filter_cons_False by done.
    cbn. by rewrite Nat.add_0_r.
Qed.

(** A latency belongs to the bucket [i]: it is above the bounds before the
    [i]-th, and not above the [i]-th if there is one. *)
Definition in_bucket (i : nat) (x : N) : Prop :=
  Forall (λ b, b < x)%N (take i (fh_upper_bounds_ms default_histogram)) ∧
  match fh_upper_bounds_ms default_histogram !! i with Some b => (x ≤ b)%N | None => True end.

#[export] Instance in_bucket_dec i x : Decision (in_bucket i x).
Proof. unfold in_bucket. destruct (_ !! i); apply _. Defined.

Lemma in_bucket_iff i x : i ≤ 16 → bucket_index default_histogram x = i ↔ in_bucket i x.
Proof.
  intros Hi. pose proof (bucket_index_spec x _ eq_refl) as (Hk & Hle & Hlt). split.
  - intros <-. split.
    + apply Forall_lookup. intros j b Hj. apply lookup_take_Some in Hj as [Hj Hji]. by eapply Hlt.
    + destruct (_ !! _) as [b|] eqn:E; [by apply Hle|done].
  - intros [Hall Hb]. set (k := bucket_index default_histogram x) in *.
    destruct (lt_eq_lt_dec k i) as [[Hki|]|Hik]; [|done|].
    + destruct (lookup_lt_is_Some_2 (fh_upper_bounds_ms default_histogram) k) as [b Eb]; [cbn; lia|].
      rewrite Forall_lookup in Hall. specialize (Hall k b). rewrite lookup_take_Some in Hall.
      specialize (Hall (conj Eb Hki)). specialize (Hle b Eb). cbn in *. lia.
    + destruct (lookup_lt_is_Some_2 (fh_upper_bounds_ms default_histogram) i) as [b Eb]; [cbn; lia|].
      rewrite Eb in Hb. specialize (Hlt i b Hik Eb). lia.
Qed.

Lemma histogram_counts xs i : i ≤ 16 →
  fh_counts (histogram_of xs) !! i = Some (tally (length (filter (in_bucket i) xs))).
Proof.
  intros Hi. cbn [histogram_of fh_counts]. rewrite list_lookup_fmap, lookup_seq_lt by lia.
  cbn. do 3 f_equal. apply list_filter_iff. intros x. by apply in_bucket_iff.
Qed.

(** ** The accumulated profile *)

Fixpoint record_all (a : ExecutionProfileAccumulator) (samples : list ExecutionSample) :
    option ExecutionProfileAccumulator :=
  match samples with
  | [] => Some a
  | s :: samples => a ← accumulator_record a s; record_all a samples
  end.

Definition max_of (l : list N) : N := foldr N.max 0%N l.

(** The accumulator after the samples, up to the throughput average. *)
Record profile_of (samples : list ExecutionSample) (a : ExecutionProfileAccumulator) : Prop := {
  po_window : window_of (xs_latency_ms <$> samples) (pa_latency_window a);
  po_histogram : pa_latency_histogram a = histogram_of (xs_latency_ms <$> samples);
  po_peak : pa_peak_memory_bytes a = max_of (xs_peak_memory_bytes <$> samples);
  po_failures : pa_failures a = tally (length (filter (λ s, xs_succeeded s = false) samples));
  po_count : pa_sample_count a = tally (length samples)
}.

Lemma max_of_snoc l x : max_of (l ++ [x]) = N.max (max_of l) x.
Proof. unfold max_of. induction l as [|y l IH]; cbn; [lia|]. rewrite IH. lia. Qed.

Lemma accumulator_record_of samples a s : profile_of samples a →
  ∃ a', accumulator_record a s = Some a' ∧ profile_of (samples ++ [s]) a'.
Proof.
  intros [Hw Hh Hp Hf Hc]. unfold accumulator_record.
  destruct (window_record_of _ _ (xs_latency_ms s) Hw) as (w' & -> & Hw').
  rewrite Hh, histogram_record_of. eexists; split; [done|].
  split; cbn [pa_latency_window pa_latency_histogram pa_peak_memory_bytes pa_failures pa_sample_count];
    rewrite ?fmap_app; [done|done|..].
  - cbn. by rewrite max_of_snoc, Hp.
  - rewrite filter_app, length_app, filter_cons. destruct (xs_succeeded s); cbn; rewrite Hf.
    + by rewrite Nat.add_0_r.
    + by rewrite tally_S, Nat.add_1_r.
  - by rewrite Hc, tally_S, length_app, Nat.add_1_r.
Qed.

Lemma record_all_of samples0 samples a : profile_of samples0 a →
  ∃ a', record_all a samples = Some a' ∧ profile_of (samples0 ++ samples) a'.
Proof.
  revert samples0 a. induction samples as [|s samples IH]; intros samples0 a Ha.
  - exists a. by rewrite app_nil_r.
  - destruct (accumulator_record_of _ _ s Ha) as (a1 & Hr & Ha1). cbn. rewrite Hr. cbn.
    destruct (IH _ _ Ha1) as (a' & Hall & Ha'). exists a'. by rewrite <-app_assoc in Ha'.
Qed.

Lemma profile_of_new t v b : profile_of [] (accumulator_new t v b).
Proof. split; [apply window_of_default|done..]. Qed.

(** an accumulator never fails to record or to take a snapshot.  After any
    samples, its percentiles are the nearest ranks among the last 32 latencies
    (and so p50 ≤ p95 ≤ p99), each histogram bucket counts the latencies up to
    its bound and above the bounds before it, and the peak, the failures and the
    number of samples are those of all samples, the counts up to [u64::MAX]. *)
Theorem profile_exact task_type variant_id input_bucket samples :
  let latencies := xs_latency_ms <$> samples in
  let percentile p := unwrap_or (nearest_rank (recent latencies) p) 0%N in
  ∃ a p,
    record_all (accumulator_new task_type variant_id input_bucket) samples = Some a ∧
    snapshot a = Some p ∧
    xp_p50_ms p = percentile 50%N ∧ xp_p95_ms p = percentile 95%N ∧ xp_p99_ms p = percentile 99%N ∧
    (xp_p50_ms p ≤ xp_p95_ms p ≤ xp_p99_ms p)%N ∧
    (∀ i, i ≤ 16 → fh_counts (pa_latency_histogram a) !! i = Some (tally (length (filter (in_bucket i) latencies)))) ∧
    fh_total (pa_latency_histogram a) = tally (length samples) ∧
    xp_peak_memory_bytes p = max_of (xs_peak_memory_bytes <$> samples) ∧
    pa_failures a = tally (length (filter (λ s, xs_succeeded s = false) samples)) ∧
    xp_sample_count p = tally (length samples).
Proof.
  cbv zeta. destruct (record_all_of [] samples _ (profile_of_new task_type variant_id input_bucket)) as (a & Hr & [Hw Hh Hp Hf Hc]).
  cbn [app] in *. exists a. unfold snapshot. rewrite !(quantile_of _ _ _ Hw). eexists. split; [done|]. split; [done|]. cbn.
  rewrite Hh, Hp, Hc. set (lat := xs_latency_ms <$> samples) in *.
  assert (∀ p, unwrap_or (if decide (lat = []) then None else nearest_rank (recent lat) p) 0%N =
    unwrap_or (nearest_rank (recent lat) p) 0%N) as Hd by (intros p; case_decide as Hl; [by rewrite Hl|done]).
  rewrite !Hd. split_and!; try done.
  - apply nearest_rank_unwrap_mono. lia.
  - apply nearest_rank_unwrap_mono. lia.
  - intros i Hi. by apply histogram_counts.
  - unfold lat. cbn. by rewrite length_fmap.
Qed.
