(* ===== verification/CapabilityRequest.v ===== *)
(** * Capability requests and idempotent receipts

    crates/mutsuki-runtime-contracts/src/capability_request.rs: the envelope of
    a request between hosts, the receipts it is answered with, and the store
    that answers a repeated request with the receipt it was first given.

    An [Instant] and a [Duration] are numbers of nanoseconds; a [SystemTime] is
    its distance to the Unix epoch in nanoseconds, negative before it.  Byte
    estimates are sums of the lengths of objects in memory and are kept in [N];
    only where the code saturates the bound is written.

    Below, the receipt store as a log of receipts. *)

From S2P Require Import Prelude Contracts.

(** The shape of a [serde_json::Value]; a number is known by the text
    [Number::to_string] gives it. *)
Inductive JsonTree : Type :=
  | JNull
  | JBool (b : bool)
  | JNumber (text : string)
  | JString (text : string)
  | JArray (items : list JsonTree)
  | JObject (fields : list (string * JsonTree)).

Class JsonShape `{SerdeJson} : Type := json_tree : Value → JsonTree.

Definition str_len (s : string) : N := N.of_nat (String.length s).
Definition sum_n (l : list N) : N := foldr N.add 0%N l.

Fixpoint estimate_json_bytes (value : JsonTree) : N :=
  match value with
  | JNull | JBool _ => 8
  | JNumber number => str_len number
  | JString text => str_len text
  | JArray items => sum_n (map estimate_json_bytes items) + 8
  | JObject fields => sum_n (map (λ '(key, item), str_len key + estimate_json_bytes item) fields) + 8
  end%N.

Section Requests.
Context `{JsonShape}.

Abbreviation CapabilityRequestId := string (only parsing).
Abbreviation CapabilityPeerId := string (only parsing).

Record CapabilityDescriptor : Type := MkCapabilityDescriptor {
  cd_name : string;
  cd_protocol_version : N;
  cd_schema_version : N
}.

Definition is_compatible_with (d offered : CapabilityDescriptor) : bool :=
  bool_decide (cd_name d = cd_name offered) &&
  bool_decide (cd_protocol_version d = cd_protocol_version offered) &&
  bool_decide (cd_schema_version d = cd_schema_version offered).

Record CapabilityRequestEnvelope : Type := MkEnvelope {
  ce_request_id : CapabilityRequestId;
  ce_source : CapabilityPeerId;
  ce_target : CapabilityPeerId;
  ce_capability : CapabilityDescriptor;
  ce_payload : Value;
  ce_deadline_unix_ms : option N
}.

Definition envelope_new (request_id source target : string) (capability : CapabilityDescriptor)
    (payload : Value) : CapabilityRequestEnvelope :=
  MkEnvelope request_id source target capability payload None.

(** [duration_since(UNIX_EPOCH).unwrap_or_default().as_millis() as u64] *)
Definition system_time_to_unix_ms (time : Z) : N :=
  (Z.to_N (Z.max time 0) / 1000000 mod 2 ^ 64)%N.

Definition with_deadline (deadline : Z) (e : CapabilityRequestEnvelope) : CapabilityRequestEnvelope :=
  MkEnvelope (ce_request_id e) (ce_source e) (ce_target e) (ce_capability e) (ce_payload e)
    (Some (system_time_to_unix_ms deadline)).

Definition is_expired_at (e : CapabilityRequestEnvelope) (now : Z) : bool :=
  is_some_and (ce_deadline_unix_ms e) (λ deadline, bool_decide (deadline ≤ system_time_to_unix_ms now)%N).

Inductive RejectionReason : Type :=
  | CapabilityUnavailable | ProtocolIncompatible | PermissionDenied | PayloadInvalid
  | DeadlineExceeded | RequestCancelled
  | OtherReason (code message : string).

Inductive DeliveryReceipt : Type :=
  | ReceiptAccepted (request_id : CapabilityRequestId) (remote_task_id : option string)
  | ReceiptDuplicate (request_id : CapabilityRequestId) (previous : DeliveryReceipt)
  | ReceiptRejected (request_id : CapabilityRequestId) (reason : RejectionReason)
  | ReceiptCompleted (request_id : CapabilityRequestId) (remote_task_id : option string) (output : Value)
  | ReceiptFailed (request_id : CapabilityRequestId) (remote_task_id : option string) (code message : string).

Definition receipt_request_id (r : DeliveryReceipt) : string :=
  match r with
  | ReceiptAccepted request_id _ | ReceiptDuplicate request_id _ | ReceiptRejected request_id _
  | ReceiptCompleted request_id _ _ | ReceiptFailed request_id _ _ _ => request_id
  end.

Definition receipt_is_terminal (r : DeliveryReceipt) : bool :=
  match r with
  | ReceiptRejected _ _ | ReceiptCompleted _ _ _ | ReceiptFailed _ _ _ _ => true
  | _ => false
  end.

Definition option_len (o : option string) : N := match o with Some s => str_len s | None => 0%N end.

Definition receipt_body_bytes (r : DeliveryReceipt) : N :=
  match r with
  | ReceiptAccepted _ remote_task_id => option_len remote_task_id
  | ReceiptDuplicate _ _ => 0
  | ReceiptRejected _ (OtherReason code message) => str_len code + str_len message + 16
  | ReceiptRejected _ _ => 16
  | ReceiptCompleted _ remote_task_id output =>
      option_len remote_task_id + estimate_json_bytes (json_tree output)
  | ReceiptFailed _ remote_task_id code message =>
      option_len remote_task_id + str_len code + str_len message
  end%N.

Definition estimate_receipt_bytes (request_id : string) (r : DeliveryReceipt) : N :=
  saturating_add (saturating_add (str_len request_id) 32) (receipt_body_bytes r).

(** ** The store *)

Record ReceiptRetentionPolicy : Type := MkRetention {
  rp_max_entries : option N;
  rp_max_bytes : option N;
  rp_ttl : option N
}.

Definition UNBOUNDED : ReceiptRetentionPolicy := MkRetention None None None.

Record ReceiptStoreStats : Type := MkReceiptStoreStats {
  rs_entries : N;
  rs_estimated_bytes : N;
  rs_evictions : N
}.

Record StoredReceipt : Type := MkStoredReceipt {
  st_receipt : DeliveryReceipt;
  st_completed_at : N;
  st_estimated_bytes : N
}.

Record IdempotentReceiptStore : Type := MkReceiptStore {
  is_receipts : gmap string StoredReceipt;
  is_order : list string;
  is_policy : ReceiptRetentionPolicy;
  is_estimated_bytes : N;
  is_evictions : N
}.

Definition with_policy (policy : ReceiptRetentionPolicy) : IdempotentReceiptStore :=
  MkReceiptStore ∅ [] policy 0 0.

Definition store_new : IdempotentReceiptStore := with_policy UNBOUNDED.

Definition store_len (s : IdempotentReceiptStore) : N := N.of_nat (size (is_receipts s)).

Definition evict_front (s : IdempotentReceiptStore) : bool * IdempotentReceiptStore :=
  match is_order s with
  | [] => (false, s)
  | request_id :: order =>
      match is_receipts s !! request_id with
      | Some entry => (true, MkReceiptStore (delete request_id (is_receipts s)) order (is_policy s)
          (saturating_sub (is_estimated_bytes s) (st_estimated_bytes entry))
          (saturating_add (is_evictions s) 1))
      | None => (true, MkReceiptStore (is_receipts s) order (is_policy s) (is_estimated_bytes s) (is_evictions s))
      end
  end.

Definition over_budget (s : IdempotentReceiptStore) : bool :=
  is_some_and (rp_max_entries (is_policy s)) (λ limit, bool_decide (limit < store_len s)%N) ||
  is_some_and (rp_max_bytes (is_policy s)) (λ limit, bool_decide (limit < is_estimated_bytes s)%N).

(** [while let Some(front_id) = self.order.front() { ... }]; each round shortens
    the queue, so the length of the queue is enough fuel. *)
Fixpoint expire_loop (fuel : nat) (ttl now : N) (s : IdempotentReceiptStore) : IdempotentReceiptStore :=
  match fuel, is_order s with
  | O, _ | _, [] => s
  | S fuel, front_id :: order =>
      match is_receipts s !! front_id with
      | None => expire_loop fuel ttl now
          (MkReceiptStore (is_receipts s) order (is_policy s) (is_estimated_bytes s) (is_evictions s))
      | Some entry =>
          if decide (now - st_completed_at entry < ttl)%N then s
          else expire_loop fuel ttl now (evict_front s).2
      end
  end.

Definition expire_due (now : N) (s : IdempotentReceiptStore) : IdempotentReceiptStore :=
  match rp_ttl (is_policy s) with
  | None => s
  | Some ttl => expire_loop (length (is_order s)) ttl now s
  end.

(** [while self.over_budget() { if !self.evict_front() { break; } }] *)
Fixpoint evict_loop (fuel : nat) (s : IdempotentReceiptStore) : IdempotentReceiptStore :=
  match fuel with
  | O => s
  | S fuel =>
      if over_budget s then
        match evict_front s with
        | (true, s') => evict_loop fuel s'
        | (false, s') => s'
        end
      else s
  end.

Definition accept_or_duplicate_at (request_id : string) (receipt : DeliveryReceipt) (now : N)
    (s : IdempotentReceiptStore) : DeliveryReceipt * IdempotentReceiptStore :=
  let s := expire_due now s in
  match is_receipts s !! request_id with
  | Some previous => (ReceiptDuplicate request_id (st_receipt previous), s)
  | None =>
      let estimated_bytes := estimate_receipt_bytes request_id receipt in
      let s := MkReceiptStore
        (<[request_id := MkStoredReceipt receipt now estimated_bytes]> (is_receipts s))
        (is_order s ++ [request_id])
        (is_policy s)
        (saturating_add (is_estimated_bytes s) estimated_bytes)
        (is_evictions s) in
      (receipt, evict_loop (S (length (is_order s))) s)
  end.

Definition get_at (request_id : string) (now : N) (s : IdempotentReceiptStore) : option DeliveryReceipt :=
  match is_receipts s !! request_id with
  | None => None
  | Some entry =>
      if is_some_and (rp_ttl (is_policy s)) (λ ttl, bool_decide (ttl ≤ now - st_completed_at entry)%N)
      then None
      else Some (st_receipt entry)
  end.

Definition store_stats (s : IdempotentReceiptStore) : ReceiptStoreStats :=
  MkReceiptStoreStats (store_len s) (is_estimated_bytes s) (is_evictions s).

End Requests.

(** ** The receipt store refines a log of receipts

    The store keeps a map, a queue of its keys and counters.  It is shown to
    behave as one list of the retained receipts, oldest first: an operation at
    [now] first drops every receipt whose time to live is over, a known request
    is answered with its receipt, a new one is appended, and then the longest
    suffix within the limits is kept. *)

Section Receipts.
Context `{JsonShape}.

Abbreviation Log := (list (string * StoredReceipt)).

Definition log_bytes (l : Log) : N := sum_n (st_estimated_bytes ∘ snd <$> l).

Lemma log_bytes_cons e l : log_bytes (e :: l) = (st_estimated_bytes e.2 + log_bytes l)%N.
Proof. done. Qed.

Lemma log_bytes_app l k : log_bytes (l ++ k) = (log_bytes l + log_bytes k)%N.
Proof. induction l as [|e l IH]; [done|]. cbn [app]. rewrite !log_bytes_cons, IH. lia. Qed.

(** ** The abstract store *)

Definition live (policy : ReceiptRetentionPolicy) (now : N) (e : string * StoredReceipt) : Prop :=
  match rp_ttl policy with Some ttl => (now - st_completed_at e.2 < ttl)%N | None => True end.

#[export] Instance live_dec policy now e : Decision (live policy now e).
Proof. unfold live. destruct (rp_ttl policy); apply _. Defined.

Definition within (policy : ReceiptRetentionPolicy) (l : Log) : Prop :=
  match rp_max_entries policy with Some limit => (len l ≤ limit)%N | None => True end ∧
  match rp_max_bytes policy with Some limit => (log_bytes l ≤ limit)%N | None => True end.

#[export] Instance within_dec policy l : Decision (within policy l).
Proof. unfold within. destruct (rp_max_entries policy), (rp_max_bytes policy); apply _. Defined.

Fixpoint longest_within (policy : ReceiptRetentionPolicy) (l : Log) : Log :=
  match l with
  | [] => []
  | _ :: l' => if decide (within policy l) then l else longest_within policy l'
  end.

Definition log_find (id : string) (l : Log) : option StoredReceipt := (list_to_map l : gmap string _) !! id.

(** The answer, the log after it, and how many entries were dropped. *)
Definition log_accept (policy : ReceiptRetentionPolicy) (id : string) (receipt : DeliveryReceipt) (now : N) (l : Log) :
    DeliveryReceipt * Log * nat :=
  let l1 := filter (live policy now) l in
  match log_find id l1 with
  | Some previous => (ReceiptDuplicate id (st_receipt previous), l1, length l - length l1)
  | None =>
      let l2 := longest_within policy
                  (l1 ++ [(id, MkStoredReceipt receipt now (estimate_receipt_bytes id receipt))]) in
      (receipt, l2, S (length l) - length l2)
  end.

Definition log_get (policy : ReceiptRetentionPolicy) (id : string) (now : N) (l : Log) : option DeliveryReceipt :=
  st_receipt <$> log_find id (filter (live policy now) l).

(** ** Relation between a store and its log *)

Record represents (s : IdempotentReceiptStore) (l : Log) : Prop := {
  rep_order : is_order s = l.*1;
  rep_nodup : NoDup l.*1;
  rep_map : is_receipts s = list_to_map l;
  rep_bytes : is_estimated_bytes s = log_bytes l
}.

Lemma represents_policy policy : represents (with_policy policy) [].
Proof. split; [done|constructor|done|done]. Qed.

Lemma represents_len s l : represents s l → store_len s = len l.
Proof.
  intros [Ho Hn Hm Hb]. unfold store_len, len. rewrite Hm, map_size_list_to_map by done. done.
Qed.

Lemma over_budget_spec s l : represents s l → over_budget s = false ↔ within (is_policy s) l.
Proof.
  intros Hr. unfold over_budget, within, is_some_and. rewrite (represents_len _ _ Hr), (rep_bytes _ _ Hr).
  destruct (rp_max_entries _), (rp_max_bytes _); repeat case_bool_decide; cbn; naive_solver lia.
Qed.

Lemma represents_uncons s e l : represents s (e :: l) →
  is_receipts s !! e.1 = Some e.2 ∧
  ∃ s', evict_front s = (true, s') ∧ represents s' l ∧ is_policy s' = is_policy s ∧
        is_evictions s' = saturating_add (is_evictions s) 1.
Proof.
  intros [Ho Hn Hm Hb]. destruct e as [id entry]. rewrite list_to_map_cons in Hm. rewrite log_bytes_cons in Hb. cbn [fmap list_fmap fst snd] in *. apply NoDup_cons in Hn as [Hid Hn].
  assert (is_receipts s !! id = Some entry) as Hl by (by rewrite Hm, lookup_insert_eq). split; [done|].
  unfold evict_front. rewrite Ho, Hl. eexists; split; [done|]. split_and!; [|done|done].
  split; cbn [is_order is_receipts is_estimated_bytes]; [done|done| |].
  - rewrite Hm, delete_insert_eq. apply delete_id. by apply not_elem_of_list_to_map_1.
  - rewrite Hb. unfold saturating_sub. lia.
Qed.

(** ** The loops *)

(** What [n] evictions leave of the counter. *)
Definition evicted (s s' : IdempotentReceiptStore) (n : nat) : Prop :=
  is_policy s' = is_policy s ∧ is_evictions s' = saturating_add (is_evictions s) (N.of_nat n).

Lemma evicted_refl s : (is_evictions s ≤ u64_max)%N → evicted s s 0.
Proof. intros. split; [done|]. unfold saturating_add. lia. Qed.

Lemma evicted_step s s1 s2 n : is_policy s1 = is_policy s → is_evictions s1 = saturating_add (is_evictions s) 1 →
  evicted s1 s2 n → evicted s s2 (S n).
Proof.
  intros Hp He [Hp' He']. split; [congruence|]. rewrite He', He. unfold saturating_add. lia.
Qed.

Lemma evict_loop_spec fuel s l : represents s l → length l ≤ fuel → (is_evictions s ≤ u64_max)%N →
  let l' := longest_within (is_policy s) l in
  represents (evict_loop fuel s) l' ∧ evicted s (evict_loop fuel s) (length l - length l').
Proof.
  revert s l. induction fuel as [|fuel IH]; intros s l Hr Hf Hv; cbn.
  { destruct l; [|cbn in Hf; lia]. split; [done|by apply evicted_refl]. }
  destruct l as [|e l].
  { cbn. destruct (over_budget s); [|by split; [|apply evicted_refl]].
    unfold evict_front. rewrite (rep_order _ _ Hr). cbn. by split; [|apply evicted_refl]. }
  cbn [longest_within]. case_decide as Hw.
  - apply (over_budget_spec _ _ Hr) in Hw as ->. rewrite Nat.sub_diag. by split; [|apply evicted_refl].
  - destruct (over_budget s) eqn:Hb; [|by destruct Hw; apply (over_budget_spec _ _ Hr)].
    destruct (represents_uncons _ _ _ Hr) as (_ & s' & -> & Hr' & Hp & He).
    destruct (IH s' l Hr') as [Hr2 He2]; [cbn in Hf; lia|rewrite He; apply saturating_add_bound|].
    rewrite Hp in Hr2, He2. split; [done|].
    assert (length (longest_within (is_policy s) l) ≤ length l) as Hle.
    { clear. generalize (is_policy s). intros p. induction l as [|e l IHl]; [done|]. cbn. case_decide; cbn; lia. }
    cbn [length]. rewrite Nat.sub_succ_l by done. by eapply evicted_step.
Qed.

(** Entries in the order of their times, none later than [now]. *)
Definition ordered (now : N) (l : Log) : Prop :=
  StronglySorted (λ e e' : string * StoredReceipt, st_completed_at e.2 ≤ st_completed_at e'.2)%N l ∧
  Forall (λ e : string * StoredReceipt, st_completed_at e.2 ≤ now)%N l.

Lemma ordered_sublist now l k : l `sublist_of` k → ordered now k → ordered now l.
Proof. intros Hs [H1 H2]. split; [by eapply StronglySorted_sublist|by eapply Forall_sublist]. Qed.

Lemma expire_loop_spec fuel ttl now s l : represents s l → length l ≤ fuel → (is_evictions s ≤ u64_max)%N →
  rp_ttl (is_policy s) = Some ttl → ordered now l →
  let l' := filter (live (is_policy s) now) l in
  represents (expire_loop fuel ttl now s) l' ∧ evicted s (expire_loop fuel ttl now s) (length l - length l').
Proof.
  revert s l. induction fuel as [|fuel IH]; intros s l Hr Hf Hv Ht Hord; cbn [expire_loop].
  { destruct l; [|cbn in Hf; lia]. split; [by destruct (is_order s)|by apply evicted_refl]. }
  destruct l as [|e l].
  { rewrite (rep_order _ _ Hr). cbn. by split; [|apply evicted_refl]. }
  destruct (represents_uncons _ _ _ Hr) as (Hl & s' & Hev & Hr' & Hp & He).
  rewrite (rep_order _ _ Hr). cbn [fmap list_fmap]. rewrite Hl. case_decide as Hlive.
  - rewrite filter_all, Nat.sub_diag; [by split; [|apply evicted_refl]|].
    intros x Hx. unfold live. rewrite Ht. destruct Hord as [Hs _].
    apply StronglySorted_inv in Hs as [_ Hall]. rewrite Forall_forall in Hall.
    apply elem_of_cons in Hx as [->|Hx]; [done|]. specialize (Hall x Hx). cbn in Hall. lia.
  - rewrite filter_cons_False by (unfold live; by rewrite Ht). rewrite Hev. cbn [snd].
    destruct (IH s' l Hr') as [Hr2 He2];
      [cbn in Hf; lia|rewrite He; apply saturating_add_bound|by rewrite Hp|by eapply ordered_sublist, Hord; constructor|].
    rewrite Hp in Hr2, He2. split; [done|]. cbn [length].
    rewrite Nat.sub_succ_l by apply length_filter. by eapply evicted_step.
Qed.

Lemma evicted_trans s s1 s2 n m : evicted s s1 n → evicted s1 s2 m → evicted s s2 (n + m).
Proof.
  intros [Hp He] [Hp' He']. split; [congruence|]. rewrite He', He. unfold saturating_add. lia.
Qed.

Lemma expire_due_spec now s l : represents s l → (is_evictions s ≤ u64_max)%N → ordered now l →
  let l' := filter (live (is_policy s) now) l in
  represents (expire_due now s) l' ∧ evicted s (expire_due now s) (length l - length l').
Proof.
  intros Hr Hv Hord. unfold expire_due. destruct (rp_ttl (is_policy s)) as [ttl|] eqn:Ht.
  - apply expire_loop_spec; try done. by rewrite (rep_order _ _ Hr), length_fmap.
  - rewrite filter_all, Nat.sub_diag; [by split; [|apply evicted_refl]|]. intros x _. unfold live. by rewrite Ht.
Qed.

Lemma longest_within_suffix policy l : longest_within policy l `suffix_of` l.
Proof.
  induction l as [|e l IH]; [done|]. cbn. case_decide; [done|]. by apply suffix_cons_r.
Qed.

Lemma suffix_sublist {A} (l k : list A) : l `suffix_of` k → l `sublist_of` k.
Proof. intros [k' ->]. by apply sublist_inserts_l. Qed.

Lemma log_bytes_sublist l k : l `sublist_of` k → (log_bytes l ≤ log_bytes k)%N.
Proof. induction 1; rewrite ?log_bytes_cons; [done|lia|lia]. Qed.

Lemma within_sublist policy l k : l `sublist_of` k → within policy k → within policy l.
Proof.
  intros Hs. pose proof (log_bytes_sublist _ _ Hs). apply sublist_length in Hs. unfold within, len.
  destruct (rp_max_entries policy), (rp_max_bytes policy); intros [??]; split; try done; lia.
Qed.

Lemma longest_within_within policy l : within policy (longest_within policy l).
Proof.
  induction l as [|e l IH]; cbn; [|by case_decide].
  unfold within, len, log_bytes. cbn. destruct (rp_max_entries policy), (rp_max_bytes policy); split; try done; lia.
Qed.

(** Appending a receipt for a request that is not in the log. *)
Lemma represents_push s l id receipt now :
  represents s l → log_find id l = None → (log_bytes l + estimate_receipt_bytes id receipt ≤ u64_max)%N →
  let entry := MkStoredReceipt receipt now (estimate_receipt_bytes id receipt) in
  represents (MkReceiptStore (<[id := entry]> (is_receipts s)) (is_order s ++ [id]) (is_policy s)
      (saturating_add (is_estimated_bytes s) (st_estimated_bytes entry)) (is_evictions s))
    (l ++ [(id, entry)]).
Proof.
  intros [Ho Hn Hm Hb] Hid Hfit entry. unfold log_find in Hid. apply not_elem_of_list_to_map in Hid.
  split; cbn [is_receipts is_order is_estimated_bytes].
  - by rewrite fmap_app, Ho.
  - rewrite fmap_app. apply NoDup_app. split; [done|]. split; [set_solver|]. apply NoDup_singleton.
  - rewrite list_to_map_snoc by done. by rewrite Hm.
  - rewrite Hb, log_bytes_app, log_bytes_cons. unfold log_bytes at 3. cbn. unfold saturating_add. lia.
Qed.

Lemma ordered_push now l e : ordered now l → st_completed_at e.2 = now → ordered now (l ++ [e]).
Proof.
  intros [Hs Hf] He. split.
  - apply StronglySorted_app. split_and!; [|done|by repeat constructor]. intros x y Hx Hy.
    apply list_elem_of_singleton in Hy as ->. rewrite Forall_forall in Hf. rewrite He. by apply Hf.
  - apply Forall_app. split; [done|]. constructor; [lia|constructor].
Qed.

(** ** One operation *)
Lemma accept_spec s l id receipt now :
  represents s l → (is_evictions s ≤ u64_max)%N → ordered now l → within (is_policy s) l →
  (log_bytes l + estimate_receipt_bytes id receipt ≤ u64_max)%N →
  ∀ r l' n, log_accept (is_policy s) id receipt now l = (r, l', n) →
  ∃ s', accept_or_duplicate_at id receipt now s = (r, s') ∧ represents s' l' ∧ evicted s s' n ∧
        ordered now l' ∧ within (is_policy s) l' ∧
        (log_bytes l' ≤ log_bytes l + estimate_receipt_bytes id receipt)%N.
Proof.
  intros Hr Hv Hord Hwi Hfit r l' n. unfold log_accept, accept_or_duplicate_at.
  destruct (expire_due_spec now s l Hr Hv Hord) as [Hr1 He1].
  set (l1 := filter _ l) in *. set (s1 := expire_due now s) in *.
  assert (l1 `sublist_of` l) as Hsub by apply sublist_filter. pose proof (log_bytes_sublist _ _ Hsub) as Hb1.
  assert (length l1 ≤ length l) as Hlen by (by apply sublist_length).
  cbv zeta. rewrite (rep_map _ _ Hr1). change (list_to_map l1 !! id) with (log_find id l1).
  destruct (log_find id l1) as [previous|] eqn:Hf; intros [= <- <- <-].
  - eexists; split; [done|]. split_and!; [done|done|by eapply ordered_sublist|by eapply within_sublist|lia].
  - pose proof (represents_push _ _ id receipt now Hr1 Hf ltac:(lia)) as Hr2. rewrite (rep_map _ _ Hr1) in Hr2. cbn zeta in Hr2.
    set (s2 := MkReceiptStore _ _ _ _ _) in *. set (l2 := l1 ++ _) in *.
    assert (ordered now l2) as Ho2 by (apply ordered_push; [by eapply ordered_sublist|done]).
    destruct (evict_loop_spec (S (length (is_order s2))) s2 l2 Hr2) as [Hr3 He3].
    { rewrite (rep_order _ _ Hr2), length_fmap. lia. }
    { destruct He1 as [_ He1]. cbn. rewrite He1. apply saturating_add_bound. }
    assert (is_policy s2 = is_policy s) as Hp by apply He1. rewrite Hp in *.
    pose proof (suffix_sublist _ _ (longest_within_suffix (is_policy s) l2)) as Hsub2.
    eexists; split; [done|]. split_and!; [done| |by eapply ordered_sublist|apply longest_within_within|].
    + replace (S (length l) - _) with ((length l - length l1) + (length l2 - length (longest_within (is_policy s) l2))).
      * eapply evicted_trans; [exact He1|exact He3].
      * apply sublist_length in Hsub2. unfold l2 in *. rewrite length_app in *. cbn in *. lia.
    + apply log_bytes_sublist in Hsub2. unfold l2 in Hsub2 at 2. rewrite log_bytes_app, log_bytes_cons in Hsub2. cbn in *. lia.
Qed.

Lemma sublist_fmap {A B} (f : A → B) (l k : list A) : l `sublist_of` k → (f <$> l) `sublist_of` (f <$> k).
Proof. induction 1; cbn; by constructor. Qed.

Lemma get_spec s l id now : represents s l → get_at id now s = log_get (is_policy s) id now l.
Proof.
  intros [_ Hn Hm _]. unfold get_at, log_get, log_find. rewrite Hm.
  set (l1 := filter (live (is_policy s) now) l).
  assert (NoDup l1.*1) as Hn1 by (eapply sublist_NoDup; [exact Hn|]; apply sublist_fmap, sublist_filter).
  assert (∀ e, list_to_map (M:=gmap string _) l1 !! id = Some e ↔
    list_to_map (M:=gmap string _) l !! id = Some e ∧ live (is_policy s) now (id, e)) as Hiff.
  { intros e. rewrite <-!elem_of_list_to_map by done. unfold l1. rewrite list_elem_of_filter. tauto. }
  destruct (list_to_map l !! id) as [e|] eqn:El, (list_to_map l1 !! id) as [e1|] eqn:El1; cbn.
  - destruct (proj1 (Hiff e1) eq_refl) as [[= ->] Hlive]. unfold live in Hlive. cbn in Hlive.
    destruct (rp_ttl (is_policy s)); cbn; [case_bool_decide; [lia|done]|done].
  - destruct (decide (live (is_policy s) now (id, e))) as [Hl|Hl]; [discriminate (proj2 (Hiff e) (conj eq_refl Hl))|].
    unfold live in Hl. cbn in Hl. destruct (rp_ttl (is_policy s)); cbn; [|by destruct Hl].
    by rewrite bool_decide_eq_true_2 by lia.
  - by destruct (proj1 (Hiff e1) eq_refl) as [[=] _].
  - done.
Qed.

(** ** Sequences of operations *)

Record AcceptCall : Type := MkAcceptCall { ac_id : string; ac_receipt : DeliveryReceipt; ac_now : N }.

Fixpoint run_store (calls : list AcceptCall) (s : IdempotentReceiptStore) : list DeliveryReceipt * IdempotentReceiptStore :=
  match calls with
  | [] => ([], s)
  | c :: calls =>
      let '(r, s) := accept_or_duplicate_at (ac_id c) (ac_receipt c) (ac_now c) s in
      let '(rs, s) := run_store calls s in
      (r :: rs, s)
  end.

Fixpoint run_log (policy : ReceiptRetentionPolicy) (calls : list AcceptCall) (l : Log) : list DeliveryReceipt * Log * nat :=
  match calls with
  | [] => ([], l, 0)
  | c :: calls =>
      let '(r, l, n) := log_accept policy (ac_id c) (ac_receipt c) (ac_now c) l in
      let '(rs, l, m) := run_log policy calls l in
      (r :: rs, l, n + m)
  end.

Definition call_bytes (c : AcceptCall) : N := estimate_receipt_bytes (ac_id c) (ac_receipt c).

Lemma ordered_later now now' l : (now ≤ now')%N → ordered now l → ordered now' l.
Proof. intros Hn [Hs Hf]. split; [done|]. eapply Forall_impl; [exact Hf|]. intros e He. cbn in He. lia. Qed.

Lemma run_store_spec calls s l t :
  represents s l → (is_evictions s ≤ u64_max)%N → ordered t l → within (is_policy s) l →
  StronglySorted N.le (t :: (ac_now <$> calls)) → (log_bytes l + sum_n (call_bytes <$> calls) ≤ u64_max)%N →
  ∀ rs l' n, run_log (is_policy s) calls l = (rs, l', n) →
  ∃ s', run_store calls s = (rs, s') ∧ represents s' l' ∧ evicted s s' n ∧ within (is_policy s) l'.
Proof.
  revert s l t. induction calls as [|c calls IH]; intros s l t Hr Hv Ho Hw Hs Hb rs l' n; cbn [run_log run_store].
  { intros [= <- <- <-]. exists s. split_and!; try done. by apply evicted_refl. }
  apply StronglySorted_inv in Hs as [Hs Ht]. apply Forall_inv in Ht.
  change (sum_n (call_bytes <$> (c :: calls))) with (call_bytes c + sum_n (call_bytes <$> calls))%N in Hb.
  destruct (log_accept _ _ _ _ l) as [[r l1] n1] eqn:E1.
  destruct (accept_spec s l (ac_id c) (ac_receipt c) (ac_now c)) with (r := r) (l' := l1) (n := n1)
    as (s1 & -> & Hr1 & He1 & Ho1 & Hw1 & Hb1); try done.
  { by eapply ordered_later. }
  { unfold call_bytes in Hb at 1. lia. }
  pose proof He1 as [Hp1 Hev1]. rewrite <-Hp1 in Hw1 |- *.
  destruct (run_log (is_policy s1) calls l1) as [[rs1 l2] n2] eqn:E2. intros [= <- <- <-].
  destruct (IH s1 l1 (ac_now c)) with (rs := rs1) (l' := l2) (n := n2) as (s2 & -> & Hr2 & He2 & Hw2); try done.
  { rewrite Hev1. apply saturating_add_bound. }
  { unfold call_bytes in Hb at 1. lia. }
  exists s2. split_and!; [done|done|by eapply evicted_trans|done].
Qed.

(** C32: over any calls whose clock does not run backwards and whose receipts
    together fit the byte counter, the receipt store answers as the log of
    retained receipts does: the first receipt of a request is kept and answers
    every later call for it, until its time to live is over or it is the oldest
    one beyond the limits, after which the request is new again.  The store
    then holds exactly the log, within the limits, with the number of dropped
    entries counted, and [get] finds exactly the live entries. *)
Theorem receipt_store_refines policy calls :
  StronglySorted N.le (ac_now <$> calls) →
  (sum_n (call_bytes <$> calls) ≤ u64_max)%N →
  ∃ s rs l n,
    run_store calls (with_policy policy) = (rs, s) ∧
    run_log policy calls [] = (rs, l, n) ∧
    represents s l ∧ is_evictions s = N.min (N.of_nat n) u64_max ∧ within policy l ∧
    ∀ id now, get_at id now s = log_get policy id now l.
Proof.
  intros Hs Hb. destruct (run_log policy calls []) as [[rs l] n] eqn:E.
  destruct (run_store_spec calls (with_policy policy) [] 0) with (rs := rs) (l' := l) (n := n)
    as (s & Hrun & Hr & [Hp He] & Hw); try done.
  - apply represents_policy.
  - split; constructor.
  - apply (longest_within_within policy []).
  - constructor; [done|]. apply Forall_forall. intros. lia.
  - exists s, rs, l, n. split_and!; try done. intros id now. rewrite (get_spec _ _ _ _ Hr). by rewrite Hp.
Qed.
End Receipts.
