(* ===== verification/Portability.v ===== *)
(** * Portable tasks and checkpoints

    crates/mutsuki-runtime-contracts/src/portability.rs: what a task is wrapped
    in to leave its host, and the checkpoint it is restored or restarted from.
    Writing and reading JSON ([write_json], [read_json]) is a call of
    [serde_json] and nothing else. *)

From S2P Require Import Prelude Contracts.

Definition PORTABLE_TASK_ENVELOPE_SCHEMA_ID : string := "mutsuki.runtime.portable-task".
Definition PORTABLE_TASK_ENVELOPE_SCHEMA_VERSION : string := "1.0.0".
Definition TASK_CHECKPOINT_ENVELOPE_SCHEMA_ID : string := "mutsuki.runtime.task-checkpoint".
Definition TASK_CHECKPOINT_ENVELOPE_SCHEMA_VERSION : string := "1.0.0".
Definition ERR_PORTABLE_SCHEMA_UNSUPPORTED : string := "portable.schema_unsupported".
Definition ERR_CHECKPOINT_INCOMPATIBLE : string := "checkpoint.incompatible".

Record SchemaIdentity : Type := MkSchemaIdentity { sid_schema_id : string; sid_schema_version : string }.
#[export] Instance SchemaIdentity_eq_dec : EqDecision SchemaIdentity.
Proof. solve_decision. Defined.

Record ContentId : Type := MkContentId {
  ci_algorithm : string;
  ci_digest : string;
  ci_size : N;
  ci_format : string
}.
#[export] Instance ContentId_eq_dec : EqDecision ContentId.
Proof. solve_decision. Defined.

Inductive ExecutionMobility : Type := LocalOnly | Portable | Restartable | Checkpointable.
Inductive RetrySafety : Type := Idempotent | Verifiable | Compensatable | RetryUnsafe.
Inductive TaskAcceptanceDurability : Type := Volatile | Buffered | Persisted.
Inductive ResourcePersistence : Type := Ephemeral | Durable | ContentAddressed.
Inductive RecoveryMode : Type := RecoveryUnavailable | RestartFromInput | RestoreCheckpoint.

Record PortabilityCapability : Type := MkPortabilityCapability {
  pc_mobility : ExecutionMobility;
  pc_retry_safety : RetrySafety;
  pc_task_acceptance : TaskAcceptanceDurability;
  pc_resource_persistence : ResourcePersistence;
  pc_recovery : RecoveryMode
}.

Definition default_capability : PortabilityCapability :=
  MkPortabilityCapability LocalOnly RetryUnsafe Volatile Ephemeral RecoveryUnavailable.

Record TaskPortabilityDescriptor : Type := MkTaskPortabilityDescriptor {
  tp_protocol_id : ProtocolId;
  tp_task_schema : SchemaIdentity;
  tp_checkpoint_schema : option SchemaIdentity;
  tp_capability : PortabilityCapability
}.

Record PortableResourceDescriptor : Type := MkPortableResourceDescriptor {
  pd_task_ref_id : RefId;
  pd_content_id : ContentId;
  pd_resource_kind : string;
  pd_schema : SchemaIdentity;
  pd_persistence : ResourcePersistence
}.

Record PortabilityCatalog : Type := MkPortabilityCatalog {
  pk_tasks : list TaskPortabilityDescriptor;
  pk_resources : list PortableResourceDescriptor
}.

Definition task_capability (c : PortabilityCatalog) (protocol_id : string) : PortabilityCapability :=
  match list_find (λ d, tp_protocol_id d = protocol_id) (pk_tasks c) with
  | Some (_, d) => tp_capability d
  | None => default_capability
  end.

Section Portable.
Context `{SerdeJson}.

Record PortableTask : Type := MkPortableTask {
  pt_envelope_schema : SchemaIdentity;
  pt_task_schema : SchemaIdentity;
  pt_capability : PortabilityCapability;
  pt_input_content_id : ContentId;
  pt_resources : list PortableResourceDescriptor;
  pt_task : Task
}.

Definition clear_runtime_attempt (task : Task) : Task :=
  task <| t_lease_id := None |> <| t_registry_generation := 0%N |> <| t_created_sequence := 0%N |>.

Definition portable_task_new (task : Task) (task_schema : SchemaIdentity) (input_content_id : ContentId)
    (capability : PortabilityCapability) : PortableTask := {|
  pt_envelope_schema := MkSchemaIdentity PORTABLE_TASK_ENVELOPE_SCHEMA_ID PORTABLE_TASK_ENVELOPE_SCHEMA_VERSION;
  pt_task_schema := task_schema;
  pt_capability := capability;
  pt_input_content_id := input_content_id;
  pt_resources := [];
  pt_task := clear_runtime_attempt task
|}.

Definition with_resources (p : PortableTask) (resources : list PortableResourceDescriptor) : PortableTask := {|
  pt_envelope_schema := pt_envelope_schema p; pt_task_schema := pt_task_schema p;
  pt_capability := pt_capability p; pt_input_content_id := pt_input_content_id p;
  pt_resources := resources; pt_task := pt_task p |}.

Definition has_supported_envelope (p : PortableTask) : bool :=
  bool_decide (sid_schema_id (pt_envelope_schema p) = PORTABLE_TASK_ENVELOPE_SCHEMA_ID) &&
  bool_decide (sid_schema_version (pt_envelope_schema p) = PORTABLE_TASK_ENVELOPE_SCHEMA_VERSION).

Definition validate_envelope (p : PortableTask) : Result RuntimeError unit :=
  if has_supported_envelope p then Ok tt
  else Err (with_evidence "schema_version" (ScalarString (sid_schema_version (pt_envelope_schema p)))
         (with_evidence "schema_id" (ScalarString (sid_schema_id (pt_envelope_schema p)))
           (runtime_error ERR_PORTABLE_SCHEMA_UNSUPPORTED "runtime.portability" "portable_task.decode"))).

Definition into_local_task (p : PortableTask) : Task := clear_runtime_attempt (pt_task p).

Record TaskCheckpoint : Type := MkTaskCheckpoint {
  tc_envelope_schema : SchemaIdentity;
  tc_checkpoint_schema : SchemaIdentity;
  tc_task_schema : SchemaIdentity;
  tc_implementation_generation : N;
  tc_input_content_id : ContentId;
  tc_sequence : N;
  tc_task : PortableTask;
  tc_payload : list N
}.

Definition checkpoint_new (checkpoint_schema : SchemaIdentity) (implementation_generation sequence : N)
    (task : PortableTask) (payload : list N) : TaskCheckpoint := {|
  tc_envelope_schema := MkSchemaIdentity TASK_CHECKPOINT_ENVELOPE_SCHEMA_ID TASK_CHECKPOINT_ENVELOPE_SCHEMA_VERSION;
  tc_checkpoint_schema := checkpoint_schema;
  tc_task_schema := pt_task_schema task;
  tc_implementation_generation := implementation_generation;
  tc_input_content_id := pt_input_content_id task;
  tc_sequence := sequence;
  tc_task := task;
  tc_payload := payload
|}.

Definition is_self_consistent (c : TaskCheckpoint) : bool :=
  bool_decide (sid_schema_id (tc_envelope_schema c) = TASK_CHECKPOINT_ENVELOPE_SCHEMA_ID) &&
  bool_decide (sid_schema_version (tc_envelope_schema c) = TASK_CHECKPOINT_ENVELOPE_SCHEMA_VERSION) &&
  has_supported_envelope (tc_task c) &&
  bool_decide (tc_task_schema c = pt_task_schema (tc_task c)) &&
  bool_decide (tc_input_content_id c = pt_input_content_id (tc_task c)).

Definition checkpoint_is_compatible_with (c : TaskCheckpoint) (task_schema : SchemaIdentity)
    (implementation_generation : N) (input_content_id : ContentId) : bool :=
  is_self_consistent c &&
  bool_decide (tc_task_schema c = task_schema) &&
  bool_decide (tc_implementation_generation c = implementation_generation) &&
  bool_decide (tc_input_content_id c = input_content_id).

Definition validate_restore (c : TaskCheckpoint) (task_schema : SchemaIdentity)
    (implementation_generation : N) (input_content_id : ContentId) : Result RuntimeError unit :=
  if checkpoint_is_compatible_with c task_schema implementation_generation input_content_id then Ok tt
  else
    let e := runtime_error ERR_CHECKPOINT_INCOMPATIBLE "runtime.portability" "checkpoint.restore" in
    Err (with_evidence "requested_generation" (ScalarInt (u64_as_i64 implementation_generation))
      (with_evidence "checkpoint_generation" (ScalarInt (u64_as_i64 (tc_implementation_generation c)))
      (with_evidence "checkpoint_sequence" (ScalarInt (u64_as_i64 (tc_sequence c)))
        (MkRuntimeError (e_code e) (e_source e) (e_route e) (e_lost_capability e)
           (Some "restart_from_input_or_reject") (e_cause e) (e_evidence e))))).

Definition restart_from_input (c : TaskCheckpoint) : Task := into_local_task (tc_task c).

(** ** What checkpoints promise *)

Lemma clear_runtime_attempt_idemp task : clear_runtime_attempt (clear_runtime_attempt task) = clear_runtime_attempt task.
Proof. done. Qed.

Lemma checkpoint_new_consistent schema generation sequence p payload :
  has_supported_envelope p = true → is_self_consistent (checkpoint_new schema generation sequence p payload) = true.
Proof. intros Hp. unfold is_self_consistent. cbn. by rewrite Hp, !bool_decide_eq_true_2. Qed.

(** a checkpoint taken of a task on one host is accepted on another exactly
    for the same task schema, implementation generation and input content, and
    refused otherwise with both generations in the error; restarting it gives
    the original task with its lease, generation and sequence number, which
    belong to the attempt, cleared and everything else kept. *)
Theorem checkpoint_restores_exactly task task_schema content capability resources schema generation sequence payload :
  let c := checkpoint_new schema generation sequence
             (with_resources (portable_task_new task task_schema content capability) resources) payload in
  (∀ task_schema' generation' content',
     match validate_restore c task_schema' generation' content' with
     | Ok _ => task_schema' = task_schema ∧ generation' = generation ∧ content' = content
     | Err e => ¬ (task_schema' = task_schema ∧ generation' = generation ∧ content' = content) ∧
         e_code e = ERR_CHECKPOINT_INCOMPATIBLE ∧
         e_evidence e !! "checkpoint_generation" = Some (ScalarInt (u64_as_i64 generation)) ∧
         e_evidence e !! "requested_generation" = Some (ScalarInt (u64_as_i64 generation'))
     end) ∧
  restart_from_input c = task <| t_lease_id := None |> <| t_registry_generation := 0%N |> <| t_created_sequence := 0%N |>.
Proof.
  cbv zeta. split; [|done]. intros task_schema' generation' content'. unfold validate_restore, checkpoint_is_compatible_with.
  rewrite checkpoint_new_consistent by done.
  cbn [andb checkpoint_new with_resources portable_task_new tc_task_schema tc_implementation_generation
    tc_input_content_id pt_task_schema pt_input_content_id].
  destruct (decide (task_schema = task_schema')), (decide (generation = generation')), (decide (content = content'));
    subst; rewrite ?(bool_decide_eq_true_2 (_ = _)), ?bool_decide_eq_false_2 by done; cbn [andb];
    split_and!; try done; intros (? & ? & ?); congruence.
Qed.
End Portable.
