(* ===== verification/HostErrors.v ===== *)
(** * Failures of the host

    crates/mutsuki-runtime-host/src/error.rs: the errors the host crate
    reports, and the names [{:?}] prints for the enumerations in them.

    Below, the text operations of the resolver. *)

From Stdlib Require Import Ascii.
From S2P Require Import Prelude Contracts RunnerContracts PluginContracts.

Definition ERR_PLUGIN_NOT_FOUND : string := "plugin.not_found".
Definition ERR_PLUGIN_DISABLED : string := "plugin.disabled".

(** The derived [Debug] of enumerations without fields. *)
Definition debug_deployment (d : PluginDeploymentKind) : string :=
  match d with
  | DeployBuiltin => "Builtin" | DeployAbi => "Abi" | DeployWasm => "Wasm"
  | DeployProcess => "Process" | DeployPython => "Python"
  end.

Definition debug_execution_class (c : ExecutionClass) : string :=
  match c with
  | ClassControl => "Control" | Orchestration => "Orchestration" | Io => "Io"
  | Cpu => "Cpu" | Blocking => "Blocking" | Script => "Script"
  end.

Definition debug_profile_mode (m : RuntimeProfileMode) : string :=
  match m with
  | FullDev => "FullDev" | ExtensibleRuntime => "ExtensibleRuntime"
  | BuiltinOnly => "BuiltinOnly" | LockedBuiltin => "LockedBuiltin"
  end.

Definition debug_overflow_policy (p : ObservabilityOverflowPolicy) : string :=
  match p with DropOldest => "DropOldest" | DropNew => "DropNew" end.

Definition debug_extension_kind (k : HostExtensionKind) : string :=
  match k with
  | ExtPluginBackend => "PluginBackend" | ExtBridge => "Bridge" | ExtCodec => "Codec"
  | ExtTraceSink => "TraceSink" | ExtSchedulerPolicy => "SchedulerPolicy"
  | ExtPermissionPolicy => "PermissionPolicy" | ExtResourcePlanGateway => "ResourcePlanGateway"
  end.

Definition debug_semantic (s : ResourceSemantic) : string :=
  match s with
  | FrozenValue => "FrozenValue" | VersionedSnapshot => "VersionedSnapshot"
  | ReadOnlyFact => "ReadOnlyFact" | CowVersionedState => "CowVersionedState"
  | CapabilityResource => "CapabilityResource" | StreamResource => "StreamResource"
  | TransactionResource => "TransactionResource"
  end.

Definition display_bool (b : bool) : string := if b then "true" else "false".

Definition host_failure (route detail : string) : RuntimeError :=
  with_evidence "detail" (ScalarString detail)
    (runtime_error ERR_RUNTIME_HOST_FAILED "runtime.host" route).

Definition plugin_not_found (plugin_id : string) : RuntimeError :=
  with_evidence "plugin_id" (ScalarString plugin_id)
    (runtime_error ERR_PLUGIN_NOT_FOUND "runtime.host" ("host.plugin." +:+ plugin_id)).

Definition insert_plugin_and_runner (e : RuntimeError) (plugin_id runner_id : string) : RuntimeError :=
  with_evidence "runner_id" (ScalarString runner_id)
    (with_evidence "plugin_id" (ScalarString plugin_id) e).

Definition runner_for_disabled_plugin (plugin_id runner_id : string) : RuntimeError :=
  insert_plugin_and_runner
    (runtime_error ERR_PLUGIN_DISABLED "runtime.host" ("host.plugin.runner_disabled." +:+ runner_id))
    plugin_id runner_id.

Definition deployment_mismatch (route plugin_id : string) (actual expected : PluginDeploymentKind) : RuntimeError :=
  with_evidence "expected_deployment" (ScalarString (debug_deployment expected))
    (with_evidence "actual_deployment" (ScalarString (debug_deployment actual))
      (with_evidence "plugin_id" (ScalarString plugin_id)
        (runtime_error ERR_REGISTRY_UNAUTHORIZED "runtime.host" (route +:+ "." +:+ plugin_id)))).

Definition required_capability_missing (capability : string) : RuntimeError :=
  with_evidence "capability" (ScalarString capability)
    (runtime_error ERR_REGISTRY_UNAUTHORIZED "runtime.host"
       ("host.plugin.required_capability_missing." +:+ capability)).

Definition capability_version_mismatch (capability constraint : string) (actual_version : option string) : RuntimeError :=
  let e := with_evidence "version_constraint" (ScalarString constraint)
    (with_evidence "capability" (ScalarString capability)
      (runtime_error ERR_REGISTRY_UNAUTHORIZED "runtime.host"
         ("host.plugin.capability_version_mismatch." +:+ capability))) in
  match actual_version with
  | Some actual_version => with_evidence "actual_version" (ScalarString actual_version) e
  | None => e
  end.

Definition capability_provider_missing (capability : string) : RuntimeError :=
  with_evidence "capability" (ScalarString capability)
    (runtime_error ERR_REGISTRY_UNAUTHORIZED "runtime.host"
       ("host.plugin.capability_provider_missing." +:+ capability)).

Definition resource_provider_missing (provider_id : string) : RuntimeError :=
  with_evidence "provider_id" (ScalarString provider_id)
    (runtime_error ERR_REGISTRY_UNAUTHORIZED "runtime.host"
       ("host.plugin.resource_provider_missing." +:+ provider_id)).

Definition resource_provider_duplicate (provider_id : string) : RuntimeError :=
  with_evidence "provider_id" (ScalarString provider_id)
    (runtime_error ERR_REGISTRY_UNAUTHORIZED "runtime.host"
       ("host.plugin.resource_provider_duplicate." +:+ provider_id)).

Definition resource_provider_unsupported (detail : string) : RuntimeError :=
  with_evidence "detail" (ScalarString detail)
    (runtime_error ERR_REGISTRY_UNAUTHORIZED "runtime.host" "host.plugin.resource_provider_unsupported").

Definition capability_pruned (capability : string) : RuntimeError :=
  with_evidence "detail" (ScalarString "inactive_load_plan")
    (with_evidence "capability" (ScalarString capability)
      (runtime_error ERR_REGISTRY_UNAUTHORIZED "runtime.host" ("host.plugin.capability_pruned." +:+ capability))).

Definition capability_incompatible (capability detail : string) : RuntimeError :=
  with_evidence "detail" (ScalarString detail)
    (with_evidence "capability" (ScalarString capability)
      (runtime_error ERR_REGISTRY_UNAUTHORIZED "runtime.host"
         ("host.plugin.capability_incompatible." +:+ capability))).

Definition permission_unauthorized (plugin_id permission_kind permission : string) : RuntimeError :=
  with_evidence "permission" (ScalarString permission)
    (with_evidence "permission_kind" (ScalarString permission_kind)
      (with_evidence "plugin_id" (ScalarString plugin_id)
        (runtime_error ERR_REGISTRY_UNAUTHORIZED "runtime.host"
           ("host.plugin.permission_unauthorized." +:+ plugin_id +:+ "." +:+ permission_kind)))).

Definition runner_binding_invalid (protocol_id runner_id detail : string) : RuntimeError :=
  with_evidence "detail" (ScalarString detail)
    (with_evidence "runner_id" (ScalarString runner_id)
      (with_evidence "protocol_id" (ScalarString protocol_id)
        (runtime_error ERR_REGISTRY_UNAUTHORIZED "runtime.host"
           ("host.plugin.runner_binding_invalid." +:+ protocol_id)))).

Definition runner_missing_for_deployment (plugin_id runner_id : string) (deployment : PluginDeploymentKind) : RuntimeError :=
  with_evidence "deployment" (ScalarString (debug_deployment deployment))
    (insert_plugin_and_runner
      (runtime_error ERR_RUNNER_NOT_FOUND "runtime.host" ("host.plugin.runner_missing." +:+ runner_id))
      plugin_id runner_id).

(** ** Text operations of the resolver

    The [str] methods the host's resolver uses (strip_prefix, split_once,
    rsplit_once, split, parse::<u64>, join), and computations that may panic or
    fail. *)

(** ** Functions that panic or return a [RuntimeResult] *)

Definition P (A : Type) : Type := option (RuntimeResult A).

Definition pok {A} (a : A) : P A := Some (Ok a).
Definition perr {A} (e : RuntimeError) : P A := Some (Err e).
Definition pbind {A B} (c : P A) (k : A → P B) : P B :=
  match c with
  | Some (Ok a) => k a
  | Some (Err e) => Some (Err e)
  | None => None
  end.

Notation "'letp?' x := c 'in' k" := (pbind c (λ x, k))
  (at level 10, x binder, c at level 100, k at level 200) : mutsuki_scope.

(** [for x in l { s = body(x, s)?; }] *)
Fixpoint pfold {A S} (body : A → S → P S) (l : list A) (s : S) : P S :=
  match l with
  | [] => pok s
  | x :: l => letp? s := body x s in pfold body l s
  end.

Lemma pbind_ok {A B} (c : P A) (k : A → P B) b : pbind c k = Some (Ok b) → ∃ a, c = Some (Ok a) ∧ k a = Some (Ok b).
Proof. destruct c as [[a|e]|]; cbn; [eauto|done..]. Qed.

Lemma pbind_total {A B} (c : P A) (k : A → P B) :
  c ≠ None → (∀ a, c = Some (Ok a) → k a ≠ None) → pbind c k ≠ None.
Proof. destruct c as [[a|e]|]; cbn; auto. Qed.

(** An invariant of the state that every step keeps holds of the final state. *)
Lemma pfold_inv {A S} (I : S → Prop) (body : A → S → P S) l s s' :
  (∀ x s s', x ∈ l → I s → body x s = Some (Ok s') → I s') → I s → pfold body l s = Some (Ok s') → I s'.
Proof.
  revert s. induction l as [|x l IH]; intros s Hstep HI; cbn; [by intros [= <-]|].
  intros (s1 & H1 & H2)%pbind_ok. eapply IH; [|by eapply Hstep; [left|..]|done].
  intros y t t' Hy. apply Hstep. by right.
Qed.

(** ** Splitting text *)

Definition join (sep : string) (l : list string) : string := String.concat sep l.

Fixpoint strip_prefix (p s : string) : option string :=
  match p, s with
  | EmptyString, _ => Some s
  | String a p, String b s => if decide (a = b) then strip_prefix p s else None
  | String _ _, EmptyString => None
  end.

Definition starts_with (s p : string) : bool := bool_decide (is_Some (strip_prefix p s)).

Fixpoint split_once (c : ascii) (s : string) : option (string * string) :=
  match s with
  | EmptyString => None
  | String a s =>
      if decide (a = c) then Some (EmptyString, s)
      else match split_once c s with Some (x, y) => Some (String a x, y) | None => None end
  end.

Fixpoint rsplit_once (c : ascii) (s : string) : option (string * string) :=
  match s with
  | EmptyString => None
  | String a s =>
      match rsplit_once c s with
      | Some (x, y) => Some (String a x, y)
      | None => if decide (a = c) then Some (EmptyString, s) else None
      end
  end.

(** [split(c)]: the pieces between the occurrences of [c], at least one. *)
Fixpoint split_on (c : ascii) (s : string) : list string :=
  match s with
  | EmptyString => [EmptyString]
  | String a s =>
      let rest := split_on c s in
      if decide (a = c) then EmptyString :: rest
      else match rest with
           | piece :: rest => String a piece :: rest
           | [] => [String a EmptyString]
           end
  end.

Definition contains_char (c : ascii) (s : string) : bool := bool_decide (is_Some (split_once c s)).

(** ** [parse::<u64>] *)

Definition digit_value (a : ascii) : option N :=
  let n := N_of_ascii a in
  if decide (48 ≤ n ≤ 57)%N then Some (n - 48)%N else None.

Fixpoint parse_digits (acc : N) (s : string) : option N :=
  match s with
  | EmptyString => Some acc
  | String a s =>
      match digit_value a with
      | None => None
      | Some d =>
          let acc := (acc * 10 + d)%N in
          if decide (acc ≤ u64_max)%N then parse_digits acc s else None
      end
  end.

Definition parse_u64 (s : string) : option N :=
  match s with
  | EmptyString => None
  | String a rest =>
      if decide (a = "+"%char) then
        match rest with EmptyString => None | _ => parse_digits 0 rest end
      else parse_digits 0 s
  end.

Lemma strip_prefix_spec p s r : strip_prefix p s = Some r ↔ s = p +:+ r.
Proof.
  revert s. induction p as [|a p IH]; intros s; cbn.
  - split; [by intros [= ->]|by intros ->].
  - destruct s as [|b s]; [done|]. case_decide as Hab.
    + subst. rewrite IH. split; [by intros ->|by intros [= ->]].
    + split; [done|]. by intros [= -> _].
Qed.

(** The string does not have the character. *)
Definition absent (c : ascii) (s : string) : Prop := ∀ x y, s ≠ x +:+ String c y.

Lemma absent_nil c : absent c "".
Proof. by intros [|] y. Qed.

Lemma absent_cons c a s : a ≠ c → absent c s → absent c (String a s).
Proof. intros Ha Hs [|b x] y; [by intros [=]|]. intros [= _ E]. by apply (Hs x y). Qed.

Lemma rsplit_once_None c s : rsplit_once c s = None → absent c s.
Proof.
  induction s as [|a s IH]; cbn; [intros _; apply absent_nil|].
  destruct (rsplit_once c s) as [[u v]|]; [done|]. case_decide; [done|]. intros _. by apply absent_cons, IH.
Qed.

Lemma rsplit_once_spec c s x y : rsplit_once c s = Some (x, y) → s = x +:+ String c y ∧ absent c y.
Proof.
  revert x y. induction s as [|a s IH]; intros x y; cbn; [done|].
  destruct (rsplit_once c s) as [[u v]|] eqn:E.
  - intros [= <- <-]. cbn. destruct (IH u v eq_refl) as [-> Hv]. done.
  - case_decide; [|done]. intros [= <- <-]. subst. split; [done|]. by apply rsplit_once_None.
Qed.

Lemma split_once_None c s : split_once c s = None → absent c s.
Proof.
  induction s as [|a s IH]; cbn; [intros _; apply absent_nil|]. case_decide; [done|].
  destruct (split_once c s) as [[u v]|]; [done|]. intros _. by apply absent_cons, IH.
Qed.

Lemma split_once_spec c s x y : split_once c s = Some (x, y) → s = x +:+ String c y ∧ absent c x.
Proof.
  revert x y. induction s as [|a s IH]; intros x y; cbn; [done|]. case_decide.
  - intros [= <- <-]. subst. split; [done|]. apply absent_nil.
  - destruct (split_once c s) as [[u v]|]; [|done]. intros [= <- <-]. destruct (IH u v eq_refl) as [-> Hu].
    split; [done|]. by apply absent_cons.
Qed.

Lemma contains_char_absent c s : contains_char c s = false → absent c s.
Proof. intros H%bool_decide_eq_false_1. apply split_once_None. by apply eq_None_not_Some. Qed.
