(* ===== verification/HostScheduler.v ===== *)
(** * The host's scheduler

    crates/mutsuki-runtime-host/src/scheduler.rs: how much of its ready work a
    runner may take now.  The policy is a trait object of the embedding
    program and may decide anything; its decision is clamped to what the
    runner, its limits and the worker pool leave. *)

From Stdlib Require Import SpecFloat.
From S2P Require Import Prelude Contracts RunnerContracts TaskClaiming HostErrors.

(** [Duration]s are nanoseconds. *)
Record RunnerLimits : Type := MkRunnerLimits {
  lim_max_running : N;
  lim_max_waiting : N;
  lim_max_inflight : N;
  lim_deadline_ticks : option N;
  lim_wall_clock_deadline : option N
}.

Definition default_runner_limits : RunnerLimits := MkRunnerLimits 128 256 256 None None.

Record HostCapacity : Type := MkHostCapacity {
  hc_running_batches : N;
  hc_queued_batches : N;
  hc_max_running_batches : N;
  hc_running_entries : N;
  hc_queued_entries : N;
  hc_saturation : spec_float;
  hc_preferred_batch_size : N;
  hc_max_entry_concurrency : N;
  hc_max_inflight_bytes : N
}.

(** [PoolCapacitySnapshot] of worker.rs *)
Record PoolCapacitySnapshot : Type := MkPoolCapacitySnapshot {
  pcs_active_threads : N;
  pcs_queued_batches : N;
  pcs_queued_entries : N;
  pcs_running_batches : N;
  pcs_running_entries : N;
  pcs_inflight_bytes : N;
  pcs_max_inflight_bytes : N
}.

Definition PoolCapacitySnapshot_default : PoolCapacitySnapshot := MkPoolCapacitySnapshot 0 0 0 0 0 0 0.

Section Scheduler.
Context `{SJ : SerdeJson}.

Record ScheduleInput : Type := MkScheduleInput {
  si_runner : RunnerDescriptor;
  si_load : RunnerLoad;
  si_limits : RunnerLimits;
  si_host_capacity : HostCapacity;
  si_pool_slots : N;
  si_hard_capacity : N;
  si_hard_batch_capacity : N;
  si_current_step : N;
  si_registry_generation : N
}.

(** [dyn SchedulerPolicy] *)
Definition SchedulerPolicy : Type := ScheduleInput → RuntimeResult ScheduleDecision.

Definition DefaultScheduler_decide : SchedulerPolicy := λ input,
  let reason := if decide (si_hard_capacity input = 0%N) then "capacity.exhausted" else "capacity.available" in
  Ok (with_budget (ScheduleDecision_new "host.default" (si_hard_capacity input) reason)
        {| db_max_entries := si_hard_capacity input;
           db_max_batches := si_hard_batch_capacity input;
           db_max_bytes := usize_max;
           db_lane_budget := ∅ |}).

(** [n as f32] for a [usize], and [f32::min] for numbers that are not NaN *)
Definition usize_as_f32 (n : N) : spec_float := binary_normalize 24 128 (Z.of_N n) 0 false.
Definition f32_min (a b : spec_float) : spec_float := if SFltb b a then b else a.

(** The sum of the two entry counters overflows only if they do not fit a
    [usize]; [None] is that panic. *)
Definition host_capacity (descriptor : RunnerDescriptor) (limits : RunnerLimits)
    (pool : PoolCapacitySnapshot) : option HostCapacity :=
  let max_inflight_entries := N.max (lim_max_inflight limits) 1 in
  if decide (pcs_running_entries pool + pcs_queued_entries pool ≤ usize_max)%N then
    Some {|
      hc_running_batches := pcs_running_batches pool;
      hc_queued_batches := pcs_queued_batches pool;
      hc_max_running_batches := pcs_active_threads pool;
      hc_running_entries := pcs_running_entries pool;
      hc_queued_entries := pcs_queued_entries pool;
      hc_saturation := f32_min
        (SFdiv 24 128 (usize_as_f32 (pcs_running_entries pool + pcs_queued_entries pool))
                      (usize_as_f32 max_inflight_entries))
        (usize_as_f32 1);
      hc_preferred_batch_size := N.max (bc_preferred_batch_size (d_batch descriptor)) 1;
      hc_max_entry_concurrency :=
        N.min (N.min (bc_max_entry_concurrency (d_batch descriptor)) (bc_max_batch_entries (d_batch descriptor)))
              (N.max (lim_max_inflight limits) 1);
      hc_max_inflight_bytes := saturating_sub (pcs_max_inflight_bytes pool) (pcs_inflight_bytes pool)
    |}
  else None.

Definition standard_dispatch_capacity (descriptor : RunnerDescriptor) (load : RunnerLoad)
    (limits : RunnerLimits) (pool_slots running_batches max_batch_entries : N) : N * N :=
  let maximum_batches := N.min (max_inflight_batches (d_concurrency descriptor)) (lim_max_running limits) in
  let available_batches := N.min (saturating_sub maximum_batches running_batches) pool_slots in
  let exclusive_blocked :=
    match d_concurrency descriptor with
    | Exclusive => bool_decide (0 < saturating_add (ld_running_count load) (ld_waiting_count load))%N
    | _ => false
    end in
  if bool_decide (available_batches = 0%N) || exclusive_blocked
     || bool_decide (lim_max_waiting limits ≤ ld_waiting_count load)%N
  then (0, 0)%N
  else
    let inflight := saturating_add (ld_running_count load) (ld_waiting_count load) in
    let descriptor_entries :=
      match d_concurrency descriptor with
      | Reentrant _ max_inflight_entries => max_inflight_entries
      | _ => saturating_mul max_batch_entries maximum_batches
      end in
    let available_entries :=
      N.min (saturating_sub (N.min descriptor_entries (lim_max_inflight limits)) inflight)
            (saturating_mul max_batch_entries available_batches) in
    if decide (available_entries = 0%N) then (0, 0)%N
    else (available_entries, N.min available_batches available_entries).

Definition hard_dispatch_capacity (descriptor : RunnerDescriptor) (load : RunnerLoad)
    (limits : RunnerLimits) (pool_slots running_batches : N) : N * N :=
  if decide (d_execution_class descriptor = ClassControl) then
    if decide (d_runner_id descriptor = "core.kernel") then (1, 1)%N else (0, 0)%N
  else
    standard_dispatch_capacity descriptor load limits pool_slots running_batches
      (bc_max_batch_entries (d_batch descriptor)).

Definition decide_schedule (descriptor : RunnerDescriptor) (load : RunnerLoad)
    (current_step registry_generation : N) (limits : RunnerLimits) (pool_slots : N)
    (pool_capacity : PoolCapacitySnapshot) (running_batches : N) (policy : SchedulerPolicy) :
    option (RuntimeResult ScheduleDecision) :=
  let '(hard_capacity, hard_batch_capacity) :=
    hard_dispatch_capacity descriptor load limits pool_slots running_batches in
  match host_capacity descriptor limits pool_capacity with
  | None => None
  | Some host_capacity =>
      let input := {|
        si_runner := descriptor; si_load := load; si_limits := limits;
        si_host_capacity := host_capacity; si_pool_slots := pool_slots;
        si_hard_capacity := hard_capacity; si_hard_batch_capacity := hard_batch_capacity;
        si_current_step := current_step; si_registry_generation := registry_generation |} in
      Some (
        letr? decision := policy input in
        let decision := decision_clamp_batches (decision_clamp_to decision hard_capacity) hard_batch_capacity in
        Ok (decision <| dec_budget ::= λ budget, budget <| db_max_bytes ::= λ n,
              N.min n (saturating_sub (pcs_max_inflight_bytes pool_capacity) (pcs_inflight_bytes pool_capacity)) |> |>))
  end.

Definition validate_runner_limit (scope : string) (limits : RunnerLimits) : RuntimeResult unit :=
  if bool_decide (0 < lim_max_running limits)%N && bool_decide (0 < lim_max_inflight limits)%N then Ok tt
  else Err (with_evidence "configured_max_inflight" (ScalarInt (u64_as_i64 (lim_max_inflight limits)))
    (with_evidence "configured_max_running" (ScalarInt (u64_as_i64 (lim_max_running limits)))
      (runtime_error ERR_REGISTRY_UNAUTHORIZED "runtime.host"
         ("host.runner_limits." +:+ scope +:+ ".max_running")))).

Fixpoint validate_each_limit (limits : list (string * RunnerLimits)) : RuntimeResult unit :=
  match limits with
  | [] => Ok tt
  | (runner_id, l) :: limits =>
      letr? _ := validate_runner_limit runner_id l in
      validate_each_limit limits
  end.

Definition validate_runner_limits (default_limits : RunnerLimits) (runner_limits : gmap string RunnerLimits) :
    RuntimeResult unit :=
  letr? _ := validate_runner_limit "default" default_limits in
  validate_each_limit (sort_by_str fst (map_to_list runner_limits)).

(** ** What a decision respects *)

Lemma clamp_batches_bounds d hard hard_batches :
  let d' := decision_clamp_batches (decision_clamp_to d hard) hard_batches in
  (dec_dispatch_limit d' ≤ hard)%N ∧ (db_max_entries (dec_budget d') ≤ hard)%N ∧
  (db_max_batches (dec_budget d') ≤ hard_batches)%N ∧
  ((0 < dec_dispatch_limit d')%N → (0 < db_max_batches (dec_budget d'))%N).
Proof.
  unfold decision_clamp_batches, decision_clamp_to, budget_clamp_batches, budget_clamp_to. cbn.
  repeat (case_match; cbn in *); rewrite ?N.eqb_eq, ?N.eqb_neq in *; split_and!; lia.
Qed.

Lemma clamp_default id reason e b bytes lanes : (0 < b ≤ e)%N →
  let d := decision_clamp_batches (decision_clamp_to (with_budget (ScheduleDecision_new id e reason)
             (MkDispatchBudget e b bytes lanes)) e) b in
  dec_dispatch_limit d = e ∧ db_max_batches (dec_budget d) = b.
Proof.
  intros Hb. unfold decision_clamp_batches, decision_clamp_to, budget_clamp_batches, budget_clamp_to, with_budget. cbn.
  repeat (case_match; cbn in *); rewrite ?N.eqb_eq, ?N.eqb_neq in *; split; lia.
Qed.

(** The grants of [entries] in [batches] that every limit admits, in exact
    arithmetic: the kernel runner takes one entry at a time and no other control
    runner takes any; elsewhere the batches fit the free slots and, with those
    running, the declared and the configured number; the entries fit the batches
    that are free and, with what is running and waiting, the configured and the
    declared number in flight; the waiting are below their limit, and an
    exclusive runner has nothing running or waiting. *)
Definition admissible (descriptor : RunnerDescriptor) (load : RunnerLoad) (limits : RunnerLimits)
    (slots running entries batches : N) : Prop :=
  let per_batch := bc_max_batch_entries (d_batch descriptor) in
  let most_batches := N.min (max_inflight_batches (d_concurrency descriptor)) (lim_max_running limits) in
  let inflight := (ld_running_count load + ld_waiting_count load)%N in
  if decide (d_execution_class descriptor = ClassControl) then
    d_runner_id descriptor = "core.kernel" ∧ (entries ≤ 1)%N ∧ (batches ≤ 1)%N
  else
    (batches ≤ slots)%N ∧ (running + batches ≤ most_batches)%N ∧
    (entries ≤ per_batch * N.min slots (most_batches - running))%N ∧
    (inflight + entries ≤ lim_max_inflight limits)%N ∧
    (ld_waiting_count load < lim_max_waiting limits)%N ∧
    match d_concurrency descriptor with
    | Exclusive => inflight = 0%N ∧ (entries ≤ per_batch * most_batches)%N
    | Reentrant _ declared => (inflight + entries ≤ declared)%N
    | Sharded _ => (inflight + entries ≤ per_batch * most_batches)%N
    end.

(** The capacity is the largest admissible grant. *)
Lemma capacity_admissible descriptor load limits slots running :
  (lim_max_inflight limits ≤ usize_max)%N →
  let '(e, b) := hard_dispatch_capacity descriptor load limits slots running in
  ((0 < e)%N → (0 < b ≤ e)%N ∧
    ∀ e' b', (e' ≤ e)%N → (b' ≤ b)%N → admissible descriptor load limits slots running e' b') ∧
  ∀ e' b', (0 < b' ≤ e')%N → admissible descriptor load limits slots running e' b' → (e' ≤ e)%N ∧ (b' ≤ b)%N.
Proof.
  intros Hlim. unfold hard_dispatch_capacity, admissible. cbv zeta. destruct (decide (_ = ClassControl)).
  { case_decide; (split; [intros ?|]); [split; [lia|]; intros; split_and!; [done|lia..]|..];
      [intros e' b' ? (_ & ? & ?); lia|lia|intros e' b' ? (? & _); done]. }
  unfold standard_dispatch_capacity. change usize_max with u64_max in Hlim. cbv zeta.
  unfold saturating_add, saturating_sub, saturating_mul in *. generalize dependent u64_max. intros U Hlim.
  set (M := bc_max_batch_entries _). set (mb := N.min _ (lim_max_running limits)).
  destruct (bool_decide (_ = 0%N)) eqn:Ha; cbn [orb].
  { apply bool_decide_eq_true in Ha. split; [lia|]. intros e' b' ? (? & ? & _). lia. }
  apply bool_decide_eq_false in Ha. set (avail := N.min (mb - running) slots) in *.
  replace (N.min slots (mb - running)) with avail by lia.
  destruct (d_concurrency descriptor) as [|declared_batches declared|k]; cbn [orb];
    repeat match goal with |- context [bool_decide ?P] => destruct (bool_decide_reflect P); cbn [orb] end;
    try (split; [lia|]; intros e' b' ? (? & ? & ? & ? & ? & ?); lia);
    (case_decide; [split; [lia|]; intros e' b' ? (? & ? & ? & ? & ? & ?); exfalso; lia|]);
    (split; [intros _; split; [lia|]; intros; split_and!; lia|]; intros e' b' ? (? & ? & ? & ? & ? & ?); lia).
Qed.

(** C35: a decision is within every limit, and the default one uses them up.
    Whatever the scheduling policy answers, a decision that grants entries is
    admissible for the runner - the kernel runner included - with at least one
    batch and never more bytes than the pool has left; the default policy grants
    the largest admissible number of entries and of batches, so it grants
    nothing exactly when nothing is admissible. *)
Theorem schedule_within_capacity descriptor load step generation limits slots pool running policy decision :
  (lim_max_inflight limits ≤ usize_max)%N →
  decide_schedule descriptor load step generation limits slots pool running policy = Some (Ok decision) →
  let granted := dec_dispatch_limit decision in
  let batches := db_max_batches (dec_budget decision) in
  ((0 < granted)%N → (0 < batches)%N ∧ admissible descriptor load limits slots running granted batches) ∧
  (db_max_bytes (dec_budget decision) ≤ pcs_max_inflight_bytes pool - pcs_inflight_bytes pool)%N ∧
  (policy = DefaultScheduler_decide →
   ∀ e b, (0 < b ≤ e)%N → admissible descriptor load limits slots running e b → (e ≤ granted)%N ∧ (b ≤ batches)%N).
Proof.
  intros Hlim Hdec. unfold decide_schedule in Hdec.
  pose proof (capacity_admissible descriptor load limits slots running Hlim) as Hcap.
  destruct (hard_dispatch_capacity _ _ _ _ _) as [hard hard_batches]. destruct Hcap as [Hok Hmost].
  destruct (host_capacity _ _ _); [|done]. injection Hdec as Hdec.
  destruct (policy _) as [d|] eqn:Hp; [|done]. cbn in Hdec. injection Hdec as <-.
  destruct (clamp_batches_bounds d hard hard_batches) as (Hl & _ & Hb & Hz). cbn.
  split_and!.
  - intros Hpos. specialize (Hz Hpos). split; [done|]. apply Hok; lia.
  - unfold saturating_sub. lia.
  - intros ->. unfold DefaultScheduler_decide in Hp. injection Hp as <-. intros e b He Hadm.
    destruct (Hmost e b He Hadm) as [H1 H2]. destruct Hok as [Hb0 _]; [lia|].
    destruct (clamp_default "host.default" (if decide (hard = 0%N) then "capacity.exhausted" else "capacity.available")
      hard hard_batches usize_max ∅ Hb0) as [E1 E2]. cbn in E1, E2. by rewrite E1, E2.
Qed.
End Scheduler.
