(* ===== verification/ResolverPlugins.v ===== *)
(** * Resolving plugins

    crates/mutsuki-runtime-host/src/resolver/plugins.rs: the plugins a profile
    enables, with their deployments, their protocol classes made explicit, and
    the runner that each protocol is bound to. *)

From S2P Require Import Prelude Contracts RunnerContracts PluginContracts Registry HostErrors.

Section Plugins.
Context `{SJ : SerdeJson}.

Record ResolvedPlugins : Type := MkResolvedPlugins {
  rp_manifests : list PluginManifest;
  rp_deployments : gmap string PluginDeploymentKind
}.

Definition protocol_class_error (manifest : PluginManifest) (protocol_id reason : string) : RuntimeError :=
  runtime_error ERR_REGISTRY_UNAUTHORIZED "host.load_plan.protocol_class"
    ("plugin." +:+ pm_plugin_id manifest +:+ ".protocol." +:+ protocol_id +:+ "." +:+ reason).

Definition legacy_protocol_class (protocol_id : string) : ProtocolClass :=
  if starts_with protocol_id "effect." then ProtocolEffect
  else if starts_with protocol_id "core." then ProtocolCore
  else ProtocolDomain.

Definition with_provides (manifest : PluginManifest) (provides : PluginProvides) : PluginManifest :=
  {| pm_plugin_id := pm_plugin_id manifest; pm_version := pm_version manifest;
     pm_api_version := pm_api_version manifest; pm_artifact := pm_artifact manifest;
     pm_provides := provides; pm_requires := pm_requires manifest;
     pm_permissions := pm_permissions manifest; pm_lifecycle := pm_lifecycle manifest;
     pm_metadata := pm_metadata manifest |}.

Definition with_runners_and_classes (p : PluginProvides) (runners : list RunnerDescriptor)
    (classes : gmap string ProtocolClass) : PluginProvides :=
  {| pv_runners := runners; pv_protocols := pv_protocols p; pv_protocol_classes := classes;
     pv_handler_bindings := pv_handler_bindings p; pv_resource_schemas := pv_resource_schemas p;
     pv_resource_providers := pv_resource_providers p; pv_resource_types := pv_resource_types p;
     pv_effects := pv_effects p; pv_streams := pv_streams p; pv_subscriptions := pv_subscriptions p;
     pv_timers := pv_timers p; pv_state_schemas := pv_state_schemas p;
     pv_host_extensions := pv_host_extensions p; pv_plugin_backends := pv_plugin_backends p;
     pv_codecs := pv_codecs p; pv_bridges := pv_bridges p;
     pv_scheduler_policies := pv_scheduler_policies p; pv_workflows := pv_workflows p |}.

Definition normalize_runner (runner : RunnerDescriptor) : RunnerDescriptor :=
  runner <| d_accepted_protocol_ids ::= λ ids, dedup (sort_strings ids) |>.

Definition known_protocols (provides : PluginProvides) : gset string :=
  list_to_set (proto_protocol_id <$> pv_protocols provides) ∪
  list_to_set (pv_runners provides ≫= d_accepted_protocol_ids) ∪
  list_to_set (pv_effects provides).

(** One round of [for protocol_id in known_protocols]. *)
Definition class_conflicts (manifest : PluginManifest) (protocol_id : string) (class : ProtocolClass) : bool :=
  (starts_with protocol_id "effect." && bool_decide (class ≠ ProtocolEffect))
  || (starts_with protocol_id "core." && negb (bool_decide (class = ProtocolCore) || bool_decide (class = ProtocolControl)))
  || (bool_decide (protocol_id ∈ pv_effects (pm_provides manifest)) && bool_decide (class ≠ ProtocolEffect)).

Definition normalize_class (manifest : PluginManifest) (protocol_id : string) (classes : gmap string ProtocolClass) :
    P (gmap string ProtocolClass) :=
  let class := match classes !! protocol_id with
               | Some class => class
               | None => legacy_protocol_class protocol_id
               end in
  if class_conflicts manifest protocol_id class
  then perr (protocol_class_error manifest protocol_id "canonical_conflict")
  else pok (<[protocol_id := class]> classes).

Definition check_runner_class (manifest : PluginManifest) (classes : gmap string ProtocolClass)
    (runner : RunnerDescriptor) (protocol_id : string) : P unit :=
  match classes !! protocol_id with
  | None => None
  | Some class =>
      let purity_matches := matches_purity (d_purity runner) class in
      let control_matches := bool_decide (class ≠ ProtocolControl) || bool_decide (d_execution_class runner = ClassControl) in
      if negb purity_matches || negb control_matches
      then perr (protocol_class_error manifest protocol_id ("runner." +:+ d_runner_id runner +:+ ".purity_conflict"))
      else pok tt
  end.

Definition check_runner_classes (manifest : PluginManifest) (classes : gmap string ProtocolClass)
    (runner : RunnerDescriptor) : P unit :=
  pfold (λ protocol_id _, check_runner_class manifest classes runner protocol_id) (d_accepted_protocol_ids runner) tt.

Definition normalize_protocol_classes (manifest : PluginManifest) : P PluginManifest :=
  let provides := pm_provides manifest in
  let runners := normalize_runner <$> pv_runners provides in
  let known := known_protocols (with_runners_and_classes provides runners (pv_protocol_classes provides)) in
  match List.find (λ id, negb (bool_decide (id ∈ known))) (sort_strings (map_to_list (pv_protocol_classes provides)).*1) with
  | Some unknown => perr (protocol_class_error manifest unknown "unknown_protocol")
  | None =>
      letp? classes := pfold (normalize_class manifest) (btree_elements known) (pv_protocol_classes provides) in
      letp? _ := pfold (λ runner _, check_runner_classes manifest classes runner) runners tt in
      pok (with_provides manifest (with_runners_and_classes provides runners classes))
  end.

(** [classes.insert(protocol_id, class)] for one entry of one manifest *)
Definition reject_conflict (manifest : PluginManifest) (entry : string * ProtocolClass)
    (classes : gmap string ProtocolClass) : P (gmap string ProtocolClass) :=
  let '(protocol_id, class) := entry in
  if is_some_and (classes !! protocol_id) (λ existing, negb (bool_decide (existing = class)))
  then perr (protocol_class_error manifest protocol_id "cross_plugin_conflict")
  else pok (<[protocol_id := class]> classes).

Definition reject_manifest_conflicts (manifest : PluginManifest) (classes : gmap string ProtocolClass) :
    P (gmap string ProtocolClass) :=
  pfold (reject_conflict manifest) (btree_entries (pv_protocol_classes (pm_provides manifest))) classes.

Definition reject_cross_plugin_protocol_class_conflicts (manifests : list PluginManifest) : P unit :=
  letp? _ := pfold reject_manifest_conflicts manifests ∅ in pok tt.

Definition deployment_for (profile : RuntimeProfile) (manifest : PluginManifest) : PluginDeploymentKind :=
  match prof_plugin_deployments profile !! pm_plugin_id manifest with
  | Some deployment => deployment
  | None => default_for_artifact (pa_artifact_type (pm_artifact manifest))
  end.

Definition ensure_deployment_matches_artifact (plugin_id : string) (deployment : PluginDeploymentKind)
    (artifact_type : ArtifactType) : P unit :=
  if is_compatible_with_artifact deployment artifact_type then pok tt
  else perr (deployment_mismatch "host.plugin.deployment_artifact_mismatch" plugin_id deployment
               (default_for_artifact artifact_type)).

Definition resolve_plugin (manifests : list PluginManifest) (profile : RuntimeProfile) (plugin_id : string)
    (resolved : ResolvedPlugins) : P ResolvedPlugins :=
  match List.find (λ manifest, bool_decide (pm_plugin_id manifest = plugin_id)) manifests with
  | None => perr (plugin_not_found plugin_id)
  | Some manifest =>
      let deployment := deployment_for profile manifest in
      letp? _ := ensure_deployment_matches_artifact plugin_id deployment (pa_artifact_type (pm_artifact manifest)) in
      letp? manifest := normalize_protocol_classes manifest in
      pok (MkResolvedPlugins (rp_manifests resolved ++ [manifest])
                             (<[plugin_id := deployment]> (rp_deployments resolved)))
  end.

Definition resolve_enabled_plugins (manifests : list PluginManifest) (profile : RuntimeProfile) : P ResolvedPlugins :=
  letp? resolved := pfold (resolve_plugin manifests profile) (prof_enabled_plugins profile) (MkResolvedPlugins [] ∅) in
  letp? _ := reject_cross_plugin_protocol_class_conflicts (rp_manifests resolved) in
  pok resolved.

(** ** Bindings *)

Definition manifest_runners (manifests : list PluginManifest) : list RunnerDescriptor :=
  manifests ≫= (λ m, pv_runners (pm_provides m)).

Definition validate_profile_binding (runners : list RunnerDescriptor) (protocol_id runner_id : string) : P unit :=
  match List.find (λ runner, bool_decide (d_runner_id runner = runner_id)) runners with
  | None => perr (runner_binding_invalid protocol_id runner_id "runner_not_enabled")
  | Some runner =>
      if negb (bool_decide (protocol_id ∈ d_accepted_protocol_ids runner))
      then perr (runner_binding_invalid protocol_id runner_id "protocol_not_accepted")
      else pok tt
  end.

Definition validate_profile_bindings (runner_bindings : gmap string string) (manifests : list PluginManifest) : P unit :=
  pfold (λ '(protocol_id, runner_id) _, validate_profile_binding (manifest_runners manifests) protocol_id runner_id)
    (btree_entries runner_bindings) tt.

Definition bind_default (runner_id : string) (bindings : gmap string string) (protocol_id : string) : gmap string string :=
  match bindings !! protocol_id with
  | Some _ => bindings
  | None => <[protocol_id := runner_id]> bindings
  end.

Definition bind_runner (bindings : gmap string string) (runner : RunnerDescriptor) : gmap string string :=
  foldl (bind_default (d_runner_id runner)) bindings (d_accepted_protocol_ids runner).

Definition runner_bindings (profile : RuntimeProfile) (manifests : list PluginManifest) : P (gmap string string) :=
  letp? _ := validate_profile_bindings (prof_bindings profile) manifests in
  pok (foldl bind_runner (prof_bindings profile) (manifest_runners manifests)).

Definition profile_hash (profile : RuntimeProfile) (deployment_count : N) (capability_graph : RuntimeCapabilityGraph) : string :=
  let o := prof_observability profile in
  "profile:" +:+ prof_profile_id profile +:+ ":" +:+ debug_profile_mode (prof_mode profile)
  +:+ ":" +:+ pretty (len (prof_enabled_plugins profile)) +:+ ":" +:+ pretty deployment_count
  +:+ ":" +:+ pretty (len (cg_active_capabilities capability_graph))
  +:+ ":events=" +:+ pretty (op_capacity (obs_events o))
  +:+ ":" +:+ debug_overflow_policy (op_overflow_policy (obs_events o))
  +:+ ":traces=" +:+ pretty (op_capacity (obs_traces o))
  +:+ ":" +:+ debug_overflow_policy (op_overflow_policy (obs_traces o))
  +:+ ":scheduler_details=" +:+ display_bool (obs_detailed_scheduler_decisions o)
  +:+ ":dispatch_spans=" +:+ display_bool (obs_dispatch_spans o).

Definition empty_provides : PluginProvides :=
  {| pv_runners := []; pv_protocols := []; pv_protocol_classes := ∅; pv_handler_bindings := [];
     pv_resource_schemas := []; pv_resource_providers := []; pv_resource_types := []; pv_effects := [];
     pv_streams := []; pv_subscriptions := []; pv_timers := []; pv_state_schemas := [];
     pv_host_extensions := []; pv_plugin_backends := []; pv_codecs := []; pv_bridges := [];
     pv_scheduler_policies := []; pv_workflows := [] |}.

Definition core_manifest (runner : RunnerDescriptor) : PluginManifest := {|
  pm_plugin_id := "core";
  pm_version := "0.1.0";
  pm_api_version := "mutsuki-plugin-v1";
  pm_artifact := MkPluginArtifact ArtifactNative "core" "sha256:core";
  pm_provides := with_runners_and_classes empty_provides [runner]
    (list_to_map ((λ protocol_id, (protocol_id, ProtocolCore)) <$> d_accepted_protocol_ids runner));
  pm_requires := [];
  pm_permissions := MkPermissionGrant [] [];
  pm_lifecycle := MkLifecyclePolicy "core" 0 true true true;
  pm_metadata := ∅
|}.
End Plugins.
