(* ===== verification/ResolverCapabilities.v ===== *)
(** * The capability graph

    crates/mutsuki-runtime-host/src/resolver/capabilities.rs: what the enabled
    plugins provide, require and are permitted, and which of it is active under
    the profile's mode.  The local variables of [capability_graph_for] are the
    fields of [Graph]. *)

From Stdlib Require Import Ascii.
From S2P Require Import Prelude Contracts RunnerContracts PluginContracts Registry HostErrors.

Record CapabilityProvider : Type := MkCapabilityProvider {
  cp_provider_plugin_id : string;
  cp_provider_version : option string;
  cp_surface_id : string
}.

Record CapabilityRequirement : Type := MkCapabilityRequirement {
  cr_raw : string;
  cr_capability : string;
  cr_version_constraint : option string
}.

Record Graph : Type := MkGraph {
  g_provided : gset string;
  g_active : gset string;
  g_providers : gmap string (list CapabilityProvider);
  g_resource_providers : gset string;
  g_host_extensions : gset string;
  g_plugin_backends : gset string;
  g_codecs : gset string;
  g_bridges : gset string;
  g_scheduler_policies : gset string;
  g_workflows : gset string
}.

Definition Graph_eta (r : Graph) : Graph :=
  {| g_provided := g_provided r; g_active := g_active r; g_providers := g_providers r;
     g_resource_providers := g_resource_providers r; g_host_extensions := g_host_extensions r;
     g_plugin_backends := g_plugin_backends r; g_codecs := g_codecs r; g_bridges := g_bridges r;
     g_scheduler_policies := g_scheduler_policies r; g_workflows := g_workflows r |}.
#[export] Instance set_g_provided : Setter g_provided := ltac:(derive_setter Graph_eta g_provided).
#[export] Instance set_g_active : Setter g_active := ltac:(derive_setter Graph_eta g_active).
#[export] Instance set_g_providers : Setter g_providers := ltac:(derive_setter Graph_eta g_providers).
#[export] Instance set_g_resource_providers : Setter g_resource_providers := ltac:(derive_setter Graph_eta g_resource_providers).
#[export] Instance set_g_host_extensions : Setter g_host_extensions := ltac:(derive_setter Graph_eta g_host_extensions).
#[export] Instance set_g_plugin_backends : Setter g_plugin_backends := ltac:(derive_setter Graph_eta g_plugin_backends).
#[export] Instance set_g_codecs : Setter g_codecs := ltac:(derive_setter Graph_eta g_codecs).
#[export] Instance set_g_bridges : Setter g_bridges := ltac:(derive_setter Graph_eta g_bridges).
#[export] Instance set_g_scheduler_policies : Setter g_scheduler_policies := ltac:(derive_setter Graph_eta g_scheduler_policies).
#[export] Instance set_g_workflows : Setter g_workflows := ltac:(derive_setter Graph_eta g_workflows).

Definition empty_graph : Graph := MkGraph ∅ ∅ ∅ ∅ ∅ ∅ ∅ ∅ ∅ ∅.

Definition cap (prefix id : string) : string := prefix +:+ ":" +:+ id.

(** ** Versions *)

Definition parse_version (version : string) : option (N * N * N) :=
  let part o := match o with Some p => p | None => "0" end in
  match split_on "."%char version with
  | [] => None
  | major :: rest =>
      major ← parse_u64 major;
      minor ← parse_u64 (part (rest !! 0));
      patch ← parse_u64 (part (rest !! 1));
      if decide (2 < length rest) then None else Some (major, minor, patch)
  end.

Fixpoint parse_operator (operators : list string) (constraint : string) : string * string :=
  match operators with
  | [] => ("=", constraint)
  | operator :: operators =>
      match strip_prefix operator constraint with
      | Some version => (operator, version)
      | None => parse_operator operators constraint
      end
  end.

Definition parse_version_constraint (constraint : string) : string * string :=
  parse_operator [">="; "<="; ">"; "<"; "="] constraint.

(** The lexicographic order of the derived [Ord] on triples *)
Definition version_compare (a b : N * N * N) : comparison :=
  let '(a1, a2, a3) := a in
  let '(b1, b2, b3) := b in
  match N.compare a1 b1 with
  | Eq => match N.compare a2 b2 with Eq => N.compare a3 b3 | c => c end
  | c => c
  end.

Definition version_matches_constraint (version constraint : string) : bool :=
  let '(operator, required_version) := parse_version_constraint constraint in
  match parse_version version, parse_version required_version with
  | Some actual, Some required =>
      let c := version_compare actual required in
      if decide (operator = "=") then bool_decide (c = Eq)
      else if decide (operator = ">") then bool_decide (c = Gt)
      else if decide (operator = ">=") then bool_decide (c ≠ Lt)
      else if decide (operator = "<") then bool_decide (c = Lt)
      else if decide (operator = "<=") then bool_decide (c ≠ Gt)
      else false
  | _, _ => false
  end.

Definition parse_requirement (raw : string) : CapabilityRequirement :=
  match rsplit_once "@"%char raw with
  | Some (capability, constraint) => MkCapabilityRequirement raw capability (Some constraint)
  | None => MkCapabilityRequirement raw raw None
  end.

Definition parse_requirements (required : gset string) : list CapabilityRequirement :=
  parse_requirement <$> btree_elements required.

(** ** Selecting a provider *)

(** The loop over the candidates; [None] when it ends without returning. *)
Fixpoint select_candidate (capability : string) (version_constraint : option string)
    (candidates : list CapabilityProvider) : option (RuntimeResult CapabilityProvider) :=
  match candidates with
  | [] => None
  | provider :: candidates =>
      match version_constraint with
      | None => Some (Ok provider)
      | Some constraint =>
          match cp_provider_version provider with
          | None => Some (Err (capability_version_mismatch capability constraint None))
          | Some version =>
              if version_matches_constraint version constraint then Some (Ok provider)
              else select_candidate capability version_constraint candidates
          end
      end
  end.

Definition max_string (a b : option string) : option string :=
  match a, b with
  | Some a, Some b => if decide (String.le a b) then Some b else Some a
  | Some a, None => Some a
  | None, b => b
  end.

Definition select_provider (capability : string) (version_constraint : option string)
    (providers : gmap string (list CapabilityProvider)) : P CapabilityProvider :=
  match providers !! capability with
  | None => perr (capability_provider_missing capability)
  | Some candidates =>
      match select_candidate capability version_constraint candidates with
      | Some r => Some r
      | None =>
          match version_constraint with
          | None => None
          | Some constraint => perr (capability_version_mismatch capability constraint
              (foldl max_string None (cp_provider_version <$> candidates)))
          end
      end
  end.

Definition select_provider_for_requirement (active_capability : string) (requirement : CapabilityRequirement)
    (providers : gmap string (list CapabilityProvider)) : P CapabilityProvider :=
  match select_provider active_capability (cr_version_constraint requirement) providers with
  | Some (Err failure) =>
      match cr_version_constraint requirement with
      | Some _ => perr failure
      | None => perr (required_capability_missing (cr_raw requirement))
      end
  | r => r
  end.

Definition active_capability_for_requirement (requirement : CapabilityRequirement)
    (active active_resource_providers : gset string) : option string :=
  let capability := cr_capability requirement in
  let strategy :=
    match strip_prefix "resource_strategy:" capability with
    | Some provider_id =>
        if decide (provider_id ∈ active_resource_providers) then Some (cap "resource_provider" provider_id) else None
    | None => None
    end in
  if decide (capability ∈ active) then Some capability
  else
    match strategy with
    | Some active_capability => Some active_capability
    | None =>
        if contains_char ":"%char capability then None
        else List.find (λ active_capability,
               match rsplit_once ":"%char active_capability with
               | Some (_, id) => bool_decide (id = capability)
               | None => false
               end) (btree_elements active)
    end.

Definition ensure_required_capabilities_are_active (requirements : list CapabilityRequirement)
    (active active_resource_providers : gset string) (providers : gmap string (list CapabilityProvider)) : P unit :=
  pfold (λ requirement _,
    match active_capability_for_requirement requirement active active_resource_providers with
    | None => perr (required_capability_missing (cr_raw requirement))
    | Some active_capability =>
        letp? _ := select_provider_for_requirement active_capability requirement providers in
        pok tt
    end) requirements tt.

Definition select_active (requirements : list CapabilityRequirement)
    (providers : gmap string (list CapabilityProvider)) (capability : string)
    (selections : list CapabilityProviderSelection) : P (list CapabilityProviderSelection) :=
  let matching_requirement :=
    List.find (λ requirement, bool_decide (cr_capability requirement = capability)) requirements in
  letp? provider :=
    match matching_requirement with
    | Some requirement => select_provider_for_requirement capability requirement providers
    | None => select_provider capability None providers
    end in
  pok (selections ++ [{|
    cps_capability := capability;
    cps_provider_plugin_id := cp_provider_plugin_id provider;
    cps_provider_version := cp_provider_version provider;
    cps_surface_id := cp_surface_id provider;
    cps_reason := match matching_requirement ≫= cr_version_constraint with
                  | Some _ => "required_version"
                  | None => "active_plan"
                  end |}]).

Definition active_capability_providers (active : gset string) (requirements : list CapabilityRequirement)
    (providers : gmap string (list CapabilityProvider)) : P (list CapabilityProviderSelection) :=
  pfold (select_active requirements providers) (btree_elements active) [].

(** ** Collecting what the manifests provide *)

Section Collect.
Context `{SJ : SerdeJson}.

Definition add_provider (manifest : PluginManifest) (prefix id : string) (provider_version : option string)
    (providers : gmap string (list CapabilityProvider)) : gmap string (list CapabilityProvider) :=
  let capability := cap prefix id in
  <[capability := default [] (providers !! capability) ++
      [MkCapabilityProvider (pm_plugin_id manifest) provider_version capability]]> providers.

Definition collect_provided_capability (manifest : PluginManifest) (prefix id : string)
    (provider_version : option string) (g : Graph) : Graph :=
  g <| g_provided ::= λ s, {[cap prefix id]} ∪ s |>
    <| g_providers ::= add_provider manifest prefix id provider_version |>.

Definition collect_active_capability (manifest : PluginManifest) (prefix id : string)
    (provider_version : option string) (g : Graph) : Graph :=
  collect_provided_capability manifest prefix id provider_version g
    <| g_active ::= λ s, {[cap prefix id]} ∪ s |>.

(** [for x in l { g = f(x, g) }] *)
Definition for_in {A} (l : list A) (f : A → Graph → Graph) (g : Graph) : Graph := foldl (λ g x, f x g) g l.

Definition collect_runner (manifest : PluginManifest) (runner : RunnerDescriptor) (g : Graph) : Graph :=
  for_in (d_accepted_protocol_ids runner)
    (λ protocol_id, collect_active_capability manifest "task_protocol" protocol_id None)
    (collect_active_capability manifest "runner" (d_runner_id runner)
       (Some (pretty (d_plugin_generation runner))) g).

Definition effect_protocols (provides : PluginProvides) : list string :=
  (filter (λ '(_, class), class = ProtocolEffect) (btree_entries (pv_protocol_classes provides))).*1.

Definition collect_resource_type (manifest : PluginManifest) (resource_type : ResourceTypeDescriptor) (g : Graph) : Graph :=
  let version := Some (rpc_schema_version (rt_compatibility resource_type)) in
  collect_active_capability manifest "resource_type" (rt_kind_id resource_type) version
    (collect_active_capability manifest "resource_schema" (rt_kind_id resource_type) version g).

Definition collect_base_capabilities (manifest : PluginManifest) (g : Graph) : Graph :=
  let provides := pm_provides manifest in
  let named prefix names := for_in names (λ name, collect_active_capability manifest prefix name None) in
  let g := collect_active_capability manifest "plugin" (pm_plugin_id manifest) (Some (pm_version manifest)) g in
  let g := for_in (pv_runners provides) (collect_runner manifest) g in
  let g := for_in (pv_protocols provides) (λ protocol,
    collect_active_capability manifest "protocol" (proto_protocol_id protocol) (Some (proto_version protocol))) g in
  let g := named "handler_binding" (hb_binding_id <$> pv_handler_bindings provides) g in
  let g := named "resource_schema" (pv_resource_schemas provides) g in
  let g := named "stream" (pv_streams provides) g in
  let g := named "subscription" (pv_subscriptions provides) g in
  let g := named "timer" (pv_timers provides) g in
  let g := named "state_schema" (pv_state_schemas provides) g in
  let g := named "effect" (effect_protocols provides) g in
  for_in (pv_resource_types provides) (collect_resource_type manifest) g.

Definition collect_system_extension_capabilities (manifest : PluginManifest) (g : Graph) : Graph :=
  let provides := pm_provides manifest in
  let collect prefix := collect_provided_capability manifest prefix in
  let g := for_in (pv_host_extensions provides) (λ x, collect "host_extension" (hx_extension_id x) None) g in
  let g := for_in (pv_plugin_backends provides) (λ x, collect "plugin_backend" (pb_backend_id x) None) g in
  let g := for_in (pv_resource_providers provides) (λ x, collect "resource_provider" x None) g in
  let g := for_in (pv_codecs provides) (λ x, collect "codec" (cd_codec_id x) (Some (cd_version x))) g in
  let g := for_in (pv_bridges provides) (λ x, collect "bridge" (bd_bridge_id x) None) g in
  let g := for_in (pv_scheduler_policies provides)
             (λ x, collect "scheduler_policy" (spd_policy_id x) (Some (spd_version x))) g in
  for_in (pv_workflows provides) (λ x, collect "workflow" (wd_workflow_id x) None) g.

(** ** Activating extensions *)

Definition deployment_is_used (deployments : gmap string PluginDeploymentKind)
    (candidates : list PluginDeploymentKind) : bool :=
  existsb (λ candidate, existsb (λ e, bool_decide (e.2 = candidate)) (map_to_list deployments)) candidates.

Definition requires_capability (required : gset string) (prefix id : string) : bool :=
  bool_decide (id ∈ required) || bool_decide (cap prefix id ∈ required).

Definition should_activate_extension (prune_extensions : bool) (required : gset string) (prefix id : string)
    (used_by_active_plan : bool) : bool :=
  negb prune_extensions || used_by_active_plan || requires_capability required prefix id.

(** [activate]: [set_ids] updates the set of active ids the caller passes. *)
Definition activate (set_ids : (gset string → gset string) → Graph → Graph) (prefix id : string) (g : Graph) : Graph :=
  set_ids (λ s, {[id]} ∪ s) (g <| g_active ::= λ s, {[cap prefix id]} ∪ s |>).

Definition activate_extension_if_needed (set_ids : (gset string → gset string) → Graph → Graph)
    (prune_extensions : bool) (required : gset string) (prefix id : string) (used_by_active_plan : bool)
    (g : Graph) : bool * Graph :=
  if should_activate_extension prune_extensions required prefix id used_by_active_plan
  then (true, activate set_ids prefix id g)
  else (false, g).

Definition resource_provider_is_used (manifests : list PluginManifest) (provider_id : string) : bool :=
  existsb (λ resource_type, bool_decide (rt_provider_id resource_type = provider_id))
    (manifests ≫= (λ m, pv_resource_types (pm_provides m))).

Section Activation.
Variable prune_extensions : bool.
Variable required : gset string.
Variable manifests : list PluginManifest.
Variable deployments : gmap string PluginDeploymentKind.

Definition activate_backend (backend : PluginBackendDescriptor) (g : Graph) : Graph :=
  let '(activated, g) := activate_extension_if_needed (set_field g_plugin_backends) prune_extensions required
    "plugin_backend" (pb_backend_id backend) (deployment_is_used deployments [pb_deployment_kind backend]) g in
  if activated then
    let g := activate (set_field g_plugin_backends) "plugin_backend" (pb_backend_id backend) g in
    let g := match pb_codec_id backend with
             | Some codec_id => g <| g_codecs ::= λ s, {[codec_id]} ∪ s |>
             | None => g
             end in
    match pb_bridge_id backend with
    | Some bridge_id => g <| g_bridges ::= λ s, {[bridge_id]} ∪ s |>
    | None => g
    end
  else g.

Definition activate_bridge (bridge : BridgeDescriptor) (g : Graph) : Graph :=
  let '(activated, g) := activate_extension_if_needed (set_field g_bridges) prune_extensions required
    "bridge" (bd_bridge_id bridge) (bool_decide (bd_bridge_id bridge ∈ g_bridges g)) g in
  if activated then g <| g_codecs ::= λ s, list_to_set (bd_codec_ids bridge) ∪ s |> else g.

Definition activate_codec (codec : CodecDescriptor) (g : Graph) : Graph :=
  (activate_extension_if_needed (set_field g_codecs) prune_extensions required
    "codec" (cd_codec_id codec) (bool_decide (cd_codec_id codec ∈ g_codecs g)) g).2.

Definition activate_host_extension (extension : HostExtensionDescriptor) (g : Graph) : Graph :=
  (activate_extension_if_needed (set_field g_host_extensions) prune_extensions required
    "host_extension" (hx_extension_id extension)
    (deployment_is_used deployments (hx_supported_deployments extension)) g).2.

Definition activate_resource_provider (provider_id : string) (g : Graph) : Graph :=
  let provider_is_required :=
    resource_provider_is_used manifests provider_id || requires_capability required "resource_strategy" provider_id in
  (activate_extension_if_needed (set_field g_resource_providers) prune_extensions required
    "resource_provider" provider_id provider_is_required g).2.

Definition activate_scheduler_policy (policy : SchedulerPolicyDescriptor) (g : Graph) : Graph :=
  (activate_extension_if_needed (set_field g_scheduler_policies) prune_extensions required
    "scheduler_policy" (spd_policy_id policy) false g).2.

Definition activate_workflow (workflow : WorkflowDescriptor) (g : Graph) : Graph :=
  (activate_extension_if_needed (set_field g_workflows) prune_extensions required
    "workflow" (wd_workflow_id workflow) false g).2.

Definition activate_manifest (manifest : PluginManifest) (g : Graph) : Graph :=
  let provides := pm_provides manifest in
  let g := for_in (pv_host_extensions provides) activate_host_extension g in
  let g := for_in (pv_resource_providers provides) activate_resource_provider g in
  let g := for_in (pv_plugin_backends provides) activate_backend g in
  let g := for_in (pv_bridges provides) activate_bridge g in
  let g := for_in (pv_codecs provides) activate_codec g in
  let g := for_in (pv_scheduler_policies provides) activate_scheduler_policy g in
  for_in (pv_workflows provides) activate_workflow g.
End Activation.

(** ** Validation *)

Definition validate_active_ids (prefix : string) (active_ids : gset string)
    (providers : gmap string (list CapabilityProvider)) : P unit :=
  pfold (λ active_id _,
    match providers !! cap prefix active_id with
    | Some _ => pok tt
    | None => perr (capability_provider_missing (cap prefix active_id))
    end) (btree_elements active_ids) tt.

Definition validate_resource_type_providers (manifests : list PluginManifest)
    (active_resource_providers : gset string) : P unit :=
  pfold (λ resource_type _,
    if decide (rt_provider_id resource_type ∈ active_resource_providers) then pok tt
    else perr (capability_provider_missing (cap "resource_provider" (rt_provider_id resource_type))))
    (manifests ≫= (λ m, pv_resource_types (pm_provides m))) tt.

Definition active_resource_type_capability (resource_type : ResourceTypeDescriptor)
    (active_resource_providers : gset string) : option string :=
  if decide (rt_provider_id resource_type ∈ active_resource_providers)
  then Some (cap "resource_type" (rt_kind_id resource_type)) else None.

Definition active_resource_operation (kind_id : option string) (operation : string)
    (manifests : list PluginManifest) (active_resource_providers : gset string) : option string :=
  match List.find (λ resource_type,
          match kind_id with Some kind_id => bool_decide (rt_kind_id resource_type = kind_id) | None => true end
          && bool_decide (operation ∈ rt_operations resource_type))
        (manifests ≫= (λ m, pv_resource_types (pm_provides m))) with
  | Some resource_type => active_resource_type_capability resource_type active_resource_providers
  | None => None
  end.

Definition resource_permission_capability (permission : string) (manifests : list PluginManifest)
    (active active_resource_providers : gset string) : option string :=
  if decide (permission ∈ active) then Some permission
  else
    match List.find (λ capability, bool_decide (capability ∈ active))
            ((λ prefix, cap prefix permission) <$> ["resource_provider"; "resource_type"; "resource_schema"]) with
    | Some capability => Some capability
    | None =>
        match strip_prefix "resource:" permission ≫= split_once ":"%char with
        | Some (kind_id, operation) =>
            active_resource_operation (Some kind_id) operation manifests active_resource_providers
        | None => active_resource_operation None permission manifests active_resource_providers
        end
    end.

Definition audit_effect (active : gset string) (manifest : PluginManifest) (effect : string)
    (audit : list PermissionAuditEntry) : P (list PermissionAuditEntry) :=
  let capability := cap "effect" effect in
  if decide (capability ∈ active) then
    pok (audit ++ [MkPermissionAuditEntry (pm_plugin_id manifest) "effect" effect true (Some capability) "active_effect"])
  else perr (permission_unauthorized (pm_plugin_id manifest) "effect" effect).

Definition audit_resource (manifests : list PluginManifest) (active active_resource_providers : gset string)
    (manifest : PluginManifest) (resource : string) (audit : list PermissionAuditEntry) : P (list PermissionAuditEntry) :=
  match resource_permission_capability resource manifests active active_resource_providers with
  | None => perr (permission_unauthorized (pm_plugin_id manifest) "resource" resource)
  | Some capability =>
      pok (audit ++ [MkPermissionAuditEntry (pm_plugin_id manifest) "resource" resource true (Some capability) "active_resource"])
  end.

Definition audit_manifest (manifests : list PluginManifest) (active active_resource_providers : gset string)
    (manifest : PluginManifest) (audit : list PermissionAuditEntry) : P (list PermissionAuditEntry) :=
  letp? audit := pfold (audit_effect active manifest) (pgr_effects (pm_permissions manifest)) audit in
  pfold (audit_resource manifests active active_resource_providers manifest)
    (pgr_resources (pm_permissions manifest)) audit.

Definition permission_audit_for (manifests : list PluginManifest) (active active_resource_providers : gset string) :
    P (list PermissionAuditEntry) :=
  pfold (audit_manifest manifests active active_resource_providers) manifests [].

(** ** The graph *)

Definition collect_manifest (manifest : PluginManifest) (g : Graph) : Graph :=
  collect_system_extension_capabilities manifest (collect_base_capabilities manifest g).

Definition build_graph (profile : RuntimeProfile) (manifests : list PluginManifest)
    (deployments : gmap string PluginDeploymentKind) (requirements : list CapabilityRequirement) : Graph :=
  let prune_extensions :=
    bool_decide (prof_mode profile = BuiltinOnly) || bool_decide (prof_mode profile = LockedBuiltin) in
  let required_capabilities : gset string := list_to_set (cr_capability <$> requirements) in
  for_in manifests (activate_manifest prune_extensions required_capabilities manifests deployments)
    (for_in manifests collect_manifest empty_graph).

Definition capability_graph_for (profile : RuntimeProfile) (manifests : list PluginManifest)
    (deployments : gmap string PluginDeploymentKind) : P RuntimeCapabilityGraph :=
  let required_raw : gset string := list_to_set (manifests ≫= pm_requires) in
  let requirements := parse_requirements required_raw in
  let g := build_graph profile manifests deployments requirements in
  letp? _ := pfold (λ '(prefix, active_ids) _, validate_active_ids prefix active_ids (g_providers g))
    [("resource_provider", g_resource_providers g); ("host_extension", g_host_extensions g);
     ("plugin_backend", g_plugin_backends g); ("bridge", g_bridges g); ("codec", g_codecs g);
     ("scheduler_policy", g_scheduler_policies g); ("workflow", g_workflows g)] tt in
  letp? _ := validate_resource_type_providers manifests (g_resource_providers g) in
  letp? _ := ensure_required_capabilities_are_active requirements (g_active g) (g_resource_providers g) (g_providers g) in
  letp? active_capability_providers := active_capability_providers (g_active g) requirements (g_providers g) in
  letp? permission_audit := permission_audit_for manifests (g_active g) (g_resource_providers g) in
  pok {|
    cg_profile_mode := prof_mode profile;
    cg_provided_capabilities := btree_elements (g_provided g);
    cg_required_capabilities := btree_elements required_raw;
    cg_active_capabilities := btree_elements (g_active g);
    cg_active_capability_providers := active_capability_providers;
    cg_active_resource_providers := btree_elements (g_resource_providers g);
    cg_active_host_extensions := btree_elements (g_host_extensions g);
    cg_active_plugin_backends := btree_elements (g_plugin_backends g);
    cg_active_codecs := btree_elements (g_codecs g);
    cg_active_bridges := btree_elements (g_bridges g);
    cg_active_scheduler_policies := btree_elements (g_scheduler_policies g);
    cg_active_workflows := btree_elements (g_workflows g);
    cg_permission_audit := permission_audit
  |}.
End Collect.
