(* ===== verification/HostResolver.v ===== *)
(** * Contract surfaces and the load plan

    crates/mutsuki-runtime-host/src/resolver/surfaces.rs and resolver.rs: the
    surfaces of the active capabilities, and the load plan a profile resolves
    to; capabilities.rs: the registry of active descriptors a plan is opened
    with. *)

From Stdlib Require Import Ascii.
From S2P Require Import Prelude Contracts RunnerContracts PluginContracts Registry HostErrors ResolverPlugins ResolverCapabilities.

Section Resolver.
Context `{SJ : SerdeJson}.

(** ** Surfaces *)

Definition surface (owner_plugin_id : string) (kind : ContractSurfaceKind) (surface_id fingerprint : string) :
    ContractSurface :=
  {| cs_surface_id := surface_id; cs_kind := kind; cs_owner_plugin_id := owner_plugin_id;
     cs_fingerprint := fingerprint; cs_deprecated := false |}.

Definition named_surfaces (plugin_id : string) (kind : ContractSurfaceKind) (prefix : string) (names : list string) :
    list ContractSurface :=
  (λ name, surface plugin_id kind (cap prefix name) (cap prefix name)) <$> names.

Definition active_surface (active_ids : list string) (id : string) : bool :=
  existsb (λ active_id, bool_decide (active_id = id)) active_ids.

Definition push_active_surface (active_ids : list string) (id owner_plugin_id : string) (kind : ContractSurfaceKind)
    (surface_id fingerprint : string) : list ContractSurface :=
  if active_surface active_ids id then [surface owner_plugin_id kind surface_id fingerprint] else [].

Definition push_runner_surfaces (manifest : PluginManifest) : list ContractSurface :=
  pv_runners (pm_provides manifest) ≫= (λ runner,
    surface (pm_plugin_id manifest) SurfaceRunner (cap "runner" (d_runner_id runner))
      (cap "runner" (d_runner_id runner) +:+ ":" +:+ pretty (d_plugin_generation runner))
    :: named_surfaces (pm_plugin_id manifest) SurfaceTaskProtocol "task_protocol" (d_accepted_protocol_ids runner)).

Definition push_protocol_surfaces (manifest : PluginManifest) : list ContractSurface :=
  (λ protocol, surface (pm_plugin_id manifest) SurfaceProtocol (cap "protocol" (proto_protocol_id protocol))
     (cap "protocol" (proto_protocol_id protocol) +:+ ":" +:+ proto_version protocol))
  <$> pv_protocols (pm_provides manifest).

Definition push_handler_binding_surfaces (manifest : PluginManifest) : list ContractSurface :=
  (λ binding, surface (pm_plugin_id manifest) SurfaceHandlerBinding (cap "handler_binding" (hb_binding_id binding))
     (cap "handler_binding" (hb_binding_id binding) +:+ ":" +:+ hb_protocol_id binding +:+ ":" +:+ hb_target_protocol_id binding))
  <$> pv_handler_bindings (pm_provides manifest).

Definition push_named_capability_surfaces (manifest : PluginManifest) : list ContractSurface :=
  let provides := pm_provides manifest in
  let named := named_surfaces (pm_plugin_id manifest) in
  named SurfaceResourceSchema "resource_schema" (pv_resource_schemas provides) ++
  named SurfaceStream "stream" (pv_streams provides) ++
  named SurfaceSubscription "subscription" (pv_subscriptions provides) ++
  named SurfaceTimer "timer" (pv_timers provides) ++
  named SurfaceStateSchema "state_schema" (pv_state_schemas provides) ++
  named SurfaceEffect "effect" (effect_protocols provides).

Definition push_resource_provider_surfaces (manifest : PluginManifest) (g : RuntimeCapabilityGraph) : list ContractSurface :=
  pv_resource_providers (pm_provides manifest) ≫= (λ provider_id,
    push_active_surface (cg_active_resource_providers g) provider_id (pm_plugin_id manifest) SurfaceResourceProvider
      (cap "resource_provider" provider_id) (cap "resource_provider" provider_id)).

Definition push_resource_type_surfaces (manifest : PluginManifest) : list ContractSurface :=
  (λ resource_type, surface (pm_plugin_id manifest) SurfaceResourceSchema (cap "resource_schema" (rt_kind_id resource_type))
     (join ":" ["resource_type"; rt_kind_id resource_type; debug_semantic (rt_semantic resource_type);
        rt_schema resource_type; rt_provider_id resource_type; join "," (rt_operations resource_type);
        rpc_schema_version (rt_compatibility resource_type);
        join "," (rpc_required_operations (rt_compatibility resource_type))]))
  <$> pv_resource_types (pm_provides manifest).

Definition push_system_extension_surfaces (manifest : PluginManifest) (g : RuntimeCapabilityGraph) : list ContractSurface :=
  let provides := pm_provides manifest in
  let owner := pm_plugin_id manifest in
  (pv_host_extensions provides ≫= (λ x,
     push_active_surface (cg_active_host_extensions g) (hx_extension_id x) owner SurfaceHostExtension
       (cap "host_extension" (hx_extension_id x))
       (join ":" ["host_extension"; hx_extension_id x; debug_extension_kind (hx_kind x); hx_reload_policy x;
          display_bool (hx_drain_required x)]))) ++
  (pv_plugin_backends provides ≫= (λ x,
     push_active_surface (cg_active_plugin_backends g) (pb_backend_id x) owner SurfacePluginBackend
       (cap "plugin_backend" (pb_backend_id x))
       (join ":" ["plugin_backend"; pb_backend_id x; debug_deployment (pb_deployment_kind x);
          pb_task_client_protocol x; pb_resource_client_protocol x]))) ++
  (pv_codecs provides ≫= (λ x,
     push_active_surface (cg_active_codecs g) (cd_codec_id x) owner SurfaceCodec (cap "codec" (cd_codec_id x))
       (join ":" ["codec"; cd_codec_id x; cd_media_type x; cd_version x; display_bool (cd_connection_scoped x)]))) ++
  (pv_bridges provides ≫= (λ x,
     push_active_surface (cg_active_bridges g) (bd_bridge_id x) owner SurfaceBridge (cap "bridge" (bd_bridge_id x))
       (join ":" ["bridge"; bd_bridge_id x; debug_deployment (bd_deployment_kind x); join "," (bd_codec_ids x);
          bd_drain_policy x]))) ++
  (pv_scheduler_policies provides ≫= (λ x,
     push_active_surface (cg_active_scheduler_policies g) (spd_policy_id x) owner SurfaceSchedulerPolicy
       (cap "scheduler_policy" (spd_policy_id x))
       (join ":" ["scheduler_policy"; spd_policy_id x; spd_version x; spd_decision_scope x]))) ++
  (pv_workflows provides ≫= (λ x,
     push_active_surface (cg_active_workflows g) (wd_workflow_id x) owner SurfaceWorkflow (cap "workflow" (wd_workflow_id x))
       (join ":" ["workflow"; wd_workflow_id x; wd_state_resource_kind x; wd_runner_protocol_id x; wd_reload_policy x]))).

Definition surfaces_for (manifests : list PluginManifest) (g : RuntimeCapabilityGraph) : list ContractSurface :=
  manifests ≫= (λ manifest,
    push_runner_surfaces manifest ++ push_protocol_surfaces manifest ++ push_handler_binding_surfaces manifest ++
    push_named_capability_surfaces manifest ++ push_resource_provider_surfaces manifest g ++
    push_resource_type_surfaces manifest ++ push_system_extension_surfaces manifest g).

(** ** The load plan *)

Definition resolve_load_plan (manifests : list PluginManifest) (profile : RuntimeProfile) : P RuntimeLoadPlan :=
  letp? resolved := resolve_enabled_plugins manifests profile in
  letp? runner_bindings := runner_bindings profile (rp_manifests resolved) in
  letp? capability_graph := capability_graph_for profile (rp_manifests resolved) (rp_deployments resolved) in
  let contract_surfaces := surfaces_for (rp_manifests resolved) capability_graph in
  pok {|
    plan_lock_version := 1;
    plan_core_api_version := "mutsuki-core-v1";
    plan_profile_id := prof_profile_id profile;
    plan_profile_hash := profile_hash profile (N.of_nat (size (rp_deployments resolved))) capability_graph;
    plan_registry_generation := 1;
    plan_plugins := rp_manifests resolved;
    plan_load_order := prof_enabled_plugins profile;
    plan_runner_bindings := runner_bindings;
    plan_plugin_deployments := rp_deployments resolved;
    plan_observability := prof_observability profile;
    plan_capability_graph := capability_graph;
    plan_contract_surfaces := contract_surfaces
  |}.

(** ** The capability registry *)

Record HostCapabilityRegistry : Type := MkHostCapabilityRegistry {
  hr_host_extensions : gmap string HostExtensionDescriptor;
  hr_plugin_backends : gmap string PluginBackendDescriptor;
  hr_codecs : gmap string CodecDescriptor;
  hr_bridges : gmap string BridgeDescriptor;
  hr_scheduler_policies : gmap string SchedulerPolicyDescriptor;
  hr_workflows : gmap string WorkflowDescriptor;
  hr_provided : gset string
}.

Definition active_descriptors {T} (plan : RuntimeLoadPlan) (active_ids : list string)
    (descriptors : PluginProvides → list T) (id : T → string) : gmap string T :=
  foldl (λ entries descriptor,
    if decide (id descriptor ∈ active_ids) then <[id descriptor := descriptor]> entries else entries)
    ∅ (plan_plugins plan ≫= (λ manifest, descriptors (pm_provides manifest))).

Definition unavailable_capability (r : HostCapabilityRegistry) (prefix id : string) : RuntimeError :=
  let capability := cap prefix id in
  if decide (capability ∈ hr_provided r) then capability_pruned capability else capability_provider_missing capability.

Definition require {T} (r : HostCapabilityRegistry) (prefix id : string) (entries : gmap string T) : RuntimeResult T :=
  match entries !! id with
  | Some entry => Ok entry
  | None => Err (unavailable_capability r prefix id)
  end.

Definition require_host_extension (r : HostCapabilityRegistry) (id : string) := require r "host_extension" id (hr_host_extensions r).
Definition require_plugin_backend (r : HostCapabilityRegistry) (id : string) := require r "plugin_backend" id (hr_plugin_backends r).
Definition require_codec (r : HostCapabilityRegistry) (id : string) := require r "codec" id (hr_codecs r).
Definition require_bridge (r : HostCapabilityRegistry) (id : string) := require r "bridge" id (hr_bridges r).
Definition require_scheduler_policy (r : HostCapabilityRegistry) (id : string) := require r "scheduler_policy" id (hr_scheduler_policies r).
Definition require_workflow (r : HostCapabilityRegistry) (id : string) := require r "workflow" id (hr_workflows r).

Definition require_registered (r : HostCapabilityRegistry) (prefix id : string) : RuntimeResult unit :=
  let unit_of {T} (x : RuntimeResult T) : RuntimeResult unit := letr? _ := x in Ok tt in
  if decide (prefix = "host_extension") then unit_of (require_host_extension r id)
  else if decide (prefix = "plugin_backend") then unit_of (require_plugin_backend r id)
  else if decide (prefix = "codec") then unit_of (require_codec r id)
  else if decide (prefix = "bridge") then unit_of (require_bridge r id)
  else if decide (prefix = "scheduler_policy") then unit_of (require_scheduler_policy r id)
  else if decide (prefix = "workflow") then unit_of (require_workflow r id)
  else Err (capability_provider_missing (cap prefix id)).

Definition ensure_active_ids_registered (r : HostCapabilityRegistry) (prefix : string) (active_ids : list string) :
    RuntimeResult unit :=
  check_all (require_registered r prefix) active_ids.

Definition ensure_backend_references (r : HostCapabilityRegistry) (backend : PluginBackendDescriptor) : RuntimeResult unit :=
  letr? _ := match pb_codec_id backend with
             | Some codec_id => letr? _ := require_codec r codec_id in Ok tt
             | None => Ok tt
             end in
  match pb_bridge_id backend with
  | None => Ok tt
  | Some bridge_id =>
      letr? bridge := require_bridge r bridge_id in
      if decide (bd_deployment_kind bridge ≠ pb_deployment_kind backend) then
        Err (capability_incompatible (cap "plugin_backend" (pb_backend_id backend))
          ("bridge " +:+ bridge_id +:+ " deployment " +:+ debug_deployment (bd_deployment_kind bridge)
           +:+ " does not match backend deployment " +:+ debug_deployment (pb_deployment_kind backend)))
      else
        match pb_codec_id backend with
        | Some codec_id =>
            if decide (codec_id ∈ bd_codec_ids bridge) then Ok tt
            else Err (capability_incompatible (cap "plugin_backend" (pb_backend_id backend))
                   ("bridge " +:+ bridge_id +:+ " does not support codec " +:+ codec_id))
        | None => Ok tt
        end
  end.

(** The values of a [BTreeMap] in the order of its keys *)
Definition btree_values {V} (m : gmap string V) : list V := (btree_entries m).*2.

Definition ensure_active_backend_references (r : HostCapabilityRegistry) : RuntimeResult unit :=
  letr? _ := check_all (ensure_backend_references r) (btree_values (hr_plugin_backends r)) in
  check_all (λ bridge, check_all (λ codec_id, letr? _ := require_codec r codec_id in Ok tt) (bd_codec_ids bridge))
    (btree_values (hr_bridges r)).

Definition from_load_plan (plan : RuntimeLoadPlan) : RuntimeResult HostCapabilityRegistry :=
  let g := plan_capability_graph plan in
  let r := {|
    hr_host_extensions := active_descriptors plan (cg_active_host_extensions g) pv_host_extensions hx_extension_id;
    hr_plugin_backends := active_descriptors plan (cg_active_plugin_backends g) pv_plugin_backends pb_backend_id;
    hr_codecs := active_descriptors plan (cg_active_codecs g) pv_codecs cd_codec_id;
    hr_bridges := active_descriptors plan (cg_active_bridges g) pv_bridges bd_bridge_id;
    hr_scheduler_policies := active_descriptors plan (cg_active_scheduler_policies g) pv_scheduler_policies spd_policy_id;
    hr_workflows := active_descriptors plan (cg_active_workflows g) pv_workflows wd_workflow_id;
    hr_provided := list_to_set (cg_provided_capabilities g) |} in
  letr? _ := ensure_active_ids_registered r "host_extension" (cg_active_host_extensions g) in
  letr? _ := ensure_active_ids_registered r "plugin_backend" (cg_active_plugin_backends g) in
  letr? _ := ensure_active_ids_registered r "codec" (cg_active_codecs g) in
  letr? _ := ensure_active_ids_registered r "bridge" (cg_active_bridges g) in
  letr? _ := ensure_active_ids_registered r "scheduler_policy" (cg_active_scheduler_policies g) in
  letr? _ := ensure_active_ids_registered r "workflow" (cg_active_workflows g) in
  letr? _ := ensure_active_backend_references r in
  Ok r.

Definition active_plugin_backend_for_deployment (r : HostCapabilityRegistry) (deployment : PluginDeploymentKind) :
    option PluginBackendDescriptor :=
  List.find (λ backend, bool_decide (pb_deployment_kind backend = deployment)) (btree_values (hr_plugin_backends r)).

Definition active_scheduler_policy_id (r : HostCapabilityRegistry) : option string :=
  head (btree_entries (hr_scheduler_policies r)).*1.

Definition active_capability (r : HostCapabilityRegistry) (capability : string) : bool :=
  let has {T} (m : gmap string T) id := bool_decide (is_Some (m !! id)) in
  match split_once ":"%char capability with
  | None => false
  | Some (prefix, id) =>
      if decide (prefix = "host_extension") then has (hr_host_extensions r) id
      else if decide (prefix = "plugin_backend") then has (hr_plugin_backends r) id
      else if decide (prefix = "codec") then has (hr_codecs r) id
      else if decide (prefix = "bridge") then has (hr_bridges r) id
      else if decide (prefix = "scheduler_policy") then has (hr_scheduler_policies r) id
      else if decide (prefix = "workflow") then has (hr_workflows r) id
      else false
  end.

(** [CapabilityBroker::require_capability] *)
Definition require_capability (r : HostCapabilityRegistry) (capability : string) : RuntimeResult unit :=
  if active_capability r capability then Ok tt
  else if decide (capability ∈ hr_provided r) then Err (capability_pruned capability)
  else Err (capability_provider_missing capability).
End Resolver.
