(* ===== verification/ResolverTheorems.v ===== *)
(** * Resolved plans

    [resolve_load_plan] never panics, and what it accepts is consistent: its
    bindings, deployments, protocol classes, capabilities and permissions are
    all backed by the plugins in the plan. *)

From S2P Require Import Prelude Contracts RunnerContracts PluginContracts Registry RegistryTheorems HostErrors ResolverPlugins ResolverCapabilities HostResolver.

Section ResolverTheorems.
Context `{SJ : SerdeJson}.

Implicit Types (m : PluginManifest) (classes : gmap string ProtocolClass).

(** ** Protocol classes *)

Lemma pfold_unit {A} (body : A → P unit) (l : list A) :
  pfold (λ x _, body x) l tt = pok tt ↔ ∀ x, x ∈ l → body x = pok tt.
Proof.
  induction l as [|x l IH]; cbn; [split; [set_solver|done]|]. split.
  - intros ([] & H1 & H2)%pbind_ok y [->|Hy]%elem_of_cons; [done|]. by apply IH.
  - intros Hl. rewrite (Hl x) by set_solver. cbn. apply IH. set_solver.
Qed.

Lemma pfold_unit_ok {A} (body : A → P unit) (l : list A) u :
  pfold (λ x _, body x) l tt = Some (Ok u) → ∀ x, x ∈ l → body x = pok tt.
Proof. destruct u. apply pfold_unit. Qed.

Lemma pfold_pair_ok {A B} (body : A → B → P unit) (l : list (A * B)) u :
  pfold (λ '(x, y) _, body x y) l tt = Some (Ok u) → ∀ x y, (x, y) ∈ l → body x y = pok tt.
Proof.
  revert u. induction l as [|[a b] l IH]; intros u; cbn; [set_solver|].
  intros ([] & H1 & H2)%pbind_ok x y [[= -> ->]|Hy]%elem_of_cons; [done|]. by eapply IH.
Qed.

Lemma pfold_total {A S} (I : S → Prop) (body : A → S → P S) l s :
  (∀ x s, x ∈ l → I s → body x s ≠ None ∧ ∀ s', body x s = Some (Ok s') → I s') → I s → pfold body l s ≠ None.
Proof.
  revert s. induction l as [|x l IH]; intros s Hstep HI; cbn; [done|].
  destruct (Hstep x s) as [Hn Hk]; [by left|done|]. apply pbind_total; [done|]. intros s' Hs'.
  apply IH; [|by apply Hk]. intros y t Hy. apply Hstep. by right.
Qed.

(** Normalizing keeps the classes it finds and gives every known protocol one. *)
Lemma normalize_class_ok m id classes classes' : normalize_class m id classes = Some (Ok classes') →
  is_Some (classes' !! id) ∧ classes ⊆ classes' ∧ (∀ j, j ≠ id → classes' !! j = classes !! j).
Proof.
  unfold normalize_class. destruct (class_conflicts _ _ _); [done|]. intros [= <-].
  split_and!; [by rewrite lookup_insert_eq; eauto| |intros; by rewrite lookup_insert_ne].
  destruct (classes !! id) eqn:E; [by rewrite insert_id|by apply insert_subseteq].
Qed.

Lemma normalize_classes_cover m l classes classes' : pfold (normalize_class m) l classes = Some (Ok classes') →
  classes ⊆ classes' ∧ ∀ id, id ∈ l → is_Some (classes' !! id).
Proof.
  revert classes. induction l as [|id l IH]; intros classes; cbn; [intros [= <-]; set_solver|].
  intros (c1 & H1 & H2)%pbind_ok. destruct (normalize_class_ok _ _ _ _ H1) as ((k & Hk) & Hsub & _).
  destruct (IH _ H2) as [Hsub' Hall]. split; [by etrans|]. intros j [->|Hj]%elem_of_cons; [|auto].
  exists k. by eapply lookup_weaken.
Qed.

Lemma normalize_class_total m id classes : normalize_class m id classes ≠ None.
Proof. unfold normalize_class. by destruct (class_conflicts _ _ _). Qed.

Lemma known_runner_protocol m runners classes runner id :
  runner ∈ runners → id ∈ d_accepted_protocol_ids runner →
  id ∈ btree_elements (known_protocols (with_runners_and_classes (pm_provides m) runners classes)).
Proof.
  intros Hr Hid. rewrite elem_of_btree_elements. unfold known_protocols. cbn.
  rewrite !elem_of_union, !elem_of_list_to_set. left. right. apply list_elem_of_bind. eauto.
Qed.

(** A resolved manifest: every protocol of a runner has a class the core accepts
    for the runner. *)
Definition classes_ok (m : PluginManifest) : Prop :=
  ∀ runner id, runner ∈ pv_runners (pm_provides m) → id ∈ d_accepted_protocol_ids runner →
    ∃ class, pv_protocol_classes (pm_provides m) !! id = Some class ∧
      matches_purity (d_purity runner) class = true ∧
      (class = ProtocolControl → d_execution_class runner = ClassControl).

Lemma check_runner_class_ok m classes runner id : check_runner_class m classes runner id = pok tt →
  ∃ class, classes !! id = Some class ∧ matches_purity (d_purity runner) class = true ∧
    (class = ProtocolControl → d_execution_class runner = ClassControl).
Proof.
  unfold check_runner_class. destruct (classes !! id) as [class|]; [|done].
  destruct (matches_purity _ _) eqn:Hp; [|done]. cbn. intros H. exists class. split_and!; [done|done|].
  intros ->. by repeat case_bool_decide.
Qed.

Lemma normalize_ok m m' : normalize_protocol_classes m = Some (Ok m') →
  pm_plugin_id m' = pm_plugin_id m ∧ pm_artifact m' = pm_artifact m ∧ classes_ok m'.
Proof.
  unfold normalize_protocol_classes. destruct (List.find _ _); [done|].
  intros (classes & H1 & H2)%pbind_ok. apply pbind_ok in H2 as ([] & H2 & [= <-]).
  split_and!; [done|done|]. intros runner id Hr Hid. cbn in *.
  pose proof (pfold_unit_ok _ _ _ H2 _ Hr) as H3. apply check_runner_class_ok with m.
  by eapply (pfold_unit_ok _ _ _ H3).
Qed.

Lemma normalize_total m : normalize_protocol_classes m ≠ None.
Proof.
  unfold normalize_protocol_classes. destruct (List.find _ _); [done|].
  set (runners := normalize_runner <$> _). set (known := btree_elements _).
  apply pbind_total.
  { apply (pfold_total (λ _, True)); [|done]. intros. split; [apply normalize_class_total|done]. }
  intros classes Hc. apply pbind_total; [|done].
  apply (pfold_total (λ _, True)); [|done]. intros runner [] Hr _. split; [|done].
  apply (pfold_total (λ _, True)); [|done]. intros id [] Hid _. split; [|done].
  unfold check_runner_class. destruct (normalize_classes_cover _ _ _ _ Hc) as [_ Hall].
  destruct (Hall id) as [class ->]; [by eapply known_runner_protocol|]. by case_match.
Qed.

Lemma reject_conflict_ok m e classes classes' : reject_conflict m e classes = Some (Ok classes') →
  classes ⊆ classes' ∧ classes' !! e.1 = Some e.2.
Proof.
  destruct e as [id class]. unfold reject_conflict. cbn. destruct (classes !! id) as [existing|] eqn:E; cbn.
  - case_bool_decide; cbn; [|done]. subst. intros [= <-]. by rewrite insert_id.
  - intros [= <-]. split; [by apply insert_subseteq|by rewrite lookup_insert_eq].
Qed.

Lemma reject_manifest_ok m classes classes' : reject_manifest_conflicts m classes = Some (Ok classes') →
  classes ⊆ classes' ∧ pv_protocol_classes (pm_provides m) ⊆ classes'.
Proof.
  unfold reject_manifest_conflicts. set (l := btree_entries _). intros Hf.
  assert (classes ⊆ classes' ∧ ∀ e, e ∈ l → classes' !! e.1 = Some e.2) as [Hsub Hall].
  { clearbody l. revert classes Hf. induction l as [|e l IH]; intros classes; cbn; [intros [= <-]; set_solver|].
    intros (c1 & H1 & H2)%pbind_ok. apply reject_conflict_ok in H1 as [Hs He]. destruct (IH _ H2) as [Hs' Hall].
    split; [by etrans|]. intros e' [->|He']%elem_of_cons; [by eapply lookup_weaken|auto]. }
  split; [done|]. apply map_subseteq_spec. intros id x Hx. apply (Hall (id, x)). by apply elem_of_btree_entries.
Qed.

Lemma reject_cross_ok ms : reject_cross_plugin_protocol_class_conflicts ms = pok tt →
  ∃ classes, ∀ m, m ∈ ms → pv_protocol_classes (pm_provides m) ⊆ classes.
Proof.
  unfold reject_cross_plugin_protocol_class_conflicts. intros (classes & Hf & _)%pbind_ok. exists classes.
  assert (∀ c0, pfold reject_manifest_conflicts ms c0 = Some (Ok classes) →
    c0 ⊆ classes ∧ ∀ m, m ∈ ms → pv_protocol_classes (pm_provides m) ⊆ classes) as Hall; [|by eapply Hall].
  clear Hf. induction ms as [|m ms IH]; intros c0; cbn; [intros [= <-]; set_solver|].
  intros (c1 & H1 & H2)%pbind_ok. apply reject_manifest_ok in H1 as [Hs Hm]. destruct (IH _ H2) as [Hs' Hall].
  split; [by etrans|]. intros m' [->|Hm']%elem_of_cons; [by etrans|auto].
Qed.

Lemma find_protocol_class_agrees ms classes m id class :
  (∀ m, m ∈ ms → pv_protocol_classes (pm_provides m) ⊆ classes) →
  m ∈ ms → pv_protocol_classes (pm_provides m) !! id = Some class → find_protocol_class ms id = Some class.
Proof.
  intros Hall Hm Hid. assert (classes !! id = Some class) as Hc by (eapply lookup_weaken; [exact Hid|by apply Hall]).
  induction ms as [|m' ms IH]; [set_solver|]. cbn.
  destruct (pv_protocol_classes (pm_provides m') !! id) as [class'|] eqn:E.
  - assert (classes !! id = Some class') as Hc' by (eapply lookup_weaken; [exact E|apply Hall; set_solver]). congruence.
  - apply elem_of_cons in Hm as [->|Hm]; [congruence|]. apply IH; [set_solver|done].
Qed.

(** ** The enabled plugins *)

(** The manifests of a resolution: in the order of the profile, each from the
    given manifests, deployed as its artifact allows, with coherent classes. *)
Record resolves (manifests : list PluginManifest) (ids : list string) (r : ResolvedPlugins) : Prop := {
  rs_ids : pm_plugin_id <$> rp_manifests r = ids;
  rs_classes : Forall classes_ok (rp_manifests r);
  rs_dom : dom (rp_deployments r) = list_to_set ids;
  rs_deployments : ∀ id d, rp_deployments r !! id = Some d →
    ∃ m, m ∈ rp_manifests r ∧ pm_plugin_id m = id ∧ is_compatible_with_artifact d (pa_artifact_type (pm_artifact m)) = true
}.

Lemma find_some_spec {A} (f : A → bool) l x : List.find f l = Some x → x ∈ l ∧ f x = true.
Proof. intros [H1 H2]%List.find_some. by rewrite list_elem_of_In. Qed.

Lemma find_none_spec {A} (f : A → bool) l x : List.find f l = None → x ∈ l → f x = false.
Proof. intros Hn Hx. eapply List.find_none; [exact Hn|]. by apply list_elem_of_In. Qed.

Lemma resolve_plugin_ok manifests profile id r r' ids :
  resolves manifests ids r → resolve_plugin manifests profile id r = Some (Ok r') → resolves manifests (ids ++ [id]) r'.
Proof.
  intros [H1 H2 H3 H4]. unfold resolve_plugin. destruct (List.find _ _) as [m|] eqn:Ef; [|done].
  apply find_some_spec in Ef as [Hm Hid]. apply bool_decide_eq_true_1 in Hid.
  intros ([] & Hd & Hk)%pbind_ok. apply pbind_ok in Hk as (m' & Hn & [= <-]).
  apply normalize_ok in Hn as (Hid' & Ha & Hc).
  assert (is_compatible_with_artifact (deployment_for profile m) (pa_artifact_type (pm_artifact m)) = true) as Hcomp
    by (unfold ensure_deployment_matches_artifact in Hd; by destruct (is_compatible_with_artifact _ _)).
  split; cbn.
  - rewrite fmap_app, H1. cbn. congruence.
  - apply Forall_app. by repeat constructor.
  - rewrite dom_insert_L, H3, list_to_set_app_L. set_solver.
  - intros j d. rewrite lookup_insert_Some. intros [[<- <-]|[Hne Hj]].
    + exists m'. rewrite Ha. split_and!; [set_solver|congruence|done].
    + destruct (H4 j d Hj) as (m1 & ? & ? & ?). exists m1. set_solver.
Qed.

Lemma resolve_enabled_ok manifests profile r : resolve_enabled_plugins manifests profile = Some (Ok r) →
  resolves manifests (prof_enabled_plugins profile) r ∧
  ∃ classes, ∀ m, m ∈ rp_manifests r → pv_protocol_classes (pm_provides m) ⊆ classes.
Proof.
  unfold resolve_enabled_plugins. intros (r' & Hf & Hk)%pbind_ok. apply pbind_ok in Hk as ([] & Hx & [= <-]).
  split; [|by apply reject_cross_ok].
  assert (∀ ids done0 r0, resolves manifests done0 r0 → pfold (resolve_plugin manifests profile) ids r0 = Some (Ok r') →
    resolves manifests (done0 ++ ids) r') as Hall.
  { induction ids as [|id ids IH]; intros done0 r0 H0; cbn; [intros [= <-]; by rewrite app_nil_r|].
    intros (r1 & H1 & H2)%pbind_ok. eapply resolve_plugin_ok in H1; [|done].
    specialize (IH _ _ H1 H2). by rewrite <-app_assoc in IH. }
  apply (Hall _ [] (MkResolvedPlugins [] ∅)); [|done]. split; [done|constructor|done|done].
Qed.

Lemma resolve_enabled_total manifests profile : resolve_enabled_plugins manifests profile ≠ None.
Proof.
  unfold resolve_enabled_plugins. apply pbind_total; [|intros r _; apply pbind_total; [|done]].
  - apply (pfold_total (λ _, True)); [|done]. intros id r _ _. split; [|done]. unfold resolve_plugin.
    destruct (List.find _ _); [|done]. apply pbind_total.
    + unfold ensure_deployment_matches_artifact. by case_match.
    + intros [] _. apply pbind_total; [apply normalize_total|done].
  - unfold reject_cross_plugin_protocol_class_conflicts. apply pbind_total; [|done].
    apply (pfold_total (λ _, True)); [|done]. intros m classes _ _. split; [|done].
    apply (pfold_total (λ _, True)); [|done]. intros [id class] c _ _. split; [|done].
    unfold reject_conflict. by case_match.
Qed.

(** ** Bindings *)

Lemma bind_default_lookup runner_id b id p :
  bind_default runner_id b id !! p =
    match b !! p with Some r => Some r | None => if decide (p = id) then Some runner_id else None end.
Proof.
  unfold bind_default. destruct (decide (p = id)) as [->|Hne]; destruct (b !! id) eqn:E.
  - by rewrite E.
  - by rewrite lookup_insert_eq.
  - by destruct (b !! p).
  - rewrite lookup_insert_ne by done. by destruct (b !! p).
Qed.

Lemma bind_runner_lookup b runner p :
  bind_runner b runner !! p =
    match b !! p with
    | Some r => Some r
    | None => if decide (p ∈ d_accepted_protocol_ids runner) then Some (d_runner_id runner) else None
    end.
Proof.
  unfold bind_runner. generalize (d_accepted_protocol_ids runner). intros ids. revert b.
  induction ids as [|id ids IH]; intros b; cbn; [by destruct (b !! p)|]. rewrite IH, bind_default_lookup.
  destruct (b !! p); [done|]. destruct (decide (p = id)) as [->|Hne].
  - by rewrite decide_True by set_solver.
  - by rewrite (decide_ext _ (p ∈ id :: ids)) by set_solver.
Qed.

(** The runner a protocol is bound to without a profile binding: the first that
    accepts it. *)
Definition first_accepting (runners : list RunnerDescriptor) (p : string) : option string :=
  d_runner_id <$> List.find (λ runner, bool_decide (p ∈ d_accepted_protocol_ids runner)) runners.

Lemma bind_runners_lookup b runners p :
  foldl bind_runner b runners !! p = match b !! p with Some r => Some r | None => first_accepting runners p end.
Proof.
  unfold first_accepting. revert b. induction runners as [|runner runners IH]; intros b; cbn; [by destruct (b !! p)|].
  rewrite IH, bind_runner_lookup. destruct (b !! p); [done|]. by repeat case_decide; case_bool_decide.
Qed.

Lemma validate_binding_ok runners p r : validate_profile_binding runners p r = pok tt →
  ∃ runner, runner ∈ runners ∧ d_runner_id runner = r ∧ p ∈ d_accepted_protocol_ids runner.
Proof.
  unfold validate_profile_binding. destruct (List.find _ _) as [runner|] eqn:E; [|done].
  apply find_some_spec in E as [Hr Hid]. apply bool_decide_eq_true_1 in Hid. case_bool_decide; cbn; [|done]. eauto.
Qed.

Lemma runner_bindings_ok profile ms b : runner_bindings profile ms = Some (Ok b) →
  (∀ p, b !! p = match prof_bindings profile !! p with Some r => Some r | None => first_accepting (manifest_runners ms) p end) ∧
  (∀ p r, b !! p = Some r → ∃ runner, runner ∈ manifest_runners ms ∧ d_runner_id runner = r ∧ p ∈ d_accepted_protocol_ids runner).
Proof.
  unfold runner_bindings. intros ([] & Hv & [= <-])%pbind_ok.
  assert (∀ p, foldl bind_runner (prof_bindings profile) (manifest_runners ms) !! p =
    match prof_bindings profile !! p with Some r => Some r | None => first_accepting (manifest_runners ms) p end) as Hb
    by (intros; apply bind_runners_lookup).
  split; [done|]. intros p r. rewrite Hb. destruct (prof_bindings profile !! p) as [r'|] eqn:E.
  - intros [= <-]. apply validate_binding_ok. unfold validate_profile_bindings in Hv.
    apply (pfold_pair_ok _ _ _ Hv p r'). by apply elem_of_btree_entries.
  - unfold first_accepting. intros (runner & Hf & ->)%fmap_Some. apply find_some_spec in Hf as [Hr Hp].
    apply bool_decide_eq_true_1 in Hp. eauto.
Qed.

Lemma runner_bindings_total profile ms : runner_bindings profile ms ≠ None.
Proof.
  unfold runner_bindings. apply pbind_total; [|done]. apply (pfold_total (λ _, True)); [|done].
  intros [p r] [] _ _. split; [|done]. unfold validate_profile_binding. destruct (List.find _ _); [|done]. by case_match.
Qed.

Lemma classes_pass_core plan m runner classes :
  (∀ m, m ∈ plan_plugins plan → pv_protocol_classes (pm_provides m) ⊆ classes) →
  m ∈ plan_plugins plan → classes_ok m → runner ∈ pv_runners (pm_provides m) →
  validate_runner_protocol_classes plan runner = Ok tt.
Proof.
  intros Hall Hm Hok Hr. unfold validate_runner_protocol_classes.
  assert (∀ l, (∀ id, id ∈ l → validate_protocol_class plan runner id = Ok tt) →
    check_all (validate_protocol_class plan runner) l = Ok tt) as Hcheck.
  { induction l as [|id l IH]; intros Hl; [done|]. cbn. rewrite (Hl id) by set_solver. apply IH. set_solver. }
  apply Hcheck. intros id Hid. destruct (Hok runner id Hr Hid) as (class & Hc & Hp & Hctl).
  unfold validate_protocol_class. rewrite (find_protocol_class_agrees _ classes m id class Hall Hm Hc), Hp. cbn.
  destruct (decide (class = ProtocolControl)) as [Hcl|Hcl].
  - rewrite (Hctl Hcl). by rewrite (bool_decide_eq_false_2 (_ ≠ _)), andb_false_r by naive_solver.
  - by rewrite (bool_decide_eq_false_2 (class = _)).
Qed.

(** C33: a plan the host resolves has exactly the plugins the profile enables, in
    that order, each deployed in a way its artifact allows; every protocol is
    bound as the profile says or else to the first runner that accepts it, and
    always to a runner that accepts it; and every planned runner passes the
    protocol class check the core makes before it registers the plan. *)
Theorem resolved_plan_consistent manifests profile plan :
  resolve_load_plan manifests profile = Some (Ok plan) →
  pm_plugin_id <$> plan_plugins plan = prof_enabled_plugins profile ∧
  dom (plan_plugin_deployments plan) = list_to_set (prof_enabled_plugins profile) ∧
  (∀ id d, plan_plugin_deployments plan !! id = Some d →
     ∃ m, m ∈ plan_plugins plan ∧ pm_plugin_id m = id ∧
       is_compatible_with_artifact d (pa_artifact_type (pm_artifact m)) = true) ∧
  (∀ p, plan_runner_bindings plan !! p =
     match prof_bindings profile !! p with
     | Some r => Some r
     | None => first_accepting (planned_runners plan) p
     end) ∧
  (∀ p r, plan_runner_bindings plan !! p = Some r →
     ∃ runner, runner ∈ planned_runners plan ∧ d_runner_id runner = r ∧ p ∈ d_accepted_protocol_ids runner) ∧
  (∀ runner, runner ∈ planned_runners plan → validate_runner_protocol_classes plan runner = Ok tt).
Proof.
  unfold resolve_load_plan. intros (r & Hr & H1)%pbind_ok. apply pbind_ok in H1 as (b & Hb & H2).
  apply pbind_ok in H2 as (g & Hg & [= <-]). cbn [plan_plugins plan_plugin_deployments plan_runner_bindings].
  apply resolve_enabled_ok in Hr as ([Hids Hcl Hdom Hdep] & classes & Hall).
  apply runner_bindings_ok in Hb as [Hb1 Hb2]. split_and!; try done.
  intros runner Hin. unfold planned_runners in Hin. cbn in Hin. apply list_elem_of_bind in Hin as (m & Hin & Hm).
  rewrite Forall_forall in Hcl. by eapply classes_pass_core; [exact Hall|exact Hm|apply Hcl|].
Qed.
End ResolverTheorems.
