(* ===== verification/ResolverGraph.v ===== *)
(** * The capability graph is backed by the plugins

    What a resolved capability graph says is provided, required, active,
    selected and permitted, in terms of what the manifests declare. *)

From Stdlib Require Import Ascii.
From S2P Require Import Prelude Contracts RunnerContracts PluginContracts Registry HostErrors ResolverPlugins ResolverCapabilities HostResolver ResolverTheorems.

Section Graphs.
Context `{SJ : SerdeJson}.

(** ** What a manifest declares: prefix, id and version *)

Abbreviation Declaration := (string * string * option string)%type.

Definition decl_cap (d : Declaration) : string := cap d.1.1 d.1.2.

Definition runner_declarations (r : RunnerDescriptor) : list Declaration :=
  ("runner", d_runner_id r, Some (pretty (d_plugin_generation r)))
  :: ((λ p, ("task_protocol", p, None)) <$> d_accepted_protocol_ids r).

Definition type_declarations (t : ResourceTypeDescriptor) : list Declaration :=
  let v := Some (rpc_schema_version (rt_compatibility t)) in
  [("resource_schema", rt_kind_id t, v); ("resource_type", rt_kind_id t, v)].

(** Declarations that are active in every mode. *)
Definition base_declarations (m : PluginManifest) : list Declaration :=
  let p := pm_provides m in
  let named prefix (names : list string) : list Declaration := (λ n, (prefix, n, None)) <$> names in
  [("plugin", pm_plugin_id m, Some (pm_version m))] ++
  (pv_runners p ≫= runner_declarations) ++
  ((λ x, ("protocol", proto_protocol_id x, Some (proto_version x))) <$> pv_protocols p) ++
  named "handler_binding" (hb_binding_id <$> pv_handler_bindings p) ++
  named "resource_schema" (pv_resource_schemas p) ++ named "stream" (pv_streams p) ++
  named "subscription" (pv_subscriptions p) ++ named "timer" (pv_timers p) ++
  named "state_schema" (pv_state_schemas p) ++ named "effect" (effect_protocols p) ++
  (pv_resource_types p ≫= type_declarations).

(** Declarations that may be pruned. *)
Definition extension_declarations (m : PluginManifest) : list Declaration :=
  let p := pm_provides m in
  ((λ x, ("host_extension", hx_extension_id x, None)) <$> pv_host_extensions p) ++
  ((λ x, ("plugin_backend", pb_backend_id x, None)) <$> pv_plugin_backends p) ++
  ((λ x, ("resource_provider", x, None)) <$> pv_resource_providers p) ++
  ((λ x, ("codec", cd_codec_id x, Some (cd_version x))) <$> pv_codecs p) ++
  ((λ x, ("bridge", bd_bridge_id x, None)) <$> pv_bridges p) ++
  ((λ x, ("scheduler_policy", spd_policy_id x, Some (spd_version x))) <$> pv_scheduler_policies p) ++
  ((λ x, ("workflow", wd_workflow_id x, None)) <$> pv_workflows p).

Definition declarations (m : PluginManifest) : list Declaration := base_declarations m ++ extension_declarations m.

(** ** Collecting, as folds over the declarations *)

Definition add_active (m : PluginManifest) (g : Graph) (d : Declaration) : Graph :=
  collect_active_capability m d.1.1 d.1.2 d.2 g.
Definition add_provided (m : PluginManifest) (g : Graph) (d : Declaration) : Graph :=
  collect_provided_capability m d.1.1 d.1.2 d.2 g.

Lemma for_in_bind {A} (step : Graph → Declaration → Graph) (decl : A → list Declaration) (f : A → Graph → Graph) l g :
  (∀ x g, f x g = foldl step g (decl x)) → for_in l f g = foldl step g (l ≫= decl).
Proof.
  intros Hf. unfold for_in. revert g. induction l as [|x l IH]; intros g; [done|]. cbn. by rewrite foldl_app, Hf, IH.
Qed.

Lemma for_in_fmap {A} (step : Graph → Declaration → Graph) (decl : A → Declaration) (f : A → Graph → Graph) l g :
  (∀ x g, f x g = step g (decl x)) → for_in l f g = foldl step g (decl <$> l).
Proof. intros Hf. unfold for_in. revert g. induction l as [|x l IH]; intros g; [done|]. cbn. by rewrite Hf, IH. Qed.

Lemma collect_base_eq m g : collect_base_capabilities m g = foldl (add_active m) g (base_declarations m).
Proof.
  unfold collect_base_capabilities, base_declarations. rewrite !foldl_app. cbn [foldl].
  rewrite <-(for_in_bind (add_active m) runner_declarations (collect_runner m))
    by (intros; unfold collect_runner; cbn; by apply for_in_fmap).
  rewrite <-(for_in_bind (add_active m) type_declarations (collect_resource_type m)) by done.
  by rewrite <-!(for_in_fmap (add_active m) _ (λ x, collect_active_capability m _ _ _)) by done.
Qed.

Lemma collect_system_eq m g :
  collect_system_extension_capabilities m g = foldl (add_provided m) g (extension_declarations m).
Proof.
  unfold collect_system_extension_capabilities, extension_declarations. rewrite !foldl_app.
  by rewrite <-!(for_in_fmap (add_provided m) _ (λ x, collect_provided_capability m _ _ _)) by done.
Qed.

(** ** The providers of a capability *)

Definition provider_of (m : PluginManifest) (d : Declaration) : CapabilityProvider :=
  MkCapabilityProvider (pm_plugin_id m) d.2 (decl_cap d).

Definition manifest_providers (c : string) (m : PluginManifest) : list CapabilityProvider :=
  provider_of m <$> filter (λ d, decl_cap d = c) (declarations m).

Definition providers_of (ms : list PluginManifest) (c : string) : list CapabilityProvider := ms ≫= manifest_providers c.

(** The candidates for [c] after [k] more providers. *)
Definition extend (o : option (list CapabilityProvider)) (k : list CapabilityProvider) : option (list CapabilityProvider) :=
  match k with [] => o | _ => Some (default [] o ++ k) end.

Lemma extend_extend o k k' : extend (extend o k) k' = extend o (k ++ k').
Proof. destruct k, k'; cbn; rewrite ?app_nil_r, <-?app_assoc; done. Qed.

Lemma add_provider_lookup m (d : Declaration) ps c :
  add_provider m d.1.1 d.1.2 d.2 ps !! c =
    extend (ps !! c) (if decide (decl_cap d = c) then [provider_of m d] else []).
Proof.
  unfold add_provider, decl_cap. destruct (decide (cap d.1.1 d.1.2 = c)) as [<-|Hne].
  - by rewrite lookup_insert_eq.
  - by rewrite lookup_insert_ne.
Qed.

Lemma fold_providers_lookup m (step : Graph → Declaration → Graph) ds g c :
  (∀ g d, g_providers (step g d) = add_provider m d.1.1 d.1.2 d.2 (g_providers g)) →
  g_providers (foldl step g ds) !! c = extend (g_providers g !! c) (provider_of m <$> filter (λ d, decl_cap d = c) ds).
Proof.
  intros Hs. revert g. induction ds as [|d ds IH]; intros g; [done|]. cbn [foldl].
  rewrite IH, Hs, add_provider_lookup, extend_extend, filter_cons. by case_decide.
Qed.

Lemma collect_manifest_providers m g c :
  g_providers (collect_manifest m g) !! c = extend (g_providers g !! c) (manifest_providers c m).
Proof.
  unfold collect_manifest. rewrite collect_system_eq, collect_base_eq.
  rewrite !(fold_providers_lookup m) by done. rewrite extend_extend. f_equal.
  unfold manifest_providers, declarations. by rewrite filter_app, fmap_app.
Qed.

Lemma collect_providers ms g c :
  g_providers (for_in ms collect_manifest g) !! c = extend (g_providers g !! c) (providers_of ms c).
Proof.
  unfold for_in, providers_of. revert g. induction ms as [|m ms IH]; intros g; [done|]. cbn.
  by rewrite IH, collect_manifest_providers, extend_extend.
Qed.

Lemma fold_provided (step : Graph → Declaration → Graph) ds g c :
  (∀ g d, g_provided (step g d) = {[decl_cap d]} ∪ g_provided g) →
  c ∈ g_provided (foldl step g ds) ↔ c ∈ g_provided g ∨ c ∈ decl_cap <$> ds.
Proof.
  intros Hs. revert g. induction ds as [|d ds IH]; intros g; cbn; [set_solver|].
  rewrite IH, Hs, elem_of_union, elem_of_singleton, elem_of_cons. tauto.
Qed.

Lemma collect_provided ms g c :
  c ∈ g_provided (for_in ms collect_manifest g) ↔ c ∈ g_provided g ∨ ∃ m, m ∈ ms ∧ c ∈ decl_cap <$> declarations m.
Proof.
  unfold for_in. revert g. induction ms as [|m ms IH]; intros g; cbn [foldl].
  - split; [by left|intros [|(m & Hm & _)]; [done|set_solver]].
  - rewrite IH. unfold collect_manifest. rewrite collect_system_eq, collect_base_eq, !fold_provided by done.
    assert ((∃ m0, m0 ∈ m :: ms ∧ c ∈ decl_cap <$> declarations m0) ↔
      c ∈ decl_cap <$> declarations m ∨ ∃ m0, m0 ∈ ms ∧ c ∈ decl_cap <$> declarations m0) as ->.
    { split; [intros (m0 & [->|Hm]%elem_of_cons & Hc); eauto|intros [Hc|(m0 & Hm & Hc)]; eexists; (split; [|exact Hc]);
        [by left|by right]]. }
    unfold declarations at 2. rewrite fmap_app, elem_of_app. tauto.
Qed.

Lemma collect_active ms c :
  (∃ m d, m ∈ ms ∧ d ∈ base_declarations m ∧ decl_cap d = c) → c ∈ g_active (for_in ms collect_manifest empty_graph).
Proof.
  assert (∀ g (step : Graph → Declaration → Graph) ds,
    (∀ g d, g_active g ⊆ g_active (step g d)) → g_active g ⊆ g_active (foldl step g ds)) as Hmono.
  { intros g step ds Hs. revert g. induction ds as [|d ds IH]; intros g; cbn; [done|]. etrans; [apply Hs|apply IH]. }
  assert (∀ g m ds d, d ∈ ds → decl_cap d ∈ g_active (foldl (add_active m) g ds)) as Hin.
  { intros g m ds d. revert g. induction ds as [|d' ds IH]; intros g; [set_solver|]. intros [->|Hd]%elem_of_cons; cbn; [|auto].
    apply (Hmono _ (add_active m)); [set_solver|]. cbn. unfold decl_cap. set_solver. }
  assert (∀ m g, g_active g ⊆ g_active (collect_manifest m g)) as Hm.
  { intros m g. unfold collect_manifest. rewrite collect_system_eq, collect_base_eq.
    etrans; apply Hmono; cbn; set_solver. }
  assert (∀ ms g, g_active g ⊆ g_active (for_in ms collect_manifest g)) as Hms.
  { unfold for_in. intros l; induction l as [|m' l IH]; intros g; cbn; [done|]. etrans; [apply Hm|apply IH]. }
  intros (m & d & Hmem & Hd & <-). unfold for_in. generalize empty_graph.
  induction ms as [|m' ms IH]; intros g; [set_solver|]. apply elem_of_cons in Hmem as [->|Hmem]; cbn; [|by apply IH].
  apply Hms. unfold collect_manifest. rewrite collect_system_eq, collect_base_eq. apply Hmono; [cbn; set_solver|]. by apply Hin.
Qed.

(** ** Activation *)

(** What activating extensions keeps: the providers and what is provided; active
    capabilities stay active; a resource provider becomes active only with its
    capability. *)
Record activates (g g' : Graph) : Prop := {
  act_providers : g_providers g' = g_providers g;
  act_provided : g_provided g' = g_provided g;
  act_active : g_active g ⊆ g_active g';
  act_resource : ∀ id, id ∈ g_resource_providers g' →
    id ∈ g_resource_providers g ∨ cap "resource_provider" id ∈ g_active g'
}.

#[export] Instance activates_preorder : PreOrder activates.
Proof.
  split; [intros g; by split; auto|]. intros g1 g2 g3 [P1 Q1 A1 R1] [P2 Q2 A2 R2].
  split; [congruence|congruence|by etrans|]. intros id Hid. destruct (R2 id Hid) as [H2|]; [|by right].
  destruct (R1 id H2) as [|H1]; [by left|right; by apply A2].
Qed.

Lemma activates_for_in {A} (l : list A) (f : A → Graph → Graph) g :
  (∀ x g, activates g (f x g)) → activates g (for_in l f g).
Proof.
  intros Hf. unfold for_in. revert g. induction l as [|x l IH]; intros g; cbn; [done|]. by etrans; [apply Hf|].
Qed.

Lemma activates_if set_ids prune required prefix id used g :
  activates g (activate set_ids prefix id g) →
  activates g (activate_extension_if_needed set_ids prune required prefix id used g).2.
Proof. intros Ha. unfold activate_extension_if_needed. by destruct (should_activate_extension _ _ _ _ _). Qed.

Ltac activate_step := split; cbn; [done|done|set_solver|intros; set_solver].

Lemma activate_manifest_activates prune required ms deployments m g :
  activates g (activate_manifest prune required ms deployments m g).
Proof.
  unfold activate_manifest.
  repeat match goal with |- activates ?g (for_in ?l ?f ?h) => etrans; [|apply activates_for_in] end; [reflexivity|..]; clear g.
  - intros x g. apply activates_if. activate_step.
  - intros x g. apply activates_if. activate_step.
  - intros x g. unfold activate_backend.
    pose proof (activates_if (set_field g_plugin_backends) prune required "plugin_backend" (pb_backend_id x)
      (deployment_is_used deployments [pb_deployment_kind x]) g ltac:(activate_step)) as Ha.
    destruct (activate_extension_if_needed _ _ _ _ _ _ _) as [[] g1]; [|exact Ha]. etrans; [exact Ha|]. clear Ha.
    destruct (pb_codec_id x), (pb_bridge_id x); activate_step.
  - intros x g. unfold activate_bridge.
    pose proof (activates_if (set_field g_bridges) prune required "bridge" (bd_bridge_id x)
      (bool_decide (bd_bridge_id x ∈ g_bridges g)) g ltac:(activate_step)) as Ha.
    destruct (activate_extension_if_needed _ _ _ _ _ _ _) as [[] g1]; [|exact Ha]. etrans; [exact Ha|]. activate_step.
  - intros x g. apply activates_if. activate_step.
  - intros x g. apply activates_if. activate_step.
  - intros x g. apply activates_if. activate_step.
Qed.

(** The finished graph. *)
Lemma build_graph_spec profile ms deployments requirements :
  let g := build_graph profile ms deployments requirements in
  (∀ c, g_providers g !! c = extend None (providers_of ms c)) ∧
  (∀ c, c ∈ g_provided g ↔ ∃ m, m ∈ ms ∧ c ∈ decl_cap <$> declarations m) ∧
  (∀ m d, m ∈ ms → d ∈ base_declarations m → decl_cap d ∈ g_active g) ∧
  (∀ id, id ∈ g_resource_providers g → cap "resource_provider" id ∈ g_active g).
Proof.
  cbv zeta. unfold build_graph. set (g0 := for_in ms collect_manifest empty_graph).
  set (g := for_in ms _ g0). assert (activates g0 g) as [P Q A R] by (apply activates_for_in; intros; apply activate_manifest_activates).
  split_and!.
  - intros c. rewrite P. unfold g0. by rewrite collect_providers.
  - intros c. rewrite Q. unfold g0. rewrite collect_provided. split; [intros [[]%elem_of_empty|]; done|by right].
  - intros m d Hm Hd. apply A, collect_active. eauto.
  - intros id Hid. destruct (R id Hid) as [H0|]; [|done]. exfalso. revert H0. unfold g0. clear.
    assert (∀ g, g_resource_providers (for_in ms collect_manifest g) = g_resource_providers g) as ->; [|set_solver].
    assert (∀ (step : Graph → Declaration → Graph) ds g, (∀ g d, g_resource_providers (step g d) = g_resource_providers g) →
      g_resource_providers (foldl step g ds) = g_resource_providers g) as Hf
      by (intros step ds; induction ds as [|d ds IH]; intros g Hs; cbn; [done|by rewrite IH]).
    unfold for_in. induction ms as [|m ms IH]; intros g; cbn; [done|]. rewrite IH. unfold collect_manifest.
    by rewrite collect_system_eq, collect_base_eq, !Hf.
Qed.

(** ** Selection *)

(** The order of versions, and what a comparison sign asks of the actual and
    the required version. *)
Definition version_lt (a b : N * N * N) : Prop :=
  (a.1.1 < b.1.1 ∨ a.1.1 = b.1.1 ∧ (a.1.2 < b.1.2 ∨ a.1.2 = b.1.2 ∧ a.2 < b.2))%N.

Inductive compared : string → N * N * N → N * N * N → Prop :=
  | compared_eq v : compared "=" v v
  | compared_gt a r : version_lt r a → compared ">" a r
  | compared_ge a r : ¬ version_lt a r → compared ">=" a r
  | compared_lt a r : version_lt a r → compared "<" a r
  | compared_le a r : ¬ version_lt r a → compared "<=" a r.

(** The constraint is a sign and a version, or only a version for an equal one. *)
Definition version_accepted (version constraint : string) : Prop :=
  ∃ sign text actual required, (constraint = sign +:+ text ∨ sign = "=" ∧ constraint = text) ∧
    parse_version version = Some actual ∧ parse_version text = Some required ∧ compared sign actual required.

Lemma version_compare_lt a b : version_compare a b = Lt ↔ version_lt a b.
Proof.
  destruct a as [[a1 a2] a3], b as [[b1 b2] b3]. unfold version_compare, version_lt. cbn.
  destruct (N.compare_spec a1 b1), (N.compare_spec a2 b2), (N.compare_spec a3 b3); split; (done || lia).
Qed.

Lemma version_compare_gt a b : version_compare a b = Gt ↔ version_lt b a.
Proof.
  destruct a as [[a1 a2] a3], b as [[b1 b2] b3]. unfold version_compare, version_lt. cbn.
  destruct (N.compare_spec a1 b1), (N.compare_spec a2 b2), (N.compare_spec a3 b3); split; (done || lia).
Qed.

Lemma version_compare_eq a b : version_compare a b = Eq → a = b.
Proof.
  destruct a as [[a1 a2] a3], b as [[b1 b2] b3]. unfold version_compare.
  destruct (N.compare_spec a1 b1), (N.compare_spec a2 b2), (N.compare_spec a3 b3); (done || congruence).
Qed.

Lemma parse_operator_spec operators constraint sign text :
  parse_operator operators constraint = (sign, text) → constraint = sign +:+ text ∨ sign = "=" ∧ constraint = text.
Proof.
  induction operators as [|op operators IH]; cbn; [intros [= <- <-]; by right|].
  destruct (strip_prefix op constraint) as [rest|] eqn:E; [|done]. intros [= <- <-]. left. by apply strip_prefix_spec.
Qed.

Lemma version_matches_accepted version constraint :
  version_matches_constraint version constraint = true → version_accepted version constraint.
Proof.
  unfold version_matches_constraint. destruct (parse_version_constraint constraint) as [sign text] eqn:Ep.
  destruct (parse_version version) as [actual|] eqn:Ea; [|done]. destruct (parse_version text) as [required|] eqn:Er; [|done].
  intros Hc. exists sign, text, actual, required. split_and!; [by eapply parse_operator_spec|done|done|]. revert Hc.
  repeat case_decide; subst; try done; intros Hc%bool_decide_eq_true_1.
  - apply version_compare_eq in Hc as ->. constructor.
  - constructor. by apply version_compare_gt.
  - constructor. by rewrite <-version_compare_lt.
  - constructor. by apply version_compare_lt.
  - constructor. by rewrite <-version_compare_gt.
Qed.

Definition version_ok (constraint : option string) (version : option string) : Prop :=
  match constraint with
  | None => True
  | Some k => ∃ v, version = Some v ∧ version_accepted v k
  end.

Lemma select_candidate_ok c k l p : select_candidate c k l = Some (Ok p) → p ∈ l ∧ version_ok k (cp_provider_version p).
Proof.
  induction l as [|q l IH]; cbn; [done|]. destruct k as [k|]; cbn in *; [|intros [= <-]; set_solver].
  destruct (cp_provider_version q) as [v|] eqn:Ev; [|done]. destruct (version_matches_constraint v k) eqn:Em.
  - intros [= <-]. split; [set_solver|]. exists v. split; [done|]. by apply version_matches_accepted.
  - intros H1. destruct (IH H1). split; [set_solver|done].
Qed.

Section Selection.
Variable ms : list PluginManifest.
Variable providers : gmap string (list CapabilityProvider).
Hypothesis Hproviders : ∀ c, providers !! c = extend None (providers_of ms c).

(** The plugin with this id and version declares the capability. *)
Definition declared_by (c plugin_id : string) (version : option string) : Prop :=
  ∃ m d, m ∈ ms ∧ pm_plugin_id m = plugin_id ∧ d ∈ declarations m ∧ decl_cap d = c ∧ d.2 = version.

Lemma elem_of_providers_of c p : p ∈ providers_of ms c →
  cp_surface_id p = c ∧ declared_by c (cp_provider_plugin_id p) (cp_provider_version p).
Proof.
  unfold providers_of, manifest_providers. rewrite list_elem_of_bind. intros (m & Hp & Hm).
  apply list_elem_of_fmap in Hp as (d & -> & Hd). apply list_elem_of_filter in Hd as [Hc Hd].
  split; [done|]. exists m, d. split_and!; done.
Qed.

Lemma select_provider_ok c k p : select_provider c k providers = Some (Ok p) →
  cp_surface_id p = c ∧ declared_by c (cp_provider_plugin_id p) (cp_provider_version p) ∧ version_ok k (cp_provider_version p).
Proof.
  unfold select_provider. rewrite Hproviders. destruct (providers_of ms c) as [|q l] eqn:E; [done|]. cbn [extend default app].
  destruct (select_candidate _ _ _) as [r|] eqn:Es; [|by destruct k]. intros [= ->].
  apply select_candidate_ok in Es as [Hp Hv]. rewrite <-E in Hp. apply elem_of_providers_of in Hp as [??]. done.
Qed.

Lemma select_provider_total c k : select_provider c k providers ≠ None.
Proof.
  unfold select_provider. rewrite Hproviders. destruct (providers_of ms c) as [|q l]; [done|]. cbn [extend default app].
  destruct k as [k|]; [|done]. by destruct (select_candidate _ _ _).
Qed.

Lemma select_for_requirement_ok c r p : select_provider_for_requirement c r providers = Some (Ok p) →
  cp_surface_id p = c ∧ declared_by c (cp_provider_plugin_id p) (cp_provider_version p) ∧
  version_ok (cr_version_constraint r) (cp_provider_version p).
Proof.
  unfold select_provider_for_requirement. intros Hs. apply select_provider_ok. revert Hs.
  destruct (select_provider _ _ _) as [[|]|]; [done|by destruct (cr_version_constraint r)|done].
Qed.

Lemma select_for_requirement_total c r : select_provider_for_requirement c r providers ≠ None.
Proof.
  unfold select_provider_for_requirement. pose proof (select_provider_total c (cr_version_constraint r)).
  destruct (select_provider _ _ _) as [[|]|]; [done|by destruct (cr_version_constraint r)|done].
Qed.

(** A selection for a capability names a plugin that declares it, in a version
    that the requirement found for it accepts. *)
Definition selected (requirements : list CapabilityRequirement) (c : string) (s : CapabilityProviderSelection) : Prop :=
  cps_capability s = c ∧ cps_surface_id s = c ∧ declared_by c (cps_provider_plugin_id s) (cps_provider_version s) ∧
  version_ok (List.find (λ r, bool_decide (cr_capability r = c)) requirements ≫= cr_version_constraint) (cps_provider_version s).

Lemma select_active_ok requirements c selections selections' :
  select_active requirements providers c selections = Some (Ok selections') →
  ∃ s, selections' = selections ++ [s] ∧ selected requirements c s.
Proof.
  unfold select_active. intros (p & Hp & [= <-])%pbind_ok. eexists; split; [done|].
  unfold selected. cbn. destruct (List.find _ _) as [r|]; cbn.
  - apply select_for_requirement_ok in Hp as (? & ? & ?). done.
  - apply select_provider_ok in Hp as (? & ? & ?). done.
Qed.

Lemma select_active_total requirements c selections : select_active requirements providers c selections ≠ None.
Proof.
  unfold select_active. apply pbind_total; [|done].
  destruct (List.find _ _); [apply select_for_requirement_total|apply select_provider_total].
Qed.

Lemma active_providers_ok active requirements selections :
  active_capability_providers active requirements providers = Some (Ok selections) →
  Forall2 (selected requirements) (btree_elements active) selections.
Proof.
  unfold active_capability_providers. assert (∀ l done0 sel0, Forall2 (selected requirements) done0 sel0 →
    pfold (select_active requirements providers) l sel0 = Some (Ok selections) →
    Forall2 (selected requirements) (done0 ++ l) selections) as Hall; [|by apply (Hall _ [] []); constructor].
  induction l as [|c l IH]; intros done0 sel0 H0; cbn; [intros [= <-]; by rewrite app_nil_r|].
  intros (s1 & H1 & H2)%pbind_ok. apply select_active_ok in H1 as (s & -> & Hs).
  assert (Forall2 (selected requirements) (done0 ++ [c]) (sel0 ++ [s])) as H3 by (apply Forall2_app; [done|constructor; [exact Hs|constructor]]).
  specialize (IH _ _ H3 H2). by rewrite <-app_assoc in IH.
Qed.
End Selection.

(** ** Requirements and permissions *)

(** What the text of a requirement asks for: a capability, and after the last
    [@] a version constraint. *)
Definition requirement_text (raw capability : string) (constraint : option string) : Prop :=
  match constraint with
  | Some k => raw = capability +:+ "@" +:+ k ∧ absent "@"%char k
  | None => raw = capability ∧ absent "@"%char raw
  end.

Lemma parse_requirement_text raw :
  requirement_text raw (cr_capability (parse_requirement raw)) (cr_version_constraint (parse_requirement raw)).
Proof.
  unfold parse_requirement. destruct (rsplit_once _ raw) as [[c k]|] eqn:E; cbn.
  - by apply rsplit_once_spec in E.
  - split; [done|]. by apply rsplit_once_None.
Qed.

Section Grants.
Variable ms : list PluginManifest.
Variables active providers : gset string.

(** The active capability [c] is one that the requirement names: itself, when
    it is active; the provider of a resource strategy; or, for a name without a
    prefix, a capability with this name after its last colon. *)
Definition meets (capability c : string) : Prop :=
  c ∈ active ∧
  (c = capability ∨
   capability ∉ active ∧
   ((∃ id, capability = "resource_strategy:" +:+ id ∧ id ∈ providers ∧ c = cap "resource_provider" id) ∨
    absent ":"%char capability ∧ ∃ prefix, c = cap prefix capability)).

Lemma active_for_requirement_ok r c :
  (∀ id, id ∈ providers → cap "resource_provider" id ∈ active) →
  active_capability_for_requirement r active providers = Some c → meets (cr_capability r) c.
Proof.
  intros Hrp. unfold active_capability_for_requirement, meets. case_decide as Ha; [intros [= <-]; split; [done|by left]|].
  assert (∀ o : option string, (if contains_char ":"%char (cr_capability r) then None else o) = Some c →
    absent ":"%char (cr_capability r) ∧ o = Some c) as Hplain
    by (intros o; destruct (contains_char _ _) eqn:Ec; [done|]; split; [by apply contains_char_absent|done]).
  destruct (strip_prefix _ _) as [id|] eqn:Es; [apply strip_prefix_spec in Es; case_decide|].
  1: intros [= <-]; split; [by apply Hrp|]; right; split; [done|]; left; eauto.
  all: intros (Habs & [Hc Hid]%find_some_spec)%Hplain; split; [by apply elem_of_btree_elements|]; right; split; [done|]; right; split; [done|].
  all: destruct (rsplit_once _ c) as [[prefix id']|] eqn:E; [|done]; apply bool_decide_eq_true_1 in Hid as ->.
  all: exists prefix; by apply rsplit_once_spec in E as [-> _].
Qed.

(** The capability [c] allows what the permission names.  For a resource it is
    the permission itself, or the provider, type or schema of that name, or a
    resource type with an active provider that has the operation asked for,
    where the permission may also name the kind. *)
Definition permits (kind permission c : string) : Prop :=
  c ∈ active ∧
  (kind = "effect" ∧ c = cap "effect" permission ∨
   kind = "resource" ∧
   (c ∈ [permission; cap "resource_provider" permission; cap "resource_type" permission; cap "resource_schema" permission] ∨
    ∃ m t operation, m ∈ ms ∧ t ∈ pv_resource_types (pm_provides m) ∧ operation ∈ rt_operations t ∧
      rt_provider_id t ∈ providers ∧ c = cap "resource_type" (rt_kind_id t) ∧
      (permission = "resource:" +:+ rt_kind_id t +:+ ":" +:+ operation ∧ absent ":"%char (rt_kind_id t) ∨
       permission = operation ∧ ∀ kind_id rest, permission ≠ "resource:" +:+ kind_id +:+ ":" +:+ rest))).

Lemma active_operation_ok kind_id operation c :
  (∀ m d, m ∈ ms → d ∈ base_declarations m → decl_cap d ∈ active) →
  active_resource_operation kind_id operation ms providers = Some c →
  c ∈ active ∧ ∃ m t, m ∈ ms ∧ t ∈ pv_resource_types (pm_provides m) ∧ operation ∈ rt_operations t ∧
    rt_provider_id t ∈ providers ∧ c = cap "resource_type" (rt_kind_id t) ∧ (∀ k, kind_id = Some k → rt_kind_id t = k).
Proof.
  intros Hbase. unfold active_resource_operation. destruct (List.find _ _) as [t|] eqn:Et; [|done].
  unfold active_resource_type_capability. case_decide as Hp; [|done]. intros [= <-].
  apply find_some_spec in Et as [Ht [Hkind Hop%bool_decide_eq_true_1]%andb_true_iff]. apply list_elem_of_bind in Ht as (m & Ht & Hm). split.
  - apply (Hbase m ("resource_type", rt_kind_id t, Some (rpc_schema_version (rt_compatibility t)))); [done|].
    unfold base_declarations. do 10 (apply elem_of_app; right). apply list_elem_of_bind.
    exists t. split; [|done]. unfold type_declarations. set_solver.
  - exists m, t. split_and!; try done. intros k ->. by apply bool_decide_eq_true_1 in Hkind.
Qed.

Lemma resource_permission_ok permission c :
  (∀ m d, m ∈ ms → d ∈ base_declarations m → decl_cap d ∈ active) →
  resource_permission_capability permission ms active providers = Some c → permits "resource" permission c.
Proof.
  intros Hbase. unfold resource_permission_capability, permits.
  case_decide; [intros [= <-]; split; [done|]; right; split; [done|]; left; set_solver|].
  destruct (List.find _ _) as [c'|] eqn:Ef.
  { intros [= <-]. apply find_some_spec in Ef as [Hin Hc]. apply bool_decide_eq_true_1 in Hc. split; [done|].
    right. split; [done|]. left. right. exact Hin. }
  clear Ef. destruct (strip_prefix "resource:" permission ≫= split_once ":"%char) as [[kind_id operation]|] eqn:Es.
  - intros (Hc & m & t & Hm & Ht & Hop & Hp & Hct & Hk)%active_operation_ok; [|done]. split; [done|]. right. split; [done|]. right.
    exists m, t, operation. split_and!; try done. left. rewrite (Hk kind_id eq_refl).
    apply bind_Some in Es as (rest & ->%strip_prefix_spec & [-> Habs]%split_once_spec). done.
  - intros (Hc & m & t & Hm & Ht & Hop & Hp & Hct & _)%active_operation_ok; [|done]. split; [done|]. right. split; [done|]. right.
    exists m, t, permission. split_and!; try done. right. split; [done|]. intros kind_id rest Heq.
    apply bind_None in Es as [Es|(text & Es & Hsplit)].
    + by rewrite (proj2 (strip_prefix_spec _ _ _) Heq) in Es.
    + rewrite (proj2 (strip_prefix_spec _ _ _) Heq) in Es. injection Es as <-. by apply (split_once_None _ _ Hsplit kind_id rest).
Qed.

(** An audited permission is granted by an active capability that permits it. *)
Definition granted (e : PermissionAuditEntry) : Prop :=
  pae_granted e = true ∧ ∃ c, pae_provider_capability e = Some c ∧ permits (pae_permission_kind e) (pae_permission e) c.
End Grants.

Definition permissions_of (m : PluginManifest) : list (string * string * string) :=
  ((λ p, (pm_plugin_id m, "effect", p)) <$> pgr_effects (pm_permissions m)) ++
  ((λ p, (pm_plugin_id m, "resource", p)) <$> pgr_resources (pm_permissions m)).

Definition entry_key (e : PermissionAuditEntry) : string * string * string :=
  (pae_plugin_id e, pae_permission_kind e, pae_permission e).

(** [audit'] is [audit] with one granted entry per permission in [ps]. *)
Definition audits (grant : PermissionAuditEntry → Prop) (ps : list (string * string * string))
    (audit audit' : list PermissionAuditEntry) : Prop :=
  ∃ new, audit' = audit ++ new ∧ entry_key <$> new = ps ∧ Forall grant new.

Lemma audits_nil grant audit : audits grant [] audit audit.
Proof. exists []. by rewrite app_nil_r. Qed.

Lemma audits_app grant ps ps' a1 a2 a3 : audits grant ps a1 a2 → audits grant ps' a2 a3 → audits grant (ps ++ ps') a1 a3.
Proof.
  intros (n1 & -> & H1 & G1) (n2 & -> & H2 & G2). exists (n1 ++ n2).
  rewrite app_assoc, fmap_app, H1, H2, Forall_app. done.
Qed.

Lemma audits_pfold {A} grant (key : A → list (string * string * string)) (body : A → list PermissionAuditEntry → P (list PermissionAuditEntry)) l a a' :
  (∀ x a a', x ∈ l → body x a = Some (Ok a') → audits grant (key x) a a') →
  pfold body l a = Some (Ok a') → audits grant (l ≫= key) a a'.
Proof.
  revert a. induction l as [|x l IH]; intros a Hb; cbn; [intros [= <-]; apply audits_nil|].
  intros (a1 & H1 & H2)%pbind_ok. eapply audits_app; [eapply Hb; [by left|exact H1]|].
  apply IH; [|done]. intros y b b' Hy. apply Hb. by right.
Qed.

Lemma permission_audit_ok ms active resource_providers audit :
  (∀ m d, m ∈ ms → d ∈ base_declarations m → decl_cap d ∈ active) →
  permission_audit_for ms active resource_providers = Some (Ok audit) →
  entry_key <$> audit = (ms ≫= permissions_of) ∧ Forall (granted ms active resource_providers) audit.
Proof.
  intros Hbase Ha. assert (audits (granted ms active resource_providers) (ms ≫= permissions_of) [] audit) as (new & -> & Hk & Hg); [|done].
  eapply audits_pfold; [|exact Ha]. clear Ha audit. intros m a a' _ (a1 & H1 & H2)%pbind_ok. unfold permissions_of.
  eapply audits_app.
  - eapply (audits_pfold _ (λ p, [(pm_plugin_id m, "effect", p)])) in H1.
    + replace (_ <$> _) with (pgr_effects (pm_permissions m) ≫= (λ p, [(pm_plugin_id m, "effect", p)])); [exact H1|].
      generalize (pgr_effects (pm_permissions m)). clear. intros l. induction l as [|p l IH]; [done|]. cbn. by rewrite IH.
    + intros p b b' _. unfold audit_effect. case_decide; [|done]. intros [= <-]. eexists; split; [done|].
      split; [done|]. constructor; [|constructor]. split; [done|]. eexists; split; [done|]. split; [done|]. by left.
  - eapply (audits_pfold _ (λ p, [(pm_plugin_id m, "resource", p)])) in H2.
    + replace (_ <$> _) with (pgr_resources (pm_permissions m) ≫= (λ p, [(pm_plugin_id m, "resource", p)])); [exact H2|].
      generalize (pgr_resources (pm_permissions m)). clear. intros l. induction l as [|p l IH]; [done|]. cbn. by rewrite IH.
    + intros p b b' _. unfold audit_resource. destruct (resource_permission_capability _ _ _ _) as [c|] eqn:Ec; [|done].
      intros [= <-]. eexists; split; [done|]. split; [done|]. constructor; [|constructor]. split; [done|].
      exists c. split; [done|]. by eapply resource_permission_ok.
Qed.

Lemma list_to_set_btree_elements (X : gset string) : list_to_set (btree_elements X) = X.
Proof. apply set_eq. intros c. by rewrite elem_of_list_to_set, elem_of_btree_elements. Qed.

(** ** The theorems *)

(** resolving a load plan never panics: the [expect]s of the resolver (a
    normalized protocol class, a version constraint when no candidate fits)
    always hold. *)
Theorem resolve_load_plan_total manifests profile : resolve_load_plan manifests profile ≠ None.
Proof.
  unfold resolve_load_plan. apply pbind_total; [apply resolve_enabled_total|]. intros r _.
  apply pbind_total; [apply runner_bindings_total|]. intros b _. apply pbind_total; [|done].
  unfold capability_graph_for. cbv zeta. set (requirements := parse_requirements _). set (ms := rp_manifests r).
  destruct (build_graph_spec profile ms (rp_deployments r) requirements) as (Hp & _).
  set (g := build_graph _ _ _ _) in *.
  apply pbind_total; [|intros _ _; apply pbind_total; [|intros _ _; apply pbind_total; [|intros _ _; apply pbind_total]]].
  - apply (pfold_total (λ _, True)); [|done]. intros [prefix ids] [] _ _. split; [|done].
    apply (pfold_total (λ _, True)); [|done]. intros id [] _ _. split; [|done]. by case_match.
  - apply (pfold_total (λ _, True)); [|done]. intros t [] _ _. split; [|done]. by case_decide.
  - apply (pfold_total (λ _, True)); [|done]. intros q [] _ _. split; [|done]. destruct (active_capability_for_requirement _ _ _); [|done].
    apply pbind_total; [by eapply select_for_requirement_total|done].
  - apply (pfold_total (λ _, True)); [|done]. intros c sel _ _. split; [|done]. by eapply select_active_total.
  - intros sel _. apply pbind_total; [|done]. apply (pfold_total (λ _, True)); [|done]. intros m a _ _. split; [|done].
    apply pbind_total; [|intros a1 _]; (apply (pfold_total (λ _, True)); [|done]); intros x a2 _ _; split; try done.
    + unfold audit_effect. by case_decide.
    + unfold audit_resource. by case_match.
Qed.

(** C34: in a resolved plan everything the capability graph claims is backed by
    the plugins: the provided capabilities are exactly the declared ones; each
    active capability is assigned to a plugin that declares it, in a version the
    requirement for it accepts; each requirement of a plugin is met by an active
    capability that it names - in full, by the provider of a resource strategy or
    by the name alone - and that some plugin declares in a version within the
    requirement's constraint; and each permission a plugin asks for is granted
    through an active capability that permits it: the effect, the resource by
    name, or a resource type with the operation asked for and an active provider. *)
Theorem resolved_capabilities_backed manifests profile plan :
  resolve_load_plan manifests profile = Some (Ok plan) →
  let ms := plan_plugins plan in
  let g := plan_capability_graph plan in
  let active := list_to_set (cg_active_capabilities g) in
  let providers := list_to_set (cg_active_resource_providers g) in
  let requirements := parse_requirement <$> cg_required_capabilities g in
  (∀ c, c ∈ cg_provided_capabilities g ↔ ∃ m, m ∈ ms ∧ c ∈ decl_cap <$> declarations m) ∧
  Forall2 (selected ms requirements) (cg_active_capabilities g) (cg_active_capability_providers g) ∧
  (∀ m raw, m ∈ ms → raw ∈ pm_requires m →
     ∃ capability constraint c plugin_id version, requirement_text raw capability constraint ∧
       meets active providers capability c ∧ declared_by ms c plugin_id version ∧ version_ok constraint version) ∧
  entry_key <$> cg_permission_audit g = (ms ≫= permissions_of) ∧
  Forall (granted ms active providers) (cg_permission_audit g).
Proof.
  unfold resolve_load_plan. intros (r & Hr & H1)%pbind_ok. apply pbind_ok in H1 as (b & Hb & H2).
  apply pbind_ok in H2 as (graph & Hg & [= <-]). cbn [plan_plugins plan_capability_graph]. clear Hr Hb b.
  set (ms := rp_manifests r) in *. unfold capability_graph_for in Hg. cbv zeta in Hg.
  set (raws := list_to_set _ : gset string) in Hg. set (requirements := parse_requirements raws) in Hg.
  destruct (build_graph_spec profile ms (rp_deployments r) requirements) as (Hp & Hpr & Hbase & Hrp).
  set (g := build_graph _ _ _ _) in *.
  apply pbind_ok in Hg as (_ & _ & Hg). apply pbind_ok in Hg as (_ & _ & Hg).
  apply pbind_ok in Hg as ([] & Hreq & Hg). apply pbind_ok in Hg as (sel & Hsel & Hg).
  apply pbind_ok in Hg as (audit & Haudit & [= <-]).
  cbn [cg_provided_capabilities cg_active_capabilities cg_active_capability_providers cg_required_capabilities
       cg_active_resource_providers cg_permission_audit]. cbv zeta. rewrite !list_to_set_btree_elements.
  apply permission_audit_ok in Haudit as [Hk Hgr]; [|exact Hbase]. split_and!; [| | |done|done].
  - intros c. by rewrite elem_of_btree_elements, Hpr.
  - by eapply active_providers_ok.
  - intros m raw Hm Hraw. assert (parse_requirement raw ∈ requirements) as Hin.
    { unfold requirements, parse_requirements. apply list_elem_of_fmap_2, elem_of_btree_elements.
      unfold raws. apply elem_of_list_to_set, list_elem_of_bind. eauto. }
    pose proof (pfold_unit_ok _ _ _ Hreq _ Hin) as Hc. cbn in Hc.
    destruct (active_capability_for_requirement _ _ _) as [c|] eqn:Ec; [|done].
    apply pbind_ok in Hc as (p & Hsp & _). eapply select_for_requirement_ok in Hsp as (_ & Hd & Hv); [|exact Hp].
    exists (cr_capability (parse_requirement raw)), (cr_version_constraint (parse_requirement raw)), c,
      (cp_provider_plugin_id p), (cp_provider_version p).
    split_and!; [apply parse_requirement_text|by apply active_for_requirement_ok|done|done].
Qed.
End Graphs.
