(* ===== verification/HostWitnesses.v ===== *)
(** * Receipts and schedules on concrete inputs

    A store that keeps one receipt for a hundred nanoseconds, and a runner that
    is offered more work than its pool has slots for.

    Below, resolved plans. *)

From S2P Require Import Prelude Contracts RunnerContracts PluginContracts DemoJson TaskClaiming Registry CapabilityRequest HostErrors HostScheduler ResolverPlugins ResolverCapabilities HostResolver ResolverTheorems ResolverGraph.

#[export] Instance TextShape : JsonShape := JString.

Definition one_receipt : ReceiptRetentionPolicy := MkRetention (Some 1%N) None (Some 100%N).

Definition accepted (id : string) : DeliveryReceipt := ReceiptAccepted id (Some "task").

(** The second call repeats the first; the third displaces its receipt; the
    fifth comes when the receipt of the fourth has expired. *)
Definition demo_calls : list AcceptCall :=
  [MkAcceptCall "a" (accepted "a") 0; MkAcceptCall "a" (accepted "a") 10;
   MkAcceptCall "b" (ReceiptCompleted "b" None "done") 20; MkAcceptCall "a" (accepted "a") 30;
   MkAcceptCall "a" (accepted "a") 130].

Example demo_calls_answered :
  (run_store demo_calls (with_policy one_receipt)).1 =
  [accepted "a"; ReceiptDuplicate "a" (accepted "a"); ReceiptCompleted "b" None "done"; accepted "a"; accepted "a"] ∧
  store_stats (run_store demo_calls (with_policy one_receipt)).2 = MkReceiptStoreStats 1 37 3.
Proof. split; vm_compute; reflexivity. Qed.

Lemma receipt_store_refines_witness :
  StronglySorted N.le (ac_now <$> demo_calls) ∧
  ∃ s rs l n,
    run_store demo_calls (with_policy one_receipt) = (rs, s) ∧
    run_log one_receipt demo_calls [] = (rs, l, n) ∧
    represents s l ∧ is_evictions s = N.min (N.of_nat n) u64_max ∧ within one_receipt l ∧
    ∀ id now, get_at id now s = log_get one_receipt id now l.
Proof.
  assert (StronglySorted N.le (ac_now <$> demo_calls)) as Hs.
  { repeat constructor; vm_compute; discriminate. }
  split; [exact Hs|].
  apply (receipt_store_refines one_receipt demo_calls Hs). vm_compute. discriminate.
Defined.

(** ** A schedule *)

Definition pooled_runner : RunnerDescriptor :=
  {| d_runner_id := "net.runner"; d_plugin_id := "net"; d_plugin_generation := 1;
     d_accepted_protocol_ids := ["effect.send"]; d_purity := Effectful; d_execution_class := Io;
     d_invocation_mode := AsyncReentrant; d_concurrency := Reentrant 4 10;
     d_input_schema := "{}"; d_output_schema := "{}";
     d_batch := RunnerBatchCapability_default; d_payload := RunnerPayloadCapability_default;
     d_resources := RunnerResourceCapability_default; d_ordering := RunnerOrderingCapability_default;
     d_control := RunnerControlCapability_default; d_metadata := ∅; d_contract_surfaces := [] |}.

Definition small_pool : PoolCapacitySnapshot := MkPoolCapacitySnapshot 3 1 2 1 2 100 1000.

(** Three entries run and one waits; the policy asks for a thousand. *)
Definition demo_schedule : option (RuntimeResult ScheduleDecision) :=
  decide_schedule pooled_runner (MkRunnerLoad 3 1 50 0) 7 1 default_runner_limits 2 small_pool 1
    (λ _, Ok (ScheduleDecision_new "greedy" 1000 "more")).

Definition demo_decision : ScheduleDecision :=
  match demo_schedule with
  | Some (Ok decision) => decision
  | _ => ScheduleDecision_new "none" 0 "none"
  end.

Lemma schedule_within_capacity_witness :
  demo_schedule = Some (Ok demo_decision) ∧
  (0 < dec_dispatch_limit demo_decision)%N ∧
  (3 + 1 + dec_dispatch_limit demo_decision ≤ 10)%N ∧
  (1 + db_max_batches (dec_budget demo_decision) ≤ 4)%N ∧
  (100 + db_max_bytes (dec_budget demo_decision) ≤ 1000)%N.
Proof.
  assert (demo_schedule = Some (Ok demo_decision)) as Hd by (vm_compute; reflexivity).
  assert (0 < dec_dispatch_limit demo_decision)%N as Hp by (vm_compute; reflexivity).
  split; [exact Hd|]. split; [exact Hp|].
  destruct (schedule_within_capacity pooled_runner (MkRunnerLoad 3 1 50 0) 7 1 default_runner_limits 2 small_pool 1
    (λ _, Ok (ScheduleDecision_new "greedy" 1000 "more")) demo_decision) as (Hg & Hb & _).
  - vm_compute. discriminate.
  - exact Hd.
  - destruct (Hg Hp) as (_ & Hadm). unfold admissible in Hadm. cbv zeta in Hadm.
    rewrite decide_False in Hadm by discriminate. destruct Hadm as (_ & Hr & _ & _ & _ & Hc). cbn in Hr, Hb, Hc. lia.
Defined.

(** ** The resolver on concrete plugins

    A small profile with two plugins: one whose backend needs a bridge, one
    that provides the bridge and its codec. *)

Definition demo_manifest (id : string) (provides : PluginProvides) (requires effects : list string) : PluginManifest := {|
  pm_plugin_id := id; pm_version := "1.2.0"; pm_api_version := "mutsuki-plugin-v1";
  pm_artifact := MkPluginArtifact ArtifactNative id "sha256:demo";
  pm_provides := provides; pm_requires := requires;
  pm_permissions := MkPermissionGrant effects [];
  pm_lifecycle := MkLifecyclePolicy "drain" 0 true true true; pm_metadata := ∅ |}.

Definition effect_runner : RunnerDescriptor :=
  {| d_runner_id := "net.runner"; d_plugin_id := "net"; d_plugin_generation := 1;
     d_accepted_protocol_ids := ["effect.send"; "effect.recv"; "effect.send"];
     d_purity := Effectful; d_execution_class := Io; d_invocation_mode := SyncExclusive;
     d_concurrency := Exclusive; d_input_schema := "{}"; d_output_schema := "{}";
     d_batch := RunnerBatchCapability_default; d_payload := RunnerPayloadCapability_default;
     d_resources := RunnerResourceCapability_default; d_ordering := RunnerOrderingCapability_default;
     d_control := RunnerControlCapability_default; d_metadata := ∅;
     d_contract_surfaces := ["runner:net.runner"] |}.

(** A plugin with a runner and a backend that goes through a bridge. *)
Definition net_plugin : PluginManifest :=
  demo_manifest "net"
    ((with_runners_and_classes empty_provides [effect_runner] ∅)
       <| pv_plugin_backends := [MkPluginBackendDescriptor "net.backend" DeployBuiltin "t" "r" None (Some "net.bridge")] |>)
    ["plugin:wire@>=1.0"] ["effect.send"].

(** The plugin with the bridge and its codec. *)
Definition wire_plugin : PluginManifest :=
  demo_manifest "wire"
    (empty_provides
       <| pv_bridges := [MkBridgeDescriptor "net.bridge" DeployBuiltin ["wire.codec"] "drain"] |>
       <| pv_codecs := [MkCodecDescriptor "wire.codec" "application/x" "1.0" true] |>)
    [] [].

Definition pruned_profile (enabled : list string) : RuntimeProfile := {|
  prof_profile_id := "demo"; prof_mode := LockedBuiltin; prof_enabled_plugins := enabled;
  prof_bindings := ∅; prof_plugin_deployments := ∅; prof_observability := ObservabilityProfile_default;
  prof_allow_dynamic_registration := false; prof_allow_hot_reload := false |}.

Definition demo_plan (enabled : list string) : P RuntimeLoadPlan :=
  resolve_load_plan [net_plugin; wire_plugin] (pruned_profile enabled).

Definition plan_ok (p : P RuntimeLoadPlan) : bool := match p with Some (Ok _) => true | _ => false end.
Definition plan_opens (p : P RuntimeLoadPlan) : bool :=
  match p with Some (Ok plan) => is_ok (from_load_plan plan) | _ => false end.

Lemma plan_ok_inv p : plan_ok p = true → ∃ plan, p = Some (Ok plan).
Proof. destruct p as [[plan|]|]; [eauto|done..]. Defined.

(** pruning depends on the order of the plugins.  With the plugin that needs
    a bridge enabled before the plugin that has it, the locked profile resolves
    and its capabilities open; in the other order the same profile resolves to a
    plan whose active bridge has its codec pruned, and which cannot be opened. *)
Theorem pruning_depends_on_plugin_order :
  plan_opens (demo_plan ["net"; "wire"]) = true ∧
  plan_ok (demo_plan ["wire"; "net"]) = true ∧ plan_opens (demo_plan ["wire"; "net"]) = false.
Proof. vm_compute. done. Qed.

Lemma resolved_plan_consistent_witness :
  ∃ plan, demo_plan ["net"; "wire"] = Some (Ok plan) ∧ pm_plugin_id <$> plan_plugins plan = ["net"; "wire"].
Proof.
  destruct (plan_ok_inv (demo_plan ["net"; "wire"])) as [plan Hp]; [vm_compute; reflexivity|].
  exists plan. split; [exact Hp|]. exact (proj1 (resolved_plan_consistent _ _ plan Hp)).
Defined.

Lemma resolved_capabilities_backed_witness :
  ∃ plan, demo_plan ["net"; "wire"] = Some (Ok plan) ∧
    entry_key <$> cg_permission_audit (plan_capability_graph plan) = (plan_plugins plan ≫= permissions_of).
Proof.
  destruct (plan_ok_inv (demo_plan ["net"; "wire"])) as [plan Hp]; [vm_compute; reflexivity|].
  exists plan. split; [exact Hp|].
  exact (proj1 (proj2 (proj2 (proj2 (resolved_capabilities_backed _ _ plan Hp))))).
Defined.
