(* ===== verification/HostCommands.v ===== *)
(** * The host: commands, messages and its surroundings

    crates/mutsuki-runtime-host/src/commands.rs, the configuration of host.rs
    and the messages of actor.rs, worker.rs and async_executor.rs.

    What the actor calls and cannot see into is the class [HostWorld]: the
    clock, the worker pools and their threads, the async executor, the
    management threads and the resource providers.  Every call takes the state
    of the world and returns the next one, so an answer may depend on anything
    that happened before, including what other threads did meanwhile.  The
    counters of the pools and of the executor are read several times in one
    scheduling pass; the number a reading takes is how many came before it, so
    that two readings may differ. *)

From S2P Require Import Prelude Contracts RunnerContracts BatchContracts PluginContracts Logs StateStore ResourceManager TaskRecords TaskIndexes TaskPool TaskClaiming Registry RuntimeState RuntimeTasks RuntimeRouting RuntimeDispatch WireBytes WireOperations HostErrors HostScheduler.

(** ** Pools (worker.rs) *)

Inductive PoolKind : Type := ComputePool | BlockingPool.

Record WorkerPoolSnapshot : Type := MkWorkerPoolSnapshot {
  wps_pool_id : string;
  wps_execution_classes : list ExecutionClass;
  wps_configured_threads : N;
  wps_active_threads : N;
  wps_isolated_threads : N;
  wps_queued_batches : N;
  wps_queued_entries : N;
  wps_running_batches : N;
  wps_running_entries : N;
  wps_inflight_bytes : N;
  wps_max_inflight_bytes : N;
  wps_queue_capacity : N;
  wps_max_isolated_threads : N;
  wps_degraded : bool
}.

(** [WorkerPools::get] *)
Definition pool_of (execution_class : ExecutionClass) : option PoolKind :=
  match execution_class with
  | Orchestration | Cpu => Some ComputePool
  | Io | Blocking | Script => Some BlockingPool
  | ClassControl => None
  end.

Record WorkerStarted : Type := MkWorkerStarted {
  ws_worker_id : string;
  ws_execution_class : ExecutionClass;
  ws_runner_id : string;
  ws_invocation_id : string;
  ws_batch_id : string;
  ws_task_ids : list string
}.

Record WorkerExited : Type := MkWorkerExited {
  we_worker_id : string;
  we_execution_class : ExecutionClass;
  we_isolated : bool
}.

Record AsyncExecutorSnapshot : Type := MkAsyncExecutorSnapshot {
  aes_executor_id : string;
  aes_configured_threads : N;
  aes_running_invocations : N;
  aes_running_entries : N;
  aes_inflight_bytes : N;
  aes_max_inflight_invocations : N;
  aes_max_inflight_entries : N;
  aes_max_inflight_bytes : N
}.

Record HostRuntimeDriveState : Type := MkHostRuntimeDriveState {
  ds_current_step : N;
  ds_next_required_tick : option N;
  ds_next_wake_deadline : option N;
  ds_timed_wakeups : N
}.

(** ** Runner objects as the host sees them (core runner.rs) *)

Class RunnerControl `{RA : RunnerApi} : Type := {
  TerminationHandle : Type;
  ManagementHandle : Type;
  runner_isolation : Runner → option TerminationHandle;
  runner_management_handle : Runner → option ManagementHandle;
  recover_after_hard_termination : Runner → RuntimeResult unit * Runner;
  handler_isolation : AsyncHandler → option TerminationHandle;
  handler_management_handle : AsyncHandler → option ManagementHandle
}.

Section Commands.
Context `{RC : RunnerControl}.

(** [RunnerIsolation]: [None] is [Cooperative]. *)
Definition target_isolation (target : RunnerDispatchTarget) : option TerminationHandle :=
  match target with
  | TargetSync runner => runner_isolation runner
  | TargetAsync handler => handler_isolation handler
  end.

Definition target_management_handle (target : RunnerDispatchTarget) : option ManagementHandle :=
  match target with
  | TargetSync runner => runner_management_handle runner
  | TargetAsync handler => handler_management_handle handler
  end.

Record WorkerDispatchError : Type := MkWorkerDispatchError {
  wde_failure : RuntimeError;
  wde_dispatch : RunnerDispatch;
  wde_retryable : bool
}.

(** ** Commands and replies (commands.rs) *)

Record HostTaskState : Type := MkHostTaskState {
  hts_handle : TaskHandle;
  hts_status : option TaskStatus;
  hts_outcome : option TaskOutcome
}.

Record HostTaskFailureSummary : Type := MkHostTaskFailureSummary {
  fs_code : string;
  fs_source : string;
  fs_route : string
}.

Record HostTaskSnapshot : Type := MkHostTaskSnapshot {
  hsn_task_id : string;
  hsn_protocol_id : string;
  hsn_status : TaskStatus;
  hsn_priority : Z;
  hsn_ready_at_step : option N;
  hsn_created_sequence : N;
  hsn_registry_generation : N;
  hsn_target_binding_id : option string;
  hsn_runner_hint : option string;
  hsn_claimed_by : option string;
  hsn_owner_runner : option string;
  hsn_lease_id : option string;
  hsn_attempt_generation : N;
  hsn_trace_id : option string;
  hsn_correlation_id : option string;
  hsn_input_refs : list string;
  hsn_output_ref : option string;
  hsn_continuation_ref : option string;
  hsn_required_surfaces : list string;
  hsn_failure : option HostTaskFailureSummary
}.

(** The part of [PreparedRuntimeReload] the actor uses. *)
Record PreparedReload : Type := MkPreparedReload {
  prl_plan : RuntimeLoadPlan;
  prl_runners : list Runner;
  prl_async_handlers : list AsyncHandler
}.

Inductive HostRuntimeCommand : Type :=
  | CmdSubmitTask (task : Task)
  | CmdSubmitBatch (batch : TaskBatch)
  | CmdTickOnce
  | CmdRunUntilIdle (max_ticks : N)
  | CmdCancelTask (handle : TaskHandle)
  | CmdBeginDrain
  | CmdAbort (reason : string)
  | CmdStopState
  | CmdStatistics
  | CmdDriveState
  | CmdWorkerPools
  | CmdAsyncExecutor
  | CmdTaskSnapshots
  | CmdTaskStatesBatch (handles : list TaskHandle)
  | CmdTaskOutcome (handle : TaskHandle)
  | CmdEventsAfter (sequence limit : N)
  | CmdTraceSpansAfter (sequence limit : N)
  | CmdOpenResourceDescriptor (ref_id : string)
  | CmdCreateBlobResource (provider_id schema : string) (bytes : list byte)
  | CmdCreateCowStateResource (provider_id kind_id schema : string) (bytes : list byte)
  | CmdCreateCapabilityResource (provider_id kind_id schema : string)
  | CmdCollectReadPlan (plan : ReadPlan)
  | CmdSnapshotReadPlan (plan : ReadPlan) (kind_id schema : string)
  | CmdOpenStreamPlan (plan : ReadPlan)
  | CmdExecuteExportPlan (plan : ExportPlan)
  | CmdCommitWritePlan (plan : WritePlan) (bytes : list byte)
  | CmdExecuteCommandPlan (plan : CommandPlan)
  | CmdExecuteCommandBatch (batch : CommandBatch)
  | CmdExecuteSagaPlan (saga : SagaPlan)
  | CmdReload (prepared : PreparedReload) (drain_timeout : N).

Inductive HostRuntimeReply : Type :=
  | ReplyTaskSubmitted (handle : TaskHandle)
  | ReplyTaskBatchSubmitted (handles : list TaskHandle)
  | ReplyTick (report : RunnerLoopReport)
  | ReplyIdle (report : RunnerLoopReport)
  | ReplyTaskCancelled (handle : TaskHandle)
  | ReplyDrainStarted (state : RuntimeStopState)
  | ReplyRuntimeAborted (cancelled_tasks : N)
  | ReplyStopState (state : RuntimeStopState)
  | ReplyStatistics (statistics : RuntimeStatistics)
  | ReplyDriveState (state : HostRuntimeDriveState)
  | ReplyWorkerPools (pools : list WorkerPoolSnapshot)
  | ReplyAsyncExecutor (snapshot : option AsyncExecutorSnapshot)
  | ReplyTaskSnapshots (snapshots : list HostTaskSnapshot)
  | ReplyTaskStatesBatch (states : list HostTaskState)
  | ReplyTaskOutcome (outcome : option TaskOutcome)
  | ReplyEvents (page : ObservabilityPage RuntimeEvent)
  | ReplyTraceSpans (page : ObservabilityPage TraceSpan)
  | ReplyResourceDescriptor (descriptor : ResourceRef)
  | ReplyResourceCreated (descriptor : ResourceRef)
  | ReplyResourceBytes (bytes : list byte)
  | ReplySnapshot (snapshot : SnapshotDescriptor)
  | ReplyStreamPlan (plan : StreamPlan)
  | ReplyPlanReceipt (receipt : PlanReceipt)
  | ReplyPlanReceipts (receipts : list PlanReceipt)
  | ReplyReloaded (decision : ReloadDecision).

(** ** Messages (actor.rs, async_executor.rs)

    The sending half of a reply channel is a number; [CoreActorMsg] carries the
    one its answer goes to. *)

Inductive AsyncExecutorEvent : Type :=
  | AsyncStarted (invocation : AsyncInvocation)
  | AsyncCompleted (invocation : AsyncInvocation) (result : RuntimeResult CompletionBatch)
  | AsyncTimedOut (invocation : AsyncInvocation)
  | AsyncPanicked (invocation : AsyncInvocation)
  | ResourceCompleted (invocation : AsyncInvocation) (reply : N) (result : RuntimeResult HostRuntimeReply)
  | ResourceTimedOut (invocation : AsyncInvocation) (reply : N)
  | ResourcePanicked (invocation : AsyncInvocation) (reply : N).

Inductive CoreActorMsg : Type :=
  | MsgCommand (command : HostRuntimeCommand) (reply_tx : N)
  | MsgTaskStatus (task_id : string) (reply_tx : N)
  | MsgWorkerStarted (started : WorkerStarted)
  | MsgWorkerCompleted (completion : RunnerCompletion)
  | MsgAsyncEvent (event : AsyncExecutorEvent)
  | MsgAsyncResourceCommand (command : HostRuntimeCommand) (reply_tx : N)
  | MsgWorkerExited (exited : WorkerExited)
  | MsgManagementFailed (runner_id invocation_id : string)
  | MsgShutdown.

(** What goes into a reply channel. *)
Inductive Answer : Type :=
  | AnswerCommand (reply : RuntimeResult HostRuntimeReply)
  | AnswerStatus (status : option TaskStatus).

(** ** The configuration (host.rs)

    An executor, a sink or a provider is a trait object; here it is either
    configured or not, and [HostWorld] answers for it. *)
Record HostRuntimeConfig : Type := MkHostRuntimeConfig {
  cfg_event_driven : bool;
  cfg_tick_interval : N;
  cfg_default_runner_limits : RunnerLimits;
  cfg_runner_limits : gmap string RunnerLimits;
  cfg_scheduler_policy : SchedulerPolicy;
  cfg_async_executor : bool;
  cfg_async_event_sink : bool;
  cfg_resource_providers : gset string;
  cfg_async_resource_providers : gset string;
  cfg_cancel_grace_period : option N;
  cfg_worker_health_timeout : option N
}.

(** [config.runner_limits.get(id).unwrap_or(&config.default_runner_limits)] *)
Definition limits_for (config : HostRuntimeConfig) (runner_id : string) : RunnerLimits :=
  default (cfg_default_runner_limits config) (cfg_runner_limits config !! runner_id).

(** ** The world *)

Inductive ProviderKind : Type := SyncProvider | AsyncProvider.

Class HostWorld : Type := {
  World : Type;
  instant_now : World → N * World;
  pool_available_slots : PoolKind → World → nat → N;
  pool_capacity : PoolKind → World → nat → PoolCapacitySnapshot;
  pool_send : PoolKind → RunnerDispatch → World → Result WorkerDispatchError unit * World;
  pool_isolate : PoolKind → string → World → bool * World;
  pool_replace_exited_worker : PoolKind → string → World → RuntimeResult unit * World;
  pool_snapshot : PoolKind → World → WorkerPoolSnapshot;
  async_snapshot : World → nat → AsyncExecutorSnapshot;
  async_spawn : AsyncInvocation → AsyncHandler → RunnerContext → WorkBatch → World →
    RuntimeResult AsyncInvocationHandle * World;
  async_cancel : AsyncInvocationHandle → World → RuntimeResult bool * World;
  async_cancel_all : World → World;
  async_resource_sequence : World → N * World;
  async_spawn_resource : AsyncInvocation → HostRuntimeCommand → N → World → World;
  management_cancel : string → string → ManagementHandle → World → RuntimeResult unit * World;
  terminate : TerminationHandle → World → RuntimeResult unit * World;
  provider_create_blob : ProviderKind → string → string → list byte → World → RuntimeResult ResourceRef * World;
  provider_create_cow_state : ProviderKind → string → string → string → list byte → World →
    RuntimeResult ResourceRef * World;
  provider_create_capability : ProviderKind → string → string → string → World → RuntimeResult ResourceRef * World;
  provider_collect : string → ReadPlan → World → RuntimeResult (list byte) * World;
  provider_snapshot : string → ReadPlan → string → string → World → RuntimeResult SnapshotDescriptor * World;
  provider_open_stream : string → ReadPlan → World → RuntimeResult StreamPlan * World;
  provider_export : string → ExportPlan → World → RuntimeResult PlanReceipt * World;
  provider_commit : string → WritePlan → list byte → World → RuntimeResult PlanReceipt * World;
  provider_command : string → CommandPlan → World → RuntimeResult PlanReceipt * World;
  provider_command_batch : string → CommandBatch → World → RuntimeResult (list PlanReceipt) * World;
  provider_saga : string → SagaPlan → World → RuntimeResult (list PlanReceipt) * World;
  (** [serde_json::to_vec(..).len()] of a batch payload, and of the plan in a
      resource command *)
  payload_json_bytes : BatchPayload → Result string N;
  command_json_bytes : HostRuntimeCommand → Result string N;
  (** the counters of a pool and of an executor count entries in memory, and a
      dispatch that a pool does not take comes back as it was *)
  pool_capacity_fits k w n :
    (pcs_running_entries (pool_capacity k w n) + pcs_queued_entries (pool_capacity k w n) ≤ usize_max)%N;
  async_entries_fit w n : (aes_running_entries (async_snapshot w n) ≤ usize_max)%N;
  pool_send_returns k dispatch w e w' : pool_send k dispatch w = (Err e, w') → wde_dispatch e = dispatch
}.
End Commands.
