(* ===== verification/HostActor.v ===== *)
(** * The host actor: state, driver and supervision

    crates/mutsuki-runtime-host/src/actor.rs and actor/cancellation.rs.  One
    thread owns the core runtime and the tables of what is running; it receives
    messages, supervises deadlines, schedules ready work and answers commands.

    An [Instant] and a [Duration] are nanoseconds.  The messages of a run are
    given as a list: [None] is a wait that timed out, the end of the list is the
    moment all senders are gone.  Answers that go into reply channels and
    revisions that are published are logged in the order they are sent.

    Below, the commands on resources (resource_router.rs). *)

From S2P Require Import Prelude Contracts RunnerContracts BatchContracts PluginContracts Logs StateStore ResourceManager TaskRecords TaskIndexes TaskPool TaskClaiming Registry RuntimeState RuntimeTasks RuntimeRouting RuntimeDispatch RuntimeReload RuntimeResources WireBytes WireOperations HostErrors HostScheduler HostCommands.

(** The largest [Instant]: [i64] seconds. *)
Definition instant_max : N := (2 ^ 63 - 1) * 1000000000 + 999999999.
Definition checked_instant_add (instant duration : N) : option N :=
  if decide (instant + duration ≤ instant_max)%N then Some (instant + duration)%N else None.

Definition min_option (l : list N) : option N :=
  match l with
  | [] => None
  | x :: l => Some (foldl N.min x l)
  end.

Definition u128_max : N := 2 ^ 128 - 1.

Section Actor.
Context `{RC : RunnerControl} `{ST : !SerdeTypes} `{HW : !HostWorld}.

Record RunningBatch : Type := MkRunningBatch {
  rb_runner_id : string;
  rb_invocation_id : string;
  rb_batch_id : string;
  rb_execution_class : ExecutionClass;
  rb_handle : TaskHandle;
  rb_deadline_tick : option N;
  rb_wall_clock_deadline_at : option N;
  rb_cancel_requested_at : option N;
  rb_worker_id : option string;
  rb_worker_started_at : option N;
  rb_isolation : option TerminationHandle;
  rb_management : option ManagementHandle;
  rb_async_handle : option AsyncInvocationHandle
}.

Definition with_cancel_requested (now : N) (b : RunningBatch) : RunningBatch :=
  {| rb_runner_id := rb_runner_id b; rb_invocation_id := rb_invocation_id b; rb_batch_id := rb_batch_id b;
     rb_execution_class := rb_execution_class b; rb_handle := rb_handle b; rb_deadline_tick := rb_deadline_tick b;
     rb_wall_clock_deadline_at := rb_wall_clock_deadline_at b; rb_cancel_requested_at := Some now;
     rb_worker_id := rb_worker_id b; rb_worker_started_at := rb_worker_started_at b;
     rb_isolation := rb_isolation b; rb_management := rb_management b; rb_async_handle := rb_async_handle b |}.

Definition with_started (worker_id : option string) (now : N) (b : RunningBatch) : RunningBatch :=
  {| rb_runner_id := rb_runner_id b; rb_invocation_id := rb_invocation_id b; rb_batch_id := rb_batch_id b;
     rb_execution_class := rb_execution_class b; rb_handle := rb_handle b; rb_deadline_tick := rb_deadline_tick b;
     rb_wall_clock_deadline_at := rb_wall_clock_deadline_at b; rb_cancel_requested_at := rb_cancel_requested_at b;
     rb_worker_id := worker_id; rb_worker_started_at := Some now;
     rb_isolation := rb_isolation b; rb_management := rb_management b; rb_async_handle := rb_async_handle b |}.

Record DrainingInvocation : Type := MkDrainingInvocation {
  di_runner_id : string;
  di_recover_after_termination : bool
}.

Record HostState : Type := MkHostState {
  hs_core : CoreRuntime;
  hs_pending_cancels : gmap string (list string);
  hs_running : gmap string RunningBatch;
  hs_draining : gmap string DrainingInvocation;
  hs_scheduled_tick : option (N * N);
  hs_timed_wakeups : N;
  hs_terminal_revision : N;
  hs_inbox : list (option CoreActorMsg);
  hs_answers : list (N * Answer);
  hs_published : list N;
  hs_world : World
}.

Definition HostState_eta (h : HostState) : HostState :=
  {| hs_core := hs_core h; hs_pending_cancels := hs_pending_cancels h; hs_running := hs_running h;
     hs_draining := hs_draining h; hs_scheduled_tick := hs_scheduled_tick h; hs_timed_wakeups := hs_timed_wakeups h;
     hs_terminal_revision := hs_terminal_revision h; hs_inbox := hs_inbox h; hs_answers := hs_answers h;
     hs_published := hs_published h; hs_world := hs_world h |}.
#[export] Instance set_hs_core : Setter hs_core := ltac:(derive_setter HostState_eta hs_core).
#[export] Instance set_hs_pending_cancels : Setter hs_pending_cancels := ltac:(derive_setter HostState_eta hs_pending_cancels).
#[export] Instance set_hs_running : Setter hs_running := ltac:(derive_setter HostState_eta hs_running).
#[export] Instance set_hs_draining : Setter hs_draining := ltac:(derive_setter HostState_eta hs_draining).
#[export] Instance set_hs_scheduled_tick : Setter hs_scheduled_tick := ltac:(derive_setter HostState_eta hs_scheduled_tick).
#[export] Instance set_hs_timed_wakeups : Setter hs_timed_wakeups := ltac:(derive_setter HostState_eta hs_timed_wakeups).
#[export] Instance set_hs_terminal_revision : Setter hs_terminal_revision := ltac:(derive_setter HostState_eta hs_terminal_revision).
#[export] Instance set_hs_inbox : Setter hs_inbox := ltac:(derive_setter HostState_eta hs_inbox).
#[export] Instance set_hs_answers : Setter hs_answers := ltac:(derive_setter HostState_eta hs_answers).
#[export] Instance set_hs_published : Setter hs_published := ltac:(derive_setter HostState_eta hs_published).
#[export] Instance set_hs_world : Setter hs_world := ltac:(derive_setter HostState_eta hs_world).

Definition on_core {A} (c : M CoreRuntime A) : M HostState A := λ h,
  match c (hs_core h) with Some (a, s) => Some (a, h <| hs_core := s |>) | None => None end.
Definition on_world {A} (c : World → A * World) : M HostState A := λ h,
  let '(a, w) := c (hs_world h) in Some (a, h <| hs_world := w |>).
Definition send_answer (reply_tx : N) (answer : Answer) : M HostState unit :=
  modify (λ h, h <| hs_answers ::= λ l, l ++ [(reply_tx, answer)] |>).

(** ** Receiving *)

Inductive Received : Type :=
  | Received_msg (msg : CoreActorMsg)
  | Received_timeout
  | Received_disconnected.

Definition recv_timeout : M HostState Received := λ h,
  match hs_inbox h with
  | [] => Some (Received_disconnected, h)
  | None :: inbox => Some (Received_timeout, h <| hs_inbox := inbox |>)
  | Some msg :: inbox => Some (Received_msg msg, h <| hs_inbox := inbox |>)
  end.

Fixpoint skip_timeouts (inbox : list (option CoreActorMsg)) : list (option CoreActorMsg) :=
  match inbox with
  | None :: inbox => skip_timeouts inbox
  | _ => inbox
  end.

(** A wait without a deadline does not time out. *)
Definition recv : M HostState Received :=
  modify (λ h, h <| hs_inbox ::= skip_timeouts |>) ;;! recv_timeout.

(** ** The driver *)

Definition next_required_tick (core : CoreRuntime) (running : gmap string RunningBatch) : option N :=
  let current_step := rt_current_step core in
  min_option (option_list (next_required_step core) ++
    filter (λ step, current_step < step)%N (omap rb_deadline_tick (btree_entries running).*2)).

Definition refresh_scheduled_tick (target_step : option N) (current_step tick_interval : N) : M HostState unit :=
  let! h := get in
  if decide (target_step = (fst <$> hs_scheduled_tick h)) then ret tt
  else
    match target_step with
    | None => modify (λ h, h <| hs_scheduled_tick := None |>)
    | Some step =>
        let total_nanos := (tick_interval * (step - current_step))%N in
        if decide (u128_max < total_nanos ∨ u64_max < total_nanos / 1000000000)%N
        then modify (λ h, h <| hs_scheduled_tick := None |>)
        else
          let! now := on_world instant_now in
          modify (λ h, h <| hs_scheduled_tick := pair step <$> checked_instant_add now total_nanos |>)
    end.

(** The moments at which something about a running batch is due. *)
Definition wake_deadlines (config : HostRuntimeConfig) (task : RunningBatch) : list N :=
  option_list (rb_wall_clock_deadline_at task) ++
  option_list (match rb_cancel_requested_at task, cfg_cancel_grace_period config with
               | Some instant, Some grace => checked_instant_add instant grace
               | _, _ => None
               end) ++
  option_list (match rb_worker_started_at task, cfg_worker_health_timeout config with
               | Some instant, Some timeout => checked_instant_add instant timeout
               | _, _ => None
               end).

Definition next_wake_deadline (config : HostRuntimeConfig) (h : HostState) : option N :=
  if negb (cfg_event_driven config) then None
  else min_option (option_list (snd <$> hs_scheduled_tick h) ++
         ((btree_entries (hs_running h)).*2 ≫= wake_deadlines config)).

Definition driver_snapshot (config : HostRuntimeConfig) (h : HostState) : HostRuntimeDriveState :=
  {| ds_current_step := rt_current_step (hs_core h);
     ds_next_required_tick := next_required_tick (hs_core h) (hs_running h);
     ds_next_wake_deadline := next_wake_deadline config h;
     ds_timed_wakeups := hs_timed_wakeups h |}.

(** ** Completions that are published *)

Definition terminal_revision (core : CoreRuntime) : N :=
  let statistics := p_statistics (rt_tasks core) in
  (st_completed statistics + st_failed statistics + st_cancelled statistics + st_expired statistics
   + st_dead_letter statistics + st_terminal_records_evicted statistics)%N.

Definition publish_terminal_changes : M HostState unit :=
  let! h := get in
  let revision := terminal_revision (hs_core h) in
  if decide (hs_terminal_revision h < revision)%N then
    modify (λ h, h <| hs_terminal_revision := revision |> <| hs_published ::= λ l, l ++ [revision] |>)
  else ret tt.

(** ** Cancelling what runs (actor/cancellation.rs) *)

Definition of_invocation (invocation_id : string) (task : RunningBatch) : Prop := rb_invocation_id task = invocation_id.
#[export] Instance of_invocation_dec invocation_id task : Decision (of_invocation invocation_id task).
Proof. unfold of_invocation. apply _. Defined.

(** [values().find(|task| task.invocation_id == invocation_id)] *)
Definition find_invocation (running : gmap string RunningBatch) (invocation_id : string) : option RunningBatch :=
  snd <$> list_find (of_invocation invocation_id) (btree_entries running).*2.

(** [entry(runner_id).or_default()], then [push] unless it is there *)
Definition push_pending (runner_id invocation_id : string) (pending : gmap string (list string)) :
    gmap string (list string) :=
  let ids := default [] (pending !! runner_id) in
  <[ runner_id := if decide (invocation_id ∈ ids) then ids else ids ++ [invocation_id] ]> pending.

Definition mark_cancel_requested (invocation_id : string) : M HostState unit :=
  let! now := on_world instant_now in
  modify (λ h, h <| hs_running ::= fmap (λ task,
    if decide (of_invocation invocation_id task) then with_cancel_requested now task else task) |>).

Definition request_running_cancel (invocation_id : string) : M HostState unit :=
  let! h := get in
  if existsb (λ task, bool_decide (of_invocation invocation_id task) && bool_decide (is_Some (rb_cancel_requested_at task)))
       (btree_entries (hs_running h)).*2
  then ret tt
  else
    let target := find_invocation (hs_running h) invocation_id in
    mark_cancel_requested invocation_id ;;!
    match target with
    | None => ret tt
    | Some task =>
        let! delivered :=
          match rb_management task with
          | None => ret false
          | Some handle =>
              let! result := on_world (management_cancel (rb_runner_id task) invocation_id handle) in
              ret (match result with Ok _ => true | Err _ => false end)
          end in
        if delivered then ret tt
        else modify (λ h, h <| hs_pending_cancels ::= push_pending (rb_runner_id task) invocation_id |>)
    end.

Definition queue_management_retry (runner_id invocation_id : string) : M HostState unit :=
  let! h := get in
  match find_invocation (hs_running h) invocation_id with
  | None => ret tt
  | Some _ => modify (λ h, h <| hs_pending_cancels ::= push_pending runner_id invocation_id |>)
  end.

Definition cancel_async_invocation (config : HostRuntimeConfig) (invocation_id : string) : M HostState bool :=
  let! h := get in
  match find_invocation (hs_running h) invocation_id ≫= rb_async_handle with
  | None => ret false
  | Some handle =>
      let! cancelled :=
        if cfg_async_executor config then
          let! result := on_world (async_cancel handle) in
          ret (match result with Ok cancelled => cancelled | Err _ => false end)
        else ret false in
      if cancelled : bool then
        modify (λ h, h <| hs_running ::= filter (λ '(_, task), rb_invocation_id task ≠ invocation_id) |>) ;;! ret true
      else ret false
  end.

(** ** Supervision *)

(** [let _ = core.cancel_task_handle(&task.handle)] for a task the core still
    runs *)
Definition cancel_if_running (task_id : string) (handle : TaskHandle) : M HostState unit :=
  let! h := get in
  if decide (task_status (hs_core h) task_id = Some Running) then
    on_core (cancel_task_handle handle) ;;! ret tt
  else ret tt.

Definition cancel_expired_tick (config : HostRuntimeConfig) (task_id : string) : M HostState unit :=
  let! h := get in
  match hs_running h !! task_id with
  | None => ret tt
  | Some task =>
      (if decide (task_status (hs_core h) task_id = Some Running) then
         on_core (cancel_task_handle (rb_handle task)) ;;!
         let! cancelled := cancel_async_invocation config (rb_invocation_id task) in
         if cancelled : bool then ret tt else request_running_cancel (rb_invocation_id task)
       else ret tt) ;;!
      modify (λ h, h <| hs_running ::= delete task_id |>)
  end.

Definition tick_expired (current_step : N) (task : RunningBatch) : Prop :=
  match rb_deadline_tick task with Some deadline => (deadline ≤ current_step)%N | None => False end.
#[export] Instance tick_expired_dec current_step task : Decision (tick_expired current_step task).
Proof. unfold tick_expired. destruct (rb_deadline_tick task); apply _. Defined.

Definition cancel_expired_tick_deadlines (config : HostRuntimeConfig) : M HostState unit :=
  let! h := get in
  let current_step := rt_current_step (hs_core h) in
  let expired := (filter (λ '(_, task), tick_expired current_step task) (btree_entries (hs_running h))).*1 in
  for_each expired (cancel_expired_tick config).

Definition isolate_invocation (config : HostRuntimeConfig) (invocation_id : string) : M HostState unit :=
  let! h := get in
  if decide (is_Some (hs_draining h !! invocation_id)) then ret tt
  else
    let entries := filter (λ '(_, task), of_invocation invocation_id task) (btree_entries (hs_running h)) in
    match entries with
    | [] => ret tt
    | (_, first_task) :: _ =>
        match rb_async_handle first_task with
        | Some _ =>
            for_each entries (λ '(task_id, task), cancel_if_running task_id (rb_handle task)) ;;!
            cancel_async_invocation config invocation_id ;;! ret tt
        | None =>
            for_each entries (λ '(task_id, task),
              cancel_if_running task_id (rb_handle task) ;;!
              modify (λ h, h <| hs_running ::= delete task_id |>)) ;;!
            modify (λ h, h <| hs_pending_cancels ::= λ pending,
              <[ rb_runner_id first_task :=
                   default [] (pending !! rb_runner_id first_task) ++ [invocation_id] ]> pending |>) ;;!
            let! recover :=
              match rb_isolation first_task with
              | None => ret false
              | Some handle =>
                  let! result := on_world (terminate handle) in
                  ret (match result with Ok _ => true | Err _ => false end)
              end in
            modify (λ h, h <| hs_draining ::= <[ invocation_id := MkDrainingInvocation (rb_runner_id first_task) recover ]> |>) ;;!
            match rb_worker_id first_task, pool_of (rb_execution_class first_task) with
            | Some worker_id, Some pool => on_world (pool_isolate pool worker_id) ;;! ret tt
            | _, _ => ret tt
            end
        end
    end.

(** A running batch whose time is over at [now] *)
Definition overdue (config : HostRuntimeConfig) (now : N) (task : RunningBatch) : bool :=
  (bool_decide (rb_async_handle task = None) &&
   is_some_and (rb_wall_clock_deadline_at task) (λ deadline, bool_decide (deadline ≤ now)%N)) ||
  is_some_and (rb_cancel_requested_at task) (λ cancelled_at,
    is_some_and (cfg_cancel_grace_period config) (λ grace, bool_decide (grace ≤ now - cancelled_at)%N)) ||
  is_some_and (rb_worker_started_at task) (λ started_at,
    is_some_and (cfg_worker_health_timeout config) (λ timeout, bool_decide (timeout ≤ now - started_at)%N)).

Definition supervise_running_invocations (config : HostRuntimeConfig) : M HostState unit :=
  cancel_expired_tick_deadlines config ;;!
  let! now := on_world instant_now in
  let! h := get in
  let expired := rb_invocation_id <$> filter (λ task, overdue config now task = true) (btree_entries (hs_running h)).*2 in
  for_each expired (isolate_invocation config).
End Actor.

(** ** The host's resource commands

    crates/mutsuki-runtime-host/src/resource_router.rs: a resource command goes
    to the provider that owns the resource; what the provider reports is written
    back into the descriptors of the core.  Commands for async providers are
    handed to the executor and written back when they complete. *)

Section Router.
Context `{RC : RunnerControl} `{ST : !SerdeTypes} `{HW : !HostWorld}.

Definition require_resource_provider (config : HostRuntimeConfig) (provider_id : string) : RuntimeResult unit :=
  if decide (provider_id ∈ cfg_resource_providers config) then Ok tt
  else Err (resource_provider_missing provider_id).

Definition require_async_resource_provider (config : HostRuntimeConfig) (provider_id : string) : RuntimeResult unit :=
  if decide (provider_id ∈ cfg_async_resource_providers config) then Ok tt
  else Err (resource_provider_missing provider_id).

Definition validate_created_provider (provider_id : string) (descriptor : ResourceRef) : RuntimeResult unit :=
  if decide (rr_provider_id descriptor = provider_id) then Ok tt
  else Err (resource_provider_unsupported
    ("provider " +:+ provider_id +:+ " returned descriptor owned by " +:+ rr_provider_id descriptor)).

Fixpoint single_provider (provider_id : option string) (commands : list CommandPlan) : RuntimeResult (option string) :=
  match commands with
  | [] => Ok provider_id
  | command :: commands =>
      match provider_id with
      | Some existing =>
          if decide (existing = rr_provider_id (cp_capability command)) then single_provider provider_id commands
          else Err (resource_provider_unsupported "command collection spans multiple resource providers")
      | None => single_provider (Some (rr_provider_id (cp_capability command))) commands
      end
  end.

Definition single_command_provider (commands : list CommandPlan) : RuntimeResult string :=
  letr? provider_id := single_provider None commands in
  match provider_id with
  | Some provider_id => Ok provider_id
  | None => Err (resource_provider_unsupported "command collection has no provider route")
  end.

(** The provider a created resource comes from: a sync one of this name, else
    an async one. *)
Definition creating_provider (config : HostRuntimeConfig) (provider_id : string) : RuntimeResult ProviderKind :=
  if decide (provider_id ∈ cfg_resource_providers config) then Ok SyncProvider
  else if decide (provider_id ∈ cfg_async_resource_providers config) then Ok AsyncProvider
  else Err (resource_provider_missing provider_id).

Definition register_created (config : HostRuntimeConfig) (provider_id : string)
    (create : ProviderKind → World → RuntimeResult ResourceRef * World) : M HostState (RuntimeResult HostRuntimeReply) :=
  let? kind := ret (creating_provider config provider_id) in
  let? descriptor := on_world (create kind) in
  let? _ := ret (validate_created_provider provider_id descriptor) in
  let? descriptor := on_core (rt_register_resource_descriptor descriptor) in
  ret (Ok (ReplyResourceCreated descriptor)).

Definition snapshot_receipt (snapshot : SnapshotDescriptor) : PlanReceipt :=
  {| pr_plan_id := "snapshot-receipt:" +:+ rr_ref_id (sd_snapshot_ref snapshot);
     pr_status := "snapshotted"; pr_resource_ref := None; pr_snapshot := Some snapshot;
     pr_descriptor_updates := []; pr_new_version := Some (rr_version (sd_snapshot_ref snapshot));
     pr_output := json_null |}.

(** A call of a sync provider whose receipt is written back. *)
Definition synced_receipt (config : HostRuntimeConfig) (provider_id : string)
    (call : World → RuntimeResult PlanReceipt * World) : M HostState (RuntimeResult HostRuntimeReply) :=
  let? _ := ret (require_resource_provider config provider_id) in
  let? receipt := on_world call in
  let? _ := on_core (rt_sync_plan_receipt receipt) in
  ret (Ok (ReplyPlanReceipt receipt)).

Definition synced_receipts (config : HostRuntimeConfig) (commands : list CommandPlan)
    (call : string → World → RuntimeResult (list PlanReceipt) * World) : M HostState (RuntimeResult HostRuntimeReply) :=
  let? provider_id := ret (single_command_provider commands) in
  let? _ := ret (require_resource_provider config provider_id) in
  let? receipts := on_world (call provider_id) in
  let? _ := on_core (sync_plan_receipts receipts) in
  ret (Ok (ReplyPlanReceipts receipts)).

Definition handle_resource_command (config : HostRuntimeConfig) (command : HostRuntimeCommand) :
    M HostState (RuntimeResult HostRuntimeReply) :=
  match command with
  | CmdCreateBlobResource provider_id schema bytes =>
      register_created config provider_id (λ kind, provider_create_blob kind provider_id schema bytes)
  | CmdCreateCowStateResource provider_id kind_id schema bytes =>
      register_created config provider_id (λ kind, provider_create_cow_state kind provider_id kind_id schema bytes)
  | CmdCreateCapabilityResource provider_id kind_id schema =>
      register_created config provider_id (λ kind, provider_create_capability kind provider_id kind_id schema)
  | CmdCollectReadPlan plan =>
      let provider_id := rr_provider_id (rp_resource plan) in
      let? _ := ret (require_resource_provider config provider_id) in
      let? bytes := on_world (provider_collect provider_id plan) in
      ret (Ok (ReplyResourceBytes bytes))
  | CmdSnapshotReadPlan plan kind_id schema =>
      let provider_id := rr_provider_id (rp_resource plan) in
      let? _ := ret (require_resource_provider config provider_id) in
      let? snapshot := on_world (provider_snapshot provider_id plan kind_id schema) in
      let? _ := on_core (rt_sync_plan_receipt (snapshot_receipt snapshot)) in
      ret (Ok (ReplySnapshot snapshot))
  | CmdOpenStreamPlan plan =>
      let provider_id := rr_provider_id (rp_resource plan) in
      let? _ := ret (require_resource_provider config provider_id) in
      let? stream := on_world (provider_open_stream provider_id plan) in
      ret (Ok (ReplyStreamPlan stream))
  | CmdExecuteExportPlan plan =>
      let provider_id := rr_provider_id (xp_resource plan) in
      synced_receipt config provider_id (provider_export provider_id plan)
  | CmdCommitWritePlan plan bytes =>
      let provider_id := rr_provider_id (wp_resource plan) in
      synced_receipt config provider_id (provider_commit provider_id plan bytes)
  | CmdExecuteCommandPlan plan =>
      let provider_id := rr_provider_id (cp_capability plan) in
      synced_receipt config provider_id (provider_command provider_id plan)
  | CmdExecuteCommandBatch batch =>
      synced_receipts config (cmb_commands batch) (λ provider_id, provider_command_batch provider_id batch)
  | CmdExecuteSagaPlan saga =>
      synced_receipts config (sg_steps saga ++ sg_compensations saga) (λ provider_id, provider_saga provider_id saga)
  | _ => panic
  end.

Definition sync_async_resource_reply (reply : HostRuntimeReply) : M HostState (RuntimeResult unit) :=
  match reply with
  | ReplyPlanReceipt receipt => let? _ := on_core (rt_sync_plan_receipt receipt) in ret (Ok tt)
  | ReplyPlanReceipts receipts => let? _ := on_core (sync_plan_receipts receipts) in ret (Ok tt)
  | ReplySnapshot snapshot => let? _ := on_core (rt_sync_plan_receipt (snapshot_receipt snapshot)) in ret (Ok tt)
  | _ => ret (Ok tt)
  end.

(** ** Commands for async providers *)

Definition serialized_payload_bytes (command : HostRuntimeCommand) : RuntimeResult N :=
  match command_json_bytes command with
  | Ok bytes => Ok (N.max bytes 1)
  | Err error => Err (resource_provider_unsupported ("async resource payload cannot be measured: " +:+ error))
  end.

(** The provider and the payload bytes of the future to spawn; the future is
    the command, run by that provider. *)
Definition prepare_async_resource_command (config : HostRuntimeConfig) (command : HostRuntimeCommand) :
    RuntimeResult (string * N) :=
  letr? payload_bytes :=
    match command with
    | CmdCollectReadPlan _ | CmdSnapshotReadPlan _ _ _ | CmdOpenStreamPlan _ | CmdExecuteExportPlan _
    | CmdExecuteCommandPlan _ | CmdExecuteCommandBatch _ | CmdExecuteSagaPlan _ => serialized_payload_bytes command
    | CmdCommitWritePlan _ bytes =>
        letr? payload_bytes := serialized_payload_bytes command in Ok (saturating_add payload_bytes (len bytes))
    | _ => Err (resource_provider_unsupported "command is not an async resource plan operation")
    end in
  letr? provider_id :=
    match command with
    | CmdCollectReadPlan plan | CmdSnapshotReadPlan plan _ _ | CmdOpenStreamPlan plan =>
        Ok (rr_provider_id (rp_resource plan))
    | CmdExecuteExportPlan plan => Ok (rr_provider_id (xp_resource plan))
    | CmdCommitWritePlan plan _ => Ok (rr_provider_id (wp_resource plan))
    | CmdExecuteCommandPlan plan => Ok (rr_provider_id (cp_capability plan))
    | CmdExecuteCommandBatch batch => single_command_provider (cmb_commands batch)
    | CmdExecuteSagaPlan saga => single_command_provider (sg_steps saga ++ sg_compensations saga)
    | _ => Err (resource_provider_unsupported "command is not an async resource plan operation")
    end in
  letr? _ := require_async_resource_provider config provider_id in
  Ok (provider_id, payload_bytes).
End Router.
