(* ===== verification/HostLoop.v ===== *)
(** * The host actor: completions, scheduling and the message loop

    crates/mutsuki-runtime-host/src/actor.rs, second part: what happens to a
    completion, one scheduling pass over the core and the pools, every command,
    and the loop over the messages.

    Commands received while another one waits for completions are handled
    inside it; the depth of that nesting is the fuel of [handle_command].  Every
    level has received a message more, so one more than the messages left is
    enough (HostLoopTheorems.v). *)

From S2P Require Import Prelude Contracts RunnerContracts BatchContracts PluginContracts Logs StateStore ResourceManager TaskRecords TaskIndexes TaskPool TaskClaiming Registry RuntimeState RuntimeTasks RuntimeRouting RuntimeDispatch RuntimeReload RuntimeResources WireBytes WireOperations HostErrors HostScheduler HostCommands HostActor.

Section Loop.
Context `{RC : RunnerControl} `{ST : !SerdeTypes} `{HW : !HostWorld}.
Variable config : HostRuntimeConfig.

(** ** Completions *)

Definition set_runner (runner : option Runner) (c : RunnerCompletion) : RunnerCompletion :=
  {| rcp_runner := runner; rcp_task_leases := rcp_task_leases c; rcp_batch_id := rcp_batch_id c;
     rcp_expected_entries := rcp_expected_entries c; rcp_result := rcp_result c |}.

Definition set_result (result : RuntimeResult CompletionBatch) (c : RunnerCompletion) : RunnerCompletion :=
  {| rcp_runner := rcp_runner c; rcp_task_leases := rcp_task_leases c; rcp_batch_id := rcp_batch_id c;
     rcp_expected_entries := rcp_expected_entries c; rcp_result := result |}.

Definition apply_pending_cancels (completion : RunnerCompletion) : M HostState RunnerCompletion :=
  match rcp_runner completion with
  | None => ret completion
  | Some runner =>
      let runner_id := d_runner_id (runner_descriptor runner) in
      let! h := get in
      match hs_pending_cancels h !! runner_id with
      | None => ret completion
      | Some invocation_ids =>
          modify (λ h, h <| hs_pending_cancels ::= delete runner_id |>) ;;!
          ret (set_runner (Some (foldl (λ runner invocation_id, (runner_cancel invocation_id runner).2) runner invocation_ids))
                 completion)
      end
  end.

Definition remove_pending_cancel (runner_id invocation_id : string) (pending : gmap string (list string)) :
    gmap string (list string) :=
  match pending !! runner_id with
  | None => pending
  | Some ids =>
      let ids := filter (λ item, item ≠ invocation_id) ids in
      if decide (ids = []) then delete runner_id pending else <[ runner_id := ids ]> pending
  end.

Definition remove_running_batch_entries (completion : RunnerCompletion) : M HostState unit :=
  modify (λ h, h <| hs_running ::= λ running, foldl (λ m lease, delete (l_task_id lease) m) running (rcp_task_leases completion) |>).

Definition handle_worker_completion (completion : RunnerCompletion) : M HostState (RuntimeResult RunnerLoopReport) :=
  let invocation_id := rcp_batch_id completion in
  let! h := get in
  match hs_draining h !! invocation_id with
  | Some draining =>
      modify (λ h, h <| hs_draining ::= delete invocation_id |>
                     <| hs_pending_cancels ::= remove_pending_cancel (di_runner_id draining) invocation_id |>) ;;!
      if di_recover_after_termination draining then
        match rcp_runner completion with
        | None => ret (Err (host_failure "host.runner.hard_timeout" "async handler cannot use hard-process recovery"))
        | Some runner =>
            let '(result, runner) := recover_after_hard_termination runner in
            match result with
            | Err e => ret (Err e)
            | Ok _ =>
                on_core (complete_runner_dispatch (set_result
                  (Err (host_failure "host.runner.hard_timeout"
                          ("runner " +:+ di_runner_id draining +:+ " was terminated and recovered")))
                  (set_runner (Some runner) completion)))
            end
        end
      else
        match rcp_runner completion with
        | Some _ => ret (Ok empty_runner_loop_report)
        | None =>
            remove_running_batch_entries completion ;;!
            on_core (complete_runner_dispatch completion)
        end
  | None =>
      let! completion := apply_pending_cancels completion in
      remove_running_batch_entries completion ;;!
      on_core (complete_runner_dispatch completion)
  end.

Definition mark_worker_started (started : WorkerStarted) : M HostState unit :=
  let! now := on_world instant_now in
  for_each (ws_task_ids started) (λ task_id,
    modify (λ h, h <| hs_running ::= alter (λ task,
      if bool_decide (rb_invocation_id task = ws_invocation_id started) &&
         bool_decide (rb_runner_id task = ws_runner_id started) &&
         bool_decide (rb_batch_id task = ws_batch_id started) &&
         bool_decide (rb_execution_class task = ws_execution_class started)
      then with_started (Some (ws_worker_id started)) now task else task) task_id |>)).

(** An async completion as a completion without a runner object *)
Definition async_completion (invocation : AsyncInvocation) (result : RuntimeResult CompletionBatch) : RunnerCompletion :=
  {| rcp_runner := None; rcp_task_leases := ai_task_leases invocation; rcp_batch_id := ai_batch_id invocation;
     rcp_expected_entries := ai_expected_entries invocation; rcp_result := result |}.

Definition handle_async_event (event : AsyncExecutorEvent) : M HostState (RuntimeResult RunnerLoopReport) :=
  match event with
  | ResourceCompleted _ reply result =>
      let! result :=
        match result with
        | Ok value => let? _ := sync_async_resource_reply value in ret (Ok value)
        | Err failure => ret (Err failure)
        end in
      send_answer reply (AnswerCommand result) ;;! ret (Ok empty_runner_loop_report)
  | ResourceTimedOut invocation reply =>
      send_answer reply (AnswerCommand (Err (host_failure "host.async_resource.timeout"
        ("async resource invocation " +:+ ai_invocation_id invocation +:+ " timed out")))) ;;!
      ret (Ok empty_runner_loop_report)
  | ResourcePanicked invocation reply =>
      send_answer reply (AnswerCommand (Err (host_failure "host.async_resource.panic"
        ("async resource invocation " +:+ ai_invocation_id invocation +:+ " panicked")))) ;;!
      ret (Ok empty_runner_loop_report)
  | AsyncStarted invocation =>
      let! now := on_world instant_now in
      for_each (ai_task_ids invocation) (λ task_id,
        modify (λ h, h <| hs_running ::= alter (λ task,
          if bool_decide (rb_invocation_id task = ai_invocation_id invocation)
          then with_started (rb_worker_id task) now task else task) task_id |>)) ;;!
      ret (Ok empty_runner_loop_report)
  | AsyncCompleted invocation result => handle_worker_completion (async_completion invocation result)
  | AsyncTimedOut invocation =>
      handle_worker_completion (async_completion invocation
        (Err (host_failure "host.async_executor.timeout" ("async invocation " +:+ ai_invocation_id invocation +:+ " timed out"))))
  | AsyncPanicked invocation =>
      handle_worker_completion (async_completion invocation
        (Err (host_failure "host.async_executor.panic" ("async invocation " +:+ ai_invocation_id invocation +:+ " panicked"))))
  end.

(** [u64::try_from(duration.as_millis()).ok()] of a duration in nanoseconds *)
Definition as_millis_u64 (duration : N) : option N :=
  let millis := (duration / 1000000)%N in
  if decide (millis ≤ u64_max)%N then Some millis else None.

Definition start_async_resource_command (command : HostRuntimeCommand) (reply : N) : M HostState unit :=
  if negb (cfg_async_executor config) then
    send_answer reply (AnswerCommand (Err (host_failure "host.async_executor.unavailable"
      "async resource plan requires an async executor")))
  else if negb (cfg_async_event_sink config) then
    send_answer reply (AnswerCommand (Err (host_failure "host.async_executor.event_sink"
      "async executor event sink is not configured")))
  else
    match prepare_async_resource_command config command with
    | Err failure => send_answer reply (AnswerCommand (Err failure))
    | Ok (provider_id, payload_bytes) =>
        let! previous := on_world async_resource_sequence in
        let invocation_id := "async-resource-" +:+ pretty (saturating_add previous 1) +:+ "-" +:+ provider_id in
        let invocation :=
          {| ai_invocation_id := invocation_id; ai_batch_id := invocation_id; ai_runner_id := "resource:" +:+ provider_id;
             ai_task_ids := []; ai_task_lease_ids := []; ai_attempt_generations := []; ai_task_leases := [];
             ai_expected_entries := []; ai_registry_generation := 0; ai_plugin_generation := 0;
             ai_cancel_token := invocation_id;
             ai_deadline_after_ms := lim_wall_clock_deadline (cfg_default_runner_limits config) ≫= as_millis_u64;
             ai_entry_count := 0; ai_payload_bytes := payload_bytes |} in
        modify (λ h, h <| hs_world ::= async_spawn_resource invocation command reply |>)
    end.

(** ** A scheduling pass *)

Definition task_handle (task : Task) : TaskHandle :=
  {| h_task_id := t_task_id task; h_protocol_id := t_protocol_id task; h_target_binding_id := t_target_binding_id task;
     h_cancel_policy := Cascade; h_trace_id := t_trace_id task; h_correlation_id := t_correlation_id task |}.

Definition running_batch_count_for_runner (running : gmap string RunningBatch) (runner_id : string) : N :=
  N.of_nat (size (list_to_set (rb_batch_id <$> filter (λ task, rb_runner_id task = runner_id) (btree_entries running).*2) : gset string)).

(** The counters of the pass: batches promised per pool and to the async
    executor, and how many readings it has made. *)
Record Reservations : Type := MkReservations {
  rsv_compute : N;
  rsv_blocking : N;
  rsv_async : N;
  rsv_readings : nat
}.

Inductive ReservationKind : Type := ReserveCompute | ReserveBlocking | ReserveAsync.

Definition reserved (kind : ReservationKind) (r : Reservations) : N :=
  match kind with ReserveCompute => rsv_compute r | ReserveBlocking => rsv_blocking r | ReserveAsync => rsv_async r end.

Definition reserve (kind : ReservationKind) (batches : N) (r : Reservations) : Reservations :=
  match kind with
  | ReserveCompute => MkReservations (saturating_add (rsv_compute r) batches) (rsv_blocking r) (rsv_async r) (rsv_readings r)
  | ReserveBlocking => MkReservations (rsv_compute r) (saturating_add (rsv_blocking r) batches) (rsv_async r) (rsv_readings r)
  | ReserveAsync => MkReservations (rsv_compute r) (rsv_blocking r) (saturating_add (rsv_async r) batches) (rsv_readings r)
  end.

Definition reservation_kind (descriptor : RunnerDescriptor) : option ReservationKind :=
  if is_async_mode (d_invocation_mode descriptor) then Some ReserveAsync
  else
    match pool_of (d_execution_class descriptor) with
    | Some ComputePool => Some ReserveCompute
    | Some BlockingPool => Some ReserveBlocking
    | None => None
    end.

(** The free slots and the counters of what would run this descriptor *)
Definition observed_capacity (w : World) (descriptor : RunnerDescriptor) (reading : nat) : N * PoolCapacitySnapshot :=
  if is_async_mode (d_invocation_mode descriptor) then
    if cfg_async_executor config then
      let snapshot := async_snapshot w reading in
      (saturating_sub (aes_max_inflight_invocations snapshot) (aes_running_invocations snapshot),
       MkPoolCapacitySnapshot (aes_max_inflight_invocations snapshot) 0 0 (aes_running_invocations snapshot)
         (aes_running_entries snapshot) (aes_inflight_bytes snapshot) (aes_max_inflight_bytes snapshot))
    else
      let batches := max_inflight_batches (d_concurrency descriptor) in
      (batches, MkPoolCapacitySnapshot batches 0 0 0 0 0 usize_max)
  else
    match pool_of (d_execution_class descriptor) with
    | Some pool => (pool_available_slots pool w reading, pool_capacity pool w reading)
    | None => (0%N, PoolCapacitySnapshot_default)
    end.

Definition with_queued_batches (n : N) (p : PoolCapacitySnapshot) : PoolCapacitySnapshot :=
  MkPoolCapacitySnapshot (pcs_active_threads p) n (pcs_queued_entries p) (pcs_running_batches p)
    (pcs_running_entries p) (pcs_inflight_bytes p) (pcs_max_inflight_bytes p).

(** The closure the pass gives to the core; [None] is the panic of
    [decide_schedule] on two counters of entries whose sum does not fit a
    [usize]. *)
Definition host_schedule (w : World) (running : gmap string RunningBatch) (descriptor : RunnerDescriptor)
    (load : RunnerLoad) (current_step registry_generation : N) (r : Reservations) :
    option (RuntimeResult ScheduleDecision * Reservations) :=
  match reservation_kind descriptor with
  | None => Some (Ok (ScheduleDecision_new "host.default" 0 "control.inline"), r)
  | Some kind =>
      let reading := rsv_readings r in
      let r := MkReservations (rsv_compute r) (rsv_blocking r) (rsv_async r) (S reading) in
      let '(pool_slots, pool_capacity) := observed_capacity w descriptor reading in
      let pool_slots := saturating_sub pool_slots (reserved kind r) in
      let pool_capacity := with_queued_batches (saturating_add (pcs_queued_batches pool_capacity) (reserved kind r)) pool_capacity in
      let running_batches := running_batch_count_for_runner running (d_runner_id descriptor) in
      match decide_schedule descriptor load current_step registry_generation (limits_for config (d_runner_id descriptor))
              pool_slots pool_capacity running_batches (cfg_scheduler_policy config) with
      | None => None
      | Some (Err e) => Some (Err e, r)
      | Some (Ok decision) => Some
          (Ok decision,
           if bool_decide (0 < dec_dispatch_limit decision)%N && bool_decide (0 < db_max_batches (dec_budget decision))%N
           then reserve kind (db_max_batches (dec_budget decision)) r else r)
      end
  end.

Definition with_deadlines (deadline_tick deadline_after_ms : option N) (d : RunnerDispatch) : RunnerDispatch :=
  let c := rdp_ctx d in
  {| rdp_target := rdp_target d;
     rdp_ctx := {| rc_registry_generation := rc_registry_generation c; rc_current_step := rc_current_step c;
                   rc_tick_id := rc_tick_id c; rc_batch_id := rc_batch_id c; rc_executor_id := rc_executor_id c;
                   rc_task_lease_ids := rc_task_lease_ids c; rc_entry_count := rc_entry_count c;
                   rc_invocation_id := rc_invocation_id c; rc_cancel_token := rc_cancel_token c;
                   rc_deadline_tick := deadline_tick; rc_deadline_after_ms := deadline_after_ms;
                   rc_cancel_requested := rc_cancel_requested c |};
     rdp_task_leases := rdp_task_leases d; rdp_batch := rdp_batch d |}.

(** The entry of the table for a task of a batch that has been handed over *)
Definition running_batch (dispatch : RunnerDispatch) (wall_clock_deadline_at : option N) (worker_id : option string)
    (async_handle : option AsyncInvocationHandle) (task : Task) : RunningBatch :=
  {| rb_runner_id := d_runner_id (target_descriptor (rdp_target dispatch));
     rb_invocation_id := rc_invocation_id (rdp_ctx dispatch);
     rb_batch_id := rc_batch_id (rdp_ctx dispatch);
     rb_execution_class := d_execution_class (target_descriptor (rdp_target dispatch));
     rb_handle := task_handle task;
     rb_deadline_tick := rc_deadline_tick (rdp_ctx dispatch);
     rb_wall_clock_deadline_at := wall_clock_deadline_at;
     rb_cancel_requested_at := None;
     rb_worker_id := worker_id;
     rb_worker_started_at := None;
     rb_isolation := target_isolation (rdp_target dispatch);
     rb_management := target_management_handle (rdp_target dispatch);
     rb_async_handle := async_handle |}.

Definition record_running (entry : Task → RunningBatch) (tasks : list Task) : M HostState unit :=
  modify (λ h, h <| hs_running ::= λ running, foldl (λ m task, <[ t_task_id task := entry task ]> m) running tasks |>).

(** [core.complete_runner_dispatch(..)?.completed_tasks] of a dispatch nobody
    takes *)
Definition reject_dispatch (runner : option Runner) (dispatch : RunnerDispatch) (failure : RuntimeError) :
    M HostState (RuntimeResult N) :=
  let? report := on_core (complete_runner_dispatch
    {| rcp_runner := runner; rcp_task_leases := rdp_task_leases dispatch; rcp_batch_id := wb_batch_id (rdp_batch dispatch);
       rcp_expected_entries := wb_entries (rdp_batch dispatch); rcp_result := Err failure |}) in
  ret (Ok (rep_completed_tasks report)).

Definition async_invocation_of (dispatch : RunnerDispatch) (payload_bytes : N) : AsyncInvocation :=
  let leases := rdp_task_leases dispatch in
  let descriptor := target_descriptor (rdp_target dispatch) in
  {| ai_invocation_id := rc_invocation_id (rdp_ctx dispatch); ai_batch_id := rc_batch_id (rdp_ctx dispatch);
     ai_runner_id := d_runner_id descriptor; ai_task_ids := l_task_id <$> leases;
     ai_task_lease_ids := l_lease_id <$> leases; ai_attempt_generations := l_attempt_generation <$> leases;
     ai_task_leases := leases; ai_expected_entries := wb_entries (rdp_batch dispatch);
     ai_registry_generation := rc_registry_generation (rdp_ctx dispatch);
     ai_plugin_generation := d_plugin_generation descriptor; ai_cancel_token := rc_cancel_token (rdp_ctx dispatch);
     ai_deadline_after_ms := rc_deadline_after_ms (rdp_ctx dispatch);
     ai_entry_count := len (wb_entries (rdp_batch dispatch)); ai_payload_bytes := payload_bytes |}.

(** The two halves of what one dispatch adds: entries deferred and rejected. *)
Definition dispatch_async (dispatch : RunnerDispatch) (handler : AsyncHandler) (tasks : list Task)
    (wall_clock_deadline_at : option N) : M HostState (RuntimeResult (N * N)) :=
  if negb (cfg_async_executor config) then
    let? rejected := reject_dispatch None dispatch (host_failure "host.async_executor.unavailable"
      ("runner " +:+ d_runner_id (target_descriptor (rdp_target dispatch)) +:+ " requires an async executor")) in
    ret (Ok (0, rejected)%N)
  else if negb (cfg_async_event_sink config) then
    ret (Err (host_failure "host.async_executor.event_sink" "async executor event sink is not configured"))
  else
    match payload_json_bytes (wb_payload (rdp_batch dispatch)) with
    | Err error => ret (Err (host_failure "host.async_executor.payload" error))
    | Ok payload_bytes =>
        let! spawned := on_world (async_spawn (async_invocation_of dispatch payload_bytes) handler
                                    (rdp_ctx dispatch) (rdp_batch dispatch)) in
        match spawned with
        | Err failure =>
            let? report := on_core (complete_runner_dispatch
              {| rcp_runner := None; rcp_task_leases := rdp_task_leases dispatch;
                 rcp_batch_id := rc_batch_id (rdp_ctx dispatch);
                 rcp_expected_entries := wb_entries (rdp_batch dispatch); rcp_result := Err failure |}) in
            ret (Ok (0%N, rep_completed_tasks report))
        | Ok async_handle =>
            record_running (running_batch dispatch wall_clock_deadline_at (Some "async_io") (Some async_handle)) tasks ;;!
            ret (Ok (0, 0)%N)
        end
    end.

Definition dispatch_sync (dispatch : RunnerDispatch) (tasks : list Task) (wall_clock_deadline_at : option N) :
    M HostState (RuntimeResult (N * N)) :=
  let execution_class := d_execution_class (target_descriptor (rdp_target dispatch)) in
  match pool_of execution_class with
  | None => ret (Err (host_failure "host.worker.pool_missing"
                        ("execution_class." +:+ debug_execution_class execution_class)))
  | Some pool =>
      let! sent := on_world (pool_send pool dispatch) in
      match sent with
      | Ok _ =>
          record_running (running_batch dispatch wall_clock_deadline_at None None) tasks ;;! ret (Ok (0, 0)%N)
      | Err error =>
          if wde_retryable error then
            let? deferred := on_core (defer_runner_dispatch (wde_dispatch error)) in ret (Ok (deferred, 0%N))
          else
            let? rejected := reject_dispatch
              (match rdp_target (wde_dispatch error) with TargetSync runner => Some runner | TargetAsync _ => None end)
              (wde_dispatch error) (wde_failure error) in
            ret (Ok (0%N, rejected))
      end
  end.

Definition hand_over (dispatch : RunnerDispatch) : M HostState (RuntimeResult (N * N)) :=
  let limits := limits_for config (d_runner_id (target_descriptor (rdp_target dispatch))) in
  let dispatch := with_deadlines
    (saturating_add (rc_current_step (rdp_ctx dispatch)) <$> lim_deadline_ticks limits)
    (lim_wall_clock_deadline limits ≫= as_millis_u64) dispatch in
  let! wall_clock_deadline_at :=
    match lim_wall_clock_deadline limits with
    | None => ret None
    | Some deadline =>
        let! now := on_world instant_now in
        let! at_ := expect (checked_instant_add now deadline) in ret (Some at_)
    end in
  let? tasks := ret (try_row_tasks (wb_payload (rdp_batch dispatch))) in
  match rdp_target dispatch with
  | TargetAsync handler => dispatch_async dispatch handler tasks wall_clock_deadline_at
  | TargetSync _ => dispatch_sync dispatch tasks wall_clock_deadline_at
  end.

Fixpoint hand_over_all (dispatches : list RunnerDispatch) (deferred rejected : N) : M HostState (RuntimeResult (N * N)) :=
  match dispatches with
  | [] => ret (Ok (deferred, rejected))
  | dispatch :: dispatches =>
      let? counts := hand_over dispatch in
      hand_over_all dispatches (saturating_add deferred counts.1) (saturating_add rejected counts.2)
  end.

Definition schedule_ready_at (target_step : N) : M HostState (RuntimeResult RunnerLoopReport) :=
  let! h := get in
  let? claimed := on_core (claim_ready_dispatches_at_step (host_schedule (hs_world h) (hs_running h))
                             target_step (MkReservations 0 0 0 0) None) in
  let '(report, dispatches) := claimed in
  let? counts := hand_over_all dispatches 0 0 in
  ret (Ok (MkRunnerLoopReport (saturating_sub (rep_claimed_tasks report) counts.1)
                              (saturating_add (rep_completed_tasks report) counts.2))).

Definition schedule_ready : M HostState (RuntimeResult RunnerLoopReport) :=
  let! h := get in
  schedule_ready_at (saturating_add (rt_current_step (hs_core h)) 1).

(** ** Messages while a command waits *)

Definition replace_exited (exited : WorkerExited) : M HostState (RuntimeResult unit) :=
  if we_isolated exited then
    match pool_of (we_execution_class exited) with
    | Some pool => on_world (pool_replace_exited_worker pool (we_worker_id exited))
    | None => ret (Ok tt)
    end
  else ret (Ok tt).

Definition answer_task_status (task_id : string) (reply_tx : N) : M HostState unit :=
  let! h := get in send_answer reply_tx (AnswerStatus (task_status (hs_core h) task_id)).

(** [let _ = ..] of a fallible call *)
Definition ignore {A} (c : M HostState A) : M HostState unit := c ;;! ret tt.

Definition claimed_of (r : RuntimeResult RunnerLoopReport) : N := match r with Ok report => rep_claimed_tasks report | Err _ => 0%N end.
Definition completed_of (r : RuntimeResult RunnerLoopReport) : N := match r with Ok report => rep_completed_tasks report | Err _ => 0%N end.

Definition send_command_reply (outcome : RuntimeResult (HostRuntimeReply * bool)) (reply_tx : N) : M HostState bool :=
  send_answer reply_tx (AnswerCommand (match outcome with Ok (reply, _) => Ok reply | Err e => Err e end)) ;;!
  ret (match outcome with Ok (_, shutdown) => shutdown | Err _ => false end).

Section Drain.
(** [handle_command], which messages received meanwhile may need *)
Variable handle : HostRuntimeCommand → M HostState (RuntimeResult (HostRuntimeReply * bool)).

Fixpoint drain_worker_completions (max_messages : nat) (aggregate : RunnerLoopReport) :
    M HostState (RunnerLoopReport * bool) :=
  match max_messages with
  | O => ret (aggregate, false)
  | S max_messages =>
      supervise_running_invocations config ;;!
      let! received := recv_timeout in
      match received with
      | Received_timeout => ret (aggregate, false)
      | Received_disconnected | Received_msg MsgShutdown => ret (aggregate, true)
      | Received_msg (MsgWorkerStarted started) =>
          mark_worker_started started ;;! drain_worker_completions max_messages aggregate
      | Received_msg (MsgWorkerCompleted completion) =>
          let! report := handle_worker_completion completion in
          let! scheduled := schedule_ready in
          drain_worker_completions max_messages
            (MkRunnerLoopReport (rep_claimed_tasks aggregate + claimed_of scheduled)
               (rep_completed_tasks aggregate + completed_of report + completed_of scheduled))
      | Received_msg (MsgAsyncEvent event) =>
          let! report := handle_async_event event in
          let! scheduled := schedule_ready in
          drain_worker_completions max_messages
            (MkRunnerLoopReport (rep_claimed_tasks aggregate + claimed_of scheduled)
               (rep_completed_tasks aggregate + completed_of report + completed_of scheduled))
      | Received_msg (MsgWorkerExited exited) =>
          ignore (replace_exited exited) ;;! drain_worker_completions max_messages aggregate
      | Received_msg (MsgManagementFailed runner_id invocation_id) =>
          queue_management_retry runner_id invocation_id ;;! drain_worker_completions max_messages aggregate
      | Received_msg (MsgTaskStatus task_id reply_tx) =>
          answer_task_status task_id reply_tx ;;! drain_worker_completions max_messages aggregate
      | Received_msg (MsgCommand command reply_tx) =>
          let! outcome := handle command in
          let! shutdown := send_command_reply outcome reply_tx in
          if shutdown : bool then ret (aggregate, true) else drain_worker_completions max_messages aggregate
      | Received_msg (MsgAsyncResourceCommand command reply_tx) =>
          start_async_resource_command command reply_tx ;;! drain_worker_completions max_messages aggregate
      end
  end.

Fixpoint run_idle_ticks (max_ticks : nat) (aggregate : RunnerLoopReport) (shutdown : bool) :
    M HostState (RuntimeResult (RunnerLoopReport * bool)) :=
  match max_ticks with
  | O => ret (Ok (aggregate, shutdown))
  | S max_ticks =>
      let? report := schedule_ready in
      let! drained := drain_worker_completions 8 (add_report aggregate report) in
      let '(aggregate, shutdown) := drained in
      let! h := get in
      let tasks := rt_tasks (hs_core h) in
      if (bool_decide (ready_count_stat tasks = 0%N) && bool_decide (running_count_stat tasks = 0%N)) || shutdown
      then ret (Ok (aggregate, shutdown))
      else run_idle_ticks max_ticks aggregate shutdown
  end.
End Drain.

Definition busy_failure : RuntimeError := host_failure "host.reload.busy" "runtime reload is draining active work".

(** Each round receives a message, waits, or returns. *)
Fixpoint drain_for_reload_loop (fuel : nat) (started_at drain_timeout : N) : M HostState (RuntimeResult unit) :=
  match fuel with
  | O => panic
  | S fuel =>
      supervise_running_invocations config ;;!
      let! h := get in
      if decide (hs_running h = ∅) then ret (Ok tt)
      else
        let! now := on_world instant_now in
        if decide (drain_timeout ≤ now - started_at)%N then
          ret (Err (host_failure "host.reload.drain_timeout"
            ("timed out waiting for " +:+ pretty (N.of_nat (size (hs_running h))) +:+ " running batch entry/entries to drain")))
        else
          let! received := recv_timeout in
          match received with
          | Received_timeout => drain_for_reload_loop fuel started_at drain_timeout
          | Received_disconnected | Received_msg MsgShutdown =>
              ret (Err (host_failure "host.reload.shutdown" "runtime actor stopped"))
          | Received_msg (MsgWorkerStarted started) =>
              mark_worker_started started ;;! drain_for_reload_loop fuel started_at drain_timeout
          | Received_msg (MsgWorkerCompleted completion) =>
              let? _ := handle_worker_completion completion in drain_for_reload_loop fuel started_at drain_timeout
          | Received_msg (MsgAsyncEvent event) =>
              let? _ := handle_async_event event in drain_for_reload_loop fuel started_at drain_timeout
          | Received_msg (MsgWorkerExited exited) =>
              let? _ := replace_exited exited in drain_for_reload_loop fuel started_at drain_timeout
          | Received_msg (MsgManagementFailed runner_id invocation_id) =>
              queue_management_retry runner_id invocation_id ;;! drain_for_reload_loop fuel started_at drain_timeout
          | Received_msg (MsgTaskStatus task_id reply_tx) =>
              answer_task_status task_id reply_tx ;;! drain_for_reload_loop fuel started_at drain_timeout
          | Received_msg (MsgCommand _ reply_tx) | Received_msg (MsgAsyncResourceCommand _ reply_tx) =>
              send_answer reply_tx (AnswerCommand (Err busy_failure)) ;;!
              drain_for_reload_loop fuel started_at drain_timeout
          end
  end.

Definition drain_for_reload (drain_timeout : N) : M HostState (RuntimeResult unit) :=
  let! started_at := on_world instant_now in
  let! h := get in
  drain_for_reload_loop (S (length (hs_inbox h))) started_at drain_timeout.

(** The wrapper [DisposeOnDropRunner] around the new runners passes every call
    on to its runner; it only disposes of a runner object that is dropped. *)
Definition reload_runtime (prepared : PreparedReload) (drain_timeout : N) : M HostState (RuntimeResult ReloadDecision) :=
  let? _ := drain_for_reload drain_timeout in
  on_core (reload_with_async_handlers (prl_plan prepared) (prl_runners prepared) (prl_async_handlers prepared)).

(** ** Commands *)

Definition task_snapshot (record : TaskRecord) : HostTaskSnapshot :=
  let task := r_task record in
  {| hsn_task_id := t_task_id task; hsn_protocol_id := t_protocol_id task; hsn_status := r_status record;
     hsn_priority := t_priority task; hsn_ready_at_step := t_ready_at_step task;
     hsn_created_sequence := t_created_sequence task; hsn_registry_generation := t_registry_generation task;
     hsn_target_binding_id := t_target_binding_id task; hsn_runner_hint := t_runner_hint task;
     hsn_claimed_by := r_claimed_by record; hsn_owner_runner := r_owner_runner record;
     hsn_lease_id := t_lease_id task; hsn_attempt_generation := r_attempt_generation record;
     hsn_trace_id := t_trace_id task; hsn_correlation_id := t_correlation_id task;
     hsn_input_refs := t_input_refs task; hsn_output_ref := t_output_ref task;
     hsn_continuation_ref := t_continuation_ref task; hsn_required_surfaces := t_required_surfaces task;
     hsn_failure := (λ failure, MkHostTaskFailureSummary (e_code failure) (e_source failure) (e_route failure)) <$> r_failure record |}.

Definition task_snapshots (core : CoreRuntime) : list HostTaskSnapshot := task_snapshot <$> records (rt_tasks core).

Definition task_state_of (core : CoreRuntime) (handle : TaskHandle) : RuntimeResult HostTaskState :=
  letr? outcome := task_outcome core (h_task_id handle) in
  Ok {| hts_handle := handle; hts_status := task_handle_status core handle; hts_outcome := outcome |}.

(** What [CancelTask] does with one of the cancelled tasks *)
Definition cancel_target (target : string * string) : M HostState unit :=
  let '(task_id, runner_id) := target in
  let! h := get in
  let running_invocation := rb_invocation_id <$> hs_running h !! task_id in
  let! cancelled := on_core (cancel_runner_invocation runner_id task_id) in
  match cancelled with
  | Ok _ => ret tt
  | Err _ =>
      match running_invocation with
      | Some invocation_id =>
          let! cancelled := cancel_async_invocation config invocation_id in
          if cancelled : bool then ret tt else request_running_cancel invocation_id
      | None => modify (λ h, h <| hs_pending_cancels ::= push_pending runner_id task_id |>)
      end
  end.

Definition cancel_running (invocation_id : string) : M HostState unit :=
  let! cancelled := cancel_async_invocation config invocation_id in
  if cancelled : bool then ret tt else request_running_cancel invocation_id.

(** [schedule_ready(..)?] if the host drives itself *)
Definition schedule_if_driven {A} (a : A) : M HostState (RuntimeResult A) :=
  if cfg_event_driven config then let? _ := schedule_ready in ret (Ok a) else ret (Ok a).

Definition reply {A} (f : A → HostRuntimeReply) (c : M HostState (RuntimeResult A)) :
    M HostState (RuntimeResult (HostRuntimeReply * bool)) :=
  let? a := c in ret (Ok (f a, false)).

Definition query {A} (f : HostState → RuntimeResult A) : M HostState (RuntimeResult A) :=
  let! h := get in ret (f h).

Fixpoint handle_command (fuel : nat) (command : HostRuntimeCommand) :
    M HostState (RuntimeResult (HostRuntimeReply * bool)) :=
  match fuel with
  | O => panic
  | S fuel =>
    match command with
    | CmdSubmitTask task =>
        reply ReplyTaskSubmitted (let? handle := on_core (submit_task task) in schedule_if_driven handle)
    | CmdSubmitBatch batch =>
        reply ReplyTaskBatchSubmitted (let? handles := on_core (submit_batch batch) in schedule_if_driven handles)
    | CmdTickOnce =>
        let? report := schedule_ready in
        let! drained := drain_worker_completions (handle_command fuel) 1 report in
        let '(report, shutdown) := drained in
        ret (Ok (ReplyTick report, shutdown))
    | CmdRunUntilIdle max_ticks =>
        let? idle := run_idle_ticks (handle_command fuel) (N.to_nat max_ticks) empty_runner_loop_report false in
        let '(aggregate, shutdown) := idle in
        ret (Ok (ReplyIdle aggregate, shutdown))
    | CmdCancelTask handle =>
        let! h := get in
        let! targets := expect (task_cancellation_targets (hs_core h) handle) in
        let? _ := on_core (cancel_task_handle handle) in
        for_each targets cancel_target ;;!
        ret (Ok (ReplyTaskCancelled handle, false))
    | CmdBeginDrain => reply ReplyDrainStarted (on_core begin_drain)
    | CmdAbort reason =>
        let! h := get in
        for_each (sort_by_str id (elements (list_to_set (rb_invocation_id <$> (btree_entries (hs_running h)).*2) : gset string)))
          cancel_running ;;!
        reply ReplyRuntimeAborted (on_core (abort reason))
    | CmdStopState => reply ReplyStopState (query (λ h, Ok (rt_stop_state (hs_core h))))
    | CmdStatistics => reply ReplyStatistics (query (λ h, Ok (rt_statistics (hs_core h))))
    | CmdDriveState => reply ReplyDriveState (query (λ h, Ok (driver_snapshot config h)))
    | CmdWorkerPools =>
        reply ReplyWorkerPools (query (λ h, Ok [pool_snapshot ComputePool (hs_world h); pool_snapshot BlockingPool (hs_world h)]))
    | CmdAsyncExecutor =>
        reply ReplyAsyncExecutor (query (λ h, Ok (if cfg_async_executor config then Some (async_snapshot (hs_world h) 0) else None)))
    | CmdTaskSnapshots => reply ReplyTaskSnapshots (query (λ h, Ok (task_snapshots (hs_core h))))
    | CmdTaskStatesBatch handles =>
        reply ReplyTaskStatesBatch (query (λ h, collect_results (task_state_of (hs_core h)) handles))
    | CmdTaskOutcome handle => reply ReplyTaskOutcome (query (λ h, task_outcome (hs_core h) (h_task_id handle)))
    | CmdEventsAfter sequence limit => reply ReplyEvents (query (λ h, Ok (event_page_after (rt_events (hs_core h)) sequence limit)))
    | CmdTraceSpansAfter sequence limit =>
        reply ReplyTraceSpans (query (λ h, Ok (trace_page_after (rt_traces (hs_core h)) sequence limit)))
    | CmdOpenResourceDescriptor ref_id =>
        reply ReplyResourceDescriptor (query (λ h, open_resource (rt_resources (hs_core h)) ref_id))
    | CmdReload prepared drain_timeout =>
        reply ReplyReloaded (let? decision := reload_runtime prepared drain_timeout in schedule_if_driven decision)
    | CmdCreateBlobResource _ _ _ | CmdCreateCowStateResource _ _ _ _ | CmdCreateCapabilityResource _ _ _
    | CmdCollectReadPlan _ | CmdSnapshotReadPlan _ _ _ | CmdOpenStreamPlan _ | CmdExecuteExportPlan _
    | CmdCommitWritePlan _ _ | CmdExecuteCommandPlan _ | CmdExecuteCommandBatch _ | CmdExecuteSagaPlan _ =>
        let? r := handle_resource_command config command in ret (Ok (r, false))
    end
  end.

(** ** The loop *)

(** One message, after supervision; whether the actor stops. *)
Definition handle_message (msg : CoreActorMsg) : M HostState bool :=
  match msg with
  | MsgCommand command reply_tx =>
      let! h := get in
      let! outcome := handle_command (S (length (hs_inbox h))) command in
      send_command_reply outcome reply_tx
  | MsgAsyncResourceCommand command reply_tx => start_async_resource_command command reply_tx ;;! ret false
  | MsgTaskStatus task_id reply_tx => answer_task_status task_id reply_tx ;;! ret false
  | MsgWorkerStarted started => mark_worker_started started ;;! ret false
  | MsgWorkerCompleted completion => ignore (handle_worker_completion completion) ;;! ignore schedule_ready ;;! ret false
  | MsgAsyncEvent event => ignore (handle_async_event event) ;;! ignore schedule_ready ;;! ret false
  | MsgWorkerExited exited => ignore (replace_exited exited) ;;! ret false
  | MsgManagementFailed runner_id invocation_id => queue_management_retry runner_id invocation_id ;;! ret false
  | MsgShutdown =>
      (if cfg_async_executor config then modify (λ h, h <| hs_world ::= async_cancel_all |>) else ret tt) ;;!
      ignore (on_core (abort "host.shutdown")) ;;! ret true
  end.

(** A wait that ended without a message; whether the actor stops. *)
Definition handle_timeout : M HostState bool :=
  modify (λ h, h <| hs_timed_wakeups ::= λ n, saturating_add n 1 |>) ;;!
  let! h := get in
  let! failed :=
    match hs_scheduled_tick h with
    | None => ret false
    | Some (target_step, deadline) =>
        let! now := on_world instant_now in
        if decide (deadline ≤ now)%N then
          let! result := schedule_ready_at target_step in
          ret (match result with Ok _ => false | Err _ => true end)
        else ret false
    end in
  if failed : bool then ret true
  else supervise_running_invocations config ;;! publish_terminal_changes ;;! ret false.

(** Refreshing the driver and waiting for the next message *)
Definition await_message : M HostState Received :=
  let! h := get in
  refresh_scheduled_tick (next_required_tick (hs_core h) (hs_running h)) (rt_current_step (hs_core h))
    (cfg_tick_interval config) ;;!
  let! h := get in
  match next_wake_deadline config h with
  | Some _ => on_world instant_now ;;! recv_timeout
  | None => recv
  end.

(** One round of the loop; whether the actor stops. *)
Definition actor_round : M HostState bool :=
  let! received := await_message in
  match received with
  | Received_disconnected => ret true
  | Received_timeout => handle_timeout
  | Received_msg msg =>
      supervise_running_invocations config ;;!
      let! shutdown := handle_message msg in
      publish_terminal_changes ;;!
      ret shutdown
  end.

(** Each round takes a message, a time-out or stops. *)
Fixpoint core_actor_loop (fuel : nat) : M HostState unit :=
  match fuel with
  | O => panic
  | S fuel =>
      let! stopped := actor_round in
      if stopped : bool then ret tt else core_actor_loop fuel
  end.

Definition host_state_new (core : CoreRuntime) (inbox : list (option CoreActorMsg)) (w : World) : HostState :=
  {| hs_core := core; hs_pending_cancels := ∅; hs_running := ∅; hs_draining := ∅; hs_scheduled_tick := None;
     hs_timed_wakeups := 0; hs_terminal_revision := terminal_revision core; hs_inbox := inbox; hs_answers := [];
     hs_published := []; hs_world := w |}.

Definition run_actor (core : CoreRuntime) (inbox : list (option CoreActorMsg)) (w : World) : option HostState :=
  match core_actor_loop (S (length inbox)) (host_state_new core inbox w) with
  | Some (_, h) => Some h
  | None => None
  end.
End Loop.
