(* ===== verification/HostLoopTheorems.v ===== *)
(** * What the host actor does to the core and to its callers

    Every handler of the actor is tracked by four things: the public
    operations of the core it runs and what asked for each of them, what it does
    to the table of running batches, the messages it takes from its mailbox, and
    the answers it sends. *)

From stdpp Require Import relations.
From S2P Require Import Prelude Contracts RunnerContracts BatchContracts PluginContracts Logs StateStore ResourceManager TaskRecords TaskIndexes TaskPool TaskClaiming Registry RuntimeState RuntimeTasks RuntimeRouting RuntimeDispatch RuntimeReload RuntimeResources RuntimePasses RuntimeOps RegistryTheorems ReloadTheorems WireBytes WireOperations HostErrors HostScheduler HostCommands HostActor HostLoop.

Section Spec.
Context `{RC : RunnerControl} `{ST : !SerdeTypes} `{HW : !HostWorld}.
Variable config : HostRuntimeConfig.

(** ** Operations a message asks for *)

(** A schedule that gives nothing to synchronous runners of the control class *)
Definition withholds_control {D} (schedule : RunnerDescriptor → RunnerLoad → N → N → D → option (RuntimeResult ScheduleDecision * D)) : Prop :=
  ∀ descriptor load step generation d,
    d_execution_class descriptor = ClassControl → is_async_mode (d_invocation_mode descriptor) = false →
    ∃ decision d', schedule descriptor load step generation d = Some (Ok decision, d') ∧ dec_dispatch_limit decision = 0%N.

Section Asked.
(** The messages taken so far *)
Variable taken : list (option CoreActorMsg).

Definition asked (command : HostRuntimeCommand) : Prop := ∃ r, Some (MsgCommand command r) ∈ taken.

(** The answer of a provider *)
Definition answers {A} (call : World → RuntimeResult A * World) (a : A) : Prop := ∃ w, (call w).1 = Ok a.

(** A descriptor a provider returned for a command to create it *)
Definition created (d : ResourceRef) : Prop :=
  (∃ p schema bytes kind, asked (CmdCreateBlobResource p schema bytes) ∧
     answers (provider_create_blob kind p schema bytes) d ∧ rr_provider_id d = p) ∨
  (∃ p kind_id schema bytes kind, asked (CmdCreateCowStateResource p kind_id schema bytes) ∧
     answers (provider_create_cow_state kind p kind_id schema bytes) d ∧ rr_provider_id d = p) ∨
  (∃ p kind_id schema kind, asked (CmdCreateCapabilityResource p kind_id schema) ∧
     answers (provider_create_capability kind p kind_id schema) d ∧ rr_provider_id d = p).

(** The receipts in the reply of an async resource command *)
Definition receipts_in (reply : HostRuntimeReply) : option (list PlanReceipt) :=
  match reply with
  | ReplyPlanReceipt receipt => Some [receipt]
  | ReplyPlanReceipts receipts => Some receipts
  | ReplySnapshot snapshot => Some [snapshot_receipt snapshot]
  | _ => None
  end.

(** Receipts a provider returned for a resource command *)
Definition reported (receipts : list PlanReceipt) : Prop :=
  (∃ plan kind_id schema snapshot, asked (CmdSnapshotReadPlan plan kind_id schema) ∧
     answers (provider_snapshot (rr_provider_id (rp_resource plan)) plan kind_id schema) snapshot ∧
     receipts = [snapshot_receipt snapshot]) ∨
  (∃ plan receipt, asked (CmdExecuteExportPlan plan) ∧
     answers (provider_export (rr_provider_id (xp_resource plan)) plan) receipt ∧ receipts = [receipt]) ∨
  (∃ plan bytes receipt, asked (CmdCommitWritePlan plan bytes) ∧
     answers (provider_commit (rr_provider_id (wp_resource plan)) plan bytes) receipt ∧ receipts = [receipt]) ∨
  (∃ plan receipt, asked (CmdExecuteCommandPlan plan) ∧
     answers (provider_command (rr_provider_id (cp_capability plan)) plan) receipt ∧ receipts = [receipt]) ∨
  (∃ batch p, asked (CmdExecuteCommandBatch batch) ∧ answers (provider_command_batch p batch) receipts) ∨
  (∃ saga p, asked (CmdExecuteSagaPlan saga) ∧ answers (provider_saga p saga) receipts) ∨
  (∃ inv r reply, Some (MsgAsyncEvent (ResourceCompleted inv r (Ok reply))) ∈ taken ∧ receipts_in reply = Some receipts).

(** A dispatch that the executor or a pool turned away, for good, with [e] *)
Definition turned_away (d : RunnerDispatch) (e : RuntimeError) : Prop :=
  (cfg_async_executor config = false ∧ ∃ handler, rdp_target d = TargetAsync handler) ∨
  (∃ inv handler w, (async_spawn inv handler (rdp_ctx d) (rdp_batch d) w).1 = Err e) ∨
  (∃ pool sent error w, (pool_send pool sent w).1 = Err error ∧ wde_retryable error = false ∧
     wde_dispatch error = d ∧ wde_failure error = e).

(** What starts a scheduling pass: a wait that timed out, a tick, a completion,
    or a submission or a reload of a host that drives itself *)
Definition drives (msg : option CoreActorMsg) : Prop :=
  match msg with
  | None | Some (MsgWorkerCompleted _) | Some (MsgAsyncEvent _)
  | Some (MsgCommand CmdTickOnce _) | Some (MsgCommand (CmdRunUntilIdle _) _) => True
  | Some (MsgCommand (CmdSubmitTask _) _) | Some (MsgCommand (CmdSubmitBatch _) _)
  | Some (MsgCommand (CmdReload _ _) _) => cfg_event_driven config = true
  | _ => False
  end.
Definition driven : Prop := ∃ msg, msg ∈ taken ∧ drives msg.

(** What becomes of the leases of a dispatch: the outcome a worker or the
    executor sent, the failure of a runner that was terminated, or the failure of
    a dispatch nobody takes *)
Definition concluded (c : RunnerCompletion) : Prop :=
  (∃ c0, Some (MsgWorkerCompleted c0) ∈ taken ∧ rcp_task_leases c = rcp_task_leases c0 ∧
     (rcp_result c = rcp_result c0 ∨ ∃ runner_id, rcp_result c =
        Err (host_failure "host.runner.hard_timeout" ("runner " +:+ runner_id +:+ " was terminated and recovered")))) ∨
  (∃ inv result, rcp_task_leases c = ai_task_leases inv ∧ rcp_result c = result ∧
     (Some (MsgAsyncEvent (AsyncCompleted inv result)) ∈ taken ∨
      (∃ e, result = Err e) ∧ (Some (MsgAsyncEvent (AsyncTimedOut inv)) ∈ taken ∨ Some (MsgAsyncEvent (AsyncPanicked inv)) ∈ taken))) ∨
  (∃ d e, rcp_task_leases c = rdp_task_leases d ∧ rcp_result c = Err e ∧ turned_away d e).

Definition asked_for (op : RtOp) : Prop :=
  match op with
  | RtSubmitTask task => asked (CmdSubmitTask task)
  | RtSubmitBatch batch => asked (CmdSubmitBatch batch)
  | RtReload plan runners handlers => ∃ timeout, asked (CmdReload (MkPreparedReload plan runners handlers) timeout)
  | RtBeginDrain => asked CmdBeginDrain
  | RtAbort reason => asked (CmdAbort reason) ∨ reason = "host.shutdown" ∧ Some MsgShutdown ∈ taken
  | RtCancelTask task_id => ∃ handle, asked (CmdCancelTask handle) ∧ h_task_id handle = task_id
  | RtCancelRunner runner_id task_id => ∃ handle s targets, asked (CmdCancelTask handle) ∧
      task_cancellation_targets s handle = Some targets ∧ (task_id, runner_id) ∈ targets
  | RtClaimDispatches D schedule _ _ expires => driven ∧ withholds_control schedule ∧ expires = None
  | RtDeferDispatch d => ∃ pool sent error w, (pool_send pool sent w).1 = Err error ∧ wde_retryable error = true ∧
      wde_dispatch error = d
  | RtCompleteDispatch completion => concluded completion
  | RtRegisterDescriptor d => created d
  | RtSyncReceipts receipts => reported receipts
  | _ => False
  end.
End Asked.

(** ** The table of running batches *)

Section Table.
(** The invocations somebody wants to stop, and those reported to have started *)
Variables stopping started : string → Prop.

(** An entry stays what it was; that somebody asked to stop it or that it
    started is noted. *)
Definition kept_entry (t t' : RunningBatch) : Prop :=
  rb_runner_id t' = rb_runner_id t ∧ rb_invocation_id t' = rb_invocation_id t ∧ rb_handle t' = rb_handle t ∧
  rb_deadline_tick t' = rb_deadline_tick t ∧ rb_wall_clock_deadline_at t' = rb_wall_clock_deadline_at t ∧
  rb_async_handle t' = rb_async_handle t ∧
  (rb_cancel_requested_at t' = rb_cancel_requested_at t ∨ stopping (rb_invocation_id t)) ∧
  (rb_worker_started_at t' = rb_worker_started_at t ∨ started (rb_invocation_id t)).

Definition shrunk (R R' : gmap string RunningBatch) : Prop :=
  ∀ id t', R' !! id = Some t' → ∃ t, R !! id = Some t ∧ kept_entry t t'.

(** A dispatch with the deadlines its runner's limits give it *)
Definition dated (d : RunnerDispatch) (wall : option N) : Prop :=
  let limits := limits_for config (d_runner_id (target_descriptor (rdp_target d))) in
  rc_deadline_tick (rdp_ctx d) = (saturating_add (rc_current_step (rdp_ctx d)) <$> lim_deadline_ticks limits) ∧
  ∃ w, wall = ((λ deadline, (instant_now w).1 + deadline)%N <$> lim_wall_clock_deadline limits).

Definition handed_over (id : string) (t : RunningBatch) : Prop :=
  ∃ d wall worker_id async_handle task, dated d wall ∧ id = t_task_id task ∧
    kept_entry (running_batch d wall worker_id async_handle task) t.

(** Entries leave the table, stay, or enter with a dispatch. *)
Definition table_step (R R' : gmap string RunningBatch) : Prop :=
  ∀ id t', R' !! id = Some t' → (∃ t, R !! id = Some t ∧ kept_entry t t') ∨ handed_over id t'.
End Table.

(** The invocation of some entry is past its tick deadline. *)
Definition past_tick (R : gmap string RunningBatch) (step : N) (invocation_id : string) : Prop :=
  ∃ key t, R !! key = Some t ∧ rb_invocation_id t = invocation_id ∧ tick_expired step t.

(** Some message asks to stop what runs. *)
Definition stop_asked (taken : list (option CoreActorMsg)) : Prop :=
  (∃ handle, asked taken (CmdCancelTask handle)) ∨ (∃ reason, asked taken (CmdAbort reason)).

Definition start_reported (taken : list (option CoreActorMsg)) (invocation_id : string) : Prop :=
  (∃ report, Some (MsgWorkerStarted report) ∈ taken ∧ ws_invocation_id report = invocation_id) ∨
  (∃ inv, Some (MsgAsyncEvent (AsyncStarted inv)) ∈ taken ∧ ai_invocation_id inv = invocation_id).

(** A cancellation without a message: the entry the core runs is past its tick
    deadline, or an entry of its invocation is overdue. *)
Definition due (R : gmap string RunningBatch) (s : CoreRuntime) (op : RtOp) : Prop :=
  match op with
  | RtCancelTask task_id => ∃ key t, R !! key = Some t ∧ h_task_id (rb_handle t) = task_id ∧
      task_status s key = Some Running ∧
      (tick_expired (rt_current_step s) t ∨
       ∃ key' t' w, R !! key' = Some t' ∧ rb_invocation_id t' = rb_invocation_id t ∧ overdue config (instant_now w).1 t' = true)
  | _ => False
  end.

(** ** The abstract host

    Its state is the core and the table.  It runs an operation some message
    taken so far asks for or that is due, or updates the table. *)
Definition HostView : Type := CoreRuntime * gmap string RunningBatch.

Inductive host_move (taken : list (option CoreActorMsg)) : HostView → HostView → Prop :=
  | move_asked op s s' R : asked_for taken op → run_rt op s = Some (tt, s') → host_move taken (s, R) (s', R)
  | move_due op s s' R : due R s op → run_rt op s = Some (tt, s') → host_move taken (s, R) (s', R)
  | move_table s R R' :
      table_step (λ id, stop_asked taken ∨ past_tick R (rt_current_step s) id) (start_reported taken) R R' →
      host_move taken (s, R) (s, R').

(** The abstract host takes the messages one after the other and moves in
    between. *)
Inductive host_run (taken : list (option CoreActorMsg)) : list (option CoreActorMsg) → HostView → HostView → Prop :=
  | host_run_rest v v' : rtc (host_move taken) v v' → host_run taken [] v v'
  | host_run_take msg l v v1 v' :
      rtc (host_move taken) v v1 → host_run (taken ++ [msg]) l v1 v' → host_run taken (msg :: l) v v'.

Lemma host_run_app T l k v v1 v2 : host_run T l v v1 → host_run (T ++ l) k v1 v2 → host_run T (l ++ k) v v2.
Proof.
  intros H. revert k v2. induction H as [T v v1 Hm|T msg l v v0 v1 Hm _ IH]; intros k v2 Hk.
  - rewrite app_nil_r in Hk. inversion Hk; subst; cbn.
    + constructor. by etrans.
    + econstructor; [by etrans|done].
  - cbn. econstructor; [done|]. apply IH. by rewrite <-app_assoc.
Qed.

Section TableLemmas.
Variables stopping started : string → Prop.
Abbreviation kept_entry := (kept_entry stopping started).
Abbreviation shrunk := (shrunk stopping started).
Abbreviation table_step := (table_step stopping started).
Abbreviation handed_over := (handed_over stopping started).

Lemma kept_entry_refl t : kept_entry t t.
Proof. split_and!; auto. Qed.
Lemma kept_entry_trans t1 t2 t3 : kept_entry t1 t2 → kept_entry t2 t3 → kept_entry t1 t3.
Proof.
  intros (? & Hi & ? & ? & ? & ? & Hs & Hw) (? & Hi' & ? & ? & ? & ? & Hs' & Hw'). rewrite Hi in Hs', Hw'.
  split_and!; try congruence; [destruct Hs, Hs'|destruct Hw, Hw']; auto; left; congruence.
Qed.

Lemma shrunk_refl R : shrunk R R.
Proof. intros id t Ht. exists t. split; [done|apply kept_entry_refl]. Qed.
Lemma shrunk_trans R1 R2 R3 : shrunk R1 R2 → shrunk R2 R3 → shrunk R1 R3.
Proof.
  intros H1 H2 id t Ht. destruct (H2 _ _ Ht) as (t2 & Ht2 & ?), (H1 _ _ Ht2) as (t1 & ? & ?).
  exists t1. split; [done|]. by eapply kept_entry_trans.
Qed.
Lemma shrunk_table R R' : shrunk R R' → table_step R R'.
Proof. intros H id t Ht. left. by apply H. Qed.
Lemma table_trans R1 R2 R3 : table_step R1 R2 → table_step R2 R3 → table_step R1 R3.
Proof.
  intros H1 H2 id t Ht. destruct (H2 _ _ Ht) as [(t2 & Ht2 & Hs)|?]; [|by right].
  destruct (H1 _ _ Ht2) as [(t1 & ? & ?)|(d & w & wi & ah & task & Hd & Hid & Hs')].
  - left. exists t1. split; [done|]. by eapply kept_entry_trans.
  - right. exists d, w, wi, ah, task. split_and!; [done|done|]. by eapply kept_entry_trans.
Qed.

Lemma shrunk_delete R id : shrunk R (delete id R).
Proof. intros k t [_ Ht]%lookup_delete_Some. by apply shrunk_refl. Qed.
Lemma shrunk_filter (P : string * RunningBatch → Prop) `{∀ x, Decision (P x)} R : shrunk R (filter P R).
Proof. intros k t [Ht _]%map_lookup_filter_Some. by apply shrunk_refl. Qed.
Lemma shrunk_fmap (f : RunningBatch → RunningBatch) R : (∀ t, kept_entry t (f t)) → shrunk R (f <$> R).
Proof. intros Hf k t (t0 & <- & Ht)%lookup_fmap_Some. by exists t0. Qed.
Lemma shrunk_alter (f : RunningBatch → RunningBatch) R id : (∀ t, kept_entry t (f t)) → shrunk R (alter f id R).
Proof.
  intros Hf k t Ht. destruct (decide (id = k)) as [->|Hne].
  - rewrite lookup_alter_eq in Ht. apply fmap_Some in Ht as (t0 & Ht0 & ->). by exists t0.
  - rewrite lookup_alter_ne in Ht by done. by apply shrunk_refl.
Qed.
Lemma shrunk_delete_all {A} (f : A → string) l R : shrunk R (foldl (λ m x, delete (f x) m) R l).
Proof.
  revert R. induction l as [|x l IH]; intros R; cbn; [apply shrunk_refl|].
  eapply shrunk_trans; [apply shrunk_delete|apply IH].
Qed.

Lemma table_record (f : Task → RunningBatch) tasks R :
  (∀ task, handed_over (t_task_id task) (f task)) → table_step R (foldl (λ m task, <[ t_task_id task := f task ]> m) R tasks).
Proof.
  intros Hf. revert R. induction tasks as [|task tasks IH]; intros R; cbn; [apply shrunk_table, shrunk_refl|].
  eapply table_trans; [|apply IH]. intros k t [[<- <-]|[_ Ht]]%lookup_insert_Some; [by right|]. left. by apply shrunk_refl.
Qed.
End TableLemmas.

Lemma table_step_mono (P P' Q Q' : string → Prop) R R' :
  (∀ id, P id → P' id) → (∀ id, Q id → Q' id) → table_step P Q R R' → table_step P' Q' R R'.
Proof.
  intros HP HQ H id t Ht.
  destruct (H id t Ht) as [(t0 & Ht0 & Hk)|(d & w & wi & ah & task & Hd & Hid & Hk)]; [left; exists t0|right; exists d, w, wi, ah, task];
    (split_and!; [done..|]); destruct Hk as (? & ? & ? & ? & ? & ? & Hs & Hw); split_and!; naive_solver.
Qed.

(** ** Regimes

    What may run while a computation runs, which invocations it may mark, and
    what holds of the core and the table meanwhile *)
Record Regime : Type := MkRegime {
  may : CoreRuntime → RtOp → Prop;
  marks : string → Prop;
  starts : string → Prop;
  within : CoreRuntime → gmap string RunningBatch → Prop;
  within_act s s' R op : within s R → may s op → run_rt op s = Some (tt, s') → within s' R;
  within_shrunk s R R' : within s R → shrunk marks starts R R' → within s R'
}.

Definition asked_by (taken : list (option CoreActorMsg)) : Regime.
Proof. by refine (MkRegime (λ _, asked_for taken) (λ _, stop_asked taken) (start_reported taken) (λ _ _, True) _ _). Defined.

(** ** The step a cancellation leaves as it is *)

Abbreviation stepped c s := (leaves rt_current_step c s).
Lemma stepped_tasks {A} (c : M TaskPool A) s : stepped (on_tasks c) s.
Proof. intros a t. unfold on_tasks. destruct (c _) as [[]|]; [|done]. by intros [= _ <-]. Qed.
Lemma stepped_event kind name id attrs error s : stepped (record_event kind name id attrs error) s.
Proof. by apply leaves_modify. Qed.
Lemma stepped_terminal id name error s : stepped (record_task_terminal_event id name error) s.
Proof. apply stepped_event. Qed.
Hint Resolve stepped_tasks stepped_event stepped_terminal : frame.
Lemma stepped_wake_waits child waits n s : stepped (wake_waits child waits n) s.
Proof. revert n s. induction waits; intros n s; cbn [wake_waits]; leaves_go. Qed.
Hint Resolve stepped_wake_waits : frame.
Lemma stepped_wake child s : stepped (wake_tasks_waiting_on child) s.
Proof. unfold wake_tasks_waiting_on. leaves_go. Qed.
Hint Resolve stepped_wake : frame.
Hint Extern 1 (leaves _ (try_for_each _ _) _) => apply leaves_try_for_each; leaves_go : frame.
Lemma stepped_cancel_by_id fuel id s : stepped (cancel_by_id fuel id) s.
Proof. revert id s. induction fuel; intros id s; cbn [cancel_by_id]; leaves_go. Qed.
Hint Resolve stepped_cancel_by_id : frame.
Lemma stepped_cancel id s : stepped (cancel_task_by_id id) s.
Proof. unfold cancel_task_by_id. leaves_go. Qed.

(** While what is due in [R] at [step] is cancelled, the table only shrinks. *)
Definition due_by (R : gmap string RunningBatch) (step : N) : Regime.
Proof.
  refine (MkRegime (due R) (past_tick R step) (λ _, False)
    (λ s R', rt_current_step s = step ∧ shrunk (past_tick R step) (λ _, False) R R') _ _).
  - intros s s' R' op [<- HR] Hdue Hrun. split; [|done]. destruct op; try done. cbn [run_rt] in Hrun. unfold forget in Hrun.
    apply bind_inv in Hrun as (a & s1 & Hc & [= <-]). by apply (stepped_cancel _ _ _ _ Hc).
  - intros s R1 R2 [? ?] Hs. split; [done|]. by eapply shrunk_trans.
Defined.
End Spec.

Section Tracking.
Context `{RC : RunnerControl} `{ST : !SerdeTypes} `{HW : !HostWorld}.
Variable config : HostRuntimeConfig.
Variable G : Regime.

Definition host_act (s s' : CoreRuntime) : Prop := ∃ op, may G s op ∧ run_rt op s = Some (tt, s').

(** ** Computations that take no message *)

Definition ids (h : HostState) : list N := (hs_answers h).*1.
Definition view (h : HostState) : HostView := (hs_core h, hs_running h).

(** The computation sends answers to [paid], takes no message and stays in the
    regime. *)
Definition pays {A} (paid : list N) (c : M HostState A) (h : HostState) : Prop :=
  ∀ a h', within G (hs_core h) (hs_running h) → c h = Some (a, h') →
    hs_inbox h' = hs_inbox h ∧ ids h' = ids h ++ paid ∧ rtc host_act (hs_core h) (hs_core h') ∧
    table_step config (marks G) (starts G) (hs_running h) (hs_running h') ∧
    within G (hs_core h') (hs_running h').
Abbreviation quiet := (pays []).

Lemma pays_within {A} p (c : M HostState A) h : (within G (hs_core h) (hs_running h) → pays p c h) → pays p c h.
Proof. intros H a h' Hw. by apply H. Qed.

Lemma quiet_same {A} (c : M HostState A) h :
  (∀ a h', c h = Some (a, h') → hs_inbox h' = hs_inbox h ∧ hs_answers h' = hs_answers h ∧ hs_core h' = hs_core h ∧
     shrunk (marks G) (starts G) (hs_running h) (hs_running h')) →
  quiet c h.
Proof.
  intros H a h' Hw Hc. destruct (H _ _ Hc) as (-> & Ha & -> & Hs). unfold ids. rewrite Ha, app_nil_r.
  split_and!; [done|done|done|by apply shrunk_table|by eapply within_shrunk].
Qed.

Lemma pays_ret {A} (a : A) h : quiet (ret a) h.
Proof. apply quiet_same. intros b h' [= _ <-]. split_and!; [done..|apply shrunk_refl]. Qed.
Lemma pays_panic {A} p h : pays p (panic : M HostState A) h.
Proof. done. Qed.
Lemma pays_get {A} p (k : HostState → M HostState A) h : pays p (k h) h → pays p (bind get k) h.
Proof. done. Qed.

Lemma pays_bind_run {A B} p q (c : M HostState A) (k : A → M HostState B) h :
  pays p c h → (∀ a h', c h = Some (a, h') → pays q (k a) h') → pays (p ++ q) (bind c k) h.
Proof.
  intros Hc Hk b h' Hw (a & h1 & Hc' & Hk')%bind_inv. destruct (Hc _ _ Hw Hc') as (Hi & Ha & Hr & Ht & Hw1).
  destruct (Hk _ _ Hc' _ _ Hw1 Hk') as (Hi' & Ha' & Hr' & Ht' & Hw').
  rewrite Hi', Hi, Ha', Ha, app_assoc. split_and!; [done|done|by etrans|by eapply table_trans|done].
Qed.

Lemma quiet_bind {A B} q (c : M HostState A) (k : A → M HostState B) h :
  quiet c h → (∀ a h', pays q (k a) h') → pays q (bind c k) h.
Proof. intros Hc Hk. apply (pays_bind_run []); auto. Qed.

Lemma quiet_bind_run {A B} q (c : M HostState A) (k : A → M HostState B) h :
  quiet c h → (∀ a h', c h = Some (a, h') → pays q (k a) h') → pays q (bind c k) h.
Proof. apply (pays_bind_run []). Qed.

Lemma pays_then {A B} p (c : M HostState A) (k : A → M HostState B) h :
  pays p c h → (∀ a h', quiet (k a) h') → pays p (bind c k) h.
Proof. intros Hc Hk. rewrite <-(app_nil_r p). apply pays_bind_run; auto. Qed.

Lemma quiet_try_run {E A B} (c : M HostState (Result E A)) (k : A → M HostState (Result E B)) h :
  quiet c h → (∀ a h', c h = Some (Ok a, h') → quiet (k a) h') → quiet (try_bind c k) h.
Proof. intros Hc Hk. apply quiet_bind_run; [done|]. intros [a|e] h' Hrun; [by apply Hk|apply pays_ret]. Qed.

Lemma quiet_try {E A B} (c : M HostState (Result E A)) (k : A → M HostState (Result E B)) h :
  quiet c h → (∀ a h', quiet (k a) h') → quiet (try_bind c k) h.
Proof. intros Hc Hk. apply quiet_try_run; auto. Qed.

Lemma quiet_modify f h :
  hs_inbox (f h) = hs_inbox h → hs_answers (f h) = hs_answers h → hs_core (f h) = hs_core h →
  shrunk (marks G) (starts G) (hs_running h) (hs_running (f h)) → quiet (modify f) h.
Proof. intros. apply quiet_same. by intros [] h' [= <-]. Qed.

Lemma quiet_expect {A} (o : option A) h : quiet (expect o) h.
Proof. destruct o; [apply pays_ret|apply pays_panic]. Qed.

Lemma on_world_run {A} (c : World → A * World) h a h' : on_world c h = Some (a, h') → (c (hs_world h)).1 = a.
Proof. unfold on_world. destruct (c _). by intros [= <- _]. Qed.

Lemma quiet_world {A} (c : World → A * World) h : quiet (on_world c) h.
Proof.
  apply quiet_same. intros a h'. unfold on_world. destruct (c _). intros [= _ <-]. split_and!; [done..|apply shrunk_refl].
Qed.

Lemma quiet_core {A} op (c : M CoreRuntime A) h :
  may G (hs_core h) op → run_rt op = forget c → quiet (on_core c) h.
Proof.
  intros Hop Hrun a h' Hw. unfold on_core. destruct (c (hs_core h)) as [[b s]|] eqn:Hc; [|done]. intros [= <- <-].
  assert (run_rt op (hs_core h) = Some (tt, s)) as Hs by (rewrite Hrun; unfold forget, bind; by rewrite Hc).
  unfold ids. rewrite app_nil_r. split_and!; [done|done| |apply shrunk_table, shrunk_refl|by eapply within_act].
  apply rtc_once. by exists op.
Qed.

Lemma quiet_for_each {A} (l : list A) (body : A → M HostState unit) h :
  (∀ x h, x ∈ l → quiet (body x) h) → quiet (for_each l body) h.
Proof.
  revert h. induction l as [|x l IH]; intros h Hb; cbn [for_each]; [apply pays_ret|]. apply quiet_bind.
  - apply Hb. left.
  - intros _ h1. apply IH. intros y h2 Hy. apply Hb. by right.
Qed.

Lemma pays_send r answer h : pays [r] (send_answer r answer) h.
Proof.
  intros a h' Hw [= _ <-]. unfold ids. cbn. rewrite fmap_app. split_and!; [done..|apply shrunk_table, shrunk_refl|done].
Qed.
End Tracking.

Create HintDb host.
#[export] Hint Resolve quiet_world quiet_expect : host.
#[export] Hint Resolve shrunk_refl shrunk_delete shrunk_filter shrunk_delete_all : host.

(** Steps through a handler that takes no message. *)
Ltac quiet_go :=
  intros; cbv zeta;
  lazymatch goal with
  | |- pays _ _ _ (ret _) _ => apply pays_ret
  | |- pays _ _ _ panic _ => apply pays_panic
  | |- pays _ _ _ (bind get _) _ => apply pays_get; quiet_go
  | |- pays _ _ [] (try_bind _ _) _ => apply quiet_try; quiet_go
  | |- pays _ _ [] (bind _ _) _ => apply quiet_bind; quiet_go
  | |- pays _ _ [] (for_each _ _) _ => apply quiet_for_each; quiet_go
  | |- pays _ _ [] (modify _) _ => apply quiet_modify; [reflexivity..|cbn; auto with host]
  | |- pays _ _ _ (match ?x with _ => _ end) _ => destruct x; quiet_go
  | |- pays _ _ _ _ _ => solve [eauto with host]
  end.

(** ** Handlers that stay within any regime *)

Section Handlers.
Context `{RC : RunnerControl} `{ST : !SerdeTypes} `{HW : !HostWorld}.
Variable config : HostRuntimeConfig.
Variable G : Regime.
Abbreviation quiet := (pays config G []).

Lemma shrunk_marked i now R :
  marks G i →
  shrunk (marks G) (starts G) R
    ((λ task, if decide (of_invocation i task) then with_cancel_requested now task else task) <$> R).
Proof.
  intros Hm. apply shrunk_fmap. intros t. case_decide as Hi; [|apply kept_entry_refl].
  split_and!; try done; [right; by rewrite Hi|by left].
Qed.

Lemma quiet_mark_cancel i h : marks G i → quiet (mark_cancel_requested i) h.
Proof.
  intros Hm. unfold mark_cancel_requested. apply quiet_bind; [quiet_go|]. intros now h1.
  apply quiet_modify; [done..|]. by apply shrunk_marked.
Qed.
Hint Resolve quiet_mark_cancel : host.
Lemma quiet_request_cancel i h : marks G i → quiet (request_running_cancel i) h.
Proof. intros Hm. unfold request_running_cancel. quiet_go. Qed.
Lemma quiet_retry r i h : quiet (queue_management_retry r i) h.
Proof. unfold queue_management_retry. quiet_go. Qed.
Lemma quiet_cancel_async i h : quiet (cancel_async_invocation config i) h.
Proof. unfold cancel_async_invocation. quiet_go. Qed.
Lemma quiet_publish h : quiet publish_terminal_changes h.
Proof. unfold publish_terminal_changes. quiet_go. Qed.
Lemma quiet_refresh t s i h : quiet (refresh_scheduled_tick t s i) h.
Proof. unfold refresh_scheduled_tick. quiet_go. Qed.
Lemma quiet_replace exited h : quiet (replace_exited exited) h.
Proof. unfold replace_exited. quiet_go. Qed.
Lemma quiet_pending_cancels c h : quiet (apply_pending_cancels c) h.
Proof. unfold apply_pending_cancels. quiet_go. Qed.
Lemma quiet_remove_entries c h : quiet (remove_running_batch_entries c) h.
Proof. unfold remove_running_batch_entries. quiet_go. Qed.
End Handlers.
#[export] Hint Resolve quiet_request_cancel quiet_retry quiet_cancel_async quiet_publish quiet_refresh quiet_replace
  quiet_pending_cancels quiet_remove_entries : host.

(** ** Supervision *)

Section Supervision.
Context `{RC : RunnerControl} `{ST : !SerdeTypes} `{HW : !HostWorld}.
Variable config : HostRuntimeConfig.
Variables (R : gmap string RunningBatch) (step : N).
Abbreviation due_now := (due_by config R step).
Abbreviation quiet := (pays config due_now []).

(** A cancellation of what is due *)
Lemma core_cancel_due key t handle h :
  R !! key = Some t → rb_handle t = handle → task_status (hs_core h) key = Some Running →
  (rt_current_step (hs_core h) = step → tick_expired step t ∨
   ∃ key' t' w, R !! key' = Some t' ∧ rb_invocation_id t' = rb_invocation_id t ∧ overdue config (instant_now w).1 t' = true) →
  quiet (on_core (cancel_task_handle handle)) h.
Proof.
  intros Hkey Hh Hrunning Hdue. apply pays_within. intros [Hstep _].
  apply (quiet_core _ _ (RtCancelTask (h_task_id handle))); [|done].
  exists key, t. rewrite Hstep. split_and!; [done|by rewrite Hh|done|by apply Hdue].
Qed.

Lemma quiet_expired_tick i t h : R !! i = Some t → tick_expired step t → quiet (cancel_expired_tick config i) h.
Proof.
  intros Ht Hexpired. unfold cancel_expired_tick. apply pays_get, pays_within. intros [Hstep HR].
  destruct (hs_running h !! i) as [task|] eqn:Htask; [|quiet_go].
  destruct (HR _ _ Htask) as (t0 & Ht0 & _ & Hinv & Hhandle & _). assert (t0 = t) as -> by congruence.
  apply quiet_bind; [|quiet_go]. case_decide; [|quiet_go].
  apply quiet_bind; [apply (core_cancel_due i t); auto|]. intros _ h1.
  apply quiet_bind; [quiet_go|]. intros [] h2; [quiet_go|]. apply quiet_request_cancel. exists i, t. auto.
Qed.

Lemma quiet_tick_deadlines h : R = hs_running h → step = rt_current_step (hs_core h) → quiet (cancel_expired_tick_deadlines config) h.
Proof.
  intros HR Hstep. unfold cancel_expired_tick_deadlines. apply pays_get. cbv zeta. apply quiet_for_each. intros i h1 Hi.
  apply list_elem_of_fmap in Hi as ([key t] & -> & [Hexpired Ht]%list_elem_of_filter). cbn.
  apply (quiet_expired_tick key t); [|by subst]. rewrite HR. by apply elem_of_btree_entries.
Qed.

Lemma quiet_isolate i h :
  (∃ key t w, R !! key = Some t ∧ rb_invocation_id t = i ∧ overdue config (instant_now w).1 t = true) →
  quiet (isolate_invocation config i) h.
Proof.
  intros (key & t & w & Hkey & Hi & Hover). unfold isolate_invocation. apply pays_get, pays_within. intros [_ HR].
  destruct (decide _); [quiet_go|].
  set (entries := filter _ _). assert (∀ e, e ∈ entries → ∃ t0, R !! e.1 = Some t0 ∧ rb_handle t0 = rb_handle e.2 ∧ rb_invocation_id t0 = i) as Hin.
  { intros [k e] [He Hr]%list_elem_of_filter. cbn. apply elem_of_btree_entries in Hr.
    destruct (HR _ _ Hr) as (t0 & Ht0 & _ & Hinv & Hhandle & _). exists t0. split_and!; [done|done|]. by rewrite <-Hinv. }
  assert (∀ k e h1, (k, e) ∈ entries → quiet (cancel_if_running k (rb_handle e)) h1) as Hcancel.
  { intros k e h1 Hke. destruct (Hin _ Hke) as (t0 & Ht0 & Hhandle & Hinv). unfold cancel_if_running. apply pays_get.
    case_decide; [|quiet_go]. apply quiet_bind; [|quiet_go]. apply (core_cancel_due k t0); [done..|].
    intros _. right. exists key, t, w. split_and!; [done|congruence|done]. }
  destruct entries as [|[k0 first] rest] eqn:He; [quiet_go|]. rewrite <-He in *. clear He.
  destruct (rb_async_handle first).
  - apply quiet_bind; [|quiet_go]. apply quiet_for_each. intros [k e] h1. apply Hcancel.
  - apply quiet_bind; [|quiet_go]. apply quiet_for_each. intros [k e] h1 Hke. apply quiet_bind; [by apply Hcancel|quiet_go].
Qed.
End Supervision.

(** ** Handlers that run what messages ask for *)

Section Asked.
Context `{RC : RunnerControl} `{ST : !SerdeTypes} `{HW : !HostWorld}.
Variable config : HostRuntimeConfig.
(** The messages taken so far *)
Variable T : list (option CoreActorMsg).
Abbreviation quiet := (pays config (asked_by config T) []).

Lemma core_asked {A} op (c : M CoreRuntime A) h : asked_for config T op → run_rt op = forget c → quiet (on_core c) h.
Proof. intros Hop. by apply quiet_core. Qed.

Lemma core_sync r h : reported T [r] → quiet (on_core (rt_sync_plan_receipt r)) h.
Proof.
  intros Hr. assert (∀ a s, rt_sync_plan_receipt r (hs_core h) = Some (a, s) →
    run_rt (RtSyncReceipts [r]) (hs_core h) = Some (tt, s)) as Hrun.
  { intros a s Hc. cbn [run_rt]. unfold forget. cbn [sync_plan_receipts]. unfold bind, try_bind, bind, ret. rewrite Hc. by destruct a. }
  intros a h' _. unfold on_core. destruct (rt_sync_plan_receipt r (hs_core h)) as [[b s]|] eqn:Hc; [|done]. intros [= <- <-].
  unfold ids. rewrite app_nil_r. split_and!; [done|done| |apply shrunk_table, shrunk_refl|done].
  apply rtc_once. exists (RtSyncReceipts [r]). split; [done|by eapply Hrun].
Qed.

Lemma host_schedule_withholds w running : withholds_control (host_schedule config w running).
Proof.
  intros descriptor load step generation d Hclass Hmode. unfold host_schedule, reservation_kind. rewrite Hmode, Hclass.
  by do 2 eexists.
Qed.

Lemma core_claim w running step r h :
  driven config T → quiet (on_core (claim_ready_dispatches_at_step (host_schedule config w running) step r None)) h.
Proof.
  intros Hd. apply (core_asked (RtClaimDispatches Reservations (host_schedule config w running) step r None)); [|done].
  split_and!; [done|apply host_schedule_withholds|done].
Qed.
Hint Resolve core_claim : host.

(** ** Cancelling on request *)

Lemma quiet_cancel_running i h : stop_asked T → quiet (cancel_running config i) h.
Proof. intros Hs. unfold cancel_running. apply quiet_bind; [quiet_go|]. intros [] h1; [quiet_go|by apply quiet_request_cancel]. Qed.

Lemma quiet_cancel_target handle s targets t h :
  asked T (CmdCancelTask handle) → task_cancellation_targets s handle = Some targets → t ∈ targets →
  quiet (cancel_target config t) h.
Proof.
  intros Ha Ht Hin. destruct t as [task_id runner_id]. unfold cancel_target. apply pays_get, quiet_bind.
  - apply (core_asked (RtCancelRunner runner_id task_id)); [|done]. by exists handle, s, targets.
  - intros [] h1; [quiet_go|]. destruct (_ <$> _); [|quiet_go]. apply quiet_bind; [quiet_go|]. intros [] h2; [quiet_go|].
    apply quiet_request_cancel. left. by exists handle.
Qed.

Lemma quiet_cancel_command handle r h :
  Some (MsgCommand (CmdCancelTask handle) r) ∈ T →
  quiet (let! h := get in
         let! targets := expect (task_cancellation_targets (hs_core h) handle) in
         let? _ := on_core (cancel_task_handle handle) in
         for_each targets (cancel_target config) ;;! ret (Ok (ReplyTaskCancelled handle, false))) h.
Proof.
  intros Hin. apply pays_get, quiet_bind_run; [quiet_go|]. intros targets h1 Ht.
  assert (task_cancellation_targets (hs_core h) handle = Some targets) as Htargets.
  { destruct (task_cancellation_targets _ _); [|done]. by injection Ht as ->. }
  apply quiet_try.
  - apply (core_asked (RtCancelTask (h_task_id handle))); [|done]. exists handle. split; [by exists r|done].
  - intros _ h2. apply quiet_bind; [|quiet_go]. apply quiet_for_each. intros t h3 Ht3.
    by eapply quiet_cancel_target; [exists r| |].
Qed.

(** ** Starts *)

Lemma kept_started worker now inv t :
  start_reported T (rb_invocation_id t) → rb_invocation_id t = inv →
  kept_entry (λ _, stop_asked T) (start_reported T) t (with_started worker now t).
Proof. intros Hs _. split_and!; try done; [by left|by right]. Qed.

Lemma quiet_started report h : Some (MsgWorkerStarted report) ∈ T → quiet (mark_worker_started report) h.
Proof.
  intros Hin. unfold mark_worker_started. apply quiet_bind; [quiet_go|]. intros now h1.
  apply quiet_for_each. intros i h2 _. apply quiet_modify; [done..|]. apply shrunk_alter. intros t.
  destruct (bool_decide (rb_invocation_id t = _)) eqn:Hi; [|apply kept_entry_refl]. apply bool_decide_eq_true in Hi.
  destruct (_ && _ && _); [|apply kept_entry_refl]. eapply kept_started; [|done]. left. by exists report.
Qed.

Lemma quiet_async_started inv h :
  Some (MsgAsyncEvent (AsyncStarted inv)) ∈ T → quiet (handle_async_event (AsyncStarted inv)) h.
Proof.
  intros Hin. cbn [handle_async_event]. apply quiet_bind; [quiet_go|]. intros now h1. apply quiet_bind; [|quiet_go].
  apply quiet_for_each. intros i h2 _. apply quiet_modify; [done..|]. apply shrunk_alter. intros t.
  destruct (bool_decide (rb_invocation_id t = _)) eqn:Hi; [|apply kept_entry_refl]. apply bool_decide_eq_true in Hi.
  eapply kept_started; [|done]. right. by exists inv.
Qed.

(** ** Scheduling *)

Lemma core_concluded c h : concluded config T c → quiet (on_core (complete_runner_dispatch c)) h.
Proof. intros. by apply (core_asked (RtCompleteDispatch c)). Qed.

Lemma core_turned_away c d e h :
  rcp_task_leases c = rdp_task_leases d → rcp_result c = Err e → turned_away config d e →
  quiet (on_core (complete_runner_dispatch c)) h.
Proof. intros. apply core_concluded. right; right. by exists d, e. Qed.

Lemma quiet_reject runner d failure h : turned_away config d failure → quiet (reject_dispatch runner d failure) h.
Proof. intros. unfold reject_dispatch. apply quiet_try; [by eapply core_turned_away|quiet_go]. Qed.

Lemma quiet_record d wall worker_id async_handle tasks h :
  dated config d wall → quiet (record_running (running_batch d wall worker_id async_handle) tasks) h.
Proof.
  intros Hd a h' _ [= _ <-]. unfold ids. rewrite app_nil_r. split_and!; [done|done|done| |done]. cbn.
  apply table_record. intros task. exists d, wall, worker_id, async_handle, task. split_and!; [done|done|apply kept_entry_refl].
Qed.
Hint Resolve quiet_record : host.

Lemma quiet_dispatch_async d handler tasks wall h :
  dated config d wall → rdp_target d = TargetAsync handler → quiet (dispatch_async config d handler tasks wall) h.
Proof.
  intros Hd Ht. unfold dispatch_async. destruct (cfg_async_executor config) eqn:He; cbn [negb].
  - destruct (negb _); [quiet_go|]. destruct (payload_json_bytes _); [|quiet_go].
    apply quiet_bind_run; [quiet_go|]. intros [handle|e] h1 Hrun; [quiet_go|]. apply on_world_run in Hrun.
    apply quiet_try; [|quiet_go]. eapply core_turned_away; [done|done|]. right; left. by do 3 eexists.
  - apply quiet_try; [|quiet_go]. apply quiet_reject. left. split; [done|]. by exists handler.
Qed.

Lemma quiet_dispatch_sync d tasks wall h : dated config d wall → quiet (dispatch_sync d tasks wall) h.
Proof.
  intros Hd. unfold dispatch_sync. cbv zeta. destruct (pool_of _); [|quiet_go].
  apply quiet_bind_run; [quiet_go|]. intros [[]|error] h1 Hrun; [quiet_go|]. apply on_world_run in Hrun.
  destruct (wde_retryable error) eqn:Hr; (apply quiet_try; [|quiet_go]).
  - apply (core_asked (RtDeferDispatch (wde_dispatch error))); [|done]. by do 4 eexists.
  - apply quiet_reject. right; right. do 4 eexists. split_and!; [done..|]. done.
Qed.

Lemma quiet_hand_over d h : quiet (hand_over config d) h.
Proof.
  unfold hand_over. cbv zeta. set (limits := limits_for _ _). set (d' := with_deadlines _ _ d).
  assert (quiet (match lim_wall_clock_deadline limits with
    | None => ret None
    | Some deadline => let! now := on_world instant_now in let! at_ := expect (checked_instant_add now deadline) in ret (Some at_)
    end) h) as Hq by quiet_go.
  apply quiet_bind_run; [done|]. intros wall h1 Hrun. assert (dated config d' wall) as Hd.
  { split; [done|]. change (limits_for config (d_runner_id (target_descriptor (rdp_target d')))) with limits.
    destruct (lim_wall_clock_deadline limits) as [deadline|].
    - apply bind_inv in Hrun as (now & h2 & Hn%on_world_run & Hrun). exists (hs_world h).
      unfold checked_instant_add in Hrun. case_decide; [|done]. injection Hrun as <- _. cbn. by rewrite Hn.
    - exists (hs_world h). by injection Hrun as <- _. }
  apply quiet_try; [quiet_go|]. intros tasks h2. destruct (rdp_target d') eqn:Ht.
  - by apply quiet_dispatch_sync.
  - by apply quiet_dispatch_async.
Qed.
Hint Resolve quiet_hand_over : host.

Lemma quiet_hand_over_all ds n m h : quiet (hand_over_all config ds n m) h.
Proof. revert n m h. induction ds; intros; cbn [hand_over_all]; quiet_go. Qed.
Hint Resolve quiet_hand_over_all : host.

Lemma quiet_schedule_at step h : driven config T → quiet (schedule_ready_at config step) h.
Proof. intros Hd. unfold schedule_ready_at. quiet_go. Qed.
Hint Resolve quiet_schedule_at : host.
Lemma quiet_schedule h : driven config T → quiet (schedule_ready config) h.
Proof. intros Hd. unfold schedule_ready. quiet_go. Qed.

Lemma driven_by msg : msg ∈ T → drives config msg → driven config T.
Proof. intros. by exists msg. Qed.

Lemma quiet_schedule_if {A} (a : A) h :
  (cfg_event_driven config = true → driven config T) → quiet (schedule_if_driven config a) h.
Proof.
  intros Hd. unfold schedule_if_driven. destruct (cfg_event_driven config) eqn:He; [|quiet_go].
  apply quiet_try; [by apply quiet_schedule, Hd|quiet_go].
Qed.

(** ** Resources *)

Lemma quiet_register_created p create h :
  (∀ kind descriptor, answers (create kind) descriptor → rr_provider_id descriptor = p → created T descriptor) →
  quiet (register_created config p create) h.
Proof.
  intros Hc. unfold register_created. apply quiet_try; [quiet_go|]. intros kind h1.
  apply quiet_try_run; [quiet_go|]. intros descriptor h2 Hrun%on_world_run.
  apply quiet_try_run; [quiet_go|]. intros [] h3 Hv. apply quiet_try; [|quiet_go].
  apply (core_asked (RtRegisterDescriptor descriptor)); [|done].
  assert (rr_provider_id descriptor = p) as Hp.
  { unfold validate_created_provider in Hv. by case_decide. }
  apply (Hc kind); [by eexists|done].
Qed.

Lemma quiet_synced_receipt p call h :
  (∀ receipt, answers call receipt → reported T [receipt]) → quiet (synced_receipt config p call) h.
Proof.
  intros Hc. unfold synced_receipt. apply quiet_try; [quiet_go|]. intros _ h1.
  apply quiet_try_run; [quiet_go|]. intros receipt h2 Hrun%on_world_run. apply quiet_try; [|quiet_go].
  apply core_sync, Hc. by eexists.
Qed.

Lemma quiet_synced_receipts commands call h :
  (∀ p receipts, answers (call p) receipts → reported T receipts) → quiet (synced_receipts config commands call) h.
Proof.
  intros Hc. unfold synced_receipts. apply quiet_try; [quiet_go|]. intros p h1. apply quiet_try; [quiet_go|]. intros _ h2.
  apply quiet_try_run; [quiet_go|]. intros receipts h3 Hrun%on_world_run. apply quiet_try; [|quiet_go].
  apply (core_asked (RtSyncReceipts receipts)); [|done]. apply (Hc p). by eexists.
Qed.

Lemma quiet_resource command h : asked T command → quiet (handle_resource_command config command) h.
Proof.
  intros Ha. destruct command; cbn [handle_resource_command]; try quiet_go.
  - apply quiet_register_created. intros. left. by do 4 eexists.
  - apply quiet_register_created. intros. right; left. by do 5 eexists.
  - apply quiet_register_created. intros. right; right. by do 4 eexists.
  - cbv zeta. apply quiet_try; [quiet_go|]. intros _ h1. apply quiet_try_run; [quiet_go|]. intros snapshot h2 Hrun%on_world_run.
    apply quiet_try; [|quiet_go]. apply core_sync. left. do 4 eexists. split_and!; [done|by eexists|done].
  - apply quiet_synced_receipt. intros. right; left. by do 2 eexists.
  - apply quiet_synced_receipt. intros. do 2 right; left. by do 3 eexists.
  - apply quiet_synced_receipt. intros. do 3 right; left. by do 2 eexists.
  - apply quiet_synced_receipts. intros. do 4 right; left. by do 2 eexists.
  - apply quiet_synced_receipts. intros. do 5 right; left. by do 2 eexists.
Qed.

Lemma quiet_async_reply reply inv r h :
  Some (MsgAsyncEvent (ResourceCompleted inv r (Ok reply))) ∈ T → quiet (sync_async_resource_reply reply) h.
Proof.
  intros Hin. assert (∀ receipts, receipts_in reply = Some receipts → reported T receipts) as Hr.
  { intros receipts Hr. do 6 right. by do 3 eexists. }
  destruct reply; cbn [sync_async_resource_reply receipts_in] in *; try quiet_go; (apply quiet_try; [|quiet_go]);
    first [by apply core_sync, Hr|by eapply (core_asked (RtSyncReceipts _)); [apply Hr|]].
Qed.

(** ** Completions *)

(** A completion some message carries: what the host makes of it is
    concluded. *)
Definition vouched (c : RunnerCompletion) : Prop := ∀ c', rcp_task_leases c' = rcp_task_leases c →
  (rcp_result c' = rcp_result c ∨ is_Some (rcp_runner c) ∧ ∃ runner_id, rcp_result c' =
     Err (host_failure "host.runner.hard_timeout" ("runner " +:+ runner_id +:+ " was terminated and recovered"))) →
  concluded config T c'.

Lemma vouched_worker c : Some (MsgWorkerCompleted c) ∈ T → vouched c.
Proof. intros Hin c' Hl Hr. left. exists c. split_and!; [done|done|]. destruct Hr as [Hr|[_ Hr]]; auto. Qed.

Lemma vouched_async inv result :
  Some (MsgAsyncEvent (AsyncCompleted inv result)) ∈ T ∨
  (∃ e, result = Err e) ∧ (Some (MsgAsyncEvent (AsyncTimedOut inv)) ∈ T ∨ Some (MsgAsyncEvent (AsyncPanicked inv)) ∈ T) →
  vouched (async_completion inv result).
Proof.
  intros Hin c' Hl Hr. right; left. exists inv, result. split_and!; [done| |done].
  destruct Hr as [Hr|[[x Hx] _]]; [done|discriminate].
Qed.

Lemma pending_cancels_same c h c' h' : apply_pending_cancels c h = Some (c', h') →
  rcp_result c' = rcp_result c ∧ rcp_task_leases c' = rcp_task_leases c.
Proof.
  unfold apply_pending_cancels. destruct (rcp_runner c); [|by intros [= <- _]].
  intros (h1 & h2 & [= <- <-] & Hk)%bind_inv. destruct (_ !! _); [|by injection Hk as <- _].
  apply bind_inv in Hk as (? & ? & _ & [= <- _]). done.
Qed.

Lemma quiet_completion c h : vouched c → quiet (handle_worker_completion c) h.
Proof.
  intros Hv. unfold handle_worker_completion. cbv zeta. apply pays_get. destruct (hs_draining h !! _) as [draining|].
  - apply quiet_bind; [quiet_go|]. intros _ h1. destruct (di_recover_after_termination draining).
    + destruct (rcp_runner c) as [runner|] eqn:Hrunner; [|quiet_go].
      destruct (recover_after_hard_termination runner) as [[] runner']; [|quiet_go].
      apply core_concluded, Hv; [done|]. right. split; [by eexists|]. by eexists.
    + destruct (rcp_runner c); [quiet_go|]. apply quiet_bind; [quiet_go|]. intros. apply core_concluded, Hv; auto.
  - apply quiet_bind_run; [quiet_go|]. intros c' h1 [Hr Hl]%pending_cancels_same. apply quiet_bind; [quiet_go|]. intros.
    apply core_concluded, Hv; auto.
Qed.
End Asked.
#[export] Hint Resolve quiet_schedule_at quiet_schedule : host.

(** ** Messages and answers *)

Section Messages.
Context `{RC : RunnerControl} `{ST : !SerdeTypes} `{HW : !HostWorld}.
Variable config : HostRuntimeConfig.

(** The answers a message asks for, and those an async command may get at once *)
Definition owed (msg : CoreActorMsg) : list N :=
  match msg with
  | MsgCommand _ r | MsgTaskStatus _ r
  | MsgAsyncEvent (ResourceCompleted _ r _) | MsgAsyncEvent (ResourceTimedOut _ r) | MsgAsyncEvent (ResourcePanicked _ r) => [r]
  | _ => []
  end.
Definition maybe_owed (msg : CoreActorMsg) : list N :=
  match msg with MsgAsyncResourceCommand _ r => [r] | _ => [] end.

Lemma pays_event T event h :
  Some (MsgAsyncEvent event) ∈ T → pays config (asked_by config T) (owed (MsgAsyncEvent event)) (handle_async_event event) h.
Proof.
  intros Hin. destruct event as [inv|inv result|inv|inv|inv r result|inv r|inv r]; cbn [owed].
  - by apply quiet_async_started.
  - apply quiet_completion, vouched_async. by left.
  - apply quiet_completion, vouched_async. right. split; [by eexists|by left].
  - apply quiet_completion, vouched_async. right. split; [by eexists|by right].
  - cbn [handle_async_event]. apply quiet_bind.
    + destruct result; [|quiet_go]. apply quiet_try; [by eapply quiet_async_reply|quiet_go].
    + intros. apply pays_then; [apply pays_send|quiet_go].
  - apply pays_then; [apply pays_send|quiet_go].
  - apply pays_then; [apply pays_send|quiet_go].
Qed.

Lemma pays_status G task_id r h : pays config G [r] (answer_task_status task_id r) h.
Proof. apply pays_get, pays_send. Qed.

Lemma pays_async_command G command r h :
  ∃ p, p ⊆+ [r] ∧ pays config G p (start_async_resource_command config command r) h.
Proof.
  unfold start_async_resource_command. destruct (cfg_async_executor config); [|exists [r]; split; [done|apply pays_send]].
  destruct (cfg_async_event_sink config); [|exists [r]; split; [done|apply pays_send]]. cbn [negb].
  destruct (prepare_async_resource_command config command) as [[provider bytes]|e]; [|exists [r]; split; [done|apply pays_send]].
  exists []. split; [apply submseteq_nil_l|quiet_go].
Qed.

Lemma pays_ignore G {A} p (c : M HostState A) h : pays config G p c h → pays config G p (ignore c) h.
Proof. intros. unfold ignore. apply pays_then; [done|quiet_go]. Qed.

Lemma pays_reply G outcome r h : pays config G [r] (send_command_reply outcome r) h.
Proof. unfold send_command_reply. apply pays_then; [apply pays_send|quiet_go]. Qed.

(** ** Runs that take messages *)

Definition owed_by (l : list (option CoreActorMsg)) : list N := omap id l ≫= owed.
Definition maybe_owed_by (l : list (option CoreActorMsg)) : list N := omap id l ≫= maybe_owed.

Lemma owed_by_app l k : owed_by (l ++ k) = owed_by l ++ owed_by k.
Proof. unfold owed_by. by rewrite omap_app, bind_app. Qed.
Lemma maybe_owed_by_app l k : maybe_owed_by (l ++ k) = maybe_owed_by l ++ maybe_owed_by k.
Proof. unfold maybe_owed_by. by rewrite omap_app, bind_app. Qed.

(** After the messages [T], some more were taken between [h] and [h'] and the
    abstract host can follow; beyond [paid], the answers sent are those owed by
    these messages, and some of the possible ones. *)
Definition tracked (T : list (option CoreActorMsg)) (paid : list N) (h h' : HostState) : Prop :=
  ∃ handled busy,
    hs_inbox h = handled ++ hs_inbox h' ∧
    ids h' ≡ₚ ids h ++ paid ++ owed_by handled ++ busy ∧ busy ⊆+ maybe_owed_by handled ∧
    host_run config T handled (view h) (view h').

Lemma tracked_moves T p h h' :
  hs_inbox h' = hs_inbox h → ids h' = ids h ++ p → rtc (host_move config T) (view h) (view h') → tracked T p h h'.
Proof.
  intros Hi Ha Hm. exists [], []. rewrite Hi, Ha. cbn. rewrite app_nil_r. split_and!; [done|done|done|by constructor].
Qed.

Lemma tracked_refl T h : tracked T [] h h.
Proof. apply tracked_moves; [done|by rewrite app_nil_r|done]. Qed.

Lemma host_act_moves T s s' R : rtc (host_act (asked_by config T)) s s' → rtc (host_move config T) (s, R) (s', R).
Proof. intros Hr. induction Hr as [|s s1 s' (op & Hop & Hrun) _ IH]; [done|]. eapply rtc_l; [exact (move_asked config T op s s1 R Hop Hrun)|done]. Qed.

Lemma due_act_moves T s s' R step : rtc (host_act (due_by config R step)) s s' → rtc (host_move config T) (s, R) (s', R).
Proof. intros Hr. induction Hr as [|s s1 s' (op & Hop & Hrun) _ IH]; [done|]. eapply rtc_l; [exact (move_due config T op s s1 R Hop Hrun)|done]. Qed.

Lemma pays_tracked {A} T p (c : M HostState A) h a h' :
  pays config (asked_by config T) p c h → c h = Some (a, h') → tracked T p h h'.
Proof.
  intros Hp Hc. destruct (Hp _ _ I Hc) as (Hi & Ha & Hr & Ht & _). apply tracked_moves; [done|done|].
  eapply rtc_r; [by apply host_act_moves|]. apply move_table. eapply table_step_mono; [| |exact Ht]; cbn; auto.
Qed.

Lemma due_tracked {A} T (c : M HostState A) h a h' :
  pays config (due_by config (hs_running h) (rt_current_step (hs_core h))) [] c h → c h = Some (a, h') → tracked T [] h h'.
Proof.
  intros Hp Hc. destruct (Hp a h') as (Hi & Ha & Hr & Ht & Hstep & _); [split; [done|apply shrunk_refl]|done|].
  apply tracked_moves; [done|done|]. eapply rtc_r; [by eapply due_act_moves|]. apply move_table. rewrite Hstep.
  eapply table_step_mono; [| |exact Ht]; cbn; [by right|done].
Qed.

Lemma tracked_next T p h h1 : tracked T p h h1 → ∃ l, ∀ q h2, tracked (T ++ l) q h1 h2 → tracked T (p ++ q) h h2.
Proof.
  intros (l & b & Hi & Hp & Hb & Hr). exists l. intros q h2 (l' & b' & Hi' & Hp' & Hb' & Hr').
  exists (l ++ l'), (b ++ b'). rewrite Hi, Hi', owed_by_app, maybe_owed_by_app, <-app_assoc, Hp', Hp.
  split_and!; [done|solve_Permutation|by apply submseteq_app|by eapply host_run_app].
Qed.

(** The computation answers the messages it takes. *)
Definition tracks {A} (T : list (option CoreActorMsg)) (c : M HostState A) (h : HostState) : Prop :=
  ∀ a h', c h = Some (a, h') → tracked T [] h h'.

(** The computation also answers the message [msg] taken before. *)
Definition replies {A} (T : list (option CoreActorMsg)) (msg : CoreActorMsg) (c : M HostState A) (h : HostState) : Prop :=
  ∀ a h', c h = Some (a, h') → ∃ b, b ⊆+ maybe_owed msg ∧ tracked T (owed msg ++ b) h h'.

Lemma tracks_quiet {A} T (c : M HostState A) h : pays config (asked_by config T) [] c h → tracks T c h.
Proof. intros Hq a h' Hc. by eapply pays_tracked. Qed.
Lemma tracks_ret {A} T (a : A) h : tracks T (ret a) h.
Proof. apply tracks_quiet, pays_ret. Qed.

Lemma tracks_bind {A B} T (c : M HostState A) (k : A → M HostState B) h :
  tracks T c h → (∀ l a h', tracks (T ++ l) (k a) h') → tracks T (bind c k) h.
Proof.
  intros Hc Hk b h' (a & h1 & Hc' & Hk')%bind_inv. destruct (tracked_next T [] h h1 (Hc _ _ Hc')) as [l Hl].
  apply (Hl []). by eapply Hk.
Qed.

Lemma tracks_try {E A B} T (c : M HostState (Result E A)) (k : A → M HostState (Result E B)) h :
  tracks T c h → (∀ l a h', tracks (T ++ l) (k a) h') → tracks T (try_bind c k) h.
Proof. intros Hc Hk. apply tracks_bind; [done|]. intros l [a|e] h'; [apply Hk|apply tracks_ret]. Qed.

Lemma tracks_get {A} T (k : HostState → M HostState A) h : tracks T (k h) h → tracks T (bind get k) h.
Proof. done. Qed.

Lemma replies_pays {A} T msg (c : M HostState A) h :
  pays config (asked_by config T) (owed msg) c h → replies T msg c h.
Proof. intros Hp a h' Hc. exists []. split; [apply submseteq_nil_l|]. rewrite app_nil_r. by eapply pays_tracked. Qed.

Lemma replies_then {A B} T msg (c : M HostState A) (k : A → M HostState B) h :
  replies T msg c h → (∀ l a h', tracks (T ++ l) (k a) h') → replies T msg (bind c k) h.
Proof.
  intros Hc Hk b h' (a & h1 & Hc' & Hk')%bind_inv. destruct (Hc _ _ Hc') as (busy & Hb & Ht). exists busy. split; [done|].
  rewrite <-(app_nil_r (_ ++ _)). destruct (tracked_next _ _ _ _ Ht) as [l Hl]. apply Hl. by eapply Hk.
Qed.

Lemma replies_try {E A B} T msg (c : M HostState (Result E A)) (k : A → M HostState (Result E B)) h :
  replies T msg c h → (∀ l a h', tracks (T ++ l) (k a) h') → replies T msg (try_bind c k) h.
Proof. intros Hc Hk. apply replies_then; [done|]. intros l [a|e] h'; [apply Hk|apply tracks_ret]. Qed.

Lemma replies_after {A B} T msg (c : M HostState A) (k : A → M HostState B) h :
  tracks T c h → (∀ l a h', replies (T ++ l) msg (k a) h') → replies T msg (bind c k) h.
Proof.
  intros Hc Hk b h' (a & h1 & Hc' & Hk')%bind_inv. destruct (tracked_next T [] h h1 (Hc _ _ Hc')) as [l Hl].
  destruct (Hk l _ _ _ _ Hk') as (busy & Hb & Ht). exists busy. split; [done|]. by apply (Hl (_ ++ _)).
Qed.

Lemma tracks_recv {A} T (k : Received → M HostState A) h :
  tracks T (k Received_disconnected) h → (∀ h, tracks (T ++ [None]) (k Received_timeout) h) →
  (∀ msg h, replies (T ++ [Some msg]) msg (k (Received_msg msg)) h) → tracks T (bind recv_timeout k) h.
Proof.
  intros Hd Ht Hmsg x h' Hrun. unfold bind, recv_timeout in Hrun. remember (hs_inbox h) as inbox eqn:Hin.
  destruct inbox as [|[msg|] inbox].
  - by eapply Hd.
  - destruct (Hmsg _ _ _ _ Hrun) as (b & Hb & l & b' & Hi & Hp & Hb' & Hr). exists (Some msg :: l), (b ++ b'). cbn in Hi, Hp, Hr.
    rewrite <-Hin, Hi. split_and!; [done| |by apply submseteq_app|by econstructor].
    rewrite Hp. unfold ids, owed_by. cbn. solve_Permutation.
  - destruct (Ht _ _ _ Hrun) as (l & b' & Hi & Hp & Hb' & Hr). exists (None :: l), b'. cbn in Hi, Hp, Hr.
    rewrite <-Hin, Hi. split_and!; [done|done|done|by econstructor].
Qed.
End Messages.

(** ** Commands and the loop *)

Section Run.
Context `{RC : RunnerControl} `{ST : !SerdeTypes} `{HW : !HostWorld}.
Variable config : HostRuntimeConfig.
Abbreviation tracked := (tracked config).
Abbreviation tracks := (tracks config).
Abbreviation replies := (replies config).
Implicit Types T : list (option CoreActorMsg).

Lemma tracks_world {A} T (c : World → A * World) h : tracks T (on_world c) h.
Proof. apply tracks_quiet, quiet_world. Qed.

(** First what is past its tick deadline, then what is overdue. *)
Lemma tracks_supervise T h : tracks T (supervise_running_invocations config) h.
Proof.
  intros a h' ([] & h1 & Hc & (now & h2 & Hn & (? & ? & [= <- <-] & Hk)%bind_inv)%bind_inv)%bind_inv.
  pose proof Hn as Hw%on_world_run.
  destruct (tracked_next config T [] h h1) as [l Hl]; [by eapply due_tracked; [apply quiet_tick_deadlines|]|]. apply (Hl []).
  destruct (tracked_next config (T ++ l) [] h1 h2 (tracks_world _ _ _ _ _ Hn)) as [l' Hl']. apply (Hl' []).
  eapply due_tracked; [|exact Hk]. apply quiet_for_each. intros i h3 Hi.
  apply list_elem_of_fmap in Hi as (t & -> & [Hover Ht]%list_elem_of_filter).
  apply list_elem_of_fmap in Ht as ([key t'] & -> & Ht). cbn in *. apply quiet_isolate.
  exists key, t', (hs_world h1). split_and!; [by apply elem_of_btree_entries|done|by rewrite Hw].
Qed.

Lemma tracks_schedule T h : driven config T → tracks T (schedule_ready config) h.
Proof. intros. by apply tracks_quiet, quiet_schedule. Qed.

Lemma tracks_ignore {A} T (c : M HostState A) h : tracks T c h → tracks T (ignore c) h.
Proof. intros. apply tracks_bind; [done|intros; apply tracks_ret]. Qed.

Lemma driven_last T l msg : drives config msg → driven config ((T ++ [msg]) ++ l).
Proof. intros. exists msg. split; [set_solver|done]. Qed.

(** The messages every loop handles the same way *)
Lemma replies_status T task_id r h : replies T (MsgTaskStatus task_id r) (answer_task_status task_id r) h.
Proof. apply replies_pays, pays_status. Qed.
Lemma replies_started T started h :
  Some (MsgWorkerStarted started) ∈ T → replies T (MsgWorkerStarted started) (mark_worker_started started) h.
Proof. intros. apply replies_pays. by apply quiet_started. Qed.
Lemma replies_completion T c h :
  Some (MsgWorkerCompleted c) ∈ T → replies T (MsgWorkerCompleted c) (handle_worker_completion c) h.
Proof. intros. apply replies_pays. by apply quiet_completion, vouched_worker. Qed.
Lemma replies_event T event h : Some (MsgAsyncEvent event) ∈ T → replies T (MsgAsyncEvent event) (handle_async_event event) h.
Proof. intros. by apply replies_pays, pays_event. Qed.
Lemma replies_async T command r h :
  replies T (MsgAsyncResourceCommand command r) (start_async_resource_command config command r) h.
Proof.
  intros a h' Hc. destruct (pays_async_command config (asked_by config T) command r h) as (p & Hp & Hpay).
  exists p. split; [done|]. by eapply pays_tracked.
Qed.
Lemma replies_exited T exited h : replies T (MsgWorkerExited exited) (replace_exited exited) h.
Proof. apply replies_pays. quiet_go. Qed.
Lemma replies_failed T runner_id invocation_id h :
  replies T (MsgManagementFailed runner_id invocation_id) (queue_management_retry runner_id invocation_id) h.
Proof. apply replies_pays. quiet_go. Qed.
Lemma replies_ret {A} T msg (a : A) h : owed msg = [] → replies T msg (ret a) h.
Proof. intros He. apply replies_pays. rewrite He. apply pays_ret. Qed.
Lemma replies_ignore {A} T msg (c : M HostState A) h : replies T msg c h → replies T msg (ignore c) h.
Proof. intros. apply replies_then; [done|intros; apply tracks_ret]. Qed.

Section Drain.
Variable handle : HostRuntimeCommand → M HostState (RuntimeResult (HostRuntimeReply * bool)).
Hypothesis Hhandle : ∀ T command r h, Some (MsgCommand command r) ∈ T → tracks T (handle command) h.

Lemma replies_command {B} T command r (k : bool → M HostState B) h :
  Some (MsgCommand command r) ∈ T → (∀ l a h', tracks (T ++ l) (k a) h') →
  replies T (MsgCommand command r)
    (let! outcome := handle command in let! shutdown := send_command_reply outcome r in k shutdown) h.
Proof.
  intros Hin Hk. apply replies_after; [by eapply Hhandle|]. intros l outcome h1.
  apply replies_then; [apply replies_pays, pays_reply|]. intros l' shutdown h2. rewrite <-app_assoc. apply Hk.
Qed.

Lemma tracks_drain T n aggregate h : tracks T (drain_worker_completions config handle n aggregate) h.
Proof.
  revert T aggregate h. induction n as [|n IH]; intros T aggregate h; cbn [drain_worker_completions]; [apply tracks_ret|].
  apply tracks_bind; [apply tracks_supervise|]. intros l _ h1. generalize (T ++ l). clear T l h. intros T.
  apply tracks_recv; [apply tracks_ret|intros; apply tracks_ret|]. intros msg h2.
  assert (Some msg ∈ T ++ [Some msg]) as Hin by set_solver.
  destruct msg as [command r|task_id r|started|completion|event|command r|exited|runner_id invocation_id|].
  - apply replies_command; [done|]. intros l [] h3; [apply tracks_ret|apply IH].
  - apply replies_then; [apply replies_status|intros; apply IH].
  - apply replies_then; [by apply replies_started|intros; apply IH].
  - apply replies_then; [by apply replies_completion|]. intros l report h3.
    apply tracks_bind; [by apply tracks_schedule, driven_last|intros; apply IH].
  - apply replies_then; [by apply replies_event|]. intros l report h3.
    apply tracks_bind; [by apply tracks_schedule, driven_last|intros; apply IH].
  - apply replies_then; [apply replies_async|intros; apply IH].
  - apply replies_then; [apply replies_ignore, replies_exited|intros; apply IH].
  - apply replies_then; [apply replies_failed|intros; apply IH].
  - by apply replies_ret.
Qed.

Lemma tracks_idle T n aggregate shutdown h : driven config T → tracks T (run_idle_ticks config handle n aggregate shutdown) h.
Proof.
  revert T aggregate shutdown h. induction n as [|n IH]; intros T aggregate shutdown h Hd; cbn [run_idle_ticks]; [apply tracks_ret|].
  apply tracks_try; [by apply tracks_schedule|]. intros l report h1.
  apply tracks_bind; [apply tracks_drain|]. intros l' [aggregate' shutdown'] h2. apply tracks_get. cbv zeta.
  destruct (_ || _); [apply tracks_ret|apply IH]. destruct Hd as (msg & Hm & Hd). exists msg. split; [set_solver|done].
Qed.
End Drain.

Lemma tracks_reload_loop T fuel started timeout h : tracks T (drain_for_reload_loop config fuel started timeout) h.
Proof.
  revert T h. induction fuel as [|fuel IH]; intros T h; cbn [drain_for_reload_loop]; [done|].
  apply tracks_bind; [apply tracks_supervise|]. intros l _ h1. apply tracks_get.
  destruct (decide (hs_running h1 = ∅)); [apply tracks_ret|].
  apply tracks_bind; [apply tracks_world|]. intros l' now h2.
  destruct (decide (timeout ≤ now - started)%N); [apply tracks_ret|]. generalize ((T ++ l) ++ l'). clear T l l' h. intros T.
  apply tracks_recv; [apply tracks_ret|intros; apply IH|]. intros msg h3.
  assert (Some msg ∈ T ++ [Some msg]) as Hin by set_solver.
  destruct msg as [command r|task_id r|started'|completion|event|command r|exited|runner_id invocation_id|].
  - apply replies_then; [apply replies_pays, pays_send|intros; apply IH].
  - apply replies_then; [apply replies_status|intros; apply IH].
  - apply replies_then; [by apply replies_started|intros; apply IH].
  - apply replies_try; [by apply replies_completion|intros; apply IH].
  - apply replies_try; [by apply replies_event|intros; apply IH].
  - apply replies_then; [|intros; apply IH]. intros a h' Hc. exists [r]. split; [done|].
    eapply pays_tracked; [|exact Hc]. apply pays_send.
  - apply replies_try; [apply replies_exited|intros; apply IH].
  - apply replies_then; [apply replies_failed|intros; apply IH].
  - by apply replies_ret.
Qed.

Lemma tracks_reload T prepared timeout r h :
  Some (MsgCommand (CmdReload prepared timeout) r) ∈ T → tracks T (reload_runtime config prepared timeout) h.
Proof.
  intros Hin. unfold reload_runtime, drain_for_reload. apply tracks_try.
  - apply tracks_bind; [apply tracks_world|]. intros. apply tracks_get, tracks_reload_loop.
  - intros l _ h1. apply tracks_quiet. destruct prepared as [plan runners handlers].
    apply (core_asked config _ (RtReload plan runners handlers)); [|done]. exists timeout, r. set_solver.
Qed.

Lemma tracks_query {A} T f h : tracks T (query (A := A) f) h.
Proof. apply tracks_get, tracks_ret. Qed.

Lemma tracks_reply {A} T f (c : M HostState (RuntimeResult A)) h : tracks T c h → tracks T (reply f c) h.
Proof. intros. apply tracks_try; [done|]. intros. apply tracks_ret. Qed.

(** A scheduling pass after a command that drives the host *)
Lemma tracks_schedule_if {A} T command r l (a : A) h :
  Some (MsgCommand command r) ∈ T → (cfg_event_driven config = true → drives config (Some (MsgCommand command r))) →
  tracks (T ++ l) (schedule_if_driven config a) h.
Proof.
  intros Hin Hd. apply tracks_quiet, quiet_schedule_if. intros He. exists (Some (MsgCommand command r)).
  split; [set_solver|by apply Hd].
Qed.

Lemma tracks_abort T reason r h :
  Some (MsgCommand (CmdAbort reason) r) ∈ T →
  tracks T (let! h := get in
    for_each (sort_by_str id (elements (list_to_set (rb_invocation_id <$> (btree_entries (hs_running h)).*2) : gset string)))
      (cancel_running config) ;;! reply ReplyRuntimeAborted (on_core (abort reason))) h.
Proof.
  intros Hin. assert (stop_asked T) as Hs by (right; exists reason; by exists r).
  apply tracks_quiet, pays_get, quiet_bind; [apply quiet_for_each; intros; by apply quiet_cancel_running|]. intros _ h1.
  apply quiet_try; [|quiet_go]. apply (core_asked config _ (RtAbort reason)); [|done]. left. by exists r.
Qed.

Lemma tracks_command T fuel command r h : Some (MsgCommand command r) ∈ T → tracks T (handle_command config fuel command) h.
Proof.
  revert T command r h. induction fuel as [|fuel IH]; intros T command r h Hin; cbn [handle_command]; [done|].
  assert (asked T command) as Ha by (by exists r).
  destruct command; try (by apply tracks_reply, tracks_query);
    try (by apply tracks_quiet, quiet_try; [by apply quiet_resource|quiet_go]).
  - apply tracks_reply, tracks_try; [by apply tracks_quiet, (core_asked config _ (RtSubmitTask task))|].
    intros. by eapply tracks_schedule_if.
  - apply tracks_reply, tracks_try; [by apply tracks_quiet, (core_asked config _ (RtSubmitBatch batch))|].
    intros. by eapply tracks_schedule_if.
  - apply tracks_try; [apply tracks_schedule; by eexists|]. intros l report h1.
    apply tracks_bind; [by apply tracks_drain|]. intros ? [] ?. apply tracks_ret.
  - apply tracks_try; [apply tracks_idle; [done|by eexists]|]. intros ? [] ?. apply tracks_ret.
  - apply tracks_quiet. by eapply quiet_cancel_command.
  - apply tracks_reply, tracks_quiet. by apply (core_asked config _ RtBeginDrain).
  - by eapply tracks_abort.
  - apply tracks_reply, tracks_try; [by eapply tracks_reload|]. intros. by eapply tracks_schedule_if.
Qed.

Lemma replies_shutdown T h : Some MsgShutdown ∈ T → replies T MsgShutdown (handle_message config MsgShutdown) h.
Proof.
  intros Hin. apply replies_pays. cbn [handle_message owed]. apply quiet_bind; [quiet_go|]. intros _ h1.
  apply quiet_bind; [|quiet_go]. apply pays_ignore, (core_asked config _ (RtAbort "host.shutdown")); [|done]. by right.
Qed.

Lemma replies_message T msg h : Some msg ∈ T → replies T msg (handle_message config msg) h.
Proof.
  intros Hin. assert (∀ l msg', msg = msg' → drives config (Some msg') → driven config (T ++ l)) as Hd.
  { intros l _ <- Hd. exists (Some msg). split; [set_solver|done]. }
  destruct msg as [command r|task_id r|started|completion|event|command r|exited|runner_id invocation_id|];
    [| | | | | | | |by apply replies_shutdown]; cbn [handle_message].
  - intros a h' (? & ? & [= <- <-] & Hrun)%bind_inv.
    apply (replies_command (handle_command config (S (length (hs_inbox h)))) ltac:(intros; by eapply tracks_command)
      T command r ret h Hin (λ _ _ _, tracks_ret _ _ _ _) a h').
    apply bind_inv in Hrun as (outcome & h1 & Ho & Hs). unfold bind at 1. rewrite Ho. unfold bind. by rewrite Hs.
  - apply replies_then; [apply replies_status|intros; apply tracks_ret].
  - apply replies_then; [by apply replies_started|intros; apply tracks_ret].
  - apply replies_then; [by apply replies_ignore, replies_completion|]. intros.
    apply tracks_bind; [apply tracks_ignore, tracks_schedule; by eapply Hd|intros; apply tracks_ret].
  - apply replies_then; [by apply replies_ignore, replies_event|]. intros.
    apply tracks_bind; [apply tracks_ignore, tracks_schedule; by eapply Hd|intros; apply tracks_ret].
  - apply replies_then; [apply replies_async|intros; apply tracks_ret].
  - apply replies_then; [apply replies_ignore, replies_exited|intros; apply tracks_ret].
  - apply replies_then; [apply replies_failed|intros; apply tracks_ret].
Qed.

Lemma tracks_publish {A} T (a : A) h : tracks T (publish_terminal_changes ;;! ret a) h.
Proof. apply tracks_quiet. quiet_go. Qed.

Lemma tracks_timeout T h : None ∈ T → tracks T (handle_timeout config) h.
Proof.
  intros Hin. unfold handle_timeout. apply tracks_bind; [apply tracks_quiet; quiet_go|]. intros l _ h1.
  assert (∀ l', driven config (T ++ l')) as Hd by (intros l'; exists None; split; [set_solver|done]).
  apply tracks_get, tracks_bind.
  - apply tracks_quiet. destruct (hs_scheduled_tick h1) as [[]|]; [|quiet_go]. quiet_go.
  - intros l' [] h2; [apply tracks_ret|]. apply tracks_bind; [apply tracks_supervise|]. intros. apply tracks_publish.
Qed.

Lemma skip_timeouts_suffix (l : list (option CoreActorMsg)) : ∃ n, l = replicate n None ++ skip_timeouts l.
Proof. induction l as [|[msg|] l (n & IH)]; [by exists 0|by exists 0|]. exists (S n). cbn. by rewrite <-IH. Qed.

Lemma nones n : omap id (replicate n None : list (option CoreActorMsg)) = [].
Proof. by induction n. Qed.

Lemma host_run_stay T l v : host_run config T l v v.
Proof. revert T. induction l as [|msg l IH]; intros T; [by constructor|]. econstructor; [done|apply IH]. Qed.

Lemma tracked_skip T h : tracked T [] h (h <| hs_inbox ::= skip_timeouts |>).
Proof.
  destruct (skip_timeouts_suffix (hs_inbox h)) as [n Hn]. exists (replicate n None), []. cbn. unfold ids. cbn.
  unfold owed_by, maybe_owed_by. rewrite nones. cbn. rewrite app_nil_r. split_and!; [done..|apply host_run_stay].
Qed.

(** Waiting for a message is some steps that take time-outs, then one
    reception. *)
Lemma await_message_run T h r h2 :
  await_message config h = Some (r, h2) → ∃ h1, tracked T [] h h1 ∧ recv_timeout h1 = Some (r, h2).
Proof.
  unfold await_message. intros (? & ? & [= <- <-] & ([] & h1 & Hr & (? & ? & [= <- <-] & Hk)%bind_inv)%bind_inv)%bind_inv.
  assert (tracked T [] h h1) as Ht by (eapply pays_tracked; [apply quiet_refresh|done]).
  destruct (tracked_next _ _ _ _ _ Ht) as [l Hl].
  destruct (next_wake_deadline config h1).
  - apply bind_inv in Hk as (now & h1' & Hn & Hk). exists h1'. split; [|done]. apply (Hl []). by eapply tracks_world.
  - unfold recv in Hk. apply bind_inv in Hk as ([] & h1' & [= <-] & Hk). eexists. split; [|exact Hk]. apply (Hl []), tracked_skip.
Qed.

Lemma tracks_round T h : tracks T (actor_round config) h.
Proof.
  intros a h' (r & h2 & Hr & Hk)%bind_inv. apply (await_message_run T) in Hr as (h1 & Ht & Hr).
  destruct (tracked_next _ _ _ _ _ Ht) as [l Hl]. apply (Hl []).
  set (k := λ received, match received with
    | Received_disconnected => ret true
    | Received_timeout => handle_timeout config
    | Received_msg msg =>
        supervise_running_invocations config ;;!
        let! shutdown := handle_message config msg in publish_terminal_changes ;;! ret shutdown
    end : M HostState bool).
  assert (bind recv_timeout k h1 = Some (a, h')) as Hrun by (unfold bind; rewrite Hr; exact Hk). clear Hr Hk.
  revert a h' Hrun. apply tracks_recv.
  - apply tracks_ret.
  - intros. apply tracks_timeout. set_solver.
  - intros msg h3. apply replies_after; [apply tracks_supervise|]. intros l' _ h4.
    apply replies_then; [apply replies_message; set_solver|]. intros. apply tracks_publish.
Qed.

Lemma tracks_loop T fuel h : tracks T (core_actor_loop config fuel) h.
Proof.
  revert T h. induction fuel as [|fuel IH]; intros T h; cbn [core_actor_loop]; [done|].
  apply tracks_bind; [apply tracks_round|]. intros l [] h1; [apply tracks_ret|apply IH].
Qed.
End Run.

Section Theorems.
Context `{RC : RunnerControl} `{ST : !SerdeTypes} `{HW : !HostWorld}.
Variable config : HostRuntimeConfig.

Lemma run_actor_tracked core inbox w h :
  run_actor config core inbox w = Some h → tracked config [] [] (host_state_new core inbox w) h.
Proof.
  unfold run_actor. destruct (core_actor_loop _ _ _) as [[[] h']|] eqn:Hrun; [|done]. intros [= <-].
  by eapply tracks_loop.
Qed.

(** C5: over a whole run of the host actor, the messages it handled are the
    first ones of its mailbox, and the answers it sent are exactly one for each
    command and each status question among them, one for each async resource
    operation that came to its end, and at most one, sent at once, for each
    async resource command: no caller is answered twice and none of those
    handled is left without an answer, however commands were nested. *)
Theorem commands_answered_once core inbox w h :
  run_actor config core inbox w = Some h →
  ∃ handled refused,
    inbox = handled ++ hs_inbox h ∧
    (hs_answers h).*1 ≡ₚ owed_by handled ++ refused ∧ refused ⊆+ maybe_owed_by handled.
Proof.
  intros (handled & refused & Hi & Ha & Hr & _)%run_actor_tracked. exists handled, refused. done.
Qed.

End Theorems.
