(* ===== verification/HostPassTheorems.v ===== *)
(** * What a hosted runtime never does

    The host gives synchronous runners of the control class no budget, so the
    scheduling passes of a hosted core never run the kernel's own tasks; no
    other operation of the host touches the state store. *)

From stdpp Require Import relations.
From S2P Require Import Prelude Contracts RunnerContracts BatchContracts PluginContracts Ids Logs StateStore ResourceManager TaskRecords TaskIndexes TaskPool TaskClaiming Registry RuntimeState RuntimeTasks RuntimeRouting RuntimeDispatch RuntimeReload RuntimeResources RuntimeOps ReloadTheorems WireBytes WireOperations HostErrors HostScheduler HostCommands HostActor HostLoop HostLoopTheorems.

Section Kernel.
Context `{RA : RunnerApi} `{ST : !SerdeTypes}.
Implicit Types s : CoreRuntime.

(** The stored state, the descriptors a pass goes through, the source of
    resource ids *)
Definition stored s : StateStore * list RunnerDescriptor * SequentialIdSource :=
  (rt_states s, reg_descriptor_snapshot (rt_registry s), rm_id_source (rt_resources s)).
Abbreviation kept c s := (leaves stored c s).

(** ** The parts of the runtime an operation writes *)

Lemma kept_tasks {A} (c : M TaskPool A) s : kept (on_tasks c) s.
Proof. intros a t. unfold on_tasks. destruct (c _) as [[]|]; [|done]. by intros [= _ <-]. Qed.
Lemma kept_resources {A} (c : M ResourceManager A) s :
  leaves rm_id_source c (rt_resources s) → kept (on_resources c) s.
Proof.
  intros Hc a t. unfold on_resources. destruct (c _) as [[b m]|] eqn:Hrun; [|done]. intros [= _ <-].
  unfold stored. cbn. by rewrite (Hc _ _ Hrun).
Qed.
Lemma kept_registry {A} (c : M RunnerRegistry A) s :
  leaves reg_descriptor_snapshot c (rt_registry s) → kept (on_registry c) s.
Proof.
  intros Hc a t. unfold on_registry. destruct (c _) as [[b r]|] eqn:Hrun; [|done]. intros [= _ <-].
  unfold stored. cbn. by rewrite (Hc _ _ Hrun).
Qed.
Lemma kept_event kind name id attrs error s : kept (record_event kind name id attrs error) s.
Proof. by apply leaves_modify. Qed.
Lemma kept_span trace name status attrs s : kept (record_span trace name status attrs) s.
Proof. unfold record_span. intros a t. repeat case_match; by intros [= _ <-]. Qed.
Hint Resolve kept_tasks kept_event kept_span : frame.

Lemma kept_put_runner runner s : kept (on_registry (put_runner runner)) s.
Proof. apply kept_registry. unfold put_runner. leaves_go. Qed.
Lemma kept_take_runner id s : kept (on_registry (take_runner id)) s.
Proof. apply kept_registry. unfold take_runner. leaves_go. Qed.
Lemma kept_cancel_runner id i s : kept (cancel_runner_invocation id i) s.
Proof. unfold cancel_runner_invocation. apply kept_registry. unfold cancel_runner. leaves_go. Qed.
Hint Resolve kept_put_runner kept_take_runner : frame.

Lemma kept_try_for_each {A} (l : list A) (body : A → M CoreRuntime (RuntimeResult unit)) s : (∀ x t, kept (body x) t) → kept (try_for_each l body) s.
Proof. apply leaves_try_for_each. Qed.
Lemma kept_try_sum {A} (l : list A) f s : (∀ x t, kept (f x) t) → kept (try_sum l f) s.
Proof. intros Hf. revert s. induction l; intros s; cbn [try_sum]; [apply leaves_ret|]. apply leaves_try; [done|]. leaves_go. Qed.
Hint Extern 1 (leaves _ (try_for_each _ _) _) => apply kept_try_for_each; leaves_go : frame.
Hint Extern 1 (leaves _ (try_sum _ _) _) => apply kept_try_sum; leaves_go : frame.

(** ** Waking, submitting, cancelling *)

Lemma kept_wake_waits child waits n s : kept (wake_waits child waits n) s.
Proof. revert n s. induction waits; intros n s; cbn [wake_waits]; leaves_go. Qed.
Hint Resolve kept_wake_waits : frame.
Lemma kept_wake child s : kept (wake_tasks_waiting_on child) s.
Proof. unfold wake_tasks_waiting_on. leaves_go. Qed.
Lemma kept_terminal id name error s : kept (record_task_terminal_event id name error) s.
Proof. apply kept_event. Qed.
Hint Resolve kept_wake kept_terminal : frame.

Lemma kept_enqueue task s : kept (enqueue_task task) s.
Proof. unfold enqueue_task. leaves_go. Qed.
Hint Resolve kept_enqueue : frame.
Lemma kept_enqueue_all tasks s : kept (enqueue_tasks tasks) s.
Proof. revert s. induction tasks; intros s; cbn [enqueue_tasks]; leaves_go. Qed.
Hint Resolve kept_enqueue_all : frame.
Lemma kept_submit_batch batch s : kept (submit_batch batch) s.
Proof. unfold submit_batch. leaves_go. Qed.
Hint Resolve kept_submit_batch : frame.
Lemma kept_submit task s : kept (submit_task task) s.
Proof. unfold submit_task. leaves_go. Qed.

Lemma kept_cancel_by_id fuel id s : kept (cancel_by_id fuel id) s.
Proof.
  revert id s. induction fuel; intros id s; cbn [cancel_by_id]; leaves_go.
Qed.
Hint Resolve kept_cancel_by_id : frame.
Lemma kept_cancel id s : kept (cancel_task_by_id id) s.
Proof. unfold cancel_task_by_id. leaves_go. Qed.
Lemma kept_abort reason s : kept (abort reason) s.
Proof. unfold abort. leaves_go. Qed.
Lemma kept_drain s : kept begin_drain s.
Proof. unfold begin_drain. leaves_go. Qed.

(** ** Completions *)

Lemma kept_fail lease failure s : kept (fail_runner_dispatch lease failure) s.
Proof. unfold fail_runner_dispatch. leaves_go. Qed.
Hint Resolve kept_fail : frame.
Lemma kept_fail_all leases failure s : kept (fail_runner_dispatches leases failure) s.
Proof. apply kept_try_sum. leaves_go. Qed.
Hint Resolve kept_fail_all : frame.

Lemma kept_outputs runner id outputs s : kept (route_result_outputs runner id outputs) s.
Proof. unfold route_result_outputs. leaves_go. Qed.
Lemma kept_finish c id name error s : kept (finish_task c id name error) s.
Proof. unfold finish_task. leaves_go. Qed.
Lemma kept_progress id status s : kept (record_progress id status) s.
Proof. apply kept_event. Qed.
Hint Resolve kept_outputs kept_finish kept_progress : frame.
Lemma kept_status runner lease id status task_await output s :
  kept (commit_result_status runner lease id status task_await output) s.
Proof. unfold commit_result_status. leaves_go. Qed.
Hint Resolve kept_status : frame.
Lemma kept_route runner lease result s : kept (route_result runner lease result) s.
Proof. unfold route_result. leaves_go. Qed.
Hint Resolve kept_route : frame.
Lemma kept_rejected id error s : kept (record_rejected_runner_result id error) s.
Proof. unfold record_rejected_runner_result. leaves_go. Qed.
Hint Resolve kept_rejected : frame.
Lemma kept_route_entry descriptor lease completion s : kept (route_entry_completion descriptor lease completion) s.
Proof. unfold route_entry_completion. leaves_go. Qed.
Hint Resolve kept_route_entry : frame.
Lemma kept_route_entries descriptor leases by_task slots n s : kept (route_entries descriptor leases by_task slots n) s.
Proof. revert n s. induction slots as [|[]]; intros n s; cbn [route_entries]; leaves_go. Qed.
Hint Resolve kept_route_entries : frame.
Lemma kept_complete completion s : kept (complete_runner_dispatch completion) s.
Proof. unfold complete_runner_dispatch, route_completion_batch. leaves_go. Qed.
Lemma kept_defer dispatch s : kept (defer_runner_dispatch dispatch) s.
Proof. unfold defer_runner_dispatch. leaves_go. Qed.

(** ** Resources *)

Lemma kept_register descriptor s : kept (rt_register_resource_descriptor descriptor) s.
Proof.
  unfold rt_register_resource_descriptor, guarded_resources. apply leaves_get. case_match; [|apply leaves_ret].
  apply kept_resources. unfold register_resource_descriptor. leaves_go.
Qed.
Lemma kept_sync receipt s : kept (rt_sync_plan_receipt receipt) s.
Proof.
  unfold rt_sync_plan_receipt, guarded_resources. apply leaves_get. case_match; [|apply leaves_ret].
  apply kept_resources, sync_descriptors_ids.
Qed.
Hint Resolve kept_sync : frame.
Lemma kept_sync_all receipts s : kept (sync_plan_receipts receipts) s.
Proof. revert s. induction receipts; intros s; cbn [sync_plan_receipts]; leaves_go. Qed.

(** ** A scheduling pass *)

Lemma kept_reject_stale stale n s : kept (reject_stale stale n) s.
Proof. revert n s. induction stale as [|[id error]]; intros n t; cbn [reject_stale]; leaves_go. Qed.
Hint Resolve kept_reject_stale : frame.
Lemma kept_begin_pass s : kept begin_pass s.
Proof.
  unfold begin_pass, rt_reclaim_expired_task_leases, rt_wake_due_tasks, reject_stale_ready_tasks. leaves_go.
Qed.
Hint Resolve kept_begin_pass : frame.
Lemma kept_decision descriptor decision s : kept (record_scheduler_decision descriptor decision) s.
Proof. unfold record_scheduler_decision. leaves_go. Qed.
Hint Resolve kept_decision : frame.
Lemma kept_defer_all leased s : kept (defer_all leased) s.
Proof. apply kept_try_for_each. leaves_go. Qed.
Lemma kept_target id s : kept (dispatch_target id) s.
Proof. unfold dispatch_target. leaves_go. Qed.
Hint Resolve kept_defer_all kept_target : frame.
Lemma kept_build descriptor executor leased s : kept (build_runner_dispatch descriptor executor leased) s.
Proof. unfold build_runner_dispatch. leaves_go. Qed.
Hint Resolve kept_build : frame.
Lemma kept_build_all descriptor executor groups s : kept (build_dispatches descriptor executor groups) s.
Proof. revert s. induction groups; intros s; cbn [build_dispatches]; leaves_go. Qed.
Hint Resolve kept_build_all : frame.

(** Only the kernel's runner could write the store, and it is withheld. *)
Lemma kept_claim_work descriptor decision expires s :
  d_runner_id descriptor ≠ "core.kernel" ∨ dec_dispatch_limit decision = 0%N →
  kept (claim_runner_work descriptor decision expires) s.
Proof.
  intros Hd. unfold claim_runner_work. cbv zeta. apply leaves_bind; [apply kept_decision|]. intros [] s1 _.
  destruct (decide (dec_dispatch_limit (clamp_decision descriptor decision) = 0%N)) as [_|Hl]; [apply leaves_ret|].
  destruct Hd as [Hid|H0].
  - rewrite (bool_decide_eq_false_2 _ Hid), andb_false_r. leaves_go.
  - destruct Hl. unfold clamp_decision, decision_clamp_batches, decision_clamp_to. cbv zeta. case_match; cbn; [done|]. rewrite H0. lia.
Qed.

Section Pass.
Context {D : Type}.
Variable schedule : RunnerDescriptor → RunnerLoad → N → N → D → option (RuntimeResult ScheduleDecision * D).
Hypothesis withheld : withholds_control schedule.

(** The kernel's descriptors belong to the control class. *)
Definition kernel_inline (descriptor : RunnerDescriptor) : Prop :=
  d_runner_id descriptor = "core.kernel" →
  d_execution_class descriptor = ClassControl ∧ is_async_mode (d_invocation_mode descriptor) = false.

Lemma kept_claim_for descriptors expires d report dispatches s :
  Forall kernel_inline descriptors → kept (claim_for_runners schedule descriptors expires d report dispatches) s.
Proof.
  intros Hall. revert d report dispatches s.
  induction Hall as [|descriptor descriptors Hd _ IH]; intros; cbn [claim_for_runners]; [apply leaves_ret|].
  destruct (negb _); [apply IH|]. apply leaves_get, leaves_bind; [apply kept_tasks|]. intros load s1 _.
  destruct (schedule _ _ _ _ _) as [[[decision|e] d']|] eqn:Hs; [|apply leaves_ret|done]. cbn [expect].
  change (bind (ret ?x) ?k) with (k x). cbv beta iota.
  apply leaves_try; [|intros [] ? _; apply IH]. apply kept_claim_work.
  destruct (decide (d_runner_id descriptor = "core.kernel")) as [Hid|]; [right|by left].
  destruct (Hd Hid) as [Hclass Hmode], (withheld descriptor load (rt_current_step s) (plan_registry_generation (rt_load_plan s)) d Hclass Hmode)
    as (decision' & d'' & Hok & Hzero). rewrite Hs in Hok. by injection Hok as <- _.
Qed.

Lemma kept_pass step d expires s :
  Forall kernel_inline (reg_descriptor_snapshot (rt_registry s)) →
  kept (claim_ready_dispatches_at_step schedule step d expires) s.
Proof.
  intros Hall. unfold claim_ready_dispatches_at_step. apply leaves_get. destruct (ensure_not_aborted s); [|apply leaves_ret].
  case_decide; [apply leaves_ret|]. apply leaves_bind; [by apply leaves_modify|]. intros [] s1 H1.
  apply leaves_try; [apply kept_begin_pass|]. intros report s2 H2. apply leaves_get, kept_claim_for.
  assert (stored s2 = stored s) as [= _ -> _] by congruence. done.
Qed.
End Pass.
End Kernel.

(** ** The run of the host *)

Section Hosted.
Context `{RC : RunnerControl} `{ST : !SerdeTypes} `{HW : !HostWorld}.
Variable config : HostRuntimeConfig.

Definition asks_reload (msg : option CoreActorMsg) : Prop :=
  match msg with Some (MsgCommand (CmdReload _ _) _) => True | _ => False end.

Lemma host_op_stored taken R s s' op :
  Forall (λ msg, ¬ asks_reload msg) taken → Forall kernel_inline (reg_descriptor_snapshot (rt_registry s)) →
  asked_for config taken op ∨ due config R s op → run_rt op s = Some (tt, s') → stored s' = stored s.
Proof.
  intros Hmail Hall Hmay Hrun.
  assert (∀ A (c : M CoreRuntime A), leaves stored c s → forget c s = Some (tt, s') → stored s' = stored s) as Hforget.
  { intros A c Hc Hf. eapply (leaves_bind stored c (λ _, ret tt) s Hc); [|exact Hf]. intros. apply leaves_ret. }
  destruct op; cbn [asked_for due run_rt] in Hmay, Hrun; try (by destruct Hmay); (eapply Hforget; [|exact Hrun]).
  - apply kept_drain.
  - apply kept_abort.
  - apply kept_cancel_runner.
  - apply kept_submit_batch.
  - apply kept_submit.
  - apply kept_cancel.
  - destruct Hmay as [(_ & Hw & _)|[]]. by apply kept_pass.
  - apply kept_complete.
  - apply kept_defer.
  - destruct Hmay as [(timeout & r & Hin)|[]]. rewrite Forall_forall in Hmail. by destruct (Hmail _ Hin).
  - apply kept_register.
  - apply kept_sync_all.
Qed.

Lemma host_moves_stored taken (v v' : HostView) :
  Forall (λ msg, ¬ asks_reload msg) taken → Forall kernel_inline (reg_descriptor_snapshot (rt_registry v.1)) →
  rtc (host_move config taken) v v' → stored v'.1 = stored v.1.
Proof.
  intros Hmail Hall Hr. induction Hr as [|v v1 v2 Hm _ IH]; [done|].
  assert (stored v1.1 = stored v.1) as H1.
  { destruct Hm as [op s s' R Hop Hrun|op s s' R Hop Hrun|]; [| |done]; eapply (host_op_stored taken R); eauto. }
  rewrite <-H1. apply IH. by injection H1 as _ -> _.
Qed.

Lemma host_run_stored taken l (v v' : HostView) :
  Forall (λ msg, ¬ asks_reload msg) (taken ++ l) → Forall kernel_inline (reg_descriptor_snapshot (rt_registry v.1)) →
  host_run config taken l v v' → stored v'.1 = stored v.1.
Proof.
  intros Hmail Hall Hr. induction Hr as [taken v v' Hm|taken msg l v v1 v' Hm Hr IH].
  - eapply host_moves_stored; [|done|done]. by rewrite app_nil_r in Hmail.
  - pose proof Hmail as [Ht _]%Forall_app. pose proof (host_moves_stored _ _ _ Ht Hall Hm) as H1. rewrite <-H1. apply IH.
    + by rewrite <-app_assoc.
    + by injection H1 as _ -> _.
Qed.

(** in a hosted runtime whose kernel runner has the control class, as the
    kernel's own descriptor has, nothing is ever committed: whatever the host
    actor handles short of a reload - submitted [core.commit] tasks, ticks,
    completions whose deltas become commits - the state store stays as it was. *)
Theorem hosted_state_store_unchanged core inbox w h :
  Forall (λ msg, ¬ asks_reload msg) inbox →
  Forall kernel_inline (reg_descriptor_snapshot (rt_registry core)) →
  run_actor config core inbox w = Some h → rt_states (hs_core h) = rt_states core.
Proof.
  intros Hmail Hall (handled & refused & Hi & _ & _ & Hr)%run_actor_tracked. cbn in Hi.
  assert (stored (hs_core h) = stored core) as [= -> _ _]; [|done].
  eapply (host_run_stored [] handled (core, ∅) (hs_core h, hs_running h)); [|done|exact Hr].
  rewrite Hi in Hmail. by apply Forall_app in Hmail as [].
Qed.
End Hosted.
