(* ===== verification/HostFuel.v ===== *)
(** * The loops of the host actor end

    The loops over messages carry fuel.  Every round takes something from the
    mailbox or ends, and a command handled inside another one was received by
    it, so more fuel than there are messages left never changes a run: where
    the model gives no result, the code has panicked. *)

From S2P Require Import Prelude Contracts RunnerContracts BatchContracts PluginContracts Logs StateStore ResourceManager TaskRecords TaskIndexes TaskPool TaskClaiming Registry RuntimeState RuntimeTasks RuntimeRouting RuntimeDispatch RuntimeReload RuntimeResources WireBytes WireOperations HostErrors HostScheduler HostCommands HostActor HostLoop HostLoopTheorems.

Section Fuel.
Context `{RC : RunnerControl} `{ST : !SerdeTypes} `{HW : !HostWorld}.
Variable config : HostRuntimeConfig.
Implicit Types h : HostState.

Abbreviation left h := (length (hs_inbox h)).

(** ** Computations that give nothing back to the mailbox *)

Definition shrinks {A} (c : M HostState A) : Prop := ∀ h a h', c h = Some (a, h') → left h' ≤ left h.

Lemma shrinks_pays {A} (c : M HostState A) : (∀ h, ∃ T p, pays config (asked_by config T) p c h) → shrinks c.
Proof. intros Hc h a h' Hrun. destruct (Hc h) as (T & p & Hp), (Hp _ _ I Hrun) as [-> _]. done. Qed.

Lemma shrinks_tracks {A} (c : M HostState A) : (∀ h, ∃ T, tracks config T c h) → shrinks c.
Proof.
  intros Hc h a h' Hrun. destruct (Hc h) as (T & Ht), (Ht _ _ Hrun) as (handled & busy & -> & _). rewrite length_app. lia.
Qed.

Lemma shrinks_bind {A B} (c : M HostState A) (k : A → M HostState B) : shrinks c → (∀ a, shrinks (k a)) → shrinks (bind c k).
Proof. intros Hc Hk h b h' (a & h1 & Hrun & Hk')%bind_inv. specialize (Hc _ _ _ Hrun). specialize (Hk _ _ _ _ Hk'). lia. Qed.

Lemma shrinks_command fuel command : shrinks (handle_command config fuel command).
Proof. apply shrinks_tracks. intros h. exists [Some (MsgCommand command 0)]. apply (tracks_command _ _ _ _ 0%N). set_solver. Qed.

Lemma shrinks_completion c : shrinks (handle_worker_completion c).
Proof. apply shrinks_pays. intros h. exists [Some (MsgWorkerCompleted c)], []. apply quiet_completion, vouched_worker. set_solver. Qed.
Lemma shrinks_event event : shrinks (handle_async_event event).
Proof. apply shrinks_pays. intros h. exists [Some (MsgAsyncEvent event)], (owed (MsgAsyncEvent event)). apply pays_event. set_solver. Qed.
Lemma shrinks_async command r : shrinks (start_async_resource_command config command r).
Proof.
  apply shrinks_pays. intros h. exists []. destruct (pays_async_command config (asked_by config []) command r h) as (p & _ & Hp). by exists p.
Qed.
Lemma shrinks_started started : shrinks (mark_worker_started started).
Proof. apply shrinks_pays. intros h. exists [Some (MsgWorkerStarted started)], []. apply quiet_started. set_solver. Qed.
Lemma shrinks_schedule : shrinks (schedule_ready config).
Proof. apply shrinks_pays. intros h. exists [None], []. apply quiet_schedule. exists None. split; [set_solver|done]. Qed.
Lemma shrinks_supervise : shrinks (supervise_running_invocations config).
Proof. apply shrinks_tracks. intros h. exists []. apply tracks_supervise. Qed.
Lemma shrinks_timeout : shrinks (handle_timeout config).
Proof. apply shrinks_tracks. intros h. exists [None]. apply tracks_timeout. set_solver. Qed.
Lemma shrinks_message msg : shrinks (handle_message config msg).
Proof.
  intros h a h' Hrun.
  destruct (replies_message config [Some msg] msg h ltac:(set_solver) a h' Hrun) as (b & _ & handled & busy & -> & _).
  rewrite length_app. lia.
Qed.

Lemma shrinks_quiet {A} (c : M HostState A) : (∀ h, pays config (asked_by config []) [] c h) → shrinks c.
Proof. intros. apply shrinks_pays. intros. by exists [], []. Qed.

Lemma shrinks_reply outcome r : shrinks (send_command_reply outcome r).
Proof. apply shrinks_pays. intros. exists [], [r]. apply pays_reply. Qed.
Lemma shrinks_status task_id r : shrinks (answer_task_status task_id r).
Proof. apply shrinks_pays. intros. exists [], [r]. apply pays_status. Qed.
Lemma shrinks_send r answer : shrinks (send_answer r answer).
Proof. apply shrinks_pays. intros. exists [], [r]. apply pays_send. Qed.
Lemma shrinks_world {A} (c : World → A * World) : shrinks (on_world c).
Proof. apply shrinks_quiet. intros. apply quiet_world. Qed.
Lemma shrinks_replace exited : shrinks (replace_exited exited).
Proof. apply shrinks_quiet. intros. apply quiet_replace. Qed.
Lemma shrinks_ignore {A} (c : M HostState A) : shrinks c → shrinks (ignore c).
Proof. intros Hc. apply shrinks_bind; [done|]. intros. apply shrinks_quiet. intros. apply pays_ret. Qed.
Lemma shrinks_retry runner_id invocation_id : shrinks (queue_management_retry runner_id invocation_id).
Proof. apply shrinks_quiet. intros. apply quiet_retry. Qed.
Hint Resolve shrinks_command shrinks_completion shrinks_event shrinks_async shrinks_started shrinks_schedule shrinks_supervise
  shrinks_reply shrinks_status shrinks_send shrinks_world shrinks_replace shrinks_ignore shrinks_retry : host.

(** ** Computations that agree as long as few messages are left *)

Definition agrees {A} (n : nat) (c c' : M HostState A) : Prop := ∀ h, left h ≤ n → c h = c' h.

Lemma agrees_refl {A} n (c : M HostState A) : agrees n c c.
Proof. done. Qed.

Lemma agrees_bind {A B} n (c c' : M HostState A) (k k' : A → M HostState B) :
  agrees n c c' → shrinks c → (∀ a, agrees n (k a) (k' a)) → agrees n (bind c k) (bind c' k').
Proof.
  intros Hc Hs Hk h Hh. unfold bind. rewrite <-(Hc h Hh). destruct (c h) as [[a h1]|] eqn:Hrun; [|done].
  apply Hk. specialize (Hs _ _ _ Hrun). lia.
Qed.

Lemma agrees_try {E A B} n (c c' : M HostState (Result E A)) (k k' : A → M HostState (Result E B)) :
  agrees n c c' → shrinks c → (∀ a, agrees n (k a) (k' a)) → agrees n (try_bind c k) (try_bind c' k').
Proof. intros. apply agrees_bind; [done|done|]. intros [a|e]; [done|apply agrees_refl]. Qed.

Lemma agrees_get {A} n (k k' : HostState → M HostState A) : (∀ h, agrees n (k h) (k' h)) → agrees n (bind get k) (bind get k').
Proof. intros Hk h Hh. by apply Hk. Qed.

(** After a reception that is not the end, fewer messages are left. *)
Lemma agrees_recv {A} n (k k' : Received → M HostState A) :
  agrees n (k Received_disconnected) (k' Received_disconnected) →
  (∀ m received, m < n → agrees m (k received) (k' received)) →
  agrees n (bind recv_timeout k) (bind recv_timeout k').
Proof.
  intros Hd Hk h Hh. unfold bind, recv_timeout. remember (hs_inbox h) as inbox eqn:Hin.
  destruct inbox as [|[msg|] inbox].
  - apply Hd. by rewrite <-Hin.
  - by apply (Hk (length inbox)).
  - by apply (Hk (length inbox)).
Qed.

Section Drain.
Variable n : nat.
Variables handle handle' : HostRuntimeCommand → M HostState (RuntimeResult (HostRuntimeReply * bool)).
Hypothesis Hhandle : ∀ m command, m < n → agrees m (handle command) (handle' command).
Hypothesis Hshrinks : ∀ command, shrinks (handle command).

Lemma drain_agrees k aggregate m :
  m ≤ n → agrees m (drain_worker_completions config handle k aggregate) (drain_worker_completions config handle' k aggregate).
Proof.
  revert aggregate m. induction k as [|k IH]; intros aggregate m Hm; cbn [drain_worker_completions]; [apply agrees_refl|].
  apply agrees_bind; [apply agrees_refl|auto with host|]. intros _.
  apply agrees_recv; [apply agrees_refl|]. intros m' [msg| |] Hm'; [|apply agrees_refl..].
  assert (∀ aggregate, agrees m' (drain_worker_completions config handle k aggregate)
    (drain_worker_completions config handle' k aggregate)) as IH' by (intros; apply IH; lia).
  destruct msg; try apply agrees_refl; (apply agrees_bind; [try apply agrees_refl|auto with host|]); intros; try done.
  - apply Hhandle. lia.
  - apply agrees_bind; [apply agrees_refl|auto with host|]. intros []; [apply agrees_refl|apply IH'].
  - apply agrees_bind; [apply agrees_refl|auto with host|done].
  - apply agrees_bind; [apply agrees_refl|auto with host|done].
Qed.

End Drain.

(** ** Commands *)

Lemma shrinks_drain fuel k aggregate : shrinks (drain_worker_completions config (handle_command config fuel) k aggregate).
Proof.
  apply shrinks_tracks. intros h. exists []. apply tracks_drain. intros. by eapply tracks_command.
Qed.

Lemma idle_agrees n fuel fuel' k aggregate shutdown :
  (∀ m command, m < n → agrees m (handle_command config fuel command) (handle_command config fuel' command)) →
  agrees n (run_idle_ticks config (handle_command config fuel) k aggregate shutdown)
    (run_idle_ticks config (handle_command config fuel') k aggregate shutdown).
Proof.
  intros Hhandle. revert aggregate shutdown. induction k as [|k IH]; intros; cbn [run_idle_ticks]; [apply agrees_refl|].
  apply agrees_try; [apply agrees_refl|auto with host|]. intros report.
  apply agrees_bind; [by apply (drain_agrees n); [|apply shrinks_command|]|apply shrinks_drain|].
  intros [aggregate' shutdown']. apply agrees_get. intros h. destruct (_ || _); [apply agrees_refl|apply IH].
Qed.

Lemma command_agrees fuel fuel' n command :
  n < fuel → n < fuel' → agrees n (handle_command config fuel command) (handle_command config fuel' command).
Proof.
  revert fuel' n command. induction fuel as [|fuel IH]; intros fuel' n command Hf Hf'; [lia|].
  destruct fuel' as [|fuel']; [lia|].
  assert (∀ m command, m < n → agrees m (handle_command config fuel command) (handle_command config fuel' command)) as Hhandle
    by (intros; apply IH; lia).
  destruct command; cbn [handle_command];
    try (lazymatch goal with |- agrees _ ?c ?c' => constr_eq c c' end; apply agrees_refl).
  - apply agrees_try; [apply agrees_refl|auto with host|]. intros report.
    apply agrees_bind; [by apply (drain_agrees n); [|apply shrinks_command|]|apply shrinks_drain|]. intros []. apply agrees_refl.
  - intros h Hh. unfold try_bind, bind. by rewrite (idle_agrees n fuel fuel' (N.to_nat max_ticks) _ _ Hhandle h Hh).
Qed.

(** ** The loop before a reload *)

Lemma reload_agrees fuel fuel' n started timeout :
  n < fuel → n < fuel' →
  agrees n (drain_for_reload_loop config fuel started timeout) (drain_for_reload_loop config fuel' started timeout).
Proof.
  revert fuel' n. induction fuel as [|fuel IH]; intros fuel' n Hf Hf'; [lia|]. destruct fuel' as [|fuel']; [lia|].
  cbn [drain_for_reload_loop]. apply agrees_bind; [apply agrees_refl|auto with host|]. intros _.
  apply agrees_get. intros h. destruct (decide (hs_running h = ∅)); [apply agrees_refl|].
  apply agrees_bind; [apply agrees_refl|auto with host|]. intros now.
  destruct (decide (timeout ≤ now - started)%N); [apply agrees_refl|].
  apply agrees_recv; [apply agrees_refl|]. intros m received Hm.
  assert (agrees m (drain_for_reload_loop config fuel started timeout) (drain_for_reload_loop config fuel' started timeout))
    as IH' by (apply IH; lia).
  destruct received as [msg| |]; [|done|apply agrees_refl].
  destruct msg; try apply agrees_refl;
    (first [apply agrees_try|apply agrees_bind]; [apply agrees_refl|auto with host|done]).
Qed.

(** ** The loop over the messages *)

(** A round that does not stop the actor has taken something. *)
Lemma round_takes h h' : actor_round config h = Some (false, h') → left h' < left h.
Proof.
  intros (r & h2 & Hr & Hk)%bind_inv. apply (await_message_run config []) in Hr as (h1 & (handled & busy & Hi & _) & Hr).
  rewrite Hi, length_app. clear Hi. enough (left h' < left h1) by lia.
  unfold recv_timeout in Hr. destruct (hs_inbox h1) as [|[msg|] inbox] eqn:Hin; injection Hr as <- <-; [done| |].
  - apply bind_inv in Hk as ([] & h3 & Hs%shrinks_supervise & (stop & h4 & Hmsg%shrinks_message & Hp)%bind_inv).
    apply (shrinks_quiet (publish_terminal_changes ;;! ret stop)) in Hp; [|quiet_go]. cbn in *. lia.
  - apply shrinks_timeout in Hk. cbn in *. lia.
Qed.

Lemma loop_agrees fuel fuel' n : n < fuel → n < fuel' → agrees n (core_actor_loop config fuel) (core_actor_loop config fuel').
Proof.
  revert fuel' n. induction fuel as [|fuel IH]; intros fuel' n Hf Hf' h Hh; [lia|]. destruct fuel' as [|fuel']; [lia|].
  cbn [core_actor_loop]. unfold bind. destruct (actor_round config h) as [[[] h']|] eqn:Hrun; [done| |done].
  apply round_takes in Hrun. apply (IH fuel' (left h')); lia.
Qed.

(** the loops of the actor end by themselves: the loop over the messages,
    a command with everything handled inside it, and the drain before a reload
    run the same with any bound above the number of messages left, so no run
    is ever cut short by its bound. *)
Theorem actor_loops_end h fuel :
  left h < fuel →
  core_actor_loop config fuel h = core_actor_loop config (S (left h)) h ∧
  (∀ command, handle_command config fuel command h = handle_command config (S (left h)) command h) ∧
  (∀ started timeout, drain_for_reload_loop config fuel started timeout h =
                      drain_for_reload_loop config (S (left h)) started timeout h).
Proof.
  intros Hf. split_and!; intros.
  - apply (loop_agrees _ _ (left h)); lia.
  - apply (command_agrees _ _ (left h)); lia.
  - apply (reload_agrees _ _ (left h)); lia.
Qed.
End Fuel.
