(* ===== verification/HostReturns.v ===== *)
(** * The host actor returns

    No panic stops the actor: as long as the 64-bit counters of the core have
    room for what the messages of its mailbox submit and hand in, the clock is
    not near its end and no reload is asked for, every call of the core returns,
    and the loops have the fuel they need. *)

From stdpp Require Import relations.
From S2P Require Import Prelude Contracts RunnerContracts BatchContracts PluginContracts Ids Logs StateStore ResourceManager ResourceOccupancy ResourceTheorems TaskRecords TaskIndexes IndexFacts TaskPool TaskClaiming PoolInvariant PoolHistory PoolSteps PoolKernelSteps PoolForced ClaimFacts PoolOps TaskOccupancy Registry RegistryTheorems RuntimeState RuntimeTasks BatchBuild RuntimeRouting RuntimeDispatch RuntimeReload RuntimeResources RuntimeInvariant RuntimeRuns RuntimePasses RuntimeOps WireBytes WireOperations HostErrors HostScheduler HostCommands HostActor HostLoop HostLoopTheorems HostPassTheorems HostFuel.

#[local] Arguments total : simpl never.

(** ** What the calls of the core draw *)

Section Core.
Context `{RA : RunnerApi} `{ST : !SerdeTypes}.
Implicit Types s : CoreRuntime.

Definition tables s : TaskPool * StateStore := (rt_tasks s, rt_states s).

Lemma tables_draw_nothing {A} (c : M CoreRuntime A) s :
  keeps anything c s → leaves tables c s → keeps (spends 0) c s.
Proof.
  intros (a & s' & Hrun & Hok & Hadv & _) Hl. exists a, s'. split_and!; [done|done|done|].
  specialize (Hl _ _ Hrun). injection Hl as Ht Hst. unfold spends. rewrite Ht, Hst. apply spends_refl.
Qed.

Lemma resources_tables {A} (c : M ResourceManager A) s : leaves tables (on_resources c) s.
Proof. intros a s'. unfold on_resources. destruct (c _) as [[]|]; [|done]. by intros [= _ <-]. Qed.

Lemma guarded_tables {A} guard (c : M ResourceManager (RuntimeResult A)) s : leaves tables (guarded_resources guard c) s.
Proof. apply leaves_get. case_match; [apply resources_tables|apply leaves_ret]. Qed.

Lemma sync_receipts_tables receipts s : leaves tables (sync_plan_receipts receipts) s.
Proof.
  revert s. induction receipts as [|r receipts IH]; intros s; cbn [sync_plan_receipts]; [apply leaves_ret|].
  apply leaves_try; [apply guarded_tables|]. intros. apply leaves_try; [apply IH|]. intros. apply leaves_ret.
Qed.

Lemma begin_drain_tables s : leaves tables begin_drain s.
Proof.
  apply leaves_get. case_match; try apply leaves_ret. apply leaves_bind; [by apply leaves_modify|]. intros [] s1 _.
  apply leaves_bind; [by apply leaves_modify|]. intros. apply leaves_ret.
Qed.

Lemma cancel_runner_tables runner_id invocation_id s : leaves tables (cancel_runner_invocation runner_id invocation_id) s.
Proof.
  unfold cancel_runner_invocation. intros a s'. unfold on_registry. destruct (cancel_runner _ _ _) as [[]|]; [|done].
  by intros [= _ <-].
Qed.

(** ** Scheduling passes *)

Lemma clamp_nothing descriptor decision :
  dec_dispatch_limit decision = 0%N → dec_dispatch_limit (clamp_decision descriptor decision) = 0%N.
Proof.
  intros H0. unfold clamp_decision, decision_clamp_batches, decision_clamp_to. cbv zeta. case_match; cbn; [done|]. rewrite H0. lia.
Qed.

Lemma clamp_limit_le descriptor decision : (dec_dispatch_limit (clamp_decision descriptor decision) ≤ dec_dispatch_limit decision)%N.
Proof. unfold clamp_decision, decision_clamp_batches, decision_clamp_to. cbv zeta. case_match; cbn; lia. Qed.

(** A claim draws nothing unless it is the kernel's own. *)
Lemma claim_runner_work_free descriptor decision expires s :
  rt_ok s → NoDup (d_accepted_protocol_ids descriptor) → (∀ e, expires = Some e → (e ≤ u64_max)%N) →
  allocatable TaskId (dec_dispatch_limit decision) → d_runner_id descriptor ≠ "core.kernel" ∨ dec_dispatch_limit decision = 0%N →
  keeps free (claim_runner_work descriptor decision expires) s.
Proof.
  intros Hok Hnd Hexp Halloc Hd. unfold claim_runner_work. cbv zeta.
  apply (keeps_bind free); [by apply keeps_free, record_scheduler_decision_quiet|]. intros [] s1 Hok1 _.
  case_decide as Hlim; [by apply (keeps_ret free)|]. destruct Hd as [Hid|H0]; [|by destruct Hlim; apply clamp_nothing].
  apply (keeps_get free). eapply safely_bind; [apply claim_safely; [done|done| |done]|].
  { eapply allocatable_le, Halloc. pose proof (clamp_limit_le descriptor decision). unfold selection_limit. lia. } intros leased s2 Hok2 _ (_ & _ & Hq). cbv beta.
  assert (free s1 s2) as H2 by by apply quiet_free.
  case_bool_decide as Hne; [by apply safely_ret|]. rewrite (bool_decide_eq_false_2 _ Hid), andb_false_r.
  pose proof (split_nonempty _ Hne). destruct (split_leased_tasks_by_resource_conflict leased) as [|group deferred]; [done|].
  eapply safely_mono; [apply dispatch_groups_free; [done|by eapply clamp_decision_entries]|].
  intros a s3 _ _ [H3 _]. by etrans.
Qed.

Section Pass.
Context {D : Type}.
Variable schedule : RunnerDescriptor → RunnerLoad → N → N → D → option (RuntimeResult ScheduleDecision * D).
Hypothesis withheld : withholds_control schedule.

(** The schedule answers, and one allocation holds the ids it grants. *)
Definition schedule_fits : Prop := ∀ descriptor load step generation d,
  ∃ result d', schedule descriptor load step generation d = Some (result, d') ∧
    ∀ decision, result = Ok decision → allocatable TaskId (dec_dispatch_limit decision).
Hypothesis fits : schedule_fits.

Lemma claim_for_runners_free descriptors d report dispatches s :
  rt_ok s → Forall (λ d, NoDup (d_accepted_protocol_ids d)) descriptors → Forall kernel_inline descriptors →
  keeps free (claim_for_runners schedule descriptors None d report dispatches) s.
Proof.
  revert d report dispatches s. induction descriptors as [|descriptor descriptors IH]; intros d report dispatches s Hok Hnd Hk;
    cbn [claim_for_runners]; [by apply (keeps_ret free)|].
  apply Forall_cons in Hnd as [Hnd1 Hnd], Hk as [Hk1 Hk]. case_match; [by apply IH|]. apply (keeps_get free). cbv zeta.
  apply (keeps_bind free); [by apply keeps_free, runner_load_quiet|]. intros load s1 Hok1 _.
  edestruct (fits descriptor load) as (result & d' & Hs & Hfits). rewrite Hs. cbn [expect].
  change (bind (ret ?x) ?k) with (k x). cbv beta iota.
  destruct result as [decision|e]; [|by apply (keeps_ret free)].
  apply (keeps_try free); [|intros [] s2 Hok2 _; by apply IH]. apply claim_runner_work_free; [done|done|done|by apply Hfits|].
  destruct (decide (d_runner_id descriptor = "core.kernel")) as [Hid|]; [right|by left].
  destruct (Hk1 Hid) as [Hclass Hmode].
  edestruct (withheld descriptor load) as (decision' & d'' & Hok' & Hzero); [done|done|].
  rewrite Hs in Hok'. by injection Hok' as -> _.
Qed.

Lemma pass_draws_nothing step d s :
  rt_ok s → Forall kernel_inline (reg_descriptor_snapshot (rt_registry s)) →
  keeps (spends 0) (claim_ready_dispatches_at_step schedule step d None) s.
Proof.
  intros Hok Hk. unfold claim_ready_dispatches_at_step. apply (keeps_get (spends 0)).
  case_match; [|by apply (keeps_ret (spends 0))]. case_decide; [by apply (keeps_ret (spends 0))|].
  eapply safely_bind; [apply step_safely; [done|lia]|]. intros [] s1 Hok1 _ ->.
  change (keeps (spends 0) (let? report := begin_pass in let! self := get in
    claim_for_runners schedule (reg_descriptor_snapshot (rt_registry self)) None d report []) (s <| rt_current_step := step |>)).
  apply (safely_mono _ _ (λ _, free (s <| rt_current_step := step |>))); [|by intros ? ? _ _ [_ Hsp]].
  apply (keeps_try free); [by apply keeps_free, begin_pass_quiet|]. intros report s2 Hok2 [[Hreg _] _]. cbn in Hreg.
  apply (keeps_get free). apply claim_for_runners_free; [done| |by rewrite Hreg].
  apply Forall_forall. intros desc. by apply snapshot_nodup.
Qed.
End Pass.
End Core.

(** ** The targets of a cancellation *)

Section Targets.
Context `{SJ : SerdeJson}.
Implicit Types p : TaskPool.

(** The awaits of the parents that have not been visited *)
Definition unvisited (visited : gset string) (l : list (string * list TaskAwait)) : nat :=
  sum_list (length <$> (filter (λ e, e.1 ∉ visited) l).*2).

Lemma unvisited_fresh visited id l : id ∉ l.*1 → unvisited ({[ id ]} ∪ visited) l = unvisited visited l.
Proof.
  intros Hid. unfold unvisited. do 3 f_equal. induction l as [|e l IH]; [done|].
  cbn in Hid. apply not_elem_of_cons in Hid as [Hne Hid]. rewrite !filter_cons, (IH Hid).
  destruct (decide (e.1 ∉ visited)), (decide (e.1 ∉ {[ id ]} ∪ visited)); set_solver.
Qed.

Lemma unvisited_visit visited id awaits l :
  NoDup l.*1 → (id, awaits) ∈ l → id ∉ visited →
  unvisited visited l = length awaits + unvisited ({[ id ]} ∪ visited) l.
Proof.
  induction l as [|[k a] l IH]; intros Hnd Hin Hv; [by apply elem_of_nil in Hin|].
  cbn in Hnd. apply NoDup_cons in Hnd as [Hk Hnd]. unfold unvisited in *. rewrite !filter_cons. cbn [fst].
  apply elem_of_cons in Hin as [[= <- <-]|Hin].
  - rewrite decide_True by done. rewrite decide_False by set_solver.
    pose proof (unvisited_fresh visited id l Hk) as Hf. unfold unvisited in Hf. cbn. by rewrite Hf.
  - assert (k ≠ id) as Hne by (intros ->; apply Hk, list_elem_of_fmap; by exists (id, awaits)).
    specialize (IH Hnd Hin Hv). destruct (decide (k ∉ visited)).
    + rewrite decide_True by set_solver. cbn. lia.
    + by rewrite decide_False by set_solver.
Qed.

Lemma unvisited_all l : unvisited ∅ l ≤ sum_list (length <$> (snd <$> l)).
Proof. unfold unvisited. induction l as [|e l IH]; [done|]. rewrite filter_cons. case_decide; cbn; lia. Qed.

Lemma cancellation_loop_total fuel p pending visited targets :
  length pending + unvisited visited (map_to_list (p_waits_by_parent p)) < fuel →
  is_Some (cancellation_loop fuel p pending visited targets).
Proof.
  revert pending visited targets. induction fuel as [|fuel IH]; intros pending visited targets Hf; [lia|].
  cbn [cancellation_loop]. destruct (last pending) as [id|] eqn:Hl; [|by eexists].
  assert (length (take (length pending - 1) pending) + 1 = length pending) as Hlen.
  { destruct pending; [done|]. rewrite length_take. cbn. lia. }
  case_decide as Hv; [apply IH; lia|]. apply IH. rewrite length_app.
  assert (length (cascade_children p id) ≤ length (awaits_for_parent p id)) as Hc.
  { unfold cascade_children. rewrite length_fmap. apply length_filter. }
  unfold awaits_for_parent, or_default in Hc. destruct (p_waits_by_parent p !! id) as [awaits|] eqn:Hw; cbn in Hc.
  - rewrite (unvisited_visit visited id awaits) in Hf; [lia|apply NoDup_fst_map_to_list|by apply elem_of_map_to_list|done].
  - rewrite unvisited_fresh; [lia|]. rewrite list_elem_of_fmap. intros ([k a] & -> & Hin%elem_of_map_to_list).
    cbn in Hw. congruence.
Qed.

Lemma cancellation_targets_total `{RA : !RunnerApi} `{ST : !SerdeTypes} (s : CoreRuntime) handle :
  is_Some (task_cancellation_targets s handle).
Proof.
  unfold task_cancellation_targets. apply fmap_is_Some, cancellation_loop_total. unfold cancellation_fuel.
  pose proof (unvisited_all (map_to_list (p_waits_by_parent (rt_tasks s)))). cbn [length]. lia.
Qed.
End Targets.

(** ** Calls of the core that return *)

Section Calls.
Context `{RA : RunnerApi} `{ST : !SerdeTypes}.
Implicit Types s : CoreRuntime.

Record core_sound (n : N) s : Prop := MkCoreSound {
  cs_ok : rt_ok s;
  cs_ids : ids_left s;
  cs_kernel : Forall kernel_inline (reg_descriptor_snapshot (rt_registry s));
  cs_room : room n s
}.

(** The call returns and draws at most [n]. *)
Definition core_ends (n : N) {A} (c : M CoreRuntime A) : Prop :=
  ∀ m s, core_sound (n + m) s → ∃ a s', c s = Some (a, s') ∧ core_sound m s'.

Lemma core_ends_of n {A} (c : M CoreRuntime A) :
  (∀ s, core_sound n s → keeps (spends n) c s) → (∀ s, core_sound n s → leaves stored c s) → core_ends n c.
Proof.
  intros Hc Hl m s [Hok Hids Hk Hroom].
  assert (core_sound n s) as Hs by (split; try done; eapply room_mono; [|exact Hroom]; lia).
  destruct (Hc s Hs) as (a & s' & Hrun & Hok' & _ & Hsp). exists a, s'. split; [done|].
  specialize (Hl s Hs _ _ Hrun). injection Hl as _ Hreg Hid. split; [done| | |by eapply room_after].
  - unfold ids_left. by rewrite Hid.
  - by rewrite Hreg.
Qed.

Lemma costs_spends n R {A} (c : M CoreRuntime A) s : costs n R c s → room n s → keeps (spends n) c s.
Proof. intros Hc Hroom. eapply safely_mono; [by apply Hc|]. by intros a s' _ _ [_ ?]. Qed.

Lemma cancel_ends id : core_ends 0 (cancel_task_by_id id).
Proof. apply core_ends_of; intros s []; [by apply quiet_draws_nothing, cancel_task_by_id_quiet|apply kept_cancel]. Qed.
Lemma cancel_runner_ends runner_id invocation_id : core_ends 0 (cancel_runner_invocation runner_id invocation_id).
Proof.
  apply core_ends_of; intros s []; [|apply kept_cancel_runner]. apply tables_draw_nothing; [|apply cancel_runner_tables].
  by apply (registry_keeps_any (cancel_runner runner_id invocation_id)); [|apply cancel_runner_ok, ok_registry].
Qed.
Lemma abort_ends reason : core_ends 0 (abort reason).
Proof. apply core_ends_of; intros s []; [by apply abort_draws_nothing|apply kept_abort]. Qed.
Lemma begin_drain_ends : core_ends 0 begin_drain.
Proof. apply core_ends_of; intros s []; [|apply kept_drain]. by apply tables_draw_nothing; [apply begin_drain_any|apply begin_drain_tables]. Qed.
Lemma defer_ends dispatch : core_ends 0 (defer_runner_dispatch dispatch).
Proof.
  apply core_ends_of; intros s []; [|apply kept_defer]. eapply safely_mono; [by apply defer_runner_dispatch_free|].
  by intros a s' _ _ [_ ?].
Qed.
Lemma register_ends descriptor : core_ends 0 (rt_register_resource_descriptor descriptor).
Proof.
  apply core_ends_of; intros s []; [|apply kept_register]. apply tables_draw_nothing; [|apply guarded_tables].
  by apply guarded_any; [|apply (resources_any _ (OpRegister descriptor))].
Qed.
Lemma sync_all_ends receipts : core_ends 0 (sync_plan_receipts receipts).
Proof.
  apply core_ends_of; intros s []; [|apply kept_sync_all]. by apply tables_draw_nothing; [apply sync_plan_receipts_any|apply sync_receipts_tables].
Qed.
Lemma sync_ends receipt : core_ends 0 (rt_sync_plan_receipt receipt).
Proof.
  apply core_ends_of; intros s []; [|apply kept_sync]. apply tables_draw_nothing; [|apply guarded_tables].
  by apply guarded_any; [|apply (resources_any _ (OpSyncReceipt receipt))].
Qed.
Lemma submit_ends task : serializes task → core_ends 1 (submit_task task).
Proof. intros Ht. apply core_ends_of; intros s []; [by eapply costs_spends; [apply submit_task_framed|]|apply kept_submit]. Qed.
Lemma submit_batch_ends batch : Forall serializes (tb_tasks batch) → core_ends (len (tb_tasks batch)) (submit_batch batch).
Proof. intros Ht. apply core_ends_of; intros s []; [by eapply costs_spends; [apply submit_batch_framed|]|apply kept_submit_batch]. Qed.

(** The tasks a completion hands in have a JSON form. *)
Definition completion_ok (c : RunnerCompletion) : Prop := ∀ result, rcp_result c = Ok result → completion_serializes result.

Lemma complete_ends c : completion_ok c → core_ends (handed_in c) (complete_runner_dispatch c).
Proof. intros Hc. apply core_ends_of; intros s []; [by eapply costs_spends; [apply complete_runner_dispatch_frame|]|apply kept_complete]. Qed.

Lemma claim_ends {D} (schedule : RunnerDescriptor → RunnerLoad → N → N → D → option (RuntimeResult ScheduleDecision * D)) step d :
  withholds_control schedule → schedule_fits schedule → core_ends 0 (claim_ready_dispatches_at_step schedule step d None).
Proof. intros Hw Hf. apply core_ends_of; intros s []; [by apply pass_draws_nothing|by apply kept_pass]. Qed.
End Calls.

(** ** Handlers that return *)

Section Mail.
Context `{RC : RunnerControl} `{ST : !SerdeTypes} `{HW : !HostWorld}.
Implicit Types h : HostState.

(** What a message makes the core draw *)
Definition msg_cost (msg : CoreActorMsg) : N :=
  match msg with
  | MsgCommand (CmdSubmitTask _) _ => 1
  | MsgCommand (CmdSubmitBatch batch) _ => len (tb_tasks batch)
  | MsgWorkerCompleted completion => handed_in completion
  | MsgAsyncEvent (AsyncCompleted _ (Ok result)) => completion_cost result
  | _ => 0
  end.

(** The tasks a message brings have a JSON form, and it asks for no reload. *)
Definition msg_ok (msg : CoreActorMsg) : Prop :=
  match msg with
  | MsgCommand (CmdSubmitTask task) _ => serializes task
  | MsgCommand (CmdSubmitBatch batch) _ => Forall serializes (tb_tasks batch)
  | MsgCommand (CmdReload _ _) _ => False
  | MsgWorkerCompleted completion => completion_ok completion
  | MsgAsyncEvent (AsyncCompleted _ (Ok result)) => completion_serializes result
  | _ => True
  end.

Definition mail_cost (inbox : list (option CoreActorMsg)) : N := total msg_cost (omap id inbox).

Record sound (n : N) h : Prop := MkSound {
  so_core : core_sound (n + mail_cost (hs_inbox h)) (hs_core h);
  so_mail : Forall msg_ok (omap id (hs_inbox h))
}.

(** The computation returns and draws at most [n] beyond what the messages it
    takes bring. *)
Definition ends (n : N) {A} (c : M HostState A) h : Prop :=
  ∀ m, sound (n + m) h → ∃ a h', c h = Some (a, h') ∧ sound m h' ∧ length (hs_inbox h') ≤ length (hs_inbox h).

Lemma ends_ret {A} (a : A) h : ends 0 (ret a) h.
Proof. intros m Hs. by exists a, h. Qed.
Lemma ends_get n {A} (k : HostState → M HostState A) h : ends n (k h) h → ends n (bind get k) h.
Proof. done. Qed.

Lemma ends_bind_run n k {A B} (c : M HostState A) (f : A → M HostState B) h :
  ends n c h → (∀ a h', c h = Some (a, h') → length (hs_inbox h') ≤ length (hs_inbox h) → ends k (f a) h') →
  ends (n + k) (bind c f) h.
Proof.
  intros Hc Hk m Hs. rewrite <-N.add_assoc in Hs. destruct (Hc _ Hs) as (a & h1 & Hrun & Hs1 & Hl1).
  destruct (Hk _ _ Hrun Hl1 _ Hs1) as (b & h2 & Hrun2 & Hs2 & Hl2). exists b, h2. unfold bind. rewrite Hrun.
  split_and!; [done|done|lia].
Qed.

Lemma ends_bind n {A B} (c : M HostState A) (f : A → M HostState B) h :
  ends 0 c h → (∀ a h', length (hs_inbox h') ≤ length (hs_inbox h) → ends n (f a) h') → ends n (bind c f) h.
Proof. intros Hc Hk. apply (ends_bind_run 0 n); auto. Qed.

Lemma ends_then n {A B} (c : M HostState A) (f : A → M HostState B) h :
  ends n c h → (∀ a h', length (hs_inbox h') ≤ length (hs_inbox h) → ends 0 (f a) h') → ends n (bind c f) h.
Proof. intros Hc Hk. rewrite <-(N.add_0_r n). apply ends_bind_run; auto. Qed.

Lemma ends_try n {E A B} (c : M HostState (Result E A)) (f : A → M HostState (Result E B)) h :
  ends n c h → (∀ a h', length (hs_inbox h') ≤ length (hs_inbox h) → ends 0 (f a) h') → ends n (try_bind c f) h.
Proof. intros Hc Hk. apply ends_then; [done|]. intros [a|e] h' Hl; [by apply Hk|apply ends_ret]. Qed.

Lemma ends_modify f h : hs_inbox (f h) = hs_inbox h → hs_core (f h) = hs_core h → ends 0 (modify f) h.
Proof. intros Hi Hc m [Hs Hm]. exists tt, (f h). rewrite Hi. split_and!; [done| |done]. split; by rewrite ?Hi, ?Hc. Qed.

Lemma ends_world {A} (c : World → A * World) h : ends 0 (on_world c) h.
Proof.
  intros m [Hs Hm]. unfold on_world. destruct (c (hs_world h)) as [a w] eqn:Hc. by exists a, (h <| hs_world := w |>).
Qed.

Lemma ends_core n {A} (c : M CoreRuntime A) h : core_ends n c → ends n (on_core c) h.
Proof.
  intros Hc m [Hs Hm]. rewrite <-N.add_assoc in Hs. destruct (Hc _ _ Hs) as (a & s' & Hrun & Hs').
  exists a, (h <| hs_core := s' |>). unfold on_core. by rewrite Hrun.
Qed.

Lemma ends_expect {A} (o : option A) h : is_Some o → ends 0 (expect o) h.
Proof. intros [a ->]. apply ends_ret. Qed.

Lemma ends_for_each {A} (l : list A) (body : A → M HostState unit) h :
  (∀ x h', ends 0 (body x) h') → ends 0 (for_each l body) h.
Proof.
  intros Hb. revert h. induction l as [|x l IH]; intros h; cbn [for_each]; [apply ends_ret|]. by apply ends_bind.
Qed.

Lemma ends_send r answer h : ends 0 (send_answer r answer) h.
Proof. by apply ends_modify. Qed.

Lemma ends_ignore n {A} (c : M HostState A) h : ends n c h → ends n (ignore c) h.
Proof. intros. apply ends_then; [done|]. intros. apply ends_ret. Qed.

Lemma ends_recv {A} (k : Received → M HostState A) h :
  ends 0 (k Received_disconnected) h →
  (∀ inbox, hs_inbox h = None :: inbox → ends 0 (k Received_timeout) (h <| hs_inbox := inbox |>)) →
  (∀ msg inbox, hs_inbox h = Some msg :: inbox → msg_ok msg → ends (msg_cost msg) (k (Received_msg msg)) (h <| hs_inbox := inbox |>)) →
  ends 0 (bind recv_timeout k) h.
Proof.
  intros Hd Ht Hm m Hs. unfold bind, recv_timeout. destruct (hs_inbox h) as [|[msg|] inbox] eqn:Hin.
  - destruct (Hd m Hs) as (a & h' & ? & ? & ?). rewrite Hin in *. eauto.
  - destruct Hs as [Hs Hok]. rewrite Hin in Hs, Hok. cbn in Hok. apply Forall_cons in Hok as [Hok Hall].
    destruct (Hm msg inbox eq_refl Hok m) as (a & h' & ? & ? & Hl).
    + split; [|done]. cbn. revert Hs. unfold mail_cost. cbn. rewrite total_cons. intros Hs.
      by replace (msg_cost msg + m + total msg_cost (omap id inbox))%N with (m + (msg_cost msg + total msg_cost (omap id inbox)))%N by lia.
    + exists a, h'. split_and!; [done|done|]. cbn in *. lia.
  - destruct Hs as [Hs Hok]. rewrite Hin in Hs, Hok. destruct (Ht inbox eq_refl m) as (a & h' & ? & ? & Hl); [by split|].
    exists a, h'. split_and!; [done|done|]. cbn in *. lia.
Qed.
End Mail.

Create HintDb returns.
#[export] Hint Resolve ends_world ends_send : returns.
#[export] Hint Extern 1 (ends _ (on_core _) _) => apply ends_core; eauto with returns : returns.
#[export] Hint Resolve cancel_ends cancel_runner_ends abort_ends begin_drain_ends defer_ends register_ends sync_all_ends
  sync_ends : returns.

(** Steps through a handler that takes no message and draws nothing. *)
Ltac ends_go :=
  intros; cbv zeta;
  lazymatch goal with
  | |- ends _ (ret _) _ => apply ends_ret
  | |- ends _ (bind get _) _ => apply ends_get; ends_go
  | |- ends _ (try_bind _ _) _ => apply ends_try; ends_go
  | |- ends _ (bind _ _) _ => apply ends_bind; ends_go
  | |- ends _ (for_each _ _) _ => apply ends_for_each; ends_go
  | |- ends _ (modify _) _ => apply ends_modify; reflexivity
  | |- ends _ (match ?x with _ => _ end) _ => destruct x; ends_go
  | |- ends _ _ _ => solve [eauto with returns]
  end.

Section Handlers.
Context `{RC : RunnerControl} `{ST : !SerdeTypes} `{HW : !HostWorld}.
Variable config : HostRuntimeConfig.
Implicit Types h : HostState.

(** No wall-clock deadline of a runner lies beyond the largest instant. *)
Definition clock_fits : Prop := ∀ (w : World) runner_id deadline,
  lim_wall_clock_deadline (limits_for config runner_id) = Some deadline → ((instant_now w).1 + deadline ≤ instant_max)%N.
Hypothesis Hclock : clock_fits.

(** One allocation holds the ids of as many tasks as a runner may have in
    flight. *)
Definition claims_fit : Prop := ∀ runner_id, allocatable TaskId (lim_max_inflight (limits_for config runner_id)).
Hypothesis Hclaims : claims_fit.

Lemma hard_capacity_le descriptor load limits slots running :
  ((hard_dispatch_capacity descriptor load limits slots running).1 ≤ N.max (lim_max_inflight limits) 1)%N.
Proof.
  unfold hard_dispatch_capacity. destruct (decide _); [destruct (decide _); cbn; lia|]. unfold standard_dispatch_capacity. cbv zeta.
  destruct (_ || _ || _); [cbn; lia|]. destruct (decide _); cbn; [lia|]. unfold saturating_sub. lia.
Qed.

Lemma observed_capacity_fits w descriptor reading :
  let pool := (observed_capacity config w descriptor reading).2 in
  (pcs_running_entries pool + pcs_queued_entries pool ≤ usize_max)%N.
Proof.
  unfold observed_capacity. repeat case_match; cbn; try done.
  - pose proof (async_entries_fit w reading). lia.
  - apply pool_capacity_fits.
Qed.

Lemma host_schedule_fits w running : schedule_fits (host_schedule config w running).
Proof.
  intros descriptor load step generation r. unfold host_schedule.
  destruct (reservation_kind descriptor) as [kind|]; [|by do 2 eexists; split; [done|]; intros ? [= <-]].
  pose proof (observed_capacity_fits w descriptor (rsv_readings r)) as Hfit. cbv zeta.
  destruct (observed_capacity _ _ _ _) as [slots pool]. cbn in Hfit. unfold decide_schedule.
  pose proof (hard_capacity_le descriptor load (limits_for config (d_runner_id descriptor))
    (saturating_sub slots (reserved kind (MkReservations (rsv_compute r) (rsv_blocking r) (rsv_async r) (S (rsv_readings r)))))
    (running_batch_count_for_runner running (d_runner_id descriptor))) as Hhard.
  destruct (hard_dispatch_capacity _ _ _ _ _) as [hard batches]. cbn in Hhard. unfold host_capacity. cbn.
  rewrite decide_True by done. destruct (cfg_scheduler_policy config _) as [d|e]; cbn; do 2 eexists; (split; [done|]); [|done].
  intros decision [= <-]. destruct (clamp_batches_bounds d hard batches) as (Hl & _). cbn in Hl |- *.
  apply (allocatable_le _ _ (N.max (lim_max_inflight (limits_for config (d_runner_id descriptor))) 1)); [lia|].
  destruct (N.max_spec (lim_max_inflight (limits_for config (d_runner_id descriptor))) 1) as [[_ ->]|[_ ->]]; [done|apply Hclaims].
Qed.

Lemma cancel_handle_ends handle : core_ends 0 (cancel_task_handle handle).
Proof. apply cancel_ends. Qed.
Hint Resolve cancel_handle_ends : returns.

Lemma ends_mark_cancel i h : ends 0 (mark_cancel_requested i) h.
Proof. unfold mark_cancel_requested. ends_go. Qed.
Hint Resolve ends_mark_cancel : returns.
Lemma ends_request_cancel i h : ends 0 (request_running_cancel i) h.
Proof. unfold request_running_cancel. ends_go. Qed.
Lemma ends_retry r i h : ends 0 (queue_management_retry r i) h.
Proof. unfold queue_management_retry. ends_go. Qed.
Lemma ends_cancel_async i h : ends 0 (cancel_async_invocation config i) h.
Proof. unfold cancel_async_invocation. ends_go. Qed.
Hint Resolve ends_request_cancel ends_cancel_async : returns.
Lemma ends_cancel_running i h : ends 0 (cancel_running config i) h.
Proof. unfold cancel_running. ends_go. Qed.
Lemma ends_cancel_target t h : ends 0 (cancel_target config t) h.
Proof. unfold cancel_target. ends_go. Qed.
Lemma ends_cancel_if_running i handle h : ends 0 (cancel_if_running i handle) h.
Proof. unfold cancel_if_running. ends_go. Qed.
Lemma ends_expired_tick i h : ends 0 (cancel_expired_tick config i) h.
Proof. unfold cancel_expired_tick. ends_go. Qed.
Hint Resolve ends_cancel_if_running ends_expired_tick : returns.
Lemma ends_isolate i h : ends 0 (isolate_invocation config i) h.
Proof. unfold isolate_invocation. ends_go. Qed.
Hint Resolve ends_isolate : returns.
Lemma ends_supervise h : ends 0 (supervise_running_invocations config) h.
Proof. unfold supervise_running_invocations, cancel_expired_tick_deadlines. ends_go. Qed.
Lemma ends_publish h : ends 0 publish_terminal_changes h.
Proof. unfold publish_terminal_changes. ends_go. Qed.
Lemma ends_refresh t s i h : ends 0 (refresh_scheduled_tick t s i) h.
Proof. unfold refresh_scheduled_tick. ends_go. Qed.
Lemma ends_started started h : ends 0 (mark_worker_started started) h.
Proof. unfold mark_worker_started. ends_go. Qed.
Lemma ends_replace exited h : ends 0 (replace_exited exited) h.
Proof. unfold replace_exited. ends_go. Qed.

(** ** Scheduling *)

(** A completion that carries an error hands nothing in. *)
Lemma fail_ends c e : rcp_result c = Err e → core_ends 0 (complete_runner_dispatch c).
Proof.
  intros He. assert (handed_in c = 0%N) as <- by (unfold handed_in; by rewrite He). apply complete_ends. intros result. by rewrite He.
Qed.
Hint Resolve fail_ends : returns.

Lemma ends_reject runner d failure h : ends 0 (reject_dispatch runner d failure) h.
Proof. unfold reject_dispatch. apply ends_try; [by eapply ends_core, fail_ends|ends_go]. Qed.
Lemma ends_record f tasks h : ends 0 (record_running f tasks) h.
Proof. unfold record_running. ends_go. Qed.
Hint Resolve ends_reject ends_record : returns.

Lemma ends_hand_over d h : ends 0 (hand_over config d) h.
Proof.
  unfold hand_over. cbv zeta. apply ends_bind.
  - destruct (lim_wall_clock_deadline _) as [deadline|] eqn:Hd; [|apply ends_ret].
    apply (ends_bind_run 0 0); [apply ends_world|]. intros now h' Hrun _. apply ends_bind; [|ends_go]. apply ends_expect.
    unfold on_world in Hrun. destruct (instant_now (hs_world h)) as [t w] eqn:Ht. injection Hrun as <- _.
    unfold checked_instant_add. rewrite decide_True; [by eexists|].
    specialize (Hclock (hs_world h) _ _ Hd). by rewrite Ht in Hclock.
  - intros. unfold dispatch_async, dispatch_sync. ends_go.
Qed.
Hint Resolve ends_hand_over : returns.

Lemma ends_hand_over_all ds n m h : ends 0 (hand_over_all config ds n m) h.
Proof. revert n m h. induction ds; intros; cbn [hand_over_all]; ends_go. Qed.
Hint Resolve ends_hand_over_all : returns.

Lemma host_claim_ends w running step r :
  core_ends 0 (claim_ready_dispatches_at_step (host_schedule config w running) step r None).
Proof. apply claim_ends; [apply host_schedule_withholds|apply host_schedule_fits]. Qed.
Hint Resolve host_claim_ends : returns.

Lemma ends_schedule_at step h : ends 0 (schedule_ready_at config step) h.
Proof. unfold schedule_ready_at. ends_go. Qed.
Hint Resolve ends_schedule_at : returns.
Lemma ends_schedule h : ends 0 (schedule_ready config) h.
Proof. unfold schedule_ready. ends_go. Qed.
Hint Resolve ends_schedule : returns.
Lemma ends_schedule_if {A} (a : A) h : ends 0 (schedule_if_driven config a) h.
Proof. unfold schedule_if_driven. ends_go. Qed.
Lemma ends_async_reply reply h : ends 0 (sync_async_resource_reply reply) h.
Proof. unfold sync_async_resource_reply. ends_go. Qed.
Lemma ends_async_command command r h : ends 0 (start_async_resource_command config command r) h.
Proof. unfold start_async_resource_command. ends_go. Qed.
Lemma ends_status id r h : ends 0 (answer_task_status id r) h.
Proof. unfold answer_task_status. ends_go. Qed.
Lemma ends_reply outcome r h : ends 0 (send_command_reply outcome r) h.
Proof. unfold send_command_reply. ends_go. Qed.
End Handlers.
#[export] Hint Resolve ends_request_cancel ends_retry ends_cancel_running ends_cancel_target ends_supervise ends_publish
  ends_refresh ends_started ends_replace ends_schedule_at ends_schedule ends_schedule_if ends_async_reply ends_async_command
  ends_status ends_reply : returns.

(** ** Messages *)

Section Messages.
Context `{RC : RunnerControl} `{ST : !SerdeTypes} `{HW : !HostWorld}.
Variable config : HostRuntimeConfig.
Hypothesis Hclock : clock_fits config.
Hypothesis Hclaims : claims_fit config.
Implicit Types h : HostState.

(** What a handler does not draw is left. *)
Lemma ends_free n {A} (c : M HostState A) h : ends 0 c h → ends n c h.
Proof.
  intros Hc m [[Hok Hids Hk Hroom] Hm]. apply (Hc m). split; [|done]. split; try done.
  eapply room_mono; [|exact Hroom]. lia.
Qed.

Lemma ends_pending_cancels c h : ends 0 (apply_pending_cancels c) h.
Proof. unfold apply_pending_cancels. ends_go. Qed.
Lemma ends_remove_entries c h : ends 0 (remove_running_batch_entries c) h.
Proof. unfold remove_running_batch_entries. ends_go. Qed.
Hint Resolve ends_pending_cancels ends_remove_entries : returns.

Lemma ends_completion c h : completion_ok c → ends (handed_in c) (handle_worker_completion c) h.
Proof.
  intros Hc. unfold handle_worker_completion. cbv zeta. apply ends_get. destruct (hs_draining h !! _) as [draining|].
  - apply ends_bind; [ends_go|]. intros _ h1 _. destruct (di_recover_after_termination draining).
    + apply ends_free. destruct (rcp_runner c) as [runner|]; [|ends_go]. destruct (recover_after_hard_termination runner) as [[] runner'].
      * by eapply ends_core, fail_ends.
      * ends_go.
    + destruct (rcp_runner c); [apply ends_free; ends_go|]. apply ends_bind; [ends_go|]. intros. by apply ends_core, complete_ends.
  - apply (ends_bind_run 0 (handed_in c)); [ends_go|]. intros c' h1 Hc' _. apply pending_cancels_same in Hc' as [Hc' _].
    assert (handed_in c' = handed_in c) as <- by (unfold handed_in; by rewrite Hc').
    apply ends_bind; [ends_go|]. intros. apply ends_core, complete_ends. unfold completion_ok. by rewrite Hc'.
Qed.

Lemma ends_event event h : msg_ok (MsgAsyncEvent event) → ends (msg_cost (MsgAsyncEvent event)) (handle_async_event event) h.
Proof.
  intros Hok. destruct event as [inv|inv result|inv|inv|inv r result|inv r|inv r]; cbn [handle_async_event msg_cost].
  - ends_go.
  - destruct result as [result|e]; cbn in Hok.
    + apply (ends_completion (async_completion inv (Ok result))). by intros ? [= <-].
    + apply (ends_completion (async_completion inv (Err e))). by intros ?.
  - by apply (ends_completion (async_completion inv (Err _))).
  - by apply (ends_completion (async_completion inv (Err _))).
  - apply ends_bind; [destruct result; ends_go|ends_go].
  - ends_go.
  - ends_go.
Qed.

Lemma ends_resource command h :
  match command with
  | CmdCreateBlobResource _ _ _ | CmdCreateCowStateResource _ _ _ _ | CmdCreateCapabilityResource _ _ _
  | CmdCollectReadPlan _ | CmdSnapshotReadPlan _ _ _ | CmdOpenStreamPlan _ | CmdExecuteExportPlan _
  | CmdCommitWritePlan _ _ | CmdExecuteCommandPlan _ | CmdExecuteCommandBatch _ | CmdExecuteSagaPlan _ => True
  | _ => False
  end → ends 0 (handle_resource_command config command) h.
Proof.
  intros Hc. destruct command; try done; cbn [handle_resource_command]; unfold register_created, synced_receipt, synced_receipts; ends_go.
Qed.

Section Drain.
Variable fuel : nat.
Variable handle : HostRuntimeCommand → M HostState (RuntimeResult (HostRuntimeReply * bool)).
Hypothesis Hhandle : ∀ command r h, msg_ok (MsgCommand command r) → length (hs_inbox h) < fuel →
  ends (msg_cost (MsgCommand command r)) (handle command) h.

Lemma ends_drain n aggregate h : length (hs_inbox h) ≤ fuel → ends 0 (drain_worker_completions config handle n aggregate) h.
Proof.
  revert aggregate h. induction n as [|n IH]; intros aggregate h Hl; cbn [drain_worker_completions]; [apply ends_ret|].
  apply ends_bind; [ends_go|]. intros _ h1 Hl1. apply ends_recv; [apply ends_ret|intros; apply ends_ret|].
  intros msg inbox Hin Hok. rewrite Hin in Hl1. cbn in Hl1.
  assert (∀ aggregate h', length (hs_inbox h') ≤ length inbox → ends 0 (drain_worker_completions config handle n aggregate) h') as IH'
    by (intros; apply IH; lia).
  destruct msg as [command r|task_id r|started|completion|event|command r|exited|runner_id invocation_id|].
  - apply ends_then; [apply (Hhandle command r); [done|cbn; lia]|]. intros outcome h2 Hl2. cbn in Hl2.
    apply ends_bind; [ends_go|]. intros [] h3 Hl3; [apply ends_ret|apply IH'; lia].
  - apply ends_bind; [ends_go|]. intros. by apply IH'.
  - apply ends_bind; [ends_go|]. intros. by apply IH'.
  - apply ends_then; [by apply ends_completion|]. intros report h2 Hl2. apply ends_bind; [ends_go|]. intros. apply IH'. cbn in *. lia.
  - apply ends_then; [by apply ends_event|]. intros report h2 Hl2. apply ends_bind; [ends_go|]. intros. apply IH'. cbn in *. lia.
  - apply ends_bind; [ends_go|]. intros. by apply IH'.
  - apply ends_bind; [apply ends_ignore; ends_go|]. intros. by apply IH'.
  - apply ends_bind; [ends_go|]. intros. by apply IH'.
  - apply ends_ret.
Qed.

Lemma ends_idle n aggregate shutdown h :
  length (hs_inbox h) ≤ fuel → ends 0 (run_idle_ticks config handle n aggregate shutdown) h.
Proof.
  revert aggregate shutdown h. induction n as [|n IH]; intros aggregate shutdown h Hl; cbn [run_idle_ticks]; [apply ends_ret|].
  apply ends_try; [ends_go|]. intros report h1 Hl1. apply ends_bind; [apply ends_drain; lia|].
  intros [aggregate' shutdown'] h2 Hl2. apply ends_get. cbv zeta. case_match; [apply ends_ret|apply IH; lia].
Qed.
End Drain.

Lemma ends_query {A} (f : HostState → RuntimeResult A) g h : ends 0 (reply g (query f)) h.
Proof. unfold reply, query. ends_go. Qed.

Lemma ends_command fuel command r h :
  msg_ok (MsgCommand command r) → length (hs_inbox h) < fuel →
  ends (msg_cost (MsgCommand command r)) (handle_command config fuel command) h.
Proof.
  revert command r h. induction fuel as [|fuel IH]; intros command r h Hok Hl; [lia|]. cbn [handle_command].
  destruct command; cbn [msg_cost]; try apply ends_query;
    try (apply ends_try; [by apply ends_resource|intros; apply ends_ret]).
  - apply ends_try; [|ends_go]. apply ends_try; [by apply ends_core, submit_ends|ends_go].
  - apply ends_try; [|ends_go]. apply ends_try; [by apply ends_core, submit_batch_ends|ends_go].
  - apply ends_try; [ends_go|]. intros report h1 Hl1. apply ends_bind; [apply (ends_drain fuel); [done|lia]|]. intros []. ends_go.
  - apply ends_try; [apply (ends_idle fuel); [done|lia]|]. intros []. ends_go.
  - apply ends_get, ends_bind; [apply ends_expect, cancellation_targets_total|]. intros.
    apply ends_try; [apply ends_core, cancel_handle_ends|ends_go].
  - unfold reply. ends_go.
  - apply ends_get, ends_bind; [ends_go|]. intros. unfold reply. ends_go.
  - done.
Qed.

Lemma ends_message msg h : msg_ok msg → ends (msg_cost msg) (handle_message config msg) h.
Proof.
  intros Hok. destruct msg as [command r|task_id r|started|completion|event|command r|exited|runner_id invocation_id|]; cbn [handle_message].
  - apply ends_get, ends_then; [apply (ends_command _ command r); [done|lia]|ends_go].
  - ends_go.
  - ends_go.
  - apply ends_then; [by apply ends_ignore, ends_completion|]. intros. apply ends_bind; [apply ends_ignore; ends_go|ends_go].
  - apply ends_then; [by apply ends_ignore, ends_event|]. intros. apply ends_bind; [apply ends_ignore; ends_go|ends_go].
  - ends_go.
  - apply ends_bind; [apply ends_ignore; ends_go|ends_go].
  - ends_go.
  - apply ends_bind; [ends_go|]. intros. apply ends_bind; [apply ends_ignore; ends_go|ends_go].
Qed.
End Messages.

(** ** The loop *)

Section Loop.
Context `{RC : RunnerControl} `{ST : !SerdeTypes} `{HW : !HostWorld}.
Variable config : HostRuntimeConfig.
Hypothesis Hclock : clock_fits config.
Hypothesis Hclaims : claims_fit config.
Implicit Types h : HostState.

Lemma skip_timeouts_messages (l : list (option CoreActorMsg)) :
  omap id (skip_timeouts l) = omap id l ∧ length (skip_timeouts l) ≤ length l.
Proof. induction l as [|[msg|] l [IH Hl]]; [done|done|]. cbn. split; [done|lia]. Qed.

(** Before a wait without a deadline, time-outs that lie before the message are
    passed over. *)
Lemma ends_await h k :
  (∀ h', length (hs_inbox h') ≤ length (hs_inbox h) → ends 0 (bind recv_timeout k) h') →
  ends 0 (bind (await_message config) k : M HostState bool) h.
Proof.
  intros Hk m Hs.
  destruct (ends_refresh (next_required_tick (hs_core h) (hs_running h)) (rt_current_step (hs_core h))
              (cfg_tick_interval config) h m Hs) as ([] & h1 & Hrun & Hs1 & Hl1).
  assert (bind (await_message config) k h =
    bind (match next_wake_deadline config h1 with Some _ => on_world instant_now ;;! recv_timeout | None => recv end) k h1) as ->.
  { unfold bind at 1 2. unfold await_message. unfold bind at 1 2. unfold get at 1. rewrite Hrun. done. }
  destruct (next_wake_deadline config h1).
  - destruct (ends_world instant_now h1 m Hs1) as (now & h2 & Hn & Hs2 & Hl2).
    destruct (Hk h2 ltac:(lia) m Hs2) as (a & h' & Hrun' & ? & ?). exists a, h'. split_and!; [|done|lia].
    unfold bind in Hrun' |- *. rewrite Hn. exact Hrun'.
  - destruct (skip_timeouts_messages (hs_inbox h1)) as [Hm Hle]. set (h2 := h1 <| hs_inbox ::= skip_timeouts |>).
    assert (sound m h2) as Hs2.
    { destruct Hs1 as [? ?]. split; cbn; unfold mail_cost in *; by rewrite Hm. }
    destruct (Hk h2 ltac:(cbn; lia) m Hs2) as (a & h' & Hrun' & ? & Hl'). exists a, h'. split_and!; [|done|cbn in Hl'; lia].
    unfold recv. unfold bind in Hrun' |- *. exact Hrun'.
Qed.

Lemma ends_timeout h : ends 0 (handle_timeout config) h.
Proof. unfold handle_timeout. ends_go. Qed.

Lemma ends_round h : ends 0 (actor_round config) h.
Proof.
  unfold actor_round. apply ends_await. intros h1 _. apply ends_recv; [apply ends_ret|intros; apply ends_timeout|].
  intros msg inbox Hin Hok. apply ends_bind; [ends_go|]. intros _ h2 _.
  apply ends_then; [by apply ends_message|ends_go].
Qed.

Lemma ends_loop fuel h : length (hs_inbox h) < fuel → ends 0 (core_actor_loop config fuel) h.
Proof.
  revert h. induction fuel as [|fuel IH]; intros h Hl; [lia|]. cbn [core_actor_loop].
  apply (ends_bind_run 0 0); [apply ends_round|]. intros [] h' Hrun _; [apply ends_ret|].
  apply round_takes in Hrun. apply IH. lia.
Qed.

Lemma actor_reaches_end core inbox w :
  rt_ok core → ids_left core →
  Forall kernel_inline (reg_descriptor_snapshot (rt_registry core)) →
  Forall msg_ok (omap id inbox) → room (mail_cost inbox) core →
  ∃ h, run_actor config core inbox w = Some h ∧ rt_ok (hs_core h) ∧ room (mail_cost (hs_inbox h)) (hs_core h) ∧ ids_left (hs_core h).
Proof.
  intros Hcore Hids Hk Hmail Hroom. unfold run_actor.
  destruct (ends_loop (S (length inbox)) (host_state_new core inbox w) ltac:(cbn; lia) 0%N) as ([] & h & -> & [[] _] & _).
  - split; [|done]. by split.
  - by exists h.
Qed.

(** The actor runs to its end.  When the counters of the core have
    room for the tasks and results the messages of the mailbox bring, these
    have a JSON form, no reload is asked for, the kernel's own runner has the
    control class, no wall-clock deadline lies beyond the largest instant and
    one allocation holds the ids of as many tasks as a runner may have in flight,
    then the actor never panics, whatever pools, executor, clock and providers
    answer, and leaves a core with everything an operation of the core needs. *)
Theorem actor_returns core inbox w :
  rt_reachable core → ids_left core →
  Forall kernel_inline (reg_descriptor_snapshot (rt_registry core)) →
  Forall msg_ok (omap id inbox) → room (mail_cost inbox) core →
  ∃ h, run_actor config core inbox w = Some h ∧ rt_ok (hs_core h) ∧ room (mail_cost (hs_inbox h)) (hs_core h) ∧ ids_left (hs_core h).
Proof. intros ?%rt_reachable_ok. by apply actor_reaches_end. Qed.
End Loop.
