(* ===== verification/HostPool.v ===== *)
(** * Worker pools

    crates/mutsuki-runtime-host/src/worker.rs.  A pool is a bounded queue, the
    threads that take dispatches from it, and a handful of atomic counters both
    sides update.  The actor's thread and the workers run concurrently: every
    access to shared memory and to a channel is one step, a thread is the point
    it has reached, and the steps of the threads interleave in any order.

    An [AtomicUsize] wraps around.  A worker's index in the list is the number
    in its id.  Three histories are kept for the theorems only: the dispatches
    that entered the queue, those that were executed and those a worker gave up
    because the actor was gone.  Both pools of the host
    have execution classes; the first one is what an exiting worker reports.

    Below, what holds under every interleaving. *)

From stdpp Require Import relations.
From S2P Require Import Prelude Contracts RunnerContracts BatchContracts PluginContracts Logs StateStore ResourceManager TaskRecords TaskIndexes TaskPool TaskClaiming Registry RuntimeState RuntimeTasks RuntimeRouting RuntimeDispatch RuntimeRuns HostErrors HostScheduler HostCommands.

(** ** Atomic counters *)

Definition usize_modulus : N := usize_max + 1.
Definition fetch_add (counter n : N) : N := ((counter + n) mod usize_modulus)%N.
Definition fetch_sub (counter n : N) : N := ((counter + (usize_modulus - n mod usize_modulus)) mod usize_modulus)%N.

Section Pool.
Context `{RC : RunnerControl}.
(** [serde_json::to_vec(&payload)], as the number of its bytes or the text of
    its error *)
Variable payload_json_len : BatchPayload → Result string N.
(** [runner.run_batch(ctx, batch)] with its panic, [None], caught *)
Variable run_batch_caught : RunnerContext → WorkBatch → Runner → option (RuntimeResult CompletionBatch) * Runner.

Record QueuedDispatch : Type := MkQueuedDispatch {
  qd_dispatch : RunnerDispatch;
  qd_entry_count : N;
  qd_payload_bytes : N
}.

Record WorkerPool : Type := MkWorkerPool {
  wp_pool_id : string;
  wp_execution_classes : list ExecutionClass;
  wp_queue_capacity : N;
  wp_max_inflight_bytes : N;
  wp_max_isolated_threads : N;
  wp_configured_threads : N
}.

(** ** The points of the threads *)

(** A worker in [worker_loop]: what it does next.  [None] for the completion
    means that the actor is gone and the loop is left after the counters. *)
Inductive WorkerPc : Type :=
  | AtRecv
  | DropQueuedBatch (q : QueuedDispatch)
  | DropQueuedEntries (q : QueuedDispatch)
  | AddRunningBatch (q : QueuedDispatch)
  | AddRunningEntries (q : QueuedDispatch)
  | SendStarted (q : QueuedDispatch)
  | Execute (q : QueuedDispatch)
  | FinishBatch (q : QueuedDispatch) (completion : option RunnerCompletion)
  | FinishEntries (q : QueuedDispatch) (completion : option RunnerCompletion)
  | FinishBytes (q : QueuedDispatch) (completion : option RunnerCompletion)
  | SendCompleted (completion : RunnerCompletion)
  | CheckIsolated
  | Leave (isolated : bool)
  | SendExited
  | Exited.

(** The actor's thread in [send]. *)
Inductive SendPc : Type :=
  | SendIdle
  | SendQueueLen (dispatch : RunnerDispatch)
  | SendReserve (q : QueuedDispatch)
  | SendAddBatch (q : QueuedDispatch)
  | SendAddEntries (q : QueuedDispatch)
  | SendTry (q : QueuedDispatch)
  | SendUndoBatch (q : QueuedDispatch) (detail : string)
  | SendUndoEntries (q : QueuedDispatch) (detail : string)
  | SendUndoBytes (q : QueuedDispatch) (detail : string)
  | SendDone (dispatch : RunnerDispatch) (result : Result WorkerDispatchError unit).

Record WorkerPoolState : Type := MkWorkerPoolState {
  ps_active_threads : N;
  ps_queued_batches : N;
  ps_queued_entries : N;
  ps_running_batches : N;
  ps_running_entries : N;
  ps_inflight_bytes : N;
  ps_isolated_workers : gset string;
  ps_degraded : bool;
  (** the channel, and whether the pool still holds its sending half *)
  ps_queue : list QueuedDispatch;
  ps_open : bool;
  ps_workers : list WorkerPc;
  ps_sender : SendPc;
  (** what the workers have sent to the actor *)
  ps_messages : list CoreActorMsg;
  ps_accepted : list QueuedDispatch;
  ps_executed : list QueuedDispatch;
  ps_dropped : list QueuedDispatch
}.

Definition WorkerPoolState_eta (s : WorkerPoolState) : WorkerPoolState :=
  {| ps_active_threads := ps_active_threads s; ps_queued_batches := ps_queued_batches s;
     ps_queued_entries := ps_queued_entries s; ps_running_batches := ps_running_batches s;
     ps_running_entries := ps_running_entries s; ps_inflight_bytes := ps_inflight_bytes s;
     ps_isolated_workers := ps_isolated_workers s; ps_degraded := ps_degraded s; ps_queue := ps_queue s;
     ps_open := ps_open s; ps_workers := ps_workers s; ps_sender := ps_sender s; ps_messages := ps_messages s;
     ps_accepted := ps_accepted s; ps_executed := ps_executed s; ps_dropped := ps_dropped s |}.

#[export] Instance set_ps_active_threads : Setter ps_active_threads := ltac:(derive_setter WorkerPoolState_eta ps_active_threads).
#[export] Instance set_ps_queued_batches : Setter ps_queued_batches := ltac:(derive_setter WorkerPoolState_eta ps_queued_batches).
#[export] Instance set_ps_queued_entries : Setter ps_queued_entries := ltac:(derive_setter WorkerPoolState_eta ps_queued_entries).
#[export] Instance set_ps_running_batches : Setter ps_running_batches := ltac:(derive_setter WorkerPoolState_eta ps_running_batches).
#[export] Instance set_ps_running_entries : Setter ps_running_entries := ltac:(derive_setter WorkerPoolState_eta ps_running_entries).
#[export] Instance set_ps_inflight_bytes : Setter ps_inflight_bytes := ltac:(derive_setter WorkerPoolState_eta ps_inflight_bytes).
#[export] Instance set_ps_isolated_workers : Setter ps_isolated_workers := ltac:(derive_setter WorkerPoolState_eta ps_isolated_workers).
#[export] Instance set_ps_degraded : Setter ps_degraded := ltac:(derive_setter WorkerPoolState_eta ps_degraded).
#[export] Instance set_ps_queue : Setter ps_queue := ltac:(derive_setter WorkerPoolState_eta ps_queue).
#[export] Instance set_ps_open : Setter ps_open := ltac:(derive_setter WorkerPoolState_eta ps_open).
#[export] Instance set_ps_workers : Setter ps_workers := ltac:(derive_setter WorkerPoolState_eta ps_workers).
#[export] Instance set_ps_sender : Setter ps_sender := ltac:(derive_setter WorkerPoolState_eta ps_sender).
#[export] Instance set_ps_messages : Setter ps_messages := ltac:(derive_setter WorkerPoolState_eta ps_messages).
#[export] Instance set_ps_accepted : Setter ps_accepted := ltac:(derive_setter WorkerPoolState_eta ps_accepted).
#[export] Instance set_ps_executed : Setter ps_executed := ltac:(derive_setter WorkerPoolState_eta ps_executed).
#[export] Instance set_ps_dropped : Setter ps_dropped := ltac:(derive_setter WorkerPoolState_eta ps_dropped).

Definition WorkerPoolState_default : WorkerPoolState :=
  {| ps_active_threads := 0; ps_queued_batches := 0; ps_queued_entries := 0; ps_running_batches := 0;
     ps_running_entries := 0; ps_inflight_bytes := 0; ps_isolated_workers := ∅; ps_degraded := false;
     ps_queue := []; ps_open := true; ps_workers := []; ps_sender := SendIdle; ps_messages := [];
     ps_accepted := []; ps_executed := []; ps_dropped := [] |}.

Definition worker_id_of (pool : WorkerPool) (index : nat) : string :=
  wp_pool_id pool +:+ "-worker-" +:+ pretty (N.of_nat index).

(** ** Threads *)

(** [thread::Builder::spawn] succeeds or fails; a thread that did not start
    keeps its number. *)
Definition spawn_worker (pool : WorkerPool) (started : bool) (s : WorkerPoolState) : RuntimeResult string * WorkerPoolState :=
  let worker_id := worker_id_of pool (length (ps_workers s)) in
  let s := s <| ps_active_threads ::= λ n, fetch_add n 1 |> in
  if started then (Ok worker_id, s <| ps_workers ::= λ l, l ++ [AtRecv] |>)
  else (Err (host_failure "host.worker.spawn" "thread"),
        s <| ps_active_threads ::= λ n, fetch_sub n 1 |> <| ps_workers ::= λ l, l ++ [Exited] |>).

Fixpoint spawn_workers (pool : WorkerPool) (threads : list bool) (s : WorkerPoolState) : RuntimeResult WorkerPoolState :=
  match threads with
  | [] => Ok s
  | started :: threads =>
      match spawn_worker pool started s with
      | (Ok _, s) => spawn_workers pool threads s
      | (Err e, _) => Err e
      end
  end.

(** [threads]: how many are asked for, and which of them start.  [bounded_fits]:
    whether the channel crate can allocate a channel of that capacity; [None] is
    the panic when it cannot. *)
Definition WorkerPool_new (bounded_fits : N → bool) (pool_id : string) (execution_classes : list ExecutionClass)
    (threads : list bool) (queue_capacity max_inflight_bytes max_isolated_threads : N) :
    option (RuntimeResult (WorkerPool * WorkerPoolState)) :=
  if bool_decide (len threads = 0%N) || bool_decide (queue_capacity = 0%N) || bool_decide (max_inflight_bytes = 0%N)
     || bool_decide (max_isolated_threads = 0%N)
  then Some (Err (host_failure "host.worker.config"
         ("pool " +:+ pool_id +:+ " requires non-zero threads, queue capacity, byte budget and isolation capacity")))
  else if negb (bounded_fits queue_capacity) then None
  else
    let pool := {| wp_pool_id := pool_id; wp_execution_classes := execution_classes; wp_queue_capacity := queue_capacity;
                   wp_max_inflight_bytes := max_inflight_bytes;
                   wp_max_isolated_threads := N.min max_isolated_threads (len threads);
                   wp_configured_threads := len threads |} in
    Some (letr? s := spawn_workers pool threads WorkerPoolState_default in Ok (pool, s)).

Record WorkerPools : Type := MkWorkerPools {
  wps_compute : WorkerPool * WorkerPoolState;
  wps_blocking : WorkerPool * WorkerPoolState
}.

Definition worker_pools (bounded_fits : N → bool) (compute_threads blocking_threads : list bool)
    (pool_queue_limit pool_max_inflight_bytes max_isolated_workers : N) : option (RuntimeResult WorkerPools) :=
  match WorkerPool_new bounded_fits "compute" [Orchestration; Cpu] compute_threads pool_queue_limit
          pool_max_inflight_bytes max_isolated_workers with
  | None => None
  | Some (Err e) => Some (Err e)
  | Some (Ok compute) =>
      match WorkerPool_new bounded_fits "blocking" [Io; Blocking; Script] blocking_threads pool_queue_limit
              pool_max_inflight_bytes max_isolated_workers with
      | None => None
      | Some (Err e) => Some (Err e)
      | Some (Ok blocking) => Some (Ok (MkWorkerPools compute blocking))
      end
  end.

(** ** What the actor reads *)

Definition available_slots (pool : WorkerPool) (s : WorkerPoolState) : N :=
  if ps_degraded s || bool_decide (ps_active_threads s = 0%N) then 0
  else saturating_sub (wp_queue_capacity pool) (len (ps_queue s)).

Definition capacity (pool : WorkerPool) (s : WorkerPoolState) : PoolCapacitySnapshot :=
  MkPoolCapacitySnapshot (saturating_sub (ps_active_threads s) (N.of_nat (size (ps_isolated_workers s))))
    (ps_queued_batches s) (ps_queued_entries s) (ps_running_batches s) (ps_running_entries s)
    (ps_inflight_bytes s) (wp_max_inflight_bytes pool).

Definition snapshot_of (pool : WorkerPool) (s : WorkerPoolState) : WorkerPoolSnapshot :=
  {| wps_pool_id := wp_pool_id pool; wps_execution_classes := wp_execution_classes pool;
     wps_configured_threads := wp_configured_threads pool; wps_active_threads := ps_active_threads s;
     wps_isolated_threads := N.of_nat (size (ps_isolated_workers s)); wps_queued_batches := ps_queued_batches s;
     wps_queued_entries := ps_queued_entries s; wps_running_batches := ps_running_batches s;
     wps_running_entries := ps_running_entries s; wps_inflight_bytes := ps_inflight_bytes s;
     wps_max_inflight_bytes := wp_max_inflight_bytes pool; wps_queue_capacity := wp_queue_capacity pool;
     wps_max_isolated_threads := wp_max_isolated_threads pool; wps_degraded := ps_degraded s |}.

(** ** Sending a dispatch *)

Definition send_fails (dispatch : RunnerDispatch) (route detail : string) (retryable : bool) (s : WorkerPoolState) :
    WorkerPoolState :=
  s <| ps_sender := SendDone dispatch (Err (MkWorkerDispatchError (host_failure route detail) dispatch retryable)) |>.

Definition saturated (pool : WorkerPool) (dispatch : RunnerDispatch) (s : WorkerPoolState) : WorkerPoolState :=
  send_fails dispatch "host.worker.saturated" ("pool " +:+ wp_pool_id pool +:+ " has no dispatch capacity") true s.

(** The loop of compare-and-exchange either fails on the value it has just
    read or adds to it at once. *)
Definition reserve_bytes (counter amount limit : N) : RuntimeResult N :=
  let next := (counter + amount)%N in
  if decide (usize_max < next)%N then Err (host_failure "host.worker.byte_capacity" "inflight byte counter overflow")
  else if decide (limit < next)%N then
    Err (host_failure "host.worker.byte_capacity"
      ("inflight payload bytes " +:+ pretty next +:+ " exceed configured limit " +:+ pretty limit))
  else Ok next.

(** The first half of [available_slots], then its reading of the queue with
    what only looks at the dispatch, then a step for every access. *)
Definition send_begin (pool : WorkerPool) (dispatch : RunnerDispatch) (s : WorkerPoolState) : WorkerPoolState :=
  if ps_degraded s || bool_decide (ps_active_threads s = 0%N) then saturated pool dispatch s
  else s <| ps_sender := SendQueueLen dispatch |>.

Definition send_step (pool : WorkerPool) (s : WorkerPoolState) : option WorkerPoolState :=
  match ps_sender s with
  | SendIdle | SendDone _ _ => None
  | SendQueueLen dispatch => Some
      (if decide (saturating_sub (wp_queue_capacity pool) (len (ps_queue s)) = 0%N) then saturated pool dispatch s
       else
         match payload_json_len (wb_payload (rdp_batch dispatch)) with
         | Err error => send_fails dispatch "host.worker.payload" error false s
         | Ok payload_bytes =>
             if decide (wp_max_inflight_bytes pool < payload_bytes)%N then
               send_fails dispatch "host.worker.byte_capacity"
                 ("dispatch payload bytes " +:+ pretty payload_bytes +:+ " exceed configured limit "
                    +:+ pretty (wp_max_inflight_bytes pool)) false s
             else s <| ps_sender := SendReserve
                        (MkQueuedDispatch dispatch (len (wb_entries (rdp_batch dispatch))) payload_bytes) |>
         end)
  | SendReserve q => Some
      match reserve_bytes (ps_inflight_bytes s) (qd_payload_bytes q) (wp_max_inflight_bytes pool) with
      | Err failure =>
          s <| ps_sender := SendDone (qd_dispatch q) (Err (MkWorkerDispatchError failure (qd_dispatch q) true)) |>
      | Ok next => s <| ps_inflight_bytes := next |> <| ps_sender := SendAddBatch q |>
      end
  | SendAddBatch q => Some (s <| ps_queued_batches ::= λ n, fetch_add n 1 |> <| ps_sender := SendAddEntries q |>)
  | SendAddEntries q => Some (s <| ps_queued_entries ::= λ n, fetch_add n (qd_entry_count q) |> <| ps_sender := SendTry q |>)
  | SendTry q => Some
      (if decide (wp_queue_capacity pool ≤ len (ps_queue s))%N then
         s <| ps_sender := SendUndoBatch q "bounded queue is full" |>
       else s <| ps_queue ::= λ l, l ++ [q] |> <| ps_accepted ::= λ l, l ++ [q] |>
              <| ps_sender := SendDone (qd_dispatch q) (Ok tt) |>)
  | SendUndoBatch q detail => Some
      (s <| ps_queued_batches ::= λ n, fetch_sub n 1 |> <| ps_sender := SendUndoEntries q detail |>)
  | SendUndoEntries q detail => Some
      (s <| ps_queued_entries ::= λ n, fetch_sub n (qd_entry_count q) |> <| ps_sender := SendUndoBytes q detail |>)
  | SendUndoBytes q detail => Some
      (send_fails (qd_dispatch q) "host.worker.dispatch" detail true
         (s <| ps_inflight_bytes ::= λ n, fetch_sub n (qd_payload_bytes q) |>))
  end.

(** ** Isolating a worker *)

Definition isolate (pool : WorkerPool) (worker_id : string) (s : WorkerPoolState) : bool * WorkerPoolState :=
  let isolated := ps_isolated_workers s in
  if decide (worker_id ∈ isolated) then (true, s)
  else if decide (wp_max_isolated_threads pool ≤ N.of_nat (size isolated))%N then (false, s <| ps_degraded := true |>)
  else
    let isolated := {[ worker_id ]} ∪ isolated in
    (true, s <| ps_isolated_workers := isolated |>
             <| ps_degraded := ps_degraded s || bool_decide (wp_max_isolated_threads pool ≤ N.of_nat (size isolated))%N |>).

Definition replace_exited_worker (pool : WorkerPool) (worker_id : string) (started : bool) (s : WorkerPoolState) :
    RuntimeResult unit * WorkerPoolState :=
  if decide (worker_id ∈ ps_isolated_workers s) then
    let isolated := ps_isolated_workers s ∖ {[ worker_id ]} in
    let s := s <| ps_isolated_workers := isolated |>
               <| ps_degraded := bool_decide (wp_max_isolated_threads pool ≤ N.of_nat (size isolated))%N |> in
    match spawn_worker pool started s with
    | (Ok _, s) => (Ok tt, s)
    | (Err e, s) => (Err e, s)
    end
  else (Ok tt, s).

(** ** A worker *)

Definition execute_dispatch (dispatch : RunnerDispatch) : RunnerCompletion :=
  let batch := rdp_batch dispatch in
  match rdp_target dispatch with
  | TargetSync runner =>
      let '(result, runner) := run_batch_caught (rdp_ctx dispatch) batch runner in
      {| rcp_runner := Some runner; rcp_task_leases := rdp_task_leases dispatch; rcp_batch_id := wb_batch_id batch;
         rcp_expected_entries := wb_entries batch;
         rcp_result := match result with
                       | Some result => result
                       | None => Err (host_failure "host.worker.panic"
                                   ("runner " +:+ d_runner_id (runner_descriptor runner) +:+ " panicked"))
                       end |}
  | TargetAsync _ =>
      {| rcp_runner := None; rcp_task_leases := rdp_task_leases dispatch; rcp_batch_id := wb_batch_id batch;
         rcp_expected_entries := wb_entries batch;
         rcp_result := Err (host_failure "host.worker.async_dispatch"
                              "async handler was sent to a synchronous worker pool") |}
  end.

Definition worker_started (worker_id : string) (dispatch : RunnerDispatch) : WorkerStarted :=
  {| ws_worker_id := worker_id; ws_execution_class := d_execution_class (target_descriptor (rdp_target dispatch));
     ws_runner_id := d_runner_id (target_descriptor (rdp_target dispatch));
     ws_invocation_id := rc_invocation_id (rdp_ctx dispatch); ws_batch_id := wb_batch_id (rdp_batch dispatch);
     ws_task_ids := be_task_id <$> wb_entries (rdp_batch dispatch) |}.

Definition goto (index : nat) (pc : WorkerPc) (s : WorkerPoolState) : WorkerPoolState :=
  s <| ps_workers ::= <[ index := pc ]> |>.

(** One step of the worker [index]; [delivered] is whether a message it sends
    reaches the actor.  [None]: it waits for a dispatch, or has ended. *)
Definition worker_step (pool : WorkerPool) (index : nat) (delivered : bool) (s : WorkerPoolState) : option WorkerPoolState :=
  let worker_id := worker_id_of pool index in
  match ps_workers s !! index with
  | None => None
  | Some AtRecv =>
      match ps_queue s with
      | q :: queue => Some (goto index (DropQueuedBatch q) (s <| ps_queue := queue |>))
      | [] => if ps_open s then None else Some (goto index (Leave false) s)
      end
  | Some (DropQueuedBatch q) => Some
      (goto index (DropQueuedEntries q) (s <| ps_queued_batches ::= λ n, fetch_sub n 1 |>))
  | Some (DropQueuedEntries q) => Some
      (goto index (AddRunningBatch q) (s <| ps_queued_entries ::= λ n, fetch_sub n (qd_entry_count q) |>))
  | Some (AddRunningBatch q) => Some
      (goto index (AddRunningEntries q) (s <| ps_running_batches ::= λ n, fetch_add n 1 |>))
  | Some (AddRunningEntries q) => Some
      (goto index (SendStarted q) (s <| ps_running_entries ::= λ n, fetch_add n (qd_entry_count q) |>))
  | Some (SendStarted q) => Some
      (if delivered then
         goto index (Execute q) (s <| ps_messages ::= λ l, l ++ [MsgWorkerStarted (worker_started worker_id (qd_dispatch q))] |>)
       else goto index (FinishBatch q None) (s <| ps_dropped ::= λ l, l ++ [q] |>))
  | Some (Execute q) => Some
      (goto index (FinishBatch q (Some (execute_dispatch (qd_dispatch q)))) (s <| ps_executed ::= λ l, l ++ [q] |>))
  | Some (FinishBatch q completion) => Some
      (goto index (FinishEntries q completion) (s <| ps_running_batches ::= λ n, fetch_sub n 1 |>))
  | Some (FinishEntries q completion) => Some
      (goto index (FinishBytes q completion) (s <| ps_running_entries ::= λ n, fetch_sub n (qd_entry_count q) |>))
  | Some (FinishBytes q completion) => Some
      (goto index (match completion with Some completion => SendCompleted completion | None => Leave false end)
         (s <| ps_inflight_bytes ::= λ n, fetch_sub n (qd_payload_bytes q) |>))
  | Some (SendCompleted completion) => Some
      (if delivered then goto index CheckIsolated (s <| ps_messages ::= λ l, l ++ [MsgWorkerCompleted completion] |>)
       else goto index (Leave false) s)
  | Some CheckIsolated => Some
      (goto index (if decide (worker_id ∈ ps_isolated_workers s) then Leave true else AtRecv) s)
  | Some (Leave isolated) => Some
      (goto index (if isolated : bool then SendExited else Exited) (s <| ps_active_threads ::= λ n, fetch_sub n 1 |>))
  | Some SendExited => Some
      (goto index Exited
         (if delivered then
            s <| ps_messages ::= λ l, l ++ [MsgWorkerExited (MkWorkerExited worker_id
                   (match wp_execution_classes pool with c :: _ => c | [] => Cpu end) true)] |>
          else s))
  | Some Exited => None
  end.

(** ** Interleavings *)

Definition sender_idle (s : WorkerPoolState) : Prop :=
  match ps_sender s with SendIdle | SendDone _ _ => True | _ => False end.

(** What the actor's thread and the workers may do next.  A worker is replaced
    when its message says that it has exited; the pool is dropped with the
    actor. *)
Inductive worker_pool_step (pool : WorkerPool) (s : WorkerPoolState) : WorkerPoolState → Prop :=
  | step_send_begin dispatch : sender_idle s → ps_open s = true → worker_pool_step pool s (send_begin pool dispatch s)
  | step_send s' : send_step pool s = Some s' → worker_pool_step pool s s'
  | step_isolate worker_id : sender_idle s → worker_pool_step pool s (isolate pool worker_id s).2
  | step_replace exited started :
      sender_idle s → MsgWorkerExited exited ∈ ps_messages s →
      worker_pool_step pool s (replace_exited_worker pool (we_worker_id exited) started s).2
  | step_drop : sender_idle s → worker_pool_step pool s (s <| ps_open := false |>)
  | step_worker index delivered s' : worker_step pool index delivered s = Some s' → worker_pool_step pool s s'.
End Pool.

(** ** What holds of a worker pool under every interleaving

    The counters count what the threads hold, the bytes in flight stay within
    the budget, the isolation bound is kept, no dispatch is lost or run twice,
    and a send that saw room in the queue is never refused by it. *)

(** ** Counters that wrap around *)

(** The counter shows the number [n]. *)
Definition shows (counter n : N) : Prop := counter = (n mod usize_modulus)%N.

Lemma modulus_positive : usize_modulus ≠ 0%N.
Proof. done. Qed.

Lemma shows_same c n n' : shows c n → n' = n → shows c n'.
Proof. by intros ? ->. Qed.

Lemma shows_add c n k n' : shows c n → n' = (n + k)%N → shows (fetch_add c k) n'.
Proof. intros -> ->. unfold shows, fetch_add. by rewrite N.Div0.add_mod_idemp_l. Qed.

Lemma shows_sub c n k n' : shows c n → n = (n' + k)%N → shows (fetch_sub c k) n'.
Proof.
  intros -> ->. unfold shows, fetch_sub. rewrite N.Div0.add_mod_idemp_l.
  pose proof (N.mod_lt k usize_modulus modulus_positive) as Hk.
  rewrite <-(N.Div0.add_mod_idemp_l (n' + k)), <-(N.Div0.add_mod_idemp_r n' k), N.Div0.add_mod_idemp_l.
  replace (n' + k mod usize_modulus + (usize_modulus - k mod usize_modulus))%N with (n' + 1 * usize_modulus)%N by lia.
  apply N.Div0.mod_add.
Qed.

Lemma shows_exact c n : shows c n → (n ≤ usize_max)%N → c = n.
Proof. intros -> Hn. apply N.mod_small. unfold usize_modulus. lia. Qed.

Lemma total_app {A} (f : A → N) l k : total f (l ++ k) = (total f l + total f k)%N.
Proof. induction l as [|x l IH]; [done|]. cbn [app]. rewrite !total_cons, IH. lia. Qed.

Lemma total_nil {A} (f : A → N) : total f [] = 0%N.
Proof. done. Qed.

Lemma total_insert {A} (f : A → N) l i x y :
  l !! i = Some x → (total f (<[i := y]> l) + f x = total f l + f y)%N.
Proof.
  revert i. induction l as [|z l IH]; intros [|i] Hi; [done|done| |].
  - injection Hi as ->. change (<[0 := y]> (x :: l)) with (y :: l). rewrite !total_cons. lia.
  - change (<[S i := y]> (z :: l)) with (z :: <[i := y]> l). rewrite !total_cons. specialize (IH i Hi). lia.
Qed.

Lemma total_alter {A} (f : A → N) (g : A → A) l i x :
  l !! i = Some x → (total f (alter g i l) + f x = total f l + f (g x))%N.
Proof.
  revert i. induction l as [|z l IH]; intros [|i] Hi; [done|done| |].
  - injection Hi as ->. change (alter g 0 (x :: l)) with (g x :: l). rewrite !total_cons. lia.
  - change (alter g (S i) (z :: l)) with (z :: alter g i l). rewrite !total_cons. specialize (IH i Hi). lia.
Qed.

#[local] Arguments total : simpl never.
#[local] Arguments len : simpl never.
#[local] Arguments fetch_add : simpl never.
#[local] Arguments fetch_sub : simpl never.

Section Invariant.
Context `{RC : RunnerControl}.
Variable payload_json_len : BatchPayload → Result string N.
Variable run_batch_caught : RunnerContext → WorkBatch → Runner → option (RuntimeResult CompletionBatch) * Runner.
Variable pool : WorkerPool.
Abbreviation step := (worker_pool_step payload_json_len run_batch_caught pool).

(** ** What a thread holds *)

Definition queued_batch_of (pc : WorkerPc) : N := match pc with DropQueuedBatch _ => 1 | _ => 0 end.
Definition queued_entries_of (pc : WorkerPc) : N :=
  match pc with DropQueuedBatch q | DropQueuedEntries q => qd_entry_count q | _ => 0 end.
Definition running_batch_of (pc : WorkerPc) : N :=
  match pc with AddRunningEntries _ | SendStarted _ | Execute _ | FinishBatch _ _ => 1 | _ => 0 end.
Definition running_entries_of (pc : WorkerPc) : N :=
  match pc with SendStarted q | Execute q | FinishBatch q _ | FinishEntries q _ => qd_entry_count q | _ => 0 end.
Definition bytes_of (pc : WorkerPc) : N :=
  match pc with
  | DropQueuedBatch q | DropQueuedEntries q | AddRunningBatch q | AddRunningEntries q | SendStarted q | Execute q
  | FinishBatch q _ | FinishEntries q _ | FinishBytes q _ => qd_payload_bytes q
  | _ => 0
  end.
Definition live_of (pc : WorkerPc) : N := match pc with SendExited | Exited => 0 | _ => 1 end.

Definition sent_batch_of (pc : SendPc) : N :=
  match pc with SendAddEntries _ | SendTry _ | SendUndoBatch _ _ => 1 | _ => 0 end.
Definition sent_entries_of (pc : SendPc) : N :=
  match pc with SendTry q | SendUndoBatch q _ | SendUndoEntries q _ => qd_entry_count q | _ => 0 end.
Definition sent_bytes_of (pc : SendPc) : N :=
  match pc with
  | SendAddBatch q | SendAddEntries q | SendTry q | SendUndoBatch q _ | SendUndoEntries q _ | SendUndoBytes q _ =>
      qd_payload_bytes q
  | _ => 0
  end.

(** The bytes of everything accepted and not yet finished *)
Definition bytes_held (s : WorkerPoolState) : N :=
  (total qd_payload_bytes (ps_queue s) + total bytes_of (ps_workers s) + sent_bytes_of (ps_sender s))%N.

Record pool_counted (s : WorkerPoolState) : Prop := MkPoolCounted {
  pc_active : shows (ps_active_threads s) (total live_of (ps_workers s));
  pc_queued : shows (ps_queued_batches s)
    (len (ps_queue s) + total queued_batch_of (ps_workers s) + sent_batch_of (ps_sender s));
  pc_queued_entries : shows (ps_queued_entries s)
    (total qd_entry_count (ps_queue s) + total queued_entries_of (ps_workers s) + sent_entries_of (ps_sender s));
  pc_running : shows (ps_running_batches s) (total running_batch_of (ps_workers s));
  pc_running_entries : shows (ps_running_entries s) (total running_entries_of (ps_workers s));
  pc_bytes : ps_inflight_bytes s = bytes_held s;
  pc_budget : (bytes_held s ≤ wp_max_inflight_bytes pool)%N
}.

(** The dispatch a worker has taken and not yet run *)
Definition held_of (pc : WorkerPc) : list QueuedDispatch :=
  match pc with
  | DropQueuedBatch q | DropQueuedEntries q | AddRunningBatch q | AddRunningEntries q | SendStarted q | Execute q => [q]
  | _ => []
  end.
Definition nothing_lost (s : WorkerPoolState) : Prop :=
  ps_accepted s ≡ₚ ps_queue s ++ (ps_workers s ≫= held_of) ++ ps_executed s ++ ps_dropped s.

Definition isolation_kept (s : WorkerPoolState) : Prop :=
  (N.of_nat (size (ps_isolated_workers s)) ≤ wp_max_isolated_threads pool)%N ∧
  ps_degraded s = bool_decide (wp_max_isolated_threads pool ≤ N.of_nat (size (ps_isolated_workers s)))%N.

Definition queue_bounded (s : WorkerPoolState) : Prop :=
  (len (ps_queue s) ≤ wp_queue_capacity pool)%N ∧
  match ps_sender s with
  | SendReserve _ | SendAddBatch _ | SendAddEntries _ | SendTry _ => (len (ps_queue s) < wp_queue_capacity pool)%N
  | SendUndoBatch _ _ | SendUndoEntries _ _ | SendUndoBytes _ _ => False
  | SendDone dispatch (Err e) => wde_dispatch e = dispatch
  | _ => True
  end.

(** ** Steps of the counters *)

Ltac counted H :=
  lazymatch goal with
  | |- shows (fetch_add _ _) _ => eapply shows_add; [exact H|]
  | |- shows (fetch_sub _ _) _ => eapply shows_sub; [exact H|]
  | |- shows _ _ => eapply shows_same; [exact H|]
  end.

Lemma fetch_sub_exact n k : (k ≤ n)%N → (n ≤ usize_max)%N → fetch_sub n k = (n - k)%N.
Proof.
  intros Hk Hn. apply shows_exact; [|lia]. eapply shows_sub; [|symmetry; by apply N.sub_add].
  unfold shows. symmetry. apply N.mod_small. unfold usize_modulus. lia.
Qed.

(** Turns the totals after a worker's move into those before it. *)
Ltac moved Hpc :=
  repeat match goal with
  | |- context [total ?f (<[?i := ?y]> ?l)] =>
      lazymatch goal with
      | _ : (total f (<[i := y]> l) + _ = _)%N |- _ => fail
      | _ => pose proof (total_insert f l i _ y Hpc)
      end
  end.

Ltac count_up :=
  unfold live_of, queued_batch_of, queued_entries_of, running_batch_of, running_entries_of, bytes_of in *;
  cbn in *; rewrite ?total_cons, ?len_cons in *; lia.

Hypothesis budget_fits : (wp_max_inflight_bytes pool ≤ usize_max)%N.

Lemma worker_step_counted index delivered s s' :
  pool_counted s → worker_step run_batch_caught pool index delivered s = Some s' → pool_counted s'.
Proof.
  intros [Ha Hq Hqe Hr Hre Hb Hbudget] Hstep. unfold worker_step in Hstep.
  destruct (ps_workers s !! index) as [pc|] eqn:Hpc; [|done].
  assert (bytes_held s ≤ usize_max)%N as Hfits by lia. unfold bytes_held in *.
  destruct pc; [destruct (ps_queue s) as [|q queue] eqn:Hqueue; [destruct (ps_open s); [done|]|]|..]; try done;
    injection Hstep as <-; repeat case_match;
    (split; unfold bytes_held; cbn; rewrite ?Hqueue in *; moved Hpc;
      [counted Ha|counted Hq|counted Hqe|counted Hr|counted Hre| |]; try count_up).
  all: rewrite fetch_sub_exact; count_up.
Qed.

Lemma send_step_counted s s' : pool_counted s → send_step payload_json_len pool s = Some s' → pool_counted s'.
Proof.
  intros [Ha Hq Hqe Hr Hre Hb Hbudget] Hstep. unfold send_step in Hstep.
  destruct (ps_sender s) eqn:Hs; try done; injection Hstep as <-; unfold saturated, send_fails, reserve_bytes, bytes_held in *;
    rewrite Hs in *; cbn in *; repeat case_match; simplify_eq;
    (split; unfold bytes_held; cbn;
      [counted Ha|counted Hq|counted Hqe|counted Hr|counted Hre| |];
      try (rewrite ?total_app, ?len_app, ?total_cons, ?len_cons, ?total_nil in *; cbn in *; lia)).
  - unfold len. rewrite length_app. cbn. lia.
  - rewrite fetch_sub_exact; lia.
Qed.

Lemma spawn_counted started s : pool_counted s → pool_counted (spawn_worker pool started s).2.
Proof.
  intros [Ha Hq Hqe Hr Hre Hb Hbudget]. destruct started; (split; unfold bytes_held in *; cbn;
    rewrite ?total_app, ?total_cons, ?total_nil; cbn;
    [|counted Hq|counted Hqe|counted Hr|counted Hre| |]); rewrite ?N.add_0_r; try lia; try done.
  - counted Ha. lia.
  - eapply shows_sub; [|reflexivity]. counted Ha. lia.
Qed.

(** ** The queue *)

Lemma len_snoc {A} (l : list A) x : len (l ++ [x]) = (len l + 1)%N.
Proof. unfold len. rewrite length_app. cbn. lia. Qed.

Lemma send_step_bounded s s' : queue_bounded s → send_step payload_json_len pool s = Some s' → queue_bounded s'.
Proof.
  unfold queue_bounded, send_step. intros [Hlen Hs] Hstep.
  destruct (ps_sender s) eqn:E; try done; injection Hstep as <-; unfold saturated, send_fails; repeat case_match; cbn;
    rewrite ?len_snoc; unfold saturating_sub in *; (split; [lia|]); try done; try lia.
  all: by cbn in *; simplify_eq/=.
Qed.

Lemma worker_step_bounded index delivered s s' :
  queue_bounded s → worker_step run_batch_caught pool index delivered s = Some s' → queue_bounded s'.
Proof.
  unfold queue_bounded, worker_step. intros [Hlen Hs] Hstep.
  assert (len (ps_queue s') ≤ len (ps_queue s) ∧ ps_sender s' = ps_sender s)%N as [Hle ->].
  { destruct (ps_workers s !! index) as [[]|]; try done;
      [destruct (ps_queue s) eqn:Hq; [destruct (ps_open s); [done|]|]|..]; injection Hstep as <-; repeat case_match; cbn;
      rewrite ?Hq, ?len_cons; (split; [lia|done]). }
  split; [lia|]. repeat case_match; try done; lia.
Qed.

(** ** Dispatches *)

Lemma bind_insert {A B} (f : A → list B) (l : list A) i x y :
  l !! i = Some x → (<[i := y]> l ≫= f) ++ f x ≡ₚ (l ≫= f) ++ f y.
Proof.
  intros Hi. pose proof (lookup_lt_Some _ _ _ Hi) as Hlt. rewrite (insert_take_drop l i y Hlt).
  rewrite <-(take_drop_middle l i x Hi) at 3. rewrite !bind_app. cbn. solve_Permutation.
Qed.

Lemma worker_step_kept index delivered s s' :
  nothing_lost s → worker_step run_batch_caught pool index delivered s = Some s' → nothing_lost s'.
Proof.
  unfold nothing_lost, worker_step. intros Hkept Hstep.
  destruct (ps_workers s !! index) as [pc|] eqn:Hpc; [|done].
  pose proof (λ y, bind_insert held_of _ _ _ y Hpc) as Hmove.
  destruct pc; [destruct (ps_queue s) as [|q queue] eqn:Hqueue; [destruct (ps_open s); [done|]|]|..]; try done;
    injection Hstep as <-; repeat case_match; cbn; rewrite Hkept; rewrite ?Hqueue;
    (match goal with |- context [<[index := ?y]> (ps_workers s)] => specialize (Hmove y) end);
    cbn in Hmove; rewrite ?app_nil_r in Hmove; rewrite ?Hmove; try done.
  all: try (apply Permutation_app_inv_r in Hmove; by rewrite Hmove).
  - solve_Permutation.
  - rewrite <-Hmove. solve_Permutation.
  - rewrite <-Hmove. solve_Permutation.
Qed.

Lemma send_step_kept s s' : nothing_lost s → send_step payload_json_len pool s = Some s' → nothing_lost s'.
Proof.
  unfold nothing_lost, send_step, saturated, send_fails. intros Hkept Hstep.
  destruct (ps_sender s); try done; injection Hstep as <-; repeat case_match; cbn; rewrite Hkept; try done.
  solve_Permutation.
Qed.

(** ** Isolation *)

Hypothesis isolates : (1 ≤ wp_max_isolated_threads pool)%N.

Lemma isolate_kept worker_id s : isolation_kept s → isolation_kept (isolate pool worker_id s).2.
Proof.
  unfold isolation_kept, isolate. intros [Hsize Hd]. cbv zeta. destruct (decide _) as [|Hin]; [done|].
  destruct (decide (wp_max_isolated_threads pool ≤ _)%N) as [Hfull|Hroom]; cbn.
  - split; [done|]. by rewrite bool_decide_eq_true_2.
  - rewrite Hd, (bool_decide_eq_false_2 _ Hroom), size_union, size_singleton by set_solver. cbn [orb]. split; [lia|done].
Qed.

Lemma replace_kept worker_id started s :
  isolation_kept s → isolation_kept (replace_exited_worker pool worker_id started s).2.
Proof.
  unfold isolation_kept, replace_exited_worker. intros [Hsize Hd]. destruct (decide _) as [Hin|]; [|done].
  assert (size (ps_isolated_workers s ∖ {[worker_id]}) = size (ps_isolated_workers s) - 1) as Hs.
  { rewrite size_difference by set_solver. by rewrite size_singleton. }
  destruct started; cbn; rewrite Hs; (split; [lia|done]).
Qed.

(** ** Every reachable pool *)

Definition pool_ok (s : WorkerPoolState) : Prop := pool_counted s ∧ queue_bounded s ∧ nothing_lost s ∧ isolation_kept s.

(** A sender between two sends, or at the first step of one *)
Definition between (pc : SendPc) : Prop :=
  match pc with
  | SendIdle | SendQueueLen _ | SendDone _ (Ok _) => True
  | SendDone dispatch (Err e) => wde_dispatch e = dispatch
  | _ => False
  end.

Lemma idle_between s : sender_idle s → queue_bounded s → between (ps_sender s).
Proof. unfold sender_idle, queue_bounded. intros Hs [_ Hb]. by destruct (ps_sender s) as [| | | | | | | | |? []]. Qed.

Lemma between_nothing pc : between pc → sent_batch_of pc = 0%N ∧ sent_entries_of pc = 0%N ∧ sent_bytes_of pc = 0%N.
Proof. by destruct pc as [| | | | | | | | |? []]. Qed.

(** Isolation, the channel's being open and an idle sender do not touch what is
    counted. *)
Lemma idle_move_ok s isolated degraded open pc :
  let t := s <| ps_isolated_workers := isolated |> <| ps_degraded := degraded |> <| ps_open := open |> <| ps_sender := pc |> in
  sender_idle s → between pc → isolation_kept t → pool_ok s → pool_ok t.
Proof.
  intros t Hs Hpc Hi ([Ha Hq Hqe Hr Hre Hb Hbudget] & Hbound & Hkept & _). unfold bytes_held in *.
  destruct (between_nothing _ (idle_between s Hs Hbound)) as (Z1 & Z2 & Z3), (between_nothing _ Hpc) as (Y1 & Y2 & Y3).
  destruct Hbound as [Hlen _]. split_and!; [|split; [done|]|done|done].
  - split; unfold bytes_held; cbn; rewrite ?Y1, ?Y2, ?Y3; [done|counted Hq; lia|counted Hqe; lia|done|done|lia|lia].
  - by destruct pc as [| | | | | | | | |? []].
Qed.

Lemma spawn_ok started s : sender_idle s → pool_ok s → pool_ok (spawn_worker pool started s).2.
Proof.
  intros Hs (Hc & Hb & Hk & Hi). split_and!; [by apply spawn_counted| | |]; destruct started; try done;
    unfold nothing_lost in *; cbn; rewrite bind_app; cbn; rewrite app_nil_r; done.
Qed.

Lemma step_ok s s' : pool_ok s → step s s' → pool_ok s'.
Proof.
  intros Hok Hstep. pose proof Hok as (Hc & Hb & Hk & Hi).
  destruct Hstep as [dispatch Hs Hopen|s' Hstep|worker_id Hs|exited started Hs Hm|Hs|index delivered s' Hstep].
  - unfold send_begin, saturated, send_fails. destruct (_ || _); by apply (idle_move_ok s _ _ (ps_open s)).
  - split_and!; [by eapply send_step_counted|by eapply send_step_bounded|by eapply send_step_kept|].
    unfold isolation_kept, send_step, saturated, send_fails in *. destruct (ps_sender s); try done; injection Hstep as <-;
      repeat case_match; done.
  - pose proof (isolate_kept worker_id s Hi) as Hi'. pose proof (idle_between s Hs Hb). unfold isolate in *.
    destruct (decide _); [done|]. destruct (decide _).
    + by apply (idle_move_ok s (ps_isolated_workers s) true (ps_open s)).
    + by apply (idle_move_ok s ({[worker_id]} ∪ ps_isolated_workers s) (ps_degraded s || bool_decide
        (wp_max_isolated_threads pool ≤ N.of_nat (size ({[worker_id]} ∪ ps_isolated_workers s)))%N) (ps_open s)).
  - pose proof (replace_kept (we_worker_id exited) started s Hi) as Hi'. pose proof (idle_between s Hs Hb).
    unfold replace_exited_worker in *. destruct (decide _); [|done]. cbv zeta in *.
    set (t := s <| ps_isolated_workers := _ |> <| ps_degraded := _ |>) in *.
    assert (pool_ok t) as Ht by (apply (idle_move_ok s (ps_isolated_workers t) (ps_degraded t) (ps_open s)); [done|done|by destruct started|done]).
    pose proof (spawn_ok started t Hs Ht). by destruct started.
  - by apply (idle_move_ok s (ps_isolated_workers s) (ps_degraded s) false); [|apply idle_between|..].
  - split_and!; [by eapply worker_step_counted|by eapply worker_step_bounded|by eapply worker_step_kept|].
    unfold isolation_kept, worker_step in *. destruct (ps_workers s !! index) as [[]|]; try done;
      [destruct (ps_queue s); [destruct (ps_open s); [done|]|]|..]; injection Hstep as <-; repeat case_match; done.
Qed.

Lemma default_ok : pool_ok WorkerPoolState_default.
Proof.
  split_and!; [split; unfold bytes_held; cbn; rewrite ?total_nil; try done; lia|split; [apply N.le_0_l|exact I]|constructor|].
  assert (size (ps_isolated_workers WorkerPoolState_default) = 0) as Hs by apply size_empty.
  split; rewrite Hs; [lia|]. symmetry. apply bool_decide_eq_false_2. lia.
Qed.

Lemma spawn_workers_ok threads s s' : sender_idle s → pool_ok s → spawn_workers pool threads s = Ok s' → pool_ok s'.
Proof.
  revert s. induction threads as [|started threads IH]; intros s Hs Hok; cbn [spawn_workers]; [by intros [= <-]|].
  pose proof (spawn_ok started s Hs Hok) as Hok'. destruct started; [|done]. by apply IH.
Qed.
End Invariant.

Section Reachable.
Context `{RC : RunnerControl}.
Variable payload_json_len : BatchPayload → Result string N.
Variable run_batch_caught : RunnerContext → WorkBatch → Runner → option (RuntimeResult CompletionBatch) * Runner.
Abbreviation step := (worker_pool_step payload_json_len run_batch_caught).

(** A pool created with a budget that is a [usize], after any interleaving of
    the steps of its threads *)
Definition pool_reachable (pool : WorkerPool) (s : WorkerPoolState) : Prop :=
  ∃ bounded_fits pool_id classes threads queue_capacity bytes isolated s0,
    (bytes ≤ usize_max)%N ∧
    WorkerPool_new bounded_fits pool_id classes threads queue_capacity bytes isolated = Some (Ok (pool, s0)) ∧ rtc (step pool) s0 s.

Lemma reachable_ok pool s : pool_reachable pool s → (wp_max_inflight_bytes pool ≤ usize_max)%N ∧ pool_ok pool s.
Proof.
  intros (fits & pool_id & classes & threads & queue_capacity & bytes & isolated & s0 & Hbytes & Hnew & Hsteps).
  unfold WorkerPool_new in Hnew.
  destruct (bool_decide (len threads = 0%N)) eqn:H1; [done|]. destruct (bool_decide (queue_capacity = 0%N)) eqn:H2; [done|].
  destruct (bool_decide (bytes = 0%N)) eqn:H3; [done|]. destruct (bool_decide (isolated = 0%N)) eqn:H4; [done|]. cbn [orb] in Hnew.
  destruct (fits queue_capacity); [|done]. cbn [negb] in Hnew.
  apply bool_decide_eq_false in H1, H4.
  destruct (spawn_workers _ threads WorkerPoolState_default) as [s1|e] eqn:Hspawn; [|done]. cbn in Hnew. injection Hnew as <- <-.
  set (pool := MkWorkerPool _ _ _ _ _ _) in *. assert (1 ≤ wp_max_isolated_threads pool)%N as Hi by (cbn; lia).
  split; [done|]. assert (pool_ok pool s1) as H0.
  { eapply spawn_workers_ok; [..|exact Hspawn]; [done..|by apply default_ok]. }
  clear Hspawn. induction Hsteps as [|s1 s2 s3 Hstep _ IH]; [done|]. apply IH. by eapply step_ok.
Qed.

(** A pool that was created has all its threads waiting for work and an empty
    queue. *)
Record pool_ready (threads : N) (pool : WorkerPool) (s : WorkerPoolState) : Prop := MkPoolReady {
  pr_configured : wp_configured_threads pool = threads;
  pr_workers : ps_workers s = replicate (N.to_nat threads) AtRecv;
  pr_queue : ps_queue s = [];
  pr_open : ps_open s = true
}.

Lemma spawn_workers_all pool threads s s' :
  spawn_workers pool threads s = Ok s' →
  ps_workers s' = ps_workers s ++ replicate (length threads) AtRecv ∧ ps_queue s' = ps_queue s ∧ ps_open s' = ps_open s.
Proof.
  revert s. induction threads as [|started threads IH]; intros s; cbn [spawn_workers]; [intros [= <-]; by rewrite app_nil_r|].
  destruct started; [|done]. intros (Hw & Hq & Ho)%IH. cbn in Hw, Hq, Ho. rewrite Hw, Hq, Ho, <-app_assoc. done.
Qed.

Lemma worker_pool_new_reachable fits pool_id classes threads queue_capacity bytes isolated pool s :
  (bytes ≤ usize_max)%N → WorkerPool_new fits pool_id classes threads queue_capacity bytes isolated = Some (Ok (pool, s)) →
  pool_reachable pool s.
Proof. intros Hb Hnew. by exists fits, pool_id, classes, threads, queue_capacity, bytes, isolated, s. Qed.

Lemma worker_pool_new_ready fits pool_id classes threads queue_capacity bytes isolated pool s :
  WorkerPool_new fits pool_id classes threads queue_capacity bytes isolated = Some (Ok (pool, s)) →
  pool_ready (len threads) pool s ∧ wp_execution_classes pool = classes.
Proof.
  intros Hnew. unfold WorkerPool_new in Hnew. destruct (_ || _ || _ || _); [done|]. destruct (negb _); [done|]. injection Hnew as Hnew.
  destruct (spawn_workers _ threads _) as [s1|e] eqn:Hspawn; [|done]. injection Hnew as <- <-.
  apply spawn_workers_all in Hspawn as (Hw & Hq & Ho). split; [|done].
  split; [done| |by rewrite Hq|by rewrite Ho]. rewrite Hw. unfold len. by rewrite Nat2N.id.
Qed.

Lemma worker_pool_new_total fits pool_id classes threads queue_capacity bytes isolated :
  fits queue_capacity = true → WorkerPool_new fits pool_id classes threads queue_capacity bytes isolated ≠ None.
Proof. intros Hf. unfold WorkerPool_new. destruct (_ || _ || _ || _); [done|]. by rewrite Hf. Qed.

Lemma worker_pools_total fits compute blocking queue_limit bytes isolated :
  fits queue_limit = true → worker_pools fits compute blocking queue_limit bytes isolated ≠ None.
Proof.
  intros Hf. unfold worker_pools. repeat case_match; try done; exfalso; by eapply worker_pool_new_total.
Qed.

(** C24: under every interleaving of the actor's thread and the workers, the
    counters of a pool show exactly what its threads and its queue hold -
    live threads, batches and entries queued and running, modulo the width of
    the counter - and the bytes of everything accepted and unfinished are the
    bytes in flight, never above the budget. *)
Theorem pool_counters_exact pool s : pool_reachable pool s → pool_counted pool s.
Proof. by intros [_ (Hc & _)]%reachable_ok. Qed.

(** C25: no dispatch is lost or duplicated: what entered the queue is in the
    queue, taken by exactly one worker, executed, or given up by a worker that
    found the actor gone. *)
Theorem dispatches_conserved pool s :
  pool_reachable pool s →
  ps_accepted s ≡ₚ ps_queue s ++ (ps_workers s ≫= held_of) ++ ps_executed s ++ ps_dropped s.
Proof. by intros [_ (_ & _ & Hk & _)]%reachable_ok. Qed.

(** the actor is the only sender, so a send that has seen room in the queue
    is never refused by the queue: the try-send enters the dispatch whatever
    the workers did meanwhile, and a failed send gives the dispatch back. *)
Theorem send_never_refused pool s :
  pool_reachable pool s →
  (∀ q, ps_sender s = SendTry q → send_step payload_json_len pool s =
     Some (s <| ps_queue ::= λ l, l ++ [q] |> <| ps_accepted ::= λ l, l ++ [q] |>
             <| ps_sender := SendDone (qd_dispatch q) (Ok tt) |>)) ∧
  (∀ dispatch e, ps_sender s = SendDone dispatch (Err e) → wde_dispatch e = dispatch).
Proof.
  intros [_ (_ & [_ Hs] & _)]%reachable_ok. split.
  - intros q Hq. unfold send_step. rewrite Hq in *. by rewrite decide_False by lia.
  - intros dispatch e He. by rewrite He in Hs.
Qed.

(** never more workers are isolated than the pool allows, and the pool is
    degraded exactly while that many are. *)
Theorem isolation_bounded pool s :
  pool_reachable pool s →
  (N.of_nat (size (ps_isolated_workers s)) ≤ wp_max_isolated_threads pool)%N ∧
  (ps_degraded s = true ↔ N.of_nat (size (ps_isolated_workers s)) = wp_max_isolated_threads pool).
Proof. intros [_ (_ & _ & _ & [Hs Hd])]%reachable_ok. split; [done|]. rewrite Hd, bool_decide_eq_true. lia. Qed.

(** ** Isolating workers that have nothing to do *)

Definition waits_or_left (pc : WorkerPc) : Prop := match pc with AtRecv | Leave false | Exited => True | _ => False end.

(** As many workers as the pool allows are isolated, none of them has anything
    to do, none has announced that it leaves, and the queue is empty. *)
Record starved (pool : WorkerPool) (s : WorkerPoolState) : Prop := MkStarved {
  sv_degraded : ps_degraded s = true;
  sv_full : (wp_max_isolated_threads pool ≤ N.of_nat (size (ps_isolated_workers s)))%N;
  sv_empty : ps_queue s = [];
  sv_idle : sender_idle s;
  sv_silent exited : MsgWorkerExited exited ∈ ps_messages s → we_worker_id exited ∉ ps_isolated_workers s;
  sv_waiting i pc : ps_workers s !! i = Some pc → worker_id_of pool i ∈ ps_isolated_workers s → waits_or_left pc
}.

Lemma starved_worker pool index delivered s s' :
  starved pool s → worker_step run_batch_caught pool index delivered s = Some s' → starved pool s'.
Proof.
  intros [Hd Hfull He Hi Hm Hw] Hstep. unfold worker_step in Hstep.
  destruct (ps_workers s !! index) as [pc|] eqn:Hpc; [|done]. rewrite He in Hstep.
  pose proof (λ H, Hw index pc Hpc H) as Hme.
  assert (∀ pc', (worker_id_of pool index ∈ ps_isolated_workers s → waits_or_left pc') → ∀ i p,
    <[index := pc']> (ps_workers s) !! i = Some p → worker_id_of pool i ∈ ps_isolated_workers s → waits_or_left p) as Hgoto.
  { intros pc' Hpc' i p. destruct (decide (i = index)) as [->|Hne].
    - rewrite list_lookup_insert_eq by (by eapply lookup_lt_Some). by intros [= <-].
    - rewrite list_lookup_insert_ne by done. apply Hw. }
  assert (∀ msg, (∀ ex, msg = MsgWorkerExited ex → we_worker_id ex ∉ ps_isolated_workers s) → ∀ ex,
    MsgWorkerExited ex ∈ ps_messages s ++ [msg] → we_worker_id ex ∉ ps_isolated_workers s) as Hsay.
  { intros msg Hmsg ex [?|?%list_elem_of_singleton]%elem_of_app; [by apply Hm|]. by apply Hmsg. }
  destruct pc; try done; [destruct (ps_open s); [done|]|..]; injection Hstep as <-; repeat case_match; subst;
    (split; cbn; try done; first [apply Hgoto|apply Hsay]; try done); try (by intros Hin; destruct (Hme Hin)).
  all: by intros ex [= <-] Hin; destruct (Hme Hin).
Qed.

Lemma starved_step pool s s' : starved pool s → step pool s s' → starved pool s'.
Proof.
  intros Hst Hstep. pose proof Hst as [Hd Hfull He Hi Hm Hw].
  destruct Hstep as [dispatch Hs Hopen|s' Hstep|worker_id Hs|exited started Hs Hmsg|Hs|index delivered s' Hstep].
  - unfold send_begin, saturated, send_fails. rewrite Hd. by split.
  - unfold send_step, sender_idle in *. by destruct (ps_sender s).
  - unfold isolate. destruct (decide _); [done|]. rewrite decide_True by done. by split.
  - unfold replace_exited_worker. by rewrite decide_False by (by apply Hm).
  - by split.
  - by eapply starved_worker.
Qed.

(** a worker that is isolated when it has already finished its batch waits
    for the next one and leaves only after it; if as many such workers are
    isolated as the pool allows, the pool offers no slot any more, so none of
    them ever gets that batch, none leaves, none is replaced: whatever the
    threads do, the pool stays degraded and takes no dispatch again. *)
Theorem late_isolation_starves_pool pool s s' :
  starved pool s → rtc (step pool) s s' → available_slots pool s' = 0%N ∧ ps_queue s' = [] ∧ ps_degraded s' = true.
Proof.
  intros Hst Hsteps. assert (starved pool s') as [Hd _ He _ _ _].
  { induction Hsteps as [|s1 s2 s3 Hstep _ IH]; [done|]. by eapply IH, starved_step. }
  unfold available_slots. by rewrite Hd.
Qed.
End Reachable.
