(* ===== verification/HostExecutor.v ===== *)
(** * The async executor

    crates/mutsuki-runtime-host/src/async_executor.rs: the counters, the
    reservations and the table of abort handles of [TokioAsyncExecutor].  A task
    of the executor is the point it has reached; it can be dropped only where
    it awaits.  The thread that spawns, cancels and the tasks interleave in any
    order, a step for every access to a counter or to the table.

    What a future computes, when a deadline passes and when an abort reaches a
    task are choices of the step.  An abort handle is the number of its task.

    Below, what holds under every interleaving. *)

From stdpp Require Import relations.
From S2P Require Import Prelude Contracts RunnerContracts BatchContracts PluginContracts Logs StateStore ResourceManager TaskRecords TaskIndexes TaskPool TaskClaiming Registry RuntimeState RuntimeTasks RuntimeRouting RuntimeDispatch RuntimeRuns HostErrors HostScheduler HostCommands HostPool.

Section Executor.
Context `{RC : RunnerControl}.

Record TokioAsyncExecutor : Type := MkTokioAsyncExecutor {
  ex_configured_threads : N;
  ex_max_inflight_invocations : N;
  ex_max_inflight_entries : N;
  ex_max_inflight_bytes : N
}.

(** What a task runs: a handler, or an operation of a resource with the channel
    its reply goes to *)
Inductive AsyncWork : Type :=
  | HandlerWork (invocation : AsyncInvocation)
  | ResourceWork (invocation : AsyncInvocation) (reply : N).

Definition work_invocation (work : AsyncWork) : AsyncInvocation :=
  match work with HandlerWork invocation | ResourceWork invocation _ => invocation end.

(** How a future ended: with its result, by the deadline, or by a panic that
    was caught *)
Inductive FutureEnd : Type :=
  | EndCompleted (result : RuntimeResult CompletionBatch)
  | EndResource (result : RuntimeResult HostRuntimeReply)
  | EndTimedOut
  | EndPanicked.

(** The event that ends a task; a deadline passes only where there is one. *)
Definition final_event (work : AsyncWork) (ended : FutureEnd) : option AsyncExecutorEvent :=
  match work, ended, ai_deadline_after_ms (work_invocation work) with
  | HandlerWork invocation, EndCompleted result, _ => Some (AsyncCompleted invocation result)
  | HandlerWork invocation, EndTimedOut, Some _ => Some (AsyncTimedOut invocation)
  | HandlerWork invocation, EndPanicked, _ => Some (AsyncPanicked invocation)
  | ResourceWork invocation reply, EndResource result, _ => Some (ResourceCompleted invocation reply result)
  | ResourceWork invocation reply, EndTimedOut, Some _ => Some (ResourceTimedOut invocation reply)
  | ResourceWork invocation reply, EndPanicked, _ => Some (ResourcePanicked invocation reply)
  | _, _, _ => None
  end.

(** The point of a task.  The last three points drop the reservation; they
    remember the event the task has sent, if any. *)
Inductive TaskPc : Type :=
  | AwaitStart
  | EmitStarted
  | AwaitFuture
  | RemoveHandle (event : AsyncExecutorEvent)
  | EmitFinal (event : AsyncExecutorEvent)
  | DropInvocation (sent : option AsyncExecutorEvent)
  | DropEntries (sent : option AsyncExecutorEvent)
  | DropBytes (sent : option AsyncExecutorEvent)
  | TaskOver (sent : option AsyncExecutorEvent).

Record AsyncTask : Type := MkAsyncTask {
  at_work : AsyncWork;
  at_started : bool;
  at_aborted : bool;
  at_pc : TaskPc
}.

(** The thread that spawns: in [reserve], then in [spawn] *)
Inductive SpawnPc : Type :=
  | SpawnIdle
  | ReserveInvocation (work : AsyncWork)
  | ReserveEntries (work : AsyncWork)
  | ReserveBytes (work : AsyncWork)
  | UndoEntries (work : AsyncWork) (failure : RuntimeError)
  | UndoInvocation (work : AsyncWork) (failure : RuntimeError)
  | SpawnTask (work : AsyncWork)
  | InsertHandle (work : AsyncWork) (task : nat)
  | SendStart (work : AsyncWork) (task : nat)
  | SpawnDone (result : RuntimeResult AsyncInvocationHandle).

Record AsyncExecutorState : Type := MkAsyncExecutorState {
  es_running_invocations : N;
  es_running_entries : N;
  es_inflight_bytes : N;
  es_handles : gmap string nat;
  es_tasks : list AsyncTask;
  es_spawner : SpawnPc;
  (** events given to the sink, and replies sent directly *)
  es_events : list AsyncExecutorEvent;
  es_replies : list (N * RuntimeError)
}.

Definition AsyncExecutorState_eta (s : AsyncExecutorState) : AsyncExecutorState :=
  {| es_running_invocations := es_running_invocations s; es_running_entries := es_running_entries s;
     es_inflight_bytes := es_inflight_bytes s; es_handles := es_handles s; es_tasks := es_tasks s;
     es_spawner := es_spawner s; es_events := es_events s; es_replies := es_replies s |}.

#[export] Instance set_es_running_invocations : Setter es_running_invocations := ltac:(derive_setter AsyncExecutorState_eta es_running_invocations).
#[export] Instance set_es_running_entries : Setter es_running_entries := ltac:(derive_setter AsyncExecutorState_eta es_running_entries).
#[export] Instance set_es_inflight_bytes : Setter es_inflight_bytes := ltac:(derive_setter AsyncExecutorState_eta es_inflight_bytes).
#[export] Instance set_es_handles : Setter es_handles := ltac:(derive_setter AsyncExecutorState_eta es_handles).
#[export] Instance set_es_tasks : Setter es_tasks := ltac:(derive_setter AsyncExecutorState_eta es_tasks).
#[export] Instance set_es_spawner : Setter es_spawner := ltac:(derive_setter AsyncExecutorState_eta es_spawner).
#[export] Instance set_es_events : Setter es_events := ltac:(derive_setter AsyncExecutorState_eta es_events).
#[export] Instance set_es_replies : Setter es_replies := ltac:(derive_setter AsyncExecutorState_eta es_replies).

Definition AsyncExecutorState_default : AsyncExecutorState :=
  {| es_running_invocations := 0; es_running_entries := 0; es_inflight_bytes := 0; es_handles := ∅; es_tasks := [];
     es_spawner := SpawnIdle; es_events := []; es_replies := [] |}.

(** [runtime_started]: whether the tokio runtime could be built *)
Definition TokioAsyncExecutor_new (configured_threads max_invocations max_entries max_bytes : N)
    (runtime_started : Result string unit) : RuntimeResult (TokioAsyncExecutor * AsyncExecutorState) :=
  if bool_decide (configured_threads = 0%N) || bool_decide (max_invocations = 0%N) || bool_decide (max_entries = 0%N)
     || bool_decide (max_bytes = 0%N)
  then Err (host_failure "host.async_executor.config" "async executor limits must be greater than zero")
  else
    match runtime_started with
    | Err error => Err (host_failure "host.async_executor.start" error)
    | Ok _ => Ok (MkTokioAsyncExecutor configured_threads max_invocations max_entries max_bytes, AsyncExecutorState_default)
    end.

Definition executor_snapshot (executor : TokioAsyncExecutor) (s : AsyncExecutorState) : AsyncExecutorSnapshot :=
  {| aes_executor_id := "async_io"; aes_configured_threads := ex_configured_threads executor;
     aes_running_invocations := es_running_invocations s; aes_running_entries := es_running_entries s;
     aes_inflight_bytes := es_inflight_bytes s; aes_max_inflight_invocations := ex_max_inflight_invocations executor;
     aes_max_inflight_entries := ex_max_inflight_entries executor;
     aes_max_inflight_bytes := ex_max_inflight_bytes executor |}.

(** ** Reserving *)

Definition capacity_error (dimension : string) (requested current limit : N) : RuntimeError :=
  with_evidence "limit" (attr_int limit)
    (with_evidence "current" (attr_int current)
      (with_evidence "requested" (attr_int requested)
        (runtime_error ERR_CAPABILITY_EXHAUSTED "runtime.host.async_executor"
           ("host.async_executor.capacity." +:+ dimension)))).

Definition reserve_counter (counter amount limit : N) (dimension : string) : RuntimeResult N :=
  let next := (counter + amount)%N in
  if decide (usize_max < next)%N then Err (capacity_error dimension amount counter limit)
  else if decide (limit < next)%N then Err (capacity_error dimension amount counter limit)
  else Ok next.

(** A reservation that fails: the caller gets the failure, and so does who
    waits for the reply of a resource operation. *)
Definition spawn_fails (work : AsyncWork) (failure : RuntimeError) (s : AsyncExecutorState) : AsyncExecutorState :=
  let s := s <| es_spawner := SpawnDone (Err failure) |> in
  match work with
  | HandlerWork _ => s
  | ResourceWork _ reply => s <| es_replies ::= λ l, l ++ [(reply, failure)] |>
  end.

Definition spawn_step (executor : TokioAsyncExecutor) (s : AsyncExecutorState) : option AsyncExecutorState :=
  match es_spawner s with
  | SpawnIdle | SpawnDone _ => None
  | ReserveInvocation work => Some
      match reserve_counter (es_running_invocations s) 1 (ex_max_inflight_invocations executor) "invocations" with
      | Err failure => spawn_fails work failure s
      | Ok next => s <| es_running_invocations := next |> <| es_spawner := ReserveEntries work |>
      end
  | ReserveEntries work => Some
      match reserve_counter (es_running_entries s) (ai_entry_count (work_invocation work))
              (ex_max_inflight_entries executor) "entries" with
      | Err failure => s <| es_spawner := UndoInvocation work failure |>
      | Ok next => s <| es_running_entries := next |> <| es_spawner := ReserveBytes work |>
      end
  | ReserveBytes work => Some
      match reserve_counter (es_inflight_bytes s) (ai_payload_bytes (work_invocation work))
              (ex_max_inflight_bytes executor) "bytes" with
      | Err failure => s <| es_spawner := UndoEntries work failure |>
      | Ok next => s <| es_inflight_bytes := next |> <| es_spawner := SpawnTask work |>
      end
  | UndoEntries work failure => Some
      (s <| es_running_entries ::= λ n, fetch_sub n (ai_entry_count (work_invocation work)) |>
         <| es_spawner := UndoInvocation work failure |>)
  | UndoInvocation work failure => Some
      (spawn_fails work failure (s <| es_running_invocations ::= λ n, fetch_sub n 1 |>))
  | SpawnTask work => Some
      (s <| es_tasks ::= λ l, l ++ [MkAsyncTask work false false AwaitStart] |>
         <| es_spawner := InsertHandle work (length (es_tasks s)) |>)
  | InsertHandle work task => Some
      (s <| es_handles ::= <[ ai_invocation_id (work_invocation work) := task ]> |> <| es_spawner := SendStart work task |>)
  | SendStart work task => Some
      (s <| es_tasks ::= alter (λ t, MkAsyncTask (at_work t) true (at_aborted t) (at_pc t)) task |>
         <| es_spawner := SpawnDone (Ok (MkAsyncInvocationHandle (ai_invocation_id (work_invocation work))
                                           (ai_cancel_token (work_invocation work)))) |>)
  end.

(** ** Cancelling *)

Definition abort_task (t : AsyncTask) : AsyncTask := MkAsyncTask (at_work t) (at_started t) true (at_pc t).

Definition executor_cancel (handle : AsyncInvocationHandle) (s : AsyncExecutorState) : bool * AsyncExecutorState :=
  match es_handles s !! aih_invocation_id handle with
  | Some task => (true, s <| es_handles ::= delete (aih_invocation_id handle) |> <| es_tasks ::= alter abort_task task |>)
  | None => (false, s)
  end.

Definition executor_cancel_all (s : AsyncExecutorState) : N * AsyncExecutorState :=
  let handles := btree_entries (es_handles s) in
  (len handles, s <| es_handles := ∅ |> <| es_tasks ::= λ tasks, foldl (λ tasks task, alter abort_task task tasks) tasks handles.*2 |>).

(** ** A task *)

Definition with_pc (pc : TaskPc) (t : AsyncTask) : AsyncTask := MkAsyncTask (at_work t) (at_started t) (at_aborted t) pc.

Definition task_goto (task : nat) (pc : TaskPc) (s : AsyncExecutorState) : AsyncExecutorState :=
  s <| es_tasks ::= alter (with_pc pc) task |>.

(** One step of a task; [ended] is how its future ends in this step, and
    nothing when the abort reaches it where it awaits. *)
Definition task_step (task : nat) (ended : option FutureEnd) (s : AsyncExecutorState) : option AsyncExecutorState :=
  match es_tasks s !! task with
  | None => None
  | Some t =>
      match at_pc t with
      | AwaitStart =>
          match ended with
          | Some _ =>
              if at_started t then
                Some (task_goto task (match at_work t with HandlerWork _ => EmitStarted | ResourceWork _ _ => AwaitFuture end) s)
              else None
          | None => if at_aborted t then Some (task_goto task (DropInvocation None) s) else None
          end
      | EmitStarted => Some (task_goto task AwaitFuture (s <| es_events ::= λ l, l ++ [AsyncStarted (work_invocation (at_work t))] |>))
      | AwaitFuture =>
          match ended with
          | Some ended =>
              match final_event (at_work t) ended with
              | Some event => Some (task_goto task (RemoveHandle event) s)
              | None => None
              end
          | None => if at_aborted t then Some (task_goto task (DropInvocation None) s) else None
          end
      | RemoveHandle event => Some
          (task_goto task (EmitFinal event) (s <| es_handles ::= delete (ai_invocation_id (work_invocation (at_work t))) |>))
      | EmitFinal event => Some
          (task_goto task (DropInvocation (Some event)) (s <| es_events ::= λ l, l ++ [event] |>))
      | DropInvocation sent => Some
          (task_goto task (DropEntries sent) (s <| es_running_invocations ::= λ n, fetch_sub n 1 |>))
      | DropEntries sent => Some
          (task_goto task (DropBytes sent)
             (s <| es_running_entries ::= λ n, fetch_sub n (ai_entry_count (work_invocation (at_work t))) |>))
      | DropBytes sent => Some
          (task_goto task (TaskOver sent)
             (s <| es_inflight_bytes ::= λ n, fetch_sub n (ai_payload_bytes (work_invocation (at_work t))) |>))
      | TaskOver _ => None
      end
  end.

(** ** Interleavings *)

Definition spawner_idle (s : AsyncExecutorState) : Prop :=
  match es_spawner s with SpawnIdle | SpawnDone _ => True | _ => False end.

Inductive executor_step (executor : TokioAsyncExecutor) (s : AsyncExecutorState) : AsyncExecutorState → Prop :=
  | step_spawn_begin work : spawner_idle s → executor_step executor s (s <| es_spawner := ReserveInvocation work |>)
  | step_spawn s' : spawn_step executor s = Some s' → executor_step executor s s'
  | step_cancel handle : spawner_idle s → executor_step executor s (executor_cancel handle s).2
  | step_cancel_all : spawner_idle s → executor_step executor s (executor_cancel_all s).2
  | step_task task ended s' : task_step task ended s = Some s' → executor_step executor s s'.
End Executor.

(** ** What holds of the async executor under every interleaving

    Reservations are exact and within the limits, every task sends at most one
    event that ends it, and no abort handle outlives its task. *)

#[local] Arguments total : simpl never.
#[local] Arguments fetch_sub : simpl never.

Lemma total_member {A} (f : A → N) l i x : l !! i = Some x → (f x ≤ total f l)%N.
Proof.
  revert i. induction l as [|z l IH]; intros [|i] Hi; [done|done| |]; rewrite total_cons; [injection Hi as ->; lia|].
  specialize (IH i Hi). lia.
Qed.

Lemma total_alter_same {A} (f : A → N) (g : A → A) l i : (∀ x, f (g x) = f x) → total f (alter g i l) = total f l.
Proof.
  intros Hg. destruct (l !! i) as [x|] eqn:Hi.
  - pose proof (total_alter f g l i x Hi) as H. rewrite Hg in H. lia.
  - f_equal. apply list_eq. intros j. rewrite list_lookup_alter. case_decide; [|done]. by subst; rewrite Hi.
Qed.

Lemma bind_alter {A B} (f : A → list B) (g : A → A) (l : list A) i x :
  l !! i = Some x → (alter g i l ≫= f) ++ f x ≡ₚ (l ≫= f) ++ f (g x).
Proof.
  intros Hi. rewrite <-(bind_insert f l i x (g x) Hi). replace (alter g i l) with (<[i := g x]> l); [done|].
  apply list_eq. intros j. pose proof (lookup_lt_Some _ _ _ Hi). destruct (decide (i = j)) as [<-|Hne].
  - by rewrite list_lookup_insert_eq, list_lookup_alter_eq, Hi.
  - by rewrite list_lookup_insert_ne, list_lookup_alter_ne.
Qed.

Lemma bind_alter_same {A B} (f : A → list B) (g : A → A) (l : list A) i :
  (∀ x, f (g x) = f x) → (alter g i l ≫= f) = (l ≫= f).
Proof. intros Hg. revert i. induction l as [|z l IH]; intros [|i]; [done..| |]; cbn; [by rewrite Hg|]. f_equal. apply IH. Qed.

(** The cases of a step of a task *)
Ltac task_cases Hstep t ended Hpc :=
  destruct (at_pc t) eqn:Hpc;
  [destruct ended as [ended|]; [destruct (at_started t)|destruct (at_aborted t)]|
  |destruct ended as [ended|]; [destruct (final_event (at_work t) ended)|destruct (at_aborted t)]|..];
  try done; injection Hstep as <-.

Section Invariant.
Context `{RC : RunnerControl}.
Variable executor : TokioAsyncExecutor.
Abbreviation step := (executor_step executor).

(** ** What a task and the spawner have reserved *)

Definition holds_invocation (t : AsyncTask) : N :=
  match at_pc t with DropEntries _ | DropBytes _ | TaskOver _ => 0 | _ => 1 end.
Definition holds_entries (t : AsyncTask) : N :=
  match at_pc t with DropBytes _ | TaskOver _ => 0 | _ => ai_entry_count (work_invocation (at_work t)) end.
Definition holds_bytes (t : AsyncTask) : N :=
  match at_pc t with TaskOver _ => 0 | _ => ai_payload_bytes (work_invocation (at_work t)) end.

Definition spawns_invocation (pc : SpawnPc) : N :=
  match pc with
  | ReserveEntries _ | ReserveBytes _ | UndoEntries _ _ | UndoInvocation _ _ | SpawnTask _ => 1
  | _ => 0
  end.
Definition spawns_entries (pc : SpawnPc) : N :=
  match pc with
  | ReserveBytes work | UndoEntries work _ | SpawnTask work => ai_entry_count (work_invocation work)
  | _ => 0
  end.
Definition spawns_bytes (pc : SpawnPc) : N :=
  match pc with SpawnTask work => ai_payload_bytes (work_invocation work) | _ => 0 end.

Record reserved_exactly (s : AsyncExecutorState) : Prop := MkReservedExactly {
  re_invocations : es_running_invocations s = (total holds_invocation (es_tasks s) + spawns_invocation (es_spawner s))%N;
  re_entries : es_running_entries s = (total holds_entries (es_tasks s) + spawns_entries (es_spawner s))%N;
  re_bytes : es_inflight_bytes s = (total holds_bytes (es_tasks s) + spawns_bytes (es_spawner s))%N;
  re_invocation_limit : (es_running_invocations s ≤ ex_max_inflight_invocations executor)%N;
  re_entry_limit : (es_running_entries s ≤ ex_max_inflight_entries executor)%N;
  re_byte_limit : (es_inflight_bytes s ≤ ex_max_inflight_bytes executor)%N
}.

Hypothesis limits_fit : (ex_max_inflight_invocations executor ≤ usize_max)%N ∧
  (ex_max_inflight_entries executor ≤ usize_max)%N ∧ (ex_max_inflight_bytes executor ≤ usize_max)%N.

Lemma task_step_reserved task ended s s' : reserved_exactly s → task_step task ended s = Some s' → reserved_exactly s'.
Proof.
  intros [Hi He Hb Hil Hel Hbl] Hstep. unfold task_step in Hstep. destruct (es_tasks s !! task) as [t|] eqn:Ht; [|done].
  destruct limits_fit as (Fi & Fe & Fb).
  pose proof (total_member holds_invocation _ _ _ Ht). pose proof (total_member holds_entries _ _ _ Ht).
  pose proof (total_member holds_bytes _ _ _ Ht).
  task_cases Hstep t ended Hpc; (split; cbn;
    (match goal with
     | |- context [total ?f (alter ?g task ?l)] => pose proof (total_alter f g l task t Ht)
     | _ => idtac
     end); unfold holds_invocation, holds_entries, holds_bytes in *; cbn in *; rewrite Hpc in *;
    rewrite ?fetch_sub_exact; try lia).
  all: destruct (at_work t); lia.
Qed.

Lemma spawn_step_reserved s s' : reserved_exactly s → spawn_step executor s = Some s' → reserved_exactly s'.
Proof.
  intros [Hi He Hb Hil Hel Hbl] Hstep. destruct limits_fit as (Fi & Fe & Fb). unfold spawn_step in Hstep.
  destruct (es_spawner s) as [|work|work|work|work failure|work failure|work|work task|work task|result] eqn:Hs; try done;
    injection Hstep as <-; unfold reserve_counter, spawn_fails in *; cbn in *; repeat case_match; simplify_eq;
    (split; cbn; rewrite ?total_app, ?total_cons, ?total_nil, ?fetch_sub_exact; cbn; try lia).
  all: rewrite total_alter_same; lia || done.
Qed.

Lemma aborts_reserved tasks (l : list nat) (f : AsyncTask → N) :
  (∀ t, f (abort_task t) = f t) → total f (foldl (λ tasks task, alter abort_task task tasks) tasks l) = total f tasks.
Proof. intros Hf. revert tasks. induction l as [|i l IH]; intros tasks; cbn; [done|]. by rewrite IH, total_alter_same. Qed.

(** ** Events *)

Definition is_final (event : AsyncExecutorEvent) : bool := match event with AsyncStarted _ => false | _ => true end.

Definition sent_of (t : AsyncTask) : list AsyncExecutorEvent :=
  match at_pc t with
  | DropInvocation (Some event) | DropEntries (Some event) | DropBytes (Some event) | TaskOver (Some event) => [event]
  | _ => []
  end.

(** The event a task is about to send, or has sent, is one of its own. *)
Definition own_event (t : AsyncTask) : Prop :=
  match at_pc t with
  | RemoveHandle event | EmitFinal event | DropInvocation (Some event) | DropEntries (Some event) | DropBytes (Some event)
  | TaskOver (Some event) => ∃ ended, final_event (at_work t) ended = Some event
  | _ => True
  end.

Definition finals (s : AsyncExecutorState) : list AsyncExecutorEvent := filter (λ event, is_final event = true) (es_events s).

Definition events_matched (s : AsyncExecutorState) : Prop :=
  Forall own_event (es_tasks s) ∧ finals s ≡ₚ (es_tasks s ≫= sent_of).

Lemma final_is_final work ended event : final_event work ended = Some event → is_final event = true.
Proof. unfold final_event. repeat case_match; by intros [= <-]. Qed.

Lemma task_step_events task ended s s' : events_matched s → task_step task ended s = Some s' → events_matched s'.
Proof.
  unfold events_matched, finals. intros [Hown Hev] Hstep. unfold task_step in Hstep.
  destruct (es_tasks s !! task) as [t|] eqn:Ht; [|done].
  pose proof (proj1 (Forall_lookup _ _) Hown _ _ Ht) as Hme.
  assert (∀ g, own_event (g t) → Forall own_event (alter g task (es_tasks s))) as Hnext.
  { intros g Hg. apply Forall_lookup. intros i x. rewrite list_lookup_alter. case_decide as Hi; [subst; rewrite Ht; by intros [= <-]|].
    by apply Forall_lookup. }
  assert (∀ pc, own_event (with_pc pc t) → sent_of (with_pc pc t) = sent_of t →
    Forall own_event (alter (with_pc pc) task (es_tasks s)) ∧
    filter (λ event, is_final event = true) (es_events s) ≡ₚ (alter (with_pc pc) task (es_tasks s) ≫= sent_of)) as Hquiet.
  { intros pc Hpc Hsent. split; [by apply Hnext|]. rewrite Hev. symmetry.
    pose proof (bind_alter sent_of (with_pc pc) _ _ _ Ht) as Hmove. rewrite Hsent in Hmove.
    by apply Permutation_app_inv_r in Hmove. }
  unfold own_event, sent_of in Hquiet, Hme. cbn [at_pc with_pc at_work] in Hquiet.
  destruct (at_pc t) eqn:Hpc;
  [destruct ended as [ended|]; [destruct (at_started t)|destruct (at_aborted t)]|
  |destruct ended as [ended|]; [destruct (final_event (at_work t) ended) eqn:Hf|destruct (at_aborted t)]|..];
  try done; injection Hstep as <-; cbn; try (by apply Hquiet).
  - apply Hquiet; by destruct (at_work t).
  - rewrite filter_app, filter_cons_False, filter_nil, app_nil_r by done. by apply Hquiet.
  - apply Hquiet; [by exists ended|done].
  - destruct Hme as [e He]. split; [apply Hnext; by exists e|].
    rewrite filter_app, filter_cons_True, filter_nil, Hev by (by eapply final_is_final).
    pose proof (bind_alter sent_of (with_pc (DropInvocation (Some event))) _ _ _ Ht) as Hmove.
    unfold sent_of at 2 in Hmove. rewrite Hpc, app_nil_r in Hmove. by rewrite Hmove.
Qed.

Lemma spawn_step_events s s' : events_matched s → spawn_step executor s = Some s' → events_matched s'.
Proof.
  unfold events_matched, finals, spawn_step, spawn_fails. intros [Hown Hev] Hstep.
  destruct (es_spawner s); try done; injection Hstep as <-; repeat case_match; try done; cbn.
  - rewrite bind_app. cbn. rewrite app_nil_r. split; [|done]. by apply Forall_app_2, Forall_singleton.
  - rewrite bind_alter_same by done. split; [|done]. by apply Forall_alter.
Qed.

Lemma aborts_events tasks (l : list nat) :
  let aborted := foldl (λ tasks task, alter abort_task task tasks) tasks l in
  (Forall own_event tasks → Forall own_event aborted) ∧ (aborted ≫= sent_of) = (tasks ≫= sent_of).
Proof.
  revert tasks. induction l as [|i l IH]; intros tasks; cbn; [done|].
  destruct (IH (alter abort_task i tasks)) as [Hown Hsent]. split.
  - intros H. apply Hown. by apply Forall_alter.
  - cbn in Hsent. rewrite Hsent. by apply bind_alter_same.
Qed.

(** ** Handles *)

(** The task has not reached the point where it removes its handle. *)
Definition registered (t : AsyncTask) : Prop :=
  at_aborted t = false ∧ match at_pc t with AwaitStart | EmitStarted | AwaitFuture | RemoveHandle _ => True | _ => False end.

Definition handles_of_tasks (s : AsyncExecutorState) : Prop :=
  ∀ id task, es_handles s !! id = Some task →
    ∃ t, es_tasks s !! task = Some t ∧ ai_invocation_id (work_invocation (at_work t)) = id ∧ registered t.

(** A task waits at its gate until its handle is in the table. *)
Definition gated (s : AsyncExecutorState) : Prop :=
  match es_spawner s with
  | InsertHandle work task => es_tasks s !! task = Some (MkAsyncTask work false false AwaitStart)
  | _ => True
  end.

Lemma task_step_handles task ended s s' :
  handles_of_tasks s → gated s → task_step task ended s = Some s' → handles_of_tasks s' ∧ gated s'.
Proof.
  intros Hh Hg Hstep. unfold task_step in Hstep. destruct (es_tasks s !! task) as [t|] eqn:Ht; [|done].
  assert (∀ pc, (registered t → registered (with_pc pc t)) → ∀ id i, es_handles s !! id = Some i →
    ∃ t, alter (with_pc pc) task (es_tasks s) !! i = Some t ∧ ai_invocation_id (work_invocation (at_work t)) = id ∧ registered t) as Hkeep.
  { intros pc Hreg id i (u & Hu & Hid & Hr)%Hh. rewrite list_lookup_alter. case_decide as Hi; [subst|by exists u].
    rewrite Ht in Hu. injection Hu as ->. rewrite Ht. cbn. eexists. split_and!; [done|done|by apply Hreg]. }
  assert (∀ pc, match es_spawner s with
    | InsertHandle work i => alter (with_pc pc) task (es_tasks s) !! i = Some (MkAsyncTask work false false AwaitStart)
    | _ => True
    end) as Hgate.
  { intros pc. unfold gated in Hg. destruct (es_spawner s) as [| | | | | | |work i| |]; try done.
    rewrite list_lookup_alter_ne; [done|]. intros ->. rewrite Ht in Hg. injection Hg as ->. by destruct ended. }
  destruct (at_pc t) eqn:Hpc;
  [destruct ended as [ended|]; [destruct (at_started t)|destruct (at_aborted t) eqn:Hab]|
  |destruct ended as [ended|]; [destruct (final_event (at_work t) ended) eqn:Hf|destruct (at_aborted t) eqn:Hab]|..];
  try done; injection Hstep as <-; (split; [|by apply Hgate]).
  6: { intros id i. cbn. rewrite lookup_delete_Some. intros [Hne (u & Hu & Hid & Hr)%Hh]. rewrite list_lookup_alter.
       case_decide as Hi; [|by exists u]. subst. rewrite Ht in Hu. by injection Hu as ->. }
  all: unfold handles_of_tasks; cbn; apply Hkeep; unfold registered; cbn; rewrite Hpc; try (by intros []); try by rewrite Hab; intros [].
  by destruct (at_work t).
Qed.

Lemma spawn_step_handles s s' :
  handles_of_tasks s → gated s → spawn_step executor s = Some s' → handles_of_tasks s' ∧ gated s'.
Proof.
  unfold spawn_step, spawn_fails. intros Hh Hg Hstep.
  assert (∀ f u, (∀ i t, es_tasks s !! i = Some t → ∃ t', f !! i = Some t' ∧ at_work t' = at_work t ∧ (registered t → registered t')) →
    es_handles u = es_handles s → es_tasks u = f → handles_of_tasks u) as Hkeep.
  { intros f u Hf Eh Et id i. rewrite Eh, Et. intros (t & Ht & Hid & Hr)%Hh. destruct (Hf i t Ht) as (t' & Ht' & Hw & Hr').
    exists t'. rewrite Hw. split_and!; [done|done|by apply Hr']. }
  unfold gated in Hg. destruct (es_spawner s) as [|work|work|work|work failure|work failure|work|work task|work task|result];
    try done; injection Hstep as <-; repeat case_match; try done.
  - split; [|by apply (list_lookup_middle (es_tasks s) [])].
    eapply Hkeep; [|done|done]. intros i t Ht. exists t. split; [|done]. by apply lookup_app_l_Some.
  - split; [|done]. intros id i. cbn. rewrite lookup_insert_Some. intros [[<- <-]|[_ Hi]]; [|by apply Hh].
    by eexists.
  - split; [|done]. eapply Hkeep; [|done|done]. intros i t Ht. cbn. rewrite list_lookup_alter.
    case_decide; [subst; rewrite Ht; by eexists|by exists t].
Qed.

Lemma cancel_handles handle s :
  handles_of_tasks s → handles_of_tasks (executor_cancel handle s).2.
Proof.
  unfold executor_cancel. intros Hh. destruct (es_handles s !! aih_invocation_id handle) as [task|] eqn:Hc; [|done].
  intros id i. cbn. rewrite lookup_delete_Some. intros [Hne (t & Ht & Hid & Hr)%Hh].
  exists t. rewrite list_lookup_alter_ne; [done|]. intros ->.
  destruct (Hh _ _ Hc) as (u & Hu & Hid' & _). rewrite Ht in Hu. injection Hu as <-. congruence.
Qed.

(** ** Every reachable executor *)

Definition executor_ok (s : AsyncExecutorState) : Prop :=
  reserved_exactly s ∧ events_matched s ∧ handles_of_tasks s ∧ gated s.

Lemma idle_spawns s : spawner_idle s → spawns_invocation (es_spawner s) = 0%N ∧ spawns_entries (es_spawner s) = 0%N ∧
  spawns_bytes (es_spawner s) = 0%N ∧ ∀ t, gated (t <| es_spawner := es_spawner s |>).
Proof. unfold spawner_idle, gated. by destruct (es_spawner s). Qed.

Lemma executor_step_ok s s' : executor_ok s → step s s' → executor_ok s'.
Proof.
  intros (Hr & He & Hh & Hg) Hstep. destruct Hstep as [work Hs|s' Hstep|handle Hs|Hs|task ended s' Hstep].
  - destruct (idle_spawns s Hs) as (Z1 & Z2 & Z3 & _). destruct Hr as [Hi Hn Hb ? ? ?].
    split_and!; [|done|done|done]. split; cbn; lia.
  - split_and!; [by eapply spawn_step_reserved|by eapply spawn_step_events|by eapply spawn_step_handles..].
  - split_and!; [| |by apply cancel_handles|]; unfold executor_cancel; destruct (es_handles s !! _) as [task|]; try done.
    + destruct Hr. by split; cbn; rewrite ?total_alter_same.
    + destruct He as [Hown Hev]. split; cbn; [by apply Forall_alter|]. by rewrite bind_alter_same.
    + unfold gated, spawner_idle in *. cbn. by destruct (es_spawner s).
  - unfold executor_cancel_all. split_and!.
    + destruct Hr. by split; cbn; rewrite ?aborts_reserved.
    + destruct He as [Hown Hev], (aborts_events (es_tasks s) (btree_entries (es_handles s)).*2) as [Ha Hb].
      split; cbn; [by apply Ha|]. cbn in Hb. by rewrite Hb.
    + intros id i. cbn. by rewrite lookup_empty.
    + unfold gated, spawner_idle in *. cbn. by destruct (es_spawner s).
  - split_and!; [by eapply task_step_reserved|by eapply task_step_events|by eapply task_step_handles..].
Qed.
End Invariant.

Section Reachable.
Context `{RC : RunnerControl}.

(** An executor created with limits that are [usize]s, after any interleaving
    of spawning, cancelling and the steps of its tasks *)
Definition executor_reachable (executor : TokioAsyncExecutor) (s : AsyncExecutorState) : Prop :=
  ∃ threads invocations entries bytes runtime s0,
    (invocations ≤ usize_max)%N ∧ (entries ≤ usize_max)%N ∧ (bytes ≤ usize_max)%N ∧
    TokioAsyncExecutor_new threads invocations entries bytes runtime = Ok (executor, s0) ∧
    rtc (executor_step executor) s0 s.

Lemma executor_reachable_ok executor s : executor_reachable executor s → executor_ok executor s.
Proof.
  intros (threads & invocations & entries & bytes & runtime & s0 & Hi & He & Hb & Hnew & Hsteps).
  unfold TokioAsyncExecutor_new in Hnew. destruct (_ || _ || _ || _); [done|]. destruct runtime; [|done].
  injection Hnew as <- <-. set (executor := MkTokioAsyncExecutor _ _ _ _) in *.
  assert (executor_ok executor AsyncExecutorState_default) as H0.
  { split_and!; [split; cbn; rewrite ?total_nil; done || apply N.le_0_l|by split|by intros id task; cbn; rewrite lookup_empty|done]. }
  induction Hsteps as [|s1 s2 s3 Hstep _ IH]; [done|]. apply IH. by eapply executor_step_ok.
Qed.

(** C26: under every interleaving the executor counts exactly the invocations,
    entries and bytes of the tasks that still hold their reservation and of a
    spawn under way, never above the three limits: a reservation is given back
    once and only once, whether its task completes, times out, panics, is
    aborted before or after it started, or was never spawned. *)
Theorem executor_reservations_exact executor s : executor_reachable executor s → reserved_exactly executor s.
Proof. by intros [Hr _]%executor_reachable_ok. Qed.

(** every task ends with at most one event, one of its own: the events
    that end an invocation are exactly those of the tasks that ended with one,
    and an aborted task sends none; when all tasks are over, no abort handle
    is left in the table. *)
Theorem executor_ends_once executor s :
  executor_reachable executor s →
  Forall own_event (es_tasks s) ∧ finals s ≡ₚ (es_tasks s ≫= sent_of) ∧
  (Forall (λ t, ∃ sent, at_pc t = TaskOver sent) (es_tasks s) → es_handles s = ∅).
Proof.
  intros (_ & [Hown Hev] & Hh & _)%executor_reachable_ok. split_and!; [done|done|]. intros Hover.
  apply map_empty. intros id. apply eq_None_not_Some. intros [i (t & Ht & _ & _ & Hr)%Hh].
  rewrite Forall_lookup in Hover. destruct (Hover _ _ Ht) as [sent Hsent]. by rewrite Hsent in Hr.
Qed.
End Reachable.
