(* ===== verification/HostActorWitnesses.v ===== *)
(** * Concrete runs of the host actor

    A world with a clock, pools that take every dispatch and an executor that
    takes and cancels every invocation; runtimes with a worker, an async
    handler and the kernel, driven through messages.

    Below, runs of a worker pool and of the async executor. *)

From stdpp Require Import relations.
From S2P Require Import Prelude Contracts RunnerContracts BatchContracts PluginContracts DemoJson Logs StateStore ResourceManager TaskRecords TaskIndexes TaskPool TaskClaiming Registry RuntimeState RuntimeTasks BatchBuild RuntimeRouting RuntimeDispatch RuntimeReload RuntimeResources RuntimeInvariant RuntimeRuns RuntimeOps RuntimeWitnesses WireBytes WireOperations HostErrors HostScheduler HostCommands HostActor HostLoop HostLoopTheorems HostPassTheorems HostFuel HostReturns HostPool HostExecutor.

#[local] Existing Instance DemoRunners.
#[local] Existing Instance DemoSerde.

#[local] Instance DemoControl : RunnerControl := {|
  TerminationHandle := unit; ManagementHandle := unit;
  runner_isolation := λ _, None; runner_management_handle := λ _, None;
  recover_after_hard_termination := λ runner, (Ok tt, runner);
  handler_isolation := λ _, None; handler_management_handle := λ _, None
|}.

Definition roomy : PoolCapacitySnapshot := MkPoolCapacitySnapshot 4 0 0 0 0 0 1000.
Definition roomy_executor : AsyncExecutorSnapshot := MkAsyncExecutorSnapshot "async_io" 1 0 0 0 8 8 1000.
Definition demo_pool_snapshot : WorkerPoolSnapshot := MkWorkerPoolSnapshot "demo" [Cpu] 4 4 0 0 0 0 0 0 1000 16 2 false.
Definition no_provider {A} : RuntimeResult A := Err (resource_provider_missing "demo").

(** The world is the time; every reading of the clock takes a second. *)
#[local] Program Instance DemoWorld `{RC : RunnerControl} : HostWorld := {|
  World := N;
  instant_now := λ w, (w, (w + 1000000000)%N);
  pool_available_slots := λ _ _ _, 4%N;
  pool_capacity := λ _ _ _, roomy;
  pool_send := λ _ _ w, (Ok tt, w);
  pool_isolate := λ _ _ w, (true, w);
  pool_replace_exited_worker := λ _ _ w, (Ok tt, w);
  pool_snapshot := λ _ _, demo_pool_snapshot;
  async_snapshot := λ _ _, roomy_executor;
  async_spawn := λ invocation _ _ _ w,
    (Ok (MkAsyncInvocationHandle (ai_invocation_id invocation) (ai_cancel_token invocation)), w);
  async_cancel := λ _ w, (Ok true, w);
  async_cancel_all := λ w, w;
  async_resource_sequence := λ w, (0%N, w);
  async_spawn_resource := λ _ _ _ w, w;
  management_cancel := λ _ _ _ w, (Ok tt, w);
  terminate := λ _ w, (Ok tt, w);
  provider_create_blob := λ _ _ _ _ w, (no_provider, w);
  provider_create_cow_state := λ _ _ _ _ _ w, (no_provider, w);
  provider_create_capability := λ _ _ _ _ w, (no_provider, w);
  provider_collect := λ _ _ w, (no_provider, w);
  provider_snapshot := λ _ _ _ _ w, (no_provider, w);
  provider_open_stream := λ _ _ w, (no_provider, w);
  provider_export := λ _ _ w, (no_provider, w);
  provider_commit := λ _ _ _ w, (no_provider, w);
  provider_command := λ _ _ w, (no_provider, w);
  provider_command_batch := λ _ _ w, (no_provider, w);
  provider_saga := λ _ _ w, (no_provider, w);
  payload_json_bytes := λ _, Ok 10%N;
  command_json_bytes := λ _, Ok 10%N
|}.
Next Obligation. intros. vm_compute. discriminate. Qed.
Next Obligation. intros. vm_compute. discriminate. Qed.
Next Obligation. intros. unfold no_provider in *. done. Qed.

Definition demo_config (event_driven : bool) (limits : RunnerLimits) : HostRuntimeConfig :=
  {| cfg_event_driven := event_driven; cfg_tick_interval := 10000000; cfg_default_runner_limits := limits;
     cfg_runner_limits := ∅; cfg_scheduler_policy := DefaultScheduler_decide; cfg_async_executor := true;
     cfg_async_event_sink := true; cfg_resource_providers := ∅; cfg_async_resource_providers := ∅;
     cfg_cancel_grace_period := Some 30000000000%N; cfg_worker_health_timeout := None |}.

Definition start : World := 0%N.

(** ** Kernel tasks *)

(** A commit is submitted, and the runtime is driven as long as anything
    changes. *)
Definition commit_request : Task := demo_task "c" "core.commit" "value".

Definition commit_inbox : list (option CoreActorMsg) :=
  [Some (MsgCommand (CmdSubmitTask commit_request) 1); Some (MsgCommand CmdTickOnce 2); None;
   Some (MsgCommand (CmdRunUntilIdle 5) 3); None; None; None; None; None; Some (MsgTaskStatus "c" 4)].

Definition after_actor (config : HostRuntimeConfig) (core : CoreRuntime) (inbox : list (option CoreActorMsg)) : HostState :=
  match run_actor config core inbox start with
  | Some h => h
  | None => host_state_new core inbox start
  end.

(** [after_actor] is the state the actor ends in, if it does. *)
Definition actor_ends (config : HostRuntimeConfig) (core : CoreRuntime) (inbox : list (option CoreActorMsg)) : bool :=
  match run_actor config core inbox start with Some _ => true | None => false end.

Lemma after_actor_run config core inbox :
  actor_ends config core inbox = true → run_actor config core inbox start = Some (after_actor config core inbox).
Proof. unfold actor_ends, after_actor. by destruct (run_actor config core inbox start). Qed.

Definition commit_run : HostState := after_actor (demo_config false default_runner_limits) s0 commit_inbox.

(** The same task in the core alone, ticked once *)
Definition core_commit : option (option TaskStatus * nat) :=
  match (let? _ := submit_task commit_request in let? _ := tick_once in ret (Ok tt)) s0 with
  | Some (_, s) => Some (task_status s "c", size (ss_values (rt_states s)))
  | None => None
  end.

(** A [core.commit] task submitted to a hosted runtime is still ready after the
    passes, and nothing is stored; the core alone completes it in one tick. *)
Theorem hosted_commit_never_runs :
  task_status (hs_core commit_run) "c" = Some Ready ∧ rt_states (hs_core commit_run) = MkStateStore ∅ ∧
  (hs_answers commit_run).*1 = [1; 2; 3; 4]%N ∧ core_commit = Some (Some Completed, 1).
Proof. by vm_compute. Qed.

(** ** Async batches *)

Definition async_handler : RunnerDescriptor :=
  {| d_runner_id := "b.async"; d_plugin_id := "p"; d_plugin_generation := 1; d_accepted_protocol_ids := ["demo.async"];
     d_purity := Pure; d_execution_class := Io; d_invocation_mode := AsyncReentrant; d_concurrency := Reentrant 4 8;
     d_input_schema := json_empty_object; d_output_schema := json_empty_object;
     d_batch := MkRunnerBatchCapability NativeBatch 8 8 8 4 false false true true SideEffectUnknown; d_payload := RunnerPayloadCapability_default;
     d_resources := RunnerResourceCapability_default; d_ordering := RunnerOrderingCapability_default;
     d_control := RunnerControlCapability_default; d_metadata := ∅; d_contract_surfaces := [] |}.

Definition async_provides : PluginProvides :=
  {| pv_runners := [worker; async_handler; kernel]; pv_protocols := [];
     pv_protocol_classes := {[ "demo.run" := ProtocolDomain; "demo.async" := ProtocolDomain;
                               "core.commit" := ProtocolCore; "core.event.append" := ProtocolCore ]};
     pv_handler_bindings := []; pv_resource_schemas := []; pv_resource_providers := []; pv_resource_types := [];
     pv_effects := []; pv_streams := []; pv_subscriptions := []; pv_timers := []; pv_state_schemas := [];
     pv_host_extensions := []; pv_plugin_backends := []; pv_codecs := []; pv_bridges := [];
     pv_scheduler_policies := []; pv_workflows := [] |}.

Definition async_plan : RuntimeLoadPlan :=
  {| plan_lock_version := 1; plan_core_api_version := "1"; plan_profile_id := "demo"; plan_profile_hash := "";
     plan_registry_generation := 1;
     plan_plugins := [{| pm_plugin_id := "p"; pm_version := "1"; pm_api_version := "1";
       pm_artifact := MkPluginArtifact ArtifactNative "" ""; pm_provides := async_provides; pm_requires := [];
       pm_permissions := MkPermissionGrant [] []; pm_lifecycle := MkLifecyclePolicy "" 0 true true false; pm_metadata := ∅ |}];
     plan_load_order := ["p"]; plan_runner_bindings := ∅; plan_plugin_deployments := ∅;
     plan_observability := ObservabilityProfile_default;
     plan_capability_graph := MkRuntimeCapabilityGraph FullDev [] [] [] [] [] [] [] [] [] [] [] [];
     plan_contract_surfaces := [] |}.

Definition async_core : CoreRuntime :=
  match boot_with_async_handlers async_plan [(worker, false); (kernel, false)] [async_handler] with
  | Some (Ok s) => s
  | _ => s0
  end.

Definition handle_of (id : string) : TaskHandle := task_handle (demo_task id "demo.async" "x").

Definition two_async_tasks : list (option CoreActorMsg) :=
  [Some (MsgCommand (CmdSubmitTask (demo_task "a1" "demo.async" "x")) 1);
   Some (MsgCommand (CmdSubmitTask (demo_task "a2" "demo.async" "x")) 2); Some (MsgCommand CmdTickOnce 3); None].

(** ** Cancelling one task of an async batch *)

Definition cancel_inbox : list (option CoreActorMsg) :=
  two_async_tasks ++ [Some (MsgCommand (CmdCancelTask (handle_of "a1")) 4); None].
Definition cancel_run : HostState := after_actor (demo_config false default_runner_limits) async_core cancel_inbox.

Definition running_ids (h : HostState) : list string := (map_to_list (hs_running h)).*1.

(** The two tasks run as one async invocation.  Cancelling the first aborts the
    invocation and forgets both: the second stays [Running] with nobody left
    to complete it, under a lease without an expiry. *)
Theorem async_cancel_strands_batch_mates :
  task_status (hs_core cancel_run) "a1" = Some Cancelled ∧ task_status (hs_core cancel_run) "a2" = Some Running ∧
  running_ids cancel_run = [] ∧ hs_inbox cancel_run = [] ∧
  (λ r, l_expires_at_step <$> r_lease r) <$> pool_get (rt_tasks (hs_core cancel_run)) "a2" = Some (Some None).
Proof. by vm_compute. Qed.

Definition tick_limits : RunnerLimits := MkRunnerLimits 128 256 256 (Some 1%N) None.
Definition tick_inbox : list (option CoreActorMsg) :=
  two_async_tasks ++ [Some (MsgCommand CmdTickOnce 4); None; Some (MsgCommand CmdTickOnce 5); None].
Definition tick_run : HostState := after_actor (demo_config false tick_limits) async_core tick_inbox.

(** The same when the deadline of the batch passes: only the first task of the
    batch is cancelled. *)
Theorem tick_deadline_strands_batch_mates :
  task_status (hs_core tick_run) "a1" = Some Cancelled ∧ task_status (hs_core tick_run) "a2" = Some Running ∧
  running_ids tick_run = [].
Proof. by vm_compute. Qed.

(** ** A runner lost to a time-out *)

Definition wall_limits : RunnerLimits := MkRunnerLimits 128 256 256 None (Some 3000000000%N).
Definition lost_completion : RunnerCompletion :=
  {| rcp_runner := Some (worker, false); rcp_task_leases := []; rcp_batch_id := "batch-1-a.worker-1";
     rcp_expected_entries := []; rcp_result := Err (host_failure "x" "y") |}.
Definition later_task : Task := (demo_task "u" "demo.run" "x") <| t_ready_at_step := Some 5%N |>.
Definition lost_inbox : list (option CoreActorMsg) :=
  [Some (MsgCommand (CmdSubmitTask (demo_task "t" "demo.run" "x")) 1); None; None;
   Some (MsgWorkerCompleted lost_completion); Some (MsgCommand (CmdSubmitTask later_task) 2); None; None;
   Some (MsgCommand CmdStatistics 3)].
Definition lost_run : HostState := after_actor (demo_config true wall_limits) s0 lost_inbox.

(** The batch of [t] runs into its wall-clock deadline and its runner object is
    dropped when the late completion arrives.  The next timed pass leases [u],
    finds no runner object, and the error ends the actor: [u] stays [Running]
    and what is left in the mailbox is never answered. *)
Theorem lost_runner_stops_actor :
  task_status (hs_core lost_run) "u" = Some Running ∧ (hs_answers lost_run).*1 = [1; 2]%N ∧
  last (hs_inbox lost_run) = Some (Some (MsgCommand CmdStatistics 3)).
Proof. by vm_compute. Qed.

(** ** Witnesses *)

Definition short_inbox : list (option CoreActorMsg) :=
  [Some (MsgTaskStatus "c" 7); Some (MsgCommand CmdBeginDrain 8); None; Some MsgShutdown; Some (MsgTaskStatus "c" 9)].
Definition short_config : HostRuntimeConfig := demo_config false default_runner_limits.

Lemma commands_answered_once_witness :
  run_actor short_config s0 short_inbox start = Some (after_actor short_config s0 short_inbox) ∧
  ∃ handled refused,
    short_inbox = handled ++ hs_inbox (after_actor short_config s0 short_inbox) ∧
    (hs_answers (after_actor short_config s0 short_inbox)).*1 ≡ₚ owed_by handled ++ refused ∧
    refused ⊆+ maybe_owed_by handled.
Proof.
  assert (run_actor short_config s0 short_inbox start = Some (after_actor short_config s0 short_inbox)) as Hrun
    by (apply after_actor_run; vm_compute; reflexivity).
  split; [exact Hrun|exact (commands_answered_once short_config s0 short_inbox start _ Hrun)].
Defined.


Lemma hosted_state_store_unchanged_witness :
  run_actor (demo_config false default_runner_limits) s0 commit_inbox start = Some commit_run ∧
  rt_states (hs_core commit_run) = rt_states s0.
Proof.
  assert (run_actor (demo_config false default_runner_limits) s0 commit_inbox start = Some commit_run) as Hrun
    by (apply after_actor_run; vm_compute; reflexivity).
  split; [exact Hrun|]. refine (hosted_state_store_unchanged _ _ commit_inbox start _ _ _ Hrun).
  - repeat constructor; intros [].
  - assert (reg_descriptor_snapshot (rt_registry s0) = [worker; kernel]) as -> by (vm_compute; reflexivity).
    repeat constructor; discriminate.
Defined.

Lemma actor_loops_end_witness :
  core_actor_loop short_config 9 (host_state_new s0 short_inbox start)
  = core_actor_loop short_config 6 (host_state_new s0 short_inbox start).
Proof. apply (actor_loops_end short_config (host_state_new s0 short_inbox start) 9). cbn. lia. Defined.

(** The commit run again, without looking at it. *)
Lemma actor_returns_witness : ∃ h, run_actor short_config s0 commit_inbox start = Some h ∧ rt_ok (hs_core h).
Proof.
  destruct (actor_returns short_config ltac:(intros w id d; discriminate) ltac:(intros id; vm_compute; discriminate) s0 commit_inbox start) as (h & Hrun & Hok & _).
  - apply s0_reachable.
  - vm_compute. reflexivity.
  - assert (reg_descriptor_snapshot (rt_registry s0) = [worker; kernel]) as -> by (vm_compute; reflexivity).
    repeat constructor; discriminate.
  - repeat constructor. by eexists.
  - demo_room.
  - exists h. exact (conj Hrun Hok).
Defined.

(** ** Concrete runs of a worker pool

    A pool with one thread: a dispatch is sent and run, and the worker is
    isolated just after it has finished. *)

#[local] Existing Instance DemoRunners.

#[local] Instance DemoPoolControl : RunnerControl := {|
  TerminationHandle := unit; ManagementHandle := unit;
  runner_isolation := λ _, None; runner_management_handle := λ _, None;
  recover_after_hard_termination := λ runner, (Ok tt, runner);
  handler_isolation := λ _, None; handler_management_handle := λ _, None
|}.

Definition ten_bytes (_ : BatchPayload) : Result string N := Ok 10%N.
Definition run_caught (ctx : RunnerContext) (batch : WorkBatch) (runner : Runner) :
    option (RuntimeResult CompletionBatch) * Runner :=
  let '(result, runner) := runner_run_batch ctx batch runner in (Some result, runner).

(** ** Driving a pool *)

Inductive Act : Type :=
  | ActSend (dispatch : RunnerDispatch)
  | ActSendStep
  | ActWork (index : nat)
  | ActIsolate (index : nat).

Definition act (pool : WorkerPool) (a : Act) (s : WorkerPoolState) : option WorkerPoolState :=
  match a with
  | ActSend dispatch =>
      match ps_sender s, ps_open s with
      | (SendIdle | SendDone _ _), true => Some (send_begin pool dispatch s)
      | _, _ => None
      end
  | ActSendStep => send_step ten_bytes pool s
  | ActWork index => worker_step run_caught pool index true s
  | ActIsolate index =>
      match ps_sender s with
      | SendIdle | SendDone _ _ => Some (isolate pool (worker_id_of pool index) s).2
      | _ => None
      end
  end.

Fixpoint drive (pool : WorkerPool) (acts : list Act) (s : WorkerPoolState) : WorkerPoolState :=
  match acts with
  | [] => s
  | a :: acts => match act pool a s with Some s => drive pool acts s | None => s end
  end.

Lemma act_steps pool a s s' : act pool a s = Some s' → worker_pool_step ten_bytes run_caught pool s s'.
Proof.
  destruct a as [dispatch| |index|index]; cbn [act].
  - intros Ha. assert (sender_idle s ∧ ps_open s = true ∧ send_begin pool dispatch s = s') as (Hs & Ho & <-).
    { unfold sender_idle. destruct (ps_sender s), (ps_open s); try done; by injection Ha as <-. }
    by constructor.
  - by constructor.
  - by apply (step_worker _ _ _ _ index true).
  - intros Ha. assert (sender_idle s ∧ (isolate pool (worker_id_of pool index) s).2 = s') as [Hs <-].
    { unfold sender_idle. destruct (ps_sender s); try done; by injection Ha as <-. }
    by constructor.
Qed.

Lemma drive_steps pool acts s : rtc (worker_pool_step ten_bytes run_caught pool) s (drive pool acts s).
Proof.
  revert s. induction acts as [|a acts IH]; intros s; cbn [drive]; [done|].
  destruct (act pool a s) as [s'|] eqn:Ha; [|done]. eapply rtc_l; [by eapply act_steps|apply IH].
Qed.

(** ** One dispatch *)

Definition small_pool : WorkerPool := MkWorkerPool "compute" [Orchestration; Cpu] 2 100 1 1.
Definition fresh_pool : WorkerPoolState := (spawn_worker small_pool true WorkerPoolState_default).2.

Definition some_dispatch : RunnerDispatch :=
  {| rdp_target := TargetSync (worker, false); rdp_ctx := RunnerContext_new 1 1 "executor:a.worker" [] "b";
     rdp_task_leases := []; rdp_batch := build_work_batch 1 "b" worker [] |}.

(** The dispatch is in the queue, and a worker has it. *)
Definition sent_pool : WorkerPoolState := drive small_pool (ActSend some_dispatch :: replicate 5 ActSendStep) fresh_pool.
Definition trying_pool : WorkerPoolState := drive small_pool (ActSend some_dispatch :: replicate 4 ActSendStep) fresh_pool.
Definition working_pool : WorkerPoolState := drive small_pool (replicate 4 (ActWork 0)) sent_pool.
(** It has run, the worker waits again, and is isolated. *)
Definition late_pool : WorkerPoolState := drive small_pool [ActIsolate 0] (drive small_pool (replicate 12 (ActWork 0)) sent_pool).

Lemma small_pool_reaches s : rtc (worker_pool_step ten_bytes run_caught small_pool) fresh_pool s → pool_reachable ten_bytes run_caught small_pool s.
Proof.
  intros Hs. exists (λ _, true), "compute", [Orchestration; Cpu], [true], 2%N, 100%N, 3%N, fresh_pool.
  split; [vm_compute; discriminate|]. split; [vm_compute; reflexivity|exact Hs].
Qed.

Lemma sent_steps : rtc (worker_pool_step ten_bytes run_caught small_pool) fresh_pool sent_pool.
Proof. exact (drive_steps small_pool (ActSend some_dispatch :: replicate 5 ActSendStep) fresh_pool). Qed.

Lemma sent_reaches acts : pool_reachable ten_bytes run_caught small_pool (drive small_pool acts sent_pool).
Proof. apply small_pool_reaches. etrans; [exact sent_steps|apply drive_steps]. Qed.

(** A worker isolated too late, as the actor isolates one whose completion it
    has not yet read: the only thread of the pool waits for work the pool will
    never get. *)
Theorem late_isolation_is_reachable : pool_reachable ten_bytes run_caught small_pool late_pool ∧ starved small_pool late_pool.
Proof.
  split.
  { apply small_pool_reaches. etrans; [exact sent_steps|].
    etrans; [exact (drive_steps _ (replicate 12 (ActWork 0)) sent_pool)|]. exact (drive_steps _ [ActIsolate 0] _). }
  assert (ps_messages late_pool = [MsgWorkerStarted (worker_started "compute-worker-0" some_dispatch);
    MsgWorkerCompleted (execute_dispatch run_caught some_dispatch)]) as Hm by (vm_compute; reflexivity).
  assert (ps_workers late_pool = [AtRecv]) as Hw by (vm_compute; reflexivity).
  split.
  - vm_compute. reflexivity.
  - vm_compute. discriminate.
  - vm_compute. reflexivity.
  - vm_compute. exact I.
  - intros exited. rewrite Hm. intros [|Hin]%elem_of_cons; [done|]. by apply list_elem_of_singleton in Hin.
  - intros i pc. rewrite Hw. intros Hi _. destruct i as [|[|i]]; [by injection Hi as <-|done|done].
Qed.

(** ** Witnesses *)

Lemma pool_counters_exact_witness :
  pool_reachable ten_bytes run_caught small_pool working_pool ∧ pool_counted small_pool working_pool ∧
  ps_inflight_bytes working_pool = 10%N.
Proof.
  assert (pool_reachable ten_bytes run_caught small_pool working_pool) as Hr by exact (sent_reaches (replicate 4 (ActWork 0))).
  split_and!; [exact Hr|exact (pool_counters_exact _ _ _ _ Hr)|vm_compute; reflexivity].
Defined.

Lemma dispatches_conserved_witness :
  ps_accepted working_pool ≡ₚ
    ps_queue working_pool ++ (ps_workers working_pool ≫= held_of) ++ ps_executed working_pool ++ ps_dropped working_pool.
Proof. apply (dispatches_conserved ten_bytes run_caught small_pool). exact (sent_reaches (replicate 4 (ActWork 0))). Defined.

Lemma send_never_refused_witness : ∃ q,
  ps_sender trying_pool = SendTry q ∧
  send_step ten_bytes small_pool trying_pool =
    Some (trying_pool <| ps_queue ::= λ l, l ++ [q] |> <| ps_accepted ::= λ l, l ++ [q] |>
            <| ps_sender := SendDone (qd_dispatch q) (Ok tt) |>).
Proof.
  assert (ps_sender trying_pool = SendTry (MkQueuedDispatch some_dispatch 0 10)) as Hq by (vm_compute; reflexivity).
  exists (MkQueuedDispatch some_dispatch 0 10). split; [exact Hq|].
  refine (proj1 (send_never_refused ten_bytes run_caught small_pool trying_pool _) _ Hq).
  apply small_pool_reaches. exact (drive_steps small_pool (ActSend some_dispatch :: replicate 4 ActSendStep) fresh_pool).
Defined.

Lemma isolation_bounded_witness :
  (N.of_nat (size (ps_isolated_workers late_pool)) ≤ wp_max_isolated_threads small_pool)%N.
Proof. exact (proj1 (isolation_bounded ten_bytes run_caught small_pool late_pool (proj1 late_isolation_is_reachable))). Defined.

Lemma late_isolation_starves_pool_witness :
  starved small_pool late_pool ∧
  available_slots small_pool (drive small_pool [ActSend some_dispatch; ActWork 0] late_pool) = 0%N.
Proof.
  assert (starved small_pool late_pool) as Hs by exact (proj2 late_isolation_is_reachable).
  split; [exact Hs|].
  exact (proj1 (late_isolation_starves_pool ten_bytes run_caught small_pool late_pool _ Hs
    (drive_steps small_pool [ActSend some_dispatch; ActWork 0] late_pool))).
Defined.

(** ** Concrete runs of the async executor

    Two invocations: one completes, one is aborted where it awaits. *)

#[local] Existing Instance DemoRunners.

#[local] Instance DemoExecutorControl : RunnerControl := {|
  TerminationHandle := unit; ManagementHandle := unit;
  runner_isolation := λ _, None; runner_management_handle := λ _, None;
  recover_after_hard_termination := λ runner, (Ok tt, runner);
  handler_isolation := λ _, None; handler_management_handle := λ _, None
|}.

Inductive ExecutorAct : Type :=
  | DoSpawn (work : AsyncWork)
  | DoSpawnStep
  | DoCancel (handle : AsyncInvocationHandle)
  | DoTask (task : nat) (ended : option FutureEnd).

Definition executor_act (executor : TokioAsyncExecutor) (a : ExecutorAct) (s : AsyncExecutorState) : option AsyncExecutorState :=
  match a with
  | DoSpawn work =>
      match es_spawner s with SpawnIdle | SpawnDone _ => Some (s <| es_spawner := ReserveInvocation work |>) | _ => None end
  | DoSpawnStep => spawn_step executor s
  | DoCancel handle =>
      match es_spawner s with SpawnIdle | SpawnDone _ => Some (executor_cancel handle s).2 | _ => None end
  | DoTask task ended => task_step task ended s
  end.

Fixpoint executor_drive (executor : TokioAsyncExecutor) (acts : list ExecutorAct) (s : AsyncExecutorState) : AsyncExecutorState :=
  match acts with
  | [] => s
  | a :: acts => match executor_act executor a s with Some s => executor_drive executor acts s | None => s end
  end.

Lemma executor_drive_steps executor acts s : rtc (executor_step executor) s (executor_drive executor acts s).
Proof.
  revert s. induction acts as [|a acts IH]; intros s; cbn [executor_drive]; [done|].
  destruct (executor_act executor a s) as [s'|] eqn:Ha; [|done]. eapply rtc_l; [|apply IH]. clear IH.
  destruct a as [work| |handle|task ended]; cbn [executor_act] in Ha.
  - assert (spawner_idle s ∧ s <| es_spawner := ReserveInvocation work |> = s') as [Hs <-]; [|by constructor].
    unfold spawner_idle. destruct (es_spawner s); try done; by injection Ha as <-.
  - by constructor.
  - assert (spawner_idle s ∧ (executor_cancel handle s).2 = s') as [Hs <-]; [|by constructor].
    unfold spawner_idle. destruct (es_spawner s); try done; by injection Ha as <-.
  - by apply (step_task _ _ task ended).
Qed.

Definition demo_executor : TokioAsyncExecutor := MkTokioAsyncExecutor 1 2 8 100.

Definition invocation (id : string) : AsyncInvocation :=
  {| ai_invocation_id := id; ai_batch_id := id; ai_runner_id := "b.async"; ai_task_ids := []; ai_task_lease_ids := [];
     ai_attempt_generations := []; ai_task_leases := []; ai_expected_entries := []; ai_registry_generation := 1;
     ai_plugin_generation := 1; ai_cancel_token := id; ai_deadline_after_ms := None; ai_entry_count := 2;
     ai_payload_bytes := 30 |}.

Definition spawn_acts (id : string) : list ExecutorAct := DoSpawn (HandlerWork (invocation id)) :: replicate 6 DoSpawnStep.
Definition proceed : option FutureEnd := Some EndPanicked.

Definition both_running : AsyncExecutorState :=
  executor_drive demo_executor (spawn_acts "i1" ++ spawn_acts "i2" ++
    [DoTask 0 proceed; DoTask 1 proceed; DoTask 0 proceed; DoTask 1 proceed]) AsyncExecutorState_default.

(** The first completes, the second is cancelled; both have given back what
    they had reserved. *)
Definition both_over : AsyncExecutorState :=
  executor_drive demo_executor
    ([DoTask 0 (Some (EndCompleted (Err (host_failure "demo" "demo")))); DoCancel (MkAsyncInvocationHandle "i2" "i2"); DoTask 1 None]
     ++ replicate 5 (DoTask 0 proceed) ++ replicate 3 (DoTask 1 proceed)) both_running.

Lemma demo_executor_reaches s :
  rtc (executor_step demo_executor) AsyncExecutorState_default s → executor_reachable demo_executor s.
Proof.
  intros Hs. exists 1%N, 2%N, 8%N, 100%N, (Ok tt), AsyncExecutorState_default.
  do 3 (split; [vm_compute; discriminate|]). split; [vm_compute; reflexivity|exact Hs].
Qed.

Lemma both_running_steps : rtc (executor_step demo_executor) AsyncExecutorState_default both_running.
Proof. apply executor_drive_steps. Qed.

Lemma both_over_steps : rtc (executor_step demo_executor) AsyncExecutorState_default both_over.
Proof. etrans; [exact both_running_steps|apply executor_drive_steps]. Qed.

Lemma executor_reservations_exact_witness :
  executor_reachable demo_executor both_running ∧ reserved_exactly demo_executor both_running ∧
  (es_running_invocations both_running, es_running_entries both_running, es_inflight_bytes both_running) = (2, 4, 60)%N.
Proof.
  assert (executor_reachable demo_executor both_running) as Hr by exact (demo_executor_reaches _ both_running_steps).
  split; [exact Hr|]. split; [exact (executor_reservations_exact _ _ Hr)|vm_compute; reflexivity].
Defined.

Lemma executor_ends_once_witness :
  executor_reachable demo_executor both_over ∧ finals both_over ≡ₚ (es_tasks both_over ≫= sent_of) ∧
  (length (finals both_over), es_running_invocations both_over, es_inflight_bytes both_over) = (1, 0%N, 0%N).
Proof.
  assert (executor_reachable demo_executor both_over) as Hr by exact (demo_executor_reaches _ both_over_steps).
  split; [exact Hr|]. split; [exact (proj1 (proj2 (executor_ends_once _ _ Hr)))|vm_compute; reflexivity].
Defined.
