(* ===== verification/HostCompletions.v ===== *)
(** * Completion notifications

    crates/mutsuki-runtime-host/src/host.rs: the hub that tells subscribers that
    some task has ended, and the waiting side.  The subscriptions live in one
    store; a subscription is its index, the hub's weak references are indexes
    too, and a subscription whose last owner is gone is no longer alive.

    Each operation of the hub holds the hub's lock, and touches a subscription
    under the lock of that subscription.  A wait is given the wake-ups of its
    condition variable, each with the time read before it, whether the wait
    ended by its time-out, and the state found. *)

From stdpp Require Import relations.
From S2P Require Import Prelude Contracts.

Record TaskCompletionSubscriptionState : Type := MkSubscriptionState {
  sub_revision : N;
  sub_closed : bool
}.

Record Subscription : Type := MkSubscription {
  sub_state : TaskCompletionSubscriptionState;
  sub_alive : bool
}.

Record TaskCompletionHub : Type := MkTaskCompletionHub {
  hub_revision : N;
  hub_closed : bool;
  hub_subscribers : list nat;
  hub_notifications : N;
  hub_store : list Subscription
}.

Definition TaskCompletionHub_default : TaskCompletionHub := MkTaskCompletionHub 0 false [] 0 [].

Definition set_store (store : list Subscription) (h : TaskCompletionHub) : TaskCompletionHub :=
  MkTaskCompletionHub (hub_revision h) (hub_closed h) (hub_subscribers h) (hub_notifications h) store.

(** ** The notifier's side *)

(** What [notify] and [close] do to a subscription; [upgrade] fails when it is
    not alive. *)
Definition notified (revision : N) (s : Subscription) : Subscription :=
  if sub_alive s && negb (sub_closed (sub_state s))
  then MkSubscription (MkSubscriptionState (N.max (sub_revision (sub_state s)) revision) false) (sub_alive s) else s.

Definition close_state (s : TaskCompletionSubscriptionState) : TaskCompletionSubscriptionState :=
  MkSubscriptionState (sub_revision s) true.

Definition closed_by_hub (s : Subscription) : Subscription :=
  if sub_alive s then MkSubscription (close_state (sub_state s)) (sub_alive s) else s.

(** The result of [notify]: whether the subscriber is kept. *)
Definition notify_result (store : list Subscription) (subscriber : nat) : bool :=
  match store !! subscriber with
  | Some s => sub_alive s && negb (sub_closed (sub_state s))
  | None => false
  end.

Definition hub_subscribe (h : TaskCompletionHub) : nat * TaskCompletionHub :=
  let subscription := length (hub_store h) in
  let fresh := MkSubscription (MkSubscriptionState 0 false) true in
  (subscription,
   if hub_closed h then set_store (hub_store h ++ [closed_by_hub fresh]) h
   else MkTaskCompletionHub (hub_revision h) (hub_closed h) (hub_subscribers h ++ [subscription]) (hub_notifications h)
          (hub_store h ++ [notified (hub_revision h) fresh])).

Definition hub_publish (revision : N) (h : TaskCompletionHub) : TaskCompletionHub :=
  if hub_closed h || bool_decide (revision ≤ hub_revision h)%N then h
  else
    MkTaskCompletionHub revision (hub_closed h)
      (filter (λ subscriber, notify_result (hub_store h) subscriber = true) (hub_subscribers h))
      (hub_notifications h + 1)
      (foldl (λ store subscriber, alter (notified revision) subscriber store) (hub_store h) (hub_subscribers h)).

Definition hub_close (h : TaskCompletionHub) : TaskCompletionHub :=
  MkTaskCompletionHub (hub_revision h) true [] (hub_notifications h)
    (foldl (λ store subscriber, alter closed_by_hub subscriber store) (hub_store h) (hub_subscribers h)).

(** ** The subscriber's side *)

Definition subscription_close (subscription : nat) (h : TaskCompletionHub) : TaskCompletionHub :=
  set_store (alter (λ s, MkSubscription (close_state (sub_state s)) (sub_alive s)) subscription (hub_store h)) h.

Definition subscription_drop (subscription : nat) (h : TaskCompletionHub) : TaskCompletionHub :=
  set_store (alter (λ s, MkSubscription (sub_state s) false) subscription (hub_store h)) h.

Record Wake : Type := MkWake {
  wk_now : N;
  wk_timed_out : bool;
  wk_state : TaskCompletionSubscriptionState
}.

(** [None]: still waiting when the wake-ups given are used up. *)
Fixpoint wait_until (revision : N) (deadline : option N) (state : TaskCompletionSubscriptionState) (wakes : list Wake) :
    option (option N) :=
  if negb (sub_closed state) && bool_decide (sub_revision state ≤ revision)%N then
    match wakes with
    | [] => None
    | wake :: wakes =>
        match deadline with
        | Some deadline' =>
            if decide (deadline' ≤ wk_now wake)%N then Some None
            else if wk_timed_out wake && bool_decide (sub_revision (wk_state wake) ≤ revision)%N then Some None
            else wait_until revision deadline (wk_state wake) wakes
        | None => wait_until revision deadline (wk_state wake) wakes
        end
    end
  else Some (if sub_closed state then None else Some (sub_revision state)).

(** ** Runs *)

Inductive HubOp : Type :=
  | HubSubscribe
  | HubPublish (revision : N)
  | HubClose
  | SubClose (subscription : nat)
  | SubDrop (subscription : nat).

Definition run_hub (op : HubOp) (h : TaskCompletionHub) : TaskCompletionHub :=
  match op with
  | HubSubscribe => (hub_subscribe h).2
  | HubPublish revision => hub_publish revision h
  | HubClose => hub_close h
  | SubClose subscription => subscription_close subscription h
  | SubDrop subscription => subscription_drop subscription h
  end.

Definition hub_after (ops : list HubOp) : TaskCompletionHub := foldl (λ h op, run_hub op h) TaskCompletionHub_default ops.

(** The largest revision published before the hub was closed *)
Fixpoint published_before (ops : list HubOp) (revision : N) : N :=
  match ops with
  | [] | HubClose :: _ => revision
  | HubPublish r :: ops => published_before ops (N.max revision r)
  | _ :: ops => published_before ops revision
  end.

(** ** What subscribers see *)

Definition listening (s : Subscription) : bool := sub_alive s && negb (sub_closed (sub_state s)).

Record hub_ok (h : TaskCompletionHub) : Prop := MkHubOk {
  hok_listed i s : hub_store h !! i = Some s → listening s = true → hub_closed h = false ∧ i ∈ hub_subscribers h;
  hok_revision i s : hub_store h !! i = Some s → listening s = true → sub_revision (sub_state s) = hub_revision h;
  hok_bound i s : hub_store h !! i = Some s → (sub_revision (sub_state s) ≤ hub_revision h)%N
}.

Lemma foldl_alter_lookup {A} (f : A → A) (l : list nat) (store : list A) i :
  (∀ x, f (f x) = f x) →
  foldl (λ store j, alter f j store) store l !! i = (if decide (i ∈ l) then f else id) <$> store !! i.
Proof.
  intros Hf. revert store. induction l as [|j l IH]; intros store; cbn [foldl].
  { rewrite decide_False by (by apply not_elem_of_nil). by destruct (store !! i). }
  rewrite IH, list_lookup_alter. destruct (decide (j = i)) as [->|Hne].
  - rewrite (decide_True (P := i ∈ i :: l)) by left. destruct (decide (i ∈ l)); [|by destruct (store !! i)].
    destruct (store !! i); cbn; [by rewrite Hf|done].
  - destruct (decide (i ∈ l)) as [Hin|Hin]; [by rewrite decide_True by (by right)|].
    rewrite decide_False; [done|]. intros [->|]%elem_of_cons; done.
Qed.

Lemma notified_twice revision s : notified revision (notified revision s) = notified revision s.
Proof.
  unfold notified. destruct (sub_alive s && negb (sub_closed (sub_state s))) eqn:E; rewrite ?E; [|done].
  apply andb_true_iff in E as [-> _]. cbn. do 2 f_equal. lia.
Qed.

Lemma closed_twice s : closed_by_hub (closed_by_hub s) = closed_by_hub s.
Proof. unfold closed_by_hub. destruct (sub_alive s) eqn:E; cbn; [done|by rewrite E]. Qed.

Lemma listening_notified revision s :
  listening (notified revision s) = listening s ∧
  sub_revision (sub_state (notified revision s)) =
    (if listening s then N.max (sub_revision (sub_state s)) revision else sub_revision (sub_state s)).
Proof. unfold listening, notified. destruct (sub_alive s) eqn:Ha, (sub_closed (sub_state s)) eqn:Hc; cbn; rewrite ?Ha, ?Hc; done. Qed.

Lemma subscribe_ok h : hub_ok h → hub_ok (hub_subscribe h).2.
Proof.
  intros [Hl Hr Hb]. unfold hub_subscribe. cbn [snd]. destruct (hub_closed h) eqn:Hc; split; intros i s; cbn;
    rewrite lookup_snoc_Some; intros [[_ Hi]|[-> <-]]; try done; try (by apply (Hr i)); try (by apply (Hb i)); try (cbn; lia).
  - intros Hs. by destruct (Hl _ _ Hi Hs).
  - intros Hs. destruct (Hl _ _ Hi Hs). split; [done|]. set_solver.
  - intros _. split; [done|]. set_solver.
Qed.

Lemma publish_ok revision h : hub_ok h → hub_ok (hub_publish revision h).
Proof.
  intros Hok. unfold hub_publish. destruct (hub_closed h) eqn:Hc; [done|].
  destruct (decide (revision ≤ hub_revision h)%N) as [Hle|Hlt]; [by rewrite bool_decide_eq_true_2|]. destruct Hok as [Hl Hr Hb].
  rewrite bool_decide_eq_false_2 by done. cbn [orb]. split; intros i s; cbn;
    rewrite foldl_alter_lookup by apply notified_twice; destruct (hub_store h !! i) as [t|] eqn:Ht; try done; intros [= <-].
  - intros Hs. split; [done|]. assert (listening t = true) as Hlt'.
    { destruct (decide _); [|done]. by rewrite (proj1 (listening_notified revision t)) in Hs. }
    destruct (Hl _ _ Ht Hlt') as [_ Hin]. apply list_elem_of_filter. split; [|done]. unfold notify_result. by rewrite Ht.
  - intros Hs. assert (listening t = true) as Hlt'.
    { destruct (decide _); [|done]. by rewrite (proj1 (listening_notified revision t)) in Hs. }
    destruct (Hl _ _ Ht Hlt') as [_ Hin]. rewrite decide_True by done.
    rewrite (proj2 (listening_notified revision t)), Hlt', (Hr _ _ Ht Hlt'). lia.
  - specialize (Hb _ _ Ht). destruct (decide _); [|cbn; lia].
    rewrite (proj2 (listening_notified revision t)). destruct (listening t); lia.
Qed.

Lemma close_ok h : hub_ok h → hub_ok (hub_close h).
Proof.
  intros [Hl Hr Hb]. unfold hub_close.
  assert (∀ i s, foldl (λ store j, alter closed_by_hub j store) (hub_store h) (hub_subscribers h) !! i = Some s →
    listening s = false ∧ sub_revision (sub_state s) ≤ hub_revision h)%N as Hall.
  { intros i s. rewrite foldl_alter_lookup by apply closed_twice. destruct (hub_store h !! i) as [t|] eqn:Ht; [|done].
    intros [= <-]. specialize (Hb _ _ Ht). specialize (Hl _ _ Ht).
    destruct (decide _) as [Hin|Hin]; cbn.
    - unfold closed_by_hub, listening in *. destruct (sub_alive t) eqn:Ha; cbn; rewrite ?Ha; done.
    - split; [|done]. destruct (listening t); [|done]. by destruct (Hl eq_refl). }
  split; intros i s Hi; cbn in *; destruct (Hall _ _ Hi) as [Hs Hle]; [by rewrite Hs|by rewrite Hs|done].
Qed.

(** Closing or dropping a subscription only stops it from listening. *)
Lemma quit_ok (f : Subscription → Subscription) subscription h :
  (∀ s, listening (f s) = false ∧ sub_revision (sub_state (f s)) = sub_revision (sub_state s)) →
  hub_ok h → hub_ok (set_store (alter f subscription (hub_store h)) h).
Proof.
  intros Hf [Hl Hr Hb]. split; intros i s; cbn; rewrite list_lookup_alter; case_decide; subst; try by eauto.
  - destruct (hub_store h !! i) as [t|]; [|done]. intros [= <-]. by rewrite (proj1 (Hf t)).
  - destruct (hub_store h !! i) as [t|]; [|done]. intros [= <-]. by rewrite (proj1 (Hf t)).
  - destruct (hub_store h !! i) as [t|] eqn:Ht; [|done]. intros [= <-]. rewrite (proj2 (Hf t)). by eapply Hb.
Qed.

Lemma hub_op_ok op h : hub_ok h → hub_ok (run_hub op h).
Proof.
  destruct op as [|revision| |subscription|subscription]; cbn [run_hub].
  - apply subscribe_ok.
  - apply publish_ok.
  - apply close_ok.
  - apply quit_ok. intros s. unfold listening. cbn. by rewrite andb_false_r.
  - apply quit_ok. done.
Qed.

Lemma hub_fold_ok ops h : hub_ok h → hub_ok (foldl (λ h op, run_hub op h) h ops).
Proof. revert h. induction ops as [|op ops IH]; intros h Hh; cbn [foldl]; [done|]. by apply IH, hub_op_ok. Qed.

Lemma hub_fold_revision ops h :
  hub_revision (foldl (λ h op, run_hub op h) h ops) =
    (if hub_closed h then hub_revision h else published_before ops (hub_revision h)).
Proof.
  revert h. induction ops as [|op ops IH]; intros h; cbn [foldl]; [by destruct (hub_closed h)|]. rewrite IH.
  destruct op as [|revision| |subscription|subscription]; cbn; try (by destruct (hub_closed h) eqn:Hc; cbn; rewrite ?Hc).
  unfold hub_publish. destruct (hub_closed h) eqn:Hc; cbn; [by rewrite Hc|].
  destruct (decide (revision ≤ hub_revision h)%N).
  - rewrite bool_decide_eq_true_2, Hc by done. by rewrite N.max_l.
  - rewrite bool_decide_eq_false_2 by done. cbn. f_equal. lia.
Qed.

(** C38: no completion is missed: after any sequence of subscriptions,
    publications, closings and drops, a subscription that is open and owned
    belongs to an open hub and shows the largest revision published so far,
    also when it subscribed after it or publications came out of order. *)
Theorem subscribers_up_to_date ops i s :
  hub_store (hub_after ops) !! i = Some s → listening s = true →
  hub_closed (hub_after ops) = false ∧ sub_revision (sub_state s) = published_before ops 0.
Proof.
  intros Hi Hs. assert (hub_ok (hub_after ops)) as [Hl Hr _] by (apply hub_fold_ok; by split; intros ? ? ?).
  split; [by apply (Hl i s)|]. rewrite (Hr _ _ Hi Hs). unfold hub_after. by rewrite hub_fold_revision.
Qed.

(** a wait ends with the revision it has just seen, newer than the one it
    was given and of an open subscription, or with nothing, and then the
    subscription is closed or there is a deadline; a wait without a deadline
    goes on exactly as long as no wake-up shows a newer revision or a closed
    subscription. *)
Theorem wait_exact revision deadline state wakes :
  match wait_until revision deadline state wakes with
  | Some (Some seen) =>
      ∃ found, found ∈ state :: (wk_state <$> wakes) ∧ sub_revision found = seen ∧ sub_closed found = false ∧ (revision < seen)%N
  | Some None => (∃ found, found ∈ state :: (wk_state <$> wakes) ∧ sub_closed found = true) ∨ is_Some deadline
  | None => Forall (λ found, sub_closed found = false ∧ (sub_revision found ≤ revision)%N) (state :: (wk_state <$> wakes))
  end.
Proof.
  revert state. induction wakes as [|wake wakes IH]; intros state; cbn [wait_until].
  - destruct (sub_closed state) eqn:Hc; cbn [negb andb].
    + left. exists state. split; [left|done].
    + destruct (decide (sub_revision state ≤ revision)%N).
      * rewrite bool_decide_eq_true_2 by done. by repeat constructor.
      * rewrite bool_decide_eq_false_2 by done. exists state. split_and!; [left|done|done|lia].
  - destruct (sub_closed state) eqn:Hc; cbn [negb andb].
    { left. exists state. split; [left|done]. }
    destruct (decide (sub_revision state ≤ revision)%N);
      [rewrite bool_decide_eq_true_2 by done|rewrite bool_decide_eq_false_2 by done; exists state; split_and!; [left|done|done|lia]].
    specialize (IH (wk_state wake)).
    assert (match wait_until revision deadline (wk_state wake) wakes with
      | Some (Some seen) => ∃ found, found ∈ state :: (wk_state <$> wake :: wakes) ∧ sub_revision found = seen ∧
                              sub_closed found = false ∧ (revision < seen)%N
      | Some None => (∃ found, found ∈ state :: (wk_state <$> wake :: wakes) ∧ sub_closed found = true) ∨ is_Some deadline
      | None => Forall (λ found, sub_closed found = false ∧ (sub_revision found ≤ revision)%N)
                  (state :: (wk_state <$> wake :: wakes))
      end) as Hgo.
    { destruct (wait_until _ _ _ _) as [[seen|]|].
      - destruct IH as (found & Hin & H). exists found. split; [by right|done].
      - destruct IH as [(found & Hin & H)|H]; [left; exists found; split; [by right|done]|by right].
      - by constructor. }
    destruct deadline as [d|]; [|exact Hgo]. destruct (decide (d ≤ wk_now wake)%N); [by right; eexists|].
    destruct (wk_timed_out wake && _); [by right; eexists|exact Hgo].
Qed.

(** A late subscriber after publications out of order *)
Lemma subscribers_up_to_date_witness :
  sub_revision (MkSubscriptionState 7 false) = published_before [HubSubscribe; HubPublish 7; HubPublish 3; HubSubscribe] 0.
Proof.
  apply (subscribers_up_to_date [HubSubscribe; HubPublish 7; HubPublish 3; HubSubscribe] 1
    (MkSubscription (MkSubscriptionState 7 false) true)); reflexivity.
Defined.
