(* ===== verification/HostBoot.v ===== *)
(** * Assembling a host

    crates/mutsuki-runtime-host/src/bootstrapper.rs, the kernel's runner object
    (runtime-core/src/runner.rs), the service registry (runtime-sdk/src/host.rs)
    and [HostRuntime::start] (host.rs, management.rs).

    Runner objects of plugins are parameters; the host puts objects of its own
    around and beside them, so the type of runner objects of a hosted core is
    built here from the one of the plugins.  A service and a resource provider
    are opaque; a provider is its id, as in the configuration of the actor. *)

From S2P Require Import HostPool.
From S2P Require Import Prelude Contracts RunnerContracts BatchContracts PluginContracts Ids Logs StateStore ResourceManager TaskRecords TaskIndexes TaskPool TaskClaiming Registry RegistryTheorems RuntimeState RuntimeTasks RuntimeRouting RuntimeDispatch RuntimeInvariant RuntimeRuns RuntimePasses RuntimeOps RuntimeTheorems HostErrors HostScheduler ResolverPlugins ResolverCapabilities HostResolver ResolverTheorems ResolverGraph WireBytes WireOperations HostCommands HostActor HostLoop HostPassTheorems HostReturns DemoJson RuntimeWitnesses HostWitnesses HostActorWitnesses.

(** ** Runner objects *)

Section Objects.
Context `{SJ : SerdeJson}.

(** The objects of the plugins *)
Record PluginObjects : Type := MkPluginObjects {
  po_api : RunnerApi;
  po_control : @RunnerControl SJ po_api
}.
Variable plugins : PluginObjects.

(** [CoreKernelRunner] and [GenerationRunner] beside [Box<dyn Runner>] *)
Inductive HostRunner : Type :=
  | PluginRunner (runner : @Runner SJ (po_api plugins))
  | CoreKernelRunner (descriptor : RunnerDescriptor)
  | GenerationRunner (descriptor : RunnerDescriptor) (inner : HostRunner).

Inductive HostAsyncHandler : Type :=
  | PluginHandler (handler : @AsyncHandler SJ (po_api plugins))
  | GenerationAsyncHandler (descriptor : RunnerDescriptor) (inner : HostAsyncHandler).

Definition host_runner_descriptor (runner : HostRunner) : RunnerDescriptor :=
  match runner with
  | PluginRunner runner => @runner_descriptor SJ (po_api plugins) runner
  | CoreKernelRunner descriptor | GenerationRunner descriptor _ => descriptor
  end.

Definition kernel_results (batch : WorkBatch) : list EntryCompletion :=
  (λ entry, {| ec_entry_id := be_entry_id entry; ec_task_id := be_task_id entry;
               ec_result := Some (RunnerResult_completed (be_task_id entry)); ec_error := None |}) <$> wb_entries batch.

Fixpoint host_run_batch (ctx : RunnerContext) (batch : WorkBatch) (runner : HostRunner) :
    RuntimeResult CompletionBatch * HostRunner :=
  match runner with
  | PluginRunner runner =>
      let '(result, runner) := @runner_run_batch SJ (po_api plugins) ctx batch runner in (result, PluginRunner runner)
  | CoreKernelRunner _ => (Ok (from_results batch (kernel_results batch)), runner)
  | GenerationRunner descriptor inner =>
      let '(result, inner) := host_run_batch ctx batch inner in (result, GenerationRunner descriptor inner)
  end.

Fixpoint host_cancel (invocation_id : string) (runner : HostRunner) : RuntimeResult unit * HostRunner :=
  match runner with
  | PluginRunner runner =>
      let '(result, runner) := @runner_cancel SJ (po_api plugins) invocation_id runner in (result, PluginRunner runner)
  | CoreKernelRunner _ => (Ok tt, runner)
  | GenerationRunner descriptor inner =>
      let '(result, inner) := host_cancel invocation_id inner in (result, GenerationRunner descriptor inner)
  end.

Fixpoint host_dispose (runner : HostRunner) : RuntimeResult unit * HostRunner :=
  match runner with
  | PluginRunner runner =>
      let '(result, runner) := @runner_dispose SJ (po_api plugins) runner in (result, PluginRunner runner)
  | CoreKernelRunner _ => (Ok tt, runner)
  | GenerationRunner descriptor inner =>
      let '(result, inner) := host_dispose inner in (result, GenerationRunner descriptor inner)
  end.

Definition host_handler_descriptor (handler : HostAsyncHandler) : RunnerDescriptor :=
  match handler with
  | PluginHandler handler => @handler_descriptor SJ (po_api plugins) handler
  | GenerationAsyncHandler descriptor _ => descriptor
  end.

(** The management handle is the one of the object inside. *)
Fixpoint host_handler_dispose (handler : HostAsyncHandler) : option (RuntimeResult unit) :=
  match handler with
  | PluginHandler handler => @handler_dispose SJ (po_api plugins) handler
  | GenerationAsyncHandler _ inner => host_handler_dispose inner
  end.

Definition HostRunners : RunnerApi := {|
  Runner := HostRunner;
  runner_descriptor := host_runner_descriptor;
  runner_run_batch := host_run_batch;
  runner_cancel := host_cancel;
  runner_dispose := host_dispose;
  AsyncHandler := HostAsyncHandler;
  handler_descriptor := host_handler_descriptor;
  handler_dispose := host_handler_dispose
|}.

(** The defaults of the trait: [RunnerIsolation::Cooperative], no management
    handle, and no recovery.  [GenerationRunner] does not override them. *)
Definition hard_recovery_unsupported (runner : HostRunner) : RuntimeResult unit :=
  runtime_failure ERR_RUNTIME_HOST_FAILED "runtime.runner"
    ("runner." +:+ d_runner_id (host_runner_descriptor runner) +:+ ".hard_recovery_unsupported").

Definition host_isolation (runner : HostRunner) : option (@TerminationHandle _ _ (po_control plugins)) :=
  match runner with
  | PluginRunner runner => @runner_isolation _ _ (po_control plugins) runner
  | CoreKernelRunner _ | GenerationRunner _ _ => None
  end.

Definition host_management_handle (runner : HostRunner) : option (@ManagementHandle _ _ (po_control plugins)) :=
  match runner with
  | PluginRunner runner => @runner_management_handle _ _ (po_control plugins) runner
  | CoreKernelRunner _ | GenerationRunner _ _ => None
  end.

Definition host_recover (runner : HostRunner) : RuntimeResult unit * HostRunner :=
  match runner with
  | PluginRunner inner =>
      let '(result, inner) := @recover_after_hard_termination _ _ (po_control plugins) inner in (result, PluginRunner inner)
  | CoreKernelRunner _ | GenerationRunner _ _ => (hard_recovery_unsupported runner, runner)
  end.

Fixpoint host_handler_isolation (handler : HostAsyncHandler) : option (@TerminationHandle _ _ (po_control plugins)) :=
  match handler with
  | PluginHandler handler => @handler_isolation _ _ (po_control plugins) handler
  | GenerationAsyncHandler _ inner => host_handler_isolation inner
  end.

Fixpoint host_handler_management_handle (handler : HostAsyncHandler) : option (@ManagementHandle _ _ (po_control plugins)) :=
  match handler with
  | PluginHandler handler => @handler_management_handle _ _ (po_control plugins) handler
  | GenerationAsyncHandler _ inner => host_handler_management_handle inner
  end.

Definition HostControl : @RunnerControl SJ HostRunners := {|
  TerminationHandle := @TerminationHandle _ _ (po_control plugins);
  ManagementHandle := @ManagementHandle _ _ (po_control plugins);
  runner_isolation := host_isolation : @Runner _ HostRunners → _;
  runner_management_handle := host_management_handle : @Runner _ HostRunners → _;
  recover_after_hard_termination := host_recover : @Runner _ HostRunners → _;
  handler_isolation := host_handler_isolation : @AsyncHandler _ HostRunners → _;
  handler_management_handle := host_handler_management_handle : @AsyncHandler _ HostRunners → _
|}.

Definition with_generation (generation : N) (descriptor : RunnerDescriptor) : RunnerDescriptor :=
  descriptor <| d_plugin_generation := generation |>.

Definition GenerationRunner_new (generation : N) (inner : HostRunner) : HostRunner :=
  GenerationRunner (with_generation generation (host_runner_descriptor inner)) inner.
Definition GenerationAsyncHandler_new (generation : N) (inner : HostAsyncHandler) : HostAsyncHandler :=
  GenerationAsyncHandler (with_generation generation (host_handler_descriptor inner)) inner.
End Objects.

(** ** Native runners

    A handler is a closure called once per entry; [call] is one call, which may
    change what the closure holds. *)
Section Native.
Context `{ST : SerdeTypes}.
Variable Handler : Type.
Variable call : RunnerContext → Task → Handler → RuntimeResult RunnerResult * Handler.

Record NativeRunner : Type := MkNativeRunner {
  nr_descriptor : RunnerDescriptor;
  nr_handler : Handler;
  nr_cancelled : list string;
  nr_disposed : bool
}.

Definition NativeRunner_new (descriptor : RunnerDescriptor) (handler : Handler) : NativeRunner :=
  MkNativeRunner descriptor handler [] false.

Definition native_entry (entry : BatchEntry) (result : option RunnerResult) (error : option RuntimeError) : EntryCompletion :=
  {| ec_entry_id := be_entry_id entry; ec_task_id := be_task_id entry; ec_result := result; ec_error := error |}.

(** One entry: the handler is called only for a task that is the entry's. *)
Definition native_run_entry (ctx : RunnerContext) (batch : WorkBatch) (entry : BatchEntry) (handler : Handler) :
    EntryCompletion * Handler :=
  match task_at (wb_payload batch) (be_payload_index entry) with
  | Err error => (native_entry entry None (Some error), handler)
  | Ok task =>
      if decide (t_task_id task = be_task_id entry) then
        let '(result, handler) := call ctx task handler in
        (match result with
         | Ok result => native_entry entry (Some result) None
         | Err failure => native_entry entry None (Some failure)
         end, handler)
      else
        (native_entry entry None (Some (runtime_error ERR_TASK_CLAIM_CONFLICT "native_runner"
           ("batch.entry." +:+ be_entry_id entry +:+ ".payload_task_id"))), handler)
  end.

Fixpoint native_run_entries (ctx : RunnerContext) (batch : WorkBatch) (entries : list BatchEntry) (handler : Handler) :
    list EntryCompletion * Handler :=
  match entries with
  | [] => ([], handler)
  | entry :: entries =>
      let '(result, handler) := native_run_entry ctx batch entry handler in
      let '(results, handler) := native_run_entries ctx batch entries handler in
      (result :: results, handler)
  end.

Definition native_run_batch (ctx : RunnerContext) (batch : WorkBatch) (self : NativeRunner) :
    RuntimeResult CompletionBatch * NativeRunner :=
  let '(results, handler) := native_run_entries ctx batch (wb_entries batch) (nr_handler self) in
  (Ok (from_results batch results), MkNativeRunner (nr_descriptor self) handler (nr_cancelled self) (nr_disposed self)).

Definition native_cancel (invocation_id : string) (self : NativeRunner) : RuntimeResult unit * NativeRunner :=
  (Ok tt, MkNativeRunner (nr_descriptor self) (nr_handler self) (nr_cancelled self ++ [invocation_id]) (nr_disposed self)).

Definition native_dispose (self : NativeRunner) : RuntimeResult unit * NativeRunner :=
  (Ok tt, MkNativeRunner (nr_descriptor self) (nr_handler self) (nr_cancelled self) true).

(** The tasks the handler of a batch is called with *)
Definition native_calls (batch : WorkBatch) (entries : list BatchEntry) : list Task :=
  omap (λ entry, match task_at (wb_payload batch) (be_payload_index entry) with
                 | Ok task => if decide (t_task_id task = be_task_id entry) then Some task else None
                 | Err _ => None
                 end) entries.

Definition answered_once (completion : EntryCompletion) : Prop :=
  ec_result completion = None ↔ ec_error completion ≠ None.

Lemma native_run_entries_exact ctx batch entries handler :
  let '(results, handler') := native_run_entries ctx batch entries handler in
  (λ c, (ec_entry_id c, ec_task_id c)) <$> results = (λ e, (be_entry_id e, be_task_id e)) <$> entries ∧
  Forall answered_once results ∧
  handler' = foldl (λ h task, (call ctx task h).2) handler (native_calls batch entries).
Proof.
  revert handler. induction entries as [|entry entries IH]; intros handler; cbn; [done|].
  destruct (native_run_entry ctx batch entry handler) as [c h] eqn:Hentry. specialize (IH h).
  destruct (native_run_entries ctx batch entries h) as [cs h']. destruct IH as (IH1 & IH2 & ->).
  assert (ec_entry_id c = be_entry_id entry ∧ ec_task_id c = be_task_id entry ∧ answered_once c) as (E1 & E2 & Hc).
  { unfold native_run_entry in Hentry. repeat case_match; simplify_eq; by split_and!. }
  split_and!; [cbn; by rewrite E1, E2, IH1|by constructor|].
  unfold native_run_entry in Hentry. destruct (task_at _ _) as [task|e]; [|by injection Hentry as _ ->].
  case_decide; [|by injection Hentry as _ ->]. cbn. destruct (call ctx task handler). by injection Hentry as _ ->.
Qed.

(** a native runner completes its batch whatever its handler answers: one
    completion per entry, in order and under the ids of the entry, with a result
    or an error but not both, and the handler is called once for every entry
    whose payload is its task, in order, and for no other. *)
Theorem native_batch_exact ctx batch self :
  ∃ results handler,
    native_run_batch ctx batch self =
      (Ok (from_results batch results), MkNativeRunner (nr_descriptor self) handler (nr_cancelled self) (nr_disposed self)) ∧
    (λ c, (ec_entry_id c, ec_task_id c)) <$> results = (λ e, (be_entry_id e, be_task_id e)) <$> wb_entries batch ∧
    Forall answered_once results ∧
    handler = foldl (λ h task, (call ctx task h).2) (nr_handler self) (native_calls batch (wb_entries batch)).
Proof.
  unfold native_run_batch. pose proof (native_run_entries_exact ctx batch (wb_entries batch) (nr_handler self)) as H.
  destruct (native_run_entries _ _ _ _) as [results handler]. by exists results, handler.
Qed.
End Native.

(** ** Services (runtime-sdk/src/host.rs) *)

Section Services.
Variable Service : Type.

Record HostServiceRegistry : Type := MkHostServiceRegistry {
  hsr_services : gmap string Service;
  hsr_frozen : bool
}.

Definition HostServiceRegistry_new : HostServiceRegistry := MkHostServiceRegistry ∅ false.

Definition sdk_error {A} (code route : string) : RuntimeResult A := Err (runtime_error code "runtime.sdk" route).

Definition register_erased (service_id : string) (service : Service) (self : HostServiceRegistry) :
    RuntimeResult HostServiceRegistry :=
  if hsr_frozen self then sdk_error ERR_REGISTRY_FROZEN ("host_service." +:+ service_id)
  else
    match hsr_services self !! service_id with
    | Some _ => sdk_error ERR_REGISTRY_UNAUTHORIZED ("host_service.duplicate." +:+ service_id)
    | None => Ok (MkHostServiceRegistry (<[ service_id := service ]> (hsr_services self)) (hsr_frozen self))
    end.

Definition freeze_services (self : HostServiceRegistry) : HostServiceRegistry :=
  MkHostServiceRegistry (hsr_services self) true.

(** [downcast]: what the caller's type makes of the service, if it is one *)
Definition require_service {T} (downcast : Service → option T) (service_id : string) (self : HostServiceRegistry) :
    RuntimeResult T :=
  match hsr_services self !! service_id with
  | None => sdk_error ERR_REGISTRY_UNAUTHORIZED ("host_service.missing." +:+ service_id)
  | Some service =>
      match downcast service with
      | Some t => Ok t
      | None => sdk_error ERR_REGISTRY_UNAUTHORIZED ("host_service.type_mismatch." +:+ service_id)
      end
  end.

Fixpoint register_services (services : list (string * Service)) (registry : HostServiceRegistry) :
    RuntimeResult HostServiceRegistry :=
  match services with
  | [] => Ok registry
  | (service_id, service) :: services =>
      letr? registry := register_erased service_id service registry in register_services services registry
  end.

Definition build_host_service_registry (host_services : list (string * Service)) : RuntimeResult HostServiceRegistry :=
  letr? registry := register_services host_services HostServiceRegistry_new in Ok (freeze_services registry).
End Services.

(** ** The bootstrapper *)

Section Bootstrapper.
Context `{SJ : SerdeJson}.
Variable plugins : PluginObjects.
Variable Service : Type.

Abbreviation host_runner := (HostRunner plugins).
Abbreviation host_handler := (HostAsyncHandler plugins).

Record RegisteredRunner : Type := MkRegisteredRunner {
  rgr_deployment_kind : PluginDeploymentKind;
  rgr_runner : host_runner
}.
Record RegisteredAsyncHandler : Type := MkRegisteredAsyncHandler {
  rgh_deployment_kind : PluginDeploymentKind;
  rgh_handler : host_handler
}.

Record RuntimeBootstrapper : Type := MkRuntimeBootstrapper {
  bs_manifests : list PluginManifest;
  bs_runners : list RegisteredRunner;
  bs_async_handlers : list RegisteredAsyncHandler;
  bs_host_services : list (string * Service);
  bs_resource_providers : list string;
  bs_async_resource_providers : list string
}.

Definition RuntimeBootstrapper_eta (b : RuntimeBootstrapper) : RuntimeBootstrapper :=
  {| bs_manifests := bs_manifests b; bs_runners := bs_runners b; bs_async_handlers := bs_async_handlers b;
     bs_host_services := bs_host_services b; bs_resource_providers := bs_resource_providers b;
     bs_async_resource_providers := bs_async_resource_providers b |}.
#[export] Instance set_bs_manifests : Setter bs_manifests := ltac:(derive_setter RuntimeBootstrapper_eta bs_manifests).
#[export] Instance set_bs_runners : Setter bs_runners := ltac:(derive_setter RuntimeBootstrapper_eta bs_runners).
#[export] Instance set_bs_async_handlers : Setter bs_async_handlers := ltac:(derive_setter RuntimeBootstrapper_eta bs_async_handlers).
#[export] Instance set_bs_host_services : Setter bs_host_services := ltac:(derive_setter RuntimeBootstrapper_eta bs_host_services).
#[export] Instance set_bs_resource_providers : Setter bs_resource_providers := ltac:(derive_setter RuntimeBootstrapper_eta bs_resource_providers).
#[export] Instance set_bs_async_resource_providers : Setter bs_async_resource_providers := ltac:(derive_setter RuntimeBootstrapper_eta bs_async_resource_providers).

Definition RuntimeBootstrapper_new : RuntimeBootstrapper := MkRuntimeBootstrapper [] [] [] [] [] [].

(** What a plugin brings (runtime-sdk/src/plugin.rs) *)
Record LoadedPlugin : Type := MkLoadedPlugin {
  lp_manifest : PluginManifest;
  lp_runners : list host_runner;
  lp_async_handlers : list host_handler;
  lp_host_services : list (string * Service);
  lp_resource_providers : list string;
  lp_async_resource_providers : list string
}.

Definition register_manifest (manifest : PluginManifest) (b : RuntimeBootstrapper) : RuntimeBootstrapper :=
  b <| bs_manifests ::= λ l, l ++ [manifest] |>.
Definition register_external_runner (kind : PluginDeploymentKind) (runner : host_runner) (b : RuntimeBootstrapper) :
    RuntimeBootstrapper := b <| bs_runners ::= λ l, l ++ [MkRegisteredRunner kind runner] |>.
Definition register_builtin_runner : host_runner → RuntimeBootstrapper → RuntimeBootstrapper :=
  register_external_runner DeployBuiltin.
Definition register_abi_runner : host_runner → RuntimeBootstrapper → RuntimeBootstrapper := register_external_runner DeployAbi.
Definition register_external_async_handler (kind : PluginDeploymentKind) (handler : host_handler) (b : RuntimeBootstrapper) :
    RuntimeBootstrapper := b <| bs_async_handlers ::= λ l, l ++ [MkRegisteredAsyncHandler kind handler] |>.
Definition register_runner : host_runner → RuntimeBootstrapper → RuntimeBootstrapper := register_builtin_runner.
Definition register_builtin_async_handler : host_handler → RuntimeBootstrapper → RuntimeBootstrapper :=
  register_external_async_handler DeployBuiltin.
Definition register_resource_provider (provider_id : string) (b : RuntimeBootstrapper) : RuntimeBootstrapper :=
  b <| bs_resource_providers ::= λ l, l ++ [provider_id] |>.
Definition register_async_resource_provider (provider_id : string) (b : RuntimeBootstrapper) : RuntimeBootstrapper :=
  b <| bs_async_resource_providers ::= λ l, l ++ [provider_id] |>.

Definition register_loaded_plugin (plugin : LoadedPlugin) (b : RuntimeBootstrapper) : RuntimeBootstrapper :=
  let deployment_kind := default_for_artifact (pa_artifact_type (pm_artifact (lp_manifest plugin))) in
  let b := register_manifest (lp_manifest plugin) b in
  let b := foldl (λ b runner, register_external_runner deployment_kind runner b) b (lp_runners plugin) in
  let b := foldl (λ b handler, register_external_async_handler deployment_kind handler b) b (lp_async_handlers plugin) in
  let b := b <| bs_host_services ::= λ l, l ++ lp_host_services plugin |> in
  let b := foldl (λ b id, register_resource_provider id b) b (lp_resource_providers plugin) in
  foldl (λ b id, register_async_resource_provider id b) b (lp_async_resource_providers plugin).

(** [loaded] is what the loader returns. *)
Definition load_plugins (loaded : RuntimeResult (list LoadedPlugin)) (b : RuntimeBootstrapper) : RuntimeResult RuntimeBootstrapper :=
  letr? loaded := loaded in Ok (foldl (λ b plugin, register_loaded_plugin plugin b) b loaded).

(** ** Checks *)

Definition validate_runner_deployment_kind (plan : RuntimeLoadPlan) (registered_deployment : PluginDeploymentKind)
    (descriptor : RunnerDescriptor) : RuntimeResult unit :=
  match plan_plugin_deployments plan !! d_plugin_id descriptor with
  | None => Err (runner_for_disabled_plugin (d_plugin_id descriptor) (d_runner_id descriptor))
  | Some planned_deployment =>
      if decide (planned_deployment = registered_deployment) then Ok tt
      else Err (deployment_mismatch "host.plugin.runner_deployment_mismatch" (d_plugin_id descriptor)
                  registered_deployment planned_deployment)
  end.

(** The first planned runner nobody registered *)
Definition missing_runner (registered_runner_ids : gset string) (plan : RuntimeLoadPlan) : option (string * string) :=
  head (filter (λ '(_, runner_id), runner_id ∉ registered_runner_ids)
    (plan_plugins plan ≫= λ manifest, (λ runner, (pm_plugin_id manifest, d_runner_id runner)) <$> pv_runners (pm_provides manifest))).

Definition validate_registered_runners (plan : RuntimeLoadPlan) (runners : list RegisteredRunner)
    (async_handlers : list RegisteredAsyncHandler) : P unit :=
  letp? _ := Some (check_all (λ r, validate_runner_deployment_kind plan (rgr_deployment_kind r)
                                     (host_runner_descriptor plugins (rgr_runner r))) runners) in
  letp? _ := Some (check_all (λ r, validate_runner_deployment_kind plan (rgh_deployment_kind r)
                                     (host_handler_descriptor plugins (rgh_handler r))) async_handlers) in
  let registered_runner_ids : gset string := list_to_set
    (((λ r, d_runner_id (host_runner_descriptor plugins (rgr_runner r))) <$> runners) ++
     ((λ r, d_runner_id (host_handler_descriptor plugins (rgh_handler r))) <$> async_handlers)) in
  match missing_runner registered_runner_ids plan with
  | None => pok tt
  | Some (plugin_id, runner_id) =>
      match plan_plugin_deployments plan !! plugin_id with
      | Some deployment => perr (runner_missing_for_deployment plugin_id runner_id deployment)
      | None => None
      end
  end.

Definition min_string (a : option string) (b : string) : option string :=
  match a with
  | None => Some b
  | Some a => Some (if decide (String.le a b) then a else b)
  end.

Definition declared_backend_for_deployment (plan : RuntimeLoadPlan) (deployment : PluginDeploymentKind) : option string :=
  foldl min_string None (pb_backend_id <$> filter (λ backend, pb_deployment_kind backend = deployment)
    (plan_plugins plan ≫= λ manifest, pv_plugin_backends (pm_provides manifest))).

Definition ensure_active_backend_for_deployment (plan : RuntimeLoadPlan) (capabilities : HostCapabilityRegistry)
    (deployment : PluginDeploymentKind) : RuntimeResult unit :=
  match active_plugin_backend_for_deployment capabilities deployment with
  | Some _ => Ok tt
  | None =>
      match declared_backend_for_deployment plan deployment with
      | Some backend_id => Err (capability_pruned ("plugin_backend:" +:+ backend_id))
      | None => Err (capability_provider_missing ("plugin_backend:" +:+ debug_deployment deployment))
      end
  end.

(** The deployments of the plugins that provide runners, each once *)
Definition runner_deployment (plan : RuntimeLoadPlan) (manifest : PluginManifest) (found : list PluginDeploymentKind) :
    P (list PluginDeploymentKind) :=
  if bool_decide (pv_runners (pm_provides manifest) = []) then pok found
  else
    match plan_plugin_deployments plan !! pm_plugin_id manifest with
    | None => None
    | Some deployment => pok (if decide (deployment ∈ found) then found else found ++ [deployment])
    end.

Definition validate_host_startup_capabilities (plan : RuntimeLoadPlan) (capabilities : HostCapabilityRegistry) : P unit :=
  letp? runner_deployments := pfold (runner_deployment plan) (plan_plugins plan) [] in
  Some (check_all (ensure_active_backend_for_deployment plan capabilities) runner_deployments).

(** [provider_ids.insert(id)] for each provider *)
Fixpoint validate_provider_ids (provider_ids : gset string) (providers : list string) : RuntimeResult unit :=
  match providers with
  | [] => Ok tt
  | provider :: providers =>
      if decide (provider ∈ provider_ids) then Err (resource_provider_duplicate provider)
      else validate_provider_ids ({[ provider ]} ∪ provider_ids) providers
  end.

Definition validate_registered_resource_providers (providers : list string) : RuntimeResult unit :=
  validate_provider_ids ∅ providers.
Definition validate_registered_async_resource_providers (providers async_providers : list string) : RuntimeResult unit :=
  validate_provider_ids (list_to_set providers) async_providers.

Definition validate_configured_scheduler_policy (capabilities : HostCapabilityRegistry) (policy_id : string) :
    RuntimeResult unit :=
  let required := letr? _ := require_scheduler_policy capabilities policy_id in Ok tt in
  match active_scheduler_policy_id capabilities with
  | None => if decide (policy_id = "host.default") then Ok tt else required
  | Some active_policy_id =>
      if decide (policy_id ≠ "host.default") then required
      else Err (capability_provider_missing ("scheduler_policy:" +:+ active_policy_id))
  end.
End Bootstrapper.

(** ** Preparing, booting, reloading *)

Section Boot.
Context `{SJ : SerdeJson}.
Variable plugins : PluginObjects.
Variable Service : Type.

Record PreparedRuntime : Type := MkPreparedRuntime {
  pre_plan : RuntimeLoadPlan;
  pre_runners : list (HostRunner plugins);
  pre_async_handlers : list (HostAsyncHandler plugins);
  pre_capabilities : HostCapabilityRegistry;
  pre_services : HostServiceRegistry Service;
  pre_profile_id : string;
  pre_registry_generation : N;
  pre_active_resource_providers : list string;
  pre_resource_providers : list string;
  pre_async_resource_providers : list string
}.

Record PreparedRuntimeReload : Type := MkPreparedRuntimeReload {
  prr_plan : RuntimeLoadPlan;
  prr_runners : list (HostRunner plugins);
  prr_async_handlers : list (HostAsyncHandler plugins);
  prr_capabilities : HostCapabilityRegistry;
  prr_services : HostServiceRegistry Service;
  prr_profile_id : string;
  prr_registry_generation : N
}.

Definition prepare_runtime (self : RuntimeBootstrapper plugins Service) (profile : RuntimeProfile) : P PreparedRuntime :=
  letp? plan := resolve_load_plan (bs_manifests _ _ self) profile in
  letp? capabilities := Some (HostResolver.from_load_plan plan) in
  letp? _ := validate_host_startup_capabilities plan capabilities in
  letp? _ := validate_registered_runners plugins plan (bs_runners _ _ self) (bs_async_handlers _ _ self) in
  letp? _ := Some (validate_registered_resource_providers (bs_resource_providers _ _ self)) in
  letp? _ := Some (validate_registered_async_resource_providers (bs_resource_providers _ _ self)
                     (bs_async_resource_providers _ _ self)) in
  letp? services := Some (build_host_service_registry Service (bs_host_services _ _ self)) in
  pok {| pre_plan := plan;
         pre_runners := rgr_runner _ <$> bs_runners _ _ self;
         pre_async_handlers := rgh_handler _ <$> bs_async_handlers _ _ self;
         pre_capabilities := capabilities;
         pre_services := services;
         pre_profile_id := plan_profile_id plan;
         pre_registry_generation := plan_registry_generation plan;
         pre_active_resource_providers := cg_active_resource_providers (plan_capability_graph plan);
         pre_resource_providers := bs_resource_providers _ _ self;
         pre_async_resource_providers := bs_async_resource_providers _ _ self |}.

Definition kernel_surface : ContractSurface :=
  {| cs_surface_id := "runner:core.kernel"; cs_kind := SurfaceRunner; cs_owner_plugin_id := "core";
     cs_fingerprint := "sha256:core.kernel"; cs_deprecated := false |}.

(** The plan and the runners after [append_core_kernel] *)
Definition plan_with_kernel (plan : RuntimeLoadPlan) : RuntimeLoadPlan :=
  {| plan_lock_version := plan_lock_version plan; plan_core_api_version := plan_core_api_version plan;
     plan_profile_id := plan_profile_id plan; plan_profile_hash := plan_profile_hash plan;
     plan_registry_generation := plan_registry_generation plan;
     plan_plugins := plan_plugins plan ++ [core_manifest (core_kernel_descriptor (plan_registry_generation plan))];
     plan_load_order := plan_load_order plan; plan_runner_bindings := plan_runner_bindings plan;
     plan_plugin_deployments := plan_plugin_deployments plan; plan_observability := plan_observability plan;
     plan_capability_graph := plan_capability_graph plan;
     plan_contract_surfaces := plan_contract_surfaces plan ++ [kernel_surface] |}.

Definition append_core_kernel (plan : RuntimeLoadPlan) (runners : list (HostRunner plugins)) :
    RuntimeLoadPlan * list (HostRunner plugins) :=
  (plan_with_kernel plan, runners ++ [CoreKernelRunner plugins (core_kernel_descriptor (plan_registry_generation plan))]).

(** [boot_prepared_runtime]; the other fields of the booted runtime are those
    of the prepared one *)
Definition boot_prepared_runtime (prepared : PreparedRuntime) : P (@CoreRuntime _ (HostRunners plugins)) :=
  let '(plan, runners) := append_core_kernel (pre_plan prepared) (pre_runners prepared) in
  @boot_with_async_handlers _ (HostRunners plugins) plan runners (pre_async_handlers prepared).

Definition into_runtime (self : RuntimeBootstrapper plugins Service) (profile : RuntimeProfile) :
    P (@CoreRuntime _ (HostRunners plugins)) :=
  letp? prepared := prepare_runtime self profile in boot_prepared_runtime prepared.

(** The plan with the generation of the reload in it and in its runners *)
Definition manifest_with_generation (generation : N) (manifest : PluginManifest) : PluginManifest :=
  {| pm_plugin_id := pm_plugin_id manifest; pm_version := pm_version manifest; pm_api_version := pm_api_version manifest;
     pm_artifact := pm_artifact manifest;
     pm_provides := (pm_provides manifest) <| pv_runners ::= fmap (with_generation generation) |>;
     pm_requires := pm_requires manifest; pm_permissions := pm_permissions manifest; pm_lifecycle := pm_lifecycle manifest;
     pm_metadata := pm_metadata manifest |}.

Definition plan_with_generation (generation : N) (plan : RuntimeLoadPlan) : RuntimeLoadPlan :=
  {| plan_lock_version := plan_lock_version plan; plan_core_api_version := plan_core_api_version plan;
     plan_profile_id := plan_profile_id plan; plan_profile_hash := plan_profile_hash plan;
     plan_registry_generation := generation;
     plan_plugins := manifest_with_generation generation <$> plan_plugins plan;
     plan_load_order := plan_load_order plan; plan_runner_bindings := plan_runner_bindings plan;
     plan_plugin_deployments := plan_plugin_deployments plan; plan_observability := plan_observability plan;
     plan_capability_graph := plan_capability_graph plan; plan_contract_surfaces := plan_contract_surfaces plan |}.

Definition prepare_reload (self : RuntimeBootstrapper plugins Service) (profile : RuntimeProfile) (registry_generation : N) :
    P PreparedRuntimeReload :=
  letp? prepared := prepare_runtime self profile in
  let plan := plan_with_generation registry_generation (pre_plan prepared) in
  let runners := GenerationRunner_new plugins registry_generation <$> pre_runners prepared in
  let async_handlers := GenerationAsyncHandler_new plugins registry_generation <$> pre_async_handlers prepared in
  let '(plan, runners) := append_core_kernel plan runners in
  pok {| prr_plan := plan; prr_runners := runners; prr_async_handlers := async_handlers;
         prr_capabilities := pre_capabilities prepared; prr_services := pre_services prepared;
         prr_profile_id := pre_profile_id prepared; prr_registry_generation := registry_generation |}.

(** ** Starting a host *)

(** The rest of [HostRuntimeConfig]: what [start] uses and the actor does not *)
Record HostStartConfig : Type := MkHostStartConfig {
  sc_config : HostRuntimeConfig;
  sc_policy_id : string;
  sc_observability : option ObservabilityProfile;
  sc_task_history_retention : option TaskHistoryRetention;
  sc_worker_threads : N;
  sc_blocking_threads : N;
  sc_pool_queue_limit : N;
  sc_pool_max_inflight_bytes : N;
  sc_max_isolated_workers : N;
  sc_management_threads : N;
  sc_management_queue_limit : N
}.

(** What a host starts on: whether a thread of a name can be started, and
    whether the channel crate can allocate a bounded channel of a capacity for
    the pools and for the management threads; when it cannot, it panics. *)
Record HostPlatform : Type := MkHostPlatform {
  hp_thread_starts : string → bool;
  hp_pool_channel_fits : N → bool;
  hp_management_channel_fits : N → bool
}.

(** The threads of a name, numbered from 0, that are asked for *)
Definition spawn_attempts (platform : HostPlatform) (name : string) (count : N) : list bool :=
  (λ index, hp_thread_starts platform (name +:+ pretty (N.of_nat index))) <$> seq 0 (N.to_nat count).

(** ** The management threads (management.rs) *)

Record ManagementExecutor : Type := MkManagementExecutor {
  me_threads : N;
  me_queue_capacity : N
}.

(** The spawn loop of [ManagementExecutor::new] *)
Fixpoint spawn_management (threads : list bool) : RuntimeResult unit :=
  match threads with
  | [] => Ok tt
  | true :: threads => spawn_management threads
  | false :: _ => Err (host_failure "host.management.spawn" "thread")
  end.

Definition ManagementExecutor_new (bounded_fits : N → bool) (threads : list bool) (queue_limit : N) : P ManagementExecutor :=
  if bool_decide (len threads = 0%N) || bool_decide (queue_limit = 0%N) then
    perr (host_failure "host.worker.config" "management thread and queue limits must be greater than zero")
  else if negb (bounded_fits queue_limit) then None
  else Some (letr? _ := spawn_management threads in Ok (MkManagementExecutor (len threads) queue_limit)).

(** [or_insert]: a provider of the configuration stays. *)
Definition configure_resource_provider (config : HostRuntimeConfig) (active_provider_ids providers async_providers : list string) :
    RuntimeResult HostRuntimeConfig :=
  let config := {| cfg_event_driven := cfg_event_driven config; cfg_tick_interval := cfg_tick_interval config;
    cfg_default_runner_limits := cfg_default_runner_limits config; cfg_runner_limits := cfg_runner_limits config;
    cfg_scheduler_policy := cfg_scheduler_policy config; cfg_async_executor := cfg_async_executor config;
    cfg_async_event_sink := cfg_async_event_sink config;
    cfg_resource_providers := cfg_resource_providers config ∪ list_to_set providers;
    cfg_async_resource_providers := cfg_async_resource_providers config ∪ list_to_set async_providers;
    cfg_cancel_grace_period := cfg_cancel_grace_period config; cfg_worker_health_timeout := cfg_worker_health_timeout config |} in
  letr? _ := check_all (λ provider_id,
    if decide (provider_id ∉ cfg_resource_providers config ∧ provider_id ∉ cfg_async_resource_providers config)
    then Err (resource_provider_missing provider_id) else Ok tt) active_provider_ids in
  Ok config.

(** A host that has started: the core and the configuration the actor gets,
    the worker pools and the management threads *)
Record StartedHost : Type := MkStartedHost {
  sh_core : @CoreRuntime _ (HostRunners plugins);
  sh_config : HostRuntimeConfig;
  sh_pools : @WorkerPools _ (HostRunners plugins);
  sh_management : ManagementExecutor
}.

(** What [HostRuntime::start] does to the core before the threads start *)
Definition configure_core (start : HostStartConfig) : M (@CoreRuntime _ (HostRunners plugins)) unit :=
  (match sc_observability start with
   | Some observability => @configure_observability _ (HostRunners plugins) observability
   | None => ret tt
   end) ;;!
  @configure_task_history_retention _ (HostRunners plugins) (sc_task_history_retention start).

Definition with_event_sink (config : HostRuntimeConfig) : HostRuntimeConfig :=
  {| cfg_event_driven := cfg_event_driven config; cfg_tick_interval := cfg_tick_interval config;
     cfg_default_runner_limits := cfg_default_runner_limits config; cfg_runner_limits := cfg_runner_limits config;
     cfg_scheduler_policy := cfg_scheduler_policy config; cfg_async_executor := cfg_async_executor config;
     cfg_async_event_sink := true; cfg_resource_providers := cfg_resource_providers config;
     cfg_async_resource_providers := cfg_async_resource_providers config;
     cfg_cancel_grace_period := cfg_cancel_grace_period config;
     cfg_worker_health_timeout := cfg_worker_health_timeout config |}.

(** [HostRuntime::start]; the handles it returns to the caller only send
    messages. *)
Definition host_start (platform : HostPlatform) (core : @CoreRuntime _ (HostRunners plugins)) (config : HostRuntimeConfig)
    (start : HostStartConfig) : P StartedHost :=
  letp? _ := Some (validate_runner_limits (cfg_default_runner_limits config) (cfg_runner_limits config)) in
  if decide (cfg_tick_interval config = 0%N) then
    perr (host_failure "host.driver.tick_interval" "tick_interval must be greater than zero")
  else
    match configure_core start core with
    | None => None
    | Some (_, core) =>
        letp? pools := @worker_pools _ (HostRunners plugins) (hp_pool_channel_fits platform)
          (spawn_attempts platform "mutsuki-compute-worker-" (sc_worker_threads start))
          (spawn_attempts platform "mutsuki-blocking-worker-" (sc_blocking_threads start))
          (sc_pool_queue_limit start) (sc_pool_max_inflight_bytes start) (sc_max_isolated_workers start) in
        letp? management := ManagementExecutor_new (hp_management_channel_fits platform)
          (spawn_attempts platform "mutsuki-management-" (sc_management_threads start)) (sc_management_queue_limit start) in
        if hp_thread_starts platform "mutsuki-core-actor"
        then pok (MkStartedHost core (with_event_sink config) pools management)
        else perr (host_failure "host.actor.spawn" "thread")
    end.

Definition into_host_runtime_with_config (platform : HostPlatform) (self : RuntimeBootstrapper plugins Service)
    (profile : RuntimeProfile) (start : HostStartConfig) : P StartedHost :=
  letp? prepared := prepare_runtime self profile in
  letp? _ := Some (validate_configured_scheduler_policy (pre_capabilities prepared) (sc_policy_id start)) in
  letp? core := boot_prepared_runtime prepared in
  letp? config := Some (configure_resource_provider (sc_config start) (pre_active_resource_providers prepared)
                          (pre_resource_providers prepared) (pre_async_resource_providers prepared)) in
  host_start platform core config start.
End Boot.

(** ** What a boot registers *)

Section Registered.
Context `{RA : RunnerApi}.

Lemma try_for_each_app {S E A} (l l' : list A) (body : A → M S (Result E unit)) s :
  try_for_each (l ++ l') body s = (let? _ := try_for_each l body in try_for_each l' body) s.
Proof.
  revert s. induction l as [|x l IH]; intros s; [done|]. cbn [try_for_each app]. unfold try_bind, bind in *.
  destruct (body x s) as [[[[]|e] s1]|] eqn:E1; [apply IH|done..].
Qed.

Lemma registered_descriptor runner r r' :
  register runner r = Some (Ok tt, r') →
  reg_descriptors r' !! d_runner_id (runner_descriptor runner) = Some (normalized_descriptor (runner_descriptor runner)).
Proof.
  unfold register. intros (? & ? & [= <- <-] & H)%bind_inv. repeat case_match; try done.
  apply bind_inv in H as ([] & ? & [= <-] & [= <-]). cbn. by rewrite lookup_insert_eq.
Qed.

Lemma handler_keeps_descriptor handler r r' k d :
  register_async_handler handler r = Some (Ok tt, r') → reg_descriptors r !! k = Some d → reg_descriptors r' !! k = Some d.
Proof.
  unfold register_async_handler. intros (? & ? & [= <- <-] & H)%bind_inv Hk. repeat case_match; try done.
  apply bind_inv in H as ([] & ? & [= <-] & [= <-]). cbn. rewrite lookup_insert_ne; [done|]. intros <-.
  match goal with H : _ || _ || _ = false |- _ => rewrite bool_decide_eq_true_2 in H by (eexists; exact Hk); done end.
Qed.

Lemma handlers_keep_descriptor handlers r r' k d :
  try_for_each handlers register_async_handler r = Some (Ok tt, r') →
  reg_descriptors r !! k = Some d → reg_descriptors r' !! k = Some d.
Proof.
  revert r. induction handlers as [|h hs IH]; intros r; cbn [try_for_each]; [by intros [= <-]|].
  intros ([] & r1 & H1 & H2)%try_inv Hk. eapply IH; [exact H2|]. by eapply handler_keeps_descriptor.
Qed.

(** The last runner is registered as it describes itself. *)
Lemma last_runner_registered runners runner handlers r :
  build_registry (runners ++ [runner]) handlers RunnerRegistry_default = Some (Ok tt, r) →
  reg_descriptors r !! d_runner_id (runner_descriptor runner) = Some (normalized_descriptor (runner_descriptor runner)).
Proof.
  unfold build_registry. intros ([] & r1 & H1 & H)%try_inv. apply try_inv in H as ([] & r2 & H2 & H).
  apply bind_inv in H as (? & ? & [= <- <-] & H). case_match; [|done].
  apply bind_inv in H as (? & ? & [= <- <-] & [= <-]). cbn.
  eapply handlers_keep_descriptor; [exact H2|]. rewrite try_for_each_app in H1.
  apply try_inv in H1 as ([] & r0 & _ & H1). cbn [try_for_each] in H1. apply try_inv in H1 as ([] & ? & H1 & [= <-]).
  by eapply registered_descriptor.
Qed.

Lemma snapshot_described (Q : RunnerDescriptor → Prop) r :
  reg_inv r → (∀ d, reg_descriptors r !! d_runner_id d = Some d → Q d) → Forall Q (reg_descriptor_snapshot r).
Proof.
  intros [Hd Hs _ _] HQ. rewrite Hs. apply Forall_forall. intros d Hin. apply HQ.
  apply elem_of_sort_by_str in Hin. apply list_elem_of_fmap in Hin as ([k d'] & -> & Hin).
  apply elem_of_map_to_list in Hin. cbn. by rewrite (proj1 (Hd _ _ Hin)).
Qed.
End Registered.

(** ** Preparing a runtime *)

Lemma pbind_run {A B} (c : P A) (k : A → P B) a : c = Some (Ok a) → pbind c k = k a.
Proof. by intros ->. Qed.

Section Resolved.
Context `{SJ : SerdeJson}.

Lemma resolved_deployed manifests profile plan m :
  resolve_load_plan manifests profile = Some (Ok plan) → m ∈ plan_plugins plan →
  is_Some (plan_plugin_deployments plan !! pm_plugin_id m).
Proof.
  unfold resolve_load_plan. intros (r & Hr & H1)%pbind_ok Hm. apply pbind_ok in H1 as (b & _ & H2).
  apply pbind_ok in H2 as (g & _ & [= <-]). cbn in *. apply resolve_enabled_ok in Hr as ([Hids _ Hdom _] & _).
  apply elem_of_dom. rewrite Hdom, <- Hids. apply elem_of_list_to_set, list_elem_of_fmap. eauto.
Qed.

Definition deployed_all (plan : RuntimeLoadPlan) : Prop :=
  ∀ m, m ∈ plan_plugins plan → is_Some (plan_plugin_deployments plan !! pm_plugin_id m).

Lemma startup_total plan capabilities : deployed_all plan → validate_host_startup_capabilities plan capabilities ≠ None.
Proof.
  intros Hall. apply pbind_total; [|done]. apply (pfold_total (λ _, True)); [|done].
  intros m found Hm _. unfold runner_deployment. destruct (Hall m Hm) as [d ->]. by case_match.
Qed.

(** Every deployment a plugin with runners has is among those found. *)
Lemma found_deployments plan ms found found' :
  (∀ m, m ∈ ms → is_Some (plan_plugin_deployments plan !! pm_plugin_id m)) →
  pfold (runner_deployment plan) ms found = Some (Ok found') →
  ∀ d, d ∈ found' ↔ d ∈ found ∨
    ∃ m, m ∈ ms ∧ pv_runners (pm_provides m) ≠ [] ∧ plan_plugin_deployments plan !! pm_plugin_id m = Some d.
Proof.
  revert found. induction ms as [|m ms IH]; intros found Hall; cbn; [intros [= <-] d; set_solver|].
  intros (found1 & H1 & H2)%pbind_ok d. rewrite (IH found1 ltac:(set_solver) H2 d). clear IH H2.
  destruct (Hall m ltac:(set_solver)) as [dm Hdm].
  assert (d ∈ found1 ↔ d ∈ found ∨ pv_runners (pm_provides m) ≠ [] ∧ dm = d) as ->.
  { unfold runner_deployment in H1. rewrite Hdm in H1. case_bool_decide; injection H1 as <-; [naive_solver|].
    case_decide; set_solver. }
  set_solver.
Qed.

Definition startable (plan : RuntimeLoadPlan) (capabilities : HostCapabilityRegistry) : Prop :=
  ∀ m d, m ∈ plan_plugins plan → pv_runners (pm_provides m) ≠ [] → plan_plugin_deployments plan !! pm_plugin_id m = Some d →
    is_Some (active_plugin_backend_for_deployment capabilities d).

Lemma ensure_active_ok plan capabilities d :
  ensure_active_backend_for_deployment plan capabilities d = Ok tt ↔ is_Some (active_plugin_backend_for_deployment capabilities d).
Proof.
  unfold ensure_active_backend_for_deployment. destruct (active_plugin_backend_for_deployment _ _); [by split; eauto|].
  split; [by case_match|by intros []].
Qed.

Lemma startup_exact plan capabilities :
  deployed_all plan → validate_host_startup_capabilities plan capabilities = pok tt ↔ startable plan capabilities.
Proof.
  intros Hall. unfold validate_host_startup_capabilities.
  destruct (pfold _ _ _) as [[found|e]|] eqn:Hf; cbn.
  - pose proof (found_deployments plan _ _ _ Hall Hf) as Hfound.
    assert (check_all (ensure_active_backend_for_deployment plan capabilities) found = Ok tt ↔ startable plan capabilities) as <-.
    { rewrite check_all_Ok. setoid_rewrite ensure_active_ok. unfold startable. set_solver. }
    unfold pok. split; [by intros [= ?]|by intros ->].
  - exfalso. assert (∀ l s e, pfold (runner_deployment plan) l s ≠ Some (Err e)) as Hno; [|by eapply Hno].
    clear. induction l as [|m l IH]; intros s e; cbn; [done|]. unfold runner_deployment at 1.
    repeat case_match; cbn; try done; apply IH.
  - exfalso. revert Hf. apply (pfold_total (λ _, True)); [|done].
    intros m found Hm _. unfold runner_deployment. destruct (Hall m Hm) as [d ->]. by case_match.
Qed.

Lemma provider_ids_exact (seen : gset string) providers :
  validate_provider_ids seen providers = Ok tt ↔ NoDup providers ∧ ∀ p, p ∈ providers → p ∉ seen.
Proof.
  revert seen. induction providers as [|p ps IH]; intros seen; cbn; [split; [|done]; split; [constructor|set_solver]|].
  case_decide as Hp; [split; [done|set_solver]|]. rewrite IH, NoDup_cons. set_solver.
Qed.

Lemma providers_exact providers async_providers :
  validate_registered_resource_providers providers = Ok tt ∧
  validate_registered_async_resource_providers providers async_providers = Ok tt ↔ NoDup (providers ++ async_providers).
Proof.
  unfold validate_registered_resource_providers, validate_registered_async_resource_providers.
  rewrite !provider_ids_exact, NoDup_app. set_solver.
Qed.
End Resolved.

Section ServicesExact.
Context {Service : Type}.

Lemma register_services_exact (services : list (string * Service)) registry registry' :
  hsr_frozen _ registry = false →
  register_services Service services registry = Ok registry' ↔
  NoDup services.*1 ∧ (∀ id, id ∈ services.*1 → hsr_services _ registry !! id = None) ∧
  registry' = MkHostServiceRegistry _ (list_to_map services ∪ hsr_services _ registry) false.
Proof.
  revert registry. induction services as [|[id service] services IH]; intros [m f] Hf; cbn in *; subst f.
  { rewrite (left_id_L ∅ (∪)). split; [intros [= <-]; split_and!; [constructor|set_solver|done]|by intros (_ & _ & ->)]. }
  unfold register_erased. cbn. destruct (m !! id) as [old|] eqn:Hm; cbn.
  { split; [done|]. intros (_ & Hno & _). rewrite (Hno id) in Hm by set_solver. done. }
  rewrite IH by done. cbn. rewrite NoDup_cons. split.
  - intros (Hnd & Hno & ->). assert (id ∉ services.*1) as Hid.
    { intros Hin. specialize (Hno _ Hin). by rewrite lookup_insert_eq in Hno. }
    split_and!; [done|done| |].
    + intros k [->|Hk]%elem_of_cons; [done|]. specialize (Hno k Hk). rewrite lookup_insert_ne in Hno by set_solver. done.
    + f_equal. cbn. by rewrite <- insert_union_l, insert_union_r by (by apply not_elem_of_list_to_map_1).
  - intros ((Hid & Hnd) & Hno & ->). split_and!; [done| |].
    + intros k Hk. rewrite lookup_insert_ne by set_solver. apply Hno. set_solver.
    + f_equal. cbn. by rewrite <- insert_union_l, insert_union_r by (by apply not_elem_of_list_to_map_1).
Qed.

Lemma services_exact (services : list (string * Service)) registry :
  build_host_service_registry Service services = Ok registry ↔
  NoDup services.*1 ∧ registry = MkHostServiceRegistry _ (list_to_map services) true.
Proof.
  unfold build_host_service_registry. destruct (register_services _ _ _) as [r|e] eqn:Hr; cbn.
  - apply register_services_exact in Hr as (Hnd & _ & ->); [|done]. unfold freeze_services. cbn. rewrite (right_id_L ∅ (∪)).
    split; [by intros [= <-]|by intros [_ ->]].
  - split; [done|]. intros [Hnd _]. exfalso.
    assert (register_services Service services (HostServiceRegistry_new Service) =
      Ok (MkHostServiceRegistry _ (list_to_map services ∪ ∅) false)) as Hok.
    { apply register_services_exact; [done|]. split_and!; [done| |done]. intros. apply lookup_empty. }
    congruence.
Qed.
End ServicesExact.

Section Prepared.
Context `{SJ : SerdeJson}.
Variable plugins : PluginObjects.
Variable Service : Type.
Implicit Types self : RuntimeBootstrapper plugins Service.

(** The runner ids objects are registered for *)
Definition registered_ids self : list string :=
  ((λ r, d_runner_id (host_runner_descriptor plugins (rgr_runner _ r))) <$> bs_runners _ _ self) ++
  ((λ r, d_runner_id (host_handler_descriptor plugins (rgh_handler _ r))) <$> bs_async_handlers _ _ self).

Record runners_match (plan : RuntimeLoadPlan) self : Prop := MkRunnersMatch {
  rm_runners : ∀ r, r ∈ bs_runners _ _ self →
    plan_plugin_deployments plan !! d_plugin_id (host_runner_descriptor plugins (rgr_runner _ r)) = Some (rgr_deployment_kind _ r);
  rm_handlers : ∀ r, r ∈ bs_async_handlers _ _ self →
    plan_plugin_deployments plan !! d_plugin_id (host_handler_descriptor plugins (rgh_handler _ r)) = Some (rgh_deployment_kind _ r);
  rm_planned : ∀ m runner, m ∈ plan_plugins plan → runner ∈ pv_runners (pm_provides m) → d_runner_id runner ∈ registered_ids self
}.

Lemma deployment_kind_exact plan kind d :
  validate_runner_deployment_kind plan kind d = Ok tt ↔ plan_plugin_deployments plan !! d_plugin_id d = Some kind.
Proof.
  unfold validate_runner_deployment_kind. destruct (plan_plugin_deployments _ !! _) as [k|]; [|done].
  case_decide; [by subst|]. split; [done|naive_solver].
Qed.

Lemma missing_runner_none (ids : gset string) plan :
  missing_runner ids plan = None ↔
  ∀ m runner, m ∈ plan_plugins plan → runner ∈ pv_runners (pm_provides m) → d_runner_id runner ∈ ids.
Proof.
  unfold missing_runner. set (all := plan_plugins plan ≫= _).
  assert (head (filter (λ '(_, runner_id), runner_id ∉ ids) all) = None ↔ ∀ e, e ∈ all → e.2 ∈ ids) as ->.
  { split.
    - intros Hn [p i] He. destruct (decide (i ∈ ids)); [done|]. exfalso.
      assert ((p, i) ∈ filter (λ '(_, runner_id), runner_id ∉ ids) all) as Hin by (apply list_elem_of_filter; done).
      destruct (filter _ all); [by apply elem_of_nil in Hin|done].
    - intros Hall. destruct (filter _ all) as [|[p i] l] eqn:Hf; [done|]. exfalso.
      assert ((p, i) ∈ filter (λ '(_, runner_id), runner_id ∉ ids) all) as [Hni Hin]%list_elem_of_filter by (rewrite Hf; left).
      by apply Hni, (Hall _ Hin). }
  subst all. split.
  - intros H m runner Hm Hr. apply (H (pm_plugin_id m, d_runner_id runner)). apply list_elem_of_bind. exists m.
    split; [|done]. apply list_elem_of_fmap. by exists runner.
  - intros H e (m & He & Hm)%list_elem_of_bind. apply list_elem_of_fmap in He as (runner & -> & Hr). by eapply H.
Qed.

Lemma runners_total plan self :
  deployed_all plan → validate_registered_runners plugins plan (bs_runners _ _ self) (bs_async_handlers _ _ self) ≠ None.
Proof.
  intros Hall. apply pbind_total; [done|]. intros _ _. apply pbind_total; [done|]. intros _ _.
  unfold missing_runner. destruct (filter _ _) as [|[p i] l] eqn:Hf; [done|].
  assert ((p, i) ∈ filter (λ '(_, runner_id), runner_id ∉ (list_to_set (registered_ids self) : gset string))
    (plan_plugins plan ≫= λ manifest, (λ runner, (pm_plugin_id manifest, d_runner_id runner)) <$> pv_runners (pm_provides manifest)))
    as [_ Hin]%list_elem_of_filter by (unfold registered_ids; rewrite Hf; left).
  apply list_elem_of_bind in Hin as (m & He & Hm). apply list_elem_of_fmap in He as (r & [= -> ->] & _).
  cbn. by destruct (Hall m Hm) as [d ->].
Qed.

Lemma runners_exact plan self :
  deployed_all plan →
  validate_registered_runners plugins plan (bs_runners _ _ self) (bs_async_handlers _ _ self) = pok tt ↔ runners_match plan self.
Proof.
  intros Hall. pose proof (runners_total plan self Hall) as Htotal. unfold validate_registered_runners in *.
  set (c1 := check_all _ (bs_runners _ _ self)) in *. set (c2 := check_all _ (bs_async_handlers _ _ self)) in *.
  assert (c1 = Ok tt ↔ ∀ r, r ∈ bs_runners _ _ self →
    plan_plugin_deployments plan !! d_plugin_id (host_runner_descriptor plugins (rgr_runner _ r)) = Some (rgr_deployment_kind _ r)) as H1.
  { unfold c1. rewrite check_all_Ok. by setoid_rewrite deployment_kind_exact. }
  assert (c2 = Ok tt ↔ ∀ r, r ∈ bs_async_handlers _ _ self →
    plan_plugin_deployments plan !! d_plugin_id (host_handler_descriptor plugins (rgh_handler _ r)) = Some (rgh_deployment_kind _ r)) as H2.
  { unfold c2. rewrite check_all_Ok. by setoid_rewrite deployment_kind_exact. }
  pose proof (missing_runner_none (list_to_set (registered_ids self)) plan) as H3. unfold registered_ids in H3.
  clearbody c1 c2. destruct c1 as [[]|]; cbn in *; [|split; [done|]; intros [Hr _ _]; by apply H1 in Hr].
  destruct c2 as [[]|]; cbn in *; [|split; [done|]; intros [_ Hh _]; by apply H2 in Hh].
  destruct (missing_runner _ plan) as [[p i]|]; cbn in *.
  - split; [by case_match|]. intros [_ _ Hp]. exfalso. enough (Some (p, i) = None) by done. apply H3. intros m runner Hm Hr.
    apply elem_of_list_to_set. by eapply Hp.
  - split; [|done]. intros _. split; [by apply H1|by apply H2|]. intros m runner Hm Hr.
    apply (elem_of_list_to_set (C := gset string)). by apply (proj1 H3 eq_refl m runner).
Qed.

Lemma resolved_deployed_all self profile plan :
  resolve_load_plan (bs_manifests _ _ self) profile = Some (Ok plan) → deployed_all plan.
Proof. intros Hp m. by apply (resolved_deployed _ _ _ _ Hp). Qed.

Lemma prepare_runtime_total self profile : prepare_runtime plugins Service self profile ≠ None.
Proof.
  apply pbind_total; [apply resolve_load_plan_total|]. intros plan Hplan%resolved_deployed_all.
  apply pbind_total; [done|]. intros capabilities _. apply pbind_total; [by apply startup_total|]. intros _ _.
  apply pbind_total; [by apply runners_total|]. intros _ _.
  apply pbind_total; [done|]. intros _ _. apply pbind_total; [done|]. intros _ _. by apply pbind_total.
Qed.

Lemma preparation_shape self profile prepared :
  prepare_runtime plugins Service self profile = Some (Ok prepared) →
  resolve_load_plan (bs_manifests _ _ self) profile = Some (Ok (pre_plan _ _ prepared)) ∧
  pre_runners _ _ prepared = rgr_runner _ <$> bs_runners _ _ self ∧
  pre_async_handlers _ _ prepared = rgh_handler _ <$> bs_async_handlers _ _ self.
Proof.
  unfold prepare_runtime. intros (plan & Hplan & H)%pbind_ok.
  do 6 (apply pbind_ok in H as (? & _ & H)). by injection H as <-.
Qed.

(** What a preparation that passes all checks leaves *)
Definition prepared_from self (plan : RuntimeLoadPlan) (capabilities : HostCapabilityRegistry) : PreparedRuntime plugins Service :=
  {| pre_plan := plan;
     pre_runners := rgr_runner _ <$> bs_runners _ _ self;
     pre_async_handlers := rgh_handler _ <$> bs_async_handlers _ _ self;
     pre_capabilities := capabilities;
     pre_services := MkHostServiceRegistry _ (list_to_map (bs_host_services _ _ self)) true;
     pre_profile_id := plan_profile_id plan;
     pre_registry_generation := plan_registry_generation plan;
     pre_active_resource_providers := cg_active_resource_providers (plan_capability_graph plan);
     pre_resource_providers := bs_resource_providers _ _ self;
     pre_async_resource_providers := bs_async_resource_providers _ _ self |}.

(** C18: preparing a runtime never panics, and it succeeds exactly when the
    manifests resolve to a plan whose capabilities register, every deployment
    that brings runners has an active backend, every registered runner and
    handler belongs to a plugin planned with the deployment it was registered
    for, every planned runner has an object, no two resource providers and no
    two services share an id; it then hands on exactly what was registered. *)
Theorem preparation_exact self profile :
  prepare_runtime plugins Service self profile ≠ None ∧
  ∀ prepared, prepare_runtime plugins Service self profile = Some (Ok prepared) ↔
    ∃ plan capabilities,
      resolve_load_plan (bs_manifests _ _ self) profile = Some (Ok plan) ∧
      HostResolver.from_load_plan plan = Ok capabilities ∧
      startable plan capabilities ∧ runners_match plan self ∧
      NoDup (bs_resource_providers _ _ self ++ bs_async_resource_providers _ _ self) ∧
      NoDup (bs_host_services _ _ self).*1 ∧
      prepared = prepared_from self plan capabilities.
Proof.
  split; [apply prepare_runtime_total|]. intros prepared. split.
  - unfold prepare_runtime. intros (plan & Hplan & H)%pbind_ok. pose proof (resolved_deployed_all _ _ _ Hplan) as Hall.
    apply pbind_ok in H as (capabilities & [= Hcap] & H). apply pbind_ok in H as ([] & H1%startup_exact & H); [|done].
    apply pbind_ok in H as ([] & H2%runners_exact & H); [|done].
    apply pbind_ok in H as ([] & [= H3] & H). apply pbind_ok in H as ([] & [= H4] & H).
    apply pbind_ok in H as (services & [= [Hnd ->]%services_exact] & [= <-]).
    exists plan, capabilities. split_and!; try done. by apply providers_exact.
  - intros (plan & capabilities & Hplan & Hcap & H1 & H2 & [H3 H4]%providers_exact & H5 & ->).
    pose proof (resolved_deployed_all _ _ _ Hplan) as Hall. unfold prepare_runtime.
    rewrite (pbind_run _ _ plan Hplan), (pbind_run _ _ capabilities) by by rewrite Hcap.
    rewrite (pbind_run _ _ tt) by by apply startup_exact. rewrite (pbind_run _ _ tt) by by apply runners_exact.
    rewrite !(pbind_run _ _ tt) by by rewrite ?H3, ?H4.
    by rewrite (pbind_run _ _ (MkHostServiceRegistry _ (list_to_map (bs_host_services _ _ self)) true)) by by f_equal; apply services_exact.
Qed.
End Prepared.

(** ** A booted host *)

Section Booted.
Context `{SJ : SerdeJson}.
Variable plugins : PluginObjects.
Variable Service : Type.
Context `{ST : !SerdeTypes}.
#[local] Instance host_runners : RunnerApi := HostRunners plugins.
#[local] Instance host_control : RunnerControl := HostControl plugins.
Implicit Types (self : RuntimeBootstrapper plugins Service) (core : CoreRuntime).

(** As many tasks as one allocation can hold the ids of *)
Definition most_tasks : N := isize_max / size_of TaskId.

(** What the actor needs of the core it starts with *)
Record bootable core : Prop := MkBootable {
  bo_reachable : rt_reachable core;
  bo_room : room most_tasks core;
  bo_ids : ids_left core;
  bo_kernel : Forall kernel_inline (reg_descriptor_snapshot (rt_registry core))
}.

(** The logs a profile asks for can be allocated. *)
Definition logs_fit (profile : ObservabilityProfile) : Prop :=
  allocatable RuntimeEvent (op_capacity (obs_events profile)) ∧ allocatable TraceSpan (op_capacity (obs_traces profile)).

Lemma boot_total plan runners handlers :
  logs_fit (plan_observability plan) → boot_with_async_handlers plan runners handlers ≠ None.
Proof.
  intros [He Ht]. unfold boot_with_async_handlers. case_match; [|done].
  destruct (build_registry_runs runners handlers) as ([[]|e] & r & -> & _); [|done].
  unfold EventLog_with_profile, TraceLog_with_profile. by rewrite !log_new_allocatable.
Qed.

Lemma boot_bootable (prepared : PreparedRuntime plugins Service) core :
  boot_prepared_runtime plugins Service prepared = Some (Ok core) → bootable core.
Proof.
  unfold boot_prepared_runtime, append_core_kernel. intros Hb.
  pose proof (rt_reachable_boot _ _ _ _ Hb) as Hreach. revert Hb. unfold boot_with_async_handlers. case_match; [|done].
  match goal with |- context [build_registry ?rs ?hs] => destruct (@build_registry_runs _ (HostRunners plugins) rs hs) as (res & r & Hr & Hinv) end.
  rewrite Hr. destruct res as [[]|]; [|done].
  destruct (EventLog_with_profile _); [|done]. destruct (TraceLog_with_profile _); [|done]. intros [= <-]. split; [done| |done|].
  - split_and!; [by vm_compute|by vm_compute|by vm_compute|]. intros ref_id. unfold current_version. cbn. rewrite lookup_empty.
    by vm_compute.
  - apply snapshot_described; [done|]. intros d Hd Hid. rewrite Hid in Hd.
    pose proof (eq_trans (eq_sym Hd) (@last_runner_registered _ (HostRunners plugins) _ _ _ _ Hr)) as [= ->]. by vm_compute.
Qed.

Lemma bootable_observability profile core :
  bootable core → ∃ core', configure_observability profile core = Some (tt, core') ∧ bootable core'.
Proof.
  intros [Hr Hroom Hids Hk]. eexists. split; [done|]. split; [|done..].
  by eapply (rt_reachable_step _ (RtConfigureObservability profile)); [exact Hr|..].
Qed.

Lemma bootable_history retention core :
  bootable core → ∃ core', configure_task_history_retention retention core = Some (tt, core') ∧ bootable core'.
Proof.
  intros [Hr Hroom Hids Hk].
  destruct (configure_history_draws_nothing retention core (rt_reachable_ok _ Hr)) as ([] & core' & Hrun & _ & _ & Hsp).
  exists core'. split; [done|]. assert (rt_resources core' = rt_resources core ∧ rt_registry core' = rt_registry core) as [E1 E2].
  { revert Hrun. unfold configure_task_history_retention, on_tasks. case_match; [|done]. case_match. intros; by simplify_eq. }
  split.
  - eapply (rt_reachable_step _ (RtConfigureHistory retention)); [exact Hr|done|done|].
    cbn [run_rt]. unfold forget. by rewrite (bind_run _ _ _ tt core').
  - by apply (room_after 0 most_tasks core).
  - unfold ids_left. by rewrite E1.
  - by rewrite E2.
Qed.

Lemma configure_core_bootable start core :
  bootable core → ∃ core', configure_core plugins start core = Some (tt, core') ∧ bootable core'.
Proof.
  intros Hb. unfold configure_core. destruct (sc_observability start) as [profile|].
  - destruct (bootable_observability profile core Hb) as (core1 & H1 & Hb1).
    rewrite (bind_run _ _ _ _ _ H1). by apply bootable_history.
  - rewrite (bind_run _ _ _ tt core) by done. by apply bootable_history.
Qed.

Variable platform : HostPlatform.

(** The channels of the pools and of the management threads can be allocated,
    and the byte budget is a [usize]. *)
Record platform_fits (start : HostStartConfig) : Prop := MkPlatformFits {
  pf_pools : hp_pool_channel_fits platform (sc_pool_queue_limit start) = true;
  pf_management : hp_management_channel_fits platform (sc_management_queue_limit start) = true;
  pf_bytes : (sc_pool_max_inflight_bytes start ≤ usize_max)%N
}.

(** The worker pools a host starts with have the threads the configuration
    asks for, all waiting, and behave as the pools of HostPool.v. *)
Definition pools_ready (start : HostStartConfig) (pools : WorkerPools) : Prop :=
  (∀ json run, pool_reachable json run (wps_compute pools).1 (wps_compute pools).2 ∧
               pool_reachable json run (wps_blocking pools).1 (wps_blocking pools).2) ∧
  pool_ready (sc_worker_threads start) (wps_compute pools).1 (wps_compute pools).2 ∧
  pool_ready (sc_blocking_threads start) (wps_blocking pools).1 (wps_blocking pools).2 ∧
  wp_execution_classes (wps_compute pools).1 = [Orchestration; Cpu] ∧
  wp_execution_classes (wps_blocking pools).1 = [Io; Blocking; Script].

Lemma attempts_len name count : len (spawn_attempts platform name count) = count.
Proof. unfold len, spawn_attempts. by rewrite length_fmap, length_seq, N2Nat.id. Qed.

Lemma worker_pools_ready start pools :
  (sc_pool_max_inflight_bytes start ≤ usize_max)%N →
  worker_pools (hp_pool_channel_fits platform)
    (spawn_attempts platform "mutsuki-compute-worker-" (sc_worker_threads start))
    (spawn_attempts platform "mutsuki-blocking-worker-" (sc_blocking_threads start))
    (sc_pool_queue_limit start) (sc_pool_max_inflight_bytes start) (sc_max_isolated_workers start) = Some (Ok pools) →
  pools_ready start pools.
Proof.
  intros Hb. unfold worker_pools. destruct (WorkerPool_new _ "compute" _ _ _ _ _) as [[[cpool cs]|]|] eqn:Hc; [|done..].
  destruct (WorkerPool_new _ "blocking" _ _ _ _ _) as [[[bpool bs]|]|] eqn:Hbl; [|done..]. intros [= <-]. unfold pools_ready. cbn.
  pose proof (worker_pool_new_ready _ _ _ _ _ _ _ _ _ Hc) as [Hc1 Hc2]. pose proof (worker_pool_new_ready _ _ _ _ _ _ _ _ _ Hbl) as [Hb1 Hb2].
  rewrite attempts_len in Hc1, Hb1. split_and!; [|done..]. intros json run. split; by eapply worker_pool_new_reachable.
Qed.

Lemma management_total fits threads queue_limit : fits queue_limit = true → ManagementExecutor_new fits threads queue_limit ≠ None.
Proof. intros Hf. unfold ManagementExecutor_new. destruct (_ || _); [done|]. by rewrite Hf. Qed.

Definition well_started (start : HostStartConfig) (host : StartedHost plugins) : Prop :=
  bootable (sh_core _ host) ∧ pools_ready start (sh_pools _ host).

Lemma host_start_starts core config start :
  platform_fits start → bootable core →
  ∃ result, host_start plugins platform core config start = Some result ∧ ∀ host, result = Ok host → well_started start host.
Proof.
  intros [Hp Hm Hb] Hboot. unfold host_start. destruct (validate_runner_limits _ _) as [[]|e]; cbn [pbind]; [|by eexists].
  case_decide; [by eexists|]. destruct (configure_core_bootable start core Hboot) as (core' & -> & Hboot').
  destruct (worker_pools _ _ _ _ _ _) as [[pools|e]|] eqn:Hpools; cbn [pbind];
    [|by eexists|by apply worker_pools_total in Hpools].
  destruct (ManagementExecutor_new _ _ _) as [[management|e]|] eqn:Hman; cbn [pbind]; [|by eexists|by apply management_total in Hman].
  destruct (hp_thread_starts _ _); [|by eexists]. eexists. split; [done|]. intros host [= <-].
  split; [done|]. by apply worker_pools_ready.
Qed.

Lemma prepared_observability self profile prepared :
  prepare_runtime plugins Service self profile = Some (Ok prepared) →
  plan_observability (pre_plan _ _ prepared) = prof_observability profile.
Proof.
  intros (Hplan & _)%preparation_shape. revert Hplan. unfold resolve_load_plan.
  intros (? & _ & (? & _ & (? & _ & [= <-])%pbind_ok)%pbind_ok)%pbind_ok. done.
Qed.

Lemma into_host_starts self profile start :
  logs_fit (prof_observability profile) → platform_fits start →
  ∃ result, into_host_runtime_with_config plugins Service platform self profile start = Some result ∧
    ∀ host, result = Ok host → well_started start host.
Proof.
  intros Hlogs Hfits. unfold into_host_runtime_with_config.
  destruct (prepare_runtime _ _ self profile) as [[prepared|e]|] eqn:Hp; cbn [pbind]; [|by eexists|by apply prepare_runtime_total in Hp].
  destruct (validate_configured_scheduler_policy _ _) as [[]|e]; cbn [pbind]; [|by eexists].
  destruct (boot_prepared_runtime _ _ prepared) as [[core|e]|] eqn:Hb; cbn [pbind]; [|by eexists|].
  - destruct (configure_resource_provider _ _ _ _) as [config|e]; cbn [pbind]; [|by eexists].
    by apply host_start_starts, (boot_bootable prepared).
  - apply boot_total in Hb; [done|]. cbn. by rewrite (prepared_observability _ _ _ Hp).
Qed.

(** ** Reload *)

Lemma prepare_reload_inv self profile generation prepared :
  prepare_reload plugins Service self profile generation = Some (Ok prepared) →
  ∃ base, prepare_runtime plugins Service self profile = Some (Ok base) ∧
    prr_plan _ _ prepared = plan_with_kernel (plan_with_generation generation (pre_plan _ _ base)) ∧
    prr_runners _ _ prepared = (GenerationRunner_new plugins generation <$> pre_runners _ _ base) ++
      [CoreKernelRunner plugins (core_kernel_descriptor generation)] ∧
    prr_async_handlers _ _ prepared = GenerationAsyncHandler_new plugins generation <$> pre_async_handlers _ _ base ∧
    prr_registry_generation _ _ prepared = generation.
Proof. unfold prepare_reload. intros (base & Hbase & [= <-])%pbind_ok. by exists base. Qed.

(** preparing a reload never panics; the plan, every runner it plans and every
    object handed over carry the generation of the reload. *)
Theorem reload_carries_generation self profile generation :
  prepare_reload plugins Service self profile generation ≠ None ∧
  ∀ prepared, prepare_reload plugins Service self profile generation = Some (Ok prepared) →
    plan_registry_generation (prr_plan _ _ prepared) = generation ∧
    (∀ m runner, m ∈ plan_plugins (prr_plan _ _ prepared) → runner ∈ pv_runners (pm_provides m) →
       d_plugin_generation runner = generation) ∧
    Forall (λ r, d_plugin_generation (runner_descriptor r) = generation) (prr_runners _ _ prepared) ∧
    Forall (λ h, d_plugin_generation (handler_descriptor h) = generation) (prr_async_handlers _ _ prepared).
Proof.
  split; [apply pbind_total; [apply prepare_runtime_total|done]|].
  intros prepared (base & _ & -> & -> & -> & _)%prepare_reload_inv. split_and!; [done| | |].
  - cbn. intros m runner [Hm| ->%list_elem_of_singleton]%elem_of_app Hr.
    + apply list_elem_of_fmap in Hm as (m0 & -> & _). cbn in Hr. by apply list_elem_of_fmap in Hr as (r0 & -> & _).
    + by apply list_elem_of_singleton in Hr as ->.
  - apply Forall_app. split; [|by repeat constructor]. apply Forall_fmap, Forall_forall. by intros [] _.
  - apply Forall_fmap, Forall_forall. by intros [] _.
Qed.

(** After a reload no runner object can be terminated, managed or recovered any
    more, even if the object inside can, while the async handlers keep their
    isolation and management handle: [GenerationRunner] leaves these methods of
    the trait at their defaults, [GenerationAsyncHandler] forwards them. *)
Theorem reload_drops_isolation self profile generation prepared :
  prepare_reload plugins Service self profile generation = Some (Ok prepared) →
  Forall (λ r, runner_isolation r = None ∧ runner_management_handle r = None ∧
               is_ok (recover_after_hard_termination r).1 = false) (prr_runners _ _ prepared) ∧
  handler_isolation <$> prr_async_handlers _ _ prepared =
    (λ r, handler_isolation (rgh_handler _ r)) <$> bs_async_handlers _ _ self ∧
  handler_management_handle <$> prr_async_handlers _ _ prepared =
    (λ r, handler_management_handle (rgh_handler _ r)) <$> bs_async_handlers _ _ self.
Proof.
  intros (base & Hbase & _ & -> & -> & _)%prepare_reload_inv.
  apply preparation_shape in Hbase as (_ & -> & ->). split_and!.
  - apply Forall_app. split; [|by repeat constructor]. by apply Forall_fmap, Forall_forall.
  - rewrite <- !list_fmap_compose. by apply list_fmap_ext.
  - rewrite <- !list_fmap_compose. by apply list_fmap_ext.
Qed.

Context {HW : HostWorld}.

End Booted.

(** ** A host of two plugins *)

#[local] Existing Instance DemoRunners.
#[local] Existing Instance DemoSerde.
#[local] Existing Instance DemoControl.

Definition demo_objects : PluginObjects := MkPluginObjects DemoRunners DemoControl.

Definition demo_bootstrapper : RuntimeBootstrapper demo_objects unit :=
  register_builtin_runner demo_objects unit (PluginRunner demo_objects ((effect_runner, false) : @Runner _ DemoRunners))
    (register_manifest demo_objects unit wire_plugin (register_manifest demo_objects unit net_plugin
      (RuntimeBootstrapper_new demo_objects unit))).

Definition demo_start : HostStartConfig :=
  MkHostStartConfig (demo_config false default_runner_limits) "host.default" None (Some (MkTaskHistoryRetention 10 10))
    2 1 16 1000 1 1 16.

(** All threads start; channels of up to a million slots can be allocated. *)
Definition demo_platform : HostPlatform :=
  MkHostPlatform (λ _, true) (λ n, bool_decide (n ≤ 1000000)%N) (λ n, bool_decide (n ≤ 1000000)%N).

Definition demo_host : P (StartedHost demo_objects) :=
  into_host_runtime_with_config demo_objects unit demo_platform demo_bootstrapper (pruned_profile ["net"; "wire"]) demo_start.

Definition demo_booted : option (StartedHost demo_objects) :=
  match demo_host with Some (Ok booted) => Some booted | _ => None end.

Lemma demo_booted_inv booted : demo_booted = Some booted → demo_host = Some (Ok booted).
Proof. unfold demo_booted. by destruct demo_host as [[]|]; [intros [= ->]|..]. Defined.

Lemma demo_booted_limits booted : demo_booted = Some booted →
  cfg_default_runner_limits (sh_config _ booted) = default_runner_limits ∧ cfg_runner_limits (sh_config _ booted) = ∅.
Proof.
  assert (match demo_booted with
          | Some booted => cfg_default_runner_limits (sh_config _ booted) = default_runner_limits ∧ cfg_runner_limits (sh_config _ booted) = ∅
          | None => True
          end) as H by (vm_compute; split; reflexivity).
  intros Hb. rewrite Hb in H. exact H.
Defined.

(** A task for the runner, a pass, a question and the end *)
Definition demo_mail : list (option (@CoreActorMsg _ (HostRunners demo_objects))) :=
  [Some (MsgCommand (CmdSubmitTask (demo_task "t" "effect.send" "x")) 1); Some (MsgCommand CmdTickOnce 2); None;
   Some (MsgTaskStatus "t" 3); Some MsgShutdown].


Definition demo_answers : option (list N * option TaskStatus) :=
  match demo_booted with
  | Some host =>
      match @run_actor _ _ (HostControl demo_objects) _ DemoWorld (sh_config _ host) (sh_core _ host) demo_mail 0%N with
      | Some h => Some ((hs_answers h).*1, task_status (hs_core h) "t")
      | None => None
      end
  | None => None
  end.

(** The three questions are answered; the shutdown cancels the task that is
    still with the pool. *)
Example demo_host_answers : demo_answers = Some ([1; 2; 3]%N, Some Cancelled).
Proof. vm_compute. reflexivity. Qed.
