(* ===== verification/HostMux.v ===== *)
(** * The request multiplexer

    crates/mutsuki-runtime-host/src/multiplexer.rs, multiplexer/pending.rs and
    multiplexer/threads.rs, with the request path of the transports that use it
    (binary.rs, jsonl.rs: [request_without_handshake]).

    Many callers share one stream.  A caller puts its request into the table of
    pending requests, hands its frame to the writer's thread through one of two
    bounded queues, and waits for the reader's thread to find it by the id of a
    response.  Every critical section of the table and every operation on a
    channel is one step; the steps of the callers, the writer and the reader
    interleave in any order.

    A caller is its index, and so is the sender of its response channel; both of
    its channels hold at most one message, and what was sent stays visible after
    it was received.  What the stream does (a frame, its end, an error), when a
    wait times out, and which queue a [select!] prefers are inputs of the steps.
    The histories of the limits in force and of the frames read and written are
    kept for the theorems only. *)

From stdpp Require Import relations.
From S2P Require Import Prelude Contracts RunnerContracts BatchContracts PluginContracts WireBytes WireProtocol WireFrame WireOperations WireBinary RuntimeRuns HostErrors HostPool.

#[local] Arguments total : simpl never.

Definition transport_error (message : string) : RuntimeError :=
  with_evidence "reason" (ScalarString message) (runtime_error ERR_RUNTIME_HOST_FAILED "wire_multiplexer" "wire.transport").
Definition transport_failure {A} (message : string) : RuntimeResult A := Err (transport_error message).

(** ** The table of pending requests (pending.rs) *)

Record PendingRequest : Type := MkPendingRequest { pr_management : bool; pr_sender : nat }.

Record PendingState : Type := MkPendingState {
  pn_requests : gmap N PendingRequest;
  pn_failure : option RuntimeError;
  pn_closed : bool
}.

Definition PendingState_default : PendingState := MkPendingState ∅ None false.

(** The requests in the order of the [BTreeMap] *)
Definition pending_values (requests : gmap N PendingRequest) : list PendingRequest :=
  (sort_by_key fst (map_to_list requests)).*2.

Definition work_capacity (limits : WireLimits) : N :=
  lim_max_in_flight_requests limits - lim_management_reserved_requests limits.
Definition work_in_flight (requests : gmap N PendingRequest) : N :=
  len (filter (λ r, pr_management r = false) (pending_values requests)).

Definition pending_insert (request_id : N) (management : bool) (sender : nat) (limits : WireLimits) (state : PendingState) :
    RuntimeResult PendingState :=
  match pn_failure state with
  | Some error => Err error
  | None =>
      if pn_closed state then transport_failure "transport is closed"
      else if decide (lim_max_in_flight_requests limits ≤ N.of_nat (size (pn_requests state)))%N then
        transport_failure "pending request limit reached"
      else if negb management && bool_decide (work_capacity limits ≤ work_in_flight (pn_requests state))%N then
        transport_failure "work pending capacity is exhausted"
      else
        match pn_requests state !! request_id with
        | Some _ => transport_failure "duplicate request id"
        | None => Ok (MkPendingState (<[ request_id := MkPendingRequest management sender ]> (pn_requests state))
                        (pn_failure state) (pn_closed state))
        end
  end.

Definition pending_remove (request_id : N) (state : PendingState) : PendingState :=
  MkPendingState (delete request_id (pn_requests state)) (pn_failure state) (pn_closed state).

Definition pending_take (request_id : N) (state : PendingState) : option nat * PendingState :=
  (pr_sender <$> pn_requests state !! request_id, pending_remove request_id state).

(** [None]: it keeps waiting. *)
Definition wait_until_ready_or_closed (state : PendingState) : option bool :=
  if bool_decide (pn_requests state = ∅) && negb (pn_closed state) && bool_decide (pn_failure state = None) then None
  else Some (negb (pn_closed state) && bool_decide (pn_failure state = None)).

(** The critical section of [fail]: the senders it takes out are served after
    it. *)
Definition pending_fail (error : RuntimeError) (state : PendingState) : list nat * PendingState :=
  (pr_sender <$> pending_values (pn_requests state),
   MkPendingState ∅ (match pn_failure state with None => Some error | old => old end) (pn_closed state)).

Definition pending_close (state : PendingState) : PendingState :=
  MkPendingState (pn_requests state) (pn_failure state) true.

(** ** Callers, writer and reader *)

Section Mux.
Abbreviation Frame := (list byte).
Context {Response : Type}.
(** [codec.response_id], and the decoding of the typed response to a request *)
Variable response_id : Frame → RuntimeResult N.
Variable decode_response : N → Frame → RuntimeResult Response.

Inductive CallerPc : Type :=
  | CallLimits
  | CallInsert (limits : WireLimits)
  | CallEnqueue
  | CallAwaitWritten
  | CallAwaitResponse
  | CallDecode (frame : Frame)
  (** in [shared.fail], with the senders still to be served *)
  | CallFail (senders : list nat) (error : RuntimeError)
  | CallDone (result : RuntimeResult Response).

Record Caller : Type := MkCaller {
  cl_pc : CallerPc;
  cl_request_id : N;
  cl_management : bool;
  cl_frame : Frame;
  cl_written : option (RuntimeResult unit);
  cl_response : option (RuntimeResult Frame)
}.

Record WriteCommand : Type := MkWriteCommand { wc_frame : Frame; wc_written : nat }.

(** The points of [writer_loop]; the flag of a command taken is what
    [prefer_management] becomes once it is written. *)
Inductive WriterPc : Type :=
  | WriterTop
  | WriterTryWork
  | WriterTryManagement
  | WriterSelect
  | WriterWrite (command : WriteCommand) (then_prefer : bool)
  | WriterFail (command : WriteCommand) (senders : list nat) (error : RuntimeError)
  | WriterReport (command : WriteCommand) (result : RuntimeResult unit) (then_prefer : bool)
  | WriterStopped.

Inductive ReaderPc : Type :=
  | ReaderWait
  | ReaderRead
  | ReaderTake (request_id : N) (frame : Frame)
  | ReaderDeliver (sender : nat) (frame : Frame)
  | ReaderRaise (error : RuntimeError)
  | ReaderFail (senders : list nat) (error : RuntimeError)
  | ReaderStopped.

Record MuxState : Type := MkMuxState {
  mx_pending : PendingState;
  mx_limits : WireLimits;
  mx_next_request : N;
  mx_work : list WriteCommand;
  mx_management : list WriteCommand;
  mx_work_capacity : N;
  mx_management_capacity : N;
  (** the senders the multiplexer itself holds *)
  mx_work_sender : bool;
  mx_management_sender : bool;
  mx_writer : WriterPc;
  mx_management_open : bool;
  mx_work_open : bool;
  mx_prefer_management : bool;
  mx_reader : ReaderPc;
  mx_callers : list Caller;
  mx_limits_seen : list WireLimits;
  mx_read : list Frame;
  mx_wire : list Frame
}.

Definition Caller_eta (x : Caller) : Caller :=
  {| cl_pc := cl_pc x; cl_request_id := cl_request_id x; cl_management := cl_management x; cl_frame := cl_frame x; cl_written := cl_written x; cl_response := cl_response x |}.
#[export] Instance set_cl_pc : Setter cl_pc := ltac:(derive_setter Caller_eta cl_pc).
#[export] Instance set_cl_request_id : Setter cl_request_id := ltac:(derive_setter Caller_eta cl_request_id).
#[export] Instance set_cl_management : Setter cl_management := ltac:(derive_setter Caller_eta cl_management).
#[export] Instance set_cl_frame : Setter cl_frame := ltac:(derive_setter Caller_eta cl_frame).
#[export] Instance set_cl_written : Setter cl_written := ltac:(derive_setter Caller_eta cl_written).
#[export] Instance set_cl_response : Setter cl_response := ltac:(derive_setter Caller_eta cl_response).

Definition MuxState_eta (x : MuxState) : MuxState :=
  {| mx_pending := mx_pending x; mx_limits := mx_limits x; mx_next_request := mx_next_request x; mx_work := mx_work x; mx_management := mx_management x; mx_work_capacity := mx_work_capacity x; mx_management_capacity := mx_management_capacity x; mx_work_sender := mx_work_sender x; mx_management_sender := mx_management_sender x; mx_writer := mx_writer x; mx_management_open := mx_management_open x; mx_work_open := mx_work_open x; mx_prefer_management := mx_prefer_management x; mx_reader := mx_reader x; mx_callers := mx_callers x; mx_limits_seen := mx_limits_seen x; mx_read := mx_read x; mx_wire := mx_wire x |}.
#[export] Instance set_mx_pending : Setter mx_pending := ltac:(derive_setter MuxState_eta mx_pending).
#[export] Instance set_mx_limits : Setter mx_limits := ltac:(derive_setter MuxState_eta mx_limits).
#[export] Instance set_mx_next_request : Setter mx_next_request := ltac:(derive_setter MuxState_eta mx_next_request).
#[export] Instance set_mx_work : Setter mx_work := ltac:(derive_setter MuxState_eta mx_work).
#[export] Instance set_mx_management : Setter mx_management := ltac:(derive_setter MuxState_eta mx_management).
#[export] Instance set_mx_work_capacity : Setter mx_work_capacity := ltac:(derive_setter MuxState_eta mx_work_capacity).
#[export] Instance set_mx_management_capacity : Setter mx_management_capacity := ltac:(derive_setter MuxState_eta mx_management_capacity).
#[export] Instance set_mx_work_sender : Setter mx_work_sender := ltac:(derive_setter MuxState_eta mx_work_sender).
#[export] Instance set_mx_management_sender : Setter mx_management_sender := ltac:(derive_setter MuxState_eta mx_management_sender).
#[export] Instance set_mx_writer : Setter mx_writer := ltac:(derive_setter MuxState_eta mx_writer).
#[export] Instance set_mx_management_open : Setter mx_management_open := ltac:(derive_setter MuxState_eta mx_management_open).
#[export] Instance set_mx_work_open : Setter mx_work_open := ltac:(derive_setter MuxState_eta mx_work_open).
#[export] Instance set_mx_prefer_management : Setter mx_prefer_management := ltac:(derive_setter MuxState_eta mx_prefer_management).
#[export] Instance set_mx_reader : Setter mx_reader := ltac:(derive_setter MuxState_eta mx_reader).
#[export] Instance set_mx_callers : Setter mx_callers := ltac:(derive_setter MuxState_eta mx_callers).
#[export] Instance set_mx_limits_seen : Setter mx_limits_seen := ltac:(derive_setter MuxState_eta mx_limits_seen).
#[export] Instance set_mx_read : Setter mx_read := ltac:(derive_setter MuxState_eta mx_read).
#[export] Instance set_mx_wire : Setter mx_wire := ltac:(derive_setter MuxState_eta mx_wire).

Definition mux_new (limits : WireLimits) : MuxState := {|
  mx_pending := PendingState_default; mx_limits := limits; mx_next_request := 0; mx_work := []; mx_management := [];
  mx_work_capacity := N.max (work_capacity limits) 1;
  mx_management_capacity := N.max (lim_management_reserved_requests limits) 1;
  mx_work_sender := true; mx_management_sender := true;
  mx_writer := WriterTop; mx_management_open := true; mx_work_open := true; mx_prefer_management := true;
  mx_reader := ReaderWait; mx_callers := []; mx_limits_seen := [limits]; mx_read := []; mx_wire := []
|}.

(** ** Steps *)

Definition goto_caller (index : nat) (pc : CallerPc) (s : MuxState) : MuxState :=
  s <| mx_callers ::= alter (λ c, c <| cl_pc := pc |>) index |>.

(** [sender.send(response)]; [None]: the channel is full and the sender blocks. *)
Definition send_response (sender : nat) (response : RuntimeResult Frame) (s : MuxState) : option MuxState :=
  match mx_callers s !! sender with
  | Some c =>
      match cl_response c with
      | None => Some (s <| mx_callers ::= alter (λ c, c <| cl_response := Some response |>) sender |>)
      | Some _ => None
      end
  | None => None
  end.

Definition send_written (sender : nat) (result : RuntimeResult unit) (s : MuxState) : MuxState :=
  s <| mx_callers ::= alter (λ c, c <| cl_written := Some result |>) sender |>.

(** The critical section of [shared.fail]: what is left to be served, and the
    state *)
Definition start_fail (error : RuntimeError) (s : MuxState) : list nat * MuxState :=
  let '(senders, pending) := pending_fail error (mx_pending s) in (senders, s <| mx_pending := pending |>).

Definition writer_gone (s : MuxState) : bool := match mx_writer s with WriterStopped => true | _ => false end.

(** [TimedOut] is a wait that ends with an error, whose text is given. *)
Inductive Waited : Type := Proceeds | TimedOut (reason : string).

Definition caller_fails (index : nat) (error : RuntimeError) (s : MuxState) : MuxState :=
  let '(senders, s) := start_fail error s in goto_caller index (CallFail senders error) s.

Definition enqueue_write (index : nat) (c : Caller) (s : MuxState) : option MuxState :=
  let command := MkWriteCommand (cl_frame c) index in
  if writer_gone s then None
  else if cl_management c then
    if decide (len (mx_management s) < mx_management_capacity s)%N then Some (s <| mx_management ::= λ q, q ++ [command] |>)
    else None
  else
    if decide (len (mx_work s) < mx_work_capacity s)%N then Some (s <| mx_work ::= λ q, q ++ [command] |>) else None.

(** [RequestMultiplexer::request], and the decoding of its response by the
    transport *)
Definition caller_step (index : nat) (waited : Waited) (s : MuxState) : option MuxState :=
  match mx_callers s !! index with
  | None => None
  | Some c =>
      match cl_pc c, waited with
      | CallLimits, Proceeds => Some (goto_caller index (CallInsert (mx_limits s)) s)
      | CallInsert limits, Proceeds =>
          match pending_insert (cl_request_id c) (cl_management c) index limits (mx_pending s) with
          | Err error => Some (goto_caller index (CallDone (Err error)) s)
          | Ok pending => Some (goto_caller index CallEnqueue (s <| mx_pending := pending |>))
          end
      | CallEnqueue, Proceeds =>
          match enqueue_write index c s with Some s => Some (goto_caller index CallAwaitWritten s) | None => None end
      | CallEnqueue, TimedOut reason =>
          match enqueue_write index c s with
          | Some _ => None
          | None => Some (goto_caller index
              (CallDone (transport_failure ("writer queue backpressure or disconnect: " +:+ reason)))
              (s <| mx_pending ::= pending_remove (cl_request_id c) |>))
          end
      | CallAwaitWritten, Proceeds =>
          match cl_written c with
          | Some (Ok _) => Some (goto_caller index CallAwaitResponse s)
          | Some (Err error) => Some (goto_caller index (CallDone (Err error)) s)
          | None => None
          end
      | CallAwaitWritten, TimedOut reason =>
          match cl_written c with
          | Some _ => None
          | None => Some (caller_fails index (transport_error ("writer completion timeout: " +:+ reason)) s)
          end
      | CallAwaitResponse, Proceeds =>
          match cl_response c with
          | Some (Ok frame) => Some (goto_caller index (CallDecode frame) s)
          | Some (Err error) => Some (goto_caller index (CallDone (Err error)) s)
          | None => None
          end
      | CallAwaitResponse, TimedOut reason =>
          match cl_response c with
          | Some _ => None
          | None => Some (caller_fails index (transport_error ("response timeout or disconnect: " +:+ reason)) s)
          end
      | CallDecode frame, Proceeds =>
          match decode_response (cl_request_id c) frame with
          | Ok response => Some (goto_caller index (CallDone (Ok response)) s)
          | Err error => Some (caller_fails index error s)
          end
      | CallFail [] error, Proceeds => Some (goto_caller index (CallDone (Err error)) s)
      | CallFail (sender :: senders) error, Proceeds =>
          match send_response sender (Err error) s with
          | Some s => Some (goto_caller index (CallFail senders error) s)
          | None => None
          end
      | _, _ => None
      end
  end.

(** What a receive finds in a queue *)
Inductive MuxReceived : Type := GotCommand (command : WriteCommand) (s : MuxState) | QueueEmpty | Disconnected.

Definition try_management (s : MuxState) : MuxReceived :=
  match mx_management s with
  | command :: rest => GotCommand command (s <| mx_management := rest |>)
  | [] => if mx_management_sender s then QueueEmpty else Disconnected
  end.
Definition try_work (s : MuxState) : MuxReceived :=
  match mx_work s with
  | command :: rest => GotCommand command (s <| mx_work := rest |>)
  | [] => if mx_work_sender s then QueueEmpty else Disconnected
  end.

Definition goto_writer (pc : WriterPc) (s : MuxState) : MuxState := s <| mx_writer := pc |>.

(** A blocking receive: [None] while the queue is empty *)
Definition recv_management (s : MuxState) : option MuxState :=
  match try_management s with
  | GotCommand command s => Some (goto_writer (WriterWrite command false) s)
  | QueueEmpty => None
  | Disconnected => Some (goto_writer WriterTop (s <| mx_management_open := false |>))
  end.
Definition recv_work (s : MuxState) : option MuxState :=
  match try_work s with
  | GotCommand command s => Some (goto_writer (WriterWrite command true) s)
  | QueueEmpty => None
  | Disconnected => Some (goto_writer WriterTop (s <| mx_work_open := false |>))
  end.

(** [pick_management] is the choice of [select!], [written] what
    [write_all] and [flush] return. *)
Definition writer_step (pick_management : bool) (written : Result string unit) (s : MuxState) : option MuxState :=
  match mx_writer s with
  | WriterTop =>
      if negb (mx_management_open s) && negb (mx_work_open s) then Some (goto_writer WriterStopped s)
      else if mx_management_open s && mx_prefer_management s then
        match try_management s with
        | GotCommand command s => Some (goto_writer (WriterWrite command false) s)
        | QueueEmpty => Some (goto_writer WriterTryWork s)
        | Disconnected => Some (goto_writer WriterTryWork (s <| mx_management_open := false |>))
        end
      else Some (goto_writer WriterTryWork s)
  | WriterTryWork =>
      if mx_work_open s then
        match try_work s with
        | GotCommand command s => Some (goto_writer (WriterWrite command true) s)
        | QueueEmpty => Some (goto_writer WriterTryManagement s)
        | Disconnected => Some (goto_writer WriterTryManagement (s <| mx_work_open := false |>))
        end
      else Some (goto_writer WriterTryManagement s)
  | WriterTryManagement =>
      if mx_management_open s then
        match try_management s with
        | GotCommand command s => Some (goto_writer (WriterWrite command false) s)
        | QueueEmpty => Some (goto_writer WriterSelect s)
        | Disconnected => Some (goto_writer WriterSelect (s <| mx_management_open := false |>))
        end
      else Some (goto_writer WriterSelect s)
  | WriterSelect =>
      match mx_management_open s, mx_work_open s with
      | true, true => if pick_management then recv_management s else recv_work s
      | true, false => recv_management s
      | false, true => recv_work s
      | false, false => Some (goto_writer WriterTop s)
      end
  | WriterWrite command then_prefer =>
      match written with
      | Ok _ => Some (goto_writer (WriterReport command (Ok tt) then_prefer) (s <| mx_wire ::= λ l, l ++ [wc_frame command] |>))
      | Err text =>
          let error := transport_error ("writer failure: " +:+ text) in
          let '(senders, s) := start_fail error s in Some (goto_writer (WriterFail command senders error) s)
      end
  | WriterFail command [] error => Some (goto_writer (WriterReport command (Err error) false) s)
  | WriterFail command (sender :: senders) error =>
      match send_response sender (Err error) s with
      | Some s => Some (goto_writer (WriterFail command senders error) s)
      | None => None
      end
  | WriterReport command result then_prefer =>
      let s := send_written (wc_written command) result s in
      match result with
      | Ok _ => Some (goto_writer WriterTop (s <| mx_prefer_management := then_prefer |>))
      | Err _ => Some (goto_writer WriterStopped s)
      end
  | WriterStopped => None
  end.

Definition goto_reader (pc : ReaderPc) (s : MuxState) : MuxState := s <| mx_reader := pc |>.

(** [outcome] is what [codec.read_frame] returns. *)
Definition reader_step (outcome : RuntimeResult (option Frame)) (s : MuxState) : option MuxState :=
  match mx_reader s with
  | ReaderWait =>
      match wait_until_ready_or_closed (mx_pending s) with
      | None => None
      | Some true => Some (goto_reader ReaderRead s)
      | Some false => Some (goto_reader ReaderStopped s)
      end
  | ReaderRead =>
      match outcome with
      | Ok (Some frame) =>
          let s := s <| mx_read ::= λ l, l ++ [frame] |> in
          match response_id frame with
          | Ok request_id =>
              if decide (request_id = 0%N) then Some (goto_reader (ReaderRaise (transport_error "zero response id")) s)
              else Some (goto_reader (ReaderTake request_id frame) s)
          | Err error => Some (goto_reader (ReaderRaise error) s)
          end
      | Ok None => Some (goto_reader (ReaderRaise (transport_error "unexpected EOF")) s)
      | Err error => Some (goto_reader (ReaderRaise error) s)
      end
  | ReaderTake request_id frame =>
      let '(sender, pending) := pending_take request_id (mx_pending s) in
      let s := s <| mx_pending := pending |> in
      match sender with
      | Some sender => Some (goto_reader (ReaderDeliver sender frame) s)
      | None => Some (goto_reader (ReaderRaise (transport_error "unknown, duplicate or late response id")) s)
      end
  | ReaderDeliver sender frame =>
      match send_response sender (Ok frame) s with
      | Some s => Some (goto_reader ReaderWait s)
      | None => None
      end
  | ReaderRaise error =>
      let '(senders, s) := start_fail error s in Some (goto_reader (ReaderFail senders error) s)
  | ReaderFail [] error => Some (goto_reader ReaderStopped s)
  | ReaderFail (sender :: senders) error =>
      match send_response sender (Err error) s with
      | Some s => Some (goto_reader (ReaderFail senders error) s)
      | None => None
      end
  | ReaderStopped => None
  end.

(** [next_request_id] with the frame its caller encodes for the id, or the text
    of the error of encoding it *)
Definition begin_call (management : bool) (frame : Result string Frame) (s : MuxState) : MuxState :=
  let add c s := s <| mx_callers ::= λ l, l ++ [c] |> in
  if decide (mx_next_request s < u64_max)%N then
    let request_id := (mx_next_request s + 1)%N in
    let s := s <| mx_next_request := request_id |> in
    match frame with
    | Ok frame => add (MkCaller CallLimits request_id management frame None None) s
    | Err text => add (MkCaller (CallDone (transport_failure text)) request_id management [] None None) s
    end
  else add (MkCaller (CallDone (transport_failure "request id space is exhausted")) 0 management [] None None) s.

(** [RequestMultiplexer::fail], by a caller of its own *)
Definition mux_fail (error : RuntimeError) (s : MuxState) : MuxState :=
  let '(senders, s) := start_fail error s in
  s <| mx_callers ::= λ l, l ++ [MkCaller (CallFail senders error) 0 false [] None None] |>.

Definition set_limits (limits : WireLimits) (s : MuxState) : RuntimeResult MuxState :=
  match limits_validate limits with
  | Err error => transport_failure (wire_error_to_string error)
  | Ok _ => Ok (s <| mx_limits := limits |> <| mx_limits_seen ::= λ l, l ++ [limits] |>)
  end.

Definition caller_done (c : Caller) : bool := match cl_pc c with CallDone _ => true | _ => false end.

(** Dropping the multiplexer: nobody uses it any more. *)
Inductive mux_step (s : MuxState) : MuxState → Prop :=
  | step_begin_call management frame : pn_closed (mx_pending s) = false → mux_step s (begin_call management frame s)
  | step_caller index waited s' : caller_step index waited s = Some s' → mux_step s s'
  | step_writer pick_management written s' : writer_step pick_management written s = Some s' → mux_step s s'
  | step_reader outcome s' : reader_step outcome s = Some s' → mux_step s s'
  | step_mux_fail error : pn_closed (mx_pending s) = false → mux_step s (mux_fail error s)
  | step_set_limits limits s' : set_limits limits s = Ok s' → mux_step s s'
  | step_close : forallb caller_done (mx_callers s) = true → mux_step s (s <| mx_pending ::= pending_close |>)
  | step_drop_work : pn_closed (mx_pending s) = true → mux_step s (s <| mx_work_sender := false |>)
  | step_drop_management : pn_closed (mx_pending s) = true → mx_work_sender s = false →
      mux_step s (s <| mx_management_sender := false |>).

Definition mux_reachable (s : MuxState) : Prop := ∃ limits, rtc mux_step (mux_new limits) s.
End Mux.

(** ** Where the sender of a caller is *)

Definition occurs (i : nat) (l : list nat) : N := total (λ j, if decide (j = i) then 1 else 0)%N l.

Lemma occurs_nil i : occurs i [] = 0%N.
Proof. done. Qed.
Lemma occurs_cons i j l : occurs i (j :: l) = ((if decide (j = i) then 1 else 0) + occurs i l)%N.
Proof. done. Qed.
Lemma occurs_app i l k : occurs i (l ++ k) = (occurs i l + occurs i k)%N.
Proof. apply total_app. Qed.

#[export] Instance occurs_perm i : Proper (Permutation ==> eq) (occurs i).
Proof.
  induction 1 as [|x l l' _ IH|x y l|l l' l'' _ IH1 _ IH2]; [done|by rewrite !occurs_cons, IH| |by rewrite IH1].
  rewrite !occurs_cons. lia.
Qed.

Lemma occurs_pos i l : i ∈ l → (0 < occurs i l)%N.
Proof. intros (l1 & l2 & ->)%list_elem_of_split. rewrite occurs_app, occurs_cons, decide_True by done. lia. Qed.

Lemma fmap_alter_same {A B} (f : A → B) (g : A → A) (l : list A) (k : nat) : (∀ x, f (g x) = f x) → f <$> alter g k l = f <$> l.
Proof.
  intros Hg. rewrite (list_fmap_alter f g id); [by apply list_alter_id|]. apply Forall_forall. intros x _. apply Hg.
Qed.

Lemma pending_values_perm requests : pending_values requests ≡ₚ (map_to_list requests).*2.
Proof. unfold pending_values, sort_by_key. by rewrite stable_sort_Permutation. Qed.

Lemma pending_values_insert requests id r :
  requests !! id = None → pending_values (<[ id := r ]> requests) ≡ₚ r :: pending_values requests.
Proof. intros Hn. by rewrite !pending_values_perm, map_to_list_insert. Qed.

Lemma pending_values_delete requests id r :
  requests !! id = Some r → pending_values requests ≡ₚ r :: pending_values (delete id requests).
Proof. intros Hr. by rewrite !pending_values_perm, <-(map_to_list_delete requests id r Hr). Qed.

Lemma elem_of_pending_values requests r : r ∈ pending_values requests ↔ ∃ id, requests !! id = Some r.
Proof.
  rewrite pending_values_perm, list_elem_of_fmap. split.
  - intros ([id r'] & -> & Hin%elem_of_map_to_list). by exists id.
  - intros [id Hid]. exists (id, r). split; [done|]. by apply elem_of_map_to_list.
Qed.

Lemma pending_values_length requests : len (pending_values requests) = N.of_nat (size requests).
Proof. unfold len. rewrite pending_values_perm, length_fmap, length_map_to_list. done. Qed.

Section Accounts.
Abbreviation Frame := (list byte).
Context {Response : Type}.
Variable response_id : Frame → RuntimeResult N.
Variable decode_response : N → Frame → RuntimeResult Response.
Implicit Types s : @MuxState Response.

Definition pcs s : list (@CallerPc Response) := cl_pc <$> mx_callers s.
Definition statics s : list (N * bool * Frame) := (λ c, (cl_request_id c, cl_management c, cl_frame c)) <$> mx_callers s.

(** How many senders of caller [i] are in the table, in the hands of a thread
    and used up *)
Definition in_table s i : N := occurs i (pr_sender <$> pending_values (pn_requests (mx_pending s))).
Definition with_reader (pc : ReaderPc) (i : nat) : N :=
  match pc with ReaderDeliver j _ => occurs i [j] | ReaderFail js _ => occurs i js | _ => 0 end.
Definition with_writer (pc : WriterPc) (i : nat) : N := match pc with WriterFail _ js _ => occurs i js | _ => 0 end.
Definition with_caller (i : nat) (pc : @CallerPc Response) : N := match pc with CallFail js _ => occurs i js | _ => 0 end.
Definition answered (callers : list Caller) (i : nat) : N :=
  match callers !! i with Some c => match cl_response (Response := Response) c with Some _ => 1 | None => 0 end | None => 0 end.

Definition held s i : N :=
  (in_table s i + with_reader (mx_reader s) i + with_writer (mx_writer s) i + total (with_caller i) (pcs s) +
   answered (mx_callers s) i)%N.

#[local] Arguments held : simpl never.
#[local] Arguments occurs : simpl never.

(** What a caller at this point may count on *)
Definition due (pc : option (@CallerPc Response)) (n : N) : Prop :=
  match pc with
  | None | Some CallLimits | Some (CallInsert _) => n = 0%N
  | Some CallEnqueue | Some CallAwaitWritten | Some CallAwaitResponse => n = 1%N
  | Some (CallDecode _) | Some (CallFail _ _) | Some (CallDone _) => (n ≤ 1)%N
  end.

Definition senders_ok s : Prop := ∀ i, due (pcs s !! i) (held s i).

(** *** The steps of the accounts *)

Lemma pcs_goto index pc s : pcs (goto_caller index pc s) = alter (λ _, pc) index (pcs s).
Proof. unfold pcs, goto_caller. cbn. apply list_fmap_alter. by apply Forall_forall. Qed.

Lemma statics_goto index pc s : statics (goto_caller index pc s) = statics s.
Proof. unfold statics, goto_caller. cbn. by apply fmap_alter_same. Qed.

Lemma answered_goto index pc callers i :
  answered (alter (λ c, c <| cl_pc := pc |>) index callers) i = answered callers i.
Proof.
  unfold answered. destruct (decide (i = index)) as [->|Hne]; [|by rewrite list_lookup_alter_ne by done].
  rewrite list_lookup_alter_eq. by destruct (callers !! index).
Qed.

Lemma held_goto index pc old s i :
  pcs s !! index = Some old →
  (held (goto_caller index pc s) i + with_caller i old = held s i + with_caller i pc)%N.
Proof.
  intros Hold. pose proof (total_alter (with_caller i) (λ _, pc) _ _ _ Hold) as Ht.
  unfold held. rewrite pcs_goto. unfold goto_caller, in_table. cbn. rewrite answered_goto. lia.
Qed.

Lemma held_reader pc s i : (held (goto_reader pc s) i + with_reader (mx_reader s) i = held s i + with_reader pc i)%N.
Proof. unfold held, goto_reader, in_table, pcs. cbn. lia. Qed.

Lemma held_writer pc s i : (held (goto_writer pc s) i + with_writer (mx_writer s) i = held s i + with_writer pc i)%N.
Proof. unfold held, goto_writer, in_table, pcs. cbn. lia. Qed.

(** A message that is sent changes one caller's channel only. *)
Lemma send_response_spec j r s s' :
  send_response j r s = Some s' →
  ∃ c, mx_callers s !! j = Some c ∧ cl_response c = None ∧
    s' = s <| mx_callers ::= alter (λ c, c <| cl_response := Some r |>) j |>.
Proof. unfold send_response. repeat case_match; try done. intros [= <-]. eauto. Qed.

Lemma pcs_response j r s : pcs (s <| mx_callers ::= alter (λ c, c <| cl_response := r |>) j |>) = pcs s.
Proof. unfold pcs. cbn. by apply fmap_alter_same. Qed.

Lemma held_send j r s s' i : send_response j r s = Some s' → held s' i = (held s i + occurs i [j])%N.
Proof.
  intros (c & Hc & Hn & ->)%send_response_spec. unfold held. rewrite pcs_response. unfold in_table. cbn.
  enough (answered (alter (λ c, c <| cl_response := Some r |>) j (mx_callers s)) i = (answered (mx_callers s) i + occurs i [j])%N) by lia.
  unfold answered. rewrite occurs_cons, occurs_nil. case_decide as Hji.
  - subst. rewrite list_lookup_alter_eq, Hc. cbn. by rewrite Hn.
  - rewrite list_lookup_alter_ne by done. lia.
Qed.

Lemma held_written j r s i : held (send_written j r s) i = held s i ∧ pcs (send_written j r s) = pcs s.
Proof.
  assert (pcs (send_written j r s) = pcs s) as Hp.
  { unfold pcs, send_written. cbn. by apply fmap_alter_same. }
  split; [|done]. unfold held. rewrite Hp. unfold send_written, in_table. cbn.
  enough (answered (alter (λ c, c <| cl_written := Some r |>) j (mx_callers s)) i = answered (mx_callers s) i) by lia.
  unfold answered. destruct (decide (i = j)) as [->|Hne]; [|by rewrite list_lookup_alter_ne by done].
  rewrite list_lookup_alter_eq. by destruct (mx_callers s !! j).
Qed.

Lemma start_fail_spec error s senders s' :
  start_fail error s = (senders, s') →
  senders = pr_sender <$> pending_values (pn_requests (mx_pending s)) ∧
  s' = s <| mx_pending := (pending_fail error (mx_pending s)).2 |>.
Proof. unfold start_fail. cbn. by intros [= <- <-]. Qed.

Lemma fail_threads error s senders s' :
  start_fail error s = (senders, s') → mx_writer s' = mx_writer s ∧ mx_reader s' = mx_reader s.
Proof. by intros [-> ->]%start_fail_spec. Qed.

Lemma send_threads j r s s' :
  send_response j r s = Some s' → pcs s' = pcs s ∧ mx_writer s' = mx_writer s ∧ mx_reader s' = mx_reader s.
Proof. intros (c & _ & _ & ->)%send_response_spec. split; [apply pcs_response|done]. Qed.

Lemma held_fail error s senders s' i :
  start_fail error s = (senders, s') → (held s' i + occurs i senders = held s i)%N ∧ pcs s' = pcs s.
Proof.
  intros [-> ->]%start_fail_spec. split; [|done]. unfold held, in_table, pcs. cbn. rewrite occurs_nil. lia.
Qed.

Lemma held_insert id management sender limits s pending i :
  pending_insert id management sender limits (mx_pending s) = Ok pending →
  held (s <| mx_pending := pending |>) i = (held s i + occurs i [sender])%N.
Proof.
  unfold pending_insert. repeat case_match; try done. intros [= <-]. unfold held, in_table, pcs. cbn.
  rewrite pending_values_insert by done. rewrite fmap_cons, !occurs_cons, occurs_nil. cbn [pr_sender]. lia.
Qed.

Lemma held_remove id s i :
  (held (s <| mx_pending ::= pending_remove id |>) i +
     match pn_requests (mx_pending s) !! id with Some r => occurs i [pr_sender r] | None => 0 end = held s i)%N.
Proof.
  unfold held, in_table, pcs. cbn. destruct (pn_requests (mx_pending s) !! id) as [r|] eqn:Hr.
  - rewrite (pending_values_delete _ _ _ Hr). rewrite fmap_cons, !occurs_cons, occurs_nil. lia.
  - rewrite delete_id by done. lia.
Qed.

Lemma senders_move s s' index old new :
  senders_ok s → pcs s !! index = Some old → pcs s' = alter (λ _, new) index (pcs s) →
  (∀ i, i ≠ index → held s' i = held s i) →
  (due (Some old) (held s index) → due (Some new) (held s' index)) → senders_ok s'.
Proof.
  intros Hok Hold Hpcs Hne Hdue i. rewrite Hpcs. destruct (decide (i = index)) as [->|Hi].
  - rewrite list_lookup_alter_eq, Hold. apply Hdue. rewrite <- Hold. apply Hok.
  - rewrite list_lookup_alter_ne, Hne by done. apply Hok.
Qed.

Lemma senders_keep s s' : senders_ok s → pcs s' = pcs s → (∀ i, held s' i = held s i) → senders_ok s'.
Proof. intros Hok Hp Hh i. rewrite Hp, Hh. apply Hok. Qed.

Lemma senders_goto s0 s index old new :
  senders_ok s0 → pcs s0 !! index = Some old → pcs s = pcs s0 →
  (∀ i, i ≠ index → (held s i + with_caller i new = held s0 i + with_caller i old)%N) →
  (∀ n, due (Some old) (held s0 index) → (n + with_caller index old = held s index + with_caller index new)%N → due (Some new) n) →
  senders_ok (goto_caller index new s).
Proof.
  intros Hok Hold Hp Hne Hdue. rewrite <- Hp in Hold. apply (senders_move s0 _ index old new).
  - done.
  - by rewrite <- Hp.
  - by rewrite pcs_goto, Hp.
  - intros i Hi. pose proof (held_goto index new old s i Hold). specialize (Hne i Hi). lia.
  - intros H. apply (Hdue _ H). by apply held_goto.
Qed.

(** The table and the callers agree on the ids, which are never used twice;
    after a failure the table is empty. *)
Record table_ok s : Prop := MkTableOk {
  to_entries : ∀ id r, pn_requests (mx_pending s) !! id = Some r →
    id ≠ 0%N ∧ ∃ frame, statics s !! pr_sender r = Some (id, pr_management r, frame);
  to_ids : ∀ i j id m f m' f', statics s !! i = Some (id, m, f) → statics s !! j = Some (id, m', f') → id ≠ 0%N → i = j;
  to_next : ∀ i id m f, statics s !! i = Some (id, m, f) → (id ≤ mx_next_request s)%N;
  to_zero : ∀ i m f, statics s !! i = Some (0%N, m, f) →
    match pcs s !! i with Some (CallFail _ _) | Some (CallDone _) => True | _ => False end;
  to_failed : pn_failure (mx_pending s) ≠ None → pn_requests (mx_pending s) = ∅
}.

Lemma lookup_pcs s i c : mx_callers s !! i = Some c → pcs s !! i = Some (cl_pc c).
Proof. intros Hc. unfold pcs. by rewrite list_lookup_fmap, Hc. Qed.
Lemma lookup_statics s i c :
  mx_callers s !! i = Some c → statics s !! i = Some (cl_request_id c, cl_management c, cl_frame c).
Proof. intros Hc. unfold statics. by rewrite list_lookup_fmap, Hc. Qed.

(** The entry of a caller's id is the caller's own. *)
Lemma own_entry s i c r :
  table_ok s → mx_callers s !! i = Some c → pn_requests (mx_pending s) !! cl_request_id c = Some r → pr_sender r = i.
Proof.
  intros [Hen Hids _ _ _] Hc Hr. destruct (Hen _ _ Hr) as (Hz & f & Hf). by eapply (Hids _ i); [exact Hf|by apply lookup_statics|].
Qed.

Ltac accounts := cbn [with_caller due] in *; rewrite ?occurs_cons, ?occurs_nil in *; lia.

Lemma fails_senders index error s old :
  senders_ok s → pcs s !! index = Some old → (∀ i, with_caller i old = 0%N) →
  (due (Some old) (held s index) → (held s index ≤ 1)%N) → senders_ok (caller_fails index error s).
Proof.
  intros Hok Hold Hz Hdue. unfold caller_fails. destruct (start_fail error s) as [js s1] eqn:Hf.
  apply (senders_goto s s1 index old); [done|done|by apply (held_fail _ _ _ _ 0 Hf)| |].
  - intros i _. pose proof (held_fail _ _ _ _ i Hf) as [H _]. rewrite Hz. accounts.
  - intros n H1 H2. pose proof (held_fail _ _ _ _ index Hf) as [H _]. specialize (Hdue H1). rewrite Hz in H2. accounts.
Qed.

Lemma enqueue_spec index c s s' :
  enqueue_write index c s = Some s' → ∃ work management, s' = s <| mx_work := work |> <| mx_management := management |>.
Proof.
  unfold enqueue_write. repeat case_match; try done; intros [= <-].
  - by exists (mx_work s), (mx_management s ++ [MkWriteCommand (cl_frame c) index]); destruct s.
  - by exists (mx_work s ++ [MkWriteCommand (cl_frame c) index]), (mx_management s); destruct s.
Qed.

Lemma caller_senders index waited s s' :
  table_ok s → senders_ok s → caller_step decode_response index waited s = Some s' → senders_ok s'.
Proof.
  intros Htab Hok. unfold caller_step. destruct (mx_callers s !! index) as [c|] eqn:Hc; [|done].
  pose proof (lookup_pcs _ _ _ Hc) as Hpc. pose proof (Hok index) as Hi. rewrite Hpc in Hi.
  assert (∀ new, (∀ i, with_caller i new = 0%N) → (∀ i, with_caller i (cl_pc c) = 0%N) →
    (due (Some (cl_pc c)) (held s index) → due (Some new) (held s index)) → senders_ok (goto_caller index new s)) as Hgoto.
  { intros new H1 H2 H3. apply (senders_goto s s index (cl_pc c)); [done..| |].
    - intros i _. by rewrite H1, H2.
    - intros n H4 H5. rewrite H1, H2 in H5. replace n with (held s index) by lia. auto. }
  destruct (cl_pc c) as [|limits| | | |frame|[|j js] e|res] eqn:Epc; destruct waited as [|reason]; try done.
  - intros [= <-]. by apply Hgoto.
  - destruct (pending_insert _ _ _ _ _) as [pending|e] eqn:Hins; intros [= <-]; [|apply Hgoto; [done..|cbn; lia]].
    apply (senders_goto s _ index (CallInsert limits)); [done..| |].
    + intros i Hne. rewrite (held_insert _ _ _ _ _ _ i Hins), occurs_cons, decide_False by done. accounts.
    + intros n H1 H2. rewrite (held_insert _ _ _ _ _ _ index Hins), occurs_cons, decide_True in H2 by done. accounts.
  - destruct (enqueue_write index c s) as [s1|] eqn:Hq; [|done]. intros [= <-].
    apply enqueue_spec in Hq as (work & management & ->).
    apply (senders_goto s _ index CallEnqueue); [done..| |]; unfold held, in_table, pcs; cbn; intros; lia.
  - destruct (enqueue_write index c s) as [s1|]; [done|]. intros [= <-].
    pose proof (λ i, held_remove (cl_request_id c) s i) as Hrem.
    assert (∀ i, i ≠ index → match pn_requests (mx_pending s) !! cl_request_id c with
      Some r => occurs i [pr_sender r] | None => 0%N end = 0%N) as Hown.
    { intros i Hne. destruct (_ !! cl_request_id c) as [r|] eqn:Hr; [|done].
      rewrite (own_entry _ _ _ _ Htab Hc Hr), occurs_cons, decide_False by done. done. }
    apply (senders_goto s _ index CallEnqueue); [done..| |].
    + intros i Hne. specialize (Hrem i). specialize (Hown i Hne). cbn [with_caller]. lia.
    + intros n H1 H2. specialize (Hrem index). cbn [due with_caller] in *. lia.
  - repeat case_match; try done; intros [= <-]; apply Hgoto; try done; cbn; lia.
  - case_match; [done|]. intros [= <-]. eapply fails_senders; [done|exact Hpc|done|cbn; lia].
  - repeat case_match; try done; intros [= <-]; apply Hgoto; try done; cbn; lia.
  - case_match; [done|]. intros [= <-]. eapply fails_senders; [done|exact Hpc|done|cbn; lia].
  - destruct (decode_response _ _); intros [= <-]; [by apply Hgoto|]. by eapply fails_senders.
  - intros [= <-]. by apply Hgoto.
  - destruct (send_response j (Err e) s) as [s1|] eqn:Hs; [|done]. intros [= <-].
    pose proof (λ i, held_send _ _ _ _ i Hs) as Hsend. apply send_response_spec in Hs as (cj & _ & _ & ->).
    apply (senders_goto s _ index (CallFail (j :: js) e)); [done|done|apply pcs_response| |].
    + intros i _. rewrite Hsend. accounts.
    + intros n H1 H2. rewrite Hsend in H2. accounts.
Qed.

(** A step of the writer or the reader moves senders without creating or
    dropping one. *)
Definition moves_none s s' : Prop := pcs s' = pcs s ∧ ∀ i, held s' i = held s i.

Lemma writer_moves pick written s s' : writer_step pick written s = Some s' → moves_none s s'.
Proof.
  assert (∀ s0 pc, pcs s0 = pcs s → mx_writer s0 = mx_writer s → (∀ i, held s0 i = held s i) →
    (∀ i, with_writer (mx_writer s) i = 0%N) → (∀ i, with_writer pc i = 0%N) → moves_none s (goto_writer pc s0)) as Hgoto.
  { intros s0 pc Hp Hw Hh H1 H2. split; [done|]. intros i. pose proof (held_writer pc s0 i) as H.
    rewrite Hw, H1, H2, Hh in H. lia. }
  unfold writer_step, recv_management, recv_work, try_management, try_work.
  destruct (mx_writer s) as [| | | |cmd p|cmd [|j js] e|cmd r p|] eqn:Ew; try done.
  1-4: repeat case_match; try done; simplify_eq; intros [= <-]; by apply Hgoto.
  - destruct written as [[]|text]; [intros [= <-]; by apply Hgoto|].
    destruct (start_fail _ s) as [js s1] eqn:Hf. intros [= <-].
    split; [by apply (held_fail _ _ _ _ 0 Hf)|]. intros i. pose proof (held_fail _ _ _ _ i Hf) as [H _].
    match goal with |- held (goto_writer ?pc ?t) i = _ => pose proof (held_writer pc t i) as H2 end.
    rewrite (proj1 (fail_threads _ _ _ _ Hf)), Ew in H2. cbn [with_writer] in H2. lia.
  - intros [= <-]. by apply Hgoto.
  - destruct (send_response _ _ s) as [s1|] eqn:Hs; [|done]. intros [= <-].
    destruct (send_threads _ _ _ _ Hs) as (Hp & Hw & Hr). split; [done|]. intros i.
    pose proof (held_send _ _ _ _ i Hs) as H. pose proof (held_writer (WriterFail cmd js e) s1 i) as H2.
    rewrite Hw, Ew in H2. cbn [with_writer] in H2. rewrite ?occurs_cons, ?occurs_nil in *. lia.
  - destruct r as [[]|e]; intros [= <-]; apply Hgoto; try done; try apply (held_written _ _ _ 0); intros i; by apply held_written.
Qed.

Lemma reader_moves outcome s s' : reader_step response_id outcome s = Some s' → moves_none s s'.
Proof.
  assert (∀ s0 pc, pcs s0 = pcs s → mx_reader s0 = mx_reader s → (∀ i, held s0 i = held s i) →
    (∀ i, with_reader (mx_reader s) i = 0%N) → (∀ i, with_reader pc i = 0%N) → moves_none s (goto_reader pc s0)) as Hgoto.
  { intros s0 pc Hp Hw Hh H1 H2. split; [done|]. intros i. pose proof (held_reader pc s0 i) as H.
    rewrite Hw, H1, H2, Hh in H. lia. }
  unfold reader_step. destruct (mx_reader s) as [| |id frame|j frame|e|[|j js] e|] eqn:Er; try done.
  - repeat case_match; try done; intros [= <-]; by apply Hgoto.
  - repeat case_match; try done; intros [= <-]; by apply Hgoto.
  - cbn. pose proof (λ i, held_remove id s i) as Hrem. destruct (pn_requests (mx_pending s) !! id) as [r|] eqn:Hr; cbn; intros [= <-].
    + split; [done|]. intros i. specialize (Hrem i).
      match goal with |- held (goto_reader ?pc ?t) i = _ => pose proof (held_reader pc t i) as H2 end.
      cbn in H2. rewrite Er in H2. change (held (s <| mx_pending := pending_remove id (mx_pending s) |>) i)
        with (held (s <| mx_pending ::= pending_remove id |>) i) in H2. cbn [with_reader] in H2. lia.
    + apply Hgoto; try done. intros i. specialize (Hrem i). change (held (s <| mx_pending := pending_remove id (mx_pending s) |>) i)
        with (held (s <| mx_pending ::= pending_remove id |>) i). lia.
  - destruct (send_response _ _ s) as [s1|] eqn:Hs; [|done]. intros [= <-].
    destruct (send_threads _ _ _ _ Hs) as (Hp & Hw & Hr). split; [done|]. intros i.
    pose proof (held_send _ _ _ _ i Hs) as H. pose proof (held_reader ReaderWait s1 i) as H2.
    rewrite Hr, Er in H2. cbn [with_reader] in H2. rewrite ?occurs_cons, ?occurs_nil in *. lia.
  - destruct (start_fail _ s) as [js s1] eqn:Hf. intros [= <-].
    split; [by apply (held_fail _ _ _ _ 0 Hf)|]. intros i. pose proof (held_fail _ _ _ _ i Hf) as [H _].
    match goal with |- held (goto_reader ?pc ?t) i = _ => pose proof (held_reader pc t i) as H2 end.
    rewrite (proj2 (fail_threads _ _ _ _ Hf)), Er in H2. cbn [with_reader] in H2. lia.
  - intros [= <-]. by apply Hgoto.
  - destruct (send_response _ _ s) as [s1|] eqn:Hs; [|done]. intros [= <-].
    destruct (send_threads _ _ _ _ Hs) as (Hp & Hw & Hr). split; [done|]. intros i.
    pose proof (held_send _ _ _ _ i Hs) as H. pose proof (held_reader (ReaderFail js e) s1 i) as H2.
    rewrite Hr, Er in H2. cbn [with_reader] in H2. rewrite ?occurs_cons, ?occurs_nil in *. lia.
Qed.

Lemma answered_append callers c i : cl_response c = None → answered (callers ++ [c]) i = answered callers i.
Proof.
  intros Hc. unfold answered. destruct (decide (i < length callers)) as [Hi|Hi].
  - by rewrite lookup_app_l.
  - rewrite lookup_app_r, (lookup_ge_None_2 callers) by lia. destruct (i - length callers) as [|k]; cbn; [by rewrite Hc|done].
Qed.

Lemma held_append c s i :
  cl_response c = None → held (s <| mx_callers ::= λ l, l ++ [c] |>) i = (held s i + with_caller i (cl_pc c))%N.
Proof.
  intros Hc. unfold held, in_table, pcs. cbn. rewrite answered_append, fmap_app, total_app by done. cbn.
  rewrite total_cons, total_nil. lia.
Qed.

Lemma senders_append s0 s c :
  senders_ok s0 → pcs s = pcs s0 → cl_response c = None →
  (∀ i, (held s i + with_caller i (cl_pc c) = held s0 i)%N) → due (Some (cl_pc c)) 0 →
  senders_ok (s <| mx_callers ::= λ l, l ++ [c] |>).
Proof.
  intros Hok Hp Hc Hh Hdue i. rewrite held_append, Hh by done. specialize (Hok i).
  change (pcs (s <| mx_callers ::= λ l, l ++ [c] |>)) with (cl_pc <$> (mx_callers s ++ [c])). rewrite fmap_app.
  change (cl_pc <$> mx_callers s) with (pcs s). rewrite Hp. destruct (decide (i < length (pcs s0))) as [Hi|Hi].
  - by rewrite lookup_app_l.
  - rewrite (lookup_ge_None_2 (pcs s0)) in Hok by lia. cbn [due] in Hok. rewrite Hok.
    rewrite lookup_app_r by lia. by destruct (i - length (pcs s0)) as [|[]].
Qed.

Lemma begin_senders management frame s : senders_ok s → senders_ok (begin_call management frame s).
Proof.
  intros Hok. unfold begin_call. repeat case_match; (apply (senders_append s); [done|done|done| |done]);
    intros i; cbn [with_caller cl_pc]; unfold held, in_table, pcs; cbn; lia.
Qed.

Lemma mux_fail_senders error s : senders_ok s → senders_ok (mux_fail error s).
Proof.
  intros Hok. unfold mux_fail. destruct (start_fail error s) as [js s1] eqn:Hf.
  apply (senders_append s); [done|by apply (held_fail _ _ _ _ 0 Hf)|done| |done].
  intros i. by apply (held_fail _ _ _ _ i Hf).
Qed.

Lemma senders_step s s' : table_ok s → senders_ok s → mux_step response_id decode_response s s' → senders_ok s'.
Proof.
  intros Htab Hok [m f _|i w t H|p w t H|o t H|e _|l t H|_|_|_ _].
  - by apply begin_senders.
  - by eapply caller_senders.
  - apply writer_moves in H as [H1 H2]. by eapply senders_keep.
  - apply reader_moves in H as [H1 H2]. by eapply senders_keep.
  - by apply mux_fail_senders.
  - unfold set_limits in H. case_match; [|done]. by injection H as <-.
  - done.
  - done.
  - done.
Qed.

(** *** The table *)

Lemma statics_send j r s s' : send_response j r s = Some s' → statics s' = statics s.
Proof. intros (c & _ & _ & ->)%send_response_spec. unfold statics. cbn. by apply fmap_alter_same. Qed.

Lemma statics_written j r s : statics (send_written j r s) = statics s.
Proof. unfold statics, send_written. cbn. by apply fmap_alter_same. Qed.

(** What a step of a thread leaves alone *)
Record framed s s' : Prop := MkFramed {
  fr_statics : statics s' = statics s;
  fr_next : mx_next_request s' = mx_next_request s;
  fr_limits : mx_limits s' = mx_limits s;
  fr_seen : mx_limits_seen s' = mx_limits_seen s
}.

Lemma framed_send j r s s' : send_response j r s = Some s' → framed s s'.
Proof. intros H. split; [by eapply statics_send|..]; by apply send_response_spec in H as (? & _ & _ & ->). Qed.
Lemma framed_fail e s js s' : start_fail e s = (js, s') → framed s s'.
Proof. by intros [-> ->]%start_fail_spec. Qed.
Lemma framed_goto index pc s s1 : framed s s1 → framed s (goto_caller index pc s1).
Proof. intros []. split; [by rewrite statics_goto|done..]. Qed.

Lemma caller_framed index waited s s' : caller_step decode_response index waited s = Some s' → framed s s'.
Proof.
  unfold caller_step, caller_fails. intros H.
  repeat case_match; simplify_eq; try (apply framed_goto); try done.
  all: try by eapply framed_fail.
  all: try by eapply framed_send.
  all: match goal with H : enqueue_write _ _ _ = Some _ |- _ => by apply enqueue_spec in H as (? & ? & ->) end.
Qed.

Lemma writer_framed pick written s s' : writer_step pick written s = Some s' → framed s s'.
Proof.
  unfold writer_step, recv_management, recv_work, try_management, try_work. intros H.
  repeat case_match; simplify_eq; try done.
  all: try match goal with H : start_fail _ _ = _ |- _ => apply framed_fail in H as []; by split end.
  all: try match goal with H : send_response _ _ _ = _ |- _ => apply framed_send in H as []; by split end.
  all: split; try done; apply statics_written.
Qed.

Lemma reader_framed outcome s s' : reader_step response_id outcome s = Some s' → framed s s'.
Proof.
  unfold reader_step. intros H. repeat case_match; simplify_eq; try done.
  all: try match goal with H : start_fail _ _ = _ |- _ => apply framed_fail in H as []; by split end.
  all: try match goal with H : send_response _ _ _ = _ |- _ => apply framed_send in H as []; by split end.
Qed.

(** The table only shrinks, and a new failure empties it. *)
Definition shrinks (p p' : PendingState) : Prop :=
  pn_requests p' ⊆ pn_requests p ∧ (pn_failure p' ≠ None → pn_failure p ≠ None ∨ pn_requests p' = ∅).

Lemma shrinks_refl p : shrinks p p.
Proof. split; [done|]. by left. Qed.
Lemma shrinks_fail e s js s' : start_fail e s = (js, s') → shrinks (mx_pending s) (mx_pending s').
Proof. intros [-> ->]%start_fail_spec. split; cbn; [apply map_empty_subseteq|by right]. Qed.
Lemma shrinks_remove id p : shrinks p (pending_remove id p).
Proof. split; cbn; [apply delete_subseteq|by left]. Qed.
Lemma pending_send j r s s' : send_response j r s = Some s' → mx_pending s' = mx_pending s.
Proof. by intros (? & _ & _ & ->)%send_response_spec. Qed.

Definition inserts index s s' : Prop := ∃ c limits,
  mx_callers s !! index = Some c ∧ cl_pc c = CallInsert limits ∧
  pending_insert (cl_request_id c) (cl_management c) index limits (mx_pending s) = Ok (mx_pending s').

Lemma caller_pending index waited s s' :
  caller_step decode_response index waited s = Some s' → shrinks (mx_pending s) (mx_pending s') ∨ inserts index s s'.
Proof.
  unfold caller_step, caller_fails. intros H. destruct (mx_callers s !! index) as [c|] eqn:Hc; [|done].
  repeat case_match; simplify_eq; try (left; apply shrinks_refl).
  all: try match goal with H : start_fail _ _ = _ |- _ => left; exact (shrinks_fail _ _ _ _ H) end.
  - right. exists c. eauto.
  - match goal with H : enqueue_write _ _ _ = Some _ |- _ => apply enqueue_spec in H as (? & ? & ->) end. left. apply shrinks_refl.
  - left. apply shrinks_remove.
  - match goal with H : send_response _ _ _ = Some _ |- _ => apply pending_send in H end. left.
    unfold goto_caller. cbn. match goal with H : mx_pending _ = _ |- _ => rewrite H end. apply shrinks_refl.
Qed.

Lemma writer_pending pick written s s' : writer_step pick written s = Some s' → shrinks (mx_pending s) (mx_pending s').
Proof.
  unfold writer_step, recv_management, recv_work, try_management, try_work. intros H.
  repeat case_match; simplify_eq; try apply shrinks_refl.
  - match goal with H : start_fail _ _ = _ |- _ => exact (shrinks_fail _ _ _ _ H) end.
  - cbn. match goal with H : send_response _ _ _ = Some _ |- _ => rewrite (pending_send _ _ _ _ H) end. apply shrinks_refl.
Qed.

Lemma reader_pending outcome s s' : reader_step response_id outcome s = Some s' → shrinks (mx_pending s) (mx_pending s').
Proof.
  unfold reader_step, pending_take. intros H. repeat case_match; simplify_eq; try apply shrinks_refl; try apply shrinks_remove.
  - cbn. match goal with H : send_response _ _ _ = Some _ |- _ => rewrite (pending_send _ _ _ _ H) end. apply shrinks_refl.
  - match goal with H : start_fail _ _ = _ |- _ => exact (shrinks_fail _ _ _ _ H) end.
  - cbn. match goal with H : send_response _ _ _ = Some _ |- _ => rewrite (pending_send _ _ _ _ H) end. apply shrinks_refl.
Qed.

Definition ended (pc : @CallerPc Response) : bool := match pc with CallFail _ _ | CallDone _ => true | _ => false end.

Lemma caller_pcs index waited s s' :
  caller_step decode_response index waited s = Some s' →
  ∃ old new, pcs s !! index = Some old ∧ pcs s' = alter (λ _, new) index (pcs s) ∧ (ended old = true → ended new = true).
Proof.
  unfold caller_step, caller_fails. intros H. destruct (mx_callers s !! index) as [c|] eqn:Hc; [|done].
  exists (cl_pc c). rewrite (lookup_pcs _ _ _ Hc).
  destruct (cl_pc c) eqn:Epc; repeat case_match; simplify_eq; rewrite pcs_goto;
    (match goal with |- context [alter _ _ (pcs ?m)] => assert (pcs m = pcs s) as Hm end;
      [|refine (ex_intro _ _ (conj eq_refl (conj (f_equal (alter _ _) Hm) _))); done]).
  all: try done.
  all: try by match goal with H : start_fail _ _ = (_, _) |- _ => apply (held_fail _ _ _ _ 0 H) end.
  all: try match goal with H : send_response _ _ _ = Some _ |- _ => apply send_threads in H as [-> _]; done end.
  all: match goal with H : enqueue_write _ _ _ = Some _ |- _ => by apply enqueue_spec in H as (? & ? & ->) end.
Qed.

Lemma table_framed s s' :
  table_ok s → framed s s' → shrinks (mx_pending s) (mx_pending s') →
  (∀ i old, pcs s !! i = Some old → ended old = true → ∃ new, pcs s' !! i = Some new ∧ ended new = true) → table_ok s'.
Proof.
  intros [Hen Hids Hnext Hz Hfl] [Hst Hn _ _] [Hsub Hf] Hpcs. split; rewrite ?Hst, ?Hn; try done.
  - intros id r Hr. apply Hen. by eapply lookup_weaken.
  - intros i m f Hi. specialize (Hz _ _ _ Hi). destruct (pcs s !! i) as [old|] eqn:Hold; [|done].
    destruct (Hpcs i old Hold) as (new & -> & Hnew); [by destruct old|by destruct new].
  - intros H. destruct (Hf H) as [H1|H1]; [|done]. rewrite (Hfl H1) in Hsub. apply (anti_symm (⊆)); [done|apply map_empty_subseteq].
Qed.

Lemma pcs_kept s s' : pcs s' = pcs s →
  ∀ i old, pcs s !! i = Some old → ended old = true → ∃ new, pcs s' !! i = Some new ∧ ended new = true.
Proof. intros -> i old Hi He. eauto. Qed.

Lemma caller_ended index waited s s' : caller_step decode_response index waited s = Some s' →
  ∀ i old, pcs s !! i = Some old → ended old = true → ∃ new, pcs s' !! i = Some new ∧ ended new = true.
Proof.
  intros (o & n & Ho & -> & Hn)%caller_pcs i old Hi He. destruct (decide (i = index)) as [->|Hne].
  - rewrite list_lookup_alter_eq, Ho. simplify_eq. eexists. split; [done|auto].
  - rewrite list_lookup_alter_ne by done. eauto.
Qed.

(** A caller at the table finds no entry of its id. *)
Lemma no_duplicate s i c limits :
  table_ok s → senders_ok s → mx_callers s !! i = Some c → cl_pc c = CallInsert limits →
  cl_request_id c ≠ 0%N ∧ pn_requests (mx_pending s) !! cl_request_id c = None.
Proof.
  intros Htab Hok Hc Hpc. split.
  - intros Hz. pose proof (lookup_statics _ _ _ Hc) as Hst. rewrite Hz in Hst. apply (to_zero _ Htab) in Hst.
    by rewrite (lookup_pcs _ _ _ Hc), Hpc in Hst.
  - destruct (pn_requests (mx_pending s) !! cl_request_id c) as [r|] eqn:Hr; [|done]. exfalso.
    pose proof (own_entry _ _ _ _ Htab Hc Hr) as Hown. specialize (Hok i). rewrite (lookup_pcs _ _ _ Hc), Hpc in Hok.
    assert (0 < in_table s i)%N as Hpos.
    { apply occurs_pos. rewrite <- Hown. apply list_elem_of_fmap. exists r. split; [done|]. apply elem_of_pending_values. eauto. }
    cbn [due] in Hok. unfold held in Hok. lia.
Qed.

Lemma insert_spec id m sender limits p p' :
  pending_insert id m sender limits p = Ok p' →
  p' = MkPendingState (<[ id := MkPendingRequest m sender ]> (pn_requests p)) (pn_failure p) (pn_closed p) ∧
  pn_failure p = None ∧ pn_closed p = false ∧ pn_requests p !! id = None ∧
  (N.of_nat (size (pn_requests p)) < lim_max_in_flight_requests limits)%N ∧
  (m = false → work_in_flight (pn_requests p) < work_capacity limits)%N.
Proof.
  unfold pending_insert. destruct (pn_failure p) eqn:Ef; [done|]. destruct (pn_closed p) eqn:Ec; [done|].
  case_decide as Hmax; [done|]. destruct (negb m && _) eqn:Ew; [done|]. destruct (_ !! id) eqn:Hid; [done|]. intros [= <-].
  split_and!; try done; [lia|]. intros ->. cbn in Ew. apply bool_decide_eq_false in Ew. lia.
Qed.

Lemma caller_table index waited s s' :
  table_ok s → senders_ok s → caller_step decode_response index waited s = Some s' → table_ok s'.
Proof.
  intros Htab Hok Hstep. pose proof (caller_framed _ _ _ _ Hstep) as Hfr. pose proof (caller_ended _ _ _ _ Hstep) as Hend.
  destruct (caller_pending _ _ _ _ Hstep) as [Hsh|(c & limits & Hc & Hpc & Hins)]; [by eapply table_framed|].
  destruct (no_duplicate _ _ _ _ Htab Hok Hc Hpc) as [Hz Hnone].
  apply insert_spec in Hins as (Hp & Hnf & _ & _ & _ & _).
  destruct Htab as [Hen Hids Hnext Hzero Hfl], Hfr as [Hst Hn _ _]. split; rewrite ?Hst, ?Hn; try done.
  - rewrite Hp. cbn. intros id r [[<- <-]|[_ Hr]]%lookup_insert_Some; [|by apply Hen].
    split; [done|]. exists (cl_frame c). by apply lookup_statics.
  - intros i m f Hi. specialize (Hzero _ _ _ Hi). destruct (pcs s !! i) as [old|] eqn:Hold; [|done].
    destruct (Hend i old Hold) as (new & -> & Hnew); [by destruct old|by destruct new].
  - rewrite Hp. cbn. by rewrite Hnf.
Qed.

Lemma append_statics c s : statics (s <| mx_callers ::= λ l, l ++ [c] |>) = statics s ++ [(cl_request_id c, cl_management c, cl_frame c)].
Proof. unfold statics. cbn. by rewrite fmap_app. Qed.

(** A caller that is added has a new id, or none and nothing to do. *)
Lemma table_append s s1 c :
  table_ok s → framed s s1 → shrinks (mx_pending s) (mx_pending s1) → pcs s1 = pcs s →
  (mx_next_request s < cl_request_id c)%N ∨ (cl_request_id c = 0%N ∧ ended (cl_pc c) = true) →
  table_ok (s1 <| mx_next_request := N.max (cl_request_id c) (mx_next_request s) |> <| mx_callers ::= λ l, l ++ [c] |>).
Proof.
  intros Htab Hfr Hsh Hp Hc. pose proof (table_framed s s1 Htab Hfr Hsh (pcs_kept _ _ Hp)) as [Hen Hids Hnext Hz Hfl].
  assert (∀ i e, statics (s1 <| mx_next_request := N.max (cl_request_id c) (mx_next_request s) |> <| mx_callers ::= λ l, l ++ [c] |>) !! i = Some e →
    statics s1 !! i = Some e ∨ i = length (statics s1) ∧ e = (cl_request_id c, cl_management c, cl_frame c)) as Hcase.
  { intros i e. rewrite append_statics. intros [H|[H1 H2]]%lookup_app_Some; [by left|right].
    destruct (i - _) eqn:Ei in H2; [|done]. injection H2 as <-. unfold statics in *. cbn in *. split; [lia|done]. }
  assert (∀ i id m f, statics s1 !! i = Some (id, m, f) → id = cl_request_id c → id = 0%N) as Hfresh.
  { intros i id m f Hi ->. specialize (Hnext _ _ _ _ Hi). rewrite (fr_next _ _ Hfr) in Hnext. destruct Hc as [?|[? _]]; [lia|done]. }
  split.
  - intros id r Hr. destruct (Hen id r Hr) as (Hid & f & Hf). split; [done|]. exists f. rewrite append_statics. by apply lookup_app_l_Some.
  - intros i j id m f m' f' [Hi|[-> Hi]]%Hcase [Hj|[-> Hj]]%Hcase Hid; simplify_eq; [by eapply Hids| | |done].
    + exfalso. by apply Hid, (Hfresh _ _ _ _ Hi).
    + exfalso. by apply Hid, (Hfresh _ _ _ _ Hj).
  - cbn. intros i id m f [Hi|[-> [= -> -> ->]]]%Hcase; [|lia]. specialize (Hnext _ _ _ _ Hi). rewrite (fr_next _ _ Hfr) in Hnext. lia.
  - intros i m f Hi%Hcase. change (pcs (s1 <| mx_next_request := N.max (cl_request_id c) (mx_next_request s) |> <| mx_callers ::= λ l, l ++ [c] |>))
      with (cl_pc <$> (mx_callers s1 ++ [c])). rewrite fmap_app. change (cl_pc <$> mx_callers s1) with (pcs s1).
    assert (length (statics s1) = length (pcs s1)) as Hlen by (unfold statics, pcs; by rewrite !length_fmap).
    destruct Hi as [Hi|[-> [= Hid _ _]]].
    + rewrite lookup_app_l; [by eapply Hz|]. rewrite <- Hlen. by eapply lookup_lt_Some.
    + rewrite lookup_app_r, Hlen, Nat.sub_diag by lia. cbn. destruct Hc as [?|[_ He]]; [lia|]. by destruct (cl_pc c).
  - done.
Qed.

Lemma begin_table management frame s : table_ok s → table_ok (begin_call management frame s).
Proof.
  intros Htab. unfold begin_call.
  assert (∀ c, (mx_next_request s < cl_request_id c)%N →
    table_ok (s <| mx_next_request := cl_request_id c |> <| mx_callers ::= λ l, l ++ [c] |>)) as Hadd.
  { intros c Hc. pose proof (table_append s s c Htab ltac:(done) (shrinks_refl _) eq_refl (or_introl Hc)) as H.
    by rewrite N.max_l in H by lia. }
  case_decide as Hroom; [case_match|].
  - apply (Hadd (MkCaller CallLimits (mx_next_request s + 1) management _ None None)). cbn. lia.
  - apply (Hadd (MkCaller (CallDone (transport_failure e)) (mx_next_request s + 1) management [] None None)). cbn. lia.
  - pose proof (table_append s s (MkCaller (CallDone (transport_failure "request id space is exhausted")) 0 management [] None None)
      Htab ltac:(done) (shrinks_refl _) eq_refl (or_intror (conj eq_refl eq_refl))) as H.
    cbn [cl_request_id] in H. by rewrite N.max_r in H by lia; destruct s.
Qed.

Lemma mux_fail_table error s : table_ok s → table_ok (mux_fail error s).
Proof.
  intros Htab. unfold mux_fail. destruct (start_fail error s) as [js s1] eqn:Hf.
  pose proof (table_append s s1 (MkCaller (CallFail js error) 0 false [] None None) Htab (framed_fail _ _ _ _ Hf)
    (shrinks_fail _ _ _ _ Hf) (proj2 (held_fail _ _ _ _ 0 Hf)) (or_intror (conj eq_refl eq_refl))) as H.
  cbn [cl_request_id] in H. rewrite N.max_r, <- (fr_next _ _ (framed_fail _ _ _ _ Hf)) in H by lia. by destruct s1.
Qed.

Lemma table_step s s' : table_ok s → senders_ok s → mux_step response_id decode_response s s' → table_ok s'.
Proof.
  intros Htab Hok [m f _|i w t H|p w t H|o t H|e _|l t H|_|_|_ _].
  - by apply begin_table.
  - by eapply caller_table.
  - eapply table_framed; [done|by eapply writer_framed|by eapply writer_pending|]. apply pcs_kept. by apply writer_moves in H as [H1 _].
  - eapply table_framed; [done|by eapply reader_framed|by eapply reader_pending|]. apply pcs_kept. by apply reader_moves in H as [H1 _].
  - by apply mux_fail_table.
  - unfold set_limits in H. case_match; [|done]. injection H as <-. by destruct Htab.
  - destruct Htab. by split.
  - by destruct Htab.
  - by destruct Htab.
Qed.

(** *** The bounds *)

Definition limits_known s (pc : @CallerPc Response) : Prop :=
  match pc with CallInsert limits => limits ∈ mx_limits_seen s | _ => True end.

Record bounded s : Prop := MkBounded {
  bd_limits : mx_limits s ∈ mx_limits_seen s;
  bd_callers : Forall (limits_known s) (pcs s);
  bd_total : ∃ l, l ∈ mx_limits_seen s ∧ (N.of_nat (size (pn_requests (mx_pending s))) ≤ lim_max_in_flight_requests l)%N;
  bd_work : ∃ l, l ∈ mx_limits_seen s ∧ (work_in_flight (pn_requests (mx_pending s)) ≤ work_capacity l)%N
}.

Lemma work_in_flight_mono r r' : r' ⊆ r → (work_in_flight r' ≤ work_in_flight r)%N.
Proof.
  intros Hsub. unfold work_in_flight, len.
  assert (pending_values r' ⊆+ pending_values r) as [k Hk]%submseteq_Permutation.
  { rewrite !pending_values_perm. apply fmap_submseteq. by apply map_to_list_submseteq. }
  rewrite Hk, filter_app, length_app. lia.
Qed.

Lemma work_in_flight_insert r id m sender :
  r !! id = None → work_in_flight (<[ id := MkPendingRequest m sender ]> r) = (work_in_flight r + (if m then 0 else 1))%N.
Proof.
  intros Hid. unfold work_in_flight, len. rewrite pending_values_insert, filter_cons by done. cbn.
  destruct m; [rewrite decide_False by done; lia|rewrite decide_True by done; cbn; lia].
Qed.

Lemma bounded_shrinks s s' :
  bounded s → framed s s' → shrinks (mx_pending s) (mx_pending s') → Forall (limits_known s) (pcs s') → bounded s'.
Proof.
  intros [Hl Hc (l1 & Hl1 & Ht) (l2 & Hl2 & Hw)] [_ _ E1 E2] [Hsub _] Hp. split; rewrite ?E1, ?E2; try done.
  - eapply Forall_impl; [exact Hp|]. intros []; cbn; try done. by rewrite E2.
  - exists l1. split; [done|]. pose proof (map_subseteq_size _ _ Hsub). lia.
  - exists l2. split; [done|]. pose proof (work_in_flight_mono _ _ Hsub). lia.
Qed.

Lemma caller_limits index waited s s' :
  bounded s → caller_step decode_response index waited s = Some s' → Forall (limits_known s) (pcs s').
Proof.
  intros [Hl Hc _ _] Hstep.
  assert (∃ new, pcs s' = alter (λ _, new) index (pcs s) ∧ limits_known s new) as (new & -> & Hn).
  { revert Hstep. unfold caller_step, caller_fails. intros H. destruct (mx_callers s !! index) as [c|] eqn:Ec; [|done].
    repeat case_match; simplify_eq; rewrite pcs_goto;
    (match goal with |- context [alter _ _ (pcs ?m)] => assert (pcs m = pcs s) as Hm end;
      [|refine (ex_intro _ _ (conj (f_equal (alter _ _) Hm) _)); done]).
    all: try done.
    all: try by match goal with H : start_fail _ _ = (_, _) |- _ => apply (held_fail _ _ _ _ 0 H) end.
    all: try match goal with H : send_response _ _ _ = Some _ |- _ => apply send_threads in H as [-> _]; done end.
    all: match goal with H : enqueue_write _ _ _ = Some _ |- _ => by apply enqueue_spec in H as (? & ? & ->) end. }
  apply Forall_alter; [done|]. intros; done.
Qed.

Lemma bounded_step s s' : bounded s → mux_step response_id decode_response s s' → bounded s'.
Proof.
  intros Hb [m f _|i w t H|p w t H|o t H|e _|l t H|_|_|_ _].
  - destruct Hb as [Hl Hc Ht Hw]. unfold begin_call. repeat case_match; split; try done;
      unfold pcs; cbn; rewrite fmap_app; apply Forall_app; (split; [exact Hc|]); by repeat constructor.
  - pose proof (caller_limits _ _ _ _ Hb H) as Hp. pose proof (caller_framed _ _ _ _ H) as Hfr.
    destruct (caller_pending _ _ _ _ H) as [Hsh|(c & limits & Hc & Hpc & Hins)]; [by eapply bounded_shrinks|].
    apply insert_spec in Hins as (Ep & _ & _ & Hnone & Hmax & Hwork). destruct Hb as [Hl Hcs Ht (l2 & Hl2 & Hw)].
    assert (limits ∈ mx_limits_seen s) as Hlim.
    { rewrite Forall_forall in Hcs. specialize (Hcs (CallInsert limits)). apply Hcs. rewrite <- Hpc.
      eapply list_elem_of_lookup_2. by apply lookup_pcs. }
    destruct Hfr as [_ _ E1 E2]. split; rewrite ?E1, ?E2, ?Ep; try done.
    + eapply Forall_impl; [exact Hp|]. intros []; cbn; try done. by rewrite E2.
    + exists limits. split; [done|]. cbn. rewrite map_size_insert_None by done. lia.
    + cbn. rewrite work_in_flight_insert by done. destruct (cl_management c); [exists l2; split; [done|]; lia|].
      exists limits. split; [done|]. specialize (Hwork eq_refl). lia.
  - eapply bounded_shrinks; [done|by eapply writer_framed|by eapply writer_pending|].
    apply writer_moves in H as [-> _]. apply Hb.
  - eapply bounded_shrinks; [done|by eapply reader_framed|by eapply reader_pending|].
    apply reader_moves in H as [-> _]. apply Hb.
  - unfold mux_fail. destruct (start_fail e s) as [js s1] eqn:Hf.
    pose proof (bounded_shrinks s s1 Hb (framed_fail _ _ _ _ Hf) (shrinks_fail _ _ _ _ Hf)) as [Hl Hc Ht Hw].
    { rewrite (proj2 (held_fail _ _ _ _ 0 Hf)). apply Hb. }
    split; try done. unfold pcs. cbn. rewrite fmap_app. apply Forall_app. split; [exact Hc|]. by repeat constructor.
  - unfold set_limits in H. case_match; [|done]. injection H as <-. destruct Hb as [Hl Hc (l1 & Hl1 & Ht) (l2 & Hl2 & Hw)].
    split; cbn.
    + set_solver.
    + eapply Forall_impl; [exact Hc|]. intros []; cbn; try done. set_solver.
    + exists l1. split; [set_solver|done].
    + exists l2. split; [set_solver|done].
  - by destruct Hb.
  - by destruct Hb.
  - by destruct Hb.
Qed.

(** *** The answers *)

Record caller_ok (c : @Caller Response) : Prop := MkCallerOk {
  ca_own : ∀ f, cl_response c = Some (Ok f) → response_id f = Ok (cl_request_id c);
  ca_decode : ∀ f, cl_pc c = CallDecode f → cl_response c = Some (Ok f);
  ca_done : ∀ r, cl_pc c = CallDone (Ok r) → ∃ f, cl_response c = Some (Ok f) ∧ decode_response (cl_request_id c) f = Ok r
}.

Definition reader_ok s : Prop :=
  match mx_reader s with
  | ReaderTake id f => response_id f = Ok id
  | ReaderDeliver j f => ∃ id m frame, statics s !! j = Some (id, m, frame) ∧ response_id f = Ok id
  | _ => True
  end.

Definition delivered_frame (c : @Caller Response) : option Frame :=
  match cl_response c with Some (Ok f) => Some f | _ => None end.
Definition delivered s : list Frame := omap delivered_frame (mx_callers s).
Definition in_hand (pc : ReaderPc) : list Frame :=
  match pc with ReaderTake _ f | ReaderDeliver _ f => [f] | _ => [] end.

Record answers_ok s : Prop := MkAnswersOk {
  an_callers : Forall caller_ok (mx_callers s);
  an_reader : reader_ok s;
  an_read : delivered s ++ in_hand (mx_reader s) ⊆+ mx_read s
}.

Lemma delivered_same (g : Caller → Caller) (k : nat) (callers : list Caller) :
  (∀ c, delivered_frame (g c) = delivered_frame c) → omap delivered_frame (alter g k callers) = omap delivered_frame callers.
Proof.
  intros Hg. revert k. induction callers as [|c callers IH]; intros [|k]; cbn; try done; [by rewrite Hg|].
  change (list_alter g k callers) with (alter g k callers). by rewrite IH.
Qed.

Lemma delivered_send j r s s' :
  send_response j r s = Some s' → delivered s' ≡ₚ delivered s ++ match r with Ok f => [f] | Err _ => [] end.
Proof.
  intros (c & Hc & Hn & ->)%send_response_spec. unfold delivered. cbn. revert j Hc.
  induction (mx_callers s) as [|d callers IH]; intros [|j] Hc; [done|done| |].
  - injection Hc as ->. cbn. unfold delivered_frame at 1 3. cbn. rewrite Hn.
    destruct r; [apply Permutation_cons_append|by rewrite app_nil_r].
  - specialize (IH j Hc). cbn in *. change (list_alter ?g j callers) with (alter g j callers).
    destruct (delivered_frame d); [|done]. cbn. by rewrite IH.
Qed.

Lemma sent_ok j r s s' :
  Forall caller_ok (mx_callers s) → send_response j r s = Some s' →
  (∀ f c, r = Ok f → mx_callers s !! j = Some c → response_id f = Ok (cl_request_id c)) → Forall caller_ok (mx_callers s').
Proof.
  intros Hall (c & Hc & Hn & ->)%send_response_spec Hr. cbn. apply Forall_alter; [done|]. intros c' Hc' [Ho Hd Hdo].
  rewrite Hc in Hc'. injection Hc' as <-. split; cbn.
  - intros f [= ->]. by eapply Hr.
  - intros f Hf. apply Hd in Hf. congruence.
  - intros r' Hr'. destruct (Hdo r' Hr') as (f & Hf & _). congruence.
Qed.

Lemma goto_ok index pc s :
  Forall caller_ok (mx_callers s) →
  (∀ c, mx_callers s !! index = Some c → (∀ f, pc = CallDecode f → cl_response c = Some (Ok f)) ∧
     ∀ r, pc = CallDone (Ok r) → ∃ f, cl_response c = Some (Ok f) ∧ decode_response (cl_request_id c) f = Ok r) →
  Forall caller_ok (mx_callers (goto_caller index pc s)).
Proof.
  intros Hall Hpc. cbn. apply Forall_alter; [done|]. intros c Hc [Ho _ _]. destruct (Hpc c Hc) as [H1 H2]. by split.
Qed.

Lemma goto_delivered index pc s : delivered (goto_caller index pc s) = delivered s.
Proof. by apply delivered_same. Qed.

(** A step that sends no frame and leaves the reader alone *)
Lemma caller_answers index waited s s' : answers_ok s → caller_step decode_response index waited s = Some s' → answers_ok s'.
Proof.
  intros [Hall Hrd Hread] Hstep. pose proof (fr_statics _ _ (caller_framed _ _ _ _ Hstep)) as Hst.
  assert (mx_reader s' = mx_reader s ∧ mx_read s' = mx_read s ∧ delivered s' ≡ₚ delivered s ∧ Forall caller_ok (mx_callers s')) as (E1 & E2 & E3 & E4).
  { revert Hstep. unfold caller_step, caller_fails. intros H. destruct (mx_callers s !! index) as [c|] eqn:Ec; [|done].
    assert (caller_ok c) as Hck by (rewrite Forall_forall in Hall; apply Hall; by eapply list_elem_of_lookup_2).
    repeat case_match; simplify_eq; rewrite ?goto_delivered.
    all: try match goal with H : start_fail _ _ = (_, _) |- _ => apply start_fail_spec in H as [-> ->] end.
    all: try match goal with H : enqueue_write _ _ _ = Some _ |- _ => apply enqueue_spec in H as (? & ? & ->) end.
    all: try (split_and!; [done|done|done|]; apply goto_ok; [done|]; cbn; intros c' Hc'; rewrite Ec in Hc'; injection Hc' as <-;
      split; [|by intros]; intros; by simplify_eq).
    - split_and!; [done|done|done|]. apply goto_ok; [done|]. cbn. intros c' Hc'. rewrite Ec in Hc'. injection Hc' as <-.
      split; [done|]. intros r [= <-]. exists frame. split; [|done]. by apply (ca_decode _ Hck).
    - match goal with H : send_response _ _ _ = Some _ |- _ => rename H into Hs end.
      pose proof (delivered_send _ _ _ _ Hs) as Hd. rewrite app_nil_r in Hd.
      pose proof (sent_ok _ _ _ _ Hall Hs ltac:(done)) as Hok'.
      assert (mx_reader m = mx_reader s ∧ mx_read m = mx_read s) as [R1 R2] by by apply send_response_spec in Hs as (? & _ & _ & ->).
      split_and!; [done|done|done|]. apply goto_ok; [done|]. by split. }
  split; [done| |by rewrite E1, E2, E3]. unfold reader_ok in *. by rewrite E1, Hst.
Qed.

Lemma written_ok j r s : Forall caller_ok (mx_callers s) → Forall caller_ok (mx_callers (send_written j r s)).
Proof. intros Hall. cbn. apply Forall_alter; [done|]. intros c _ []. by split. Qed.

Lemma writer_answers pick written s s' : answers_ok s → writer_step pick written s = Some s' → answers_ok s'.
Proof.
  intros [Hall Hrd Hread] Hstep. pose proof (fr_statics _ _ (writer_framed _ _ _ _ Hstep)) as Hst.
  assert (mx_reader s' = mx_reader s ∧ mx_read s' = mx_read s ∧ delivered s' ≡ₚ delivered s ∧ Forall caller_ok (mx_callers s')) as (E1 & E2 & E3 & E4).
  { revert Hstep. unfold writer_step, recv_management, recv_work, try_management, try_work. intros H.
    repeat case_match; simplify_eq; try done.
    - match goal with H : start_fail _ _ = (_, _) |- _ => by apply start_fail_spec in H as [-> ->] end.
    - match goal with H : send_response _ _ _ = Some _ |- _ => rename H into Hs end.
      pose proof (delivered_send _ _ _ _ Hs) as Hd. rewrite app_nil_r in Hd.
      pose proof (sent_ok _ _ _ _ Hall Hs ltac:(done)) as Hok'.
      by apply send_response_spec in Hs as (? & _ & _ & ->).
    - split_and!; [done|done| |by apply written_ok]. unfold delivered. cbn. by rewrite delivered_same.
    - split_and!; [done|done| |by apply written_ok]. unfold delivered. cbn. by rewrite delivered_same. }
  split; [done| |by rewrite E1, E2, E3]. unfold reader_ok in *. by rewrite E1, Hst.
Qed.

Lemma reader_answers outcome s s' : table_ok s → answers_ok s → reader_step response_id outcome s = Some s' → answers_ok s'.
Proof.
  intros Htab [Hall Hrd Hread]. unfold reader_step. destruct (mx_reader s) as [| |id frame|j frame|e|[|j js] e|] eqn:Er; try done.
  - repeat case_match; try done; intros [= <-]; by split.
  - cbn in Hread. rewrite app_nil_r in Hread.
    repeat case_match; try done; intros [= <-]; split; try done; cbn; rewrite ?app_nil_r; try done.
    + by apply submseteq_inserts_r.
    + by apply submseteq_app.
    + by apply submseteq_inserts_r.
  - cbn. destruct (pn_requests (mx_pending s) !! id) as [r|] eqn:Hr; cbn; intros [= <-].
    + split; [done| |done]. unfold reader_ok in *. rewrite Er in Hrd. cbn.
      destruct (to_entries _ Htab _ _ Hr) as (_ & f & Hf). eauto 6.
    + split; [done|done|]. cbn in *. rewrite app_nil_r. etrans; [|exact Hread]. by apply submseteq_inserts_r.
  - destruct (send_response _ _ s) as [s1|] eqn:Hs; [|done]. intros [= <-]. pose proof (delivered_send _ _ _ _ Hs) as Hd.
    unfold reader_ok in Hrd. rewrite Er in Hrd. destruct Hrd as (id & m & f & Hst & Hid).
    assert (Forall caller_ok (mx_callers s1)) as Hok'.
    { eapply sent_ok; [exact Hall|exact Hs|]. intros f' c [= <-] Hc. rewrite (lookup_statics _ _ _ Hc) in Hst. by injection Hst as -> _ _. }
    apply send_response_spec in Hs as (? & _ & _ & ->). split; [done|done|]. cbn [in_hand]. rewrite app_nil_r. cbn [mx_read] in *.
    etrans; [|exact Hread]. cbn [in_hand] in *. exact (Permutation_submseteq _ _ Hd).
  - destruct (start_fail _ s) as [js s1] eqn:Hf. intros [= <-]. apply start_fail_spec in Hf as [-> ->]. by split.
  - intros [= <-]. by split.
  - destruct (send_response _ _ s) as [s1|] eqn:Hs; [|done]. intros [= <-]. pose proof (delivered_send _ _ _ _ Hs) as Hd.
    pose proof (sent_ok _ _ _ _ Hall Hs ltac:(done)) as Hok'. rewrite app_nil_r in Hd.
    apply send_response_spec in Hs as (? & _ & _ & ->). split; [done|done|]. cbn [in_hand] in *. rewrite app_nil_r in *.
    etrans; [|exact Hread]. exact (Permutation_submseteq _ _ Hd).
Qed.

Lemma append_answers c s s1 :
  answers_ok s → mx_callers s1 = mx_callers s → mx_reader s1 = mx_reader s → mx_read s1 = mx_read s →
  cl_response c = None → (match cl_pc c with CallDecode _ | CallDone (Ok _) => False | _ => True end) →
  answers_ok (s1 <| mx_callers ::= λ l, l ++ [c] |>).
Proof.
  intros [Hall Hrd Hread] E1 E2 E3 Hn Hpc. split.
  - cbn. rewrite E1. apply Forall_app. split; [done|]. constructor; [|done]. split; [by rewrite Hn|intros f Hf; by rewrite Hf in Hpc|].
    intros r Hr. by rewrite Hr in Hpc.
  - unfold reader_ok in *. cbn. rewrite E2. destruct (mx_reader s); try done. destruct Hrd as (id & m & f & Hst & Hid).
    exists id, m, f. split; [|done]. unfold statics in *. cbn. rewrite fmap_app. apply lookup_app_l_Some. by rewrite E1.
  - cbn. rewrite E2, E3. etrans; [|exact Hread]. apply Permutation_submseteq. f_equiv. unfold delivered. cbn.
    rewrite E1, omap_app. cbn. unfold delivered_frame at 2. rewrite Hn. by rewrite app_nil_r.
Qed.

Lemma answers_step s s' : table_ok s → answers_ok s → mux_step response_id decode_response s s' → answers_ok s'.
Proof.
  intros Htab Han [m f _|i w t H|p w t H|o t H|e _|l t H|_|_|_ _].
  - unfold begin_call. repeat case_match; (apply (append_answers _ s); [done|done|done|done|done|exact I]).
  - by eapply caller_answers.
  - by eapply writer_answers.
  - by eapply reader_answers.
  - unfold mux_fail. destruct (start_fail e s) as [js s1] eqn:Hf. apply start_fail_spec in Hf as [-> ->].
    by apply (append_answers _ s).
  - unfold set_limits in H. case_match; [|done]. injection H as <-. by destruct Han.
  - by destruct Han.
  - by destruct Han.
  - by destruct Han.
Qed.

(** *** All of it *)

Record mux_ok s : Prop := MkMuxOk {
  mo_senders : senders_ok s;
  mo_table : table_ok s;
  mo_bounded : bounded s;
  mo_answers : answers_ok s
}.

Lemma mux_new_ok limits : mux_ok (mux_new limits).
Proof.
  split.
  - intros i. unfold pcs. cbn. rewrite lookup_nil. done.
  - by split.
  - split; cbn; [by left|done| |]; exists limits; (split; [by left|]); apply N.le_0_l.
  - split; [done|done|done].
Qed.

Lemma reachable_mux_ok s : mux_reachable response_id decode_response s → mux_ok s.
Proof.
  intros [limits Hrun]. assert (mux_ok (mux_new limits)) as H0 by apply mux_new_ok. revert H0.
  induction Hrun as [|s0 s1 s2 Hstep _ IH]; [done|]. intros [H1 H2 H3 H4]. apply IH. split.
  - by eapply senders_step.
  - by eapply table_step.
  - by eapply bounded_step.
  - by eapply answers_step.
Qed.

(** ** What callers may rely on *)

(** A thread has the sender of caller [i] in its hand. *)
Definition being_served s i : Prop :=
  (0 < with_reader (mx_reader s) i + with_writer (mx_writer s) i + total (with_caller i) (pcs s))%N.

Definition waiting (c : @Caller Response) : Prop :=
  match cl_pc c with CallEnqueue | CallAwaitWritten | CallAwaitResponse => True | _ => False end.

Lemma held_at_most_once s i : senders_ok s → (held s i ≤ 1)%N.
Proof. intros Hok. specialize (Hok i). destruct (pcs s !! i) as [[]|]; cbn [due] in Hok; lia. Qed.

Lemma in_table_own s i c :
  table_ok s → mx_callers s !! i = Some c → (0 < in_table s i)%N →
  pn_failure (mx_pending s) = None ∧ ∃ r, pn_requests (mx_pending s) !! cl_request_id c = Some r ∧ pr_sender r = i.
Proof.
  intros Htab Hc Hpos. unfold in_table in Hpos.
  assert (i ∈ pr_sender <$> pending_values (pn_requests (mx_pending s))) as Hin.
  { destruct (decide (i ∈ pr_sender <$> pending_values (pn_requests (mx_pending s)))) as [|Hn]; [done|]. exfalso.
    revert Hpos Hn. generalize (pr_sender <$> pending_values (pn_requests (mx_pending s))). clear.
    induction l as [|j l IH]; [done|]. rewrite occurs_cons. case_decide; [set_solver|]. intros H1 H2. apply IH; [lia|set_solver]. }
  apply list_elem_of_fmap in Hin as (r & -> & (id & Hid)%elem_of_pending_values).
  destruct (to_entries _ Htab _ _ Hid) as (_ & f & Hf). rewrite (lookup_statics _ _ _ Hc) in Hf. injection Hf as Eid _ _.
  rewrite Eid. split; [|eauto]. destruct (pn_failure (mx_pending s)) eqn:E; [|done].
  rewrite (to_failed _ Htab) in Hid by by rewrite E. by rewrite lookup_empty in Hid.
Qed.

(** C21: no caller is forgotten and none is answered twice.  In every reachable
    state of the multiplexer there is at most one sender for a caller's response
    channel, counting the message already in it; a caller that has asked and not
    yet returned is in the table under its own id (and then the transport has
    not failed), or a thread is about to send to it, or its answer is there; and
    a thread that sends never finds the channel full, so it never blocks. *)
Theorem mux_callers_accounted s :
  mux_reachable response_id decode_response s →
  (∀ i, (held s i ≤ 1)%N) ∧
  (∀ i c, mx_callers s !! i = Some c → waiting c →
     (pn_failure (mx_pending s) = None ∧ ∃ r, pn_requests (mx_pending s) !! cl_request_id c = Some r ∧ pr_sender r = i) ∨
     being_served s i ∨ is_Some (cl_response c)) ∧
  (∀ i r, being_served s i → is_Some (send_response i r s)).
Proof.
  intros [Hok Htab _ _]%reachable_mux_ok. split_and!.
  - intros i. by apply held_at_most_once.
  - intros i c Hc Hw. destruct (decide (0 < in_table s i)%N) as [Ht|Ht]; [left; by apply in_table_own|right].
    destruct (cl_response c) eqn:Hr; [right; eauto|left]. specialize (Hok i). rewrite (lookup_pcs _ _ _ Hc) in Hok.
    assert (held s i = 1%N) as Hh by (unfold waiting in Hw; by destruct (cl_pc c)).
    unfold held, answered in Hh. rewrite Hc, Hr in Hh. unfold being_served. lia.
  - intros i r Hs. pose proof (held_at_most_once s i Hok) as Hh. unfold being_served in Hs. unfold held in Hh.
    assert (answered (mx_callers s) i = 0%N) as Ha by lia. unfold send_response.
    destruct (mx_callers s !! i) as [c|] eqn:Hc.
    + unfold answered in Ha. rewrite Hc in Ha. by destruct (cl_response c); [|eexists].
    + exfalso. specialize (Hok i). unfold pcs in Hok at 1. rewrite list_lookup_fmap, Hc in Hok. cbn [due fmap option_fmap option_map] in Hok.
      unfold held in Hok. lia.
Qed.

(** C22: a caller that returns a response returns the one to its request: a frame
    the reader has read, that carries the caller's id and decodes to what is
    returned; and no frame is handed to two callers. *)
Theorem mux_answers_own s :
  mux_reachable response_id decode_response s →
  (∀ i c r, mx_callers s !! i = Some c → cl_pc c = CallDone (Ok r) →
     ∃ f, cl_response c = Some (Ok f) ∧ f ∈ mx_read s ∧ response_id f = Ok (cl_request_id c) ∧
       decode_response (cl_request_id c) f = Ok r) ∧
  delivered s ⊆+ mx_read s ∧
  (∀ i j c d, mx_callers s !! i = Some c → mx_callers s !! j = Some d → cl_request_id c = cl_request_id d →
     cl_request_id c ≠ 0%N → i = j).
Proof.
  intros [_ Htab _ [Hall _ Hread]]%reachable_mux_ok.
  assert (delivered s ⊆+ mx_read s) as Hsub by (etrans; [|exact Hread]; by apply submseteq_inserts_r).
  split_and!; [|done|].
  - intros i c r Hc Hpc. rewrite Forall_forall in Hall. destruct (Hall c) as [Ho _ Hd]; [by eapply list_elem_of_lookup_2|].
    destruct (Hd r Hpc) as (f & Hf & Hdec). exists f. split_and!; [done| |by apply Ho|done].
    eapply elem_of_submseteq; [|exact Hsub]. unfold delivered. apply list_elem_of_omap. exists c.
    split; [by eapply list_elem_of_lookup_2|]. unfold delivered_frame. by rewrite Hf.
  - intros i j c d Hc Hd Heq Hz. eapply (to_ids _ Htab i j); [by apply lookup_statics| |done].
    rewrite Heq. by apply lookup_statics.
Qed.

(** the table never holds more requests than the limits allow that were in
    force at some time, and never so many work requests that the places reserved
    for management are taken; an id is never found in use. *)
Theorem mux_pending_bounded s :
  mux_reachable response_id decode_response s →
  (∃ l, l ∈ mx_limits_seen s ∧ (N.of_nat (size (pn_requests (mx_pending s))) ≤ lim_max_in_flight_requests l)%N) ∧
  (∃ l, l ∈ mx_limits_seen s ∧
     (work_in_flight (pn_requests (mx_pending s)) ≤ lim_max_in_flight_requests l - lim_management_reserved_requests l)%N) ∧
  (∀ i c limits, mx_callers s !! i = Some c → cl_pc c = CallInsert limits →
     pn_requests (mx_pending s) !! cl_request_id c = None).
Proof.
  intros [Hok Htab [_ _ Ht Hw] _]%reachable_mux_ok. split_and!; [done|done|].
  intros i c limits Hc Hpc. by eapply no_duplicate.
Qed.

(** ** The writer *)

Definition writing (pc : WriterPc) : option bool := match pc with WriterWrite _ p => Some p | _ => None end.

(** The step takes a command of the queue that leaves this preference. *)
Definition takes (then_prefer : bool) s s' : bool :=
  bool_decide (writing (mx_writer s) = None ∧ writing (mx_writer s') = Some then_prefer).

(** [n] commands of one queue are taken while the other queue has a command
    waiting and none is taken from it. *)
Inductive passed_over (waits : MuxState → list WriteCommand) (other : bool) : nat → MuxState → MuxState → Prop :=
  | passed_none s : passed_over waits other 0 s s
  | passed_step n s s1 s2 :
      passed_over waits other n s s1 → waits s1 ≠ [] → mux_step response_id decode_response s1 s2 →
      takes (negb other) s1 s2 = false →
      passed_over waits other (n + if takes other s1 s2 then 1 else 0) s s2.

(** How many commands of the queue [other] the writer may still take first *)
Definition allowed (other : bool) s : nat :=
  match mx_writer s with
  | WriterTop => if bool_decide (mx_prefer_management s = other) then 0 else 1
  | WriterTryWork => if other then 1 else 0
  | WriterTryManagement => if other then 0 else 1
  | WriterSelect => 1
  | WriterWrite _ p => if bool_decide (p = other) then 0 else 1
  | WriterReport _ (Ok _) p => if bool_decide (p = other) then 0 else 1
  | WriterReport _ (Err _) _ | WriterFail _ _ _ | WriterStopped => 0
  end.

(** Only a step of the writer changes what the writer is at. *)
Definition writer_same s s' : Prop :=
  mx_writer s' = mx_writer s ∧ mx_prefer_management s' = mx_prefer_management s ∧
  mx_management_open s' = mx_management_open s ∧ mx_work_open s' = mx_work_open s.

Lemma step_writer_same s s' :
  mux_step response_id decode_response s s' →
  writer_same s s' ∨ ∃ pick written, writer_step pick written s = Some s'.
Proof.
  assert (∀ j r s1, send_response j r s = Some s1 → writer_same s s1) as Hsend by by intros j r s1 (? & _ & _ & ->)%send_response_spec.
  assert (∀ e js s1, start_fail e s = (js, s1) → writer_same s s1) as Hfail by by intros e js s1 [-> ->]%start_fail_spec.
  intros [m f _|i w t H|p w t H|o t H|e _|l t H|_|_|_ _]; try by left.
  - left. unfold begin_call. by repeat case_match.
  - left. revert H. unfold caller_step, caller_fails. intros H. repeat case_match; simplify_eq; try done.
    all: try match goal with H : enqueue_write _ _ _ = Some _ |- _ => by apply enqueue_spec in H as (? & ? & ->) end.
    all: try match goal with H : start_fail _ _ = _ |- _ => exact (Hfail _ _ _ H) end.
    all: match goal with H : send_response _ _ _ = _ |- _ => exact (Hsend _ _ _ H) end.
  - right. eauto.
  - left. revert H. unfold reader_step. intros H. repeat case_match; simplify_eq; try done.
    all: try match goal with H : start_fail _ _ = _ |- _ => exact (Hfail _ _ _ H) end.
    all: match goal with H : send_response _ _ _ = _ |- _ => exact (Hsend _ _ _ H) end.
  - left. unfold set_limits in H. case_match; [|done]. by injection H as <-.
Qed.

Lemma writer_allowed (other : bool) pick written s s' :
  (if other then mx_management s else mx_work s) ≠ [] →
  (if other then mx_management_open s else mx_work_open s) = true →
  writer_step pick written s = Some s' → takes (negb other) s s' = false →
  (allowed other s' + (if takes other s s' then 1 else 0) ≤ allowed other s)%nat ∧
  (if other then mx_management_open s' else mx_work_open s') = true.
Proof.
  intros Hq Ho. unfold writer_step, recv_management, recv_work, try_management, try_work, takes, allowed.
  destruct (mx_writer s) as [| | | |cmd p|cmd [|j js] e|cmd r p|] eqn:Ew; intros H; try done.
  all: repeat case_match; simplify_eq; try done.
  all: try match goal with H : start_fail _ _ = _ |- _ => apply start_fail_spec in H as [-> ->] end.
  all: try match goal with H : send_response _ _ _ = _ |- _ => apply send_response_spec in H as (? & _ & _ & ->) end.
  all: cbn in *; rewrite ?Ew in *; cbn in *; intros Htk; repeat case_bool_decide; destruct_and?; try done; split; try lia; try done.
  all: repeat match goal with b : bool |- _ => destruct b end; cbn in *; simplify_eq; try done; try lia.
  all: exfalso; repeat match goal with H : _ && _ = true |- _ => apply andb_true_iff in H as [? ?] end; try congruence.
  all: try match goal with H : ¬ (None = None ∧ ?a = ?a) |- _ => by apply H end.
  all: match goal with H : ?a && ?b = false, H1 : ?a = true, H2 : ?b = true |- _ => by rewrite H1, H2 in H end.
Qed.

(** C27: the writer alternates.  While a management command waits in its queue
    and none is taken from there, at most one work command is taken, and the
    other way round: neither class of requests holds up the other by more than
    one frame. *)
Theorem writer_alternates s s' n :
  (mx_management_open s = true → passed_over mx_management true n s s' → n ≤ 1) ∧
  (mx_work_open s = true → passed_over mx_work false n s s' → n ≤ 1).
Proof.
  assert (∀ (other : bool) s s' n, (if other then mx_management_open s else mx_work_open s) = true →
    passed_over (if other then mx_management else mx_work) other n s s' →
    (if other then mx_management_open s' else mx_work_open s') = true ∧ n + allowed other s' ≤ allowed other s) as Hall.
  { clear. intros other s s' n Ho Hp. induction Hp as [s|n s s1 s2 _ IH Hq Hstep Htk]; [split; [done|lia]|].
    destruct (IH Ho) as [Ho1 Hn]. destruct (step_writer_same _ _ Hstep) as [(E1 & E2 & E3 & E4)|(pick & written & Hw)].
    - unfold takes, allowed in *. rewrite E1, E2, E3, E4. split; [done|].
      rewrite (bool_decide_eq_false_2 (_ ∧ _)); [lia|]. intros [H1 H2]. congruence.
    - destruct (writer_allowed other pick written s1 s2) as [Hle Ho2]; [by destruct other|done|done|done|]. split; [done|]. lia. }
  assert (∀ (other : bool) s, allowed other s ≤ 1) as Hone.
  { clear. intros other s. unfold allowed. repeat case_match; lia. }
  split; intros Ho Hp; [destruct (Hall true s s' n Ho Hp) as [_ H]; pose proof (Hone true s)|
    destruct (Hall false s s' n Ho Hp) as [_ H]; pose proof (Hone false s)]; lia.
Qed.
End Accounts.

(** ** Error responses *)

Section ErrorResponses.
Context `{SJ : !SerdeJson} `{WS : !WireSerde}.
Variable opcode : Opcode.
Variable limits : WireLimits.

(** The typed response of [request_without_handshake] over the binary codec *)
Definition decode_typed (request_id : N) (frame : list byte) : RuntimeResult (response_type opcode) :=
  match decode_binary_response opcode frame request_id limits tt with
  | Some (result, _) => result
  | None => transport_failure "malformed response"
  end.

(** A well-formed error response, in which the peer only reports that the
    request failed, is treated as a broken transport: decoding it fails the
    multiplexer with the error of that one request, all other pending requests
    are answered with it, and none is accepted any more. *)
Theorem error_response_fails_transport (s : @MuxState (response_type opcode)) index c error bytes :
  mp_image error = Ok error →
  (cl_request_id c ≤ u64_max)%N → (lim_max_frame_bytes limits ≤ u32_max)%N →
  encode_binary_response (T := response_type opcode) (cl_request_id c) opcode (Err error) limits tt = Some (Ok bytes, tt) →
  mx_callers s !! index = Some c → cl_pc c = CallDecode bytes → pn_failure (mx_pending s) = None →
  ∃ s', caller_step decode_typed index Proceeds s = Some s' ∧
    pn_failure (mx_pending s') = Some error ∧ pn_requests (mx_pending s') = ∅ ∧
    pcs s' !! index = Some (CallFail (pr_sender <$> pending_values (pn_requests (mx_pending s))) error) ∧
    ∀ id m sender l, pending_insert id m sender l (mx_pending s') = Err error.
Proof.
  intros He Hid Hlim Henc Hc Hpc Hnf.
  destruct (response_roundtrip opcode (cl_request_id c) (Err error) limits bytes Hid Hlim Henc) as [Hdec _].
  cbn [received_response] in Hdec. rewrite He in Hdec.
  unfold caller_step. rewrite Hc, Hpc. unfold decode_typed at 1. rewrite Hdec. eexists. split; [done|].
  unfold caller_fails, start_fail. cbn. rewrite Hnf. split_and!; try done.
  unfold pcs. rewrite list_lookup_fmap. cbn. by rewrite list_lookup_alter_eq, Hc.
Qed.
End ErrorResponses.

(** ** A request and its response *)

Section Demo.
Abbreviation Frame := (list byte).
(** A frame is the byte of its id and a byte of content. *)
Definition demo_response_id (frame : Frame) : RuntimeResult N :=
  match frame with b :: _ => Ok (Byte.to_N b) | [] => transport_failure "empty frame" end.
Definition demo_decode (_ : N) (frame : Frame) : RuntimeResult Frame := Ok frame.
Definition demo_limits : WireLimits := MkWireLimits 64 32 64 32 2 1.

Inductive MuxMove : Type :=
  | MoveBegin (management : bool) (frame : Frame)
  | MoveCaller (index : nat) (waited : Waited)
  | MoveWriter
  | MoveReader (outcome : RuntimeResult (option Frame)).

Definition demo_move (move : MuxMove) (s : @MuxState Frame) : option (@MuxState Frame) :=
  match move with
  | MoveBegin management frame => if pn_closed (mx_pending s) then None else Some (begin_call management (Ok frame) s)
  | MoveCaller index waited => caller_step demo_decode index waited s
  | MoveWriter => writer_step true (Ok tt) s
  | MoveReader outcome => reader_step demo_response_id outcome s
  end.

Fixpoint demo_run (moves : list MuxMove) (s : @MuxState Frame) : option (@MuxState Frame) :=
  match moves with
  | [] => Some s
  | move :: moves => match demo_move move s with Some s => demo_run moves s | None => None end
  end.

Lemma demo_run_steps moves s s' : demo_run moves s = Some s' → rtc (mux_step demo_response_id demo_decode) s s'.
Proof.
  revert s. induction moves as [|move moves IH]; intros s; cbn; [intros [= <-]; apply rtc_refl|].
  destruct (demo_move move s) as [s1|] eqn:Hm; [|done]. intros Hrun. eapply rtc_l; [|by apply IH].
  destruct move; cbn in Hm.
  - destruct (pn_closed (mx_pending s)) eqn:Hc; [done|]. injection Hm as <-. by constructor.
  - by eapply step_caller.
  - by eapply step_writer.
  - by eapply step_reader.
Defined.

Definition answer_frame : Frame := [Byte.x01; Byte.x2a].

(** One caller writes its frame; the reader hands it the response. *)
Definition demo_moves : list MuxMove :=
  [MoveBegin false [Byte.x01]; MoveCaller 0 Proceeds; MoveCaller 0 Proceeds; MoveCaller 0 Proceeds;
   MoveWriter; MoveWriter; MoveWriter; MoveWriter; MoveCaller 0 Proceeds;
   MoveReader (Ok None); MoveReader (Ok (Some answer_frame)); MoveReader (Ok None)].
Definition demo_rest : list MuxMove := [MoveReader (Ok None); MoveCaller 0 Proceeds; MoveCaller 0 Proceeds].

Definition state_after (moves : list MuxMove) : @MuxState Frame :=
  match demo_run moves (mux_new demo_limits) with Some s => s | None => mux_new demo_limits end.
Definition runs_to_end (moves : list MuxMove) : bool :=
  match demo_run moves (mux_new demo_limits) with Some _ => true | None => false end.

Lemma state_after_reachable moves : runs_to_end moves = true → mux_reachable demo_response_id demo_decode (state_after moves).
Proof.
  unfold runs_to_end, state_after. destruct (demo_run _ _) as [s|] eqn:Hrun; [|done]. intros _.
  exists demo_limits. by eapply demo_run_steps.
Defined.

(** The reader has the sender of the caller in its hand. *)
Lemma mux_callers_accounted_witness :
  is_Some (send_response 0 (Ok answer_frame) (state_after demo_moves)).
Proof.
  pose proof (state_after_reachable demo_moves ltac:(vm_compute; reflexivity)) as Hr.
  destruct (mux_callers_accounted _ _ _ Hr) as (_ & _ & H). apply H. vm_compute. reflexivity.
Defined.

Lemma mux_answers_own_witness :
  ∃ f, f ∈ mx_read (state_after (demo_moves ++ demo_rest)) ∧ demo_response_id f = Ok 1%N ∧ demo_decode 1 f = Ok answer_frame.
Proof.
  pose proof (state_after_reachable (demo_moves ++ demo_rest) ltac:(vm_compute; reflexivity)) as Hr.
  destruct (mux_answers_own _ _ _ Hr) as [H _].
  destruct (mx_callers (state_after (demo_moves ++ demo_rest)) !! 0) as [c|] eqn:Hc; [|vm_compute in Hc; discriminate].
  assert (cl_pc c = CallDone (Ok answer_frame) ∧ cl_request_id c = 1%N) as [Hpc Hid].
  { vm_compute in Hc. injection Hc as <-. split; reflexivity. }
  destruct (H 0 c answer_frame Hc Hpc) as (f & _ & Hin & Hrid & Hdec). rewrite Hid in Hrid, Hdec. exists f.
  split; [exact Hin|]. split; [exact Hrid|exact Hdec].
Defined.

Lemma mux_pending_bounded_witness :
  ∃ l, l ∈ [demo_limits] ∧
    (N.of_nat (size (pn_requests (mx_pending (state_after (take 4 demo_moves))))) ≤ lim_max_in_flight_requests l)%N.
Proof.
  pose proof (state_after_reachable (take 4 demo_moves) ltac:(vm_compute; reflexivity)) as Hr.
  exact (proj1 (mux_pending_bounded _ _ _ Hr)).
Defined.

(** A management command waits while the work command is written. *)
Definition demo_queue : list MuxMove :=
  [MoveBegin false [Byte.x01]; MoveCaller 0 Proceeds; MoveCaller 0 Proceeds; MoveCaller 0 Proceeds; MoveWriter;
   MoveBegin true [Byte.x02]; MoveCaller 1 Proceeds; MoveCaller 1 Proceeds; MoveCaller 1 Proceeds].

Lemma writer_alternates_witness :
  passed_over demo_response_id demo_decode mx_management true 1 (state_after demo_queue) (state_after (demo_queue ++ [MoveWriter])) ∧ 1 ≤ 1.
Proof.
  assert (passed_over demo_response_id demo_decode mx_management true 1
    (state_after demo_queue) (state_after (demo_queue ++ [MoveWriter]))) as Hp.
  { set (s1 := state_after demo_queue). set (s2 := state_after (demo_queue ++ [MoveWriter])).
    change (passed_over demo_response_id demo_decode mx_management true (if true then 1 else 0) s1 s2).
    replace true with (takes true s1 s2) at 2 by (vm_compute; reflexivity).
    apply (passed_step _ _ mx_management true 0 s1 s1 s2).
    - apply passed_none.
    - vm_compute. discriminate.
    - apply (step_writer _ _ _ true (Ok tt)). vm_compute. reflexivity.
    - vm_compute. reflexivity. }
  split; [exact Hp|]. apply (proj1 (writer_alternates demo_response_id demo_decode (state_after demo_queue) (state_after (demo_queue ++ [MoveWriter])) 1)); [|exact Hp].
  vm_compute. reflexivity.
Defined.
End Demo.
