(* ===== verification/SdkRunner.v ===== *)
(** * Runners written as async functions

    crates/mutsuki-runtime-sdk/src/lib.rs.  A plugin author writes a runner as
    an async function that calls other tasks and awaits them.  The adapter keeps
    the suspended function of every task: one run of the task polls it once, and
    a function that waits for a child is turned into a result with the status
    Waiting, the child to submit and the await.

    The author's function is a program: it returns, awaits one call after the
    other, or awaits something that is not a call.  What the client says about
    the outcome of a task is an input of every run.  Wakers do nothing here
    ([noop_waker]); functions that await several calls at once are left out. *)

From S2P Require Import Prelude Contracts RunnerContracts BatchContracts PluginContracts HostErrors DemoJson.

Definition ERR_RUNNER_AWAITABLE_UNSUPPORTED : string := "runner.awaitable_unsupported".

(** ** Calls *)

Section Calls.
Context `{SJ : SerdeJson}.

(** [AsyncRunnerContext]; the counter of the calls and the slot of the pending
    await are kept beside it. *)
Record AsyncRunnerContext : Type := MkAsyncRunnerContext {
  ax_parent_task_id : string;
  ax_current_runner_id : string;
  ax_trace_id : option TraceId;
  ax_correlation_id : option string;
  ax_allow_self_call : bool
}.

(** The arguments of [call], [call_raw], [call_targeted] and their variants: the
    payload is what [serde_json::to_value] makes of the input, or the text of
    its error. *)
Record CallRequest : Type := MkCallRequest {
  crq_protocol_id : string;
  crq_payload : Result string Value;
  crq_target : option (string * string);
  crq_cancel_policy : CancelPolicy
}.

Definition call_of (protocol_id : string) (input : Result string Value) : CallRequest :=
  MkCallRequest protocol_id input None Cascade.
Definition call_targeted (binding_id protocol_id runner_hint : string) (input : Result string Value) : CallRequest :=
  MkCallRequest protocol_id input (Some (binding_id, runner_hint)) Cascade.

Record PendingAwait : Type := MkPendingAwait { pa_task : option Task; pa_task_await : TaskAwait }.

Definition continuation_ref (parent_task_id : string) : ResourceRef :=
  let ref_id := "continuation:" +:+ parent_task_id in
  {| rr_ref_id := ref_id;
     rr_resource_id := {| ri_kind_id := "continuation"; ri_slot_id := ref_id; ri_generation := 1; ri_version := 1 |};
     rr_semantic := FrozenValue; rr_provider_id := "mutsuki.sdk"; rr_resource_kind := "continuation";
     rr_schema := "mutsuki.continuation.v1"; rr_version := 1; rr_generation := 1; rr_access := AccessInline;
     rr_size_hint := None; rr_content_hash := None; rr_lifetime := BorrowedUntilTaskEnd; rr_lease := None;
     rr_seal_state := Sealed |}.

Definition PendingAwait_new (parent_task_id : string) (child : TaskHandle) (task : option Task) (cancel_policy : CancelPolicy) :
    PendingAwait :=
  {| pa_task := task;
     pa_task_await := {| aw_parent_task_id := parent_task_id; aw_child := child;
       aw_continuation := {| cont_continuation := continuation_ref parent_task_id; cont_wake := None;
                             cont_reason := Some "sdk.await" |};
       aw_cancel_policy := cancel_policy |} |}.

Inductive CallState : Type :=
  | CallInit (task : Task) (handle : TaskHandle)
  | CallSubmitted (handle : TaskHandle)
  | CallFailed (error : option RuntimeError)
  | CallOver.

Record CallFuture : Type := MkCallFuture {
  cf_parent_task_id : string;
  cf_state : CallState;
  cf_self_call_blocked : bool
}.

Definition serialize_error (text : string) : RuntimeError := runtime_error "sdk.serialize_failed" "runtime.sdk" text.
Definition self_call_error (parent_task_id : string) : RuntimeError :=
  runtime_error "task.self_call_blocked" "runtime.sdk" ("task.await." +:+ parent_task_id).

Definition CallFuture_failed (parent_task_id : string) (error : RuntimeError) : CallFuture :=
  MkCallFuture parent_task_id (CallFailed (Some error)) false.

(** The task and the handle of the call with this index *)
Definition child_id (ctx : AsyncRunnerContext) (call_index : N) : string :=
  ax_parent_task_id ctx +:+ ":call:" +:+ pretty call_index.
Definition child_task (ctx : AsyncRunnerContext) (request : CallRequest) (payload : Value) (call_index : N) : Task :=
  (Task_new (child_id ctx call_index) (crq_protocol_id request) (PayloadJson payload))
    <| t_trace_id := ax_trace_id ctx |> <| t_correlation_id := ax_correlation_id ctx |>
    <| t_target_binding_id := fst <$> crq_target request |> <| t_runner_hint := snd <$> crq_target request |>.
Definition child_handle (ctx : AsyncRunnerContext) (request : CallRequest) (call_index : N) : TaskHandle :=
  {| h_task_id := child_id ctx call_index; h_protocol_id := crq_protocol_id request;
     h_target_binding_id := fst <$> crq_target request; h_cancel_policy := crq_cancel_policy request;
     h_trace_id := ax_trace_id ctx; h_correlation_id := ax_correlation_id ctx |}.
Definition self_call_blocked (ctx : AsyncRunnerContext) (request : CallRequest) : bool :=
  bool_decide (snd <$> crq_target request = Some (ax_current_runner_id ctx)) && negb (ax_allow_self_call ctx).

(** [next_call.fetch_add(1) + 1]: the addition panics on overflow. *)
Definition call_with_runner_hint (ctx : AsyncRunnerContext) (request : CallRequest) (payload : Value) (next_call : N) :
    option (CallFuture * N) :=
  if decide (next_call < u64_max)%N then
    let call_index := (next_call + 1)%N in
    Some (MkCallFuture (ax_parent_task_id ctx)
            (CallInit (child_task ctx request payload call_index) (child_handle ctx request call_index))
            (self_call_blocked ctx request), call_index)
  else None.

Definition ctx_call (ctx : AsyncRunnerContext) (request : CallRequest) (next_call : N) : option (CallFuture * N) :=
  match crq_payload request with
  | Ok payload => call_with_runner_hint ctx request payload next_call
  | Err text => Some (CallFuture_failed (ax_parent_task_id ctx) (serialize_error text), next_call)
  end.

Inductive Poll (A : Type) : Type := PollReady (a : A) | PollPending.
#[global] Arguments PollReady {A} a.
#[global] Arguments PollPending {A}.

(** What the client answers for a handle *)
Definition Outcomes : Type := TaskHandle → RuntimeResult (option TaskOutcome).

(** [<CallFuture as Future>::poll]; [None] is a panic. *)
Definition call_poll (outcomes : Outcomes) (self : CallFuture) (pending : option PendingAwait) :
    option (Poll (RuntimeResult TaskOutcome) * CallFuture * option PendingAwait) :=
  let goto state := MkCallFuture (cf_parent_task_id self) state (cf_self_call_blocked self) in
  if cf_self_call_blocked self then Some (PollReady (Err (self_call_error (cf_parent_task_id self))), self, pending)
  else
    match cf_state self with
    | CallInit task handle =>
        Some (PollPending, goto (CallSubmitted handle),
              Some (PendingAwait_new (cf_parent_task_id self) handle (Some task) (h_cancel_policy handle)))
    | CallSubmitted handle =>
        match outcomes handle with
        | Ok (Some outcome) => Some (PollReady (Ok outcome), goto CallOver, pending)
        | Ok None =>
            Some (PollPending, goto (CallSubmitted handle),
                  Some (PendingAwait_new (cf_parent_task_id self) handle None (h_cancel_policy handle)))
        | Err error => Some (PollReady (Err error), goto CallOver, pending)
        end
    | CallFailed (Some error) => Some (PollReady (Err error), goto CallOver, pending)
    | CallFailed None => None
    | CallOver => None
    end.

(** [<TaskHandleFuture as Future>::poll] *)
Definition handle_poll (outcomes : Outcomes) (handle : TaskHandle) : Poll (RuntimeResult TaskOutcome) :=
  match outcomes handle with
  | Ok (Some outcome) => PollReady (Ok outcome)
  | Ok None => PollPending
  | Err error => PollReady (Err error)
  end.

(** ** The author's function *)

Inductive AsyncProgram : Type :=
  | Return (result : RuntimeResult RunnerResult)
  | Await (request : CallRequest) (k : RuntimeResult TaskOutcome → AsyncProgram)
  (** awaits a future that is no call and not ready *)
  | External (p : AsyncProgram).

Inductive AsyncState : Type :=
  | AtProgram (p : AsyncProgram)
  | InCall (call : CallFuture) (k : RuntimeResult TaskOutcome → AsyncProgram)
  | AsyncOver.

Record AsyncBody : Type := MkAsyncBody {
  ab_ctx : AsyncRunnerContext;
  ab_next_call : N;
  ab_state : AsyncState
}.

(** Running on from a point of the function *)
Fixpoint resume (ctx : AsyncRunnerContext) (outcomes : Outcomes) (p : AsyncProgram) (next_call : N)
    (pending : option PendingAwait) : option (Poll (RuntimeResult RunnerResult) * AsyncBody * option PendingAwait) :=
  match p with
  | Return result => Some (PollReady result, MkAsyncBody ctx next_call AsyncOver, pending)
  | External p => Some (PollPending, MkAsyncBody ctx next_call (AtProgram p), pending)
  | Await request k =>
      match ctx_call ctx request next_call with
      | None => None
      | Some (call, next_call) =>
          match call_poll outcomes call pending with
          | None => None
          | Some (PollReady result, _, pending) => resume ctx outcomes (k result) next_call pending
          | Some (PollPending, call, pending) => Some (PollPending, MkAsyncBody ctx next_call (InCall call k), pending)
          end
      end
  end.

Definition body_poll (outcomes : Outcomes) (self : AsyncBody) (pending : option PendingAwait) :
    option (Poll (RuntimeResult RunnerResult) * AsyncBody * option PendingAwait) :=
  match ab_state self with
  | AtProgram p => resume (ab_ctx self) outcomes p (ab_next_call self) pending
  | InCall call k =>
      match call_poll outcomes call pending with
      | None => None
      | Some (PollReady result, _, pending) => resume (ab_ctx self) outcomes (k result) (ab_next_call self) pending
      | Some (PollPending, call, pending) =>
          Some (PollPending, MkAsyncBody (ab_ctx self) (ab_next_call self) (InCall call k), pending)
      end
  | AsyncOver => None
  end.

(** ** The adapter *)

Context {Factory : Type}.
(** The closure that makes the function of a task; it may change what it holds. *)
Variable factory : AsyncRunnerContext → Task → Factory → AsyncProgram * Factory.

Record AsyncInvocation : Type := MkAsyncInvocation { inv_body : AsyncBody; inv_pending : option PendingAwait }.

Record TaskAwaitRunnerAdapter : Type := MkTaskAwaitRunnerAdapter {
  ad_descriptor : RunnerDescriptor;
  ad_factory : Factory;
  ad_invocations : gmap string AsyncInvocation;
  ad_invocation_tasks : gmap string string;
  ad_allow_self_call : bool
}.

Definition TaskAwaitRunnerAdapter_eta (a : TaskAwaitRunnerAdapter) : TaskAwaitRunnerAdapter :=
  {| ad_descriptor := ad_descriptor a; ad_factory := ad_factory a; ad_invocations := ad_invocations a;
     ad_invocation_tasks := ad_invocation_tasks a; ad_allow_self_call := ad_allow_self_call a |}.
#[export] Instance set_ad_factory : Setter ad_factory := ltac:(derive_setter TaskAwaitRunnerAdapter_eta ad_factory).
#[export] Instance set_ad_invocations : Setter ad_invocations := ltac:(derive_setter TaskAwaitRunnerAdapter_eta ad_invocations).
#[export] Instance set_ad_invocation_tasks : Setter ad_invocation_tasks :=
  ltac:(derive_setter TaskAwaitRunnerAdapter_eta ad_invocation_tasks).
#[export] Instance set_ad_allow_self_call : Setter ad_allow_self_call :=
  ltac:(derive_setter TaskAwaitRunnerAdapter_eta ad_allow_self_call).

Definition TaskAwaitRunnerAdapter_new (descriptor : RunnerDescriptor) (f : Factory) : TaskAwaitRunnerAdapter :=
  MkTaskAwaitRunnerAdapter descriptor f ∅ ∅ true.
Definition with_self_call_policy (allow_self_call : bool) (self : TaskAwaitRunnerAdapter) : TaskAwaitRunnerAdapter :=
  self <| ad_allow_self_call := allow_self_call |>.

Definition track_invocation (task_id invocation_id : string) (self : TaskAwaitRunnerAdapter) : TaskAwaitRunnerAdapter :=
  if decide (invocation_id = "") then self else self <| ad_invocation_tasks ::= <[ invocation_id := task_id ]> |>.

Definition remove_invocation_by_task (task_id : string) (self : TaskAwaitRunnerAdapter) : TaskAwaitRunnerAdapter :=
  match ad_invocations self !! task_id with
  | None => self
  | Some _ => self <| ad_invocations ::= delete task_id |>
                   <| ad_invocation_tasks ::= filter (λ '(_, known_task_id), known_task_id ≠ task_id) |>
  end.

(** The context a task's function gets *)
Definition async_context (self : TaskAwaitRunnerAdapter) (task : Task) : AsyncRunnerContext :=
  {| ax_parent_task_id := t_task_id task; ax_current_runner_id := d_runner_id (ad_descriptor self);
     ax_trace_id := t_trace_id task; ax_correlation_id := t_correlation_id task;
     ax_allow_self_call := ad_allow_self_call self |}.

Definition ensure_invocation (task : Task) (self : TaskAwaitRunnerAdapter) : TaskAwaitRunnerAdapter :=
  match ad_invocations self !! t_task_id task with
  | Some _ => self
  | None =>
      let ctx := async_context self task in
      let '(p, f) := factory ctx task (ad_factory self) in
      self <| ad_factory := f |>
           <| ad_invocations ::= <[ t_task_id task := MkAsyncInvocation (MkAsyncBody ctx 0 (AtProgram p)) None ]> |>
  end.

Definition waiting_result (task_id : string) (pending : PendingAwait) : RunnerResult :=
  {| rres_task_id := task_id; rres_output := None; rres_deltas := []; rres_events := [];
     rres_tasks := option_list (pa_task pending); rres_effects := []; rres_values := []; rres_resources := [];
     rres_task_await := Some (pa_task_await pending); rres_status := StatusWaiting |}.

Definition external_pending (runner_id : string) : RuntimeError :=
  runtime_error ERR_RUNNER_AWAITABLE_UNSUPPORTED "sdk.task_await_runner_adapter"
    ("runner." +:+ runner_id +:+ ".external_future_pending").

Definition run_one (outcomes : Outcomes) (ctx : RunnerContext) (task : Task) (self : TaskAwaitRunnerAdapter) :
    option (RuntimeResult RunnerResult * TaskAwaitRunnerAdapter) :=
  let task_id := t_task_id task in
  let self := track_invocation task_id (rc_invocation_id ctx) (ensure_invocation task self) in
  match ad_invocations self !! task_id with
  | None => None
  | Some invocation =>
      match body_poll outcomes (inv_body invocation) None with
      | None => None
      | Some (PollReady result, _, _) => Some (result, remove_invocation_by_task task_id self)
      | Some (PollPending, body, pending) =>
          let self := self <| ad_invocations ::= <[ task_id := MkAsyncInvocation body None ]> |> in
          match pending with
          | Some pending => Some (Ok (waiting_result task_id pending), self)
          | None => Some (Err (external_pending (d_runner_id (ad_descriptor self))), remove_invocation_by_task task_id self)
          end
      end
  end.

Definition adapter_cancel (invocation_id : string) (self : TaskAwaitRunnerAdapter) : TaskAwaitRunnerAdapter :=
  match ad_invocation_tasks self !! invocation_id with
  | Some task_id => remove_invocation_by_task task_id self
  | None => match ad_invocations self !! invocation_id with
            | Some _ => remove_invocation_by_task invocation_id self
            | None => self
            end
  end.

Context `{ST : !SerdeTypes}.

Definition entry_completion (entry : BatchEntry) (result : RuntimeResult RunnerResult) : EntryCompletion :=
  match result with
  | Ok result => {| ec_entry_id := be_entry_id entry; ec_task_id := be_task_id entry; ec_result := Some result; ec_error := None |}
  | Err error => {| ec_entry_id := be_entry_id entry; ec_task_id := be_task_id entry; ec_result := None; ec_error := Some error |}
  end.

Definition adapter_run_entry (outcomes : Outcomes) (ctx : RunnerContext) (batch : WorkBatch) (entry : BatchEntry)
    (self : TaskAwaitRunnerAdapter) : option (EntryCompletion * TaskAwaitRunnerAdapter) :=
  let mismatch := Some (entry_completion entry (Err (runtime_error ERR_TASK_CLAIM_CONFLICT "sdk.async_runner_adapter"
    ("batch.entry." +:+ be_entry_id entry))), self) in
  match task_at (wb_payload batch) (be_payload_index entry) with
  | Ok task =>
      if decide (t_task_id task = be_task_id entry) then
        match run_one outcomes ctx task self with
        | Some (result, self) => Some (entry_completion entry result, self)
        | None => None
        end
      else mismatch
  | Err _ => mismatch
  end.

Fixpoint adapter_run_entries (outcomes : Outcomes) (ctx : RunnerContext) (batch : WorkBatch) (entries : list BatchEntry)
    (self : TaskAwaitRunnerAdapter) : option (list EntryCompletion * TaskAwaitRunnerAdapter) :=
  match entries with
  | [] => Some ([], self)
  | entry :: entries =>
      match adapter_run_entry outcomes ctx batch entry self with
      | Some (completion, self) =>
          match adapter_run_entries outcomes ctx batch entries self with
          | Some (completions, self) => Some (completion :: completions, self)
          | None => None
          end
      | None => None
      end
  end.

Definition adapter_run_batch (outcomes : Outcomes) (ctx : RunnerContext) (batch : WorkBatch) (self : TaskAwaitRunnerAdapter) :
    option (RuntimeResult CompletionBatch * TaskAwaitRunnerAdapter) :=
  match adapter_run_entries outcomes ctx batch (wb_entries batch) self with
  | Some (results, self) => Some (Ok (from_results batch results), self)
  | None => None
  end.

(** ** Plain runners and submission *)

(** [map_work_batch_entries] for a handler that keeps a state of its own *)
Definition map_work_entry {H : Type} (handler : Task → H → RuntimeResult RunnerResult * H) (batch : WorkBatch)
    (entry : BatchEntry) (h : H) : EntryCompletion * H :=
  match task_at (wb_payload batch) (be_payload_index entry) with
  | Ok task =>
      if decide (t_task_id task = be_task_id entry) then
        let '(result, h) := handler task h in (entry_completion entry result, h)
      else (entry_completion entry (Err (runtime_error ERR_TASK_CLAIM_CONFLICT "runtime.sdk"
              ("batch.entry." +:+ be_entry_id entry +:+ ".payload_task_id"))), h)
  | Err error => (entry_completion entry (Err error), h)
  end.

Fixpoint map_work_entries {H : Type} (handler : Task → H → RuntimeResult RunnerResult * H) (batch : WorkBatch)
    (entries : list BatchEntry) (h : H) : list EntryCompletion * H :=
  match entries with
  | [] => ([], h)
  | entry :: entries =>
      let '(completion, h) := map_work_entry handler batch entry h in
      let '(completions, h) := map_work_entries handler batch entries h in
      (completion :: completions, h)
  end.

Definition map_work_batch_entries {H : Type} (handler : Task → H → RuntimeResult RunnerResult * H) (batch : WorkBatch) (h : H) :
    RuntimeResult CompletionBatch * H :=
  let '(results, h) := map_work_entries handler batch (wb_entries batch) h in
  (Ok (from_results batch results), h).

(** [RuntimeClient::submit_one] over the client's [submit_batch] *)
Definition submit_one {C : Type} (submit_batch : TaskBatch → C → RuntimeResult (list TaskHandle) * C) (task : Task) (c : C) :
    RuntimeResult TaskHandle * C :=
  match submit_batch (TaskBatch_one ("sdk.submit." +:+ t_task_id task) task) c with
  | (Ok (handle :: _), c) => (Ok handle, c)
  | (Ok [], c) => (Err (runtime_error ERR_TASK_CLAIM_CONFLICT "runtime.sdk" "task.submit_one.empty"), c)
  | (Err error, c) => (Err error, c)
  end.
End Calls.

(** ** An async runner does what the function would do if its calls blocked *)

Section Blocking.
Context `{SJ : SerdeJson}.
Context {Factory : Type}.
Variable factory : AsyncRunnerContext → Task → Factory → AsyncProgram * Factory.
(** The final outcome of every child *)
Variable answer : TaskHandle → RuntimeResult TaskOutcome.
Implicit Types (p : AsyncProgram) (self : @TaskAwaitRunnerAdapter _ Factory).

(** The children a function submits and what it returns when every call blocks
    until its outcome is there *)
Fixpoint blocking (ctx : AsyncRunnerContext) (p : AsyncProgram) (next_call : N) :
    option (list Task * RuntimeResult RunnerResult) :=
  match p with
  | Return result => Some ([], result)
  | External _ => Some ([], Err (external_pending (ax_current_runner_id ctx)))
  | Await request k =>
      match crq_payload request with
      | Err text => blocking ctx (k (Err (serialize_error text))) next_call
      | Ok payload =>
          if decide (next_call < u64_max)%N then
            let call_index := (next_call + 1)%N in
            if self_call_blocked ctx request then
              blocking ctx (k (Err (self_call_error (ax_parent_task_id ctx)))) call_index
            else
              match blocking ctx (k (answer (child_handle ctx request call_index))) call_index with
              | Some (tasks, result) => Some (child_task ctx request payload call_index :: tasks, result)
              | None => None
              end
          else None
      end
  end.

(** The client knows a final outcome or none yet. *)
Definition consistent (outcomes : Outcomes) : Prop :=
  ∀ h, outcomes h = Ok None ∨ outcomes h = match answer h with Ok o => Ok (Some o) | Err e => Err e end.
Definition all_known (outcomes : Outcomes) : Prop :=
  ∀ h, outcomes h = match answer h with Ok o => Ok (Some o) | Err e => Err e end.

(** The function waits for a child, and would submit [tasks] and return
    [result] from here. *)
Definition suspended (body : AsyncBody) (tasks : list Task) (result : RuntimeResult RunnerResult) : Prop :=
  ∃ h k, ab_state body = InCall (MkCallFuture (ax_parent_task_id (ab_ctx body)) (CallSubmitted h) false) k ∧
    blocking (ab_ctx body) (k (answer h)) (ab_next_call body) = Some (tasks, result).

(** What one poll makes of it: it is over, or the next child is submitted, or
    the child it waits for is not done yet *)
Definition polls_to (outcomes : Outcomes) (ctx : AsyncRunnerContext)
    (polled : option (Poll (RuntimeResult RunnerResult) * AsyncBody * option PendingAwait))
    (tasks : list Task) (result : RuntimeResult RunnerResult) : Prop :=
  ∃ poll body pending, polled = Some (poll, body, pending) ∧ ab_ctx body = ctx ∧
    match poll, pending with
    | PollReady result', _ => tasks = [] ∧ result' = result
    | PollPending, None => tasks = [] ∧ result = Err (external_pending (ax_current_runner_id ctx))
    | PollPending, Some pa =>
        (∃ t rest, pa_task pa = Some t ∧ tasks = t :: rest ∧ suspended body rest result) ∨
        (pa_task pa = None ∧ suspended body tasks result ∧ ¬ all_known outcomes)
    end.

Lemma resume_blocking outcomes ctx p next_call tasks result :
  blocking ctx p next_call = Some (tasks, result) →
  polls_to outcomes ctx (resume ctx outcomes p next_call None) tasks result.
Proof.
  revert next_call tasks. induction p as [r|request k IH|p _]; intros next_call tasks; cbn.
  - intros [= <- <-]. by eexists _, _, _.
  - unfold ctx_call. destruct (crq_payload request) as [payload|text]; [|cbn; apply IH].
    unfold call_with_runner_hint. case_decide as Hn; [|done]. unfold call_poll. cbn.
    destruct (self_call_blocked ctx request); [apply IH|].
    destruct (blocking _ _ _) as [[ts r]|] eqn:Hb; [|done]. intros [= <- <-].
    eexists _, _, _. split; [done|]. split; [done|]. cbn. left. eexists _, ts. split; [done|]. split; [done|].
    by eexists _, _.
  - intros [= <- <-]. by eexists _, _, _.
Qed.

Lemma suspended_polls outcomes body tasks result :
  consistent outcomes → suspended body tasks result →
  polls_to outcomes (ab_ctx body) (body_poll outcomes body None) tasks result.
Proof.
  intros Hcon (h & k & Hst & Hb). unfold body_poll. rewrite Hst. unfold call_poll. cbn.
  destruct (Hcon h) as [Hh|Hh]; rewrite Hh.
  - eexists _, _, _. split; [done|]. split; [done|]. right. split; [done|]. split; [by eexists _, _|].
    intros Hall. specialize (Hall h). rewrite Hh in Hall. by destruct (answer h).
  - pose proof (resume_blocking outcomes _ _ _ _ _ Hb) as Hr. by destruct (answer h).
Qed.

(** ** Runs of one task *)

(** The task is run once for every context and what the client then knows,
    until its function is no longer kept: the children submitted, and the last
    result. *)
Fixpoint run_task (task : Task) (runs : list (RunnerContext * Outcomes)) self :
    option (list Task * option (RuntimeResult RunnerResult) * @TaskAwaitRunnerAdapter _ Factory) :=
  match runs with
  | [] => Some ([], None, self)
  | (ctx, outcomes) :: runs =>
      match run_one factory outcomes ctx task self with
      | None => None
      | Some (result, self) =>
          match ad_invocations self !! t_task_id task with
          | None => Some ([], Some result, self)
          | Some _ =>
              match run_task task runs self with
              | Some (tasks, last, self) =>
                  Some ((match result with Ok result => rres_tasks result | Err _ => [] end) ++ tasks, last, self)
              | None => None
              end
          end
      end
  end.

(** The function of the task waits with [tasks] and [result] ahead. *)
Definition task_suspended (task : Task) self (tasks : list Task) (result : RuntimeResult RunnerResult) : Prop :=
  ∃ inv, ad_invocations self !! t_task_id task = Some inv ∧ suspended (inv_body inv) tasks result ∧
    ax_current_runner_id (ab_ctx (inv_body inv)) = d_runner_id (ad_descriptor self).

Lemma remove_gone task_id self : ad_invocations (remove_invocation_by_task task_id self) !! task_id = None.
Proof.
  unfold remove_invocation_by_task. destruct (ad_invocations self !! task_id) eqn:E; [|done]. cbn. by rewrite lookup_delete_eq.
Qed.

Lemma track_same task_id invocation_id self :
  ad_invocations (track_invocation task_id invocation_id self) = ad_invocations self ∧
  ad_descriptor (track_invocation task_id invocation_id self) = ad_descriptor self.
Proof. unfold track_invocation. by case_decide. Qed.

(** One run, whatever point the function is at *)
Definition runs_to outcomes (task : Task) (ran : option (RuntimeResult RunnerResult * @TaskAwaitRunnerAdapter _ Factory))
    (tasks : list Task) (result : RuntimeResult RunnerResult) : Prop :=
  ∃ result' self', ran = Some (result', self') ∧
    ((ad_invocations self' !! t_task_id task = None ∧ tasks = [] ∧ result' = result) ∨
     (∃ t rest w, result' = Ok w ∧ rres_status w = StatusWaiting ∧ rres_tasks w = [t] ∧ tasks = t :: rest ∧ task_suspended task self' rest result) ∨
     (∃ w, result' = Ok w ∧ rres_status w = StatusWaiting ∧ rres_tasks w = [] ∧ task_suspended task self' tasks result ∧ ¬ all_known outcomes)).

Lemma poll_runs outcomes ctx task self inv tasks result :
  ad_invocations (ensure_invocation factory task self) !! t_task_id task = Some inv →
  ax_current_runner_id (ab_ctx (inv_body inv)) = d_runner_id (ad_descriptor (ensure_invocation factory task self)) →
  polls_to outcomes (ab_ctx (inv_body inv)) (body_poll outcomes (inv_body inv) None) tasks result →
  runs_to outcomes task (run_one factory outcomes ctx task self) tasks result.
Proof.
  intros Hinv Hid (poll & body & pending & Hpoll & Hctx & Hcase). unfold run_one.
  set (s1 := track_invocation _ _ _). destruct (track_same (t_task_id task) (rc_invocation_id ctx) (ensure_invocation factory task self)) as [E1 E2].
  fold s1 in E1, E2. rewrite E1, Hinv, Hpoll. clearbody s1. destruct poll as [r|].
  - destruct Hcase as [-> ->]. eexists _, _. split; [done|]. left. split; [apply remove_gone|done].
  - destruct pending as [pa|].
    + eexists _, _. split; [done|]. right.
      assert (∀ ts, suspended body ts result → task_suspended task
        (s1 <| ad_invocations ::= <[t_task_id task := MkAsyncInvocation body None]> |>) ts result) as Hsus.
      { intros ts Hts. exists (MkAsyncInvocation body None). cbn. rewrite lookup_insert_eq. split; [done|]. split; [done|].
        by rewrite Hctx, Hid, E2. }
      destruct Hcase as [(t & rest & Ht & -> & Hs)|(Ht & Hs & Hn)]; [left|right].
      * eexists t, rest, _. split; [done|]. split; [done|]. cbn. rewrite Ht. split; [done|]. split; [done|]. by apply Hsus.
      * eexists _. split; [done|]. split; [done|]. cbn. rewrite Ht. split; [done|]. split; [by apply Hsus|done].
    + destruct Hcase as [-> ->]. eexists _, _. split; [done|]. left. split; [apply remove_gone|]. split; [done|].
      cbn. by rewrite Hid, E2.
Qed.

Lemma suspended_runs outcomes ctx task self tasks result :
  consistent outcomes → task_suspended task self tasks result →
  runs_to outcomes task (run_one factory outcomes ctx task self) tasks result.
Proof.
  intros Hcon (inv & Hinv & Hs & Hid). assert (ensure_invocation factory task self = self) as E.
  { unfold ensure_invocation. by rewrite Hinv. }
  apply (poll_runs outcomes ctx task self inv); rewrite ?E; [done|done|]. by apply suspended_polls.
Qed.

(** What a sequence of runs makes of a task with [tasks] and [result] ahead *)
Definition task_runs_to (task : Task) (runs : list (RunnerContext * Outcomes)) self (tasks : list Task)
    (result : RuntimeResult RunnerResult) : Prop :=
  ∃ submitted last self', run_task task runs self = Some (submitted, last, self') ∧
    match last with
    | Some result' => submitted = tasks ∧ result' = result
    | None => submitted `prefix_of` tasks
    end ∧
    (Forall (λ run, all_known run.2) runs → length tasks < length runs → last ≠ None).

Lemma no_runs_to task self tasks result : task_runs_to task [] self tasks result.
Proof. eexists _, _, _. split; [done|]. split; [apply prefix_nil|]. cbn. lia. Qed.

(** The first run of a sequence *)
Lemma first_run_to ctx outcomes task runs self tasks result :
  runs_to outcomes task (run_one factory outcomes ctx task self) tasks result →
  (∀ self' rest, task_suspended task self' rest result → task_runs_to task runs self' rest result) →
  task_runs_to task ((ctx, outcomes) :: runs) self tasks result.
Proof.
  intros (r & s1 & Hrun & Hcase) Hrest. unfold task_runs_to. cbn [run_task]. rewrite Hrun.
  destruct Hcase as [(-> & -> & ->)|[(t & rest & w & -> & _ & Hw & -> & Hs1)|(w & -> & _ & Hw & Hs1 & Hn)]].
  - by eexists _, _, _.
  - pose proof Hs1 as (inv & -> & _). destruct (Hrest s1 rest Hs1) as (sub & last & s2 & -> & Hsub & Hprog).
    eexists _, _, _. split; [done|]. rewrite Hw. cbn. split.
    + destruct last; [destruct Hsub as [-> ->]; done|by apply prefix_cons].
    + intros [_ Hall]%Forall_cons Hlen. apply Hprog; [done|lia].
  - pose proof Hs1 as (inv & -> & _). destruct (Hrest s1 tasks Hs1) as (sub & last & s2 & -> & Hsub & Hprog).
    eexists _, _, _. split; [done|]. rewrite Hw. cbn. split; [done|]. by intros [? _]%Forall_cons.
Qed.

(** From a point where the function waits, over any further runs *)
Lemma run_task_suspended task runs self tasks result :
  Forall (λ run, consistent run.2) runs → task_suspended task self tasks result → task_runs_to task runs self tasks result.
Proof.
  intros Hcon. revert self tasks. induction Hcon as [|[ctx outcomes] runs Hc _ IH]; intros self tasks Hs; [apply no_runs_to|].
  apply first_run_to; [by apply suspended_runs|done].
Qed.

Lemma child_id_inj ctx : Inj (=) (=) (child_id ctx).
Proof. intros i j Hij. unfold child_id in Hij. by do 2 apply (inj (String.append _)) in Hij; apply (inj pretty) in Hij. Qed.

Lemma blocking_ids ctx p next_call tasks result :
  blocking ctx p next_call = Some (tasks, result) →
  NoDup (t_task_id <$> tasks) ∧ ∀ id, id ∈ t_task_id <$> tasks → ∃ j, (next_call < j)%N ∧ id = child_id ctx j.
Proof.
  revert next_call tasks result. induction p as [r|request k IH|p _]; intros next_call tasks result; cbn.
  - intros [= <- _]. split; [constructor|set_solver].
  - destruct (crq_payload request) as [payload|text]; [|apply IH]. case_decide; [|done]. destruct (self_call_blocked ctx request).
    + intros [Hnd Hids]%IH. split; [done|]. intros id Hid. destruct (Hids id Hid) as (j & Hj & ->). exists j. split; [lia|done].
    + destruct (blocking _ _ _) as [[ts r]|] eqn:Hb; [|done]. intros [= <- _]. apply IH in Hb as [Hnd Hids]. cbn. split.
      * constructor; [|done]. intros Hin. destruct (Hids _ Hin) as (j & Hj & Heq). apply (child_id_inj ctx) in Heq. lia.
      * intros id [->|Hid]%elem_of_cons; [exists (next_call + 1)%N; split; [lia|done]|].
        destruct (Hids id Hid) as (j & Hj & ->). exists j. split; [lia|done].
  - intros [= <- _]. split; [constructor|set_solver].
Qed.

(** C23: an async runner does what its function would do with calls that block.
    Take the children the function would submit and the result it would return
    if every call blocked until the final outcome of its child.  However often
    the task is run, and whatever part of these outcomes the client knows at
    each run, the adapter never panics, submits these children in this order,
    each once and under its own id, and when it is done it has submitted all of
    them and returns that result; and it is done after at most one run more than
    there are children when the client knows every outcome it is asked for. *)
Theorem async_runner_as_blocking task self runs p f tasks result :
  ad_invocations self !! t_task_id task = None →
  factory (async_context self task) task (ad_factory self) = (p, f) →
  blocking (async_context self task) p 0 = Some (tasks, result) →
  Forall (λ run, consistent run.2) runs →
  NoDup (t_task_id <$> tasks) ∧
  ∃ submitted last self', run_task task runs self = Some (submitted, last, self') ∧
    match last with
    | Some result' => submitted = tasks ∧ result' = result
    | None => submitted `prefix_of` tasks
    end ∧
    (Forall (λ run, all_known run.2) runs → length tasks < length runs → last ≠ None).
Proof.
  intros Hnone Hf Hb Hcon. split; [by eapply blocking_ids|]. destruct Hcon as [|[ctx outcomes] runs Hc Hcon]; [apply no_runs_to|].
  apply first_run_to; [|by intros self' rest; apply run_task_suspended].
  apply (poll_runs outcomes ctx task self (MkAsyncInvocation (MkAsyncBody (async_context self task) 0 (AtProgram p)) None)).
  - unfold ensure_invocation. rewrite Hnone, Hf. cbn. by rewrite lookup_insert_eq.
  - unfold ensure_invocation. by rewrite Hnone, Hf.
  - by apply resume_blocking.
Qed.

(** ** Bookkeeping *)

(** Every known invocation belongs to a task whose function is kept. *)
Definition tracked self : Prop := ∀ i t, ad_invocation_tasks self !! i = Some t → is_Some (ad_invocations self !! t).

Lemma remove_tracked task_id self : tracked self → tracked (remove_invocation_by_task task_id self).
Proof.
  intros Ht. unfold remove_invocation_by_task. case_match; [|done]. intros i t. cbn.
  intros [Hi Hne]%map_lookup_filter_Some. rewrite lookup_delete_ne by done. by eapply Ht.
Qed.

Lemma run_one_tracked outcomes ctx task self result self' :
  tracked self → run_one factory outcomes ctx task self = Some (result, self') → tracked self'.
Proof.
  intros Ht. unfold run_one. set (s1 := track_invocation _ _ _).
  assert (tracked (ensure_invocation factory task self) ∧ is_Some (ad_invocations (ensure_invocation factory task self) !! t_task_id task)) as [H1 H2].
  { unfold ensure_invocation. destruct (ad_invocations self !! t_task_id task) eqn:E; [by rewrite E|].
    destruct (factory _ _ _). cbn. rewrite lookup_insert_eq. split; [|by eexists]. intros i t Hi. cbn in *.
    destruct (decide (t = t_task_id task)) as [->|Hne]; [rewrite lookup_insert_eq; by eexists|].
    rewrite lookup_insert_ne by done. by eapply Ht. }
  assert (tracked s1) as H3.
  { subst s1. unfold track_invocation. case_decide; [done|]. intros i t. cbn.
    intros [[<- <-]|[_ Hi]]%lookup_insert_Some; [done|by eapply H1]. }
  destruct (ad_invocations s1 !! t_task_id task) as [inv|] eqn:Hinv; [|done].
  assert (∀ body, tracked (s1 <| ad_invocations ::= <[t_task_id task := body]> |>)) as H4.
  { intros body i t Hi. cbn in *. destruct (decide (t = t_task_id task)) as [->|Hne]; [rewrite lookup_insert_eq; by eexists|].
    rewrite lookup_insert_ne by done. by eapply H3. }
  repeat case_match; try done; intros; simplify_eq; try apply remove_tracked; done.
Qed.

Lemma cancel_tracked invocation_id self : tracked self → tracked (adapter_cancel invocation_id self).
Proof. intros Ht. unfold adapter_cancel. repeat case_match; try done; by apply remove_tracked. Qed.
End Blocking.

(** ** Batches *)

Section Batches.
Context `{ST : SerdeTypes}.
Context {Factory : Type}.
Variable factory : AsyncRunnerContext → Task → Factory → AsyncProgram * Factory.

(** A batch is answered entry by entry, in the order of its entries, by the
    adapter and by plain runners. *)
Definition answers (batch : WorkBatch) (results : list EntryCompletion) : Prop :=
  (λ c, (ec_entry_id c, ec_task_id c)) <$> results = (λ e, (be_entry_id e, be_task_id e)) <$> wb_entries batch ∧
  Forall (λ c, is_Some (ec_result c) ↔ ec_error c = None) results.

Lemma entry_completion_of entry result :
  (ec_entry_id (entry_completion entry result), ec_task_id (entry_completion entry result)) =
    (be_entry_id entry, be_task_id entry) ∧
  (is_Some (ec_result (entry_completion entry result)) ↔ ec_error (entry_completion entry result) = None).
Proof.
  destruct result; cbn; (split; [done|]); [split; [done|by eexists]|]. split; [by intros [? [=]]|done].
Qed.

Lemma adapter_run_batch_answers outcomes ctx batch self completion self' :
  adapter_run_batch factory outcomes ctx batch self = Some (completion, self') →
  ∃ results, completion = Ok (from_results batch results) ∧ answers batch results.
Proof.
  unfold adapter_run_batch, answers. generalize (wb_entries batch). intros entries.
  destruct (adapter_run_entries _ _ _ _ _ _) as [[results s]|] eqn:E; [|done]. intros [= <- _].
  exists results. split; [done|]. revert self results s E. induction entries as [|entry entries IH]; intros self results s; cbn.
  - intros [= <- _]. by split.
  - destruct (adapter_run_entry _ _ _ _ _ _) as [[c s1]|] eqn:Ec; [|done].
    destruct (adapter_run_entries _ _ _ _ _ s1) as [[cs s2]|] eqn:Ecs; [|done]. intros [= <- _].
    destruct (IH _ _ _ Ecs) as [IH1 IH2]. cbn. rewrite IH1.
    assert (∃ result, c = entry_completion entry result) as [result ->].
    { unfold adapter_run_entry in Ec. repeat case_match; simplify_eq; by eexists. }
    destruct (entry_completion_of entry result) as [-> ?]. split; [done|]. by constructor.
Qed.

Lemma map_work_batch_answers {H : Type} (handler : Task → H → RuntimeResult RunnerResult * H) batch h :
  ∃ results h', map_work_batch_entries handler batch h = (Ok (from_results batch results), h') ∧ answers batch results.
Proof.
  unfold map_work_batch_entries, answers. generalize (wb_entries batch). intros entries.
  destruct (map_work_entries _ _ _ _) as [results h'] eqn:E. exists results, h'. split; [done|].
  revert h results h' E. induction entries as [|entry entries IH]; intros h results h'; cbn.
  - intros [= <- _]. by split.
  - destruct (map_work_entry _ _ _ _) as [c h1] eqn:Ec. destruct (map_work_entries _ _ _ h1) as [cs h2] eqn:Ecs. intros [= <- _].
    destruct (IH _ _ _ Ecs) as [IH1 IH2]. cbn. rewrite IH1.
    assert (∃ result, c = entry_completion entry result) as [result ->].
    { unfold map_work_entry in Ec. repeat case_match; simplify_eq; by eexists. }
    destruct (entry_completion_of entry result) as [-> ?]. split; [done|]. by constructor.
Qed.
End Batches.

(** ** A concrete runner *)

(** It calls two tasks, one after the other, and returns the output of the
    second; its second run finds the first child not done. *)
Definition demo_returns (output : option Value) : RunnerResult :=
  {| rres_task_id := "a"; rres_output := output; rres_deltas := []; rres_events := []; rres_tasks := [];
     rres_effects := []; rres_values := []; rres_resources := []; rres_task_await := None; rres_status := StatusCompleted |}.
Definition demo_program : AsyncProgram :=
  Await (call_of "demo.left" (Ok "1")) (λ _,
  Await (call_targeted "bind" "demo.right" "other" (Ok "2")) (λ outcome,
  Return (match outcome with
          | Ok (OutcomeCompleted id output _) => Ok (demo_returns output)
          | Ok _ => Ok (demo_returns None)
          | Err error => Err error
          end))).
Definition demo_factory (_ : AsyncRunnerContext) (_ : Task) (made : nat) : AsyncProgram * nat := (demo_program, S made).
Definition demo_adapter : TaskAwaitRunnerAdapter := TaskAwaitRunnerAdapter_new (core_kernel_descriptor 1) 0.
Definition demo_parent (id : string) : Task := Task_new id "demo.parent" (PayloadJson "x").
Definition demo_answer (h : TaskHandle) : RuntimeResult TaskOutcome :=
  Ok (OutcomeCompleted (h_task_id h) (Some (h_task_id h)) None).
Definition demo_ready : Outcomes := λ h, Ok (Some (OutcomeCompleted (h_task_id h) (Some (h_task_id h)) None)).
Definition demo_unready : Outcomes := λ _, Ok None.
Definition demo_invocation (id : string) : RunnerContext := RunnerContext_new 1 1 "executor" [] id.
Definition demo_runs : list (RunnerContext * Outcomes) :=
  [(demo_invocation "i1", demo_unready); (demo_invocation "i2", demo_unready);
   (demo_invocation "i3", demo_ready); (demo_invocation "i4", demo_ready)].
Definition demo_context : AsyncRunnerContext := async_context demo_adapter (demo_parent "a").
Definition demo_children : list Task :=
  [child_task demo_context (call_of "demo.left" (Ok "1")) "1" 1;
   child_task demo_context (call_targeted "bind" "demo.right" "other" (Ok "2")) "2" 2].
Definition demo_result : RuntimeResult RunnerResult := Ok (demo_returns (Some "a:call:2")).

Example demo_runs_exact :
  (λ '(tasks, last, _), (tasks, last)) <$> run_task demo_factory (demo_parent "a") demo_runs demo_adapter =
  Some (demo_children, Some demo_result).
Proof. reflexivity. Qed.

Lemma async_runner_as_blocking_witness :
  NoDup (t_task_id <$> demo_children) ∧
  ∃ submitted last self', run_task demo_factory (demo_parent "a") demo_runs demo_adapter = Some (submitted, last, self') ∧
    match last with
    | Some result' => submitted = demo_children ∧ result' = demo_result
    | None => submitted `prefix_of` demo_children
    end ∧
    (Forall (λ run, all_known demo_answer run.2) demo_runs → length demo_children < length demo_runs → last ≠ None).
Proof.
  apply (async_runner_as_blocking demo_factory demo_answer (demo_parent "a") demo_adapter demo_runs demo_program 1
    demo_children demo_result).
  - reflexivity.
  - reflexivity.
  - reflexivity.
  - unfold demo_runs. repeat constructor; intros h; cbn; first [by left|by right].
Defined.

(** ** Cancelling a batch *)

Definition demo_entry (i : N) (id : string) : BatchEntry :=
  {| be_entry_id := id; be_task_id := id; be_trace_id := None; be_parent_id := None; be_payload_index := i;
     be_resource_requirement_indices := []; be_cancel_index := None; be_deadline_tick := None; be_priority := 0;
     be_lane := LaneNormal; be_ordering := OrderingNone |}.
Definition demo_pair : WorkBatch :=
  {| wb_batch_id := "b"; wb_tick_id := "t"; wb_batch_key := "k"; wb_entries := [demo_entry 0 "x"; demo_entry 1 "y"];
     wb_payload := from_local_tasks [demo_parent "x"; demo_parent "y"]; wb_resource_plan := WorkResourcePlan_empty;
     wb_task_leases := [] |}.

(** Both entries of a batch run under one invocation id, and the adapter keeps
    one task per invocation id: cancelling the invocation drops the function of
    the entry polled last, and the other one stays. *)
Theorem cancel_keeps_first_entry `{ST : !SerdeTypes} :
  match adapter_run_batch demo_factory demo_unready (demo_invocation "i") demo_pair demo_adapter with
  | Some (Ok _, self) =>
      is_Some (ad_invocations self !! "x") ∧ is_Some (ad_invocations self !! "y") ∧
      is_Some (ad_invocations (adapter_cancel "i" self) !! "x") ∧
      ad_invocations (adapter_cancel "i" self) !! "y" = None ∧
      adapter_cancel "i" (adapter_cancel "i" self) = adapter_cancel "i" self
  | _ => False
  end.
Proof. vm_compute. repeat split; by eexists. Qed.
