(* ===== verification/SdkPlugin.v ===== *)
(** * Plugins and clients behind the native ABI

    crates/mutsuki-runtime-sdk/src/abi/ (guests, dispatch of callbacks, clients
    of the host, call results) and plugin.rs, and the typed clients of
    crates/mutsuki-runtime-host/src/abi_transport.rs and clients/.

    A trait object of the resource and task gateways is a record of its methods
    over the state they share.  A call is bytes both ways: the theorems show that
    a call through the binary codec is the call without it.  Text written by
    derived [Debug] and by serde_json is a parameter ([AbiText]). *)

From Stdlib Require Import Strings.String.
From S2P Require Import Prelude Contracts RunnerContracts BatchContracts PluginContracts DemoJson Registry RuntimeState RuntimeTasks WireBytes WireProtocol MsgPack WireFrame WireOperations WireBinary WireJsonl HostErrors ResolverPlugins HostActor.

(** ** Gateways *)

Section Gateways.
Context `{SJ : !SerdeJson}.
Implicit Types S : Type.

(** [dyn ResourcePlanGateway] *)
Record ResourcePlanGateway S : Type := MkResourcePlanGateway {
  gw_collect_read_plan : ReadPlan → M S (RuntimeResult (list byte));
  gw_snapshot_read_plan : ReadPlan → string → string → M S (RuntimeResult SnapshotDescriptor);
  gw_open_stream_plan : ReadPlan → M S (RuntimeResult StreamPlan);
  gw_execute_export_plan : ExportPlan → M S (RuntimeResult PlanReceipt);
  gw_commit_write_plan : WritePlan → list byte → M S (RuntimeResult PlanReceipt);
  gw_execute_command_plan : CommandPlan → M S (RuntimeResult PlanReceipt);
  gw_execute_command_batch : CommandBatch → M S (RuntimeResult (list PlanReceipt));
  gw_execute_saga_plan : SagaPlan → M S (RuntimeResult (list PlanReceipt))
}.
#[global] Arguments MkResourcePlanGateway {S}.
#[global] Arguments gw_collect_read_plan {S}.
#[global] Arguments gw_snapshot_read_plan {S}.
#[global] Arguments gw_open_stream_plan {S}.
#[global] Arguments gw_execute_export_plan {S}.
#[global] Arguments gw_commit_write_plan {S}.
#[global] Arguments gw_execute_command_plan {S}.
#[global] Arguments gw_execute_command_batch {S}.
#[global] Arguments gw_execute_saga_plan {S}.

(** [dyn ResourceProviderGateway] *)
Record ResourceProviderGateway S : Type := MkResourceProviderGateway {
  gw_plans : ResourcePlanGateway S;
  gw_create_blob_resource : string → list byte → M S (RuntimeResult ResourceRef);
  gw_create_cow_state_resource : string → string → list byte → M S (RuntimeResult ResourceRef);
  gw_create_capability_resource : string → string → M S (RuntimeResult ResourceRef)
}.
#[global] Arguments MkResourceProviderGateway {S}.
#[global] Arguments gw_plans {S}.
#[global] Arguments gw_create_blob_resource {S}.
#[global] Arguments gw_create_cow_state_resource {S}.
#[global] Arguments gw_create_capability_resource {S}.

(** [dyn TaskSubmitter] *)
Record TaskSubmitter S : Type := MkTaskSubmitter {
  ts_submit_batch : TaskBatch → M S (RuntimeResult (list TaskHandle));
  ts_cancel_task : TaskHandle → M S (RuntimeResult unit);
  ts_task_outcome : TaskHandle → M S (RuntimeResult (option TaskOutcome))
}.
#[global] Arguments MkTaskSubmitter {S}.
#[global] Arguments ts_submit_batch {S}.
#[global] Arguments ts_cancel_task {S}.
#[global] Arguments ts_task_outcome {S}.

(** [TypedRequestTransport::request] *)
Definition TypedRequest S : Type := ∀ opcode, request_type opcode → M S (RuntimeResult (response_type opcode)).

(** The clients that turn calls into requests: [TransportResourceProvider] names
    its provider, the clients of the host leave the route to it. *)
Definition transport_plans {S} (request : TypedRequest S) (provider_id : option string) : ResourcePlanGateway S := {|
  gw_collect_read_plan plan := request OpResourceReadCollect (MkCollectReadPlanRequest provider_id plan);
  gw_snapshot_read_plan plan kind_id schema :=
    request OpResourceReadSnapshot (MkSnapshotReadPlanRequest provider_id plan kind_id schema);
  gw_open_stream_plan plan := request OpResourceStreamOpen (MkOpenStreamPlanRequest provider_id plan);
  gw_execute_export_plan plan := request OpResourceExport (MkExportPlanRequest provider_id plan);
  gw_commit_write_plan plan bytes := request OpResourceWriteCommit (MkCommitWritePlanRequest provider_id plan bytes);
  gw_execute_command_plan plan := request OpResourceCommand (MkCommandPlanRequest provider_id plan);
  gw_execute_command_batch batch := request OpResourceCommandBatch (MkCommandBatchRequest provider_id batch);
  gw_execute_saga_plan saga := request OpResourceSaga (MkSagaPlanRequest provider_id saga)
|}.

Definition TransportResourceProvider {S} (request : TypedRequest S) (provider_id : string) : ResourceProviderGateway S := {|
  gw_plans := transport_plans request (Some provider_id);
  gw_create_blob_resource schema bytes := request OpResourceCreateBlob (MkCreateBlobRequest (Some provider_id) schema bytes);
  gw_create_cow_state_resource kind_id schema bytes :=
    request OpResourceCreateCowState (MkCreateCowStateRequest (Some provider_id) kind_id schema bytes);
  gw_create_capability_resource kind_id schema :=
    request OpResourceCreateCapability (MkCreateCapabilityRequest (Some provider_id) kind_id schema)
|}.

(** [AbiResourceClient] and [AbiTaskClient] *)
Definition AbiResourceClient {S} (request : TypedRequest S) : ResourcePlanGateway S := transport_plans request None.
Definition AbiTaskClient {S} (request : TypedRequest S) : TaskSubmitter S := {|
  ts_submit_batch batch := request OpTaskSubmitBatch (MkSubmitTaskBatchRequest batch);
  ts_cancel_task handle := request OpTaskCancel (MkCancelTaskRequest handle);
  ts_task_outcome handle := request OpTaskOutcome (MkTaskOutcomeRequest handle)
|}.

(** [TransportRunner] *)
Definition transport_run_batch {S} (request : TypedRequest S) (descriptor : RunnerDescriptor) (ctx : RunnerContext)
    (batch : WorkBatch) : M S (RuntimeResult CompletionBatch) :=
  if decide (l_lease_id <$> wb_task_leases batch = rc_task_lease_ids ctx) then
    request OpRunnerRunBatch (MkRunBatchRequest (d_runner_id descriptor) ctx batch)
  else ret (Err (runtime_error ERR_TASK_CLAIM_CONFLICT "abi.runner" ("runner.run_batch." +:+ wb_batch_id batch))).
Definition transport_cancel {S} (request : TypedRequest S) (descriptor : RunnerDescriptor) (invocation_id : string) :
    M S (RuntimeResult unit) := request OpRunnerCancel (MkCancelRunnerRequest (d_runner_id descriptor) invocation_id).
Definition transport_dispose {S} (request : TypedRequest S) (descriptor : RunnerDescriptor) : M S (RuntimeResult unit) :=
  request OpRunnerDispose (MkDisposeRunnerRequest (d_runner_id descriptor)).

(** ** Local clients (clients/local.rs) *)

Definition LocalResourceClient (S : Type) : Type := gmap string (ResourceProviderGateway S).

Definition local_provider {S} (self : LocalResourceClient S) (provider_id : string) {A}
    (call : ResourcePlanGateway S → M S (RuntimeResult A)) : M S (RuntimeResult A) :=
  match self !! provider_id with
  | Some provider => call (gw_plans provider)
  | None => ret (Err (resource_provider_missing provider_id))
  end.

Definition local_commands {S} (self : LocalResourceClient S) (commands : list CommandPlan) {A}
    (call : ResourcePlanGateway S → M S (RuntimeResult A)) : M S (RuntimeResult A) :=
  match single_command_provider commands with
  | Ok provider_id => local_provider self provider_id call
  | Err error => ret (Err error)
  end.

Definition local_plans {S} (self : LocalResourceClient S) : ResourcePlanGateway S := {|
  gw_collect_read_plan plan := local_provider self (rr_provider_id (rp_resource plan)) (λ p, gw_collect_read_plan p plan);
  gw_snapshot_read_plan plan kind_id schema :=
    local_provider self (rr_provider_id (rp_resource plan)) (λ p, gw_snapshot_read_plan p plan kind_id schema);
  gw_open_stream_plan plan := local_provider self (rr_provider_id (rp_resource plan)) (λ p, gw_open_stream_plan p plan);
  gw_execute_export_plan plan := local_provider self (rr_provider_id (xp_resource plan)) (λ p, gw_execute_export_plan p plan);
  gw_commit_write_plan plan bytes :=
    local_provider self (rr_provider_id (wp_resource plan)) (λ p, gw_commit_write_plan p plan bytes);
  gw_execute_command_plan plan := local_provider self (rr_provider_id (cp_capability plan)) (λ p, gw_execute_command_plan p plan);
  gw_execute_command_batch batch := local_commands self (cmb_commands batch) (λ p, gw_execute_command_batch p batch);
  gw_execute_saga_plan saga := local_commands self (sg_steps saga ++ sg_compensations saga) (λ p, gw_execute_saga_plan p saga)
|}.
End Gateways.

(** [LocalTaskClient]: the core runtime itself *)
Definition LocalTaskClient `{RA : RunnerApi} : TaskSubmitter CoreRuntime := {|
  ts_submit_batch := submit_batch;
  ts_cancel_task := cancel_task_handle;
  ts_task_outcome handle core := Some (task_outcome core (h_task_id handle), core)
|}.

(** ** Results of calls (abi/types.rs)

    A buffer is a pointer, or the memory it points to, and a length. *)

Definition ABI_V2_BRIDGE_ID : string := "mutsuki.bridge.abi.binary.v2".
Definition ABI_V2_TRANSPORT_VERSION : N := 2.

Record AbiBuffer : Type := MkAbiBuffer { ab_ptr : option (list byte); ab_len : N }.

Definition AbiBuffer_empty : AbiBuffer := MkAbiBuffer None 0.
Definition AbiBuffer_from_bytes (bytes : list byte) : AbiBuffer :=
  if bool_decide (bytes = []) then AbiBuffer_empty else MkAbiBuffer (Some bytes) (len bytes).
Definition as_slice (self : AbiBuffer) : list byte :=
  if decide (ab_len self = 0%N) then [] else take (N.to_nat (ab_len self)) (default [] (ab_ptr self)).

Record AbiCallResult : Type := MkAbiCallResult { acr_status : Z; acr_payload : AbiBuffer }.
Definition AbiCallResult_ok (bytes : list byte) : AbiCallResult := MkAbiCallResult 0 (AbiBuffer_from_bytes bytes).
Definition AbiCallResult_failed (bytes : list byte) : AbiCallResult := MkAbiCallResult 1 (AbiBuffer_from_bytes bytes).

Definition abi_contract_failure {A} (route detail : string) : RuntimeResult A :=
  Err (runtime_error ERR_RUNTIME_HOST_FAILED detail route).

Definition valid_buffer (buffer : AbiBuffer) : bool :=
  (bool_decide (ab_len buffer = 0%N) && bool_decide (ab_ptr buffer = None)) ||
  (bool_decide (0 < ab_len buffer)%N && bool_decide (ab_ptr buffer ≠ None)).

(** [release] says whether the callback is there; the buffer it is called with
    comes second. *)
Definition consume_call_result (result : AbiCallResult) (release : bool) (route : string) :
    RuntimeResult (bool * list byte) * option AbiBuffer :=
  let payload := acr_payload result in
  if negb (valid_buffer payload) then (abi_contract_failure route "invalid payload pointer/length pair", None)
  else if bool_decide (0 < ab_len payload)%N && negb release then
    (abi_contract_failure route "non-empty payload is missing its release callback", None)
  else
    let bytes := as_slice payload in
    (if decide (acr_status result = 0%Z) then Ok (true, bytes)
     else if decide (acr_status result = 1%Z) then Ok (false, bytes)
     else abi_contract_failure route "invalid ABI callback status",
     if release && bool_decide (0 < ab_len payload)%N then Some payload else None).

(** The guest in its mutex: a panic while it is locked poisons it. *)
Record AbiContext (G : Type) : Type := MkAbiContext { ac_guest : G; ac_poisoned : bool }.
#[global] Arguments MkAbiContext {G}.
#[global] Arguments ac_guest {G}.
#[global] Arguments ac_poisoned {G}.

Definition guest_request {G} (request : list byte → M G (list byte)) (context : option (AbiContext G)) (buffer : AbiBuffer) :
    AbiCallResult * option (AbiContext G) :=
  match context with
  | None => (AbiCallResult_failed (list_byte_of_string "invalid ABI request pointers"), context)
  | Some guest =>
      if bool_decide (ab_ptr buffer = None) && negb (bool_decide (ab_len buffer = 0%N)) then
        (AbiCallResult_failed (list_byte_of_string "invalid ABI request pointers"), context)
      else
        let panicked := (AbiCallResult_failed (list_byte_of_string "ABI guest panicked"), Some (MkAbiContext (ac_guest guest) true)) in
        if ac_poisoned guest then panicked
        else
          match request (as_slice buffer) (ac_guest guest) with
          | Some (response, g) => (AbiCallResult_ok response, Some (MkAbiContext g false))
          | None => panicked
          end
  end.

(** ** [String::from_utf8_lossy] *)

Definition is_cont (b : byte) : bool := (128 <=? byte_val b)%N && (byte_val b <=? 191)%N.

(** How many continuation bytes follow a first byte, and the range of the first
    of them *)
Definition utf8_lead (b : byte) : option (nat * N * N) :=
  let v := byte_val b in
  if (v <=? 127)%N then Some (0%nat, 128%N, 191%N)
  else if (v <? 194)%N then None
  else if (v <=? 223)%N then Some (1%nat, 128%N, 191%N)
  else if (v =? 224)%N then Some (2%nat, 160%N, 191%N)
  else if (v =? 237)%N then Some (2%nat, 128%N, 159%N)
  else if (v <=? 239)%N then Some (2%nat, 128%N, 191%N)
  else if (v =? 240)%N then Some (3%nat, 144%N, 191%N)
  else if (v <=? 243)%N then Some (3%nat, 128%N, 191%N)
  else if (v =? 244)%N then Some (3%nat, 128%N, 143%N)
  else None.

Fixpoint cont_prefix (n : nat) (lo hi : N) (bytes : list byte) : nat :=
  match n, bytes with
  | S n, b :: bytes =>
      if ((lo <=? byte_val b) && (byte_val b <=? hi))%N then S (cont_prefix n 128 191 bytes) else 0
  | _, _ => 0
  end.

Definition replacement : list byte := byte_of <$> [239; 191; 189]%N.

Fixpoint utf8_lossy_go (fuel : nat) (bytes : list byte) : list byte :=
  match fuel, bytes with
  | S fuel, b :: rest =>
      match utf8_lead b with
      | None => replacement ++ utf8_lossy_go fuel rest
      | Some (n, lo, hi) =>
          let k := cont_prefix n lo hi rest in
          (if decide (k = n) then b :: take k rest else replacement) ++ utf8_lossy_go fuel (drop k rest)
      end
  | _, _ => []
  end.
Definition from_utf8_lossy (bytes : list byte) : string :=
  string_of_list_byte (utf8_lossy_go (length bytes) bytes).

(** ** Encoding of results (abi/error.rs) *)

Definition abi_failure (route detail : string) : RuntimeError :=
  with_evidence "detail" (ScalarString detail) (runtime_error ERR_RUNTIME_HOST_FAILED "mutsuki.runtime.abi" route).
Definition wire_failure (error : WireCodecError) : RuntimeError := abi_failure "abi.wire" (wire_error_to_string error).

(** A pure computation that can panic *)
Definition pure_call {S A} (c : M unit A) : M S A := expect (fst <$> c tt).

(** [{error:?}] and [serde_json::to_vec(&error)] *)
Class AbiText : Type := {
  wire_error_debug : WireCodecError → string;
  runtime_error_text :: JsonText RuntimeError
}.

Section Encoding.
Context `{SJ : !SerdeJson} `{JS : !JsonlSerde} `{WS : !WireSerde} `{AT : !AbiText}.

Definition quoted (text : string) : string :=
  let quote := String (Ascii.ascii_of_nat 34) EmptyString in quote +:+ text +:+ quote.

(** What a codec of responses is: [GuestResponseCodec] and [HostResponseCodec] *)
Record ResponseCodec : Type := MkResponseCodec {
  cdc_codec_id : string;
  cdc_encode : N → ∀ opcode, RuntimeResult (response_type opcode) → option (list byte)
}.

Definition encode_result (request_id : N) (opcode : Opcode) (result : RuntimeResult (response_type opcode)) : option (list byte) :=
  Some match encode_jsonl_response request_id opcode result DEFAULT_WIRE_LIMITS with
       | Ok bytes => bytes
       | Err error =>
           list_byte_of_string ("{" +:+ quoted "codec" +:+ ":" +:+ quoted DEBUG_JSONL_CODEC_ID +:+ "," +:+ quoted "wire_error" +:+ ":" +:+
             wire_error_debug error +:+ "}") ++ [byte_of 10]
       end.

Definition encode_binary_result (request_id : N) (opcode : Opcode) (result : RuntimeResult (response_type opcode)) :
    option (list byte) :=
  match encode_binary_response request_id opcode result DEFAULT_WIRE_LIMITS tt with
  | Some (Ok bytes, _) => Some bytes
  | Some (Err _, _) => Some []
  | None => None
  end.

Definition JsonlCodec : ResponseCodec := MkResponseCodec DEBUG_JSONL_CODEC_ID encode_result.
Definition BinaryCodec : ResponseCodec := MkResponseCodec BINARY_CODEC_ID encode_binary_result.

Definition error_text (error : RuntimeError) : list byte := match to_json_text error with Ok text => text | Err _ => [] end.
End Encoding.

(** ** Plugins as guests (abi/guest.rs, abi/binary_guest.rs) *)

Section Guests.
Context `{SJ : !SerdeJson} `{JS : !JsonlSerde} `{WS : !WireSerde} `{AT : !AbiText} `{RA : !RunnerApi}.
(** What the providers of a plugin share *)
Context {W : Type}.

(** What a plugin brings (plugin.rs); services and async providers are named. *)
Record LoadedPlugin : Type := MkLoadedPlugin {
  lp_manifest : PluginManifest;
  lp_runners : list Runner;
  lp_async_handlers : list AsyncHandler;
  lp_host_services : list string;
  lp_resource_providers : list (string * ResourceProviderGateway W);
  lp_async_resource_providers : list string
}.

Record PluginGuest : Type := MkPluginGuest {
  pg_manifest : PluginManifest;
  pg_runners : gmap string Runner;
  pg_providers : gmap string (ResourceProviderGateway W);
  pg_initialized : bool
}.

(** [insert(..).is_some()] for each entry *)
Fixpoint insert_unique {V} (route : string) (entries : list (string * V)) (known : gmap string V) : RuntimeResult (gmap string V) :=
  match entries with
  | [] => Ok known
  | (key, value) :: entries =>
      match known !! key with
      | Some _ => Err (abi_failure route key)
      | None => insert_unique route entries (<[ key := value ]> known)
      end
  end.

Definition PluginGuest_new (plugin : LoadedPlugin) : RuntimeResult PluginGuest :=
  if negb (bool_decide (lp_host_services plugin = [])) then
    Err (abi_failure "abi.host_service_unsupported" "ABI plugins cannot export host services")
  else
    letr? runners := insert_unique "abi.runner_duplicate"
      ((λ runner, (d_runner_id (runner_descriptor runner), runner)) <$> lp_runners plugin) ∅ in
    letr? providers := insert_unique "abi.provider_duplicate" (lp_resource_providers plugin) ∅ in
    Ok (MkPluginGuest (lp_manifest plugin) runners providers false).

(** The guest and what its providers share *)
Abbreviation G := (M (PluginGuest * W)).

Definition already_initialized : RuntimeError :=
  abi_failure "abi.already_initialized" "plugin.initialize may only be called once".
Definition not_initialized : RuntimeError :=
  abi_failure "abi.not_initialized" "plugin.initialize must precede business requests".

Definition initialized_plugin (self : PluginGuest) : InitializedPlugin :=
  {| ip_manifest := pg_manifest self; ip_resource_provider_ids := btree_elements (dom (pg_providers self)) |}.

Definition initialize (codec_id : string) (hello : ProtocolHello) : G (RuntimeResult ProtocolHelloAck) := λ '(self, w),
  if pg_initialized self then Some (Err already_initialized, (self, w))
  else
    match hello_accept hello codec_id (Some (initialized_plugin self)) with
    | Ok ack => Some (Ok ack, (MkPluginGuest (pg_manifest self) (pg_runners self) (pg_providers self) true, w))
    | Err error => Some (Err (abi_failure "abi.handshake" (wire_error_to_string error)), (self, w))
    end.

Definition with_runner {A} (runner_id : string) (call : Runner → RuntimeResult A * Runner) : G (RuntimeResult A) := λ '(self, w),
  match pg_runners self !! runner_id with
  | None => Some (Err (abi_failure "abi.runner_not_found" runner_id), (self, w))
  | Some runner =>
      let '(result, runner) := call runner in
      Some (result, (MkPluginGuest (pg_manifest self) (<[ runner_id := runner ]> (pg_runners self)) (pg_providers self)
                       (pg_initialized self), w))
  end.

Definition with_provider {A} (provider_id : option string) (call : ResourceProviderGateway W → M W (RuntimeResult A)) :
    G (RuntimeResult A) := λ '(self, w),
  match provider_id with
  | None => Some (Err (abi_failure "abi.provider_missing" "provider_id is required"), (self, w))
  | Some provider_id =>
      match pg_providers self !! provider_id with
      | None => Some (Err (abi_failure "abi.provider_not_found" provider_id), (self, w))
      | Some provider =>
          match call provider w with
          | Some (result, w) => Some (result, (self, w))
          | None => None
          end
      end
  end.

Definition guest_unsupported {A} (opcode : Opcode) : G (RuntimeResult A) :=
  ret (Err (abi_failure "abi.guest_opcode_unsupported" ("unsupported guest opcode " +:+ hex16 (opcode_u16 opcode)))).

Definition dispatch (request : AnyWireRequest) : G (RuntimeResult (response_type (any_opcode request))) :=
  match request as request return G (RuntimeResult (response_type (any_opcode request))) with
  | AnyRunBatch request => with_runner (rbr_runner_id request) (runner_run_batch (rbr_ctx request) (rbr_batch request))
  | AnyCancelRunner request => with_runner (crr_runner_id request) (runner_cancel (crr_invocation_id request))
  | AnyDisposeRunner request => with_runner (drr_runner_id request) runner_dispose
  | AnyCreateBlob request =>
      with_provider (cbl_provider_id request) (λ p, gw_create_blob_resource p (cbl_schema request) (cbl_bytes request))
  | AnyCreateCowState request =>
      with_provider (ccs_provider_id request)
        (λ p, gw_create_cow_state_resource p (ccs_kind_id request) (ccs_schema request) (ccs_bytes request))
  | AnyCreateCapability request =>
      with_provider (ccr_provider_id request) (λ p, gw_create_capability_resource p (ccr_kind_id request) (ccr_schema request))
  | AnyCollectReadPlan request =>
      with_provider (crp_provider_id request) (λ p, gw_collect_read_plan (gw_plans p) (crp_plan request))
  | AnySnapshotReadPlan request =>
      with_provider (srp_provider_id request)
        (λ p, gw_snapshot_read_plan (gw_plans p) (srp_plan request) (srp_kind_id request) (srp_schema request))
  | AnyOpenStreamPlan request =>
      with_provider (osp_provider_id request) (λ p, gw_open_stream_plan (gw_plans p) (osp_plan request))
  | AnyExportPlan request =>
      with_provider (epr_provider_id request) (λ p, gw_execute_export_plan (gw_plans p) (epr_plan request))
  | AnyCommitWritePlan request =>
      with_provider (cwp_provider_id request) (λ p, gw_commit_write_plan (gw_plans p) (cwp_plan request) (cwp_bytes request))
  | AnyCommandPlan request =>
      with_provider (cpr_provider_id request) (λ p, gw_execute_command_plan (gw_plans p) (cpr_plan request))
  | AnyCommandBatch request =>
      with_provider (cbr_provider_id request) (λ p, gw_execute_command_batch (gw_plans p) (cbr_batch request))
  | AnySagaPlan request =>
      with_provider (spr_provider_id request) (λ p, gw_execute_saga_plan (gw_plans p) (spr_saga request))
  | AnyInitialize _ => guest_unsupported OpPluginInitialize
  | AnySubmitTaskBatch _ => guest_unsupported OpTaskSubmitBatch
  | AnyCancelTask _ => guest_unsupported OpTaskCancel
  | AnyTaskOutcome _ => guest_unsupported OpTaskOutcome
  end.

(** The result of a request before it is encoded *)
Definition answer (codec_id : string) (request : AnyWireRequest) : G (RuntimeResult (response_type (any_opcode request))) :=
  match request as request return G (RuntimeResult (response_type (any_opcode request))) with
  | AnyInitialize request => initialize codec_id (irq_hello request)
  | request => λ '(self, w), if pg_initialized self then dispatch request (self, w) else Some (Err not_initialized, (self, w))
  end.

Definition handle (codec : ResponseCodec) (decoded : DecodedWireRequest) : G (list byte) :=
  let! result := answer (cdc_codec_id codec) (dwr_request decoded) in
  expect (cdc_encode codec (dwr_request_id decoded) (any_opcode (dwr_request decoded)) result).

(** A frame that does not decode has no request to answer. *)
Definition undecodable_jsonl (error : WireCodecError) : list byte :=
  error_text (runtime_error ERR_RUNTIME_HOST_FAILED "abi.guest" ("abi.decode:" +:+ wire_error_to_string error)).

Definition JsonlPluginGuest_request (bytes : list byte) : G (list byte) :=
  match decode_jsonl_any_request bytes DEFAULT_WIRE_LIMITS with
  | Ok decoded => handle JsonlCodec decoded
  | Err error => ret (undecodable_jsonl error)
  end.

Definition BinaryPluginGuest_request (bytes : list byte) : G (list byte) :=
  let! decoded := pure_call (decode_binary_any_request bytes DEFAULT_WIRE_LIMITS) in
  match decoded with
  | Ok decoded => handle BinaryCodec decoded
  | Err _ => ret []
  end.

(** ** Guests made from a configuration *)

Definition ConfiguredPluginFactory : Type := Value → M W (RuntimeResult LoadedPlugin).

Record ConfiguredGuest : Type := MkConfiguredGuest {
  cg_factory : option ConfiguredPluginFactory;
  cg_plugin : option PluginGuest;
  cg_initialization_attempted : bool
}.
Definition ConfiguredGuest_new (factory : ConfiguredPluginFactory) : ConfiguredGuest :=
  MkConfiguredGuest (Some factory) None false.

(** [factory.take()..and_then(factory)..and_then(new)..and_then(initialize)] *)
Definition configure (codec_id : string) (request : InitializeRequest) (factory : option ConfiguredPluginFactory) :
    M W (RuntimeResult (ProtocolHelloAck * PluginGuest)) := λ w,
  match factory with
  | None => Some (Err (abi_failure "abi.factory_missing" "plugin factory unavailable"), w)
  | Some factory =>
      match factory (default json_null (irq_config request)) w with
      | None => None
      | Some (Err error, w) => Some (Err error, w)
      | Some (Ok plugin, w) =>
          match PluginGuest_new plugin with
          | Err error => Some (Err error, w)
          | Ok guest =>
              match initialize codec_id (irq_hello request) (guest, w) with
              | Some (Ok ack, (guest, w)) => Some (Ok (ack, guest), w)
              | Some (Err error, (_, w)) => Some (Err error, w)
              | None => None
              end
          end
      end
  end.

Definition configured_handle (codec : ResponseCodec) (decoded : DecodedWireRequest) : M (ConfiguredGuest * W) (list byte) :=
  λ '(self, w),
  match cg_plugin self with
  | Some plugin =>
      match handle codec decoded (plugin, w) with
      | Some (bytes, (plugin, w)) =>
          Some (bytes, (MkConfiguredGuest (cg_factory self) (Some plugin) (cg_initialization_attempted self), w))
      | None => None
      end
  | None =>
      match dwr_request decoded with
      | AnyInitialize request =>
          if cg_initialization_attempted self then
            expect (cdc_encode codec (dwr_request_id decoded) OpPluginInitialize (Err already_initialized)) (self, w)
          else
            match configure (cdc_codec_id codec) request (cg_factory self) w with
            | Some (Ok (ack, plugin), w) =>
                expect (cdc_encode codec (dwr_request_id decoded) OpPluginInitialize (Ok ack))
                  (MkConfiguredGuest None (Some plugin) true, w)
            | Some (Err error, w) =>
                expect (cdc_encode codec (dwr_request_id decoded) OpPluginInitialize (Err error))
                  (MkConfiguredGuest None None true, w)
            | None => None
            end
      | request =>
          expect (cdc_encode codec (dwr_request_id decoded) (any_opcode request) (Err not_initialized)) (self, w)
      end
  end.

Definition ConfiguredJsonlPluginGuest_request (bytes : list byte) : M (ConfiguredGuest * W) (list byte) :=
  match decode_jsonl_any_request bytes DEFAULT_WIRE_LIMITS with
  | Ok decoded => configured_handle JsonlCodec decoded
  | Err error => ret (undecodable_jsonl error)
  end.

Definition ConfiguredBinaryPluginGuest_request (bytes : list byte) : M (ConfiguredGuest * W) (list byte) :=
  let! decoded := pure_call (decode_binary_any_request bytes DEFAULT_WIRE_LIMITS) in
  match decoded with
  | Ok decoded => configured_handle BinaryCodec decoded
  | Err _ => ret []
  end.

(** ** Guests that could not be made *)

Definition FailedAbiGuest_request (error : RuntimeError) (bytes : list byte) : option (list byte) :=
  match decode_jsonl_any_request bytes DEFAULT_WIRE_LIMITS with
  | Ok decoded => encode_result (dwr_request_id decoded) (any_opcode (dwr_request decoded)) (Err error)
  | Err _ => Some (error_text error)
  end.

Definition FailedBinaryAbiGuest_request (error : RuntimeError) (bytes : list byte) : option (list byte) :=
  match decode_binary_frame bytes DEFAULT_WIRE_LIMITS with
  | Ok frame => encode_binary_result (wh_request_id (bf_header frame)) (wh_opcode (bf_header frame)) (Err error)
  | Err _ => Some []
  end.
End Guests.

(** ** Callbacks of plugins (abi/dispatch.rs) and their clients *)

Section Host.
Context `{SJ : !SerdeJson} `{JS : !JsonlSerde} `{WS : !WireSerde} `{AT : !AbiText}.
(** What the submitter and the gateway of the host share *)
Context {H : Type}.
Variables (task_submitter : TaskSubmitter H) (resource_gateway : ResourcePlanGateway H).

Definition host_unsupported {A} (opcode : Opcode) : M H (RuntimeResult A) :=
  ret (Err (abi_failure "abi.host_opcode_unsupported" ("unsupported host opcode " +:+ hex16 (opcode_u16 opcode)))).

Definition host_answer (request : AnyWireRequest) : M H (RuntimeResult (response_type (any_opcode request))) :=
  match request as request return M H (RuntimeResult (response_type (any_opcode request))) with
  | AnySubmitTaskBatch request => ts_submit_batch task_submitter (stb_batch request)
  | AnyCancelTask request => ts_cancel_task task_submitter (ctr_handle request)
  | AnyTaskOutcome request => ts_task_outcome task_submitter (tor_handle request)
  | AnyCollectReadPlan request => gw_collect_read_plan resource_gateway (crp_plan request)
  | AnySnapshotReadPlan request =>
      gw_snapshot_read_plan resource_gateway (srp_plan request) (srp_kind_id request) (srp_schema request)
  | AnyOpenStreamPlan request => gw_open_stream_plan resource_gateway (osp_plan request)
  | AnyExportPlan request => gw_execute_export_plan resource_gateway (epr_plan request)
  | AnyCommitWritePlan request => gw_commit_write_plan resource_gateway (cwp_plan request) (cwp_bytes request)
  | AnyCommandPlan request => gw_execute_command_plan resource_gateway (cpr_plan request)
  | AnyCommandBatch request => gw_execute_command_batch resource_gateway (cbr_batch request)
  | AnySagaPlan request => gw_execute_saga_plan resource_gateway (spr_saga request)
  | AnyInitialize _ => host_unsupported OpPluginInitialize
  | AnyRunBatch _ => host_unsupported OpRunnerRunBatch
  | AnyCancelRunner _ => host_unsupported OpRunnerCancel
  | AnyDisposeRunner _ => host_unsupported OpRunnerDispose
  | AnyCreateBlob _ => host_unsupported OpResourceCreateBlob
  | AnyCreateCowState _ => host_unsupported OpResourceCreateCowState
  | AnyCreateCapability _ => host_unsupported OpResourceCreateCapability
  end.

Definition dispatch_decoded (codec : ResponseCodec) (decoded : DecodedWireRequest) : M H (list byte) :=
  let! result := host_answer (dwr_request decoded) in
  expect (cdc_encode codec (dwr_request_id decoded) (any_opcode (dwr_request decoded)) result).

Definition uncorrelated_error (detail : string) : list byte := error_text (abi_failure "abi.host_decode" detail).

Definition dispatch_host_request (request : list byte) : M H (list byte) :=
  match decode_jsonl_any_request request DEFAULT_WIRE_LIMITS with
  | Ok decoded => dispatch_decoded JsonlCodec decoded
  | Err error => ret (uncorrelated_error (wire_error_to_string error))
  end.

Definition dispatch_binary_host_request (request : list byte) : M H (list byte) :=
  let! decoded := pure_call (decode_binary_any_request request DEFAULT_WIRE_LIMITS) in
  match decoded with
  | Ok decoded => dispatch_decoded BinaryCodec decoded
  | Err _ => ret []
  end.
End Host.

(** ** [AbiHostClient] and [AbiHostClientV2] *)

Section HostClient.
Context `{SJ : !SerdeJson} `{JS : !JsonlSerde} `{WS : !WireSerde}.
Context {H : Type}.

(** The callbacks of [AbiHostV1] and [AbiHostV2], over the state of the host *)
Record AbiHost : Type := MkAbiHost {
  ah_request : option (list byte → M H AbiCallResult);
  ah_release : bool
}.

(** The call and what its result says *)
Definition call_host (self : AbiHost) (callback : list byte → M H AbiCallResult) (bytes : list byte)
    (contract_route failed_route : string) : M H (RuntimeResult (list byte)) :=
  let! response := callback bytes in
  ret (match (consume_call_result response (ah_release self) contract_route).1 with
       | Err error => Err error
       | Ok (true, response_bytes) => Ok response_bytes
       | Ok (false, response_bytes) => Err (abi_failure failed_route (from_utf8_lossy response_bytes))
       end).

Definition AbiHostClient_request (self : AbiHost) : TypedRequest H := λ opcode value,
  match ah_request self with
  | None => ret (Err (abi_failure "abi.host_callback_missing" "host request callback is unavailable"))
  | Some callback =>
      match encode_jsonl_request opcode 1 value DEFAULT_WIRE_LIMITS with
      | Err error => ret (Err (wire_failure error))
      | Ok bytes =>
          let? response_bytes := call_host self callback bytes "abi.v1.host_callback_contract" "abi.host_callback_failed" in
          ret (decode_jsonl_response opcode response_bytes 1 DEFAULT_WIRE_LIMITS)
      end
  end.

Definition AbiHostClientV2_request (self : AbiHost) : TypedRequest H := λ opcode value,
  match ah_request self with
  | None => ret (Err (abi_failure "abi.v2.host_callback_missing" "host request callback is unavailable"))
  | Some callback =>
      let! encoded := pure_call (encode_binary_request opcode 1 value DEFAULT_WIRE_LIMITS) in
      match encoded with
      | Err error => ret (Err (wire_failure error))
      | Ok bytes =>
          let? response_bytes := call_host self callback bytes "abi.v2.host_callback_contract" "abi.v2.host_callback_failed" in
          pure_call (decode_binary_response opcode response_bytes 1 DEFAULT_WIRE_LIMITS)
      end
  end.

Definition AbiHostClient_submitter (self : AbiHost) : TaskSubmitter H := AbiTaskClient (AbiHostClient_request self).
Definition AbiHostClient_gateway (self : AbiHost) : ResourcePlanGateway H := transport_plans (AbiHostClient_request self) None.
Definition AbiHostClientV2_submitter (self : AbiHost) : TaskSubmitter H := AbiTaskClient (AbiHostClientV2_request self).
Definition AbiHostClientV2_gateway (self : AbiHost) : ResourcePlanGateway H := transport_plans (AbiHostClientV2_request self) None.
End HostClient.

(** ** Building plugins (plugin.rs) *)

Section Builder.
Context `{SJ : !SerdeJson} `{RA : !RunnerApi} {W : Type}.

Record PluginBuilder : Type := MkPluginBuilder {
  plb_plugin_id : string;
  plb_version : string;
  plb_api_version : string;
  plb_artifact : PluginArtifact;
  plb_provides : PluginProvides;
  plb_requires : list string;
  plb_permissions : PermissionGrant;
  plb_lifecycle : LifecyclePolicy;
  plb_metadata : gmap string ScalarValue;
  plb_runners : list Runner;
  plb_async_handlers : list AsyncHandler;
  plb_host_services : list string;
  plb_resource_providers : list (string * ResourceProviderGateway W);
  plb_async_resource_providers : list string
}.

Definition PluginProvides_default : PluginProvides :=
  {| pv_runners := []; pv_protocols := []; pv_protocol_classes := ∅; pv_handler_bindings := []; pv_resource_schemas := [];
     pv_resource_providers := []; pv_resource_types := []; pv_effects := []; pv_streams := []; pv_subscriptions := [];
     pv_timers := []; pv_state_schemas := []; pv_host_extensions := []; pv_plugin_backends := []; pv_codecs := []; pv_bridges := [];
     pv_scheduler_policies := []; pv_workflows := [] |}.

Definition PluginBuilder_new (plugin_id : string) : PluginBuilder :=
  {| plb_plugin_id := plugin_id; plb_version := "0.1.0"; plb_api_version := "mutsuki-plugin-v1";
     plb_artifact := {| pa_artifact_type := ArtifactNative; pa_path := "native"; pa_sha256 := "sha256:native" |};
     plb_provides := PluginProvides_default; plb_requires := [];
     plb_permissions := {| pgr_effects := []; pgr_resources := [] |};
     plb_lifecycle := {| lc_reload_policy := "drain_and_swap"; lc_unload_timeout_ms := 5000; lc_supports_cancel := true;
                        lc_supports_dispose := true; lc_supports_snapshot := false |};
     plb_metadata := ∅; plb_runners := []; plb_async_handlers := []; plb_host_services := []; plb_resource_providers := [];
     plb_async_resource_providers := [] |}.

Definition PluginBuilder_eta (b : PluginBuilder) : PluginBuilder :=
  {| plb_plugin_id := plb_plugin_id b; plb_version := plb_version b; plb_api_version := plb_api_version b; plb_artifact := plb_artifact b;
     plb_provides := plb_provides b; plb_requires := plb_requires b; plb_permissions := plb_permissions b; plb_lifecycle := plb_lifecycle b;
     plb_metadata := plb_metadata b; plb_runners := plb_runners b; plb_async_handlers := plb_async_handlers b;
     plb_host_services := plb_host_services b; plb_resource_providers := plb_resource_providers b;
     plb_async_resource_providers := plb_async_resource_providers b |}.
#[export] Instance set_plb_version : Setter plb_version := ltac:(derive_setter PluginBuilder_eta plb_version).
#[export] Instance set_plb_api_version : Setter plb_api_version := ltac:(derive_setter PluginBuilder_eta plb_api_version).
#[export] Instance set_plb_artifact : Setter plb_artifact := ltac:(derive_setter PluginBuilder_eta plb_artifact).
#[export] Instance set_plb_provides : Setter plb_provides := ltac:(derive_setter PluginBuilder_eta plb_provides).
#[export] Instance set_plb_requires : Setter plb_requires := ltac:(derive_setter PluginBuilder_eta plb_requires).
#[export] Instance set_plb_permissions : Setter plb_permissions := ltac:(derive_setter PluginBuilder_eta plb_permissions).
#[export] Instance set_plb_lifecycle : Setter plb_lifecycle := ltac:(derive_setter PluginBuilder_eta plb_lifecycle).
#[export] Instance set_plb_metadata : Setter plb_metadata := ltac:(derive_setter PluginBuilder_eta plb_metadata).
#[export] Instance set_plb_runners : Setter plb_runners := ltac:(derive_setter PluginBuilder_eta plb_runners).
#[export] Instance set_plb_async_handlers : Setter plb_async_handlers := ltac:(derive_setter PluginBuilder_eta plb_async_handlers).
#[export] Instance set_plb_host_services : Setter plb_host_services := ltac:(derive_setter PluginBuilder_eta plb_host_services).
#[export] Instance set_plb_resource_providers : Setter plb_resource_providers := ltac:(derive_setter PluginBuilder_eta plb_resource_providers).
#[export] Instance set_plb_async_resource_providers : Setter plb_async_resource_providers :=
  ltac:(derive_setter PluginBuilder_eta plb_async_resource_providers).

(** The methods of the builder; [protocol::<P>] and [resource_type::<R>] push the
    descriptor of the type. *)
Inductive BuilderOp : Type :=
  | BuildVersion (version : string)
  | BuildApiVersion (api_version : string)
  | BuildArtifact (artifact : PluginArtifact)
  | BuildRequires (capability : string)
  | BuildMetadata (key : string) (value : ScalarValue)
  | BuildPermissions (permissions : PermissionGrant)
  | BuildLifecycle (lifecycle : LifecyclePolicy)
  | BuildRunner (runner : Runner)
  | BuildRunnerDescriptor (descriptor : RunnerDescriptor)
  | BuildAsyncHandler (handler : AsyncHandler)
  | BuildProtocolDescriptor (descriptor : ProtocolDescriptor)
  | BuildProtocolHandler (descriptor : ProtocolDescriptor) (target_runner_hint pool_id : string)
  | BuildHandlerBinding (binding : HandlerBinding)
  | BuildResourceTypeDescriptor (descriptor : ResourceTypeDescriptor)
  | BuildResourceProvider (provider_id : string)
  | BuildResourceProviderGateway (provider_id : string) (provider : ResourceProviderGateway W)
  | BuildAsyncResourceProviderGateway (provider_id : string)
  | BuildProvides (provides : PluginProvides)
  | BuildHostService (service_id : string).

(** [HandlerBindingBuilder::new(..).target_runner_hint(..).pool_id(..).build()] *)
Definition protocol_binding (plugin_id protocol_id target_runner_hint pool_id : string) : HandlerBinding :=
  {| hb_binding_id := "binding:" +:+ protocol_id; hb_plugin_id := plugin_id; hb_protocol_id := protocol_id;
     hb_target_protocol_id := protocol_id; hb_target_runner_hint := Some target_runner_hint; hb_pool_id := pool_id;
     hb_priority := 0; hb_policy := "single"; hb_metadata := ∅ |}.

Definition declare_provider (provider_id : string) (p : PluginProvides) : PluginProvides :=
  if decide (provider_id ∈ pv_resource_providers p) then p else p <| pv_resource_providers ::= λ l, l ++ [provider_id] |>.

Definition build_op (op : BuilderOp) (self : PluginBuilder) : PluginBuilder :=
  match op with
  | BuildVersion version => self <| plb_version := version |>
  | BuildApiVersion api_version => self <| plb_api_version := api_version |>
  | BuildArtifact artifact => self <| plb_artifact := artifact |>
  | BuildRequires capability => self <| plb_requires ::= λ l, l ++ [capability] |>
  | BuildMetadata key value => self <| plb_metadata ::= <[ key := value ]> |>
  | BuildPermissions permissions => self <| plb_permissions := permissions |>
  | BuildLifecycle lifecycle => self <| plb_lifecycle := lifecycle |>
  | BuildRunner runner =>
      self <| plb_provides ::= λ p, p <| pv_runners ::= λ l, l ++ [runner_descriptor runner] |> |>
           <| plb_runners ::= λ l, l ++ [runner] |>
  | BuildRunnerDescriptor descriptor => self <| plb_provides ::= λ p, p <| pv_runners ::= λ l, l ++ [descriptor] |> |>
  | BuildAsyncHandler handler =>
      self <| plb_provides ::= λ p, p <| pv_runners ::= λ l, l ++ [handler_descriptor handler] |> |>
           <| plb_async_handlers ::= λ l, l ++ [handler] |>
  | BuildProtocolDescriptor descriptor => self <| plb_provides ::= λ p, p <| pv_protocols ::= λ l, l ++ [descriptor] |> |>
  | BuildProtocolHandler descriptor target_runner_hint pool_id =>
      self <| plb_provides ::= λ p, p <| pv_protocols ::= λ l, l ++ [descriptor] |>
        <| pv_handler_bindings ::= λ l, l ++ [protocol_binding (plb_plugin_id self) (proto_protocol_id descriptor)
                                                target_runner_hint pool_id] |> |>
  | BuildHandlerBinding binding => self <| plb_provides ::= λ p, p <| pv_handler_bindings ::= λ l, l ++ [binding] |> |>
  | BuildResourceTypeDescriptor descriptor => self <| plb_provides ::= λ p, p <| pv_resource_types ::= λ l, l ++ [descriptor] |> |>
  | BuildResourceProvider provider_id => self <| plb_provides ::= declare_provider provider_id |>
  | BuildResourceProviderGateway provider_id provider =>
      self <| plb_provides ::= declare_provider provider_id |> <| plb_resource_providers ::= λ l, l ++ [(provider_id, provider)] |>
  | BuildAsyncResourceProviderGateway provider_id =>
      self <| plb_provides ::= declare_provider provider_id |> <| plb_async_resource_providers ::= λ l, l ++ [provider_id] |>
  | BuildProvides provides => self <| plb_provides := provides |>
  | BuildHostService service_id => self <| plb_host_services ::= λ l, l ++ [service_id] |>
  end.

Definition deployment_name (deployment : PluginDeploymentKind) : string :=
  match deployment with
  | DeployBuiltin => "builtin" | DeployAbi => "abi" | DeployWasm => "wasm" | DeployProcess => "process" | DeployPython => "python"
  end.

(** [if !l.iter().any(..) { l.push(..) }] *)
Definition push_unless {A} (key : A → string) (x : A) (l : list A) : list A :=
  if existsb (λ y, bool_decide (key y = key x)) l then l else l ++ [x].

Definition ensure_plugin_backend (self : PluginBuilder) : PluginBuilder :=
  if bool_decide (pv_runners (plb_provides self) = []) then self
  else
    let deployment := default_for_artifact (pa_artifact_type (plb_artifact self)) in
    let name := plb_plugin_id self +:+ "." +:+ deployment_name deployment in
    let abi {A} (a : A) := if decide (deployment = DeployAbi) then Some a else None in
    let provides := (plb_provides self)
      <| pv_host_extensions ::= push_unless hx_extension_id
           {| hx_extension_id := "host.extension." +:+ name; hx_kind := ExtPluginBackend; hx_supported_deployments := [deployment];
              hx_reload_policy := "static"; hx_drain_required := false |} |>
      <| pv_plugin_backends ::= push_unless pb_backend_id
           {| pb_backend_id := "plugin.backend." +:+ name; pb_deployment_kind := deployment;
              pb_task_client_protocol := "mutsuki.task.v1"; pb_resource_client_protocol := "mutsuki.resource-plan.v1";
              pb_codec_id := abi BINARY_CODEC_ID; pb_bridge_id := abi ABI_V2_BRIDGE_ID |} |> in
    let provides :=
      if decide (deployment = DeployAbi) then
        provides
          <| pv_codecs ::= push_unless cd_codec_id
               {| cd_codec_id := BINARY_CODEC_ID; cd_media_type := "application/msgpack";
                  cd_version := pretty ABI_V2_TRANSPORT_VERSION; cd_connection_scoped := true |} |>
          <| pv_bridges ::= push_unless bd_bridge_id
               {| bd_bridge_id := ABI_V2_BRIDGE_ID; bd_deployment_kind := DeployAbi; bd_codec_ids := [BINARY_CODEC_ID];
                  bd_drain_policy := "drain_and_swap" |} |>
      else provides in
    self <| plb_provides := provides |>.

Definition build (self : PluginBuilder) : LoadedPlugin (W := W) :=
  let self := ensure_plugin_backend self in
  {| lp_manifest := {| pm_plugin_id := plb_plugin_id self; pm_version := plb_version self; pm_api_version := plb_api_version self;
       pm_artifact := plb_artifact self; pm_provides := plb_provides self; pm_requires := plb_requires self;
       pm_permissions := plb_permissions self; pm_lifecycle := plb_lifecycle self; pm_metadata := plb_metadata self |};
     lp_runners := plb_runners self; lp_async_handlers := plb_async_handlers self; lp_host_services := plb_host_services self;
     lp_resource_providers := plb_resource_providers self; lp_async_resource_providers := plb_async_resource_providers self |}.

(** *** What is built is declared *)

(** Every object of the plugin is declared by its manifest. *)
Definition declared (self : PluginBuilder) : Prop :=
  (runner_descriptor <$> plb_runners self) ⊆ pv_runners (plb_provides self) ∧
  (handler_descriptor <$> plb_async_handlers self) ⊆ pv_runners (plb_provides self) ∧
  (plb_resource_providers self).*1 ⊆ pv_resource_providers (plb_provides self) ∧
  plb_async_resource_providers self ⊆ pv_resource_providers (plb_provides self) ∧
  NoDup (pv_resource_providers (plb_provides self)) ∧
  pv_host_extensions (plb_provides self) = [] ∧ pv_plugin_backends (plb_provides self) = [] ∧
  pv_codecs (plb_provides self) = [] ∧ pv_bridges (plb_provides self) = [].

Lemma declare_provider_adds id p :
  id ∈ pv_resource_providers (declare_provider id p) ∧ pv_resource_providers p ⊆ pv_resource_providers (declare_provider id p) ∧
  (NoDup (pv_resource_providers p) → NoDup (pv_resource_providers (declare_provider id p))).
Proof.
  unfold declare_provider. case_decide; [done|]. cbn. split; [set_solver|]. split; [set_solver|].
  intros Hnd. apply NoDup_app. split; [done|]. split; [set_solver|apply NoDup_singleton].
Qed.

Lemma declare_provider_rest id p :
  pv_runners (declare_provider id p) = pv_runners p ∧ pv_host_extensions (declare_provider id p) = pv_host_extensions p ∧
  pv_plugin_backends (declare_provider id p) = pv_plugin_backends p ∧ pv_codecs (declare_provider id p) = pv_codecs p ∧
  pv_bridges (declare_provider id p) = pv_bridges p.
Proof. unfold declare_provider. by case_decide. Qed.

Lemma build_op_declared op self : (∀ p, op ≠ BuildProvides p) → declared self → declared (build_op op self).
Proof.
  intros Hop (H1 & H2 & H3 & H4 & H5 & H6). destruct op; unfold declared; cbn; try done.
  all: try (lazymatch goal with |- context [declare_provider ?id ?p] =>
    destruct (declare_provider_adds id p) as (D1 & D2 & D3); destruct (declare_provider_rest id p) as (-> & -> & -> & -> & ->) end).
  all: rewrite ?fmap_app; split_and!; try naive_solver; set_solver.
Qed.

Definition built (plugin_id : string) (ops : list BuilderOp) : LoadedPlugin (W := W) :=
  build (foldl (λ self op, build_op op self) (PluginBuilder_new plugin_id) ops).

(** The host reaches the plugin: one backend, of the deployment of its artifact,
    whose codec and bridge the plugin declares as well. *)
Definition reachable_backend (manifest : PluginManifest) : Prop :=
  ∃ backend extension, pv_plugin_backends (pm_provides manifest) = [backend] ∧
    pv_host_extensions (pm_provides manifest) = [extension] ∧
    pb_deployment_kind backend = default_for_artifact (pa_artifact_type (pm_artifact manifest)) ∧
    hx_supported_deployments extension = [pb_deployment_kind backend] ∧
    (∀ codec_id, pb_codec_id backend = Some codec_id → codec_id ∈ cd_codec_id <$> pv_codecs (pm_provides manifest)) ∧
    (∀ bridge_id, pb_bridge_id backend = Some bridge_id →
       ∃ bridge, bridge ∈ pv_bridges (pm_provides manifest) ∧ bd_bridge_id bridge = bridge_id ∧
         bd_deployment_kind bridge = pb_deployment_kind backend ∧ ∀ codec_id, pb_codec_id backend = Some codec_id → codec_id ∈ bd_codec_ids bridge).

Lemma ops_declared ops self :
  (∀ p, BuildProvides p ∉ ops) → declared self → declared (foldl (λ self op, build_op op self) self ops).
Proof.
  revert self. induction ops as [|op ops IH]; intros self Hops Hself; [done|]. cbn. apply IH; [set_solver|].
  apply build_op_declared; [|done]. intros p ->. eapply Hops. left.
Qed.

(** a plugin made with the builder declares what it brings: the descriptor of
    every runner and handler, the id of every resource provider, each once; and a
    plugin that declares a runner declares one backend for the deployment of its
    artifact, with the codec and the bridge that backend names. *)
Theorem built_plugin_declared plugin_id ops :
  (∀ p, BuildProvides p ∉ ops) →
  let plugin := built plugin_id ops in
  let provides := pm_provides (lp_manifest plugin) in
  (runner_descriptor <$> lp_runners plugin) ++ (handler_descriptor <$> lp_async_handlers plugin) ⊆ pv_runners provides ∧
  (lp_resource_providers plugin).*1 ++ lp_async_resource_providers plugin ⊆ pv_resource_providers provides ∧
  NoDup (pv_resource_providers provides) ∧
  (pv_runners provides ≠ [] → reachable_backend (lp_manifest plugin)).
Proof.
  intros Hops. assert (declared (PluginBuilder_new plugin_id)) as H0 by (unfold declared; cbn; split_and!; try set_solver; constructor).
  pose proof (ops_declared ops _ Hops H0) as (H1 & H2 & H3 & H4 & H5 & Hx & Hb & Hc & Hg).
  unfold built. set (self := foldl _ _ ops) in *. clearbody self. cbn zeta.
  assert (pv_runners (plb_provides (ensure_plugin_backend self)) = pv_runners (plb_provides self) ∧
    pv_resource_providers (plb_provides (ensure_plugin_backend self)) = pv_resource_providers (plb_provides self)) as [E1 E2].
  { unfold ensure_plugin_backend. case_bool_decide; [done|]. by case_decide. }
  assert (plb_runners (ensure_plugin_backend self) = plb_runners self ∧ plb_async_handlers (ensure_plugin_backend self) = plb_async_handlers self ∧
    plb_resource_providers (ensure_plugin_backend self) = plb_resource_providers self ∧
    plb_async_resource_providers (ensure_plugin_backend self) = plb_async_resource_providers self) as (E3 & E4 & E5 & E6).
  { unfold ensure_plugin_backend. by case_bool_decide. }
  cbn [lp_runners lp_async_handlers lp_resource_providers lp_async_resource_providers lp_manifest pm_provides build].
  rewrite E1, E2, E3, E4, E5, E6. split; [set_solver|]. split; [set_solver|]. split; [done|]. intros Hr.
  unfold build, ensure_plugin_backend, reachable_backend. rewrite bool_decide_eq_false_2 by done. cbn [lp_manifest pm_provides pm_artifact].
  case_decide as Hd; cbn; rewrite Hx, Hb, ?Hc, ?Hg; cbn; eexists _, _; split_and!; try done.
  - intros codec_id [= <-]. set_solver.
  - intros bridge_id [= <-]. eexists. split; [left|]. split; [done|]. split; [done|]. intros codec_id [= <-]. left.
Qed.
End Builder.

(** ** A call through the wire is the call without it *)

(** A function of any request, at a request of known operation *)
Definition at_opcode `{SJ : !SerdeJson} {F : Opcode → Type} (f : ∀ request, F (any_opcode request)) (opcode : Opcode) :
    request_type opcode → F opcode :=
  match opcode return request_type opcode → F opcode with
  | OpPluginInitialize => λ r, f (AnyInitialize r)
  | OpRunnerRunBatch => λ r, f (AnyRunBatch r)
  | OpRunnerCancel => λ r, f (AnyCancelRunner r)
  | OpRunnerDispose => λ r, f (AnyDisposeRunner r)
  | OpTaskSubmitBatch => λ r, f (AnySubmitTaskBatch r)
  | OpTaskCancel => λ r, f (AnyCancelTask r)
  | OpTaskOutcome => λ r, f (AnyTaskOutcome r)
  | OpResourceReadCollect => λ r, f (AnyCollectReadPlan r)
  | OpResourceReadSnapshot => λ r, f (AnySnapshotReadPlan r)
  | OpResourceStreamOpen => λ r, f (AnyOpenStreamPlan r)
  | OpResourceExport => λ r, f (AnyExportPlan r)
  | OpResourceWriteCommit => λ r, f (AnyCommitWritePlan r)
  | OpResourceCommand => λ r, f (AnyCommandPlan r)
  | OpResourceCommandBatch => λ r, f (AnyCommandBatch r)
  | OpResourceSaga => λ r, f (AnySagaPlan r)
  | OpResourceCreateBlob => λ r, f (AnyCreateBlob r)
  | OpResourceCreateCowState => λ r, f (AnyCreateCowState r)
  | OpResourceCreateCapability => λ r, f (AnyCreateCapability r)
  end.

Lemma consume_ok bytes route : consume_call_result (AbiCallResult_ok bytes) true route =
  (Ok (true, bytes), if bool_decide (bytes = []) then None else Some (AbiBuffer_from_bytes bytes)).
Proof.
  unfold consume_call_result, AbiCallResult_ok, AbiBuffer_from_bytes. case_bool_decide as Hb; [by subst|].
  assert (len bytes ≠ 0%N ∧ (0 < len bytes)%N) as [H1 H2] by (destruct bytes; [done|unfold len; cbn; lia]).
  unfold valid_buffer, as_slice. cbn [acr_payload acr_status ab_len ab_ptr].
  rewrite (bool_decide_eq_true_2 (0 < len bytes)%N), (bool_decide_eq_false_2 (len bytes = 0%N)) by done. cbn.
  rewrite (decide_False (P := len bytes = 0%N)), (decide_True (P := 0%Z = 0%Z)) by done. unfold len. by rewrite Nat2N.id, firstn_all.
Qed.

Lemma consume_failed bytes route : (consume_call_result (AbiCallResult_failed bytes) true route).1 = Ok (false, bytes).
Proof.
  pose proof (consume_ok bytes route) as E. unfold consume_call_result, AbiCallResult_ok, AbiCallResult_failed in *.
  cbn [acr_status acr_payload] in *. destruct (negb (valid_buffer _)); [done|]. destruct (_ && _); [done|]. cbn [fst].
  rewrite (decide_True (P := 0%Z = 0%Z)) in E by done. rewrite (decide_False (P := 1%Z = 0%Z)), (decide_True (P := 1%Z = 1%Z)) by done.
  injection E as E _. by rewrite E.
Qed.

Section Calls.
Context `{SJ : !SerdeJson} `{WS : !WireSerde}.

(** An empty response is no frame. *)
Definition no_response : RuntimeError := wire_runtime_error (Truncated 4 0).

(** The answers of a responder, through the wire: it is called with what
    MessagePack reads of the request, the caller gets what MessagePack reads of
    the answer, and what cannot be written or read is an error. *)
Definition over_wire {S} (call : TypedRequest S) : TypedRequest S := λ opcode value s,
  match encode_binary_request opcode 1 value DEFAULT_WIRE_LIMITS tt with
  | None => None
  | Some (Err error, _) => Some (Err (wire_failure error), s)
  | Some (Ok _, _) =>
      match received_request opcode value DEFAULT_WIRE_LIMITS with
      | Err _ => Some (Err no_response, s)
      | Ok image =>
          match call opcode image s with
          | None => None
          | Some (result, s) =>
              match encode_binary_response 1 opcode result DEFAULT_WIRE_LIMITS tt with
              | None => None
              | Some (Ok _, _) => Some (received_response opcode result, s)
              | Some (Err _, _) => Some (Err no_response, s)
              end
          end
      end
  end.

Lemma default_fits : (lim_max_frame_bytes DEFAULT_WIRE_LIMITS ≤ u32_max)%N.
Proof. vm_compute. discriminate. Qed.

Lemma decode_result opcode (result : RuntimeResult (response_type opcode)) bytes :
  encode_binary_result 1 opcode result = Some bytes →
  decode_binary_response opcode bytes 1 DEFAULT_WIRE_LIMITS tt =
    Some (match encode_binary_response 1 opcode result DEFAULT_WIRE_LIMITS tt with
          | Some (Ok _, _) => received_response opcode result
          | _ => Err no_response
          end, tt).
Proof.
  unfold encode_binary_result. destruct (encode_binary_response _ _ _ _ _) as [[[b|e] []]|] eqn:E; [..|done]; intros [= <-].
  - by apply (response_roundtrip opcode 1 result DEFAULT_WIRE_LIMITS b); [vm_compute; discriminate|apply default_fits|].
  - reflexivity.
Qed.

(** The bytes that answer a request that arrived as [received] *)
Definition answered {S} {opcode} (call : request_type opcode → M S (RuntimeResult (response_type opcode)))
    (received : WireResult (request_type opcode)) : M S (list byte) :=
  match received with
  | Err _ => ret []
  | Ok image => let! result := call image in expect (encode_binary_result 1 opcode result)
  end.

(** The client of a responder that never panics on its own *)
Lemma client_over_wire {S} (respond : list byte → M S (list byte)) (call : TypedRequest S) :
  (∀ opcode value bytes s, encode_binary_request opcode 1 value DEFAULT_WIRE_LIMITS tt = Some (Ok bytes, tt) →
     respond bytes s = answered (call opcode) (received_request opcode value DEFAULT_WIRE_LIMITS) s) →
  ∀ opcode value s,
    AbiHostClientV2_request (MkAbiHost (Some (λ bytes, let! b := respond bytes in ret (AbiCallResult_ok b))) true) opcode value s =
    over_wire call opcode value s.
Proof.
  intros Hresp opcode value s. unfold AbiHostClientV2_request, over_wire, pure_call. cbn [ah_request].
  destruct (encode_binary_request _ _ _ _ _) as [[[bytes|e] []]|] eqn:Henc; [|done..].
  unfold try_bind, call_host, bind, ret, expect. cbn [fst fmap option_fmap option_map ah_release ret]. rewrite (Hresp _ _ _ _ Henc).
  unfold answered. destruct (received_request _ _ _) as [image|e]; [|reflexivity]. unfold bind.
  destruct (call opcode image s) as [[result s']|]; [|done]. unfold expect, ret, panic.
  destruct (encode_binary_result 1 opcode result) as [b|] eqn:Eb.
  - rewrite (consume_ok b). cbn [fst]. pose proof (decode_result _ _ _ Eb) as Hd.
    rewrite Hd. cbn [fst fmap option_fmap option_map].
    unfold encode_binary_result in Eb. by destruct (encode_binary_response _ _ _ _ _) as [[[?|?] []]|].
  - unfold encode_binary_result in Eb. by destruct (encode_binary_response _ _ _ _ _) as [[[?|?] []]|].
Qed.

Section Callbacks.
Context {H : Type}.
Variables (task_submitter : TaskSubmitter H) (resource_gateway : ResourcePlanGateway H).

Lemma dispatch_responds opcode value bytes h :
  encode_binary_request opcode 1 value DEFAULT_WIRE_LIMITS tt = Some (Ok bytes, tt) →
  dispatch_binary_host_request task_submitter resource_gateway bytes h =
    answered (at_opcode (F := λ opcode, M H (RuntimeResult (response_type opcode)))
                (host_answer task_submitter resource_gateway) opcode) (received_request opcode value DEFAULT_WIRE_LIMITS) h.
Proof.
  intros Henc. apply request_decodes_any in Henc; [|vm_compute; discriminate|apply default_fits].
  unfold dispatch_binary_host_request, pure_call. unfold bind at 1. rewrite Henc. cbn [fst option_fmap option_map fmap expect ret].
  destruct (received_request _ _ _); [|done]. destruct opcode; reflexivity.
Qed.

End Callbacks.

(** ** A plugin seen by its host *)

Section Session.
Context `{RA : !RunnerApi} {W : Type}.

(** A plugin waits for its configuration, was refused, or serves. *)
Inductive PluginState : Type :=
  | Waiting (factory : ConfiguredPluginFactory (W := W))
  | Refused
  | Serving (guest : PluginGuest (W := W)).

Definition plugin_answer (request : AnyWireRequest) : M (PluginState * W) (RuntimeResult (response_type (any_opcode request))) :=
  λ '(st, w),
  match st with
  | Serving guest =>
      match answer BINARY_CODEC_ID request (guest, w) with
      | Some (result, (guest, w)) => Some (result, (Serving guest, w))
      | None => None
      end
  | Waiting factory =>
      match request as request return option (RuntimeResult (response_type (any_opcode request)) * (PluginState * W)) with
      | AnyInitialize request =>
          match configure BINARY_CODEC_ID request (Some factory) w with
          | Some (Ok (ack, guest), w) => Some (Ok ack, (Serving guest, w))
          | Some (Err error, w) => Some (Err error, (Refused, w))
          | None => None
          end
      | _ => Some (Err not_initialized, (st, w))
      end
  | Refused =>
      Some (Err (match request with AnyInitialize _ => already_initialized | _ => not_initialized end), (st, w))
  end.

(** The object that is in one of these states *)
Definition guest_of (st : PluginState) : ConfiguredGuest (W := W) :=
  match st with
  | Waiting factory => MkConfiguredGuest (Some factory) None false
  | Refused => MkConfiguredGuest None None true
  | Serving guest => MkConfiguredGuest None (Some guest) true
  end.

Abbreviation plugin_typed := (at_opcode (F := λ opcode, M (PluginState * W) (RuntimeResult (response_type opcode))) plugin_answer).

Lemma configured_responds opcode value bytes st w :
  encode_binary_request opcode 1 value DEFAULT_WIRE_LIMITS tt = Some (Ok bytes, tt) →
  ConfiguredBinaryPluginGuest_request bytes (guest_of st, w) =
    match answered (plugin_typed opcode) (received_request opcode value DEFAULT_WIRE_LIMITS) (st, w) with
    | Some (bytes, (st, w)) => Some (bytes, (guest_of st, w))
    | None => None
    end.
Proof.
  intros Henc. apply request_decodes_any in Henc; [|vm_compute; discriminate|apply default_fits].
  unfold ConfiguredBinaryPluginGuest_request, pure_call, answered. unfold bind at 1. rewrite Henc. cbn [fst option_fmap option_map fmap expect ret].
  destruct (received_request _ _ _) as [image|e]; [|done]. unfold configured_handle, bind.
  destruct st as [factory| |guest]; cbn [guest_of cg_plugin cg_initialization_attempted cg_factory dwr_request dwr_request_id].
  - destruct opcode; try (cbn; unfold expect, ret, panic; by destruct (encode_binary_result _ _ _)).
    cbn [any_request at_opcode plugin_answer cdc_codec_id cdc_encode BinaryCodec].
    destruct (configure _ _ _ _) as [[[[ack g]|e] w']|]; unfold expect, ret, panic; [by destruct (encode_binary_result _ _ _)..|done].
  - destruct opcode; cbn; unfold expect, ret, panic; by destruct (encode_binary_result _ _ _).
  - destruct opcode; cbn [any_request at_opcode plugin_answer]; unfold handle, bind;
      cbn [any_opcode cdc_codec_id cdc_encode BinaryCodec dwr_request dwr_request_id];
      (destruct (answer _ _ _) as [[result [g w']]|]; [|done]); unfold expect, ret, panic; by destruct (encode_binary_result _ _ _).
Qed.

(** The host's side of the ABI of a plugin: its [request] callback *)
Definition plugin_callback (bytes : list byte) : M (option (AbiContext (ConfiguredGuest (W := W) * W))) AbiCallResult := λ context,
  Some (guest_request ConfiguredBinaryPluginGuest_request context (MkAbiBuffer (Some bytes) (len bytes))).
Definition plugin_client : TypedRequest (option (AbiContext (ConfiguredGuest (W := W) * W))) :=
  AbiHostClientV2_request (MkAbiHost (Some plugin_callback) true).

Definition guest_panicked : RuntimeError := abi_failure "abi.v2.host_callback_failed" "ABI guest panicked".

(** What the host sees: after a panic every call that can be encoded fails. *)
Definition seen_call : TypedRequest (PluginState * W * bool) := λ opcode value '(s, poisoned),
  match encode_binary_request opcode 1 value DEFAULT_WIRE_LIMITS tt with
  | None => None
  | Some (Err error, _) => Some (Err (wire_failure error), (s, poisoned))
  | Some (Ok _, _) =>
      if poisoned then Some (Err guest_panicked, (s, true))
      else
        match over_wire plugin_typed opcode value s with
        | Some (result, s) => Some (result, (s, false))
        | None => Some (Err guest_panicked, (s, true))
        end
  end.

Definition context_of (seen : PluginState * W * bool) : option (AbiContext (ConfiguredGuest (W := W) * W)) :=
  let '(st, w, poisoned) := seen in Some (MkAbiContext (guest_of st, w) poisoned).

Lemma sent_bytes (bytes : list byte) : as_slice (MkAbiBuffer (Some bytes) (len bytes)) = bytes.
Proof.
  unfold as_slice. cbn [ab_len ab_ptr]. case_decide as Hl; [by destruct bytes|]. cbn. unfold len. by rewrite Nat2N.id, firstn_all.
Qed.

Lemma plugin_call_seen opcode value seen :
  plugin_client opcode value (context_of seen) =
    match seen_call opcode value seen with
    | Some (result, seen) => Some (result, context_of seen)
    | None => None
    end.
Proof.
  destruct seen as [[st w] poisoned]. unfold plugin_client, seen_call, AbiHostClientV2_request, pure_call. cbn [ah_request].
  destruct (encode_binary_request _ _ _ _ _) as [[[bytes|e] []]|] eqn:Henc; [|done..].
  unfold try_bind, call_host, plugin_callback, bind, ret, expect. cbn [fst fmap option_fmap option_map ah_release ret].
  unfold guest_request. cbn [context_of ac_guest ac_poisoned ab_ptr ab_len]. rewrite (bool_decide_eq_false_2 (Some bytes = None)) by done.
  cbn [andb]. destruct poisoned; [by rewrite consume_failed|]. rewrite sent_bytes, (configured_responds _ _ _ _ _ Henc).
  unfold over_wire, answered. rewrite Henc. destruct (received_request _ _ _) as [image|e]; [|reflexivity]. unfold bind.
  destruct (plugin_typed opcode image (st, w)) as [[result [st' w']]|]; [|by rewrite consume_failed].
  unfold expect, ret, panic. destruct (encode_binary_result 1 opcode result) as [b|] eqn:Eb.
  - rewrite consume_ok. cbn [fst]. rewrite (decode_result _ _ _ Eb). cbn [fst fmap option_fmap option_map].
    unfold encode_binary_result in Eb. by destruct (encode_binary_response _ _ _ _ _) as [[[?|?] []]|].
  - rewrite consume_failed. unfold encode_binary_result in Eb. by destruct (encode_binary_response _ _ _ _ _) as [[[?|?] []]|].
Qed.

(** ** Sessions *)

Definition AnyCall : Type := { opcode & request_type opcode }.
Definition AnyReply : Type := { opcode & RuntimeResult (response_type opcode) }.

Fixpoint session {S} (request : TypedRequest S) (calls : list AnyCall) : M S (list AnyReply) :=
  match calls with
  | [] => ret []
  | existT opcode value :: calls =>
      let! result := request opcode value in
      let! results := session request calls in
      ret (existT opcode result :: results)
  end.

End Session.
End Calls.

(** ** Concrete calls *)

(** Strings of up to 31 bytes as MessagePack *)
Definition demo_text (text : string) : Result string (list byte) :=
  let bytes := list_byte_of_string text in
  if decide (len bytes < 32)%N then Ok (byte_of (160 + len bytes) :: bytes) else Err "long".
Definition demo_handle (task_id : string) : TaskHandle :=
  {| h_task_id := task_id; h_protocol_id := "p"; h_target_binding_id := None; h_cancel_policy := Cascade; h_trace_id := None;
     h_correlation_id := None |}.
Definition demo_initialize : InitializeRequest := MkInitializeRequest hello_binary None.

#[local] Instance demo_handle_eq_dec : EqDecision TaskHandle.
Proof. solve_decision. Defined.
#[local] Instance demo_hello_eq_dec : EqDecision ProtocolHello.
Proof. solve_decision. Defined.
#[local] Instance demo_value_eq_dec : EqDecision (@Value TextJson) := String.eq_dec.
#[local] Instance demo_initialize_eq_dec : EqDecision InitializeRequest.
Proof. solve_decision. Defined.

(** Cancelling a task and disposing of a runner have an encoding, and
    initialisation requests have the one of [demo_initialize]. *)
Definition demo_requests (opcode : Opcode) : MessagePack (request_type opcode) :=
  match opcode return MessagePack (request_type opcode) with
  | OpTaskCancel =>
      {| mp_serialize := λ request,
           if decide (ctr_handle request = demo_handle (h_task_id (ctr_handle request)))
           then demo_text (h_task_id (ctr_handle request)) else Err "unsupported";
         mp_deserialize := λ bytes, Ok (MkCancelTaskRequest (demo_handle (string_of_list_byte (tail bytes)))) |}
  | OpRunnerDispose =>
      {| mp_serialize := λ request, demo_text (drr_runner_id request);
         mp_deserialize := λ bytes, Ok (MkDisposeRunnerRequest (string_of_list_byte (tail bytes))) |}
  | OpPluginInitialize =>
      {| mp_serialize := λ request, if decide (request = demo_initialize) then Ok [byte_of 192] else Err "unsupported";
         mp_deserialize := λ _, Ok demo_initialize |}
  | _ => {| mp_serialize := λ _, Err "unsupported"; mp_deserialize := λ _, Err "unsupported" |}
  end.

(** Empty responses are nil; the others have no encoding. *)
Definition demo_responses (opcode : Opcode) : MessagePack (response_type opcode) :=
  match opcode return MessagePack (response_type opcode) with
  | OpTaskCancel | OpRunnerCancel | OpRunnerDispose => {| mp_serialize := λ _, Ok [byte_of 192]; mp_deserialize := λ _, Ok tt |}
  | _ => {| mp_serialize := λ _, Err "unsupported"; mp_deserialize := λ _, Err "unsupported" |}
  end.
#[local] Instance demo_wire : WireSerde := {|
  request_mp := demo_requests; response_mp := demo_responses;
  error_mp := {| mp_serialize := λ _, Err "unsupported"; mp_deserialize := λ _, Err "unsupported" |}
|}.

(** A host whose submitter counts the tasks it cancelled *)
Definition demo_submitter : TaskSubmitter nat := {|
  ts_submit_batch _ := ret (Ok []); ts_cancel_task _ cancelled := Some (Ok tt, S cancelled); ts_task_outcome _ := ret (Ok None)
|}.
Definition demo_gateway : ResourcePlanGateway nat := local_plans ∅.


(** A plugin with one runner *)
#[local] Instance demo_runners : RunnerApi := {|
  Runner := string;
  runner_descriptor _ := core_kernel_descriptor 1;
  runner_run_batch _ batch runner := (Ok (from_results batch []), runner);
  runner_cancel _ runner := (Ok tt, runner);
  runner_dispose runner := (Ok tt, runner);
  AsyncHandler := Empty_set;
  handler_descriptor h := match h with end;
  handler_dispose h := match h with end
|}.
Definition demo_manifest : PluginManifest := core_manifest (core_kernel_descriptor 1).
Definition demo_plugin : LoadedPlugin (W := nat) :=
  {| lp_manifest := demo_manifest; lp_runners := ["w"]; lp_async_handlers := []; lp_host_services := []; lp_resource_providers := [];
     lp_async_resource_providers := [] |}.
Definition demo_factory : ConfiguredPluginFactory (W := nat) := λ _ made, Some (Ok demo_plugin, S made).
Definition demo_calls : list AnyCall :=
  [existT OpRunnerDispose (MkDisposeRunnerRequest "core.kernel"); existT OpPluginInitialize demo_initialize;
   existT OpRunnerDispose (MkDisposeRunnerRequest "core.kernel"); existT OpPluginInitialize demo_initialize;
   existT OpRunnerDispose (MkDisposeRunnerRequest "core.kernel")].
Definition demo_seen : PluginState (W := nat) * nat * bool := (Waiting demo_factory, 0, false).

(** Which calls succeed, and how often the factory was called *)
Definition demo_summary (run : option (list AnyReply * option (AbiContext (ConfiguredGuest (W := nat) * nat)))) : option (list bool * option nat) :=
  match run with
  | Some (replies, context) =>
      Some (List.map (λ reply : AnyReply, match projT2 reply with Ok _ => true | Err _ => false end) replies,
            option_map (λ c, snd (ac_guest c)) context)
  | None => None
  end.

